(* ===== verification/_CoqProject ===== *)
-Q . S2P
Prelude.v
TemporalIso.v
TemporalCalendar.v
TemporalArith.v
TemporalDuration.v
Wtf8.v
NanBox.v
Heap.v
HeapInv.v
HeapSweep.v
HeapSpec.v
Gc.v
GcMark.v
GcMinor.v
GcBarrier.v
GcSpec.v
GcIncremental.v
RegexFold.v
Regex.v
RegexComp.v
RegexVm.v
RegexTotal.v
RegexSem.v
RegexRuns.v
RegexCode.v
RegexRun.v
RegexExec.v
RegexSpec.v
RegexSaves.v
RegexScan.v
RegexScanSpec.v
RegexLinear.v
RegexUnits.v
RegexSteps.v
RegexLinRun.v
RegexLinFilter.v
RegexLinSpec.v
Prog.v
Probe.v
Shape.v
ShapeTable.v
ShapeInv.v
ShapeSpec.v
Ic.v
Object.v
ObjectAttr.v
ObjectSlots.v
ObjectInv.v
ObjectData.v
ObjectReads.v
ObjectWrites.v
ObjectSlotOps.v
ObjectGrow.v
ObjectOps.v
ObjectCache.v
ObjectViews.v
ObjectMachine.v
ObjectSpec.v
ObjectHistory.v
HandleMap.v
HandleMapSpec.v
CollIndex.v
CollIndexSpec.v
Float.v
Collection.v
CollectionBase.v
CollectionList.v
CollectionOps.v
CollectionIter.v
CollectionSpec.v
CollectionRefine.v
CollectionHistory.v
