(* ===== verification/Prelude.v ===== *)
(** * A verification library for Kataan

    Kataan ([src/src/]) is a JavaScript engine in Rust: a lexer and parser produce
    a tree ([lexer/], [parser/], [ast/]), a tree-walking evaluator ([nbexec/]) and a
    bytecode machine with a compiler to native code ([bytecode.rs], [nbvm.rs],
    [jit.rs]) run it, over a realm of objects ([realm.rs], [object.rs],
    [shape.rs]) that live in a generational heap ([heap.rs], [gc.rs]) and are
    named by NaN-boxed values ([nanbox.rs]); strings are WTF-8 ([wtf8.rs]) and the
    Temporal library computes on plain integers ([temporal_iso.rs]).  This library
    models the layers everything else rests on, and proves them correct.

    ** The files

    - [Prelude]: machine integers (a Rust integer is a [Z]; casts and unbounded
      operations wrap explicitly), automation, generic lemmas.
    - [TemporalIso] ([temporal_iso.rs]): dates, times, durations and their
      arithmetic, one definition for each function of the source.
      [TemporalCalendar] shows that epoch days count the calendar's days, both
      ways, and that week numbers follow the Thursday rule; [TemporalArith] that
      adding and differencing dates are inverse, that the search loops end, and
      that rounding to an increment is what each mode asks for while the code's
      128-bit sums fit; [TemporalDuration] that balancing keeps the total, and that
      validity is the specification's except for [i128::MIN], which the code
      accepts.  Overflow wraps, as in the release build; a debug build panics.
    - [Wtf8] ([wtf8.rs]): a string is its list of bytes; canonical strings are in
      bijection with sequences of UTF-16 units, and length, comparison, ranges,
      slices and appends agree with that view.
    - [NanBox] ([nanbox.rs]): boxing and unboxing are inverse, the kinds disjoint.
    - [Heap] ([heap.rs]): the slot table as a state that every operation threads.
      [HeapInv] states the heap's invariant ([wf]: the free list is exact, the
      live count is exact, every young object is where the minor sweep looks, the
      remembered set lists exactly the slots that are not clean) and its
      preservation by the mutator's operations; [HeapSweep] treats free, both
      sweeps and compaction, and the equivalence of the optimised minor sweep with
      the plain loops; [HeapSpec] states what the heap promises, over all
      histories of operations.
    - [Gc] ([gc.rs]): the collector over that heap.  [GcMark] shows that marking
      is reachability; [GcMinor] what the minor mark phase promotes; [GcBarrier]
      that the verifier decides the generational invariant and that the write
      barriers keep it; [GcSpec] the guarantees of full, ephemeron, minor and
      compacting collections, and of every history of a mutator and its
      collector; [GcIncremental] the incremental marker, alone and beside a
      mutator.
    - Regular expressions ([regex/]).  The code: [RegexFold] (the case-folding
      tables of [fold_data.rs] and their two binary searches), [Regex] (the AST of
      [parser.rs], the instructions and the predicates on characters of [vm.rs]),
      [RegexComp] ([compile.rs]), [RegexVm] (the backtracking machine of [vm.rs]:
      one instruction forward, the unwinding of the stack, their loop),
      [RegexScan] ([mod.rs]: flags, the start filters, the scan), [RegexLinear]
      ([linear.rs]: the matcher of straight programs).  The specification: [RegexSem] gives a pattern its meaning, the list of all the
      ways it matches in the order of ECMA-262's matchers ([runs]), and a machine
      of threads without undo ([RunN]).  The proofs: [RegexTotal] (the machine
      ends within its budget), [RegexRuns] (what a match does to the position and
      the captures), [RegexCode] (the compiler emits code of the right shape),
      [RegexRun] (that code, on threads, does what the pattern means), [RegexExec]
      (the backtracking machine with its stack, its shortcuts and its caps
      follows the threads), [RegexSpec] (the two composed: an attempt answers what
      the pattern means), [RegexSaves] (the bounds of the saved positions),
      [RegexScanSpec] (the start filters skip no match, so a scan finds the
      leftmost one); for the linear matcher, [RegexUnits] (its readers of units),
      [RegexSteps] (a straight program's steps mean what its instructions do),
      [RegexLinRun] (its search with at most one choice for each quantifier finds
      the first way through the steps), [RegexLinFilter] (its search for a start)
      and [RegexLinSpec] (a scan that uses it finds the leftmost match too).
    - Objects ([shape.rs], [ic.rs], [object.rs]).  [Prog] is the monad they are
      written in (a program over a state, nothing on a panic), with byte strings
      and ordered maps.  [Shape] is the tree of layouts as a store of shared
      cells; [ShapeTable] proves its hashed table, [ShapeInv] its invariant and
      every operation's effect on it, [ShapeSpec] what layouts promise after any
      history.  [Ic] is the property cache and the callee feedback.  [Object] is
      the whole of an object's methods over its slots, its dictionary, its
      attribute lists with their index, and the store of layouts.  The proofs:
      [ObjectAttr] (the lists and their index), [ObjectSlots] (slots and spill as
      a list), [ObjectInv] (the abstract object [Spec], what of it an object
      represents, the invariant [obj_ok], and a logic of methods), [ObjectData]
      (association lists and dictionaries), then method by method
      [ObjectReads], [ObjectWrites], [ObjectSlotOps], [ObjectGrow], [ObjectOps],
      [ObjectCache] and [ObjectViews]; [ObjectMachine] collects the operations
      with their meaning, [ObjectSpec] runs histories of them on many objects
      that share layouts and caches, and [ObjectHistory] states what holds after
      every history.
    - Tables and collections ([realm/handle_map.rs], [realm/coll_index.rs] and the
      maps and sets of [realm.rs]).  [Probe] is linear probing: the loop, the
      chains it walks, a counting argument that it ends; the table of layouts uses
      it too.  [HandleMap] is the realm's handle-keyed table with its bitset and
      its backward shift, [HandleMapSpec] its refinement of a finite map.
      [CollIndex] is the index of maps and sets with its removed slots,
      [CollIndexSpec] what a search of it finds.  [Float] converts doubles and
      integers.  [Collection] is every operation of the realm on a map, a set or a
      live iterator, over the heap and its barriers.  [CollectionBase] treats key
      equality, hashing and the writing of cells, [CollectionList] ECMAScript's
      entry lists, [CollectionOps] the operations one by one, [CollectionIter] the
      cursors and their renumbering; [CollectionSpec] states the specification over
      histories, [CollectionRefine] relates the two worlds and [CollectionHistory]
      concludes.

    ** How the parts meet

    The collector uses the heap through its operations and the invariant [wf]; an
    element type enters through two classes, [Heap.Trace] and [Gc.Relocate] (the
    traits of the same names), whose laws are the contract the traits document, so
    every theorem about the heap and the collector holds of any element that meets
    them; [HeapSpec.list_trace] and [GcSpec.list_relocate] are instances that the
    witnesses evaluate.  A handle fits in a NaN box
    ([HeapSpec.handle_boxing_roundtrip]), which ties [Heap] to [NanBox].

    Objects, layouts and caches meet in one refinement.  A layout is named by a
    number that is never used again, and [Shape.release] models the drop of its
    last user; a weak child that is gone is a lookup that fails.  A method
    changes its object and may grow the store; [extends] is the frame: every
    other object keeps its layout, so [obj_ok] and the abstraction of the others
    survive ([keeps_ok]).  A cache is right of a store when what it remembers is
    ([cache_ok], [add_cache_ok]), and stays right of its extensions.
    [ObjectHistory.objects_refine] composes all of it: shaped or dictionary,
    cached or not, implied or written marks, the answers are those of a list of
    keys, values and sets.  The collector's view of an object is
    [ObjectHistory.object_relocation], the law that [Gc.Relocate] asks of an
    element, as sets of handles.

    A map or a set is a cell of the [Heap] model, reached through its borrows, so
    the write barriers whose contract [GcBarrier] proves are the ones
    [Collection] calls; its keys are [NanBox] values.  The specification keeps a
    list that is never compacted and iterators that are positions in it; the
    relation ([coll_rel], [cursor_rel]) says that what lies ahead of a cursor,
    carried through the compactions recorded since it was saved, is what lies
    ahead of the position.  [CollectionHistory.collections_refine] holds of any
    number of collections and iterators in one heap.

    The regular expressions are a chain of refinements: AST, code shape, threads,
    frames, scan.  Each link is one theorem over all patterns ([compile_code],
    [code_runs_all], [loop_refines], [run_with_answers], [scan_loop_answers]), so
    that the end theorems compose them.  What the code takes from other crates
    (the case mappings of [char], the [intl] crate's folding and properties) is
    the class [Regex.UnicodeData]; no law about it is assumed.

    ** Loops and fuel

    Loops with a structural measure are fixpoints on lists.  The marking loops
    carry fuel: an object is pushed once, so one more than the number of slots is
    enough, and the theorems state the outcome without a hypothesis on fuel.  The
    date searches of [difference_iso_date] and of the rounding window carry fuel
    computed from their arguments, with theorems that it is not exhausted.  The
    regular-expression machine counts its steps against a budget; a fuel two above
    what is left of it is never exhausted ([RegexTotal.run_with_terminates]), and
    the scan's fuel counts offsets.  The walks over a program have fuel for every
    instruction and jump ([RegexScanSpec.walk_ends]).  The linear matcher's work
    is bounded by its budget plus the 4098 iterations between two checks of it,
    and its scan makes at most two more attempts than the subject has units.
    The walks up a chain of layouts have fuel one above the layout's number (a
    parent is older than its child), the probes of a hashed table the length of
    the table, the marking of layouts one step for every live layout;
    [ShapeInv] and [ShapeSpec] show that none is exhausted.  The handle-keyed table
    and the index of collections probe with the length of the table as fuel and
    double with 64 doublings; their theorems give a result without a hypothesis on
    fuel.  The theorem on collections is for fewer than 2^31 operations, so that
    positions and epochs stay inside [u32], and for iterators stepped within eight
    compactions of their last step: the code keeps eight renumberings, and beyond
    that it searches for the last key, which may be gone, and then it can skip
    entries ([CollectionHistory.late_cursor_skips]).  The counters that
    could wrap are kept at their width: the theorems on objects are for fewer
    than 2^31 steps, which keeps every attribute list below the 2^32 entries its
    index can number.

    ** What is not modelled

    Field offsets and raw pointers handed to native code; the pools that released
    values and object parts are recycled into (the heap's is a parameter [P] with
    the law that a release empties its place); the growth policy of vectors (a
    parameter [grow]).  In verification mode the heap counts uses of collected
    handles and may panic: the operations model it, the theorems about what a
    collection frees are about the normal mode, where [poison] is [None].  The
    parser and formatter of ISO 8601 strings are left out.

    Of the regular expressions: the parser of patterns (the theorems hold of the
    ASTs it is documented to build, [good_pattern]: its quantifier bounds are in
    order and its groups numbered as they open) and the [&str] adapters.
    [good_pattern] leaves out three things the code gets wrong or differently,
    each with a theorem of its own: astral literals and strings of classes inside
    a lookbehind, groups under a [{0}], and a leading run of two different
    classes ([lead_ok]); the linear matcher's theorems leave out chains of options
    over different sets, which it merges ([RegexLinSpec.optional_chain_mixes_sets]).
    The scan on the backtracking machine is treated for subjects whose step budget
    is at most the stack cap, 3,700 units with the engine's constants; the linear
    matcher's for any length.

    Of objects: the prototype-chain cache and the native-call site of a
    [PropertyCache] belong to [realm.rs] and to compiled code.  [Object] models
    [Shape::root()] as a new cell of the store, and counts nothing of [Rc]: a
    layout lives until [release].  An array of the realm, a function and the other
    cells of [cell.rs] are not objects in this sense; the realm's own uses of its
    tables (frozen arrays, auxiliary properties, write barriers around these
    methods) are not part of the histories, although the tables ([HandleMap]) and
    the barrier ([GcBarrier]) are.

    Of maps and sets: what a garbage collection does to them (a relocation drops
    the index, the entries of weak collections are pruned), the validation of weak
    keys by the built-ins, and the cells other than strings, BigInts, arrays and
    collections, which are compared by handle.  A string cell holds the bytes its
    rope stands for.  The histories make no string after they start, so that keys
    keep their values.

    The rest of the engine, the evaluator, the bytecode machine, the compilers to
    native code and the internationalisation library, is some 230,000 lines over
    these layers: the manifest lists each part.  Their states are the layers'
    states, so a model of them would call the definitions here; none is claimed. *)

From Stdlib Require Export ZArith Lia.
From stdpp Require Export base numbers list option.

#[global] Set Default Proof Using "Type".

Open Scope Z_scope.

(** ** Machine integers

    A Rust integer is a [Z] inside the range of its type.  An [as] cast to a
    [w]-bit type, and the wrap-around of an operation whose operands the model
    does not bound, is [wrap_u]/[wrap_s]. *)

Definition wrap_u (w z : Z) : Z := z mod 2 ^ w.
Definition wrap_s (w z : Z) : Z := (z + 2 ^ (w - 1)) mod 2 ^ w - 2 ^ (w - 1).

Definition as_u8 (z : Z) : Z := wrap_u 8 z.
Definition as_u16 (z : Z) : Z := wrap_u 16 z.
Definition as_u32 (z : Z) : Z := wrap_u 32 z.
Definition as_u64 (z : Z) : Z := wrap_u 64 z.
Definition as_i32 (z : Z) : Z := wrap_s 32 z.
Definition as_i64 (z : Z) : Z := wrap_s 64 z.
Definition as_i128 (z : Z) : Z := wrap_s 128 z.

Definition in_u (w z : Z) : Prop := 0 <= z < 2 ^ w.
Definition in_s (w z : Z) : Prop := - 2 ^ (w - 1) <= z < 2 ^ (w - 1).

(** [Ord::clamp] of Rust's integers ([lo <= hi]). *)
Definition clamp (v lo hi : Z) : Z := if v <? lo then lo else if hi <? v then hi else v.

(** [RangeInclusive::contains]. *)
Definition in_range (lo hi v : Z) : bool := (lo <=? v) && (v <=? hi).

(** [i128::checked_mul], [i128::checked_add] and [i64::checked_mul/add]:
    [None] on overflow. *)
Definition checked (w z : Z) : option Z :=
  if in_range (- 2 ^ (w - 1)) (2 ^ (w - 1) - 1) z then Some z else None.

(** ** Automation *)

(** [lia] with quotients and remainders ([/], [mod], [Z.quot], [Z.rem]) replaced
    by their defining equations. *)
Ltac div_lia := Z.to_euclidean_division_equations; lia.

(** Case analysis on every [if] over a boolean comparison of the goal. *)
Ltac case_bools :=
  repeat match goal with
  | |- context [if ?b then _ else _] =>
      let E := fresh "Eb" in destruct b eqn:E
  end.

(** Case analysis on every integer comparison of the goal. *)
Ltac case_cmp :=
  repeat match goal with
  | |- context [?a <=? ?b] => destruct (Z.leb_spec a b)
  | |- context [?a <? ?b] => destruct (Z.ltb_spec a b)
  | |- context [?a =? ?b] => destruct (Z.eqb_spec a b)
  end.

(** Evaluate the sums, differences and products of positive literals. *)
Ltac zconst :=
  repeat match goal with
  | |- context [Z.add (Zpos ?a) (Zpos ?b)] =>
      let v := eval vm_compute in (Z.add (Zpos a) (Zpos b)) in
      change (Z.add (Zpos a) (Zpos b)) with v
  | |- context [Z.sub (Zpos ?a) (Zpos ?b)] =>
      let v := eval vm_compute in (Z.sub (Zpos a) (Zpos b)) in
      change (Z.sub (Zpos a) (Zpos b)) with v
  | |- context [Z.mul (Zpos ?a) (Zpos ?b)] =>
      let v := eval vm_compute in (Z.mul (Zpos a) (Zpos b)) in
      change (Z.mul (Zpos a) (Zpos b)) with v
  end.

(** Discharge a ground arithmetic side condition by evaluation. *)
Ltac concrete := vm_compute; repeat split; first [reflexivity | discriminate].

(** ** Casts that change nothing *)

Create HintDb kat discriminated.

Lemma wrap_u_small w z : in_u w z -> wrap_u w z = z.
Proof. intros H. unfold wrap_u. apply Z.mod_small, H. Qed.

Lemma wrap_s_small w z : 0 < w -> in_s w z -> wrap_s w z = z.
Proof.
  unfold wrap_s, in_s. intros Hw H.
  assert (E : 2 ^ w = 2 ^ (w - 1) + 2 ^ (w - 1)).
  { replace w with (Z.succ (w - 1)) at 1 by lia. rewrite Z.pow_succ_r by lia. lia. }
  rewrite Z.mod_small; lia.
Qed.

Lemma as_u8_small z : 0 <= z < 256 -> as_u8 z = z.
Proof. intros H. apply wrap_u_small. exact H. Qed.
Lemma as_u16_small z : 0 <= z < 65536 -> as_u16 z = z.
Proof. intros H. apply wrap_u_small. exact H. Qed.
Lemma as_u32_small z : 0 <= z < 4294967296 -> as_u32 z = z.
Proof. intros H. apply wrap_u_small. exact H. Qed.
Lemma as_u64_small z : 0 <= z < 18446744073709551616 -> as_u64 z = z.
Proof. intros H. apply wrap_u_small. exact H. Qed.
Lemma as_i32_small z : -2147483648 <= z < 2147483648 -> as_i32 z = z.
Proof. intros H. apply wrap_s_small; [done | exact H]. Qed.
Lemma as_i64_small z : -9223372036854775808 <= z < 9223372036854775808 -> as_i64 z = z.
Proof. intros H. apply wrap_s_small; [done | exact H]. Qed.
Lemma as_i128_small z : - 2 ^ 127 <= z < 2 ^ 127 -> as_i128 z = z.
Proof. intros H. apply wrap_s_small; [done | exact H]. Qed.

(** Drop the casts of a goal whose argument is in range, by [tac]. *)
Ltac drop_casts_by tac :=
  repeat first
    [ rewrite as_u8_small by tac | rewrite as_u16_small by tac
    | rewrite as_u32_small by tac | rewrite as_u64_small by tac
    | rewrite as_i32_small by tac | rewrite as_i64_small by tac
    | rewrite as_i128_small by tac ].
Ltac drop_casts := drop_casts_by lia.

Lemma in_range_true lo hi v : in_range lo hi v = true <-> lo <= v <= hi.
Proof. unfold in_range. rewrite andb_true_iff, !Z.leb_le. lia. Qed.

Lemma in_range_false lo hi v : in_range lo hi v = false <-> v < lo \/ hi < v.
Proof. unfold in_range. rewrite andb_false_iff, !Z.leb_gt. lia. Qed.

Lemma clamp_in lo hi v : lo <= hi -> lo <= clamp v lo hi <= hi.
Proof. unfold clamp. case_bools; lia. Qed.

Lemma clamp_id lo hi v : lo <= v <= hi -> clamp v lo hi = v.
Proof. unfold clamp. case_bools; lia. Qed.

Lemma checked_cases w z :
  (checked w z = Some z /\ - 2 ^ (w - 1) <= z <= 2 ^ (w - 1) - 1) \/
  (checked w z = None /\ (z < - 2 ^ (w - 1) \/ 2 ^ (w - 1) - 1 < z)).
Proof.
  unfold checked. destruct (in_range _ _ z) eqn:E.
  - left. by apply in_range_true in E.
  - right. by apply in_range_false in E.
Qed.

(** Packing two fields into a word is a sum. *)
Lemma lor_pack hi lo n : 0 <= n -> 0 <= lo < 2 ^ n -> Z.lor (Z.shiftl hi n) lo = hi * 2 ^ n + lo.
Proof.
  intros Hn Hlo. rewrite Z.shiftl_mul_pow2 by lia. symmetry.
  apply Z.add_nocarry_lor, Z.bits_inj'. intros k Hk. rewrite Z.land_spec, Z.bits_0, Z.mul_pow2_bits by lia.
  rewrite <- (Z.mod_small lo (2 ^ n)) by lia. destruct (Z.lt_ge_cases k n).
  - by rewrite Z.testbit_neg_r by lia.
  - by rewrite Z.mod_pow2_bits_high, andb_false_r by lia.
Qed.

(** ** Lists *)

(** Induction two elements at a time, for loops that may consume a pair. *)
Lemma list_pair_ind {A} (P : list A -> Prop) :
  P [] -> (forall x, P [x]) -> (forall x y l, P l -> P (y :: l) -> P (x :: y :: l)) ->
  forall l, P l.
Proof.
  intros H0 H1 H2 l. enough (P l /\ forall x, P (x :: l)) by tauto.
  induction l as [|y l [IH IH']]; split; auto.
Qed.

Lemma elem_of_drop_in {A} (x : A) n l : x ∈ drop n l -> x ∈ l.
Proof. intros H. rewrite <- (take_drop n l). apply elem_of_app. by right. Qed.

Lemma elem_of_take_in {A} (x : A) n l : x ∈ take n l -> x ∈ l.
Proof. intros H. rewrite <- (take_drop n l). apply elem_of_app. by left. Qed.
