(* ===== verification/TemporalIso.v ===== *)
(** * ISO-8601 calendar, time and duration core of [Temporal]

    Models [src/src/temporal_iso.rs]: the proleptic Gregorian calendar, the
    wall-clock time of day, date arithmetic and differences, duration balancing
    and rounding.  The module is pure in the source too: every function here has
    the arguments and the result of the Rust function of the same name, [i32],
    [u8], [i64] and [i128] values being [Z], with the casts and the wrapping
    additions on unbounded operands written out. *)

From S2P Require Import Prelude.

(** ** Data *)

Definition NS_PER_DAY : Z := 86400000000000.
Definition NS_PER_HOUR : Z := 3600000000000.
Definition NS_PER_MINUTE : Z := 60000000000.
Definition NS_PER_SEC : Z := 1000000000.
Definition MAX_EPOCH_DAYS : Z := 100000000.
Definition MIN_EPOCH_DAYS : Z := -100000000.

Record IsoDate := mkIsoDate { year : Z; month : Z; day : Z }.

Record IsoTime := mkIsoTime {
  hour : Z; minute : Z; second : Z;
  millisecond : Z; microsecond : Z; nanosecond : Z }.

Record DurationFields := mkDuration {
  years : Z; months : Z; weeks : Z; days : Z; hours : Z; minutes : Z;
  seconds : Z; milliseconds : Z; microseconds : Z; nanoseconds : Z }.

Definition IsoTime_default : IsoTime := mkIsoTime 0 0 0 0 0 0.
Definition DurationFields_default : DurationFields := mkDuration 0 0 0 0 0 0 0 0 0 0.

Inductive Unit :=
| Year | Month | Week | Day | Hour | Minute | Second
| Millisecond | Microsecond | Nanosecond.

Inductive RoundMode :=
| Ceil | Floor | Expand | Trunc | HalfCeil | HalfFloor | HalfExpand | HalfTrunc | HalfEven.

Inductive Overflow := Constrain | Reject.

#[export] Instance Unit_eq_dec : EqDecision Unit.
Proof. solve_decision. Defined.
#[export] Instance IsoDate_eq_dec : EqDecision IsoDate.
Proof. solve_decision. Defined.
#[export] Instance IsoTime_eq_dec : EqDecision IsoTime.
Proof. solve_decision. Defined.
#[export] Instance DurationFields_eq_dec : EqDecision DurationFields.
Proof. solve_decision. Defined.

(** The position of a unit in the enum, which is what its derived [Ord] compares. *)
Definition unit_ord (u : Unit) : Z :=
  match u with
  | Year => 0 | Month => 1 | Week => 2 | Day => 3 | Hour => 4 | Minute => 5
  | Second => 6 | Millisecond => 7 | Microsecond => 8 | Nanosecond => 9
  end.

(** ** Calendar *)

Definition is_leap_year (y : Z) : bool :=
  ((Z.rem y 4 =? 0) && negb (Z.rem y 100 =? 0)) || (Z.rem y 400 =? 0).

Definition iso_days_in_month (y m : Z) : Z :=
  match m with
  | 1 | 3 | 5 | 7 | 8 | 10 | 12 => 31
  | 4 | 6 | 9 | 11 => 30
  | 2 => if is_leap_year y then 29 else 28
  | _ => 0
  end.

Definition iso_days_in_year (y : Z) : Z := if is_leap_year y then 366 else 365.

Definition iso_to_epoch_days (date : IsoDate) : Z :=
  let m := month date in
  let y := if m <=? 2 then year date - 1 else year date in
  let era := Z.quot (if 0 <=? y then y else y - 399) 400 in
  let yoe := y - era * 400 in
  let doy := Z.quot (153 * (if 2 <? m then m - 3 else m + 9) + 2) 5 + day date - 1 in
  let doe := yoe * 365 + Z.quot yoe 4 - Z.quot yoe 100 + doy in
  era * 146097 + doe - 719468.

Definition epoch_days_to_iso (z : Z) : IsoDate :=
  let z := as_i64 (z + 719468) in
  let era := Z.quot (if 0 <=? z then z else as_i64 (z - 146096)) 146097 in
  let doe := z - era * 146097 in
  let yoe := Z.quot (doe - Z.quot doe 1460 + Z.quot doe 36524 - Z.quot doe 146096) 365 in
  let y := yoe + era * 400 in
  let doy := doe - (365 * yoe + Z.quot yoe 4 - Z.quot yoe 100) in
  let mp := Z.quot (5 * doy + 2) 153 in
  let d := doy - Z.quot (153 * mp + 2) 5 + 1 in
  let m := if mp <? 10 then mp + 3 else mp - 9 in
  mkIsoDate (as_i32 (if m <=? 2 then y + 1 else y)) (as_u8 m) (as_u8 d).

Definition iso_day_of_week (date : IsoDate) : Z :=
  let dow := (iso_to_epoch_days date + 3) mod 7 in
  as_u8 (dow + 1).

Definition iso_day_of_year (date : IsoDate) : Z :=
  let jan1 := mkIsoDate (year date) 1 1 in
  as_u16 (iso_to_epoch_days date - iso_to_epoch_days jan1 + 1).

Definition is_iso_long_year (y : Z) : bool :=
  let p := fun y => Z.rem (y + Z.quot y 4 - Z.quot y 100 + Z.quot y 400) 7 in
  (p y =? 4) || (p (y - 1) =? 3).

Definition iso_week_of_year (date : IsoDate) : Z * Z :=
  let dow := iso_day_of_week date in
  let doy := iso_day_of_year date in
  let week := Z.quot (doy - dow + 10) 7 in
  if week <? 1 then
    let prev := year date - 1 in
    let wk := if is_iso_long_year prev then 53 else 52 in
    (as_u8 wk, prev)
  else if (52 <? week) && negb (is_iso_long_year (year date)) then (1, year date + 1)
  else (as_u8 week, year date).

(** ** Validation *)

Definition iso_date_in_range (date : IsoDate) : bool :=
  let d := iso_to_epoch_days date in
  in_range (MIN_EPOCH_DAYS - 1) (MAX_EPOCH_DAYS + 1) d.

Definition regulate_iso_date (y m d : Z) (overflow : Overflow) : option IsoDate :=
  match overflow with
  | Constrain =>
      let m := as_u8 (clamp m 1 12) in
      let dim := iso_days_in_month y m in
      let d := as_u8 (clamp d 1 dim) in
      Some (mkIsoDate y m d)
  | Reject =>
      if negb (in_range 1 12 m) then None
      else
        let m := as_u8 m in
        if (d <? 1) || (iso_days_in_month y m <? d) then None
        else Some (mkIsoDate y m (as_u8 d))
  end.

Definition regulate_iso_time (h mi s ms us ns : Z) (overflow : Overflow) : option IsoTime :=
  let ck := fun v max =>
    match overflow with
    | Constrain => Some (clamp v 0 max)
    | Reject => if in_range 0 max v then Some v else None
    end in
  h ← ck h 23; mi ← ck mi 59; s ← ck s 59;
  ms ← ck ms 999; us ← ck us 999; ns ← ck ns 999;
  Some (mkIsoTime (as_u8 h) (as_u8 mi) (as_u8 s) (as_u16 ms) (as_u16 us) (as_u16 ns)).

(** ** Time of day *)

Definition time_to_nanos (t : IsoTime) : Z :=
  hour t * NS_PER_HOUR + minute t * NS_PER_MINUTE + second t * NS_PER_SEC
  + millisecond t * 1000000 + microsecond t * 1000 + nanosecond t.

Definition balance_time_from_nanos (total_ns : Z) : Z * IsoTime :=
  let day := total_ns / NS_PER_DAY in
  let r := total_ns mod NS_PER_DAY in
  let hour := as_u8 (Z.quot r NS_PER_HOUR) in
  let r := Z.rem r NS_PER_HOUR in
  let minute := as_u8 (Z.quot r NS_PER_MINUTE) in
  let r := Z.rem r NS_PER_MINUTE in
  let second := as_u8 (Z.quot r NS_PER_SEC) in
  let r := Z.rem r NS_PER_SEC in
  let millisecond := as_u16 (Z.quot r 1000000) in
  let r := Z.rem r 1000000 in
  let microsecond := as_u16 (Z.quot r 1000) in
  let nanosecond := as_u16 (Z.rem r 1000) in
  (as_i64 day, mkIsoTime hour minute second millisecond microsecond nanosecond).

Definition add_time (t : IsoTime) (delta_ns : Z) : Z * IsoTime :=
  balance_time_from_nanos (as_i128 (time_to_nanos t + delta_ns)).

(** ** Date arithmetic *)

Definition balance_iso_year_month (y m : Z) : Z * Z :=
  let m0 := as_i64 (m - 1) in
  let y := as_i64 (y + m0 / 12) in
  let m := m0 mod 12 + 1 in
  (as_i32 y, as_u8 m).

Definition add_iso_date (date : IsoDate) (years months weeks days : Z)
    (overflow : Overflow) : option IsoDate :=
  let '(y, m) := balance_iso_year_month (as_i64 (year date + years))
                                        (as_i64 (month date + months)) in
  intermediate ← regulate_iso_date y m (day date) overflow;
  let total_days := as_i64 (days + as_i64 (weeks * 7)) in
  let result := epoch_days_to_iso (as_i64 (iso_to_epoch_days intermediate + total_days)) in
  if iso_date_in_range result then Some result else None.

(** [(a.year, a.month, a.day).cmp(..)]: the lexicographic order of the tuples. *)
Definition compare_iso_date (a b : IsoDate) : comparison :=
  match year a ?= year b with
  | Eq => match month a ?= month b with
          | Eq => day a ?= day b
          | c => c
          end
  | c => c
  end.

Definition compare_iso_time (a b : IsoTime) : comparison :=
  time_to_nanos a ?= time_to_nanos b.

Definition iso_date_surpasses (sign y m d : Z) (to : IsoDate) : bool :=
  let d :=
    if negb (y =? year to) then y - year to
    else if negb (m =? month to) then m - month to
    else d - day to in
  0 <? sign * d.

(** The two loops of the closure [most] of [difference_iso_date].  [None] is
    running out of fuel; [difference_iso_date_complete] shows that [most_fuel]
    suffices. *)
Fixpoint most_down (fuel : nat) (sign : Z) (surpasses : Z -> bool) (n : Z) : option Z :=
  match fuel with
  | O => None
  | S f => if negb (n =? 0) && surpasses n then most_down f sign surpasses (n - sign)
           else Some n
  end.

Fixpoint most_up (fuel : nat) (sign : Z) (surpasses : Z -> bool) (n : Z) : option Z :=
  match fuel with
  | O => None
  | S f => if negb (surpasses (n + sign)) then most_up f sign surpasses (n + sign)
           else Some n
  end.

Definition most_fuel : nat := 3.

Definition most (sign estimate : Z) (surpasses : Z -> bool) : option Z :=
  let n := if 0 <? estimate * sign then estimate else 0 in
  n ← most_down most_fuel sign surpasses n;
  most_up most_fuel sign surpasses n.

Definition difference_iso_date (from to : IsoDate) (largest : Unit) : option (Z * Z * Z * Z) :=
  if decide (largest = Day \/ largest = Week) then
    let days := iso_to_epoch_days to - iso_to_epoch_days from in
    if decide (largest = Week) then Some (0, 0, Z.quot days 7, Z.rem days 7)
    else Some (0, 0, 0, days)
  else
    match compare_iso_date to from with
    | Eq => Some (0, 0, 0, 0)
    | c =>
        let sign := match c with Gt => 1 | _ => -1 end in
        let fy := year from in
        let fm := month from in
        years ← (if decide (largest = Year) then
                   most sign (year to - fy)
                     (fun n => iso_date_surpasses sign (fy + n) fm (day from) to)
                 else Some 0);
        months ← most sign ((year to - fy - years) * 12 + month to - fm)
                   (fun n =>
                      let '(y, m) := balance_iso_year_month (fy + years) (fm + n) in
                      iso_date_surpasses sign y m (day from) to);
        let '(y, m) := balance_iso_year_month (fy + years) (fm + months) in
        let mid := default from (regulate_iso_date y m (day from) Constrain) in
        let days := iso_to_epoch_days to - iso_to_epoch_days mid in
        Some (years, months, 0, days)
    end.

(** ** Durations *)

Definition duration_fields (d : DurationFields) : list Z :=
  [years d; months d; weeks d; days d; hours d; minutes d; seconds d;
   milliseconds d; microseconds d; nanoseconds d].

(** [DurationFields::sign]: the sign of the first non-zero field. *)
Definition sign (d : DurationFields) : Z :=
  (fix go (l : list Z) : Z :=
     match l with
     | [] => 0
     | v :: l => if negb (v =? 0) then Z.sgn v else go l
     end) (duration_fields d).

(** The first loop of [is_valid]: whether the non-zero fields agree in sign
    with [sg], the sign seen so far. *)
Fixpoint signs_agree (sg : Z) (l : list Z) : bool :=
  match l with
  | [] => true
  | v :: l =>
      if negb (v =? 0) then
        let s := Z.sgn v in
        if negb (sg =? 0) && negb (s =? sg) then false else signs_agree s l
      else signs_agree sg l
  end.

(** The last loop of [is_valid], with its [checked_mul] and [checked_add]. *)
Fixpoint checked_total (acc : Z) (l : list (Z * Z)) : option Z :=
  match l with
  | [] => Some acc
  | (v, mult) :: l =>
      contrib ← checked 128 (v * mult);
      sum ← checked 128 (acc + contrib);
      checked_total sum l
  end.

(** [i128::abs]: [i128::MIN] is its own absolute value (a debug build panics). *)
Definition abs_i128 (v : Z) : Z := as_i128 (Z.abs v).

Definition is_valid (d : DurationFields) : bool :=
  if negb (signs_agree 0 (duration_fields d)) then false
  else if (2 ^ 32 <=? abs_i128 (years d)) || (2 ^ 32 <=? abs_i128 (months d))
          || (2 ^ 32 <=? abs_i128 (weeks d)) then false
  else
    match checked_total 0
            [(days d, NS_PER_DAY); (hours d, NS_PER_HOUR); (minutes d, NS_PER_MINUTE);
             (seconds d, NS_PER_SEC); (milliseconds d, 1000000);
             (microseconds d, 1000); (nanoseconds d, 1)] with
    | None => false
    | Some total_ns => abs_i128 (Z.quot total_ns NS_PER_SEC) <? 2 ^ 53
    end.

(** Wrapping once or at every operation is the same. *)
Definition time_nanos (d : DurationFields) : Z :=
  as_i128 (hours d * NS_PER_HOUR + minutes d * NS_PER_MINUTE + seconds d * NS_PER_SEC
  + milliseconds d * 1000000 + microseconds d * 1000 + nanoseconds d).

(** [(v as f64) as i128]: round to 53 significant bits, ties to even; the cast
    back saturates at [i128::MAX]. *)
Definition f64_quantize (v : Z) : Z :=
  let a := Z.abs v in
  if a <? 2 ^ 53 then v
  else
    let e := Z.log2 a - 52 in
    let q := a / 2 ^ e in
    let r := a mod 2 ^ e in
    let half := 2 ^ (e - 1) in
    let q := if (half <? r) || ((half =? r) && Z.odd q) then q + 1 else q in
    Z.min (Z.sgn v * (q * 2 ^ e)) (2 ^ 127 - 1).

Definition quantize_duration_fields (d : DurationFields) : DurationFields :=
  let q := f64_quantize in
  mkDuration (q (years d)) (q (months d)) (q (weeks d)) (q (days d)) (q (hours d))
    (q (minutes d)) (q (seconds d)) (q (milliseconds d)) (q (microseconds d))
    (q (nanoseconds d)).

(** The closure [set] of [balance_time_duration]: the field's value and what is
    left of [r]. *)
Definition balance_set (sg r per : Z) (active : bool) : Z * Z :=
  if active then (as_i128 (Z.quot r per * sg), Z.rem r per) else (0, r).

Definition balance_time_duration (total_ns : Z) (largest : Unit) : DurationFields :=
  let sg := Z.sgn total_ns in
  let r := abs_i128 total_ns in
  let le := fun u => unit_ord largest <=? unit_ord u in
  let '(h, r) := balance_set sg r NS_PER_HOUR (le Hour) in
  let '(mi, r) := balance_set sg r NS_PER_MINUTE (le Minute) in
  let '(s, r) := balance_set sg r NS_PER_SEC (le Second) in
  let '(ms, r) := balance_set sg r 1000000 (le Millisecond) in
  let '(us, r) := balance_set sg r 1000 (le Microsecond) in
  mkDuration 0 0 0 0 h mi s ms us (as_i128 (r * sg)).

(** ** Rounding *)

Definition round_to_increment (x increment : Z) (mode : RoundMode) : Z :=
  if increment <=? 1 then x
  else
    let q := x / increment in
    let r := x mod increment in
    if r =? 0 then x
    else
      let lower := as_i128 (q * increment) in
      let upper := as_i128 (lower + increment) in
      let twice := as_i128 (2 * r) in
      let pick_upper :=
        match mode with
        | Ceil | Expand => true
        | Floor | Trunc => false
        | HalfCeil => increment <=? twice
        | HalfFloor => increment <? twice
        | HalfExpand => (increment <? twice) || ((twice =? increment) && (0 <=? x))
        | HalfTrunc => (increment <? twice) || ((twice =? increment) && (x <? 0))
        | HalfEven =>
            if twice =? increment then negb (Z.rem q 2 =? 0) else increment <? twice
        end in
      match mode with
      | Trunc => if 0 <=? x then lower else upper
      | Expand => if 0 <=? x then upper else lower
      | _ => if pick_upper then upper else lower
      end.

(** The loop of [nudge_calendar_count]: it runs at most twice, since [shifted]
    stops the second [continue]; [fuel] is 2.  [epoch_of] is the caller's
    closure. *)
Fixpoint nudge_loop (fuel : nat) (sg inc : Z) (mode : RoundMode) (dest : Z)
    (epoch_of : Z -> option Z) (r1 : Z) (shifted : bool) : option (option (Z * bool)) :=
  match fuel with
  | O => None
  | S f =>
      let r2 := as_i64 (r1 + as_i64 (inc * sg)) in
      match epoch_of r1 with
      | None => Some None
      | Some e1 =>
          match epoch_of r2 with
          | None => Some None
          | Some e2 =>
              let inside := if 0 <? sg then (e1 <=? dest) && (dest <=? e2)
                            else (e2 <=? dest) && (dest <=? e1) in
              if negb inside && negb shifted then
                nudge_loop f sg inc mode dest epoch_of r2 true
              else if dest =? e1 then Some (Some (r1, shifted))
              else
                let den := Z.max (abs_i128 (as_i128 (e2 - e1))) 1 in
                let num := abs_i128 (as_i128 (dest - e1)) in
                let x := as_i128 (r1 * den + sg * inc * num) in
                let rounded := as_i64 (Z.quot (round_to_increment x (as_i128 (inc * den)) mode) den) in
                Some (Some (rounded, negb (rounded =? r1) || shifted))
          end
      end
  end.

(** The outer [option] of the loop is its fuel: [nudge_calendar_count_runs]
    shows it is never [None]. *)
Definition nudge_calendar_count (r sg increment : Z) (mode : RoundMode) (dest : Z)
    (epoch_of : Z -> option Z) : option (option (Z * bool)) :=
  let inc := Z.max increment 1 in
  let r1 := Z.quot r inc * inc in
  nudge_loop 2 sg inc mode dest epoch_of r1 false.
