(* ===== verification/TemporalCalendar.v ===== *)
(** * The calendar of [TemporalIso] is the proleptic Gregorian calendar

    The day number of a date and the date of a day number are inverse to each
    other, the day number counts calendar days one by one, and orders dates. *)

From S2P Require Import Prelude TemporalIso.

(** ** The calendar: lemmas *)

Definition date_ok (d : IsoDate) : Prop :=
  1 <= month d <= 12 /\ 1 <= day d <= iso_days_in_month (year d) (month d).

(** The March-based year and month of a date. *)
Definition myear (y m : Z) : Z := if m <=? 2 then y - 1 else y.
Definition mmonth (m : Z) : Z := if 2 <? m then m - 3 else m + 9.
Definition month_start (mp : Z) : Z := (153 * mp + 2) / 5.
Definition year_start (y : Z) : Z := 365 * y + y / 4 - y / 100 + y / 400.

Lemma is_leap_year_mod y :
  is_leap_year y = (((y mod 4 =? 0) && negb (y mod 100 =? 0)) || (y mod 400 =? 0)).
Proof.
  unfold is_leap_year.
  assert (R : forall k, 0 < k -> (Z.rem y k =? 0) = (y mod k =? 0)).
  { intros k Hk. destruct (Z.eqb_spec (y mod k) 0) as [E|E].
    - apply Z.eqb_eq. apply Z.rem_mod_eq_0; lia.
    - apply Z.eqb_neq. rewrite Z.rem_mod_eq_0 by lia. done. }
  rewrite !R by lia. done.
Qed.

Lemma epoch_days_floor d : 1 <= month d <= 12 ->
  iso_to_epoch_days d
  = year_start (myear (year d) (month d)) + month_start (mmonth (month d))
    + day d - 1 - 719468.
Proof.
  unfold iso_to_epoch_days, year_start, month_start. intros Hm.
  fold (myear (year d) (month d)). fold (mmonth (month d)).
  assert (0 <= mmonth (month d) <= 11)
    by (unfold mmonth; case_bools; lia).
  generalize dependent (mmonth (month d)). generalize (myear (year d) (month d)).
  intros y mp Hmp.
  rewrite (Z.quot_div_nonneg (153 * mp + 2) 5) by lia.
  set (ms := (153 * mp + 2) / 5).
  assert (E : Z.quot (if 0 <=? y then y else y - 399) 400 = y / 400)
    by (case_bools; div_lia).
  rewrite E. clear E.
  assert (0 <= y - y / 400 * 400 < 400) by div_lia.
  rewrite !Z.quot_div_nonneg by lia.
  clearbody ms. div_lia.
Qed.

(** A day of the 400-year era, split as the century, four-year cycle, year and
    day of the (March-based) year it falls in. *)
Definition era_split (doe c q s doy : Z) : Prop :=
  0 <= c <= 3 /\ 0 <= q <= 24 /\ 0 <= s <= 3 /\ 0 <= doy <= 365 /\
  (doy = 365 -> s = 3 /\ (q < 24 \/ c = 3)) /\
  doe = 36524 * c + 1461 * q + 365 * s + doy.

Lemma era_split_exists doe : 0 <= doe < 146097 ->
  exists c q s doy, era_split doe c q s doy.
Proof.
  intros H. set (c := Z.min 3 (doe / 36524)).
  set (r := doe - 36524 * c). set (q := Z.min 24 (r / 1461)).
  set (r' := r - 1461 * q). set (s := Z.min 3 (r' / 365)).
  exists c, q, s, (r' - 365 * s). unfold era_split.
  assert (0 <= c <= 3 /\ 0 <= r <= 36524 /\ (c < 3 -> r < 36524)) by (unfold r, c; div_lia).
  assert (0 <= q <= 24 /\ 0 <= r' <= 1460 /\ (q = 24 -> c < 3 -> r' < 1460))
    by (unfold r', q; div_lia).
  assert (0 <= s <= 3 /\ 0 <= r' - 365 * s <= 365 /\ (r' - 365 * s = 365 -> s = 3 /\ r' = 1460))
    by (unfold s; div_lia).
  unfold r', r in *. lia.
Qed.

Lemma era_split_yoe doe c q s doy : era_split doe c q s doy ->
  Z.quot (doe - Z.quot doe 1460 + Z.quot doe 36524 - Z.quot doe 146096) 365
  = 100 * c + 4 * q + s.
Proof.
  intros (Hc & Hq & Hs & Hd & Hl & ->).
  assert (C : c = 0 \/ c = 1 \/ c = 2 \/ c = 3) by lia.
  assert (S : s = 0 \/ s = 1 \/ s = 2 \/ s = 3) by lia.
  destruct C as [->|[->|[->| ->]]]; destruct S as [->|[->|[->| ->]]]; div_lia.
Qed.

Lemma era_split_doy doe c q s doy yoe : era_split doe c q s doy -> yoe = 100 * c + 4 * q + s ->
  doe - (365 * yoe + Z.quot yoe 4 - Z.quot yoe 100) = doy.
Proof. intros (Hc & Hq & Hs & Hd & Hl & ->) ->. div_lia. Qed.

(** The month table of the March-based year. *)
Definition march_days (mp : Z) : Z :=
  match mp with
  | 0 => 31 | 1 => 30 | 2 => 31 | 3 => 30 | 4 => 31 | 5 => 31
  | 6 => 30 | 7 => 31 | 8 => 30 | 9 => 31 | 10 => 31 | 11 => 29 | _ => 0
  end.

Lemma month_split mp d : 0 <= mp <= 11 -> 1 <= d <= march_days mp ->
  let doy := month_start mp + d - 1 in
  0 <= doy <= 365 /\ Z.quot (5 * doy + 2) 153 = mp /\ (doy = 365 <-> mp = 11 /\ d = 29).
Proof.
  intros Hm Hd.
  assert (M : mp = 0 \/ mp = 1 \/ mp = 2 \/ mp = 3 \/ mp = 4 \/ mp = 5 \/ mp = 6 \/ mp = 7
              \/ mp = 8 \/ mp = 9 \/ mp = 10 \/ mp = 11) by lia.
  destruct M as [->|[->|[->|[->|[->|[->|[->|[->|[->|[->|[->| ->]]]]]]]]]]];
    cbn in Hd; unfold month_start; cbv zeta; div_lia.
Qed.

Lemma month_split_exists doy : 0 <= doy <= 365 ->
  exists mp d, 0 <= mp <= 11 /\ 1 <= d <= march_days mp /\ doy = month_start mp + d - 1.
Proof.
  intros H. set (mp := (5 * doy + 2) / 153).
  assert (Hm : 0 <= mp <= 11) by (unfold mp; div_lia).
  exists mp, (doy - month_start mp + 1). split; [done|]. split; [|lia].
  assert (Hr : 153 * mp <= 5 * doy + 2 < 153 * (mp + 1)) by (unfold mp; div_lia).
  clearbody mp.
  assert (M : mp = 0 \/ mp = 1 \/ mp = 2 \/ mp = 3 \/ mp = 4 \/ mp = 5 \/ mp = 6 \/ mp = 7
              \/ mp = 8 \/ mp = 9 \/ mp = 10 \/ mp = 11) by lia.
  destruct M as [->|[->|[->|[->|[->|[->|[->|[->|[->|[->|[->| ->]]]]]]]]]]];
    unfold month_start; cbn [march_days]; div_lia.
Qed.

(** A month's length in the March-based table, but for February's leap day. *)
Lemma days_in_month_march y m : 1 <= m <= 12 ->
  iso_days_in_month y m
  = march_days (mmonth m)
    - (if (mmonth m =? 11) && negb (is_leap_year y) then 1 else 0).
Proof.
  intros H.
  assert (M : m = 1 \/ m = 2 \/ m = 3 \/ m = 4 \/ m = 5 \/ m = 6 \/ m = 7
              \/ m = 8 \/ m = 9 \/ m = 10 \/ m = 11 \/ m = 12) by lia.
  destruct M as [->|[->|[->|[->|[->|[->|[->|[->|[->|[->|[->| ->]]]]]]]]]]]; cbn;
    try reflexivity.
  destruct (is_leap_year y); reflexivity.
Qed.

(** The leap rule on the year of the era that a March-based year ends in. *)
Lemma leap_of_split era c q s : 0 <= c <= 3 -> 0 <= q <= 24 -> 0 <= s <= 3 ->
  is_leap_year (100 * c + 4 * q + s + era * 400 + 1) = true
  <-> s = 3 /\ (q < 24 \/ c = 3).
Proof.
  intros Hc Hq Hs. rewrite is_leap_year_mod.
  rewrite orb_true_iff, andb_true_iff, negb_true_iff, !Z.eqb_eq, Z.eqb_neq.
  set (n := 100 * c + 4 * q + s + era * 400 + 1).
  assert (E4 : n mod 4 = (s + 1) mod 4) by (unfold n; div_lia).
  assert (E100 : n mod 100 = (4 * q + s + 1) mod 100) by (unfold n; div_lia).
  assert (E400 : n mod 400 = (100 * c + 4 * q + s + 1) mod 400) by (unfold n; div_lia).
  rewrite E4, E100, E400. clear E4 E100 E400 n. split; intros; div_lia.
Qed.

(** The civil month and year of a March-based month and year. *)
Definition civil_month (mp : Z) : Z := if mp <? 10 then mp + 3 else mp - 9.
Definition civil_year (y mp : Z) : Z := if civil_month mp <=? 2 then y + 1 else y.

Lemma civil_month_mmonth m : 1 <= m <= 12 -> civil_month (mmonth m) = m.
Proof. unfold civil_month, mmonth. intros. case_bools; lia. Qed.

Lemma mmonth_civil_month mp : 0 <= mp <= 11 ->
  mmonth (civil_month mp) = mp /\ 1 <= civil_month mp <= 12.
Proof. unfold civil_month, mmonth. intros. case_bools; lia. Qed.

Lemma civil_year_myear y m : 1 <= m <= 12 -> civil_year (myear y m) (mmonth m) = y.
Proof.
  intros H. unfold civil_year. rewrite civil_month_mmonth by done.
  unfold myear. case_bools; lia.
Qed.

Lemma myear_civil_year y mp : 0 <= mp <= 11 ->
  myear (civil_year y mp) (civil_month mp) = y.
Proof. intros H. unfold civil_year, myear. case_bools; lia. Qed.

Lemma epoch_days_decode era doe c q s doy mp d z :
  era_split doe c q s doy -> 0 <= mp <= 11 -> 1 <= d <= march_days mp ->
  doy = month_start mp + d - 1 ->
  z = era * 146097 + doe - 719468 -> -4 * 10 ^ 18 < z < 4 * 10 ^ 18 ->
  epoch_days_to_iso z
  = mkIsoDate (as_i32 (civil_year (100 * c + 4 * q + s + era * 400) mp)) (civil_month mp) d.
Proof.
  intros Hs Hmp Hd Hdoy Hz Hb. unfold epoch_days_to_iso.
  pose proof (month_split mp d Hmp Hd) as (Hb0 & Hq & _). rewrite <- Hdoy in Hb0, Hq.
  assert (Hdoe : 0 <= doe < 146097) by (unfold era_split in Hs; lia).
  drop_casts.
  assert (E : Z.quot (if 0 <=? z + 719468 then z + 719468 else z + 719468 - 146096) 146097 = era)
    by (case_bools; div_lia).
  rewrite E. clear E.
  replace (z + 719468 - era * 146097) with doe by lia.
  rewrite (era_split_yoe _ _ _ _ _ Hs), (era_split_doy _ _ _ _ _ _ Hs eq_refl), Hq.
  unfold civil_year. fold (civil_month mp).
  destruct (mmonth_civil_month mp Hmp) as [_ Hcm].
  assert (march_days mp <= 31) by (clear -Hmp; unfold march_days; repeat case_match; lia).
  f_equal; drop_casts; [done|].
  rewrite Z.quot_div_nonneg by lia. unfold month_start in *. drop_casts; lia.
Qed.

Lemma year_start_split era c q s : 0 <= c <= 3 -> 0 <= q <= 24 -> 0 <= s <= 3 ->
  year_start (100 * c + 4 * q + s + era * 400)
  = era * 146097 + 36524 * c + 1461 * q + 365 * s.
Proof. intros. unfold year_start. div_lia. Qed.

(** Every year is a century, cycle and year of some era. *)
Lemma year_split y : exists era c q s,
  0 <= c <= 3 /\ 0 <= q <= 24 /\ 0 <= s <= 3 /\ y = 100 * c + 4 * q + s + era * 400.
Proof.
  exists (y / 400), (y mod 400 / 100), (y mod 100 / 4), (y mod 4). div_lia.
Qed.

(** A valid day of the month, in the March-based tables. *)
Lemma day_split y m d era c q s :
  0 <= c <= 3 -> 0 <= q <= 24 -> 0 <= s <= 3 ->
  myear y m = 100 * c + 4 * q + s + era * 400 ->
  1 <= m <= 12 -> 1 <= d <= iso_days_in_month y m ->
  let doy := month_start (mmonth m) + d - 1 in
  1 <= d <= march_days (mmonth m) /\
  era_split (36524 * c + 1461 * q + 365 * s + doy) c q s doy.
Proof.
  intros Hc Hq Hs Hy Hm Hd doy.
  rewrite days_in_month_march in Hd by done.
  assert (Hmp : 0 <= mmonth m <= 11) by (unfold mmonth; case_bools; lia).
  assert (H1 : 1 <= d <= march_days (mmonth m)) by (revert Hd; case_bools; lia).
  destruct (month_split (mmonth m) d Hmp H1) as (Hb & _ & Hl). fold doy in Hb, Hl.
  split; [done|].
  assert (K : doy = 365 -> s = 3 /\ (q < 24 \/ c = 3)); [|unfold era_split; lia].
  intros E. apply Hl in E as [E1 E2].
  rewrite E1, Z.eqb_refl, E2 in Hd. cbn in Hd.
  assert (E3 : y = myear y m + 1).
  { unfold mmonth, myear in *. revert E1. case_bools; lia. }
  rewrite Hy in E3. apply (leap_of_split era c q s); try lia.
  rewrite <- E3. destruct (is_leap_year y); [done | cbn in Hd; lia].
Qed.

(** Where a valid date falls among the days of the epoch. *)
Lemma date_ok_split d : date_ok d -> exists era doe c q s doy,
  era_split doe c q s doy /\ doy = month_start (mmonth (month d)) + day d - 1 /\
  0 <= mmonth (month d) <= 11 /\ 1 <= day d <= march_days (mmonth (month d)) /\
  myear (year d) (month d) = 100 * c + 4 * q + s + era * 400 /\
  iso_to_epoch_days d = era * 146097 + doe - 719468.
Proof.
  intros [Hm Hd]. destruct (year_split (myear (year d) (month d))) as (era & c & q & s & Hc & Hq & Hs & E).
  destruct (day_split _ _ _ _ _ _ _ Hc Hq Hs E Hm Hd) as [H1 H2].
  exists era, (36524 * c + 1461 * q + 365 * s + (month_start (mmonth (month d)) + day d - 1)), c, q, s.
  eexists. refine (conj H2 (conj eq_refl (conj _ (conj H1 (conj E _))))).
  - unfold mmonth; case_bools; lia.
  - rewrite epoch_days_floor by done. rewrite E, year_start_split by done. lia.
Qed.

(** A day number decodes to a valid date that encodes it. *)
Lemma epoch_days_total z : exists era doe c q s doy mp dd,
  era_split doe c q s doy /\ 0 <= mp <= 11 /\ 1 <= dd <= march_days mp /\
  doy = month_start mp + dd - 1 /\ z = era * 146097 + doe - 719468.
Proof.
  set (era := (z + 719468) / 146097). set (doe := (z + 719468) mod 146097).
  assert (Hdoe : 0 <= doe < 146097) by (unfold doe; div_lia).
  destruct (era_split_exists doe Hdoe) as (c & q & s & doy & Hs).
  assert (H : 0 <= doy <= 365) by (unfold era_split in Hs; lia).
  destruct (month_split_exists doy H) as (mp & dd & Hmp & Hd & Ed).
  exists era, doe, c, q, s, doy, mp, dd. repeat (split; [assumption|]).
  unfold era, doe. div_lia.
Qed.

Lemma decoded_date_ok era doe c q s doy mp dd :
  era_split doe c q s doy -> 0 <= mp <= 11 -> 1 <= dd <= march_days mp ->
  doy = month_start mp + dd - 1 ->
  let d := mkIsoDate (civil_year (100 * c + 4 * q + s + era * 400) mp) (civil_month mp) dd in
  date_ok d /\ iso_to_epoch_days d = era * 146097 + doe - 719468.
Proof.
  intros Hs Hmp Hd Hdoy d. destruct (mmonth_civil_month mp Hmp) as [E1 E2].
  pose proof Hs as (Hc & Hq & Hs' & _ & Hl & Edoe).
  destruct (month_split mp dd Hmp Hd) as (_ & _ & Hfeb).
  split; [split; [done|]|].
  - cbn [year month day d]. rewrite days_in_month_march, E1 by done.
    destruct (Z.eqb_spec mp 11) as [->|]; [|cbn; lia].
    replace (civil_year _ 11) with (100 * c + 4 * q + s + era * 400 + 1) by reflexivity.
    destruct (is_leap_year _) eqn:L; cbn; [cbn in Hd; lia|].
    cbn in Hd. destruct (decide (dd = 29)) as [->|]; [|lia]. exfalso.
    assert (doy = 365) by (rewrite Hdoy; apply Hfeb; done).
    assert (is_leap_year (100 * c + 4 * q + s + era * 400 + 1) = true)
      by (apply leap_of_split; auto).
    congruence.
  - rewrite epoch_days_floor by done. cbn [year month day d].
    rewrite myear_civil_year, year_start_split, E1 by done. lia.
Qed.

(** The day numbers of the years an [i32] holds. *)
Definition first_day : Z := iso_to_epoch_days (mkIsoDate (-2147483648) 1 1).
Definition last_day : Z := iso_to_epoch_days (mkIsoDate 2147483647 12 31).

Lemma first_last_day : first_day = -784353015833 /\ last_day = 784351576776.
Proof. split; vm_compute; reflexivity. Qed.

(** ** The January-based reading *)

(** Days of the year before month [m] ([13] is the year's end). *)
Definition days_before (leap : bool) (m : Z) : Z :=
  let l := if leap then 1 else 0 in
  match m with
  | 1 => 0 | 2 => 31 | 3 => 59 + l | 4 => 90 + l | 5 => 120 + l | 6 => 151 + l
  | 7 => 181 + l | 8 => 212 + l | 9 => 243 + l | 10 => 273 + l | 11 => 304 + l
  | 12 => 334 + l | _ => 365 + l
  end.

(** Case analysis on a month number. *)
Ltac month_cases m :=
  let M := fresh in
  assert (M : m = 1 \/ m = 2 \/ m = 3 \/ m = 4 \/ m = 5 \/ m = 6 \/ m = 7 \/ m = 8 \/ m = 9 \/
              m = 10 \/ m = 11 \/ m = 12) by lia;
  destruct M as [M|[M|[M|[M|[M|[M|[M|[M|[M|[M|[M|M]]]]]]]]]]]; rewrite M in *; clear M.

Lemma year_start_step y :
  year_start y = year_start (y - 1) + 365 + (if is_leap_year y then 1 else 0).
Proof.
  rewrite is_leap_year_mod. unfold year_start.
  destruct (Z.eqb_spec (y mod 4) 0), (Z.eqb_spec (y mod 100) 0), (Z.eqb_spec (y mod 400) 0);
    cbn [andb orb negb]; div_lia.
Qed.

Lemma days_in_month_before y m : 1 <= m <= 12 ->
  iso_days_in_month y m = days_before (is_leap_year y) (m + 1) - days_before (is_leap_year y) m
  /\ 28 <= iso_days_in_month y m <= 31.
Proof. intros H. month_cases m; zconst; cbn; destruct (is_leap_year y); lia. Qed.

Lemma days_before_mono l m m' : 1 <= m -> m < m' -> m' <= 13 ->
  days_before l (m + 1) <= days_before l m'.
Proof.
  intros H1 H2 H3. assert (H : 1 <= m <= 12) by lia.
  assert (M' : m' = 2 \/ m' = 3 \/ m' = 4 \/ m' = 5 \/ m' = 6 \/ m' = 7 \/ m' = 8 \/ m' = 9 \/
    m' = 10 \/ m' = 11 \/ m' = 12 \/ m' = 13) by lia.
  month_cases m; zconst; destruct M' as [->|[->|[->|[->|[->|[->|[->|[->|[->|[->|[->| ->]]]]]]]]]]]; cbn;
    destruct l; lia.
Qed.

Lemma epoch_days_january d : 1 <= month d <= 12 ->
  iso_to_epoch_days d
  = year_start (year d - 1) + days_before (is_leap_year (year d)) (month d) + day d - 719163.
Proof.
  intros H. rewrite epoch_days_floor by done. pose proof (year_start_step (year d)) as S.
  replace (year_start (myear (year d) (month d)))
    with (if month d <=? 2 then year_start (year d - 1) else year_start (year d))
    by (unfold myear; by destruct (month d <=? 2)).
  set (a := year_start (year d)) in *. set (b := year_start (year d - 1)) in *. clearbody a b.
  unfold mmonth, month_start. destruct (is_leap_year (year d)); month_cases (month d); cbn; div_lia.
Qed.

(** ** Order and succession of dates *)

Definition year_i32 (d : IsoDate) : Prop := -2147483648 <= year d <= 2147483647.

(** The calendar successor of a date, read off the month table. *)
Definition next_day (d : IsoDate) : IsoDate :=
  if day d <? iso_days_in_month (year d) (month d) then mkIsoDate (year d) (month d) (day d + 1)
  else if month d <? 12 then mkIsoDate (year d) (month d + 1) 1
  else mkIsoDate (year d + 1) 1 1.

Lemma day_of_year_bounds d : date_ok d ->
  days_before (is_leap_year (year d)) (month d) + 1
  <= days_before (is_leap_year (year d)) (month d) + day d
  <= days_before (is_leap_year (year d)) (month d + 1).
Proof. intros [Hm Hd]. pose proof (days_in_month_before (year d) (month d) Hm). lia. Qed.

Lemma days_before_bounds l m : 1 <= m <= 12 ->
  0 <= days_before l m /\ days_before l (m + 1) <= 365 + (if l then 1 else 0).
Proof. intros H. month_cases m; zconst; cbn; destruct l; lia. Qed.

Lemma date_in_year_bounds d : date_ok d ->
  year_start (year d - 1) - 719162 <= iso_to_epoch_days d < year_start (year d) - 719162.
Proof.
  intros H. pose proof (day_of_year_bounds d H). destruct H as [Hm _].
  pose proof (days_before_bounds (is_leap_year (year d)) (month d) Hm).
  rewrite epoch_days_january, (year_start_step (year d)) by done. lia.
Qed.

Lemma year_start_mono y y' : y <= y' -> year_start y <= year_start y'.
Proof. intros H. unfold year_start. div_lia. Qed.

Lemma year_of_epoch_days a b : date_ok a -> date_ok b -> year a < year b ->
  iso_to_epoch_days a < iso_to_epoch_days b.
Proof.
  intros Ha Hb H. apply date_in_year_bounds in Ha, Hb.
  pose proof (year_start_mono (year a) (year b - 1)). lia.
Qed.

Lemma month_of_epoch_days a b : date_ok a -> date_ok b -> year a = year b -> month a < month b ->
  iso_to_epoch_days a < iso_to_epoch_days b.
Proof.
  intros Ha Hb E L. pose proof (day_of_year_bounds a Ha). pose proof (day_of_year_bounds b Hb).
  destruct Ha as [Hma _], Hb as [Hmb _].
  rewrite !epoch_days_january by done. rewrite <- E in *.
  pose proof (days_before_mono (is_leap_year (year a)) (month a) (month b)). lia.
Qed.

Lemma compare_iso_date_days a b : date_ok a -> date_ok b ->
  compare_iso_date a b = (iso_to_epoch_days a ?= iso_to_epoch_days b).
Proof.
  intros Ha Hb. unfold compare_iso_date. symmetry.
  destruct (Z.compare_spec (year a) (year b)) as [E|L|G].
  - destruct (Z.compare_spec (month a) (month b)) as [Em|Lm|Gm].
    + destruct Ha as [Hma _], Hb as [Hmb _]. rewrite !epoch_days_january by done.
      rewrite E, Em. generalize (days_before (is_leap_year (year b)) (month b)). intros n.
      destruct (Z.compare_spec (day a) (day b)); [apply Z.compare_eq_iff | apply Z.compare_lt_iff
        | apply Z.compare_gt_iff]; lia.
    + by apply Z.compare_lt_iff, month_of_epoch_days.
    + by apply Z.compare_gt_iff, month_of_epoch_days.
  - by apply Z.compare_lt_iff, year_of_epoch_days.
  - by apply Z.compare_gt_iff, year_of_epoch_days.
Qed.

Lemma epoch_days_of_epoch_days d : date_ok d -> year_i32 d ->
  epoch_days_to_iso (iso_to_epoch_days d) = d.
Proof.
  intros Hok Hy.
  destruct (date_ok_split d Hok) as (era & doe & c & q & s & doy & Hs & Ed & Hmp & Hd & Ey & Ez).
  assert (B : first_day <= iso_to_epoch_days d <= last_day).
  { pose proof (date_in_year_bounds d Hok). unfold year_i32 in Hy.
    pose proof (year_start_mono (-2147483649) (year d - 1)).
    pose proof (year_start_mono (year d) 2147483647).
    destruct first_last_day as [-> ->].
    assert (year_start (-2147483649) = -784352296671 /\ year_start 2147483647 = 784352295939)
      by (split; reflexivity). lia. }
  destruct first_last_day as [Ef El]. rewrite Ef, El in B.
  rewrite (epoch_days_decode era doe c q s doy _ (day d) _ Hs Hmp Hd Ed Ez) by lia.
  destruct Hok as [Hm _].
  rewrite <- Ey, civil_year_myear, civil_month_mmonth, as_i32_small by (unfold year_i32 in Hy; lia).
  by destruct d.
Qed.

Lemma decode_of_day z : first_day <= z <= last_day ->
  date_ok (epoch_days_to_iso z) /\ year_i32 (epoch_days_to_iso z) /\
  iso_to_epoch_days (epoch_days_to_iso z) = z.
Proof.
  intros B.
  destruct (epoch_days_total z) as (era & doe & c & q & s & doy & mp & dd & Hs & Hmp & Hd & Ed & Ez).
  destruct (decoded_date_ok era _ _ _ _ _ _ _ Hs Hmp Hd Ed) as [Hok Hz]. rewrite <- Ez in Hz.
  revert Hok Hz. generalize (mkIsoDate (civil_year (100 * c + 4 * q + s + era * 400) mp)
    (civil_month mp) dd). intros d Hok Hz.
  assert (Hy : year_i32 d).
  { unfold year_i32. split; apply Z.nlt_ge; intros Hlt.
    - assert (iso_to_epoch_days d < first_day); [|lia].
      apply year_of_epoch_days; [done | split; cbn; lia | cbn; lia].
    - assert (last_day < iso_to_epoch_days d); [|lia].
      apply year_of_epoch_days; [split; cbn; lia | done | cbn; lia]. }
  rewrite <- Hz, epoch_days_of_epoch_days by done. done.
Qed.

Lemma next_day_ok d : date_ok d ->
  date_ok (next_day d) /\ iso_to_epoch_days (next_day d) = iso_to_epoch_days d + 1.
Proof.
  intros [Hm Hd]. unfold next_day.
  destruct (days_in_month_before (year d) (month d) Hm) as [Edim Bdim].
  destruct (Z.ltb_spec (day d) (iso_days_in_month (year d) (month d))) as [Hlt|Hge].
  - split; [split; cbn [year month day]; lia|]. rewrite !epoch_days_january by done.
    cbn [year month day]. lia.
  - assert (E : day d = iso_days_in_month (year d) (month d)) by lia.
    destruct (Z.ltb_spec (month d) 12) as [Hm'|Hm'].
    + destruct (days_in_month_before (year d) (month d + 1)) as [_ B1]; [lia|].
      split; [split; cbn [year month day]; lia|].
      rewrite !epoch_days_january by (cbn; lia). cbn [year month day]. lia.
    + assert (E12 : month d = 12) by lia. split; [split; cbn; lia|].
      rewrite !epoch_days_january by (cbn; lia). cbn [year month day].
      replace (year d + 1 - 1) with (year d) by lia. rewrite (year_start_step (year d)).
      rewrite E12 in *. revert Edim. zconst. cbn [days_before]. lia.
Qed.

Lemma date_ok_unique a b : date_ok a -> date_ok b -> year_i32 a -> year_i32 b ->
  iso_to_epoch_days a = iso_to_epoch_days b -> a = b.
Proof.
  intros Ha Hb Hya Hyb E.
  rewrite <- (epoch_days_of_epoch_days a), <- (epoch_days_of_epoch_days b) by done. by rewrite E.
Qed.

(** ** Weekdays and weeks *)

Lemma iso_day_of_week_eq d : iso_day_of_week d = (iso_to_epoch_days d + 3) mod 7 + 1.
Proof. unfold iso_day_of_week. rewrite as_u8_small; div_lia. Qed.

Lemma year_unique d y : date_ok d ->
  year_start (y - 1) - 719162 <= iso_to_epoch_days d < year_start y - 719162 -> year d = y.
Proof.
  intros Hok B. pose proof (date_in_year_bounds d Hok).
  pose proof (year_start_mono (year d) (y - 1)). pose proof (year_start_mono y (year d - 1)). lia.
Qed.

Lemma iso_day_of_year_eq d : date_ok d ->
  iso_day_of_year d = iso_to_epoch_days d - year_start (year d - 1) + 719163 /\
  1 <= iso_day_of_year d <= 365 + (if is_leap_year (year d) then 1 else 0).
Proof.
  intros H. pose proof (date_in_year_bounds d H). pose proof (year_start_step (year d)).
  assert (J : iso_to_epoch_days (mkIsoDate (year d) 1 1) = year_start (year d - 1) - 719162)
    by (rewrite epoch_days_january by (cbn; lia); cbn; lia).
  unfold iso_day_of_year. rewrite J. drop_casts_by ltac:(case_match; lia).
  case_match; lia.
Qed.

(** [is_iso_long_year]: the year's first or last day is a Thursday. *)
Lemma is_iso_long_year_spec y : 0 <= y ->
  is_iso_long_year y = ((year_start y mod 7 =? 4) || (year_start (y - 1) mod 7 =? 3)).
Proof.
  intros H. destruct (decide (y = 0)) as [->|Hn]; [reflexivity|].
  unfold is_iso_long_year.
  assert (R : forall z, 0 <= z ->
    Z.rem (z + Z.quot z 4 - Z.quot z 100 + Z.quot z 400) 7 = year_start z mod 7).
  { intros z Hz. rewrite !Z.quot_div_nonneg by lia.
    rewrite Z.rem_mod_nonneg by div_lia. unfold year_start.
    replace (365 * z + z / 4 - z / 100 + z / 400)
      with (z + z / 4 - z / 100 + z / 400 + 52 * z * 7) by lia.
    by rewrite Z_mod_plus_full. }
  by rewrite !R by lia.
Qed.

Lemma week_in_previous_year e y0 y1 y2 (y : Z) (long long0 : bool) :
  y1 - 719162 <= e < y2 - 719162 -> 365 <= y1 - y0 <= 366 ->
  e + 4 - ((e + 3) mod 7 + 1) < y1 - 719162 ->
  long0 = (y1 mod 7 =? 4) || (y0 mod 7 =? 3) ->
  (let week := (e - y1 + 719163 - ((e + 3) mod 7 + 1) + 10) / 7 in
   if week <? 1 then (as_u8 (if long0 then 53 else 52), y - 1)
   else if (52 <? week) && negb long then (1, y + 1) else (as_u8 week, y))
  = ((e + 4 - ((e + 3) mod 7 + 1) - y0 + 719163 - 1) / 7 + 1, y - 1).
Proof.
  intros H1 H2 H3 ->. cbv zeta. destruct (Z.ltb_spec ((e - y1 + 719163 - ((e + 3) mod 7 + 1) + 10) / 7) 1);
    [|exfalso; div_lia].
  f_equal. destruct (Z.eqb_spec (y1 mod 7) 4), (Z.eqb_spec (y0 mod 7) 3); cbn [orb];
    drop_casts; div_lia.
Qed.

Lemma week_in_year e y1 y2 (y : Z) (long : bool) (p : Z * Z) :
  y1 - 719162 <= e < y2 - 719162 -> 365 <= y2 - y1 <= 366 ->
  y1 - 719162 <= e + 4 - ((e + 3) mod 7 + 1) < y2 - 719162 ->
  long = (y2 mod 7 =? 4) || (y1 mod 7 =? 3) ->
  (let week := (e - y1 + 719163 - ((e + 3) mod 7 + 1) + 10) / 7 in
   if week <? 1 then p
   else if (52 <? week) && negb long then (1, y + 1) else (as_u8 week, y))
  = ((e + 4 - ((e + 3) mod 7 + 1) - y1 + 719163 - 1) / 7 + 1, y).
Proof.
  intros H1 H2 H3 ->. cbv zeta.
  set (w := (e - y1 + 719163 - ((e + 3) mod 7 + 1) + 10) / 7).
  assert (Hw : 1 <= w <= 53) by (unfold w; div_lia).
  destruct (Z.ltb_spec w 1); [lia|].
  destruct (Z.ltb_spec 52 w) as [L|L]; cbn [andb].
  - assert (E : (y2 mod 7 =? 4) || (y1 mod 7 =? 3) = true).
    { apply orb_true_iff. rewrite !Z.eqb_eq. unfold w in L. clear w Hw H. div_lia. }
    rewrite E. cbn [negb]. rewrite as_u8_small by lia. f_equal. unfold w. div_lia.
  - rewrite as_u8_small by lia. f_equal. unfold w. div_lia.
Qed.

Lemma week_in_next_year e y1 y2 (y : Z) (long : bool) (p : Z * Z) :
  y1 - 719162 <= e < y2 - 719162 -> 365 <= y2 - y1 <= 366 ->
  y2 - 719162 <= e + 4 - ((e + 3) mod 7 + 1) ->
  long = (y2 mod 7 =? 4) || (y1 mod 7 =? 3) ->
  (let week := (e - y1 + 719163 - ((e + 3) mod 7 + 1) + 10) / 7 in
   if week <? 1 then p
   else if (52 <? week) && negb long then (1, y + 1) else (as_u8 week, y))
  = ((e + 4 - ((e + 3) mod 7 + 1) - y2 + 719163 - 1) / 7 + 1, y + 1).
Proof.
  intros H1 H2 H3 ->. cbv zeta.
  set (w := (e - y1 + 719163 - ((e + 3) mod 7 + 1) + 10) / 7).
  assert (Hw : 53 <= w) by (unfold w; div_lia).
  destruct (Z.ltb_spec w 1); [lia|]. destruct (Z.ltb_spec 52 w); [|lia].
  assert (E : (y2 mod 7 =? 4) || (y1 mod 7 =? 3) = false)
    by (apply orb_false_iff; rewrite !Z.eqb_neq; clear w Hw H H0; div_lia).
  rewrite E. cbn [andb negb]. f_equal. div_lia.
Qed.

(** ** Properties *)

(** C27: the conversions between calendar dates and day numbers are inverse to each
    other, on every valid date of an [i32] year and on every day number of those
    years; the decoded date is valid, so no cast of [epoch_days_to_iso] loses a bit. *)
Theorem iso_epoch_days_bijection :
  (forall d, date_ok d -> year_i32 d -> epoch_days_to_iso (iso_to_epoch_days d) = d) /\
  (forall z, first_day <= z <= last_day ->
     date_ok (epoch_days_to_iso z) /\ year_i32 (epoch_days_to_iso z) /\
     iso_to_epoch_days (epoch_days_to_iso z) = z).
Proof. split; [apply epoch_days_of_epoch_days | apply decode_of_day]. Qed.

Lemma iso_epoch_days_bijection_witness :
  epoch_days_to_iso (iso_to_epoch_days (mkIsoDate 2024 2 29)) = mkIsoDate 2024 2 29 /\
  iso_to_epoch_days (epoch_days_to_iso (-141428)) = -141428.
Proof.
  split; [apply (proj1 iso_epoch_days_bijection) | apply (proj2 iso_epoch_days_bijection)].
  - concrete.
  - unfold year_i32; cbn; lia.
  - destruct first_last_day; lia.
Defined.

(** [iso_to_epoch_days] counts the days of the calendar from 1970-01-01: the
    calendar successor of a valid date (by the month table, leap years included)
    is one day later, and the order of dates is the order of day numbers. *)
Theorem iso_epoch_days_counts_days :
  iso_to_epoch_days (mkIsoDate 1970 1 1) = 0 /\
  (forall d, date_ok d ->
     date_ok (next_day d) /\ iso_to_epoch_days (next_day d) = iso_to_epoch_days d + 1) /\
  (forall a b, date_ok a -> date_ok b ->
     compare_iso_date a b = (iso_to_epoch_days a ?= iso_to_epoch_days b)).
Proof. split; [reflexivity|]. split; [apply next_day_ok | apply compare_iso_date_days]. Qed.

Lemma iso_epoch_days_counts_days_witness :
  next_day (mkIsoDate 1900 2 28) = mkIsoDate 1900 3 1 /\
  iso_to_epoch_days (mkIsoDate 1900 3 1) = iso_to_epoch_days (mkIsoDate 1900 2 28) + 1.
Proof.
  split; [reflexivity|].
  apply (proj1 (proj2 iso_epoch_days_counts_days) (mkIsoDate 1900 2 28)). concrete.
Defined.

(** The ISO week of a date of year 1 or later is the week of its Thursday: the
    week-numbering year is the year the Thursday of the date's week falls in, and
    the week number counts that year's Thursdays up to it. *)
Theorem iso_week_of_year_thursday d : date_ok d -> 1 <= year d < 2147483647 ->
  let thu := epoch_days_to_iso (iso_to_epoch_days d + 4 - iso_day_of_week d) in
  iso_day_of_week thu = 4 /\
  iso_week_of_year d = ((iso_day_of_year thu - 1) / 7 + 1, year thu).
Proof.
  intros Hok Hy thu. pose proof (iso_day_of_week_eq d) as Ew. pose proof (iso_day_of_year_eq d Hok) as [Ed Bd].
  pose proof (date_in_year_bounds d Hok) as B.
  pose proof (year_start_step (year d)) as S1. pose proof (year_start_step (year d - 1)) as S0.
  pose proof (year_start_step (year d + 1)) as S2.
  replace (year d + 1 - 1) with (year d) in S2 by lia.
  assert (Bt : first_day <= iso_to_epoch_days d + 4 - iso_day_of_week d <= last_day).
  { destruct first_last_day as [-> ->]. rewrite Ew.
    pose proof (year_start_mono (-2147483649) (year d - 1)).
    pose proof (year_start_mono (year d) 2147483646).
    assert (year_start (-2147483649) = -784352296671 /\ year_start 2147483646 = 784352295574)
      by (split; reflexivity). div_lia. }
  destruct (decode_of_day _ Bt) as (Hokt & _ & Et). fold thu in Hokt, Et.
  split; [rewrite iso_day_of_week_eq, Et, Ew; div_lia|].
  pose proof (iso_day_of_year_eq thu Hokt) as [Edt _].
  unfold iso_week_of_year.
  rewrite (Z.quot_div_nonneg (_ + 10) 7) by (rewrite ?Ew; div_lia).
  rewrite !is_iso_long_year_spec by lia.
  rewrite Et in Edt. rewrite Ed in *.
  assert (D : 365 <= year_start (year d) - year_start (year d - 1) <= 366)
    by (clear -S1; case_match; lia).
  assert (D0 : 365 <= year_start (year d - 1) - year_start (year d - 1 - 1) <= 366)
    by (clear -S0; case_match; lia).
  assert (D2 : 365 <= year_start (year d + 1) - year_start (year d) <= 366)
    by (clear -S2; case_match; lia).
  clear S0 S1 S2 Bd Ed Bt Hok.
  destruct (Z.lt_ge_cases (iso_to_epoch_days d + 4 - iso_day_of_week d)
              (year_start (year d - 1) - 719162)) as [HA|HA];
    [|destruct (Z.lt_ge_cases (iso_to_epoch_days d + 4 - iso_day_of_week d)
              (year_start (year d) - 719162)) as [HB|HB]].
  - assert (Eyt : year thu = year d - 1)
      by (apply year_unique; [done|]; rewrite Et, Ew in *; div_lia).
    rewrite Eyt in Edt |- *. rewrite Edt, Ew in *.
    apply (week_in_previous_year _ (year_start (year d - 1 - 1)) _ (year_start (year d))); try done.
  - assert (Eyt : year thu = year d) by (apply year_unique; [done|]; rewrite Et; lia).
    rewrite Eyt in Edt |- *. rewrite Edt, Ew in *.
    apply (week_in_year _ _ (year_start (year d))); try done; lia.
  - assert (Eyt : year thu = year d + 1).
    { apply year_unique; [done|]. replace (year d + 1 - 1) with (year d) by lia.
      rewrite Et, Ew in *. div_lia. }
    rewrite Eyt in Edt |- *. replace (year d + 1 - 1) with (year d) in Edt by lia.
    rewrite Edt, Ew in *. apply (week_in_next_year _ (year_start (year d - 1))); try done.
Qed.

Lemma iso_week_of_year_thursday_witness :
  iso_week_of_year (mkIsoDate 2005 1 2)
  = ((iso_day_of_year (mkIsoDate 2004 12 30) - 1) / 7 + 1, year (mkIsoDate 2004 12 30)) /\
  iso_week_of_year (mkIsoDate 2005 1 2) = (53, 2004).
Proof.
  split; [|reflexivity].
  apply (iso_week_of_year_thursday (mkIsoDate 2005 1 2)); [concrete | cbn; lia].
Defined.

(** [is_iso_long_year] divides with truncation, so the week rule above fails on
    years before year 0: -0013-12-31 is the 53rd Thursday of year -13, and
    [iso_week_of_year] reports week 1 of year -12. *)
Theorem iso_week_of_year_negative_year :
  let d := mkIsoDate (-13) 12 31 in
  let thu := epoch_days_to_iso (iso_to_epoch_days d + 4 - iso_day_of_week d) in
  thu = d /\ is_iso_long_year (-13) = false /\
  (iso_day_of_year thu - 1) / 7 + 1 = 53 /\ iso_week_of_year d = (1, -12).
Proof. vm_compute. repeat split. Qed.
