(* ===== verification/TemporalArith.v ===== *)
(** * Date, time and duration arithmetic of [TemporalIso]

    Addition and difference of dates, balancing of times of day and of
    durations, and rounding, against closed-form specifications. *)

From S2P Require Import Prelude TemporalIso TemporalCalendar.

(** ** Month arithmetic *)

(** The months since year 0, and the (year, month) of a month count. *)
Definition month_index (y m : Z) : Z := 12 * y + (m - 1).

Lemma balance_iso_year_month_spec y m :
  - 2 ^ 62 <= y <= 2 ^ 62 -> - 2 ^ 62 <= m <= 2 ^ 62 ->
  balance_iso_year_month y m
  = (as_i32 (month_index y m / 12), month_index y m mod 12 + 1).
Proof.
  intros Hy Hm. unfold balance_iso_year_month, month_index. cbv zeta.
  rewrite !(as_i64_small (m - 1)) by lia. rewrite as_i64_small by div_lia.
  rewrite as_u8_small by div_lia. f_equal; [f_equal|]; div_lia.
Qed.

(** [regulate_iso_date] with [Constrain] on a month of the year and a day from 1. *)
Lemma regulate_constrain y m d : 1 <= m <= 12 -> 1 <= d ->
  regulate_iso_date y m d Constrain = Some (mkIsoDate y m (Z.min d (iso_days_in_month y m))).
Proof.
  intros Hm Hd. pose proof (days_in_month_before y m Hm) as [_ B].
  unfold regulate_iso_date. rewrite (clamp_id 1 12), (as_u8_small m) by lia.
  replace (clamp d 1 (iso_days_in_month y m)) with (Z.min d (iso_days_in_month y m))
    by (unfold clamp; case_bools; lia).
  by rewrite as_u8_small by lia.
Qed.

Lemma regulate_reject y m d : 1 <= m <= 12 -> 1 <= d ->
  regulate_iso_date y m d Reject
  = if d <=? iso_days_in_month y m then Some (mkIsoDate y m d) else None.
Proof.
  intros Hm Hd. pose proof (days_in_month_before y m Hm) as [_ B].
  unfold regulate_iso_date.
  rewrite (proj2 (in_range_true 1 12 m) Hm). cbn [negb]. rewrite (as_u8_small m) by lia.
  destruct (Z.ltb_spec d 1); [lia|]. cbn [orb].
  destruct (Z.ltb_spec (iso_days_in_month y m) d), (Z.leb_spec d (iso_days_in_month y m)); try lia; [done|].
  by rewrite as_u8_small by lia.
Qed.

(** The month [n] months after [from]'s, its day number kept within the month. *)
Definition months_after (from : IsoDate) (n : Z) : IsoDate :=
  let i := month_index (year from) (month from) + n in
  mkIsoDate (i / 12) (i mod 12 + 1)
    (Z.min (day from) (iso_days_in_month (i / 12) (i mod 12 + 1))).

Lemma months_after_ok d n : date_ok d -> date_ok (months_after d n).
Proof.
  intros [Hm Hd]. set (i := month_index (year d) (month d) + n).
  assert (Hi : 1 <= i mod 12 + 1 <= 12) by div_lia.
  pose proof (days_in_month_before (i / 12) (i mod 12 + 1) Hi) as [_ B].
  split; cbn [year month day months_after]; fold i; lia.
Qed.

(** ** Adding a duration to a date *)

(** What [add_iso_date] computes, when no conversion overflows: move by whole
    months, then constrain (or refuse) the day, then move by whole days. *)
Definition add_iso_date_spec (date : IsoDate) (ys ms ws ds : Z) (ov : Overflow) : option IsoDate :=
  let i := month_index (year date) (month date) + 12 * ys + ms in
  let keeps_day := day date <=? iso_days_in_month (i / 12) (i mod 12 + 1) in
  match ov with
  | Reject => if keeps_day then Some tt else None
  | Constrain => Some tt
  end ≫= fun _ =>
  let e := iso_to_epoch_days (months_after date (12 * ys + ms)) + 7 * ws + ds in
  if in_range (MIN_EPOCH_DAYS - 1) (MAX_EPOCH_DAYS + 1) e
  then Some (epoch_days_to_iso e) else None.

Lemma epoch_days_bound B d : date_ok d -> Z.abs (year d) <= B ->
  Z.abs (iso_to_epoch_days d) <= 366 * B + 10 ^ 6.
Proof.
  intros H HB. pose proof (date_in_year_bounds d H) as E. unfold year_start in E. div_lia.
Qed.

Lemma iso_date_in_range_decoded e : Z.abs e <= 7 * 10 ^ 11 ->
  iso_date_in_range (epoch_days_to_iso e) = in_range (MIN_EPOCH_DAYS - 1) (MAX_EPOCH_DAYS + 1) e.
Proof.
  intros H. unfold iso_date_in_range.
  destruct (decode_of_day e) as (_ & _ & ->); [destruct first_last_day; lia | done].
Qed.

Lemma add_iso_date_unwrapped date ys ms ws ds ov :
  date_ok date -> year_i32 date ->
  Z.abs ys <= 2 ^ 60 -> Z.abs ms <= 2 ^ 60 -> Z.abs ws <= 2 ^ 32 -> Z.abs ds <= 2 * 10 ^ 11 ->
  Z.abs ((month_index (year date) (month date) + 12 * ys + ms) / 12) <= 10 ^ 9 ->
  add_iso_date date ys ms ws ds ov
  = add_iso_date_spec date ys ms ws ds ov.
Proof.
  intros [Hm Hd] Hy Hys Hms Hws Hds Hi32. unfold year_i32 in Hy.
  unfold add_iso_date.
  rewrite (as_i64_small (year date + ys)), (as_i64_small (month date + ms)) by lia.
  rewrite balance_iso_year_month_spec by lia.
  unfold add_iso_date_spec. cbv zeta.
  replace (month_index (year date + ys) (month date + ms))
    with (month_index (year date) (month date) + 12 * ys + ms) by (unfold month_index; lia).
  set (i := month_index (year date) (month date) + 12 * ys + ms) in *.
  rewrite (as_i32_small (i / 12)) by lia.
  assert (Hm' : 1 <= i mod 12 + 1 <= 12) by div_lia.
  pose proof (days_in_month_before (i / 12) (i mod 12 + 1) Hm') as [_ B].
  assert (Em : months_after date (12 * ys + ms)
    = mkIsoDate (i / 12) (i mod 12 + 1) (Z.min (day date) (iso_days_in_month (i / 12) (i mod 12 + 1)))).
  { unfold months_after. by replace (month_index (year date) (month date) + (12 * ys + ms)) with i by lia. }
  rewrite (as_i64_small (ws * 7)), (as_i64_small (ds + ws * 7)) by lia.
  assert (K : forall d', d' = months_after date (12 * ys + ms) ->
    (if iso_date_in_range (epoch_days_to_iso (as_i64 (iso_to_epoch_days d' + (ds + ws * 7))))
     then Some (epoch_days_to_iso (as_i64 (iso_to_epoch_days d' + (ds + ws * 7)))) else None)
    = (let e := iso_to_epoch_days (months_after date (12 * ys + ms)) + 7 * ws + ds in
       if in_range (MIN_EPOCH_DAYS - 1) (MAX_EPOCH_DAYS + 1) e
       then Some (epoch_days_to_iso e) else None)).
  { intros d' ->. cbv zeta.
    assert (Hok : date_ok (months_after date (12 * ys + ms))) by (by apply months_after_ok).
    assert (Be : Z.abs (iso_to_epoch_days (months_after date (12 * ys + ms))) <= 366 * 10 ^ 9 + 10 ^ 6)
      by (apply epoch_days_bound; [done | by rewrite Em]).
    set (e := iso_to_epoch_days (months_after date (12 * ys + ms))) in *.
    rewrite as_i64_small by lia.
    replace (e + (ds + ws * 7)) with (e + 7 * ws + ds) by lia.
    by rewrite iso_date_in_range_decoded by lia. }
  destruct ov; cbn [mbind option_bind].
  - rewrite regulate_constrain by lia. cbn [mbind option_bind]. apply K. by rewrite Em.
  - rewrite regulate_reject by lia. destruct (Z.leb_spec (day date) (iso_days_in_month (i / 12) (i mod 12 + 1)));
      [|done]. cbn [mbind option_bind]. apply K. rewrite Em. f_equal. lia.
Qed.

(** ** The difference of two dates *)

(** The whole months from [from] to [to]: the most that do not pass [to], in the
    direction [sg]; a last month that ends on an earlier day of the month than
    it began does not count. *)
Definition months_until (sg : Z) (from to : IsoDate) : Z :=
  month_index (year to) (month to) - month_index (year from) (month from)
  - (if 0 <? sg * (day from - day to) then sg else 0).

(** The search [most] finds the turning point [T] of a predicate that holds
    exactly beyond it, from an estimate at most one past it. *)
Lemma most_spec sg est T (surpasses : Z -> bool) :
  sg = 1 \/ sg = -1 -> 0 <= sg * T -> 0 <= sg * (est - T) <= 1 ->
  (forall n, Z.abs (n - T) <= 2 -> surpasses n = (0 <? sg * (n - T))) ->
  most sg est surpasses = Some T.
Proof.
  intros Hsg HT He H. unfold most, most_fuel.
  assert (HTs : surpasses T = false) by (rewrite H by lia; apply Z.ltb_ge; lia).
  assert (HTn : surpasses (T + sg) = true) by (rewrite H by lia; apply Z.ltb_lt; lia).
  assert (D : est = T \/ est = T + sg) by lia.
  assert (Up : forall f, most_up (S f) sg surpasses T = Some T) by (intros f; cbn; by rewrite HTn).
  destruct D as [->| ->].
  - replace (if 0 <? T * sg then T else 0) with T by (case_bools; lia).
    cbn [most_down]. rewrite HTs, andb_false_r. cbn [mbind option_bind]. apply Up.
  - replace (if 0 <? (T + sg) * sg then T + sg else 0) with (T + sg) by (case_bools; lia).
    cbn [most_down]. rewrite HTn. replace (T + sg =? 0) with false by lia. cbn [negb andb].
    replace (T + sg - sg) with T by lia. rewrite HTs, andb_false_r.
    cbn [mbind option_bind]. apply Up.
Qed.

(** [iso_date_surpasses] on a month count compares it to [months_until]. *)
Lemma surpasses_months sg i (from to : IsoDate) :
  sg = 1 \/ sg = -1 -> 1 <= month to <= 12 ->
  iso_date_surpasses sg (i / 12) (i mod 12 + 1) (day from) to
  = (0 <? sg * (i - month_index (year from) (month from) - months_until sg from to)).
Proof.
  intros Hsg Hm. unfold iso_date_surpasses, months_until, month_index.
  destruct (Z.eqb_spec (i / 12) (year to)) as [E|N]; cbn [negb].
  - destruct (Z.eqb_spec (i mod 12 + 1) (month to)) as [E'|N']; cbn [negb].
    + replace i with (12 * year to + (month to - 1)) by div_lia.
      destruct Hsg as [->| ->]; case_bools; lia.
    + destruct Hsg as [->| ->]; case_bools; div_lia.
  - destruct Hsg as [->| ->]; case_bools; div_lia.
Qed.

(** The direction of [to] from [from], as [difference_iso_date] takes it. *)
Definition direction (from to : IsoDate) : Z :=
  if iso_to_epoch_days from <? iso_to_epoch_days to then 1 else -1.

Lemma compare_sign (a b : Z) (x y z : option (Z * Z * Z * Z)) :
  a <> b ->
  match a ?= b with Eq => x | Gt => y | Lt => z end = if b <? a then y else z.
Proof.
  intros H. destruct (Z.compare_spec a b), (Z.ltb_spec b a); try lia; done.
Qed.

Lemma lt_months from to : date_ok from -> date_ok to ->
  iso_to_epoch_days from < iso_to_epoch_days to ->
  month_index (year from) (month from) < month_index (year to) (month to) \/
  (month_index (year from) (month from) = month_index (year to) (month to) /\ day from < day to).
Proof.
  intros Hf Ht L.
  assert (C : compare_iso_date from to = Lt)
    by (rewrite compare_iso_date_days by done; by apply Z.compare_lt_iff).
  revert C. unfold compare_iso_date, month_index. destruct Hf, Ht.
  destruct (Z.compare_spec (year from) (year to)); try done; [|lia].
  destruct (Z.compare_spec (month from) (month to)); try done; [|lia].
  destruct (Z.compare_spec (day from) (day to)); try done; lia.
Qed.

Lemma months_until_bounds from to : date_ok from -> date_ok to ->
  iso_to_epoch_days from <> iso_to_epoch_days to ->
  let sg := direction from to in let T := months_until sg from to in
  (sg = 1 \/ sg = -1) /\ 0 <= sg * T /\
  0 <= sg * (month_index (year to) (month to) - month_index (year from) (month from) - T) <= 1.
Proof.
  intros Hf Ht N. unfold direction, months_until.
  destruct (Z.ltb_spec (iso_to_epoch_days from) (iso_to_epoch_days to)) as [L|L].
  - pose proof (lt_months from to Hf Ht L). case_bools; lia.
  - pose proof (lt_months to from Ht Hf ltac:(lia)). case_bools; lia.
Qed.

(** The months part of [difference_iso_date], from [y0] whole years. *)
Lemma most_months from to y0 : date_ok from -> date_ok to ->
  Z.abs (year from) <= 10 ^ 9 -> Z.abs (year to) <= 10 ^ 9 -> Z.abs y0 <= 2 * 10 ^ 9 + 1 ->
  iso_to_epoch_days from <> iso_to_epoch_days to ->
  let sg := direction from to in let T := months_until sg from to in
  0 <= sg * (T - 12 * y0) ->
  most sg ((year to - year from - y0) * 12 + month to - month from)
    (fun n => let '(y, m) := balance_iso_year_month (year from + y0) (month from + n) in
              iso_date_surpasses sg y m (day from) to)
  = Some (T - 12 * y0).
Proof.
  intros Hf Ht Bf Bt By N sg T Hy0.
  destruct (months_until_bounds from to Hf Ht N) as (Hsg & HT & HE). fold sg in Hsg, HT, HE. fold T in HT, HE.
  destruct Hf as [Hmf Hdf], Ht as [Hmt Hdt].
  apply most_spec; [done | done | unfold month_index in HE; lia |].
  intros n Hn.
  assert (BT : Z.abs T <= 12 * (2 * 10 ^ 9 + 2)) by (unfold T, months_until, month_index; case_bools; lia).
  rewrite balance_iso_year_month_spec by lia.
  assert (Hi : Z.abs (month_index (year from + y0) (month from + n)
                      - month_index (year to) (month to)) <= 3) by (unfold month_index in *; lia).
  rewrite as_i32_small by (revert Hi; generalize (month_index (year from + y0) (month from + n));
    unfold month_index; clear -Bt Hmt; intros; div_lia).
  rewrite surpasses_months by done. fold T. f_equal. f_equal.
  unfold month_index. lia.
Qed.

(** The years part of [difference_iso_date]. *)
Lemma most_years from to : date_ok from -> date_ok to ->
  iso_to_epoch_days from <> iso_to_epoch_days to ->
  let sg := direction from to in let T := months_until sg from to in
  most sg (year to - year from)
    (fun n => iso_date_surpasses sg (year from + n) (month from) (day from) to)
  = Some (Z.quot T 12).
Proof.
  intros Hf Ht N sg T.
  destruct (months_until_bounds from to Hf Ht N) as (Hsg & HT & HE). fold sg in Hsg, HT, HE. fold T in HT, HE.
  destruct Hf as [Hmf Hdf], Ht as [Hmt Hdt].
  apply most_spec; [done | destruct Hsg as [E|E]; rewrite E in *; div_lia
    | unfold month_index in HE; destruct Hsg as [E|E]; rewrite E in *; div_lia |].
  intros n Hn.
  pose proof (surpasses_months sg (month_index (year from + n) (month from)) from to Hsg Hmt) as E.
  unfold month_index in E at 1 2.
  replace ((12 * (year from + n) + (month from - 1)) / 12) with (year from + n) in E by div_lia.
  replace ((12 * (year from + n) + (month from - 1)) mod 12 + 1) with (month from) in E by div_lia.
  rewrite E. fold T.
  replace (month_index (year from + n) (month from) - month_index (year from) (month from) - T)
    with (12 * n - T) by (unfold month_index; lia).
  apply eq_iff_eq_true. rewrite !Z.ltb_lt.
  clear E Hn HE Hmf Hdf Hmt Hdt N. destruct Hsg as [E1|E1]; rewrite E1 in *; div_lia.
Qed.

(** [difference_iso_date] without its searches. *)
Definition difference_iso_date_spec (from to : IsoDate) (largest : Unit) : Z * Z * Z * Z :=
  let dd := iso_to_epoch_days to - iso_to_epoch_days from in
  match largest with
  | Day => (0, 0, 0, dd)
  | Week => (0, 0, Z.quot dd 7, Z.rem dd 7)
  | _ =>
      if dd =? 0 then (0, 0, 0, 0)
      else
        let T := months_until (direction from to) from to in
        let rest := iso_to_epoch_days to - iso_to_epoch_days (months_after from T) in
        match largest with
        | Year => (Z.quot T 12, Z.rem T 12, 0, rest)
        | _ => (0, T, 0, rest)
        end
  end.

(** The date [difference_iso_date] anchors its days at. *)
Lemma difference_mid from to T : date_ok from ->
  Z.abs (year to) <= 10 ^ 9 -> Z.abs (year from) <= 10 ^ 9 -> 1 <= month to <= 12 ->
  Z.abs (month_index (year to) (month to) - month_index (year from) (month from) - T) <= 1 ->
  forall y0, Z.abs y0 <= 2 * 10 ^ 9 + 1 ->
  (let '(y, m) := balance_iso_year_month (year from + y0) (month from + (T - 12 * y0)) in
   default from (regulate_iso_date y m (day from) Constrain))
  = months_after from T.
Proof.
  intros [Hm Hd] Bt Bf Hmt HT y0 By.
  rewrite balance_iso_year_month_spec by (unfold month_index in HT; lia).
  replace (month_index (year from + y0) (month from + (T - 12 * y0)))
    with (month_index (year from) (month from) + T) by (unfold month_index; lia).
  assert (Hi : Z.abs (month_index (year from) (month from) + T
                      - month_index (year to) (month to)) <= 1) by lia.
  rewrite as_i32_small by (revert Hi; generalize (month_index (year from) (month from) + T);
    unfold month_index; clear -Bt Hmt; intros; div_lia).
  rewrite regulate_constrain by div_lia. done.
Qed.

(** The months and days part of [difference_iso_date], after [y0] whole years. *)
Lemma difference_months from to y0 : date_ok from -> date_ok to ->
  Z.abs (year from) <= 10 ^ 9 -> Z.abs (year to) <= 10 ^ 9 ->
  iso_to_epoch_days from <> iso_to_epoch_days to ->
  let sg := direction from to in let T := months_until sg from to in
  Z.abs y0 <= 2 * 10 ^ 9 + 1 -> 0 <= sg * (T - 12 * y0) ->
  (months ← most sg ((year to - year from - y0) * 12 + month to - month from)
      (fun n => let '(y, m) := balance_iso_year_month (year from + y0) (month from + n) in
                iso_date_surpasses sg y m (day from) to);
   let '(y, m) := balance_iso_year_month (year from + y0) (month from + months) in
   let mid := default from (regulate_iso_date y m (day from) Constrain) in
   let days := iso_to_epoch_days to - iso_to_epoch_days mid in
   Some (y0, months, 0, days))
  = Some (y0, T - 12 * y0, 0, iso_to_epoch_days to - iso_to_epoch_days (months_after from T)).
Proof.
  intros Hf Ht Bf Bt N sg T By H0.
  destruct (months_until_bounds from to Hf Ht N) as (Hsg & HT & HE).
  unfold sg. rewrite most_months by done. cbn [mbind option_bind].
  fold sg. fold T. fold sg in HE, Hsg. fold T in HE.
  rewrite <- (difference_mid from to T Hf Bt Bf (proj1 Ht) ltac:(lia) y0 By).
  by destruct (balance_iso_year_month _ _).
Qed.

Lemma difference_sign (a b : Z) : a <> b ->
  (b ?= a) <> Eq /\ match b ?= a with Gt => 1 | _ => -1 end = if a <? b then 1 else -1.
Proof. intros N. destruct (Z.compare_spec b a), (Z.ltb_spec a b); lia || done. Qed.

Lemma difference_iso_date_eq from to largest : date_ok from -> date_ok to ->
  Z.abs (year from) <= 10 ^ 9 -> Z.abs (year to) <= 10 ^ 9 ->
  difference_iso_date from to largest = Some (difference_iso_date_spec from to largest).
Proof.
  intros Hf Ht Bf Bt. unfold difference_iso_date, difference_iso_date_spec.
  destruct (decide (largest = Day \/ largest = Week)) as [[->| ->]|N]; [done..|].
  rewrite compare_iso_date_days by done.
  destruct (Z.eqb_spec (iso_to_epoch_days to - iso_to_epoch_days from) 0) as [E|NE].
  { replace (iso_to_epoch_days from) with (iso_to_epoch_days to) by lia.
    rewrite Z.compare_refl. destruct largest; try reflexivity; solve [exfalso; first [apply N; by auto | congruence]]. }
  assert (NEq : iso_to_epoch_days from <> iso_to_epoch_days to) by lia.
  destruct (difference_sign _ _ NEq) as [C1 C2]. fold (direction from to) in C2.
  destruct (months_until_bounds from to Hf Ht NEq) as (Hsg & HT & HE).
  assert (BT : Z.abs (months_until (direction from to) from to) <= 12 * (2 * 10 ^ 9) + 12)
    by (destruct Hf, Ht; unfold month_index in HE; lia).
  cbv zeta in *.
  destruct (iso_to_epoch_days to ?= iso_to_epoch_days from); [done|..]; rewrite C2.
  all: destruct (decide (largest = Year)) as [->|NY].
  1,3: rewrite (most_years from to Hf Ht NEq); cbn [mbind option_bind];
    rewrite difference_months by (try done; destruct Hsg as [Es|Es]; rewrite Es in *; div_lia);
    do 4 f_equal; clear; div_lia.
  all: cbn [mbind option_bind]; rewrite difference_months by (try done; lia).
  all: rewrite Z.mul_0_r, Z.sub_0_r; destruct largest; try reflexivity; solve [exfalso; first [apply N; by auto | congruence]].
Qed.

Lemma months_after_0 d : date_ok d -> months_after d 0 = d.
Proof.
  intros [Hm Hd]. unfold months_after, month_index. rewrite Z.add_0_r.
  replace ((12 * year d + (month d - 1)) / 12) with (year d) by div_lia.
  replace ((12 * year d + (month d - 1)) mod 12 + 1) with (month d) by div_lia.
  rewrite Z.min_l by lia. by destruct d.
Qed.

(** Adding whole months and the days that then remain reaches the target. *)
Lemma add_iso_date_reaches from to ys ms ws ds :
  date_ok from -> date_ok to -> Z.abs (year from) <= 10 ^ 6 -> Z.abs (year to) <= 10 ^ 6 ->
  iso_date_in_range to = true ->
  Z.abs ys <= 3 * 10 ^ 6 -> Z.abs ms <= 3 * 10 ^ 7 -> Z.abs ws <= 2 ^ 32 -> Z.abs ds <= 2 * 10 ^ 11 ->
  iso_to_epoch_days (months_after from (12 * ys + ms)) + 7 * ws + ds = iso_to_epoch_days to ->
  add_iso_date from ys ms ws ds Constrain = Some to.
Proof.
  intros Hf Ht Bf Bt Hr Bys Bms Bws Bds E.
  assert (Hmf : 1 <= month from <= 12) by apply Hf.
  rewrite add_iso_date_unwrapped; try done; try lia; [| unfold year_i32; lia |].
  - unfold add_iso_date_spec. cbn [mbind option_bind]. rewrite E.
    unfold iso_date_in_range in Hr. rewrite Hr.
    rewrite epoch_days_of_epoch_days; [done | done | unfold year_i32; lia].
  - unfold month_index. clear E. div_lia.
Qed.

Lemma difference_reaches from to largest : date_ok from -> date_ok to ->
  Z.abs (year from) <= 10 ^ 6 -> Z.abs (year to) <= 10 ^ 6 ->
  let '(ys, ms, ws, ds) := difference_iso_date_spec from to largest in
  iso_to_epoch_days (months_after from (12 * ys + ms)) + 7 * ws + ds = iso_to_epoch_days to /\
  Z.abs ys <= 3 * 10 ^ 6 /\ Z.abs ms <= 3 * 10 ^ 7 /\ Z.abs ws <= 2 ^ 32 /\ Z.abs ds <= 2 * 10 ^ 11.
Proof.
  intros Hf Ht Bf Bt. pose proof (epoch_days_bound _ _ Hf Bf) as Ef.
  pose proof (epoch_days_bound _ _ Ht Bt) as Et.
  set (T := months_until (direction from to) from to).
  pose proof (months_after_ok from T Hf) as Hok.
  assert (HT : iso_to_epoch_days from <> iso_to_epoch_days to ->
    Z.abs T <= 3 * 10 ^ 7 /\ Z.abs (year (months_after from T)) <= 2 * 10 ^ 6).
  { intros N. destruct (months_until_bounds from to Hf Ht N) as (Hsg & HT & HE). fold T in HT, HE.
    destruct Hf as [Hmf _], Ht as [Hmt _]. cbn [year months_after]. unfold month_index in *.
    split; [lia|]. assert (Hi : Z.abs (12 * year from + (month from - 1) + T) <= 12 * 10 ^ 6 + 13) by lia.
    clear -Hi. div_lia. }
  unfold difference_iso_date_spec.
  destruct (Z.eqb_spec (iso_to_epoch_days to - iso_to_epoch_days from) 0) as [E|N].
  - destruct largest; cbv zeta; rewrite ?E; change (12 * 0 + 0) with 0;
      rewrite (months_after_0 from) by done; try lia; clear Ef Et; div_lia.
  - destruct HT as [BT Bm]; [lia|].
    pose proof (epoch_days_bound _ _ Hok Bm) as Em.
    assert (H12 : 12 * Z.quot T 12 + Z.rem T 12 = T) by (clear; div_lia).
    assert (BQ : Z.abs (Z.quot T 12) <= 3 * 10 ^ 6 /\ Z.abs (Z.rem T 12) <= 11)
      by (clear -BT; div_lia).
    assert (BW : forall n, Z.abs n <= 2 * 10 ^ 9 -> 7 * Z.quot n 7 + Z.rem n 7 = n /\
      Z.abs (Z.quot n 7) <= 2 ^ 32 /\ Z.abs (Z.rem n 7) <= 6) by (clear; intros; div_lia).
    specialize (BW (iso_to_epoch_days to - iso_to_epoch_days from) ltac:(lia)).
    destruct largest; cbv zeta; fold T; rewrite ?H12; change (12 * 0 + T) with T;
      change (12 * 0 + 0) with 0; rewrite ?(months_after_0 from) by done.
    all: clearbody T; clear -Ef Et Em BT BQ BW; repeat split; lia.
Qed.

(** ** Properties *)

(** C28: [difference_iso_date] is total on valid dates and equals its closed form.
    The estimate-driven search for the largest non-surpassing year and month counts
    always ends within its fuel, at the whole months between the dates (less one
    when the last month is not complete), split into years and months by truncated
    division; the remainder is the distance in days from the constrained anchor. *)
Theorem difference_iso_date_closed_form from to largest : date_ok from -> date_ok to ->
  Z.abs (year from) <= 10 ^ 9 -> Z.abs (year to) <= 10 ^ 9 ->
  difference_iso_date from to largest = Some (difference_iso_date_spec from to largest).
Proof. apply difference_iso_date_eq. Qed.

Lemma difference_iso_date_closed_form_witness :
  difference_iso_date (mkIsoDate 2019 12 31) (mkIsoDate 2021 2 28) Year
  = Some (difference_iso_date_spec (mkIsoDate 2019 12 31) (mkIsoDate 2021 2 28) Year) /\
  difference_iso_date_spec (mkIsoDate 2019 12 31) (mkIsoDate 2021 2 28) Year = (1, 1, 0, 28).
Proof.
  split; [|reflexivity].
  apply difference_iso_date_closed_form; [concrete | concrete | cbn; lia | cbn; lia].
Defined.

(** C29: [difference_iso_date] and [add_iso_date] are inverse: adding the reported
    years, months, weeks and days to the first date, constraining, gives the second,
    for every largest unit. *)
Theorem difference_add_roundtrip from to largest : date_ok from -> date_ok to ->
  Z.abs (year from) <= 10 ^ 6 -> Z.abs (year to) <= 10 ^ 6 -> iso_date_in_range to = true ->
  exists ys ms ws ds, difference_iso_date from to largest = Some (ys, ms, ws, ds) /\
    add_iso_date from ys ms ws ds Constrain = Some to.
Proof.
  intros Hf Ht Bf Bt Hr. rewrite difference_iso_date_eq by (done || lia).
  pose proof (difference_reaches from to largest Hf Ht Bf Bt) as R.
  destruct (difference_iso_date_spec from to largest) as [[[ys ms] ws] ds].
  destruct R as (R & B1 & B2 & B3 & B4). exists ys, ms, ws, ds. split; [done|].
  by apply add_iso_date_reaches.
Qed.

Lemma difference_add_roundtrip_witness :
  exists ys ms ws ds,
    difference_iso_date (mkIsoDate 2024 1 31) (mkIsoDate 1969 2 28) Month = Some (ys, ms, ws, ds) /\
    add_iso_date (mkIsoDate 2024 1 31) ys ms ws ds Constrain = Some (mkIsoDate 1969 2 28).
Proof.
  apply difference_add_roundtrip; [concrete | concrete | cbn; lia | cbn; lia | reflexivity].
Defined.

(** C30: [add_iso_date] moves by whole months, constrains or refuses the day of the
    month, then moves by whole days, and answers [None] exactly when the day is
    refused or the result is out of range, as long as the year fits an [i32]. *)
Theorem add_iso_date_correct date ys ms ws ds ov :
  date_ok date -> year_i32 date ->
  Z.abs ys <= 2 ^ 60 -> Z.abs ms <= 2 ^ 60 -> Z.abs ws <= 2 ^ 32 -> Z.abs ds <= 2 * 10 ^ 11 ->
  Z.abs ((month_index (year date) (month date) + 12 * ys + ms) / 12) <= 10 ^ 9 ->
  add_iso_date date ys ms ws ds ov = add_iso_date_spec date ys ms ws ds ov.
Proof. apply add_iso_date_unwrapped. Qed.

Lemma add_iso_date_correct_witness :
  add_iso_date (mkIsoDate 2024 1 31) 0 1 0 1 Constrain
  = add_iso_date_spec (mkIsoDate 2024 1 31) 0 1 0 1 Constrain /\
  add_iso_date_spec (mkIsoDate 2024 1 31) 0 1 0 1 Constrain = Some (mkIsoDate 2024 3 1).
Proof.
  split; [|reflexivity].
  apply add_iso_date_correct; concrete.
Defined.

(** C40: Without that bound the year wraps: [balance_iso_year_month] casts it to
    [i32], so adding 4294967295 years, a valid duration, to 2020-01-01 answers
    2019-01-01 instead of [None]. *)
Theorem add_iso_date_year_wraps :
  is_valid (mkDuration 4294967295 0 0 0 0 0 0 0 0 0) = true /\
  add_iso_date (mkIsoDate 2020 1 1) 4294967295 0 0 0 Reject = Some (mkIsoDate 2019 1 1).
Proof. split; reflexivity. Qed.

(** ** Rounding *)

(** What each rounding mode asks of a multiple [r] of [inc] near [x]. *)
Definition rounds (mode : RoundMode) (x inc r : Z) : Prop :=
  r mod inc = 0 /\
  match mode with
  | Ceil => x <= r < x + inc
  | Floor => x - inc < r <= x
  | Trunc => if 0 <=? x then x - inc < r <= x else x <= r < x + inc
  | Expand => if 0 <=? x then x <= r < x + inc else x - inc < r <= x
  | HalfCeil => 2 * Z.abs (r - x) <= inc /\ (2 * Z.abs (r - x) = inc -> x < r)
  | HalfFloor => 2 * Z.abs (r - x) <= inc /\ (2 * Z.abs (r - x) = inc -> r < x)
  | HalfExpand => 2 * Z.abs (r - x) <= inc /\ (2 * Z.abs (r - x) = inc -> Z.abs x < Z.abs r)
  | HalfTrunc => 2 * Z.abs (r - x) <= inc /\ (2 * Z.abs (r - x) = inc -> Z.abs r < Z.abs x)
  | HalfEven => 2 * Z.abs (r - x) <= inc /\ (2 * Z.abs (r - x) = inc -> Z.even (r / inc) = true)
  end.

(** A multiple of [inc] less than [inc] away from [q * inc + r] is one of the two
    neighbouring multiples. *)
Lemma near_multiple inc q r z : 0 < r < inc -> z mod inc = 0 ->
  q * inc + r - inc < z < q * inc + r + inc -> z = q * inc \/ z = q * inc + inc.
Proof.
  intros Hr Hz B. assert (E : z = z / inc * inc) by (pose proof (Z.div_mod z inc ltac:(lia)); lia).
  set (k := z / inc) in *. clearbody k. subst z.
  assert (k <= q - 1 \/ k = q \/ k = q + 1 \/ q + 2 <= k) as [K|[->|[->|K]]] by lia;
    [|by left|right; lia|].
  - apply (Z.mul_le_mono_nonneg_r _ _ inc) in K; lia.
  - apply (Z.mul_le_mono_nonneg_r _ _ inc) in K; lia.
Qed.

Lemma even_pred_rem q : Z.even q = (Z.rem q 2 =? 0).
Proof.
  rewrite Zeven_mod. destruct (Z.eqb_spec (Z.rem q 2) 0), (Z.eqb_spec (q mod 2) 0); try done;
    exfalso; div_lia.
Qed.

(** [round_to_increment] on unbounded integers. *)
Definition round_ideal (x increment : Z) (mode : RoundMode) : Z :=
  if increment <=? 1 then x
  else
    let q := x / increment in
    let r := x mod increment in
    if r =? 0 then x
    else
      let lower := q * increment in
      let upper := lower + increment in
      let twice := 2 * r in
      let pick_upper :=
        match mode with
        | Ceil | Expand => true
        | Floor | Trunc => false
        | HalfCeil => increment <=? twice
        | HalfFloor => increment <? twice
        | HalfExpand => (increment <? twice) || ((twice =? increment) && (0 <=? x))
        | HalfTrunc => (increment <? twice) || ((twice =? increment) && (x <? 0))
        | HalfEven =>
            if twice =? increment then negb (Z.rem q 2 =? 0) else increment <? twice
        end in
      match mode with
      | Trunc => if 0 <=? x then lower else upper
      | Expand => if 0 <=? x then upper else lower
      | _ => if pick_upper then upper else lower
      end.

(** [round_ideal], with its operand split by the increment. *)
Lemma round_split q r inc mode : 0 < r < inc -> 1 < inc ->
  let x := q * inc + r in let lo := q * inc in let up := q * inc + inc in
  forall z, z mod inc = 0 -> (z = lo \/ z = up) ->
  (rounds mode x inc z <-> z = round_ideal x inc mode).
Proof.
  intros Hr Hi x lo up z Hz Hlu. unfold round_ideal, rounds.
  destruct (Z.leb_spec inc 1); [lia|].
  assert (Eq : x / inc = q) by (unfold x; rewrite Z.div_add_l, Z.div_small; lia).
  assert (Er : x mod inc = r) by (unfold x; rewrite Z.add_comm, Z_mod_plus_full, Z.mod_small; lia).
  rewrite Eq, Er. replace (r =? 0) with false by lia. cbv zeta. fold lo up.
  assert (Elo : Z.even (lo / inc) = (Z.rem q 2 =? 0))
    by (unfold lo; rewrite Z.div_mul by lia; apply even_pred_rem).
  assert (Eup : Z.even (up / inc) = negb (Z.rem q 2 =? 0)).
  { unfold up. replace (q * inc + inc) with ((q + 1) * inc) by lia. rewrite Z.div_mul by lia.
    rewrite Z.even_add, <- even_pred_rem. by destruct (Z.even q). }
  assert (Hx : x = lo + r /\ up = lo + inc) by (unfold x, lo, up; lia).
  assert (Q : 0 <= lo \/ up <= 0).
  { unfold up, lo. destruct (Z.le_gt_cases 0 q) as [Q|Q]; [left; nia | right].
    replace (q * inc + inc) with ((q + 1) * inc) by lia. apply Z.mul_nonpos_nonneg; lia. }
  clearbody x lo up. clear Eq Er.
  destruct mode, Hlu as [->| ->]; rewrite ?Elo, ?Eup; clear Elo Eup;
    case_cmp; cbn [negb andb orb]; try lia.
  all: intuition (try lia; try congruence).
Qed.

Lemma rounds_near mode x inc z : 1 <= inc -> rounds mode x inc z ->
  z mod inc = 0 /\ x - inc < z < x + inc.
Proof.
  intros Hi [Hz H]. split; [done|]. destruct mode; cbn in H; try lia; destruct (0 <=? x); lia.
Qed.

Lemma rounds_exact mode x inc : 1 <= inc -> x mod inc = 0 -> rounds mode x inc x.
Proof.
  intros Hi Hx. split; [done|]. rewrite Z.sub_diag.
  destruct mode; try (destruct (0 <=? x)); try lia; (split; [lia|]; cbn; lia).
Qed.

Lemma round_exact mode x inc z : 1 <= inc -> x mod inc = 0 -> rounds mode x inc z -> z = x.
Proof.
  intros Hi Hx H. destruct (rounds_near _ _ _ _ Hi H) as [Hz B].
  pose proof (Z.div_mod x inc ltac:(lia)) as Ex. pose proof (Z.div_mod z inc ltac:(lia)) as Ez.
  rewrite Hx in Ex. rewrite Hz in Ez.
  assert (z / inc = x / inc) as E by nia. rewrite E in Ez. lia.
Qed.

Lemma round_ideal_iff x inc mode r : 1 <= inc ->
  rounds mode x inc r <-> r = round_ideal x inc mode.
Proof.
  intros Hi. destruct (Z.eqb_spec (x mod inc) 0) as [Hx|Hx].
  - assert (E : round_ideal x inc mode = x)
      by (unfold round_ideal; rewrite Hx; by destruct (inc <=? 1)).
    rewrite E. split; [by apply round_exact | intros ->; by apply rounds_exact].
  - assert (H1 : 1 < inc) by (destruct (decide (inc = 1)) as [->|]; [rewrite Z.mod_1_r in Hx|]; lia).
    pose proof (Z.mod_pos_bound x inc ltac:(lia)) as Hr.
    pose proof (fun z => round_split (x / inc) (x mod inc) inc mode ltac:(lia) H1 z) as S.
    cbv zeta in S. replace (x / inc * inc + x mod inc) with x in S
      by (pose proof (Z.div_mod x inc); lia).
    split; intros H.
    + destruct (rounds_near _ _ _ _ Hi H) as [Hz B].
      apply S; [done| |done]. apply (near_multiple inc (x / inc) (x mod inc)); [lia | done |].
      pose proof (Z.div_mod x inc). lia.
    + assert (L : r = x / inc * inc \/ r = x / inc * inc + inc).
      { rewrite H. unfold round_ideal. replace (inc <=? 1) with false by lia.
        replace (x mod inc =? 0) with false by lia. cbv zeta.
        destruct mode; case_bools; auto. }
      apply S; [|done|done]. destruct L as [->| ->]; [apply Z_mod_mult|].
      replace (x / inc * inc + inc) with ((x / inc + 1) * inc) by lia. apply Z_mod_mult.
Qed.

(** Where the rounding cannot leave the 128 bits. *)
Definition round_fits (x inc : Z) : Prop := 1 <= inc <= 2 ^ 126 /\ - 2 ^ 127 + inc <= x < 2 ^ 127 - inc.

Lemma round_ideal_eq x inc mode : round_fits x inc -> round_to_increment x inc mode = round_ideal x inc mode.
Proof.
  intros [Hi Hx]. unfold round_to_increment, round_ideal. destruct (Z.leb_spec inc 1); [done|].
  pose proof (Z.mod_pos_bound x inc ltac:(lia)) as Hr. pose proof (Z.div_mod x inc ltac:(lia)) as Ed.
  destruct (x mod inc =? 0); [done|]. cbv zeta. rewrite !(as_i128_small (x / inc * inc)), !as_i128_small by lia. done.
Qed.

(** C31: in every mode, [round_to_increment] is the one multiple of the increment that
    the mode asks for: the neighbour above, below, toward or away from zero, or the
    nearest one with the mode's way of breaking ties.  The increment is at most
    2^126 and the operand at least one increment away from the ends of the 128-bit
    range, so that the code's sums and doublings do not overflow. *)
Theorem round_to_increment_correct x inc mode : 1 <= inc <= 2 ^ 126 -> - 2 ^ 127 + inc <= x < 2 ^ 127 - inc -> forall r,
  rounds mode x inc r <-> r = round_to_increment x inc mode.
Proof. intros Hi Hx r. rewrite round_ideal_eq by done. apply round_ideal_iff. lia. Qed.

Lemma round_to_increment_correct_witness :
  rounds HalfEven (-25) 10 (-20) /\ rounds HalfExpand (-25) 10 (-30).
Proof.
  split; [apply (proj2 (round_to_increment_correct (-25) 10 HalfEven ltac:(lia) ltac:(lia) (-20)))
         | apply (proj2 (round_to_increment_correct (-25) 10 HalfExpand ltac:(lia) ltac:(lia) (-30)))];
    reflexivity.
Defined.

(** Beyond that range the doubling wraps: the nearest multiple of [2^127 - 1] to
    [2^127 - 2] is [2^127 - 1], the code answers 0. *)
Lemma round_to_increment_wraps : round_to_increment (2 ^ 127 - 2) (2 ^ 127 - 1) HalfCeil = 0.
Proof. reflexivity. Qed.

(** ** Nudging *)

Lemma round_between mode x inc lo : 1 <= inc -> lo mod inc = 0 -> lo <= x <= lo + inc ->
  round_ideal x inc mode = lo \/ round_ideal x inc mode = lo + inc.
Proof.
  intros Hi Hlo B.
  assert (R : rounds mode x inc (round_ideal x inc mode))
    by (by apply round_ideal_iff).
  destruct (rounds_near _ _ _ _ Hi R) as [Hz Bz].
  pose proof (Z.div_mod lo inc ltac:(lia)) as Elo. rewrite Hlo in Elo.
  destruct (decide (x = lo)) as [->|Nl].
  { left. by apply (round_exact mode _ inc). }
  destruct (decide (x = lo + inc)) as [->|Nu].
  { right. apply (round_exact mode _ inc); [done | | done].
    rewrite Z.add_mod, Hlo, Z_mod_same_full by lia. cbn. by rewrite Z.mod_0_l by lia. }
  destruct (near_multiple inc (lo / inc) (x - lo) (round_ideal x inc mode)); [lia | done | lia | left; lia | right; lia].
Qed.

Lemma nudge_loop_runs sg inc mode dest epoch_of r1 :
  nudge_loop 2 sg inc mode dest epoch_of r1 false <> None.
Proof.
  cbn [nudge_loop]. change (negb true) with false.
  repeat match goal with
  | |- context [?b && false] => rewrite (andb_false_r b)
  | |- match ?o with Some _ => _ | None => _ end <> None => destruct o; [|done]
  | |- (if ?b then _ else _) <> None => destruct b; try done
  end.
Qed.

(** The rounded progress through a window is one of its ends. *)
Lemma nudge_ends r1 sg inc mode den num k :
  sg = 1 \/ sg = -1 -> 1 <= inc -> 1 <= den -> 0 <= num <= den -> r1 = k * inc ->
  let x := r1 * den + sg * inc * num in
  exists n, Z.quot (round_ideal x (inc * den) mode) den = n /\
    (n = r1 \/ n = r1 + inc * sg) /\ rounds mode x (inc * den) (n * den).
Proof.
  intros Hsg Hi Hd Hn Hk x.
  assert (Hid : 1 <= inc * den) by nia. assert (0 <= inc * num <= inc * den) by nia.
  assert (R : rounds mode x (inc * den) (round_ideal x (inc * den) mode))
    by (by apply round_ideal_iff).
  assert (E : exists n, round_ideal x (inc * den) mode = n * den /\ (n = r1 \/ n = r1 + inc * sg)).
  { destruct Hsg as [->| ->].
    - destruct (round_between mode x (inc * den) (r1 * den)) as [->| ->]; [done | | unfold x; lia | |].
      + rewrite Hk. replace (k * inc * den) with (k * (inc * den)) by lia. apply Z_mod_mult.
      + exists r1. auto.
      + exists (r1 + inc * 1). split; [lia | auto].
    - destruct (round_between mode x (inc * den) ((r1 - inc) * den)) as [->| ->]; [done | | unfold x; lia | |].
      + rewrite Hk. replace ((k * inc - inc) * den) with ((k - 1) * (inc * den)) by lia. apply Z_mod_mult.
      + exists (r1 + inc * -1). split; [lia | auto].
      + exists r1. split; [lia | auto]. }
  destruct E as (n & E & Hn'). exists n. rewrite E in R |- *. rewrite Z.quot_mul by lia. done.
Qed.

(** Nothing overflows when the window fits in 126 bits. *)
Lemma nudge_fits r r1 sg inc den num : sg = 1 \/ sg = -1 -> 1 <= inc -> Z.abs r1 <= Z.abs r -> 1 <= den -> 0 <= num <= den ->
  (Z.abs r + 2 * inc) * den <= 2 ^ 126 ->
  den <= 2 ^ 126 /\ - 2 ^ 127 <= r1 * den + sg * inc * num < 2 ^ 127 /\ - 2 ^ 127 <= inc * den < 2 ^ 127 /\
  round_fits (r1 * den + sg * inc * num) (inc * den).
Proof.
  intros Hsg Hi Hr Hd Hn Hfit. assert (H1 : 0 <= inc * num <= inc * den) by nia. assert (H2 : Z.abs (r1 * den) <= Z.abs r * den) by (rewrite Z.abs_mul; nia).
  assert (H3 : 1 <= inc * den) by nia. assert (H4 : den <= inc * den) by nia. rewrite Z.mul_add_distr_r, <- Z.mul_assoc in Hfit. 
  assert (H5 : 0 <= Z.abs r * den) by nia. unfold round_fits.
  replace (sg * inc * num) with (sg * (inc * num)) by lia. destruct Hsg as [->| ->]; lia.
Qed.

(** The window search of [nudge_calendar_count] always ends: its loop shifts the
    window at most once.  When the anchor's window [r1, r1 + increment] contains the
    destination and its ends are distinct instants (and the products fit), the answer is one of the two
    ends, the one [mode] rounds the destination's progress through the window to,
    with [DidExpand] set exactly when it is the far end. *)
Theorem nudge_calendar_count_window r sg increment mode dest epoch_of :
  nudge_calendar_count r sg increment mode dest epoch_of <> None /\
  forall e1 e2,
  sg = 1 \/ sg = -1 -> 1 <= increment <= 2 ^ 60 -> Z.abs r <= 2 ^ 60 ->
  let r1 := Z.quot r increment * increment in
  let r2 := r1 + increment * sg in
  epoch_of r1 = Some e1 -> epoch_of r2 = Some e2 ->
  0 <= sg * (dest - e1) -> 0 <= sg * (e2 - dest) -> e1 <> e2 ->
  (Z.abs r + 2 * increment) * Z.abs (e2 - e1) <= 2 ^ 126 ->
  exists n, nudge_calendar_count r sg increment mode dest epoch_of
            = Some (Some (n, negb (n =? r1))) /\ (n = r1 \/ n = r2) /\
    let den := Z.abs (e2 - e1) in
    rounds mode (r1 * den + sg * increment * Z.abs (dest - e1)) (increment * den) (n * den).
Proof.
  split.
  { unfold nudge_calendar_count. apply nudge_loop_runs. }
  intros e1 e2 Hsg Hi Hr r1 r2 H1 H2 D1 D2 Ne Hfit.
  assert (Hr1' : Z.abs r1 <= Z.abs r).
  { unfold r1. rewrite Z.mul_comm. destruct (Z.le_gt_cases 0 r) as [R|R].
    - pose proof (Z.mul_quot_le r increment R ltac:(lia)). pose proof (Z.quot_pos r increment R ltac:(lia)). nia.
    - pose proof (Z.mul_quot_ge r increment ltac:(lia) ltac:(lia)). lia. }
  assert (Hr1 : Z.abs r1 <= 2 ^ 60) by lia.
  unfold nudge_calendar_count. rewrite Z.max_l by lia. fold r1.
  cbn [nudge_loop]. rewrite (as_i64_small (increment * sg)) by lia.
  rewrite (as_i64_small (r1 + _)) by lia. fold r2. rewrite H1, H2.
  replace (if 0 <? sg then _ else _) with true by (case_cmp; destruct Hsg; lia).
  cbn [negb andb]. set (den := Z.abs (e2 - e1)) in *.
  assert (Hden : 1 <= den) by (unfold den; lia).
  assert (Hnum : 0 <= Z.abs (dest - e1) <= den) by (unfold den; destruct Hsg as [->| ->]; lia).
  destruct (nudge_fits r r1 sg increment den (Z.abs (dest - e1)) Hsg (proj1 Hi) Hr1' Hden Hnum Hfit) as (Hd2 & Hfx & Hid & Hrf).
  unfold abs_i128. rewrite (as_i128_small (e2 - e1)), (as_i128_small (dest - e1)) by (unfold den in *; lia). fold den.
  rewrite (as_i128_small den), (as_i128_small (Z.abs (dest - e1))) by lia.
  rewrite (Z.max_l den 1) by lia.
  cbv zeta. rewrite (as_i128_small (increment * den)), as_i128_small by lia.
  rewrite round_ideal_eq by exact Hrf.
  set (x := r1 * den + sg * increment * Z.abs (dest - e1)).
  destruct (Z.eqb_spec dest e1) as [->|Nd].
  - exists r1. rewrite Z.eqb_refl. split; [done|]. split; [by left|].
    replace x with (r1 * den) by (unfold x; rewrite Z.sub_diag; lia).
    apply rounds_exact; [nia|].
    unfold r1. replace (Z.quot r increment * increment * den)
      with (Z.quot r increment * (increment * den)) by lia. apply Z_mod_mult.
  - destruct (nudge_ends r1 sg increment mode den (Z.abs (dest - e1)) (Z.quot r increment))
      as (n & Hn & Hlu & Hr'); [done | lia | done | unfold den; lia | done |]. fold x in Hn, Hr'.
    exists n. rewrite Hn, as_i64_small by (unfold r2 in Hlu; lia).
    rewrite orb_false_r. repeat split; try done; apply Hr'.
Qed.

Lemma nudge_calendar_count_window_witness :
  exists n, nudge_calendar_count 7 1 2 HalfExpand 720 (fun n => Some (n * 100))
            = Some (Some (n, negb (n =? 6))) /\ (n = 6 \/ n = 8) /\
    rounds HalfExpand (6 * 200 + 1 * 2 * Z.abs (720 - 600)) (2 * 200) (n * 200).
Proof.
  apply (proj2 (nudge_calendar_count_window 7 1 2 HalfExpand 720 (fun n => Some (n * 100))) 600 800);
    first [by left | concrete].
Defined.
