(* ===== verification/TemporalDuration.v ===== *)
(** * Time of day and duration balancing of [TemporalIso] *)

From S2P Require Import Prelude TemporalIso.

(** ** Time of day *)

Definition time_ok (t : IsoTime) : Prop :=
  0 <= hour t <= 23 /\ 0 <= minute t <= 59 /\ 0 <= second t <= 59 /\
  0 <= millisecond t <= 999 /\ 0 <= microsecond t <= 999 /\ 0 <= nanosecond t <= 999.

Lemma time_to_nanos_bounds t : time_ok t -> 0 <= time_to_nanos t < NS_PER_DAY.
Proof.
  unfold time_ok, time_to_nanos, NS_PER_DAY, NS_PER_HOUR, NS_PER_MINUTE, NS_PER_SEC. lia.
Qed.

(** The digits of a nanosecond count below one day. *)
Definition split_nanos (r : Z) : IsoTime :=
  mkIsoTime (r / NS_PER_HOUR) (r / NS_PER_MINUTE mod 60) (r / NS_PER_SEC mod 60)
    (r / 1000000 mod 1000) (r / 1000 mod 1000) (r mod 1000).

Lemma balance_time_split total :
  balance_time_from_nanos total = (as_i64 (total / NS_PER_DAY), split_nanos (total mod NS_PER_DAY)).
Proof.
  unfold balance_time_from_nanos, split_nanos. f_equal.
  assert (H : 0 <= total mod NS_PER_DAY < NS_PER_DAY) by (apply Z.mod_pos_bound; done).
  revert H. generalize (total mod NS_PER_DAY). intros r H.
  unfold NS_PER_HOUR, NS_PER_MINUTE, NS_PER_SEC, NS_PER_DAY in *.
  rewrite !Z.rem_mod_nonneg, !Z.quot_div_nonneg by div_lia.
  f_equal; drop_casts_by div_lia; div_lia.
Qed.

Lemma split_nanos_ok r : 0 <= r < NS_PER_DAY ->
  time_ok (split_nanos r) /\ time_to_nanos (split_nanos r) = r.
Proof.
  unfold time_ok, split_nanos, time_to_nanos, NS_PER_HOUR, NS_PER_MINUTE, NS_PER_SEC, NS_PER_DAY.
  cbn [hour minute second millisecond microsecond nanosecond]. intros H. div_lia.
Qed.

Lemma split_time_to_nanos t : time_ok t -> split_nanos (time_to_nanos t) = t.
Proof.
  unfold time_ok, split_nanos, time_to_nanos, NS_PER_HOUR, NS_PER_MINUTE, NS_PER_SEC.
  destruct t as [h mi s ms us ns]; cbn [hour minute second millisecond microsecond nanosecond].
  intros H.
  f_equal; div_lia.
Qed.

(** ** Durations *)

(** The nanoseconds of one unit, for the units a time duration balances to. *)
Definition unit_nanos (u : Unit) : Z :=
  match u with
  | Year | Month | Week | Day | Hour => NS_PER_HOUR
  | Minute => NS_PER_MINUTE | Second => NS_PER_SEC
  | Millisecond => 1000000 | Microsecond => 1000 | Nanosecond => 1
  end.

(** The fields below the largest unit hold less than one of the next unit. *)
Definition balanced_below (largest : Unit) (d : DurationFields) : Prop :=
  let o := unit_ord largest in
  (o < 5 -> Z.abs (minutes d) < 60) /\ (o < 6 -> Z.abs (seconds d) < 60) /\
  (o < 7 -> Z.abs (milliseconds d) < 1000) /\ (o < 8 -> Z.abs (microseconds d) < 1000) /\
  (o < 9 -> Z.abs (nanoseconds d) < 1000).

Lemma balance_set_spec sg r per active : -1 <= sg <= 1 -> 0 <= r < 2 ^ 127 -> 0 < per ->
  let '(v, r') := balance_set sg r per active in
  0 <= r' < 2 ^ 127 /\ (exists n, 0 <= n /\ v = n * sg /\ n * per + r' = r /\ (active = false -> n = 0)) /\
  (active = true -> r' < per) /\ (active = false -> r' = r).
Proof.
  intros Hsg Hr Hp. unfold balance_set. destruct active.
  - assert (Z.quot r per = r / per) as -> by (apply Z.quot_div_nonneg; lia).
    assert (Z.rem r per = r mod per) as -> by (apply Z.rem_mod_nonneg; lia).
    pose proof (Z.mod_pos_bound r per Hp). pose proof (Z.div_mod r per ltac:(lia)).
    pose proof (Z.div_pos r per ltac:(lia) Hp). assert (r / per <= r) by (apply Z.div_le_upper_bound; nia).
    pose proof (Z.mod_le r per ltac:(lia) Hp).
    rewrite as_i128_small by (assert (sg = -1 \/ sg = 0 \/ sg = 1) as [->|[->| ->]] by lia; lia).
    repeat split; try done; try lia. exists (r / per). repeat split; try done; lia.
  - repeat split; try done; try lia. exists 0. lia.
Qed.

Lemma balance_time_duration_total total largest : - 2 ^ 127 < total < 2 ^ 127 ->
  let d := balance_time_duration total largest in
  time_nanos d = total /\ years d = 0 /\ months d = 0 /\ weeks d = 0 /\ days d = 0 /\
  Forall (fun v => 0 <= v * Z.sgn total) (duration_fields d) /\ balanced_below largest d.
Proof.
  intros Htot. unfold balance_time_duration, abs_i128. rewrite (as_i128_small (Z.abs total)) by lia.
  assert (H0 : 0 <= Z.abs total < 2 ^ 127) by lia. pose proof (Z.abs_sgn total) as Hs.
  assert (Hsg1 : -1 <= Z.sgn total <= 1) by (destruct total; cbn; lia).
  set (sg := Z.sgn total) in *. set (r := Z.abs total) in *.
  assert (Hsg : sg * sg = 1 \/ r = 0) by (unfold sg, r; destruct total; cbn; lia).
  assert (Habs : forall n, 0 <= n -> Z.abs (n * sg) <= n) by (intros n Hn; rewrite Z.abs_mul; assert (Z.abs sg <= 1) by (unfold sg; destruct total; cbn; lia); nia).
  assert (Hpos : forall n, 0 <= n -> 0 <= n * sg * sg)
    by (intros n Hn; rewrite <- Z.mul_assoc; apply Z.mul_nonneg_nonneg; [done | apply Z.square_nonneg]).
  assert (Hsr : sg * r = total) by lia. clearbody sg r.
  pose proof (balance_set_spec sg r NS_PER_HOUR (unit_ord largest <=? unit_ord Hour) Hsg1 H0 eq_refl) as S1.
  destruct (balance_set sg r NS_PER_HOUR _) as [h r1]. destruct S1 as (P1 & (n1 & N1 & -> & E1 & Z1) & B1 & C1).
  pose proof (balance_set_spec sg r1 NS_PER_MINUTE (unit_ord largest <=? unit_ord Minute) Hsg1 P1 eq_refl) as S2.
  destruct (balance_set sg r1 NS_PER_MINUTE _) as [mi r2]. destruct S2 as (P2 & (n2 & N2 & -> & E2 & Z2) & B2 & C2).
  pose proof (balance_set_spec sg r2 NS_PER_SEC (unit_ord largest <=? unit_ord Second) Hsg1 P2 eq_refl) as S3.
  destruct (balance_set sg r2 NS_PER_SEC _) as [s r3]. destruct S3 as (P3 & (n3 & N3 & -> & E3 & Z3) & B3 & C3).
  pose proof (balance_set_spec sg r3 1000000 (unit_ord largest <=? unit_ord Millisecond) Hsg1 P3 eq_refl) as S4.
  destruct (balance_set sg r3 1000000 _) as [ms r4]. destruct S4 as (P4 & (n4 & N4 & -> & E4 & Z4) & B4 & C4).
  pose proof (balance_set_spec sg r4 1000 (unit_ord largest <=? unit_ord Microsecond) Hsg1 P4 eq_refl) as S5.
  destruct (balance_set sg r4 1000 _) as [us r5]. destruct S5 as (P5 & (n5 & N5 & -> & E5 & Z5) & B5 & C5).
  cbv zeta. rewrite (as_i128_small (r5 * sg)) by (assert (sg = -1 \/ sg = 0 \/ sg = 1) as [->|[->| ->]] by lia; lia).
  cbn [years months weeks days].
  refine (conj _ (conj eq_refl (conj eq_refl (conj eq_refl (conj eq_refl (conj _ _)))))).
  - unfold time_nanos. cbn [hours minutes seconds milliseconds microseconds nanoseconds].
    rewrite <- (as_i128_small total) by lia. f_equal. rewrite <- Hsr, <- E1, <- E2, <- E3, <- E4, <- E5. ring.
  - cbn [duration_fields]. unfold duration_fields.
    cbn [years months weeks days hours minutes seconds milliseconds microseconds nanoseconds].
    repeat (apply list.Forall_cons_2; [first [by apply Hpos; lia | lia]|]). by apply list.Forall_nil_2.
  - unfold balanced_below. cbn [minutes seconds milliseconds microseconds nanoseconds].
    unfold NS_PER_HOUR, NS_PER_MINUTE, NS_PER_SEC in *. cbn [unit_ord] in *.
    repeat split; intros Ho;
      (eapply Z.le_lt_trans; [apply Habs; first [assumption | apply P5] | clear Habs Hs Hsg H0 Hsr; lia]).
Qed.

(** ** Validity *)

Definition same_sign (l : list Z) : Prop := Forall (fun v => 0 <= v) l \/ Forall (fun v => v <= 0) l.

Lemma signs_agree_spec l : forall sg, sg = 0 \/ sg = 1 \/ sg = -1 ->
  (signs_agree sg l = true <->
   (0 <= sg /\ Forall (fun v => 0 <= v) l) \/ (sg <= 0 /\ Forall (fun v => v <= 0) l)).
Proof.
  induction l as [|v l IH]; intros sg Hsg; cbn [signs_agree].
  - split; [|done]. intros _. destruct (decide (0 <= sg)); [left | right]; split; lia || constructor.
  - rewrite !list.Forall_cons. destruct (Z.eqb_spec v 0) as [->|Hv]; cbn [negb].
    + rewrite IH by done. intuition lia.
    + assert (Hs : Z.sgn v = 1 /\ 0 < v \/ Z.sgn v = -1 /\ v < 0) by lia.
      destruct Hs as [[-> Hv']|[-> Hv']].
      * destruct (Z.eqb_spec sg 0), (Z.eqb_spec 1 sg); cbn [negb andb]; rewrite ?IH by lia;
          intuition (try lia; try done).
      * destruct (Z.eqb_spec sg 0), (Z.eqb_spec (-1) sg); cbn [negb andb]; rewrite ?IH by lia;
          intuition (try lia; try done).
Qed.

(** The checked sum of products of one sign fails only beyond the 128-bit range. *)
Definition weighted (l : list (Z * Z)) : Z := foldr (fun '(v, m) s => v * m + s) 0 l.

Lemma weighted_nonneg l : Forall (fun '(v, m) => 0 <= v /\ 0 < m) l -> 0 <= weighted l.
Proof.
  induction 1 as [|[v m] l [Hv Hm] _ IH]; cbn; [lia|]. fold (weighted l).
  pose proof (Z.mul_nonneg_nonneg v m). lia.
Qed.

Lemma weighted_nonpos l : Forall (fun '(v, m) => v <= 0 /\ 0 < m) l -> weighted l <= 0.
Proof.
  induction 1 as [|[v m] l [Hv Hm] _ IH]; cbn; [lia|]. fold (weighted l).
  pose proof (Z.mul_nonpos_nonneg v m). lia.
Qed.

Lemma checked_total_nonneg l : forall acc, 0 <= acc -> Forall (fun '(v, m) => 0 <= v /\ 0 < m) l ->
  match checked_total acc l with
  | Some t => t = acc + weighted l
  | None => 2 ^ 127 <= acc + weighted l
  end.
Proof.
  induction l as [|[v m] l IH]; intros acc Ha Hl; cbn; [lia|].
  apply list.Forall_cons in Hl as [[Hv Hm] Hl].
  pose proof (weighted_nonneg l Hl) as Hw. fold (weighted l).
  assert (Hvm : 0 <= v * m) by nia.
  destruct (checked_cases 128 (v * m)) as [[-> R1]|[-> R1]]; cbn [mbind option_bind]; [|lia].
  destruct (checked_cases 128 (acc + v * m)) as [[-> R2]|[-> R2]]; cbn [mbind option_bind]; [|lia].
  specialize (IH (acc + v * m) ltac:(lia) Hl). destruct (checked_total (acc + v * m) l); lia.
Qed.

Lemma checked_total_nonpos l : forall acc, acc <= 0 -> Forall (fun '(v, m) => v <= 0 /\ 0 < m) l ->
  match checked_total acc l with
  | Some t => t = acc + weighted l
  | None => acc + weighted l < - 2 ^ 127
  end.
Proof.
  induction l as [|[v m] l IH]; intros acc Ha Hl; cbn; [lia|].
  apply list.Forall_cons in Hl as [[Hv Hm] Hl].
  pose proof (weighted_nonpos l Hl) as Hw. fold (weighted l).
  assert (Hvm : v * m <= 0) by nia.
  destruct (checked_cases 128 (v * m)) as [[-> R1]|[-> R1]]; cbn [mbind option_bind]; [|lia].
  destruct (checked_cases 128 (acc + v * m)) as [[-> R2]|[-> R2]]; cbn [mbind option_bind]; [|lia].
  specialize (IH (acc + v * m) ltac:(lia) Hl). destruct (checked_total (acc + v * m) l); lia.
Qed.

(** The day and time part of a duration, in nanoseconds. *)
Definition total_nanos (d : DurationFields) : Z :=
  days d * NS_PER_DAY + hours d * NS_PER_HOUR + minutes d * NS_PER_MINUTE + seconds d * NS_PER_SEC
  + milliseconds d * 1000000 + microseconds d * 1000 + nanoseconds d.

Lemma quot_sec_bound t : (Z.abs (Z.quot t NS_PER_SEC) <? 2 ^ 53) = (Z.abs t <? 2 ^ 53 * NS_PER_SEC).
Proof. apply eq_iff_eq_true. rewrite !Z.ltb_lt. unfold NS_PER_SEC. div_lia. Qed.

(** ** Properties *)

(** splitting a nanosecond count into a day carry and a wall-clock time, and
    counting a time's nanoseconds, are inverse: every valid time is recovered with
    its day carry, and every count within [i64] days gives a valid time that counts
    back to it, whatever its sign. *)
Theorem time_of_day_roundtrip :
  (forall t d, time_ok t -> -9223372036854775808 <= d < 9223372036854775808 ->
     balance_time_from_nanos (d * NS_PER_DAY + time_to_nanos t) = (d, t)) /\
  (forall total d t, -9223372036854775808 <= total / NS_PER_DAY < 9223372036854775808 ->
     balance_time_from_nanos total = (d, t) ->
     time_ok t /\ d * NS_PER_DAY + time_to_nanos t = total).
Proof.
  split.
  - intros t d Ht Hd. rewrite balance_time_split.
    pose proof (time_to_nanos_bounds t Ht) as B.
    rewrite Z.div_add_l, Z.div_small, Z.add_0_r by (unfold NS_PER_DAY in *; lia).
    rewrite Z.add_comm, Z_mod_plus_full, Z.mod_small by done.
    by rewrite as_i64_small, split_time_to_nanos by done.
  - intros total d t Hd. rewrite balance_time_split, as_i64_small by done. intros [= <- <-].
    assert (B : 0 <= total mod NS_PER_DAY < NS_PER_DAY) by (apply Z.mod_pos_bound; done).
    destruct (split_nanos_ok _ B) as [H1 ->]. split; [done|].
    pose proof (Z.div_mod total NS_PER_DAY). unfold NS_PER_DAY in *. lia.
Qed.

Lemma time_of_day_roundtrip_witness :
  balance_time_from_nanos (-1 * NS_PER_DAY + time_to_nanos (mkIsoTime 23 59 59 999 999 999))
  = (-1, mkIsoTime 23 59 59 999 999 999).
Proof. apply (proj1 time_of_day_roundtrip); concrete. Defined.

(** C32: for every total except [i128::MIN], whose absolute value overflows,
    [balance_time_duration] keeps the total, uses only time units, gives every
    field the sign of the total, and leaves less than one of the next unit in each
    field below the largest one asked for. *)
Theorem balance_time_duration_correct total largest : - 2 ^ 127 < total < 2 ^ 127 ->
  let d := balance_time_duration total largest in
  time_nanos d = total /\ years d = 0 /\ months d = 0 /\ weeks d = 0 /\ days d = 0 /\
  Forall (fun v => 0 <= v * Z.sgn total) (duration_fields d) /\ balanced_below largest d.
Proof. apply balance_time_duration_total. Qed.

Lemma balance_time_duration_correct_witness :
  time_nanos (balance_time_duration (-90061001002003) Hour) = -90061001002003 /\
  balance_time_duration (-90061001002003) Hour = mkDuration 0 0 0 0 (-25) (-1) (-1) (-1) (-2) (-3).
Proof. split; [apply (balance_time_duration_correct (-90061001002003) Hour); lia|reflexivity]. Defined.

(** What the code's test [v.abs() < 2^32] accepts of an [i128]. *)
Definition below_2_32 (v : Z) : Prop := Z.abs v < 2 ^ 32 \/ v = - 2 ^ 127.

Lemma abs_test v : in_s 128 v -> (2 ^ 32 <=? abs_i128 v) = false <-> below_2_32 v.
Proof.
  unfold in_s, below_2_32, abs_i128. intros Hv. rewrite Z.leb_gt. destruct (decide (v = - 2 ^ 127)) as [->|].
  - split; [by right|]. intros _. vm_compute. reflexivity.
  - rewrite as_i128_small by lia. lia.
Qed.

Lemma checked_total_range l : forall acc t, in_s 128 acc -> checked_total acc l = Some t -> in_s 128 t.
Proof.
  induction l as [|[v m] l IH]; intros acc t Ha; cbn; [by intros [= <-]|].
  destruct (checked_cases 128 (v * m)) as [[-> R1]|[-> R1]]; cbn [mbind option_bind]; [|done].
  destruct (checked_cases 128 (acc + v * m)) as [[-> R2]|[-> R2]]; cbn [mbind option_bind]; [|done]. apply IH. unfold in_s. lia.
Qed.

(** C33: on fields that are [i128]s, [is_valid] accepts a duration exactly when its
    non-zero fields share one sign, its years, months and weeks are below 2^32 in
    magnitude or are [i128::MIN], and its days and time total less than 2^53
    seconds; the [checked_mul]/[checked_add] overflow exits only refuse durations
    beyond that bound.  The specification refuses [i128::MIN]: the code takes its
    absolute value, which wraps (and panics in a debug build). *)
Theorem is_valid_spec d : Forall (in_s 128) (duration_fields d) ->
  (is_valid d = true <->
   same_sign (duration_fields d) /\
   below_2_32 (years d) /\ below_2_32 (months d) /\ below_2_32 (weeks d) /\
   Z.abs (total_nanos d) < 2 ^ 53 * NS_PER_SEC) /\
  is_valid (mkDuration (- 2 ^ 127) 0 0 0 0 0 0 0 0 0) = true.
Proof.
  intros Hin. split; [|reflexivity]. unfold is_valid.
  pose proof (signs_agree_spec (duration_fields d) 0 (or_introl eq_refl)) as S.
  destruct (signs_agree 0 (duration_fields d)); cbn [negb].
  2: { split; [done|]. intros [H _]. assert (false = true); [|done]. apply S.
       destruct H; [left | right]; done. }
  destruct S as [S _]. specialize (S eq_refl).
  assert (Hs : same_sign (duration_fields d)) by (destruct S as [[_ S]|[_ S]]; [left | right]; done).
  unfold duration_fields in Hin. rewrite !list.Forall_cons in Hin. destruct Hin as (Hy & Hm & Hw & _).
  rewrite <- (abs_test _ Hy), <- (abs_test _ Hm), <- (abs_test _ Hw).
  destruct (2 ^ 32 <=? abs_i128 (years d)), (2 ^ 32 <=? abs_i128 (months d)), (2 ^ 32 <=? abs_i128 (weeks d));
    cbn [orb]; try (split; [done|intuition done]).
  set (l := [(days d, NS_PER_DAY); _; _; _; _; _; _]).
  assert (W : weighted l = total_nanos d) by (unfold l, total_nanos; cbn [weighted foldr]; ring).
  assert (R : match checked_total 0 l with
              | Some t => t = total_nanos d | None => 2 ^ 127 <= Z.abs (total_nanos d) end).
  { destruct Hs as [Hs|Hs]; unfold duration_fields in Hs; rewrite !list.Forall_cons in Hs.
    - assert (F : Forall (fun '(v, m) => 0 <= v /\ 0 < m) l)
        by (repeat (apply list.Forall_cons_2; [split; [apply Hs | done]|]); by apply list.Forall_nil_2).
      pose proof (checked_total_nonneg l 0 ltac:(lia) F) as C. destruct (checked_total 0 l); lia.
    - assert (F : Forall (fun '(v, m) => v <= 0 /\ 0 < m) l)
        by (repeat (apply list.Forall_cons_2; [split; [apply Hs | done]|]); by apply list.Forall_nil_2).
      pose proof (checked_total_nonpos l 0 ltac:(lia) F) as C. destruct (checked_total 0 l); lia. }
  pose proof (fun t => checked_total_range l 0 t ltac:(unfold in_s; lia)) as Hrange.
  destruct (checked_total 0 l) as [t|].
  - specialize (Hrange t eq_refl). unfold in_s in Hrange.
    unfold abs_i128. rewrite as_i128_small by (unfold NS_PER_SEC; clear - Hrange; div_lia).
    rewrite quot_sec_bound, Z.ltb_lt, R. intuition.
  - split; [done|]. unfold NS_PER_SEC. lia.
Qed.

Lemma is_valid_spec_witness :
  is_valid (mkDuration 1 2 3 4 5 6 7 8 9 10) = true /\ is_valid (mkDuration 0 0 0 0 0 0 (2 ^ 53) 0 0 0) = false.
Proof.
  assert (H : forall d, Forall (in_s 128) (duration_fields d) -> _) by exact (fun d Hd => proj1 (is_valid_spec d Hd)).
  split.
  - apply H; [repeat (apply list.Forall_cons; split; [unfold in_s; cbn; lia|]); done|].
    split_and!; [left; repeat (apply list.Forall_cons; split; [cbn; lia|]); done|left; cbn; lia..|vm_compute; reflexivity].
  - apply not_true_is_false. intros E. apply H in E; [|repeat (apply list.Forall_cons; split; [unfold in_s; cbn; lia|]); done].
    destruct E as (_ & _ & _ & _ & E). vm_compute in E. discriminate.
Defined.
