(* ===== verification/Wtf8.v ===== *)
(** * WTF-8 strings: the codec of [src/src/wtf8.rs]

    A JavaScript string is a sequence of UTF-16 code units; the engine stores it
    as WTF-8 bytes.  Bytes and code units are [Z] in their ranges, a slice or a
    [Vec<u8>] is a [list Z], a [usize] index is a [nat], and [bytes[i]] is the
    total lookup [bytes !!! i] (every loop below tests [i < bytes.len()] before
    it indexes, as the source does).

    The loops that advance a byte index by the length of the decoded character
    carry a fuel; [length bytes] is enough, since a decoded length is at least
    one (the theorems below compute the loops' results with that fuel). *)

From S2P Require Import Prelude.

(** ** Definitions *)

Definition TWO_BYTE_MIN : Z := 0x80.
Definition THREE_BYTE_MIN : Z := 0x800.
Definition FOUR_BYTE_MIN : Z := 0x10000.
Definition CODE_POINT_MAX : Z := 0x10FFFF.
Definition SURROGATE_MIN : Z := 0xD800.
Definition SURROGATE_MAX : Z := 0xDFFF.
Definition HIGH_SURROGATE_MAX : Z := 0xDBFF.
Definition LOW_SURROGATE_MIN : Z := 0xDC00.

Definition is_surrogate (cp : Z) : bool :=
  (SURROGATE_MIN <=? cp) && (cp <=? SURROGATE_MAX).

Definition is_high (u : Z) : bool := in_range SURROGATE_MIN HIGH_SURROGATE_MAX u.
Definition is_low (u : Z) : bool := in_range LOW_SURROGATE_MIN SURROGATE_MAX u.

Definition decode_surrogate3 (b : list Z) : option Z :=
  if negb (length b =? 3)%nat || negb (b !!! 0%nat =? 0xED)
     || negb (Z.land (b !!! 1%nat) 0xC0 =? 0x80)
     || negb (Z.land (b !!! 2%nat) 0xC0 =? 0x80)
  then None
  else
    let cp := Z.lor (Z.lor (Z.shiftl (Z.land (b !!! 0%nat) 0x0F) 12)
                           (Z.shiftl (Z.land (b !!! 1%nat) 0x3F) 6))
                    (Z.land (b !!! 2%nat) 0x3F) in
    if is_surrogate cp then Some cp else None.

Definition trailing_high_surrogate (bytes : list Z) : option Z :=
  let n := length bytes in
  if (n <? 3)%nat then None
  else
    cp ← decode_surrogate3 (drop (n - 3) bytes);
    if is_high cp then Some (as_u16 cp) else None.

Definition leading_low_surrogate (bytes : list Z) : option Z :=
  if (length bytes <? 3)%nat then None
  else
    cp ← decode_surrogate3 (take 3 bytes);
    if is_low cp then Some (as_u16 cp) else None.

Definition encode_code_point (cp : Z) (out : list Z) : list Z :=
  let cp := if CODE_POINT_MAX <? cp then 0xFFFD else cp in
  if cp <? TWO_BYTE_MIN then out ++ [as_u8 cp]
  else if cp <? THREE_BYTE_MIN then
    (out ++ [as_u8 (Z.lor 0xC0 (Z.shiftr cp 6))])
         ++ [as_u8 (Z.lor 0x80 (Z.land cp 0x3F))]
  else if cp <? FOUR_BYTE_MIN then
    ((out ++ [as_u8 (Z.lor 0xE0 (Z.shiftr cp 12))])
          ++ [as_u8 (Z.lor 0x80 (Z.land (Z.shiftr cp 6) 0x3F))])
          ++ [as_u8 (Z.lor 0x80 (Z.land cp 0x3F))]
  else
    (((out ++ [as_u8 (Z.lor 0xF0 (Z.shiftr cp 18))])
           ++ [as_u8 (Z.lor 0x80 (Z.land (Z.shiftr cp 12) 0x3F))])
           ++ [as_u8 (Z.lor 0x80 (Z.land (Z.shiftr cp 6) 0x3F))])
           ++ [as_u8 (Z.lor 0x80 (Z.land cp 0x3F))].

Definition encode_utf16_unit (u : Z) (out : list Z) : list Z := encode_code_point u out.

(** The [while i < units.len()] loop of [push_utf16], on the units from [i] on. *)
Fixpoint push_units (units : list Z) (out : list Z) : list Z :=
  match units with
  | [] => out
  | u :: rest =>
      match rest with
      | lo :: rest' =>
          if is_high u && is_low lo then
            push_units rest'
              (encode_code_point
                 (0x10000 + Z.shiftl (u - SURROGATE_MIN) 10 + (lo - LOW_SURROGATE_MIN)) out)
          else push_units rest (encode_code_point u out)
      | [] => encode_code_point u out
      end
  end.

(** [iter().position(p).unwrap_or(len)]. *)
Fixpoint position_or_len (p : Z -> bool) (l : list Z) : nat :=
  match l with
  | [] => 0%nat
  | x :: l' => if p x then 0%nat else S (position_or_len p l')
  end.

Definition push_utf16 (out units : list Z) : list Z :=
  let ascii := position_or_len (fun u => 0x80 <=? u) units in
  let out := out ++ map as_u8 (take ascii units) in
  push_units (drop ascii units) out.

Definition from_utf16 (units : list Z) : list Z := push_utf16 [] units.

Definition append (out add : list Z) : list Z :=
  match trailing_high_surrogate out, leading_low_surrogate add with
  | Some hi, Some lo =>
      let out := take (length out - 3) out in
      let cp := 0x10000 + Z.shiftl (hi - 0xD800) 10 + (lo - 0xDC00) in
      encode_code_point cp out ++ drop 3 add
  | _, _ => out ++ add
  end.

Definition append_utf16 (out units : list Z) : list Z :=
  if match head units with Some u => is_low u | None => false end
     && bool_decide (is_Some (trailing_high_surrogate out))
  then append out (from_utf16 units)
  else push_utf16 out units.

Definition decode_code_point (bytes : list Z) (i : nat) : Z * nat :=
  let b0 := bytes !!! i in
  let cont (k : nat) := Z.land (bytes !!! (i + k)%nat) 0x3F in
  let n := length bytes in
  if b0 <? 0x80 then (b0, 1%nat)
  else if b0 <? 0xE0 then
    if (i + 1 <? n)%nat
    then (Z.lor (Z.shiftl (Z.land b0 0x1F) 6) (cont 1%nat), 2%nat) else (0xFFFD, 1%nat)
  else if b0 <? 0xF0 then
    if (i + 2 <? n)%nat
    then (Z.lor (Z.lor (Z.shiftl (Z.land b0 0x0F) 12) (Z.shiftl (cont 1%nat) 6)) (cont 2%nat),
          3%nat)
    else (0xFFFD, 1%nat)
  else if (i + 3 <? n)%nat
    then (Z.lor (Z.lor (Z.lor (Z.shiftl (Z.land b0 0x07) 18) (Z.shiftl (cont 1%nat) 12))
                       (Z.shiftl (cont 2%nat) 6)) (cont 3%nat), 4%nat)
    else (0xFFFD, 1%nat).

(** *** Iterators: the state of [CodePoints] is [i], that of [Utf16Units] the pair
    of [i] and [pending_low]; [next] returns the item and the new state. *)
Definition code_points_next (bytes : list Z) (i : nat) : option (Z * nat) :=
  if (length bytes <=? i)%nat then None
  else let '(cp, n) := decode_code_point bytes i in Some (cp, (i + n)%nat).

Definition utf16_units_next (bytes : list Z) (st : nat * option Z)
    : option (Z * (nat * option Z)) :=
  let '(i, pending_low) := st in
  match pending_low with
  | Some lo => Some (lo, (i, None))
  | None =>
      '(cp, i) ← code_points_next bytes i;
      if FOUR_BYTE_MIN <=? cp then
        let v := cp - FOUR_BYTE_MIN in
        let high := SURROGATE_MIN + Z.shiftr v 10 in
        let low := LOW_SURROGATE_MIN + Z.land v 0x3FF in
        Some (as_u16 high, (i, Some (as_u16 low)))
      else Some (as_u16 cp, (i, None))
  end.

(** [Iterator::collect]: [next] until [None], at most [fuel] items. *)
Fixpoint collect {S A} (next : S -> option (A * S)) (fuel : nat) (st : S) : list A :=
  match fuel with
  | O => []
  | Datatypes.S fuel =>
      match next st with
      | None => []
      | Some (x, st) => x :: collect next fuel st
      end
  end.

Definition code_points (bytes : list Z) : list Z :=
  collect (code_points_next bytes) (length bytes) 0%nat.

Definition utf16_units (bytes : list Z) : list Z :=
  collect (utf16_units_next bytes) (2 * length bytes) (0%nat, None).

(** [Iterator::cmp]: lexicographic. *)
Fixpoint cmp_list (a b : list Z) : comparison :=
  match a, b with
  | [], [] => Eq
  | [], _ :: _ => Lt
  | _ :: _, [] => Gt
  | x :: a, y :: b => match x ?= y with Eq => cmp_list a b | c => c end
  end.

(** [a.iter().zip(b).position(|(x, y)| x != y)]. *)
Fixpoint mismatch (a b : list Z) : option nat :=
  match a, b with
  | x :: a, y :: b => if x =? y then S <$> mismatch a b else Some 0%nat
  | _, _ => None
  end.

Definition cmp_utf16 (a b : list Z) : comparison :=
  match mismatch a b with
  | Some i =>
      if (0xED <=? a !!! i) || (0xED <=? b !!! i)
      then cmp_list (utf16_units a) (utf16_units b)
      else a !!! i ?= b !!! i
  | None => (length a ?= length b)%nat
  end.

(** *** Length, eight bytes at a time *)
Definition HI : Z := 0x8080808080808080.

Fixpoint from_le_bytes (w : list Z) : Z :=
  match w with
  | [] => 0
  | b :: w => Z.lor b (Z.shiftl (from_le_bytes w) 8)
  end.

Definition count_ones (x : Z) : Z :=
  foldr Z.add 0 (map (fun k => Z.b2z (Z.testbit x (Z.of_nat k))) (seq 0 64)).

Definition not_u64 (x : Z) : Z := Z.lxor x 0xFFFFFFFFFFFFFFFF.
Definition shl_u64 (x k : Z) : Z := as_u64 (Z.shiftl x k).

(** What one word adds to [n]. *)
Definition word_units (w : list Z) : Z :=
  let x := from_le_bytes w in
  if Z.land x HI =? 0 then 8
  else
    let cont := Z.land (Z.land x (not_u64 (shl_u64 x 1))) HI in
    let four := Z.land (Z.land (Z.land (Z.land x (shl_u64 x 1)) (shl_u64 x 2))
                               (shl_u64 x 3)) HI in
    8 - count_ones cont + count_ones four.

Definition byte_units (b : Z) : Z :=
  Z.b2z (negb (Z.land b 0xC0 =? 0x80)) + Z.b2z (0xF0 <=? b).

(** [as_chunks::<8>()]: the words, then the rest. *)
Fixpoint utf16_len (bytes : list Z) : Z :=
  match bytes with
  | b0 :: b1 :: b2 :: b3 :: b4 :: b5 :: b6 :: b7 :: rest =>
      word_units [b0; b1; b2; b3; b4; b5; b6; b7] + utf16_len rest
  | rest => foldr Z.add 0 (map byte_units rest)
  end.

(** *** Indexing and slicing by unit *)
Definition utf16_index (bytes : list Z) (i : nat) : option Z := utf16_units bytes !! i.

Fixpoint utf16_index_loop (fuel : nat) (bytes : list Z) (byte unit i : nat)
    : option (Z * nat * nat) :=
  match fuel with
  | O => None
  | S fuel =>
      if negb (byte <? length bytes)%nat then None
      else
        let '(cp, n) := decode_code_point bytes byte in
        if FOUR_BYTE_MIN <=? cp then
          if (i <? unit + 2)%nat then
            let v := cp - FOUR_BYTE_MIN in
            let u := if (i =? unit)%nat then Z.lor 0xD800 (Z.shiftr v 10)
                     else Z.lor 0xDC00 (Z.land v 0x3FF) in
            Some (as_u16 u, byte, unit)
          else utf16_index_loop fuel bytes (byte + n) (unit + 2) i
        else if (i =? unit)%nat then Some (as_u16 cp, byte, unit)
        else utf16_index_loop fuel bytes (byte + n) (unit + 1) i
  end.

Definition utf16_index_from (bytes : list Z) (byte unit i : nat) : option (Z * nat * nat) :=
  utf16_index_loop (length bytes) bytes byte unit i.

Fixpoint byte_offset_loop (fuel : nat) (bytes : list Z) (unit : nat) (round_up : bool)
    (units_seen i : nat) : nat :=
  match fuel with
  | O => length bytes
  | S fuel =>
      if negb (i <? length bytes)%nat then length bytes
      else if (unit <=? units_seen)%nat then i
      else
        let '(cp, n) := decode_code_point bytes i in
        let w := if FOUR_BYTE_MIN <=? cp then 2%nat else 1%nat in
        if (unit <? units_seen + w)%nat then if round_up then (i + n)%nat else i
        else byte_offset_loop fuel bytes unit round_up (units_seen + w) (i + n)
  end.

Definition byte_offset_of_unit (bytes : list Z) (unit : nat) (round_up : bool) : nat :=
  if (unit =? 0)%nat then 0%nat
  else byte_offset_loop (length bytes) bytes unit round_up 0 0.

Fixpoint boundary_loop (fuel : nat) (bytes : list Z) (unit units_seen i : nat) : bool :=
  match fuel with
  | O => true
  | S fuel =>
      if negb (i <? length bytes)%nat then true
      else if (units_seen =? unit)%nat then true
      else
        let '(cp, n) := decode_code_point bytes i in
        let w := if FOUR_BYTE_MIN <=? cp then 2%nat else 1%nat in
        if (units_seen <? unit)%nat && (unit <? units_seen + w)%nat then false
        else boundary_loop fuel bytes unit (units_seen + w) (i + n)
  end.

Definition unit_at_char_boundary (bytes : list Z) (unit : nat) : bool :=
  if (unit =? 0)%nat then true else boundary_loop (length bytes) bytes unit 0 0.

(** The slow path of [slice_utf16]. *)
Fixpoint slice_loop (fuel : nat) (bytes : list Z) (s e units_seen i : nat) (out : list Z)
    : list Z :=
  match fuel with
  | O => out
  | S fuel =>
      if negb ((i <? length bytes)%nat && (units_seen <? e)%nat) then out
      else
        let '(cp, n) := decode_code_point bytes i in
        if FOUR_BYTE_MIN <=? cp then
          let v := cp - 0x10000 in
          let hi := as_u16 (0xD800 + Z.shiftr v 10) in
          let lo := as_u16 (LOW_SURROGATE_MIN + Z.land v 0x3FF) in
          let out := if (s <=? units_seen)%nat && (units_seen <? e)%nat
                     then encode_utf16_unit hi out else out in
          let out := if (s <=? units_seen + 1)%nat && (units_seen + 1 <? e)%nat
                     then encode_utf16_unit lo out else out in
          slice_loop fuel bytes s e (units_seen + 2) (i + n) out
        else
          let out := if (s <=? units_seen)%nat && (units_seen <? e)%nat
                     then out ++ take n (drop i bytes) else out in
          slice_loop fuel bytes s e (units_seen + 1) (i + n) out
  end.

Definition slice_utf16 (bytes : list Z) (start_unit end_unit : nat) : list Z :=
  let len := Z.to_nat (utf16_len bytes) in
  let s := Nat.min start_unit len in
  let e := Nat.min end_unit len in
  if (e <=? s)%nat then []
  else
    let start_byte := byte_offset_of_unit bytes s false in
    let end_byte := byte_offset_of_unit bytes e true in
    if unit_at_char_boundary bytes s && unit_at_char_boundary bytes e
    then take (end_byte - start_byte) (drop start_byte bytes)
    else slice_loop (length bytes) bytes s e 0 0 [].

Definition slice_utf16_ascii (bytes : list Z) (start_unit end_unit : nat) (ascii : bool)
    : list Z :=
  if negb ascii then slice_utf16 bytes start_unit end_unit
  else
    let s := Nat.min start_unit (length bytes) in
    let e := Nat.min end_unit (length bytes) in
    if (e <=? s)%nat then [] else take (e - s) (drop s bytes).

Record UnitRange := MkUnitRange {
  ur_start : nat;
  ur_end : nat;
  ur_lead : option Z;
  ur_trail : option Z
}.

(** First loop of [utf16_range]: to [start_unit]. *)
Fixpoint range_start (fuel : nat) (bytes : list Z) (start_unit i u : nat) (lead : option Z)
    : nat * nat * option Z :=
  match fuel with
  | O => (i, u, lead)
  | S fuel =>
      if negb ((u <? start_unit)%nat && (i <? length bytes)%nat) then (i, u, lead)
      else
        let '(cp, n) := decode_code_point bytes i in
        if FOUR_BYTE_MIN <=? cp then
          range_start fuel bytes start_unit (i + n) (u + 2)
            (if (u + 1 =? start_unit)%nat
             then Some (as_u16 (LOW_SURROGATE_MIN + Z.land (cp - 0x10000) 0x3FF)) else lead)
        else range_start fuel bytes start_unit (i + n) (u + 1) lead
  end.

(** Second loop of [utf16_range]: to [end_unit]. *)
Fixpoint range_end (fuel : nat) (bytes : list Z) (end_unit i u : nat) : nat * option Z :=
  match fuel with
  | O => (i, None)
  | S fuel =>
      if negb ((u <? end_unit)%nat && (i <? length bytes)%nat) then (i, None)
      else
        let '(cp, n) := decode_code_point bytes i in
        if FOUR_BYTE_MIN <=? cp then
          if (u + 1 =? end_unit)%nat
          then (i, Some (as_u16 (0xD800 + Z.shiftr (cp - 0x10000) 10)))
          else range_end fuel bytes end_unit (i + n) (u + 2)
        else range_end fuel bytes end_unit (i + n) (u + 1)
  end.

Definition utf16_range (bytes : list Z) (hint : nat * nat)
    (start_unit end_unit total_units : nat) : UnitRange :=
  let '(i, u) := if (hint.2 <=? start_unit)%nat && (hint.1 <=? length bytes)%nat
                 then hint else (0%nat, 0%nat) in
  let '(i, u, lead) := range_start (length bytes) bytes start_unit i u None in
  let start := i in
  if (total_units <=? end_unit)%nat then MkUnitRange start (length bytes) lead None
  else
    let '(i, trail) := range_end (length bytes) bytes end_unit i u in
    MkUnitRange start i lead trail.

(** *** Well-formedness and UTF-8 *)
Fixpoint well_formed_loop (units : list Z) (expect_low : bool) : bool :=
  match units with
  | [] => negb expect_low
  | u :: units =>
      if expect_low then
        if negb (is_low u) then false else well_formed_loop units false
      else if is_low u then false
      else if is_high u then well_formed_loop units true
      else well_formed_loop units expect_low
  end.

Definition is_well_formed_utf16 (bytes : list Z) : bool :=
  well_formed_loop (utf16_units bytes) false.

(** ** Bit operations as arithmetic *)

Lemma lor_add a c k : 0 <= k -> 0 <= c < 2 ^ k -> Z.lor (a * 2 ^ k) c = a * 2 ^ k + c.
Proof.
  intros Hk Hc. symmetry. apply Z.add_nocarry_lor, Z.bits_inj'. intros n Hn.
  rewrite Z.land_spec, Z.bits_0, Z.mul_pow2_bits by lia.
  rewrite <- (Z.mod_small c (2 ^ k)) by done.
  destruct (Z.lt_ge_cases n k).
  - by rewrite Z.testbit_neg_r by lia.
  - by rewrite Z.mod_pow2_bits_high, andb_false_r by lia.
Qed.

Lemma land_3F z : Z.land z 0x3F = z mod 64.
Proof. exact (Z.land_ones z 6 ltac:(lia)). Qed.
Lemma land_3FF z : Z.land z 0x3FF = z mod 1024.
Proof. exact (Z.land_ones z 10 ltac:(lia)). Qed.
Lemma land_1F z : Z.land z 0x1F = z mod 32.
Proof. exact (Z.land_ones z 5 ltac:(lia)). Qed.
Lemma land_0F z : Z.land z 0x0F = z mod 16.
Proof. exact (Z.land_ones z 4 ltac:(lia)). Qed.
Lemma land_07 z : Z.land z 0x07 = z mod 8.
Proof. exact (Z.land_ones z 3 ltac:(lia)). Qed.
Lemma shr_6 z : Z.shiftr z 6 = z / 64.
Proof. exact (Z.shiftr_div_pow2 z 6 ltac:(lia)). Qed.
Lemma shr_10 z : Z.shiftr z 10 = z / 1024.
Proof. exact (Z.shiftr_div_pow2 z 10 ltac:(lia)). Qed.
Lemma shr_12 z : Z.shiftr z 12 = z / 4096.
Proof. exact (Z.shiftr_div_pow2 z 12 ltac:(lia)). Qed.
Lemma shr_18 z : Z.shiftr z 18 = z / 262144.
Proof. exact (Z.shiftr_div_pow2 z 18 ltac:(lia)). Qed.
Lemma shl_6 z : Z.shiftl z 6 = z * 64.
Proof. exact (Z.shiftl_mul_pow2 z 6 ltac:(lia)). Qed.
Lemma shl_10 z : Z.shiftl z 10 = z * 1024.
Proof. exact (Z.shiftl_mul_pow2 z 10 ltac:(lia)). Qed.
Lemma shl_12 z : Z.shiftl z 12 = z * 4096.
Proof. exact (Z.shiftl_mul_pow2 z 12 ltac:(lia)). Qed.
Lemma shl_18 z : Z.shiftl z 18 = z * 262144.
Proof. exact (Z.shiftl_mul_pow2 z 18 ltac:(lia)). Qed.

Lemma lor_6 a c : 0 <= c < 64 -> Z.lor (a * 64) c = a * 64 + c.
Proof. exact (lor_add a c 6 ltac:(lia)). Qed.
Lemma lor_12 a c : 0 <= c < 4096 -> Z.lor (a * 4096) c = a * 4096 + c.
Proof. exact (lor_add a c 12 ltac:(lia)). Qed.
Lemma lor_18 a c : 0 <= c < 262144 -> Z.lor (a * 262144) c = a * 262144 + c.
Proof. exact (lor_add a c 18 ltac:(lia)). Qed.
Lemma lor_80 c : 0 <= c < 64 -> Z.lor 0x80 c = 128 + c.
Proof. exact (lor_add 2 c 6 ltac:(lia)). Qed.
Lemma lor_C0 c : 0 <= c < 64 -> Z.lor 0xC0 c = 192 + c.
Proof. exact (lor_add 3 c 6 ltac:(lia)). Qed.
Lemma lor_E0 c : 0 <= c < 32 -> Z.lor 0xE0 c = 224 + c.
Proof. exact (lor_add 7 c 5 ltac:(lia)). Qed.
Lemma lor_F0 c : 0 <= c < 16 -> Z.lor 0xF0 c = 240 + c.
Proof. exact (lor_add 15 c 4 ltac:(lia)). Qed.

Ltac bits_arith :=
  rewrite ?shl_6, ?shl_10, ?shl_12, ?shl_18, ?shr_6, ?shr_10, ?shr_12, ?shr_18,
    ?land_3F, ?land_3FF, ?land_1F, ?land_0F, ?land_07.

(** ** Code points and their encoding

    [cp_ok] is the range of a code point; [canonical] excludes the sequences a
    string never holds (a high surrogate directly followed by a low one is
    stored as the pair's astral code point). *)

Definition cp_ok (cp : Z) : Prop := 0 <= cp <= CODE_POINT_MAX.
Definition unit_ok (u : Z) : Prop := 0 <= u < 65536.

Definition enc (cp : Z) : list Z := encode_code_point cp [].
Definition encs (cps : list Z) : list Z := cps ≫= enc.

Fixpoint canonical (cps : list Z) : bool :=
  match cps with
  | c :: rest =>
      match rest with
      | d :: _ => negb (is_high c && is_low d) && canonical rest
      | [] => true
      end
  | [] => true
  end.

(** The UTF-16 units of a code point. *)
Definition units_of (cp : Z) : list Z :=
  if FOUR_BYTE_MIN <=? cp
  then [SURROGATE_MIN + (cp - 0x10000) / 1024; LOW_SURROGATE_MIN + (cp - 0x10000) mod 1024]
  else [cp].
Definition units (cps : list Z) : list Z := cps ≫= units_of.

Lemma encode_code_point_app cp out : encode_code_point cp out = out ++ enc cp.
Proof.
  unfold enc, encode_code_point. case_bools; rewrite ?app_nil_l, <- ?app_assoc; reflexivity.
Qed.

Lemma enc_eq cp : cp_ok cp ->
  enc cp =
    if cp <? 0x80 then [cp]
    else if cp <? 0x800 then [192 + cp / 64; 128 + cp mod 64]
    else if cp <? 0x10000 then [224 + cp / 4096; 128 + (cp / 64) mod 64; 128 + cp mod 64]
    else [240 + cp / 262144; 128 + (cp / 4096) mod 64; 128 + (cp / 64) mod 64; 128 + cp mod 64].
Proof.
  unfold cp_ok, enc, encode_code_point, CODE_POINT_MAX, TWO_BYTE_MIN, THREE_BYTE_MIN,
    FOUR_BYTE_MIN. intros H.
  destruct (Z.ltb_spec 0x10FFFF cp); [lia|]. cbn -[as_u8 Z.lor Z.land Z.shiftr Z.mul Z.add Z.div Z.modulo].
  case_bools; bits_arith; rewrite ?lor_80, ?lor_C0, ?lor_E0, ?lor_F0 by div_lia;
    drop_casts_by div_lia; reflexivity.
Qed.

Lemma encs_cons c cps : encs (c :: cps) = enc c ++ encs cps.
Proof. reflexivity. Qed.
Lemma encs_app cps cps' : encs (cps ++ cps') = encs cps ++ encs cps'.
Proof. apply bind_app. Qed.
Lemma units_cons c cps : units (c :: cps) = units_of c ++ units cps.
Proof. reflexivity. Qed.
Lemma units_app cps cps' : units (cps ++ cps') = units cps ++ units cps'.
Proof. apply bind_app. Qed.

(** The length of an encoding, from the code point. *)
Lemma enc_length cp : cp_ok cp ->
  length (enc cp) = if cp <? 0x80 then 1%nat else if cp <? 0x800 then 2%nat
                    else if cp <? 0x10000 then 3%nat else 4%nat.
Proof. intros H. rewrite enc_eq by done. case_bools; reflexivity. Qed.

Lemma enc_length_pos cp : cp_ok cp -> (1 <= length (enc cp))%nat.
Proof. intros H. rewrite enc_length by done. case_bools; lia. Qed.

Lemma encs_length_ge cps : Forall cp_ok cps -> (length cps <= length (encs cps))%nat.
Proof.
  induction 1 as [|c cps Hc _ IH]; [done|].
  rewrite encs_cons, length_app. pose proof (enc_length_pos c Hc). cbn. lia.
Qed.

(** Indexing after a known prefix. *)
Lemma index_app (pre l : list Z) (k : nat) : (pre ++ l) !!! (length pre + k)%nat = l !!! k.
Proof. rewrite lookup_total_app_r by lia. f_equal. lia. Qed.
Lemma index_app0 (pre l : list Z) : (pre ++ l) !!! length pre = l !!! 0%nat.
Proof. rewrite lookup_total_app_r by lia. f_equal. lia. Qed.

(** Decoding an encoding gives the code point and its length back, wherever the
    encoding lies in the string. *)
Lemma decode_enc pre cp rest : cp_ok cp ->
  decode_code_point (pre ++ enc cp ++ rest) (length pre) = (cp, length (enc cp)).
Proof.
  intros H. rewrite enc_length by done. rewrite enc_eq by done.
  unfold decode_code_point. rewrite index_app0, !index_app, !length_app.
  unfold cp_ok, CODE_POINT_MAX in H.
  destruct (Z.ltb_spec cp 0x80); [|destruct (Z.ltb_spec cp 0x800);
    [|destruct (Z.ltb_spec cp 0x10000)]]; cbn [app length lookup_total list_lookup_total].
  - by rewrite (proj2 (Z.ltb_lt cp 128)) by lia.
  - rewrite (proj2 (Z.ltb_ge _ 128)), (proj2 (Z.ltb_lt _ 224)) by div_lia.
    rewrite (proj2 (Nat.ltb_lt _ _)) by lia. bits_arith. f_equal.
    rewrite lor_6 by div_lia. div_lia.
  - rewrite (proj2 (Z.ltb_ge _ 128)), (proj2 (Z.ltb_ge _ 224)), (proj2 (Z.ltb_lt _ 240)) by div_lia.
    rewrite (proj2 (Nat.ltb_lt _ _)) by lia. bits_arith. f_equal.
    rewrite (lor_12 _ (_ * 64)) by div_lia.
    replace ((224 + cp / 4096) mod 16 * 4096 + (128 + (cp / 64) mod 64) mod 64 * 64)
      with (cp / 64 * 64) by div_lia.
    rewrite lor_6 by div_lia. div_lia.
  - rewrite (proj2 (Z.ltb_ge _ 128)), (proj2 (Z.ltb_ge _ 224)), (proj2 (Z.ltb_ge _ 240)) by div_lia.
    rewrite (proj2 (Nat.ltb_lt _ _)) by lia. bits_arith. f_equal.
    rewrite (lor_18 _ (_ * 4096)) by div_lia.
    replace ((240 + cp / 262144) mod 8 * 262144 + (128 + (cp / 4096) mod 64) mod 64 * 4096)
      with (cp / 4096 * 4096) by div_lia.
    rewrite (lor_12 _ (_ * 64)) by div_lia.
    replace (cp / 4096 * 4096 + (128 + (cp / 64) mod 64) mod 64 * 64)
      with (cp / 64 * 64) by div_lia.
    rewrite lor_6 by div_lia. div_lia.
Qed.

(** ** From units to code points and back *)

Definition pair_cp (hi lo : Z) : Z := 0x10000 + (hi - 0xD800) * 1024 + (lo - 0xDC00).

Fixpoint utf16_cps (us : list Z) : list Z :=
  match us with
  | [] => []
  | u :: rest =>
      match rest with
      | lo :: rest' =>
          if is_high u && is_low lo then pair_cp u lo :: utf16_cps rest'
          else u :: utf16_cps rest
      | [] => [u]
      end
  end.

Lemma utf16_cps_pair h l us : is_high h && is_low l = true ->
  utf16_cps (h :: l :: us) = pair_cp h l :: utf16_cps us.
Proof. intros H. cbn [utf16_cps]. by rewrite H. Qed.

Lemma utf16_cps_single u us : match us with v :: _ => is_high u && is_low v = false | [] => True end ->
  utf16_cps (u :: us) = u :: utf16_cps us.
Proof. destruct us; cbn [utf16_cps]; [done|]. by intros ->. Qed.

Lemma is_high_iff u : is_high u = true <-> 0xD800 <= u <= 0xDBFF.
Proof. apply in_range_true. Qed.
Lemma is_low_iff u : is_low u = true <-> 0xDC00 <= u <= 0xDFFF.
Proof. apply in_range_true. Qed.
Lemma is_high_not u : is_high u = false <-> u < 0xD800 \/ 0xDBFF < u.
Proof. apply in_range_false. Qed.
Lemma is_low_not u : is_low u = false <-> u < 0xDC00 \/ 0xDFFF < u.
Proof. apply in_range_false. Qed.

(** Turn the surrogate tests among the hypotheses into inequalities. *)
Ltac surr :=
  repeat match goal with
  | H : _ && _ = true |- _ => apply andb_true_iff in H as [? ?]
  | H : is_high _ = true |- _ => apply is_high_iff in H
  | H : is_low _ = true |- _ => apply is_low_iff in H
  | H : is_high _ = false |- _ => apply is_high_not in H
  | H : is_low _ = false |- _ => apply is_low_not in H
  end.

Lemma pair_cp_range u lo : is_high u && is_low lo = true -> 0x10000 <= pair_cp u lo <= 0x10FFFF.
Proof. intros H. surr. unfold pair_cp. lia. Qed.

Lemma units_of_pair u lo : is_high u && is_low lo = true -> units_of (pair_cp u lo) = [u; lo].
Proof.
  intros H. pose proof (pair_cp_range _ _ H). surr. unfold units_of, FOUR_BYTE_MIN.
  rewrite (proj2 (Z.leb_le _ _)) by lia.
  unfold pair_cp, SURROGATE_MIN, LOW_SURROGATE_MIN. f_equal; [|f_equal]; div_lia.
Qed.

Lemma units_of_bmp u : u < 0x10000 -> units_of u = [u].
Proof. intros H. unfold units_of, FOUR_BYTE_MIN. by rewrite (proj2 (Z.leb_gt _ _)) by lia. Qed.

Lemma units_of_astral cp : 0x10000 <= cp <= 0x10FFFF ->
  exists h l, units_of cp = [h; l] /\ is_high h && is_low l = true /\ pair_cp h l = cp.
Proof.
  intros H. unfold units_of, FOUR_BYTE_MIN, SURROGATE_MIN, LOW_SURROGATE_MIN.
  rewrite (proj2 (Z.leb_le _ _)) by lia. eexists _, _. split; [done|]. split.
  - apply andb_true_iff; split; [apply is_high_iff|apply is_low_iff]; div_lia.
  - unfold pair_cp. div_lia.
Qed.

(** The units of the code points of [us] are [us]. *)
Lemma units_utf16_cps us : Forall unit_ok us -> units (utf16_cps us) = us.
Proof.
  induction us as [|x|x y l IH IH'] using list_pair_ind; intros H.
  - done.
  - cbn [utf16_cps]. rewrite units_cons, units_of_bmp; [done|]. apply list.Forall_cons in H as [H _]. red in H. lia.
  - apply list.Forall_cons in H as [Hx H]. pose proof H as H'. apply list.Forall_cons in H' as [Hy Hl]. destruct (is_high x && is_low y) eqn:E.
    + by rewrite utf16_cps_pair, units_cons, units_of_pair, IH.
    + rewrite utf16_cps_single by done. rewrite units_cons, units_of_bmp by (red in Hx; lia). by rewrite (IH' H).
Qed.

Lemma utf16_cps_ok us : Forall unit_ok us -> Forall cp_ok (utf16_cps us).
Proof.
  unfold unit_ok, cp_ok, CODE_POINT_MAX.
  induction us as [|x|x y l IH IH'] using list_pair_ind; intros H.
  - done.
  - apply list.Forall_cons in H as [H _]. apply list.Forall_cons; split; [lia|done].
  - apply list.Forall_cons in H as [Hx H]. pose proof H as H'. apply list.Forall_cons in H' as [Hy Hl]. destruct (is_high x && is_low y) eqn:E.
    + rewrite utf16_cps_pair by done. apply list.Forall_cons; split; [|auto]. apply pair_cp_range in E. lia.
    + rewrite utf16_cps_single by done. apply list.Forall_cons; split; [lia|auto].
Qed.

Lemma canonical_cons c cps :
  canonical (c :: cps) =
    match cps with d :: _ => negb (is_high c && is_low d) | [] => true end && canonical cps.
Proof. by destruct cps. Qed.

(** The head of [utf16_cps] is low only when the first unit is. *)
Lemma utf16_cps_head_low u us c cps : utf16_cps (u :: us) = c :: cps -> is_low c = true ->
  is_low u = true.
Proof.
  destruct us as [|lo us]; cbn [utf16_cps]; [congruence|].
  destruct (is_high u && is_low lo) eqn:E; [|congruence].
  intros [= <- _] Hc. apply pair_cp_range in E. surr. lia.
Qed.

Lemma utf16_cps_canonical us : canonical (utf16_cps us) = true.
Proof.
  induction us as [|x|x y l IH IH'] using list_pair_ind; try done.
  destruct (is_high x && is_low y) eqn:E.
  - rewrite utf16_cps_pair, canonical_cons, IH by done. destruct (utf16_cps l) as [|d ?]; [done|].
    destruct (is_high (pair_cp x y)) eqn:Eh; [|done].
    apply pair_cp_range in E. surr. lia.
  - rewrite utf16_cps_single, canonical_cons, IH' by done. destruct (utf16_cps (y :: l)) as [|d ?] eqn:El; [done|].
    destruct (is_high x) eqn:Ex; [|done]. destruct (is_low d) eqn:Ed; [|done].
    by rewrite (utf16_cps_head_low _ _ _ _ El Ed) in E.
Qed.

(** Canonical code points are determined by their units. *)
Lemma utf16_cps_units cps : Forall cp_ok cps -> canonical cps = true ->
  utf16_cps (units cps) = cps.
Proof.
  induction 1 as [|c cps Hc Hcps IH]; [done|].
  rewrite canonical_cons, andb_true_iff, units_cons. intros [Hn Hcan].
  red in Hc. unfold CODE_POINT_MAX in Hc. destruct (Z.lt_ge_cases c 0x10000).
  - rewrite units_of_bmp by done. cbn [app]. rewrite utf16_cps_single, IH; [done..|].
    destruct cps as [|d cps]; [done|]. rewrite units_cons.
    apply negb_true_iff in Hn. apply list.Forall_cons in Hcps as [Hd _].
    red in Hd. unfold CODE_POINT_MAX in Hd. destruct (Z.lt_ge_cases d 0x10000).
    + by rewrite units_of_bmp.
    + destruct (units_of_astral d) as (h & l & -> & E & _); [lia|]. cbn [app]. surr.
      destruct (is_high c); [|done]. cbn [andb]. apply is_low_not. lia.
  - destruct (units_of_astral c) as (h & l & -> & E & <-); [lia|]. cbn [app].
    by rewrite utf16_cps_pair, IH.
Qed.

Lemma push_units_cons2 x y l out :
  push_units (x :: y :: l) out =
    if is_high x && is_low y
    then push_units l (encode_code_point
           (0x10000 + Z.shiftl (x - SURROGATE_MIN) 10 + (y - LOW_SURROGATE_MIN)) out)
    else push_units (y :: l) (encode_code_point x out).
Proof. reflexivity. Qed.

(** [push_utf16] appends the encoding of the code points. *)
Lemma push_units_eq us out : push_units us out = out ++ encs (utf16_cps us).
Proof.
  revert out. induction us as [|x|x y l IH IH'] using list_pair_ind; intros out.
  - cbn. by rewrite app_nil_r.
  - cbn [push_units utf16_cps]. rewrite encode_code_point_app. unfold encs. cbn. by rewrite app_nil_r.
  - rewrite push_units_cons2. destruct (is_high x && is_low y) eqn:E.
    + rewrite utf16_cps_pair, IH, encode_code_point_app, encs_cons, <- app_assoc, shl_10 by done. reflexivity.
    + by rewrite utf16_cps_single, (IH' (encode_code_point x out)), encode_code_point_app, encs_cons, <- app_assoc.
Qed.

Lemma push_utf16_eq us out : Forall unit_ok us -> push_utf16 out us = out ++ encs (utf16_cps us).
Proof.
  unfold push_utf16. intros H. rewrite push_units_eq, <- app_assoc. f_equal.
  induction H as [|u us Hu Hus IH]; [done|]. cbn [position_or_len]. red in Hu.
  destruct (Z.leb_spec 128 u); [done|]. cbn [take drop map app].
  rewrite as_u8_small by lia. rewrite utf16_cps_single.
  - rewrite encs_cons, enc_eq by (red; unfold CODE_POINT_MAX; lia).
    rewrite (proj2 (Z.ltb_lt _ _)) by lia. cbn [app]. by rewrite IH.
  - destruct us; [done|]. rewrite (proj2 (is_high_not u)); [done|lia].
Qed.

Lemma from_utf16_eq us : Forall unit_ok us -> from_utf16 us = encs (utf16_cps us).
Proof. intros H. unfold from_utf16. by rewrite push_utf16_eq. Qed.

(** ** The loops over characters

    Every loop of the component stands at a character boundary: its bytes are
    [pre ++ encs cps] and its byte index is [length pre].  These lemmas give one
    iteration. *)

Lemma decode_at pre c cps : cp_ok c ->
  decode_code_point (pre ++ encs (c :: cps)) (length pre) = (c, length (enc c)).
Proof. apply decode_enc. Qed.

Lemma boundary_next pre c cps : pre ++ encs (c :: cps) = (pre ++ enc c) ++ encs cps.
Proof. by rewrite encs_cons, app_assoc. Qed.

Lemma boundary_end pre : (length pre <? length (pre ++ encs []))%nat = false.
Proof. apply Nat.ltb_ge. rewrite length_app. cbn. lia. Qed.

Lemma boundary_lt pre c cps : cp_ok c ->
  (length pre <? length (pre ++ encs (c :: cps)))%nat = true.
Proof.
  intros H. apply Nat.ltb_lt. rewrite encs_cons, !length_app.
  pose proof (enc_length_pos c H). lia.
Qed.

Lemma leb_ltb_negb (a b : nat) : (a <=? b)%nat = negb (b <? a)%nat.
Proof. destruct (Nat.leb_spec a b), (Nat.ltb_spec b a); done || lia. Qed.

(** [code_points] yields the code points that were encoded. *)
Lemma code_points_collect cps pre fuel : Forall cp_ok cps -> (length cps < fuel)%nat ->
  collect (code_points_next (pre ++ encs cps)) fuel (length pre) = cps.
Proof.
  intros H. revert pre fuel. induction H as [|c cps Hc _ IH]; intros pre [|fuel] Hf; try (cbn in Hf; lia).
  - cbn [collect]. unfold code_points_next. by rewrite leb_ltb_negb, boundary_end.
  - cbn [collect]. unfold code_points_next at 1.
    rewrite leb_ltb_negb, boundary_lt, decode_at by done. cbn [negb].
    rewrite boundary_next, <- length_app, IH; [done|]. cbn in Hf. lia.
Qed.

Lemma collect_fuel {S A} (next : S -> option (A * S)) fuel fuel' st :
  (length (collect next fuel st) < fuel)%nat -> (fuel <= fuel')%nat ->
  collect next fuel' st = collect next fuel st.
Proof.
  revert fuel' st. induction fuel as [|fuel IH]; intros [|fuel'] st H Hle; cbn in *; try lia.
  destruct (next st) as [[x st']|]; [|done]. cbn in H. f_equal. apply IH; lia.
Qed.

Lemma collect_exact {S A} (next : S -> option (A * S)) fuel st l :
  collect next (Datatypes.S (length l)) st = l -> (length l <= fuel)%nat ->
  collect next fuel st = l.
Proof.
  revert fuel st. induction l as [|x l IH]; intros [|fuel] st H Hle; cbn [collect length] in *; try lia.
  - done.
  - by destruct (next st) as [[? ?]|].
  - destruct (next st) as [[x' st']|]; [|done]. injection H as -> H. f_equal. apply IH; [done|lia].
Qed.

Lemma code_points_encs cps : Forall cp_ok cps -> code_points (encs cps) = cps.
Proof.
  intros H. apply collect_exact; [|by apply encs_length_ge].
  apply (code_points_collect cps []); [done|lia].
Qed.

Lemma units_of_length c : (1 <= length (units_of c) <= 2)%nat.
Proof. unfold units_of. case_bools; cbn; lia. Qed.

Lemma units_length_le cps : Forall cp_ok cps -> (length (units cps) <= 2 * length (encs cps))%nat.
Proof.
  induction 1 as [|c cps Hc _ IH]; [done|]. rewrite units_cons, encs_cons, !length_app.
  pose proof (units_of_length c). pose proof (enc_length_pos c Hc). lia.
Qed.

(** [utf16_units] yields the units of the code points that were encoded. *)
Lemma utf16_units_collect cps pre fuel : Forall cp_ok cps -> (length (units cps) < fuel)%nat ->
  collect (utf16_units_next (pre ++ encs cps)) fuel (length pre, None) = units cps.
Proof.
  intros H. revert pre fuel. induction H as [|c cps Hc _ IH]; intros pre fuel Hf.
  - destruct fuel; [cbn in Hf; lia|]. cbn [collect]. unfold utf16_units_next, code_points_next.
    by rewrite leb_ltb_negb, boundary_end.
  - rewrite units_cons, length_app in Hf. rewrite units_cons.
    pose proof Hc as Hr. red in Hr. unfold CODE_POINT_MAX in Hr.
    destruct fuel as [|fuel]; [lia|]. cbn [collect]. unfold utf16_units_next at 1, code_points_next.
    rewrite leb_ltb_negb, boundary_lt, decode_at by done. cbn [negb mbind option_bind].
    unfold units_of, FOUR_BYTE_MIN in *. destruct (Z.leb_spec 0x10000 c) as [Hb|Hb].
    + cbn [length] in Hf. destruct fuel as [|fuel]; [lia|]. cbn [collect]. unfold utf16_units_next at 1.
      rewrite boundary_next, <- length_app, IH by lia. unfold SURROGATE_MIN, LOW_SURROGATE_MIN.
      bits_arith. rewrite !as_u16_small by div_lia. done.
    + rewrite as_u16_small by lia. rewrite boundary_next, <- length_app, IH; [done|]. cbn in Hf. lia.
Qed.

Lemma utf16_units_encs cps : Forall cp_ok cps -> utf16_units (encs cps) = units cps.
Proof.
  intros H. apply collect_exact; [|by apply units_length_le].
  apply (utf16_units_collect cps []); [done|lia].
Qed.

(** The WTF-8 strings of the engine: encodings of canonical code points. *)
Definition wtf8 (bytes : list Z) : Prop :=
  exists cps, Forall cp_ok cps /\ canonical cps = true /\ bytes = encs cps.

Lemma wtf8_from_utf16 us : Forall unit_ok us -> wtf8 (from_utf16 us).
Proof.
  intros H. exists (utf16_cps us).
  eauto using utf16_cps_ok, utf16_cps_canonical, from_utf16_eq.
Qed.

Lemma units_ok cps : Forall cp_ok cps -> Forall unit_ok (units cps).
Proof.
  unfold cp_ok, unit_ok, CODE_POINT_MAX.
  induction 1 as [|c cps Hc _ IH]; [done|]. rewrite units_cons. apply Forall_app. split; [|done].
  unfold units_of, FOUR_BYTE_MIN, SURROGATE_MIN, LOW_SURROGATE_MIN.
  destruct (Z.leb_spec 0x10000 c); rewrite !list.Forall_cons; repeat split; try done; div_lia.
Qed.

Lemma utf16_units_from_utf16 us : Forall unit_ok us -> utf16_units (from_utf16 us) = us.
Proof.
  intros H. by rewrite from_utf16_eq, utf16_units_encs, units_utf16_cps by auto using utf16_cps_ok.
Qed.

Lemma from_utf16_utf16_units bytes : wtf8 bytes -> from_utf16 (utf16_units bytes) = bytes.
Proof.
  intros (cps & Hok & Hcan & ->).
  by rewrite utf16_units_encs, from_utf16_eq, utf16_cps_units by auto using units_ok.
Qed.

(** Concrete strings are handed to the theorems through this. *)
Lemma unit_ok_dec us : forallb (in_range 0 65535) us = true -> Forall unit_ok us.
Proof.
  intros H. apply list.Forall_forall. intros u Hu. rewrite forallb_forall in H.
  apply list_elem_of_In, H, in_range_true in Hu. red. lia.
Qed.

(** ** Concatenation *)

Lemma byte_forall (p : Z -> bool) :
  forallb p (map Z.of_nat (seq 0 256)) = true -> forall b, 0 <= b < 256 -> p b = true.
Proof.
  intros H b Hb. rewrite forallb_forall in H. apply H, in_map_iff.
  exists (Z.to_nat b). split; [lia|]. apply in_seq. lia.
Qed.

Lemma land_C0 b : 0 <= b < 256 -> Z.land b 0xC0 = b / 64 * 64.
Proof.
  intros Hb. apply Z.eqb_eq. revert b Hb.
  exact (byte_forall (fun b => Z.land b 0xC0 =? b / 64 * 64) eq_refl).
Qed.

(** The three-byte test on the encoding of one code point. *)
Lemma decode_surrogate3_enc c : 0x800 <= c < 0x10000 ->
  decode_surrogate3 (enc c) = if is_surrogate c then Some c else None.
Proof.
  intros H. rewrite enc_eq by (red; unfold CODE_POINT_MAX; lia).
  rewrite (proj2 (Z.ltb_ge c 0x80)), (proj2 (Z.ltb_ge c 0x800)), (proj2 (Z.ltb_lt c 0x10000)) by lia.
  unfold decode_surrogate3. cbn [length Nat.eqb lookup_total list_lookup_total negb orb].
  rewrite !land_C0 by div_lia.
  destruct (Z.eqb_spec ((128 + (c / 64) mod 64) / 64 * 64) 128); [|div_lia].
  destruct (Z.eqb_spec ((128 + c mod 64) / 64 * 64) 128); [|div_lia].
  destruct (Z.eqb_spec (224 + c / 4096) 0xED); cbn [negb orb].
  - bits_arith. rewrite lor_12 by div_lia.
    replace ((224 + c / 4096) mod 16 * 4096 + (128 + (c / 64) mod 64) mod 64 * 64)
      with (c / 64 * 64) by div_lia.
    rewrite lor_6 by div_lia.
    replace (c / 64 * 64 + (128 + c mod 64) mod 64) with c by div_lia. done.
  - unfold is_surrogate, SURROGATE_MIN, SURROGATE_MAX.
    destruct (Z.leb_spec 0xD800 c), (Z.leb_spec c 0xDFFF); try done. div_lia.
Qed.

Lemma decode_surrogate3_lead b : b !!! 0%nat <> 0xED -> decode_surrogate3 b = None.
Proof.
  intros H. unfold decode_surrogate3. rewrite (proj2 (Z.eqb_neq _ _) H).
  by rewrite orb_true_r.
Qed.

Lemma is_high_surrogate c : is_high c = true -> is_surrogate c = true.
Proof.
  intros H. surr. unfold is_surrogate, SURROGATE_MIN, SURROGATE_MAX.
  apply andb_true_iff. rewrite !Z.leb_le. lia.
Qed.
Lemma is_low_surrogate c : is_low c = true -> is_surrogate c = true.
Proof.
  intros H. surr. unfold is_surrogate, SURROGATE_MIN, SURROGATE_MAX.
  apply andb_true_iff. rewrite !Z.leb_le. lia.
Qed.

Lemma leading_low_surrogate_encs c cps : cp_ok c ->
  leading_low_surrogate (encs (c :: cps)) = if is_low c then Some c else None.
Proof.
  intros Hc. pose proof Hc as Hr. red in Hr. unfold CODE_POINT_MAX in Hr.
  rewrite encs_cons. unfold leading_low_surrogate.
  destruct (Z.lt_ge_cases c 0x800) as [Hs|Hs]; [|destruct (Z.lt_ge_cases c 0x10000) as [Hb|Hb]].
  - rewrite decode_surrogate3_lead; cbn [mbind option_bind].
    + replace (is_low c) with false by (symmetry; apply is_low_not; lia). by case_bools.
    + rewrite enc_eq by done. destruct (Z.ltb_spec c 0x80); cbn; [lia|].
      rewrite (proj2 (Z.ltb_lt c 0x800)) by lia. cbn. div_lia.
  - rewrite length_app, enc_length by done.
    rewrite (proj2 (Z.ltb_ge c 0x80)), (proj2 (Z.ltb_ge c 0x800)), (proj2 (Z.ltb_lt c 0x10000)) by lia.
    cbn [Nat.add Nat.ltb Nat.leb].
    rewrite take_app_length', decode_surrogate3_enc; [|lia|].
    + destruct (is_low c) eqn:E.
      * rewrite is_low_surrogate by done. cbn [mbind option_bind]. rewrite E, as_u16_small by lia. done.
      * destruct (is_surrogate c); [|done]. cbn [mbind option_bind]. by rewrite E.
    + rewrite enc_length by done.
      rewrite (proj2 (Z.ltb_ge c 0x80)), (proj2 (Z.ltb_ge c 0x800)), (proj2 (Z.ltb_lt c 0x10000)) by lia. done.
  - rewrite decode_surrogate3_lead; cbn [mbind option_bind].
    + replace (is_low c) with false by (symmetry; apply is_low_not; lia). by case_bools.
    + rewrite enc_eq by done.
      rewrite (proj2 (Z.ltb_ge c 0x80)), (proj2 (Z.ltb_ge c 0x800)), (proj2 (Z.ltb_ge c 0x10000)) by lia.
      cbn. div_lia.
Qed.

(** The last three bytes of a string that ends with [c]. *)
Lemma trailing_high_surrogate_encs cps c : cp_ok c ->
  trailing_high_surrogate (encs (cps ++ [c])) = if is_high c then Some c else None.
Proof.
  intros Hc. pose proof Hc as Hr. red in Hr. unfold CODE_POINT_MAX in Hr.
  rewrite encs_app. replace (encs [c]) with (enc c) by (cbn; by rewrite app_nil_r).
  unfold trailing_high_surrogate. rewrite length_app.
  generalize (encs cps) as pre. intros pre. rewrite enc_length by done.
  destruct (Z.ltb_spec c 0x80) as [H1|H1]; [|destruct (Z.ltb_spec c 0x800) as [H2|H2];
    [|destruct (Z.ltb_spec c 0x10000) as [H3|H3]]].
  - replace (is_high c) with false by (symmetry; apply is_high_not; lia).
    destruct (Nat.ltb_spec (length pre + 1) 3); [done|].
    rewrite enc_eq by done. rewrite (proj2 (Z.ltb_lt c 0x80)) by done.
    unfold decode_surrogate3. rewrite !lookup_total_drop.
    replace (length pre + 1 - 3 + 2)%nat with (length pre) by lia. rewrite index_app0. cbn [lookup_total list_lookup_total].
    rewrite (land_C0 c) by lia. destruct (Z.eqb_spec (c / 64 * 64) 128); [div_lia|].
    by rewrite orb_true_r.
  - replace (is_high c) with false by (symmetry; apply is_high_not; lia).
    destruct (Nat.ltb_spec (length pre + 2) 3); [done|].
    rewrite enc_eq by done. rewrite (proj2 (Z.ltb_ge c 0x80)), (proj2 (Z.ltb_lt c 0x800)) by done.
    unfold decode_surrogate3. rewrite !lookup_total_drop.
    replace (length pre + 2 - 3 + 1)%nat with (length pre) by lia. rewrite index_app0. cbn [lookup_total list_lookup_total].
    rewrite (land_C0 (192 + c / 64)) by div_lia.
    destruct (Z.eqb_spec ((192 + c / 64) / 64 * 64) 128); [div_lia|].
    by rewrite orb_true_r.
  - rewrite (proj2 (Nat.ltb_ge (length pre + 3) 3)) by lia.
    replace (length pre + 3 - 3)%nat with (length pre) by lia.
    rewrite drop_app_length, decode_surrogate3_enc by lia. destruct (is_high c) eqn:E.
    + rewrite is_high_surrogate by done. cbn [mbind option_bind]. rewrite E, as_u16_small by lia. done.
    + destruct (is_surrogate c); [|done]. cbn [mbind option_bind]. by rewrite E.
  - replace (is_high c) with false by (symmetry; apply is_high_not; lia).
    rewrite (proj2 (Nat.ltb_ge (length pre + 4) 3)) by lia.
    rewrite decode_surrogate3_lead; [done|].
    rewrite !lookup_total_drop. replace (length pre + 4 - 3 + 0)%nat with (length pre + 1)%nat by lia.
    rewrite index_app. rewrite enc_eq by done.
    rewrite (proj2 (Z.ltb_ge c 0x80)), (proj2 (Z.ltb_ge c 0x800)), (proj2 (Z.ltb_ge c 0x10000)) by lia.
    cbn. div_lia.
Qed.

(** Concatenation of code points: a high surrogate at the seam pairs with a low. *)
Definition join (a b : list Z) : list Z :=
  match list.last a, head b with
  | Some h, Some l =>
      if is_high h && is_low l then take (length a - 1) a ++ pair_cp h l :: tail b else a ++ b
  | _, _ => a ++ b
  end.

Lemma append_no_seam out add :
  trailing_high_surrogate out = None \/ leading_low_surrogate add = None ->
  append out add = out ++ add.
Proof.
  unfold append. intros [H|H]; rewrite H; [done|]. by destruct (trailing_high_surrogate out).
Qed.

Lemma append_encs a b : Forall cp_ok a -> Forall cp_ok b ->
  append (encs a) (encs b) = encs (join a b).
Proof.
  intros Ha Hb. unfold join. induction a as [|h a _] using rev_ind.
  { cbn [list.last]. rewrite append_no_seam; [done|left; reflexivity]. }
  rewrite last_snoc. destruct b as [|l b]; cbn [head].
  { rewrite append_no_seam; [by rewrite (encs_app _ [])|right; reflexivity]. }
  apply Forall_app in Ha as [Ha Hh]. apply list.Forall_cons in Hh as [Hh _].
  apply list.Forall_cons in Hb as [Hl Hb].
  assert (Et := trailing_high_surrogate_encs a h Hh).
  assert (El := leading_low_surrogate_encs l b Hl).
  destruct (is_high h && is_low l) eqn:E.
  - pose proof (pair_cp_range _ _ E) as Hp. apply andb_true_iff in E as [E1 E2].
    unfold append. rewrite Et, El, E1, E2. surr.
    assert (length (enc h) = 3%nat /\ length (enc l) = 3%nat) as [L1 L2].
    { rewrite !enc_length by done.
      rewrite (proj2 (Z.ltb_ge h 0x80)), (proj2 (Z.ltb_ge h 0x800)), (proj2 (Z.ltb_lt h 0x10000)) by lia.
      by rewrite (proj2 (Z.ltb_ge l 0x80)), (proj2 (Z.ltb_ge l 0x800)), (proj2 (Z.ltb_lt l 0x10000)) by lia. }
    rewrite (encs_app a [h]), (encs_cons l b).
    replace (encs [h]) with (enc h) by (cbn; by rewrite app_nil_r).
    rewrite (length_app (encs a)), L1. replace (length (encs a) + 3 - 3)%nat with (length (encs a)) by lia.
    rewrite take_app_length, drop_app_length' by done.
    rewrite encode_code_point_app, shl_10, (length_app a). cbn [length tail].
    rewrite Nat.add_sub, take_app_length, encs_app, encs_cons, <- app_assoc. done.
  - rewrite append_no_seam; [by rewrite (encs_app _ (l :: b))|]. rewrite Et, El.
    destruct (is_high h), (is_low l); naive_solver.
Qed.

Lemma canonical_app a b : canonical (a ++ b) = true <->
  canonical a = true /\ canonical b = true /\
  (forall h l, list.last a = Some h -> head b = Some l -> is_high h && is_low l = false).
Proof.
  induction a as [|x a IH].
  - cbn. naive_solver.
  - cbn [app]. rewrite (canonical_cons x (a ++ b)), (canonical_cons x a), !andb_true_iff, IH.
    destruct a as [|y a]; cbn [app list.last head].
    + destruct b as [|z b]; [naive_solver|]. rewrite negb_true_iff. naive_solver.
    + naive_solver.
Qed.

Lemma join_spec a b : Forall cp_ok a -> Forall cp_ok b ->
  canonical a = true -> canonical b = true ->
  canonical (join a b) = true /\ Forall cp_ok (join a b) /\ units (join a b) = units a ++ units b.
Proof.
  intros Ha Hb Ca Cb. unfold join. induction a as [|h a _] using rev_ind.
  { cbn [list.last]. auto. }
  rewrite last_snoc. destruct b as [|l b]; cbn [head].
  { rewrite app_nil_r. by rewrite app_nil_r. }
  destruct (is_high h && is_low l) eqn:E.
  - rewrite length_app. cbn [length tail]. rewrite Nat.add_sub, take_app_length.
    apply Forall_app in Ha as [Ha Hh]. apply list.Forall_cons in Hb as [Hl Hb].
    pose proof (pair_cp_range _ _ E) as Hp.
    apply (canonical_app a [h]) in Ca as (Ca & _ & _).
    apply (canonical_app [l] b) in Cb as (_ & Cb & _). split_and!.
    + apply canonical_app. rewrite canonical_cons, Cb. split_and!; [done| |].
      * destruct b; [done|]. destruct (is_high (pair_cp h l)) eqn:E'; [|done]. surr. lia.
      * intros x y _ [= <-]. apply andb_false_iff. right. apply is_low_not. lia.
    + apply Forall_app. split; [done|]. apply list.Forall_cons. split; [red; unfold CODE_POINT_MAX; lia|done].
    + rewrite !units_app, units_cons, units_of_pair by done. surr.
      rewrite units_cons, (units_cons l), !units_of_bmp by lia. cbn. by rewrite <- !app_assoc.
  - split_and!; [|by apply Forall_app|apply units_app].
    apply canonical_app. split_and!; [done..|]. rewrite last_snoc. cbn. naive_solver.
Qed.

Lemma append_from_utf16 us vs : Forall unit_ok us -> Forall unit_ok vs ->
  append (from_utf16 us) (from_utf16 vs) = from_utf16 (us ++ vs).
Proof.
  intros Hu Hv. rewrite !from_utf16_eq by (try apply Forall_app; done).
  rewrite append_encs by auto using utf16_cps_ok. f_equal.
  destruct (join_spec (utf16_cps us) (utf16_cps vs)) as (H1 & H2 & H3);
    auto using utf16_cps_ok, utf16_cps_canonical.
  rewrite <- (utf16_cps_units _ H2 H1), H3, !units_utf16_cps by done. done.
Qed.

Lemma leading_low_from_utf16 vs : Forall unit_ok vs ->
  match head vs with Some u => is_low u | None => false end = false ->
  leading_low_surrogate (from_utf16 vs) = None.
Proof.
  intros Hv H. rewrite from_utf16_eq by done. destruct vs as [|v vs]; [done|]. cbn in H.
  pose proof (utf16_cps_ok _ Hv) as Hok. destruct (utf16_cps (v :: vs)) as [|c cps] eqn:E; [done|].
  apply list.Forall_cons in Hok as [Hc _]. rewrite leading_low_surrogate_encs by done.
  destruct (is_low c) eqn:El; [|done]. by rewrite (utf16_cps_head_low _ _ _ _ E El) in H.
Qed.

Lemma append_utf16_append out us : Forall unit_ok us ->
  append_utf16 out us = append out (from_utf16 us).
Proof.
  intros H. unfold append_utf16.
  destruct (match head us with Some u => is_low u | None => false end) eqn:E; cbn [andb].
  - case_bool_decide as Ht; [done|]. apply eq_None_not_Some in Ht.
    rewrite append_no_seam by auto. by rewrite push_utf16_eq, from_utf16_eq.
  - rewrite append_no_seam by auto using leading_low_from_utf16.
    by rewrite push_utf16_eq, from_utf16_eq.
Qed.

(** ** The eight-byte unit count *)

Definition byte_ok (b : Z) : Prop := 0 <= b < 256.

Lemma testbit_small b n : byte_ok b -> 8 <= n -> Z.testbit b n = false.
Proof.
  intros H Hn. red in H. rewrite <- (Z.mod_small b (2 ^ 8)) by lia.
  apply Z.mod_pow2_bits_high. lia.
Qed.

Lemma from_le_bytes_bits b w n : byte_ok b -> 0 <= n ->
  Z.testbit (from_le_bytes (b :: w)) n =
    if n <? 8 then Z.testbit b n else Z.testbit (from_le_bytes w) (n - 8).
Proof.
  intros Hb Hn. cbn [from_le_bytes]. rewrite Z.lor_spec, Z.shiftl_spec by done.
  destruct (Z.ltb_spec n 8).
  - rewrite (Z.testbit_neg_r _ (n - 8)) by lia. apply orb_false_r.
  - by rewrite testbit_small.
Qed.

(** Counting the ones under the mask [HI]. *)
Lemma count_HI (f : Z -> bool) :
  foldr Z.add 0 (map (fun k => Z.b2z (Z.testbit HI (Z.of_nat k) && f (Z.of_nat k))) (seq 0 64)) =
  foldr Z.add 0 (map (fun k => Z.b2z (f k)) [7; 15; 23; 31; 39; 47; 55; 63]).
Proof. reflexivity. Qed.

Lemma count_ones_HI y :
  count_ones (Z.land y HI) =
  foldr Z.add 0 (map (fun k => Z.b2z (Z.testbit y k)) [7; 15; 23; 31; 39; 47; 55; 63]).
Proof.
  rewrite <- (count_HI (Z.testbit y)). unfold count_ones. f_equal. apply map_ext. intros k.
  by rewrite Z.land_comm, Z.land_spec.
Qed.

Lemma shl_u64_bit x k n : 0 <= k -> 0 <= n < 64 ->
  Z.testbit (shl_u64 x k) n = Z.testbit x (n - k).
Proof.
  intros Hk Hn. unfold shl_u64, as_u64, wrap_u.
  rewrite Z.mod_pow2_bits_low, Z.shiftl_spec by lia. done.
Qed.

Lemma not_u64_bit x n : 0 <= n < 64 -> Z.testbit (not_u64 x) n = negb (Z.testbit x n).
Proof.
  intros Hn. unfold not_u64. rewrite Z.lxor_spec.
  change 0xFFFFFFFFFFFFFFFF with (Z.ones 64). rewrite Z.ones_spec_low by lia. apply xorb_true_r.
Qed.

Definition cont_bit (b : Z) : bool := Z.testbit b 7 && negb (Z.testbit b 6).
Definition four_bit (b : Z) : bool :=
  Z.testbit b 7 && Z.testbit b 6 && Z.testbit b 5 && Z.testbit b 4.

Lemma byte_units_bits b : byte_ok b ->
  byte_units b = 1 - Z.b2z (cont_bit b) + Z.b2z (four_bit b).
Proof.
  intros H. apply Z.eqb_eq. revert b H.
  exact (byte_forall (fun b => byte_units b =? 1 - Z.b2z (cont_bit b) + Z.b2z (four_bit b)) eq_refl).
Qed.

Section word.
Context (b0 b1 b2 b3 b4 b5 b6 b7 : Z).
Context (H0 : byte_ok b0) (H1 : byte_ok b1) (H2 : byte_ok b2) (H3 : byte_ok b3).
Context (H4 : byte_ok b4) (H5 : byte_ok b5) (H6 : byte_ok b6) (H7 : byte_ok b7).
Abbreviation w := [b0; b1; b2; b3; b4; b5; b6; b7].
Abbreviation x := (from_le_bytes w).

(** Bits 4 to 7 of byte [k] are bits [8 k + 4] to [8 k + 7] of the word. *)
Lemma word_bit (k : nat) (j : Z) : (k < 8)%nat -> 0 <= j < 8 ->
  Z.testbit x (8 * Z.of_nat k + j) = Z.testbit (w !!! k) j.
Proof using H0 H1 H2 H3 H4 H5 H6 H7.
  intros Hk Hj.
  do 8 (destruct k as [|k]; [
    repeat (rewrite from_le_bytes_bits by (done || lia);
      match goal with |- context [if ?a <? 8 then _ else _] =>
        first [rewrite (proj2 (Z.ltb_ge a 8)) by lia | rewrite (proj2 (Z.ltb_lt a 8)) by lia] end);
    cbn [lookup_total list_lookup_total]; f_equal; lia|]). lia.
Qed.

Lemma word_units_eq : word_units w = foldr Z.add 0 (map byte_units w).
Proof using H0 H1 H2 H3 H4 H5 H6 H7.
  assert (Hb : forall (k : nat) n j, (k < 8)%nat -> 0 <= j < 8 -> n = 8 * Z.of_nat k + j ->
            Z.testbit x n = Z.testbit (w !!! k) j) by (intros; subst; by apply word_bit).
  unfold word_units. destruct (Z.eqb_spec (Z.land x HI) 0) as [E|E].
  - assert (Hz : forall k : nat, (k < 8)%nat -> Z.testbit (w !!! k) 7 = false).
    { intros k Hk. rewrite <- (Hb k (8 * Z.of_nat k + 7)) by lia.
      assert (Hx : Z.testbit (Z.land x HI) (8 * Z.of_nat k + 7) = false) by (rewrite E; apply Z.bits_0).
      rewrite Z.land_spec in Hx. apply andb_false_iff in Hx as [|Hx]; [done|].
      do 8 (destruct k as [|k]; [done|]). lia. }
    cbn [map foldr]. rewrite !byte_units_bits by done. unfold cont_bit, four_bit.
    pose proof (Hz 0%nat ltac:(lia)) as E0. pose proof (Hz 1%nat ltac:(lia)) as E1.
    pose proof (Hz 2%nat ltac:(lia)) as E2. pose proof (Hz 3%nat ltac:(lia)) as E3.
    pose proof (Hz 4%nat ltac:(lia)) as E4. pose proof (Hz 5%nat ltac:(lia)) as E5.
    pose proof (Hz 6%nat ltac:(lia)) as E6. pose proof (Hz 7%nat ltac:(lia)) as E7.
    cbn [lookup_total list_lookup_total] in *.
    by rewrite E0, E1, E2, E3, E4, E5, E6, E7.
  - rewrite !count_ones_HI. cbn [map foldr]. rewrite !byte_units_bits by done.
    unfold cont_bit, four_bit. rewrite !Z.land_spec, !not_u64_bit, !shl_u64_bit by lia.
    repeat match goal with
    | |- context [Z.testbit x ?n] =>
        let v := eval vm_compute in n in
        let k := eval vm_compute in (Z.to_nat (v / 8)) in
        let j := eval vm_compute in (v mod 8) in
        rewrite (Hb k n j) by lia
    end.
    cbn [lookup_total list_lookup_total]. lia.
Qed.
End word.

Lemma utf16_len_bytes bytes : Forall byte_ok bytes ->
  utf16_len bytes = foldr Z.add 0 (map byte_units bytes).
Proof.
  remember (length bytes) as n eqn:Hn. assert (Hle : (length bytes <= n)%nat) by lia. clear Hn.
  revert bytes Hle. induction n as [|n IH]; intros bytes Hle Hb.
  { destruct bytes; [done|cbn in Hle; lia]. }
  do 8 (destruct bytes as [|? bytes]; [reflexivity|]).
  cbn [utf16_len]. repeat (apply list.Forall_cons in Hb as [? Hb]).
  rewrite word_units_eq, IH by (done || cbn in Hle; lia). cbn [map foldr]. lia.
Qed.

Lemma byte_units_enc c : cp_ok c ->
  foldr Z.add 0 (map byte_units (enc c)) = Z.of_nat (length (units_of c)).
Proof.
  intros H. pose proof H as Hr. red in Hr. unfold CODE_POINT_MAX in Hr. rewrite enc_eq by done.
  assert (Hc : forall z, byte_units (128 + z mod 64) = 0).
  { intros z. unfold byte_units. rewrite land_C0 by div_lia.
    destruct (Z.eqb_spec ((128 + z mod 64) / 64 * 64) 128), (Z.leb_spec 240 (128 + z mod 64)); try done; div_lia. }
  assert (Hl : forall z, 0 <= z < 128 \/ 192 <= z < 256 -> byte_units z = if 240 <=? z then 2 else 1).
  { intros z Hz. unfold byte_units. rewrite land_C0 by lia.
    destruct (Z.eqb_spec (z / 64 * 64) 128), (Z.leb_spec 240 z); try done; div_lia. }
  unfold units_of, FOUR_BYTE_MIN.
  destruct (Z.ltb_spec c 0x80); [|destruct (Z.ltb_spec c 0x800); [|destruct (Z.ltb_spec c 0x10000)]];
    cbn [map foldr]; rewrite ?Hc, Hl by div_lia; case_cmp; try done; div_lia.
Qed.

Lemma enc_bytes c : cp_ok c -> Forall byte_ok (enc c).
Proof.
  intros H. pose proof H as Hr. red in Hr. unfold CODE_POINT_MAX in Hr. rewrite enc_eq by done.
  destruct (Z.ltb_spec c 0x80); [|destruct (Z.ltb_spec c 0x800); [|destruct (Z.ltb_spec c 0x10000)]];
    rewrite !list.Forall_cons; unfold byte_ok; repeat split; try done; div_lia.
Qed.

Lemma encs_bytes cps : Forall cp_ok cps -> Forall byte_ok (encs cps).
Proof.
  induction 1; [done|]. rewrite encs_cons. apply Forall_app. auto using enc_bytes.
Qed.

Lemma foldr_add_app l l' : foldr Z.add 0 (l ++ l') = foldr Z.add 0 l + foldr Z.add 0 l'.
Proof. induction l as [|x l IH]; cbn; [lia|]. rewrite IH. lia. Qed.

Lemma utf16_len_encs cps : Forall cp_ok cps -> utf16_len (encs cps) = Z.of_nat (length (units cps)).
Proof.
  intros H. rewrite utf16_len_bytes by auto using encs_bytes.
  induction H as [|c cps Hc _ IH]; [done|].
  rewrite encs_cons, units_cons, map_app, foldr_add_app, length_app, byte_units_enc, IH by done. lia.
Qed.

(** ** Ordering *)

Lemma cmp_list_refl l : cmp_list l l = Eq.
Proof. induction l as [|x l IH]; cbn; [done|]. by rewrite Z.compare_refl. Qed.

Lemma cmp_list_prefix p a b : cmp_list (p ++ a) (p ++ b) = cmp_list a b.
Proof. induction p as [|x p IH]; cbn; [done|]. by rewrite Z.compare_refl. Qed.

Lemma cmp_list_head x a y b : x <> y -> cmp_list (x :: a) (y :: b) = (x ?= y).
Proof. intros H. cbn. destruct (Z.compare_spec x y); done. Qed.

Lemma mismatch_prefix p a b : mismatch (p ++ a) (p ++ b) = (fun k => (length p + k)%nat) <$> mismatch a b.
Proof.
  induction p as [|x p IH]; cbn.
  - by destruct (mismatch a b).
  - rewrite Z.eqb_refl, IH. by destruct (mismatch a b).
Qed.

(** Removing a common prefix changes neither [cmp_utf16]'s byte comparison nor
    the place of the first difference. *)
Definition cmp_with (units_cmp : comparison) (a b : list Z) : comparison :=
  match mismatch a b with
  | Some i => if (0xED <=? a !!! i) || (0xED <=? b !!! i) then units_cmp else a !!! i ?= b !!! i
  | None => (length a ?= length b)%nat
  end.

Lemma cmp_with_prefix c p a b : cmp_with c (p ++ a) (p ++ b) = cmp_with c a b.
Proof.
  unfold cmp_with. rewrite mismatch_prefix. destruct (mismatch a b) as [i|]; cbn.
  - by rewrite !index_app.
  - rewrite !length_app. destruct (Nat.compare_spec (length a) (length b)), (Nat.compare_spec (length p + length a) (length p + length b)); done || lia.
Qed.

Lemma cmp_with_cons_eq u x a b : cmp_with u (x :: a) (x :: b) = cmp_with u a b.
Proof. exact (cmp_with_prefix u [x] a b). Qed.

Lemma cmp_with_cons_low u x a y b : x <> y -> x < 0xED -> y < 0xED ->
  cmp_with u (x :: a) (y :: b) = (x ?= y).
Proof.
  intros H Hx Hy. unfold cmp_with. cbn [mismatch]. rewrite (proj2 (Z.eqb_neq x y) H).
  cbn [lookup_total list_lookup_total].
  by rewrite (proj2 (Z.leb_gt _ _) Hx), (proj2 (Z.leb_gt _ _) Hy).
Qed.

Lemma cmp_with_cons_high u x a y b : x <> y -> 0xED <= x \/ 0xED <= y ->
  cmp_with u (x :: a) (y :: b) = u.
Proof.
  intros H Hxy. unfold cmp_with. cbn [mismatch]. rewrite (proj2 (Z.eqb_neq x y) H).
  cbn [lookup_total list_lookup_total].
  by destruct (Z.leb_spec 0xED x), (Z.leb_spec 0xED y); try lia.
Qed.

(** The order of the units of two different code points of the same width. *)
Lemma cmp_units_same c d cs ds : cp_ok c -> cp_ok d -> c <> d -> (c < 0x10000 <-> d < 0x10000) ->
  cmp_list (units_of c ++ cs) (units_of d ++ ds) = (c ?= d).
Proof.
  unfold cp_ok, CODE_POINT_MAX. intros Hc Hd Hn Hw.
  destruct (Z.lt_ge_cases c 0x10000).
  { rewrite !units_of_bmp by lia. by apply cmp_list_head. }
  unfold units_of, FOUR_BYTE_MIN, SURROGATE_MIN, LOW_SURROGATE_MIN.
  rewrite !(proj2 (Z.leb_le _ _)) by lia. cbn [app cmp_list].
  destruct (Z.compare_spec (0xD800 + (c - 0x10000) / 1024) (0xD800 + (d - 0x10000) / 1024)).
  - destruct (Z.compare_spec (0xDC00 + (c - 0x10000) mod 1024) (0xDC00 + (d - 0x10000) mod 1024));
      symmetry; [exfalso; div_lia|apply Z.compare_lt_iff; div_lia|apply Z.compare_gt_iff; div_lia].
  - symmetry. apply Z.compare_lt_iff. div_lia.
  - symmetry. apply Z.compare_gt_iff. div_lia.
Qed.

(** The lead byte of an encoding and the bytes after it. *)
Definition lead (c : Z) : Z :=
  if c <? 0x80 then c else if c <? 0x800 then 192 + c / 64
  else if c <? 0x10000 then 224 + c / 4096 else 240 + c / 262144.

Definition conts (c : Z) : list Z :=
  if c <? 0x80 then [] else if c <? 0x800 then [128 + c mod 64]
  else if c <? 0x10000 then [128 + (c / 64) mod 64; 128 + c mod 64]
  else [128 + (c / 4096) mod 64; 128 + (c / 64) mod 64; 128 + c mod 64].

Lemma enc_lead c : cp_ok c -> enc c = lead c :: conts c.
Proof. intros H. rewrite enc_eq by done. unfold lead, conts. by case_bools. Qed.

Lemma cmp_with_cons u x a y b : x < 0xED -> y < 0xED ->
  cmp_with u (x :: a) (y :: b) = if x =? y then cmp_with u a b else (x ?= y).
Proof.
  intros Hx Hy. destruct (Z.eqb_spec x y) as [->|H].
  - apply cmp_with_cons_eq.
  - by apply cmp_with_cons_low.
Qed.

(** Solve [(x ?= y) = (c ?= d)] when the two orders agree. *)
Ltac same_order :=
  match goal with |- (?x ?= ?y) = (?c ?= ?d) =>
    destruct (Z.compare_spec x y), (Z.compare_spec c d); try done; exfalso; div_lia end.

(** Same lead byte: the continuation bytes decide, in code point order. *)
Lemma cmp_with_conts u c d A B : cp_ok c -> cp_ok d -> c <> d -> lead c = lead d ->
  cmp_with u (conts c ++ A) (conts d ++ B) = (c ?= d).
Proof.
  unfold cp_ok, CODE_POINT_MAX, lead, conts. intros Hc Hd Hn.
  destruct (Z.ltb_spec c 0x80), (Z.ltb_spec d 0x80), (Z.ltb_spec c 0x800), (Z.ltb_spec d 0x800),
    (Z.ltb_spec c 0x10000), (Z.ltb_spec d 0x10000); intros He; try lia; try (exfalso; div_lia);
    cbn [app]; rewrite !cmp_with_cons by div_lia; case_cmp; try same_order; exfalso; div_lia.
Qed.

Lemma cmp_with_first u c d cs ds A B : cp_ok c -> cp_ok d -> c <> d ->
  u = cmp_list (units_of c ++ cs) (units_of d ++ ds) ->
  cmp_with u (enc c ++ A) (enc d ++ B) = u.
Proof.
  intros Hc Hd Hn Hu. rewrite !enc_lead by done. cbn [app].
  destruct (Z.eq_dec (lead c) (lead d)) as [E|E].
  - rewrite E, cmp_with_cons_eq, cmp_with_conts by done. rewrite Hu, cmp_units_same; [done..|].
    unfold cp_ok, CODE_POINT_MAX in *. revert E. unfold lead. case_cmp; intros; try lia; exfalso; div_lia.
  - destruct (Z.lt_ge_cases (lead c) 0xED); [|apply cmp_with_cons_high; [done|lia]].
    destruct (Z.lt_ge_cases (lead d) 0xED); [|apply cmp_with_cons_high; [done|lia]].
    rewrite cmp_with_cons_low by done. rewrite Hu.
    unfold cp_ok, CODE_POINT_MAX in *.
    assert (c < 0xD000) by (unfold lead in *; revert H; case_cmp; intros; div_lia).
    assert (d < 0xD000) by (unfold lead in *; revert H0; case_cmp; intros; div_lia).
    rewrite !units_of_bmp by lia. cbn [app].
    rewrite cmp_list_head by done. clear Hu H H0. revert E. unfold lead. case_cmp; intros; try lia; same_order.
Qed.

Lemma enc_nonempty c A : cp_ok c -> exists x l, enc c ++ A = x :: l.
Proof. intros H. rewrite enc_lead by done. eauto. Qed.

Lemma cmp_utf16_encs cs ds : Forall cp_ok cs -> Forall cp_ok ds ->
  cmp_utf16 (encs cs) (encs ds) = cmp_list (units cs) (units ds).
Proof.
  intros Hc Hd. unfold cmp_utf16. rewrite !utf16_units_encs by done.
  set (u := cmp_list (units cs) (units ds)).
  change (cmp_with u (encs cs) (encs ds) = u).
  assert (E : u = cmp_list (units cs) (units ds)) by done. clearbody u.
  revert ds Hd E. induction Hc as [|c cs Hc Hcs IH]; intros ds Hd E.
  - destruct Hd as [|d ds Hd Hds]; [by subst|]. rewrite encs_cons.
    destruct (enc_nonempty d (encs ds) Hd) as (x & l & ->). subst u. rewrite units_cons.
    pose proof (units_of_length d). destruct (units_of d); [cbn in *; lia|done].
  - destruct Hd as [|d ds Hd Hds].
    + rewrite encs_cons. destruct (enc_nonempty c (encs cs) Hc) as (x & l & ->). subst u.
      rewrite units_cons. pose proof (units_of_length c). destruct (units_of c); [cbn in *; lia|done].
    + rewrite !encs_cons. rewrite !units_cons in E. destruct (Z.eq_dec c d) as [->|Hn].
      * rewrite cmp_with_prefix. apply IH; [done|]. by rewrite cmp_list_prefix in E.
      * by eapply cmp_with_first.
Qed.

(** ** Positions

    [char_boundary bytes byte unit]: a character of [bytes] starts (or the string
    ends) at byte offset [byte], which is unit offset [unit]. *)

Definition char_boundary (bytes : list Z) (byte unit : nat) : Prop :=
  exists p s, Forall cp_ok (p ++ s) /\ bytes = encs (p ++ s) /\
              byte = length (encs p) /\ unit = length (units p).

Lemma char_boundary_0 cps : Forall cp_ok cps -> char_boundary (encs cps) 0 0.
Proof. intros H. by exists [], cps. Qed.

(** The width of a code point in units, as the loops compute it. *)
Lemma units_of_width c :
  length (units_of c) = if FOUR_BYTE_MIN <=? c then 2%nat else 1%nat.
Proof. unfold units_of. by destruct (FOUR_BYTE_MIN <=? c). Qed.

(** Equality of tuples, componentwise by [lia]. *)
Ltac pair_lia :=
  repeat match goal with |- (_, _) = (_, _) => apply f_equal2 end; first [done | lia].

Lemma fuel_step {A} (x : A) l fuel : (length (x :: l) <= fuel)%nat ->
  exists fuel', fuel = S fuel' /\ (length l <= fuel')%nat.
Proof. destruct fuel; cbn; [lia|]. intros. eexists. split; [done|lia]. Qed.

(** *** [utf16_index_from] *)
Lemma utf16_index_loop_encs cps pre fuel unit i :
  Forall cp_ok cps -> (length cps <= fuel)%nat -> (unit <= i)%nat ->
  match utf16_index_loop fuel (pre ++ encs cps) (length pre) unit i with
  | Some (u, byte, unit') =>
      units cps !! (i - unit)%nat = Some u /\ (unit' <= i <= unit' + 1)%nat /\
      exists a b, cps = a ++ b /\ byte = (length pre + length (encs a))%nat /\
                  unit' = (unit + length (units a))%nat
  | None => units cps !! (i - unit)%nat = None
  end.
Proof.
  intros H. revert pre fuel unit.
  induction H as [|c cps Hc _ IH]; intros pre fuel unit Hf Hi.
  { destruct fuel; cbn [utf16_index_loop]; [done|]. by rewrite boundary_end. }
  apply fuel_step in Hf as (fuel' & -> & Hf). cbn [utf16_index_loop].
  rewrite boundary_lt, decode_at by done. cbn [negb]. rewrite boundary_next, <- length_app, units_cons.
  pose proof Hc as Hr. red in Hr. unfold CODE_POINT_MAX in Hr.
  assert (Hstep : forall w, length (units_of c) = w -> (unit + w <= i)%nat ->
    match utf16_index_loop fuel' ((pre ++ enc c) ++ encs cps) (length (pre ++ enc c)) (unit + w) i with
    | Some (u, byte, unit') =>
        (units_of c ++ units cps) !! (i - unit)%nat = Some u /\ (unit' <= i <= unit' + 1)%nat /\
        exists a b, c :: cps = a ++ b /\ byte = (length pre + length (encs a))%nat /\
                    unit' = (unit + length (units a))%nat
    | None => (units_of c ++ units cps) !! (i - unit)%nat = None
    end).
  { intros w Hw Hle. specialize (IH (pre ++ enc c) fuel' (unit + w)%nat Hf Hle).
    rewrite lookup_app_r by lia. rewrite Hw. replace (i - unit - w)%nat with (i - (unit + w))%nat by lia.
    destruct (utf16_index_loop _ _ _ _ _) as [[[u byte] unit']|]; [|done].
    destruct IH as (H1 & H2 & a & b & -> & -> & ->). split; [done|]. split; [done|].
    exists (c :: a), b. rewrite encs_cons, units_cons, !length_app, Hw. split_and!; [done|lia..]. }
  assert (Hhere : exists a b, c :: cps = a ++ b /\ length pre = (length pre + length (encs a))%nat /\
      unit = (unit + length (units a))%nat) by (exists [], (c :: cps); cbn; split_and!; lia || done).
  pose proof (units_of_width c) as Hw. unfold units_of, FOUR_BYTE_MIN in *.
  destruct (Z.leb_spec 0x10000 c) as [Hb|Hb].
  - destruct (Nat.ltb_spec i (unit + 2)); [|apply Hstep; [done|lia]]. split_and!; [|lia..|done].
    bits_arith. destruct (Nat.eqb_spec i unit) as [->|Hn].
    + rewrite Nat.sub_diag. cbn. change 0xD800 with (54 * 1024) at 1.
      rewrite (lor_add 54 _ 10) by div_lia. by rewrite as_u16_small by div_lia.
    + replace (i - unit)%nat with 1%nat by lia. cbn. change 0xDC00 with (55 * 1024) at 1.
      rewrite (lor_add 55 _ 10) by div_lia. by rewrite as_u16_small by div_lia.
  - destruct (Nat.eqb_spec i unit) as [->|Hn]; [|apply Hstep; [done|lia]].
    split_and!; [|lia..|done]. rewrite Nat.sub_diag. cbn. by rewrite as_u16_small by lia.
Qed.

Lemma utf16_index_from_boundary bytes byte unit i :
  char_boundary bytes byte unit -> (unit <= i)%nat ->
  match utf16_index_from bytes byte unit i with
  | Some (u, byte', unit') =>
      utf16_index bytes i = Some u /\ char_boundary bytes byte' unit' /\ (unit' <= i <= unit' + 1)%nat
  | None => utf16_index bytes i = None
  end.
Proof.
  intros (p & s & Hok & -> & -> & ->) Hi. unfold utf16_index_from, utf16_index.
  rewrite utf16_units_encs, units_app by done. rewrite lookup_app_r by done.
  pose proof Hok as Hok'. apply Forall_app in Hok' as [Hp Hs].
  pose proof (utf16_index_loop_encs s (encs p) (length (encs (p ++ s))) (length (units p)) i Hs) as H.
  rewrite <- encs_app in H. specialize (H ltac:(rewrite encs_app, length_app; pose proof (encs_length_ge s Hs); lia) Hi).
  destruct (utf16_index_loop _ _ _ _ _) as [[[u byte'] unit']|]; [|done].
  destruct H as (H1 & H2 & a & b & -> & -> & ->). split; [done|]. split; [|lia].
  exists (p ++ a), b. rewrite <- app_assoc, (encs_app p a), (units_app p a), !length_app. done.
Qed.

(** *** [utf16_range] *)
Definition opt_list (o : option Z) : list Z := match o with Some x => [x] | None => [] end.

Lemma range_start_stop fuel bytes start i u ld : (start <= u)%nat ->
  range_start fuel bytes start i u ld = (i, u, ld).
Proof.
  intros H. destruct fuel; cbn [range_start]; [done|]. by rewrite (proj2 (Nat.ltb_ge _ _) H).
Qed.

Lemma range_start_encs cps pre fuel start u :
  Forall cp_ok cps -> (length cps <= fuel)%nat -> (u <= start <= u + length (units cps))%nat ->
  exists a b ld, cps = a ++ b /\
    range_start fuel (pre ++ encs cps) start (length pre) u None =
      ((length pre + length (encs a))%nat, (u + length (units a))%nat, ld) /\
    drop (start - u) (units cps) = opt_list ld ++ units b /\
    (u + length (units a) = start + length (opt_list ld))%nat.
Proof.
  intros H. revert pre fuel u. induction H as [|c cps Hc _ IH]; intros pre fuel u Hf Hu.
  { cbn in Hu. exists [], [], None. rewrite range_start_stop by lia. cbn. rewrite drop_nil.
    split_and!; done || (pair_lia) || lia. }
  destruct (Nat.eq_dec u start) as [->|Hn].
  { exists [], (c :: cps), None. rewrite range_start_stop by lia.
    rewrite Nat.sub_diag. cbn. split_and!; done || (pair_lia) || lia. }
  apply fuel_step in Hf as (fuel' & -> & Hf). cbn [range_start].
  rewrite units_cons, length_app in Hu. pose proof (units_of_width c) as Hw.
  rewrite boundary_lt, decode_at, (proj2 (Nat.ltb_lt u start)) by (done || lia). cbn [negb andb].
  rewrite boundary_next, <- length_app, units_cons. unfold FOUR_BYTE_MIN in *.
  assert (Hstep : forall w, length (units_of c) = w -> (u + w <= start)%nat ->
    exists a b ld, c :: cps = a ++ b /\
      range_start fuel' ((pre ++ enc c) ++ encs cps) start (length (pre ++ enc c)) (u + w) None =
        ((length pre + length (encs a))%nat, (u + length (units a))%nat, ld) /\
      drop (start - u) (units_of c ++ units cps) = opt_list ld ++ units b /\
      (u + length (units a) = start + length (opt_list ld))%nat).
  { intros w Hw' Hle. destruct (IH (pre ++ enc c) fuel' (u + w)%nat) as (a & b & ld & -> & E & Ed & Eu); [lia..|].
    exists (c :: a), b, ld. rewrite E, encs_cons, units_cons, !length_app, Hw'.
    rewrite drop_app_ge by lia. rewrite Hw'. replace (start - u - w)%nat with (start - (u + w))%nat by lia.
    split_and!; [done|pair_lia|done|lia]. }
  destruct (Z.leb_spec 0x10000 c) as [Hb|Hb]; [|apply Hstep; [done|lia]].
  destruct (Nat.eqb_spec (u + 1) start) as [He|He]; [|apply Hstep; [done|lia]].
  rewrite range_start_stop by lia.
  exists [c], cps, (Some (LOW_SURROGATE_MIN + (c - 0x10000) mod 1024)).
  cbn [encs units mbind list_bind]. rewrite !app_nil_r, length_app, Hw. replace (start - u)%nat with 1%nat by lia.
  split_and!; [done| | |cbn; lia].
  - unfold LOW_SURROGATE_MIN. bits_arith. by rewrite as_u16_small by div_lia.
  - unfold units_of, FOUR_BYTE_MIN. by rewrite (proj2 (Z.leb_le _ _) Hb).
Qed.

Lemma range_end_encs cps pre fuel e u :
  Forall cp_ok cps -> (length cps <= fuel)%nat -> (u <= e <= u + length (units cps))%nat ->
  exists a b tr, cps = a ++ b /\
    range_end fuel (pre ++ encs cps) e (length pre) u = ((length pre + length (encs a))%nat, tr) /\
    take (e - u) (units cps) = units a ++ opt_list tr.
Proof.
  intros H. revert pre fuel u. induction H as [|c cps Hc _ IH]; intros pre fuel u Hf Hu.
  { cbn in Hu. exists [], [], None. change (units []) with (@nil Z). rewrite take_nil. split_and!; [done| |done].
    destruct fuel; cbn [range_end]; [|rewrite boundary_end, andb_false_r]; cbn; pair_lia. }
  apply fuel_step in Hf as (fuel' & -> & Hf). cbn [range_end].
  destruct (Nat.eq_dec u e) as [->|Hn].
  { exists [], (c :: cps), None. rewrite (proj2 (Nat.ltb_ge _ _)) by lia.
    rewrite Nat.sub_diag. cbn. split_and!; done || (pair_lia). }
  rewrite units_cons, length_app in Hu. pose proof (units_of_width c) as Hw.
  rewrite boundary_lt, decode_at, (proj2 (Nat.ltb_lt u e)) by (done || lia). cbn [negb andb].
  rewrite boundary_next, <- length_app, units_cons. unfold FOUR_BYTE_MIN in *.
  assert (Hstep : forall w, length (units_of c) = w -> (u + w <= e)%nat ->
    exists a b tr, c :: cps = a ++ b /\
      range_end fuel' ((pre ++ enc c) ++ encs cps) e (length (pre ++ enc c)) (u + w) =
        ((length pre + length (encs a))%nat, tr) /\
      take (e - u) (units_of c ++ units cps) = units a ++ opt_list tr).
  { intros w Hw' Hle. destruct (IH (pre ++ enc c) fuel' (u + w)%nat) as (a & b & tr & -> & E & Et); [lia..|].
    exists (c :: a), b, tr. rewrite E, encs_cons, units_cons, !length_app.
    rewrite take_app_ge by lia. rewrite Hw'. replace (e - u - w)%nat with (e - (u + w))%nat by lia.
    rewrite Et, app_assoc. split_and!; [done|pair_lia|done]. }
  destruct (Z.leb_spec 0x10000 c) as [Hb|Hb]; [|apply Hstep; [done|lia]].
  destruct (Nat.eqb_spec (u + 1) e) as [He|He]; [|apply Hstep; [done|lia]].
  exists [], (c :: cps), (Some (0xD800 + (c - 0x10000) / 1024)).
  red in Hc. unfold CODE_POINT_MAX in Hc. replace (e - u)%nat with 1%nat by lia. bits_arith.
  rewrite as_u16_small by div_lia. split_and!; [done|cbn; pair_lia|].
  unfold units_of, FOUR_BYTE_MIN. by rewrite (proj2 (Z.leb_le _ _) Hb).
Qed.

(** The bytes between two character boundaries. *)
Lemma sub_encs a m b :
  take (length (encs (a ++ m)) - length (encs a)) (drop (length (encs a)) (encs (a ++ m ++ b))) = encs m.
Proof.
  rewrite !encs_app, drop_app_length, length_app. apply take_app_length'. lia.
Qed.

Lemma utf16_range_boundary bytes byte unit start e :
  char_boundary bytes byte unit -> (unit <= start < e)%nat -> (e <= length (utf16_units bytes))%nat ->
  let r := utf16_range bytes (byte, unit) start e (length (utf16_units bytes)) in
  opt_list (ur_lead r) ++ utf16_units (take (ur_end r - ur_start r) (drop (ur_start r) bytes))
    ++ opt_list (ur_trail r) =
  take (e - start) (drop start (utf16_units bytes)).
Proof.
  intros (p & s & Hok & -> & -> & ->) Hse. rewrite utf16_units_encs by done. intros He.
  pose proof Hok as Hok'. apply Forall_app in Hok' as [Hp Hs].
  unfold utf16_range. cbn [fst snd].
  rewrite (proj2 (Nat.leb_le (length (units p)) start)) by lia.
  rewrite (proj2 (Nat.leb_le (length (encs p)) (length (encs (p ++ s))))) by (rewrite encs_app, length_app; lia).
  cbn [andb].
  assert (Hfuel : (length s <= length (encs (p ++ s)))%nat)
    by (rewrite encs_app, length_app; pose proof (encs_length_ge s Hs); lia).
  rewrite units_app, length_app in He.
  destruct (range_start_encs s (encs p) (length (encs (p ++ s))) start (length (units p)))
    as (a & b & ld & -> & E & Ed & Eu); [done|done|lia|].
  rewrite <- encs_app in E. rewrite E.
  rewrite (app_assoc p a b) in *. apply Forall_app in Hok as [Hpa Hb].
  assert (Hdrop : drop start (units ((p ++ a) ++ b)) = opt_list ld ++ units b).
  { rewrite <- Ed, <- app_assoc, (units_app p), drop_app_ge by lia. done. }
  rewrite Hdrop. assert (Hld : (length (opt_list ld) <= 1)%nat) by (destruct ld; cbn; lia).
  replace (length (encs p) + length (encs a))%nat with (length (encs (p ++ a)))
    by (rewrite encs_app, length_app; done).
  destruct (Nat.leb_spec (length (units ((p ++ a) ++ b))) e) as [Hend|Hend].
  - cbn [ur_lead ur_end ur_start ur_trail opt_list]. rewrite app_nil_r.
    replace (drop (length (encs (p ++ a))) (encs ((p ++ a) ++ b))) with (encs b)
      by (rewrite (encs_app (p ++ a)), drop_app_length; done).
    rewrite take_ge by (rewrite (encs_app (p ++ a)), length_app; lia).
    rewrite utf16_units_encs by done. rewrite take_ge; [done|].
    rewrite <- Hdrop, length_drop. lia.
  - destruct (range_end_encs b (encs (p ++ a)) (length (encs ((p ++ a) ++ b))) e
      (length (units p) + length (units a))) as (a' & b' & tr & -> & E' & Et).
    + done.
    + rewrite encs_app, length_app. pose proof (encs_length_ge b Hb). lia.
    + rewrite !units_app, !length_app in *. lia.
    + rewrite <- encs_app in E'. rewrite E'. cbn [ur_lead ur_end ur_start ur_trail].
      apply Forall_app in Hb as [Ha' Hb'].
      replace (length (encs (p ++ a)) + length (encs a'))%nat with (length (encs ((p ++ a) ++ a')))
        by (rewrite (encs_app (p ++ a)), length_app; done).
      rewrite sub_encs, utf16_units_encs by done. rewrite take_app_ge by lia. f_equal.
      rewrite <- Et. f_equal. lia.
Qed.

(** *** [slice_utf16] *)

(** A unit offset is a character boundary, or splits an astral character. *)
Lemma split_at_unit cps n : (n <= length (units cps))%nat ->
  (exists a b, cps = a ++ b /\ n = length (units a)) \/
  (exists a c b, cps = a ++ c :: b /\ 0x10000 <= c /\ n = S (length (units a))).
Proof.
  revert n. induction cps as [|c cps IH]; intros n Hn.
  { left. exists [], []. cbn in *. split; [done|lia]. }
  destruct n as [|n]; [left; by exists [], (c :: cps)|].
  rewrite units_cons, length_app in Hn. pose proof (units_of_width c) as Hw. unfold FOUR_BYTE_MIN in *.
  assert (Hstep : (length (units_of c) <= S n)%nat ->
    (exists a b, c :: cps = a ++ b /\ S n = length (units a)) \/
    (exists a c' b, c :: cps = a ++ c' :: b /\ 0x10000 <= c' /\ S n = S (length (units a)))).
  { intros Hle. destruct (IH (S n - length (units_of c))%nat) as [(a & b & -> & E)|(a & c' & b & -> & Hc & E)]; [lia| |].
    - left. exists (c :: a), b. rewrite units_cons, length_app. split; [done|lia].
    - right. exists (c :: a), c', b. rewrite units_cons, length_app. split_and!; [done..|lia]. }
  destruct (Z.leb_spec 0x10000 c) as [Hb|Hb]; [|apply Hstep; lia].
  destruct n; [|apply Hstep; lia]. right. by exists [], c, cps.
Qed.

(** One iteration of the scans for a unit offset, away from it. *)
Lemma scan_step (c : Z) (u n : nat) : (u + length (units_of c) <= n)%nat ->
  (n <=? u)%nat = false /\ (u =? n)%nat = false /\
  (n <? u + (if (FOUR_BYTE_MIN <=? c)%Z then 2 else 1))%nat = false.
Proof.
  pose proof (units_of_length c). rewrite <- units_of_width. intros H'.
  split_and!; [apply Nat.leb_gt|apply Nat.eqb_neq|apply Nat.ltb_ge]; lia.
Qed.

Lemma boundary_loop_true a b pre fuel u :
  Forall cp_ok (a ++ b) -> (length (a ++ b) <= fuel)%nat ->
  boundary_loop fuel (pre ++ encs (a ++ b)) (u + length (units a)) u (length pre) = true.
Proof.
  revert pre fuel u. induction a as [|c a IH]; intros pre fuel u Hok Hf.
  { destruct fuel; cbn [boundary_loop]; [done|]. cbn [units mbind list_bind length].
    rewrite Nat.add_0_r, Nat.eqb_refl. by case_bools. }
  change ((c :: a) ++ b) with (c :: (a ++ b)) in *.
  apply list.Forall_cons in Hok as [Hc Hok]. apply fuel_step in Hf as (fuel' & -> & Hf).
  cbn [boundary_loop]. rewrite units_cons, (length_app (units_of _)).
  destruct (scan_step c u (u + (length (units_of c) + length (units a)))) as (_ & E2 & E3); [lia|].
  rewrite boundary_lt, decode_at, E2, E3, andb_false_r by done. cbn [negb].
  rewrite boundary_next, <- (length_app pre), Nat.add_assoc, units_of_width. by apply IH.
Qed.

Lemma boundary_loop_false a c b pre fuel u :
  Forall cp_ok (a ++ c :: b) -> 0x10000 <= c -> (length (a ++ c :: b) <= fuel)%nat ->
  boundary_loop fuel (pre ++ encs (a ++ c :: b)) (u + S (length (units a))) u (length pre) = false.
Proof.
  revert pre fuel u. induction a as [|x a IH]; intros pre fuel u Hok Hb Hf.
  { cbn [app] in *. apply list.Forall_cons in Hok as [Hc _]. apply fuel_step in Hf as (fuel' & -> & Hf).
    cbn [boundary_loop]. rewrite boundary_lt, decode_at by done. cbn [negb units mbind list_bind length].
    rewrite (proj2 (Nat.eqb_neq u (u + 1))) by lia. unfold FOUR_BYTE_MIN.
    by rewrite (proj2 (Z.leb_le _ _) Hb), (proj2 (Nat.ltb_lt u (u + 1))), (proj2 (Nat.ltb_lt (u + 1) (u + 2))) by lia. }
  cbn [app] in *. apply list.Forall_cons in Hok as [Hx Hok].
  apply fuel_step in Hf as (fuel' & -> & Hf). cbn [boundary_loop]. rewrite units_cons, (length_app (units_of _)).
  destruct (scan_step x u (u + S (length (units_of x) + length (units a)))) as (_ & E2 & E3); [lia|].
  rewrite boundary_lt, decode_at, E2, E3, andb_false_r by done. cbn [negb].
  rewrite boundary_next, <- (length_app pre), units_of_width.
  rewrite <- (IH (pre ++ enc x) fuel' (u + (if (FOUR_BYTE_MIN <=? x)%Z then 2 else 1))%nat) by done.
  f_equal. lia.
Qed.

Lemma byte_offset_loop_encs a b pre fuel u up :
  Forall cp_ok (a ++ b) -> (length (a ++ b) <= fuel)%nat ->
  byte_offset_loop fuel (pre ++ encs (a ++ b)) (u + length (units a)) up u (length pre) =
    (length pre + length (encs a))%nat.
Proof.
  revert pre fuel u. induction a as [|c a IH]; intros pre fuel u Hok Hf.
  { cbn [app] in *. destruct b as [|d b].
    - destruct fuel; cbn [byte_offset_loop]; [|rewrite boundary_end; cbn [negb]]; by rewrite length_app.
    - apply list.Forall_cons in Hok as [Hd _]. apply fuel_step in Hf as (fuel' & -> & Hf).
      cbn [byte_offset_loop]. rewrite boundary_lt by done. cbn [negb units mbind list_bind length].
      rewrite (proj2 (Nat.leb_le _ _)) by lia. cbn. lia. }
  change ((c :: a) ++ b) with (c :: (a ++ b)) in *.
  apply list.Forall_cons in Hok as [Hc Hok]. apply fuel_step in Hf as (fuel' & -> & Hf).
  cbn [byte_offset_loop]. rewrite units_cons, (length_app (units_of _)).
  destruct (scan_step c u (u + (length (units_of c) + length (units a)))) as (E1 & _ & E3); [lia|].
  rewrite boundary_lt, decode_at, E1, E3 by done. cbn [negb].
  rewrite boundary_next, <- (length_app pre), Nat.add_assoc, units_of_width, IH by done.
  rewrite encs_cons, !length_app. lia.
Qed.

(** The units of [us], numbered from [u], whose number is in [[s, e)]. *)
Fixpoint window (us : list Z) (u s e : nat) : list Z :=
  match us with
  | [] => []
  | x :: us => (if (s <=? u)%nat && (u <? e)%nat then [x] else []) ++ window us (u + 1) s e
  end.

Lemma window_eq us u s e :
  window us u s e = take (e - u - (s - u)) (drop (s - u) us).
Proof.
  revert u. induction us as [|x us IH]; intros u; cbn [window].
  { by rewrite drop_nil, take_nil. }
  rewrite IH. destruct (Nat.leb_spec s u), (Nat.ltb_spec u e); cbn [andb app].
  - replace (s - u)%nat with 0%nat by lia. replace (s - (u + 1))%nat with 0%nat by lia.
    replace (e - u - 0)%nat with (S (e - (u + 1) - 0)) by lia. done.
  - replace (e - u - (s - u))%nat with 0%nat by lia.
    by replace (e - (u + 1) - (s - (u + 1)))%nat with 0%nat by lia.
  - replace (s - u)%nat with (S (s - (u + 1))) by lia. cbn [drop]. f_equal. lia.
  - replace (e - u - (s - u))%nat with 0%nat by lia.
    by replace (e - (u + 1) - (s - (u + 1)))%nat with 0%nat by lia.
Qed.

Lemma window_nil us u s e : (e <= u)%nat -> window us u s e = [].
Proof. intros H. rewrite window_eq. by replace (e - u - (s - u))%nat with 0%nat by lia. Qed.

Lemma out_if (b : bool) out x :
  (if b then encode_utf16_unit x out else out) = out ++ encs (if b then [x] else []).
Proof.
  destruct b; [|cbn; by rewrite app_nil_r]. unfold encode_utf16_unit.
  rewrite encode_code_point_app. cbn. by rewrite app_nil_r.
Qed.

(** The slow path writes every unit of the range as a code point of its own. *)
Lemma slice_loop_encs cps pre fuel s e u out :
  Forall cp_ok cps -> (length cps <= fuel)%nat ->
  slice_loop fuel (pre ++ encs cps) s e u (length pre) out = out ++ encs (window (units cps) u s e).
Proof.
  intros H. revert pre fuel u out. induction H as [|c cps Hc _ IH]; intros pre fuel u out Hf.
  { destruct fuel; cbn [slice_loop]; [|rewrite boundary_end; cbn [andb negb]]; cbn; by rewrite app_nil_r. }
  apply fuel_step in Hf as (fuel' & -> & Hf). cbn [slice_loop].
  rewrite boundary_lt, decode_at by done. cbn [andb].
  destruct (Nat.ltb_spec u e) as [He|He]; cbn [negb];
    [|rewrite window_nil by done; cbn; by rewrite app_nil_r].
  rewrite boundary_next, <- length_app, units_cons, andb_true_r.
  pose proof Hc as Hr. red in Hr. unfold CODE_POINT_MAX in Hr. unfold units_of, FOUR_BYTE_MIN.
  destruct (Z.leb_spec 0x10000 c) as [Hb|Hb]; cbn [app window]; rewrite IH by done.
  - bits_arith. unfold LOW_SURROGATE_MIN, SURROGATE_MIN. rewrite !as_u16_small by div_lia.
    rewrite !out_if, !encs_app, !app_assoc, <- Nat.add_assoc.
    rewrite (proj2 (Nat.ltb_lt u e)), andb_true_r by done. done.
  - replace (take (length (enc c)) (drop (length pre) ((pre ++ enc c) ++ encs cps))) with (enc c)
      by (rewrite <- app_assoc, drop_app_length, take_app_length; done).
    rewrite encs_app, app_assoc. f_equal.
    rewrite (proj2 (Nat.ltb_lt u e)), andb_true_r by done.
    destruct (s <=? u)%nat; cbn; by rewrite ?app_nil_r.
Qed.

Lemma app_prefix_units a b a' b' : a ++ b = a' ++ b' -> (length (units a) < length (units a'))%nat ->
  exists m, a' = a ++ m.
Proof.
  intros E Hlt. apply app_eq_inv in E as [(k & -> & _)|(k & -> & _)]; [|eauto].
  rewrite units_app, length_app in Hlt. lia.
Qed.

Lemma slice_utf16_encs cps s e : Forall cp_ok cps -> canonical cps = true ->
  let us := take (Nat.min e (length (units cps)) - s) (drop s (units cps)) in
  slice_utf16 (encs cps) s e =
    if unit_at_char_boundary (encs cps) (Nat.min s (length (units cps)))
       && unit_at_char_boundary (encs cps) (Nat.min e (length (units cps)))
    then from_utf16 us else encs us.
Proof.
  intros Hok Hcan. cbn zeta. unfold slice_utf16. rewrite utf16_len_encs, Nat2Z.id by done.
  pose proof (encs_length_ge cps Hok) as Hfuel.
  set (n := length (units cps)). destruct (Nat.leb_spec (Nat.min e n) (Nat.min s n)) as [Hse|Hse].
  { replace (take (Nat.min e n - s) (drop s (units cps))) with (@nil Z); [by case_bools|].
    symmetry. apply length_zero_iff_nil. rewrite length_take, length_drop. lia. }
  rewrite (Nat.min_l s n) by lia.
  destruct (_ && _) eqn:E.
  - apply andb_true_iff in E as [E1 E2].
    assert (Hsplit : forall k, (k <= n)%nat -> unit_at_char_boundary (encs cps) k = true ->
              exists a b, cps = a ++ b /\ k = length (units a)).
    { intros k Hk Hb. destruct (split_at_unit cps k Hk) as [H|(a & c & b & -> & Hc & ->)]; [done|].
      unfold unit_at_char_boundary in Hb. cbn [Nat.eqb] in Hb.
      pose proof (boundary_loop_false a c b [] (length (encs (a ++ c :: b))) 0 Hok Hc Hfuel) as H.
      cbn [app length Nat.add] in H. congruence. }
    assert (Hoff : forall a b up, cps = a ++ b ->
              byte_offset_of_unit (encs cps) (length (units a)) up = length (encs a)).
    { intros a b up ->. unfold byte_offset_of_unit. destruct (Nat.eqb_spec (length (units a)) 0) as [E|E].
      - destruct a as [|c a]; [done|]. rewrite units_cons, length_app in E.
        pose proof (units_of_length c). lia.
      - exact (byte_offset_loop_encs a b [] _ 0 up Hok Hfuel). }
    destruct (Hsplit s) as (a & b & Ea & ->); [lia|done|].
    destruct (Hsplit (Nat.min e n)) as (a' & b' & Ea' & He); [lia|done|].
    rewrite He in *. rewrite (Hoff a b), (Hoff a' b') by done.
    destruct (app_prefix_units a b a' b') as (m & ->); [congruence|lia|].
    rewrite <- app_assoc in Ea'. subst cps. rewrite Ea', sub_encs in *.
    rewrite !units_app, drop_app_length, length_app, take_app_length' by lia.
    apply canonical_app in Hcan as (_ & Hcan & _). apply canonical_app in Hcan as (Hm & _ & _).
    apply Forall_app in Hok as [_ Hok]. apply Forall_app in Hok as [Hmok _].
    by rewrite from_utf16_eq, utf16_cps_units by auto using units_ok.
  - rewrite (slice_loop_encs cps [] _ s (Nat.min e n) 0 []) by done. cbn [app].
    by rewrite window_eq, !Nat.sub_0_r.
Qed.

(** Whether the offset [k] of a sequence of units lies inside a surrogate pair. *)
Definition splits_pair (us : list Z) (k : nat) : bool :=
  match list.last (take k us), head (drop k us) with
  | Some h, Some l => is_high h && is_low l
  | _, _ => false
  end.

Lemma last_unit_high a h : Forall cp_ok a -> list.last (units a) = Some h -> is_high h = true -> list.last a = Some h.
Proof.
  destruct (decide (a = [])) as [->|Hne]; [done|]. destruct (exists_last Hne) as (a' & c & ->). intros Hok.
  apply Forall_app in Hok as [_ Hok]. apply list.Forall_cons in Hok as [Hc _]. red in Hc. unfold CODE_POINT_MAX in Hc.
  rewrite units_app, last_snoc. change (units [c]) with (units_of c ++ []). rewrite app_nil_r. destruct (Z.lt_ge_cases c 0x10000).
  - rewrite units_of_bmp, last_snoc by done. done.
  - destruct (units_of_astral c) as (u & l & -> & E & _); [lia|]. change [u; l] with ([u] ++ [l]). rewrite app_assoc, last_snoc.
    intros [= ->] Hh. surr. lia.
Qed.

Lemma head_unit_low b l : Forall cp_ok b -> head (units b) = Some l -> is_low l = true -> head b = Some l.
Proof.
  destruct b as [|c b]; [done|]. intros Hok. apply list.Forall_cons in Hok as [Hc _]. red in Hc. unfold CODE_POINT_MAX in Hc. rewrite units_cons.
  destruct (Z.lt_ge_cases c 0x10000); [by rewrite units_of_bmp|].
  destruct (units_of_astral c) as (u & v & -> & E & _); [lia|]. cbn. intros [= ->] Hl. surr. lia.
Qed.

(** On a canonical string the boundary test says whether a pair is split. *)
Lemma boundary_splits cps k : Forall cp_ok cps -> canonical cps = true -> (k <= length (units cps))%nat ->
  unit_at_char_boundary (encs cps) k = negb (splits_pair (units cps) k).
Proof.
  intros Hok Hcan Hk. pose proof (encs_length_ge cps Hok) as Hfuel. unfold unit_at_char_boundary.
  destruct (split_at_unit cps k Hk) as [(a & b & -> & ->)|(a & c & b & -> & Hc & ->)].
  - replace (if (length (units a) =? 0)%nat then true else _) with true.
    2:{ destruct (Nat.eqb_spec (length (units a)) 0); [done|]. symmetry. exact (boundary_loop_true a b [] _ 0 Hok Hfuel). }
    symmetry. apply negb_true_iff. unfold splits_pair. rewrite units_app, take_app_length, drop_app_length.
    apply Forall_app in Hok as [Ha Hb]. apply canonical_app in Hcan as (_ & _ & Hj).
    destruct (list.last (units a)) as [h|] eqn:El, (head (units b)) as [l|] eqn:Eh; try done.
    apply not_true_is_false. intros E. pose proof E as E'. apply andb_true_iff in E' as [E1 E2].
    rewrite (Hj h l) in E; [done|by apply last_unit_high|by apply head_unit_low].
  - cbn [Nat.eqb]. pose proof (boundary_loop_false a c b [] _ 0 Hok Hc Hfuel) as H. cbn [app length Nat.add] in H. rewrite H.
    symmetry. apply negb_false_iff. apply Forall_app in Hok as [_ Hok]. apply list.Forall_cons in Hok as [Hc' _]. red in Hc'. unfold CODE_POINT_MAX in Hc'.
    destruct (units_of_astral c) as (u & l & E & Es & _); [lia|]. unfold splits_pair. rewrite units_app, units_cons, E.
    change ([u; l] ++ units b) with ([u] ++ (l :: units b)). rewrite app_assoc.
    replace (S (length (units a))) with (length (units a ++ [u])) by (rewrite length_app; cbn; lia).
    by rewrite take_app_length, drop_app_length, last_snoc.
Qed.

(** *** Well-formedness *)
Lemma well_formed_units cps : Forall cp_ok cps -> canonical cps = true ->
  well_formed_loop (units cps) false = forallb (fun c => negb (is_surrogate c)) cps.
Proof.
  induction 1 as [|c cps Hc Hok IH]; [done|]. rewrite canonical_cons, andb_true_iff.
  intros [Hh Hcan]. specialize (IH Hcan). rewrite units_cons. cbn [forallb].
  red in Hc. unfold CODE_POINT_MAX in Hc.
  destruct (Z.lt_ge_cases c 0x10000).
  - rewrite units_of_bmp by done. cbn [app well_formed_loop].
    destruct (is_low c) eqn:El; [by rewrite is_low_surrogate|].
    destruct (is_high c) eqn:Eh.
    + rewrite is_high_surrogate by done. cbn [negb andb].
      destruct cps as [|d cps]; [done|]. rewrite units_cons. apply list.Forall_cons in Hok as [Hd _].
      red in Hd. unfold CODE_POINT_MAX in Hd. apply negb_true_iff in Hh. cbn [andb] in Hh.
      destruct (Z.lt_ge_cases d 0x10000).
      * rewrite units_of_bmp by done. cbn [app well_formed_loop]. by rewrite Hh.
      * destruct (units_of_astral d) as (h & l & -> & E & _); [lia|]. cbn [app well_formed_loop].
        replace (is_low h) with false; [done|]. surr. symmetry. apply is_low_not. lia.
    + rewrite IH. replace (is_surrogate c) with false; [done|]. surr.
      symmetry. unfold is_surrogate, SURROGATE_MIN, SURROGATE_MAX. apply andb_false_iff.
      rewrite !Z.leb_gt. lia.
  - destruct (units_of_astral c) as (h & l & -> & E & _); [lia|]. cbn [app well_formed_loop].
    apply andb_true_iff in E as [E1 E2]. rewrite E1, E2.
    replace (is_low h) with false by (surr; symmetry; apply is_low_not; lia). cbn [negb]. rewrite IH.
    unfold is_surrogate, SURROGATE_MIN, SURROGATE_MAX. case_cmp; done || lia.
Qed.

(** ** The properties *)

(** C34: UTF-16 and WTF-8 are in bijection.  Encoding a sequence of code units
    (lone surrogates included) gives a canonical WTF-8 string whose units are the
    sequence; re-encoding the units of a canonical string gives its bytes. *)
Theorem utf16_roundtrip us bytes : Forall unit_ok us -> wtf8 bytes ->
  wtf8 (from_utf16 us) /\ utf16_units (from_utf16 us) = us /\
  from_utf16 (utf16_units bytes) = bytes.
Proof.
  auto using wtf8_from_utf16, utf16_units_from_utf16, from_utf16_utf16_units.
Qed.

(** A lone high surrogate, an astral pair and an ASCII letter. *)
Lemma wtf8_example : wtf8 [0xED; 0xA0; 0x80; 0xF0; 0x9F; 0x92; 0xA9; 0x61].
Proof.
  exists [0xD800; 0x1F4A9; 0x61]. split; [|split; reflexivity].
  repeat (apply list.Forall_cons; split; [concrete|]). done.
Qed.

Lemma utf16_roundtrip_witness :
  utf16_units (from_utf16 [0xD83D; 0xDCA9; 0xDC00]) = [0xD83D; 0xDCA9; 0xDC00].
Proof.
  refine (proj1 (proj2 (utf16_roundtrip [0xD83D; 0xDCA9; 0xDC00] _ _ wtf8_example))).
  by apply unit_ok_dec.
Defined.

(** Concatenation of strings.  [append] of two encoded strings, and
    [append_utf16] without the intermediate buffer, both give the canonical
    encoding of the concatenated units: a high surrogate ending the first and a
    low one opening the second become one astral character. *)
Theorem append_canonical us vs : Forall unit_ok us -> Forall unit_ok vs ->
  append (from_utf16 us) (from_utf16 vs) = from_utf16 (us ++ vs) /\
  append_utf16 (from_utf16 us) vs = from_utf16 (us ++ vs).
Proof. intros Hu Hv. rewrite append_utf16_append by done. auto using append_from_utf16. Qed.

Lemma append_canonical_witness :
  append (from_utf16 [0x61; 0xD83D]) (from_utf16 [0xDCA9]) = [0x61; 0xF0; 0x9F; 0x92; 0xA9].
Proof.
  refine (eq_trans (proj1 (append_canonical [0x61; 0xD83D] [0xDCA9] _ _)) eq_refl);
    by apply unit_ok_dec.
Defined.

(** C35: The eight-bytes-at-a-time [utf16_len] equals the per-byte count on every
    byte sequence, and on a canonical string it is the number of UTF-16 units. *)
Theorem utf16_len_correct bytes : Forall byte_ok bytes ->
  utf16_len bytes = foldr Z.add 0 (map byte_units bytes) /\
  (wtf8 bytes -> utf16_len bytes = Z.of_nat (length (utf16_units bytes))).
Proof.
  intros H. split; [by apply utf16_len_bytes|]. intros (cps & Hok & _ & ->).
  by rewrite utf16_len_encs, utf16_units_encs.
Qed.

Lemma utf16_len_correct_witness :
  utf16_len [0xED; 0xA0; 0x80; 0xF0; 0x9F; 0x92; 0xA9; 0x61] = 4.
Proof.
  refine (eq_trans (proj2 (utf16_len_correct _ _) wtf8_example) eq_refl).
  repeat (apply list.Forall_cons; split; [concrete|]). done.
Defined.

(** C36: [cmp_utf16] orders two strings lexicographically by UTF-16 code unit,
    although it compares bytes wherever the two orders agree. *)
Theorem cmp_utf16_is_unit_order a b : wtf8 a -> wtf8 b ->
  cmp_utf16 a b = cmp_list (utf16_units a) (utf16_units b).
Proof.
  intros (cs & Hc & _ & ->) (ds & Hd & _ & ->).
  by rewrite cmp_utf16_encs, !utf16_units_encs.
Qed.

(** U+FFFF is above U+10000 in unit order, below it in byte order. *)
Lemma cmp_utf16_is_unit_order_witness :
  cmp_utf16 (from_utf16 [0xFFFF]) (from_utf16 [0xD800; 0xDC00]) = Gt.
Proof.
  refine (eq_trans (cmp_utf16_is_unit_order _ _ _ _) eq_refl);
    apply wtf8_from_utf16; by apply unit_ok_dec.
Defined.

(** [utf16_range] from any character boundary at or before the range: the
    lead surrogate, the units of the located bytes and the trail surrogate are
    together exactly the units [[start, e)] of the string. *)
Theorem utf16_range_correct bytes byte unit start e :
  char_boundary bytes byte unit -> (unit <= start < e)%nat -> (e <= length (utf16_units bytes))%nat ->
  let r := utf16_range bytes (byte, unit) start e (length (utf16_units bytes)) in
  opt_list (ur_lead r) ++ utf16_units (take (ur_end r - ur_start r) (drop (ur_start r) bytes))
    ++ opt_list (ur_trail r) =
  take (e - start) (drop start (utf16_units bytes)).
Proof. apply utf16_range_boundary. Qed.

(** The range [1, 3) of two astral characters begins and ends inside one. *)
Lemma utf16_range_correct_witness :
  let b := [0xF0; 0x9F; 0x92; 0xA9; 0xF0; 0x9F; 0x92; 0xA9] in
  utf16_range b (0, 0)%nat 1 3 4 = MkUnitRange 4 4 (Some 0xDCA9) (Some 0xD83D) /\
  opt_list (ur_lead (utf16_range b (0, 0)%nat 1 3 4)) ++ utf16_units (take 0 (drop 4 b))
    ++ opt_list (ur_trail (utf16_range b (0, 0)%nat 1 3 4)) = [0xDCA9; 0xD83D].
Proof.
  split; [reflexivity|].
  refine (eq_trans (utf16_range_correct [0xF0; 0x9F; 0x92; 0xA9; 0xF0; 0x9F; 0x92; 0xA9] 0 0 1 3
    _ _ _) eq_refl); [|split; repeat constructor|vm_compute; repeat constructor].
  exists [], [0x1F4A9; 0x1F4A9]. split; [|repeat split].
  repeat (apply list.Forall_cons; split; [concrete|]). done.
Defined.

(** [utf16_index_from], resumed at any character boundary at or before the
    unit, returns the unit [utf16_index] finds from the start together with the
    boundary of the character that holds it, and [None] only past the end. *)
Theorem utf16_index_from_correct bytes byte unit i :
  char_boundary bytes byte unit -> (unit <= i)%nat ->
  match utf16_index_from bytes byte unit i with
  | Some (u, byte', unit') =>
      utf16_index bytes i = Some u /\ char_boundary bytes byte' unit' /\ (unit' <= i <= unit' + 1)%nat
  | None => utf16_index bytes i = None
  end.
Proof. apply utf16_index_from_boundary. Qed.

Lemma utf16_index_from_correct_witness :
  utf16_index [0x61; 0xF0; 0x9F; 0x92; 0xA9] 2 = Some 0xDCA9.
Proof.
  refine (proj1 (utf16_index_from_correct [0x61; 0xF0; 0x9F; 0x92; 0xA9] 1 1 2 _ _)).
  - exists [0x61], [0x1F4A9]. split; [|repeat split].
    repeat (apply list.Forall_cons; split; [concrete|]). done.
  - repeat constructor.
Defined.

(** C37: [slice_utf16] returns a string whose units are the requested units
    (clamped to the length).  When neither end of the range lies between the two
    units of a surrogate pair it is their canonical encoding; otherwise every unit
    of the range is encoded on its own. *)
Theorem slice_utf16_correct bytes s e : wtf8 bytes ->
  let n := length (utf16_units bytes) in
  let us := take (Nat.min e n - s) (drop s (utf16_units bytes)) in
  utf16_units (slice_utf16 bytes s e) = us /\
  slice_utf16 bytes s e =
    if splits_pair (utf16_units bytes) (Nat.min s n) || splits_pair (utf16_units bytes) (Nat.min e n)
    then concat (map (fun u => encode_utf16_unit u []) us) else from_utf16 us.
Proof.
  intros (cps & Hok & Hcan & ->). cbn zeta. rewrite utf16_units_encs by done.
  set (us := take _ _).
  assert (Hus : Forall unit_ok us) by (apply Forall_take, Forall_drop, units_ok, Hok).
  assert (Ecat : encs us = concat (map (fun u => encode_utf16_unit u []) us)).
  { generalize us as l. induction l as [|u l IH]; [done|]. rewrite encs_cons, IH. done. }
  pose proof (slice_utf16_encs cps s e Hok Hcan) as E. cbn zeta in E. rewrite E. clear E. fold us.
  rewrite !boundary_splits, <- negb_orb, <- Ecat by (done || lia). destruct (_ || _); cbn [negb]; (split; [|done]); [|by apply utf16_units_from_utf16].
  rewrite utf16_units_encs.
  - clear Ecat. induction Hus as [|u us' Hu _ IH]; [done|]. rewrite units_cons, IH, units_of_bmp; [done|].
    red in Hu. lia.
  - eapply Forall_impl; [|exact Hus]. unfold unit_ok, cp_ok, CODE_POINT_MAX. intros; lia.
Qed.

Lemma slice_utf16_correct_witness :
  utf16_units (slice_utf16 [0xED; 0xA0; 0x80; 0xF0; 0x9F; 0x92; 0xA9; 0x61] 2 9) = [0xDCA9; 0x61].
Proof. exact (proj1 (slice_utf16_correct _ 2 9 wtf8_example)). Defined.

(** The slow path of [slice_utf16] does not always return a canonical string:
    the units [[1, 4)] of two astral characters end with a whole character, which
    comes out as two three-byte surrogates instead of its four-byte form, so the
    slice compares unequal (byte-wise) to the same string built otherwise. *)
Theorem slice_utf16_not_canonical :
  let b := from_utf16 [0xD83D; 0xDCA9; 0xD83D; 0xDCA9] in
  slice_utf16 b 1 4 <> from_utf16 [0xDCA9; 0xD83D; 0xDCA9] /\
  utf16_units (slice_utf16 b 1 4) = [0xDCA9; 0xD83D; 0xDCA9].
Proof. split; [vm_compute; discriminate|reflexivity]. Qed.

(** On a canonical string, [is_well_formed_utf16] is the absence of surrogate
    code points. *)
Theorem is_well_formed_utf16_correct bytes : wtf8 bytes ->
  is_well_formed_utf16 bytes = forallb (fun c => negb (is_surrogate c)) (code_points bytes).
Proof.
  intros (cps & Hok & Hcan & ->). unfold is_well_formed_utf16.
  by rewrite utf16_units_encs, code_points_encs, well_formed_units.
Qed.

Lemma is_well_formed_utf16_correct_witness :
  is_well_formed_utf16 [0xED; 0xA0; 0x80; 0xF0; 0x9F; 0x92; 0xA9; 0x61] = false.
Proof. exact (is_well_formed_utf16_correct _ wtf8_example). Defined.
