(* ===== verification/NanBox.v ===== *)
(** * NaN-boxed values: [src/src/nanbox.rs]

    A [NanBox] is one 64-bit word, a [Z] in [[0, 2^64)].  An [f64] is its raw bits
    ([to_bits]/[from_bits] are the identity of the model), so the floating-point
    tests the component uses (NaN, zero, sign, IEEE equality) are functions of the
    bits. *)

From S2P Require Import Prelude.

(** ** Definitions *)

Definition QNAN : Z := 0x7ffc000000000000.
Definition SIGN : Z := 0x8000000000000000.
Definition TAG_UNDEFINED : Z := Z.lor QNAN 0x01.
Definition TAG_NULL : Z := Z.lor QNAN 0x02.
Definition TAG_FALSE : Z := Z.lor QNAN 0x03.
Definition TAG_TRUE : Z := Z.lor QNAN 0x04.
Definition TAG_HOLE : Z := Z.lor QNAN 0x05.
Definition TAG_EMPTY : Z := Z.lor QNAN 0x06.
Definition TAG_TDZ : Z := Z.lor QNAN 0x07.
Definition TAG_JIT_THROW : Z := Z.lor QNAN 0x08.
Definition TAG_JIT_FALLOFF : Z := Z.lor QNAN 0x09.
Definition TAG_JIT_EXIT : Z := Z.lor QNAN 0x0a.
Definition CANONICAL_NAN : Z := 0xfff8000000000000.
Definition HANDLE_MASK : Z := 0x0000ffffffffffff.

(** *** [f64] on its bits *)
Definition f64_abs_bits (b : Z) : Z := Z.land b 0x7fffffffffffffff.
Definition f64_is_nan (b : Z) : bool := 0x7ff0000000000000 <? f64_abs_bits b.
Definition f64_is_zero (b : Z) : bool := f64_abs_bits b =? 0.
Definition f64_is_sign_negative (b : Z) : bool := Z.testbit b 63.
Definition f64_eq (a b : Z) : bool :=
  negb (f64_is_nan a) && negb (f64_is_nan b)
  && ((a =? b) || (f64_is_zero a && f64_is_zero b)).

(** *** Values *)
Record NanBox := MkNanBox { word : Z }.

Inductive Unpacked :=
| Undefined
| Null
| Bool (b : bool)
| Number (n : Z)
| Handle (h : Z).

Definition undefined : NanBox := MkNanBox TAG_UNDEFINED.
Definition null : NanBox := MkNanBox TAG_NULL.
Definition hole : NanBox := MkNanBox TAG_HOLE.
Definition is_hole (v : NanBox) : bool := word v =? TAG_HOLE.
Definition empty_completion : NanBox := MkNanBox TAG_EMPTY.
Definition is_empty_completion (v : NanBox) : bool := word v =? TAG_EMPTY.
Definition tdz : NanBox := MkNanBox TAG_TDZ.
Definition is_tdz (v : NanBox) : bool := word v =? TAG_TDZ.
Definition jit_throw_sentinel : NanBox := MkNanBox TAG_JIT_THROW.
Definition is_jit_throw_sentinel (v : NanBox) : bool := word v =? TAG_JIT_THROW.
Definition boolean (b : bool) : NanBox := MkNanBox (if b then TAG_TRUE else TAG_FALSE).
Definition number (n : Z) : NanBox :=
  if f64_is_nan n then MkNanBox CANONICAL_NAN else MkNanBox n.
Definition handle (index : Z) : NanBox :=
  MkNanBox (Z.lor (Z.lor SIGN QNAN) (Z.land index HANDLE_MASK)).

Definition is_number (v : NanBox) : bool := negb (Z.land (word v) QNAN =? QNAN).
Definition is_handle (v : NanBox) : bool :=
  negb (is_number v) && (Z.land (word v) SIGN =? SIGN).
Definition is_undefined (v : NanBox) : bool :=
  (word v =? TAG_UNDEFINED) || (word v =? TAG_HOLE) || (word v =? TAG_EMPTY)
  || (word v =? TAG_TDZ).
Definition is_null (v : NanBox) : bool := word v =? TAG_NULL.
Definition is_boolean (v : NanBox) : bool := (word v =? TAG_TRUE) || (word v =? TAG_FALSE).

Definition as_number (v : NanBox) : option Z := if is_number v then Some (word v) else None.
Definition as_boolean (v : NanBox) : option bool :=
  if word v =? TAG_TRUE then Some true
  else if word v =? TAG_FALSE then Some false else None.
Definition as_handle (v : NanBox) : option Z :=
  if is_handle v then Some (Z.land (word v) HANDLE_MASK) else None.

Definition unpack (v : NanBox) : Unpacked :=
  if is_number v then Number (word v)
  else if (word v =? TAG_UNDEFINED) || (word v =? TAG_HOLE) || (word v =? TAG_EMPTY)
          || (word v =? TAG_TDZ) then Undefined
  else if word v =? TAG_NULL then Null
  else if word v =? TAG_TRUE then Bool true
  else if word v =? TAG_FALSE then Bool false
  else Handle (Z.land (word v) HANDLE_MASK).

Definition to_boolean (v : NanBox) : bool :=
  match unpack v with
  | Undefined | Null => false
  | Bool b => b
  | Number n => negb (f64_eq n 0) && negb (f64_is_nan n)
  | Handle _ => true
  end.

Definition strict_equals (a b : NanBox) : bool :=
  if is_number a && is_number b then f64_eq (word a) (word b) else word a =? word b.

Definition same_value (x y : NanBox) : bool :=
  if is_number x && is_number y then
    let a := word x in
    let b := word y in
    if f64_is_nan a && f64_is_nan b then true
    else if f64_eq a 0 && f64_eq b 0
    then Bool.eqb (f64_is_sign_negative a) (f64_is_sign_negative b)
    else f64_eq a b
  else word x =? word y.

Inductive TypeName := T_undefined | T_object | T_boolean | T_number.

Definition type_of (v : NanBox) : TypeName :=
  match unpack v with
  | Undefined => T_undefined
  | Null => T_object
  | Bool _ => T_boolean
  | Number _ => T_number
  | Handle _ => T_object
  end.

(** *** What a boxed word stands for *)

(** The constructor of each kind of value. *)
Definition pack (u : Unpacked) : NanBox :=
  match u with
  | Undefined => undefined
  | Null => null
  | Bool b => boolean b
  | Number n => number n
  | Handle h => handle h
  end.

(** The payloads the engine packs: any double, any 48-bit handle. *)
Definition payload_ok (u : Unpacked) : Prop :=
  match u with
  | Number n => in_u 64 n
  | Handle h => in_u 48 h
  | _ => True
  end.

(** Numbers come back with NaN in its canonical form. *)
Definition normalize (u : Unpacked) : Unpacked :=
  match u with
  | Number n => Number (if f64_is_nan n then CANONICAL_NAN else n)
  | u => u
  end.

(** The words that are values of the language: packed ones, and the internal
    spellings of [undefined]. *)
Definition is_value (v : NanBox) : Prop :=
  (exists u, payload_ok u /\ v = pack u) \/ v = hole \/ v = empty_completion \/ v = tdz.

(** ** Lemmas *)

Lemma land_shifted_ones w n k : 0 <= n -> 0 <= k ->
  Z.land w (Z.ones n * 2 ^ k) = (w / 2 ^ k) mod 2 ^ n * 2 ^ k.
Proof.
  intros Hn Hk. apply Z.bits_inj'. intros i Hi.
  rewrite Z.land_spec, !Z.mul_pow2_bits by lia.
  destruct (Z.lt_ge_cases i k).
  - by rewrite !(Z.testbit_neg_r _ (i - k)), andb_false_r by lia.
  - destruct (Z.lt_ge_cases (i - k) n).
    + rewrite Z.mod_pow2_bits_low, Z.ones_spec_low, Z.div_pow2_bits by lia.
      rewrite andb_true_r. f_equal. lia.
    + by rewrite Z.mod_pow2_bits_high, Z.ones_spec_high, andb_false_r by lia.
Qed.

Lemma land_QNAN w : Z.land w QNAN = (w / 2 ^ 50) mod 8192 * 2 ^ 50.
Proof. exact (land_shifted_ones w 13 50 ltac:(lia) ltac:(lia)). Qed.
Lemma land_SIGN w : Z.land w SIGN = (w / 2 ^ 63) mod 2 * 2 ^ 63.
Proof. exact (land_shifted_ones w 1 63 ltac:(lia) ltac:(lia)). Qed.
Lemma land_MASK w : Z.land w HANDLE_MASK = w mod 2 ^ 48.
Proof. exact (Z.land_ones w 48 ltac:(lia)). Qed.
Lemma abs_bits w : f64_abs_bits w = w mod 2 ^ 63.
Proof. exact (Z.land_ones w 63 ltac:(lia)). Qed.

Lemma is_number_eq v : is_number v = negb ((word v / 2 ^ 50) mod 8192 =? 8191).
Proof.
  unfold is_number. rewrite land_QNAN. f_equal.
  destruct (Z.eqb_spec ((word v / 2 ^ 50) mod 8192 * 2 ^ 50) QNAN) as [E|E],
    (Z.eqb_spec ((word v / 2 ^ 50) mod 8192) 8191) as [F|F]; unfold QNAN in *; lia.
Qed.

(** A double that is not a NaN is never mistaken for a boxed word. *)
Lemma not_nan_is_number n : in_u 64 n -> f64_is_nan n = false -> is_number (MkNanBox n) = true.
Proof.
  unfold in_u, f64_is_nan. rewrite abs_bits, is_number_eq. cbn [word]. intros H Hn.
  apply Z.ltb_ge in Hn. apply negb_true_iff, Z.eqb_neq. div_lia.
Qed.

Lemma number_is_number n : in_u 64 n -> is_number (number n) = true.
Proof.
  intros H. unfold number. destruct (f64_is_nan n) eqn:E; [reflexivity|]. by apply not_nan_is_number.
Qed.

Lemma handle_word h : in_u 48 h -> word (handle h) = 0xfffc000000000000 + h.
Proof.
  intros H. unfold handle. cbn [word]. rewrite land_MASK, Z.mod_small by done.
  change (Z.lor SIGN QNAN) with (0xfffc * 2 ^ 48). symmetry.
  apply Z.add_nocarry_lor, Z.bits_inj'. intros i Hi. rewrite Z.land_spec, Z.bits_0, Z.mul_pow2_bits by lia.
  rewrite <- (Z.mod_small h (2 ^ 48)) by done. destruct (Z.lt_ge_cases i 48).
  - by rewrite Z.testbit_neg_r by lia.
  - by rewrite Z.mod_pow2_bits_high, andb_false_r by lia.
Qed.

Lemma handle_not_number h : in_u 48 h -> is_number (handle h) = false.
Proof.
  intros H. rewrite is_number_eq, handle_word by done. red in H.
  apply negb_false_iff, Z.eqb_eq. div_lia.
Qed.

Lemma handle_is_handle h : in_u 48 h -> is_handle (handle h) = true.
Proof.
  intros H. unfold is_handle. rewrite handle_not_number by done. cbn [negb andb].
  rewrite land_SIGN, handle_word by done. red in H. apply Z.eqb_eq. unfold SIGN. div_lia.
Qed.

(** The tags have a clear sign bit, so no handle equals one. *)
Lemma handle_not_tag h t : in_u 48 h -> t < SIGN -> (word (handle h) =? t) = false.
Proof. intros H Ht. apply Z.eqb_neq. rewrite handle_word by done. red in H. unfold SIGN in Ht. lia. Qed.

Lemma handle_payload h : in_u 48 h -> Z.land (word (handle h)) HANDLE_MASK = h.
Proof. intros H. rewrite land_MASK, handle_word by done. red in H. div_lia. Qed.

Lemma number_not_tag n t : in_u 64 n -> is_number (MkNanBox t) = false ->
  (word (number n) =? t) = false.
Proof.
  intros H Ht. apply Z.eqb_neq. intros E. pose proof (number_is_number n H) as Hn.
  destruct (number n) as [w]. cbn [word] in E. subst w. congruence.
Qed.

Lemma unpack_number v : is_number v = true -> unpack v = Number (word v).
Proof. unfold unpack. by intros ->. Qed.

Lemma unpack_handle h : in_u 48 h -> unpack (handle h) = Handle h.
Proof.
  intros H. unfold unpack.
  by rewrite handle_not_number, !handle_not_tag, handle_payload by done.
Qed.

Lemma unpack_pack u : payload_ok u -> unpack (pack u) = normalize u.
Proof.
  destruct u as [| |[]|n|h]; intros H; try reflexivity.
  - cbn [pack]. rewrite unpack_number by (by apply number_is_number). unfold number. cbn [normalize].
    by destruct (f64_is_nan n).
  - by apply unpack_handle.
Qed.

(** Doubles, on their bits. *)
Lemma f64_zero_cases a : in_u 64 a -> f64_is_zero a = true -> a = 0 \/ a = SIGN.
Proof.
  unfold in_u, f64_is_zero, SIGN. rewrite abs_bits. intros H E. apply Z.eqb_eq in E. div_lia.
Qed.

Lemma f64_zero_not_nan a : f64_is_zero a = true -> f64_is_nan a = false.
Proof.
  unfold f64_is_zero, f64_is_nan. intros E. apply Z.eqb_eq in E. by rewrite E.
Qed.

Lemma f64_eq_0 a : f64_eq a 0 = f64_is_zero a.
Proof.
  unfold f64_eq. change (f64_is_nan 0) with false. change (f64_is_zero 0) with true.
  rewrite !andb_true_r. destruct (f64_is_zero a) eqn:E.
  - rewrite (f64_zero_not_nan a E), orb_true_r. done.
  - rewrite orb_false_r. destruct (Z.eqb_spec a 0) as [->|]; [done|]. apply andb_false_r.
Qed.

Lemma word_number n : word (number n) = if f64_is_nan n then CANONICAL_NAN else n.
Proof. unfold number. by destruct (f64_is_nan n). Qed.

Lemma same_value_numbers a b : in_u 64 a -> in_u 64 b ->
  same_value (number a) (number b) = (word (number a) =? word (number b)).
Proof.
  intros Ha Hb. unfold same_value. rewrite !number_is_number by done. cbn [andb].
  rewrite !f64_eq_0, !word_number.
  destruct (f64_is_nan a) eqn:Na, (f64_is_nan b) eqn:Nb; rewrite ?Na, ?Nb; cbn [andb]; try reflexivity.
  - change (f64_is_nan CANONICAL_NAN) with true. change (f64_is_zero CANONICAL_NAN) with false.
    unfold f64_eq. change (f64_is_nan CANONICAL_NAN) with true. cbn [andb negb]. symmetry.
    apply Z.eqb_neq. intros E. rewrite <- E in Nb. discriminate.
  - change (f64_is_nan CANONICAL_NAN) with true. change (f64_is_zero CANONICAL_NAN) with false.
    rewrite andb_false_r. unfold f64_eq. change (f64_is_nan CANONICAL_NAN) with true.
    rewrite andb_false_r. symmetry. apply Z.eqb_neq. intros E. rewrite E in Na. discriminate.
  - unfold f64_eq. rewrite Na, Nb. cbn [andb negb].
    destruct (f64_is_zero a) eqn:Za, (f64_is_zero b) eqn:Zb; cbn [andb]; try by rewrite orb_false_r.
    destruct (f64_zero_cases a Ha Za) as [-> | ->], (f64_zero_cases b Hb Zb) as [-> | ->]; reflexivity.
Qed.

Lemma same_value_words v w : is_number v && is_number w = false ->
  same_value v w = (word v =? word w) /\ strict_equals v w = (word v =? word w).
Proof. unfold same_value, strict_equals. by intros ->. Qed.

(** ** The properties *)

(** C38: Boxing and unboxing.  Unpacking a packed value gives it back (a NaN in its
    canonical form), the kind tests and the [as_*] accessors agree with the kind
    that was packed, and two values share a word only when they are the same
    value: no double is ever mistaken for a handle or an immediate. *)
Theorem nanbox_roundtrip u v : payload_ok u -> payload_ok v ->
  unpack (pack u) = normalize u /\
  as_number (pack u) = match normalize u with Number n => Some n | _ => None end /\
  as_boolean (pack u) = match u with Bool b => Some b | _ => None end /\
  as_handle (pack u) = match u with Handle h => Some h | _ => None end /\
  (pack u = pack v <-> normalize u = normalize v).
Proof.
  intros Hu Hv. pose proof (unpack_pack u Hu) as Eu. split; [done|]. split_and!.
  - unfold as_number. destruct u as [| |[]|n|h]; try reflexivity.
    + cbn [pack normalize]. rewrite number_is_number by done. unfold number. by destruct (f64_is_nan n).
    + cbn [pack normalize]. by rewrite handle_not_number.
  - unfold as_boolean. destruct u as [| |[]|n|h]; try reflexivity; cbn [pack].
    + by rewrite !number_not_tag.
    + by rewrite !handle_not_tag.
  - unfold as_handle. destruct u as [| |[]|n|h]; try reflexivity; cbn [pack].
    + unfold is_handle. by rewrite number_is_number.
    + by rewrite handle_is_handle, handle_payload.
  - rewrite <- Eu, <- (unpack_pack v Hv). split; [congruence|]. rewrite Eu, (unpack_pack v Hv).
    intros E. destruct u as [| |[]|n|h], v as [| |[]|m|k]; try discriminate; try reflexivity; cbn in E |- *.
    + unfold number. destruct (f64_is_nan n), (f64_is_nan m); congruence.
    + congruence.
Qed.

Lemma nanbox_roundtrip_witness :
  unpack (pack (Handle 0xabcd00001234)) = Handle 0xabcd00001234 /\
  pack (Number 0x7ffc000000000001) <> pack Undefined.
Proof.
  assert (Hh : payload_ok (Handle 0xabcd00001234)) by concrete.
  assert (Hn : payload_ok (Number 0x7ffc000000000001)) by concrete.
  split; [exact (proj1 (nanbox_roundtrip _ _ Hh Hh))|].
  intros E. by apply (proj2 (proj2 (proj2 (proj2 (nanbox_roundtrip _ Undefined Hn I))))) in E.
Defined.

(** On every word that is a value of the language exactly one of the five kind
    predicates holds, and it is the one [type_of] and [unpack] report. *)
Theorem nanbox_kinds v : is_value v ->
  match unpack v with
  | Undefined => (is_number v, is_handle v, is_undefined v, is_null v, is_boolean v)
                 = (false, false, true, false, false) /\ type_of v = T_undefined
  | Null => (is_number v, is_handle v, is_undefined v, is_null v, is_boolean v)
            = (false, false, false, true, false) /\ type_of v = T_object
  | Bool _ => (is_number v, is_handle v, is_undefined v, is_null v, is_boolean v)
              = (false, false, false, false, true) /\ type_of v = T_boolean
  | Number _ => (is_number v, is_handle v, is_undefined v, is_null v, is_boolean v)
                = (true, false, false, false, false) /\ type_of v = T_number
  | Handle _ => (is_number v, is_handle v, is_undefined v, is_null v, is_boolean v)
                = (false, true, false, false, false) /\ type_of v = T_object
  end.
Proof.
  intros [(u & Hu & ->)|[->|[->| ->]]]; [|split; reflexivity..].
  unfold type_of. rewrite (unpack_pack u Hu). destruct u as [| |[]|n|h]; try (split; reflexivity).
  - cbn [normalize pack]. split; [|done].
    unfold is_handle, is_undefined, is_null, is_boolean.
    by rewrite number_is_number, !number_not_tag by done.
  - cbn [normalize pack]. split; [|done].
    unfold is_undefined, is_null, is_boolean.
    by rewrite handle_not_number, handle_is_handle, !handle_not_tag by done.
Qed.

Lemma nanbox_kinds_witness : unpack (number 0xfff0000000000000) = Number 0xfff0000000000000 /\
  type_of (number 0xfff0000000000000) = T_number.
Proof.
  assert (Hv : is_value (number 0xfff0000000000000)).
  { left. exists (Number 0xfff0000000000000). split; [concrete|reflexivity]. }
  assert (E : unpack (number 0xfff0000000000000) = Number 0xfff0000000000000) by (vm_compute; reflexivity).
  pose proof (nanbox_kinds _ Hv) as H. rewrite E in H. split; [exact E|exact (proj2 H)].
Defined.

(** [same_value] is the identity of values: on packed values it is equality of
    words (so it is an equivalence relation, NaN is the same value as NaN, and [+0]
    is not [-0]).  [strict_equals] is the same relation except between two doubles,
    where it is IEEE equality. *)
Theorem same_value_spec u v : payload_ok u -> payload_ok v ->
  same_value (pack u) (pack v) = (word (pack u) =? word (pack v)) /\
  strict_equals (pack u) (pack v) =
    match u, v with
    | Number a, Number b => f64_eq a b
    | _, _ => same_value (pack u) (pack v)
    end.
Proof.
  intros Hu Hv. assert (H : match u, v with Number _, Number _ => True | _, _ => is_number (pack u) && is_number (pack v) = false end).
  { destruct u as [| |[]|n|h], v as [| |[]|m|k]; try done; cbn [pack];
      rewrite ?handle_not_number by done; rewrite ?andb_false_r; done. }
  destruct u as [| | |n|], v as [| | |m|];
    try (destruct (same_value_words _ _ H) as [-> ->]; done).
  cbn [pack] in *. split; [by apply same_value_numbers|]. unfold strict_equals.
  rewrite !number_is_number by done. cbn [andb]. rewrite !word_number. unfold f64_eq.
  destruct (f64_is_nan n) eqn:Nn, (f64_is_nan m) eqn:Nm; rewrite ?Nn, ?Nm; try reflexivity;
    by rewrite ?andb_false_r.
Qed.

Lemma same_value_spec_witness :
  same_value (pack (Number 0)) (pack (Number SIGN)) = false /\
  strict_equals (pack (Number 0)) (pack (Number SIGN)) = true.
Proof.
  destruct (same_value_spec (Number 0) (Number SIGN)) as [H1 H2]; [concrete|concrete|].
  split; [exact H1|exact H2].
Defined.
