(* ===== verification/Heap.v ===== *)
(** * The generational handle heap: [src/src/heap.rs]

    A heap is a table of slots addressed by generational handles, with a free
    list, a remembered set for minor collections and an optional verification
    mode.  The element type [T] and what a collection asks of it are the class
    [Trace] (the trait of [src/src/gc.rs]); [P] stands for the pool of reusable
    parts of [src/src/object.rs] that a freed value is released into.

    Slot indices ([u32] and [usize] in the source) are [nat]; allocation refuses
    the index [u32::MAX], so converting between the two never truncates (that the
    table stays that short is part of the invariant).  Generations are 16-bit [Z]
    with their wrap-around, ages 8-bit with their saturation, counters [Z].  A
    panic ([expect], [assert!]) is [None].

    A mutable borrow [&mut T] is modelled by the update its holder makes: the
    borrowing operations take a function [f : T -> T] and apply it to the value.
    The growth policy of [Vec] is a parameter [grow]. *)

From S2P Require Import Prelude.
From stdpp Require Export countable gmap.

Open Scope Z_scope.

(** ** Handles *)

Record Handle := MkHandle { index : nat; generation : Z }.

#[export] Instance Handle_eq_dec : EqDecision Handle.
Proof. solve_decision. Defined.

#[export] Instance Handle_countable : Countable Handle.
Proof.
  apply (inj_countable' (fun h => (index h, generation h)) (fun p => MkHandle p.1 p.2)).
  by intros [].
Defined.

Definition to_raw (h : Handle) : Z := Z.lor (Z.shiftl (generation h) 32) (Z.of_nat (index h)).
Definition from_raw (raw : Z) : Handle :=
  MkHandle (Z.to_nat (Z.land raw 0xffffffff)) (Z.land (Z.shiftr raw 32) 0xffff).

(** ** What a collection asks of an element: the trait [Trace]

    A visitor is called on each handle in turn, so an enumeration is the list of
    the handles it visits.  The laws are the contract the trait documents: a
    release empties the place it is given, the handles kept from a position on and
    before it are, together, all of them, and a later position has more of them
    before it. *)
Class Trace (T P : Type) := {
  trace_each : T -> list Handle;
  weight : T -> Z;
  interior_mutable : T -> bool;
  trace_tail : T -> nat -> list Handle;
  trace_head : T -> nat -> list Handle;
  release_in : option T -> P -> option T * P;
  release_in_empties place pool : fst (release_in place pool) = None;
  trace_split v n e : In e (trace_each v) -> In e (trace_head v n) \/ In e (trace_tail v n);
  trace_tail_sub v n e : In e (trace_tail v n) -> In e (trace_each v);
  trace_head_sub v n e : In e (trace_head v n) -> In e (trace_each v);
  trace_head_mono v n m e : (n <= m)%nat -> In e (trace_head v n) -> In e (trace_head v m)
}.

(** ** Definitions *)

Definition COMPACT_GEN_BASE : Z := 0x8000.
Definition OLD_AGE : Z := 1.
Definition SCAN_MAX : Z := Z.shiftl 1 24 - 1.
Definition CLEAN : Z := 0.
Definition DIRTY : Z := 1.
Definition STICKY : Z := 2.
Definition APPENDED : Z := 4.
Definition SLOT_OCCUPIED : Z := 1.
Definition FREE_TOP_UP_MIN : nat := 256.
Definition FREE_TOP_UP_MAX : nat := Z.to_nat 8192.
Definition U32_MAX : Z := 0xffffffff.

Record Slot (T : Type) := MkSlot {
  value : option T;
  slot_generation : Z;
  age : Z;
  occupied : Z;
  dirty : Z;
  scan_lo : Z;
  scan_hi : Z
}.
Arguments MkSlot {T}. Arguments value {T}. Arguments slot_generation {T}. Arguments age {T}.
Arguments occupied {T}. Arguments dirty {T}. Arguments scan_lo {T}. Arguments scan_hi {T}.

Record PoisonState := MkPoison { freed : gset Handle; hits : Z; panic_on_hit : bool }.

(** [capacity] is the slot vector's; [proto_epoch] is the global counter of
    [object.rs] that retires the cell addresses compiled code caches. *)
Record Heap (T P : Type) := MkHeap {
  slots : list (Slot T);
  free_list : list nat;
  live : Z;
  counted : Z;
  compact_gen : Z;
  free_top : nat;
  young_floor : nat;
  remembered : list nat;
  allocs_since_gc : Z;
  poison : option PoisonState;
  extra_pool : P;
  capacity : nat;
  proto_epoch : Z
}.
Arguments MkHeap {T P}. Arguments slots {T P}. Arguments free_list {T P}. Arguments live {T P}.
Arguments counted {T P}. Arguments compact_gen {T P}. Arguments free_top {T P}.
Arguments young_floor {T P}. Arguments remembered {T P}. Arguments allocs_since_gc {T P}.
Arguments poison {T P}. Arguments extra_pool {T P}. Arguments capacity {T P}.
Arguments proto_epoch {T P}.

Section heap.
Context {T P : Type} {trace : Trace T P}.
Context (grow : nat -> nat -> nat).

Implicit Types (s : Slot T) (hp : Heap T P) (h : Handle).

(** *** Field updates *)
Definition with_slots (l : list (Slot T)) hp : Heap T P :=
  MkHeap l (free_list hp) (live hp) (counted hp) (compact_gen hp) (free_top hp) (young_floor hp)
    (remembered hp) (allocs_since_gc hp) (poison hp) (extra_pool hp) (capacity hp) (proto_epoch hp).
Definition with_free (l : list nat) (top floor : nat) hp : Heap T P :=
  MkHeap (slots hp) l (live hp) (counted hp) (compact_gen hp) top floor
    (remembered hp) (allocs_since_gc hp) (poison hp) (extra_pool hp) (capacity hp) (proto_epoch hp).
Definition with_counts (lv c al : Z) hp : Heap T P :=
  MkHeap (slots hp) (free_list hp) lv c (compact_gen hp) (free_top hp) (young_floor hp)
    (remembered hp) al (poison hp) (extra_pool hp) (capacity hp) (proto_epoch hp).
Definition with_remembered (r : list nat) hp : Heap T P :=
  MkHeap (slots hp) (free_list hp) (live hp) (counted hp) (compact_gen hp) (free_top hp)
    (young_floor hp) r (allocs_since_gc hp) (poison hp) (extra_pool hp) (capacity hp) (proto_epoch hp).
Definition with_poison (p : option PoisonState) hp : Heap T P :=
  MkHeap (slots hp) (free_list hp) (live hp) (counted hp) (compact_gen hp) (free_top hp)
    (young_floor hp) (remembered hp) (allocs_since_gc hp) p (extra_pool hp) (capacity hp) (proto_epoch hp).
Definition with_pool (p : P) hp : Heap T P :=
  MkHeap (slots hp) (free_list hp) (live hp) (counted hp) (compact_gen hp) (free_top hp)
    (young_floor hp) (remembered hp) (allocs_since_gc hp) (poison hp) p (capacity hp) (proto_epoch hp).
Definition with_capacity (cap : nat) (epoch : Z) hp : Heap T P :=
  MkHeap (slots hp) (free_list hp) (live hp) (counted hp) (compact_gen hp) (free_top hp)
    (young_floor hp) (remembered hp) (allocs_since_gc hp) (poison hp) (extra_pool hp) cap epoch.

(** *** Slots *)
Definition slot_live (gen a : Z) (v : T) : Slot T := MkSlot (Some v) gen a SLOT_OCCUPIED CLEAN 0 0.
Definition slot_vacant : Slot T := MkSlot None 0 0 0 CLEAN 0 0.
Definition slot_is_live s : bool := match value s with Some _ => true | None => false end.
Definition scan_from s : Z := Z.lor (scan_lo s) (Z.shiftl (scan_hi s) 16).
Definition slot_get (gen : Z) s : option T := if slot_generation s =? gen then value s else None.

Definition with_dirty (d : Z) s : Slot T :=
  MkSlot (value s) (slot_generation s) (age s) (occupied s) d (scan_lo s) (scan_hi s).
Definition with_age (a : Z) s : Slot T :=
  MkSlot (value s) (slot_generation s) a (occupied s) (dirty s) (scan_lo s) (scan_hi s).
Definition with_value (v : option T) s : Slot T :=
  MkSlot v (slot_generation s) (age s) (occupied s) (dirty s) (scan_lo s) (scan_hi s).
Definition with_scan (lo hi : Z) s : Slot T :=
  MkSlot (value s) (slot_generation s) (age s) (occupied s) (dirty s) lo hi.

Definition vacate_release (gen : Z) (pool : P) s : Slot T * P :=
  let '(v, pool) := release_in (value s) pool in
  (MkSlot v gen (age s) 0 CLEAN (scan_lo s) (scan_hi s), pool).

(** *** Construction, counters, verification mode *)
Definition new (pool : P) (epoch : Z) : Heap T P :=
  MkHeap [] [] 0 0 COMPACT_GEN_BASE 0 0 [] 0 None pool 0 epoch.

Definition fold_allocs hp : Heap T P :=
  with_counts (live hp + (allocs_since_gc hp - counted hp)) (allocs_since_gc hp)
    (allocs_since_gc hp) hp.

Definition reset_alloc_pressure hp : Heap T P :=
  let hp := fold_allocs hp in with_counts (live hp) 0 0 hp.

Definition len hp : Z := live hp + (allocs_since_gc hp - counted hp).
Definition is_empty hp : bool := len hp =? 0.
Definition slot_capacity hp : nat := length (slots hp).

Definition enable_gc_verify (panic : bool) hp : Heap T P :=
  with_poison (Some (MkPoison ∅ 0 panic)) hp.
Definition gc_verify_hits hp : Z := match poison hp with Some p => hits p | None => 0 end.
Definition gc_verify hp : bool := match poison hp with Some _ => true | None => false end.

(** [None]: the assertion fails. *)
Definition report_gc_violation hp : option (Heap T P) :=
  match poison hp with
  | Some p =>
      if panic_on_hit p then None
      else Some (with_poison (Some (MkPoison (freed p) (hits p + 1) (panic_on_hit p))) hp)
  | None => Some hp
  end.

Definition note_poison_use h hp : option (Heap T P) :=
  match poison hp with
  | Some p =>
      if bool_decide (h ∈ freed p) then
        if panic_on_hit p then None
        else Some (with_poison (Some (MkPoison (freed p) (hits p + 1) (panic_on_hit p))) hp)
      else Some hp
  | None => Some hp
  end.

(** *** Allocation *)
Definition reserve (additional : nat) hp : Heap T P :=
  if (capacity hp - length (slots hp) <? additional)%nat
  then with_capacity (grow (capacity hp) (length (slots hp) + additional)) (as_u64 (proto_epoch hp + 1)) hp
  else hp.

Definition top_up_free (add : nat) hp : Heap T P :=
  if negb (young_floor hp =? length (slots hp))%nat then hp
  else
    let start := length (slots hp) in
    let add := Z.to_nat (Z.min (Z.of_nat add) (Z.max 0 (U32_MAX - (Z.of_nat start + 1)))) in
    if (add =? 0)%nat then hp
    else
      let hp := reserve add hp in
      let hp := with_slots (slots hp ++ replicate add slot_vacant) hp in
      with_free (rev (seq start add) ++ free_list hp) (free_top hp + add) (length (slots hp)) hp.

Definition reserve_free (target : nat) hp : Heap T P :=
  if negb (free_top hp =? length (free_list hp))%nat
     || negb (young_floor hp =? length (slots hp))%nat
  then hp
  else top_up_free (target - free_top hp) hp.

Definition nat_clamp (v lo hi : nat) : nat :=
  if (v <? lo)%nat then lo else if (hi <? v)%nat then hi else v.

(** [None]: [expect("heap slot space exhausted")]. *)
Definition alloc (v : T) hp : option (Handle * Heap T P) :=
  let hp := with_counts (live hp) (counted hp) (allocs_since_gc hp + 1) hp in
  let hp :=
    if (free_top hp =? 0)%nat && (young_floor hp =? length (slots hp))%nat && (0 <? young_floor hp)%nat
    then top_up_free (nat_clamp (length (slots hp) / 8) FREE_TOP_UP_MIN FREE_TOP_UP_MAX) hp
    else hp in
  if (0 <? free_top hp)%nat then
    let top := (free_top hp - 1)%nat in
    let hp := with_free (free_list hp) top (young_floor hp) hp in
    i ← free_list hp !! top;
    s ← slots hp !! i;
    let s' := MkSlot (Some v) (slot_generation s) 0 SLOT_OCCUPIED (dirty s) (scan_lo s) (scan_hi s) in
    Some (MkHandle i (slot_generation s), with_slots (<[i := s']> (slots hp)) hp)
  else
    let i := length (slots hp) in
    if Z.of_nat i <? U32_MAX then
      let hp :=
        if (length (slots hp) =? capacity hp)%nat
        then with_capacity (grow (capacity hp) (length (slots hp) + 1)) (as_u64 (proto_epoch hp + 1)) hp
        else hp in
      Some (MkHandle i 0, with_slots (slots hp ++ [slot_live 0 0 v]) hp)
    else None.

(** *** Access *)
Definition peek hp h : option T :=
  s ← slots hp !! index h; slot_get (generation h) s.

Definition get hp h : option (option T * Heap T P) :=
  hp ← (if gc_verify hp then note_poison_use h hp else Some hp);
  Some (peek hp h, hp).

(** The write barrier of a mutable borrow; [false] when the handle is stale. *)
Definition peek_mut (h : Handle) (f : T -> T) hp : bool * Heap T P :=
  match slots hp !! index h with
  | None => (false, hp)
  | Some s =>
      if negb (slot_generation s =? generation h) then (false, hp)
      else
        match value s with
        | None => (false, hp)
        | Some v =>
            if (Z.lor (dirty s) APPENDED =? APPENDED) && (OLD_AGE <=? age s) then
              let hp := if dirty s =? CLEAN
                        then with_remembered (remembered hp ++ [index h]) hp else hp in
              (true, with_slots (<[index h := with_value (Some (f v)) (with_dirty DIRTY s)]> (slots hp)) hp)
            else (true, with_slots (<[index h := with_value (Some (f v)) s]> (slots hp)) hp)
        end
  end.

Definition get_mut (h : Handle) (f : T -> T) hp : option (bool * Heap T P) :=
  hp ← (if gc_verify hp then note_poison_use h hp else Some hp);
  Some (peek_mut h f hp).

Definition get_mut_append (h : Handle) (from : T -> nat) (f : T -> T) hp : option (bool * Heap T P) :=
  hp ← (if gc_verify hp then note_poison_use h hp else Some hp);
  match slots hp !! index h with
  | None => Some (false, hp)
  | Some s =>
      if negb (slot_generation s =? generation h) then Some (false, hp)
      else
        match value s with
        | None => Some (false, hp)
        | Some v =>
            let store s hp := with_slots (<[index h := with_value (Some (f v)) s]> (slots hp)) hp in
            if (Z.lor (dirty s) APPENDED =? APPENDED) && (OLD_AGE <=? age s) then
              let at_ := Z.of_nat (from v) in
              if negb (dirty s =? CLEAN) && (scan_from s <? at_) then Some (true, store s hp)
              else
                let hp := if dirty s =? CLEAN
                          then with_remembered (remembered hp ++ [index h]) hp else hp in
                if at_ <=? SCAN_MAX
                then Some (true, store (with_scan (as_u16 at_) (as_u8 (Z.shiftr at_ 16))
                                          (with_dirty APPENDED s)) hp)
                else Some (true, store (with_dirty DIRTY s) hp)
            else Some (true, store s hp)
        end
  end.

Definition remembered_from (i : nat) hp : nat :=
  match slots hp !! i with
  | Some s => if dirty s =? APPENDED then Z.to_nat (scan_from s) else 0%nat
  | None => 0%nat
  end.

Definition remember (i : nat) hp : Heap T P :=
  match slots hp !! i with
  | Some s =>
      if slot_is_live s && (Z.lor (dirty s) APPENDED =? APPENDED) && (OLD_AGE <=? age s) then
        let hp := if dirty s =? CLEAN then with_remembered (remembered hp ++ [i]) hp else hp in
        with_slots (<[i := with_dirty DIRTY s]> (slots hp)) hp
      else hp
  | None => hp
  end.

Definition swap (a b : Handle) hp : Heap T P :=
  if (index a =? index b)%nat then hp
  else
    match slots hp !! index a, slots hp !! index b with
    | Some sa, Some sb =>
        match slot_get (generation a) sa, slot_get (generation b) sb with
        | Some va, Some vb =>
            let hp := with_slots (<[index a := with_value (Some vb) sa]>
                                    (<[index b := with_value (Some va) sb]> (slots hp))) hp in
            remember (index b) (remember (index a) hp)
        | _, _ => hp
        end
    | _, _ => hp
    end.

Definition is_live hp h : bool :=
  match slots hp !! index h with
  | Some s => slot_is_live s && (slot_generation s =? generation h)
  | None => false
  end.

(** The handles of the live slots of [l], which starts at slot [i]. *)
Fixpoint handles_from (keep : Slot T -> bool) (i : nat) (l : list (Slot T)) : list Handle :=
  match l with
  | [] => []
  | s :: l =>
      if slot_is_live s && keep s then MkHandle i (slot_generation s) :: handles_from keep (S i) l
      else handles_from keep (S i) l
  end.

Definition live_handles hp : list Handle := handles_from (fun _ => true) 0 (slots hp).
Definition handles_where (keep : Z -> bool) hp : list Handle :=
  handles_from (fun s => keep (age s)) 0 (slots hp).

Definition is_young hp h : bool :=
  match slots hp !! index h with
  | Some s => slot_is_live s && (slot_generation s =? generation h) && (age s <? OLD_AGE)
  | None => false
  end.

Definition promote_young (h : Handle) hp : bool * Heap T P :=
  match slots hp !! index h with
  | Some s =>
      if slot_is_live s && (slot_generation s =? generation h) && (age s <? OLD_AGE)
      then (true, with_slots (<[index h := with_age OLD_AGE s]> (slots hp)) hp)
      else (false, hp)
  | None => (false, hp)
  end.

Definition take_remembered hp : list nat * Heap T P := (remembered hp, with_remembered [] hp).

Definition live_handle_at (i : nat) hp : option Handle :=
  s ← slots hp !! i; if slot_is_live s then Some (MkHandle i (slot_generation s)) else None.

Definition handle_age hp h : option Z :=
  s ← slots hp !! index h;
  if slot_is_live s && (slot_generation s =? generation h) then Some (age s) else None.

Definition record_edge (container target : Handle) (old_age : Z) hp : Heap T P :=
  if match handle_age hp container with Some a => old_age <=? a | None => false end
     && match handle_age hp target with Some a => a <? old_age | None => false end
  then remember (index container) hp else hp.

Definition remembered_roots hp : list Handle :=
  omap (fun i => live_handle_at i hp) (remembered hp).

(** *** The sweep of a full collection *)

(** The fields of the heap a sweep borrows apart, and its count. *)
Record SweepState := MkSweep {
  sw_free : list nat;
  sw_remembered : list nat;
  sw_live : Z;
  sw_swept : Z;
  sw_poison : option PoisonState;
  sw_pool : P
}.

Definition poison_insert (h : Handle) (p : PoisonState) : PoisonState :=
  MkPoison ({[h]} ∪ freed p) (hits p) (panic_on_hit p).

(** One slot of the loop of [sweep]. *)
Definition sweep_slot (keep : Handle -> T -> bool) (sticky : T -> bool) (i : nat) s (st : SweepState)
    : Slot T * SweepState :=
  match value s with
  | None => (s, st)
  | Some v =>
      let h := MkHandle i (slot_generation s) in
      if keep h v then
        let s := with_age (Z.min 255 (age s + 1)) s in
        if sticky v then
          (with_dirty STICKY s,
           MkSweep (sw_free st) (sw_remembered st ++ [i]) (sw_live st) (sw_swept st)
             (sw_poison st) (sw_pool st))
        else (with_dirty CLEAN s, st)
      else
        match sw_poison st with
        | Some p =>
            (with_dirty CLEAN (with_age (Z.max (age s) OLD_AGE) s),
             MkSweep (sw_free st) (sw_remembered st) (sw_live st) (sw_swept st + 1)
               (Some (poison_insert h p)) (sw_pool st))
        | None =>
            let next_gen := as_u16 (slot_generation s + 1) in
            let '(s, pool) := vacate_release next_gen (sw_pool st) s in
            (s, MkSweep (if next_gen <? COMPACT_GEN_BASE then sw_free st ++ [i] else sw_free st)
                  (sw_remembered st) (sw_live st - 1) (sw_swept st + 1) None pool)
        end
  end.

Fixpoint sweep_loop (keep : Handle -> T -> bool) (sticky : T -> bool) (i : nat)
    (l : list (Slot T)) (st : SweepState) : list (Slot T) * SweepState :=
  match l with
  | [] => ([], st)
  | s :: l =>
      let '(s, st) := sweep_slot keep sticky i s st in
      let '(l, st) := sweep_loop keep sticky (S i) l st in (s :: l, st)
  end.

Definition sweep (keep : Handle -> T -> bool) (sticky : T -> bool) hp : Z * Heap T P :=
  let hp := fold_allocs hp in
  let '(l, st) :=
    sweep_loop keep sticky 0 (slots hp)
      (MkSweep (take (free_top hp) (free_list hp)) [] (live hp) 0 (poison hp) (extra_pool hp)) in
  (sw_swept st,
   MkHeap l (sw_free st) (sw_live st) (counted hp) (compact_gen hp) (length (sw_free st)) (length l)
     (sw_remembered st) (allocs_since_gc hp) (sw_poison st) (sw_pool st) (capacity hp) (proto_epoch hp)).

(** *** The sweep of a minor collection *)

(** [settle_young]: the slot, whether it goes back on the free list, the state
    (whose free list it leaves alone). *)
Definition settle_young (sticky : T -> bool) (i : nat) s (st : SweepState)
    : Slot T * bool * SweepState :=
  match value s with
  | None => (s, false, st)
  | Some v =>
      if OLD_AGE <=? age s then
        if (dirty s =? CLEAN) && sticky v then
          (with_dirty STICKY s, false,
           MkSweep (sw_free st) (sw_remembered st ++ [i]) (sw_live st) (sw_swept st)
             (sw_poison st) (sw_pool st))
        else (s, false, st)
      else
        match sw_poison st with
        | Some p =>
            (with_age OLD_AGE s, false,
             MkSweep (sw_free st) (sw_remembered st) (sw_live st) (sw_swept st + 1)
               (Some (poison_insert (MkHandle i (slot_generation s)) p)) (sw_pool st))
        | None =>
            let next_gen := as_u16 (slot_generation s + 1) in
            let '(s, pool) := vacate_release next_gen (sw_pool st) s in
            (s, next_gen <? COMPACT_GEN_BASE,
             MkSweep (sw_free st) (sw_remembered st) (sw_live st - 1) (sw_swept st + 1) None pool)
        end
  end.

(** The loop over the free-list entries consumed since the last collection: [es]
    are the entries still to read, [kept] those written back. *)
Fixpoint settle_entries (sticky : T -> bool) (es : list nat) (l : list (Slot T)) (kept : list nat)
    (st : SweepState) : list (Slot T) * list nat * SweepState :=
  match es with
  | [] => (l, kept, st)
  | i :: es =>
      match l !! i with
      | None => (l, kept, st)
      | Some s =>
          let '(s, back, st) := settle_young sticky i s st in
          settle_entries sticky es (<[i := s]> l) (if back then kept ++ [i] else kept) st
      end
  end.

(** The loop over the slots pushed since ([l] starts at slot [i]). *)
Fixpoint settle_pushed (sticky : T -> bool) (i : nat) (l : list (Slot T)) (st : SweepState)
    : list (Slot T) * SweepState :=
  match l with
  | [] => ([], st)
  | s :: l =>
      let '(s, back, st) := settle_young sticky i s st in
      let st := if back then MkSweep (sw_free st ++ [i]) (sw_remembered st) (sw_live st)
                               (sw_swept st) (sw_poison st) (sw_pool st) else st in
      let '(l, st) := settle_pushed sticky (S i) l st in (s :: l, st)
  end.

(** The loop over [rescanned]. *)
Fixpoint settle_rescanned (sticky : T -> bool) (rescanned : list nat) (l : list (Slot T))
    (rem : list nat) : list (Slot T) * list nat :=
  match rescanned with
  | [] => (l, rem)
  | i :: rescanned =>
      match l !! i with
      | None => (l, rem)
      | Some s =>
          match value s with
          | Some v =>
              if sticky v
              then settle_rescanned sticky rescanned (<[i := with_dirty STICKY s]> l) (rem ++ [i])
              else settle_rescanned sticky rescanned (<[i := with_dirty CLEAN s]> l) rem
          | None => settle_rescanned sticky rescanned (<[i := with_dirty CLEAN s]> l) rem
          end
      end
  end.

(** [sweep_young]'s loops in verification mode (and, equivalently, outside it). *)
Definition sweep_young_slow (sticky : T -> bool) (l : list (Slot T)) (rem : list nat) hp
    : Z * Heap T P :=
  let free := free_list hp in
  let '(l, kept, st) :=
    settle_entries sticky (drop (free_top hp) free) l (take (free_top hp) free)
      (MkSweep free rem (live hp) 0 (poison hp) (extra_pool hp)) in
  let st := MkSweep kept (sw_remembered st) (sw_live st) (sw_swept st) (sw_poison st) (sw_pool st) in
  let '(l', st) := settle_pushed sticky (young_floor hp) (drop (young_floor hp) l) st in
  let l := take (young_floor hp) l ++ l' in
  (sw_swept st,
   MkHeap l (sw_free st) (sw_live st) (counted hp) (compact_gen hp) (length (sw_free st)) (length l)
     (sw_remembered st) (allocs_since_gc hp) (sw_poison st) (sw_pool st) (capacity hp) (proto_epoch hp)).

Inductive Fate := Kept | Freed | Retired.

#[export] Instance Fate_eq_dec : EqDecision Fate.
Proof. solve_decision. Defined.

Definition settle_young_fast (sticky : T -> bool) (i : nat) s (rem : list nat) (pool : P)
    : Slot T * Fate * list nat * P :=
  match value s with
  | None => (s, Kept, rem, pool)
  | Some v =>
      if OLD_AGE <=? age s then
        if (dirty s =? CLEAN) && sticky v
        then (with_dirty STICKY s, Kept, rem ++ [i], pool)
        else (s, Kept, rem, pool)
      else
        let next_gen := as_u16 (slot_generation s + 1) in
        let '(s, pool) := vacate_release next_gen pool s in
        (s, if next_gen <? COMPACT_GEN_BASE then Freed else Retired, rem, pool)
  end.

(** [slice::copy_within]: [l[dst .. dst + (b - a)] = l[a .. b]]. *)
Definition copy_within (l : list nat) (a b dst : nat) : list nat :=
  take dst l ++ take (b - a) (drop a l) ++ drop (dst + (b - a)) l.

(** The inner [while] of [sweep_young_fast]: settles [free[r..n]] up to the first
    entry not freed again, whose fate it returns ([Freed]: none is left). *)
Fixpoint fast_run (fuel : nat) (sticky : T -> bool) (free : list nat) (n r : nat)
    (l : list (Slot T)) (rem : list nat) (pool : P)
    : nat * Fate * list (Slot T) * list nat * P :=
  match fuel with
  | O => (r, Freed, l, rem, pool)
  | S fuel =>
      if negb (r <? n)%nat then (r, Freed, l, rem, pool)
      else
        match free !! r with
        | None => (r, Freed, l, rem, pool)
        | Some i =>
            match l !! i with
            | None => (r, Freed, l, rem, pool)
            | Some s =>
                let '(s, fate, rem, pool) := settle_young_fast sticky i s rem pool in
                let l := <[i := s]> l in
                if bool_decide (fate = Freed)
                then fast_run fuel sticky free n (S r) l rem pool
                else (r, fate, l, rem, pool)
            end
        end
  end.

(** The outer [loop]: [gap] entries have left the list so far. *)
Fixpoint fast_entries (fuel : nat) (sticky : T -> bool) (free : list nat) (n r gap retired : nat)
    (l : list (Slot T)) (rem : list nat) (pool : P)
    : list nat * nat * nat * list (Slot T) * list nat * P :=
  match fuel with
  | O => (free, gap, retired, l, rem, pool)
  | S fuel =>
      let run := r in
      let '(r, fate, l, rem, pool) := fast_run (n - r) sticky free n r l rem pool in
      let free := if (0 <? gap)%nat && (run <? r)%nat then copy_within free run r (run - gap) else free in
      if (r =? n)%nat then (free, gap, retired, l, rem, pool)
      else
        let retired := if bool_decide (fate = Retired) then S retired else retired in
        fast_entries fuel sticky free n (S r) (S gap) retired l rem pool
  end.

Fixpoint fast_pushed (sticky : T -> bool) (i : nat) (l : list (Slot T)) (free : list nat)
    (retired : nat) (rem : list nat) (pool : P)
    : list (Slot T) * list nat * nat * list nat * P :=
  match l with
  | [] => ([], free, retired, rem, pool)
  | s :: l =>
      let '(s, fate, rem, pool) := settle_young_fast sticky i s rem pool in
      let free := if bool_decide (fate = Freed) then free ++ [i] else free in
      let retired := if bool_decide (fate = Retired) then S retired else retired in
      let '(l, free, retired, rem, pool) := fast_pushed sticky (S i) l free retired rem pool in
      (s :: l, free, retired, rem, pool)
  end.

Definition sweep_young_fast (sticky : T -> bool) (l : list (Slot T)) (free : list nat)
    (top floor : nat) (rem : list nat) (pool : P) : Z * list (Slot T) * list nat * list nat * P :=
  let n := length free in
  let '(free, gap, retired, l, rem, pool) :=
    fast_entries (S (n - top)) sticky free n top 0 0 l rem pool in
  let free := take (n - gap) free in
  let '(l', free, retired, rem, pool) := fast_pushed sticky floor (drop floor l) free retired rem pool in
  (Z.of_nat (length free) - Z.of_nat top + Z.of_nat retired, take floor l ++ l', free, rem, pool).

Definition sweep_young (rescanned : list nat) (sticky : T -> bool) hp : Z * Heap T P :=
  let hp := fold_allocs hp in
  let '(l, rem) := settle_rescanned sticky rescanned (slots hp) (remembered hp) in
  match poison hp with
  | None =>
      let '(swept, l, free, rem, pool) :=
        sweep_young_fast sticky l (free_list hp) (free_top hp) (young_floor hp) rem (extra_pool hp) in
      (swept,
       MkHeap l free (live hp - swept) (counted hp) (compact_gen hp) (length free) (length l)
         rem (allocs_since_gc hp) None pool (capacity hp) (proto_epoch hp))
  | Some _ => sweep_young_slow sticky l rem hp
  end.

(** *** Verification, compaction, explicit free *)

Definition find_young hp (es : list Handle) : option Handle := List.find (is_young hp) es.

(** One slot of [remembered_violation]: a violation, or nothing. *)
Definition slot_violation (edges : T -> list Handle) (head_edges : T -> nat -> list Handle)
    (sticky : T -> bool) hp (i : nat) s : option (Handle * Handle) :=
  match value s with
  | None => None
  | Some v =>
      let h := MkHandle i (slot_generation s) in
      if age s <? OLD_AGE then
        if negb (bool_decide (i ∈ drop (free_top hp) (free_list hp)) || (young_floor hp <=? i)%nat)
        then Some (h, h) else None
      else if dirty s =? APPENDED then
        t ← find_young hp (head_edges v (Z.to_nat (scan_from s))); Some (h, t)
      else if negb (dirty s =? CLEAN)
              || match poison hp with Some p => bool_decide (h ∈ freed p) | None => false end
      then None
      else if sticky v then Some (h, h)
      else t ← find_young hp (edges v); Some (h, t)
  end.

Fixpoint violation_from (edges : T -> list Handle) (head_edges : T -> nat -> list Handle)
    (sticky : T -> bool) hp (i : nat) (l : list (Slot T)) : option (Handle * Handle) :=
  match l with
  | [] => None
  | s :: l =>
      match slot_violation edges head_edges sticky hp i s with
      | Some r => Some r
      | None => violation_from edges head_edges sticky hp (S i) l
      end
  end.

Definition remembered_violation (edges : T -> list Handle) (head_edges : T -> nat -> list Handle)
    (sticky : T -> bool) hp : option (Handle * Handle) :=
  violation_from edges head_edges sticky hp 0 (slots hp).

(** The loop of [compact_to] over the old slots: the new slots, the forwarding
    map, the new vector's capacity. *)
Fixpoint compact_loop (keep : Handle -> bool) (new_gen : Z) (i : nat) (old : list (Slot T))
    (new_slots : list (Slot T)) (map : list (Handle * Handle)) (cap : nat)
    : list (Slot T) * list (Handle * Handle) * nat :=
  match old with
  | [] => (new_slots, map, cap)
  | s :: old =>
      match value s with
      | Some v =>
          let h := MkHandle i (slot_generation s) in
          if keep h then
            let cap := if (length new_slots =? cap)%nat then grow cap (length new_slots + 1) else cap in
            compact_loop keep new_gen (S i) old (new_slots ++ [slot_live new_gen (age s) v])
              (map ++ [(h, MkHandle (length new_slots) new_gen)]) cap
          else compact_loop keep new_gen (S i) old new_slots map cap
      | None => compact_loop keep new_gen (S i) old new_slots map cap
      end
  end.

(** Its last loop: every old object is remembered. *)
Fixpoint remember_old (i : nat) (l : list (Slot T)) : list (Slot T) * list nat :=
  match l with
  | [] => ([], [])
  | s :: l =>
      let '(l, rem) := remember_old (S i) l in
      if OLD_AGE <=? age s then (with_dirty DIRTY s :: l, i :: rem) else (s :: l, rem)
  end.

Definition compact_to (keep : Handle -> bool) hp : list (Handle * Handle) * Heap T P :=
  let new_gen := compact_gen hp in
  let '(new_slots, map, cap) := compact_loop keep new_gen 0 (slots hp) [] [] 0 in
  let '(new_slots, rem) := remember_old 0 new_slots in
  (map,
   MkHeap new_slots [] (Z.of_nat (length new_slots)) (allocs_since_gc hp)
     (Z.max (as_u16 (compact_gen hp + 1)) COMPACT_GEN_BASE) 0 0 rem
     (allocs_since_gc hp) (poison hp) (extra_pool hp) cap (proto_epoch hp)).

(** [Vec::insert]. *)
Definition vec_insert (k i : nat) (l : list nat) : list nat := take k l ++ i :: drop k l.

Definition free (h : Handle) hp : option T * Heap T P :=
  match poison hp with
  | Some p => (None, with_poison (Some (poison_insert h p)) hp)
  | None =>
      let hp := fold_allocs hp in
      match slots hp !! index h with
      | None => (None, hp)
      | Some s =>
          match value s with
          | Some v =>
              if slot_generation s =? generation h then
                let next_gen := as_u16 (slot_generation s + 1) in
                let retire := COMPACT_GEN_BASE <=? next_gen in
                let s' := MkSlot None next_gen (age s) 0 (dirty s) (scan_lo s) (scan_hi s) in
                let hp :=
                  if negb (dirty s =? CLEAN) then
                    with_remembered (List.filter (fun i => negb (i =? index h)%nat) (remembered hp))
                      (with_slots (<[index h := with_dirty CLEAN s']> (slots hp)) hp)
                  else with_slots (<[index h := s']> (slots hp)) hp in
                let hp :=
                  if negb retire
                  then with_free (vec_insert (free_top hp) (index h) (free_list hp))
                         (S (free_top hp)) (young_floor hp) hp
                  else hp in
                (Some v, with_counts (live hp - 1) (counted hp) (allocs_since_gc hp) hp)
              else (None, hp)
          | None => (None, hp)
          end
      end
  end.

End heap.
