(* ===== verification/HeapInv.v ===== *)
(** * The heap's invariant and its preservation

    What every operation of [Heap.v] keeps true: the free list names exactly the
    reusable vacant slots, the live count is exact, every young object is where
    the minor sweep looks for it, and the remembered set lists exactly the slots
    that are not clean, once each. *)

From S2P Require Import Prelude Heap.

Open Scope Z_scope.

Section inv.
Context {T P : Type} {trace : Trace T P}.

Implicit Types (s : Slot T) (hp : Heap T P) (h : Handle) (l : list (Slot T)).

(** ** The invariant *)

Record slot_ok s : Prop := {
  ok_gen : 0 <= slot_generation s < 65536;
  ok_age : 0 <= age s <= 255;
  ok_occupied : occupied s = if slot_is_live s then SLOT_OCCUPIED else 0;
  ok_vacant : value s = None -> dirty s = CLEAN;
  ok_dirty : dirty s = CLEAN \/ (OLD_AGE <= age s /\ (dirty s = DIRTY \/ dirty s = STICKY \/ dirty s = APPENDED))
}.

Definition count_live l : Z :=
  foldr (fun s n => (if slot_is_live s then 1 else 0) + n) 0 l.

#[local] Arguments count_live : simpl never.

(** A vacant slot that may be handed out again. *)
Definition reusable l (i : nat) : Prop :=
  exists s, l !! i = Some s /\ value s = None /\ slot_generation s < COMPACT_GEN_BASE.

(** The remembered set is the list [rem]: the slots that are not clean. *)
Definition rem_ok (rem : list nat) l : Prop :=
  NoDup rem /\ forall i, i ∈ rem <-> exists s, l !! i = Some s /\ dirty s <> CLEAN.

(** All but the remembered set (which a minor collection takes out meanwhile). *)
Record wf0 hp : Prop := {
  wf_bound : Z.of_nat (length (slots hp)) <= U32_MAX;
  wf_slot : forall i s, slots hp !! i = Some s -> slot_ok s;
  wf_top : (free_top hp <= length (free_list hp))%nat;
  wf_entries : forall i, i ∈ free_list hp -> (i < length (slots hp))%nat;
  wf_nodup : NoDup (take (free_top hp) (free_list hp));
  wf_free : forall i, i ∈ take (free_top hp) (free_list hp) <-> reusable (slots hp) i;
  wf_count : len hp = count_live (slots hp);
  wf_counted : 0 <= counted hp <= allocs_since_gc hp;
  wf_floor : (young_floor hp <= length (slots hp))%nat;
  wf_young : forall i s, slots hp !! i = Some s -> slot_is_live s = true -> age s < OLD_AGE ->
               i ∈ drop (free_top hp) (free_list hp) \/ (young_floor hp <= i)%nat;
  wf_gen : COMPACT_GEN_BASE <= compact_gen hp < 65536
}.

Definition wf hp : Prop := wf0 hp /\ rem_ok (remembered hp) (slots hp).

(** ** Counting *)

Definition live1 s : Z := if slot_is_live s then 1 else 0.

Lemma count_live_cons s l : count_live (s :: l) = live1 s + count_live l.
Proof. reflexivity. Qed.

Lemma count_live_app l l' : count_live (l ++ l') = count_live l + count_live l'.
Proof. induction l as [|s l IH]; cbn [app]; rewrite ?count_live_cons; [done|]. lia. Qed.

Lemma count_live_insert l i s s' : l !! i = Some s ->
  count_live (<[i := s']> l) = count_live l - live1 s + live1 s'.
Proof.
  revert i. induction l as [|x l IH]; intros [|i] H; cbn in H; try done.
  - injection H as ->. cbn [insert list_insert]. rewrite !count_live_cons. lia.
  - change (<[S i := s']> (x :: l)) with (x :: <[i := s']> l). rewrite !count_live_cons, (IH i) by done. lia.
Qed.

Lemma count_live_vacant n : count_live (replicate n slot_vacant) = 0.
Proof. induction n as [|n IH]; [done|]. cbn [replicate]. rewrite count_live_cons, IH. done. Qed.

Lemma count_live_nonneg l : 0 <= count_live l.
Proof. induction l as [|s l IH]; [done|]. rewrite count_live_cons. unfold live1. destruct (slot_is_live s); lia. Qed.

Lemma live_value s : slot_is_live s = true <-> exists v, value s = Some v.
Proof. unfold slot_is_live. destruct (value s); naive_solver. Qed.

Lemma vacant_value s : slot_is_live s = false <-> value s = None.
Proof. unfold slot_is_live. destruct (value s); naive_solver. Qed.

(** ** Updating one live slot

    Every borrow, store and mark replaces a live slot by a live one of the same
    generation that is no younger. *)

Lemma wf0_update hp i s s' : wf0 hp -> slots hp !! i = Some s ->
  slot_is_live s = true -> slot_is_live s' = true -> slot_ok s' ->
  (age s' < OLD_AGE -> age s < OLD_AGE) ->
  wf0 (with_slots (<[i := s']> (slots hp)) hp).
Proof.
  intros W Hi Hl Hl' Hok Hage. pose proof (lookup_lt_Some _ _ _ Hi) as Hlt.
  assert (Hre : forall j, reusable (<[i := s']> (slots hp)) j <-> reusable (slots hp) j).
  { intros j. unfold reusable. destruct (decide (i = j)) as [<-|Hn].
    - rewrite list_lookup_insert_eq by done. apply live_value in Hl as [v Hv]. apply live_value in Hl' as [v' Hv'].
      split; intros (x & Hx & Hn & _); rewrite ?Hi in Hx; injection Hx as <-; congruence.
    - by rewrite list_lookup_insert_ne. }
  destruct W. split; cbn; rewrite ?length_insert; try done.
  - intros j x Hj. destruct (decide (i = j)) as [<-|Hn].
    + rewrite list_lookup_insert_eq in Hj by done. by injection Hj as <-.
    + rewrite list_lookup_insert_ne in Hj by done. eauto.
  - intros j. rewrite Hre. auto.
  - unfold len in *. cbn. rewrite (count_live_insert _ _ s) by done. unfold live1. rewrite Hl, Hl'. lia.
  - intros j x Hj Hx Ha. destruct (decide (i = j)) as [<-|Hn].
    + rewrite list_lookup_insert_eq in Hj by done. injection Hj as <-. eauto.
    + rewrite list_lookup_insert_ne in Hj by done. eauto.
Qed.

Lemma wf0_with_remembered hp rem : wf0 hp -> wf0 (with_remembered rem hp).
Proof. intros []. by split. Qed.

Lemma wf0_with_poison hp p : wf0 hp -> wf0 (with_poison p hp).
Proof. intros []. by split. Qed.

Lemma wf0_with_capacity hp c e : wf0 hp -> wf0 (with_capacity c e hp).
Proof. intros []. by split. Qed.

(** A slot that stays (un)clean keeps the remembered set. *)
Lemma rem_ok_same rem l i s s' : rem_ok rem l -> l !! i = Some s ->
  (dirty s = CLEAN <-> dirty s' = CLEAN) -> rem_ok rem (<[i := s']> l).
Proof.
  intros [Hn Hr] Hi Hd. split; [done|]. intros j. rewrite Hr.
  pose proof (lookup_lt_Some _ _ _ Hi). destruct (decide (i = j)) as [<-|Hij].
  - rewrite list_lookup_insert_eq by done. naive_solver.
  - by rewrite list_lookup_insert_ne.
Qed.

(** A clean slot that is dirtied enters it. *)
Lemma rem_ok_enter rem l i s s' : rem_ok rem l -> l !! i = Some s ->
  dirty s = CLEAN -> dirty s' <> CLEAN -> rem_ok (rem ++ [i]) (<[i := s']> l).
Proof.
  intros [Hn Hr] Hi Hd Hd'. pose proof (lookup_lt_Some _ _ _ Hi). split.
  - apply NoDup_app. split_and!; [done| |apply NoDup_singleton].
    intros j Hj Hj'. apply list_elem_of_singleton in Hj' as ->. apply Hr in Hj. naive_solver.
  - intros j. rewrite elem_of_app, Hr, list_elem_of_singleton.
    destruct (decide (i = j)) as [<-|Hij].
    + rewrite list_lookup_insert_eq by done. naive_solver.
    + rewrite list_lookup_insert_ne by done. naive_solver.
Qed.

Lemma barrier_test s : slot_ok s ->
  (Z.lor (dirty s) APPENDED =? APPENDED) = true <-> dirty s = CLEAN \/ dirty s = APPENDED.
Proof.
  intros [_ _ _ _ [->|[_ [->|[->| ->]]]]]; cbn; unfold CLEAN, APPENDED, DIRTY, STICKY; naive_solver lia.
Qed.

(** ** Borrows, stores and the write barrier *)

(** [slot_ok] of a live slot rebuilt field by field. *)
Lemma slot_ok_live s s' : slot_ok s -> slot_is_live s = true -> slot_is_live s' = true ->
  slot_generation s' = slot_generation s -> 0 <= age s' <= 255 -> occupied s' = occupied s ->
  (dirty s' = CLEAN \/ (OLD_AGE <= age s' /\ (dirty s' = DIRTY \/ dirty s' = STICKY \/ dirty s' = APPENDED))) ->
  slot_ok s'.
Proof.
  intros [] Hl Hl' Hg Ha Ho Hd. split; [congruence|done| | |done].
  - rewrite Ho, Hl'. by rewrite Hl in ok_occupied0.
  - intros E. apply vacant_value in E. congruence.
Qed.

Lemma wf_live_slot hp i s s' rem : wf0 hp -> rem_ok rem (slots hp) -> slots hp !! i = Some s ->
  slot_is_live s = true -> slot_is_live s' = true ->
  slot_generation s' = slot_generation s -> age s' = age s -> occupied s' = occupied s ->
  (dirty s' = dirty s \/ OLD_AGE <= age s /\ (dirty s' = DIRTY \/ dirty s' = APPENDED)) ->
  wf0 (with_slots (<[i := s']> (slots hp)) hp) /\
  rem_ok (if (dirty s =? CLEAN) && negb (dirty s' =? CLEAN) then rem ++ [i] else rem) (<[i := s']> (slots hp)).
Proof.
  intros W R Hi Hl Hl' Hg Ha Ho Hd. pose proof (wf_slot _ W _ _ Hi) as Hok.
  assert (Hok' : slot_ok s').
  { apply (slot_ok_live s); try done; rewrite ?Ha; [apply Hok|].
    destruct Hd as [->|[? [->| ->]]]; [apply Hok|tauto..]. }
  split; [apply (wf0_update hp i s); [done..|by rewrite Ha]|].
  destruct (Z.eqb_spec (dirty s) CLEAN) as [E|E], (Z.eqb_spec (dirty s') CLEAN) as [E'|E']; cbn [andb negb].
  - by apply (rem_ok_same _ _ _ s).
  - by apply (rem_ok_enter _ _ _ s).
  - exfalso. destruct Hd as [Hd|[_ [Hd|Hd]]]; unfold CLEAN, DIRTY, APPENDED in *; congruence.
  - by apply (rem_ok_same _ _ _ s).
Qed.

(** The shape every borrowing operation ends with. *)
Lemma wf_store hp i s s' : wf hp -> slots hp !! i = Some s ->
  slot_is_live s = true -> slot_is_live s' = true ->
  slot_generation s' = slot_generation s -> age s' = age s -> occupied s' = occupied s ->
  (dirty s' = dirty s \/ OLD_AGE <= age s /\ (dirty s' = DIRTY \/ dirty s' = APPENDED)) ->
  let hp' := if (dirty s =? CLEAN) && negb (dirty s' =? CLEAN)
             then with_remembered (remembered hp ++ [i]) hp else hp in
  wf (with_slots (<[i := s']> (slots hp')) hp').
Proof.
  intros [W R] Hi Hl Hl' Hg Ha Ho Hd.
  destruct (wf_live_slot hp i s s' (remembered hp)) as [W' R']; [done..|].
  cbn zeta. destruct ((dirty s =? CLEAN) && negb (dirty s' =? CLEAN)); [|by split].
  split; [|exact R']. exact (wf0_with_remembered _ (remembered hp ++ [i]) W').
Qed.

Lemma note_poison_use_wf hp hp' h : wf hp -> note_poison_use h hp = Some hp' -> wf hp'.
Proof.
  unfold note_poison_use. intros W. destruct (poison hp); [|by intros [= <-]].
  case_bool_decide; [|by intros [= <-]]. destruct (panic_on_hit p); [done|].
  intros [= <-]. destruct W. split; [by apply wf0_with_poison|done].
Qed.

Lemma peek_mut_wf hp h f : wf hp -> wf (peek_mut h f hp).2.
Proof.
  intros W. unfold peek_mut. destruct (slots hp !! index h) as [s|] eqn:Hi; [|done].
  destruct (negb _); [done|]. destruct (value s) as [v|] eqn:Hv; [|done].
  assert (Hl : slot_is_live s = true) by (apply live_value; eauto).
  destruct (_ && _) eqn:E; cbn [snd].
  - apply andb_true_iff in E as [_ Ea]. apply Z.leb_le in Ea.
    pose proof (wf_store hp (index h) s (with_value (Some (f v)) (with_dirty DIRTY s)) W Hi) as H.
    cbn in H. rewrite andb_true_r in H. apply H; auto.
  - pose proof (wf_store hp (index h) s (with_value (Some (f v)) s) W Hi) as H.
    cbn in H. rewrite andb_negb_r in H. apply H; auto.
Qed.

Lemma gc_verify_cases hp hp' h : wf hp ->
  (if gc_verify hp then note_poison_use h hp else Some hp) = Some hp' -> wf hp'.
Proof. destruct (gc_verify hp); [apply note_poison_use_wf|]. by intros W [= <-]. Qed.

Lemma get_mut_wf hp hp' h f b : wf hp -> get_mut h f hp = Some (b, hp') -> wf hp'.
Proof.
  unfold get_mut. intros W. destruct (if gc_verify hp then _ else _) as [hp1|] eqn:E; [|done].
  cbn. intros [= E1]. replace hp' with (peek_mut h f hp1).2 by (by rewrite E1).
  apply peek_mut_wf. by eapply gc_verify_cases.
Qed.

Lemma get_wf hp hp' h r : wf hp -> get hp h = Some (r, hp') -> wf hp'.
Proof.
  unfold get. intros W. destruct (if gc_verify hp then _ else _) as [hp1|] eqn:E; [|done].
  cbn. intros [= _ <-]. by eapply gc_verify_cases.
Qed.

Lemma get_mut_append_wf hp hp' h from f b : wf hp -> get_mut_append h from f hp = Some (b, hp') -> wf hp'.
Proof.
  unfold get_mut_append. intros W0. destruct (if gc_verify hp then _ else _) as [hp1|] eqn:E; [|done].
  cbn [mbind option_bind]. apply gc_verify_cases in E as W; [clear E W0|done].
  destruct (slots hp1 !! index h) as [s|] eqn:Hi; [|by intros [= _ <-]].
  destruct (negb _); [by intros [= _ <-]|]. destruct (value s) as [v|] eqn:Hv; [|by intros [= _ <-]].
  assert (Hl : slot_is_live s = true) by (apply live_value; eauto).
  pose proof (wf_store hp1 (index h) s) as H.
  assert (Hsame : wf (with_slots (<[index h := with_value (Some (f v)) s]> (slots hp1)) hp1)).
  { specialize (H (with_value (Some (f v)) s) W Hi). cbn in H. rewrite andb_negb_r in H. apply H; auto. }
  destruct (_ && (OLD_AGE <=? age s)) eqn:E; [|by intros [= _ <-]].
  destruct (_ && (scan_from s <? _)); [by intros [= _ <-]|].
  apply andb_true_iff in E as [_ Ea]. apply Z.leb_le in Ea.
  destruct (_ <=? SCAN_MAX); intros [= _ <-].
  - specialize (H (with_value (Some (f v)) (with_scan (as_u16 (Z.of_nat (from v)))
       (as_u8 (Z.shiftr (Z.of_nat (from v)) 16)) (with_dirty APPENDED s))) W Hi).
    cbn in H. rewrite andb_true_r in H. apply H; auto.
  - specialize (H (with_value (Some (f v)) (with_dirty DIRTY s)) W Hi).
    cbn in H. rewrite andb_true_r in H. apply H; auto.
Qed.

Lemma remember_wf hp i : wf hp -> wf (remember i hp).
Proof.
  intros W. unfold remember. destruct (slots hp !! i) as [s|] eqn:Hi; [|done].
  destruct (_ && _) eqn:E; [|done]. apply andb_true_iff in E as [E Ea].
  apply andb_true_iff in E as [Hl _]. apply Z.leb_le in Ea.
  pose proof (wf_store hp i s (with_dirty DIRTY s) W Hi) as H.
  cbn in H. rewrite andb_true_r in H. apply H; auto.
Qed.

Lemma swap_wf hp a b : wf hp -> wf (swap a b hp).
Proof.
  intros W. unfold swap. destruct (Nat.eqb_spec (index a) (index b)) as [|Hn]; [done|].
  destruct (slots hp !! index a) as [sa|] eqn:Ha; [|done].
  destruct (slots hp !! index b) as [sb|] eqn:Hb; [|done]. unfold slot_get.
  destruct (slot_generation sa =? generation a); [|done].
  destruct (value sa) as [va|] eqn:Va; [|done].
  destruct (slot_generation sb =? generation b); [|done].
  destruct (value sb) as [vb|] eqn:Vb; [|done].
  assert (La : slot_is_live sa = true) by (apply live_value; eauto).
  assert (Lb : slot_is_live sb = true) by (apply live_value; eauto).
  do 2 apply remember_wf.
  pose proof (wf_store hp (index b) sb (with_value (Some va) sb) W Hb) as H.
  cbn in H. rewrite andb_negb_r in H. specialize (H Lb eq_refl eq_refl eq_refl eq_refl (or_introl eq_refl)).
  pose proof (wf_store _ (index a) sa (with_value (Some vb) sa) H) as H2.
  cbn in H2. rewrite andb_negb_r, list_lookup_insert_ne in H2 by done.
  exact (H2 Ha La eq_refl eq_refl eq_refl eq_refl (or_introl eq_refl)).
Qed.

Lemma record_edge_wf hp c t a : wf hp -> wf (record_edge c t a hp).
Proof. intros W. unfold record_edge. destruct (_ && _); [by apply remember_wf|done]. Qed.

(** Marking in a minor collection keeps the invariant around the remembered set
    it has taken out. *)
Lemma promote_young_wf hp h rem : wf0 hp -> rem_ok rem (slots hp) ->
  wf0 (promote_young h hp).2 /\ rem_ok rem (slots (promote_young h hp).2).
Proof.
  intros W R. unfold promote_young. destruct (slots hp !! index h) as [s|] eqn:Hi; [|done].
  destruct (_ && (age s <? OLD_AGE)) eqn:E; [|done]. apply andb_true_iff in E as [E _].
  apply andb_true_iff in E as [Hl _]. cbn [snd].
  pose proof (wf_slot _ W _ _ Hi) as Hok. split.
  - apply (wf0_update hp (index h) s); try done. apply (slot_ok_live s); try done.
    cbn. unfold OLD_AGE. destruct Hok as [_ _ _ _ [->|[_ Hd]]]; [by left|right; split; [lia|done]].
  - by apply (rem_ok_same _ _ _ s).
Qed.

(** ** Counters *)

Lemma fold_allocs_wf0 hp : wf0 hp -> wf0 (fold_allocs hp).
Proof.
  intros []. split; try done.
  - unfold len in *. cbn. lia.
  - cbn. lia.
Qed.

Lemma fold_allocs_wf hp : wf hp -> wf (fold_allocs hp).
Proof. intros []. split; [by apply fold_allocs_wf0|done]. Qed.

Lemma reset_alloc_pressure_wf hp : wf hp -> wf (reset_alloc_pressure hp).
Proof.
  intros [W R]. split; [|done]. apply fold_allocs_wf0 in W as []. split; try done.
  rewrite <- wf_count0 at 1. unfold len. cbn. lia.
Qed.


(** ** Allocation *)

Lemma slot_vacant_ok : slot_ok (@slot_vacant T).
Proof. by split; cbn; try lia; try (left; reflexivity). Qed.

Lemma lookup_vacant n i s : replicate n (@slot_vacant T) !! i = Some s -> s = slot_vacant.
Proof. by intros [-> _]%lookup_replicate. Qed.

Lemma top_up_wf n hp c e : wf hp -> young_floor hp = length (slots hp) ->
  Z.of_nat (length (slots hp) + n) <= U32_MAX ->
  wf (with_capacity c e
        (with_free (rev (seq (length (slots hp)) n) ++ free_list hp) (free_top hp + n)
           (length (slots hp) + n)
           (with_slots (slots hp ++ replicate n slot_vacant) hp))).
Proof.
  intros [W R] Hfl Hb. destruct W.
  assert (Hlen : length (rev (seq (length (slots hp)) n)) = n) by (by rewrite length_rev, length_seq).
  assert (Htake : take (free_top hp + n) (rev (seq (length (slots hp)) n) ++ free_list hp) =
            rev (seq (length (slots hp)) n) ++ take (free_top hp) (free_list hp)).
  { rewrite take_app_ge by lia. f_equal. f_equal. lia. }
  assert (Hdrop : drop (free_top hp + n) (rev (seq (length (slots hp)) n) ++ free_list hp) =
            drop (free_top hp) (free_list hp)).
  { rewrite drop_app_ge by lia. f_equal. lia. }
  assert (Hin : forall i, i ∈ rev (seq (length (slots hp)) n) <-> (length (slots hp) <= i < length (slots hp) + n)%nat).
  { intros i. rewrite list_elem_of_In, <- in_rev, in_seq. reflexivity. }
  split; [split; cbn; rewrite ?Htake, ?Hdrop, ?length_app, ?length_replicate, ?length_app|].
  - done.
  - intros i s Hi. apply lookup_app_Some in Hi as [Hi|[_ Hi]]; [eauto|].
    apply lookup_vacant in Hi as ->. apply slot_vacant_ok.
  - lia.
  - intros i [Hi|Hi]%elem_of_app; [apply Hin in Hi; lia|]. apply wf_entries0 in Hi. lia.
  - apply NoDup_app. split_and!; [|intros i Hi Hi'|done].
    + apply NoDup_ListNoDup, NoDup_rev, seq_NoDup.
    + apply Hin in Hi. apply elem_of_take in Hi' as (k & Hi' & _).
      apply list_elem_of_lookup_2, wf_entries0 in Hi'. lia.
  - intros i. rewrite elem_of_app, Hin, wf_free0. unfold reusable. split.
    + intros [Hi|(s & Hs & Hv)].
      * exists slot_vacant. rewrite lookup_app_r by lia. split_and!; [|done|reflexivity].
        apply lookup_replicate_2. lia.
      * exists s. split; [|done]. by apply lookup_app_l_Some.
    + intros (s & Hs & Hv). apply lookup_app_Some in Hs as [Hs|[Hge Hs]]; [eauto|].
      apply lookup_lt_Some in Hs. rewrite length_replicate in Hs. left. lia.
  - change (len hp = count_live (slots hp ++ replicate n slot_vacant)).
    rewrite count_live_app, count_live_vacant. lia.
  - done.
  - lia.
  - intros i s Hi Hl Ha. apply lookup_app_Some in Hi as [Hi|[_ Hi]].
    + destruct (wf_young0 i s Hi Hl Ha) as [|Hge]; [by left|]. apply lookup_lt_Some in Hi. lia.
    + apply lookup_vacant in Hi as ->. done.
  - done.
  - destruct R as [Hn Hr]. split; cbn; [done|]. intros i. rewrite Hr. split.
    + intros (s & Hs & Hd). exists s. split; [|done]. by apply lookup_app_l_Some.
    + intros (s & Hs & Hd). apply lookup_app_Some in Hs as [Hs|[_ Hs]]; [eauto|].
      apply lookup_vacant in Hs as ->. done.
Qed.

(** Vacant slots at the end are invisible to a handle. *)
Lemma peek_app_vacant hp n h : peek (with_slots (slots hp ++ replicate n slot_vacant) hp) h = peek hp h.
Proof.
  unfold peek. cbn. destruct (slots hp !! index h) as [s|] eqn:E.
  - by rewrite (lookup_app_l_Some _ _ _ _ E).
  - apply lookup_ge_None in E. rewrite lookup_app_r by done.
    destruct (replicate n slot_vacant !! _) as [s|] eqn:E'; [|done].
    apply lookup_vacant in E' as ->. cbn. unfold slot_get. by case_bools.
Qed.

(** The free-list path of [alloc]: the popped slot is vacant and reusable. *)
Lemma pop_free hp : wf0 hp -> (0 < free_top hp)%nat ->
  exists i s, free_list hp !! (free_top hp - 1)%nat = Some i /\ slots hp !! i = Some s /\
    value s = None /\ slot_generation s < COMPACT_GEN_BASE /\
    take (free_top hp) (free_list hp) = take (free_top hp - 1) (free_list hp) ++ [i] /\
    drop (free_top hp - 1) (free_list hp) = i :: drop (free_top hp) (free_list hp).
Proof.
  intros W H. pose proof (wf_top _ W) as Ht.
  destruct (lookup_lt_is_Some_2 (free_list hp) (free_top hp - 1)) as [i Hi]; [lia|].
  assert (Htake : take (free_top hp) (free_list hp) = take (free_top hp - 1) (free_list hp) ++ [i]).
  { replace (free_top hp) with (S (free_top hp - 1)) at 1 by lia. by apply take_S_r. }
  destruct (proj1 (wf_free _ W i)) as (s & Hs & Hv & Hg).
  { rewrite Htake. apply elem_of_app. right. by apply list_elem_of_singleton. }
  exists i, s. split_and!; try done.
  rewrite (drop_S _ i) by done. f_equal. f_equal. lia.
Qed.

Definition alloc_slot s (v : T) : Slot T :=
  MkSlot (Some v) (slot_generation s) 0 SLOT_OCCUPIED (dirty s) (scan_lo s) (scan_hi s).

Lemma alloc_pop_wf hp i s v al : wf hp -> (0 < free_top hp)%nat ->
  free_list hp !! (free_top hp - 1)%nat = Some i -> slots hp !! i = Some s -> value s = None ->
  take (free_top hp) (free_list hp) = take (free_top hp - 1) (free_list hp) ++ [i] ->
  drop (free_top hp - 1) (free_list hp) = i :: drop (free_top hp) (free_list hp) ->
  counted hp <= al -> live hp + (al - counted hp) = len hp + 1 ->
  wf (with_counts (live hp) (counted hp) al
       (with_slots (<[i := alloc_slot s v]> (slots hp))
          (with_free (free_list hp) (free_top hp - 1) (young_floor hp) hp))).
Proof.
  intros [W R] Ht Hi Hs Hv Etake Edrop Hc Hal.
  pose proof (lookup_lt_Some _ _ _ Hs) as Hlt. pose proof (wf_slot _ W _ _ Hs) as Hok.
  assert (Hclean : dirty s = CLEAN) by (by apply (ok_vacant _ Hok)).
  destruct W. rewrite Etake in wf_nodup0. apply NoDup_app in wf_nodup0 as (Nd & Nx & _).
  split; [split; cbn; rewrite ?length_insert; try done|].
  - intros j x Hj. destruct (decide (i = j)) as [<-|Hn].
    + rewrite list_lookup_insert_eq in Hj by done. injection Hj as <-.
      split; cbn; try done; [apply Hok|by left].
    + rewrite list_lookup_insert_ne in Hj by done. eauto.
  - lia.
  - intros j. split.
    + intros Hj. assert (Hn : i <> j).
      { intros <-. apply (Nx i Hj). by apply list_elem_of_singleton. }
      unfold reusable. rewrite list_lookup_insert_ne by done. apply wf_free0.
      rewrite Etake. apply elem_of_app. by left.
    + intros (x & Hx & Hxv & Hg). assert (Hn : i <> j).
      { intros <-. rewrite list_lookup_insert_eq in Hx by done. by injection Hx as <-. }
      rewrite list_lookup_insert_ne in Hx by done.
      assert (Hj : j ∈ take (free_top hp) (free_list hp)) by (apply wf_free0; by exists x).
      rewrite Etake in Hj. apply elem_of_app in Hj as [|Hj]; [done|].
      apply list_elem_of_singleton in Hj as ->. done.
  - rewrite (count_live_insert _ _ s) by done.
    assert (E0 : live1 s = 0) by (unfold live1; by rewrite (proj2 (vacant_value s) Hv)).
    change (live1 (alloc_slot s v)) with 1. rewrite <- wf_count0, E0. unfold len in *. cbn. lia.
  - lia.
  - rewrite Edrop. intros j x Hj Hx Ha. destruct (decide (i = j)) as [<-|Hn].
    + left. apply list_elem_of_here.
    + rewrite list_lookup_insert_ne in Hj by done.
      destruct (wf_young0 j x Hj Hx Ha) as [|]; [left; by apply list_elem_of_further|by right].
  - cbn. apply (rem_ok_same _ _ _ s); [done..|]. cbn. tauto.
Qed.

Lemma alloc_push_wf hp v al c e : wf hp -> free_top hp = 0%nat ->
  Z.of_nat (length (slots hp)) < U32_MAX ->
  counted hp <= al -> live hp + (al - counted hp) = len hp + 1 ->
  wf (with_counts (live hp) (counted hp) al
        (with_capacity c e (with_slots (slots hp ++ [slot_live 0 0 v]) hp))).
Proof.
  intros [W R] Ht Hb Hc Hal. destruct W. rewrite Ht in *.
  assert (Hlast : forall i s, (slots hp ++ [slot_live 0 0 v]) !! i = Some s ->
            slots hp !! i = Some s \/ i = length (slots hp) /\ s = slot_live 0 0 v).
  { intros i s Hi. apply lookup_app_Some in Hi as [|[Hge Hi]]; [by left|right].
    apply list_lookup_singleton_Some in Hi as [Hi <-]. split; [lia|done]. }
  split; [split; cbn; rewrite ?Ht, ?length_app; cbn [length]; try done|].
  - lia.
  - intros i s [Hi|[_ ->]]%Hlast; [eauto|]. split; cbn; try done. by left.
  - intros i Hi. apply wf_entries0 in Hi. lia.
  - intros i. rewrite wf_free0. split.
    + intros (s & Hs & Hv). exists s. split; [|done]. by apply lookup_app_l_Some.
    + intros (s & [Hs|[_ ->]]%Hlast & Hv); [by exists s|]. by destruct Hv.
  - rewrite count_live_app. change (count_live [slot_live 0 0 v]) with 1. unfold len in *. cbn. lia.
  - lia.
  - lia.
  - intros i s [Hi|[-> ->]]%Hlast Hl Ha; [|by right]. by eapply wf_young0.
  - destruct R as [Hn Hr]. split; cbn; [done|]. intros i. rewrite Hr. split.
    + intros (s & Hs & Hd). exists s. split; [|done]. by apply lookup_app_l_Some.
    + intros (s & [Hs|[_ ->]]%Hlast & Hd); [by exists s|]. done.
Qed.

Context (grow : nat -> nat -> nat).

Lemma reserve_fields n hp : exists c e, reserve grow n hp = with_capacity c e hp.
Proof.
  unfold reserve. case_bools; [eauto|]. exists (capacity hp), (proto_epoch hp). by destruct hp.
Qed.

(** What [top_up_free] does when it does anything. *)
Lemma top_up_free_cases add hp : wf hp ->
  top_up_free grow add hp = hp \/
  exists n c e, young_floor hp = length (slots hp) /\ (0 < n <= add)%nat /\
    Z.of_nat (length (slots hp) + n) <= U32_MAX /\
    top_up_free grow add hp =
      with_capacity c e
        (with_free (rev (seq (length (slots hp)) n) ++ free_list hp) (free_top hp + n)
           (length (slots hp) + n)
           (with_slots (slots hp ++ replicate n slot_vacant) hp)).
Proof.
  intros [W _]. unfold top_up_free. destruct (Nat.eqb_spec (young_floor hp) (length (slots hp))) as [E|E]; [|by left].
  cbn [negb]. set (n := Z.to_nat _). destruct (Nat.eqb_spec n 0) as [|Hn]; [by left|]. right.
  destruct (reserve_fields n hp) as (c & e & Er). rewrite Er. exists n, c, e.
  split_and!; [done|lia|unfold n; lia|unfold n; lia|].
  unfold with_free, with_capacity, with_slots. cbn. by rewrite length_app, length_replicate.
Qed.

Lemma top_up_free_wf add hp : wf hp -> wf (top_up_free grow add hp).
Proof.
  intros W. destruct (top_up_free_cases add hp W) as [->|(n & c & e & Hf & _ & Hb & ->)]; [done|].
  by apply top_up_wf.
Qed.

Lemma reserve_free_wf n hp : wf hp -> wf (reserve_free grow n hp).
Proof. unfold reserve_free. intros W. destruct (_ || _); [done|]. by apply top_up_free_wf. Qed.

Lemma reserve_wf n hp : wf hp -> wf (reserve grow n hp).
Proof.
  intros [W R]. destruct (reserve_fields n hp) as (c & e & ->). split; [by apply wf0_with_capacity|done].
Qed.

Lemma top_up_free_peek add hp h : wf hp -> peek (top_up_free grow add hp) h = peek hp h.
Proof.
  intros W. destruct (top_up_free_cases add hp W) as [->|(n & c & e & _ & _ & _ & ->)]; [done|].
  apply peek_app_vacant.
Qed.

Lemma top_up_free_len add hp : wf hp -> len (top_up_free grow add hp) = len hp.
Proof.
  intros W. by destruct (top_up_free_cases add hp W) as [->|(n & c & e & _ & _ & _ & ->)].
Qed.

(** [alloc] once the free list has been topped up. *)
Lemma alloc_core hp v : wf hp -> (0 < free_top hp)%nat \/ Z.of_nat (length (slots hp)) < U32_MAX ->
  forall al, counted hp <= al -> live hp + (al - counted hp) = len hp + 1 ->
  forall hp0, hp0 = with_counts (live hp) (counted hp) al hp ->
  exists h hp',
    (if (0 <? free_top hp0)%nat then
       let top := (free_top hp0 - 1)%nat in
       let hp := with_free (free_list hp0) top (young_floor hp0) hp0 in
       i ← free_list hp !! top;
       s ← slots hp !! i;
       Some (MkHandle i (slot_generation s), with_slots (<[i := alloc_slot s v]> (slots hp)) hp)
     else
       let i := length (slots hp0) in
       if Z.of_nat i <? U32_MAX then
         let hp :=
           if (length (slots hp0) =? capacity hp0)%nat
           then with_capacity (grow (capacity hp0) (length (slots hp0) + 1)) (as_u64 (proto_epoch hp0 + 1)) hp0
           else hp0 in
         Some (MkHandle i 0, with_slots (slots hp ++ [slot_live 0 0 v]) hp)
       else None) = Some (h, hp') /\
    wf hp' /\ peek hp h = None /\ peek hp' h = Some v /\
    (forall h', h' <> h -> peek hp' h' = peek hp h') /\ len hp' = len hp + 1 /\ is_young hp' h = true.
Proof.
  intros W Hroom al Hc Hal hp0 ->. cbn [free_top slots with_counts free_list young_floor capacity proto_epoch].
  destruct (Nat.ltb_spec 0 (free_top hp)) as [Ht|Ht].
  - destruct (pop_free hp (proj1 W) Ht) as (i & s & Hi & Hs & Hv & Hg & Et & Ed).
    cbn zeta. cbn [free_list slots with_free with_counts]. rewrite Hi. cbn [mbind option_bind]. rewrite Hs.
    pose proof (lookup_lt_Some _ _ _ Hs) as Hlt.
    eexists _, _. split; [reflexivity|]. split; [exact (alloc_pop_wf hp i s v al W Ht Hi Hs Hv Et Ed Hc Hal)|].
    unfold peek, is_young. cbn. rewrite Hs, list_lookup_insert_eq by done. unfold slot_get. cbn.
    rewrite Z.eqb_refl, Hv. split_and!; try done.
    intros [j g] Hne. cbn. destruct (decide (i = j)) as [<-|Hn].
    + rewrite list_lookup_insert_eq, Hs by done. cbn. rewrite Hv. destruct (Z.eqb_spec (slot_generation s) g) as [<-|]; done.
    + by rewrite list_lookup_insert_ne.
  - assert (Ht' : free_top hp = 0%nat) by lia.
    destruct (Z.ltb_spec (Z.of_nat (length (slots hp))) U32_MAX) as [Hb|Hb]; [|lia].
    eexists _, _. split; [reflexivity|].
    split; [|split; [|split; [|split; [|split]]]].
    + pose proof (fun c e => alloc_push_wf hp v al c e W Ht' Hb Hc Hal) as H.
      destruct (_ =? _)%nat; [apply H|]. specialize (H (capacity hp) (proto_epoch hp)).
      by destruct hp.
    + unfold peek. cbn. by rewrite lookup_ge_None_2.
    + unfold peek. destruct (_ =? _)%nat; cbn; by rewrite list_lookup_middle.
    + intros [j g] Hne. unfold peek.
      assert (E : slots (if (length (slots hp) =? capacity hp)%nat
           then with_capacity (grow (capacity hp) (length (slots hp) + 1)) (as_u64 (proto_epoch hp + 1))
                  (with_counts (live hp) (counted hp) al hp)
           else with_counts (live hp) (counted hp) al hp) = slots hp) by (by destruct (_ =? _)%nat).
      cbn [slots with_slots index generation]. rewrite E.
      destruct (decide (j < length (slots hp))%nat).
      * by rewrite lookup_app_l.
      * rewrite lookup_app_r, (lookup_ge_None_2 (slots hp) j) by lia.
        destruct (j - length (slots hp))%nat as [|k] eqn:Ej; [|done]. cbn. unfold slot_get.
        change (slot_generation (slot_live 0 0 v)) with 0. destruct (Z.eqb_spec 0 g) as [<-|]; [|done]. exfalso. apply Hne. f_equal. lia.
    + unfold len in *. destruct (_ =? _)%nat; cbn; lia.
    + unfold is_young. destruct (_ =? _)%nat; cbn; by rewrite list_lookup_middle.
Qed.

Lemma alloc_correct hp v : wf hp ->
  (0 < free_top hp)%nat \/ Z.of_nat (length (slots hp)) < U32_MAX ->
  exists h hp', alloc grow v hp = Some (h, hp') /\
    wf hp' /\ peek hp h = None /\ peek hp' h = Some v /\
    (forall h', h' <> h -> peek hp' h' = peek hp h') /\ len hp' = len hp + 1 /\ is_young hp' h = true.
Proof.
  intros W Hroom. set (al := allocs_since_gc hp + 1).
  assert (Hc : counted hp <= al) by (unfold al; pose proof (wf_counted _ (proj1 W)); lia).
  set (cond := (free_top hp =? 0)%nat && (young_floor hp =? length (slots hp))%nat && (0 <? young_floor hp)%nat).
  set (add := nat_clamp (length (slots hp) / 8) FREE_TOP_UP_MIN FREE_TOP_UP_MAX).
  set (hp1 := if cond then top_up_free grow add hp else hp).
  assert (W1 : wf hp1) by (unfold hp1; destruct cond; [by apply top_up_free_wf|done]).
  assert (L1 : len hp1 = len hp /\ forall h, peek hp1 h = peek hp h).
  { unfold hp1. destruct cond; [|done]. split; [by apply top_up_free_len|intros; by apply top_up_free_peek]. }
  assert (F1 : live hp1 = live hp /\ counted hp1 = counted hp /\
               ((0 < free_top hp1)%nat \/ Z.of_nat (length (slots hp1)) < U32_MAX)).
  { unfold hp1. destruct cond; [|done].
    destruct (top_up_free_cases add hp W) as [->|(n & c & e & _ & Hn & _ & ->)]; [done|].
    cbn. split_and!; try done. left. lia. }
  destruct L1 as [L1 P1]. destruct F1 as (F1 & F2 & F3).
  destruct (alloc_core hp1 v W1 F3 al ltac:(congruence)) with (hp0 := with_counts (live hp1) (counted hp1) al hp1)
    as (h & hp' & E & W' & N & V & O & L & Y).
  - rewrite F1, F2, L1. unfold al, len. lia.
  - done.
  - exists h, hp'. split_and!; try done; [|congruence|intros; rewrite O, P1; done|congruence].
    rewrite <- E. unfold alloc. fold al. cbn [free_top with_counts young_floor slots]. fold cond add.
    assert (E1 : (if cond then top_up_free grow add (with_counts (live hp) (counted hp) al hp)
              else with_counts (live hp) (counted hp) al hp) = with_counts (live hp1) (counted hp1) al hp1).
    { unfold hp1. destruct cond; [|done]. unfold top_up_free, reserve. cbn.
      case_bools; reflexivity. }
    by rewrite E1.
Qed.

Lemma top_up_counts n lv c al hp :
  top_up_free grow n (with_counts lv c al hp) = with_counts lv c al (top_up_free grow n hp).
Proof.
  unfold top_up_free, reserve. cbn. case_bools; reflexivity.
Qed.

Lemma alloc_room hp v r : wf hp -> alloc grow v hp = Some r ->
  (0 < free_top hp)%nat \/ Z.of_nat (length (slots hp)) < U32_MAX.
Proof.
  intros W E. destruct (decide (0 < free_top hp)%nat) as [|Ht]; [by left|right].
  destruct (Z.lt_ge_cases (Z.of_nat (length (slots hp))) U32_MAX) as [|Hb]; [done|]. exfalso.
  revert E. unfold alloc. cbn [free_top with_counts young_floor slots].
  set (n := nat_clamp _ _ _). set (cond := _ && _ && _).
  assert (Et : (if cond then top_up_free grow n (with_counts (live hp) (counted hp) (allocs_since_gc hp + 1) hp)
            else with_counts (live hp) (counted hp) (allocs_since_gc hp + 1) hp) =
            with_counts (live hp) (counted hp) (allocs_since_gc hp + 1) hp).
  { destruct cond; [|done]. rewrite top_up_counts.
    destruct (top_up_free_cases n hp W) as [->|(k & c & e & _ & Hk & Hle & _)]; [done|lia]. }
  rewrite Et. cbn [free_top with_counts slots].
  rewrite (proj2 (Nat.ltb_ge 0 (free_top hp))) by lia. by rewrite (proj2 (Z.ltb_ge _ _)).
Qed.

(** The slots [alloc] leaves: it may first have added vacant ones. *)
Lemma alloc_cases hp v h hp' : wf hp -> alloc grow v hp = Some (h, hp') ->
  exists hp1, wf hp1 /\ (hp1 = hp \/ exists n, hp1 = top_up_free grow n hp) /\ poison hp' = poison hp1 /\
    ((exists s, slots hp1 !! index h = Some s /\ value s = None /\ slot_generation s < COMPACT_GEN_BASE /\
        slots hp' = <[index h := alloc_slot s v]> (slots hp1)) \/
     (index h = length (slots hp1) /\ slots hp' = slots hp1 ++ [slot_live 0 0 v])).
Proof.
  intros W. unfold alloc. cbn [free_top with_counts young_floor slots live counted allocs_since_gc].
  set (n := nat_clamp _ _ _). set (cond := _ && _ && _).
  set (hp1 := if cond then top_up_free grow n hp else hp).
  assert (E : (if cond then top_up_free grow n (with_counts (live hp) (counted hp) (allocs_since_gc hp + 1) hp)
            else with_counts (live hp) (counted hp) (allocs_since_gc hp + 1) hp) =
            with_counts (live hp) (counted hp) (allocs_since_gc hp + 1) hp1).
  { unfold hp1. destruct cond; [apply top_up_counts|done]. }
  rewrite E. clear E. intros E. exists hp1.
  assert (W1 : wf hp1) by (unfold hp1; destruct cond; [by apply top_up_free_wf|done]).
  split; [done|]. split; [unfold hp1; destruct cond; eauto|].
  clearbody hp1. clear cond n. cbn [free_top with_counts slots capacity] in E.
  destruct (Nat.ltb_spec 0 (free_top hp1)) as [Ht|_].
  - destruct (pop_free hp1 (proj1 W1) Ht) as (i & s & Hi & Hs & Hv & Hg & _).
    cbn zeta in E. cbn [free_list slots with_free with_counts] in E. rewrite Hi in E. cbn [mbind option_bind] in E.
    rewrite Hs in E. cbn in E. injection E as <- <-. split; [done|]. left. exists s. done.
  - destruct (_ <? U32_MAX); [|done]. injection E as <- <-.
    split; [by destruct (_ =? _)%nat|]. right. split; [done|]. by destruct (_ =? _)%nat.
Qed.

End inv.
