(* ===== verification/HeapSweep.v ===== *)
(** * Freeing: [free], the full sweep, the minor sweep and compaction

    The invariant of [HeapInv.v] through the operations that reclaim slots, what
    each of them does to every handle, and the equivalence of the minor sweep's
    optimised loops with the plain ones. *)

From S2P Require Import Prelude Heap HeapInv.

Open Scope Z_scope.

Section sweep.
Context {T P : Type} {trace : Trace T P}.

Implicit Types (s : Slot T) (hp : Heap T P) (h : Handle) (l : list (Slot T)).

#[local] Arguments count_live : simpl never.

(** ** Explicit free *)

Lemma rem_ok_leave rem l i s s' : rem_ok rem l -> l !! i = Some s -> dirty s' = CLEAN ->
  rem_ok (List.filter (fun j => negb (j =? i)%nat) rem) (<[i := s']> l).
Proof.
  intros [Hn Hr] Hi Hd. pose proof (lookup_lt_Some _ _ _ Hi). split.
  - apply NoDup_ListNoDup, List.NoDup_filter. by apply NoDup_ListNoDup.
  - intros j. rewrite list_elem_of_In, filter_In, <- list_elem_of_In, Hr, negb_true_iff, Nat.eqb_neq.
    destruct (decide (i = j)) as [<-|Hij].
    + rewrite list_lookup_insert_eq by done. naive_solver.
    + rewrite list_lookup_insert_ne by done. naive_solver.
Qed.

Lemma free_poisoned hp h p : poison hp = Some p ->
  free h hp = (None, with_poison (Some (poison_insert h p)) hp).
Proof. unfold free. by intros ->. Qed.

Lemma free_stale hp h : poison hp = None -> peek hp h = None ->
  free h hp = (None, fold_allocs hp).
Proof.
  unfold free, peek, slot_get. intros -> H. cbn [slots fold_allocs with_counts].
  destruct (slots hp !! index h) as [s|]; [|done]. cbn in H.
  destruct (slot_generation s =? generation h); destruct (value s); done.
Qed.

(** The heap [free] leaves when it frees the slot [s] at [i]. *)
Definition freed_slot s : Slot T :=
  MkSlot None (as_u16 (slot_generation s + 1)) (age s) 0 CLEAN (scan_lo s) (scan_hi s).

Definition freed_heap hp (i : nat) s : Heap T P :=
  let retire := COMPACT_GEN_BASE <=? as_u16 (slot_generation s + 1) in
  MkHeap (<[i := freed_slot s]> (slots hp))
    (if retire then free_list hp else vec_insert (free_top hp) i (free_list hp))
    (len hp - 1) (allocs_since_gc hp) (compact_gen hp)
    (if retire then free_top hp else S (free_top hp)) (young_floor hp)
    (if dirty s =? CLEAN then remembered hp
     else List.filter (fun j => negb (j =? i)%nat) (remembered hp))
    (allocs_since_gc hp) (poison hp) (extra_pool hp) (capacity hp) (proto_epoch hp).

Lemma free_live hp h v : poison hp = None -> peek hp h = Some v ->
  exists s, slots hp !! index h = Some s /\ value s = Some v /\ slot_generation s = generation h /\
    free h hp = (Some v, freed_heap hp (index h) s).
Proof.
  unfold free, peek, slot_get. intros E H. rewrite E. cbn [slots fold_allocs with_counts].
  destruct (slots hp !! index h) as [s|]; [|done]. cbn in H.
  destruct (Z.eqb_spec (slot_generation s) (generation h)) as [Eg|]; [|done].
  exists s. split_and!; [done..|]. rewrite H. f_equal.
  unfold freed_heap, with_free, with_counts, with_slots, with_remembered, len. cbn.
  destruct (Z.eqb_spec (dirty s) CLEAN) as [Ed|Ed]; cbn;
    destruct (COMPACT_GEN_BASE <=? _) eqn:Er; cbn; unfold freed_slot, with_dirty; cbn; rewrite ?Ed; done.
Qed.

Lemma as_u16_range z : 0 <= as_u16 z < 65536.
Proof. apply Z.mod_pos_bound. done. Qed.

Lemma freed_slot_ok s : slot_ok s -> slot_ok (freed_slot s).
Proof.
  intros []. split; cbn; try done; [apply as_u16_range|by left].
Qed.

(** Which slots are reusable once live slot [i] is vacated. *)
Lemma reusable_freed l i s j : l !! i = Some s -> slot_is_live s = true ->
  reusable (<[i := freed_slot s]> l) j <->
    reusable l j \/ (j = i /\ as_u16 (slot_generation s + 1) < COMPACT_GEN_BASE).
Proof.
  intros Hi Hl. pose proof (lookup_lt_Some _ _ _ Hi). unfold reusable.
  apply live_value in Hl as [v Hv]. destruct (decide (i = j)) as [<-|Hij].
  - rewrite list_lookup_insert_eq, Hi by done. split.
    + intros (x & [= <-] & _ & Hg). by right.
    + intros [(x & [= <-] & Hx & _)|[_ Hg]]; [congruence|]. by exists (freed_slot s).
  - rewrite list_lookup_insert_ne by done. split; [by left|]. intros [|[-> _]]; done.
Qed.

Lemma freed_heap_wf hp i s : wf hp -> slots hp !! i = Some s -> slot_is_live s = true ->
  wf (freed_heap hp i s).
Proof.
  intros [W R] Hi Hl. pose proof (lookup_lt_Some _ _ _ Hi) as Hlt.
  pose proof (wf_slot _ W _ _ Hi) as Hok. destruct W.
  assert (Hnew : i ∉ take (free_top hp) (free_list hp)).
  { intros (x & Hx & Hv & _)%wf_free. rewrite Hi in Hx. injection Hx as <-.
    apply live_value in Hl as [? ?]. congruence. }
  assert (Ht : take (S (free_top hp)) (vec_insert (free_top hp) i (free_list hp)) =
               take (free_top hp) (free_list hp) ++ [i]).
  { unfold vec_insert. rewrite take_app_ge by (rewrite length_take; lia). rewrite length_take.
    replace (S (free_top hp) - free_top hp `min` length (free_list hp))%nat with 1%nat by lia. done. }
  assert (Hd : drop (S (free_top hp)) (vec_insert (free_top hp) i (free_list hp)) =
               drop (free_top hp) (free_list hp)).
  { unfold vec_insert. rewrite drop_app_ge by (rewrite length_take; lia). rewrite length_take.
    replace (S (free_top hp) - free_top hp `min` length (free_list hp))%nat with 1%nat by lia. done. }
  split; [split; cbn; rewrite ?length_insert; try done|].
  - intros j x Hj. destruct (decide (i = j)) as [<-|Hn].
    + rewrite list_lookup_insert_eq in Hj by done. injection Hj as <-. by apply freed_slot_ok.
    + rewrite list_lookup_insert_ne in Hj by done. eauto.
  - case_bools; [done|]. unfold vec_insert. rewrite length_app, length_take. cbn. rewrite length_drop. lia.
  - case_bools; [done|]. unfold vec_insert. intros j [Hj|Hj]%elem_of_app.
    + apply wf_entries. by eapply elem_of_take_in.
    + apply elem_of_cons in Hj as [->|Hj]; [done|]. apply wf_entries. by eapply elem_of_drop_in.
  - case_bools; [done|]. rewrite Ht. apply NoDup_app. split_and!; [done| |apply NoDup_singleton].
    intros j Hj Hj'. by apply list_elem_of_singleton in Hj' as ->.
  - intros j. rewrite reusable_freed, <- wf_free by done.
    destruct (Z.leb_spec COMPACT_GEN_BASE (as_u16 (slot_generation s + 1))) as [Hr|Hr].
    + split; [by left|]. intros [|[_ ?]]; [done|lia].
    + rewrite Ht, elem_of_app, list_elem_of_singleton. naive_solver.
  - rewrite (count_live_insert _ _ s) by done. change (live1 (freed_slot s)) with 0.
    unfold live1. rewrite Hl, <- wf_count.
    change (len (freed_heap hp i s)) with (len hp - 1 + (allocs_since_gc hp - allocs_since_gc hp)). lia.
  - lia.
  - intros j x Hj Hx Ha. destruct (decide (i = j)) as [<-|Hn].
    + rewrite list_lookup_insert_eq in Hj by done. by injection Hj as <-.
    + rewrite list_lookup_insert_ne in Hj by done. destruct (wf_young j x Hj Hx Ha); [left|by right].
      case_bools; [done|]. by rewrite Hd.
  - cbn. destruct (Z.eqb_spec (dirty s) CLEAN) as [Ed|Ed].
    + by apply (rem_ok_same _ _ _ s).
    + by apply (rem_ok_leave _ _ _ s).
Qed.

Lemma free_wf hp h : wf hp -> wf (free h hp).2.
Proof.
  intros W. destruct (poison hp) as [p|] eqn:E.
  { rewrite (free_poisoned _ _ p) by done. destruct W. split; [by apply wf0_with_poison|done]. }
  destruct (peek hp h) as [v|] eqn:Hp.
  - destruct (free_live _ _ _ E Hp) as (s & Hs & Hv & _ & ->). apply freed_heap_wf; [done..|].
    apply live_value. eauto.
  - rewrite free_stale by done. by apply fold_allocs_wf.
Qed.

(** A vacated slot answers no handle; the others answer as before. *)
Lemma peek_freed l i s h : l !! i = Some s -> slot_is_live s = true ->
  (s' ← <[i := freed_slot s]> l !! index h; slot_get (generation h) s') =
  if (index h =? i)%nat then None else s' ← l !! index h; slot_get (generation h) s'.
Proof.
  intros Hi Hl. pose proof (lookup_lt_Some _ _ _ Hi). destruct (Nat.eqb_spec (index h) i) as [->|Hn].
  - rewrite list_lookup_insert_eq by done. cbn. unfold slot_get. by case_bools.
  - by rewrite list_lookup_insert_ne.
Qed.

(** ** The full sweep *)

Lemma vacate_release_eq gen pool s :
  vacate_release gen pool s =
    (MkSlot None gen (age s) 0 CLEAN (scan_lo s) (scan_hi s), snd (release_in (value s) pool)).
Proof.
  unfold vacate_release. pose proof (release_in_empties (value s) pool) as H.
  destruct (release_in (value s) pool) as [v pool']. cbn in *. by subst.
Qed.

(** What the loop does to one slot, its effect on the shared state apart. *)
Definition swept_slot (keep : Handle -> T -> bool) (sticky : T -> bool) (pz : bool) (i : nat) s : Slot T :=
  match value s with
  | None => s
  | Some v =>
      if keep (MkHandle i (slot_generation s)) v
      then with_dirty (if sticky v then STICKY else CLEAN) (with_age (Z.min 255 (age s + 1)) s)
      else if pz then with_dirty CLEAN (with_age (Z.max (age s) OLD_AGE) s)
      else freed_slot s
  end.

Definition doomed (keep : Handle -> T -> bool) (i : nat) s : bool :=
  match value s with Some v => negb (keep (MkHandle i (slot_generation s)) v) | None => false end.

Definition recycled (keep : Handle -> T -> bool) (i : nat) s : bool :=
  doomed keep i s && (as_u16 (slot_generation s + 1) <? COMPACT_GEN_BASE).

Definition kept_sticky (keep : Handle -> T -> bool) (sticky : T -> bool) (i : nat) s : bool :=
  match value s with Some v => keep (MkHandle i (slot_generation s)) v && sticky v | None => false end.

Fixpoint idx_where (p : nat -> Slot T -> bool) (i : nat) l : list nat :=
  match l with
  | [] => []
  | s :: l => if p i s then i :: idx_where p (S i) l else idx_where p (S i) l
  end.

Fixpoint slots_map (f : nat -> Slot T -> Slot T) (i : nat) l : list (Slot T) :=
  match l with
  | [] => []
  | s :: l => f i s :: slots_map f (S i) l
  end.

Lemma elem_of_idx_where p i l j :
  j ∈ idx_where p i l <-> exists k s, l !! k = Some s /\ j = (i + k)%nat /\ p j s = true.
Proof.
  revert i. induction l as [|s l IH]; intros i; cbn [idx_where].
  - split; [by intros ?%not_elem_of_nil|]. intros (k & s & H & _). by rewrite lookup_nil in H.
  - destruct (p i s) eqn:E.
    + rewrite elem_of_cons, IH. split.
      * intros [->|(k & x & Hk & -> & Hp)]; [exists 0%nat, s; split_and!; done || lia|].
        exists (S k), x. split_and!; [done|lia|]. by replace (i + S k)%nat with (S i + k)%nat by lia.
      * intros ([|k] & x & Hk & -> & Hp); [left; lia|right]. exists k, x. cbn in Hk.
        replace (i + S k)%nat with (S i + k)%nat in * by lia. done.
    + rewrite IH. split.
      * intros (k & x & Hk & -> & Hp). exists (S k), x. split_and!; [done|lia|].
        by replace (i + S k)%nat with (S i + k)%nat by lia.
      * intros ([|k] & x & Hk & -> & Hp); cbn in Hk.
        -- rewrite Nat.add_0_r in Hp. congruence.
        -- exists k, x. replace (i + S k)%nat with (S i + k)%nat in * by lia. done.
Qed.

Lemma elem_of_idx_where_0 p l j : j ∈ idx_where p 0 l <-> exists s, l !! j = Some s /\ p j s = true.
Proof.
  rewrite elem_of_idx_where. split.
  - intros (k & s & H & -> & Hp). by exists s.
  - intros (s & H & Hp). by exists j, s.
Qed.

Lemma NoDup_idx_where p i l : NoDup (idx_where p i l).
Proof.
  revert i. induction l as [|s l IH]; intros i; cbn [idx_where]; [apply NoDup_nil_2|].
  destruct (p i s); [|done]. apply NoDup_cons. split; [|done].
  intros (k & x & _ & E & _)%elem_of_idx_where. lia.
Qed.

Lemma slots_map_lookup f i l k : slots_map f i l !! k = f (i + k)%nat <$> l !! k.
Proof.
  revert i k. induction l as [|s l IH]; intros i [|k]; cbn [slots_map]; try done.
  - cbn. by rewrite Nat.add_0_r.
  - cbn [lookup list_lookup]. change (slots_map f (S i) l !! k = f (i + S k)%nat <$> l !! k).
    rewrite IH. by replace (S i + k)%nat with (i + S k)%nat by lia.
Qed.

Lemma slots_map_length f i l : length (slots_map f i l) = length l.
Proof. revert i. induction l; intros; cbn; auto. Qed.

Lemma idx_where_app_ext p q i l : (forall j s, p j s = q j s) -> idx_where p i l = idx_where q i l.
Proof. intros H. revert i. induction l as [|s l IH]; intros i; cbn; [done|]. by rewrite H, IH. Qed.

Definition is_poisoned (p : option PoisonState) : bool := match p with Some _ => true | None => false end.

Lemma sweep_loop_spec keep sticky i l st :
  let pz := is_poisoned (sw_poison st) in
  let r := sweep_loop keep sticky i l st in
  r.1 = slots_map (swept_slot keep sticky pz) i l /\
  sw_free r.2 = sw_free st ++ (if pz then [] else idx_where (recycled keep) i l) /\
  sw_remembered r.2 = sw_remembered st ++ idx_where (kept_sticky keep sticky) i l /\
  sw_swept r.2 = sw_swept st + Z.of_nat (length (idx_where (doomed keep) i l)) /\
  sw_live r.2 = sw_live st - (if pz then 0 else Z.of_nat (length (idx_where (doomed keep) i l))) /\
  is_poisoned (sw_poison r.2) = pz.
Proof.
  revert i st. induction l as [|s l IH]; intros i st; cbn zeta.
  { cbn. rewrite !app_nil_r. split_and!; try done; [by case_bools; rewrite app_nil_r|lia|case_bools; lia]. }
  cbn [sweep_loop slots_map idx_where]. unfold sweep_slot, swept_slot at 1, recycled at 1, kept_sticky at 1.
  assert (Ed : doomed keep i s = match value s with
    Some v => negb (keep (MkHandle i (slot_generation s)) v) | None => false end) by done.
  rewrite !Ed. clear Ed. destruct (value s) as [v|] eqn:Hv.
  2: { specialize (IH (S i) st). cbn zeta in IH. destruct (sweep_loop _ _ _ _ _) as [l' st'].
       cbn [fst snd andb] in *. destruct IH as (-> & H). split; [done|exact H]. }
  destruct (keep (MkHandle i (slot_generation s)) v); cbn [andb negb].
  - destruct (sticky v).
    + specialize (IH (S i) (MkSweep (sw_free st) (sw_remembered st ++ [i]) (sw_live st) (sw_swept st)
        (sw_poison st) (sw_pool st))). cbn zeta in IH. destruct (sweep_loop _ _ _ _ _) as [l' st'].
      cbn [fst snd sw_free sw_remembered sw_live sw_swept sw_poison] in *.
      destruct IH as (-> & -> & -> & H). rewrite <- app_assoc. split_and!; [done..|apply H|apply H|apply H].
    + specialize (IH (S i) st). cbn zeta in IH. destruct (sweep_loop _ _ _ _ _) as [l' st'].
      cbn [fst snd] in *. destruct IH as (-> & H). split; [done|exact H].
  - destruct (sw_poison st) as [p|] eqn:Hp.
    + specialize (IH (S i) (MkSweep (sw_free st) (sw_remembered st) (sw_live st) (sw_swept st + 1)
        (Some (poison_insert (MkHandle i (slot_generation s)) p)) (sw_pool st))).
      cbn zeta in IH. destruct (sweep_loop _ _ _ _ _) as [l' st'].
      cbn [fst snd sw_free sw_remembered sw_live sw_swept sw_poison is_poisoned] in *.
      destruct IH as (-> & -> & -> & -> & -> & H). split_and!; try done; cbn [length]; lia.
    + rewrite vacate_release_eq.
      specialize (IH (S i) (MkSweep (if as_u16 (slot_generation s + 1) <? COMPACT_GEN_BASE then sw_free st ++ [i] else sw_free st)
        (sw_remembered st) (sw_live st - 1) (sw_swept st + 1) None (snd (release_in (value s) (sw_pool st))))).
      cbn zeta in IH. destruct (sweep_loop _ _ _ _ _) as [l' st'].
      cbn [fst snd sw_free sw_remembered sw_live sw_swept sw_poison is_poisoned] in *.
      destruct IH as (-> & -> & -> & -> & -> & H).
      split_and!; try done; [|cbn [length]; lia|cbn [length]; lia].
      by destruct (_ <? COMPACT_GEN_BASE); rewrite <- ?app_assoc.
Qed.

Lemma swept_slot_cases keep sticky pz i s : slot_ok s ->
  (value s = None /\ swept_slot keep sticky pz i s = s) \/
  (exists v, value s = Some v /\ value (swept_slot keep sticky pz i s) = Some v /\
     slot_generation (swept_slot keep sticky pz i s) = slot_generation s /\
     OLD_AGE <= age (swept_slot keep sticky pz i s) /\ slot_ok (swept_slot keep sticky pz i s) /\
     (doomed keep i s = false \/ pz = true) /\
     (dirty (swept_slot keep sticky pz i s) <> CLEAN <-> kept_sticky keep sticky i s = true)) \/
  (exists v, value s = Some v /\ pz = false /\ doomed keep i s = true /\
     swept_slot keep sticky pz i s = freed_slot s).
Proof.
  intros Hok. unfold swept_slot, doomed, kept_sticky. destruct (value s) as [v|] eqn:Hv; [right|by left].
  assert (Hl : slot_is_live s = true) by (apply live_value; eauto).
  pose proof (ok_age _ Hok) as Ha. unfold OLD_AGE in *.
  destruct (keep _ v) eqn:Ek; cbn [negb andb].
  - left. exists v. split_and!; cbn; try done.
    + lia.
    + apply (slot_ok_live s); cbn; try done; [lia|].
      destruct (sticky v); [right; unfold OLD_AGE; split; [lia|tauto]|by left].
    + by left.
    + destruct (sticky v); split; done.
  - destruct pz; [left|right; by exists v]. exists v. split_and!; cbn; try done.
    + lia.
    + apply (slot_ok_live s); cbn; try done; [lia|by left].
    + by right.
Qed.

Lemma count_live_swept keep sticky pz i l : (forall k s, l !! k = Some s -> slot_ok s) ->
  count_live (slots_map (swept_slot keep sticky pz) i l) =
  count_live l - (if pz then 0 else Z.of_nat (length (idx_where (doomed keep) i l))).
Proof.
  revert i. induction l as [|s l IH]; intros i Hok; cbn [slots_map idx_where]; [by destruct pz|].
  rewrite !count_live_cons, IH by (intros k x Hk; exact (Hok (S k) x Hk)).
  pose proof (Hok 0%nat s eq_refl) as Hs. unfold live1, slot_is_live.
  destruct (swept_slot_cases keep sticky pz i s Hs) as [[Hv ->]|[(v & Hv & -> & _ & _ & _ & Hd & _)|(v & Hv & -> & Hd & ->)]].
  - rewrite Hv. unfold doomed at 2. rewrite Hv. destruct pz; lia.
  - rewrite Hv. destruct pz; [lia|]. destruct Hd as [->|]; [lia|done].
  - rewrite Hv, Hd. cbn [length value freed_slot]. lia.
Qed.

(** [sweep] in closed form. *)
Definition swept_heap (keep : Handle -> T -> bool) (sticky : T -> bool) hp (pz : option PoisonState)
    (pool : P) : Heap T P :=
  let p := is_poisoned (poison hp) in
  let fr := take (free_top hp) (free_list hp) ++ (if p then [] else idx_where (recycled keep) 0 (slots hp)) in
  MkHeap (slots_map (swept_slot keep sticky p) 0 (slots hp)) fr
    (len hp - (if p then 0 else Z.of_nat (length (idx_where (doomed keep) 0 (slots hp)))))
    (allocs_since_gc hp) (compact_gen hp) (length fr) (length (slots hp))
    (idx_where (kept_sticky keep sticky) 0 (slots hp)) (allocs_since_gc hp) pz pool
    (capacity hp) (proto_epoch hp).

Lemma sweep_eq keep sticky hp :
  exists pz pool, is_poisoned pz = is_poisoned (poison hp) /\
    sweep keep sticky hp =
      (Z.of_nat (length (idx_where (doomed keep) 0 (slots hp))), swept_heap keep sticky hp pz pool).
Proof.
  unfold sweep. cbn [slots fold_allocs with_counts free_top free_list live poison extra_pool].
  set (st := MkSweep _ _ _ _ _ _).
  pose proof (sweep_loop_spec keep sticky 0 (slots hp) st) as H. cbn zeta in H.
  destruct (sweep_loop keep sticky 0 (slots hp) st) as [l st'].
  cbn [fst snd st sw_free sw_remembered sw_live sw_swept sw_poison] in H.
  destruct H as (-> & Hf & Hr & Hs & Hl & Hp). exists (sw_poison st'), (sw_pool st'). split; [done|].
  unfold swept_heap. rewrite Hf, Hr, Hs, Hl, slots_map_length. done.
Qed.

Lemma swept_heap_wf keep sticky hp pz pool : wf hp -> wf (swept_heap keep sticky hp pz pool).
Proof.
  intros [W R]. pose proof (wf_slot _ W) as Hok.
  unfold swept_heap. set (p := is_poisoned (poison hp)).
  assert (Hlook : forall j x, slots_map (swept_slot keep sticky p) 0 (slots hp) !! j = Some x ->
            exists s, slots hp !! j = Some s /\ x = swept_slot keep sticky p j s).
  { intros j x Hj. rewrite slots_map_lookup in Hj. destruct (slots hp !! j) as [s|]; [|done].
    injection Hj as <-. eauto. }
  assert (Hlook' : forall j s, slots hp !! j = Some s ->
            slots_map (swept_slot keep sticky p) 0 (slots hp) !! j = Some (swept_slot keep sticky p j s)).
  { intros j s Hj. by rewrite slots_map_lookup, Hj. }
  assert (Hrec : forall j, j ∈ (if p then [] else idx_where (recycled keep) 0 (slots hp)) <->
            p = false /\ exists s, slots hp !! j = Some s /\ recycled keep j s = true).
  { intros j. destruct p; [|rewrite elem_of_idx_where_0; naive_solver].
    split; [by intros ?%not_elem_of_nil|by intros []]. }
  assert (Hlive_rec : forall j s, slots hp !! j = Some s -> recycled keep j s = true -> slot_is_live s = true).
  { intros j s _ H. unfold recycled, doomed in H. unfold slot_is_live. by destruct (value s). }
  destruct W. split; [split; cbn; rewrite ?slots_map_length; try done|split; cbn].
  - intros j x (s & Hs & ->)%Hlook.
    destruct (swept_slot_cases keep sticky p j s (Hok _ _ Hs))
      as [[_ ->]|[(v & _ & _ & _ & _ & ? & _)|(v & _ & _ & _ & ->)]];
      [eauto|done|apply freed_slot_ok; eauto].
  - intros j [Hj|Hj]%elem_of_app.
    + apply wf_entries. by eapply elem_of_take_in.
    + apply Hrec in Hj as (_ & s & Hs & _). by eapply lookup_lt_Some.
  - rewrite take_ge by done. apply NoDup_app. split_and!; [done| |].
    + intros j Hj Hj'. apply Hrec in Hj' as (_ & s & Hs & Hre).
      apply wf_free in Hj as (x & Hx & Hv & _). rewrite Hs in Hx. injection Hx as <-.
      pose proof (Hlive_rec _ _ Hs Hre) as Hl. apply live_value in Hl as [? ?]. congruence.
    + destruct p; [apply NoDup_nil_2|apply NoDup_idx_where].
  - intros j. rewrite take_ge by done. rewrite elem_of_app, Hrec, wf_free. split.
    + intros [(s & Hs & Hv & Hg)|(Hp & s & Hs & Hre)].
      * exists s. split_and!; [|done..]. rewrite (Hlook' _ _ Hs). unfold swept_slot. by rewrite Hv.
      * exists (freed_slot s). rewrite (Hlook' _ _ Hs). unfold recycled in Hre.
        apply andb_true_iff in Hre as [Hd Hg]. apply Z.ltb_lt in Hg.
        destruct (swept_slot_cases keep sticky p j s (Hok _ _ Hs))
          as [[Hv _]|[(v & _ & _ & _ & _ & _ & [Hd'|Hp'] & _)|(v & _ & _ & _ & ->)]].
        -- unfold doomed in Hd. by rewrite Hv in Hd.
        -- congruence.
        -- congruence.
        -- done.
    + intros (x & (s & Hs & ->)%Hlook & Hv & Hg).
      destruct (swept_slot_cases keep sticky p j s (Hok _ _ Hs))
        as [[Hv' E]|[(v & _ & Hv' & _)|(v & _ & Hp & Hd & E)]].
      * left. exists s. rewrite E in Hv, Hg. done.
      * congruence.
      * right. split; [done|]. exists s. split; [done|]. unfold recycled. rewrite Hd.
        apply Z.ltb_lt. by rewrite E in Hg.
  - rewrite (count_live_swept keep sticky p 0) by done. rewrite <- wf_count. unfold len. cbn. lia.
  - lia.
  - intros j x (s & Hs & ->)%Hlook Hl Ha. exfalso.
    destruct (swept_slot_cases keep sticky p j s (Hok _ _ Hs))
      as [[Hv E]|[(v & _ & _ & _ & Hage & _)|(v & _ & _ & _ & E)]].
    + rewrite E in Hl. apply live_value in Hl as [? ?]. congruence.
    + lia.
    + by rewrite E in Hl.
  - apply NoDup_idx_where.
  - intros j. rewrite elem_of_idx_where_0. split.
    + intros (s & Hs & Hk). exists (swept_slot keep sticky p j s). split; [auto|].
      destruct (swept_slot_cases keep sticky p j s (Hok _ _ Hs))
        as [[Hv _]|[(v & _ & _ & _ & _ & _ & _ & H)|(v & Hv & _ & Hd & _)]].
      * unfold kept_sticky in Hk. by rewrite Hv in Hk.
      * by apply H.
      * unfold kept_sticky in Hk. unfold doomed in Hd. rewrite Hv in *. by destruct (keep _ v).
    + intros (x & (s & Hs & ->)%Hlook & Hd). exists s. split; [done|].
      destruct (swept_slot_cases keep sticky p j s (Hok _ _ Hs))
        as [[Hv E]|[(v & _ & _ & _ & _ & _ & _ & H)|(v & _ & _ & _ & E)]].
      * rewrite E in Hd. by destruct (Hd (ok_vacant _ (Hok _ _ Hs) Hv)).
      * by apply H.
      * by rewrite E in Hd.
Qed.

Lemma sweep_wf keep sticky hp : wf hp -> wf (sweep keep sticky hp).2.
Proof.
  intros W. destruct (sweep_eq keep sticky hp) as (pz & pool & _ & ->). by apply swept_heap_wf.
Qed.

Lemma sweep_len keep sticky hp : wf hp -> poison hp = None ->
  len (sweep keep sticky hp).2 = len hp - (sweep keep sticky hp).1.
Proof.
  intros W Hp. destruct (sweep_eq keep sticky hp) as (pz & pool & Hpz & E). rewrite E. cbn [fst snd].
  unfold swept_heap. rewrite Hp. unfold len. cbn. lia.
Qed.

(** Outside verification mode a full sweep keeps exactly the objects it is told
    to keep, every handle to another goes stale. *)
Lemma sweep_peek keep sticky hp h : wf hp -> poison hp = None ->
  peek (sweep keep sticky hp).2 h =
    match peek hp h with
    | Some v => if keep h v then Some v else None
    | None => None
    end.
Proof.
  intros [W _] Hp. destruct (sweep_eq keep sticky hp) as (pz & pool & _ & ->).
  unfold peek. cbn. rewrite Hp, slots_map_lookup. cbn.
  destruct (slots hp !! index h) as [s|] eqn:Hs; [|done]. cbn. unfold slot_get.
  destruct (swept_slot_cases keep sticky false (index h) s (wf_slot _ W _ _ Hs))
    as [[Hv ->]|[(v & Hv & E1 & E2 & _ & _ & [Hd|] & _)|(v & Hv & _ & Hd & ->)]]; try done.
  - rewrite Hv. by destruct (_ =? _).
  - rewrite E1, E2, Hv. unfold doomed in Hd. rewrite Hv in Hd.
    destruct (Z.eqb_spec (slot_generation s) (generation h)) as [Eg|]; [|done].
    apply negb_false_iff in Hd. rewrite Eg in Hd. destruct h. cbn in Hd. by rewrite Hd.
  - rewrite Hv. unfold doomed in Hd. rewrite Hv in Hd. cbn [value freed_slot slot_generation].
    destruct (Z.eqb_spec (slot_generation s) (generation h)) as [Eg|]; [|by destruct (_ =? _)].
    apply negb_true_iff in Hd. rewrite Eg in Hd. destruct h. cbn in Hd. rewrite Hd. by destruct (_ =? _).
Qed.

(** ** The minor sweep: the optimised loops *)

Lemma settle_fast_eq sticky i s st : sw_poison st = None ->
  settle_young sticky i s st =
    let '(s', fate, rem, pool) := settle_young_fast sticky i s (sw_remembered st) (sw_pool st) in
    let n := if bool_decide (fate = Kept) then 0 else 1 in
    (s', bool_decide (fate = Freed),
     MkSweep (sw_free st) rem (sw_live st - n) (sw_swept st + n) None pool).
Proof.
  intros Hp. unfold settle_young, settle_young_fast. destruct st as [fr rem lv sw pz pool].
  cbn in Hp |- *. subst pz.
  destruct (value s) as [v|] eqn:Hv; [|cbn; by rewrite Z.sub_0_r, Z.add_0_r].
  destruct (OLD_AGE <=? age s); [destruct (_ && _); cbn; by rewrite Z.sub_0_r, Z.add_0_r|].
  rewrite vacate_release_eq. by destruct (_ <? COMPACT_GEN_BASE).
Qed.

(** The slow loop over entries, one run at a time. *)
Lemma settle_entries_app sticky es es' l kept st l1 kept1 st1 :
  (forall i, i ∈ es -> (i < length l)%nat) ->
  settle_entries sticky es l kept st = (l1, kept1, st1) ->
  settle_entries sticky (es ++ es') l kept st = settle_entries sticky es' l1 kept1 st1.
Proof.
  revert l kept st. induction es as [|i es IH]; intros l kept st Hin; cbn [app settle_entries].
  - by intros [= <- <- <-].
  - destruct (l !! i) as [s|] eqn:Hi.
    + destruct (settle_young sticky i s st) as [[s' back] st']. apply IH.
      intros j Hj. rewrite length_insert. apply Hin. by apply list_elem_of_further.
    + apply lookup_ge_None in Hi. pose proof (Hin i (list_elem_of_here _ _)). lia.
Qed.

Definition st_with (rem : list nat) (pool : P) (d : Z) (st : SweepState (P:=P)) : SweepState (P:=P) :=
  MkSweep (sw_free st) rem (sw_live st - d) (sw_swept st + d) None pool.

Lemma st_with_step rem pool rem1 pool1 d e st : e = d + 1 ->
  st_with rem pool d (MkSweep (sw_free st) rem1 (sw_live st - 1) (sw_swept st + 1) None pool1) =
  st_with rem pool e st.
Proof. intros ->. unfold st_with. cbn. f_equal; lia. Qed.

(** The inner loop frees a whole run, then settles the entry that ends it. *)
Lemma fast_run_spec fuel sticky free n r l st r' fate l' rem' pool' kept :
  sw_poison st = None -> n = length free -> (r <= n)%nat -> (n - r <= fuel)%nat ->
  (forall i, i ∈ free -> (i < length l)%nat) ->
  fast_run fuel sticky free n r l (sw_remembered st) (sw_pool st) = (r', fate, l', rem', pool') ->
  (r <= r' <= n)%nat /\ length l' = length l /\
  let d := Z.of_nat (r' - r) in
  let run := take (r' - r) (drop r free) in
  if decide (r' = n) then
    settle_entries sticky run l kept st = (l', kept ++ run, st_with rem' pool' d st)
  else
    fate <> Freed /\ (r' < n)%nat /\
    settle_entries sticky (take (S r' - r) (drop r free)) l kept st =
      (l', kept ++ run, st_with rem' pool' (d + if decide (fate = Retired) then 1 else 0) st).
Proof.
  intros Hp Hn. revert r l st kept Hp. induction fuel as [|fuel IH]; intros r l st kept Hp Hr Hf Hin.
  - cbn. intros [= <- <- <- <- <-]. split; [lia|]. split; [done|]. rewrite decide_True by lia.
    rewrite Nat.sub_diag. cbn. rewrite app_nil_r. unfold st_with. destruct st; cbn in *. subst.
    by rewrite Z.sub_0_r, Z.add_0_r.
  - cbn [fast_run]. destruct (Nat.ltb_spec r n) as [Hlt|Hge]; cbn [negb].
    2: { intros [= <- <- <- <- <-]. split; [lia|]. split; [done|]. rewrite decide_True by lia.
      rewrite Nat.sub_diag. cbn. rewrite app_nil_r. unfold st_with. destruct st; cbn in *. subst.
      by rewrite Z.sub_0_r, Z.add_0_r. }
    destruct (lookup_lt_is_Some_2 free r) as [i Hi]; [lia|]. rewrite Hi.
    assert (Hil : (i < length l)%nat) by (apply Hin; by eapply list_elem_of_lookup_2).
    destruct (lookup_lt_is_Some_2 l i Hil) as [s Hs]. rewrite Hs.
    pose proof (settle_fast_eq sticky i s st Hp) as E.
    destruct (settle_young_fast sticky i s (sw_remembered st) (sw_pool st)) as [[[s' f] rem1] pool1].
    assert (Ed : drop r free = i :: drop (S r) free) by (by apply drop_S).
    destruct (decide (f = Freed)) as [Ef|Ef]; [rewrite (bool_decide_eq_true_2 _ Ef)|rewrite (bool_decide_eq_false_2 _ Ef)].
    + subst f. rewrite (bool_decide_eq_true_2 (Freed = Freed)), (bool_decide_eq_false_2 (Freed = Kept)) in E by done.
      cbn zeta in E. intros E'. set (st1 := MkSweep (sw_free st) rem1 (sw_live st - 1) (sw_swept st + 1) None pool1).
      specialize (IH (S r) (<[i := s']> l) st1 (kept ++ [i]) eq_refl).
      destruct IH as (H1 & H2 & H3); [lia|lia|intros j Hj; rewrite length_insert; auto|exact E'|].
      rewrite length_insert in H2. split; [lia|]. split; [done|]. cbn zeta in *.
      assert (Etake : forall k, take (S k - r) (drop r free) = if decide (r <= k)%nat then i :: take (S k - S r) (drop (S r) free) else []).
      { intros k. destruct (decide (r <= k)%nat); [|by replace (S k - r)%nat with 0%nat by lia].
        rewrite Ed. by replace (S k - r)%nat with (S (k - r)) by lia. }
      assert (Er : take (r' - r) (drop r free) = i :: take (r' - S r) (drop (S r) free)).
      { rewrite Ed. by replace (r' - r)%nat with (S (r' - S r)) by lia. }
      rewrite Er. destruct (decide (r' = n)) as [Hd|Hd].
      * cbn [settle_entries]. rewrite Hs, E. cbn beta iota zeta. fold st1. rewrite H3. unfold st1.
        erewrite st_with_step by reflexivity. rewrite <- app_assoc. cbn [app]. f_equal. f_equal. lia.
      * destruct H3 as (Hfate & Hlt' & H3). split; [done|]. split; [done|].
        rewrite Etake, decide_True by lia. cbn [settle_entries]. rewrite Hs, E. cbn beta iota zeta. fold st1. rewrite H3.
        unfold st1. erewrite st_with_step by reflexivity. rewrite <- app_assoc. cbn [app]. f_equal. f_equal. lia.
    + intros [= <- <- <- <- <-]. split; [lia|]. rewrite length_insert. split; [done|]. cbn zeta.
      rewrite decide_False by lia. split; [done|]. split; [done|].
      rewrite Nat.sub_diag, Ed. replace (S r - r)%nat with 1%nat by lia. cbn [take settle_entries].
      rewrite Hs, E. rewrite (bool_decide_eq_false_2 _ Ef), app_nil_r. unfold st_with. cbn.
      destruct f; try done.
Qed.

Lemma st_with_twice rem pool d rem1 pool1 d1 st :
  st_with rem pool d (st_with rem1 pool1 d1 st) = st_with rem pool (d1 + d) st.
Proof. unfold st_with. cbn. f_equal; lia. Qed.

(** Moving a run down over the gap: what the list becomes before and after it. *)
Lemma move_run (free : list nat) r r1 gap : (gap <= r)%nat -> (r <= r1 <= length free)%nat ->
  let free1 := if (0 <? gap)%nat && (r <? r1)%nat then copy_within free r r1 (r - gap) else free in
  length free1 = length free /\ drop r1 free1 = drop r1 free /\
  take (r1 - gap) free1 = take (r - gap) free ++ take (r1 - r) (drop r free) /\
  (forall i, i ∈ free1 -> i ∈ free).
Proof.
  intros Hg Hr. cbn zeta. destruct (Nat.ltb_spec 0 gap) as [H0|H0]; cbn [andb].
  - destruct (Nat.ltb_spec r r1) as [H1|H1].
    + unfold copy_within.
      assert (L : length (take (r - gap) free ++ take (r1 - r) (drop r free)) = (r1 - gap)%nat).
      { rewrite length_app, !length_take, length_drop. lia. }
      rewrite !app_assoc. split_and!.
      * rewrite length_app, L, length_drop. lia.
      * rewrite drop_app_ge by lia. rewrite L, drop_drop. f_equal. lia.
      * by rewrite take_app_length'.
      * intros i [[Hi|Hi]%elem_of_app|Hi]%elem_of_app.
        -- by eapply elem_of_take_in.
        -- by eapply elem_of_drop_in, elem_of_take_in.
        -- by eapply elem_of_drop_in.
    + assert (r1 = r) as -> by lia. rewrite Nat.sub_diag. cbn. by rewrite app_nil_r.
  - assert (gap = 0%nat) as -> by lia. rewrite !Nat.sub_0_r. split_and!; try done.
    rewrite take_take_drop. f_equal. lia.
Qed.

Lemma fast_entries_spec fuel sticky free n r gap retired l st free' gap' retired' l' rem' pool' :
  sw_poison st = None -> n = length free -> (r <= n)%nat -> (n - r < fuel)%nat -> (gap <= r)%nat ->
  (forall i, i ∈ free -> (i < length l)%nat) ->
  fast_entries fuel sticky free n r gap retired l (sw_remembered st) (sw_pool st) =
    (free', gap', retired', l', rem', pool') ->
  length free' = n /\ (gap' <= n)%nat /\ length l' = length l /\
  exists d, d = Z.of_nat (n - gap') - Z.of_nat (r - gap) + (Z.of_nat retired' - Z.of_nat retired) /\
  settle_entries sticky (drop r free) l (take (r - gap) free) st =
    (l', take (n - gap') free', st_with rem' pool' d st).
Proof.
  revert free r gap retired l st. induction fuel as [|fuel IH]; intros free r gap retired l st Hp Hn Hr Hf Hg Hin; [lia|].
  cbn [fast_entries].
  destruct (fast_run (n - r) sticky free n r l (sw_remembered st) (sw_pool st)) as [[[[r1 fate] l1] rem1] pool1] eqn:E1.
  eapply (fast_run_spec _ _ _ _ _ _ _ _ _ _ _ _ (take (r - gap) free)) in E1; [|done..].
  destruct E1 as (Hr1 & Hl1 & Hrun). cbn zeta in Hrun.
  destruct (move_run free r r1 gap) as (M1 & M2 & M3 & M4); [lia|lia|].
  set (free1 := if (0 <? gap)%nat && (r <? r1)%nat then copy_within free r r1 (r - gap) else free) in *.
  destruct (Nat.eqb_spec r1 n) as [E|E].
  - intros [= <- <- <- <- <- <-]. rewrite decide_True in Hrun by done.
    split; [congruence|]. split; [lia|]. split; [done|]. exists (Z.of_nat (r1 - r)). split; [lia|].
    subst r1.
    assert (Etk : take (n - r) (drop r free) = drop r free) by (apply take_ge; rewrite length_drop; lia).
    rewrite M3. rewrite Etk in *. done.
  - rewrite decide_False in Hrun by done. destruct Hrun as (Hfate & Hlt & Hrun). intros E2.
    set (st1 := st_with rem1 pool1 (Z.of_nat (r1 - r) + (if decide (fate = Retired) then 1 else 0)) st) in *.
    specialize (IH free1 (S r1) (S gap) (if bool_decide (fate = Retired) then S retired else retired) l1 st1).
    destruct IH as (H1 & H2 & H3 & d & Hd & H4); [done|congruence|lia|lia|lia| |exact E2|].
    { intros i Hi. rewrite Hl1. auto. }
    split; [done|]. split; [done|]. split; [congruence|].
    exists (Z.of_nat (r1 - r) + (if decide (fate = Retired) then 1 else 0) + d). split.
    + rewrite Hd. destruct (decide (fate = Retired)); [rewrite bool_decide_eq_true_2 by done|rewrite bool_decide_eq_false_2 by done]; lia.
    + rewrite <- (take_drop (S r1 - r) (drop r free)). rewrite drop_drop.
      replace (r + (S r1 - r))%nat with (S r1) by lia.
      rewrite (settle_entries_app _ _ _ _ _ _ _ _ _ (fun i Hi => Hin i (elem_of_drop_in _ _ _ (elem_of_take_in _ _ _ Hi))) Hrun).
      rewrite <- M3. replace (S r1 - S gap)%nat with (r1 - gap)%nat in H4 by lia.
      assert (Ed : drop (S r1) free1 = drop (S r1) free).
      { replace (S r1) with (r1 + 1)%nat by lia. by rewrite <- !drop_drop, M2. }
      rewrite Ed in H4. rewrite H4. unfold st1. by rewrite st_with_twice.
Qed.

(** The loops over the slots pushed since. *)
Lemma fast_pushed_spec sticky i l free retired st l' free' retired' rem' pool' :
  sw_poison st = None -> sw_free st = free ->
  fast_pushed sticky i l free retired (sw_remembered st) (sw_pool st) = (l', free', retired', rem', pool') ->
  let d := Z.of_nat (length free') - Z.of_nat (length free) + (Z.of_nat retired' - Z.of_nat retired) in
  length l' = length l /\
  settle_pushed sticky i l st =
    (l', MkSweep free' rem' (sw_live st - d) (sw_swept st + d) None pool').
Proof.
  revert i free retired st l' free' retired' rem' pool'.
  induction l as [|s l IH]; intros i free retired st l' free' retired' rem' pool' Hp Hfr; cbn zeta.
  { cbn. intros [= <- <- <- <- <-]. split; [done|]. destruct st. cbn in *. subst. repeat f_equal; lia. }
  cbn [fast_pushed settle_pushed]. rewrite settle_fast_eq by done.
  destruct (settle_young_fast sticky i s (sw_remembered st) (sw_pool st)) as [[[s1 fate] rem1] pool1].
  cbn zeta.
  set (free1 := if bool_decide (fate = Freed) then free ++ [i] else free).
  set (ret1 := if bool_decide (fate = Retired) then S retired else retired).
  destruct (fast_pushed sticky (S i) l free1 ret1 rem1 pool1) as [[[[l1 free2] ret2] rem2] pool2] eqn:E.
  intros [= <- <- <- <- <-].
  set (k := if bool_decide (fate = Kept) then 0 else 1).
  set (st1 := if bool_decide (fate = Freed) then MkSweep (sw_free st ++ [i]) rem1 (sw_live st - k) (sw_swept st + k) None pool1
              else MkSweep (sw_free st) rem1 (sw_live st - k) (sw_swept st + k) None pool1).
  destruct (IH (S i) free1 ret1 st1 l1 free2 ret2 rem2 pool2) as [H1 H2].
  - unfold st1. by destruct (bool_decide _).
  - unfold st1, free1. rewrite Hfr. by destruct (bool_decide _).
  - unfold st1. rewrite <- E. by destruct (bool_decide (fate = Freed)).
  - split; [cbn; congruence|].
    assert (Est : (let st := MkSweep (sw_free st) rem1 (sw_live st - k) (sw_swept st + k) None pool1 in
              if bool_decide (fate = Freed)
              then MkSweep (sw_free st ++ [i]) (sw_remembered st) (sw_live st) (sw_swept st) (sw_poison st) (sw_pool st)
              else st) = st1) by (unfold st1; by destruct (bool_decide (fate = Freed))).
    cbn zeta in Est. cbn [sw_free sw_remembered sw_live sw_swept sw_poison sw_pool] in Est |- *.
    rewrite Est, H2. f_equal.
    assert (Hst : sw_live st1 = sw_live st - k /\ sw_swept st1 = sw_swept st + k)
      by (unfold st1; by destruct (bool_decide (fate = Freed))).
    destruct Hst as [-> ->]. unfold free1, ret1, k. destruct fate; cbn [bool_decide decide decide_rel Fate_eq_dec];
      rewrite ?(bool_decide_eq_true_2 (_ = _) eq_refl), ?(bool_decide_eq_false_2 (_ = _)) by done;
      rewrite ?length_app; cbn [length]; f_equal; lia.
Qed.

(** The minor sweep outside verification mode is the plain one. *)
Lemma sweep_young_slow_fast rescanned sticky hp : poison hp = None ->
  (free_top hp <= length (free_list hp))%nat ->
  (forall i, i ∈ free_list hp -> (i < length (slots hp))%nat) ->
  sweep_young rescanned sticky hp =
    let hp := fold_allocs hp in
    let '(l, rem) := settle_rescanned sticky rescanned (slots hp) (remembered hp) in
    sweep_young_slow sticky l rem hp.
Proof.
  intros Hp Ht Hin. unfold sweep_young, sweep_young_slow.
  cbn [poison fold_allocs with_counts slots remembered free_list free_top young_floor live extra_pool
       counted compact_gen allocs_since_gc capacity proto_epoch].
  assert (Hlen : forall es l rem, length (settle_rescanned sticky es l rem).1 = length l).
  { induction es as [|i es IH]; intros l rem; cbn [settle_rescanned]; [done|].
    destruct (l !! i) as [s|]; [|done]. destruct (value s); [destruct (sticky _)|]; by rewrite IH, length_insert. }
  specialize (Hlen rescanned (slots hp) (remembered hp)).
  destruct (settle_rescanned sticky rescanned (slots hp) (remembered hp)) as [l rem]. cbn [fst] in Hlen.
  rewrite Hp. unfold sweep_young_fast.
  destruct (fast_entries _ _ _ _ _ _ _ _ _ _) as [[[[[free1 gap1] ret1] l1] rem1] pool1] eqn:E1.
  set (st := MkSweep (free_list hp) rem (len hp) 0 None (extra_pool hp)).
  apply (fast_entries_spec _ _ _ _ _ _ _ _ st) in E1;
    [|done|done|done|lia|lia|intros i Hi; rewrite Hlen; auto].
  destruct E1 as (F1 & F2 & F3 & d & Hd & E1). rewrite Nat.sub_0_r in E1.
  change (live hp + (allocs_since_gc hp - counted hp)) with (len hp). fold st. rewrite E1.
  destruct (fast_pushed _ _ _ _ _ _ _) as [[[[l2 free2] ret2] rem2] pool2] eqn:E2.
  cbn zeta. set (st2 := MkSweep (take (length (free_list hp) - gap1) free1) _ _ _ _ _).
  apply (fast_pushed_spec _ _ _ _ _ st2) in E2; [|done|done]. cbn zeta in E2. destruct E2 as [G1 E2].
  rewrite E2. cbn [sw_swept sw_live sw_remembered sw_free sw_poison sw_pool st2 st_with st].
  assert (L : Z.of_nat (length (take (length (free_list hp) - gap1) free1)) = Z.of_nat (length (free_list hp) - gap1)).
  { rewrite length_take. lia. }
  rewrite L. rewrite !Nat.sub_0_r in Hd. f_equal; [lia|f_equal; lia].
Qed.

(** ** The minor sweep: invariant and effect *)

(** Same object, only its remembered-set state may differ. *)
Definition same_object s s' : Prop :=
  value s' = value s /\ slot_generation s' = slot_generation s /\ age s' = age s /\ occupied s' = occupied s.

Lemma same_object_refl s : same_object s s.
Proof. done. Qed.

(** Slot lists related index by index. *)
Definition pointwise (R : Slot T -> Slot T -> Prop) l l' : Prop :=
  length l' = length l /\
  forall i s, l !! i = Some s -> exists s', l' !! i = Some s' /\ R s s'.

Lemma pointwise_refl (R : Slot T -> Slot T -> Prop) l : (forall s, R s s) -> pointwise R l l.
Proof. intros H. split; [done|]. eauto. Qed.

Lemma pointwise_trans (R : Slot T -> Slot T -> Prop) l1 l2 l3 :
  (forall a b c, R a b -> R b c -> R a c) -> pointwise R l1 l2 -> pointwise R l2 l3 -> pointwise R l1 l3.
Proof.
  intros HR [L1 H1] [L2 H2]. split; [congruence|]. intros i s Hs.
  destruct (H1 i s Hs) as (s2 & Hs2 & R1). destruct (H2 i s2 Hs2) as (s3 & Hs3 & R2). eauto.
Qed.

Lemma pointwise_insert (R : Slot T -> Slot T -> Prop) l i s s' : (forall s, R s s) ->
  l !! i = Some s -> R s s' -> pointwise R l (<[i := s']> l).
Proof.
  intros Hr Hi H. pose proof (lookup_lt_Some _ _ _ Hi). split; [by rewrite length_insert|].
  intros j x Hj. destruct (decide (i = j)) as [<-|Hn].
  - rewrite list_lookup_insert_eq by done. exists s'. split; [done|]. congruence.
  - rewrite list_lookup_insert_ne by done. eauto.
Qed.

Lemma pointwise_back R l l' i s' : pointwise R l l' -> l' !! i = Some s' ->
  exists s, l !! i = Some s /\ R s s'.
Proof.
  intros [L H] Hi. pose proof (lookup_lt_Some _ _ _ Hi) as Hlt. rewrite L in Hlt.
  destruct (lookup_lt_is_Some_2 l i Hlt) as [s Hs]. exists s. split; [done|].
  destruct (H i s Hs) as (x & Hx & HR). congruence.
Qed.

(** Settling the rescanned slots: the remembered set is rebuilt from them. *)
Lemma settle_rescanned_spec sticky es l rem :
  (forall i s, l !! i = Some s -> slot_ok s) -> rem_ok (rem ++ es) l ->
  let r := settle_rescanned sticky es l rem in
  rem_ok r.2 r.1 /\ pointwise same_object l r.1 /\ (forall i s, r.1 !! i = Some s -> slot_ok s).
Proof.
  revert l rem. induction es as [|i es IH]; intros l rem Hok Hrem; cbn zeta; cbn [settle_rescanned].
  { rewrite app_nil_r in Hrem. split_and!; [done|by apply pointwise_refl|done]. }
  destruct (proj1 (proj2 Hrem i)) as (s & Hs & Hd); [apply elem_of_app; right; apply list_elem_of_here|].
  rewrite Hs. pose proof (Hok _ _ Hs) as Hoks.
  assert (Hl : slot_is_live s = true).
  { destruct (slot_is_live s) eqn:E; [done|]. apply vacant_value in E. by destruct (Hd (ok_vacant _ Hoks E)). }
  assert (Hold : OLD_AGE <= age s) by (destruct (ok_dirty _ Hoks) as [|[? _]]; done).
  assert (Hok' : forall d, d = CLEAN \/ d = STICKY -> forall j x,
            <[i := with_dirty d s]> l !! j = Some x -> slot_ok x).
  { intros d Hdd j x Hj. pose proof (lookup_lt_Some _ _ _ Hs). destruct (decide (i = j)) as [<-|Hn].
    - rewrite list_lookup_insert_eq in Hj by done. injection Hj as <-.
      apply (slot_ok_live s); try done; cbn; [apply Hoks|]. tauto.
    - rewrite list_lookup_insert_ne in Hj by done. eauto. }
  assert (Hclean : rem_ok (rem ++ es) (<[i := with_dirty CLEAN s]> l)).
  { destruct Hrem as [Hn Hr]. apply NoDup_app in Hn as (N1 & N2 & N3).
    apply NoDup_cons in N3 as [N3 N4]. pose proof (lookup_lt_Some _ _ _ Hs). split.
    - apply NoDup_app. split_and!; [done| |done]. intros j Hj Hj'. apply (N2 j Hj). by apply list_elem_of_further.
    - intros j. destruct (decide (i = j)) as [<-|Hne].
      + rewrite list_lookup_insert_eq by done. split.
        * intros [Hj|Hj]%elem_of_app; [|done]. destruct (N2 i Hj). apply list_elem_of_here.
        * intros (x & [= <-] & Hx). done.
      + rewrite list_lookup_insert_ne, <- Hr by done. rewrite !elem_of_app, elem_of_cons. naive_solver. }
  assert (Hgo : forall d rem', d = CLEAN \/ d = STICKY -> rem_ok (rem' ++ es) (<[i := with_dirty d s]> l) ->
    let r := settle_rescanned sticky es (<[i := with_dirty d s]> l) rem' in
    rem_ok r.2 r.1 /\ pointwise same_object l r.1 /\ (forall i s, r.1 !! i = Some s -> slot_ok s)).
  { intros d rem' Hdd Hrem'. destruct (IH _ rem' (Hok' d Hdd) Hrem') as (R1 & R2 & R3).
    split_and!; [done| |done].
    apply (pointwise_trans same_object _ (<[i := with_dirty d s]> l)); [| |exact R2].
    - unfold same_object. intros a b c (? & ? & ? & ?) (? & ? & ? & ?). split_and!; congruence.
    - by apply (pointwise_insert same_object _ _ s). }
  apply live_value in Hl as [v Hv]. rewrite Hv. destruct (sticky v).
  - apply Hgo; [by right|]. rewrite <- app_assoc. apply (rem_ok_same _ _ _ s); [done..|]. cbn.
    split; [done|]. intros; done.
  - apply Hgo; [by left|done].
Qed.

(** What the minor sweep does to a slot. *)
Definition settled (pz : bool) s s' : Prop :=
  (value s' = value s /\ slot_generation s' = slot_generation s /\ age s <= age s' /\
   (pz = false -> age s' = age s)) \/
  (pz = false /\ slot_is_live s = true /\ age s < OLD_AGE /\ value s' = None /\
   slot_generation s' = as_u16 (slot_generation s + 1)).

Lemma settled_refl pz s : settled pz s s.
Proof. left. split_and!; done || lia. Qed.

Lemma settled_trans pz a b c : settled pz a b -> settled pz b c -> settled pz a c.
Proof.
  unfold settled. intros [(V1 & G1 & A1 & P1)|(Hp & L1 & A1 & V1 & G1)] [(V2 & G2 & A2 & P2)|(Hp2 & L2 & A2 & V2 & G2)].
  - left. split_and!; [congruence|congruence|lia|]. intros H. rewrite P2, P1; done.
  - right. unfold slot_is_live in *. rewrite V1 in L2. rewrite (P1 Hp2) in A2. rewrite G1 in G2. done.
  - right. split_and!; [done..|congruence|congruence].
  - right. unfold slot_is_live in L2. by rewrite V1 in L2.
Qed.

(** The minor sweep's invariant over the slots [l], the free entries [F] and the
    shared state. *)
Record minv l (F : list nat) (st : SweepState (P:=P)) : Prop := {
  mi_ok : forall i s, l !! i = Some s -> slot_ok s;
  mi_nodup : NoDup F;
  mi_free : forall i, i ∈ F <-> reusable l i;
  mi_rem : rem_ok (sw_remembered st) l;
  mi_count : sw_live st = count_live l
}.

Lemma settle_young_inv sticky l F st i s s' back st' :
  minv l F st -> l !! i = Some s -> settle_young sticky i s st = (s', back, st') ->
  minv (<[i := s']> l) (if back then F ++ [i] else F) st' /\
  (slot_is_live s' = true -> OLD_AGE <= age s') /\
  settled (is_poisoned (sw_poison st)) s s' /\ is_poisoned (sw_poison st') = is_poisoned (sw_poison st).
Proof.
  intros M Hi. pose proof (lookup_lt_Some _ _ _ Hi) as Hlt. pose proof (mi_ok _ _ _ M _ _ Hi) as Hok.
  unfold settle_young. destruct (value s) as [v|] eqn:Hv.
  2: { intros [= <- <- <-]. rewrite list_insert_id by done. split_and!; [done| |apply settled_refl|done].
    unfold slot_is_live. by rewrite Hv. }
  assert (Hl : slot_is_live s = true) by (apply live_value; eauto).
  (* a live slot replaced by a live one of the same generation *)
  assert (Hlive : forall s1 st1, slot_is_live s1 = true -> slot_generation s1 = slot_generation s ->
            slot_ok s1 -> rem_ok (sw_remembered st1) (<[i := s1]> l) -> sw_live st1 = sw_live st ->
            minv (<[i := s1]> l) F st1).
  { intros s1 st1 L1 G1 O1 R1 C1. destruct M. split; try done.
    - intros j x Hj. destruct (decide (i = j)) as [<-|Hn].
      + rewrite list_lookup_insert_eq in Hj by done. by injection Hj as <-.
      + rewrite list_lookup_insert_ne in Hj by done. eauto.
    - intros j. rewrite mi_free0. unfold reusable. destruct (decide (i = j)) as [<-|Hn].
      + rewrite list_lookup_insert_eq, Hi by done. apply live_value in L1 as [v1 Hv1].
        split; intros (x & [= <-] & Hx & _); congruence.
      + by rewrite list_lookup_insert_ne.
    - rewrite C1, mi_count0, (count_live_insert _ _ s) by done. unfold live1. rewrite L1, Hl. lia. }
  destruct (Z.leb_spec OLD_AGE (age s)) as [Ha|Ha].
  - destruct ((dirty s =? CLEAN) && sticky v) eqn:E.
    + apply andb_true_iff in E as [Ed _]. apply Z.eqb_eq in Ed. intros [= <- <- <-].
      split_and!; [|done|left; split_and!; done || cbn; lia|done].
      apply Hlive; try done.
      * apply (slot_ok_live s); try done; first [apply Hok|right; cbn; tauto].
      * cbn. apply (rem_ok_enter _ _ _ s); [apply M|done..].
    + intros [= <- <- <-]. rewrite list_insert_id by done. split_and!; [done|done|apply settled_refl|done].
  - assert (Hclean : dirty s = CLEAN) by (destruct (ok_dirty _ Hok) as [|[? _]]; [done|lia]).
    destruct (sw_poison st) as [p|] eqn:Hp.
    + intros [= <- <- <-]. split_and!; [|done|left; split_and!; done || cbn; lia|done].
      apply Hlive; try done.
      * apply (slot_ok_live s); try done; first [by left|cbn; unfold OLD_AGE; lia].
      * cbn. apply (rem_ok_same _ _ _ s); [apply M|done..].
    + rewrite vacate_release_eq. intros [= <- <- <-]. change (MkSlot None _ (age s) 0 CLEAN _ _) with (freed_slot s).
      split_and!; [|done|right; done|done]. destruct M. split; cbn.
      * intros j x Hj. destruct (decide (i = j)) as [<-|Hn].
        -- rewrite list_lookup_insert_eq in Hj by done. injection Hj as <-. by apply freed_slot_ok.
        -- rewrite list_lookup_insert_ne in Hj by done. eauto.
      * case_bools; [|done]. apply NoDup_app. split_and!; [done| |apply NoDup_singleton].
        intros j Hj Hj'. apply list_elem_of_singleton in Hj' as ->.
        apply mi_free0 in Hj as (x & Hx & Hxv & _). congruence.
      * intros j. rewrite (reusable_freed _ _ s), <- mi_free0 by done.
        destruct (Z.ltb_spec (as_u16 (slot_generation s + 1)) COMPACT_GEN_BASE) as [Hr|Hr].
        -- rewrite elem_of_app, list_elem_of_singleton. naive_solver.
        -- split; [by left|]. intros [|[_ ?]]; [done|lia].
      * apply (rem_ok_same _ _ _ s); done.
      * rewrite (count_live_insert _ _ s) by done. unfold live1. rewrite Hl. cbn. lia.
Qed.

Lemma settle_entries_inv sticky es l F st l' F' st' :
  minv l F st -> (forall i, i ∈ es -> (i < length l)%nat) ->
  settle_entries sticky es l F st = (l', F', st') ->
  minv l' F' st' /\ pointwise (settled (is_poisoned (sw_poison st))) l l' /\
  (forall i s, i ∈ es -> l' !! i = Some s -> slot_is_live s = true -> OLD_AGE <= age s).
Proof.
  revert l F st. induction es as [|i es IH]; intros l F st M Hin; cbn [settle_entries].
  { intros [= <- <- <-]. split_and!; [done|apply pointwise_refl, settled_refl|].
    by intros i s ?%not_elem_of_nil. }
  destruct (lookup_lt_is_Some_2 l i) as [s Hs]; [apply Hin, list_elem_of_here|]. rewrite Hs.
  destruct (settle_young sticky i s st) as [[s1 back] st1] eqn:E.
  destruct (settle_young_inv _ _ _ _ _ _ _ _ _ M Hs E) as (M1 & Hold & Hset & Hp).
  intros E2. eapply IH in E2 as (M2 & P2 & O2); [|exact M1|intros j Hj; rewrite length_insert; apply Hin; by apply list_elem_of_further].
  rewrite Hp in P2. split; [done|]. split.
  - apply (pointwise_trans _ _ (<[i := s1]> l)); [apply settled_trans| |done].
    apply (pointwise_insert _ _ _ s); [apply settled_refl|done..].
  - intros j x [->|Hj]%elem_of_cons Hx Hl; [|by eapply O2].
    destruct (pointwise_back _ _ _ _ _ P2 Hx) as (y & Hy & [(V & _ & A & _)|(_ & _ & _ & V & _)]).
    + rewrite list_lookup_insert_eq in Hy by (by eapply lookup_lt_Some). injection Hy as <-.
      assert (OLD_AGE <= age s1); [|lia]. apply Hold. unfold slot_is_live in *. by rewrite <- V.
    + unfold slot_is_live in Hl. by rewrite V in Hl.
Qed.

(** The loop over pushed slots is the loop over their indices. *)
Lemma settle_young_free sticky i s st F :
  settle_young sticky i s (MkSweep F (sw_remembered st) (sw_live st) (sw_swept st) (sw_poison st) (sw_pool st)) =
  let '(s', back, st') := settle_young sticky i s st in
  (s', back, MkSweep F (sw_remembered st') (sw_live st') (sw_swept st') (sw_poison st') (sw_pool st')).
Proof.
  unfold settle_young. cbn. destruct (value s) as [v|]; [|done].
  destruct (_ <=? _); [by destruct (_ && _)|]. destruct (sw_poison st); [done|].
  destruct (vacate_release _ _ s). done.
Qed.

Lemma settle_young_keeps_free sticky i s st s' back st' :
  settle_young sticky i s st = (s', back, st') -> sw_free st' = sw_free st.
Proof.
  unfold settle_young. destruct (value s) as [v|]; [|by intros [= <- <- <-]].
  destruct (_ <=? _); [destruct (_ && _); by intros [= <- <- <-]|].
  destruct (sw_poison st); [by intros [= <- <- <-]|].
  destruct (vacate_release _ _ s). by intros [= <- <- <-].
Qed.

Lemma settle_pushed_entries sticky l pre st G l' st' :
  settle_pushed sticky (length pre) l st = (l', st') ->
  settle_entries sticky (seq (length pre) (length l)) (pre ++ l) (sw_free st)
    (MkSweep G (sw_remembered st) (sw_live st) (sw_swept st) (sw_poison st) (sw_pool st)) =
  (pre ++ l', sw_free st',
   MkSweep G (sw_remembered st') (sw_live st') (sw_swept st') (sw_poison st') (sw_pool st')).
Proof.
  revert pre st l' st'. induction l as [|s l IH]; intros pre st l' st'; cbn [settle_pushed length seq settle_entries].
  { by intros [= <- <-]. }
  rewrite list_lookup_middle, settle_young_free by done.
  destruct (settle_young sticky (length pre) s st) as [[s1 back] st1] eqn:E.
  pose proof (settle_young_keeps_free _ _ _ _ _ _ _ E) as Hfree.
  set (st2 := if back then _ else st1).
  destruct (settle_pushed sticky (S (length pre)) l st2) as [l1 st3] eqn:E2. intros [= <- <-].
  replace (S (length pre)) with (length (pre ++ [s1])) in E2 by (rewrite length_app; cbn; lia).
  apply IH in E2. rewrite insert_app_r_alt, Nat.sub_diag by done. cbn [insert list_insert].
  rewrite <- !app_assoc, length_app, Nat.add_1_r in E2. cbn [app] in E2.
  unfold st2 in E2. destruct back; cbn [sw_free sw_remembered sw_live sw_swept sw_poison sw_pool] in E2; rewrite Hfree in E2; exact E2.
Qed.

(** The slots a minor sweep visits: the free-list entries consumed since the last
    collection and the slots pushed since. *)
Definition nursery hp : list nat :=
  drop (free_top hp) (free_list hp) ++ seq (young_floor hp) (length (slots hp) - young_floor hp).

Lemma nursery_young hp i s : wf0 hp -> slots hp !! i = Some s -> slot_is_live s = true ->
  age s < OLD_AGE -> i ∈ nursery hp.
Proof.
  intros W Hi Hl Ha. apply elem_of_app. pose proof (lookup_lt_Some _ _ _ Hi).
  destruct (wf_young _ W i s Hi Hl Ha) as [|Hf]; [by left|right].
  rewrite list_elem_of_In, in_seq. lia.
Qed.

(** The two loops are one loop over the nursery. *)
Lemma sweep_young_slow_eq sticky l rem hp :
  let st := MkSweep (free_list hp) rem (live hp) 0 (poison hp) (extra_pool hp) in
  wf0 hp -> length l = length (slots hp) -> minv l (take (free_top hp) (free_list hp)) st ->
  exists lf F st',
    settle_entries sticky (nursery hp) l (take (free_top hp) (free_list hp)) st = (lf, F, st') /\
    (sweep_young_slow sticky l rem hp).2 =
      MkHeap lf F (sw_live st') (counted hp) (compact_gen hp) (length F) (length lf)
        (sw_remembered st') (allocs_since_gc hp) (sw_poison st') (sw_pool st') (capacity hp) (proto_epoch hp).
Proof.
  intros st W Hlen M. unfold sweep_young_slow. fold st.
  destruct (settle_entries sticky (drop (free_top hp) (free_list hp)) l (take (free_top hp) (free_list hp)) st)
    as [[l1 kept] st1] eqn:E1.
  destruct (settle_pushed sticky (young_floor hp) (drop (young_floor hp) l1) _) as [l2 st2] eqn:E2.
  cbn zeta. pose proof E1 as E1'.
  assert (Hin : forall i, i ∈ drop (free_top hp) (free_list hp) -> (i < length l)%nat).
  { intros i Hi. rewrite Hlen. apply (wf_entries _ W). by eapply elem_of_drop_in. }
  eapply settle_entries_inv in E1' as (M1 & P1 & _); [|exact M|done].
  assert (Hl1 : length l1 = length l) by apply P1.
  pose proof (wf_floor _ W) as Hfl.
  assert (Hpre : length (take (young_floor hp) l1) = young_floor hp) by (rewrite length_take; lia).
  rewrite <- Hpre in E2 at 1. apply (settle_pushed_entries _ _ _ _ (sw_free st1)) in E2.
  rewrite take_drop, Hpre, length_drop in E2. cbn [sw_free sw_remembered sw_live sw_swept sw_poison sw_pool] in E2.
  exists (take (young_floor hp) l1 ++ l2), (sw_free st2),
    (MkSweep (sw_free st1) (sw_remembered st2) (sw_live st2) (sw_swept st2) (sw_poison st2) (sw_pool st2)).
  split; [|reflexivity]. unfold nursery. erewrite settle_entries_app; [|done|exact E1].
  rewrite <- Hlen, <- Hl1. destruct st1. exact E2.
Qed.

Lemma sweep_young_slow_spec sticky l rem hp :
  wf0 hp -> length l = length (slots hp) -> allocs_since_gc hp = counted hp ->
  minv l (take (free_top hp) (free_list hp)) (MkSweep (free_list hp) rem (live hp) 0 (poison hp) (extra_pool hp)) ->
  pointwise same_object (slots hp) l ->
  let hp' := (sweep_young_slow sticky l rem hp).2 in
  wf hp' /\ pointwise (settled (is_poisoned (poison hp))) l (slots hp') /\
  (forall i s, slots hp' !! i = Some s -> slot_is_live s = true -> OLD_AGE <= age s).
Proof.
  intros W Hlen Hcnt M Hsame. cbn zeta.
  destruct (sweep_young_slow_eq sticky l rem hp W Hlen M) as (lf & F & st2 & E & ->). cbn [slots].
  eapply settle_entries_inv in E as (M2 & P2 & O2); [|exact M|].
  2: { intros i [Hi|Hi]%elem_of_app; rewrite Hlen.
       - apply (wf_entries _ W). by eapply elem_of_drop_in.
       - rewrite list_elem_of_In, in_seq in Hi. lia. }
  assert (Hold : forall i s, lf !! i = Some s -> slot_is_live s = true -> OLD_AGE <= age s).
  { intros i s Hi Hl. destruct (Z.lt_ge_cases (age s) OLD_AGE) as [Ha|]; [|done].
    assert (i ∈ nursery hp); [|by apply (O2 i)].
    destruct (pointwise_back _ _ _ _ _ P2 Hi) as (x & Hx & [(V & G & A & _)|(_ & _ & _ & V & _)]).
    - destruct (pointwise_back _ _ _ _ _ Hsame Hx) as (y & Hy & (V' & G' & A' & _)).
      apply (nursery_young _ _ y W Hy); [|lia]. unfold slot_is_live in *. by rewrite <- V', <- V.
    - unfold slot_is_live in Hl. by rewrite V in Hl. }
  split; [|done]. destruct M2 as [M2ok M2nd M2free M2rem M2cnt].
  assert (Hlf : length lf = length (slots hp)) by (rewrite <- Hlen; apply P2).
  split; [split; cbn; try done|done].
  - rewrite Hlf. apply W.
  - intros i Hi. apply M2free in Hi as (x & Hx & _). by eapply lookup_lt_Some.
  - by rewrite take_ge by done.
  - intros i. by rewrite take_ge by done.
  - unfold len. cbn. rewrite M2cnt. lia.
  - apply W.
  - intros i s Hi Hl Ha. specialize (Hold i s Hi Hl). lia.
  - apply W.
Qed.

(** The heap between [take_remembered] and the sweep. *)
Lemma settle_rescanned_minv sticky rescanned hp :
  wf0 hp -> rem_ok rescanned (slots hp) ->
  let '(l, rem) := settle_rescanned sticky rescanned (slots hp) [] in
  minv l (take (free_top hp) (free_list hp))
    (MkSweep (free_list hp) rem (live (fold_allocs hp)) 0 (poison hp) (extra_pool hp)) /\
  pointwise same_object (slots hp) l.
Proof.
  intros W R. destruct (settle_rescanned_spec sticky rescanned (slots hp) []) as (R1 & P1 & O1); [apply W|done|].
  destruct (settle_rescanned sticky rescanned (slots hp) []) as [l rem]. cbn [fst snd] in *.
  split; [|done].
  assert (Hre : forall i, reusable l i <-> reusable (slots hp) i).
  { intros i. unfold reusable. split.
    - intros (x & Hx & Hv & Hg). destruct (pointwise_back _ _ _ _ _ P1 Hx) as (y & Hy & (V & G & _)).
      exists y. rewrite <- V, <- G. done.
    - intros (x & Hx & Hv & Hg). destruct (proj2 P1 _ _ Hx) as (y & Hy & (V & G & _)).
      exists y. rewrite V, G. done. }
  assert (Hcount : count_live l = count_live (slots hp)).
  { destruct P1 as [L1 H1]. revert L1 H1. generalize (slots hp). clear. intros l0. revert l.
    induction l0 as [|s l0 IH]; intros [|x l] L1 H1; cbn in L1; try lia.
    rewrite !count_live_cons. destruct (H1 0%nat s eq_refl) as (y & Hy & (V & _)).
    injection Hy as <-. rewrite (IH l); [|lia|intros i z Hz; exact (H1 (S i) z Hz)].
    unfold live1, slot_is_live. by rewrite V. }
  split; cbn; [done|apply W|intros i; rewrite Hre; apply W|done|].
  rewrite Hcount, <- (wf_count _ W). unfold len. lia.
Qed.

Lemma sweep_young_spec rescanned sticky hp :
  wf0 hp -> remembered hp = [] -> rem_ok rescanned (slots hp) ->
  let hp' := (sweep_young rescanned sticky hp).2 in
  wf hp' /\
  pointwise (settled (is_poisoned (poison hp))) (slots hp) (slots hp') /\
  (forall i s, slots hp' !! i = Some s -> slot_is_live s = true -> OLD_AGE <= age s).
Proof.
  intros W Hrem R. cbn zeta.
  assert (E : sweep_young rescanned sticky hp =
    let hp := fold_allocs hp in
    let '(l, rem) := settle_rescanned sticky rescanned (slots hp) (remembered hp) in
    sweep_young_slow sticky l rem hp).
  { destruct (poison hp) eqn:Hp; [|by apply sweep_young_slow_fast; [|apply W..]].
    unfold sweep_young. cbn [fold_allocs with_counts poison slots remembered]. rewrite Hp. done. }
  rewrite E. cbn zeta. clear E.
  change (slots (fold_allocs hp)) with (slots hp). change (remembered (fold_allocs hp)) with (remembered hp).
  rewrite Hrem. pose proof (settle_rescanned_minv sticky rescanned hp W R) as H.
  destruct (settle_rescanned sticky rescanned (slots hp) []) as [l rem]. destruct H as (M & P1).
  destruct (sweep_young_slow_spec sticky l rem (fold_allocs hp)) as (W2 & P2 & O2);
    [by apply fold_allocs_wf0|apply P1|done..|].
  split; [done|]. split; [|done].
  apply (pointwise_trans _ _ l); [apply settled_trans| |exact P2].
  destruct P1 as [L1 H1]. split; [done|]. intros i s Hs. destruct (H1 i s Hs) as (y & Hy & (V & G & A & _)).
  exists y. split; [done|]. left. split_and!; [done..|lia|done].
Qed.

(** Outside verification mode the minor sweep frees exactly the objects still
    young; every other handle answers as before. *)
Lemma sweep_young_peek rescanned sticky hp h :
  wf0 hp -> remembered hp = [] -> rem_ok rescanned (slots hp) -> poison hp = None ->
  peek (sweep_young rescanned sticky hp).2 h = if is_young hp h then None else peek hp h.
Proof.
  intros W Hrem R Hp. destruct (sweep_young_spec rescanned sticky hp W Hrem R) as (W' & [L PW] & O).
  rewrite Hp in PW. cbn [is_poisoned] in PW. unfold peek, is_young.
  destruct (slots hp !! index h) as [s|] eqn:Hs.
  - destruct (PW _ _ Hs) as (s' & Hs' & Hset). rewrite Hs'. cbn. unfold slot_get.
    destruct Hset as [(V & G & _ & A)|(_ & Hl & Ha & V & G)].
    + rewrite V, G. destruct (slot_is_live s) eqn:Hl; cbn [andb].
      * assert (OLD_AGE <= age s') by (eapply O; [done|]; unfold slot_is_live in *; by rewrite V).
        rewrite A in H by done. rewrite (proj2 (Z.ltb_ge _ _) H), andb_false_r. done.
      * done.
    + rewrite V, Hl, (proj2 (Z.ltb_lt _ _) Ha), andb_true_r. cbn [andb].
      by destruct (slot_generation s =? generation h), (slot_generation s' =? generation h).
  - rewrite (lookup_ge_None_2 (slots _)); [done|]. rewrite L. by apply lookup_ge_None.
Qed.

Lemma sweep_young_poison rescanned sticky hp : poison hp = None ->
  poison (sweep_young rescanned sticky hp).2 = None.
Proof.
  intros Hp. unfold sweep_young. cbn [fold_allocs with_counts poison slots remembered]. rewrite Hp.
  destruct (settle_rescanned _ _ _ _) as [l rem].
  by destruct (sweep_young_fast _ _ _ _ _ _ _) as [[[[? ?] ?] ?] ?].
Qed.

Lemma no_young_after_sweep_young rescanned sticky hp h :
  wf0 hp -> remembered hp = [] -> rem_ok rescanned (slots hp) ->
  is_young (sweep_young rescanned sticky hp).2 h = false.
Proof.
  intros W Hrem R. destruct (sweep_young_spec rescanned sticky hp W Hrem R) as (_ & _ & O).
  unfold is_young. destruct (slots _ !! index h) as [s|] eqn:Hs; [|done].
  destruct (slot_is_live s) eqn:Hl; [|done]. specialize (O _ _ Hs Hl).
  by rewrite (proj2 (Z.ltb_ge _ _) O), andb_false_r.
Qed.

(** An old object that asks to be remembered always is. *)
Definition sticky_at (sticky : T -> bool) s : Prop :=
  forall v, value s = Some v -> sticky v = true -> OLD_AGE <= age s -> dirty s <> CLEAN.

Lemma settle_young_sticky sticky i s st s' back st' : sw_poison st = None ->
  settle_young sticky i s st = (s', back, st') -> sticky_at sticky s' /\ sw_poison st' = None.
Proof.
  intros Hp. unfold settle_young. destruct (value s) as [v|] eqn:Hv.
  2: { intros [= <- <- <-]. split; [|done]. intros v Hv'. congruence. }
  destruct (Z.leb_spec OLD_AGE (age s)) as [Ha|Ha].
  - destruct ((dirty s =? CLEAN) && sticky v) eqn:E; intros [= <- <- <-]; (split; [|done]); intros w Hw Hst _; [done|].
    rewrite Hv in Hw. injection Hw as <-. rewrite Hst, andb_true_r in E. by apply Z.eqb_neq.
  - rewrite Hp, vacate_release_eq. intros [= <- <- <-]. split; [|done]. intros w Hw. done.
Qed.

Lemma settle_entries_sticky sticky es l F st l' F' st' : sw_poison st = None ->
  (forall i, i ∈ es -> (i < length l)%nat) ->
  settle_entries sticky es l F st = (l', F', st') ->
  (forall i s, l !! i = Some s -> i ∈ es \/ sticky_at sticky s) ->
  forall i s, l' !! i = Some s -> sticky_at sticky s.
Proof.
  revert l F st. induction es as [|i es IH]; intros l F st Hp Hin; cbn [settle_entries].
  { intros [= <- <- <-] H j s Hj. destruct (H j s Hj) as [?%not_elem_of_nil|]; done. }
  destruct (lookup_lt_is_Some_2 l i) as [s Hs]; [apply Hin, list_elem_of_here|]. rewrite Hs.
  destruct (settle_young sticky i s st) as [[s1 back] st1] eqn:E.
  destruct (settle_young_sticky _ _ _ _ _ _ _ Hp E) as [S1 Hp1].
  intros E2 H. refine (IH _ _ _ Hp1 _ E2 _).
  - intros j Hj. rewrite length_insert. apply Hin. by apply list_elem_of_further.
  - pose proof (lookup_lt_Some _ _ _ Hs). intros j x Hj. destruct (decide (i = j)) as [<-|Hne].
    + rewrite list_lookup_insert_eq in Hj by done. injection Hj as <-. by right.
    + rewrite list_lookup_insert_ne in Hj by done. destruct (H j x Hj) as [Hj'|]; [|by right].
      apply elem_of_cons in Hj' as [->|]; [done|by left].
Qed.

Lemma settle_rescanned_sticky sticky es l rem i s' :
  (settle_rescanned sticky es l rem).1 !! i = Some s' ->
  l !! i = Some s' \/ sticky_at sticky s'.
Proof.
  revert l rem. induction es as [|j es IH]; intros l rem; cbn [settle_rescanned]; [by left|].
  destruct (l !! j) as [s|] eqn:Hj; [|by left]. pose proof (lookup_lt_Some _ _ _ Hj) as Hlt.
  assert (Hone : forall d rem', (forall v, value s = Some v -> sticky v = true -> d <> CLEAN) ->
    (settle_rescanned sticky es (<[j := with_dirty d s]> l) rem').1 !! i = Some s' ->
    l !! i = Some s' \/ sticky_at sticky s').
  { intros d rem' Hd H. apply IH in H as [H|]; [|by right]. destruct (decide (j = i)) as [<-|Hne].
    - rewrite list_lookup_insert_eq in H by done. injection H as <-. right. intros v Hv Hst _. by eapply Hd.
    - rewrite list_lookup_insert_ne in H by done. by left. }
  destruct (value s) as [v|] eqn:Hv; [destruct (sticky v) eqn:Hst|]; apply Hone; try done; congruence.
Qed.

Lemma sweep_young_sticky rescanned sticky hp :
  wf0 hp -> remembered hp = [] -> rem_ok rescanned (slots hp) -> poison hp = None ->
  (forall i s, slots hp !! i = Some s -> i ∈ nursery hp \/ sticky_at sticky s) ->
  forall i s, slots (sweep_young rescanned sticky hp).2 !! i = Some s -> sticky_at sticky s.
Proof.
  intros W Hrem R Hp H. rewrite sweep_young_slow_fast by (done || apply W). cbn zeta.
  change (slots (fold_allocs hp)) with (slots hp). change (remembered (fold_allocs hp)) with (remembered hp).
  rewrite Hrem.
  pose proof (settle_rescanned_minv sticky rescanned hp W R) as HM.
  pose proof (settle_rescanned_sticky sticky rescanned (slots hp) []) as S.
  destruct (settle_rescanned sticky rescanned (slots hp) []) as [l rem]. cbn [fst snd] in *. destruct HM as (M & P1).
  destruct (sweep_young_slow_eq sticky l rem (fold_allocs hp)) as (lf & F & st2 & E & ->);
    [by apply fold_allocs_wf0|apply P1|done|]. cbn [slots].
  eapply settle_entries_sticky; [|..|exact E|]; [done| |].
  - intros i [Hi|Hi]%elem_of_app; rewrite (proj1 P1).
    + apply (wf_entries _ W). by eapply elem_of_drop_in.
    + rewrite list_elem_of_In, in_seq in Hi. cbn in Hi. pose proof (wf_floor _ W). lia.
  - intros i s Hi. destruct (S i s Hi) as [Hi'|]; [|by right]. by apply H.
Qed.

(** ** Compaction *)

Context (grow : nat -> nat -> nat).

(** The objects kept, in slot order: the old handle and the new slot. *)
Fixpoint compacted (keep : Handle -> bool) (g : Z) (i : nat) l : list (Handle * Slot T) :=
  match l with
  | [] => []
  | s :: l =>
      match value s with
      | Some v =>
          if keep (MkHandle i (slot_generation s))
          then (MkHandle i (slot_generation s), slot_live g (age s) v) :: compacted keep g (S i) l
          else compacted keep g (S i) l
      | None => compacted keep g (S i) l
      end
  end.

(** The forwarding map: the [k]-th kept object moves to slot [n + k]. *)
Fixpoint forwards (g : Z) (n : nat) (c : list (Handle * Slot T)) : list (Handle * Handle) :=
  match c with
  | [] => []
  | p :: c => (p.1, MkHandle n g) :: forwards g (S n) c
  end.

Lemma compact_loop_eq keep g i l ns m cap : exists cap',
  compact_loop grow keep g i l ns m cap =
    (ns ++ (snd <$> compacted keep g i l), m ++ forwards g (length ns) (compacted keep g i l), cap').
Proof.
  revert i ns m cap. induction l as [|s l IH]; intros i ns m cap; cbn [compact_loop compacted].
  { exists cap. cbn. by rewrite !app_nil_r. }
  destruct (value s) as [v|]; [|apply IH]. destruct (keep _); [|apply IH].
  destruct (IH (S i) (ns ++ [slot_live g (age s) v])
    (m ++ [(MkHandle i (slot_generation s), MkHandle (length ns) g)])
    (if (length ns =? cap)%nat then grow cap (length ns + 1) else cap)) as [cap' ->].
  exists cap'. rewrite length_app, Nat.add_1_r, <- !app_assoc. done.
Qed.

Lemma remember_old_eq i l :
  remember_old i l =
    ((fun s => if OLD_AGE <=? age s then with_dirty DIRTY s else s) <$> l,
     idx_where (fun _ s => OLD_AGE <=? age s) i l).
Proof.
  revert i. induction l as [|s l IH]; intros i; cbn [remember_old idx_where fmap list_fmap]; [done|].
  rewrite IH. by destruct (_ <=? _).
Qed.

Lemma compacted_lookup keep g i l k old s : compacted keep g i l !! k = Some (old, s) ->
  exists j x v, old = MkHandle (i + j) (slot_generation x) /\ l !! j = Some x /\ value x = Some v /\
    keep old = true /\ s = slot_live g (age x) v.
Proof.
  revert i k. induction l as [|x l IH]; intros i k; cbn [compacted]; [done|].
  destruct (value x) as [v|] eqn:Hv.
  - destruct (keep (MkHandle i (slot_generation x))) eqn:Hk.
    + destruct k as [|k]; cbn.
      * intros [= <- <-]. exists 0%nat, x, v. by rewrite Nat.add_0_r.
      * intros (j & y & w & -> & Hj & H)%IH. exists (S j), y, w.
        replace (i + S j)%nat with (S i + j)%nat by lia. done.
    + intros (j & y & w & -> & Hj & H)%IH. exists (S j), y, w.
      replace (i + S j)%nat with (S i + j)%nat by lia. done.
  - intros (j & y & w & -> & Hj & H)%IH. exists (S j), y, w.
    replace (i + S j)%nat with (S i + j)%nat by lia. done.
Qed.

Lemma compacted_in keep g i l j x v : l !! j = Some x -> value x = Some v ->
  keep (MkHandle (i + j) (slot_generation x)) = true ->
  exists k, compacted keep g i l !! k = Some (MkHandle (i + j) (slot_generation x), slot_live g (age x) v).
Proof.
  revert i j. induction l as [|y l IH]; intros i j Hj Hv Hk; [done|]. cbn [compacted].
  destruct j as [|j]; cbn in Hj.
  - injection Hj as ->. rewrite Nat.add_0_r in *. rewrite Hv, Hk. by exists 0%nat.
  - replace (i + S j)%nat with (S i + j)%nat in * by lia.
    destruct (IH (S i) j Hj Hv Hk) as [k Hk']. destruct (value y); [|eauto].
    destruct (keep (MkHandle i _)); [by exists (S k)|eauto].
Qed.

Lemma compacted_inj keep g i l k1 k2 o s1 s2 :
  compacted keep g i l !! k1 = Some (o, s1) -> compacted keep g i l !! k2 = Some (o, s2) -> k1 = k2.
Proof.
  revert i k1 k2. induction l as [|x l IH]; intros i k1 k2; cbn [compacted]; [done|].
  assert (Hgt : forall k o' s', compacted keep g (S i) l !! k = Some (o', s') -> (i < index o')%nat).
  { intros k o' s' Hk. apply compacted_lookup in Hk as (j & y & v & -> & _). cbn. lia. }
  destruct (value x); [|apply IH]. destruct (keep _); [|apply IH].
  destruct k1 as [|k1], k2 as [|k2]; cbn; intros H1 H2; [done|..|f_equal; by eapply IH].
  - injection H1 as <- _. apply Hgt in H2. cbn in H2. lia.
  - injection H2 as <- _. apply Hgt in H1. cbn in H1. lia.
Qed.

Lemma compacted_length keep g i l : (length (compacted keep g i l) <= length l)%nat.
Proof.
  revert i. induction l as [|s l IH]; intros i; cbn; [done|]. specialize (IH (S i)).
  destruct (value s); [destruct (keep _)|]; cbn; lia.
Qed.

Lemma forwards_lookup g n c k : forwards g n c !! k = (fun p => (p.1, MkHandle (n + k) g)) <$> c !! k.
Proof.
  revert n k. induction c as [|p c IH]; intros n [|k]; cbn; try done.
  - by rewrite Nat.add_0_r.
  - change (forwards g (S n) c !! k = (fun p => (p.1, MkHandle (n + S k) g)) <$> c !! k).
    rewrite IH. by replace (S n + k)%nat with (n + S k)%nat by lia.
Qed.

Lemma compact_to_eq keep hp : exists cap,
  let c := compacted keep (compact_gen hp) 0 (slots hp) in
  let ns := (fun s => if OLD_AGE <=? age s then with_dirty DIRTY s else s) <$> (snd <$> c) in
  compact_to grow keep hp =
    (forwards (compact_gen hp) 0 c,
     MkHeap ns [] (Z.of_nat (length ns)) (allocs_since_gc hp)
       (Z.max (as_u16 (compact_gen hp + 1)) COMPACT_GEN_BASE) 0 0
       (idx_where (fun _ s => OLD_AGE <=? age s) 0 (snd <$> c)) (allocs_since_gc hp)
       (poison hp) (extra_pool hp) cap (proto_epoch hp)).
Proof.
  unfold compact_to. destruct (compact_loop_eq keep (compact_gen hp) 0 (slots hp) [] [] 0) as [cap ->].
  exists cap. cbn [app length]. by rewrite remember_old_eq.
Qed.

Lemma count_live_all l : (forall i s, l !! i = Some s -> slot_is_live s = true) ->
  count_live l = Z.of_nat (length l).
Proof.
  induction l as [|s l IH]; intros H; [done|]. rewrite count_live_cons, IH by (intros i x Hx; exact (H (S i) x Hx)).
  unfold live1. rewrite (H 0%nat s eq_refl). cbn [length]. lia.
Qed.

Lemma compact_to_wf keep hp : wf hp -> wf (compact_to grow keep hp).2.
Proof.
  intros [W _]. destruct (compact_to_eq keep hp) as [cap E]. cbn zeta in E. rewrite E. clear E. cbn [snd].
  set (c := compacted keep (compact_gen hp) 0 (slots hp)).
  set (f := fun s => if OLD_AGE <=? age s then with_dirty DIRTY s else s).
  assert (Hc : forall i s, (snd <$> c) !! i = Some s ->
            slot_is_live s = true /\ slot_generation s = compact_gen hp /\ 0 <= age s <= 255 /\
            occupied s = SLOT_OCCUPIED /\ dirty s = CLEAN).
  { intros i s Hi. rewrite list_lookup_fmap in Hi. destruct (c !! i) as [[old x]|] eqn:Hx; [|done].
    injection Hi as <-. apply compacted_lookup in Hx as (j & y & v & _ & Hj & _ & _ & ->). cbn.
    split_and!; try done; apply (ok_age _ (wf_slot _ W _ _ Hj)). }
  assert (Hf : forall i s, (f <$> (snd <$> c)) !! i = Some s -> exists x, (snd <$> c) !! i = Some x /\ s = f x).
  { intros i s Hi. rewrite list_lookup_fmap in Hi. destruct ((snd <$> c) !! i) as [x|]; [|done].
    injection Hi as <-. eauto. }
  assert (Hlen : length (f <$> (snd <$> c)) = length c) by (by rewrite !length_fmap).
  pose proof (compacted_length keep (compact_gen hp) 0 (slots hp)) as Hle. fold c in Hle.
  assert (Hlive : forall i s, (f <$> (snd <$> c)) !! i = Some s -> slot_is_live s = true).
  { intros i s (x & Hx & ->)%Hf. destruct (Hc _ _ Hx) as [Hl _]. unfold f. by case_bools. }
  pose proof (wf_gen _ W) as Hg. unfold COMPACT_GEN_BASE in Hg.
  split; [split; cbn; try done|split; cbn].
  - rewrite Hlen. pose proof (wf_bound _ W). lia.
  - intros i s (x & Hx & ->)%Hf. destruct (Hc _ _ Hx) as (Hl & Hge & Ha & Ho & Hd).
    assert (slot_ok x).
    { split; [lia|done|by rewrite Hl|done|by left]. }
    unfold f. destruct (Z.leb_spec OLD_AGE (age x)); [|done]. apply (slot_ok_live x); try done.
    right. cbn. tauto.
  - by intros i ?%not_elem_of_nil.
  - apply NoDup_nil_2.
  - intros i. split; [by intros ?%not_elem_of_nil|]. intros (s & Hs & Hv & _). apply Hlive in Hs.
    apply live_value in Hs as [? ?]. congruence.
  - rewrite count_live_all by done. unfold len. cbn. lia.
  - pose proof (wf_counted _ W). lia.
  - lia.
  - intros i s Hs _ _. right. lia.
  - pose proof (as_u16_range (compact_gen hp + 1)). unfold COMPACT_GEN_BASE. lia.
  - apply NoDup_idx_where.
  - intros i. rewrite elem_of_idx_where_0. split.
    + intros (s & Hs & Ha). exists (f s). rewrite list_lookup_fmap, Hs. split; [done|].
      unfold f. by rewrite Ha.
    + intros (s & (x & Hx & ->)%Hf & Hd). exists x. split; [done|]. unfold f in Hd.
      destruct (OLD_AGE <=? age x); [done|]. destruct (Hc _ _ Hx) as (_ & _ & _ & _ & Hcl). congruence.
Qed.

(** Compaction moves exactly the objects it is told to keep: each has one new
    handle, which answers what the old one did, and no two share one. *)
Lemma compact_to_spec keep hp :
  let '(m, hp') := compact_to grow keep hp in
  (forall old, peek hp old <> None /\ keep old = true <-> exists new, (old, new) ∈ m) /\
  (forall old new, (old, new) ∈ m ->
     peek hp' new = peek hp old /\ generation new = compact_gen hp) /\
  (forall old1 old2 new1 new2, (old1, new1) ∈ m -> (old2, new2) ∈ m -> (old1 = old2 <-> new1 = new2)) /\
  (forall new, peek hp' new <> None <-> exists old, (old, new) ∈ m).
Proof.
  destruct (compact_to_eq keep hp) as [cap E]. cbn zeta in E. rewrite E. clear E.
  set (g := compact_gen hp). set (c := compacted keep g 0 (slots hp)).
  set (f := fun s => if OLD_AGE <=? age s then with_dirty DIRTY s else s).
  assert (Hin : forall old new, (old, new) ∈ forwards g 0 c <->
            exists k s, c !! k = Some (old, s) /\ new = MkHandle k g).
  { intros old new. rewrite list_elem_of_lookup. split.
    - intros [k Hk]. rewrite forwards_lookup in Hk. destruct (c !! k) as [[o s]|] eqn:Hc; [|done].
      injection Hk as <- <-. eauto.
    - intros (k & s & Hk & ->). exists k. by rewrite forwards_lookup, Hk. }
  assert (Hpeek : forall k, peek (MkHeap (f <$> (snd <$> c)) [] (Z.of_nat (length (f <$> (snd <$> c)))) (allocs_since_gc hp)
       (Z.max (as_u16 (g + 1)) COMPACT_GEN_BASE) 0 0
       (idx_where (fun _ s => OLD_AGE <=? age s) 0 (snd <$> c)) (allocs_since_gc hp)
       (poison hp) (extra_pool hp) cap (proto_epoch hp)) k =
       p ← c !! index k; if generation k =? g then value p.2 else None).
  { intros [k gk]. unfold peek. cbn. rewrite !list_lookup_fmap.
    destruct (c !! k) as [[o s]|] eqn:Hk; cbn; [|done].
    apply compacted_lookup in Hk as (j & x & v & _ & _ & _ & _ & ->).
    unfold slot_get, f. rewrite Z.eqb_sym. by destruct (OLD_AGE <=? _). }
  assert (Hold : forall k old s, c !! k = Some (old, s) -> peek hp old = value s /\ keep old = true /\ exists v, value s = Some v).
  { intros k old s Hk. apply compacted_lookup in Hk as (j & x & v & -> & Hj & Hv & Hkp & ->).
    unfold peek. cbn. rewrite Hj. cbn. unfold slot_get. rewrite Z.eqb_refl. eauto. }
  split_and!.
  - intros old. split.
    + intros [Hp Hk]. unfold peek in Hp. destruct (slots hp !! index old) as [x|] eqn:Hx; [|done].
      cbn in Hp. unfold slot_get in Hp. destruct (Z.eqb_spec (slot_generation x) (generation old)) as [Eg|]; [|done].
      destruct (value x) as [v|] eqn:Hv; [|done].
      destruct (compacted_in keep g 0 (slots hp) (index old) x v Hx Hv) as [k Hk'].
      { cbn. rewrite Eg. by destruct old. }
      exists (MkHandle k g). apply Hin. eexists k, _. split; [|done].
      unfold c. rewrite Hk'. cbn. rewrite Eg. by destruct old.
    + intros [new (k & s & Hk & _)%Hin]. destruct (Hold _ _ _ Hk) as (-> & Hkp & v & ->). done.
  - intros old new (k & s & Hk & ->)%Hin. split; [|done]. rewrite Hpeek. cbn. rewrite Hk. cbn.
    rewrite Z.eqb_refl. symmetry. by apply Hold in Hk as [-> _].
  - intros o1 o2 n1 n2 (k1 & s1 & Hk1 & ->)%Hin (k2 & s2 & Hk2 & ->)%Hin. split.
    + intros <-. assert (k1 = k2) as ->; [|done].
      by eapply compacted_inj.
    + intros [= <-]. congruence.
  - intros new. rewrite Hpeek. split.
    + destruct (c !! index new) as [[old s]|] eqn:Hk; [|done]. cbn.
      destruct (Z.eqb_spec (generation new) g) as [<-|]; [|done]. intros _. exists old. apply Hin.
      exists (index new), s. split; [done|]. by destruct new.
    + intros [old (k & s & Hk & ->)%Hin]. cbn. rewrite Hk. cbn. rewrite Z.eqb_refl.
      apply Hold in Hk as (_ & _ & v & ->). done.
Qed.

End sweep.
