(* ===== verification/HeapSpec.v ===== *)
(** * The heap as its clients see it

    Histories of heap operations, the invariant of every reachable heap, and the
    guarantees a client relies on: handles never alias, allocation and freeing do
    what they say, the optimised minor sweep is the plain one. *)

From S2P Require Import Prelude NanBox Heap HeapInv HeapSweep.

Open Scope Z_scope.

Section spec.
Context {T P : Type} {trace : Trace T P}.
Context (grow : nat -> nat -> nat).

Implicit Types (s : Slot T) (hp : Heap T P) (h : Handle) (l : list (Slot T)).

(** ** Histories *)

(** The calls a client makes.  A minor collection takes the remembered set out,
    marks (promotes) the objects it reaches and sweeps. *)
Inductive op :=
| OAlloc (v : T)
| OGet (h : Handle)
| OGetMut (h : Handle) (f : T -> T)
| OAppend (h : Handle) (from : T -> nat) (f : T -> T)
| OSwap (a b : Handle)
| OEdge (c t : Handle) (a : Z)
| OFree (h : Handle)
| OReserve (n : nat)
| OReserveFree (n : nat)
| OReset
| OVerify (panic : bool)
| OSweep (keep : Handle -> T -> bool) (sticky : T -> bool)
| OMinor (marks : list Handle) (sticky : T -> bool)
| OCompact (keep : Handle -> bool).

Definition promote_all (marks : list Handle) hp : Heap T P :=
  foldl (fun hp h => (promote_young h hp).2) hp marks.

Definition minor (marks : list Handle) (sticky : T -> bool) hp : Z * Heap T P :=
  let '(rescanned, hp) := take_remembered hp in
  sweep_young rescanned sticky (promote_all marks hp).

(** [None]: the operation panics. *)
Definition run_op (o : op) hp : option (Heap T P) :=
  match o with
  | OAlloc v => snd <$> alloc grow v hp
  | OGet h => snd <$> get hp h
  | OGetMut h f => snd <$> get_mut h f hp
  | OAppend h from f => snd <$> get_mut_append h from f hp
  | OSwap a b => Some (swap a b hp)
  | OEdge c t a => Some (record_edge c t a hp)
  | OFree h => Some (free h hp).2
  | OReserve n => Some (reserve grow n hp)
  | OReserveFree n => Some (reserve_free grow n hp)
  | OReset => Some (reset_alloc_pressure hp)
  | OVerify b => Some (enable_gc_verify b hp)
  | OSweep keep sticky => Some (sweep keep sticky hp).2
  | OMinor marks sticky => Some (minor marks sticky hp).2
  | OCompact keep => Some (compact_to grow keep hp).2
  end.

Fixpoint run (ops : list op) hp : option (Heap T P) :=
  match ops with
  | [] => Some hp
  | o :: ops => hp ← run_op o hp; run ops hp
  end.

Lemma new_wf pool epoch : wf (new (T:=T) (P:=P) pool epoch).
Proof.
  split; [split; cbn; try done|split; cbn].
  - by intros i ?%not_elem_of_nil.
  - apply NoDup_nil_2.
  - intros i. split; [by intros ?%not_elem_of_nil|]. intros (s & Hs & _). by rewrite lookup_nil in Hs.
  - apply NoDup_nil_2.
  - intros i. split; [by intros ?%not_elem_of_nil|]. intros (s & Hs & _). by rewrite lookup_nil in Hs.
Qed.

Lemma promote_all_spec marks hp rem : wf0 hp -> rem_ok rem (slots hp) ->
  wf0 (promote_all marks hp) /\ rem_ok rem (slots (promote_all marks hp)) /\
  remembered (promote_all marks hp) = remembered hp /\ poison (promote_all marks hp) = poison hp.
Proof.
  revert hp. induction marks as [|m marks IH]; intros hp W R; [done|].
  destruct (promote_young_wf hp m rem W R) as [W1 R1]. cbn [promote_all foldl].
  destruct (IH _ W1 R1) as (W2 & R2 & E1 & E2). split_and!; try done.
  - unfold promote_all in E1. rewrite E1. unfold promote_young.
    destruct (slots hp !! index m); [case_bools|]; done.
  - unfold promote_all in E2. rewrite E2. unfold promote_young.
    destruct (slots hp !! index m); [case_bools|]; done.
Qed.

Lemma minor_prepared marks hp : wf hp ->
  wf0 (promote_all marks (with_remembered [] hp)) /\
  remembered (promote_all marks (with_remembered [] hp)) = [] /\
  rem_ok (remembered hp) (slots (promote_all marks (with_remembered [] hp))) /\
  poison (promote_all marks (with_remembered [] hp)) = poison hp.
Proof.
  intros [W R]. destruct (promote_all_spec marks (with_remembered [] hp) (remembered hp)) as (H1 & H2 & H3 & H4);
    [by apply wf0_with_remembered|done|]. done.
Qed.

Lemma minor_wf marks sticky hp : wf hp -> wf (minor marks sticky hp).2.
Proof.
  intros W. destruct (minor_prepared marks hp W) as (W1 & E & R & _).
  by apply (sweep_young_spec (remembered hp) sticky) in W1 as [].
Qed.

Lemma run_op_wf o hp hp' : wf hp -> run_op o hp = Some hp' -> wf hp'.
Proof.
  intros W. destruct o; cbn [run_op].
  - destruct (alloc grow v hp) as [[h hp1]|] eqn:E; [|done]. intros [= <-].
    destruct (decide ((0 < free_top hp)%nat \/ Z.of_nat (length (slots hp)) < U32_MAX)) as [Hr|Hr].
    + destruct (alloc_correct grow hp v W Hr) as (h' & hp2 & E' & W' & _). naive_solver.
    + (* the table is full: nothing is allocated *)
      exfalso. unfold alloc in E. cbn [free_top with_counts young_floor slots] in E.
      assert (Hft : free_top hp = 0%nat) by lia.
      assert (Htop : forall n, top_up_free grow n (with_counts (live hp) (counted hp) (allocs_since_gc hp + 1) hp) =
                with_counts (live hp) (counted hp) (allocs_since_gc hp + 1) hp).
      { intros n. unfold top_up_free. cbn. case_bools; [done|done|].
        exfalso. apply Nat.eqb_neq in Eb0. unfold U32_MAX in *. lia. }
      rewrite Htop in E. destruct (_ && _ && _); cbn [free_top with_counts slots] in E; rewrite Hft in E; cbn in E;
        (destruct (Z.ltb_spec (Z.of_nat (length (slots hp))) U32_MAX); [lia|done]).
  - destruct (get hp h) as [[r hp1]|] eqn:E; [|done]. intros [= <-]. by eapply get_wf.
  - destruct (get_mut h f hp) as [[r hp1]|] eqn:E; [|done]. intros [= <-]. by eapply get_mut_wf.
  - destruct (get_mut_append h from f hp) as [[r hp1]|] eqn:E; [|done]. intros [= <-]. by eapply get_mut_append_wf.
  - intros [= <-]. by apply swap_wf.
  - intros [= <-]. by apply record_edge_wf.
  - intros [= <-]. by apply free_wf.
  - intros [= <-]. by apply reserve_wf.
  - intros [= <-]. by apply reserve_free_wf.
  - intros [= <-]. by apply reset_alloc_pressure_wf.
  - intros [= <-]. destruct W. split; [by apply wf0_with_poison|done].
  - intros [= <-]. by apply sweep_wf.
  - intros [= <-]. by apply minor_wf.
  - intros [= <-]. by apply compact_to_wf.
Qed.

Lemma run_wf ops hp hp' : wf hp -> run ops hp = Some hp' -> wf hp'.
Proof.
  revert hp. induction ops as [|o ops IH]; intros hp W; cbn [run]; [by intros [= <-]|].
  destruct (run_op o hp) as [hp1|] eqn:E; [|done]. intros H. apply (IH hp1); [by eapply run_op_wf|done].
Qed.


(** ** Generations only grow

    While no compaction has stamped high generations, a slot's generation stays
    below [COMPACT_GEN_BASE] as long as it is used, and freeing it increases it. *)

Definition low_slot s : Prop :=
  0 <= slot_generation s <= COMPACT_GEN_BASE /\
  (slot_is_live s = true -> slot_generation s < COMPACT_GEN_BASE).

Definition low_heap hp : Prop := forall i s, slots hp !! i = Some s -> low_slot s.

(** How a slot may evolve: same generation and no less alive, or a later one. *)
Definition later s s' : Prop :=
  low_slot s ->
  low_slot s' /\
  (slot_generation s < slot_generation s' \/
   (slot_generation s = slot_generation s' /\ (slot_is_live s = true -> slot_is_live s' = true))).

Record grows l l' : Prop := {
  gr_later : forall i s, l !! i = Some s -> exists s', l' !! i = Some s' /\ later s s';
  gr_new : forall i s', l' !! i = Some s' -> l !! i = None -> low_slot s'
}.

Lemma later_refl s : later s s.
Proof. intros H. split; [done|]. by right. Qed.

Lemma later_same s s' : slot_generation s' = slot_generation s -> slot_is_live s' = slot_is_live s -> later s s'.
Proof. intros G L [H1 H2]. split; [split; rewrite ?G, ?L; done|]. right. by rewrite L. Qed.

Lemma later_trans a b c : later a b -> later b c -> later a c.
Proof.
  intros H1 H2 Ha. destruct (H1 Ha) as [Hb O1]. destruct (H2 Hb) as [Hc O2]. split; [done|].
  destruct O1 as [|[E1 L1]], O2 as [|[E2 L2]]; [left; lia..|right]. split; [congruence|auto].
Qed.

Lemma grows_refl l : grows l l.
Proof. split; [eauto using later_refl|]. intros i s' H1 H2. congruence. Qed.

Lemma grows_low hp hp' : low_heap hp -> grows (slots hp) (slots hp') -> low_heap hp'.
Proof.
  intros L [G1 G2] i s Hs. destruct (slots hp !! i) as [x|] eqn:Hx; [|by eapply G2].
  destruct (G1 _ _ Hx) as (s' & Hs' & Hl). destruct (Hl (L _ _ Hx)) as [H _]. congruence.
Qed.

Lemma grows_trans l1 l2 l3 : (forall i s, l1 !! i = Some s -> low_slot s) ->
  grows l1 l2 -> grows l2 l3 -> grows l1 l3.
Proof.
  intros L [A1 A2] [B1 B2]. split.
  - intros i s Hs. destruct (A1 _ _ Hs) as (s2 & Hs2 & H1). destruct (B1 _ _ Hs2) as (s3 & Hs3 & H2).
    eauto using later_trans.
  - intros i s3 Hs3 Hn. destruct (l2 !! i) as [s2|] eqn:Hs2; [|eauto].
    destruct (B1 _ _ Hs2) as (x & Hx & H). destruct (H (A2 _ _ Hs2 Hn)) as [Hx' _]. congruence.
Qed.

Lemma grows_insert l i s s' : l !! i = Some s -> later s s' -> grows l (<[i := s']> l).
Proof.
  intros Hi H. pose proof (lookup_lt_Some _ _ _ Hi). split.
  - intros j x Hj. destruct (decide (i = j)) as [<-|Hn].
    + rewrite list_lookup_insert_eq by done. exists s'. split; [done|].
      by replace x with s by congruence.
    + rewrite list_lookup_insert_ne by done. eauto using later_refl.
  - intros j x Hj Hn. destruct (decide (i = j)) as [<-|Hne]; [congruence|].
    rewrite list_lookup_insert_ne in Hj by done. congruence.
Qed.

Lemma grows_app l l' : (forall i s, l' !! i = Some s -> low_slot s) -> grows l (l ++ l').
Proof.
  intros H. split.
  - intros i s Hs. exists s. split; [by apply lookup_app_l_Some|apply later_refl].
  - intros i s Hs Hn. apply lookup_app_Some in Hs as [Hs|[_ Hs]]; [congruence|eauto].
Qed.

Lemma grows_pointwise l l' (R : Slot T -> Slot T -> Prop) :
  pointwise R l l' -> (forall i s s', l !! i = Some s -> R s s' -> later s s') -> grows l l'.
Proof.
  intros [L H] HR. split.
  - intros i s Hs. destruct (H _ _ Hs) as (s' & Hs' & HRs). exists s'. split; [done|]. eauto.
  - intros i s' Hs' Hn. apply lookup_lt_Some in Hs'. apply lookup_ge_None in Hn. lia.
Qed.

(** A live slot that is vacated with the next generation. *)
Lemma later_vacated s s' : slot_is_live s = true -> value s' = None ->
  slot_generation s' = as_u16 (slot_generation s + 1) -> later s s'.
Proof.
  intros Hl Hv Hg [Hr Hlow]. specialize (Hlow Hl). unfold COMPACT_GEN_BASE in *.
  rewrite as_u16_small in Hg by lia. unfold low_slot, slot_is_live, COMPACT_GEN_BASE. rewrite Hv, Hg.
  split; [split; [lia|done]|left; lia].
Qed.

Lemma same_slots_grows hp hp' : slots hp' = slots hp -> grows (slots hp) (slots hp').
Proof. intros ->. apply grows_refl. Qed.

Lemma note_poison_use_slots hp hp' h :
  (if gc_verify hp then note_poison_use h hp else Some hp) = Some hp' -> slots hp' = slots hp.
Proof.
  destruct (gc_verify hp); [|by intros [= <-]]. unfold note_poison_use.
  destruct (poison hp); [|by intros [= <-]]. case_bool_decide; [|by intros [= <-]].
  destruct (panic_on_hit p); [done|]. by intros [= <-].
Qed.

Lemma live_slot_later s d v : slot_is_live s = true -> later s (with_value (Some v) (with_dirty d s)).
Proof. intros H. by apply later_same. Qed.

Lemma peek_mut_grows h f hp : grows (slots hp) (slots (peek_mut h f hp).2).
Proof.
  unfold peek_mut. destruct (slots hp !! index h) as [s|] eqn:Hi; [|apply grows_refl].
  destruct (negb _); [apply grows_refl|]. destruct (value s) as [v|] eqn:Hv; [|apply grows_refl].
  assert (Hl : slot_is_live s = true) by (apply live_value; eauto).
  destruct (_ && _); cbn [snd slots with_slots].
  - destruct (dirty s =? CLEAN); cbn [slots with_remembered];
      (apply (grows_insert _ _ s); [done|by apply later_same]).
  - apply (grows_insert _ _ s); [done|by apply later_same].
Qed.

Lemma get_mut_append_grows h from f hp b hp' : get_mut_append h from f hp = Some (b, hp') ->
  grows (slots hp) (slots hp').
Proof.
  unfold get_mut_append. destruct (if gc_verify hp then _ else _) as [hp1|] eqn:E; [|done].
  apply note_poison_use_slots in E. cbn [mbind option_bind]. rewrite <- E.
  destruct (slots hp1 !! index h) as [s|] eqn:Hi; [|intros [= _ <-]; apply grows_refl].
  destruct (negb _); [intros [= _ <-]; apply grows_refl|].
  destruct (value s) as [v|] eqn:Hv; [|intros [= _ <-]; apply grows_refl].
  assert (Hl : slot_is_live s = true) by (apply live_value; eauto).
  assert (Hins : forall s', slot_generation s' = slot_generation s -> slot_is_live s' = true ->
            grows (slots hp1) (<[index h := s']> (slots hp1))).
  { intros s' G L. apply (grows_insert _ _ s); [done|]. apply later_same; congruence. }
  destruct (_ && (OLD_AGE <=? age s)); [|intros [= _ <-]; by apply Hins].
  destruct (_ && (scan_from s <? _)); [intros [= _ <-]; by apply Hins|].
  destruct (_ <=? SCAN_MAX); intros [= _ <-]; destruct (dirty s =? CLEAN); by apply Hins.
Qed.

Lemma remember_grows i hp : grows (slots hp) (slots (remember i hp)).
Proof.
  unfold remember. destruct (slots hp !! i) as [s|] eqn:Hi; [|apply grows_refl].
  destruct (_ && _); [|apply grows_refl]. cbn [slots with_slots].
  destruct (dirty s =? CLEAN); cbn [slots with_remembered];
    (apply (grows_insert _ _ s); [done|by apply later_same]).
Qed.

Lemma swap_grows a b hp : low_heap hp -> grows (slots hp) (slots (swap a b hp)).
Proof.
  intros L. unfold swap. destruct (Nat.eqb_spec (index a) (index b)) as [|Hn]; [apply grows_refl|].
  destruct (slots hp !! index a) as [sa|] eqn:Ha; [|apply grows_refl].
  destruct (slots hp !! index b) as [sb|] eqn:Hb; [|apply grows_refl]. unfold slot_get.
  destruct (slot_generation sa =? generation a); [|apply grows_refl].
  destruct (value sa) as [va|] eqn:Va; [|apply grows_refl].
  destruct (slot_generation sb =? generation b); [|apply grows_refl].
  destruct (value sb) as [vb|] eqn:Vb; [|apply grows_refl].
  assert (La : slot_is_live sa = true) by (apply live_value; eauto).
  assert (Lb : slot_is_live sb = true) by (apply live_value; eauto).
  set (l1 := <[index b := with_value (Some va) sb]> (slots hp)).
  assert (G1 : grows (slots hp) l1).
  { apply (grows_insert _ _ sb); [done|]. by apply later_same. }
  assert (G2 : grows (slots hp) (<[index a := with_value (Some vb) sa]> l1)).
  { apply (grows_trans _ l1); [exact L|done|]. apply (grows_insert _ _ sa).
    - unfold l1. by rewrite list_lookup_insert_ne.
    - by apply later_same. }
  assert (G3 : forall hp' i, grows (slots hp) (slots hp') -> grows (slots hp) (slots (remember i hp'))).
  { intros hp' i G. apply (grows_trans _ (slots hp')); [exact L|done|apply remember_grows]. }
  apply G3, G3. exact G2.
Qed.

Lemma free_grows h hp : grows (slots hp) (slots (free h hp).2).
Proof.
  destruct (poison hp) as [p|] eqn:E; [by rewrite (free_poisoned _ _ p); [apply grows_refl|]|].
  destruct (peek hp h) as [v|] eqn:Hp.
  - destruct (free_live _ _ _ E Hp) as (s & Hs & Hv & _ & ->). cbn.
    apply (grows_insert _ _ s); [done|]. apply later_vacated; [apply live_value; eauto|done..].
  - rewrite free_stale by done. apply grows_refl.
Qed.

Lemma vacant_low : low_slot (@slot_vacant T).
Proof. unfold low_slot, COMPACT_GEN_BASE. cbn. split; [lia|done]. Qed.

Lemma top_up_free_grows n hp : wf hp -> grows (slots hp) (slots (top_up_free grow n hp)).
Proof.
  intros W. destruct (top_up_free_cases grow n hp W) as [->|(k & c & e & _ & _ & _ & ->)]; [apply grows_refl|].
  apply grows_app. intros i s ->%lookup_vacant. apply vacant_low.
Qed.

Lemma alloc_grows v hp h hp' : wf hp -> low_heap hp -> alloc grow v hp = Some (h, hp') ->
  grows (slots hp) (slots hp').
Proof.
  intros W L E. destruct (alloc_cases grow hp v h hp' W E) as (hp1 & W1 & H1 & _ & H2).
  assert (G1 : grows (slots hp) (slots hp1)).
  { destruct H1 as [->|[n ->]]; [apply grows_refl|by apply top_up_free_grows]. }
  apply (grows_trans _ (slots hp1)); [exact L|done|].
  destruct H2 as [(s & Hs & Hv & Hg & ->)|[_ ->]].
  - apply (grows_insert _ _ s); [done|]. intros [H0 _]. split; [split; cbn; [lia|done]|]. right. done.
  - apply grows_app. intros i s Hs. apply list_lookup_singleton_Some in Hs as [_ <-].
    unfold low_slot, COMPACT_GEN_BASE. cbn. lia.
Qed.

Lemma sweep_grows keep sticky hp : wf hp -> grows (slots hp) (slots (sweep keep sticky hp).2).
Proof.
  intros [W _]. destruct (sweep_eq keep sticky hp) as (pz & pool & _ & ->). cbn.
  split.
  - intros i s Hs. eexists. rewrite slots_map_lookup, Hs. split; [done|]. cbn.
    destruct (swept_slot_cases keep sticky (is_poisoned (poison hp)) i s (wf_slot _ W _ _ Hs))
      as [[_ ->]|[(v & V & V' & G & _)|(v & V & _ & _ & ->)]].
    + apply later_refl.
    + apply later_same; [done|]. unfold slot_is_live. by rewrite V, V'.
    + apply later_vacated; [apply live_value; eauto|done..].
  - intros i s' Hs' Hn. rewrite slots_map_lookup, Hn in Hs'. done.
Qed.

Lemma promote_all_grows marks hp : low_heap hp -> grows (slots hp) (slots (promote_all marks hp)).
Proof.
  revert hp. induction marks as [|m marks IH]; intros hp L; cbn [promote_all foldl]; [apply grows_refl|].
  assert (G : grows (slots hp) (slots (promote_young m hp).2)).
  { unfold promote_young. destruct (slots hp !! index m) as [s|] eqn:Hs; [|apply grows_refl].
    case_bools; [|apply grows_refl]. cbn. apply (grows_insert _ _ s); [done|by apply later_same]. }
  apply (grows_trans _ (slots (promote_young m hp).2)); [exact L|done|].
  apply IH. by eapply grows_low.
Qed.

Lemma minor_grows marks sticky hp : wf hp -> low_heap hp -> grows (slots hp) (slots (minor marks sticky hp).2).
Proof.
  intros W L. destruct (minor_prepared marks hp W) as (W1 & E & R & _).
  set (hp1 := promote_all marks (with_remembered [] hp)) in *.
  assert (G1 : grows (slots hp) (slots hp1)) by (exact (promote_all_grows marks (with_remembered [] hp) L)).
  apply (grows_trans _ (slots hp1)); [exact L|done|].
  destruct (sweep_young_spec (remembered hp) sticky hp1 W1 E R) as (_ & PW & _).
  apply (grows_pointwise _ _ _ PW). intros i s s' _ [(V & G & _)|(_ & Hl & _ & V & G)].
  - apply later_same; [done|]. unfold slot_is_live. by rewrite V.
  - by apply later_vacated.
Qed.

Definition compacts (o : op) : bool := match o with OCompact _ => true | _ => false end.

Lemma run_op_grows o hp hp' : wf hp -> low_heap hp -> compacts o = false ->
  run_op o hp = Some hp' -> grows (slots hp) (slots hp').
Proof.
  intros W L Hc. destruct o; cbn [run_op compacts] in *; try done.
  - destruct (alloc grow v hp) as [[h hp1]|] eqn:E; [|done]. intros [= <-]. by eapply alloc_grows.
  - destruct (get hp h) as [[r hp1]|] eqn:E; [|done]. intros [= <-]. unfold get in E.
    destruct (if gc_verify hp then _ else _) as [hp2|] eqn:E2; [|done]. injection E as _ <-.
    apply same_slots_grows. by eapply note_poison_use_slots.
  - destruct (get_mut h f hp) as [[r hp1]|] eqn:E; [|done]. intros [= <-]. unfold get_mut in E.
    destruct (if gc_verify hp then _ else _) as [hp2|] eqn:E2; [|done]. cbn in E.
    apply note_poison_use_slots in E2. rewrite <- E2.
    injection E as E. replace hp1 with (peek_mut h f hp2).2 by (by rewrite E). apply peek_mut_grows.
  - destruct (get_mut_append h from f hp) as [[r hp1]|] eqn:E; [|done]. intros [= <-].
    by eapply get_mut_append_grows.
  - intros [= <-]. by apply swap_grows.
  - intros [= <-]. unfold record_edge. destruct (_ && _); [apply remember_grows|apply grows_refl].
  - intros [= <-]. apply free_grows.
  - intros [= <-]. destruct (reserve_fields grow n hp) as (c & e & ->). apply grows_refl.
  - intros [= <-]. unfold reserve_free. destruct (_ || _); [apply grows_refl|by apply top_up_free_grows].
  - intros [= <-]. apply grows_refl.
  - intros [= <-]. apply grows_refl.
  - intros [= <-]. by apply sweep_grows.
  - intros [= <-]. by apply minor_grows.
Qed.

Lemma run_grows ops hp hp' : wf hp -> low_heap hp -> existsb compacts ops = false ->
  run ops hp = Some hp' -> low_heap hp' /\ grows (slots hp) (slots hp').
Proof.
  revert hp. induction ops as [|o ops IH]; intros hp W L Hc; cbn [run existsb] in *.
  { intros [= <-]. split; [done|apply grows_refl]. }
  apply orb_false_iff in Hc as [Ho Hc]. destruct (run_op o hp) as [hp1|] eqn:E; [|done]. cbn. intros Hr.
  pose proof (run_op_grows _ _ _ W L Ho E) as G. pose proof (grows_low _ _ L G) as L1.
  destruct (IH hp1 (run_op_wf _ _ _ W E) L1 Hc Hr) as [L2 G2].
  split; [done|]. by apply (grows_trans _ (slots hp1)).
Qed.

(** A handle that stopped answering never answers again. *)
Lemma stale_stays l1 l2 l3 h s1 : grows l1 l2 -> grows l2 l3 ->
  (forall i s, l1 !! i = Some s -> low_slot s) ->
  l1 !! index h = Some s1 -> slot_get (generation h) s1 <> None ->
  (s2 ← l2 !! index h; slot_get (generation h) s2) = None ->
  (s3 ← l3 !! index h; slot_get (generation h) s3) = None.
Proof.
  intros [G1 _] [G2 _] L Hs1 Hl Hdead. unfold slot_get in *.
  destruct (Z.eqb_spec (slot_generation s1) (generation h)) as [Eg|]; [|done].
  destruct (G1 _ _ Hs1) as (s2 & Hs2 & H1). destruct (H1 (L _ _ Hs1)) as [L2 O1].
  destruct (G2 _ _ Hs2) as (s3 & Hs3 & H2). destruct (H2 L2) as [_ O2].
  rewrite Hs2 in Hdead. rewrite Hs3. cbn in *. unfold slot_is_live in *.
  assert (Hlt : slot_generation s1 < slot_generation s2).
  { destruct O1 as [|[E1 Hv]]; [done|]. rewrite <- E1 in Hdead.
    rewrite (proj2 (Z.eqb_eq _ _) Eg) in Hdead. destruct (value s1); [|done].
    rewrite Hdead in Hv. discriminate (Hv eq_refl). }
  destruct (Z.eqb_spec (slot_generation s3) (generation h)) as [E3|]; [|done].
  destruct O2 as [|[E2 _]]; lia.
Qed.

(** ** The properties *)

(** C17: Every heap reached from an empty one by any history of operations
    (allocations, borrows, stores through the write barrier, swaps, frees, full
    and minor collections, compactions, verification mode) satisfies the
    invariant: the free list names each reusable slot exactly once and no other,
    the live count is exact, every young object is where the minor sweep visits,
    and the remembered set lists exactly the slots that are not clean. *)
Theorem heap_invariant pool epoch ops hp :
  run ops (new (T:=T) (P:=P) pool epoch) = Some hp -> wf hp.
Proof. intros H. exact (run_wf ops _ _ (new_wf pool epoch) H). Qed.

(** C22: No use after free.  Once a handle that was live has stopped answering
    (its object was freed explicitly or swept), no later operation short of a
    compaction makes it answer again, whatever is allocated in its slot. *)
Theorem stale_handles_stay_stale ops1 ops2 hp hp1 hp2 h :
  wf hp -> low_heap hp ->
  existsb compacts ops1 = false -> existsb compacts ops2 = false ->
  run ops1 hp = Some hp1 -> run ops2 hp1 = Some hp2 ->
  peek hp h <> None -> peek hp1 h = None -> peek hp2 h = None.
Proof.
  intros W L C1 C2 R1 R2 Hl Hd.
  destruct (run_grows _ _ _ W L C1 R1) as [L1 G1].
  destruct (run_grows _ _ _ (run_wf _ _ _ W R1) L1 C2 R2) as [_ G2].
  unfold peek in *. destruct (slots hp !! index h) as [s1|] eqn:Hs; [|done].
  by apply (stale_stays _ _ _ h s1 G1 G2).
Qed.

(** Allocation.  While a slot is free or the table may grow, [alloc] succeeds:
    its handle answered nothing before, now answers the new (young) object, every
    other handle answers as before, and one more object is live. *)
Theorem alloc_spec hp v : wf hp ->
  (0 < free_top hp)%nat \/ Z.of_nat (length (slots hp)) < U32_MAX ->
  exists h hp', alloc grow v hp = Some (h, hp') /\
    peek hp h = None /\ peek hp' h = Some v /\ is_young hp' h = true /\
    (forall h', h' <> h -> peek hp' h' = peek hp h') /\ len hp' = len hp + 1.
Proof.
  intros W Hr. destruct (alloc_correct grow hp v W Hr) as (h & hp' & E & _ & H1 & H2 & H3 & H4 & H5).
  exists h, hp'. auto 10.
Qed.

Lemma free_peek hp h x : wf hp -> poison hp = None ->
  peek (free h hp).2 x = if bool_decide (x = h) then None else peek hp x.
Proof.
  intros W Hp. destruct (peek hp h) as [v|] eqn:Hk.
  - destruct (free_live _ _ _ Hp Hk) as (s & Hs & Hv & Hg & ->). cbn [snd].
    assert (Hl : slot_is_live s = true) by (apply live_value; eauto).
    transitivity (if (index x =? index h)%nat then None else peek hp x); [exact (peek_freed _ _ _ x Hs Hl)|].
    destruct (Nat.eqb_spec (index x) (index h)) as [E|Hn].
    + case_bool_decide as Ex; [done|]. unfold peek. rewrite E, Hs. cbn. unfold slot_get.
      destruct (Z.eqb_spec (slot_generation s) (generation x)) as [Eg|]; [|done].
      destruct Ex. destruct h, x. cbn in *. congruence.
    + rewrite bool_decide_eq_false_2; [done|]. by intros ->.
  - rewrite free_stale by done. case_bool_decide as Ex; [by subst x|done].
Qed.

Lemma free_poison hp h : poison hp = None -> poison (free h hp).2 = None.
Proof.
  intros Hp. destruct (peek hp h) as [v|] eqn:Hk; [|by rewrite free_stale].
  by destruct (free_live _ _ _ Hp Hk) as (s & _ & _ & _ & ->).
Qed.

(** Explicit free, outside verification mode.  A live handle's object is
    returned, its handle goes stale, every other handle answers as before and one
    object fewer is live; a stale handle frees nothing. *)
Theorem free_spec hp h : wf hp -> poison hp = None ->
  let '(r, hp') := free h hp in
  r = peek hp h /\ peek hp' h = None /\
  (forall h', h' <> h -> peek hp' h' = peek hp h') /\
  len hp' = len hp - match r with Some _ => 1 | None => 0 end.
Proof.
  intros W Hp. pose proof (fun x => free_peek hp h x W Hp) as K.
  assert (H : (free h hp).1 = peek hp h /\
    len (free h hp).2 = len hp - match peek hp h with Some _ => 1 | None => 0 end).
  { destruct (peek hp h) as [v|] eqn:Hk.
    - destruct (free_live _ _ _ Hp Hk) as (s & _ & _ & _ & ->). split; [done|]. unfold len, freed_heap, len. cbn. lia.
    - rewrite free_stale by done. split; [done|]. unfold len. cbn. lia. }
  destruct (free h hp) as [r hp']. cbn [fst snd] in *. destruct H as [-> Hl]. split_and!; [done| | |done].
  - by rewrite K, bool_decide_eq_true_2.
  - intros x Hx. by rewrite K, bool_decide_eq_false_2.
Qed.

Lemma sweep_young_none keep sticky hp h : wf hp -> is_young (sweep keep sticky hp).2 h = false.
Proof.
  intros W. pose proof (sweep_wf keep sticky hp W) as W'.
  destruct (sweep_eq keep sticky hp) as (pz & pool & Hpz & E). rewrite E in *. cbn [fst snd] in *.
  unfold is_young. destruct (slots _ !! index h) as [s|] eqn:Hs; [|done].
  destruct (slot_is_live s) eqn:Hv; [|done]. destruct (Z.ltb_spec (age s) OLD_AGE) as [Ha|]; [|by rewrite andb_false_r].
  destruct (wf_young _ (proj1 W') _ _ Hs Hv Ha) as [Hin|Hfl].
  - cbn in Hin. rewrite drop_all in Hin. by apply not_elem_of_nil in Hin.
  - cbn in Hfl, Hs. apply lookup_lt_Some in Hs. rewrite slots_map_length in Hs. lia.
Qed.

(** A full sweep, outside verification mode, frees exactly the live objects it
    is not told to keep: every handle to a kept object still answers it, every
    handle to another goes stale, the count of freed objects is returned and
    taken off the live count. *)
Theorem sweep_spec keep sticky hp : wf hp -> poison hp = None ->
  let '(swept, hp') := sweep keep sticky hp in
  (forall h, peek hp' h =
     match peek hp h with
     | Some v => if keep h v then Some v else None
     | None => None
     end) /\
  len hp' = len hp - swept /\ (forall h, is_young hp' h = false).
Proof.
  intros W Hp. pose proof (fun h => sweep_peek keep sticky hp h W Hp) as Hk.
  pose proof (sweep_len keep sticky hp W Hp) as Hl.
  pose proof (fun h => sweep_young_none keep sticky hp h W) as Hy.
  destruct (sweep keep sticky hp) as [n hp']. done.
Qed.

(** C25: The minor sweep's optimised loops (runs of freed entries moved down as one
    block, the freed count derived from the free list's growth) compute exactly
    the heap and count of the plain per-entry loops. *)
Theorem sweep_young_optimised rescanned sticky hp : wf0 hp -> poison hp = None ->
  sweep_young rescanned sticky hp =
    let hp := fold_allocs hp in
    let '(l, rem) := settle_rescanned sticky rescanned (slots hp) (remembered hp) in
    sweep_young_slow sticky l rem hp.
Proof. intros W Hp. apply sweep_young_slow_fast; [done|apply W..]. Qed.

(** Compaction.  The forwarding map covers exactly the live objects to keep;
    each one's new handle, of the fresh generation, answers what the old one did;
    distinct objects get distinct handles; nothing else is live afterwards. *)
Theorem compact_spec keep hp :
  let '(m, hp') := compact_to grow keep hp in
  (forall old, peek hp old <> None /\ keep old = true <-> exists new, (old, new) ∈ m) /\
  (forall old new, (old, new) ∈ m ->
     peek hp' new = peek hp old /\ generation new = compact_gen hp) /\
  (forall old1 old2 new1 new2, (old1, new1) ∈ m -> (old2, new2) ∈ m -> (old1 = old2 <-> new1 = new2)) /\
  (forall new, peek hp' new <> None <-> exists old, (old, new) ∈ m).
Proof. apply compact_to_spec. Qed.

End spec.

(** A heap handle survives boxing: its 48-bit packed form is the payload of a
    NaN-boxed handle, and unpacking the payload gives the handle back. *)
Theorem handle_boxing_roundtrip h : Z.of_nat (index h) < 2 ^ 32 -> in_u 16 (generation h) ->
  as_handle (handle (to_raw h)) = Some (to_raw h) /\ from_raw (to_raw h) = h.
Proof.
  destruct h as [i g]. unfold in_u. cbn [index generation]. intros Hi Hg.
  assert (E : to_raw (MkHandle i g) = g * 2 ^ 32 + Z.of_nat i).
  { unfold to_raw. cbn [index generation]. apply lor_pack; lia. }
  assert (Hr : in_u 48 (to_raw (MkHandle i g))) by (rewrite E; red; lia).
  split.
  - unfold as_handle. by rewrite handle_is_handle, handle_payload.
  - unfold from_raw. rewrite E. f_equal.
    + change 0xffffffff with (Z.ones 32). rewrite Z.land_ones by lia. div_lia.
    + change 0xffff with (Z.ones 16). rewrite Z.land_ones, Z.shiftr_div_pow2 by lia. div_lia.
Qed.

Lemma handle_boxing_roundtrip_witness :
  as_handle (handle (to_raw (MkHandle 77 40000))) = Some (40000 * 2 ^ 32 + 77).
Proof.
  refine (eq_trans (proj1 (handle_boxing_roundtrip (MkHandle 77 40000) _ _)) eq_refl); concrete.
Defined.

(** ** A concrete element: an object that is the list of handles it holds *)

#[export] Instance list_trace : Trace (list Handle) unit.
Proof.
  refine {| trace_each v := v; weight v := 1 + Z.of_nat (length v); interior_mutable _ := false;
    trace_tail v n := drop n v; trace_head v n := take n v;
    release_in place pool := (None, pool) |}.
  - done.
  - intros v n e H. rewrite <- (take_drop n v) in H. by apply in_app_or in H.
  - intros v n e H. rewrite <- (take_drop n v). apply in_or_app. by right.
  - intros v n e H. rewrite <- (take_drop n v). apply in_or_app. by left.
  - intros v n m e Hn H. rewrite <- (take_drop n (take m v)), take_take, Nat.min_l by done.
    apply in_or_app. by left.
Defined.

Definition vec_grow (cap n : nat) : nat := Nat.max n (2 * cap).
Definition empty : Heap (list Handle) unit := new tt 0.
Definition h0 : Handle := MkHandle 0 0.
Definition h1 : Handle := MkHandle 1 0.

(** Two objects, the first pointing at the second; a full collection that keeps
    both; then a third, young, object. *)
Definition example_ops : list (op (T:=list Handle)) :=
  [OAlloc [h1]; OAlloc []; OSweep (fun _ _ => true) (fun _ => false); OAlloc [h0]].

Definition example_heap : Heap (list Handle) unit :=
  default empty (run vec_grow example_ops empty).

Lemma example_run : run vec_grow example_ops empty = Some example_heap.
Proof. vm_compute. reflexivity. Qed.

Lemma example_wf : wf example_heap.
Proof. exact (run_wf vec_grow _ _ _ (new_wf tt 0) example_run). Qed.

Lemma empty_low : low_heap empty.
Proof. intros i s H. destruct i; discriminate H. Qed.

Lemma example_low : low_heap example_heap.
Proof.
  by destruct (run_grows vec_grow example_ops _ _ (new_wf tt 0) empty_low eq_refl example_run).
Qed.

Lemma heap_invariant_witness : wf example_heap /\ len example_heap = 3.
Proof. split; [exact (heap_invariant vec_grow tt 0 example_ops _ example_run)|reflexivity]. Defined.

(** The slot of a freed handle is reused (generation 1), the old handle is stale. *)
Definition example_freed : Heap (list Handle) unit := default empty (run vec_grow [OFree h0] example_heap).
Definition example_reused : Heap (list Handle) unit := default empty (run vec_grow [OAlloc []] example_freed).

Lemma stale_handles_stay_stale_witness :
  peek example_reused h0 = None /\ peek example_reused (MkHandle 0 1) = Some [].
Proof.
  assert (E1 : run vec_grow [OFree h0] example_heap = Some example_freed) by (vm_compute; reflexivity).
  assert (E2 : run vec_grow [OAlloc []] example_freed = Some example_reused) by (vm_compute; reflexivity).
  assert (Hl : peek example_heap h0 <> None) by (vm_compute; discriminate).
  assert (Hd : peek example_freed h0 = None) by (vm_compute; reflexivity).
  split; [|vm_compute; reflexivity].
  exact (stale_handles_stay_stale vec_grow [OFree h0] [OAlloc []] example_heap example_freed
    example_reused h0 example_wf example_low eq_refl eq_refl E1 E2 Hl Hd).
Defined.

Lemma alloc_spec_witness : exists h hp', alloc vec_grow [] example_heap = Some (h, hp') /\ len hp' = 4.
Proof.
  destruct (alloc_spec vec_grow example_heap [] example_wf) as (h & hp' & E & _ & _ & _ & _ & L).
  - left. vm_compute. repeat constructor.
  - exists h, hp'. split; [exact E|]. rewrite L. reflexivity.
Defined.

Lemma free_spec_witness : peek (free h0 example_heap).2 h0 = None /\ len (free h0 example_heap).2 = 2.
Proof.
  pose proof (free_spec example_heap h0 example_wf eq_refl) as H.
  destruct (free h0 example_heap) as [r hp'] eqn:E. destruct H as (Hr & Hp & _ & Hl).
  split; [exact Hp|]. cbn [snd]. rewrite Hl, Hr. vm_compute. reflexivity.
Defined.

Definition keep_h0 (h : Handle) (v : list Handle) : bool := bool_decide (h = h0).

Lemma sweep_spec_witness :
  let '(n, hp') := sweep keep_h0 (fun _ => false) example_heap in peek hp' h1 = None.
Proof.
  pose proof (sweep_spec keep_h0 (fun _ => false) example_heap example_wf eq_refl) as H.
  revert H. destruct (sweep keep_h0 (fun _ => false) example_heap) as [n hp'].
  intros (H & _). rewrite (H h1). vm_compute. reflexivity.
Defined.

Lemma sweep_young_optimised_witness : (sweep_young [] (fun _ => false) example_heap).1 = 1.
Proof.
  rewrite (sweep_young_optimised [] (fun _ => false) example_heap (proj1 example_wf) eq_refl).
  vm_compute. reflexivity.
Defined.

(** Generations of a compacted slot do wrap: after 2^15 compactions a freed
    slot goes back to generation 0 (it is not retired, as the comment of [free]
    says), and the handle of the very first allocation answers a new object. *)
Theorem generation_wraps_after_compactions :
  exists hp,
    run vec_grow (OAlloc [] :: replicate (Z.to_nat 32768) (OCompact (fun _ => true)) ++
                  [OFree (MkHandle 0 65535); OAlloc [h1]]) empty = Some hp /\
    peek hp h0 = Some [h1].
Proof. eexists. split; vm_compute; reflexivity. Qed.
