(* ===== verification/Gc.v ===== *)
(** * The collector: [src/src/gc.rs]

    Mark and sweep over the heap of [Heap.v]: full collections with ephemeron
    expansion, minor (generational) collections, compaction with reference
    fix-up, and the incremental marker.

    A work list is a [Vec] used as a stack; the model keeps its top first.  The
    hooks a caller passes ([scan], [expand]) are functions of what they are given.
    The marking loops pop each marked object once, so the number of slots bounds
    their iterations: that is their fuel, and the theorems of [GcSpec.v] show the
    work list is empty when they return.  Reading an object is [peek]: in
    verification mode [Heap::get] would besides count uses of collected handles,
    which no result below depends on. *)

From S2P Require Import Prelude Heap.

Open Scope Z_scope.

(** ** Marks *)

Record MarkSet := MkMarkSet { marks : list Z; mark_count : Z }.

Definition with_slots_count (n : nat) : MarkSet := MkMarkSet (replicate n 0) 0.

(** [Vec::resize]. *)
Definition resize (n : nat) (x : Z) (l : list Z) : list Z := take n l ++ replicate (n - length l) x.

Definition mark_insert (h : Handle) (m : MarkSet) : bool * MarkSet :=
  let i := index h in
  let ms := if (length (marks m) <=? i)%nat then resize (i + 1) 0 (marks m) else marks m in
  let tag := generation h + 1 in
  if ms !!! i =? tag then (false, MkMarkSet ms (mark_count m))
  else
    let c := if ms !!! i =? 0 then mark_count m + 1 else mark_count m in
    (true, MkMarkSet (<[i := tag]> ms) c).

Definition mark_contains (m : MarkSet) (h : Handle) : bool :=
  match marks m !! index h with
  | Some t => t =? generation h + 1
  | None => false
  end.

Definition mark_len (m : MarkSet) : Z := mark_count m.
Definition mark_is_empty (m : MarkSet) : bool := mark_count m =? 0.

Fixpoint mark_iter_from (i : nat) (l : list Z) : list Handle :=
  match l with
  | [] => []
  | t :: l => if negb (t =? 0) then MkHandle i (t - 1) :: mark_iter_from (S i) l else mark_iter_from (S i) l
  end.
Definition mark_iter (m : MarkSet) : list Handle := mark_iter_from 0 (marks m).

Record Stats := MkStats { st_marked : Z; st_swept : Z; st_weight : Z }.

(** Elements whose handles can be rewritten: the trait [Relocate]. *)
Class Relocate (T P : Type) {trace : Trace T P} := {
  relocate_obj : (Handle -> Handle) -> T -> T;
  trace_relocate f v : trace_each (relocate_obj f v) = map f (trace_each v)
}.

Section gc.
Context {T P : Type} {trace : Trace T P}.
Context (grow : nat -> nat -> nat).

Implicit Types (hp : Heap T P) (h : Handle) (m : MarkSet).

(** ** Full collections *)

(** Marking a list of targets: live, not yet marked ones are pushed. *)
Fixpoint push_live hp (es : list Handle) m (work : list Handle) : MarkSet * list Handle :=
  match es with
  | [] => (m, work)
  | e :: es =>
      if is_live hp e then
        let '(fresh, m) := mark_insert e m in
        push_live hp es m (if fresh then e :: work else work)
      else push_live hp es m work
  end.

Fixpoint drain (fuel : nat) hp (scan : T -> list Handle) m (work : list Handle)
    : MarkSet * list Handle :=
  match fuel with
  | O => (m, work)
  | S fuel =>
      match work with
      | [] => (m, [])
      | h :: work =>
          match peek hp h with
          | None => drain fuel hp scan m work
          | Some obj =>
              let '(m, work) := push_live hp (trace_each obj) m work in
              let '(m, work) := push_live hp (scan obj) m work in
              drain fuel hp scan m work
          end
      end
  end.

Definition drain_fuel hp : nat := S (slot_capacity hp).

Definition mark hp (roots : list Handle) : MarkSet :=
  let '(m, work) := push_live hp roots (with_slots_count (slot_capacity hp)) [] in
  fst (drain (drain_fuel hp) hp (fun _ => []) m work).

(** The ephemeron [loop] of [mark_with_ephemerons_scan]. *)
Fixpoint ephemerons (fuel : nat) hp (scan : T -> list Handle)
    (expand : Heap T P -> MarkSet -> list Handle) m : MarkSet * bool :=
  match fuel with
  | O => (m, false)
  | S fuel =>
      let '(m1, work) := push_live hp (expand hp m) m [] in
      match work with
      | [] => (m1, true)
      | _ :: _ => ephemerons fuel hp scan expand (fst (drain (drain_fuel hp) hp scan m1 work))
      end
  end.

Definition mark_with_ephemerons_scan hp (roots : list Handle) (scan : T -> list Handle)
    (expand : Heap T P -> MarkSet -> list Handle) : MarkSet :=
  let '(m, work) := push_live hp roots (with_slots_count (slot_capacity hp)) [] in
  let m := fst (drain (drain_fuel hp) hp scan m work) in
  fst (ephemerons (drain_fuel hp) hp scan expand m).

Definition mark_with_ephemerons hp roots expand : MarkSet :=
  mark_with_ephemerons_scan hp roots (fun _ => []) expand.

Definition collect (roots : list Handle) hp : Stats * Heap T P :=
  let m := mark hp roots in
  let '(swept, hp) := sweep (fun h _ => mark_contains m h) interior_mutable hp in
  (MkStats (mark_len m) swept (mark_len m), hp).

(** The weight summed by the [keep] callback of [sweep_full], over the live slots
    in order ([usize::saturating_add]). *)
Fixpoint kept_weight m (i : nat) (l : list (Slot T)) (w : Z) : Z :=
  match l with
  | [] => w
  | s :: l =>
      match value s with
      | Some v =>
          kept_weight m (S i) l
            (if mark_contains m (MkHandle i (slot_generation s)) then Z.min (2 ^ 64 - 1) (w + weight v) else w)
      | None => kept_weight m (S i) l w
      end
  end.

Definition sweep_full m hp : Stats * Heap T P :=
  let w := kept_weight m 0 (slots hp) 0 in
  let '(swept, hp) := sweep (fun h _ => mark_contains m h) interior_mutable hp in
  (MkStats (mark_len m) swept w, hp).

(** ** Minor collections *)

(** [MinorLive]: alive as far as a minor collection is concerned. *)
Definition minor_live hp h : bool :=
  match handle_age hp h with Some a => OLD_AGE <=? a | None => false end.

(** Promoting a list of targets: the young ones are pushed and counted. *)
Fixpoint promote_each (es : list Handle) hp (work : list Handle) (n : Z)
    : Heap T P * list Handle * Z :=
  match es with
  | [] => (hp, work, n)
  | e :: es =>
      let '(young, hp) := promote_young e hp in
      if young then promote_each es hp (e :: work) (n + 1) else promote_each es hp work n
  end.

Definition remembered_edges (scan : T -> list Handle) (i : nat) hp : list Handle :=
  match (h ← live_handle_at i hp; peek hp h) with
  | Some obj =>
      (if (remembered_from i hp =? 0)%nat then trace_each obj
       else trace_tail obj (remembered_from i hp)) ++ scan obj
  | None => []
  end.

Fixpoint rescan (scan : T -> list Handle) (is_ : list nat) hp (work : list Handle) (n : Z)
    : Heap T P * list Handle * Z :=
  match is_ with
  | [] => (hp, work, n)
  | i :: is_ =>
      let '(hp, work, n) := promote_each (remembered_edges scan i hp) hp work n in
      rescan scan is_ hp work n
  end.

Fixpoint minor_drain (fuel : nat) (scan : T -> list Handle) hp (work : list Handle) (n : Z)
    : Heap T P * list Handle * Z :=
  match fuel with
  | O => (hp, work, n)
  | S fuel =>
      match work with
      | [] => (hp, [], n)
      | h :: work =>
          let es := match peek hp h with Some obj => trace_each obj ++ scan obj | None => [] end in
          let '(hp, work, n) := promote_each es hp work n in
          minor_drain fuel scan hp work n
      end
  end.

Fixpoint minor_loop (fuel : nat) (scan : T -> list Handle)
    (expand : Heap T P -> (Handle -> bool) -> list Handle) hp (work : list Handle) (n : Z)
    : Heap T P * Z * bool :=
  match fuel with
  | O => (hp, n, false)
  | S fuel =>
      let '(hp, work, n) := minor_drain (drain_fuel hp) scan hp work n in
      let '(hp, work, n) := promote_each (expand hp (minor_live hp)) hp work n in
      match work with
      | [] => (hp, n, true)
      | _ :: _ => minor_loop fuel scan expand hp work n
      end
  end.

Record MinorMark := MkMinorMark { mm_rescanned : list nat; mm_marked : Z }.

Definition mark_minor (roots : list Handle) (scan : T -> list Handle)
    (expand : Heap T P -> (Handle -> bool) -> list Handle) hp : MinorMark * Heap T P :=
  let '(hp, work, n) := promote_each roots hp [] 0 in
  let '(rescanned, hp) := take_remembered hp in
  let '(hp, work, n) := rescan scan rescanned hp work n in
  let '(hp, n, _) := minor_loop (drain_fuel hp) scan expand hp work n in
  (MkMinorMark rescanned n, hp).

Definition sweep_minor (mk : MinorMark) hp : Stats * Heap T P :=
  let '(swept, hp) := sweep_young (mm_rescanned mk) interior_mutable hp in
  (MkStats (mm_marked mk) swept (mm_marked mk), hp).

Definition collect_minor_with (roots : list Handle) (scan : T -> list Handle)
    (expand : Heap T P -> (Handle -> bool) -> list Handle) hp : Stats * Heap T P :=
  let '(mk, hp) := mark_minor roots scan expand hp in sweep_minor mk hp.

Definition collect_minor (roots : list Handle) hp : Stats * Heap T P :=
  collect_minor_with roots (fun _ => []) (fun _ _ => []) hp.

Definition gc_remembered_violation (scan : T -> list Handle) hp : option (Handle * Handle) :=
  remembered_violation (fun v => trace_each v ++ scan v) trace_head interior_mutable hp.

(** ** Compaction *)

Definition forward (m : list (Handle * Handle)) (h : Handle) : Handle :=
  match List.find (fun p => bool_decide (p.1 = h)) m with Some p => p.2 | None => h end.

Context {reloc : Relocate T P}.

(** The loop of [relocate]: the write barrier of [get_mut] included; [None] is the
    verification mode's panic. *)
Fixpoint relocate_all (f : Handle -> Handle) (hs : list Handle) hp : option (Heap T P) :=
  match hs with
  | [] => Some hp
  | h :: hs => '(_, hp) ← get_mut h (relocate_obj f) hp; relocate_all f hs hp
  end.

Definition relocate (f : Handle -> Handle) hp : option (Heap T P) :=
  relocate_all f (live_handles hp) hp.

(** The caller's [fixup] receives the returned forwarding function. *)
Definition compact_with (roots : list Handle) hp
    : option (Stats * Heap T P * list Handle * (Handle -> Handle)) :=
  let before := len hp in
  let m := mark hp roots in
  let '(map, hp) := compact_to grow (mark_contains m) hp in
  hp ← relocate (forward map) hp;
  Some (MkStats (mark_len m) (before - mark_len m) (mark_len m), hp,
        List.map (forward map) roots, forward map).

(** ** Incremental marking *)

Record IncrementalMarker := MkMarker { im_marked : gset Handle; im_grey : list Handle }.

Definition mark_grey (h : Handle) (k : IncrementalMarker) : IncrementalMarker :=
  if bool_decide (h ∈ im_marked k) then k
  else MkMarker ({[h]} ∪ im_marked k) (h :: im_grey k).

Definition marker_new (roots : list Handle) : IncrementalMarker :=
  foldl (fun k h => mark_grey h k) (MkMarker ∅ []) roots.

Fixpoint step (budget : nat) hp (k : IncrementalMarker) : bool * IncrementalMarker :=
  match budget with
  | O => (match im_grey k with [] => true | _ :: _ => false end, k)
  | S budget =>
      match im_grey k with
      | [] => (true, k)
      | h :: grey =>
          let edges := match peek hp h with Some obj => trace_each obj | None => [] end in
          step budget hp
            (foldl (fun k e => if is_live hp e then mark_grey e k else k)
               (MkMarker (im_marked k) grey) edges)
      end
  end.

Definition is_complete (k : IncrementalMarker) : bool :=
  match im_grey k with [] => true | _ :: _ => false end.

Fixpoint free_unmarked (k : IncrementalMarker) (hs : list Handle) hp (swept : Z) : Z * Heap T P :=
  match hs with
  | [] => (swept, hp)
  | h :: hs =>
      if bool_decide (h ∈ im_marked k) then free_unmarked k hs hp swept
      else free_unmarked k hs (free h hp).2 (swept + 1)
  end.

Definition marker_sweep (k : IncrementalMarker) hp : Z * Heap T P :=
  free_unmarked k (live_handles hp) hp 0.

End gc.
