(* ===== verification/GcMark.v ===== *)
(** * Marking computes reachability

    The mark set as a set of handles, and the marking loops: they end with an
    empty work list, and mark exactly the objects reachable from the roots. *)

From S2P Require Import Prelude Heap HeapInv Gc.

Open Scope Z_scope.

Section mark.
Context {T P : Type} {trace : Trace T P}.

Implicit Types (hp : Heap T P) (h e : Handle) (m : MarkSet).

(** ** Reachability *)

Inductive reach hp (edges : T -> list Handle) (roots : list Handle) : Handle -> Prop :=
| reach_root h : In h roots -> is_live hp h = true -> reach hp edges roots h
| reach_edge h v e : reach hp edges roots h -> peek hp h = Some v -> In e (edges v) ->
    is_live hp e = true -> reach hp edges roots e.

Lemma is_live_peek hp h : is_live hp h = true <-> exists v, peek hp h = Some v.
Proof.
  unfold is_live, peek, slot_get, slot_is_live. destruct (slots hp !! index h) as [s|]; cbn.
  - destruct (value s) as [v|], (slot_generation s =? generation h); cbn; naive_solver.
  - naive_solver.
Qed.

Lemma not_live_peek hp h : is_live hp h = false <-> peek hp h = None.
Proof.
  pose proof (is_live_peek hp h). destruct (is_live hp h), (peek hp h); naive_solver.
Qed.

(** ** Mark sets *)

(** Marks are for live handles only, one slot each. *)
Definition marks_ok hp m : Prop :=
  length (marks m) = length (slots hp) /\
  forall i t, marks m !! i = Some t -> t <> 0 -> is_live hp (MkHandle i (t - 1)) = true.

Definition zeros (l : list Z) : nat := length (List.filter (Z.eqb 0) l).
#[local] Arguments zeros : simpl never.

Lemma zeros_insert l i t : l !! i = Some 0 -> t <> 0 -> S (zeros (<[i := t]> l)) = zeros l.
Proof.
  revert i. induction l as [|x l IH]; intros [|i] Hi Ht; cbn in Hi; try done.
  - injection Hi as ->. cbn [insert list_insert]. unfold zeros. cbn [List.filter].
    rewrite (proj2 (Z.eqb_neq 0 t)) by lia. done.
  - change (<[S i := t]> (x :: l)) with (x :: <[i := t]> l). specialize (IH i Hi Ht).
    unfold zeros in *. cbn [List.filter]. destruct (0 =? x); cbn [length]; rewrite <- IH; reflexivity.
Qed.

Lemma zeros_le l : (zeros l <= length l)%nat.
Proof.
  unfold zeros. induction l as [|x l IH]; [done|]. cbn [List.filter length].
  destruct (0 =? x); cbn [length]; lia.
Qed.

Lemma marks_ok_new hp : marks_ok hp (with_slots_count (slot_capacity hp)).
Proof.
  split; cbn; [apply length_replicate|]. intros i t [-> _]%lookup_replicate. done.
Qed.

Lemma contains_new n h : mark_contains (with_slots_count n) h = true -> generation h = -1.
Proof.
  unfold mark_contains. cbn. destruct (replicate n 0 !! index h) as [t|] eqn:E; [|done].
  apply lookup_replicate in E as [-> _]. intros H%Z.eqb_eq. lia.
Qed.

Lemma live_generation hp h : wf0 hp -> is_live hp h = true ->
  0 <= generation h < 65536 /\ (index h < length (slots hp))%nat.
Proof.
  intros W. unfold is_live. destruct (slots hp !! index h) as [s|] eqn:Hs; [|done].
  intros [_ E]%andb_true_iff. apply Z.eqb_eq in E. split; [|by eapply lookup_lt_Some].
  rewrite <- E. apply (ok_gen _ (wf_slot _ W _ _ Hs)).
Qed.

Lemma live_unique hp i g1 g2 : is_live hp (MkHandle i g1) = true -> is_live hp (MkHandle i g2) = true -> g1 = g2.
Proof.
  unfold is_live. cbn. destruct (slots hp !! i) as [s|]; [|done].
  intros [_ E1]%andb_true_iff [_ E2]%andb_true_iff. apply Z.eqb_eq in E1, E2. congruence.
Qed.

(** Only live handles are members. *)
Lemma contains_live hp m h : marks_ok hp m -> 0 <= generation h -> mark_contains m h = true ->
  is_live hp h = true.
Proof.
  intros [_ H] Hg. unfold mark_contains. destruct (marks m !! index h) as [t|] eqn:E; [|done].
  intros Ht%Z.eqb_eq. specialize (H _ _ E ltac:(lia)).
  replace (MkHandle (index h) (t - 1)) with h in H; [done|]. destruct h. cbn in *. f_equal. lia.
Qed.

Lemma mark_insert_spec hp m e : wf0 hp -> marks_ok hp m -> is_live hp e = true ->
  let '(fresh, m') := mark_insert e m in
  fresh = negb (mark_contains m e) /\ marks_ok hp m' /\
  (forall h, 0 <= generation h -> mark_contains m' h = true <-> h = e \/ mark_contains m h = true) /\
  (zeros (marks m') + (if fresh then 1 else 0) = zeros (marks m))%nat /\
  mark_count m' = mark_count m + (if fresh then 1 else 0).
Proof.
  intros W [L M] He. destruct (live_generation hp e W He) as [Hg Hi]. unfold mark_insert.
  rewrite (proj2 (Nat.leb_gt (length (marks m)) (index e))) by lia.
  destruct (lookup_lt_is_Some_2 (marks m) (index e)) as [t Ht]; [lia|].
  assert (Et : marks m !!! index e = t) by (by apply list_lookup_total_correct).
  rewrite Et. destruct (Z.eqb_spec t (generation e + 1)) as [E|E].
  - assert (C : mark_contains m e = true) by (unfold mark_contains; rewrite Ht; by apply Z.eqb_eq).
    replace (MkMarkSet (marks m) (mark_count m)) with m by (by destruct m). rewrite C.
    split_and!; [done..| |lia|lia]. intros h _. split; [by right|]. by intros [->|].
  - assert (H0 : t = 0).
    { destruct (Z.eq_dec t 0) as [|Hn]; [done|]. specialize (M _ _ Ht Hn).
      destruct e as [i g]. cbn in *. pose proof (live_unique hp i _ _ M He). lia. }
    rewrite H0 in *. clear t H0. cbn [Z.eqb].
    assert (C : mark_contains m e = false).
    { unfold mark_contains. rewrite Ht. apply Z.eqb_neq. lia. }
    rewrite C. split; [done|]. split; [|split; [|split]].
    + split; cbn; [by rewrite length_insert|]. intros i t Hit Hn.
      destruct (decide (index e = i)) as [<-|Hne].
      * rewrite list_lookup_insert_eq in Hit by lia. injection Hit as <-.
        replace (generation e + 1 - 1) with (generation e) by lia. by destruct e.
      * rewrite list_lookup_insert_ne in Hit by done. eauto.
    + intros h Hgh. unfold mark_contains. cbn. destruct (decide (index e = index h)) as [Ei|Hne].
      * rewrite <- Ei, list_lookup_insert_eq, Ht by lia. rewrite !Z.eqb_eq. split.
        -- intros Eg. left. destruct e, h. cbn in *. f_equal; [done|lia].
        -- intros [->|Eg]; [lia|lia].
      * rewrite list_lookup_insert_ne by done. split; [by right|].
        intros [->|]; done.
    + pose proof (zeros_insert (marks m) (index e) (generation e + 1) Ht ltac:(lia)). cbn. lia.
    + done.
Qed.

(** Marking a list of targets. *)
Lemma push_live_spec hp es m work : wf0 hp -> marks_ok hp m ->
  let '(m', work') := push_live hp es m work in
  marks_ok hp m' /\
  (forall h, 0 <= generation h ->
     mark_contains m' h = true <-> (In h es /\ is_live hp h = true) \/ mark_contains m h = true) /\
  (forall h, 0 <= generation h ->
     In h work' <-> (mark_contains m' h = true /\ mark_contains m h = false) \/ In h work) /\
  (zeros (marks m') + length work' = zeros (marks m) + length work)%nat.
Proof.
  intros W. revert m work. induction es as [|e es IH]; intros m work M; cbn [push_live].
  { split_and!; try done; intros h _; [naive_solver|]. destruct (mark_contains m h); naive_solver. }
  destruct (is_live hp e) eqn:He.
  - pose proof (mark_insert_spec hp m e W M He) as H.
    destruct (mark_insert e m) as [fresh m1]. destruct H as (Hf & M1 & C1 & Z1 & _).
    specialize (IH m1 (if fresh then e :: work else work) M1).
    destruct (push_live hp es m1 _) as [m' work']. destruct IH as (M' & C' & W' & Z').
    split; [done|]. split; [|split].
    + intros h Hg. rewrite C', C1 by done. cbn [In]. naive_solver.
    + intros h Hg. rewrite W' by done. specialize (C1 h Hg). specialize (C' h Hg).
      destruct fresh; cbn [In].
      * symmetry in Hf. apply negb_true_iff in Hf. split.
        -- intros [[H1 H2]|[<-|H]]; [|left|by right].
           ++ left. split; [done|]. destruct (mark_contains m h); [|done].
              rewrite (proj2 C1 (or_intror eq_refl)) in H2. done.
           ++ split; [|done]. apply C'. right. apply C1. by left.
        -- intros [[H1 H2]|H]; [|by right; right].
           destruct (mark_contains m1 h) eqn:E1; [|by left]. right.
           destruct (proj1 C1 eq_refl) as [->|]; [by left|congruence].
      * destruct (mark_contains m e) eqn:E; [|done].
        assert (Eq : mark_contains m1 h = mark_contains m h).
        { apply eq_true_iff_eq. rewrite C1. split; [|by right]. by intros [->|]. }
        by rewrite Eq.
    + destruct fresh; cbn [length] in *; lia.
  - specialize (IH m work M). destruct (push_live hp es m work) as [m' work'].
    destruct IH as (M' & C' & W' & Z'). split_and!; try done.
    intros h Hg. rewrite C' by done. cbn [In]. split; [naive_solver|].
    intros [[[<-|] ]|]; [congruence|naive_solver..].
Qed.

Lemma push_live_app hp es1 es2 m work :
  push_live hp (es1 ++ es2) m work =
    let '(m, work) := push_live hp es1 m work in push_live hp es2 m work.
Proof.
  revert m work. induction es1 as [|e es1 IH]; intros m work; cbn [app push_live]; [done|].
  destruct (is_live hp e); [|apply IH]. destruct (mark_insert e m) as [[] m1]; apply IH.
Qed.

(** ** Draining the work list *)

Section drain.
Context (hp : Heap T P) (scan : T -> list Handle) (Q : Handle -> Prop).
Context (W : wf0 hp).

Definition edges (v : T) : list Handle := trace_each v ++ scan v.

(** [Q] holds of the marked objects and is closed under edges. *)
Context (Q_edge : forall h v e, Q h -> peek hp h = Some v -> In e (edges v) -> is_live hp e = true -> Q e).

(** All the edges of [h] lead to marked objects. *)
Definition scanned m h : Prop :=
  forall v e, peek hp h = Some v -> In e (edges v) -> is_live hp e = true -> mark_contains m e = true.

Record drain_inv m (work : list Handle) : Prop := {
  di_marks : marks_ok hp m;
  di_work : forall h, In h work -> 0 <= generation h /\ mark_contains m h = true;
  di_black : forall h, 0 <= generation h -> mark_contains m h = true -> In h work \/ scanned m h;
  di_sound : forall h, 0 <= generation h -> mark_contains m h = true -> Q h
}.

Lemma pushed_work_gen m es work m' work' : marks_ok hp m -> push_live hp es m work = (m', work') ->
  (forall h, In h work -> 0 <= generation h) -> (forall h, In h work' -> 0 <= generation h).
Proof using W.
  intros M. revert m work M. induction es as [|e es IH]; intros m work M; cbn [push_live].
  { by intros [= <- <-]. }
  destruct (is_live hp e) eqn:He; [|by apply IH].
  pose proof (mark_insert_spec hp m e W M He) as H. destruct (mark_insert e m) as [fresh m1].
  destruct H as (_ & M1 & _). intros E Hw. eapply IH; [done|exact E|].
  intros h Hh. destruct fresh; [|auto]. destruct Hh as [<-|]; [|auto].
  apply (live_generation hp e W He).
Qed.

Lemma drain_spec fuel m work : drain_inv m work -> (zeros (marks m) + length work < fuel)%nat ->
  exists m', drain fuel hp scan m work = (m', []) /\ drain_inv m' [] /\
    (zeros (marks m') <= zeros (marks m) + length work)%nat /\
    (forall h, 0 <= generation h -> mark_contains m h = true -> mark_contains m' h = true).
Proof using W Q_edge.
  revert m work. induction fuel as [|fuel IH]; intros m work I Hf; [lia|].
  destruct work as [|h work]; cbn [drain].
  { exists m. split_and!; try done. lia. }
  destruct I as [M Wk B S]. destruct (Wk h (or_introl eq_refl)) as [Hgh Hch].
  assert (Hlive : is_live hp h = true) by (by apply (contains_live hp m)).
  destruct (proj1 (is_live_peek _ _) Hlive) as [v Hv]. rewrite Hv.
  pose proof (push_live_spec hp (edges v) m work W M) as H. unfold edges in H.
  rewrite push_live_app in H.
  assert (Happ : (let '(m, work) := push_live hp (trace_each v) m work in push_live hp (scan v) m work)
    = push_live hp (edges v) m work) by (unfold edges; by rewrite push_live_app).
  destruct (push_live hp (trace_each v) m work) as [m1 work1].
  destruct (push_live hp (scan v) m1 work1) as [m2 work2].
  destruct H as (M2 & C2 & W2 & Z2).
  pose proof (pushed_work_gen m (edges v) work m2 work2 M (eq_sym Happ)
    (fun h' Hh' => proj1 (Wk h' (or_intror Hh')))) as Hgen.
  destruct (IH m2 work2) as (m' & E & I' & Z' & K').
  - split; [done| | |].
    + intros x Hx. split; [by apply Hgen|]. apply (W2 x (Hgen x Hx)) in Hx as [[? _]|Hx]; [done|].
      apply C2; [by apply (Wk x); right|]. right. apply Wk. by right.
    + intros x Hgx Hx.
      assert (Hmono : forall y, scanned m y -> scanned m2 y).
      { intros y Hy w e Hw He Hl. destruct (live_generation hp e W Hl) as [[? _] _].
        apply C2; [done|]. right. by eapply Hy. }
      destruct (mark_contains m x) eqn:Ex; [|left; apply W2; auto].
      destruct (B x Hgx Ex) as [[<-|Hin]|Hs].
      * right. intros w e Hw He Hl. rewrite Hv in Hw. injection Hw as <-.
        destruct (live_generation hp e W Hl) as [[? _] _]. apply C2; [done|]. by left.
      * left. apply W2; [done|]. by right.
      * right. by apply Hmono.
    + intros x Hgx Hx. apply C2 in Hx as [[Hin Hl]|Hx]; [|by apply S|done].
      eapply Q_edge; [apply (S h Hgh Hch)|exact Hv|exact Hin|done].
  - cbn [length] in Hf. lia.
  - exists m'. split_and!; try done.
    + cbn [length]. lia.
    + intros x Hgx Hx. apply K'; [done|]. apply C2; [done|]. by right.
Qed.

(** The roots, then the drain. *)
Lemma mark_roots_spec roots m : marks_ok hp m -> (zeros (marks m) <= slot_capacity hp)%nat ->
  (forall h, 0 <= generation h -> mark_contains m h = true -> Q h /\ scanned m h) ->
  (forall h, In h roots -> is_live hp h = true -> Q h) ->
  exists m', (let '(m, work) := push_live hp roots m [] in drain (drain_fuel hp) hp scan m work) = (m', []) /\
    drain_inv m' [] /\ (zeros (marks m') <= slot_capacity hp)%nat /\
    (forall h, In h roots -> is_live hp h = true -> mark_contains m' h = true) /\
    (forall h, 0 <= generation h -> mark_contains m h = true -> mark_contains m' h = true).
Proof using W Q_edge.
  intros M Hz Hm Hr. pose proof (push_live_spec hp roots m [] W M) as H.
  destruct (push_live hp roots m []) as [m1 work] eqn:E1. destruct H as (M1 & C1 & W1 & Z1).
  pose proof (pushed_work_gen m roots [] m1 work M E1 ltac:(done)) as Hgen. cbn [length] in Z1.
  destruct (drain_spec (drain_fuel hp) m1 work) as (m' & E & I & Z' & K).
  - split; [done| | |].
    + intros h Hh. split; [by apply Hgen|]. apply (W1 h (Hgen h Hh)) in Hh as [[? _]|[]]. done.
    + intros h Hg Hc. destruct (mark_contains m h) eqn:E0; [|left; apply W1; auto].
      right. destruct (Hm h Hg E0) as [_ Hs]. intros v e Hv He Hl.
      destruct (live_generation hp e W Hl) as [[? _] _]. apply C1; [done|]. right. by eapply Hs.
    + intros h Hg Hc. apply C1 in Hc as [[Hin Hl]|Hc]; [auto|by apply Hm|done].
  - unfold drain_fuel. lia.
  - exists m'. split_and!; try done.
    + lia.
    + intros h Hin Hl. destruct (live_generation hp h W Hl) as [[? _] _].
      apply K; [done|]. apply C1; [done|]. by left.
    + intros h Hg Hc. apply K; [done|]. apply C1; [done|]. by right.
Qed.

End drain.

Lemma zeros_new n : zeros (marks (with_slots_count n)) = n.
Proof. cbn. unfold zeros. induction n as [|n IH]; [done|]. cbn [replicate List.filter length Z.eqb]. by rewrite IH. Qed.

(** ** [mark] is reachability *)

Lemma mark_reach hp roots h : wf0 hp -> 0 <= generation h ->
  mark_contains (mark hp roots) h = true <-> reach hp trace_each roots h.
Proof.
  intros W Hg. unfold mark.
  assert (Hed : forall v : T, edges (fun _ => []) v = trace_each v) by (intros v; unfold edges; apply app_nil_r).
  destruct (mark_roots_spec hp (fun _ => []) (reach hp trace_each roots) W) with (roots := roots)
    (m := with_slots_count (slot_capacity hp)) as (m' & E & I & _ & Hr & _).
  - intros x v e Hx Hv He Hl. rewrite Hed in He. by eapply reach_edge.
  - apply marks_ok_new.
  - by rewrite zeros_new.
  - intros x Hgx Hx. apply contains_new in Hx. lia.
  - intros x Hin Hl. by apply reach_root.
  - destruct (push_live hp roots _ []) as [m work]. rewrite E. cbn [fst]. split.
    + by apply (di_sound _ _ _ _ _ I).
    + induction 1 as [x Hin Hl|x v e Hx IHx Hv He Hl]; [by apply Hr|].
      assert (Hlx : is_live hp x = true) by (apply is_live_peek; eauto).
      destruct (live_generation hp x W Hlx) as [[Hgx _] _].
      destruct (di_black _ _ _ _ _ I x Hgx (IHx Hgx)) as [[]|Hs].
      apply (Hs v e Hv); [by rewrite Hed|done].
Qed.

End mark.
