(* ===== verification/GcMinor.v ===== *)
(** * Minor collections

    Marking promotes the young objects it reaches; the objects left young are
    swept.  Under the remembered-set invariant nothing reachable is lost, although
    no old object outside the remembered set is looked at. *)

From S2P Require Import Prelude Heap HeapInv HeapSweep HeapSpec Gc GcMark.

Open Scope Z_scope.

Section minor.
Context {T P : Type} {trace : Trace T P}.

Implicit Types (s : Slot T) (hp : Heap T P) (h e : Handle) (l : list (Slot T)).

(** ** Promotion *)

Definition young_slot s : bool := slot_is_live s && (age s <? OLD_AGE).

Definition young_count l : nat := length (List.filter young_slot l).
#[local] Arguments young_count : simpl never.

Lemma young_count_le l : (young_count l <= length l)%nat.
Proof. unfold young_count. induction l as [|s l IH]; cbn; [done|]. destruct (young_slot s); cbn; lia. Qed.

Lemma young_count_promote l i s s' : l !! i = Some s -> young_slot s = true -> young_slot s' = false ->
  S (young_count (<[i := s']> l)) = young_count l.
Proof.
  revert i. induction l as [|x l IH]; intros [|i] Hi Hy Hy'; cbn in Hi; try done.
  - injection Hi as ->. cbn [insert list_insert]. unfold young_count. cbn [List.filter]. by rewrite Hy, Hy'.
  - change (<[S i := s']> (x :: l)) with (x :: <[i := s']> l). specialize (IH i Hi Hy Hy').
    unfold young_count in *. cbn [List.filter]. destruct (young_slot x); cbn [length]; rewrite <- IH; reflexivity.
Qed.

(** [hp'] is [hp] with some young objects promoted. *)
Record aged hp hp' : Prop := {
  ag_peek : forall h, peek hp' h = peek hp h;
  ag_young : forall h, is_young hp' h = true -> is_young hp h = true;
  ag_dirty : forall i, (dirty <$> slots hp' !! i) = (dirty <$> slots hp !! i);
  ag_from : forall i, remembered_from i hp' = remembered_from i hp;
  ag_live_at : forall i, live_handle_at i hp' = live_handle_at i hp;
  ag_len : length (slots hp') = length (slots hp);
  ag_rem : remembered hp' = remembered hp;
  ag_poison : poison hp' = poison hp;
  ag_nursery : nursery hp' = nursery hp;
  ag_slot : forall i s', slots hp' !! i = Some s' -> exists s, slots hp !! i = Some s /\
    value s' = value s /\ dirty s' = dirty s /\ (age s' = age s \/ age s < OLD_AGE);
  ag_wf : forall rem, wf0 hp -> rem_ok rem (slots hp) -> wf0 hp' /\ rem_ok rem (slots hp')
}.

Lemma aged_refl hp : aged hp hp.
Proof. split; try done. intros i s Hs. exists s. split_and!; try done. by left. Qed.

Lemma aged_trans a b c : aged a b -> aged b c -> aged a c.
Proof.
  intros [] []. split; intros; first [congruence|auto|etransitivity; eauto|idtac].
  - destruct (ag_slot1 i s') as (s1 & H1 & ? & ? & ?); [done|].
    destruct (ag_slot0 i s1 H1) as (s0 & Hs0 & ? & ? & ?).
    exists s0. split_and!; [done|congruence|congruence|]. lia.
  - destruct (ag_wf0 rem); auto.
Qed.

Lemma promote_young_aged h hp : aged hp (promote_young h hp).2.
Proof.
  unfold promote_young. destruct (slots hp !! index h) as [s|] eqn:Hs; [|apply aged_refl].
  destruct (_ && _ && _) eqn:E; [|apply aged_refl]. cbn [snd].
  pose proof (lookup_lt_Some _ _ _ Hs) as Hlt.
  assert (Hl : forall i, <[index h := with_age OLD_AGE s]> (slots hp) !! i =
            if decide (index h = i) then Some (with_age OLD_AGE s) else slots hp !! i).
  { intros i. destruct (decide (index h = i)) as [<-|]; [by rewrite list_lookup_insert_eq|by rewrite list_lookup_insert_ne]. }
  split; try done; cbn [slots with_slots remembered poison].
  - intros x. unfold peek. cbn [slots with_slots]. rewrite Hl. destruct (decide _) as [<-|]; [|done]. by rewrite Hs.
  - intros x. unfold is_young. cbn [slots with_slots]. rewrite Hl. destruct (decide _) as [<-|]; [|done].
    cbn. rewrite andb_false_r. done.
  - intros i. rewrite Hl. destruct (decide _) as [<-|]; [|done]. by rewrite Hs.
  - intros i. unfold remembered_from. cbn [slots with_slots]. rewrite Hl.
    destruct (decide _) as [<-|]; [|done]. by rewrite Hs.
  - intros i. unfold live_handle_at. cbn [slots with_slots]. rewrite Hl.
    destruct (decide _) as [<-|]; [|done]. by rewrite Hs.
  - by rewrite length_insert.
  - unfold nursery. cbn. by rewrite length_insert.
  - intros i s'. rewrite Hl. destruct (decide _) as [<-|]; intros Hs'.
    + injection Hs' as <-. exists s. split_and!; [done..|]. right. rewrite !andb_true_iff in E.
      apply Z.ltb_lt, E.
    + exists s'. split_and!; try done. by left.
  - intros rem W R. pose proof (promote_young_wf hp h rem W R) as H. unfold promote_young in H.
    rewrite Hs, E in H. exact H.
Qed.

(** Generations identify the occupant of a slot. *)
Lemma young_same_slot hp h1 h2 : index h1 = index h2 -> is_young hp h1 = true -> is_young hp h2 = true -> h1 = h2.
Proof.
  unfold is_young. intros E. rewrite E. destruct (slots hp !! index h2) as [s|]; [|done].
  rewrite !andb_true_iff, !Z.eqb_eq. intros [[_ E1] _] [[_ E2] _].
  destruct h1, h2. cbn in *. congruence.
Qed.

Lemma promote_young_spec e hp :
  let '(young, hp') := promote_young e hp in
  young = is_young hp e /\
  (forall h, is_young hp' h = true <-> is_young hp h = true /\ h <> e) /\
  (young_count (slots hp') + (if young then 1 else 0) = young_count (slots hp))%nat.
Proof.
  unfold promote_young. unfold is_young at 1. destruct (slots hp !! index e) as [s|] eqn:Hs.
  2: { split_and!; [done| |lia]. intros h. split; [|naive_solver]. intros H. split; [done|].
    intros ->. unfold is_young in H. by rewrite Hs in H. }
  destruct (slot_is_live s && _ && _) eqn:E.
  - pose proof (lookup_lt_Some _ _ _ Hs) as Hlt. split; [done|]. split.
    + intros h. unfold is_young at 1. cbn [slots with_slots]. destruct (decide (index e = index h)) as [Ei|Hn].
      * rewrite <- Ei, list_lookup_insert_eq by done. cbn. rewrite andb_false_r. split; [done|].
        intros [Hy Hne]. exfalso. apply Hne. apply (young_same_slot hp); [done..|].
        unfold is_young. by rewrite Hs.
      * rewrite list_lookup_insert_ne by done. split; [|by intros []]. intros H. split; [done|]. by intros ->.
    + cbn [slots with_slots]. pose proof (young_count_promote (slots hp) (index e) s (with_age OLD_AGE s) Hs) as Hc.
      unfold young_slot in Hc. rewrite !andb_true_iff in E. destruct E as [[E1 _] E2]. rewrite E1, E2 in Hc.
      specialize (Hc eq_refl ltac:(cbn; apply andb_false_r)). lia.
  - split_and!; [done| |lia]. intros h. split; [|naive_solver]. intros H. split; [done|].
    intros ->. unfold is_young in H. rewrite Hs in H. congruence.
Qed.

Lemma promote_each_spec es hp work n :
  let '(hp', work', n') := promote_each es hp work n in
  aged hp hp' /\
  (forall h, is_young hp' h = true <-> is_young hp h = true /\ ~ In h es) /\
  (forall h, In h work' <-> (is_young hp h = true /\ In h es) \/ In h work) /\
  (young_count (slots hp') + length work' = young_count (slots hp) + length work)%nat /\
  (young_count (slots hp') <= young_count (slots hp))%nat.
Proof.
  revert hp work n. induction es as [|e es IH]; intros hp work n; cbn [promote_each].
  { split_and!; [apply aged_refl| | |done|done]; intros h; cbn [In]; tauto. }
  pose proof (promote_young_spec e hp) as H. pose proof (promote_young_aged e hp) as A.
  destruct (promote_young e hp) as [young hp1]. cbn [snd] in A. destruct H as (Hy & Y1 & C1).
  assert (E : (if young then promote_each es hp1 (e :: work) (n + 1) else promote_each es hp1 work n) =
    promote_each es hp1 (if young then e :: work else work) (if young then n + 1 else n)) by (by destruct young).
  rewrite E. clear E.
  specialize (IH hp1 (if young then e :: work else work) (if young then n + 1 else n)).
  destruct (promote_each es hp1 _ _) as [[hp' work'] n']. destruct IH as (A' & Y' & W' & C' & D').
  split; [by eapply aged_trans|]. split; [|split; [|split]].
  - intros h. rewrite Y', Y1. cbn [In]. split; [intros [[? ?] ?]; split; [done|]; intros [<-|]; done|].
    intros [? Hn]. split; [split; [done|]|]; naive_solver.
  - intros h. rewrite W', Y1. cbn [In]. destruct (decide (h = e)) as [->|Hne].
    + destruct young; cbn [In]; [naive_solver|]. rewrite <- Hy. naive_solver.
    + destruct young; cbn [In]; naive_solver.
  - destruct young; cbn [length] in *; lia.
  - lia.
Qed.

(** ** The marking loops *)

Section marking.
Context (scan : T -> list Handle) (hp0 : Heap T P) (Q : Handle -> Prop).
Let edges := edges scan.

Context (Q_edge : forall h v e, Q h -> is_young hp0 h = true -> peek hp0 h = Some v -> In e (edges v) ->
           is_young hp0 e = true -> Q e).

(** The objects marked so far: young at first, no longer. *)
Definition promoted hp h : Prop := is_young hp0 h = true /\ is_young hp h = false.

Record minor_inv hp (work : list Handle) : Prop := {
  mn_aged : aged hp0 hp;
  mn_work : forall h, In h work -> promoted hp h;
  mn_black : forall h, promoted hp h -> In h work \/
    (forall v e, peek hp0 h = Some v -> In e (edges v) -> is_young hp e = false);
  mn_sound : forall h, promoted hp h -> Q h
}.

Lemma not_young_iff hp h : is_young hp h = false <-> ~ is_young hp h = true.
Proof. destruct (is_young hp h); naive_solver. Qed.

(** Promoting targets that [Q] holds of, with the work list otherwise settled. *)
Lemma promote_each_inv es hp work n h0 (black : bool) :
  minor_inv hp (if black then h0 :: work else work) ->
  (black = true -> forall v e, peek hp0 h0 = Some v -> In e (edges v) -> In e es) ->
  (forall e, In e es -> is_young hp0 e = true -> Q e) ->
  let '(hp', work', n') := promote_each es hp work n in
  minor_inv hp' work' /\
  (forall h, is_young hp' h = true <-> is_young hp h = true /\ ~ In h es) /\
  (young_count (slots hp') + length work' = young_count (slots hp) + length work)%nat /\
  (young_count (slots hp') <= young_count (slots hp))%nat.
Proof using Q_edge.
  intros [A Wk B S] Hb HQ. pose proof (promote_each_spec es hp work n) as H.
  destruct (promote_each es hp work n) as [[hp' work'] n']. destruct H as (A' & Y' & W' & C').
  split; [|tauto].
  assert (Hkeep : forall x, is_young hp x = false -> is_young hp' x = false).
  { intros x Hx. apply not_young_iff. intros Hy. apply Y' in Hy as [Hy _]. congruence. }
  assert (Hin : forall x, In x es -> is_young hp' x = false).
  { intros x Hx. apply not_young_iff. intros Hy. by apply Y' in Hy as [_ ?]. }
  split.
  - by eapply aged_trans.
  - intros x Hx. apply W' in Hx as [[Hy Hx]|Hx].
    + split; [by apply (ag_young _ _ A)|by apply Hin].
    + destruct (Wk x) as [H1 H2]; [destruct black; [by right|done]|]. split; auto.
  - intros x [H0 H1]. destruct (is_young hp x) eqn:Ex.
    + left. apply W'. left. split; [done|]. destruct (in_dec Handle_eq_dec x es); [done|].
      apply not_young_iff in H1. exfalso. apply H1, Y'. done.
    + destruct (B x (conj H0 Ex)) as [Hx|Hx].
      * destruct black; [|left; apply W'; by right]. destruct Hx as [<-|Hx]; [|left; apply W'; by right].
        right. intros v e Hv He. apply Hin. by eapply Hb.
      * right. intros v e Hv He. apply Hkeep. by eapply Hx.
  - intros x [H0 H1]. destruct (is_young hp x) eqn:Ex; [|by apply S].
    apply HQ; [|done]. destruct (in_dec Handle_eq_dec x es); [done|].
    apply not_young_iff in H1. exfalso. apply H1, Y'. done.
Qed.

Lemma minor_drain_spec fuel hp work n : minor_inv hp work ->
  (young_count (slots hp) + length work < fuel)%nat ->
  exists hp' n', minor_drain fuel scan hp work n = (hp', [], n') /\ minor_inv hp' [] /\
    (young_count (slots hp') <= young_count (slots hp))%nat /\
    (forall h, is_young hp' h = true -> is_young hp h = true).
Proof using Q_edge.
  revert hp work n. induction fuel as [|fuel IH]; intros hp work n I Hf; [lia|].
  destruct work as [|h work]; cbn [minor_drain].
  { exists hp, n. auto. }
  set (es := match peek hp h with Some obj => trace_each obj ++ scan obj | None => [] end).
  pose proof (mn_work _ _ I h (or_introl eq_refl)) as [Hy0 Hy1].
  pose proof (ag_peek _ _ (mn_aged _ _ I) h) as Hpk.
  pose proof (promote_each_inv es hp work n h true I) as H.
  assert (Hes : forall v e, peek hp0 h = Some v -> In e (edges v) -> In e es).
  { intros v e Hv He. unfold es. by rewrite Hpk, Hv. }
  specialize (H (fun _ => Hes)).
  assert (HQ : forall e, In e es -> is_young hp0 e = true -> Q e).
  { intros e He Hy. unfold es in He. rewrite Hpk in He. destruct (peek hp0 h) as [v|] eqn:Hv; [|done].
    eapply Q_edge; [|exact Hy0|exact Hv|exact He|done]. apply (mn_sound _ _ I). done. }
  specialize (H HQ). destruct (promote_each es hp work n) as [[hp1 work1] n1]. destruct H as (I1 & Y1 & C1 & D1).
  destruct (IH hp1 work1 n1 I1) as (hp' & n' & E & I' & C' & Y'); [cbn [length] in Hf; lia|].
  exists hp', n'. split_and!; [done..|lia|].
  intros x Hx. apply Y', Y1 in Hx. tauto.
Qed.

Context (expand : Heap T P -> (Handle -> bool) -> list Handle).
Context (Q_expand : forall hp h, minor_inv hp [] -> In h (expand hp (minor_live hp)) ->
           is_young hp0 h = true -> Q h).

Lemma minor_loop_spec fuel hp work n : minor_inv hp work ->
  (young_count (slots hp) + length work <= slot_capacity hp)%nat -> (young_count (slots hp) < fuel)%nat ->
  exists hp' n', minor_loop fuel scan expand hp work n = (hp', n', true) /\ minor_inv hp' [] /\
    (forall h, is_young hp' h = true -> is_young hp h = true).
Proof using Q_edge Q_expand.
  revert hp work n. induction fuel as [|fuel IH]; intros hp work n I Hc Hf; [lia|]. cbn [minor_loop].
  destruct (minor_drain_spec (drain_fuel hp) hp work n I) as (hp1 & n1 & E & I1 & C1 & Y1).
  { unfold drain_fuel. lia. }
  rewrite E. clear E.
  pose proof (promote_each_inv (expand hp1 (minor_live hp1)) hp1 [] n1 (MkHandle 0 0) false I1
    ltac:(done) (fun e => Q_expand hp1 e I1)) as H.
  destruct (promote_each _ hp1 [] n1) as [[hp2 work2] n2]. destruct H as (I2 & Y2 & C2 & D2).
  assert (Hlen : length (slots hp2) = length (slots hp)).
  { rewrite (ag_len _ _ (mn_aged _ _ I2)). symmetry. apply (ag_len _ _ (mn_aged _ _ I)). }
  destruct work2 as [|w work2].
  - exists hp2, n2. split_and!; [done..|]. intros h Hh. apply Y1. by apply Y2 in Hh as [].
  - cbn [length] in C2. destruct (IH hp2 (w :: work2) n2 I2) as (hp' & n' & E & I' & Y').
    + unfold slot_capacity in *. rewrite Hlen. cbn [length]. lia.
    + lia.
    + exists hp', n'. split_and!; [done..|]. intros h Hh. apply Y', Y2 in Hh as [Hh _]. by apply Y1.
Qed.

Lemma remembered_edges_aged i hp : aged hp0 hp -> remembered_edges scan i hp = remembered_edges scan i hp0.
Proof using Type.
  intros A. unfold remembered_edges. rewrite (ag_live_at _ _ A), (ag_from _ _ A).
  destruct (live_handle_at i hp0); [|done]. cbn. by rewrite (ag_peek _ _ A).
Qed.

Lemma rescan_spec is_ hp work n : minor_inv hp work ->
  (forall i e, In i is_ -> In e (remembered_edges scan i hp0) -> is_young hp0 e = true -> Q e) ->
  let '(hp', work', n') := rescan scan is_ hp work n in
  minor_inv hp' work' /\
  (forall h, is_young hp' h = true -> is_young hp h = true) /\
  (forall i e, In i is_ -> In e (remembered_edges scan i hp0) -> is_young hp' e = false) /\
  (young_count (slots hp') + length work' = young_count (slots hp) + length work)%nat.
Proof using Q_edge.
  revert hp work n. induction is_ as [|i is_ IH]; intros hp work n I HQ; cbn [rescan].
  { split_and!; done || auto. }
  pose proof (promote_each_inv (remembered_edges scan i hp) hp work n (MkHandle 0 0) false I ltac:(done)) as H.
  rewrite (remembered_edges_aged i hp (mn_aged _ _ I)) in *.
  specialize (H (fun e He => HQ i e (or_introl eq_refl) He)).
  destruct (promote_each _ hp work n) as [[hp1 work1] n1]. destruct H as (I1 & Y1 & C1 & _).
  specialize (IH hp1 work1 n1 I1 (fun j e Hj => HQ j e (or_intror Hj))).
  destruct (rescan scan is_ hp1 work1 n1) as [[hp' work'] n']. destruct IH as (I' & Y' & E' & C').
  split; [done|]. split; [|split; [|lia]].
  - intros h Hh. apply Y', Y1 in Hh. tauto.
  - intros j e [<-|Hj] He; [|by eapply E'].
    apply not_young_iff. intros Hy. apply Y', Y1 in Hy. tauto.
Qed.

End marking.

(** ** The mark phase *)

Lemma promote_each_remembered r es hp work n :
  promote_each es (with_remembered r hp) work n =
    let '(hp', work', n') := promote_each es hp work n in (with_remembered r hp', work', n').
Proof.
  revert hp work n. induction es as [|e es IH]; intros hp work n; cbn [promote_each]; [done|].
  assert (E : promote_young e (with_remembered r hp) =
    let '(b, hp') := promote_young e hp in (b, with_remembered r hp')).
  { unfold promote_young. cbn [slots with_remembered]. destruct (slots hp !! index e); [|done].
    by destruct (_ && _ && _). }
  rewrite E. destruct (promote_young e hp) as [[] hp1]; apply IH.
Qed.

Lemma promote_each_rem es hp work n : remembered (promote_each es hp work n).1.1 = remembered hp.
Proof.
  pose proof (promote_each_spec es hp work n) as H. destruct (promote_each es hp work n) as [[hp' ?] ?].
  apply (ag_rem _ _ (proj1 H)).
Qed.

(** What minor marking may keep: the young objects reached from the roots and the
    remembered objects through young ones. *)
Inductive young_reach (scan : T -> list Handle) (roots : list Handle) hp : Handle -> Prop :=
| yr_root h : In h roots -> is_young hp h = true -> young_reach scan roots hp h
| yr_rem i e : In i (remembered hp) -> In e (remembered_edges scan i hp) -> is_young hp e = true ->
    young_reach scan roots hp e
| yr_edge h v e : young_reach scan roots hp h -> peek hp h = Some v -> In e (edges scan v) ->
    is_young hp e = true -> young_reach scan roots hp e.

Lemma mark_minor_spec roots scan expand hp (Q : Handle -> Prop) :
  (forall h, young_reach scan roots hp h -> Q h) ->
  (forall h v e, Q h -> is_young hp h = true -> peek hp h = Some v -> In e (edges scan v) ->
     is_young hp e = true -> Q e) ->
  (forall hp' h, minor_inv scan (with_remembered [] hp) Q hp' [] -> In h (expand hp' (minor_live hp')) ->
     is_young hp h = true -> Q h) ->
  exists n hp', mark_minor roots scan expand hp = (MkMinorMark (remembered hp) n, hp') /\
    aged (with_remembered [] hp) hp' /\
    (forall h, In h roots -> is_young hp' h = false) /\
    (forall i e, In i (remembered hp) -> In e (remembered_edges scan i hp) -> is_young hp' e = false) /\
    (forall h v e, is_young hp h = true -> is_young hp' h = false -> peek hp h = Some v ->
       In e (edges scan v) -> is_young hp' e = false) /\
    (forall h, is_young hp h = true -> is_young hp' h = false -> Q h).
Proof.
  intros HQ0 HQe HQx. set (hpR := with_remembered [] hp).
  assert (I0 : minor_inv scan hpR Q hpR []).
  { split; [apply aged_refl|done| |]; intros h [H1 H2]; congruence. }
  pose proof (promote_each_inv scan hpR Q HQe roots hpR [] 0 (MkHandle 0 0) false I0 ltac:(done)) as H.
  specialize (H (fun e He Hy => HQ0 e (yr_root scan roots hp e He Hy))).
  unfold mark_minor. unfold hpR in H at 1. rewrite promote_each_remembered in H.
  pose proof (promote_each_rem roots hp [] 0) as Hrem.
  destruct (promote_each roots hp [] 0) as [[hp1 work1] n1]. cbn [fst] in Hrem.
  destruct H as (I1 & Y1 & C1 & _). unfold take_remembered. cbn zeta. rewrite Hrem.
  pose proof (rescan_spec scan hpR Q HQe (remembered hp) (with_remembered [] hp1) work1 n1 I1) as H.
  assert (Hre : forall i, remembered_edges scan i hpR = remembered_edges scan i hp) by done.
  assert (Hrq : forall i e, In i (remembered hp) -> In e (remembered_edges scan i hpR) ->
            is_young hpR e = true -> Q e).
  { intros i e Hi He Hy. rewrite Hre in He. apply HQ0. by eapply yr_rem. }
  specialize (H Hrq).
  destruct (rescan scan (remembered hp) _ work1 n1) as [[hp2 work2] n2]. destruct H as (I2 & Y2 & E2 & C2).
  assert (Hlen : length (slots hp2) = length (slots hp)) by (apply (ag_len _ _ (mn_aged _ _ _ _ _ I2))).
  cbn [length] in C1. unfold hpR in C1. cbn [slots with_remembered] in C1, C2.
  pose proof (young_count_le (slots hp)) as Hle.
  destruct (minor_loop_spec scan hpR Q HQe expand HQx (drain_fuel hp2) hp2 work2 n2 I2) as (hp3 & n3 & E3 & I3 & Y3).
  - unfold slot_capacity. rewrite Hlen. lia.
  - unfold drain_fuel, slot_capacity. rewrite Hlen. lia.
  - rewrite E3. exists n3, hp3. split; [done|]. split; [apply (mn_aged _ _ _ _ _ I3)|].
    split; [|split; [|split]].
    + intros h Hh. apply not_young_iff. intros Hy. apply Y3, Y2 in Hy. apply (Y1 h) in Hy. tauto.
    + intros i e Hi He. apply not_young_iff. intros Hy. apply Y3 in Hy. rewrite <- Hre in He.
      by rewrite (E2 i e Hi He) in Hy.
    + intros h v e Hy Hn Hv He. destruct (mn_black _ _ _ _ _ I3 h (conj Hy Hn)) as [[]|Hb]. by eapply Hb.
    + intros h Hy Hn. by apply (mn_sound _ _ _ _ _ I3).
Qed.

End minor.
