(* ===== verification/GcBarrier.v ===== *)
(** * The remembered set is complete

    The generational invariant: an old object that the remembered set does not
    list holds no young object, and one listed as only appended to holds none
    before the position it records.  It is what the verifier of the heap checks,
    and the write barriers keep it. *)

From S2P Require Import Prelude Heap HeapInv HeapSweep HeapSpec Gc GcMark GcMinor.

Open Scope Z_scope.

Section barrier.
Context {T P : Type} {trace : Trace T P}.

Implicit Types (s : Slot T) (hp : Heap T P) (h e : Handle) (l : list (Slot T)).

(** [young] says which handles name young objects. *)
Definition slot_complete (scan : T -> list Handle) (young : Handle -> bool) s : Prop :=
  forall v, value s = Some v -> OLD_AGE <= age s ->
    (dirty s = CLEAN -> interior_mutable v = false /\ forall e, In e (edges scan v) -> young e = false) /\
    (dirty s = APPENDED -> forall e, In e (trace_head v (Z.to_nat (scan_from s))) -> young e = false).

Definition complete (scan : T -> list Handle) hp : Prop :=
  forall i s, slots hp !! i = Some s -> slot_complete scan (is_young hp) s.

(** ** The verifier decides it *)

Lemma find_young_none hp es : find_young hp es = None <-> forall e, In e es -> is_young hp e = false.
Proof.
  unfold find_young. split; [intros H e He; exact (find_none _ _ H e He)|].
  induction es as [|x es IH]; intros H; cbn; [done|].
  rewrite (H x (or_introl eq_refl)). apply IH. intros e He. by apply H; right.
Qed.

Lemma violation_from_none em hm sticky hp i l :
  violation_from em hm sticky hp i l = None <->
  forall k s, l !! k = Some s -> slot_violation em hm sticky hp (i + k) s = None.
Proof.
  revert i. induction l as [|s l IH]; intros i; cbn [violation_from]; [done|].
  destruct (slot_violation em hm sticky hp i s) eqn:E.
  - split; [done|]. intros H. specialize (H 0%nat s eq_refl). rewrite Nat.add_0_r in H. congruence.
  - rewrite IH. split.
    + intros H [|k] x Hk; [injection Hk as <-; by rewrite Nat.add_0_r|]. replace (i + S k)%nat with (S i + k)%nat by lia. by apply (H k).
    + intros H k x Hk. replace (S i + k)%nat with (i + S k)%nat by lia. by apply (H (S k)).
Qed.

Lemma slot_violation_none scan hp i s : wf0 hp -> poison hp = None -> slots hp !! i = Some s ->
  slot_violation (fun v => trace_each v ++ scan v) trace_head interior_mutable hp i s = None <->
  slot_complete scan (is_young hp) s.
Proof.
  intros W Hp Hs. unfold slot_violation, slot_complete. rewrite Hp.
  destruct (value s) as [v|] eqn:Hv; [|naive_solver].
  assert (Hl : slot_is_live s = true) by (apply live_value; eauto).
  destruct (Z.ltb_spec (age s) OLD_AGE) as [Ha|Ha].
  - rewrite (proj2 (orb_true_iff _ _)); [|].
    + split; [|done]. intros _ w _ Hage. lia.
    + rewrite bool_decide_eq_true, Nat.leb_le. by apply (wf_young _ W i s).
  - destruct (Z.eqb_spec (dirty s) APPENDED) as [Ed|Ed].
    + destruct (find_young hp (trace_head v _)) as [t|] eqn:F; cbn.
      * split; [done|]. intros H. destruct (H v eq_refl Ha) as [_ H']. specialize (H' Ed).
        rewrite (proj2 (find_young_none hp _) H') in F. done.
      * split; [|done]. intros _ w [= <-] _. rewrite Ed. split; [done|]. intros _. by apply find_young_none.
    + destruct (Z.eqb_spec (dirty s) CLEAN) as [Ec|Ec]; cbn [negb orb].
      2: { split; [|done]. intros _ w _ _. by split. }
      destruct (interior_mutable v) eqn:Hi.
      * split; [done|]. intros H. destruct (H v eq_refl Ha) as [H' _]. destruct (H' Ec). congruence.
      * destruct (find_young hp (trace_each v ++ scan v)) as [t|] eqn:F; cbn.
        -- split; [done|]. intros H. destruct (H v eq_refl Ha) as [H' _]. destruct (H' Ec) as [_ H''].
           unfold edges in H''. rewrite (proj2 (find_young_none hp _) H'') in F. done.
        -- split; [|done]. intros _ w [= <-] _. split; [|done]. intros _. split; [done|].
           by apply find_young_none.
Qed.

Lemma no_violation scan hp : wf0 hp -> poison hp = None ->
  gc_remembered_violation scan hp = None <-> complete scan hp.
Proof.
  intros W Hp. unfold gc_remembered_violation, remembered_violation. rewrite violation_from_none. cbn [Nat.add].
  split; intros H i s Hs; [apply (slot_violation_none scan hp i)|apply slot_violation_none]; eauto.
Qed.

(** ** The stores *)

Lemma slot_complete_mono scan (y y' : Handle -> bool) s : (forall e, y' e = true -> y e = true) ->
  slot_complete scan y s -> slot_complete scan y' s.
Proof.
  intros H C v Hv Ha. destruct (C v Hv Ha) as [C1 C2].
  assert (Hm : forall e, y e = false -> y' e = false).
  { intros e He. destruct (y' e) eqn:E; [|done]. apply H in E. congruence. }
  split; [intros Hd; destruct (C1 Hd)|intros Hd]; split || idtac; eauto.
Qed.

(** Replacing a live slot by one of the same generation and age leaves the same
    objects young. *)
Lemma is_young_store hp i s s' h : slots hp !! i = Some s -> slot_is_live s = true -> slot_is_live s' = true ->
  slot_generation s' = slot_generation s -> age s' = age s ->
  is_young (with_slots (<[i := s']> (slots hp)) hp) h = is_young hp h.
Proof.
  intros Hs Hl Hl' G A. pose proof (lookup_lt_Some _ _ _ Hs). unfold is_young. cbn [slots with_slots].
  destruct (decide (i = index h)) as [<-|Hne]; [|by rewrite list_lookup_insert_ne].
  by rewrite list_lookup_insert_eq, Hs, Hl, Hl', G, A by done.
Qed.

(** Entering the remembered set changes no slot. *)
Lemma complete_remembered scan r hp : complete scan (with_remembered r hp) <-> complete scan hp.
Proof. done. Qed.

Lemma complete_store scan hp i s s' : complete scan hp -> slots hp !! i = Some s ->
  slot_is_live s = true -> slot_is_live s' = true -> slot_generation s' = slot_generation s -> age s' = age s ->
  (slot_complete scan (is_young hp) s -> slot_complete scan (is_young hp) s') ->
  complete scan (with_slots (<[i := s']> (slots hp)) hp).
Proof.
  intros C Hs Hl Hl' G A H j x Hj. pose proof (lookup_lt_Some _ _ _ Hs) as Hlt.
  apply (slot_complete_mono scan (is_young hp)).
  { intros e. by rewrite (is_young_store hp i s s'). }
  cbn [slots with_slots] in Hj. destruct (decide (i = j)) as [<-|Hne].
  - rewrite list_lookup_insert_eq in Hj by done. injection Hj as <-. eauto.
  - rewrite list_lookup_insert_ne in Hj by done. eauto.
Qed.

Lemma dirty_complete scan y s : dirty s <> CLEAN -> dirty s <> APPENDED -> slot_complete scan y s.
Proof. intros H1 H2 v _ _. done. Qed.

Lemma young_complete scan y s : age s < OLD_AGE -> slot_complete scan y s.
Proof. intros H v _ ?. lia. Qed.

(** A slot whose barrier does not fire needs none. *)
Lemma barrier_idle s : slot_ok s -> (Z.lor (dirty s) APPENDED =? APPENDED) && (OLD_AGE <=? age s) = false ->
  forall scan y v, slot_complete scan y (with_value v s).
Proof.
  intros Hok E scan y v. pose proof (barrier_test s Hok) as Hb.
  destruct (Z.leb_spec OLD_AGE (age s)) as [Ha|Ha]; [|by apply young_complete].
  rewrite andb_true_r in E. apply dirty_complete; cbn.
  - intros Hd. rewrite Hd in E. done.
  - intros Hd. rewrite Hd in E. done.
Qed.

Lemma peek_mut_complete scan h f hp : wf hp -> complete scan hp -> complete scan (peek_mut h f hp).2.
Proof.
  intros [W _] C. unfold peek_mut. destruct (slots hp !! index h) as [s|] eqn:Hs; [|done].
  destruct (negb _); [done|]. destruct (value s) as [v|] eqn:Hv; [|done].
  assert (Hl : slot_is_live s = true) by (apply live_value; eauto).
  destruct (_ && _) eqn:E; cbn [snd].
  - apply (complete_store scan _ _ s); destruct (dirty s =? CLEAN); try done; intros _; by apply dirty_complete.
  - apply (complete_store scan _ _ s); try done. intros _. apply (barrier_idle s); [|done]. by apply (wf_slot _ W _ _ Hs).
Qed.

Lemma remember_complete scan i hp : complete scan hp -> complete scan (remember i hp).
Proof.
  intros C. unfold remember. destruct (slots hp !! i) as [s|] eqn:Hs; [|done].
  destruct (_ && _ && _) eqn:E; [|done]. rewrite !andb_true_iff in E. destruct E as [[Hl _] _].
  apply (complete_store scan _ _ s); destruct (dirty s =? CLEAN); try done; intros _; by apply dirty_complete.
Qed.

(** An append leaves what is before position [from] of the value alone. *)
Definition appends (from : T -> nat) (f : T -> T) : Prop :=
  forall v n e, (n <= from v)%nat -> In e (trace_head (f v) n) -> In e (trace_head v n).

Lemma scan_from_with_scan at_ s : 0 <= at_ <= SCAN_MAX ->
  scan_from (with_scan (as_u16 at_) (as_u8 (Z.shiftr at_ 16)) s) = at_.
Proof.
  unfold SCAN_MAX. change (Z.shiftl 1 24 - 1) with 16777215. intros H. unfold scan_from. cbn.
  rewrite Z.lor_comm. rewrite Z.shiftr_div_pow2, (as_u8_small (at_ / 2 ^ 16)) by (lia || div_lia).
  unfold as_u16, wrap_u. rewrite lor_pack; [|lia|div_lia]. div_lia.
Qed.

Lemma get_mut_append_complete scan h from f hp b hp' : appends from f -> wf hp -> poison hp = None ->
  complete scan hp -> get_mut_append h from f hp = Some (b, hp') -> complete scan hp'.
Proof.
  intros Hf [W _] Hp C. unfold get_mut_append, gc_verify. rewrite Hp. cbn [mbind option_bind].
  destruct (slots hp !! index h) as [s|] eqn:Hs; [|by intros [= _ <-]].
  destruct (negb (slot_generation s =? generation h)); [by intros [= _ <-]|].
  destruct (value s) as [v|] eqn:Hv; [|by intros [= _ <-]].
  assert (Hl : slot_is_live s = true) by (apply live_value; eauto).
  pose proof (wf_slot _ W _ _ Hs) as Hok.
  destruct ((Z.lor (dirty s) APPENDED =? APPENDED) && (OLD_AGE <=? age s)) eqn:E.
  2: { intros [= _ <-]. apply (complete_store scan _ _ s); try done. intros _. by apply barrier_idle. }
  apply andb_true_iff in E as [Eb Ea]. apply Z.leb_le in Ea. apply (barrier_test s Hok) in Eb.
  destruct (negb (dirty s =? CLEAN) && (scan_from s <? Z.of_nat (from v))) eqn:E2.
  - apply andb_true_iff in E2 as [Ec Elt]. apply negb_true_iff, Z.eqb_neq in Ec. apply Z.ltb_lt in Elt.
    intros [= _ <-]. apply (complete_store scan _ _ s); try done. intros Cs w [= <-] _. cbn [dirty with_value].
    split; [done|]. intros Ed e He. apply (proj2 (Cs v Hv Ea) Ed). apply (Hf v); [lia|done].
  - destruct (Z.leb_spec (Z.of_nat (from v)) SCAN_MAX) as [Hmax|_]; intros [= _ <-].
    2: { apply (complete_store scan _ _ s); destruct (dirty s =? CLEAN); try done; intros _; by apply dirty_complete. }
    apply (complete_store scan _ _ s); destruct (dirty s =? CLEAN) eqn:Ed; try done; intros Cs w [= <-] _;
      (split; [done|]; intros _ e He).
    all: change (scan_from (with_value _ ?x)) with (scan_from x) in He.
    all: rewrite scan_from_with_scan, Nat2Z.id in He by lia; apply (Hf v) in He; [|done].
    + apply (proj1 (Cs v Hv Ea)); [by apply Z.eqb_eq|]. apply in_or_app. left. by eapply trace_head_sub.
    + apply Z.eqb_neq in Ed. destruct Eb as [|Eb]; [done|]. apply (proj2 (Cs v Hv Ea) Eb).
      cbn [negb andb] in E2. apply Z.ltb_ge in E2. apply (trace_head_mono v (from v)); [lia|done].
Qed.

(** [swap] stores first and fires the barriers after: completeness but for the
    slots still to remember. *)
Definition complete_but (ex : list nat) scan hp : Prop :=
  forall i s, slots hp !! i = Some s -> i ∈ ex \/ slot_complete scan (is_young hp) s.

Lemma remember_complete_but scan ex i hp : (forall j s, slots hp !! j = Some s -> slot_ok s) ->
  complete_but (i :: ex) scan hp -> complete_but ex scan (remember i hp).
Proof.
  intros Hok C. unfold remember. destruct (slots hp !! i) as [s|] eqn:Hs.
  2: { intros j x Hj. destruct (C j x Hj) as [Hin|]; [|by right]. apply elem_of_cons in Hin as [->|]; [congruence|by left]. }
  assert (Hrest : forall j x, slots hp !! j = Some x -> j <> i -> j ∈ ex \/ slot_complete scan (is_young hp) x).
  { intros j x Hj Hn. destruct (C j x Hj) as [Hin|]; [|by right]. apply elem_of_cons in Hin as [->|]; [done|by left]. }
  destruct (slot_is_live s && _ && _) eqn:E.
  - rewrite !andb_true_iff in E. destruct E as [[Hl _] _].
    pose proof (lookup_lt_Some _ _ _ Hs) as Hlt.
    assert (Hgo : complete_but ex scan (with_slots (<[i := with_dirty DIRTY s]> (slots hp)) hp)).
    { intros j x Hj. cbn [slots with_slots] in Hj. destruct (decide (i = j)) as [<-|Hn].
      - rewrite list_lookup_insert_eq in Hj by done. injection Hj as <-. right. by apply dirty_complete.
      - rewrite list_lookup_insert_ne in Hj by done. destruct (Hrest j x Hj (not_eq_sym Hn)) as [|Hc]; [by left|right].
        eapply slot_complete_mono; [|exact Hc]. intros e. by rewrite (is_young_store hp i s). }
    by destruct (dirty s =? CLEAN).
  - intros j x Hj. destruct (decide (j = i)) as [->|Hn]; [|by apply Hrest]. right.
    rewrite Hs in Hj. injection Hj as <-. destruct (slot_is_live s) eqn:Hl.
    + replace s with (with_value (value s) s) by (by destruct s). by apply barrier_idle; [apply (Hok i)|].
    + intros v Hv. apply vacant_value in Hl. congruence.
Qed.

Lemma remember_slots_ok i hp : (forall j s, slots hp !! j = Some s -> slot_ok s) ->
  forall j s, slots (remember i hp) !! j = Some s -> slot_ok s.
Proof.
  intros Hok j x. unfold remember. destruct (slots hp !! i) as [s|] eqn:Hs; [|apply Hok].
  destruct (slot_is_live s && _ && _) eqn:E; [|apply Hok]. rewrite !andb_true_iff in E. destruct E as [[Hl _] Ha].
  apply Z.leb_le in Ha.
  assert (Es : forall b : bool, slots (if b then with_remembered (remembered hp ++ [i]) hp else hp) = slots hp) by (by intros []).
  cbn [slots with_slots]. rewrite Es. pose proof (lookup_lt_Some _ _ _ Hs).
  destruct (decide (i = j)) as [<-|Hn]; [|rewrite list_lookup_insert_ne by done; apply Hok].
  rewrite list_lookup_insert_eq by done. intros [= <-].
  apply (slot_ok_live s); try done; [by apply (Hok i)|apply (ok_age _ (Hok _ _ Hs))|]. right. cbn. tauto.
Qed.

Lemma swap_complete scan a b hp : wf hp -> complete scan hp -> complete scan (swap a b hp).
Proof.
  intros [W _] C. unfold swap. destruct (Nat.eqb_spec (index a) (index b)) as [|Hn]; [done|].
  destruct (slots hp !! index a) as [sa|] eqn:Ha; [|done].
  destruct (slots hp !! index b) as [sb|] eqn:Hb; [|done]. unfold slot_get.
  destruct (slot_generation sa =? generation a); [|done].
  destruct (value sa) as [va|] eqn:Va; [|done].
  destruct (slot_generation sb =? generation b); [|done].
  destruct (value sb) as [vb|] eqn:Vb; [|done].
  assert (La : slot_is_live sa = true) by (apply live_value; eauto).
  assert (Lb : slot_is_live sb = true) by (apply live_value; eauto).
  pose proof (lookup_lt_Some _ _ _ Ha) as Hla. pose proof (lookup_lt_Some _ _ _ Hb) as Hlb.
  set (hp1 := with_slots (<[index b := with_value (Some va) sb]> (slots hp)) hp).
  assert (Ha1 : slots hp1 !! index a = Some sa) by (cbn; by rewrite list_lookup_insert_ne).
  set (hp2 := with_slots _ hp).
  assert (Hy : forall e, is_young hp2 e = is_young hp e).
  { intros e. transitivity (is_young hp1 e).
    - exact (is_young_store hp1 (index a) sa (with_value (Some vb) sa) e Ha1 La eq_refl eq_refl eq_refl).
    - exact (is_young_store hp (index b) sb (with_value (Some va) sb) e Hb Lb eq_refl eq_refl eq_refl). }
  assert (Hl2 : forall j x, slots hp2 !! j = Some x ->
    (j = index a /\ x = with_value (Some vb) sa) \/ (j = index b /\ x = with_value (Some va) sb) \/ slots hp !! j = Some x).
  { intros j x. cbn [hp2 slots with_slots]. destruct (decide (j = index a)) as [->|Hja].
    - rewrite list_lookup_insert_eq by (by rewrite length_insert). intros [= <-]. by left.
    - rewrite list_lookup_insert_ne by done. destruct (decide (j = index b)) as [->|Hjb].
      + rewrite list_lookup_insert_eq by done. intros [= <-]. right. by left.
      + rewrite list_lookup_insert_ne by done. tauto. }
  assert (Hok : forall j x, slots hp2 !! j = Some x -> slot_ok x).
  { intros j x [[-> ->]|[[-> ->]|Hj]]%Hl2; [..|by apply (wf_slot _ W _ _ Hj)].
    all: match goal with
         | |- slot_ok (with_value (Some _) ?x) =>
             assert (Ox : slot_ok x) by (eapply (wf_slot _ W); eassumption);
             apply (slot_ok_live x); try done; [apply (ok_age _ Ox)|apply (ok_dirty _ Ox)]
         end. }
  assert (C2 : complete_but [index a; index b] scan hp2).
  { intros j x [[-> ->]|[[-> ->]|Hj]]%Hl2; [left; set_solver..|]. right.
    eapply slot_complete_mono; [|by apply (C j)]. intros e. by rewrite Hy. }
  apply remember_complete_but in C2; [|done].
  apply remember_complete_but in C2; [|by apply remember_slots_ok].
  intros j x Hj. by destruct (C2 j x Hj) as [?%not_elem_of_nil|].
Qed.

(** ** Allocation, deallocation, collection *)

Lemma complete_from scan hp hp' (y : Handle -> bool) : (forall e, is_young hp' e = true -> y e = true) ->
  (forall i s, slots hp' !! i = Some s -> slot_complete scan y s) -> complete scan hp'.
Proof. intros Hy H i s Hs. eapply slot_complete_mono; [exact Hy|]. by apply (H i). Qed.

Lemma dead_complete scan y s : value s = None -> slot_complete scan y s.
Proof. intros H v Hv. congruence. Qed.

Lemma free_complete scan h hp : wf hp -> poison hp = None -> complete scan hp -> complete scan (free h hp).2.
Proof.
  intros W Hp C. destruct (peek hp h) as [v|] eqn:Hv.
  2: { by rewrite free_stale. }
  destruct (free_live _ _ _ Hp Hv) as (s & Hs & Vs & _ & ->). cbn [snd].
  pose proof (lookup_lt_Some _ _ _ Hs).
  apply (complete_from scan hp _ (is_young hp)).
  - intros e. unfold is_young. cbn. destruct (decide (index h = index e)) as [<-|Hn].
    + rewrite list_lookup_insert_eq by done. done.
    + by rewrite list_lookup_insert_ne.
  - intros j x. cbn. destruct (decide (index h = j)) as [<-|Hn].
    + rewrite list_lookup_insert_eq by done. intros [= <-]. by apply dead_complete.
    + rewrite list_lookup_insert_ne by done. apply C.
Qed.

Lemma sweep_complete scan keep hp : wf hp -> poison hp = None ->
  complete scan (sweep keep interior_mutable hp).2.
Proof.
  intros W Hp. pose proof (fun h => sweep_young_none keep interior_mutable hp h W) as Hy.
  destruct (sweep_eq keep interior_mutable hp) as (pz & pool & _ & E). rewrite E in *. cbn [snd] in *.
  apply (complete_from scan hp _ (fun _ => false)); [intros e; by rewrite Hy|].
  intros i s'. cbn [swept_heap slots]. rewrite slots_map_lookup, Hp. cbn [Nat.add is_poisoned].
  destruct (slots hp !! i) as [s|] eqn:Hs; [|done]. intros [= <-].
  destruct (swept_slot_cases keep interior_mutable false i s (wf_slot _ (proj1 W) _ _ Hs))
    as [[Hv ->]|[(v & Hv & E1 & E2 & _ & _ & [Hd|] & Hst)|(v & Hv & _ & Hd & ->)]]; try done; try by apply dead_complete.
  intros w Hw _. rewrite E1 in Hw. injection Hw as <-. split; [|done]. intros Hc. split; [|done].
  destruct (interior_mutable v) eqn:Hi; [|done]. exfalso. apply Hst; [|done].
  unfold kept_sticky, doomed in *. rewrite Hv in *. apply negb_false_iff in Hd. by rewrite Hd, Hi.
Qed.

Context (grow : nat -> nat -> nat).

Lemma alloc_complete scan hp v h hp' : wf hp -> complete scan hp -> alloc grow v hp = Some (h, hp') ->
  (forall x w, peek hp x = Some w -> ~ In h (edges scan w)) -> complete scan hp'.
Proof.
  intros W C E Hfresh. destruct (alloc_cases grow hp v h hp' W E) as (hp1 & W1 & H1 & _ & H2).
  assert (Hh : is_young hp' h = true).
  { assert (Hroom : (0 < free_top hp)%nat \/ Z.of_nat (length (slots hp)) < U32_MAX) by (by eapply alloc_room).
    destruct (alloc_correct grow hp v W Hroom) as (h' & hp'' & E' & _ & _ & _ & _ & _ & Y).
    rewrite E in E'. by injection E' as -> ->. }
  assert (S1 : forall i s, slots hp1 !! i = Some s -> slots hp !! i = Some s \/ s = slot_vacant).
  { intros i s. destruct H1 as [->|[n ->]]; [by left|].
    destruct (top_up_free_cases grow n hp W) as [->|(k & c & e & _ & _ & _ & ->)]; [by left|]. cbn.
    intros [?|[_ ?%lookup_vacant]]%lookup_app_Some; first [by left|by right]. }
  assert (S2 : forall i s, slots hp' !! i = Some s -> i = index h \/ slots hp1 !! i = Some s).
  { intros i s. destruct H2 as [(s0 & Hs0 & _ & _ & ->)|[Hi ->]].
    - destruct (decide (i = index h)); [by left|]. rewrite list_lookup_insert_ne by done. by right.
    - intros [?|[Hge Hk]]%lookup_app_Some; [by right|]. left. rewrite Hi.
      apply list_lookup_singleton_Some in Hk as [Hk _]. lia. }
  set (y e := is_young hp e || bool_decide (e = h)).
  apply (complete_from scan hp _ y).
  - intros e He. unfold y. destruct (decide (index e = index h)) as [Ei|Hn].
    + rewrite (young_same_slot hp' e h Ei He Hh), (bool_decide_eq_true_2 (h = h)) by done. apply orb_true_r.
    + unfold is_young at 1 in He. destruct (slots hp' !! index e) as [s|] eqn:Hs; [|done].
      destruct (S2 _ _ Hs) as [|Hs1]; [done|]. destruct (S1 _ _ Hs1) as [Hs2| ->]; [|done].
      unfold is_young. by rewrite Hs2, He.
  - intros i s Hs. destruct (S2 i s Hs) as [->|Hs1].
    + apply young_complete. unfold is_young in Hh. rewrite Hs, !andb_true_iff, Z.ltb_lt in Hh. apply Hh.
    + destruct (S1 i s Hs1) as [Hs2| ->]; [|by apply dead_complete].
      intros w Hw Ha. pose proof (C i s Hs2 w Hw Ha) as [C1 C2].
      assert (Hpk : peek hp (MkHandle i (slot_generation s)) = Some w).
      { unfold peek. cbn. rewrite Hs2. cbn. unfold slot_get. by rewrite Z.eqb_refl. }
      assert (Hy : forall e, In e (edges scan w) -> is_young hp e = false -> y e = false).
      { intros e He Hf. unfold y. rewrite Hf. apply bool_decide_eq_false_2. intros ->. by eapply Hfresh. }
      split; [intros Hd; destruct (C1 Hd); split; eauto|].
      intros Hd e He. apply Hy; [|by apply C2]. apply in_or_app. left. by eapply trace_head_sub.
Qed.

Lemma compact_to_complete scan keep hp : complete scan (compact_to grow keep hp).2.
Proof.
  destruct (compact_to_eq grow keep hp) as [cap E]. cbn zeta in E. rewrite E. cbn [snd].
  intros i s Hs. cbn in Hs. rewrite list_lookup_fmap in Hs. destruct (_ !! i) as [x|]; [|done].
  injection Hs as <-. destruct (Z.leb_spec OLD_AGE (age x)); [by apply dirty_complete|by apply young_complete].
Qed.

End barrier.
