(* ===== verification/GcSpec.v ===== *)
(** * What collections promise

    Full collections keep exactly what is reachable, ephemeron marking reaches its
    least fixpoint, minor collections lose nothing reachable while the remembered
    set is complete, the barriers keep it complete, compaction preserves the
    object graph, and the incremental marker finishes with everything reachable
    marked. *)

From S2P Require Import Prelude Heap HeapInv HeapSweep HeapSpec Gc GcMark GcMinor GcBarrier.

Open Scope Z_scope.

Section spec.
Context {T P : Type} {trace : Trace T P}.

Implicit Types (s : Slot T) (hp : Heap T P) (h e : Handle) (l : list (Slot T)).

(** ** Ephemerons *)

Lemma push_live_grows hp es m work : (length work <= length (push_live hp es m work).2)%nat.
Proof.
  revert m work. induction es as [|e es IH]; intros m work; cbn [push_live]; [done|].
  destruct (is_live hp e); [|apply IH]. destruct (mark_insert e m) as [[] m1]; [|apply IH].
  etransitivity; [|apply IH]. cbn. lia.
Qed.

Lemma push_live_zeros hp es m work : wf0 hp -> marks_ok hp m ->
  marks_ok hp (push_live hp es m work).1 /\
  (zeros (marks (push_live hp es m work).1) <= zeros (marks m))%nat.
Proof.
  intros W M. pose proof (push_live_spec hp es m work W M) as H. pose proof (push_live_grows hp es m work).
  destruct (push_live hp es m work) as [m' work']. cbn [fst snd] in *. split; [tauto|]. lia.
Qed.

Lemma drain_zeros fuel hp scan m work : wf0 hp -> marks_ok hp m ->
  (zeros (marks (drain fuel hp scan m work).1) <= zeros (marks m))%nat.
Proof.
  intros W. revert m work. induction fuel as [|fuel IH]; intros m work M; [done|].
  destruct work as [|h work]; cbn [drain]; [done|]. destruct (peek hp h) as [v|]; [|by apply IH].
  destruct (push_live_zeros hp (trace_each v) m work W M) as [M1 Z1].
  destruct (push_live hp (trace_each v) m work) as [m1 w1]. cbn [fst] in *.
  destruct (push_live_zeros hp (scan v) m1 w1 W M1) as [M2 Z2].
  destruct (push_live hp (scan v) m1 w1) as [m2 w2]. cbn [fst] in *.
  specialize (IH m2 w2 M2). lia.
Qed.

(** An object ephemeron marking must keep, whatever the order it finds them in:
    what any closed set holds. *)
Definition ephemeron_closed hp (roots : list Handle) (scan : T -> list Handle)
    (expand : Heap T P -> MarkSet -> list Handle) (Q : Handle -> Prop) : Prop :=
  (forall h, In h roots -> is_live hp h = true -> Q h) /\
  (forall h v e, Q h -> peek hp h = Some v -> In e (edges scan v) -> is_live hp e = true -> Q e) /\
  (forall m h, (forall x, 0 <= generation x -> mark_contains m x = true -> Q x) ->
     In h (expand hp m) -> is_live hp h = true -> Q h).

Lemma push_live_done hp es m m' : wf0 hp -> marks_ok hp m -> push_live hp es m [] = (m', []) -> m' = m.
Proof.
  intros W. revert m. induction es as [|e es IH]; intros m M; cbn [push_live]; [congruence|].
  destruct (is_live hp e) eqn:He; [|by apply IH].
  pose proof (mark_insert_spec hp m e W M He) as H. destruct (mark_insert e m) as [fresh m1] eqn:E.
  destruct H as (_ & M1 & _). intros E'. destruct fresh.
  - pose proof (push_live_grows hp es m1 [e]) as Hl. rewrite E' in Hl. cbn in Hl. lia.
  - apply IH in E'; [|done]. subst m'. unfold mark_insert in E.
    destruct (live_generation hp e W He) as [_ Hi]. destruct M as [L _].
    rewrite (proj2 (Nat.leb_gt (length (marks m)) (index e))) in E by lia.
    destruct (_ =? _); [|done]. injection E as <-. by destruct m.
Qed.

Lemma ephemerons_spec hp roots scan expand Q fuel m : wf0 hp -> ephemeron_closed hp roots scan expand Q ->
  drain_inv hp scan Q m [] -> (zeros (marks m) < fuel)%nat -> (zeros (marks m) <= slot_capacity hp)%nat ->
  exists m', ephemerons fuel hp scan expand m = (m', true) /\ drain_inv hp scan Q m' [] /\
    (forall h, In h (expand hp m') -> is_live hp h = true -> mark_contains m' h = true) /\
    (forall h, 0 <= generation h -> mark_contains m h = true -> mark_contains m' h = true).
Proof.
  intros W (Q0 & Qe & Qx). revert m. induction fuel as [|fuel IH]; intros m I Hf Hc; [lia|]. cbn [ephemerons].
  pose proof (di_marks _ _ _ _ _ I) as M.
  destruct (mark_roots_spec hp scan Q W Qe (expand hp m) m M Hc) as (m' & E & I' & Z' & X' & K').
  { intros h Hg Hm. split; [by apply (di_sound _ _ _ _ _ I)|].
    destruct (di_black _ _ _ _ _ I h Hg Hm) as [[]|]. done. }
  { intros h Hin Hl. eapply Qx; [|done..]. intros x Hg. by apply (di_sound _ _ _ _ _ I). }
  pose proof (push_live_spec hp (expand hp m) m [] W M) as Hp.
  destruct (push_live hp (expand hp m) m []) as [m1 work] eqn:E1. destruct Hp as (M1 & C1 & _ & Z1).
  destruct work as [|w work].
  - apply push_live_done in E1 as ->; [|done..].
    exists m. split_and!; try done. intros h Hin Hl. apply C1; [apply (live_generation hp h W Hl)|by left].
  - pose proof (drain_zeros (drain_fuel hp) hp scan m1 (w :: work) W M1) as Zd.
    rewrite E in *. cbn [fst length] in *. destruct (IH m' I') as (m'' & E'' & I'' & X'' & K''); [lia..|].
    exists m''. split_and!; try done. intros h Hg Hm. apply K''; [done|]. by apply K'.
Qed.

(** C23: Marking with ephemerons computes the least set of live objects that holds
    the live roots and is closed under edges and under the caller's [expand]: the
    result holds them, it is a fixpoint of [expand], and every other closed set
    contains it.  The source's [loop] terminates: the fuel, one round more than
    there are slots, is never exhausted. *)
Theorem ephemeron_marking_least hp roots scan expand : wf0 hp ->
  let m := mark_with_ephemerons_scan hp roots scan expand in
  (forall h, In h roots -> is_live hp h = true -> mark_contains m h = true) /\
  (forall h v e, 0 <= generation h -> mark_contains m h = true -> peek hp h = Some v ->
     In e (edges scan v) -> is_live hp e = true -> mark_contains m e = true) /\
  (forall h, In h (expand hp m) -> is_live hp h = true -> mark_contains m h = true) /\
  (forall Q, ephemeron_closed hp roots scan expand Q ->
     forall h, 0 <= generation h -> mark_contains m h = true -> Q h).
Proof.
  intros W. cbn zeta. unfold mark_with_ephemerons_scan.
  assert (Main : forall Q, ephemeron_closed hp roots scan expand Q ->
    let m := (let '(m, work) := push_live hp roots (with_slots_count (slot_capacity hp)) [] in
              (ephemerons (drain_fuel hp) hp scan expand (drain (drain_fuel hp) hp scan m work).1).1) in
    (forall h, In h roots -> is_live hp h = true -> mark_contains m h = true) /\ drain_inv hp scan Q m [] /\
    (forall h, In h (expand hp m) -> is_live hp h = true -> mark_contains m h = true)).
  { intros Q HQ. pose proof HQ as (Q0 & Qe & Qx).
    destruct (mark_roots_spec hp scan Q W Qe roots (with_slots_count (slot_capacity hp)))
      as (m & E & I & Z & R & _).
    - apply marks_ok_new.
    - by rewrite zeros_new.
    - intros x Hg Hx. apply contains_new in Hx. lia.
    - done.
    - destruct (push_live hp roots _ []) as [m1 work]. rewrite E. cbn [fst].
      destruct (ephemerons_spec hp roots scan expand Q (drain_fuel hp) m W HQ I) as (m' & E' & I' & X' & K').
      { unfold drain_fuel. lia. } { done. }
      rewrite E'. cbn [fst]. split_and!; [|done..].
      intros h Hin Hl. apply K'; [apply (live_generation hp h W Hl)|by apply R]. }
  destruct (Main (fun _ => True)) as (R & I & X); [by split_and!|].
  destruct (push_live hp roots _ []) as [m1 work]. cbn zeta in *. split; [exact R|]. split; [|split; [exact X|]].
  - intros h v e Hg Hm Hv He Hl. destruct (di_black _ _ _ _ _ I h Hg Hm) as [[]|Hs]. by eapply Hs.
  - intros Q HQ h Hg Hm. destruct (Main Q HQ) as (_ & I' & _). by apply (di_sound _ _ _ _ _ I').
Qed.

(** ** Full collections *)

(** C9: A full collection keeps exactly the objects reachable from the roots,
    each with its value, and every handle to anything else goes stale; the live
    count drops by what was swept, and the heap's invariant holds again. *)
Theorem full_collection_exact hp roots : wf hp -> poison hp = None ->
  let '(st, hp') := collect roots hp in
  (forall h, reach hp trace_each roots h -> peek hp' h = peek hp h) /\
  (forall h, 0 <= generation h -> ~ reach hp trace_each roots h -> peek hp' h = None) /\
  len hp' = len hp - st_swept st /\ wf hp'.
Proof.
  intros W Hp. unfold collect. set (keep := fun h (_ : T) => mark_contains (mark hp roots) h).
  pose proof (sweep_len keep interior_mutable hp W Hp) as Hl.
  pose proof (fun h => sweep_peek keep interior_mutable hp h W Hp) as Hk.
  pose proof (sweep_wf keep interior_mutable hp W) as W'.
  destruct (sweep keep interior_mutable hp) as [n hp']. cbn [snd fst st_swept] in *.
  split; [|split; [|done]].
  - intros h R. rewrite Hk. assert (Hlive : is_live hp h = true) by (by destruct R).
    destruct (proj1 (is_live_peek hp h) Hlive) as [v Hv]. rewrite Hv. unfold keep.
    by rewrite (proj2 (mark_reach hp roots h (proj1 W) (proj1 (proj1 (live_generation hp h (proj1 W) Hlive)))) R).
  - intros h Hg NR. rewrite Hk. destruct (peek hp h) as [v|]; [|done]. unfold keep.
    destruct (mark_contains _ h) eqn:E; [|done]. exfalso. apply NR. by apply mark_reach; [apply W|..].
Qed.

(** ** Minor collections *)

(** The heap between marking and sweeping: what the sweep asks for. *)
Lemma minor_sweep_ready hp hp3 : wf hp -> poison hp = None -> aged (with_remembered [] hp) hp3 ->
  wf0 hp3 /\ remembered hp3 = [] /\ rem_ok (remembered hp) (slots hp3) /\ poison hp3 = None.
Proof.
  intros [W R] Hp A. destruct (ag_wf _ _ A (remembered hp)) as [W3 R3]; [by apply wf0_with_remembered|done|].
  split_and!; [done|apply (ag_rem _ _ A)|done|]. by rewrite (ag_poison _ _ A).
Qed.

Lemma collect_minor_peek roots scan expand hp (Q : Handle -> Prop) : wf hp -> poison hp = None ->
  (forall h, young_reach scan roots hp h -> Q h) ->
  (forall h v e, Q h -> is_young hp h = true -> peek hp h = Some v -> In e (edges scan v) ->
     is_young hp e = true -> Q e) ->
  (forall hp' h, minor_inv scan (with_remembered [] hp) Q hp' [] -> In h (expand hp' (minor_live hp')) ->
     is_young hp h = true -> Q h) ->
  exists hp3, let hp' := (collect_minor_with roots scan expand hp).2 in
    hp' = (sweep_young (remembered hp) interior_mutable hp3).2 /\
    aged (with_remembered [] hp) hp3 /\ wf hp' /\
    (forall h, peek hp' h = if is_young hp3 h then None else peek hp h) /\
    (forall h, is_young hp' h = false) /\
    (forall h, In h roots -> is_young hp3 h = false) /\
    (forall i e, In i (remembered hp) -> In e (remembered_edges scan i hp) -> is_young hp3 e = false) /\
    (forall h v e, is_young hp h = true -> is_young hp3 h = false -> peek hp h = Some v ->
       In e (edges scan v) -> is_young hp3 e = false) /\
    (forall h, is_young hp h = true -> is_young hp3 h = false -> Q h).
Proof.
  intros W Hp Q0 Qe Qx.
  destruct (mark_minor_spec roots scan expand hp Q Q0 Qe Qx) as (n & hp3 & E & A & M1 & M2 & M3 & M4).
  destruct (minor_sweep_ready hp hp3 W Hp A) as (W3 & Hr & R3 & Hp3).
  exists hp3. cbn zeta. unfold collect_minor_with, sweep_minor. rewrite E. cbn [mm_rescanned].
  pose proof (fun h => sweep_young_peek (remembered hp) interior_mutable hp3 h W3 Hr R3 Hp3) as Pk.
  pose proof (fun h => no_young_after_sweep_young (remembered hp) interior_mutable hp3 h W3 Hr R3) as Ny.
  destruct (sweep_young_spec (remembered hp) interior_mutable hp3 W3 Hr R3) as (W' & _).
  destruct (sweep_young (remembered hp) interior_mutable hp3) as [swept hp']. cbn [snd] in *.
  split_and!; try done. intros h. rewrite Pk, (ag_peek _ _ A). done.
Qed.

(** Every edge of a kept object leads to a kept object: old ones have no young
    edges but those the remembered set shows. *)
Lemma minor_keeps_edge scan hp hp3 h v e : wf hp -> complete scan hp -> aged (with_remembered [] hp) hp3 ->
  (forall i e, In i (remembered hp) -> In e (remembered_edges scan i hp) -> is_young hp3 e = false) ->
  is_young hp h = false -> peek hp h = Some v -> In e (edges scan v) -> is_young hp3 e = false.
Proof.
  intros [W R] C A Hrem Hy Hv He.
  assert (Hdown : is_young hp e = false -> is_young hp3 e = false).
  { intros H. apply not_young_iff. intros H3. apply (ag_young _ _ A) in H3.
    change (is_young hp e = true) in H3. congruence. }
  unfold peek in Hv. destruct (slots hp !! index h) as [s|] eqn:Hs; [|done]. cbn in Hv.
  unfold slot_get in Hv. destruct (Z.eqb_spec (slot_generation s) (generation h)) as [Eg|]; [|done].
  assert (Hl : slot_is_live s = true) by (apply live_value; eauto).
  assert (Ha : OLD_AGE <= age s).
  { unfold is_young in Hy. rewrite Hs, Hl, (proj2 (Z.eqb_eq _ _) Eg) in Hy. by apply Z.ltb_ge in Hy. }
  destruct (C _ _ Hs v Hv Ha) as [C1 C2].
  destruct (Z.eq_dec (dirty s) CLEAN) as [Hd|Hd]; [apply Hdown; by apply (proj2 (C1 Hd))|].
  assert (Hi : In (index h) (remembered hp)) by (apply list_elem_of_In, (proj2 R); eauto).
  assert (Hre : remembered_edges scan (index h) hp =
    (if (remembered_from (index h) hp =? 0)%nat then trace_each v
     else trace_tail v (remembered_from (index h) hp)) ++ scan v).
  { unfold remembered_edges, live_handle_at. rewrite Hs. cbn. rewrite Hl. cbn. unfold peek. cbn. rewrite Hs. cbn.
    unfold slot_get. by rewrite Z.eqb_refl, Hv. }
  specialize (Hrem (index h) e Hi). rewrite Hre in Hrem.
  unfold edges in He. apply in_app_or in He as [He|He]; [|apply Hrem; apply in_or_app; by right].
  destruct (Nat.eqb_spec (remembered_from (index h) hp) 0) as [Ez|Ez]; [apply Hrem, in_or_app; by left|].
  unfold remembered_from in Ez, Hrem. rewrite Hs in Ez, Hrem.
  destruct (Z.eqb_spec (dirty s) APPENDED) as [Hda|]; [|done].
  destruct (trace_split v (Z.to_nat (scan_from s)) e He) as [Hh|Ht]; [apply Hdown; by apply C2|].
  apply Hrem, in_or_app. by left.
Qed.

Lemma minor_complete scan hp hp3 : wf hp -> poison hp = None -> complete scan hp ->
  aged (with_remembered [] hp) hp3 ->
  complete scan (sweep_young (remembered hp) interior_mutable hp3).2.
Proof.
  intros W Hp C A. destruct (minor_sweep_ready hp hp3 W Hp A) as (W3 & Hr & R3 & Hp3).
  apply (complete_from scan hp3 _ (fun _ => false)).
  { intros e. by rewrite no_young_after_sweep_young. }
  intros i s Hs v Hv Ha. split; [|done]. intros Hd. split; [|done].
  destruct (interior_mutable v) eqn:Hi; [|done]. exfalso.
  refine (sweep_young_sticky (remembered hp) interior_mutable hp3 W3 Hr R3 Hp3 _ i s Hs v Hv Hi Ha Hd).
  clear dependent i s v. intros i s Hs.
  destruct (ag_slot _ _ A i s Hs) as (s0 & Hs0 & V & D & Ag). change (slots hp !! i = Some s0) in Hs0.
  destruct (value s) as [v|] eqn:Hv; [|right; intros w Hw; congruence].
  assert (Hl : slot_is_live s0 = true) by (apply live_value; eauto).
  destruct (Z.lt_ge_cases (age s0) OLD_AGE) as [Ha|Ha].
  - left. rewrite (ag_nursery _ _ A). by apply (nursery_young _ i s0 (proj1 W)).
  - right. intros w Hw Hst _ Hd. rewrite Hv in Hw. injection Hw as <-.
    destruct (C i s0 Hs0 v (eq_sym V) Ha) as [C1 _]. rewrite <- D in C1. destruct (C1 Hd). congruence.
Qed.

Lemma minor_reach roots scan expand hp h : wf hp -> poison hp = None -> complete scan hp ->
  reach hp (edges scan) roots h -> peek (collect_minor_with roots scan expand hp).2 h = peek hp h.
Proof.
  intros W Hp C R.
  destruct (collect_minor_peek roots scan expand hp (fun _ => True) W Hp) as
    (hp3 & Ehp & A & W' & Pk & Ny & Mr & Mm & Me & _); [done..|].
  rewrite Pk. assert (E : is_young hp3 h = false); [|by rewrite E].
  induction R as [h Hin Hl|h v e Hh IH Hv He Hl]; [by apply Mr|].
  destruct (is_young hp h) eqn:Hy; [by apply (Me h v)|]. by apply (minor_keeps_edge scan hp hp3 h v).
Qed.

(** C7: A minor collection loses nothing that is reachable, although it looks at no
    old object outside the remembered set: when the verifier finds the remembered
    set complete, every object reachable from the roots and every old object
    survives with its value.  Afterwards no object is young, the heap's invariant
    holds and the verifier still finds nothing. *)
Theorem minor_sound roots scan expand hp : wf hp -> poison hp = None ->
  gc_remembered_violation scan hp = None ->
  let hp' := (collect_minor_with roots scan expand hp).2 in
  (forall h, reach hp (edges scan) roots h -> peek hp' h = peek hp h) /\
  (forall h, is_young hp h = false -> peek hp' h = peek hp h) /\
  (forall h, is_young hp' h = false) /\ wf hp' /\ gc_remembered_violation scan hp' = None.
Proof.
  intros W Hp C. apply (no_violation scan hp (proj1 W) Hp) in C.
  destruct (collect_minor_peek roots scan expand hp (fun _ => True) W Hp) as
    (hp3 & Ehp & A & W' & Pk & Ny & Mr & Mm & Me & _); [done..|].
  cbn zeta. assert (Hp' : poison (collect_minor_with roots scan expand hp).2 = None).
  { rewrite Ehp. apply sweep_young_poison. by rewrite (ag_poison _ _ A). }
  split; [|split; [|split; [done|split; [done|]]]].
  - intros h Hh. by apply minor_reach.
  - intros h Hy. rewrite Pk. assert (E : is_young hp3 h = false); [|by rewrite E].
    apply not_young_iff. intros H. apply (ag_young _ _ A) in H. change (is_young hp h = true) in H. congruence.
  - apply no_violation; [apply W'|done|]. rewrite Ehp. by apply minor_complete.
Qed.

(** C26: And it keeps no more young objects than it must: without ephemerons, a
    young object survives exactly when a path leads to it from a root or from a
    remembered object, through young objects only. *)
Theorem minor_precise roots scan hp h : wf hp -> poison hp = None -> is_young hp h = true ->
  (young_reach scan roots hp h ->
     peek (collect_minor_with roots scan (fun _ _ => []) hp).2 h = peek hp h) /\
  (~ young_reach scan roots hp h ->
     peek (collect_minor_with roots scan (fun _ _ => []) hp).2 h = None).
Proof.
  intros W Hp Hy.
  destruct (collect_minor_peek roots scan (fun _ _ => []) hp (young_reach scan roots hp) W Hp) as
    (hp3 & _ & A & _ & Pk & _ & Mr & Mm & Me & Ms); [done|intros; by eapply yr_edge|done|].
  rewrite Pk. split.
  - intros R. assert (E : is_young hp3 h = false); [|by rewrite E].
    clear Hy. induction R as [h Hin _|i e Hi He _|h v e R IH Hv He _]; [by apply Mr|by eapply Mm|].
    apply (Me h v); [|done..]. by destruct R.
  - intros NR. destruct (is_young hp3 h) eqn:E; [done|]. by destruct NR; apply Ms.
Qed.

End spec.
(** ** Compaction preserves the object graph *)

Section compaction.
Context {T P : Type} {trace : Trace T P} {reloc : Relocate T P}.

Implicit Types (s : Slot T) (hp : Heap T P) (h e : Handle) (l : list (Slot T)).

Lemma handles_from_in keep i l h : h ∈ handles_from keep i l <->
  exists k s, l !! k = Some s /\ slot_is_live s = true /\ keep s = true /\ h = MkHandle (i + k) (slot_generation s).
Proof.
  revert i. induction l as [|s l IH]; intros i; cbn [handles_from].
  { split; [by intros ?%not_elem_of_nil|]. intros (k & s & H & _). by rewrite lookup_nil in H. }
  assert (Hstep : h ∈ handles_from keep (S i) l <-> exists k x, (s :: l) !! S k = Some x /\
            slot_is_live x = true /\ keep x = true /\ h = MkHandle (i + S k) (slot_generation x)).
  { rewrite IH. split; intros (k & x & H1 & H2 & H3 & ->); exists k, x; cbn in *; split_and!; try done; f_equal; lia. }
  destruct (slot_is_live s && keep s) eqn:E.
  - apply andb_true_iff in E as [E1 E2]. rewrite elem_of_cons, Hstep. split.
    + intros [->|(k & x & H)]; [exists 0%nat, s|by exists (S k), x]. by rewrite Nat.add_0_r.
    + intros ([|k] & x & H1 & H2 & H3 & ->); [left|right; by exists k, x].
      injection H1 as ->. by rewrite Nat.add_0_r.
  - rewrite Hstep. split; [intros (k & x & H); by exists (S k), x|].
    intros ([|k] & x & H1 & H2 & H3 & ->); [|by exists k, x]. injection H1 as ->. by rewrite H2, H3 in E.
Qed.

Lemma handles_from_nodup keep i l : NoDup (handles_from keep i l).
Proof.
  revert i. induction l as [|s l IH]; intros i; cbn [handles_from]; [constructor|].
  destruct (_ && _); [|apply IH]. constructor; [|apply IH].
  intros (k & x & _ & _ & _ & [= Hk _])%handles_from_in. lia.
Qed.

Lemma live_handles_in hp h : h ∈ live_handles hp <-> is_live hp h = true.
Proof.
  unfold live_handles. rewrite handles_from_in. unfold is_live. cbn [Nat.add]. split.
  - intros (k & s & Hs & Hl & _ & ->). cbn. by rewrite Hs, Hl, Z.eqb_refl.
  - destruct (slots hp !! index h) as [s|] eqn:Hs; [|done]. intros [Hl Hg]%andb_true_iff.
    apply Z.eqb_eq in Hg. exists (index h), s. split_and!; try done. destruct h. cbn in *. congruence.
Qed.

Lemma peek_mut_peek h f hp x :
  peek (peek_mut h f hp).2 x = if bool_decide (x = h) then f <$> peek hp x else peek hp x.
Proof.
  unfold peek_mut. destruct (slots hp !! index h) as [s|] eqn:Hs.
  2: { cbn [snd]. case_bool_decide as E; [|done]. subst x. unfold peek. rewrite Hs. done. }
  destruct (Z.eqb_spec (slot_generation s) (generation h)) as [Eg|Eg]; cbn [negb].
  2: { cbn [snd]. case_bool_decide as E; [|done]. subst x. unfold peek. rewrite Hs. cbn. unfold slot_get.
       by rewrite (proj2 (Z.eqb_neq _ _) Eg). }
  destruct (value s) as [v|] eqn:Hv.
  2: { cbn [snd]. case_bool_decide as E; [|done]. subst x. unfold peek. rewrite Hs. cbn. unfold slot_get.
       rewrite Hv. by destruct (_ =? _). }
  assert (Hgo : forall s' hp1, slots hp1 = slots hp -> slot_generation s' = slot_generation s ->
    peek (with_slots (<[index h := with_value (Some (f v)) s']> (slots hp)) hp1) x =
    if bool_decide (x = h) then f <$> peek hp x else peek hp x).
  { intros s' hp1 _ G. unfold peek. cbn [slots with_slots]. pose proof (lookup_lt_Some _ _ _ Hs).
    destruct (decide (index h = index x)) as [Ei|Hn].
    - rewrite <- Ei, list_lookup_insert_eq, Hs by done. cbn. unfold slot_get. cbn. rewrite G, Hv.
      destruct (Z.eqb_spec (slot_generation s) (generation x)) as [Eg'|Eg'].
      + rewrite bool_decide_eq_true_2; [done|]. destruct x, h. cbn in *. congruence.
      + rewrite bool_decide_eq_false_2; [done|]. by intros ->.
    - rewrite list_lookup_insert_ne by done. rewrite bool_decide_eq_false_2; [done|]. by intros ->. }
  destruct (_ && _); cbn [snd]; [destruct (dirty s =? CLEAN)|]; by apply Hgo.
Qed.

Lemma peek_mut_poison h f hp : poison (peek_mut h f hp).2 = poison hp.
Proof.
  unfold peek_mut. destruct (slots hp !! index h) as [s|]; [|done]. destruct (negb _); [done|].
  destruct (value s); [|done]. destruct (_ && _); [|done]. by destruct (dirty s =? CLEAN).
Qed.

(** Rewriting the references of a list of distinct handles. *)
Lemma relocate_all_spec f hs hp : NoDup hs -> wf hp -> poison hp = None ->
  exists hp', relocate_all f hs hp = Some hp' /\ wf hp' /\ poison hp' = None /\
    (forall x, peek hp' x = if bool_decide (x ∈ hs) then relocate_obj f <$> peek hp x else peek hp x) /\
    (forall scan, complete scan hp -> complete scan hp').
Proof.
  revert hp. induction hs as [|h hs IH]; intros hp Hn W Hp; cbn [relocate_all].
  { exists hp. split_and!; try done. }
  apply NoDup_cons in Hn as [Hh Hn]. unfold get_mut, gc_verify. rewrite Hp. cbn [mbind option_bind].
  pose proof (peek_mut_wf hp h (relocate_obj f) W) as W1. pose proof (peek_mut_poison h (relocate_obj f) hp) as P1.
  pose proof (fun x => peek_mut_peek h (relocate_obj f) hp x) as K1.
  pose proof (fun scan => peek_mut_complete scan h (relocate_obj f) hp W) as C1.
  destruct (peek_mut h (relocate_obj f) hp) as [b hp1]. cbn [snd] in *.
  destruct (IH hp1 Hn W1 ltac:(congruence)) as (hp' & E & W' & P' & K' & C').
  exists hp'. split_and!; try done; [|auto].
  intros x. rewrite K', K1. destruct (decide (x = h)) as [->|Hne].
  - by rewrite (bool_decide_eq_false_2 (h ∈ hs)), !bool_decide_eq_true_2 by (done || set_solver).
  - rewrite (bool_decide_eq_false_2 (x = h)) by done. case_bool_decide as Hx; case_bool_decide as Hx'; set_solver.
Qed.

Context (grow : nat -> nat -> nat).

Lemma forward_in m old new : (forall o n1 n2, (o, n1) ∈ m -> (o, n2) ∈ m -> n1 = n2) ->
  (old, new) ∈ m -> forward m old = new.
Proof.
  intros Hf Hin. unfold forward. destruct (List.find _ m) as [[o n]|] eqn:E.
  - apply find_some in E as [E1 E2]. apply bool_decide_eq_true in E2. cbn in *. subst o.
    apply list_elem_of_In in E1. by eapply Hf.
  - apply list_elem_of_In in Hin. pose proof (find_none _ _ E _ Hin) as H. cbn in H.
    apply bool_decide_eq_false in H. done.
Qed.

Lemma compact_with_spec roots hp : wf hp -> poison hp = None ->
  exists st hp' f, compact_with grow roots hp = Some (st, hp', map f roots, f) /\
    wf hp' /\ poison hp' = None /\ (forall scan, complete scan hp') /\
    (forall h v, reach hp trace_each roots h -> peek hp h = Some v ->
       peek hp' (f h) = Some (relocate_obj f v)) /\
    (forall h1 h2, reach hp trace_each roots h1 -> reach hp trace_each roots h2 -> f h1 = f h2 -> h1 = h2) /\
    (forall x, is_live hp' x = true <-> exists h, reach hp trace_each roots h /\ x = f h).
Proof.
  intros W Hp. unfold compact_with. set (keep := mark_contains (mark hp roots)).
  pose proof (compact_to_spec grow keep hp) as Sp. pose proof (compact_to_wf grow keep hp W) as W1.
  pose proof (fun scan => compact_to_complete grow scan keep hp) as C1.
  assert (P1 : poison (compact_to grow keep hp).2 = None).
  { destruct (compact_to_eq grow keep hp) as [cap E]. cbn zeta in E. by rewrite E. }
  destruct (compact_to grow keep hp) as [m hp1]. cbn [snd] in *. destruct Sp as (S1 & S2 & S3 & S4).
  set (f := forward m).
  destruct (relocate_all_spec f (live_handles hp1) hp1) as (hp' & E & W' & P' & K' & C');
    [apply handles_from_nodup|done..|].
  exists (MkStats (mark_len (mark hp roots)) (len hp - mark_len (mark hp roots)) (mark_len (mark hp roots))), hp', f.
  unfold relocate. rewrite E. cbn [mbind option_bind].
  assert (Hkeep : forall h, reach hp trace_each roots h -> exists new, (h, new) ∈ m).
  { intros h R. apply S1. assert (Hl : is_live hp h = true) by (by destruct R).
    split; [by apply is_live_peek in Hl as [v ->]|]. unfold keep. apply mark_reach; [apply W| |done].
    apply (live_generation hp h (proj1 W) Hl). }
  assert (Hfun : forall o n1 n2, (o, n1) ∈ m -> (o, n2) ∈ m -> n1 = n2).
  { intros o n1 n2 H1 H2. by apply (S3 o o n1 n2 H1 H2). }
  assert (Hf : forall h, reach hp trace_each roots h -> (h, f h) ∈ m).
  { intros h R. destruct (Hkeep h R) as [new Hin]. unfold f. by rewrite (forward_in m h new). }
  assert (Hpk : forall h v, reach hp trace_each roots h -> peek hp h = Some v ->
            peek hp' (f h) = Some (relocate_obj f v)).
  { intros h v R Hv. rewrite K'. destruct (S2 h (f h) (Hf h R)) as [Hn _]. rewrite Hn, Hv.
    rewrite bool_decide_eq_true_2; [done|]. apply live_handles_in, is_live_peek. rewrite Hn. eauto. }
  assert (Hlive : forall h, reach hp trace_each roots h -> is_live hp' (f h) = true).
  { intros h R. assert (Hl : is_live hp h = true) by (by destruct R). apply is_live_peek in Hl as [v Hv].
    apply is_live_peek. eauto. }
  split_and!; try done.
  - auto.
  - intros h1 h2 R1 R2 Ef. apply (S3 h1 h2 (f h1) (f h2)); auto.
  - intros x. split; [|intros (h & R & ->); auto]. intros [v Hv]%is_live_peek. rewrite K' in Hv.
    assert (Hx : peek hp1 x <> None) by (intros Hx; rewrite Hx in Hv; by case_bool_decide).
    apply S4 in Hx as [old Hin]. exists old. assert (R : reach hp trace_each roots old).
    { destruct (proj2 (S1 old) (ex_intro _ x Hin)) as [Hl Hk]. destruct (peek hp old) as [w|] eqn:Ew; [|done].
      apply (mark_reach hp roots old (proj1 W)); [|done].
      apply (live_generation hp old (proj1 W)), is_live_peek. eauto. }
    split; [done|]. apply (Hfun old); auto.
Qed.

(** C16: Compaction returns, and moves the reachable objects to a heap that holds
    them and nothing else, with every reference rewritten: the forwarding is
    injective on them, each is found at its new handle with its references
    forwarded, the object graph seen from the forwarded roots is the image of the
    old one, and the invariants hold again. *)
Theorem compact_preserves_graph roots hp : wf hp -> poison hp = None ->
  exists st hp' f, compact_with grow roots hp = Some (st, hp', map f roots, f) /\
    (forall h v, reach hp trace_each roots h -> peek hp h = Some v ->
       peek hp' (f h) = Some (relocate_obj f v)) /\
    (forall h1 h2, reach hp trace_each roots h1 -> reach hp trace_each roots h2 -> f h1 = f h2 -> h1 = h2) /\
    (forall x, is_live hp' x = true <-> exists h, reach hp trace_each roots h /\ x = f h) /\
    (forall h, reach hp trace_each roots h -> reach hp' trace_each (map f roots) (f h)) /\
    wf hp' /\ (forall scan, gc_remembered_violation scan hp' = None).
Proof.
  intros W Hp. destruct (compact_with_spec roots hp W Hp) as (st & hp' & f & E & W' & Hp' & C' & Hpk & Hinj & Hlive).
  exists st, hp', f. split_and!; try done.
  - induction 1 as [h Hin Hl|h v e R IH Hv He Hl].
    + apply reach_root; [by apply in_map|]. apply Hlive. exists h. split; [by apply reach_root|done].
    + apply (reach_edge _ _ _ (f h) (relocate_obj f v)); [done|auto|rewrite trace_relocate; by apply in_map|].
      apply Hlive. exists e. split; [by eapply reach_edge|done].
  - intros scan. apply no_violation; [apply W'|done..].
Qed.

End compaction.
(** ** Histories of a mutator and its collector *)

Section history.
Context {T P : Type} {trace : Trace T P} {reloc : Relocate T P}.
Context (grow : nat -> nat -> nat) (scan : T -> list Handle).

Implicit Types (hp : Heap T P) (h : Handle).

(** One operation of the runtime outside verification mode.  What is asked of the
    mutator: a fresh handle is mentioned by no object yet, and a borrow for
    appending only appends. *)
Inductive gc_step : Heap T P -> Heap T P -> Prop :=
| step_alloc v h hp hp' : alloc grow v hp = Some (h, hp') ->
    (forall x w, peek hp x = Some w -> ~ In h (edges scan w)) -> gc_step hp hp'
| step_borrow h f b hp hp' : get_mut h f hp = Some (b, hp') -> gc_step hp hp'
| step_append h from f b hp hp' : appends from f -> get_mut_append h from f hp = Some (b, hp') ->
    gc_step hp hp'
| step_swap a b hp : gc_step hp (swap a b hp)
| step_free h hp : gc_step hp (free h hp).2
| step_full roots hp : gc_step hp (collect roots hp).2
| step_minor roots expand hp : gc_step hp (collect_minor_with roots scan expand hp).2
| step_compact roots st hp hp' roots' f :
    compact_with grow roots hp = Some (st, hp', roots', f) -> gc_step hp hp'.

Definition generational hp : Prop := wf hp /\ poison hp = None /\ complete scan hp.

Lemma swap_poison a b hp : poison (swap a b hp) = poison hp.
Proof.
  assert (R : forall i hp, poison (remember i hp) = poison hp).
  { intros i hp0. unfold remember. destruct (slots hp0 !! i) as [s|]; [|done].
    destruct (_ && _ && _); [|done]. by destruct (dirty s =? CLEAN). }
  unfold swap. destruct (_ =? _)%nat; [done|].
  destruct (slots hp !! index a) as [sa|]; [|done]. destruct (slots hp !! index b) as [sb|]; [|done].
  destruct (slot_get _ sa); [|done]. destruct (slot_get _ sb); [|done]. by rewrite !R.
Qed.

Lemma append_poison h from f b hp hp' : poison hp = None -> get_mut_append h from f hp = Some (b, hp') ->
  poison hp' = None.
Proof.
  intros Hp. unfold get_mut_append, gc_verify. rewrite Hp. cbn [mbind option_bind].
  destruct (slots hp !! index h) as [s|]; [|by intros [= _ <-]]. destruct (negb _); [by intros [= _ <-]|].
  destruct (value s); [|by intros [= _ <-]]. destruct (_ && (OLD_AGE <=? age s)); [|by intros [= _ <-]].
  destruct (_ && (scan_from s <? _)); [by intros [= _ <-]|].
  destruct (_ <=? SCAN_MAX); intros [= _ <-]; by destruct (dirty s =? CLEAN).
Qed.

Lemma alloc_poison v h hp hp' : wf hp -> alloc grow v hp = Some (h, hp') -> poison hp' = poison hp.
Proof.
  intros W E. destruct (alloc_cases grow hp v h hp' W E) as (hp1 & _ & H1 & -> & _).
  destruct H1 as [->|[n ->]]; [done|].
  by destruct (top_up_free_cases grow n hp W) as [->|(k & c & e & _ & _ & _ & ->)].
Qed.

Lemma sweep_poison keep sticky hp : poison hp = None -> poison (sweep keep sticky hp).2 = None.
Proof.
  intros Hp. destruct (sweep_eq keep sticky hp) as (pz & pool & Hpz & ->). rewrite Hp in Hpz. cbn [snd swept_heap poison]. by destruct pz.
Qed.

Lemma collect_sweep roots hp :
  (collect roots hp).2 = (sweep (fun h _ => mark_contains (mark hp roots) h) interior_mutable hp).2.
Proof. unfold collect. by destruct (sweep _ _ hp). Qed.

Lemma gc_step_generational hp hp' : generational hp -> gc_step hp hp' -> generational hp'.
Proof.
  intros (W & Hp & C) S. destruct S as [v h hp hp' E Hf|h f b hp hp' E|h from f b hp hp' Hf E|a b hp|h hp|
    roots hp|roots expand hp|roots st hp hp' roots' f E].
  - destruct (alloc_correct grow hp v W (alloc_room _ _ _ _ W E)) as (h1 & hp1 & E1 & W1 & _).
    rewrite E in E1. injection E1 as <- <-. split; [done|]. split; [|by apply (alloc_complete grow scan hp v h)].
    by rewrite (alloc_poison v h hp hp').
  - split; [by eapply get_mut_wf|]. unfold get_mut, gc_verify in E. rewrite Hp in E. injection E as E.
    pose proof (peek_mut_complete scan h f hp W C) as C'. pose proof (peek_mut_poison h f hp) as P'.
    rewrite E in C', P'. cbn in C', P'. by rewrite P'.
  - split; [by eapply get_mut_append_wf|]. split; [by apply (append_poison h from f b hp)|by apply (get_mut_append_complete scan h from f hp b)].
  - split; [by apply swap_wf|]. split; [by rewrite swap_poison|by apply swap_complete].
  - split; [by apply free_wf|]. split; [by apply free_poison|by apply free_complete].
  - rewrite collect_sweep. split; [by apply sweep_wf|]. split; [by apply sweep_poison|by apply sweep_complete].
  - pose proof (proj2 (no_violation scan hp (proj1 W) Hp) C) as V.
    destruct (collect_minor_peek roots scan expand hp (fun _ => True) W Hp) as (hp3 & E & A & W' & _); [done..|].
    split; [done|]. rewrite E. split; [|by apply minor_complete].
    apply sweep_young_poison. by rewrite (ag_poison _ _ A).
  - destruct (compact_with_spec grow roots hp W Hp) as (st' & hp'' & f' & E' & G).
    rewrite E in E'. injection E' as -> -> -> ->. destruct G as (W' & Hp' & C' & _). split; [done|]. auto.
Qed.

(** C8: The write barriers keep the remembered set complete: whatever the mutator
    and the collector do from an empty heap on (allocations, borrows, appends,
    swaps, frees, full, minor and compacting collections in any order), the
    heap's verifier finds no violation, so every minor collection of the history
    is sound.  *)
Theorem barriers_keep_remembered_set pool epoch hp : rtc gc_step (new pool epoch) hp ->
  wf hp /\ gc_remembered_violation scan hp = None /\
  (forall roots expand h, reach hp (edges scan) roots h ->
     peek (collect_minor_with roots scan expand hp).2 h = peek hp h).
Proof.
  intros H. assert (G : generational hp).
  { remember (new pool epoch) as hp0 eqn:E0. assert (G0 : generational hp0).
    { subst. split; [apply new_wf|]. split; [done|]. intros i s Hs. done. }
    clear E0. induction H as [|a b c S _ IH]; [done|]. apply IH. by eapply gc_step_generational. }
  destruct G as (W & Hp & C). split; [done|]. split; [by apply no_violation; [apply W|..]|].
  intros roots expand h R. by apply minor_reach.
Qed.

End history.

(** ** Concrete collections *)

#[export] Instance list_relocate : Relocate (list Handle) unit.
Proof. refine {| relocate_obj f v := map f v |}. done. Defined.

Definition h2 : Handle := MkHandle 2 0.

(** The expansion of a weak table that maps [h1] to [h2]. *)
Definition weak_h1_h2 (hp : Heap (list Handle) unit) (m : MarkSet) : list Handle :=
  if mark_contains m h1 then [h2] else [].

Lemma ephemeron_marking_least_witness :
  mark_contains (mark_with_ephemerons_scan example_heap [h0] (fun _ => []) weak_h1_h2) h2 = true.
Proof.
  destruct (ephemeron_marking_least example_heap [h0] (fun _ => []) weak_h1_h2 (proj1 example_wf))
    as (H1 & H2 & H3 & _).
  assert (M : mark_contains (mark_with_ephemerons_scan example_heap [h0] (fun _ => []) weak_h1_h2) h1 = true).
  { apply (H2 h0 [h1] h1); [discriminate| |vm_compute; reflexivity|by left|vm_compute; reflexivity].
    apply H1; [by left|vm_compute; reflexivity]. }
  apply H3; [|vm_compute; reflexivity].
  change (In h2 (if mark_contains (mark_with_ephemerons_scan example_heap [h0] (fun _ => []) weak_h1_h2) h1
                 then [h2] else [])).
  rewrite M. by left.
Defined.

Lemma reach_h1 : reach example_heap trace_each [h0] h1.
Proof.
  apply (reach_edge _ _ _ h0 [h1]); [|vm_compute; reflexivity|by left|vm_compute; reflexivity].
  apply reach_root; [by left|vm_compute; reflexivity].
Qed.

Lemma full_collection_exact_witness : let '(st, hp') := collect [h0] example_heap in peek hp' h1 = Some [].
Proof.
  pose proof (full_collection_exact example_heap [h0] example_wf eq_refl) as H. revert H.
  destruct (collect [h0] example_heap) as [st hp']. intros (H & _).
  rewrite (H h1 reach_h1). vm_compute. reflexivity.
Defined.

Lemma example_no_violation : gc_remembered_violation (fun _ => []) example_heap = None.
Proof. vm_compute. reflexivity. Qed.

Lemma minor_sound_witness :
  peek (collect_minor_with [h2] (fun _ => []) (fun _ _ => []) example_heap).2 h0 = Some [h1].
Proof.
  pose proof (minor_sound [h2] (fun _ => []) (fun _ _ => []) example_heap example_wf eq_refl example_no_violation) as H.
  cbn zeta in H. destruct H as (_ & H & _). rewrite (H h0); vm_compute; reflexivity.
Defined.

Lemma minor_precise_witness :
  peek (collect_minor_with [h2] (fun _ => []) (fun _ _ => []) example_heap).2 h2 = Some [h0].
Proof.
  destruct (minor_precise [h2] (fun _ => []) example_heap h2 example_wf eq_refl eq_refl) as [H _].
  rewrite H; [vm_compute; reflexivity|]. apply yr_root; [by left|vm_compute; reflexivity].
Defined.

Lemma compact_preserves_graph_witness : exists f (hp' : Heap (list Handle) unit),
  f h0 = MkHandle 0 COMPACT_GEN_BASE /\ peek hp' (f h1) = Some [] /\ f h0 <> f h1.
Proof.
  destruct (compact_preserves_graph vec_grow [h0] example_heap example_wf eq_refl)
    as (st & hp' & f & E & H & Inj & _).
  exists f, hp'.
  assert (Ef : f h0 = MkHandle 0 COMPACT_GEN_BASE).
  { assert (Hx : (r ← compact_with vec_grow [h0] example_heap; Some (r.2 h0)) = Some (MkHandle 0 COMPACT_GEN_BASE))
      by (vm_compute; reflexivity).
    rewrite E in Hx. by injection Hx. }
  split; [exact Ef|]. split; [rewrite (H h1 [] reach_h1); [reflexivity|vm_compute; reflexivity]|].
  intros Ex. assert (Hn : h0 = h1); [|discriminate Hn]. apply Inj; [|exact reach_h1|exact Ex].
  apply reach_root; [by left|vm_compute; reflexivity].
Defined.

Lemma barriers_keep_remembered_set_witness : exists hp, gc_remembered_violation (fun _ => []) hp = None /\ len hp = 1.
Proof.
  exists (default empty (run vec_grow [OAlloc []] empty)). split; [|vm_compute; reflexivity].
  refine (proj1 (proj2 (barriers_keep_remembered_set vec_grow (fun _ => []) tt 0 _ _))).
  apply rtc_once, (step_alloc _ _ [] h0); [vm_compute; reflexivity|].
  intros x w Hx. unfold peek in Hx. discriminate Hx.
Defined.
