(* ===== verification/GcIncremental.v ===== *)
(** * The incremental marker

    Marking in bounded steps, interleaved with a mutator: no black object holds a
    white one as long as the mutator shades what it stores, so when no grey object
    is left everything reachable is marked. *)

From S2P Require Import Prelude Heap HeapInv HeapSweep HeapSpec Gc GcMark GcMinor GcSpec.

Open Scope Z_scope.

Section incremental.
Context {T P : Type} {trace : Trace T P}.

Implicit Types (s : Slot T) (hp : Heap T P) (h e : Handle) (k : IncrementalMarker).

(** ** Shading *)

Lemma mark_grey_marked h k : im_marked (mark_grey h k) = {[h]} ∪ im_marked k.
Proof. unfold mark_grey. case_bool_decide; cbn; set_solver. Qed.

Lemma mark_grey_grey h k x : In x (im_grey (mark_grey h k)) <->
  In x (im_grey k) \/ (x = h /\ h ∉ im_marked k).
Proof. unfold mark_grey. case_bool_decide; cbn; naive_solver. Qed.

Definition shade (es : list Handle) k : IncrementalMarker := foldl (fun k e => mark_grey e k) k es.

Lemma shade_marked es k x : x ∈ im_marked (shade es k) <-> In x es \/ x ∈ im_marked k.
Proof.
  revert k. induction es as [|e es IH]; intros k; cbn [shade foldl In]; [naive_solver|].
  unfold shade in IH. rewrite IH, mark_grey_marked, elem_of_union, elem_of_singleton. naive_solver.
Qed.

(** What becomes marked becomes grey. *)
Lemma shade_grey es k x : x ∈ im_marked (shade es k) -> x ∉ im_marked k -> In x (im_grey (shade es k)).
Proof.
  revert k. induction es as [|e es IH]; intros k; cbn [shade foldl]; [done|]. unfold shade in IH.
  intros H Hn. destruct (decide (x ∈ im_marked (mark_grey e k))) as [Hm|Hm]; [|by apply IH].
  assert (Hg : In x (im_grey (mark_grey e k))).
  { rewrite mark_grey_marked, elem_of_union, elem_of_singleton in Hm. destruct Hm as [->|]; [|done].
    apply mark_grey_grey. by right. }
  clear IH H Hm. generalize dependent (mark_grey e k). induction es as [|e' es IH']; intros k' Hg; [done|].
  cbn [foldl]. apply IH', mark_grey_grey. by left.
Qed.

Lemma shade_keeps_grey es k x : In x (im_grey k) -> In x (im_grey (shade es k)).
Proof.
  revert k. induction es as [|e es IH]; intros k Hg; [done|]. cbn [shade foldl].
  apply IH, mark_grey_grey. by left.
Qed.

Lemma shade_grey_marked es k : (forall h, In h (im_grey k) -> h ∈ im_marked k) ->
  forall h, In h (im_grey (shade es k)) -> h ∈ im_marked (shade es k).
Proof.
  revert k. induction es as [|e es IH]; intros k Hk; [done|]. cbn [shade foldl]. apply IH.
  intros h [Hh|[-> _]]%mark_grey_grey; rewrite mark_grey_marked; set_solver.
Qed.

(** The children [step] shades: the live ones. *)
Lemma foldl_live hp es k :
  foldl (fun k e => if is_live hp e then mark_grey e k else k) k es = shade (List.filter (is_live hp) es) k.
Proof.
  revert k. induction es as [|e es IH]; intros k; cbn [foldl List.filter]; [done|].
  by destruct (is_live hp e); cbn [shade foldl].
Qed.

Definition children hp h : list Handle :=
  List.filter (is_live hp) (match peek hp h with Some v => trace_each v | None => [] end).

Lemma step_unfold n hp k h grey : im_grey k = h :: grey ->
  step (S n) hp k = step n hp (shade (children hp h) (MkMarker (im_marked k) grey)).
Proof. intros E. cbn [step]. by rewrite E, foldl_live. Qed.

(** ** The tri-color invariant *)

Definition black k h : Prop := h ∈ im_marked k /\ ~ In h (im_grey k).

Record tricolor (roots : list Handle) hp k : Prop := {
  tc_roots : forall h, In h roots -> h ∈ im_marked k;
  tc_grey : forall h, In h (im_grey k) -> h ∈ im_marked k;
  tc_black : forall h v e, black k h -> peek hp h = Some v -> In e (trace_each v) ->
    is_live hp e = true -> e ∈ im_marked k
}.

Lemma marker_new_tricolor roots hp : tricolor roots hp (marker_new roots).
Proof.
  unfold marker_new. fold (shade roots (MkMarker ∅ [])). split.
  - intros h Hh. apply shade_marked. by left.
  - by apply shade_grey_marked.
  - intros h v e [Hm Hg]. destruct Hg. apply shade_grey; [done|]. cbn. set_solver.
Qed.

(** Shading more keeps it; so does turning one object black once its children are
    shaded. *)
Lemma shade_tricolor roots hp es k : tricolor roots hp k -> tricolor roots hp (shade es k).
Proof.
  intros [R G B]. split.
  - intros h Hh. apply shade_marked. auto.
  - by apply shade_grey_marked.
  - intros h v e [Hm Hg] Hv He Hl. apply shade_marked. right.
    destruct (decide (h ∈ im_marked k)) as [Hk|Hk]; [|by destruct Hg; apply shade_grey].
    apply (B h v e); try done. split; [done|]. intros Hin. apply Hg. by apply shade_keeps_grey.
Qed.

Lemma step_tricolor roots n hp k : tricolor roots hp k -> tricolor roots hp (step n hp k).2.
Proof.
  revert k. induction n as [|n IH]; intros k I; [done|].
  destruct (im_grey k) as [|h grey] eqn:Eg; [cbn [step]; by rewrite Eg|].
  rewrite (step_unfold n hp k h grey) by done. apply IH. destruct I as [R G B].
  set (k0 := MkMarker (im_marked k) grey).
  assert (Hg0 : forall x, In x (im_grey k0) -> x ∈ im_marked k0).
  { intros x Hx. apply G. rewrite Eg. by right. }
  split.
  - intros x Hx. apply shade_marked. right. by apply R.
  - by apply shade_grey_marked.
  - intros x v e [Hm Hng] Hv He Hl. apply shade_marked.
    destruct (decide (x ∈ im_marked k)) as [Hk|Hk]; [|by destruct Hng; apply shade_grey].
    destruct (decide (x = h)) as [->|Hne].
    + left. unfold children. rewrite Hv. by apply filter_In.
    + right. apply (B x v e); try done. split; [done|]. rewrite Eg. intros [->|Hin]; [done|].
      apply Hng. by apply shade_keeps_grey.
Qed.

(** ** Marking finishes *)

(** The objects a marker may ever mark: the roots and the live objects. *)
Definition markable (roots : list Handle) hp : gset Handle := list_to_set (roots ++ live_handles hp).

Lemma size_list_to_set_le (l : list Handle) : (size (list_to_set l : gset Handle) <= length l)%nat.
Proof.
  induction l as [|x l IH]; cbn [list_to_set length]; [by rewrite size_empty|].
  rewrite size_union_alt, size_singleton.
  assert (size (list_to_set l ∖ {[x]} : gset Handle) <= size (list_to_set l : gset Handle))%nat
    by (apply subseteq_size; set_solver). lia.
Qed.

(** Marks left to make plus grey objects bound the objects still to scan. *)
Lemma shade_measure U es k : (forall e, In e es -> e ∈ U) -> im_marked k ⊆ U ->
  im_marked (shade es k) ⊆ U /\
  (size (U ∖ im_marked (shade es k)) + length (im_grey (shade es k)) =
   size (U ∖ im_marked k) + length (im_grey k))%nat.
Proof.
  revert k. induction es as [|e es IH]; intros k He Hk; [done|]. cbn [shade foldl].
  assert (Hm : im_marked (mark_grey e k) ⊆ U) by (rewrite mark_grey_marked; specialize (He e (or_introl eq_refl)); set_solver).
  destruct (IH (mark_grey e k)) as [H1 H2]; [intros x Hx; apply He; by right|done|]. split; [done|].
  etransitivity; [exact H2|]. unfold mark_grey. case_bool_decide as Hin; [done|]. cbn [im_marked im_grey length].
  assert (Es : size (U ∖ im_marked k) = S (size (U ∖ ({[e]} ∪ im_marked k)))); [|lia].
  replace (U ∖ im_marked k) with ({[e]} ∪ (U ∖ ({[e]} ∪ im_marked k))).
  - rewrite size_union, size_singleton by set_solver. done.
  - apply leibniz_equiv. intros x. specialize (He e (or_introl eq_refl)).
    destruct (decide (x = e)); set_solver.
Qed.

Lemma step_finishes n hp k U : (forall h, is_live hp h = true -> h ∈ U) -> im_marked k ⊆ U ->
  (size (U ∖ im_marked k) + length (im_grey k) <= n)%nat -> (step n hp k).1 = true.
Proof.
  intros HU. revert k. induction n as [|n IH]; intros k Hk Hn.
  - cbn. destruct (im_grey k); [done|]. cbn in Hn. lia.
  - destruct (im_grey k) as [|h grey] eqn:Eg; [cbn [step]; by rewrite Eg|].
    rewrite (step_unfold n hp k h grey) by done.
    destruct (shade_measure U (children hp h) (MkMarker (im_marked k) grey)) as [H1 H2].
    + intros e [_ He]%filter_In. by apply HU.
    + done.
    + apply IH; [done|]. cbn [im_marked im_grey length] in *. lia.
Qed.

(** Incremental marking finishes: on an unchanged heap, a budget of one scan
    for each root and each live object is enough, however it is split into steps. *)
Theorem incremental_marking_terminates roots hp n :
  (length roots + length (live_handles hp) <= n)%nat ->
  (step n hp (marker_new roots)).1 = true.
Proof.
  intros Hn. set (U := markable roots hp).
  assert (HU : forall h, is_live hp h = true -> h ∈ U).
  { intros h Hl. unfold U, markable. apply elem_of_list_to_set, elem_of_app. right. by apply live_handles_in. }
  assert (HR : forall e, In e roots -> e ∈ U).
  { intros e He. unfold U, markable. apply elem_of_list_to_set, elem_of_app. left. by apply list_elem_of_In. }
  destruct (shade_measure U roots (MkMarker ∅ [])) as [H1 H2]; [done|set_solver|].
  apply (step_finishes n hp (marker_new roots) U HU H1).
  unfold marker_new. fold (shade roots (MkMarker ∅ [])).
  etransitivity; [apply Nat.eq_le_incl, H2|]. cbn [im_marked im_grey length].
  assert (size (U ∖ ∅) <= size U)%nat by (apply subseteq_size; set_solver).
  assert (size U <= length (roots ++ live_handles hp))%nat by apply size_list_to_set_le.
  rewrite length_app in *. lia.
Qed.

(** ** Marking beside a mutator *)

Context (grow : nat -> nat -> nat).

(** A marking step, or an operation of the mutator with its write barrier: a store
    shades the targets it adds, a fresh object is mentioned nowhere. *)
Inductive marking_step : Heap T P * IncrementalMarker -> Heap T P * IncrementalMarker -> Prop :=
| ms_step n hp k : marking_step (hp, k) (hp, (step n hp k).2)
| ms_store h f es b hp hp' k : get_mut h f hp = Some (b, hp') ->
    (forall v e, peek hp h = Some v -> In e (trace_each (f v)) -> In e (trace_each v) \/ In e es) ->
    marking_step (hp, k) (hp', shade es k)
| ms_alloc v h hp hp' k : alloc grow v hp = Some (h, hp') ->
    (forall x w, peek hp x = Some w -> ~ In h (trace_each w)) -> h ∉ im_marked k ->
    marking_step (hp, k) (hp', k)
| ms_shade h hp k : marking_step (hp, k) (hp, mark_grey h k).

Definition marking_inv (roots : list Handle) (c : Heap T P * IncrementalMarker) : Prop :=
  wf c.1 /\ poison c.1 = None /\ tricolor roots c.1 c.2.

Lemma store_tricolor roots h f es hp k : 
  (forall v e, peek hp h = Some v -> In e (trace_each (f v)) -> In e (trace_each v) \/ In e es) ->
  tricolor roots hp k -> tricolor roots (peek_mut h f hp).2 (shade es k).
Proof.
  intros Hes I. pose proof (shade_tricolor roots hp es k I) as [R G B]. split; [done..|].
  intros x v e Hb Hv He Hl. rewrite peek_mut_peek in Hv.
  assert (Hl0 : is_live hp e = true).
  { apply is_live_peek in Hl as [w Hw]. rewrite peek_mut_peek in Hw. apply is_live_peek.
    case_bool_decide; [|eauto]. destruct (peek hp e); [eauto|done]. }
  case_bool_decide as Ex; [|by apply (B x v e)]. subst x.
  destruct (peek hp h) as [v0|] eqn:Hv0; [|done]. cbn in Hv. injection Hv as <-.
  destruct (Hes v0 e eq_refl He) as [He0|He0]; [by apply (B h v0 e)|]. apply shade_marked. by left.
Qed.

Lemma marking_step_inv roots c c' : marking_inv roots c -> marking_step c c' -> marking_inv roots c'.
Proof.
  intros (W & Hp & I) S. destruct S as [n hp k|h f es b hp hp' k E He|v h hp hp' k E Hf Hm|h hp k]; cbn [fst snd] in *.
  - split; [done|]. split; [done|]. by apply step_tricolor.
  - split; [by eapply get_mut_wf|]. unfold get_mut, gc_verify in E. rewrite Hp in E. injection E as E.
    pose proof (peek_mut_poison h f hp) as P'. pose proof (store_tricolor roots h f es hp k He I) as I'.
    rewrite E in P', I'. cbn [snd] in *. rewrite <- Hp. done.
  - destruct (alloc_correct grow hp v W (alloc_room _ _ _ _ W E)) as (h1 & hp1 & E1 & W1 & Hn & Hv & Ho & _).
    rewrite E in E1. injection E1 as <- <-. split; [done|]. cbn [fst snd].
    split; [by rewrite (alloc_poison grow v h hp hp')|]. destruct I as [R G B]. split; [done..|].
    intros x w e Hb Hw Hin Hl. destruct (decide (x = h)) as [->|Hne]; [by destruct Hb|].
    rewrite Ho in Hw by done. apply (B x w e); try done.
    apply is_live_peek in Hl as [u Hu]. destruct (decide (e = h)) as [->|Hne']; [by destruct (Hf x w Hw)|].
    rewrite Ho in Hu by done. apply is_live_peek. eauto.
  - split; [done|]. split; [done|]. exact (shade_tricolor roots hp [h] k I).
Qed.

Lemma free_unmarked_peek k hs hp n : wf hp -> poison hp = None ->
  let hp' := (free_unmarked k hs hp n).2 in
  wf hp' /\ forall x, peek hp' x = if bool_decide (x ∈ hs /\ x ∉ im_marked k) then None else peek hp x.
Proof.
  revert hp n. induction hs as [|h hs IH]; intros hp n W Hp; cbn [free_unmarked]; cbn zeta.
  { split; [done|]. intros x. rewrite bool_decide_eq_false_2; [done|]. intros [?%not_elem_of_nil _]. done. }
  case_bool_decide as Hm.
  - destruct (IH hp n W Hp) as [W' K']. split; [done|]. intros x. rewrite K'.
    erewrite bool_decide_ext; [done|]. rewrite elem_of_cons. naive_solver.
  - destruct (IH (free h hp).2 (n + 1)) as [W' K']; [by apply free_wf|by apply free_poison|].
    split; [done|]. intros x. rewrite K', free_peek by done. destruct (decide (x = h)) as [->|Hne].
    + rewrite (bool_decide_eq_true_2 (h = h)), (bool_decide_eq_true_2 (h ∈ h :: hs /\ _)); [by case_bool_decide|set_solver|done].
    + rewrite (bool_decide_eq_false_2 (x = h)) by done.
      erewrite bool_decide_ext; [done|]. rewrite elem_of_cons. naive_solver.
Qed.

(** C24: Incremental marking is sound beside a mutator that shades what it stores:
    when the marker reports completion, everything reachable from the roots in the
    heap as it is then is marked, the sweep keeps it with its value, and it frees
    every object left unmarked. *)
Theorem incremental_marking_sound roots hp0 hp k : wf hp0 -> poison hp0 = None ->
  rtc marking_step (hp0, marker_new roots) (hp, k) -> is_complete k = true ->
  (forall h, reach hp trace_each roots h -> h ∈ im_marked k /\ peek (marker_sweep k hp).2 h = peek hp h) /\
  (forall h, h ∉ im_marked k -> peek (marker_sweep k hp).2 h = None) /\ wf (marker_sweep k hp).2.
Proof.
  intros W0 Hp0 H Hc. assert (I : marking_inv roots (hp, k)).
  { remember (hp0, marker_new roots) as c0 eqn:E0. remember (hp, k) as c eqn:E.
    assert (I0 : marking_inv roots c0) by (subst; split_and!; [done..|apply marker_new_tricolor]).
    clear E0 E. induction H as [|a b c S _ IH]; [done|]. apply IH. by eapply marking_step_inv. }
  destruct I as (W & Hp & [R G B]). cbn [fst snd] in *.
  destruct (free_unmarked_peek k (live_handles hp) hp 0 W Hp) as [W' K'].
  unfold marker_sweep. split; [|split; [|done]].
  - intros h Hh. assert (Hm : h ∈ im_marked k).
    { induction Hh as [h Hin _|h v e Hh IH Hv He Hl]; [by apply R|]. apply (B h v e); try done. split; [done|].
      unfold is_complete in Hc. intros Hin. revert Hc Hin. by destruct (im_grey k). }
    split; [done|]. rewrite K', bool_decide_eq_false_2; [done|]. naive_solver.
  - intros h Hm. rewrite K'. case_bool_decide as E; [done|].
    apply not_live_peek. destruct (is_live hp h) eqn:Hl; [|done]. destruct E. split; [|done].
    by apply live_handles_in.
Qed.

End incremental.

(** ** A concrete run *)

Definition example_marker : IncrementalMarker := (step 2 example_heap (marker_new [h0])).2.

Lemma incremental_marking_terminates_witness : (step 4 example_heap (marker_new [h0])).1 = true.
Proof. apply incremental_marking_terminates. vm_compute. lia. Defined.

Lemma incremental_marking_sound_witness :
  peek (marker_sweep example_marker example_heap).2 h1 = Some [] /\
  peek (marker_sweep example_marker example_heap).2 h2 = None.
Proof.
  destruct (incremental_marking_sound vec_grow [h0] example_heap example_heap example_marker example_wf eq_refl)
    as (H1 & H2 & _).
  - apply rtc_once. exact (ms_step vec_grow 2 example_heap (marker_new [h0])).
  - vm_compute. reflexivity.
  - split.
    + rewrite (proj2 (H1 h1 reach_h1)). vm_compute. reflexivity.
    + apply H2. vm_compute. discriminate.
Defined.
