(* ===== verification/Regex.v ===== *)
(** * Regular expressions: the syntax, the instructions and the predicates

    The AST of [src/src/regex/parser.rs], the instructions of
    [src/src/regex/vm.rs] and the predicates on characters both the compiler and
    the machine use: class membership, case folding, assertions, back-references.

    Code points and UTF-16 units are [Z]; a subject is a [list Z]; positions,
    program counters, capture slots and group indices are [nat]; the bounds of a
    quantifier, which may be as large as a [usize], are [Z].  The data of the
    Unicode standard the code reads from other crates (the case mappings of
    [char], the folding and the properties of the [intl] crate) is the class
    [UnicodeData]; the folding tables of the repository are in [RegexFold.v]. *)

From S2P Require Import Prelude RegexFold.
From Stdlib Require Strings.String.

Open Scope Z_scope.

(** ** Foreign Unicode data *)

Class UnicodeData := {
  PropEscape : Type;                    (* a resolved [\p{…}] *)
  prop_matches : PropEscape -> Z -> bool;
  to_uppercase : Z -> list Z;           (* [char::to_uppercase] *)
  to_lowercase : Z -> list Z;
  intl_case_fold : Z -> list Z;         (* [intl::unicode::case::case_fold] *)
  intl_enabled : bool                   (* the [intl] feature *)
}.

(** ** Flags *)

Record Flags := MkFlags {
  ignore_case : bool; global : bool; multiline : bool; dotall : bool;
  sticky : bool; unicode : bool; unicode_sets : bool
}.

Definition default_flags : Flags := MkFlags false false false false false false false.

Record FlagDelta := MkDelta {
  d_ignore_case : option bool; d_multiline : option bool; d_dotall : option bool
}.

(** [FlagDelta::apply]. *)
Definition apply_delta (d : FlagDelta) (base : Flags) : Flags :=
  MkFlags (default (ignore_case base) (d_ignore_case d)) (global base)
    (default (multiline base) (d_multiline d)) (default (dotall base) (d_dotall d))
    (sticky base) (unicode base) (unicode_sets base).

(** ** Characters *)

(** [char::from_u32(c).is_some()]. *)
Definition is_scalar (c : Z) : bool := in_range 0 0xD7FF c || in_range 0xE000 0x10FFFF c.

Definition is_high_surrogate (u : Z) : bool := in_range 0xD800 0xDBFF u.
Definition is_low_surrogate (u : Z) : bool := in_range 0xDC00 0xDFFF u.

Definition pair_cp (hi lo : Z) : Z := 0x10000 + Z.shiftl (hi - 0xD800) 10 + (lo - 0xDC00).

Definition read_cp (input : list Z) (sp : nat) (uni : bool) : option (Z * nat) :=
  match input !! sp with
  | None => None
  | Some u =>
      if uni && is_high_surrogate u then
        match input !! S sp with
        | Some lo => if is_low_surrogate lo then Some (pair_cp u lo, 2%nat) else Some (u, 1%nat)
        | None => Some (u, 1%nat)
        end
      else Some (u, 1%nat)
  end.

Definition read_cp_back (input : list Z) (sp : nat) (uni : bool) : option (Z * nat) :=
  match sp with
  | O => None
  | S sp1 =>
      match input !! sp1 with
      | None => None
      | Some lo =>
          match sp1 with
          | S sp2 =>
              if uni && is_low_surrogate lo then
                match input !! sp2 with
                | Some hi => if is_high_surrogate hi then Some (pair_cp hi lo, 2%nat)
                             else Some (lo, 1%nat)
                | None => Some (lo, 1%nat)
                end
              else Some (lo, 1%nat)
          | O => Some (lo, 1%nat)
          end
      end
  end.

Definition read_dir (input : list Z) (sp : nat) (uni rev : bool) : option (Z * nat) :=
  if rev then
    match read_cp_back input sp uni with Some (cp, len) => Some (cp, (sp - len)%nat) | None => None end
  else
    match read_cp input sp uni with Some (cp, len) => Some (cp, (sp + len)%nat) | None => None end.

Definition is_line_term (c : Z) : bool := existsb (Z.eqb c) [0x0A; 0x0D; 0x2028; 0x2029].

Definition is_word (c : Z) : bool :=
  in_range 0x30 0x39 c || in_range 0x41 0x5A c || in_range 0x61 0x7A c || (c =? 0x5F).

Definition is_word_flags (c : Z) (f : Flags) : bool :=
  is_word c || (ignore_case f && unicode f && ((c =? 0x17F) || (c =? 0x212A))).

Definition is_ascii_digit (c : Z) : bool := in_range 0x30 0x39 c.

Definition is_space (c : Z) : bool :=
  in_range 0x09 0x0D c || (c =? 0x20) || (c =? 0xA0) || (c =? 0x1680) || in_range 0x2000 0x200A c
  || (c =? 0x2028) || (c =? 0x2029) || (c =? 0x202F) || (c =? 0x205F) || (c =? 0x3000) || (c =? 0xFEFF).

(** [char::to_ascii_lowercase], [to_ascii_uppercase], [eq_ignore_ascii_case]. *)
Definition to_ascii_lowercase (c : Z) : Z := if in_range 0x41 0x5A c then c + 32 else c.
Definition to_ascii_uppercase (c : Z) : Z := if in_range 0x61 0x7A c then c - 32 else c.
Definition eq_ignore_ascii_case (a b : Z) : bool := to_ascii_lowercase a =? to_ascii_lowercase b.

Definition surrogate_pair (c : Z) : Z * Z :=
  let v := c - 0x10000 in
  (0xD800 + as_u16 (Z.shiftr v 10), 0xDC00 + as_u16 (Z.land v 0x3FF)).

Section Unicode.
Context `{U : UnicodeData}.

(** ** Case folding *)

Definition canonicalize_legacy (ch : Z) : Z :=
  match to_uppercase ch with
  | [first] =>
      if 0xFFFF <? first then ch
      else if (128 <=? ch) && (first <? 128) then ch
      else first
  | _ => ch
  end.

Definition char_fold_eq (a b : Z) (f : Flags) : bool :=
  if negb (unicode f || unicode_sets f) then canonicalize_legacy a =? canonicalize_legacy b
  else if intl_enabled then bool_decide (intl_case_fold a = intl_case_fold b)
  else eq_ignore_ascii_case a b || bool_decide (to_lowercase a = to_lowercase b).

Definition cp_eq (a b : Z) (f : Flags) : bool :=
  if a =? b then true
  else if negb (ignore_case f) then false
  else if is_scalar a && is_scalar b then char_fold_eq a b f
  else false.

(** Back-references compare unit by unit with the same rule. *)
Definition unit_eq (a b : Z) (f : Flags) : bool :=
  if a =? b then true
  else if negb (ignore_case f) then false
  else if is_scalar a && is_scalar b then char_fold_eq a b f
  else false.

Definition case_variants (ch : Z) (f : Flags) : list Z :=
  if unicode f || unicode_sets f then simple_fold_class ch
  else simple_fold_class ch ++ to_uppercase ch ++ to_lowercase ch.

Definition range_fold_hit (c lo hi : Z) (f : Flags) : bool :=
  if negb (is_scalar c) then false
  else if c <? 128 then
    let cl := to_ascii_lowercase c in
    let cu := to_ascii_uppercase c in
    if in_range lo hi cl || in_range lo hi cu then true
    else
      if cl =? 0x6B then (unicode f || unicode_sets f) && in_range lo hi 0x212A
      else if cl =? 0x73 then (unicode f || unicode_sets f) && in_range lo hi 0x17F
      else false
  else
    existsb (fun v => in_range lo hi v && (is_scalar v && char_fold_eq v c f)) (case_variants c f).

(** ** Classes *)

Inductive Shorthand :=
  Digit | NotDigit | Word | NotWord | Space | NotSpace | Property (p : PropEscape) (neg : bool).

Fixpoint prop_matches_ci (fuel : nat) (p : PropEscape) (neg : bool) (c : Z) (f : Flags) : bool :=
  match fuel with
  | O => false
  | S fuel =>
      if neg && ignore_case f && unicode_sets f then negb (prop_matches_ci fuel p false c f)
      else
        let base x := xorb (prop_matches p x) neg in
        if base c then true
        else if negb (ignore_case f) then false
        else if negb (is_scalar c) then false
        else existsb (fun v => negb (v =? c) && base v) (case_variants c f)
  end.

(** The recursion of [prop_matches_ci] clears [neg]: it is two calls deep. *)
Definition shorthand_matches (s : Shorthand) (c : Z) (f : Flags) : bool :=
  match s with
  | Digit => is_ascii_digit c
  | NotDigit => negb (is_ascii_digit c)
  | Word => is_word_flags c f
  | NotWord => negb (is_word_flags c f)
  | Space => is_space c
  | NotSpace => negb (is_space c)
  | Property p neg => prop_matches_ci 2 p neg c f
  end.

Inductive ClassMember :=
  CMChar (c : Z) | CMRange (lo hi : Z) | CMShorthand (s : Shorthand).

Definition member_matches (c : Z) (f : Flags) (m : ClassMember) : bool :=
  match m with
  | CMChar ch => cp_eq c ch f
  | CMRange lo hi => in_range lo hi c || (ignore_case f && range_fold_hit c lo hi f)
  | CMShorthand s => shorthand_matches s c f
  end.

Definition leaf_members_match (members : list ClassMember) (c : Z) (f : Flags) : bool :=
  existsb (member_matches c f) members.

Record Class_ := MkClass { neg : bool; members : list ClassMember; latin1 : list Z }.

(** The code points [0u32..256]. *)
Definition latin1_range : list Z := map Z.of_nat (seq 0 256).

(** [latin1[(c >> 6)] |= 1 << (c & 63)] for the code points [p] accepts. *)
Definition latin1_set (map : list Z) (c : Z) : list Z :=
  alter (fun w => Z.lor w (Z.shiftl 1 (Z.land c 63))) (Z.to_nat (Z.shiftr c 6)) map.

Definition latin1_build (p : Z -> bool) : list Z :=
  fold_left (fun map c => if p c then latin1_set map c else map) latin1_range [0; 0; 0; 0].

Definition latin1_test (map : list Z) (c : Z) : bool :=
  negb (Z.land (default 0 (map !! Z.to_nat (Z.shiftr c 6))) (Z.shiftl 1 (Z.land c 63)) =? 0).

(** [Class::new]. *)
Definition class_new (neg : bool) (members : list ClassMember) : Class_ :=
  MkClass neg members
    (latin1_build (fun c => xorb (leaf_members_match members c default_flags) neg)).

Definition class_matches (cl : Class_) (c : Z) (f : Flags) : bool :=
  if (c <? 256) && negb (ignore_case f) then latin1_test (latin1 cl) c
  else xorb (leaf_members_match (members cl) c f) (neg cl).

Inductive SetMatcher :=
  | SMUnion (kids : list SetMatcher)
  | SMIntersection (kids : list SetMatcher)
  | SMDifference (kids : list SetMatcher)
  | SMNegated (inner : SetMatcher)
  | SMLeaf (members : list ClassMember).

Fixpoint set_matches (m : SetMatcher) (c : Z) (f : Flags) : bool :=
  match m with
  | SMUnion kids => existsb (fun k => set_matches k c f) kids
  | SMIntersection kids => forallb (fun k => set_matches k c f) kids
  | SMDifference kids =>
      match kids with
      | [] => false
      | first :: rest => set_matches first c f && negb (existsb (fun k => set_matches k c f) rest)
      end
  | SMNegated inner => negb (set_matches inner c f)
  | SMLeaf members => leaf_members_match members c f
  end.

(** ** Assertions and back-references *)

Inductive Assert := AStart | AEnd | AWordBoundary | ANotWordBoundary.

(** [input[i]] with the panic of an index out of range as [None]. *)
Definition is_boundary (input : list Z) (sp : nat) (f : Flags) : option bool :=
  before ← (match sp with
            | O => Some false
            | S p => u ← input !! p; Some (is_word_flags u f)
            end);
  after ← (if (sp <? length input)%nat then u ← input !! sp; Some (is_word_flags u f)
           else Some false);
  Some (xorb before after).

Definition assert_ok (a : Assert) (input : list Z) (sp : nat) (f : Flags) : option bool :=
  match a with
  | AStart =>
      match sp with
      | O => Some true
      | S p => if multiline f then u ← input !! p; Some (is_line_term u) else Some false
      end
  | AEnd =>
      if (sp =? length input)%nat then Some true
      else if multiline f then u ← input !! sp; Some (is_line_term u)
      else Some false
  | AWordBoundary => is_boundary input sp f
  | ANotWordBoundary => b ← is_boundary input sp f; Some (negb b)
  end.

Definition is_code_point_boundary (units : list Z) (i : nat) : bool :=
  match i with
  | O => true
  | S p =>
      match units !! p, units !! i with
      | Some a, Some b => negb (is_high_surrogate a && is_low_surrogate b)
      | _, _ => true
      end
  end.

(** The captured span lies inside the subject (the machine keeps it so, as the
    theorems on captures show): an index outside it, a panic of the source, is a
    mismatch here.

    The code-point comparison of two windows; the index advances by the length of
    a code point, at least one, so [len] iterations are enough. *)
Fixpoint span_eq_loop (fuel : nat) (wa wb : list Z) (i len : nat) (f : Flags) : bool :=
  match fuel with
  | O => true
  | S fuel =>
      if (i <? len)%nat then
        match read_cp wa i true, read_cp wb i true with
        | Some (ca, na), Some (cb, nb) =>
            if (na =? nb)%nat && cp_eq ca cb f then span_eq_loop fuel wa wb (i + na) len f
            else false
        | _, _ => false
        end
      else true
  end.

Definition backref_span_eq (input : list Z) (a b len : nat) (f : Flags) : bool :=
  if negb (ignore_case f && (unicode f || unicode_sets f)) then
    forallb (fun i =>
      match input !! (a + i)%nat, input !! (b + i)%nat with
      | Some x, Some y => unit_eq x y f
      | _, _ => false
      end) (seq 0 len)
  else span_eq_loop len (take len (drop a input)) (take len (drop b input)) 0 len f.

(** The outer [option] is the panic of [e - s] on a reversed span. *)
Definition match_backref (input : list Z) (rev : bool) (sp s e : nat) (f : Flags)
    : option (option nat) :=
  if (e <? s)%nat then None
  else
    let len := (e - s)%nat in
    let cp_ok i := negb (unicode f || unicode_sets f) || is_code_point_boundary input i in
    Some
      (if rev then
         if (len <=? sp)%nat && backref_span_eq input (sp - len) s len f && cp_ok (sp - len)%nat
         then Some (sp - len)%nat else None
       else if (sp + len <=? length input)%nat && backref_span_eq input sp s len f && cp_ok (sp + len)%nat
       then Some (sp + len)%nat else None).

(** ** The pattern *)

Inductive ClassItem := CIChar (c : Z) | CIRange (lo hi : Z) | CIShorthand (s : Shorthand).

Inductive ClassSetExpr :=
  | CSUnion (kids : list ClassSetExpr)
  | CSIntersection (kids : list ClassSetExpr)
  | CSDifference (kids : list ClassSetExpr)
  | CSItems (items : list ClassItem)
  | CSStrings (list : list (list Z))
  | CSNegated (inner : ClassSetExpr).

Inductive Node :=
  | NEmpty
  | NChar (c : Z)
  | NAny
  | NClass (neg : bool) (items : list ClassItem)
  | NClassSet (neg : bool) (set : ClassSetExpr)
  | NStart
  | NEnd
  | NWordBoundary (neg : bool)
  | NGroup (index : option nat) (inner : Node)
  | NModifier (ignore_case multiline dotall : option bool) (inner : Node)
  | NLook (neg : bool) (inner : Node)
  | NLookBehind (neg : bool) (inner : Node)
  | NBackref (n : nat)
  | NNamedBackref (name : String.string)
  | NConcat (nodes : list Node)
  | NAlt (branches : list Node)
  | NRepeat (inner : Node) (min : Z) (max : option Z) (greedy : bool).

(** ** The program *)

Inductive Inst :=
  | Char (c : Z)
  | Any
  | Class (cl : Class_)
  | ClassSet (neg : bool) (matcher : SetMatcher)
  | Match
  | Jmp (target : nat)
  | Split (a b : nat)
  | Save (slot : nat)
  | IAssert (a : Assert)
  | Look (neg : bool) (prog : list Inst)
  | LookBehind (neg : bool) (prog : list Inst)
  | Backref (g : nat)
  | BackrefMulti (groups : list nat)
  | ClearCaptures (from to : nat)
  | Mark
  | EmptyFail
  | Fail_
  | PushFlags (d : FlagDelta)
  | PopFlags.

(** ** Consuming one character *)

Definition is_single_consume (i : Inst) : bool :=
  match i with Char _ | Any | Class _ | ClassSet _ _ => true | _ => false end.

Definition single_consume_matches (i : Inst) (cp : Z) (f : Flags) : bool :=
  match i with
  | Char c => cp_eq cp c f
  | Any => dotall f || negb (is_line_term cp)
  | Class cl => class_matches cl cp f
  | ClassSet neg m => xorb (set_matches m cp f) neg
  | _ => false
  end.

Definition consume_one (i : Inst) (input : list Z) (sp : nat) (f : Flags) (rev : bool) : option nat :=
  match read_dir input sp (unicode f) rev with
  | Some (cp, nsp) => if single_consume_matches i cp f then Some nsp else None
  | None => None
  end.

End Unicode.
