(* ===== verification/RegexComp.v ===== *)
(** * The regular-expression compiler: [src/src/regex/compile.rs]

    The compiler is the state the source threads: the program under
    construction, which it extends and back-patches, and the highest group index
    seen.  An error is a value of [res]; an underflowing subtraction, a panic of
    the source, is an error of its own. *)

From S2P Require Import Prelude Regex.

Open Scope Z_scope.

Inductive RegexError := TooLarge | NegatedStrings | Panic.

Inductive res (A : Type) := Ok (a : A) | Err (e : RegexError).
Arguments Ok {A}.
Arguments Err {A}.

#[export] Instance res_bind : MBind res := fun A B f r =>
  match r with Ok a => f a | Err e => Err e end.

(** [crate::limits]. *)
Definition MAX_PROG_SIZE : Z := 100000.
Definition MAX_STRING_LEN : Z := Z.shiftl 1 30.

Definition saturate (z : Z) : Z := Z.min z (2 ^ 64 - 1).

Section Compile.
Context `{U : UnicodeData}.

Record Compiler := MkCompiler {
  prog : list Inst;
  groups : nat;
  group_names : list (nat * String.string);
  c_unicode : bool;
  reverse : bool
}.

Definition set_prog (c : Compiler) (p : list Inst) : Compiler :=
  MkCompiler p (groups c) (group_names c) (c_unicode c) (reverse c).

(** [self.groups = self.groups.max(n)]. *)
Definition max_groups (c : Compiler) (n : nat) : Compiler :=
  MkCompiler (prog c) (Nat.max (groups c) n) (group_names c) (c_unicode c) (reverse c).

Definition emit (c : Compiler) (i : Inst) : Compiler := set_prog c (prog c ++ [i]).

Definition here (c : Compiler) : nat := length (prog c).

(** [self.prog[at] = i]. *)
Definition patch (c : Compiler) (at_ : nat) (i : Inst) : Compiler :=
  set_prog c (<[at_ := i]> (prog c)).

Definition check_size (c : Compiler) : res Compiler :=
  if MAX_PROG_SIZE <? Z.of_nat (here c) then Err TooLarge else Ok c.

(** A fresh compiler for a sub-program or a probe. *)
Definition sub_compiler (c : Compiler) (rev : bool) : Compiler :=
  MkCompiler [] 0 (group_names c) (c_unicode c) rev.

(** ** What a pattern can do *)

Fixpoint set_strings (e : ClassSetExpr) : list (list Z) :=
  match e with
  | CSItems _ => []
  | CSStrings list => filter (fun s => length s ≠ 1%nat) list
  | CSNegated _ => []
  | CSUnion kids =>
      fold_left (fun acc k =>
        fold_left (fun acc s => if bool_decide (s ∈ acc) then acc else acc ++ [s]) (set_strings k) acc)
        kids []
  | CSIntersection kids =>
      match kids with
      | [] => []
      | first :: rest =>
          fold_left (fun acc k => let other := set_strings k in filter (fun s => s ∈ other) acc)
            rest (set_strings first)
      end
  | CSDifference kids =>
      match kids with
      | [] => []
      | first :: rest =>
          fold_left (fun acc k => let other := set_strings k in filter (fun s => s ∉ other) acc)
            rest (set_strings first)
      end
  end.

Definition lower_item (it : ClassItem) : ClassMember :=
  match it with
  | CIChar c => CMChar c
  | CIRange a b => CMRange a b
  | CIShorthand s => CMShorthand s
  end.

Fixpoint build_set_matcher (e : ClassSetExpr) : SetMatcher :=
  match e with
  | CSItems items => SMLeaf (map lower_item items)
  | CSStrings list =>
      SMLeaf (flat_map (fun s => match s with [c] => [CMChar c] | _ => [] end) list)
  | CSNegated inner => SMNegated (build_set_matcher inner)
  | CSUnion kids => SMUnion (map build_set_matcher kids)
  | CSIntersection kids => SMIntersection (map build_set_matcher kids)
  | CSDifference kids => SMDifference (map build_set_matcher kids)
  end.

Definition is_empty_string (s : list Z) : bool := match s with [] => true | _ => false end.

Fixpoint can_match_empty (node : Node) : bool :=
  match node with
  | NChar _ | NAny | NClass _ _ => false
  | NClassSet _ set => existsb is_empty_string (set_strings set)
  | NEmpty | NStart | NEnd | NWordBoundary _ => true
  | NLook _ _ | NLookBehind _ _ => true
  | NBackref _ | NNamedBackref _ => true
  | NGroup _ inner | NModifier _ _ _ inner => can_match_empty inner
  | NConcat kids => forallb can_match_empty kids
  | NAlt kids => existsb can_match_empty kids
  | NRepeat inner min _ _ => (min =? 0) || can_match_empty inner
  end.

(** The walk of [group_slot_range]: the least and the greatest group index. *)
Definition meet_group (b : option (nat * nat)) (idx : nat) : option (nat * nat) :=
  match b with
  | Some (lo, hi) => Some (Nat.min lo idx, Nat.max hi idx)
  | None => Some (idx, idx)
  end.

Fixpoint group_walk (node : Node) (b : option (nat * nat)) : option (nat * nat) :=
  match node with
  | NGroup index inner =>
      group_walk inner (match index with Some idx => meet_group b idx | None => b end)
  | NModifier _ _ _ inner | NLook _ inner | NLookBehind _ inner | NRepeat inner _ _ _ =>
      group_walk inner b
  | NConcat kids | NAlt kids => fold_left (fun b k => group_walk k b) kids b
  | _ => b
  end.

Definition group_slot_range (node : Node) : option (nat * nat) :=
  match group_walk node None with
  | Some (l, h) => Some ((2 * l)%nat, (2 * h + 1)%nat)
  | None => None
  end.

(** ** Emission *)

Definition emit_char (c : Compiler) (ch : Z) : Compiler :=
  if negb (c_unicode c) && (0xFFFF <? ch) then
    let '(hi, lo) := surrogate_pair ch in emit (emit c (Char hi)) (Char lo)
  else emit c (Char ch).

Definition convert_item (uni : bool) (it : ClassItem) : list ClassMember :=
  match it with
  | CIChar c =>
      if negb uni && (0xFFFF <? c) then
        let '(hi, lo) := surrogate_pair c in [CMChar hi; CMChar lo]
      else [CMChar c]
  | CIRange a b => [CMRange a b]
  | CIShorthand s => [CMShorthand s]
  end.

Definition emit_clear_captures (c : Compiler) (inner : Node) : Compiler :=
  match group_slot_range inner with
  | Some (lo, hi) => emit c (ClearCaptures lo hi)
  | None => c
  end.

(** [sort_by_key(|s| Reverse(s.len()))]: a stable sort, longest first. *)
Fixpoint insert_longest (s : list Z) (l : list (list Z)) : list (list Z) :=
  match l with
  | [] => [s]
  | x :: l' => if (length x <? length s)%nat then s :: l else x :: insert_longest s l'
  end.

Definition sort_longest (l : list (list Z)) : list (list Z) :=
  fold_left (fun acc s => insert_longest s acc) l [].

(** The branches of the strings: [Split(branch, next); branch; Jmp(end)] each. *)
Fixpoint emit_strings (c : Compiler) (l : list (list Z)) (jmps : list nat)
    : res (Compiler * list nat) :=
  match l with
  | [] => Ok (c, jmps)
  | s :: l =>
      let split := here c in
      let c := emit c (Split 0 0) in
      let branch_start := here c in
      let c := fold_left emit_char s c in
      let jmp := here c in
      let c := emit c (Jmp 0) in
      let next := here c in
      let c := patch c split (Split branch_start next) in
      c ← check_size c;
      emit_strings c l (jmps ++ [jmp])
  end.

Definition patch_jumps (c : Compiler) (jmps : list nat) (end_ : nat) : Compiler :=
  fold_left (fun c j => patch c j (Jmp end_)) jmps c.

Definition class_strings (set : ClassSetExpr) : list (list Z) :=
  filter (fun s => length s ≠ 1%nat) (set_strings set).

Definition compile_class_set (c : Compiler) (neg : bool) (set : ClassSetExpr) : res Compiler :=
  let strings := class_strings set in
  if neg && negb (bool_decide (strings = [])) then Err NegatedStrings
  else
    let matcher := build_set_matcher set in
    match strings with
    | [] => Ok (emit c (ClassSet neg matcher))
    | _ =>
        '(c, jmps) ← emit_strings c (sort_longest strings) [];
        let c := emit c (ClassSet neg matcher) in
        Ok (patch_jumps c jmps (here c))
    end.

(** ** Quantifiers

    [body] compiles the quantified atom [inner]. *)

Fixpoint compile_copies (inner : Node) (body : Compiler -> res Compiler) (n : nat) (c : Compiler)
    : res Compiler :=
  match n with
  | O => Ok c
  | S n =>
      c ← body (emit_clear_captures c inner);
      compile_copies inner body n c
  end.

(** One guarded copy, shared by the star and the optional chain. *)
Definition compile_guarded (inner : Node) (body : Compiler -> res Compiler) (c : Compiler)
    : res Compiler :=
  let nullable := can_match_empty inner in
  let c := if nullable then emit c Mark else c in
  c ← body (emit_clear_captures c inner);
  Ok (if nullable then emit c EmptyFail else c).

Definition compile_star (inner : Node) (body : Compiler -> res Compiler) (greedy : bool)
    (c : Compiler) : res Compiler :=
  let l1 := here c in
  let c := emit c (Split 0 0) in
  let start := here c in
  c ← compile_guarded inner body c;
  let c := emit c (Jmp l1) in
  let exit := here c in
  Ok (patch c l1 (if greedy then Split start exit else Split exit start)).

Fixpoint emit_chain (inner : Node) (body : Compiler -> res Compiler) (count : nat) (c : Compiler)
    (splits : list (nat * nat)) : res (Compiler * list (nat * nat)) :=
  match count with
  | O => Ok (c, splits)
  | S count =>
      let split := here c in
      let c := emit c (Split 0 0) in
      let start := here c in
      c ← compile_guarded inner body c;
      emit_chain inner body count c (splits ++ [(split, start)])
  end.

Definition compile_optional_chain (inner : Node) (body : Compiler -> res Compiler) (count : nat)
    (greedy : bool) (c : Compiler) : res Compiler :=
  '(c, splits) ← emit_chain inner body count c [];
  let exit := here c in
  Ok (fold_left (fun c (p : nat * nat) =>
        patch c p.1 (if greedy then Split p.2 exit else Split exit p.2)) splits c).

Definition compile_repeat (inner : Node) (body : Compiler -> res Compiler) (min : Z)
    (max : option Z) (greedy : bool) (c : Compiler) : res Compiler :=
  let nullable := can_match_empty inner in
  if negb nullable && (MAX_STRING_LEN <? min) then check_size (emit c Fail_)
  else
    let max := if nullable then max
               else match max with
                    | Some m => if m <=? MAX_STRING_LEN then Some m else None
                    | None => None
                    end in
    match max with
    | None =>
        c ← compile_copies inner body (Z.to_nat min) c;
        compile_star inner body greedy c
    | Some max =>
        probe ← body (sub_compiler c (reverse c));
        let inner_size := Z.max (Z.of_nat (here probe)) 1 in
        let projected :=
          saturate (Z.of_nat (here c) + saturate (max * saturate (inner_size + 1))) in
        if MAX_PROG_SIZE <? projected then Err TooLarge
        else
          c ← compile_copies inner body (Z.to_nat min) c;
          if max <? min then Err Panic
          else compile_optional_chain inner body (Z.to_nat (max - min)) greedy c
    end.

(** ** Sequences and alternatives *)

Section lists.
Context (rec : Node -> Compiler -> res Compiler).

Fixpoint compile_seq (l : list Node) (c : Compiler) : res Compiler :=
  match l with
  | [] => Ok c
  | n :: l => c ← rec n c; compile_seq l c
  end.

(** The same over [nodes.iter().rev()]. *)
Fixpoint compile_seq_rev (l : list Node) (c : Compiler) : res Compiler :=
  match l with
  | [] => Ok c
  | n :: l => c ← compile_seq_rev l c; rec n c
  end.

Fixpoint emit_branches (l : list Node) (c : Compiler) (jmps : list nat)
    : res (Compiler * list nat) :=
  match l with
  | [] => Ok (c, jmps)
  | branch :: l =>
      match l with
      | [] => c ← rec branch c; Ok (c, jmps)
      | _ =>
          let split := here c in
          let c := emit c (Split 0 0) in
          let branch_start := here c in
          c ← rec branch c;
          let jmp := here c in
          let c := emit c (Jmp 0) in
          let next := here c in
          let c := patch c split (Split branch_start next) in
          emit_branches l c (jmps ++ [jmp])
      end
  end.

Definition compile_alt (branches : list Node) (c : Compiler) : res Compiler :=
  '(c, jmps) ← emit_branches branches c [];
  Ok (patch_jumps c jmps (here c)).

End lists.

(** The groups a name stands for. *)
Definition name_indices (names : list (nat * String.string)) (name : String.string) : list nat :=
  map fst (List.filter (fun p => String.eqb p.2 name) names).

Fixpoint compile (node : Node) (c : Compiler) {struct node} : res Compiler :=
  c ←
    (match node with
     | NEmpty => Ok c
     | NChar ch => Ok (emit_char c ch)
     | NAny => Ok (emit c Any)
     | NStart => Ok (emit c (IAssert AStart))
     | NEnd => Ok (emit c (IAssert AEnd))
     | NWordBoundary neg => Ok (emit c (IAssert (if neg then ANotWordBoundary else AWordBoundary)))
     | NClass neg items =>
         Ok (emit c (Class (class_new neg (flat_map (convert_item (c_unicode c)) items))))
     | NConcat nodes =>
         if reverse c then compile_seq_rev compile nodes c else compile_seq compile nodes c
     | NGroup index inner =>
         match index with
         | Some idx =>
             let c := max_groups c idx in
             if reverse c then
               c ← compile inner (emit c (Save (2 * idx + 1)));
               Ok (emit c (Save (2 * idx)))
             else
               c ← compile inner (emit c (Save (2 * idx)));
               Ok (emit c (Save (2 * idx + 1)))
         | None => compile inner c
         end
     | NClassSet neg set => compile_class_set c neg set
     | NModifier i m s inner =>
         c ← compile inner (emit c (PushFlags (MkDelta i m s)));
         Ok (emit c PopFlags)
     | NAlt branches => compile_alt compile branches c
     | NRepeat inner min max greedy => compile_repeat inner (compile inner) min max greedy c
     | NLook neg inner =>
         sub ← compile inner (sub_compiler c false);
         let sub := emit sub Match in
         Ok (emit (max_groups c (groups sub)) (Look neg (prog sub)))
     | NLookBehind neg inner =>
         sub ← compile inner (sub_compiler c true);
         let sub := emit sub Match in
         Ok (emit (max_groups c (groups sub)) (LookBehind neg (prog sub)))
     | NBackref n => Ok (emit (max_groups c n) (Backref n))
     | NNamedBackref name =>
         let indices := name_indices (group_names c) name in
         match indices with
         | [] => Ok (emit c (Backref 0))
         | [n] => Ok (emit (max_groups c n) (Backref n))
         | _ => Ok (emit (max_groups c (fold_right Nat.max 0%nat indices)) (BackrefMulti indices))
         end
     end);
  check_size c.

(** [compile] of the source: the whole program and the number of groups. *)
Definition compile_program (ast : Node) (names : list (nat * String.string)) (uni : bool)
    : res (list Inst * nat) :=
  let c := MkCompiler [] 0 names uni false in
  c ← compile ast (emit c (Save 0));
  let c := emit (emit c (Save 1)) Match in
  Ok (prog c, groups c).

End Compile.
