(* ===== verification/RegexVm.v ===== *)
(** * The backtracking machine: [src/src/regex/vm.rs]

    The executor keeps one explicit stack of frames: choice points, and undo
    records of the state changes made since.  [forward] is one instruction of the
    inner loop, [unwind] the loop that pops frames up to a choice point, [backtrack]
    their alternation; a lookaround runs [backtrack] on its sub-program.

    [backtrack] carries a fuel; every iteration ticks the shared step counter, so
    a fuel above what is left of the budget is never exhausted (proved in
    [RegexExec.v]).  The other loops carry structural fuels: the consuming loop
    moves inside the subject ([S (length input)] iterations), the loop of a [Run]
    frame steps from [p] to [first].  The limits of [crate::limits] are the record
    [Limits], whose values in the source are [default_limits]; an index out of
    range is [Panicked]. *)

From S2P Require Import Prelude Regex RegexComp.

Open Scope Z_scope.

Record Limits := MkLimits { MAX_DEPTH : Z; MAX_STACK : Z }.

Definition default_limits : Limits := MkLimits 2000 4000000.

Definition STEP_BASE : Z := 300000.
Definition STEP_PER_CHAR : Z := 1000.

Definition budget_for (input_len : nat) : Z :=
  saturate (STEP_BASE + saturate (STEP_PER_CHAR * Z.of_nat input_len)).

Section Vm.
Context `{U : UnicodeData}.

Record Ctx := MkCtx {
  x_prog : list Inst;
  x_input : list Z;
  x_flags : Flags;
  match_end : option nat;
  x_reverse : bool;
  budget : Z
}.

(** [Ctx::tick] on the shared counter: the new count, and whether to go on. *)
Definition tick (ctx : Ctx) (steps : Z) : Z * bool :=
  let n := saturate (steps + 1) in (n, n <=? budget ctx).

Inductive Frame :=
  | FAlt (pc sp : nat)
  | FSave (slot : nat) (old : option nat)
  | FClear (lo n : nat)
  | FSaves
  | FMarkPop
  | FMarkPush (m : nat)
  | FFlagsPop
  | FFlagsPush (f : Flags)
  | FRun (cont first p : nat) (flags : Flags)
  | FPositions (cont base : nat)
  | FLazy (consume cont sp : nat) (flags : Flags).

(** The state of [backtrack]: its locals, the buffers it borrows, the stack and
    its two side stacks (their tops at the end, as [Vec]s), the step counter.
    [frames], [marks] and [flag_stack] have their tops at the head. *)
Record Exec := MkExec {
  pc : nat;
  sp : nat;
  saves : list (option nat);
  marks : list nat;
  flag_stack : list Flags;
  cur : Flags;
  frames : list Frame;
  slots : list (option nat);
  positions : list nat;
  steps : Z
}.

Definition at_ (e : Exec) (pc' sp' : nat) : Exec :=
  MkExec pc' sp' (saves e) (marks e) (flag_stack e) (cur e) (frames e) (slots e) (positions e) (steps e).

Definition with_frames (e : Exec) (fs : list Frame) : Exec :=
  MkExec (pc e) (sp e) (saves e) (marks e) (flag_stack e) (cur e) fs (slots e) (positions e) (steps e).

Definition push_frame (e : Exec) (f : Frame) : Exec := with_frames e (f :: frames e).

Definition with_saves (e : Exec) (sv : list (option nat)) (sl : list (option nat)) : Exec :=
  MkExec (pc e) (sp e) sv (marks e) (flag_stack e) (cur e) (frames e) sl (positions e) (steps e).

Definition with_marks (e : Exec) (ms : list nat) : Exec :=
  MkExec (pc e) (sp e) (saves e) ms (flag_stack e) (cur e) (frames e) (slots e) (positions e) (steps e).

Definition with_flags (e : Exec) (fs : list Flags) (c : Flags) : Exec :=
  MkExec (pc e) (sp e) (saves e) (marks e) fs c (frames e) (slots e) (positions e) (steps e).

Definition with_positions (e : Exec) (ps : list nat) : Exec :=
  MkExec (pc e) (sp e) (saves e) (marks e) (flag_stack e) (cur e) (frames e) (slots e) ps (steps e).

Definition with_steps (e : Exec) (n : Z) : Exec :=
  MkExec (pc e) (sp e) (saves e) (marks e) (flag_stack e) (cur e) (frames e) (slots e) (positions e) n.

(** [flags_stack.last().unwrap_or(&ctx.flags)]. *)
Definition top_flags (ctx : Ctx) (fs : list Flags) : Flags :=
  match fs with f :: _ => f | [] => x_flags ctx end.

(** What a forward step or an unwinding ends in. *)
Inductive Outcome :=
  | Next (e : Exec)       (* go on forward *)
  | Break (e : Exec)      (* the path failed: unwind *)
  | Done (matched : bool) (e : Exec)
  | Crash
  | NoFuel.

(** How a run of the executor ends. *)
Inductive Result :=
  | Ret (matched : bool) (saves : list (option nat)) (steps : Z)
  | Panicked
  | OutOfFuel.

(** ** Loops over single characters *)

(** [simple_loop]: [(consume, cont, greedy)]. *)
Definition simple_loop (prog : list Inst) (split_pc : nat) : option (nat * nat * bool) :=
  match prog !! split_pc with
  | Some (Split a b) =>
      let body_ok :=
        match prog !! (split_pc + 1)%nat, prog !! (split_pc + 2)%nat with
        | Some i, Some (Jmp t) => is_single_consume i && (t =? split_pc)%nat
        | _, _ => false
        end in
      if (a =? split_pc + 1)%nat && body_ok then Some ((split_pc + 1)%nat, b, true)
      else if (b =? split_pc + 1)%nat && body_ok then Some ((split_pc + 1)%nat, a, false)
      else None
  | _ => None
  end.

Fixpoint skip_saves (prog : list Inst) (pc : nat) (fuel : nat) : nat :=
  match fuel with
  | O => pc
  | S fuel => match prog !! pc with Some (Save _) => skip_saves prog (S pc) fuel | _ => pc end
  end.

(** The loop over saves runs off the program after [length prog] of them. *)
Definition continuation_cannot_start (ctx : Ctx) (pc sp : nat) (f : Flags) : bool :=
  if x_reverse ctx || ignore_case f || unicode f then false
  else
    match x_prog ctx !! skip_saves (x_prog ctx) pc (length (x_prog ctx)) with
    | Some (Char c) =>
        if c <=? 0xFFFF then
          match x_input ctx !! sp with Some u => negb (u =? c) | None => true end
        else false
    | _ => false
    end.

(** The greedy loops' [while let Some(nsp) = consume_one(…)]: the positions
    reached, the last one, the counter and whether the budget lasted. *)
Fixpoint consume_run (ctx : Ctx) (i : Inst) (f : Flags) (fuel : nat) (sp : nat) (steps : Z)
    (reached : list nat) : list nat * nat * Z * bool :=
  match fuel with
  | O => (reached, sp, steps, true)
  | S fuel =>
      match consume_one i (x_input ctx) sp f (x_reverse ctx) with
      | Some nsp =>
          let '(steps, ok) := tick ctx steps in
          if ok then consume_run ctx i f fuel nsp steps (reached ++ [nsp])
          else (reached ++ [nsp], nsp, steps, false)
      | None => (reached, sp, steps, true)
      end
  end.

(** The span of a group, [None] when it is not set. *)
Definition group_span (sv : list (option nat)) (g : nat) : option (nat * nat) :=
  match sv !! (2 * g)%nat, sv !! (2 * g + 1)%nat with
  | Some (Some s), Some (Some e) => Some (s, e)
  | _, _ => None
  end.

Fixpoint first_span (sv : list (option nat)) (gs : list nat) : option (nat * nat) :=
  match gs with
  | [] => None
  | g :: gs => match group_span sv g with Some p => Some p | None => first_span sv gs end
  end.

(** [for s in &mut saves[lo..hi] { *s = None }]. *)
Fixpoint clear_slots (sv : list (option nat)) (lo n : nat) : list (option nat) :=
  match n with
  | O => sv
  | S n => <[lo := None]> (clear_slots sv (S lo) n)
  end.

(** [saves[lo..lo + n].copy_from_slice(src)]. *)
Fixpoint restore_slots (sv : list (option nat)) (lo : nat) (src : list (option nat))
    : list (option nat) :=
  match src with
  | [] => sv
  | x :: src => <[lo := x]> (restore_slots sv (S lo) src)
  end.

(** ** One instruction forward

    [run_look rev prog e] is the recursive call for a lookaround sub-program. *)
Section forward.
Context (lim : Limits) (ctx : Ctx).
Context (run_look : bool -> list Inst -> Exec -> Result).

(** Consume one character and go on, or fail the path. *)
Definition consume_step (i : Inst) (e : Exec) : Outcome :=
  match read_dir (x_input ctx) (sp e) (unicode (x_flags ctx)) (x_reverse ctx) with
  | Some (cp, nsp) =>
      if single_consume_matches i cp (cur e) then Next (at_ e (S (pc e)) nsp) else Break e
  | None => Break e
  end.

Definition backref_step (span : option (nat * nat)) (e : Exec) : Outcome :=
  match span with
  | Some (s, en) =>
      match match_backref (x_input ctx) (x_reverse ctx) (sp e) s en (cur e) with
      | None => Crash
      | Some (Some nsp) => Next (at_ e (S (pc e)) nsp)
      | Some None => Break e
      end
  | None => Next (at_ e (S (pc e)) (sp e))
  end.

Definition look_step (neg rev : bool) (prog : list Inst) (e : Exec) : Outcome :=
  match run_look rev prog e with
  | Panicked => Crash
  | OutOfFuel => NoFuel
  | Ret matched sub_saves st =>
      let e := with_steps e st in
      if Bool.eqb matched neg then Break e
      else
        let e := if neg then e
                 else push_frame (with_saves e sub_saves (slots e ++ saves e)) FSaves in
        Next (at_ e (S (pc e)) (sp e))
  end.

Definition split_step (a b : nat) (e : Exec) : Outcome :=
  match simple_loop (x_prog ctx) (pc e) with
  | Some (consume_pc, cont_pc, greedy) =>
      match x_prog ctx !! consume_pc with
      | None => Crash
      | Some i =>
          if greedy && negb (unicode (x_flags ctx)) then
            let first := sp e in
            let '(_, p, st, ok) :=
              consume_run ctx i (cur e) (S (length (x_input ctx))) (sp e) (steps e) [] in
            let e := with_steps (at_ e (pc e) p) st in
            if negb ok then Done false e
            else Break (push_frame e (FRun cont_pc first p (cur e)))
          else if greedy then
            let base := length (positions e) in
            let '(reached, p, st, ok) :=
              consume_run ctx i (cur e) (S (length (x_input ctx))) (sp e) (steps e) [] in
            let e := with_positions (with_steps (at_ e (pc e) p) st)
                       (positions e ++ sp e :: reached) in
            if negb ok then Done false e
            else Break (push_frame e (FPositions cont_pc base))
          else
            Next (at_ (push_frame e (FLazy consume_pc cont_pc (sp e) (cur e))) cont_pc (sp e))
      end
  | None =>
      if MAX_STACK lim <? Z.of_nat (length (frames e)) then Done false e
      else Next (at_ (push_frame e (FAlt b (sp e))) a (sp e))
  end.

Definition forward_inst (i : Inst) (e : Exec) : Outcome :=
  match i with
  | Match =>
      if match match_end ctx with None => true | Some p => (sp e =? p)%nat end
      then Done true e else Break e
  | Char _ | Any | Class _ | ClassSet _ _ => consume_step i e
  | Jmp target => Next (at_ e target (sp e))
  | Split a b => split_step a b e
  | Save slot =>
      match saves e !! slot with
      | None => Crash
      | Some old =>
          let e := push_frame e (FSave slot old) in
          let e := with_saves e (<[slot := Some (sp e)]> (saves e)) (slots e) in
          Next (at_ e (S (pc e)) (sp e))
      end
  | ClearCaptures from to =>
      let lo := Nat.min from (length (saves e)) in
      let hi := Nat.min (to + 1) (length (saves e)) in
      if (hi <? lo)%nat then Crash
      else
        let n := (hi - lo)%nat in
        let e := with_saves e (clear_slots (saves e) lo n)
                   (slots e ++ take n (drop lo (saves e))) in
        Next (at_ (push_frame e (FClear lo n)) (S (pc e)) (sp e))
  | Mark => Next (at_ (push_frame (with_marks e (sp e :: marks e)) FMarkPop) (S (pc e)) (sp e))
  | EmptyFail =>
      match marks e with
      | [] => Next (at_ e (S (pc e)) (sp e))
      | mark :: ms =>
          if (sp e =? mark)%nat then Break e
          else Next (at_ (push_frame (with_marks e ms) (FMarkPush mark)) (S (pc e)) (sp e))
      end
  | Fail_ => Break e
  | BackrefMulti gs => backref_step (first_span (saves e) gs) e
  | Backref g => backref_step (group_span (saves e) g) e
  | Look neg prog => look_step neg false prog e
  | LookBehind neg prog => look_step neg true prog e
  | IAssert a =>
      match assert_ok a (x_input ctx) (sp e) (cur e) with
      | None => Crash
      | Some true => Next (at_ e (S (pc e)) (sp e))
      | Some false => Break e
      end
  | PushFlags d =>
      let c := apply_delta d (cur e) in
      Next (at_ (push_frame (with_flags e (c :: flag_stack e) c) FFlagsPop) (S (pc e)) (sp e))
  | PopFlags =>
      let e :=
        match flag_stack e with
        | f :: fs => push_frame (with_flags e fs (top_flags ctx fs)) (FFlagsPush f)
        | [] => with_flags e [] (x_flags ctx)
        end in
      Next (at_ e (S (pc e)) (sp e))
  end.

Definition forward (e : Exec) : Outcome :=
  let '(st, ok) := tick ctx (steps e) in
  let e := with_steps e st in
  if negb ok then Done false e
  else match x_prog ctx !! pc e with None => Crash | Some i => forward_inst i e end.

End forward.

(** ** Unwinding *)

(** The loop over a [Run] frame: the position to resume at (and the frame left
    behind), or that it is used up, and the counter. *)
Inductive RunOutcome :=
  | RunResume (at_pos : nat) (rest : option nat) (steps : Z)
  | RunEmpty (steps : Z)
  | RunAbort (steps : Z).

Fixpoint run_frame (ctx : Ctx) (cont first p : nat) (f : Flags) (steps : Z) (fuel : nat) : RunOutcome :=
  match fuel with
  | O => RunEmpty steps
  | S fuel =>
      let candidate := negb (continuation_cannot_start ctx cont p f) in
      let at_first := (p =? first)%nat in
      let p' := if at_first then p else if x_reverse ctx then (p + 1)%nat else (p - 1)%nat in
      if candidate then RunResume p (if at_first then None else Some p') steps
      else
        let '(steps, ok) := tick ctx steps in
        if negb ok then RunAbort steps
        else if at_first then RunEmpty steps
        else run_frame ctx cont first p' f steps fuel
  end.

(** The distance between the ends of the run, plus one. *)
Definition run_fuel (first p : nat) : nat := S ((first - p) + (p - first)).

(** [Next]: resume forward; [Done]: the stack is empty or the budget is out. *)
Fixpoint unwind (ctx : Ctx) (fs : list Frame) (e : Exec) : Outcome :=
  match fs with
  | [] => Done false (with_frames e [])
  | fr :: fs =>
      match fr with
      | FAlt p s => Next (at_ (with_frames e fs) p s)
      | FSave slot old => unwind ctx fs (with_saves e (<[slot := old]> (saves e)) (slots e))
      | FClear lo n =>
          let from := (length (slots e) - n)%nat in
          unwind ctx fs
            (with_saves e (restore_slots (saves e) lo (drop from (slots e))) (take from (slots e)))
      | FSaves =>
          let from := (length (slots e) - length (saves e))%nat in
          unwind ctx fs
            (with_saves e (restore_slots (saves e) 0 (drop from (slots e))) (take from (slots e)))
      | FMarkPop => unwind ctx fs (with_marks e (tail (marks e)))
      | FMarkPush m => unwind ctx fs (with_marks e (m :: marks e))
      | FFlagsPop =>
          let fl := tail (flag_stack e) in unwind ctx fs (with_flags e fl (top_flags ctx fl))
      | FFlagsPush f => unwind ctx fs (with_flags e (f :: flag_stack e) f)
      | FRun cont first p f =>
          match run_frame ctx cont first p f (steps e) (run_fuel first p) with
          | RunAbort st => Done false (with_frames (with_steps e st) fs)
          | RunEmpty st => unwind ctx fs (with_steps e st)
          | RunResume p' rest st =>
              let fs := match rest with Some q => FRun cont first q f :: fs | None => fs end in
              Next (at_ (with_frames (with_steps e st) fs) cont p')
          end
      | FPositions cont base =>
          match rev (positions e) with
          | [] => unwind ctx fs e
          | p :: ps =>
              let e := with_positions e (rev ps) in
              let fs := if (base <? length (positions e))%nat then FPositions cont base :: fs
                        else fs in
              Next (at_ (with_frames e fs) cont p)
          end
      | FLazy consume cont at0 f =>
          match x_prog ctx !! consume with
          | None => Crash
          | Some i =>
              match consume_one i (x_input ctx) at0 f (x_reverse ctx) with
              | Some nsp => Next (at_ (with_frames e (FLazy consume cont nsp f :: fs)) cont nsp)
              | None => unwind ctx fs e
              end
          end
      end
  end.

(** ** The executor *)

(** The head of [backtrack]: the depth cap, the cleared stacks, the flags in
    effect; [run] is its loop. *)
Definition enter (run : Exec -> Result) (lim : Limits) (ctx : Ctx) (depth : Z) (pc sp : nat)
    (saves : list (option nat)) (marks : list nat) (flags_stack : list Flags) (steps : Z) : Result :=
  if MAX_DEPTH lim <? depth then Ret false saves steps
  else run (MkExec pc sp saves marks flags_stack (top_flags ctx flags_stack) [] [] [] steps).

(** The context of a lookaround's sub-program. *)
Definition look_ctx (ctx : Ctx) (rev : bool) (prog : list Inst) (flags : Flags) : Ctx :=
  MkCtx prog (x_input ctx) flags None rev (budget ctx).

(** Forward steps and unwindings until the run ends. *)
Fixpoint loop (fuel : nat) (lim : Limits) (ctx : Ctx) (depth : Z) (e : Exec) : Result :=
  match fuel with
  | O => OutOfFuel
  | S fuel =>
      let run_look rev prog e :=
        let sub := look_ctx ctx rev prog (cur e) in
        enter (loop fuel lim sub (depth + 1)) lim sub (depth + 1) 0 (sp e) (saves e) [] [cur e]
          (steps e) in
      let o := match forward lim ctx run_look e with
               | Break e => unwind ctx (frames e) e
               | o => o
               end in
      match o with
      | Next e | Break e => loop fuel lim ctx depth e
      | Done m e => Ret m (saves e) (steps e)
      | Crash => Panicked
      | NoFuel => OutOfFuel
      end
  end.

Definition backtrack (fuel : nat) (lim : Limits) (ctx : Ctx) (depth : Z) (pc sp : nat)
    (saves : list (option nat)) (marks : list nat) (flags_stack : list Flags) (steps : Z) : Result :=
  enter (loop fuel lim ctx depth) lim ctx depth pc sp saves marks flags_stack steps.

(** The spans of the groups [0..=group_count]. *)
Definition pair_saves (sv : list (option nat)) (group_count : nat) : list (option (nat * nat)) :=
  map (group_span sv) (seq 0 (S group_count)).

(** [run_with]: the outcome of one attempt at [start], and the counter. *)
Inductive Attempt :=
  | Matched (groups : list (option (nat * nat))) (steps : Z)
  | NoMatch (steps : Z)
  | AttemptPanic
  | AttemptFuel.

Definition run_with (fuel : nat) (lim : Limits) (prog : list Inst) (input : list Z) (start : nat)
    (group_count : nat) (flags : Flags) (steps budget : Z) : Attempt :=
  let ctx := MkCtx prog input flags None false budget in
  match backtrack fuel lim ctx 0 0 start (replicate (2 * (group_count + 1)) None) [] [flags] steps with
  | Ret true sv st => Matched (pair_saves sv group_count) st
  | Ret false _ st => NoMatch st
  | Panicked => AttemptPanic
  | OutOfFuel => AttemptFuel
  end.

End Vm.
