(* ===== verification/RegexTotal.v ===== *)
(** * The backtracking machine always ends

    Whatever the program, the subject and the state it starts in, the executor of
    [RegexVm.v] ends within its step budget: every iteration of its loop ticks
    the counter that all the contexts of a find share. *)

From S2P Require Import Prelude Regex RegexComp RegexVm.

Open Scope Z_scope.

Definition U64_MAX : Z := 2 ^ 64 - 1.

Section Total.
Context `{U : UnicodeData}.

#[local] Arguments tick : simpl never.
#[local] Arguments continuation_cannot_start : simpl never.

Lemma saturate_small z : z <= U64_MAX -> saturate z = z.
Proof. unfold saturate, U64_MAX. lia. Qed.

Lemma saturate_le z : saturate z <= U64_MAX.
Proof. unfold saturate, U64_MAX. lia. Qed.

(** A tick moves the counter up; it succeeds exactly within the budget. *)
Lemma tick_spec ctx st st' ok :
  budget ctx < U64_MAX -> st <= U64_MAX -> tick ctx st = (st', ok) ->
  st <= st' <= U64_MAX /\
  (if ok then st' = st + 1 /\ st' <= budget ctx else budget ctx < st' <= st + 1).
Proof.
  unfold tick. intros Hb Hst [= <- <-].
  pose proof (saturate_le (st + 1)). unfold saturate, U64_MAX in *.
  destruct (Z.leb_spec (Z.min (st + 1) (2 ^ 64 - 1)) (budget ctx)); lia.
Qed.

(** [P] of the state an outcome carries. *)
Definition outcome_all (P : Exec -> Prop) (o : Outcome) : Prop :=
  match o with Next e | Break e | Done _ e => P e | Crash | NoFuel => True end.

Lemma outcome_all_impl (P Q : Exec -> Prop) o :
  (forall e, P e -> Q e) -> outcome_all P o -> outcome_all Q o.
Proof. destruct o; cbn; auto. Qed.

(** The counter does not go back, and stays a [u64]. *)
Definition later (st : Z) (e : Exec) : Prop := st <= steps e <= U64_MAX.

Lemma consume_run_steps ctx i f fuel : forall p st reached l q st' ok,
  budget ctx < U64_MAX -> st <= U64_MAX ->
  consume_run ctx i f fuel p st reached = (l, q, st', ok) -> st <= st' <= U64_MAX.
Proof.
  induction fuel as [|fuel IH]; cbn; intros p st reached l q st' ok Hb Hst.
  { intros [= <- <- <- <-]. lia. }
  destruct (consume_one _ _ _ _ _) as [nsp|]; [|intros [= <- <- <- <-]; lia].
  destruct (tick ctx st) as [st1 ok1] eqn:Et. apply tick_spec in Et as [Ht _]; [|done..].
  destruct ok1; intros H.
  - apply IH in H; [lia|done|lia].
  - injection H as <- <- <- <-. lia.
Qed.

Lemma run_frame_steps ctx cont first f fuel : forall p st,
  budget ctx < U64_MAX -> st <= U64_MAX ->
  match run_frame ctx cont first p f st fuel with
  | RunResume _ _ st' | RunEmpty st' | RunAbort st' => st <= st' <= U64_MAX
  end.
Proof.
  induction fuel as [|fuel IH]; cbn -[tick]; intros p st Hb Hst; [lia|].
  destruct (negb (continuation_cannot_start _ _ _ _)); [lia|].
  destruct (tick ctx st) as [st1 ok1] eqn:Et. apply tick_spec in Et as [Ht _]; [|done..].
  destruct ok1; cbn [negb]; [|lia]. destruct (p =? first)%nat; [lia|].
  match goal with |- match ?r with _ => _ end => pose proof (IH (if x_reverse ctx then p + 1 else p - 1)%nat st1 Hb ltac:(lia)) as H; destruct r end; lia.
Qed.

Lemma unwind_later ctx fs : forall e st,
  budget ctx < U64_MAX -> later st e -> outcome_all (later st) (unwind ctx fs e).
Proof.
  unfold later. induction fs as [|fr fs IH]; intros e st Hb He; [exact He|].
  destruct fr; cbn [unwind]; try (apply IH; [done|exact He]); try exact He.
  - match goal with |- context [run_frame ctx cont first p flags ?s ?n] =>
      pose proof (run_frame_steps ctx cont first flags n p s Hb ltac:(lia)) as H;
      destruct (run_frame ctx cont first p flags s n) end; cbn; [lia| |lia].
    apply IH; [done|cbn; lia].
  - destruct (rev (positions e)); [by apply IH|exact He].
  - destruct (x_prog ctx !! consume); [|done].
    destruct (consume_one _ _ _ _ _); [exact He|by apply IH].
Qed.

Lemma forward_inst_later lim ctx run_look i e :
  budget ctx < U64_MAX -> steps e <= U64_MAX ->
  (forall rev prog m sv st, run_look rev prog e = Ret m sv st -> steps e <= st <= U64_MAX) ->
  outcome_all (later (steps e)) (forward_inst lim ctx run_look i e).
Proof.
  intros Hb He Hl. assert (L : later (steps e) e) by (unfold later; lia).
  assert (Hlk : forall neg rev prog, outcome_all (later (steps e)) (look_step run_look neg rev prog e)).
  { intros neg rev prog. unfold look_step. destruct (run_look rev prog e) eqn:E; [|done..].
    apply Hl in E. unfold later. destruct (Bool.eqb _ _), neg; exact E. }
  destruct i; cbn [forward_inst]; try exact L; try apply Hlk.
  1-4: unfold consume_step; destruct (read_dir _ _ _ _) as [[? ?]|]; [destruct (single_consume_matches _ _ _)|]; exact L.
  - destruct (match match_end ctx with None => true | Some p => (sp e =? p)%nat end); exact L.
  - unfold split_step. destruct (simple_loop _ _) as [[[c k] g]|].
    + destruct (x_prog ctx !! c); [|done]. unfold later in *.
      destruct (g && _).
      { destruct (consume_run _ _ _ _ _ _ _) as [[[l q] st'] ok] eqn:Ec.
        apply consume_run_steps in Ec; [|done..]. destruct (negb ok); exact Ec. }
      destruct g; [|exact L].
      destruct (consume_run _ _ _ _ _ _ _) as [[[l q] st'] ok] eqn:Ec.
      apply consume_run_steps in Ec; [|done..]. destruct (negb ok); exact Ec.
    + destruct (_ <? _); exact L.
  - destruct (saves e !! slot); [exact L|done].
  - destruct (assert_ok _ _ _ _) as [[]|]; [exact L..|done].
  - unfold backref_step. destruct (group_span _ _) as [[s en]|]; [|exact L].
    destruct (match_backref _ _ _ _ _ _) as [[]|]; [exact L..|done].
  - unfold backref_step. destruct (first_span _ _) as [[s en]|]; [|exact L].
    destruct (match_backref _ _ _ _ _ _) as [[]|]; [exact L..|done].
  - destruct (_ <? _)%nat; [done|exact L].
  - destruct (marks e); [exact L|]. destruct (_ =? _)%nat; exact L.
  - destruct (flag_stack e); exact L.
Qed.

(** A run of the loop from a counter within [fuel] of the budget ends. *)
Lemma loop_ends lim fuel : forall ctx depth e,
  budget ctx < U64_MAX -> steps e <= U64_MAX ->
  (0 < fuel)%nat -> budget ctx - steps e < Z.of_nat fuel ->
  match loop fuel lim ctx depth e with
  | Ret _ _ st => steps e <= st <= U64_MAX
  | Panicked => True
  | OutOfFuel => False
  end.
Proof.
  induction fuel as [|fuel IH]; intros ctx depth e Hb He Hf Hlt; [lia|].
  cbn [loop]. set (run_look := fun rev prog e => enter _ _ _ _ _ _ _ _ _ _).
  unfold forward. destruct (tick ctx (steps e)) as [st ok] eqn:Et.
  apply tick_spec in Et as [Ht Hok]; [|done..].
  destruct ok; cbn [negb]; [|exact Ht].
  destruct Hok as [-> Hle].
  destruct (x_prog ctx !! pc (with_steps e (steps e + 1))) as [i|]; [|exact I].
  assert (Hl : forall rev prog m sv st,
    run_look rev prog (with_steps e (steps e + 1)) = Ret m sv st -> steps e + 1 <= st <= U64_MAX).
  { intros rev prog m sv st. unfold run_look, enter. destruct (_ <? _).
    - intros [= <- <- <-]. cbn. lia.
    - intros H. match type of H with loop _ _ ?c ?d ?e' = _ =>
        specialize (IH c d e' Hb ltac:(cbn; lia) ltac:(lia) ltac:(cbn; lia)) end.
      by rewrite H in IH. }
  assert (Hnf : forall rev prog, run_look rev prog (with_steps e (steps e + 1)) <> OutOfFuel).
  { intros rev prog. unfold run_look, enter. destruct (_ <? _); [done|].
    match goal with |- loop _ _ ?c ?d ?e' <> _ =>
      specialize (IH c d e' Hb ltac:(cbn; lia) ltac:(lia) ltac:(cbn; lia)) end.
    by intros H; rewrite H in IH. }
  pose proof (forward_inst_later lim ctx run_look i (with_steps e (steps e + 1)) Hb
    ltac:(cbn; lia) Hl) as Hfw.
  assert (Hfn : forward_inst lim ctx run_look i (with_steps e (steps e + 1)) <> NoFuel).
  { clear -Hnf. destruct i; cbn [forward_inst]; unfold consume_step, backref_step, split_step, look_step;
      try done; repeat (case_match; try done);
      exfalso; by eapply Hnf. }
  destruct (forward_inst _ _ _ _ _) as [e'|e'|m e'| |]; cbn in Hfw; unfold later in Hfw; cbn in Hfw.
  - specialize (IH ctx depth e' Hb ltac:(lia) ltac:(lia) ltac:(lia)).
    destruct (loop fuel lim ctx depth e'); lia.
  - pose proof (unwind_later ctx (frames e') e' (steps e + 1) Hb Hfw) as Hu.
    assert (Hun : unwind ctx (frames e') e' <> NoFuel).
    { clear. generalize (frames e') as fs. intros fs. revert e'.
      induction fs as [|[]]; intros e'; cbn; try done; auto;
        repeat (case_match; try done); auto. }
    destruct (unwind _ _ _) as [e2|e2|m e2| |]; cbn in Hu; unfold later in Hu; try lia; try done.
    all: specialize (IH ctx depth e2 Hb ltac:(lia) ltac:(lia) ltac:(lia));
      destruct (loop fuel lim ctx depth e2); lia.
  - lia.
  - exact I.
  - done.
Qed.

Lemma budget_for_small n : (Z.of_nat n < 2 ^ 53) -> budget_for n = 300000 + 1000 * Z.of_nat n.
Proof. intros H. unfold budget_for, STEP_BASE, STEP_PER_CHAR, saturate. lia. Qed.

(** C14: the machine cannot hang: for every program (compiled or not), subject,
    start position, flags and limits, an attempt started with a step counter in
    its [u64] range ends after at most [budget + 2 - steps] iterations of the
    executor's loop, lookarounds included, with a match, a failure or a panic. *)
Theorem run_with_terminates lim prog input start group_count flags st b :
  0 <= st <= U64_MAX -> 0 <= b < U64_MAX ->
  run_with (Z.to_nat (b + 2)) lim prog input start group_count flags st b <> AttemptFuel.
Proof.
  intros Hst Hb. unfold run_with, backtrack, enter. destruct (_ <? _); [done|].
  match goal with |- context [loop ?n ?l ?c ?d ?e] =>
    pose proof (loop_ends l n c d e ltac:(cbn; lia) ltac:(cbn; lia) ltac:(lia) ltac:(cbn; lia)) as H;
    destruct (loop n l c d e) as [[]| |]; done
  end.
Qed.

End Total.
