(* ===== verification/RegexSem.v ===== *)
(** * What a pattern means

    Two specifications the compiler and the machine are checked against.

    [runs] is the reference semantics of the AST, after ECMA-262's matchers: the
    list of all the ways a node can match from a position, in the order a
    backtracking matcher tries them.  It knows nothing of instructions.

    [RunN] is a machine without undo: a list of threads, each with its own
    captures, marks and flags, the first of which is stepped; a thread that fails
    disappears, a [Split] puts two in its place.  Its index counts the steps. *)

From S2P Require Import Prelude Regex RegexComp RegexVm.

Open Scope Z_scope.

(** A position in the subject and the capture slots. *)
Definition MState : Type := nat * list (option nat).

Section Sem.
Context `{U : UnicodeData}.

(** ** The reference semantics *)

(** The groups of a pattern, in the order their parentheses open. *)
Fixpoint node_groups (n : Node) : list nat :=
  match n with
  | NGroup (Some idx) inner => idx :: node_groups inner
  | NGroup None inner | NModifier _ _ _ inner | NLook _ inner | NLookBehind _ inner
  | NRepeat inner _ _ _ => node_groups inner
  | NConcat l | NAlt l => flat_map node_groups l
  | _ => []
  end.

Fixpoint unset_groups (gs : list nat) (sv : list (option nat)) : list (option nat) :=
  match gs with
  | [] => sv
  | g :: gs => <[(2 * g)%nat := None]> (<[(2 * g + 1)%nat := None]> (unset_groups gs sv))
  end.

Definition unset (gs : list nat) (st : MState) : MState := (st.1, unset_groups gs st.2).

(** Membership of a code point in a [v]-mode set. *)
Fixpoint set_member (e : ClassSetExpr) (c : Z) (f : Flags) : bool :=
  match e with
  | CSItems items => existsb (fun it => member_matches c f (lower_item it)) items
  | CSStrings l => existsb (fun s => match s with [ch] => cp_eq c ch f | _ => false end) l
  | CSNegated inner => negb (set_member inner c f)
  | CSUnion kids => existsb (fun k => set_member k c f) kids
  | CSIntersection kids => forallb (fun k => set_member k c f) kids
  | CSDifference kids =>
      match kids with
      | [] => false
      | first :: rest => set_member first c f && negb (existsb (fun k => set_member k c f) rest)
      end
  end.

(** The characters a literal stands for: two units for an astral code point
    when the pattern is not in [u] mode. *)
Definition char_units (uni : bool) (c : Z) : list Z :=
  if negb uni && (0xFFFF <? c) then [(surrogate_pair c).1; (surrogate_pair c).2] else [c].

Definition moved (st st' : MState) : bool := negb (st'.1 =? st.1)%nat.

Section runs.
Context (input : list Z) (names : list (nat * String.string)).

Definition consume (p : Z -> bool) (rev : bool) (f : Flags) (st : MState) : list MState :=
  match read_dir input st.1 (unicode f) rev with
  | Some (cp, nsp) => if p cp then [(nsp, st.2)] else []
  | None => []
  end.

Fixpoint run_chars (rev : bool) (f : Flags) (l : list Z) (st : MState) : list MState :=
  match l with
  | [] => [st]
  | c :: l => flat_map (run_chars rev f l) (consume (fun cp => cp_eq cp c f) rev f st)
  end.

(** A string of literal characters, read in the direction of the match. *)
Definition run_literal (rev : bool) (f : Flags) (s : list Z) (st : MState) : list MState :=
  let l := flat_map (char_units (unicode f)) s in
  run_chars rev f (if rev then List.rev l else l) st.

Definition run_backref (rev : bool) (f : Flags) (span : option (nat * nat)) (st : MState)
    : list MState :=
  match span with
  | None => [st]
  | Some (s, e) =>
      match match_backref input rev st.1 s e f with
      | Some (Some nsp) => [(nsp, st.2)]
      | _ => []
      end
  end.

(** [n] mandatory repetitions, each with the groups of the atom unset. *)
Fixpoint run_copies (unset : MState -> MState) (body : MState -> list MState) (n : nat) (st : MState)
    : list MState :=
  match n with
  | O => [st]
  | S n => flat_map (run_copies unset body n) (body (unset st))
  end.

(** Up to [n] more, none of them empty (RepeatMatcher step 2.b). *)
Fixpoint run_optional (unset : MState -> MState) (body : MState -> list MState) (greedy : bool)
    (n : nat) (st : MState) : list MState :=
  match n with
  | O => [st]
  | S n =>
      let more := flat_map (run_optional unset body greedy n)
                    (List.filter (moved st) (body (unset st))) in
      if greedy then more ++ [st] else st :: more
  end.

(** An unbounded quantifier: each optional repetition consumes a unit, so no more
    than the subject has can take place. *)
Definition optional_count (min : Z) (max : option Z) : nat :=
  match max with None => S (length input) | Some m => Z.to_nat (m - min) end.

Definition set_slot (slot : nat) (st : MState) : MState := (st.1, <[slot := Some st.1]> st.2).

Definition look_runs (neg : bool) (st : MState) (body : list MState) : list MState :=
  match body with
  | [] => if neg then [st] else []
  | s :: _ => if neg then [] else [(st.1, s.2)]
  end.

Definition named_groups (sv : list (option nat)) (name : String.string) : option (nat * nat) :=
  match name_indices names name with
  | [] => group_span sv 0
  | l => first_span sv l
  end.

Fixpoint runs (rev : bool) (f : Flags) (n : Node) (st : MState) {struct n} : list MState :=
  match n with
  | NEmpty => [st]
  | NChar c => run_literal rev f [c] st
  | NAny => consume (fun cp => dotall f || negb (is_line_term cp)) rev f st
  | NClass neg items =>
      consume (fun cp =>
        xorb (leaf_members_match (flat_map (convert_item (unicode f)) items) cp f) neg) rev f st
  | NClassSet neg set =>
      flat_map (fun s => run_literal rev f s st) (sort_longest (class_strings set)) ++
      consume (fun cp => xorb (set_member set cp f) neg) rev f st
  | NStart => match assert_ok AStart input st.1 f with Some true => [st] | _ => [] end
  | NEnd => match assert_ok AEnd input st.1 f with Some true => [st] | _ => [] end
  | NWordBoundary neg =>
      match assert_ok (if neg then ANotWordBoundary else AWordBoundary) input st.1 f with
      | Some true => [st]
      | _ => []
      end
  | NGroup None inner => runs rev f inner st
  | NGroup (Some idx) inner =>
      let '(opening, closing) :=
        if rev then (2 * idx + 1, 2 * idx)%nat else (2 * idx, 2 * idx + 1)%nat in
      map (set_slot closing) (runs rev f inner (set_slot opening st))
  | NModifier i m s inner => runs rev (apply_delta (MkDelta i m s) f) inner st
  | NLook neg inner => look_runs neg st (runs false f inner st)
  | NLookBehind neg inner => look_runs neg st (runs true f inner st)
  | NBackref g => run_backref rev f (group_span st.2 g) st
  | NNamedBackref name => run_backref rev f (named_groups st.2 name) st
  | NConcat l =>
      if rev then
        (fix go l st := match l with
                        | [] => [st]
                        | n :: l => flat_map (runs rev f n) (go l st)
                        end) l st
      else
        (fix go l st := match l with
                        | [] => [st]
                        | n :: l => flat_map (go l) (runs rev f n st)
                        end) l st
  | NAlt l => flat_map (fun n => runs rev f n st) l
  | NRepeat inner min max greedy =>
      let unset := unset (node_groups inner) in
      flat_map (run_optional unset (runs rev f inner) greedy (optional_count min max))
        (run_copies unset (runs rev f inner) (Z.to_nat min) st)
  end.

(** The first way a pattern matches at [start], with the span of the whole match
    in slots 0 and 1. *)
Definition match_at (f : Flags) (n : Node) (group_count start : nat) : option MState :=
  head (map (set_slot 1)
    (runs false f n (set_slot 0 (start, replicate (2 * (group_count + 1)) None)))).

End runs.

(** ** Threads *)

Record Thread := MkThread {
  t_pc : nat; t_st : MState; t_marks : list nat; t_flags : list Flags
}.

Section machine.
Context (input : list Z).

Definition goto (t : Thread) (p : nat) (st : MState) : Thread :=
  MkThread p st (t_marks t) (t_flags t).

Definition t_cur (base : Flags) (t : Thread) : Flags :=
  match t_flags t with f :: _ => f | [] => base end.

Definition t_backref (rev : bool) (base : Flags) (t : Thread) (span : option (nat * nat))
    : option (list Thread) :=
  match span with
  | None => Some [goto t (S (t_pc t)) (t_st t)]
  | Some (s, e) =>
      match match_backref input rev (t_st t).1 s e (t_cur base t) with
      | None => None
      | Some (Some nsp) => Some [goto t (S (t_pc t)) (nsp, (t_st t).2)]
      | Some None => Some []
      end
  end.

(** The threads an instruction leaves, in order; [None] for a panic, and for the
    instructions that are not steps ([Match] and the lookarounds). *)
Definition pstep (rev : bool) (base : Flags) (i : Inst) (t : Thread) : option (list Thread) :=
  let next st := goto t (S (t_pc t)) st in
  let st := t_st t in
  match i with
  | Match | Look _ _ | LookBehind _ _ => None
  | Char _ | Any | Class _ | ClassSet _ _ =>
      Some match read_dir input st.1 (unicode base) rev with
           | Some (cp, nsp) =>
               if single_consume_matches i cp (t_cur base t) then [next (nsp, st.2)] else []
           | None => []
           end
  | Jmp a => Some [goto t a st]
  | Split a b => Some [goto t a st; goto t b st]
  | Save slot =>
      match st.2 !! slot with None => None | Some _ => Some [next (set_slot slot st)] end
  | IAssert a =>
      match assert_ok a input st.1 (t_cur base t) with
      | None => None
      | Some b => Some (if b then [next st] else [])
      end
  | Backref g => t_backref rev base t (group_span st.2 g)
  | BackrefMulti gs => t_backref rev base t (first_span st.2 gs)
  | ClearCaptures from to =>
      let lo := Nat.min from (length st.2) in
      let hi := Nat.min (to + 1) (length st.2) in
      if (hi <? lo)%nat then None else Some [next (st.1, clear_slots st.2 lo (hi - lo))]
  | Mark => Some [MkThread (S (t_pc t)) st (st.1 :: t_marks t) (t_flags t)]
  | EmptyFail =>
      match t_marks t with
      | [] => Some [next st]
      | m :: ms => Some (if (st.1 =? m)%nat then [] else [MkThread (S (t_pc t)) st ms (t_flags t)])
      end
  | Fail_ => Some []
  | PushFlags d =>
      Some [MkThread (S (t_pc t)) st (t_marks t) (apply_delta d (t_cur base t) :: t_flags t)]
  | PopFlags => Some [MkThread (S (t_pc t)) st (t_marks t) (tail (t_flags t))]
  end.

(** What a lookaround leaves, given how its sub-program ended. *)
Definition look_next (neg : bool) (t : Thread) (r : option Thread) : list Thread :=
  match r with
  | Some t' => if neg then [] else [goto t (S (t_pc t)) ((t_st t).1, (t_st t').2)]
  | None => if neg then [goto t (S (t_pc t)) (t_st t)] else []
  end.

Definition look_of (i : Inst) : option (bool * bool * list Inst) :=
  match i with
  | Look neg p => Some (neg, false, p)
  | LookBehind neg p => Some (neg, true, p)
  | _ => None
  end.

Inductive RunN : bool -> Flags -> list Inst -> nat -> list Thread -> option Thread -> Prop :=
  | RN_nil rev base P : RunN rev base P 0 [] None
  | RN_match rev base P t ts :
      P !! t_pc t = Some Match -> RunN rev base P 1 (t :: ts) (Some t)
  | RN_step rev base P t ts i succ n r :
      P !! t_pc t = Some i -> pstep rev base i t = Some succ ->
      RunN rev base P n (succ ++ ts) r -> RunN rev base P (S n) (t :: ts) r
  | RN_look rev base P t ts i neg lrev sub m r' n r :
      P !! t_pc t = Some i -> look_of i = Some (neg, lrev, sub) ->
      RunN lrev (t_cur base t) sub m [MkThread 0 (t_st t) [] [t_cur base t]] r' ->
      RunN rev base P n (look_next neg t r' ++ ts) r ->
      RunN rev base P (S (m + n)) (t :: ts) r.

Definition Run (rev : bool) (base : Flags) (P : list Inst) (ts : list Thread) (r : option Thread)
    : Prop := exists n, RunN rev base P n ts r.

(** ** Composing runs *)

Lemma Run_match rev base P t ts : P !! t_pc t = Some Match -> Run rev base P (t :: ts) (Some t).
Proof. intros H. exists 1%nat. by constructor. Qed.

Lemma Run_step rev base P t ts i succ r :
  P !! t_pc t = Some i -> pstep rev base i t = Some succ ->
  Run rev base P (succ ++ ts) r -> Run rev base P (t :: ts) r.
Proof. intros Hi Hs [n Hn]. exists (S n). by econstructor. Qed.

Lemma Run_look rev base P t ts i neg lrev sub r' r :
  P !! t_pc t = Some i -> look_of i = Some (neg, lrev, sub) ->
  Run lrev (t_cur base t) sub [MkThread 0 (t_st t) [] [t_cur base t]] r' ->
  Run rev base P (look_next neg t r' ++ ts) r -> Run rev base P (t :: ts) r.
Proof. intros Hi Hl [m Hm] [n Hn]. exists (S (m + n)). by econstructor. Qed.

(** The threads behind the running ones can be replaced. *)
Lemma Run_middle rev base P A X Y r :
  (forall r, Run rev base P X r -> Run rev base P Y r) ->
  Run rev base P (A ++ X) r -> Run rev base P (A ++ Y) r.
Proof.
  intros HXY [n Hn]. remember (A ++ X) as L eqn:EL. revert A EL.
  induction Hn as [rev base P|rev base P t ts Hm|rev base P t ts i succ n r Hi Hp Hn IH
    |rev base P t ts i neg lrev sub m r' n r Hi Hl Hm IHm Hn IHn]; intros A EL.
  - symmetry in EL. apply app_eq_nil in EL as [-> ->]. apply HXY. exists 0%nat. constructor.
  - destruct A as [|t' A].
    { cbn in EL. subst X. apply HXY. exists 1%nat. by constructor. }
    injection EL as <- ->. by apply Run_match.
  - destruct A as [|t' A].
    { cbn in EL. subst X. apply HXY. exists (S n). by econstructor. }
    injection EL as <- ->. cbn. eapply Run_step; [done..|]. rewrite app_assoc.
    apply IH; [done|]. by rewrite app_assoc.
  - destruct A as [|t' A].
    { cbn in EL. subst X. apply HXY. exists (S (m + n)). by econstructor. }
    injection EL as <- ->. cbn. eapply Run_look; [done..|by exists m|]. rewrite app_assoc.
    apply IHn; [done|]. by rewrite app_assoc.
Qed.

(** Threads that each lead to the threads of [f]. *)
Lemma Run_flat_map {A} rev base P (e1 : A -> Thread) (e2 : MState -> Thread) (f : A -> list MState)
    l K r :
  (forall s K r, s ∈ l -> Run rev base P (map e2 (f s) ++ K) r -> Run rev base P (e1 s :: K) r) ->
  Run rev base P (map e2 (flat_map f l) ++ K) r -> Run rev base P (map e1 l ++ K) r.
Proof.
  revert K r. induction l as [|s l IH]; intros K r Hs; cbn; [done|].
  rewrite map_app, <- app_assoc. intros H. apply Hs; [by left|].
  eapply Run_middle; [|exact H]. intros r' H'. apply IH; [|done].
  intros s' K' r'' Hin. apply Hs. by right.
Qed.

End machine.

End Sem.
