(* ===== verification/RegexRuns.v ===== *)
(** * What a run of a pattern does to its state

    Every way a node matches keeps the position inside the subject, moves it in
    the direction of the match (strictly, when the compiler calls the node
    non-nullable), touches only the slots of the node's own groups, and leaves
    every recorded span well-formed. *)

From S2P Require Import Prelude Regex RegexComp RegexVm RegexSem.

Open Scope Z_scope.

#[local] Arguments Nat.mul : simpl never.
#[local] Arguments Nat.add : simpl never.
#[local] Arguments Nat.div2 : simpl never.

Section Runs.
Context `{U : UnicodeData}.

(** ** Induction on patterns *)

Section ind.
Context (Q : Node -> Prop).
Context (HEmpty : Q NEmpty) (HChar : forall c, Q (NChar c)) (HAny : Q NAny)
  (HClass : forall neg items, Q (NClass neg items))
  (HClassSet : forall neg set, Q (NClassSet neg set))
  (HStart : Q NStart) (HEnd : Q NEnd) (HWord : forall neg, Q (NWordBoundary neg))
  (HGroup : forall index inner, Q inner -> Q (NGroup index inner))
  (HModifier : forall i m s inner, Q inner -> Q (NModifier i m s inner))
  (HLook : forall neg inner, Q inner -> Q (NLook neg inner))
  (HLookBehind : forall neg inner, Q inner -> Q (NLookBehind neg inner))
  (HBackref : forall n, Q (NBackref n)) (HNamed : forall name, Q (NNamedBackref name))
  (HConcat : forall l, Forall Q l -> Q (NConcat l))
  (HAlt : forall l, Forall Q l -> Q (NAlt l))
  (HRepeat : forall inner min max greedy, Q inner -> Q (NRepeat inner min max greedy)).

Fixpoint Node_induction (n : Node) : Q n :=
  let list_ind := fix go l : Forall Q l :=
    match l with
    | [] => @List.Forall_nil _ Q
    | n :: l => @List.Forall_cons _ Q n l (Node_induction n) (go l)
    end in
  match n with
  | NEmpty => HEmpty
  | NChar c => HChar c
  | NAny => HAny
  | NClass neg items => HClass neg items
  | NClassSet neg set => HClassSet neg set
  | NStart => HStart
  | NEnd => HEnd
  | NWordBoundary neg => HWord neg
  | NGroup index inner => HGroup index inner (Node_induction inner)
  | NModifier i m s inner => HModifier i m s inner (Node_induction inner)
  | NLook neg inner => HLook neg inner (Node_induction inner)
  | NLookBehind neg inner => HLookBehind neg inner (Node_induction inner)
  | NBackref n => HBackref n
  | NNamedBackref name => HNamed name
  | NConcat l => HConcat l (list_ind l)
  | NAlt l => HAlt l (list_ind l)
  | NRepeat inner min max greedy => HRepeat inner min max greedy (Node_induction inner)
  end.
End ind.

(** The bounds of every quantifier are [usize]s, in order; an alternation has
    branches. *)
Fixpoint node_wf (n : Node) : bool :=
  match n with
  | NGroup _ inner | NModifier _ _ _ inner | NLook _ inner | NLookBehind _ inner => node_wf inner
  | NConcat l => forallb node_wf l
  | NAlt l => negb (bool_decide (length l = 0%nat)) && forallb node_wf l
  | NRepeat inner min max _ =>
      (0 <=? min) && (match max with Some m => min <=? m | None => true end) && node_wf inner
  | _ => true
  end.

(** ** Slots and groups *)

Lemma div2_even g : Nat.div2 (2 * g) = g.
Proof. apply Nat.div2_double. Qed.

Lemma div2_odd g : Nat.div2 (2 * g + 1) = g.
Proof. rewrite Nat.add_1_r. apply Nat.div2_succ_double. Qed.

Lemma div2_cases slot : slot = (2 * Nat.div2 slot)%nat \/ slot = (2 * Nat.div2 slot + 1)%nat.
Proof.
  pose proof (Nat.div2_odd slot) as H. unfold Nat.b2n in H. destruct (Nat.odd slot); lia.
Qed.

Lemma unset_groups_lookup gs sv slot :
  unset_groups gs sv !! slot =
    if decide (Nat.div2 slot ∈ gs) then (fun _ => None) <$> sv !! slot else sv !! slot.
Proof.
  induction gs as [|g gs IH]; cbn.
  { by rewrite decide_False by (apply not_elem_of_nil). }
  assert (Hlen : forall j, j = slot -> is_Some (unset_groups gs sv !! j) <-> is_Some (sv !! slot)).
  { intros j ->. rewrite IH. case_decide; [apply fmap_is_Some|done]. }
  destruct (decide (Nat.div2 slot = g)) as [<-|Hne].
  - rewrite decide_True by (by left).
    destruct (sv !! slot) as [x|] eqn:E.
    + cbn. assert (Hs : is_Some (unset_groups gs sv !! slot)) by (apply Hlen; eauto).
      destruct (div2_cases slot) as [He|He].
      * rewrite <- He, list_lookup_insert_eq; [done|].
        rewrite length_insert. by apply lookup_lt_is_Some.
      * rewrite list_lookup_insert_ne by lia. rewrite <- He, list_lookup_insert_eq; [done|].
        by apply lookup_lt_is_Some.
    + cbn. apply lookup_ge_None. rewrite !length_insert. apply lookup_ge_None.
      apply eq_None_not_Some. intros Hs. apply (Hlen slot eq_refl) in Hs. by destruct Hs.
  - rewrite !list_lookup_insert_ne; [|intros <-; by rewrite div2_odd in Hne|intros <-; by rewrite div2_even in Hne].
    rewrite IH. destruct (decide (Nat.div2 slot ∈ gs)) as [Hin|Hnin].
    + by rewrite decide_True by (by right).
    + by rewrite decide_False by (rewrite elem_of_cons; tauto).
Qed.

Lemma length_unset_groups gs sv : length (unset_groups gs sv) = length sv.
Proof. induction gs as [|g gs IH]; cbn; [done|]. by rewrite !length_insert. Qed.

Lemma group_span_Some sv g s e :
  group_span sv g = Some (s, e) <->
  sv !! (2 * g)%nat = Some (Some s) /\ sv !! (2 * g + 1)%nat = Some (Some e).
Proof.
  unfold group_span. destruct (sv !! (2 * g)%nat) as [[]|], (sv !! (2 * g + 1)%nat) as [[]|];
    naive_solver.
Qed.

Section inv.
Context (input : list Z) (names : list (nat * String.string)).

(** Recorded positions are inside the subject and recorded spans are in order. *)
Definition caps_ok (sv : list (option nat)) : Prop :=
  (forall slot v, sv !! slot = Some (Some v) -> (v <= length input)%nat) /\
  (forall g s e, group_span sv g = Some (s, e) -> (s <= e)%nat).

Definition fresh_in (gs : list nat) (sv : list (option nat)) : Prop :=
  forall g, g ∈ gs -> sv !! (2 * g)%nat = Some None /\ sv !! (2 * g + 1)%nat = Some None.

Definition in_bounds (gs : list nat) (sv : list (option nat)) : Prop :=
  forall g, g ∈ gs -> (2 * g + 1 < length sv)%nat.

Definition dist (rev : bool) (st : MState) : nat :=
  if rev then st.1 else (length input - st.1)%nat.

(** The states a node is entered in. *)
Definition Pre (gs : list nat) (st : MState) : Prop :=
  (st.1 <= length input)%nat /\ caps_ok st.2 /\ fresh_in gs st.2.

(** What a way to match, from [st] to [st'], keeps. *)
Record Post (rev : bool) (gs : list nat) (st st' : MState) : Prop := {
  post_pos : (st'.1 <= length input)%nat;
  post_caps : caps_ok st'.2;
  post_length : length st'.2 = length st.2;
  post_dist : (dist rev st' <= dist rev st)%nat;
  post_frame : forall slot, Nat.div2 slot ∉ gs -> st'.2 !! slot = st.2 !! slot
}.

Lemma Post_refl rev gs st : (st.1 <= length input)%nat -> caps_ok st.2 -> Post rev gs st st.
Proof. by split. Qed.

Lemma Post_trans rev gs a b c : Post rev gs a b -> Post rev gs b c -> Post rev gs a c.
Proof.
  intros [] []. split; try done; try congruence; try lia.
  intros slot H. rewrite post_frame1, post_frame0; done.
Qed.

Lemma Post_mono rev gs gs' st st' : (forall g, g ∈ gs -> g ∈ gs') -> Post rev gs st st' -> Post rev gs' st st'.
Proof. intros H []. split; auto. Qed.

Lemma fresh_in_bounds gs sv : fresh_in gs sv -> in_bounds gs sv.
Proof. intros H g Hg. destruct (H g Hg) as [_ H']. by apply lookup_lt_Some in H'. Qed.

Lemma Pre_sub gs gs' st : (forall g, g ∈ gs -> g ∈ gs') -> Pre gs' st -> Pre gs st.
Proof. intros H (H1 & H2 & H3). split; [done|]. split; [done|]. intros g Hg. auto. Qed.

(** The groups of one node stay unset while another, with other groups, matches. *)
Lemma Post_fresh rev gs gs' st st' :
  Post rev gs st st' -> fresh_in gs' st.2 -> (forall g, g ∈ gs' -> g ∉ gs) -> fresh_in gs' st'.2.
Proof.
  intros HP Hf Hd g Hg. destruct (Hf g Hg) as [H1 H2].
  rewrite !(post_frame _ _ _ _ HP); rewrite ?div2_even, ?div2_odd; auto.
Qed.

Lemma Post_pre rev gs gs' st st' :
  Post rev gs st st' -> Pre gs' st -> (forall g, g ∈ gs' -> g ∉ gs) -> Pre gs' st'.
Proof.
  intros HP (_ & _ & Hf) Hd. split; [apply HP|]. split; [apply HP|]. by eapply Post_fresh.
Qed.

Lemma caps_weaken sv sv' :
  (forall slot, sv' !! slot = sv !! slot \/ sv' !! slot = Some None) -> caps_ok sv -> caps_ok sv'.
Proof.
  intros H [H1 H2]. split.
  - intros slot v Hv. destruct (H slot) as [E|E]; rewrite E in Hv; [eauto|done].
  - intros g s e. rewrite group_span_Some. intros [Hs He].
    destruct (H (2 * g)%nat) as [E|E]; rewrite E in Hs; [|done].
    destruct (H (2 * g + 1)%nat) as [E'|E']; rewrite E' in He; [|done].
    apply (H2 g s e). by apply group_span_Some.
Qed.

Lemma caps_set sv slot v :
  caps_ok sv -> (v <= length input)%nat ->
  (forall s, slot = (2 * Nat.div2 slot + 1)%nat -> sv !! (2 * Nat.div2 slot)%nat = Some (Some s) -> (s <= v)%nat) ->
  (forall e, slot = (2 * Nat.div2 slot)%nat -> sv !! (2 * Nat.div2 slot + 1)%nat = Some (Some e) -> (v <= e)%nat) ->
  caps_ok (<[slot := Some v]> sv).
Proof.
  intros [H1 H2] Hv Hs He. split.
  - intros slot' v' H. apply list_lookup_insert_Some in H as [(-> & [= ->] & _)|(_ & H)]; eauto.
  - intros g s e. rewrite group_span_Some. intros [Ha Hb].
    apply list_lookup_insert_Some in Ha as [(Ea & Ea' & _)|(Na & Ha)];
    apply list_lookup_insert_Some in Hb as [(Eb & Eb' & _)|(Nb & Hb)].
    + lia.
    + injection Ea' as ->. apply He; rewrite Ea, div2_even; done.
    + injection Eb' as ->. apply Hs; rewrite Eb, div2_odd; done.
    + apply (H2 g s e), group_span_Some. done.
Qed.

(** ** Unsetting the groups of a quantified atom *)

Lemma unset_pre gs st :
  (st.1 <= length input)%nat -> caps_ok st.2 -> in_bounds gs st.2 -> Pre gs (unset gs st).
Proof.
  intros H1 H2 H3. split; [done|]. cbn. split.
  - apply (caps_weaken st.2); [|done]. intros slot. rewrite unset_groups_lookup.
    case_decide as Hd; [|by left]. destruct (st.2 !! slot) eqn:E; [by right|by left].
  - intros g Hg. apply H3 in Hg as Hb. rewrite !unset_groups_lookup, div2_even, div2_odd.
    rewrite !decide_True by done.
    destruct (lookup_lt_is_Some_2 st.2 (2 * g)%nat ltac:(lia)) as [x ->].
    destruct (lookup_lt_is_Some_2 st.2 (2 * g + 1)%nat ltac:(lia)) as [y ->]. done.
Qed.

Lemma unset_post rev gs st :
  (st.1 <= length input)%nat -> caps_ok st.2 -> in_bounds gs st.2 -> Post rev gs st (unset gs st).
Proof.
  intros H1 H2 H3. destruct (unset_pre gs st H1 H2 H3) as (_ & Hc & _). split; try done.
  - apply length_unset_groups.
  - intros slot Hs. cbn. rewrite unset_groups_lookup. by rewrite decide_False.
Qed.

Lemma in_bounds_length gs sv sv' : length sv' = length sv -> in_bounds gs sv -> in_bounds gs sv'.
Proof. intros E H g Hg. rewrite E. auto. Qed.

(** ** Characters *)

Lemma read_dir_moves rev uni p cp nsp :
  read_dir input p uni rev = Some (cp, nsp) ->
  (p <= length input)%nat \/ rev = false ->
  (nsp <= length input)%nat /\
  (if rev then nsp < p else length input - nsp < length input - p)%nat.
Proof.
  unfold read_dir. destruct rev; intros H Hp.
  - destruct (read_cp_back input p uni) as [[c len]|] eqn:E; [|done]. injection H as <- <-.
    unfold read_cp_back in E. destruct p as [|p]; [done|].
    assert (1 <= len <= S p)%nat; [|lia].
    repeat case_match; simplify_eq; lia.
  - destruct (read_cp input p uni) as [[c len]|] eqn:E; [|done]. injection H as <- <-.
    unfold read_cp in E. destruct (input !! p) as [u|] eqn:Eu; [|done].
    apply lookup_lt_Some in Eu.
    assert (1 <= len /\ p + len <= length input)%nat; [|lia].
    repeat case_match; simplify_eq; try lia.
    match goal with H : input !! S p = Some _ |- _ => apply lookup_lt_Some in H end. lia.
Qed.

Lemma consume_ok p rev f st st' gs :
  (st.1 <= length input)%nat -> caps_ok st.2 -> st' ∈ consume input p rev f st ->
  Post rev gs st st' /\ (dist rev st' < dist rev st)%nat.
Proof.
  intros H1 H2 H. unfold consume in H.
  destruct (read_dir input st.1 (unicode f) rev) as [[cp nsp]|] eqn:E; [|by apply elem_of_nil in H].
  destruct (p cp); [|by apply elem_of_nil in H]. apply list_elem_of_singleton in H as ->.
  apply read_dir_moves in E as [Hn Hm]; [|by left].
  unfold dist. destruct rev; cbn in *; (split; [split|]; try done; cbn; lia).
Qed.

Lemma run_chars_ok rev f gs l : forall st st',
  (st.1 <= length input)%nat -> caps_ok st.2 -> st' ∈ run_chars input rev f l st ->
  Post rev gs st st' /\ (l <> [] -> dist rev st' < dist rev st)%nat.
Proof.
  induction l as [|c l IH]; intros st st' H1 H2 H; cbn in H.
  { apply list_elem_of_singleton in H as ->. split; [by apply Post_refl|done]. }
  apply list_elem_of_In, in_flat_map in H as (m & Hm & H).
  apply list_elem_of_In in Hm, H.
  apply (consume_ok _ _ _ _ _ gs) in Hm as [Hm Hd]; [|done..].
  apply IH in H as [H _]; [|apply Hm..].
  split; [by eapply Post_trans|]. intros _. pose proof (post_dist _ _ _ _ H). lia.
Qed.

Lemma run_literal_ok rev f gs s st st' :
  (st.1 <= length input)%nat -> caps_ok st.2 -> st' ∈ run_literal input rev f s st ->
  Post rev gs st st' /\ (s <> [] -> dist rev st' < dist rev st)%nat.
Proof.
  intros H1 H2 H. unfold run_literal in H. apply (run_chars_ok _ _ gs) in H as [H Hd]; [|done..].
  split; [done|]. intros Hs. apply Hd. destruct s as [|c s]; [done|].
  cbn. unfold char_units. destruct rev, (negb (unicode f) && (65535 <? c)); cbn; try done;
    intros E; by apply (f_equal length) in E; rewrite !length_app in E; cbn in E; lia.
Qed.

(** ** Back-references *)

Lemma match_backref_moves rev p s e f nsp :
  (s <= e)%nat -> (p <= length input)%nat -> match_backref input rev p s e f = Some (Some nsp) ->
  (nsp <= length input)%nat /\ (if rev then nsp <= p else length input - nsp <= length input - p)%nat.
Proof.
  intros Hse Hp. unfold match_backref. destruct (Nat.ltb_spec e s); [lia|].
  destruct rev; (case_match eqn:Eb; [|done]); intros [= <-];
    rewrite !andb_true_iff in Eb; destruct Eb as [[Hl _] _]; apply Nat.leb_le in Hl; lia.
Qed.

Lemma run_backref_ok rev f gs st span st' :
  (st.1 <= length input)%nat -> caps_ok st.2 ->
  (forall s e, span = Some (s, e) -> (s <= e)%nat) ->
  st' ∈ run_backref input rev f span st -> Post rev gs st st'.
Proof.
  intros H1 H2 Hsp H. unfold run_backref in H. destruct span as [[s e]|].
  - destruct (match_backref input rev st.1 s e f) as [[nsp|]|] eqn:E; [|by apply elem_of_nil in H..].
    apply list_elem_of_singleton in H as ->.
    apply match_backref_moves in E as [Hn Hm]; [|by apply Hsp|done].
    split; try done. unfold dist. by destruct rev.
  - apply list_elem_of_singleton in H as ->. by apply Post_refl.
Qed.

Lemma first_span_Some sv gs s e :
  first_span sv gs = Some (s, e) -> exists g, group_span sv g = Some (s, e).
Proof.
  induction gs as [|g gs IH]; cbn; [done|]. destruct (group_span sv g) as [[]|] eqn:E; [|done].
  intros [= -> ->]. eauto.
Qed.

Lemma named_groups_ok sv name s e :
  caps_ok sv -> named_groups names sv name = Some (s, e) -> (s <= e)%nat.
Proof.
  intros [_ H2] H. unfold named_groups in H. destruct (name_indices names name).
  - by apply H2 in H.
  - apply first_span_Some in H as [g Hg]. by apply H2 in Hg.
Qed.

(** ** Quantifiers *)

Section repeat.
Context (rev : bool) (gs : list nat) (body : MState -> list MState) (strict : bool).

(** What the atom's runs are known to do. *)
Context (Hbody : forall st st', Pre gs st -> st' ∈ body st ->
  Post rev gs st st' /\ (strict = true -> dist rev st' < dist rev st)%nat).

Definition Mid (st : MState) : Prop :=
  (st.1 <= length input)%nat /\ caps_ok st.2 /\ in_bounds gs st.2.

Lemma Mid_post st st' : Mid st -> Post rev gs st st' -> Mid st'.
Proof.
  intros (_ & _ & Hb) []. split; [done|]. split; [done|]. by eapply in_bounds_length.
Qed.

Lemma unset_body_ok st st' :
  Mid st -> st' ∈ body (unset gs st) ->
  Post rev gs st st' /\ (strict = true -> dist rev st' < dist rev st)%nat.
Proof using Hbody.
  intros (H1 & H2 & H3) H. apply Hbody in H as [HP Hs]; [|by apply unset_pre].
  split; [|exact Hs]. eapply Post_trans; [|exact HP]. by apply unset_post.
Qed.

Lemma run_copies_ok n : forall st st',
  Mid st -> st' ∈ run_copies (unset gs) body n st ->
  Post rev gs st st' /\ (strict = true -> dist rev st' + n <= dist rev st)%nat.
Proof using Hbody.
  induction n as [|n IH]; intros st st' HM H; cbn in H.
  { apply list_elem_of_singleton in H as ->. split; [apply Post_refl; apply HM|lia]. }
  apply list_elem_of_In, in_flat_map in H as (m & Hm & H). apply list_elem_of_In in Hm, H.
  apply unset_body_ok in Hm as [Hm Hs]; [|done].
  apply IH in H as [H Hd]; [|by eapply Mid_post].
  split; [by eapply Post_trans|]. intros E. specialize (Hs E). specialize (Hd E). lia.
Qed.

Lemma run_optional_ok greedy n : forall st st',
  Mid st -> st' ∈ run_optional (unset gs) body greedy n st -> Post rev gs st st'.
Proof using Hbody.
  induction n as [|n IH]; intros st st' HM H; cbn in H.
  { apply list_elem_of_singleton in H as ->. apply Post_refl; apply HM. }
  assert (Hin : st' = st \/ st' ∈ flat_map (run_optional (unset gs) body greedy n)
    (List.filter (moved st) (body (unset gs st)))).
  { destruct greedy; rewrite ?elem_of_app, ?elem_of_cons, ?elem_of_nil in H; tauto. }
  clear H. destruct Hin as [->|H]; [apply Post_refl; apply HM|].
  apply list_elem_of_In, in_flat_map in H as (m & Hm & H). apply list_elem_of_In in H.
  apply filter_In in Hm as [Hm _]. apply list_elem_of_In in Hm.
  apply unset_body_ok in Hm as [Hm _]; [|done].
  eapply Post_trans; [exact Hm|]. apply IH; [by eapply Mid_post|done].
Qed.

End repeat.

(** ** The lemma for every node *)

Lemma insert_longest_elem x s l : x ∈ insert_longest s l <-> x = s \/ x ∈ l.
Proof.
  induction l as [|y l IH]; cbn; [by rewrite elem_of_cons|].
  case_match; rewrite !elem_of_cons; [tauto|]. rewrite IH. tauto.
Qed.

Lemma sort_longest_elem x l : x ∈ sort_longest l <-> x ∈ l.
Proof.
  unfold sort_longest. assert (H : forall acc,
    x ∈ fold_left (fun acc s => insert_longest s acc) l acc <-> x ∈ acc \/ x ∈ l).
  { induction l as [|y l IH]; intros acc; cbn.
    - rewrite elem_of_nil. tauto.
    - rewrite IH, insert_longest_elem, elem_of_cons. tauto. }
  rewrite H, elem_of_nil. tauto.
Qed.

Definition runs_ok (n : Node) : Prop := forall rev f st st',
  node_wf n = true -> NoDup (node_groups n) -> Pre (node_groups n) st ->
  st' ∈ runs input names rev f n st ->
  Post rev (node_groups n) st st' /\
  (can_match_empty n = false -> dist rev st' < dist rev st)%nat.

(** The runs of a sequence, in either direction. *)
Fixpoint seq_fwd (rev : bool) (f : Flags) (l : list Node) (st : MState) : list MState :=
  match l with
  | [] => [st]
  | n :: l => flat_map (seq_fwd rev f l) (runs input names rev f n st)
  end.

Fixpoint seq_back (rev : bool) (f : Flags) (l : list Node) (st : MState) : list MState :=
  match l with
  | [] => [st]
  | n :: l => flat_map (runs input names rev f n) (seq_back rev f l st)
  end.

Lemma runs_concat rev f l st :
  runs input names rev f (NConcat l) st =
    if rev then seq_back rev f l st else seq_fwd rev f l st.
Proof. destruct rev; cbn; [induction l as [|n l IH]|]; cbn; [done|by rewrite IH|].
  revert st. induction l as [|n l IH]; intros st; cbn; [done|].
  apply flat_map_ext. intros a. apply IH.
Qed.

(** Two parts with groups apart, one after the other. *)
Lemma part_then rev g1 g2 (a b c : MState) (s1 s2 : bool) :
  (forall g, g ∈ g2 -> g ∉ g1) ->
  Post rev g1 a b /\ (s1 = true -> dist rev b < dist rev a)%nat ->
  Post rev g2 b c /\ (s2 = true -> dist rev c < dist rev b)%nat ->
  Post rev (g1 ++ g2) a c /\ (s1 || s2 = true -> dist rev c < dist rev a)%nat.
Proof.
  intros Hd [H1 S1] [H2 S2]. split.
  - apply (Post_trans _ _ _ b).
    + apply (Post_mono _ g1); [|done]. intros g Hg. apply elem_of_app. tauto.
    + apply (Post_mono _ g2); [|done]. intros g Hg. apply elem_of_app. tauto.
  - intros Hs. apply orb_true_iff in Hs. destruct H1, H2. destruct Hs as [Hs|Hs]; [apply S1 in Hs|apply S2 in Hs]; lia.
Qed.

Lemma seq_fwd_ok rev f l : Forall runs_ok l -> forall st st',
  forallb node_wf l = true -> NoDup (flat_map node_groups l) -> Pre (flat_map node_groups l) st ->
  st' ∈ seq_fwd rev f l st ->
  Post rev (flat_map node_groups l) st st' /\
  (negb (forallb can_match_empty l) = true -> dist rev st' < dist rev st)%nat.
Proof.
  induction 1 as [|n l Hn Hl IH]; intros st st' Hwf Hnd HP H; cbn in *.
  { apply list_elem_of_singleton in H as ->. split; [apply Post_refl; apply HP|done]. }
  apply andb_true_iff in Hwf as [Hw Hwl]. apply list.NoDup_app in Hnd as (Hn1 & Hd & Hn2).
  apply list_elem_of_In, in_flat_map in H as (m & Hm & H). apply list_elem_of_In in Hm, H.
  apply Hn in Hm as [Hm Hs]; [|done..|eapply Pre_sub; [|exact HP]; intros g Hg; apply elem_of_app; tauto].
  assert (HPm : Pre (flat_map node_groups l) m).
  { eapply Post_pre; [exact Hm| |intros g Hg Hg'; by apply (Hd g Hg')].
    eapply Pre_sub; [|exact HP]; intros g Hg; apply elem_of_app; tauto. }
  apply IH in H; [|done..]. rewrite negb_andb.
  apply (part_then rev _ _ st m st' (negb (can_match_empty n))); [|split; [done|]|done].
  - intros g Hg Hg'. by apply (Hd g Hg').
  - by rewrite negb_true_iff.
Qed.

Lemma seq_back_ok rev f l : Forall runs_ok l -> forall st st',
  forallb node_wf l = true -> NoDup (flat_map node_groups l) -> Pre (flat_map node_groups l) st ->
  st' ∈ seq_back rev f l st ->
  Post rev (flat_map node_groups l) st st' /\
  (negb (forallb can_match_empty l) = true -> dist rev st' < dist rev st)%nat.
Proof.
  induction 1 as [|n l Hn Hl IH]; intros st st' Hwf Hnd HP H; cbn in *.
  { apply list_elem_of_singleton in H as ->. split; [apply Post_refl; apply HP|done]. }
  apply andb_true_iff in Hwf as [Hw Hwl]. apply list.NoDup_app in Hnd as (Hn1 & Hd & Hn2).
  apply list_elem_of_In, in_flat_map in H as (m & Hm & H). apply list_elem_of_In in Hm, H.
  apply IH in Hm; [|done..|eapply Pre_sub; [|exact HP]; intros g Hg; apply elem_of_app; tauto].
  destruct Hm as [Hm Hs].
  assert (HPm : Pre (node_groups n) m).
  { eapply Post_pre; [exact Hm| |exact Hd].
    eapply Pre_sub; [|exact HP]; intros g Hg; apply elem_of_app; tauto. }
  apply Hn in H as [H Hs']; [|done..]. rewrite negb_andb, orb_comm.
  rewrite <- negb_true_iff in Hs'.
  destruct (part_then rev _ _ st m st' (negb (forallb can_match_empty l)) (negb (can_match_empty n))
    Hd (conj Hm Hs) (conj H Hs')) as [HQ HS].
  split; [|exact HS]. eapply Post_mono; [|exact HQ]. intros g. rewrite !elem_of_app. tauto.
Qed.

(** A node that consumes nothing: the state is kept. *)
Lemma stays_ok rev gs st st' (R : Prop) :
  Pre gs st -> st' = st -> Post rev gs st st' /\ (true = false -> R).
Proof. intros (H1 & H2 & _) ->. split; [by apply Post_refl|done]. Qed.

Lemma set_slot_caps slot (st : MState) :
  (st.1 <= length input)%nat -> caps_ok st.2 ->
  (forall s, slot = (2 * Nat.div2 slot + 1)%nat -> st.2 !! (2 * Nat.div2 slot)%nat = Some (Some s) -> (s <= st.1)%nat) ->
  (forall e, slot = (2 * Nat.div2 slot)%nat -> st.2 !! (2 * Nat.div2 slot + 1)%nat = Some (Some e) -> (st.1 <= e)%nat) ->
  caps_ok (set_slot slot st).2.
Proof. intros. by apply caps_set. Qed.

(** A capturing group around runs that behave. *)
Lemma group_ok (rev : bool) (idx : nat) (gs : list nat) (st m : MState) :
  idx ∉ gs -> Pre (idx :: gs) st ->
  let opening := if rev then (2 * idx + 1)%nat else (2 * idx)%nat in
  let closing := if rev then (2 * idx)%nat else (2 * idx + 1)%nat in
  Pre gs (set_slot opening st) /\
  (Post rev gs (set_slot opening st) m -> Post rev (idx :: gs) st (set_slot closing m)).
Proof.
  intros Hni (H1 & H2 & H3) opening closing.
  destruct (H3 idx ltac:(by left)) as [Hs He].
  assert (Ho : Nat.div2 opening = idx) by (subst opening; destruct rev; [apply div2_odd|apply div2_even]).
  assert (Hc : Nat.div2 closing = idx) by (subst closing; destruct rev; [apply div2_even|apply div2_odd]).
  assert (Hcaps : caps_ok (set_slot opening st).2).
  { apply set_slot_caps; rewrite ?Ho; [done..| |]; intros v _; [rewrite Hs|rewrite He]; done. }
  split.
  - split; [done|]. split; [done|]. intros g Hg. cbn.
    assert (g <> idx) by (intros ->; done).
    rewrite !list_lookup_insert_ne; [apply H3; by right| |];
      subst opening; destruct rev; lia.
  - intros HP. pose proof (post_dist _ _ _ _ HP) as Hd. unfold dist in Hd. cbn in Hd.
    assert (Hop : m.2 !! opening = Some (Some st.1)).
    { rewrite (post_frame _ _ _ _ HP) by (by rewrite Ho). cbn. apply list_lookup_insert_eq.
      subst opening. destruct rev; by eapply lookup_lt_Some. }
    split; cbn.
    + apply HP.
    + apply caps_set; [apply HP..| |]; rewrite Hc.
      * intros v Ev Hv. destruct rev; subst opening closing; [lia|].
        rewrite Hop in Hv. injection Hv as <-. destruct HP. cbn in *. lia.
      * intros v Ev Hv. destruct rev; subst opening closing; [|lia].
        rewrite Hop in Hv. injection Hv as <-. exact Hd.
    + rewrite length_insert, (post_length _ _ _ _ HP). cbn. apply length_insert.
    + exact Hd.
    + intros slot Hsl. rewrite elem_of_cons in Hsl.
      rewrite list_lookup_insert_ne by (intros <-; tauto).
      rewrite (post_frame _ _ _ _ HP) by tauto. cbn.
      by rewrite list_lookup_insert_ne by (intros <-; tauto).
Qed.

Lemma runs_ok_all n : runs_ok n.
Proof.
  induction n using Node_induction; try rename H into Hall;
    intros rev f st st' Hwf Hnd HP H; assert (HP' := HP);
    destruct HP' as (H1 & H2 & _).
  - apply list_elem_of_singleton in H as ->. by apply stays_ok.
  - apply (run_literal_ok _ _ []) in H as [H Hd]; [|done..]. split; [done|]. intros _. by apply Hd.
  - by apply (consume_ok _ _ _ _ _ []) in H as [H Hd].
  - by apply (consume_ok _ _ _ _ _ []) in H as [H Hd].
  - cbn in H. apply elem_of_app in H as [H|H].
    + apply list_elem_of_In, in_flat_map in H as (s & Hs & H). apply list_elem_of_In in Hs, H.
      apply (run_literal_ok _ _ []) in H as [H Hd]; [|done..]. split; [done|]. intros Hn.
      apply Hd. intros ->. rewrite sort_longest_elem in Hs. unfold class_strings in Hs.
      apply list_elem_of_filter in Hs as [_ Hs]. cbn in Hn.
      apply not_true_iff_false in Hn. apply Hn, existsb_exists. exists [].
      split; [by apply list_elem_of_In|done].
    + by apply (consume_ok _ _ _ _ _ []) in H as [H Hd].
  - cbn -[assert_ok] in H. destruct (assert_ok _ _ _ _) as [[]|];
      [|by apply elem_of_nil in H..]. apply list_elem_of_singleton in H. by apply stays_ok.
  - cbn -[assert_ok] in H. destruct (assert_ok _ _ _ _) as [[]|];
      [|by apply elem_of_nil in H..]. apply list_elem_of_singleton in H. by apply stays_ok.
  - cbn -[assert_ok] in H. destruct (assert_ok _ _ _ _) as [[]|];
      [|by apply elem_of_nil in H..]. apply list_elem_of_singleton in H. by apply stays_ok.
  - destruct index as [idx|]; [|exact (IHn rev f st st' Hwf Hnd HP H)]. cbn in Hnd, HP, Hwf. cbn [node_groups].
    apply list.NoDup_cons in Hnd as [Hni Hnd]. cbn [runs] in H.
    assert (Hm : exists m, m ∈ runs input names rev f n (set_slot (if rev then 2 * idx + 1 else 2 * idx)%nat st) /\
      st' = set_slot (if rev then 2 * idx else 2 * idx + 1)%nat m).
    { destruct rev; apply list_elem_of_fmap in H as (m & -> & Hm); eauto. }
    destruct Hm as (m & Hm & ->).
    destruct (group_ok rev idx _ st m Hni HP) as [HPre HPost].
    apply IHn in Hm as [Hm Hs]; [|done..]. split; [by apply HPost|].
    intros Hn. specialize (Hs Hn). unfold dist in *. by destruct rev.
  - exact (IHn rev _ st st' Hwf Hnd HP H).
  - cbn in H. assert (Hb : forall x, x ∈ runs input names false f n st -> Post false (node_groups n) st x)
      by (intros x Hx; by apply IHn in Hx as [Hx _]).
    assert (Hst : st' = st \/ exists x, x ∈ runs input names false f n st /\ st' = (st.1, x.2)).
    { unfold look_runs in H. destruct (runs input names false f n st) as [|x l], neg;
        rewrite ?list_elem_of_singleton, ?elem_of_nil in H; try done; [by left|].
      right. exists x. split; [by left|done]. }
    destruct Hst as [->|(x & Hx & ->)]; [by apply stays_ok|].
    apply Hb in Hx as []. split; [|done]. by split.
  - cbn in H. assert (Hb : forall x, x ∈ runs input names true f n st -> Post true (node_groups n) st x)
      by (intros x Hx; by apply IHn in Hx as [Hx _]).
    assert (Hst : st' = st \/ exists x, x ∈ runs input names true f n st /\ st' = (st.1, x.2)).
    { unfold look_runs in H. destruct (runs input names true f n st) as [|x l], neg;
        rewrite ?list_elem_of_singleton, ?elem_of_nil in H; try done; [by left|].
      right. exists x. split; [by left|done]. }
    destruct Hst as [->|(x & Hx & ->)]; [by apply stays_ok|].
    apply Hb in Hx as []. split; [|done]. by split.
  - cbn -[group_span] in H. split; [|done]. eapply run_backref_ok; [done..| |exact H].
    intros s e Hg. by apply H2 in Hg.
  - cbn -[named_groups] in H. split; [|done]. eapply run_backref_ok; [done..| |exact H].
    intros s e Hg. by eapply named_groups_ok.
  - rewrite runs_concat in H. cbn [node_groups can_match_empty node_wf] in *.
    rewrite <- negb_true_iff. destruct rev; [by eapply seq_back_ok|by eapply seq_fwd_ok].
  - cbn [runs node_groups can_match_empty node_wf] in *.
    apply list_elem_of_In, in_flat_map in H as (n & Hn & H).
    apply list_elem_of_In in H.
    assert (Hsub : forall g, g ∈ node_groups n -> g ∈ flat_map node_groups l).
    { intros g Hg. apply list_elem_of_In, in_flat_map. exists n. split; [done|by apply list_elem_of_In]. }

    rewrite Forall_forall in Hall. apply (Hall n Hn) in H as [H Hs].
    + split; [by eapply Post_mono|]. intros Hne. apply Hs.
      destruct (can_match_empty n) eqn:E; [|done]. exfalso.
      apply not_true_iff_false in Hne. apply Hne, existsb_exists. eauto.
    + apply andb_true_iff in Hwf as [_ Hwf]. rewrite forallb_forall in Hwf. by apply Hwf.
    + clear -Hnd Hn. induction l as [|x l IH]; [done|]. cbn in Hnd.
      apply list.NoDup_app in Hnd as (Hx & _ & Hl). destruct Hn as [->|Hn]; auto.
    + by eapply Pre_sub.
  - cbn [runs node_groups can_match_empty node_wf] in *.
    apply andb_true_iff in Hwf as [Hwf Hw]. apply andb_true_iff in Hwf as [Hmin _].
    apply list_elem_of_In, in_flat_map in H as (m & Hm & H). apply list_elem_of_In in Hm, H.
    assert (Hbody : forall a b, Pre (node_groups n) a -> b ∈ runs input names rev f n a ->
      Post rev (node_groups n) a b /\ (negb (can_match_empty n) = true -> dist rev b < dist rev a)%nat).
    { intros a b Ha Hb. rewrite negb_true_iff. by apply IHn in Hb. }
    assert (HM : Mid (node_groups n) st).
    { split; [done|]. split; [done|]. apply fresh_in_bounds, HP. }
    apply (run_copies_ok rev _ _ _ Hbody) in Hm as [Hm Hs]; [|done].
    apply (run_optional_ok rev _ _ _ Hbody) in H; [|by eapply Mid_post].
    split; [by eapply Post_trans|]. intros Hn. apply orb_false_iff in Hn as [Hz Hn].
    rewrite negb_true_iff in Hs. specialize (Hs Hn). pose proof (post_dist _ _ _ _ H).
    apply Z.eqb_neq in Hz. apply Z.leb_le in Hmin. lia.
Qed.

End inv.

End Runs.
