(* ===== verification/RegexCode.v ===== *)
(** * The compiler lays out the code of a pattern

    [code_at P rev n pc pc'] says that the instructions of [P] from [pc] up to
    [pc'] are the code of [n]: the shape of the compiled program, without the
    back-patching that produced it.  [compile_code]: what [compile] emits is such
    code, and what was there before is untouched. *)

From S2P Require Import Prelude Regex RegexComp RegexVm RegexSem RegexRuns.

Open Scope Z_scope.

Section Code.
Context `{U : UnicodeData}.

(** ** The shape of the code *)

Section shapes.
Context (P : list Inst).

Fixpoint chars_at (cs : list Z) (pc pc' : nat) : Prop :=
  match cs with
  | [] => pc' = pc
  | c :: cs => P !! pc = Some (Char c) /\ chars_at cs (S pc) pc'
  end.

Definition inst_at (i : Inst) (pc pc' : nat) : Prop := P !! pc = Some i /\ pc' = S pc.

Definition literal_at (uni : bool) (s : list Z) (pc pc' : nat) : Prop :=
  chars_at (flat_map (char_units uni) s) pc pc'.

(** The strings of a class, then the class. *)
Fixpoint strings_at (uni : bool) (last : Inst) (l : list (list Z)) (end_ pc : nat) : Prop :=
  match l with
  | [] => inst_at last pc end_
  | s :: l => exists next,
      P !! pc = Some (Split (S pc) next) /\ (S pc < next)%nat /\
      literal_at uni s (S pc) (next - 1) /\ P !! (next - 1)%nat = Some (Jmp end_) /\
      strings_at uni last l end_ next
  end.

Definition clear_at (inner : Node) (pc pc' : nat) : Prop :=
  match group_slot_range inner with
  | Some (lo, hi) => inst_at (ClearCaptures lo hi) pc pc'
  | None => pc' = pc
  end.

Section body.
Context (inner : Node) (body : nat -> nat -> Prop).

Definition copy_at (pc pc' : nat) : Prop := exists m, clear_at inner pc m /\ body m pc'.

Fixpoint copies_at (n : nat) (pc pc' : nat) : Prop :=
  match n with
  | O => pc' = pc
  | S n => exists m, copy_at pc m /\ copies_at n m pc'
  end.

Definition guarded_at (pc pc' : nat) : Prop :=
  if can_match_empty inner then
    exists m, P !! pc = Some Mark /\ copy_at (S pc) m /\ inst_at EmptyFail m pc'
  else copy_at pc pc'.

Definition split_to (greedy : bool) (body exit : nat) : Inst :=
  if greedy then Split body exit else Split exit body.

Definition star_at (greedy : bool) (pc pc' : nat) : Prop := exists m,
  P !! pc = Some (split_to greedy (S pc) pc') /\ guarded_at (S pc) m /\ inst_at (Jmp pc) m pc'.

Fixpoint chain_at (greedy : bool) (n : nat) (exit pc : nat) : Prop :=
  match n with
  | O => pc = exit
  | S n => exists m,
      P !! pc = Some (split_to greedy (S pc) exit) /\ guarded_at (S pc) m /\ chain_at greedy n exit m
  end.

End body.
End shapes.

Section lists.
Context (P : list Inst) (at_node : Node -> nat -> nat -> Prop).

Fixpoint seq_at (l : list Node) (pc pc' : nat) : Prop :=
  match l with
  | [] => pc' = pc
  | n :: l => exists m, at_node n pc m /\ seq_at l m pc'
  end.

Fixpoint seq_rev_at (l : list Node) (pc pc' : nat) : Prop :=
  match l with
  | [] => pc' = pc
  | n :: l => exists m, seq_rev_at l pc m /\ at_node n m pc'
  end.

Fixpoint alt_at (l : list Node) (end_ pc : nat) : Prop :=
  match l with
  | [] => pc = end_
  | n :: l =>
      match l with
      | [] => at_node n pc end_
      | _ => exists next,
          P !! pc = Some (Split (S pc) next) /\ (S pc < next)%nat /\
          at_node n (S pc) (next - 1)%nat /\ P !! (next - 1)%nat = Some (Jmp end_) /\
          alt_at l end_ next
      end
  end.
End lists.

(** The bound of a quantifier the compiler keeps. *)
Definition kept_max (inner : Node) (max : option Z) : option Z :=
  if can_match_empty inner then max
  else match max with
       | Some m => if m <=? MAX_STRING_LEN then Some m else None
       | None => None
       end.

Section code_at.
Context (names : list (nat * String.string)) (uni : bool).

Definition backref_inst (name : String.string) : Inst :=
  match name_indices names name with
  | [] => Backref 0
  | [n] => Backref n
  | l => BackrefMulti l
  end.

Fixpoint code_at (P : list Inst) (rev : bool) (n : Node) (pc pc' : nat) {struct n} : Prop :=
  match n with
  | NEmpty => pc' = pc
  | NChar c => literal_at P uni [c] pc pc'
  | NAny => inst_at P Any pc pc'
  | NStart => inst_at P (IAssert AStart) pc pc'
  | NEnd => inst_at P (IAssert AEnd) pc pc'
  | NWordBoundary neg => inst_at P (IAssert (if neg then ANotWordBoundary else AWordBoundary)) pc pc'
  | NClass neg items => inst_at P (Class (class_new neg (flat_map (convert_item uni) items))) pc pc'
  | NClassSet neg set =>
      strings_at P uni (ClassSet neg (build_set_matcher set)) (sort_longest (class_strings set)) pc' pc
  | NGroup None inner => code_at P rev inner pc pc'
  | NGroup (Some idx) inner => exists m,
      P !! pc = Some (Save (if rev then 2 * idx + 1 else 2 * idx)) /\
      code_at P rev inner (S pc) m /\
      inst_at P (Save (if rev then 2 * idx else 2 * idx + 1)) m pc'
  | NModifier i m s inner => exists q,
      P !! pc = Some (PushFlags (MkDelta i m s)) /\ code_at P rev inner (S pc) q /\
      inst_at P PopFlags q pc'
  | NLook neg inner => exists sub m,
      inst_at P (Look neg sub) pc pc' /\ code_at sub false inner 0 m /\ sub !! m = Some Match
  | NLookBehind neg inner => exists sub m,
      inst_at P (LookBehind neg sub) pc pc' /\ code_at sub true inner 0 m /\ sub !! m = Some Match
  | NBackref g => inst_at P (Backref g) pc pc'
  | NNamedBackref name => inst_at P (backref_inst name) pc pc'
  | NConcat l =>
      if rev then seq_rev_at (code_at P rev) l pc pc' else seq_at (code_at P rev) l pc pc'
  | NAlt l => alt_at P (code_at P rev) l pc' pc
  | NRepeat inner min max greedy =>
      if negb (can_match_empty inner) && (MAX_STRING_LEN <? min) then inst_at P Fail_ pc pc'
      else exists m, copies_at P inner (code_at P rev inner) (Z.to_nat min) pc m /\
        match kept_max inner max with
        | None => star_at P inner (code_at P rev inner) greedy m pc'
        | Some mx => chain_at P inner (code_at P rev inner) greedy (Z.to_nat (mx - min)) pc' m
        end
  end.

(** ** The code of a node is where it is *)

(** [P] and [P'] hold the same instructions from [pc] up to [pc']. *)
Definition same (P P' : list Inst) (pc pc' : nat) : Prop :=
  forall i, (pc <= i < pc')%nat -> P' !! i = P !! i.

Lemma same_sub P P' a b a' b' : same P P' a b -> (a <= a')%nat -> (b' <= b)%nat -> same P P' a' b'.
Proof. intros H ?? i Hi. apply H. lia. Qed.

(** A part of the code that only depends on its own range. *)
Definition local (at_ : list Inst -> nat -> nat -> Prop) : Prop := forall P pc pc',
  at_ P pc pc' -> (pc <= pc')%nat /\ forall P', same P P' pc pc' -> at_ P' pc pc'.

Lemma local_inst i : local (fun P => inst_at P i).
Proof.
  intros P pc pc' [H ->]. split; [lia|]. intros P' HS. split; [|done]. rewrite HS; [done|lia].
Qed.

Lemma local_chars cs : local (fun P => chars_at P cs).
Proof.
  induction cs as [|c cs IH]; intros P pc pc' H; cbn in *; [subst; split; [lia|done]|].
  destruct H as [H1 H2]. apply IH in H2 as [Hle H2]. split; [lia|].
  intros P' HS. split; [rewrite HS; [done|lia]|]. apply H2. eapply same_sub; [done|lia..].
Qed.

Lemma local_strings last l : forall end_, local (fun P pc pc' => pc' = end_ /\ strings_at P uni last l end_ pc).
Proof.
  induction l as [|s l IH]; intros end_ P pc pc' [-> H]; cbn in *.
  { destruct (local_inst _ _ _ _ H) as [Hle HL]. split; [done|]. intros P' HS. split; [done|]. by apply HL. }
  destruct H as (next & H1 & Hn & H2 & H3 & H4).
  destruct (local_chars _ _ _ _ H2) as [_ HL2].
  destruct (IH end_ P next end_ (conj eq_refl H4)) as [Hle HL4]. split; [lia|].
  intros P' HS. split; [done|]. exists next. rewrite !HS by lia. split_and!; try done.
  - apply HL2. eapply same_sub; [done|lia..].
  - apply HL4. eapply same_sub; [done|lia..].
Qed.

Lemma local_clear inner : local (fun P => clear_at P inner).
Proof.
  intros P pc pc'. unfold clear_at. destruct (group_slot_range inner) as [[lo hi]|].
  - apply local_inst.
  - intros ->. split; [lia|done].
Qed.

Section local_body.
Context (inner : Node) (body : list Inst -> nat -> nat -> Prop) (Hb : local body).

Lemma local_copy : local (fun P => copy_at P inner (body P)).
Proof using Hb.
  intros P pc pc' (m & H1 & H2). apply local_clear in H1 as [L1 H1]. apply Hb in H2 as [L2 H2].
  split; [lia|]. intros P' HS. exists m. split; [apply H1|apply H2]; eapply same_sub; try done; lia.
Qed.

Lemma local_copies n : local (fun P => copies_at P inner (body P) n).
Proof using Hb.
  induction n as [|n IH]; intros P pc pc'; cbn; [intros ->; split; [lia|done]|].
  intros (m & H1 & H2). apply local_copy in H1 as [L1 H1]. apply IH in H2 as [L2 H2].
  split; [lia|]. intros P' HS. exists m. split; [apply H1|apply H2]; eapply same_sub; try done; lia.
Qed.

Lemma local_guarded : local (fun P => guarded_at P inner (body P)).
Proof using Hb.
  intros P pc pc'. unfold guarded_at. destruct (can_match_empty inner); [|apply local_copy].
  intros (m & H1 & H2 & H3). apply local_copy in H2 as [L2 H2]. destruct (local_inst _ _ _ _ H3) as [L3 H3'].
  split; [lia|]. intros P' HS. exists m. split; [rewrite HS; [done|lia]|].
  split; [apply H2|apply H3']; eapply same_sub; try done; lia.
Qed.

Lemma local_star greedy : local (fun P => star_at P inner (body P) greedy).
Proof using Hb.
  intros P pc pc' (m & H1 & H2 & H3). apply local_guarded in H2 as [L2 H2].
  destruct (local_inst _ _ _ _ H3) as [L3 H3']. split; [lia|]. intros P' HS. exists m.
  split; [rewrite HS; [done|lia]|]. split; [apply H2|apply H3']; eapply same_sub; try done; lia.
Qed.

Lemma local_chain greedy n : forall exit,
  local (fun P pc pc' => pc' = exit /\ chain_at P inner (body P) greedy n exit pc).
Proof using Hb.
  induction n as [|n IH]; intros exit P pc pc' [-> H]; cbn in H; [subst; split; [lia|done]|].
  destruct H as (m & H1 & H2 & H3). apply local_guarded in H2 as [L2 H2].
  destruct (IH exit P m exit (conj eq_refl H3)) as [L3 H3']. split; [lia|].
  intros P' HS. split; [done|]. exists m. split; [rewrite HS; [done|lia]|].
  split; [apply H2|apply H3']; eapply same_sub; try done; lia.
Qed.

End local_body.

Section local_lists.
Context (at_node : list Inst -> Node -> nat -> nat -> Prop).
Definition node_local (n : Node) : Prop := local (fun P => at_node P n).

Lemma local_seq l : Forall node_local l -> local (fun P => seq_at (at_node P) l).
Proof.
  induction 1 as [|n l Hn Hl IH]; intros P pc pc'; cbn; [intros ->; split; [lia|done]|].
  intros (m & H1 & H2). apply Hn in H1 as [L1 H1]. apply IH in H2 as [L2 H2].
  split; [lia|]. intros P' HS. exists m. split; [apply H1|apply H2]; eapply same_sub; try done; lia.
Qed.

Lemma local_seq_rev l : Forall node_local l -> local (fun P => seq_rev_at (at_node P) l).
Proof.
  induction 1 as [|n l Hn Hl IH]; intros P pc pc'; cbn; [intros ->; split; [lia|done]|].
  intros (m & H1 & H2). apply IH in H1 as [L1 H1]. apply Hn in H2 as [L2 H2].
  split; [lia|]. intros P' HS. exists m. split; [apply H1|apply H2]; eapply same_sub; try done; lia.
Qed.

Lemma local_alt l : Forall node_local l -> forall end_,
  local (fun P pc pc' => pc' = end_ /\ alt_at P (at_node P) l end_ pc).
Proof.
  induction 1 as [|n l Hn Hl IH]; intros end_ P pc pc' [-> H]; cbn in H; [subst; split; [lia|done]|].
  destruct l as [|n' l].
  { apply Hn in H as [L H]. split; [done|]. intros P' HS. split; [done|]. by apply H. }
  destruct H as (next & H1 & Hlt & H2 & H3 & H4). apply Hn in H2 as [L2 H2].
  destruct (IH end_ P next end_ (conj eq_refl H4)) as [L4 H4']. split; [lia|].
  intros P' HS. split; [done|]. exists next. rewrite !HS by lia. split_and!; try done.
  - apply H2. eapply same_sub; [done|lia..].
  - apply H4'. eapply same_sub; [done|lia..].
Qed.

End local_lists.

Lemma local_code n : forall rev, local (fun P => code_at P rev n).
Proof.
  induction n using Node_induction; intros rev; try (apply local_inst).
  - intros P pc pc' ->. split; [lia|done].
  - apply local_chars.
  - intros P pc pc' H. destruct (local_strings _ _ pc' P pc pc' (conj eq_refl H)) as [L HL].
    split; [done|]. intros P' HS. by apply HL.
  - destruct index as [idx|]; [|apply IHn].
    intros P pc pc' (m & H1 & H2 & H3). apply IHn in H2 as [L2 H2].
    destruct (local_inst _ _ _ _ H3) as [L3 H3']. split; [lia|]. intros P' HS. exists m.
    split; [rewrite HS; [done|lia]|]. split; [apply H2|apply H3']; eapply same_sub; try done; lia.
  - intros P pc pc' (q & H1 & H2 & H3). apply IHn in H2 as [L2 H2].
    destruct (local_inst _ _ _ _ H3) as [L3 H3']. split; [lia|]. intros P' HS. exists q.
    split; [rewrite HS; [done|lia]|]. split; [apply H2|apply H3']; eapply same_sub; try done; lia.
  - intros P pc pc' (sub & m & H1 & H2 & H3). destruct (local_inst _ _ _ _ H1) as [L1 H1'].
    split; [done|]. intros P' HS. exists sub, m. split; [by apply H1'|done].
  - intros P pc pc' (sub & m & H1 & H2 & H3). destruct (local_inst _ _ _ _ H1) as [L1 H1'].
    split; [done|]. intros P' HS. exists sub, m. split; [by apply H1'|done].
  - destruct rev; cbn [code_at].
    + apply (local_seq_rev (fun P => code_at P true)).
      eapply list.Forall_impl; [exact H|]. intros a Ha. apply Ha.
    + apply (local_seq (fun P => code_at P false)).
      eapply list.Forall_impl; [exact H|]. intros a Ha. apply Ha.
  - intros P pc pc' HA.
    destruct (local_alt (fun P => code_at P rev) l ltac:(eapply list.Forall_impl; [exact H|]; intros a Ha; apply Ha)
      pc' P pc pc' (conj eq_refl HA)) as [L HL].
    split; [done|]. intros P' HS. by apply HL.
  - intros P pc pc'. cbn [code_at].
    destruct (negb (can_match_empty n) && (MAX_STRING_LEN <? min)); [apply local_inst|].
    intros (m & H1 & H2).
    destruct (local_copies n (fun P => code_at P rev n) (IHn rev) _ _ _ _ H1) as [L1 H1'].
    assert (HL : (m <= pc')%nat /\ forall P', same P P' m pc' ->
      match kept_max n max with
      | None => star_at P' n (code_at P' rev n) greedy m pc'
      | Some mx => chain_at P' n (code_at P' rev n) greedy (Z.to_nat (mx - min)) pc' m
      end).
    { destruct (kept_max n max) as [mx|].
      - destruct (local_chain n (fun P => code_at P rev n) (IHn rev) greedy _ pc' P m pc' (conj eq_refl H2))
          as [L HL]. split; [done|]. intros P' HS. by apply HL.
      - exact (local_star n (fun P => code_at P rev n) (IHn rev) greedy P m pc' H2). }
    destruct HL as [L2 H2']. split; [lia|]. intros P' HS. exists m.
    split; [apply H1'|apply H2']; eapply same_sub; try done; lia.
Qed.

Lemma code_at_le P rev n pc pc' : code_at P rev n pc pc' -> (pc <= pc')%nat.
Proof. intros H. by destruct (local_code n rev P pc pc' H). Qed.

Lemma code_at_same P P' rev n pc pc' : code_at P rev n pc pc' -> same P P' pc pc' -> code_at P' rev n pc pc'.
Proof. intros H HS. destruct (local_code n rev P pc pc' H) as [_ HL]. by apply HL. Qed.

End code_at.

(** ** The compiler extends the program *)

Lemma bind_ok {A B} (r : res A) (f : A -> res B) y :
  (x ← r; f x) = Ok y -> exists x, r = Ok x /\ f x = Ok y.
Proof. destruct r as [x|e]; [eauto|done]. Qed.

Ltac res_inv H :=
  let x := fresh "c" in let E := fresh "E" in
  apply bind_ok in H as (x & E & H); cbv beta in H.

(** The configuration of a compiler: what it does not change. *)
Definition cfg (c : Compiler) : list (nat * String.string) * bool * bool :=
  (group_names c, c_unicode c, reverse c).

Record Ext (c c' : Compiler) : Prop := {
  ext_cfg : cfg c' = cfg c;
  ext_here : (here c <= here c')%nat;
  ext_prog : forall i, (i < here c)%nat -> prog c' !! i = prog c !! i
}.

#[local] Arguments here : simpl never.
#[local] Arguments emit : simpl never.
#[local] Arguments patch : simpl never.
#[local] Arguments emit_char : simpl never.
#[local] Arguments check_size : simpl never.

Lemma Ext_refl c : Ext c c.
Proof. by split. Qed.

Lemma Ext_trans a b c : Ext a b -> Ext b c -> Ext a c.
Proof. intros [] []. split; [congruence|lia|]. intros i Hi. rewrite ext_prog1, ext_prog0; [done|lia..]. Qed.

Lemma here_emit c i : here (emit c i) = S (here c).
Proof. unfold here, emit, set_prog. cbn. rewrite length_app. cbn. lia. Qed.

Lemma emit_at c i : prog (emit c i) !! here c = Some i.
Proof. unfold here, emit. cbn. rewrite lookup_app_r by lia. by rewrite Nat.sub_diag. Qed.

Lemma Ext_emit c i : Ext c (emit c i).
Proof.
  split; [done|rewrite here_emit; lia|]. intros j Hj. unfold emit. cbn. by rewrite lookup_app_l.
Qed.

Lemma here_patch c j i : here (patch c j i) = here c.
Proof. unfold here, patch. cbn. apply length_insert. Qed.

Lemma patch_at c j i : (j < here c)%nat -> prog (patch c j i) !! j = Some i.
Proof. intros H. unfold patch. cbn. by apply list_lookup_insert_eq. Qed.

Lemma patch_ne c j i k : j <> k -> prog (patch c j i) !! k = prog c !! k.
Proof. intros H. unfold patch. cbn. by apply list_lookup_insert_ne. Qed.

Lemma Ext_patch a c j i : Ext a c -> (here a <= j)%nat -> Ext a (patch c j i).
Proof.
  intros [] Hj. split; [done|by rewrite here_patch|]. intros k Hk. rewrite patch_ne by lia. auto.
Qed.

Lemma Ext_max_groups c n : Ext c (max_groups c n).
Proof. by split. Qed.

Lemma check_size_ok c c' : check_size c = Ok c' -> c' = c.
Proof. unfold check_size. case_match; [done|]. by intros [= <-]. Qed.

(** What is in place stays there. *)
Lemma Ext_same c c' a b : Ext c c' -> (b <= here c)%nat -> same (prog c) (prog c') a b.
Proof. intros HE Hb i Hi. apply (ext_prog _ _ HE). lia. Qed.

#[local] Hint Resolve Ext_refl Ext_emit Ext_max_groups : core.

Lemma Ext_emit_r a c i : Ext a c -> Ext a (emit c i).
Proof. intros H. exact (Ext_trans _ _ _ H (Ext_emit c i)). Qed.

(** ** Literals *)

Lemma emit_char_units c ch :
  emit_char c ch = fold_left (fun c u => emit c (Char u)) (char_units (c_unicode c) ch) c.
Proof. unfold emit_char, char_units. destruct (surrogate_pair ch). by destruct (_ && _). Qed.

Lemma emit_units cs : forall c, let c' := fold_left (fun c u => emit c (Char u)) cs c in
  Ext c c' /\ chars_at (prog c') cs (here c) (here c').
Proof.
  induction cs as [|u cs IH]; intros c; cbn; [done|].
  destruct (IH (emit c (Char u))) as [HE HC]. rewrite here_emit in HC.
  split; [exact (Ext_trans _ _ _ (Ext_emit _ _) HE)|]. split; [|done].
  rewrite (ext_prog _ _ HE) by (rewrite here_emit; lia). apply emit_at.
Qed.

Lemma emit_literal s : forall c, let c' := fold_left emit_char s c in
  Ext c c' /\ literal_at (prog c') (c_unicode c) s (here c) (here c').
Proof.
  intros c. unfold literal_at.
  enough (E : fold_left emit_char s c =
    fold_left (fun c u => emit c (Char u)) (flat_map (char_units (c_unicode c)) s) c).
  { cbv zeta. rewrite E. apply emit_units. }
  remember (c_unicode c) as uni eqn:Eu. revert c Eu.
  induction s as [|ch s IH]; intros c Eu; cbn; [done|].
  rewrite fold_left_app, emit_char_units, <- Eu. apply IH.
  rewrite Eu. generalize (char_units (c_unicode c) ch) as l. clear.
  intros l. revert c. induction l as [|u l IH]; intros c; cbn; [done|]. by rewrite <- IH.
Qed.

(** ** Jumps to the end *)

Lemma patch_jumps_spec jmps end_ : forall c,
  Forall (fun j => j < here c)%nat jmps ->
  let c' := patch_jumps c jmps end_ in
  here c' = here c /\ cfg c' = cfg c /\
  (forall j, j ∈ jmps -> prog c' !! j = Some (Jmp end_)) /\
  (forall i, i ∉ jmps -> prog c' !! i = prog c !! i).
Proof.
  induction jmps as [|j jmps IH]; intros c HF; cbn.
  { split_and!; try done. intros j H. by apply elem_of_nil in H. }
  inversion HF as [|? ? Hj HF']; subst.
  destruct (IH (patch c j (Jmp end_))) as (H1 & H2 & H3 & H4); [by rewrite here_patch|].
  fold (patch_jumps (patch c j (Jmp end_)) jmps end_) in *.
  rewrite here_patch in H1. split_and!; [done..| |].
  - intros k Hk. destruct (decide (k ∈ jmps)) as [Hin|Hnin]; [auto|].
    rewrite H4 by done. apply elem_of_cons in Hk as [->|Hk]; [by apply patch_at|done].
  - intros k Hk. rewrite elem_of_cons in Hk. rewrite H4 by tauto. apply patch_ne. naive_solver.
Qed.

(** A shape with holes: what the loop leaves before its jumps are patched. *)
Definition holed (c c' : Compiler) (holes : list nat) (shape : list Inst -> Prop) : Prop :=
  Forall (fun j => here c <= j < here c')%nat holes /\
  forall P, (forall i, (here c <= i < here c')%nat -> i ∉ holes -> P !! i = prog c' !! i) ->
    (forall j, j ∈ holes -> P !! j = Some (Jmp (here c'))) -> shape P.

Lemma patch_holed c c' holes shape :
  Ext c c' -> holed c c' holes shape ->
  let c'' := patch_jumps c' holes (here c') in Ext c c'' /\ here c'' = here c' /\ shape (prog c'').
Proof.
  intros HE [HF HS]. destruct (patch_jumps_spec holes (here c') c') as (H1 & H2 & H3 & H4).
  { eapply list.Forall_impl; [exact HF|]. intros j Hj. cbv beta in Hj. lia. }
  split_and!; [split|done|].
  - rewrite H2. apply HE.
  - rewrite H1. apply HE.
  - intros i Hi. rewrite H4; [by apply HE|]. intros Hin.
    apply list_elem_of_In in Hin. rewrite Forall_forall in HF. apply HF in Hin. lia.
  - apply HS; auto.
Qed.

(** ** Sequences and alternatives *)

Section compile_lists.
Context (k : list (nat * String.string) * bool * bool).
Context (rec : Node -> Compiler -> res Compiler) (at_node : list Inst -> Node -> nat -> nat -> Prop).

Definition rec_ok (n : Node) : Prop := forall c c', cfg c = k -> rec n c = Ok c' ->
  Ext c c' /\ at_node (prog c') n (here c) (here c').

Context (Hloc : forall n, local (fun P => at_node P n)).

(** Code laid out in [c] is still there in an extension. *)
Lemma at_node_ext n c c' a b :
  at_node (prog c) n a b -> (b <= here c)%nat -> Ext c c' -> at_node (prog c') n a b.
Proof using Hloc.
  intros H Hb HE. destruct (Hloc n (prog c) a b H) as [_ HL]. apply HL. by apply Ext_same.
Qed.

Lemma compile_seq_ok l : Forall rec_ok l -> forall c c', cfg c = k -> compile_seq rec l c = Ok c' ->
  Ext c c' /\ seq_at (at_node (prog c')) l (here c) (here c').
Proof using Hloc.
  induction 1 as [|n l Hn Hl IH]; intros c c' Hk H; cbn in H; [by injection H as <-|].
  res_inv H. apply Hn in E as [HE HA]; [|done].
  apply IH in H as [HE' HS]; [|by rewrite (ext_cfg _ _ HE)].
  split; [exact (Ext_trans _ _ _ HE HE')|]. exists (here c0). split; [|done]. by eapply at_node_ext.
Qed.

Lemma seq_rev_ext l : forall c c' a b,
  seq_rev_at (at_node (prog c)) l a b -> (b <= here c)%nat -> Ext c c' ->
  seq_rev_at (at_node (prog c')) l a b.
Proof using Hloc.
  induction l as [|n l IH]; intros c c' a b H Hb HE; cbn in *; [done|].
  destruct H as (m & H1 & H2). exists m.
  assert (m <= b)%nat by (destruct (Hloc n (prog c) m b H2); lia).
  split; [eapply IH; [done|lia|done]|by eapply at_node_ext].
Qed.

Lemma compile_seq_rev_ok l : Forall rec_ok l -> forall c c', cfg c = k ->
  compile_seq_rev rec l c = Ok c' ->
  Ext c c' /\ seq_rev_at (at_node (prog c')) l (here c) (here c').
Proof using Hloc.
  induction 1 as [|n l Hn Hl IH]; intros c c' Hk H; cbn in H; [by injection H as <-|].
  res_inv H. apply IH in E as [HE HA]; [|done].
  apply Hn in H as [HE' HS]; [|by rewrite (ext_cfg _ _ HE)].
  split; [exact (Ext_trans _ _ _ HE HE')|]. exists (here c0). split; [|done]. by eapply seq_rev_ext.
Qed.

Lemma emit_branches_ok l : Forall rec_ok l -> forall c jmps c' jmps', cfg c = k ->
  emit_branches rec l c jmps = Ok (c', jmps') ->
  Ext c c' /\ exists holes, jmps' = jmps ++ holes /\
    holed c c' holes (fun P => alt_at P (at_node P) l (here c') (here c)).
Proof using Hloc.
  induction 1 as [|n l Hn Hl IH]; intros c jmps c' jmps' Hk H; cbn in H.
  { injection H as <- <-. split; [done|]. exists []. rewrite app_nil_r. split; [done|].
    by split. }
  destruct l as [|n' l].
  { res_inv H. injection H as <- <-. apply Hn in E as [HE HA]; [|done]. split; [done|].
    exists []. rewrite app_nil_r. split; [done|]. split; [done|]. intros P HP _.
    destruct (Hloc n (prog c0) _ _ HA) as [_ HL]. apply HL. intros i Hi. apply HP; [done|].
    apply not_elem_of_nil. }
  res_inv H. rename c0 into c2. set (c1 := emit c (Split 0 0)) in *.
  set (c3 := emit c2 (Jmp 0)) in *. set (c4 := patch c3 (here c) (Split (here c1) (here c3))) in *.
  apply Hn in E as [HE HA]; [|done].
  pose proof (here_emit c (Split 0 0)) as L1. fold c1 in L1.
  pose proof (here_emit c2 (Jmp 0)) as L3. fold c3 in L3.
  pose proof (ext_here _ _ HE) as L2.
  assert (L4 : here c4 = here c3) by apply here_patch.
  assert (HE3 : Ext c1 c3) by (by apply Ext_emit_r).
  assert (HE4 : Ext c c4).
  { apply Ext_patch; [|lia]. eapply Ext_trans; [|exact HE3]. apply Ext_emit. }
  destruct (IH c4 (jmps ++ [here c2]) c' jmps') as (HE' & holes & -> & HF & HS);
    [by rewrite (ext_cfg _ _ HE4)|exact H|].
  pose proof (ext_here _ _ HE') as L5.
  split; [exact (Ext_trans _ _ _ HE4 HE')|]. exists (here c2 :: holes). rewrite <- app_assoc. split; [done|].
  split.
  - constructor; [lia|]. eapply list.Forall_impl; [exact HF|]. intros j Hj. cbv beta in Hj. lia.
  - intros P HP HJ.
    assert (Hold : forall i, (here c <= i < here c2)%nat -> P !! i = prog c' !! i).
    { intros i Hi. apply HP; [lia|]. rewrite elem_of_cons. intros [->|Hin]; [lia|].
      apply list_elem_of_In in Hin. rewrite Forall_forall in HF. apply HF in Hin. lia. }
    change (exists next, P !! here c = Some (Split (S (here c)) next) /\ (S (here c) < next)%nat /\
      at_node P n (S (here c)) (next - 1)%nat /\ P !! (next - 1)%nat = Some (Jmp (here c')) /\
      alt_at P (at_node P) (n' :: l) (here c') next).
    exists (here c3). split_and!; [|lia| | |].
    + rewrite Hold by lia. rewrite (ext_prog _ _ HE') by lia. unfold c4. rewrite patch_at by lia.
      by rewrite L1.
    + rewrite <- L1. replace (here c3 - 1)%nat with (here c2) by lia.
      destruct (Hloc n (prog c2) _ _ HA) as [_ HL]. apply HL. intros i Hi.
      rewrite Hold by lia. rewrite (ext_prog _ _ HE') by lia. unfold c4.
      rewrite patch_ne by lia. apply (ext_prog _ _ (Ext_emit c2 (Jmp 0))). lia.
    + replace (here c3 - 1)%nat with (here c2) by lia. apply HJ. by left.
    + rewrite <- L4. apply HS.
      * intros i Hi Hni. apply HP; [lia|]. rewrite elem_of_cons. intros [->|Hin]; [lia|done].
      * intros j Hj. apply HJ. by right.
Qed.

Lemma compile_alt_ok l c c' : Forall rec_ok l -> cfg c = k -> compile_alt rec l c = Ok c' ->
  Ext c c' /\ alt_at (prog c') (at_node (prog c')) l (here c') (here c).
Proof using Hloc.
  intros Hl Hk H. unfold compile_alt in H. apply bind_ok in H as ([c1 jmps] & E & H).
  injection H as <-. apply emit_branches_ok in E as (HE & holes & -> & HH); [|done..]. cbn [app].
  destruct (patch_holed _ _ _ _ HE HH) as (H1 & H2 & H3). rewrite H2. done.
Qed.

End compile_lists.

(** ** Class strings *)

Lemma emit_strings_ok last l : forall c jmps c' jmps',
  emit_strings c l jmps = Ok (c', jmps') ->
  Ext c c' /\ exists holes, jmps' = jmps ++ holes /\
    holed c (emit c' last) holes
      (fun P => strings_at P (c_unicode c) last l (here (emit c' last)) (here c)).
Proof.
  induction l as [|s l IH]; intros c jmps c' jmps' H; cbn in H.
  { injection H as <- <-. split; [done|]. exists []. rewrite app_nil_r. split; [done|].
    split; [constructor|]. intros P HP _. split; [|by rewrite here_emit].
    rewrite HP; [apply emit_at|rewrite here_emit; lia|apply not_elem_of_nil]. }
  set (c1 := emit c (Split 0 0)) in *. set (c2 := fold_left emit_char s c1) in *.
  set (c3 := emit c2 (Jmp 0)) in *. set (c4 := patch c3 (here c) (Split (here c1) (here c3))) in *.
  res_inv H. apply check_size_ok in E as ->.
  destruct (emit_literal s c1) as [HE HA]. fold c2 in HE, HA.
  pose proof (here_emit c (Split 0 0)) as L1. fold c1 in L1.
  pose proof (here_emit c2 (Jmp 0)) as L3. fold c3 in L3.
  pose proof (ext_here _ _ HE) as L2.
  assert (L4 : here c4 = here c3) by apply here_patch.
  assert (HE4 : Ext c c4).
  { apply Ext_patch; [|lia]. eapply Ext_trans; [apply Ext_emit|]. by apply Ext_emit_r. }
  apply IH in H as (HE' & holes & -> & HF & HS).
  pose proof (ext_here _ _ HE') as L5. pose proof (here_emit c' last) as L6.
  assert (Eu : c_unicode c4 = c_unicode c) by (pose proof (ext_cfg _ _ HE4) as Ec; by injection Ec).
  split; [exact (Ext_trans _ _ _ HE4 HE')|]. exists (here c2 :: holes). rewrite <- app_assoc. split; [done|].
  split.
  - constructor; [lia|]. eapply list.Forall_impl; [exact HF|]. intros j Hj. cbv beta in Hj. lia.
  - intros P HP HJ.
    assert (Hold : forall i, (here c <= i < here c2)%nat -> P !! i = prog c' !! i).
    { intros i Hi. rewrite <- (ext_prog _ _ (Ext_emit c' last)) by lia. apply HP; [lia|].
      rewrite elem_of_cons. intros [->|Hin]; [lia|].
      apply list_elem_of_In in Hin. rewrite Forall_forall in HF. apply HF in Hin. lia. }
    exists (here c3). split_and!; [|lia| | |].
    + rewrite Hold by lia. rewrite (ext_prog _ _ HE') by lia. unfold c4. rewrite patch_at by lia.
      by rewrite L1.
    + rewrite <- L1. replace (here c3 - 1)%nat with (here c2) by lia.
      destruct (local_chars _ _ _ _ HA) as [_ HL]. apply HL. intros i Hi.
      rewrite Hold by lia. rewrite (ext_prog _ _ HE') by lia. unfold c4.
      rewrite patch_ne by lia. apply (ext_prog _ _ (Ext_emit c2 (Jmp 0))). lia.
    + replace (here c3 - 1)%nat with (here c2) by lia. apply HJ. by left.
    + rewrite <- Eu, <- L4. apply HS.
      * intros i Hi Hni. apply HP; [lia|]. rewrite elem_of_cons. intros [->|Hin]; [lia|done].
      * intros j Hj. apply HJ. by right.
Qed.

Lemma compile_class_set_ok c neg set c' : compile_class_set c neg set = Ok c' ->
  Ext c c' /\ strings_at (prog c') (c_unicode c) (ClassSet neg (build_set_matcher set))
    (sort_longest (class_strings set)) (here c') (here c).
Proof.
  unfold compile_class_set. intros H.
  destruct (neg && negb (bool_decide (class_strings set = []))); [done|].
  assert (Hn : class_strings set = [] \/ exists c1 jmps,
    emit_strings c (sort_longest (class_strings set)) [] = Ok (c1, jmps) /\
    c' = patch_jumps (emit c1 (ClassSet neg (build_set_matcher set))) jmps
           (here (emit c1 (ClassSet neg (build_set_matcher set))))).
  { destruct (class_strings set); [by left|right].
    apply bind_ok in H as ([c1 jmps] & E & H). injection H as <-. eauto. }
  destruct Hn as [En|(c1 & jmps & E & ->)].
  - rewrite En in *. injection H as <-. split; [apply Ext_emit|].
    split; [apply emit_at|apply here_emit].
  - apply (emit_strings_ok (ClassSet neg (build_set_matcher set))) in E as (HE & holes & -> & HH).
    cbn [app]. destruct (patch_holed _ _ _ _ (Ext_emit_r _ _ _ HE) HH) as (H1 & H2 & H3).
    rewrite H2. done.
Qed.

(** ** Quantifiers *)

Lemma local_ext at_ c c' a b :
  local at_ -> at_ (prog c) a b -> (b <= here c)%nat -> Ext c c' -> at_ (prog c') a b.
Proof. intros HL H Hb HE. apply HL in H as [_ H]. apply H. by apply Ext_same. Qed.

Lemma emit_clear_ok c inner :
  Ext c (emit_clear_captures c inner) /\
  clear_at (prog (emit_clear_captures c inner)) inner (here c) (here (emit_clear_captures c inner)).
Proof.
  unfold emit_clear_captures, clear_at. destruct (group_slot_range inner) as [[lo hi]|]; [|done].
  split; [done|]. split; [apply emit_at|apply here_emit].
Qed.

(** The splits of the chain, patched once its end is known. *)
Definition patch_splits (greedy : bool) (exit : nat) (splits : list (nat * nat)) (c : Compiler) : Compiler :=
  fold_left (fun c (p : nat * nat) =>
    patch c p.1 (if greedy then Split p.2 exit else Split exit p.2)) splits c.

Lemma patch_splits_spec greedy exit splits : forall c,
  Forall (fun p => p.2 = S p.1 /\ p.1 < here c)%nat splits ->
  let c' := patch_splits greedy exit splits c in
  here c' = here c /\ cfg c' = cfg c /\
  (forall p, p ∈ splits -> prog c' !! p.1 = Some (split_to greedy (S p.1) exit)) /\
  (forall i, i ∉ map fst splits -> prog c' !! i = prog c !! i).
Proof.
  induction splits as [|q splits IH]; intros c HF; cbn.
  { split_and!; try done. intros p H. by apply elem_of_nil in H. }
  inversion HF as [|? ? [Eq Hq] HF']; subst.
  destruct (IH (patch c q.1 (if greedy then Split q.2 exit else Split exit q.2)))
    as (H1 & H2 & H3 & H4); [by rewrite here_patch|].
  fold (patch_splits greedy exit splits (patch c q.1 (if greedy then Split q.2 exit else Split exit q.2))) in *.
  rewrite here_patch in H1. split_and!; [done..| |].
  - intros p Hp. destruct (decide (p.1 ∈ map fst splits)) as [Hin|Hnin].
    + apply list_elem_of_fmap in Hin as (p' & -> & Hin). auto.
    + rewrite H4 by done. apply elem_of_cons in Hp as [->|Hp].
      * rewrite patch_at by done. rewrite Eq. by destruct greedy.
      * destruct Hnin. apply list_elem_of_fmap. eauto.
  - intros i Hi. rewrite elem_of_cons in Hi. rewrite H4 by tauto. apply patch_ne. naive_solver.
Qed.

Section compile_repeat.
Context (k : list (nat * String.string) * bool * bool) (inner : Node).
Context (body : Compiler -> res Compiler) (B : list Inst -> nat -> nat -> Prop) (HL : local B).
Context (Hbody : forall c c', cfg c = k -> body c = Ok c' ->
  Ext c c' /\ B (prog c') (here c) (here c')).

Lemma one_copy_ok c c' : cfg c = k -> body (emit_clear_captures c inner) = Ok c' ->
  Ext c c' /\ copy_at (prog c') inner (B (prog c')) (here c) (here c').
Proof using Hbody.
  intros Hk H. destruct (emit_clear_ok c inner) as [HE HC].
  apply Hbody in H as [HE' HB]; [|by rewrite (ext_cfg _ _ HE)].
  split; [exact (Ext_trans _ _ _ HE HE')|]. eexists. split; [|exact HB].
  apply (local_ext (fun P => clear_at P inner) _ _ _ _ (local_clear inner) HC); done.
Qed.

Lemma compile_copies_ok n : forall c c', cfg c = k -> compile_copies inner body n c = Ok c' ->
  Ext c c' /\ copies_at (prog c') inner (B (prog c')) n (here c) (here c').
Proof using Hbody HL.
  induction n as [|n IH]; intros c c' Hk H; cbn in H; [by injection H as <-|].
  res_inv H. apply one_copy_ok in E as [HE HC]; [|done].
  apply IH in H as [HE' HCs]; [|by rewrite (ext_cfg _ _ HE)].
  split; [exact (Ext_trans _ _ _ HE HE')|]. exists (here c0). split; [|done].
  apply (local_ext (fun P => copy_at P inner (B P)) _ _ _ _ (local_copy inner B HL) HC); done.
Qed.

Lemma compile_guarded_ok c c' : cfg c = k -> compile_guarded inner body c = Ok c' ->
  Ext c c' /\ guarded_at (prog c') inner (B (prog c')) (here c) (here c').
Proof using Hbody HL.
  intros Hk H. unfold compile_guarded in H. unfold guarded_at.
  destruct (can_match_empty inner); res_inv H; injection H as <-.
  - apply one_copy_ok in E as [HE HC]; [|done].
    pose proof (here_emit c Mark) as L1. rewrite L1 in HC. pose proof (ext_here _ _ HE).
    split; [apply Ext_emit_r; exact (Ext_trans _ _ _ (Ext_emit _ _) HE)|].
    exists (here c0). split_and!.
    + rewrite (ext_prog _ _ (Ext_emit c0 EmptyFail)) by lia.
      rewrite (ext_prog _ _ HE) by lia. apply emit_at.
    + apply (local_ext (fun P => copy_at P inner (B P)) _ _ _ _ (local_copy inner B HL) HC); done.
    + split; [apply emit_at|apply here_emit].
  - by apply one_copy_ok.
Qed.

Lemma compile_star_ok greedy c c' : cfg c = k -> compile_star inner body greedy c = Ok c' ->
  Ext c c' /\ star_at (prog c') inner (B (prog c')) greedy (here c) (here c').
Proof using Hbody HL.
  intros Hk H. unfold compile_star in H. res_inv H. rename c0 into c2.
  set (c1 := emit c (Split 0 0)) in *. injection H as <-.
  set (c3 := emit c2 (Jmp (here c))).
  apply compile_guarded_ok in E as [HE HG]; [|done].
  pose proof (here_emit c (Split 0 0)) as L1. fold c1 in L1.
  pose proof (here_emit c2 (Jmp (here c))) as L3. fold c3 in L3.
  pose proof (ext_here _ _ HE) as L2.
  assert (HE3 : Ext c c3) by (apply Ext_emit_r; exact (Ext_trans _ _ _ (Ext_emit _ _) HE)).
  split; [by apply Ext_patch|]. rewrite here_patch. exists (here c2). split_and!.
  - rewrite patch_at by lia. rewrite L1. by destruct greedy.
  - rewrite <- L1. destruct (local_guarded inner B HL _ _ _ HG) as [_ HG']. apply HG'.
    intros i Hi. rewrite patch_ne by lia. apply (ext_prog _ _ (Ext_emit c2 _)). lia.
  - split; [|done]. rewrite patch_ne by lia. apply emit_at.
Qed.

Lemma emit_chain_ok greedy n : forall c splits c' splits', cfg c = k ->
  emit_chain inner body n c splits = Ok (c', splits') ->
  Ext c c' /\ exists holes, splits' = splits ++ holes /\
    Forall (fun p => p.2 = S p.1 /\ here c <= p.1 < here c')%nat holes /\
    forall P, (forall i, (here c <= i < here c')%nat -> i ∉ map fst holes -> P !! i = prog c' !! i) ->
      (forall p, p ∈ holes -> P !! p.1 = Some (split_to greedy (S p.1) (here c'))) ->
      chain_at P inner (B P) greedy n (here c') (here c).
Proof using Hbody HL.
  induction n as [|n IH]; intros c splits c' splits' Hk H; cbn in H.
  { injection H as <- <-. split; [done|]. exists []. rewrite app_nil_r. done. }
  res_inv H. rename c0 into c2. set (c1 := emit c (Split 0 0)) in *.
  apply compile_guarded_ok in E as [HE HG]; [|done].
  pose proof (here_emit c (Split 0 0)) as L1. fold c1 in L1.
  pose proof (ext_here _ _ HE) as L2.
  assert (HE2 : Ext c c2) by exact (Ext_trans _ _ _ (Ext_emit _ _) HE).
  apply IH in H as (HE' & holes & -> & HF & HS); [|by rewrite (ext_cfg _ _ HE2)].
  pose proof (ext_here _ _ HE') as L3.
  split; [exact (Ext_trans _ _ _ HE2 HE')|]. exists ((here c, here c1) :: holes).
  rewrite <- app_assoc. split; [done|]. split.
  { constructor; [cbn; lia|]. eapply list.Forall_impl; [exact HF|]. intros p Hp. cbv beta in Hp. lia. }
  assert (Hnh : forall i, (i < here c2)%nat -> i ∉ map fst holes).
  { intros i Hi Hin. apply list_elem_of_fmap in Hin as (p & -> & Hp).
    apply list_elem_of_In in Hp. rewrite Forall_forall in HF. apply HF in Hp. lia. }
  intros P HP HJ. exists (here c2). split_and!.
  - apply (HJ (here c, here c1)). by left.
  - rewrite <- L1. destruct (local_guarded inner B HL _ _ _ HG) as [_ HG']. apply HG'.
    intros i Hi. rewrite HP; [apply (ext_prog _ _ HE'); lia|lia|].
    cbn. rewrite elem_of_cons. intros [->|Hin]; [lia|]. by apply (Hnh i); [lia|].
  - apply HS.
    + intros i Hi Hni. apply HP; [lia|]. cbn. rewrite elem_of_cons. intros [->|Hin]; [lia|done].
    + intros p Hp. apply HJ. by right.
Qed.

Lemma compile_optional_chain_ok greedy n c c' : cfg c = k ->
  compile_optional_chain inner body n greedy c = Ok c' ->
  Ext c c' /\ chain_at (prog c') inner (B (prog c')) greedy n (here c') (here c).
Proof using Hbody HL.
  intros Hk H. unfold compile_optional_chain in H.
  apply bind_ok in H as ([c1 splits] & E & H). injection H as <-.
  apply (emit_chain_ok greedy) in E as (HE & holes & -> & HF & HS); [|done]. cbn [app].
  fold (patch_splits greedy (here c1) holes c1).
  destruct (patch_splits_spec greedy (here c1) holes c1) as (H1 & H2 & H3 & H4).
  { eapply list.Forall_impl; [exact HF|]. intros p Hp. cbv beta in Hp. lia. }
  rewrite H1. split; [split|].
  - rewrite H2. apply HE.
  - rewrite H1. apply HE.
  - intros i Hi. rewrite H4; [by apply HE|]. intros Hin.
    apply list_elem_of_fmap in Hin as (p & -> & Hp).
    apply list_elem_of_In in Hp. rewrite Forall_forall in HF. apply HF in Hp. lia.
  - apply HS; [|exact H3]. intros i _ Hni. by apply H4.
Qed.

Lemma compile_repeat_ok min max greedy c c' : cfg c = k ->
  compile_repeat inner body min max greedy c = Ok c' ->
  Ext c c' /\
  if negb (can_match_empty inner) && (MAX_STRING_LEN <? min) then inst_at (prog c') Fail_ (here c) (here c')
  else exists m, copies_at (prog c') inner (B (prog c')) (Z.to_nat min) (here c) m /\
    match kept_max inner max with
    | None => star_at (prog c') inner (B (prog c')) greedy m (here c')
    | Some mx => chain_at (prog c') inner (B (prog c')) greedy (Z.to_nat (mx - min)) (here c') m
    end.
Proof using Hbody HL.
  intros Hk H. unfold compile_repeat in H. unfold kept_max.
  destruct (negb (can_match_empty inner) && (MAX_STRING_LEN <? min)).
  { apply check_size_ok in H as ->. split; [done|]. split; [apply emit_at|apply here_emit]. }
  match type of H with match ?m with _ => _ end = _ => set (mx := m) in *; change
    (Ext c c' /\ exists m0, copies_at (prog c') inner (B (prog c')) (Z.to_nat min) (here c) m0 /\
    match mx with
    | None => star_at (prog c') inner (B (prog c')) greedy m0 (here c')
    | Some mx => chain_at (prog c') inner (B (prog c')) greedy (Z.to_nat (mx - min)) (here c') m0
    end) end.
  assert (HCs : forall c1, Ext c1 c' -> copies_at (prog c1) inner (B (prog c1)) (Z.to_nat min) (here c) (here c1) ->
    copies_at (prog c') inner (B (prog c')) (Z.to_nat min) (here c) (here c1)).
  { intros c1 HE HC. apply (local_ext (fun P => copies_at P inner (B P) (Z.to_nat min)) c1 c' _ _
      (local_copies inner B HL (Z.to_nat min)) HC); done. }
  destruct mx as [mx|].
  - res_inv H. cbv zeta in H. destruct (MAX_PROG_SIZE <? _); [done|].
    res_inv H. destruct (mx <? min); [done|].
    apply compile_copies_ok in E0 as [HE1 HC]; [|done].
    apply compile_optional_chain_ok in H as [HE2 HO]; [|by rewrite (ext_cfg _ _ HE1)].
    split; [exact (Ext_trans _ _ _ HE1 HE2)|]. exists (here c1). auto.
  - res_inv H. apply compile_copies_ok in E as [HE1 HC]; [|done].
    apply compile_star_ok in H as [HE2 HO]; [|by rewrite (ext_cfg _ _ HE1)].
    split; [exact (Ext_trans _ _ _ HE1 HE2)|]. exists (here c0). auto.
Qed.

End compile_repeat.

(** ** Every node *)

Lemma one_inst c i : Ext c (emit c i) /\ inst_at (prog (emit c i)) i (here c) (here (emit c i)).
Proof. split; [done|]. split; [apply emit_at|apply here_emit]. Qed.

Lemma one_inst_groups c g i : Ext c (emit (max_groups c g) i) /\
  inst_at (prog (emit (max_groups c g) i)) i (here c) (here (emit (max_groups c g) i)).
Proof.
  split; [apply Ext_emit_r, Ext_max_groups|].
  split; [apply (emit_at (max_groups c g))|apply (here_emit (max_groups c g))].
Qed.

Lemma compile_code n : forall cc c', compile n cc = Ok c' ->
  Ext cc c' /\ code_at (group_names cc) (c_unicode cc) (prog c') (reverse cc) n (here cc) (here c').
Proof.
  induction n using Node_induction; intros cc cc' HC; cbn [compile] in HC;
    apply bind_ok in HC as (c1 & E & HC); cbv beta in HC; apply check_size_ok in HC as ->;
    try (injection E as <-).
  - done.
  - destruct (emit_literal [c] cc) as [HE HL]. exact (conj HE HL).
  - apply one_inst.
  - apply one_inst.
  - apply compile_class_set_ok in E. exact E.
  - apply one_inst.
  - apply one_inst.
  - apply one_inst.
  - destruct index as [idx|]; [|by apply IHn].
    set (c0 := max_groups cc idx) in *.
    assert (Hg : exists o k c2, (o, k) = (if reverse cc then (2 * idx + 1, 2 * idx) else (2 * idx, 2 * idx + 1))%nat /\
      compile n (emit c0 (Save o)) = Ok c2 /\ c1 = emit c2 (Save k)).
    { change (reverse c0) with (reverse cc) in E.
      destruct (reverse cc); res_inv E; injection E as <-; eauto 6. }
    destruct Hg as (o & k & c2 & Hok & Ec & ->).
    apply IHn in Ec as [HE HA]. pose proof (here_emit c0 (Save o)) as L1.
    change (here c0) with (here cc) in L1. rewrite L1 in HA. pose proof (ext_here _ _ HE).
    split.
    { apply Ext_emit_r. eapply Ext_trans; [|exact HE]. apply Ext_emit_r, Ext_max_groups. }
    exists (here c2). split_and!.
    + rewrite (ext_prog _ _ (Ext_emit c2 _)) by lia. rewrite (ext_prog _ _ HE) by lia.
      change (here cc) with (here c0). rewrite emit_at. by destruct (reverse cc); injection Hok as -> ->.
    + eapply code_at_same; [exact HA|]. by apply Ext_same.
    + split; [|apply here_emit]. rewrite emit_at. by destruct (reverse cc); injection Hok as -> ->.
  - res_inv E. injection E as <-. apply IHn in E0 as [HE HA].
    set (i0 := PushFlags _) in *. pose proof (here_emit cc i0) as L1. rewrite L1 in HA.
    pose proof (ext_here _ _ HE).
    split; [apply Ext_emit_r; exact (Ext_trans _ _ _ (Ext_emit _ _) HE)|].
    exists (here c). split_and!.
    + rewrite (ext_prog _ _ (Ext_emit c _)) by lia. rewrite (ext_prog _ _ HE) by lia. apply emit_at.
    + eapply code_at_same; [exact HA|]. by apply Ext_same.
    + split; [apply emit_at|apply here_emit].
  - res_inv E. injection E as <-. apply IHn in E0 as [HE HA].
    split; [apply Ext_emit_r, Ext_max_groups|].
    exists (prog (emit c Match)), (here c). split_and!.
    + apply (one_inst_groups cc).
    + eapply code_at_same; [exact HA|]. by apply Ext_same.
    + apply emit_at.
  - res_inv E. injection E as <-. apply IHn in E0 as [HE HA].
    split; [apply Ext_emit_r, Ext_max_groups|].
    exists (prog (emit c Match)), (here c). split_and!.
    + apply (one_inst_groups cc).
    + eapply code_at_same; [exact HA|]. by apply Ext_same.
    + apply emit_at.
  - apply one_inst_groups.
  - cbn [code_at]. unfold backref_inst. set (l := name_indices (group_names cc) name) in *.
    destruct l as [|g [|g' l']]; injection E as <-;
      first [apply one_inst|apply one_inst_groups].
  - assert (HF : Forall (rec_ok (cfg cc) compile
      (fun P n => code_at (group_names cc) (c_unicode cc) P (reverse cc) n)) l).
    { eapply list.Forall_impl; [exact H|]. intros n Hn c2 c3 Hk H3. cbv beta in Hn. apply Hn in H3.
      injection Hk as E1 E2 E3. by rewrite E1, E2, E3 in H3. }
    cbn [code_at]. destruct (reverse cc) eqn:Er.
    + eapply (compile_seq_rev_ok _ _ (fun P n => code_at (group_names cc) (c_unicode cc) P true n) (fun n => local_code _ _ n true)); [exact HF|done|exact E].
    + eapply (compile_seq_ok _ _ (fun P n => code_at (group_names cc) (c_unicode cc) P false n) (fun n => local_code _ _ n false)); [exact HF|done|exact E].
  - assert (HF : Forall (rec_ok (cfg cc) compile
      (fun P n => code_at (group_names cc) (c_unicode cc) P (reverse cc) n)) l).
    { eapply list.Forall_impl; [exact H|]. intros n Hn c2 c3 Hk H3. cbv beta in Hn. apply Hn in H3.
      injection Hk as E1 E2 E3. by rewrite E1, E2, E3 in H3. }
    cbn [code_at].
    eapply (compile_alt_ok _ _ (fun P n => code_at (group_names cc) (c_unicode cc) P (reverse cc) n)
      (fun n => local_code _ _ n _)); [exact HF|done|exact E].
  - apply (compile_repeat_ok (cfg cc) n (compile n)
      (fun P => code_at (group_names cc) (c_unicode cc) P (reverse cc) n)
      (local_code _ _ n _)) in E; [exact E| |done].
    intros c2 c3 Hk H3. apply IHn in H3. injection Hk as E1 E2 E3. by rewrite E1, E2, E3 in H3.
Qed.

End Code.
