(* ===== verification/RegexRun.v ===== *)
(** * The compiled code does what the pattern means

    On the machine of threads ([RunN] in [RegexSem.v]), the code of a node turns
    the thread that enters it into the threads of all the ways the node matches,
    in order, at the end of the code. *)

From S2P Require Import Prelude Regex RegexComp RegexVm RegexSem RegexRuns RegexCode.

Open Scope Z_scope.

#[local] Arguments Nat.mul : simpl never.
#[local] Arguments Nat.add : simpl never.
#[local] Arguments Nat.div2 : simpl never.

Section Predicates.
Context `{U : UnicodeData}.

(** ** The Latin-1 bitmap of a class *)

Lemma latin1_test_bit map c :
  latin1_test map c = Z.testbit (default 0 (map !! Z.to_nat (Z.shiftr c 6))) (Z.land c 63).
Proof.
  unfold latin1_test. set (w := default 0 _). set (b := Z.land c 63).
  assert (Hb : 0 <= b) by (apply Z.land_nonneg; lia).
  destruct (Z.testbit w b) eqn:E.
  - apply negb_true_iff, Z.eqb_neq. intros H. apply (f_equal (fun z => Z.testbit z b)) in H.
    rewrite Z.land_spec, E, Z.shiftl_spec, Z.sub_diag, Z.bits_0 in H by lia. done.
  - apply negb_false_iff, Z.eqb_eq, Z.bits_inj'. intros k Hk.
    rewrite Z.land_spec, Z.bits_0, Z.shiftl_spec by lia.
    destruct (Z.eq_dec k b) as [->|Hne]; [by rewrite E|].
    destruct (Z.lt_ge_cases k b); [by rewrite (Z.testbit_neg_r 1) by lia; apply andb_false_r|].
    replace 1 with (2 ^ 0) by done. rewrite (Z.pow2_bits_false 0) by lia. apply andb_false_r.
Qed.

Lemma latin1_index c : 0 <= c < 256 -> (Z.to_nat (Z.shiftr c 6) < 4)%nat.
Proof.
  intros H. rewrite Z.shiftr_div_pow2 by lia. change (2 ^ 6) with 64. div_lia.
Qed.

Lemma latin1_same c c' : 0 <= c < 256 -> 0 <= c' < 256 ->
  Z.to_nat (Z.shiftr c 6) = Z.to_nat (Z.shiftr c' 6) -> Z.land c 63 = Z.land c' 63 -> c = c'.
Proof.
  intros H H'. rewrite !Z.shiftr_div_pow2 by lia. change 63 with (Z.ones 6).
  rewrite !Z.land_ones by lia. change (2 ^ 6) with 64. div_lia.
Qed.

Lemma latin1_set_test map c c' : length map = 4%nat -> 0 <= c < 256 -> 0 <= c' < 256 ->
  latin1_test (latin1_set map c') c = (c =? c') || latin1_test map c.
Proof.
  intros Hl Hc Hc'. rewrite !latin1_test_bit. unfold latin1_set.
  pose proof (latin1_index c Hc) as Hi. pose proof (latin1_index c' Hc') as Hi'.
  assert (Hb : 0 <= Z.land c 63) by (apply Z.land_nonneg; lia).
  assert (Hb' : 0 <= Z.land c' 63) by (apply Z.land_nonneg; lia).
  destruct (decide (Z.to_nat (Z.shiftr c' 6) = Z.to_nat (Z.shiftr c 6))) as [E|E].
  - rewrite E. rewrite list_lookup_alter_eq.
    destruct (lookup_lt_is_Some_2 map (Z.to_nat (Z.shiftr c 6)) ltac:(lia)) as [w ->].
    cbn. rewrite Z.lor_spec, Z.shiftl_spec by lia.
    destruct (Z.eqb_spec c c') as [->|Hne].
    + rewrite Z.sub_diag. cbn. by rewrite orb_true_r.
    + assert (Z.land c 63 <> Z.land c' 63) by (intros Eb; by apply Hne, latin1_same).
      destruct (Z.lt_ge_cases (Z.land c 63) (Z.land c' 63)).
      * rewrite (Z.testbit_neg_r 1) by lia. by rewrite orb_false_r.
      * replace 1 with (2 ^ 0) by done. rewrite (Z.pow2_bits_false 0) by lia. by rewrite orb_false_r.
  - rewrite list_lookup_alter_ne by done. destruct (Z.eqb_spec c c') as [->|]; [done|]. done.
Qed.

(** Adding the code points of [l] that [p] accepts to a bitmap. *)
Definition latin1_add (p : Z -> bool) (l : list Z) (map : list Z) : list Z :=
  fold_left (fun map c => if p c then latin1_set map c else map) l map.

Lemma latin1_add_length p l : forall map, length (latin1_add p l map) = length map.
Proof.
  induction l as [|x l IH]; intros map; cbn; [done|]. unfold latin1_add in IH. rewrite IH.
  destruct (p x); [|done]. unfold latin1_set. by rewrite length_alter.
Qed.

Lemma latin1_add_test p c l : 0 <= c < 256 -> forall map, length map = 4%nat ->
  Forall (fun c' => 0 <= c' < 256) l ->
  latin1_test (latin1_add p l map) c = (bool_decide (c ∈ l) && p c) || latin1_test map c.
Proof.
  intros Hc. induction l as [|x l IH]; intros map Hm HF; cbn.
  { by rewrite bool_decide_false by (apply not_elem_of_nil). }
  inversion HF; subst. unfold latin1_add in IH.
  rewrite IH by first [done | case_match; [unfold latin1_set; by rewrite length_alter|done]].
  assert (Em : latin1_test (if p x then latin1_set map x else map) c =
    ((c =? x) && p c) || latin1_test map c).
  { destruct (Z.eqb_spec c x) as [->|Hne]; destruct (p x) eqn:Ep; cbn; try done.
    - rewrite latin1_set_test by done. by rewrite Z.eqb_refl.
    - rewrite latin1_set_test by done. by apply Z.eqb_neq in Hne as ->. }
  rewrite Em. destruct (Z.eqb_spec c x) as [->|Hne].
  - rewrite (bool_decide_true (x ∈ x :: l)) by (by left). destruct (bool_decide (x ∈ l)), (p x); done.
  - assert (Ed : bool_decide (c ∈ x :: l) = bool_decide (c ∈ l)).
    { apply bool_decide_ext. rewrite elem_of_cons. tauto. }
    rewrite Ed. done.
Qed.

Lemma latin1_range_ok : Forall (fun c => 0 <= c < 256) latin1_range.
Proof.
  unfold latin1_range. apply Forall_forall. intros x Hx. apply in_map_iff in Hx as (y & <- & Hy).
  apply in_seq in Hy. lia.
Qed.

Lemma latin1_range_elem c : 0 <= c < 256 -> bool_decide (c ∈ latin1_range) = true.
Proof.
  intros Hc. apply bool_decide_true. unfold latin1_range. apply list_elem_of_fmap.
  exists (Z.to_nat c). split; [lia|]. apply elem_of_seq. lia.
Qed.

Lemma latin1_build_length p : length (latin1_build p) = 4%nat.
Proof.
  unfold latin1_build. generalize latin1_range as l. intros l.
  transitivity (length (latin1_add p l [0; 0; 0; 0])); [reflexivity|]. by rewrite latin1_add_length.
Qed.

Lemma latin1_build_test p c : 0 <= c < 256 -> latin1_test (latin1_build p) c = p c.
Proof.
  intros Hc. unfold latin1_build. generalize latin1_range_ok, (latin1_range_elem c Hc).
  generalize latin1_range as l. intros l Hl He. fold (latin1_add p l [0; 0; 0; 0]).
  rewrite latin1_add_test by done. rewrite He.
  replace (latin1_test [0; 0; 0; 0] c) with false; [by destruct (p c)|].
  rewrite latin1_test_bit. pose proof (latin1_index c Hc).
  destruct (Z.to_nat (Z.shiftr c 6)) as [|[|[|[|n]]]]; cbn; by rewrite Z.bits_0.
Qed.

Lemma member_no_fold c f m : ignore_case f = false ->
  member_matches c f m = member_matches c default_flags m.
Proof.
  intros Hf. destruct m as [ch|lo hi|[]]; cbn [member_matches].
  - unfold cp_eq. by rewrite Hf.
  - by rewrite Hf.
  - done.
  - done.
  - cbn. unfold is_word_flags. by rewrite Hf.
  - cbn. unfold is_word_flags. by rewrite Hf.
  - done.
  - done.
  - cbn. by rewrite Hf, !andb_false_r.
Qed.

Lemma leaf_no_fold ms c f : ignore_case f = false ->
  leaf_members_match ms c f = leaf_members_match ms c default_flags.
Proof.
  intros Hf. unfold leaf_members_match. induction ms as [|m ms IH]; cbn; [done|].
  by rewrite IH, member_no_fold.
Qed.

(** Testing the bitmap or walking the members of a class is the same. *)
Lemma class_matches_members b ms c f : 0 <= c ->
  class_matches (class_new b ms) c f = xorb (leaf_members_match ms c f) b.
Proof.
  intros Hc. unfold class_matches, class_new. cbn [members neg latin1].
  destruct ((c <? 256) && negb (ignore_case f)) eqn:E; [|reflexivity].
  apply andb_true_iff in E as [E1%Z.ltb_lt E2%negb_true_iff].
  rewrite latin1_build_test by lia. by rewrite (leaf_no_fold ms c f E2).
Qed.

(** ** Sets *)

Lemma existsb_map {A B} (g : A -> B) (p : B -> bool) l : existsb p (map g l) = existsb (fun x => p (g x)) l.
Proof. induction l as [|x l IH]; cbn; [done|]. by rewrite IH. Qed.

Lemma build_set_matcher_spec : forall e c f, set_matches (build_set_matcher e) c f = set_member e c f.
Proof.
  fix IH 1. intros e c f. destruct e as [kids|kids|kids|items|l|inner]; cbn.
  - induction kids as [|k kids IHk]; cbn; [done|]. by rewrite IH, IHk.
  - induction kids as [|k kids IHk]; cbn; [done|]. by rewrite IH, IHk.
  - destruct kids as [|k kids]; cbn; [done|]. rewrite IH. do 2 f_equal.
    induction kids as [|k' kids IHk]; cbn; [done|]. by rewrite IH, IHk.
  - unfold leaf_members_match. by rewrite existsb_map.
  - unfold leaf_members_match. induction l as [|[|ch [|ch' s]] l IHl]; cbn; [done|..]; try done.
    by rewrite IHl.
  - by rewrite IH.
Qed.

(** ** The subject *)

Definition subject_ok (input : list Z) : Prop := Forall (fun u => 0 <= u < 65536) input.

Lemma read_dir_nonneg input sp uni rev cp nsp :
  subject_ok input -> read_dir input sp uni rev = Some (cp, nsp) -> 0 <= cp.
Proof.
  intros HF H.
  assert (Hu : forall i u, input !! i = Some u -> 0 <= u).
  { intros i u Hi. apply list_elem_of_lookup_2, list_elem_of_In in Hi.
    unfold subject_ok in HF. rewrite Forall_forall in HF. apply HF in Hi. lia. }
  assert (Hp : forall hi lo, is_high_surrogate hi = true -> is_low_surrogate lo = true ->
    0 <= pair_cp hi lo).
  { intros hi lo H1%in_range_true H2%in_range_true. unfold pair_cp.
    rewrite Z.shiftl_mul_pow2 by lia. lia. }
  unfold read_dir in H. destruct rev.
  - destruct (read_cp_back input sp uni) as [[c len]|] eqn:E; [|done]. injection H as <- <-.
    unfold read_cp_back in E. repeat case_match; simplify_eq; eauto.
    match goal with H : _ && _ = true |- _ => apply andb_true_iff in H as [_ H]; auto end.
  - destruct (read_cp input sp uni) as [[c len]|] eqn:E; [|done]. injection H as <- <-.
    unfold read_cp in E. repeat case_match; simplify_eq; eauto.
    match goal with H : _ && _ = true |- _ => apply andb_true_iff in H as [_ H]; auto end.
Qed.

Lemma assert_ok_Some a input sp f : (sp <= length input)%nat -> is_Some (assert_ok a input sp f).
Proof.
  intros H. assert (HS : forall i, (i < length input)%nat -> is_Some (input !! i)).
  { intros i Hi. by apply lookup_lt_is_Some. }
  assert (Hb : is_Some (is_boundary input sp f)).
  { unfold is_boundary. destruct (Nat.ltb_spec sp (length input)).
    - destruct (HS sp ltac:(lia)) as [u ->]. destruct sp as [|p]; cbn; [eauto|].
      destruct (HS p ltac:(lia)) as [v ->]. cbn. eauto.
    - destruct sp as [|p]; cbn; [eauto|]. destruct (HS p ltac:(lia)) as [v ->]. cbn. eauto. }
  destruct a; cbn.
  - destruct sp as [|p]; [eauto|]. destruct (multiline f); [|eauto].
    destruct (HS p ltac:(lia)) as [v ->]. cbn. eauto.
  - destruct (Nat.eqb_spec sp (length input)); [eauto|]. destruct (multiline f); [|eauto].
    destruct (HS sp ltac:(lia)) as [v ->]. cbn. eauto.
  - done.
  - destruct Hb as [b ->]. cbn. eauto.
Qed.

(** ** Clearing the captures of an atom *)

Lemma group_walk_fold n : forall b, group_walk n b = fold_left meet_group (node_groups n) b.
Proof.
  induction n using Node_induction; intros b; cbn; try done.
  - destruct index as [idx|]; cbn; apply IHn.
  - revert b. induction H as [|n l Hn Hl IH]; intros b; cbn; [done|]. by rewrite fold_left_app, <- Hn, IH.
  - revert b. induction H as [|n l Hn Hl IH]; intros b; cbn; [done|]. by rewrite fold_left_app, <- Hn, IH.
Qed.

Lemma meet_seq m : forall k lo hi, (lo <= k)%nat -> hi = (k - 1)%nat -> (1 <= k)%nat ->
  fold_left meet_group (seq k m) (Some (lo, hi)) = Some (lo, (k + m - 1)%nat).
Proof.
  induction m as [|m IH]; intros k lo hi Hlo Hhi Hk; cbn.
  - do 2 f_equal. lia.
  - rewrite IH by lia. do 2 f_equal; lia.
Qed.

(** The groups of a node are numbered without gaps, in the order they open. *)
Definition numbered (n : Node) : Prop := exists k m, (1 <= k)%nat /\ node_groups n = seq k m.

Lemma numbered_range n : numbered n ->
  match group_slot_range n with
  | None => node_groups n = []
  | Some (lo, hi) => exists k m, node_groups n = seq k (S m) /\ lo = (2 * k)%nat /\ hi = (2 * (k + m) + 1)%nat
  end.
Proof.
  intros (k & m & Hk & E). unfold group_slot_range. rewrite group_walk_fold, E.
  destruct m as [|m]; [done|]. cbn [seq fold_left meet_group]. rewrite meet_seq by lia.
  exists k, m. split; [done|]. split; lia.
Qed.

Lemma clear_slots_lookup n : forall sv lo i,
  clear_slots sv lo n !! i =
    if (lo <=? i)%nat && (i <? lo + n)%nat then (fun _ => None) <$> sv !! i else sv !! i.
Proof.
  induction n as [|n IH]; intros sv lo i; cbn [clear_slots].
  - destruct (Nat.leb_spec lo i), (Nat.ltb_spec i (lo + 0)); try done; lia.
  - destruct (decide (lo = i)) as [->|Hne].
    + assert (El : (i <=? i)%nat && (i <? i + S n)%nat = true).
      { apply andb_true_iff. rewrite Nat.leb_le, Nat.ltb_lt. lia. }
      rewrite El. destruct (sv !! i) as [x|] eqn:E.
      * cbn. apply list_lookup_insert_eq. apply lookup_lt_is_Some. rewrite IH.
        case_match; rewrite E; eauto.
      * cbn. apply lookup_ge_None. rewrite length_insert. apply lookup_ge_None. rewrite IH.
        case_match; by rewrite E.
    + rewrite list_lookup_insert_ne by done. rewrite IH.
      assert (Ec : (S lo <=? i)%nat && (i <? S lo + n)%nat = (lo <=? i)%nat && (i <? lo + S n)%nat); [|by rewrite Ec].
      apply eq_true_iff_eq. rewrite !andb_true_iff, !Nat.leb_le, !Nat.ltb_lt. lia.
Qed.

Lemma clear_is_unset k m sv : in_bounds (seq k (S m)) sv ->
  clear_slots sv (2 * k) (2 * S m) = unset_groups (seq k (S m)) sv.
Proof.
  intros Hb. apply list_eq. intros i. rewrite clear_slots_lookup, unset_groups_lookup.
  pose proof (div2_cases i).
  assert (E : (2 * k <=? i)%nat && (i <? 2 * k + 2 * S m)%nat = bool_decide (Nat.div2 i ∈ seq k (S m))).
  { apply eq_true_iff_eq. rewrite andb_true_iff, Nat.leb_le, Nat.ltb_lt, bool_decide_eq_true, elem_of_seq. lia. }
  rewrite E. case_bool_decide as Hd; [by rewrite decide_True|by rewrite decide_False].
Qed.

Lemma seq_split k m (a b : list nat) : seq k m = a ++ b ->
  a = seq k (length a) /\ b = seq (k + length a) (length b).
Proof.
  intros E. assert (El : m = (length a + length b)%nat).
  { apply (f_equal length) in E. rewrite length_app, length_seq in E. lia. }
  subst m. rewrite seq_app in E. apply app_inj_1 in E as [E1 E2]; [by split|]. by rewrite length_seq.
Qed.

Definition numbered_list (l : list Node) : Prop :=
  exists k m, (1 <= k)%nat /\ flat_map node_groups l = seq k m.

Lemma numbered_cons n l : numbered_list (n :: l) -> numbered n /\ numbered_list l.
Proof.
  intros (k & m & Hk & E). cbn in E. symmetry in E. apply seq_split in E as [E1 E2].
  split; [by eexists _, _|]. exists (k + length (node_groups n))%nat, (length (flat_map node_groups l)). split; [lia|done].
Qed.

Lemma numbered_group idx inner : numbered (NGroup (Some idx) inner) -> numbered inner.
Proof.
  intros (k & [|m] & Hk & E); cbn in E; [done|]. injection E as _ E. exists (S k), m. split; [lia|done].
Qed.

Lemma numbered_disjoint n l : numbered_list (n :: l) ->
  forall g, g ∈ node_groups n -> g ∈ flat_map node_groups l -> False.
Proof.
  intros (k & m & Hk & E) g H1 H2. cbn in E. symmetry in E. apply seq_split in E as [E1 E2].
  rewrite E1 in H1. rewrite E2 in H2. rewrite elem_of_seq in H1, H2. lia.
Qed.

Lemma numbered_NoDup n : numbered n -> NoDup (node_groups n).
Proof. intros (k & m & _ & ->). apply NoDup_seq. Qed.

End Predicates.

(** ** Running code *)

Section Run.
Context `{U : UnicodeData}.
Context (input : list Z) (names : list (nat * String.string)) (uni : bool).
Context (Hsub : subject_ok input) (Hlen : Z.of_nat (length input) <= MAX_STRING_LEN).

(** A lookbehind reads its literals backwards, but the compiler emits the units of
    an astral literal (outside [u] mode) and the strings of a class in source
    order; the patterns below do without those inside a lookbehind. *)
Fixpoint dir_ok (rev : bool) (n : Node) : bool :=
  match n with
  | NChar c => negb rev || uni || (c <=? 0xFFFF)
  | NClassSet _ set => negb rev || forallb is_empty_string (class_strings set)
  | NGroup _ inner | NModifier _ _ _ inner | NRepeat inner _ _ _ => dir_ok rev inner
  | NLook _ inner => dir_ok false inner
  | NLookBehind _ inner => dir_ok true inner
  | NConcat l | NAlt l => forallb (dir_ok rev) l
  | _ => true
  end.

Definition fits (n : Node) (st : MState) : Prop := Pre input (node_groups n) st.

(** Entering the code of [n] at [pc] leads to all the ways [n] matches, at [pc']. *)
Definition code_runs (n : Node) : Prop := forall P rev pc pc' base f fs ms st K r,
  node_wf n = true -> numbered n -> dir_ok rev n = true -> fits n st ->
  unicode f = uni -> unicode base = uni ->
  code_at names uni P rev n pc pc' ->
  Run input rev base P
    (map (fun s => MkThread pc' s ms (f :: fs)) (runs input names rev f n st) ++ K) r ->
  Run input rev base P (MkThread pc st ms (f :: fs) :: K) r.

Section prog.
Context (P : list Inst) (rev : bool) (base f : Flags) (fs : list Flags).
Context (Hf : unicode f = uni) (Hbase : unicode base = uni).
Abbreviation R := (Run input rev base P).
Abbreviation T pc ms := (fun s => MkThread pc s ms (f :: fs)).

(** One instruction that leads to one or no thread at the next. *)
Lemma run_inst i pc ms st l K r :
  P !! pc = Some i -> pstep input rev base i (T pc ms st) = Some (map (T (S pc) ms) l) ->
  R (map (T (S pc) ms) l ++ K) r -> R (T pc ms st :: K) r.
Proof. intros Hi Hs H. by eapply Run_step. Qed.

Lemma run_jmp pc target ms st K r :
  P !! pc = Some (Jmp target) -> R (T target ms st :: K) r -> R (T pc ms st :: K) r.
Proof. intros Hi H. by eapply Run_step. Qed.

Lemma run_split pc a b ms st K r :
  P !! pc = Some (Split a b) -> R (T a ms st :: T b ms st :: K) r -> R (T pc ms st :: K) r.
Proof. intros Hi H. by eapply Run_step. Qed.

(** Threads that all jump. *)
Lemma run_jmps pc target ms l K r :
  P !! pc = Some (Jmp target) -> R (map (T target ms) l ++ K) r -> R (map (T pc ms) l ++ K) r.
Proof.
  intros Hi H. apply (Run_flat_map _ _ _ _ (T pc ms) (T target ms) (fun s => [s])).
  - intros s K' r' _ H'. by eapply run_jmp.
  - enough (E : forall l : list MState, flat_map (fun s => [s]) l = l) by (by rewrite E).
    clear. induction l as [|x l IH]; cbn; [done|]. by rewrite IH.
Qed.

Lemma run_consume i p pc ms st K r :
  P !! pc = Some i -> is_single_consume i = true ->
  (forall cp, 0 <= cp -> single_consume_matches i cp f = p cp) ->
  R (map (T (S pc) ms) (consume input p rev f st) ++ K) r -> R (T pc ms st :: K) r.
Proof using Hsub Hf Hbase.
  intros Hi Hc Hp H. apply (run_inst i _ _ _ (consume input p rev f st)); [done| |done].
  assert (E : pstep input rev base i (T pc ms st) = Some
    match read_dir input st.1 (unicode base) rev with
    | Some (cp, nsp) => if single_consume_matches i cp f then [T (S pc) ms (nsp, st.2)] else []
    | None => []
    end) by (by destruct i).
  rewrite E. unfold consume. rewrite Hbase, Hf.
  destruct (read_dir input st.1 uni rev) as [[cp nsp]|] eqn:Er; [|done].
  apply read_dir_nonneg in Er; [|done]. rewrite Hp by done. by destruct (p cp).
Qed.

Lemma run_chars_code cs : forall pc pc' ms st K r,
  chars_at P cs pc pc' ->
  R (map (T pc' ms) (run_chars input rev f cs st) ++ K) r -> R (T pc ms st :: K) r.
Proof using Hsub Hf Hbase.
  induction cs as [|c cs IH]; intros pc pc' ms st K r H HR; cbn in *; [by subst|].
  destruct H as [H1 H2]. apply (run_consume (Char c) (fun cp => cp_eq cp c f)); [done..|].
  eapply Run_flat_map; [|exact HR]. intros s K' r' _. by apply IH.
Qed.

Lemma run_literal_code s pc pc' ms st K r :
  (rev = true -> (length (flat_map (char_units uni) s) <= 1)%nat) ->
  literal_at P uni s pc pc' ->
  R (map (T pc' ms) (run_literal input rev f s st) ++ K) r -> R (T pc ms st :: K) r.
Proof using Hsub Hf Hbase.
  intros Hr H. unfold run_literal. rewrite Hf.
  assert (E : (if rev then List.rev (flat_map (char_units uni) s) else flat_map (char_units uni) s) =
    flat_map (char_units uni) s).
  { destruct rev; [|done]. specialize (Hr eq_refl).
    destruct (flat_map (char_units uni) s) as [|x [|y l]]; [done..|cbn in Hr; lia]. }
  rewrite E. by apply run_chars_code.
Qed.

Lemma run_strings_code last p l : forall end_ pc ms st K r,
  is_single_consume last = true ->
  (forall cp, 0 <= cp -> single_consume_matches last cp f = p cp) ->
  (rev = true -> Forall (fun s => (length (flat_map (char_units uni) s) <= 1)%nat) l) ->
  strings_at P uni last l end_ pc ->
  R (map (T end_ ms) (flat_map (fun s => run_literal input rev f s st) l ++ consume input p rev f st) ++ K) r ->
  R (T pc ms st :: K) r.
Proof using Hsub Hf Hbase.
  induction l as [|s l IH]; intros end_ pc ms st K r Hc Hp Hr H HR; cbn in *.
  { destruct H as [H ->]. by apply (run_consume last p). }
  destruct H as (next & H1 & Hn & H2 & H3 & H4).
  eapply run_split; [done|].
  eapply (run_literal_code s); [|exact H2|].
  { intros E. specialize (Hr E). by inversion Hr. }
  eapply run_jmps; [done|]. rewrite <- app_assoc, map_app, <- app_assoc in HR.
  eapply Run_middle; [|exact HR]. intros r'. apply IH; [done..| |done].
  intros E. specialize (Hr E). by inversion Hr.
Qed.

Lemma run_assert a pc ms st K r :
  P !! pc = Some (IAssert a) -> (st.1 <= length input)%nat ->
  R (map (T (S pc) ms) (match assert_ok a input st.1 f with Some true => [st] | _ => [] end) ++ K) r ->
  R (T pc ms st :: K) r.
Proof.
  intros Hi Hst H. eapply run_inst; [done| |exact H]. cbn.
  destruct (assert_ok_Some a input st.1 f Hst) as [b ->]. by destruct b.
Qed.

Lemma run_span span pc ms st K r i :
  P !! pc = Some i -> (st.1 <= length input)%nat ->
  pstep input rev base i (T pc ms st) = t_backref input rev base (T pc ms st) span ->
  (forall s e, span = Some (s, e) -> (s <= e)%nat) ->
  R (map (T (S pc) ms) (run_backref input rev f span st) ++ K) r -> R (T pc ms st :: K) r.
Proof.
  intros Hi Hst Hs Hse H. eapply run_inst; [done| |exact H]. rewrite Hs. unfold t_backref, run_backref.
  destruct span as [[s e]|]; [|done]. cbn. specialize (Hse s e eq_refl).
  destruct (match_backref input rev st.1 s e f) as [[nsp|]|] eqn:E; [done..|].
  unfold match_backref in E. destruct (Nat.ltb_spec e s); [lia|done].
Qed.

Lemma run_clear inner pc pc' ms st K r :
  numbered inner -> in_bounds (node_groups inner) st.2 -> clear_at P inner pc pc' ->
  R (T pc' ms (unset (node_groups inner) st) :: K) r -> R (T pc ms st :: K) r.
Proof.
  intros Hn Hb H HR. unfold clear_at in H. apply numbered_range in Hn.
  destruct (group_slot_range inner) as [[lo hi]|].
  - destruct Hn as (k & m & E & -> & ->). destruct H as [H ->].
    apply (run_inst (ClearCaptures (2 * k) (2 * (k + m) + 1)) pc ms st [unset (node_groups inner) st]);
      [done| |done].
    rewrite E in Hb |- *. cbn -[Nat.min seq Nat.ltb].
    assert (Hin : (k + m)%nat ∈ seq k (S m)) by (apply elem_of_seq; lia).
    apply Hb in Hin as Hkm.
    replace (Nat.min (2 * k) (length st.2)) with (2 * k)%nat by lia.
    replace (Nat.min (2 * (k + m) + 1 + 1) (length st.2)) with (2 * k + 2 * S m)%nat by lia.
    destruct (Nat.ltb_spec (2 * k + 2 * S m) (2 * k)); [lia|].
    replace (2 * k + 2 * S m - 2 * k)%nat with (2 * S m)%nat by lia.
    by rewrite clear_is_unset.
  - subst pc'. rewrite Hn in HR. unfold unset in HR. cbn in HR. by destruct st.
Qed.

(** The code of a quantified atom, once it is known to run. *)
Section atom.
Context (inner : Node) (Hnum : numbered inner) (Hwf : node_wf inner = true).
Context (Hdir : dir_ok rev inner = true) (IH : code_runs inner).
Abbreviation gs := (node_groups inner).
Abbreviation body := (runs input names rev f inner).

Lemma body_ok st st' : Pre input gs st -> st' ∈ body st ->
  Post input rev gs st st' /\ (negb (can_match_empty inner) = true -> dist input rev st' < dist input rev st)%nat.
Proof using Hnum Hwf.
  intros Hst H. rewrite negb_true_iff.
  apply (runs_ok_all input names inner rev f); [done|by apply numbered_NoDup|done..].
Qed.

Lemma run_copy pc pc' ms st K r :
  Mid input gs st -> copy_at P inner (code_at names uni P rev inner) pc pc' ->
  R (map (T pc' ms) (body (unset gs st)) ++ K) r -> R (T pc ms st :: K) r.
Proof using Hnum Hwf Hdir IH Hf Hbase.
  intros (H1 & H2 & H3) (m & Hc & Hb) HR. eapply run_clear; [done..|].
  eapply IH; [done..| |done|done|exact Hb|exact HR]. by apply unset_pre.
Qed.

Lemma run_guarded pc pc' ms st K r :
  Mid input gs st -> guarded_at P inner (code_at names uni P rev inner) pc pc' ->
  R (map (T pc' ms) (List.filter (moved st) (body (unset gs st))) ++ K) r -> R (T pc ms st :: K) r.
Proof using Hnum Hwf Hdir IH Hf Hbase.
  intros HM H HR. unfold guarded_at in H. destruct (can_match_empty inner) eqn:En.
  - destruct H as (m & Hm & Hc & He & ->). eapply Run_step; [exact Hm|done|]. cbn [app].
    eapply (run_copy _ _ (st.1 :: ms)); [done..|].
    eapply (Run_flat_map _ _ _ _ _ (T (S m) ms) (fun s => if moved st s then [s] else [])).
    + intros s K' r' _ H'. eapply Run_step; [exact He|reflexivity|].
      cbn [t_marks t_st t_flags t_pc]. unfold moved in H'.
      destruct (s.1 =? st.1)%nat; exact H'.
    + assert (E : forall l : list MState,
        flat_map (fun s => if moved st s then [s] else []) l = List.filter (moved st) l).
      { induction l as [|x l IHl]; cbn; [done|]. rewrite IHl. by destruct (moved st x). }
      by rewrite E.
  - eapply run_copy; [done..|].
    assert (E : List.filter (moved st) (body (unset gs st)) = body (unset gs st)); [|by rewrite <- E].
    assert (Hmv : forall s, s ∈ body (unset gs st) -> moved st s = true).
    { assert (Hb : forall a b, Pre input gs a -> b ∈ body a ->
        Post input rev gs a b /\ (true = true -> dist input rev b < dist input rev a)%nat).
      { intros a b Ha Hab. apply body_ok in Hab; [|done]. rewrite En in Hab. exact Hab. }
      intros s Hs. apply (unset_body_ok input rev gs body true Hb) in Hs as [_ Hd]; [|done].
      specialize (Hd eq_refl). unfold moved. apply negb_true_iff, Nat.eqb_neq. intros Eq.
      unfold dist in Hd. destruct rev; lia. }
    clear HR. induction (body (unset gs st)) as [|x l IHl]; cbn; [done|].
    rewrite Hmv by (by left). f_equal. apply IHl. intros s Hs. apply Hmv. by right.
Qed.

Lemma run_copies_code n : forall pc pc' ms st K r,
  Mid input gs st -> copies_at P inner (code_at names uni P rev inner) n pc pc' ->
  R (map (T pc' ms) (run_copies (unset gs) body n st) ++ K) r -> R (T pc ms st :: K) r.
Proof using Hnum Hwf Hdir IH Hf Hbase.
  induction n as [|n IHn]; intros pc pc' ms st K r HM H HR; cbn in *; [by subst|].
  destruct H as (m & H1 & H2). eapply run_copy; [done..|].
  eapply Run_flat_map; [|exact HR]. intros s K' r' Hs. apply IHn; [|done].
  apply (unset_body_ok input rev gs body _ body_ok) in Hs as [Hs _]; [|done]. by eapply Mid_post.
Qed.

(** Repetitions from a state, with the state itself last or first. *)
Lemma run_optional_split greedy pc exit ms st more K r :
  P !! pc = Some (split_to greedy (S pc) exit) ->
  (forall K r, R (map (T exit ms) more ++ K) r -> R (T (S pc) ms st :: K) r) ->
  R (map (T exit ms) (if greedy then more ++ [st] else st :: more) ++ K) r ->
  R (T pc ms st :: K) r.
Proof.
  intros Hi Hb HR. destruct greedy; (eapply run_split; [exact Hi|]).
  - apply Hb. rewrite map_app, <- app_assoc in HR. exact HR.
  - apply (Run_middle _ _ _ _ [T exit ms st] (map (T exit ms) more ++ K)); [|exact HR].
    intros r'. apply Hb.
Qed.

Lemma run_star greedy n : forall pc pc' ms st K r,
  Mid input gs st -> (dist input rev st < n)%nat ->
  star_at P inner (code_at names uni P rev inner) greedy pc pc' ->
  R (map (T pc' ms) (run_optional (unset gs) body greedy n st) ++ K) r -> R (T pc ms st :: K) r.
Proof using Hnum Hwf Hdir IH Hf Hbase.
  induction n as [|n IHn]; intros pc pc' ms st K r HM Hd H HR; [lia|].
  assert (H' := H). destruct H as (m & H1 & H2 & H3 & ->). cbn [run_optional] in HR.
  eapply run_optional_split; [exact H1| |exact HR]. clear K r HR. intros K r HR.
  eapply run_guarded; [done..|].
  eapply Run_flat_map; [|exact HR]. intros s K' r' Hs HR'. eapply run_jmp; [done|].
  apply list_elem_of_In, filter_In in Hs as [Hs Hm]. apply list_elem_of_In in Hs.
  apply (unset_body_ok input rev gs body _ body_ok) in Hs as [Hs _]; [|done].
  eapply IHn; [by eapply Mid_post| |exact H'|exact HR'].
  unfold moved in Hm. apply negb_true_iff, Nat.eqb_neq in Hm. destruct Hs, HM.
  unfold dist in *. destruct rev; lia.
Qed.

Lemma run_chain greedy n : forall pc exit ms st K r,
  Mid input gs st -> chain_at P inner (code_at names uni P rev inner) greedy n exit pc ->
  R (map (T exit ms) (run_optional (unset gs) body greedy n st) ++ K) r -> R (T pc ms st :: K) r.
Proof using Hnum Hwf Hdir IH Hf Hbase.
  induction n as [|n IHn]; intros pc exit ms st K r HM H HR; cbn in *; [by subst|].
  destruct H as (m & H1 & H2 & H3).
  eapply run_optional_split; [exact H1| |exact HR]. clear K r HR. intros K r HR.
  eapply run_guarded; [done..|].
  eapply Run_flat_map; [|exact HR]. intros s K' r' Hs HR'.
  apply list_elem_of_In, filter_In in Hs as [Hs Hm]. apply list_elem_of_In in Hs.
  apply (unset_body_ok input rev gs body _ body_ok) in Hs as [Hs _]; [|done].
  eapply IHn; [by eapply Mid_post|exact H3|exact HR'].
Qed.

End atom.
End prog.

(** ** Every node *)

Definition fits_list (l : list Node) (st : MState) : Prop := Pre input (flat_map node_groups l) st.

Lemma fits_cons n l st : fits_list (n :: l) st -> fits n st /\ fits_list l st.
Proof.
  intros H. split; (eapply Pre_sub; [|exact H]); intros g Hg; cbn; apply elem_of_app; tauto.
Qed.

Lemma fits_after rev f n l st st' :
  node_wf n = true -> numbered_list (n :: l) -> fits_list (n :: l) st ->
  st' ∈ runs input names rev f n st -> fits_list l st'.
Proof.
  intros Hw Hn Hst H. destruct (fits_cons _ _ _ Hst) as [H1 H2].
  destruct (numbered_cons _ _ Hn) as [Hn1 _].
  apply (runs_ok_all input names n rev f) in H as [H _]; [|done|by apply numbered_NoDup|done].
  eapply Post_pre; [exact H|exact H2|]. intros g Hg Hg'. by eapply numbered_disjoint.
Qed.

Lemma seq_back_post rev f l : forall st st',
  forallb node_wf l = true -> numbered_list l -> fits_list l st ->
  st' ∈ seq_back input names rev f l st -> Post input rev (flat_map node_groups l) st st'.
Proof.
  intros st st' Hw (k & m & _ & E) Hst H.
  apply (seq_back_ok input names rev f l) in H; [by apply H| |done| |done].
  - apply Forall_forall. intros n _. apply runs_ok_all.
  - rewrite E. apply NoDup_seq.
Qed.

Lemma run_seq P base f fs ms l : Forall code_runs l -> forall pc pc' st K r,
  forallb node_wf l = true -> numbered_list l -> forallb (dir_ok false) l = true -> fits_list l st ->
  unicode f = uni -> unicode base = uni ->
  seq_at (code_at names uni P false) l pc pc' ->
  Run input false base P
    (map (fun s => MkThread pc' s ms (f :: fs)) (seq_fwd input names false f l st) ++ K) r ->
  Run input false base P (MkThread pc st ms (f :: fs) :: K) r.
Proof.
  induction 1 as [|n l Hn Hl IH]; intros pc pc' st K r Hw Hnum Hd Hst Hf Hb H HR; cbn in *; [by subst|].
  apply andb_true_iff in Hw as [Hw1 Hw2]. apply andb_true_iff in Hd as [Hd1 Hd2].
  destruct H as (m & H1 & H2). destruct (numbered_cons _ _ Hnum) as [Hn1 Hn2].
  destruct (fits_cons _ _ _ Hst) as [Hst1 _].
  eapply Hn; [done..|]. eapply Run_flat_map; [|exact HR]. intros s K' r' Hs.
  apply IH; try done. by eapply fits_after.
Qed.

Lemma run_seq_rev P base f fs ms l : Forall code_runs l -> forall pc pc' st K r,
  forallb node_wf l = true -> numbered_list l -> forallb (dir_ok true) l = true -> fits_list l st ->
  unicode f = uni -> unicode base = uni ->
  seq_rev_at (code_at names uni P true) l pc pc' ->
  Run input true base P
    (map (fun s => MkThread pc' s ms (f :: fs)) (seq_back input names true f l st) ++ K) r ->
  Run input true base P (MkThread pc st ms (f :: fs) :: K) r.
Proof.
  induction 1 as [|n l Hn Hl IH]; intros pc pc' st K r Hw Hnum Hd Hst Hf Hb H HR; cbn in *; [by subst|].
  apply andb_true_iff in Hw as [Hw1 Hw2]. apply andb_true_iff in Hd as [Hd1 Hd2].
  destruct H as (m & H1 & H2). destruct (numbered_cons _ _ Hnum) as [Hn1 Hn2].
  destruct (fits_cons _ _ _ Hst) as [Hst1 Hst2].
  eapply IH; [done..|]. eapply Run_flat_map; [|exact HR]. intros s K' r' Hs HR'.
  eapply Hn; try done. apply seq_back_post in Hs; [|done..].
  eapply Post_pre; [exact Hs|exact Hst1|]. intros g Hg Hg'. by eapply numbered_disjoint.
Qed.

Lemma run_alt P rev base f fs ms l : Forall code_runs l -> forall pc pc' st K r,
  l <> [] ->
  forallb node_wf l = true -> numbered_list l -> forallb (dir_ok rev) l = true -> fits_list l st ->
  unicode f = uni -> unicode base = uni ->
  alt_at P (code_at names uni P rev) l pc' pc ->
  Run input rev base P
    (map (fun s => MkThread pc' s ms (f :: fs)) (flat_map (fun n => runs input names rev f n st) l) ++ K) r ->
  Run input rev base P (MkThread pc st ms (f :: fs) :: K) r.
Proof.
  induction 1 as [|n l Hn Hl IH]; intros pc pc' st K r Hne Hw Hnum Hd Hst Hf Hb H HR; [done|].
  cbn [forallb flat_map] in *.
  apply andb_true_iff in Hw as [Hw1 Hw2]. apply andb_true_iff in Hd as [Hd1 Hd2].
  destruct (numbered_cons _ _ Hnum) as [Hn1 Hn2]. destruct (fits_cons _ _ _ Hst) as [Hst1 Hst2].
  cbn in H. destruct l as [|n' l].
  { eapply Hn; [done..|]. cbn [flat_map] in HR. by rewrite app_nil_r in HR. }
  destruct H as (next & H1 & Hlt & H2 & H3 & H4).
  eapply (run_split P rev base f fs); [exact H1|]. eapply Hn; [done..|exact H2|].
  eapply (run_jmps P rev base f fs); [exact H3|].
  rewrite map_app, <- app_assoc in HR. eapply Run_middle; [|exact HR].
  intros r'. by eapply IH.
Qed.

Lemma run_head P rev base pc f fs ms (l : list MState) :
  P !! pc = Some Match ->
  Run input rev base P (map (fun s => MkThread pc s ms (f :: fs)) l ++ [])
    (head (map (fun s => MkThread pc s ms (f :: fs)) l)).
Proof.
  intros Hm. rewrite app_nil_r. destruct l as [|s l]; cbn; [exists 0%nat; constructor|].
  by apply Run_match.
Qed.

Lemma run_look P rev base pc f fs ms st K r i neg lrev sub m inner :
  code_runs inner -> node_wf inner = true -> numbered inner -> dir_ok lrev inner = true ->
  fits inner st -> unicode f = uni ->
  P !! pc = Some i -> look_of i = Some (neg, lrev, sub) ->
  code_at names uni sub lrev inner 0 m -> sub !! m = Some Match ->
  Run input rev base P (map (fun s => MkThread (S pc) s ms (f :: fs))
    (look_runs neg st (runs input names lrev f inner st)) ++ K) r ->
  Run input rev base P (MkThread pc st ms (f :: fs) :: K) r.
Proof.
  intros IH Hw Hn Hd Hst Hf Hi Hl Hc Hm HR.
  eapply (Run_look _ _ _ _ _ _ _ _ _ _ (head (map (fun s => MkThread m s [] [f])
    (runs input names lrev f inner st)))); [exact Hi|exact Hl| |].
  - apply (IH sub lrev 0%nat m f f [] [] st []); try done. by apply run_head.
  - unfold look_runs in HR. destruct (runs input names lrev f inner st), neg; exact HR.
Qed.

Lemma chars_short s : (uni = true \/ Forall (fun c => c <= 65535) s) -> (length s <= 1)%nat ->
  (length (flat_map (char_units uni) s) <= 1)%nat.
Proof.
  clear Hsub Hlen. intros H Hl. destruct s as [|c [|c' s]]; cbn in *; [lia| |lia].
  unfold char_units. destruct uni; cbn; [lia|]. destruct H as [H|H]; [done|].
  inversion H; subst. destruct (Z.ltb_spec 65535 c); cbn; lia.
Qed.

Lemma code_runs_all n : code_runs n.
Proof using Hsub Hlen.
  induction n using Node_induction; try rename H into Hall;
    intros P rev pc pc' base f fs ms st K r Hw Hnum Hd Hst Hf Hb HC HR;
    assert (Hst' := Hst); destruct Hst' as (Hs1 & Hs2 & Hs3).
  - cbn in HC. subst pc'. exact HR.
  - eapply (run_literal_code P rev base f fs Hf Hb [c]); [|exact HC|exact HR].
    intros ->. cbn in Hd. apply chars_short; [|cbn; lia].
    apply orb_true_iff in Hd as [->|Hc%Z.leb_le]; [by left|right; by constructor].
  - destruct HC as [HC ->]. by eapply (run_consume P rev base f fs Hf Hb Any).
  - destruct HC as [HC ->]. eapply (run_consume P rev base f fs Hf Hb); [exact HC|done| |exact HR].
    intros cp Hcp. cbn [single_consume_matches]. rewrite class_matches_members by done. by rewrite Hf.
  - eapply (run_strings_code P rev base f fs Hf Hb); [| | |exact HC|exact HR]; [done| |].
    + intros cp _. cbn. by rewrite build_set_matcher_spec.
    + intros ->. cbn in Hd. apply Forall_forall. intros s Hs.
      apply list_elem_of_In in Hs. rewrite sort_longest_elem in Hs. apply list_elem_of_In in Hs.
      rewrite forallb_forall in Hd. apply Hd in Hs. destruct s; [cbn; lia|done].
  - destruct HC as [HC ->]. by eapply (run_assert P rev base f fs).
  - destruct HC as [HC ->]. by eapply (run_assert P rev base f fs).
  - destruct HC as [HC ->]. by eapply (run_assert P rev base f fs).
  - destruct index as [idx|].
    2:{ exact (IHn P rev pc pc' base f fs ms st K r Hw Hnum Hd Hst Hf Hb HC HR). }
    destruct HC as (m & Ho & HC & Hcl & ->).
    assert (Hni : idx ∉ node_groups n).
    { pose proof (numbered_NoDup _ Hnum) as HN. cbn in HN. by apply list.NoDup_cons in HN as [? _]. }
    destruct (group_ok input rev idx (node_groups n) st st Hni Hst) as [HP _].
    destruct (Hs3 idx ltac:(by left)) as [He1 He2].
    eapply (run_inst P rev base f fs _ _ _ _ [set_slot (if rev then 2 * idx + 1 else 2 * idx)%nat st]);
      [exact Ho|cbn; destruct rev; by rewrite ?He1, ?He2|].
    assert (Hn : numbered n) by (by eapply numbered_group).
    eapply IHn; [exact Hw|exact Hn|exact Hd|exact HP|exact Hf|exact Hb|exact HC|].
    eapply (Run_flat_map _ _ _ _ _ (fun s => MkThread (S m) s ms (f :: fs))
      (fun s => [set_slot (if rev then 2 * idx else 2 * idx + 1)%nat s])).
    + intros s K' r' Hs HR'. eapply (run_inst P rev base f fs); [exact Hcl| |exact HR'].
      apply (runs_ok_all input names n rev f) in Hs as [Hs _];
        [|exact Hw|by apply numbered_NoDup|exact HP].
      apply post_length in Hs. unfold set_slot in Hs at 1. cbn in Hs. rewrite length_insert in Hs.
      apply lookup_lt_Some in He1, He2.
      destruct (lookup_lt_is_Some_2 s.2 (if rev then 2 * idx else 2 * idx + 1)%nat) as [x Hx];
        [destruct rev; lia|]. cbn. by rewrite Hx.
    + cbn [runs] in HR. assert (E : forall g (l : list MState), flat_map (fun s => [set_slot g s]) l = map (set_slot g) l).
      { intros g. induction l as [|x l IHl]; cbn; [done|]. by rewrite IHl. }
      rewrite E. by destruct rev.
  - destruct HC as (q & Hp & HC & Hq & ->).
    eapply Run_step; [exact Hp|done|]. cbn [app].
    eapply IHn; [exact Hw|exact Hnum|exact Hd|exact Hst| |exact Hb|exact HC|]; [exact Hf|].
    eapply (Run_flat_map _ _ _ _ _ (fun s => MkThread (S q) s ms (f :: fs)) (fun s => [s])).
    + intros s' K' r' _ HR'. by eapply Run_step.
    + assert (E : forall l : list MState, flat_map (fun s => [s]) l = l).
      { induction l as [|x l IHl]; cbn; [done|]. by rewrite IHl. }
      rewrite E. exact HR.
  - destruct HC as (sub & m & [Hi ->] & HC & Hm). by eapply (run_look P rev base pc f).
  - destruct HC as (sub & m & [Hi ->] & HC & Hm). by eapply (run_look P rev base pc f).
  - destruct HC as [HC ->]. eapply (run_span P rev base f fs (group_span st.2 n)); [exact HC|done|done| |exact HR].
    intros s e H. by apply Hs2 in H.
  - destruct HC as [HC ->]. eapply (run_span P rev base f fs (named_groups names st.2 name)); [exact HC|done| | |exact HR].
    + unfold backref_inst, named_groups. destruct (name_indices names name) as [|g [|g' l]]; try done.
      cbn. by destruct (group_span st.2 g).
    + intros s e H. by eapply named_groups_ok.
  - rewrite runs_concat in HR. cbn [code_at] in HC. destruct rev.
    + by eapply run_seq_rev.
    + by eapply run_seq.
  - cbn [node_wf] in Hw. apply andb_true_iff in Hw as [Hw0 Hw].
    eapply run_alt; try done. intros ->. done.
  - cbn [node_wf] in Hw. apply andb_true_iff in Hw as [Hw0 Hw].
    apply andb_true_iff in Hw0 as [Hmin%Z.leb_le Hmax].
    assert (HM : Mid input (node_groups n) st).
    { split; [done|]. split; [done|]. apply fresh_in_bounds, Hst. }
    pose proof (body_ok rev f n Hnum Hw) as Hbody.
    cbn [runs] in HR. cbn [code_at] in HC.
    destruct (negb (can_match_empty n) && (MAX_STRING_LEN <? min)) eqn:Ef.
    + apply andb_true_iff in Ef as [En Ec%Z.ltb_lt]. destruct HC as [HC ->].
      eapply (run_inst P rev base f fs _ _ _ _ []); [exact HC|done|].
      replace (run_copies (unset (node_groups n)) (runs input names rev f n) (Z.to_nat min) st)
        with (@nil MState) in HR; [exact HR|].
      destruct (run_copies _ _ _ st) as [|x l] eqn:E; [done|exfalso].
      assert (Hx : x ∈ run_copies (unset (node_groups n)) (runs input names rev f n) (Z.to_nat min) st)
        by (rewrite E; by left).
      apply (run_copies_ok input rev (node_groups n) _ _ Hbody) in Hx as [_ Hx]; [|done].
      specialize (Hx En). unfold dist in Hx. destruct rev; lia.
    + destruct HC as (m & H1 & H2).
      eapply (run_copies_code P rev base f fs Hf Hb n Hnum Hw Hd IHn); [exact HM|exact H1|].
      eapply Run_flat_map; [|exact HR]. intros s K' r' Hs HR'.
      apply (run_copies_ok input rev (node_groups n) _ _ Hbody) in Hs as [Hs Hdist]; [|done].
      assert (HMs : Mid input (node_groups n) s) by (by eapply Mid_post).
      assert (Hds : (dist input rev s <= length input)%nat)
        by (destruct HMs; unfold dist; destruct rev; lia).
      unfold kept_max, optional_count in *. destruct (can_match_empty n) eqn:En; cbn [negb] in *.
      * destruct max as [mx|].
        -- by eapply (run_chain P rev base f fs Hf Hb n Hnum Hw Hd IHn).
        -- eapply (run_star P rev base f fs Hf Hb n Hnum Hw Hd IHn); [done| |exact H2|exact HR']. lia.
      * destruct max as [mx|].
        -- destruct (Z.leb_spec mx MAX_STRING_LEN).
           ++ by eapply (run_chain P rev base f fs Hf Hb n Hnum Hw Hd IHn).
           ++ eapply (run_star P rev base f fs Hf Hb n Hnum Hw Hd IHn); [done| |exact H2|exact HR'].
              specialize (Hdist eq_refl). cbn in Ef. apply Z.ltb_ge in Ef.
              assert (dist input rev st <= length input)%nat
                by (unfold dist; destruct rev; lia). lia.
        -- eapply (run_star P rev base f fs Hf Hb n Hnum Hw Hd IHn); [done| |exact H2|exact HR']. lia.
Qed.

End Run.
