(* ===== verification/RegexExec.v ===== *)
(** * The backtracking machine refines the machine of threads

    The executor's frames stand for the threads still to be tried ([Abs]): a
    choice point is a thread with the captures, marks and flags that unwinding to
    it restores.  [loop_refines]: as long as the budget lasts, the executor ends
    as the threads do; when it does not, it answers "no match" with its counter
    past the budget (or, on a program without lookarounds, with its stack past the
    cap). *)

From S2P Require Import Prelude Regex RegexComp RegexVm RegexTotal RegexSem RegexRuns RegexRun.

Open Scope Z_scope.

#[local] Arguments tick : simpl never.
#[local] Arguments continuation_cannot_start : simpl never.
#[local] Arguments Nat.mul : simpl never.
#[local] Arguments Nat.add : simpl never.

Section Exec.
Context `{U : UnicodeData}.

(** ** Undoing *)

Lemma restore_slots_lookup src : forall sv lo i, (lo + length src <= length sv)%nat ->
  restore_slots sv lo src !! i =
    if (lo <=? i)%nat && (i <? lo + length src)%nat then src !! (i - lo)%nat else sv !! i.
Proof.
  induction src as [|x src IH]; intros sv lo i Hl; cbn [restore_slots length].
  - destruct (Nat.leb_spec lo i), (Nat.ltb_spec i (lo + 0)); try done; lia.
  - cbn in Hl. assert (Hlen : length (restore_slots sv (S lo) src) = length sv).
    { clear. generalize (S lo) as l. induction src as [|y src IH]; intros l; cbn; [done|].
      by rewrite length_insert, IH. }
    destruct (decide (lo = i)) as [->|Hne].
    + rewrite list_lookup_insert_eq by lia. rewrite Nat.sub_diag.
      assert (E : (i <=? i)%nat && (i <? i + S (length src))%nat = true).
      { apply andb_true_iff. rewrite Nat.leb_le, Nat.ltb_lt. lia. }
      by rewrite E.
    + rewrite list_lookup_insert_ne by done. rewrite IH by lia.
      assert (Ec : (S lo <=? i)%nat && (i <? S lo + length src)%nat =
        (lo <=? i)%nat && (i <? lo + S (length src))%nat).
      { apply eq_true_iff_eq. rewrite !andb_true_iff, !Nat.leb_le, !Nat.ltb_lt. lia. }
      rewrite Ec. destruct ((lo <=? i)%nat && (i <? lo + S (length src))%nat) eqn:E; [|done].
      apply andb_true_iff in E as [E1%Nat.leb_le _]. replace (i - lo)%nat with (S (i - S lo))%nat by lia. done.
Qed.

Lemma length_clear_slots n : forall sv lo, length (clear_slots sv lo n) = length sv.
Proof. induction n as [|n IH]; intros sv lo; cbn; [done|]. by rewrite length_insert, IH. Qed.

Lemma restore_clear sv lo n : (lo + n <= length sv)%nat ->
  restore_slots (clear_slots sv lo n) lo (take n (drop lo sv)) = sv.
Proof.
  intros H. apply list_eq. intros i.
  assert (El : length (take n (drop lo sv)) = n) by (rewrite length_take, length_drop; lia).
  rewrite restore_slots_lookup by (rewrite El, length_clear_slots; lia). rewrite El.
  destruct ((lo <=? i)%nat && (i <? lo + n)%nat) eqn:E.
  - apply andb_true_iff in E as [E1%Nat.leb_le E2%Nat.ltb_lt].
    rewrite lookup_take_lt by lia. rewrite lookup_drop. f_equal. lia.
  - rewrite clear_slots_lookup. by rewrite E.
Qed.

Lemma restore_all sv sv' : length sv' = length sv -> restore_slots sv' 0 sv = sv.
Proof.
  intros H. apply list_eq. intros i. rewrite restore_slots_lookup by lia.
  destruct (Nat.leb_spec 0 i); [|lia]. destruct (Nat.ltb_spec i (0 + length sv)); cbn.
  - f_equal. lia.
  - rewrite !lookup_ge_None_2 by lia. done.
Qed.

(** The top [n] elements of a side stack. *)
Lemma side_stack {A} (base chunk : list A) n : length chunk = n ->
  drop (length (base ++ chunk) - n) (base ++ chunk) = chunk /\
  take (length (base ++ chunk) - n) (base ++ chunk) = base.
Proof.
  intros <-. rewrite length_app. replace (length base + length chunk - length chunk)%nat with (length base) by lia.
  by rewrite drop_app_length, take_app_length.
Qed.

(** ** The threads a stack stands for *)

(** The positions a [Run] frame still has to try. *)
Fixpoint run_list (rev : bool) (p k : nat) : list nat :=
  p :: match k with O => [] | S k => run_list rev (if rev then p + 1 else p - 1)%nat k end.

Definition run_ends (rev : bool) (first p k : nat) : Prop :=
  if rev then first = (p + k)%nat else p = (first + k)%nat.

Section ctx.
Context (ctx : Ctx).

Definition at_cont (cont : nat) (sv : list (option nat)) (ms : list nat) (fl : list Flags) (p : nat) : Thread :=
  MkThread cont (p, sv) ms fl.

Inductive Abs : list Frame -> list (option nat) -> list nat ->
    list (option nat) -> list nat -> list Flags -> list Thread -> Prop :=
  | A_nil sl ps sv ms fl : Abs [] sl ps sv ms fl []
  | A_alt p s F sl ps sv ms fl T :
      Abs F sl ps sv ms fl T -> Abs (FAlt p s :: F) sl ps sv ms fl (at_cont p sv ms fl s :: T)
  | A_save slot old F sl ps sv ms fl T :
      Abs F sl ps (<[slot := old]> sv) ms fl T -> Abs (FSave slot old :: F) sl ps sv ms fl T
  | A_clear lo n F sl ps sv ms fl T :
      Abs F (take (length sl - n) sl) ps (restore_slots sv lo (drop (length sl - n) sl)) ms fl T ->
      Abs (FClear lo n :: F) sl ps sv ms fl T
  | A_saves F sl ps sv ms fl T :
      Abs F (take (length sl - length sv) sl) ps
        (restore_slots sv 0 (drop (length sl - length sv) sl)) ms fl T ->
      Abs (FSaves :: F) sl ps sv ms fl T
  | A_mark_pop F sl ps sv ms fl T :
      Abs F sl ps sv (tail ms) fl T -> Abs (FMarkPop :: F) sl ps sv ms fl T
  | A_mark_push m F sl ps sv ms fl T :
      Abs F sl ps sv (m :: ms) fl T -> Abs (FMarkPush m :: F) sl ps sv ms fl T
  | A_flags_pop F sl ps sv ms fl T :
      Forall (fun f => unicode f = unicode (x_flags ctx)) (tail fl) ->
      Abs F sl ps sv ms (tail fl) T -> Abs (FFlagsPop :: F) sl ps sv ms fl T
  | A_flags_push f F sl ps sv ms fl T :
      unicode f = unicode (x_flags ctx) ->
      Abs F sl ps sv ms (f :: fl) T -> Abs (FFlagsPush f :: F) sl ps sv ms fl T
  | A_run cont first p k F sl ps sv ms fl T :
      run_ends (x_reverse ctx) first p k -> Abs F sl ps sv ms fl T ->
      Abs (FRun cont first p (top_flags ctx fl) :: F) sl ps sv ms fl
        (map (at_cont cont sv ms fl) (run_list (x_reverse ctx) p k) ++ T)
  | A_positions cont base F sl ps sv ms fl T :
      (base < length ps)%nat -> Abs F sl (take base ps) sv ms fl T ->
      Abs (FPositions cont base :: F) sl ps sv ms fl
        (map (at_cont cont sv ms fl) (rev (drop base ps)) ++ T)
  | A_lazy split cont s i F sl ps sv ms fl T :
      x_prog ctx !! split = Some (Split cont (S split)) ->
      x_prog ctx !! S split = Some i -> is_single_consume i = true ->
      x_prog ctx !! S (S split) = Some (Jmp split) ->
      Abs F sl ps sv ms fl T ->
      Abs (FLazy (S split) cont s (top_flags ctx fl) :: F) sl ps sv ms fl
        (at_cont (S split) sv ms fl s :: T).

(** The state of the executor stands for its thread and the stack's. *)
Record Sim (e : Exec) (T : list Thread) : Prop := {
  sim_cur : cur e = top_flags ctx (flag_stack e);
  sim_uni : Forall (fun f => unicode f = unicode (x_flags ctx)) (flag_stack e);
  sim_abs : Abs (frames e) (slots e) (positions e) (saves e) (marks e) (flag_stack e) T
}.

Definition thread_of (e : Exec) : Thread := MkThread (pc e) (sp e, saves e) (marks e) (flag_stack e).

Abbreviation RN := (RunN (x_input ctx) (x_reverse ctx) (x_flags ctx) (x_prog ctx)).

Lemma top_flags_uni fl :
  Forall (fun f => unicode f = unicode (x_flags ctx)) fl ->
  unicode (top_flags ctx fl) = unicode (x_flags ctx).
Proof. intros H. destruct fl as [|f fl]; [done|]. by inversion H. Qed.

Lemma t_cur_top p st ms fl : t_cur (x_flags ctx) (MkThread p st ms fl) = top_flags ctx fl.
Proof. done. Qed.

(** A step of the threads, read off a run. *)
Lemma RunN_step p st ms fl ts i n r :
  x_prog ctx !! p = Some i -> i <> Match -> look_of i = None ->
  RN n (MkThread p st ms fl :: ts) r ->
  exists succ n', pstep (x_input ctx) (x_reverse ctx) (x_flags ctx) i (MkThread p st ms fl) = Some succ /\
    n = S n' /\ RN n' (succ ++ ts) r.
Proof.
  intros Hi Hm Hl H. inversion H; subst; cbn [t_pc] in *; try congruence.
  assert (i0 = i) as -> by congruence. eauto.
Qed.

(** ** Consuming characters *)

Lemma consume_one_thread i p sv ms fl : is_single_consume i = true ->
  Forall (fun f => unicode f = unicode (x_flags ctx)) fl ->
  forall pc0, pstep (x_input ctx) (x_reverse ctx) (x_flags ctx) i (MkThread pc0 (p, sv) ms fl) =
    Some match consume_one i (x_input ctx) p (top_flags ctx fl) (x_reverse ctx) with
         | Some nsp => [MkThread (S pc0) (nsp, sv) ms fl]
         | None => []
         end.
Proof.
  intros Hi Hu pc0. unfold consume_one. rewrite (top_flags_uni fl Hu).
  destruct i; try done; cbn; destruct (read_dir _ _ _ _) as [[cp nsp]|]; try done;
    rewrite t_cur_top; by case_match.
Qed.

Lemma consume_one_moves i p f rev nsp : consume_one i (x_input ctx) p f rev = Some nsp ->
  (p <= length (x_input ctx))%nat /\
  (if rev then nsp < p else p < nsp)%nat /\ (nsp <= length (x_input ctx))%nat.
Proof.
  unfold consume_one. destruct (read_dir _ _ _ _) as [[cp q]|] eqn:E; [|done].
  destruct (single_consume_matches _ _ _); [|done]. intros [= ->].
  assert (Hp : (p <= length (x_input ctx))%nat).
  { unfold read_dir in E. destruct rev.
    - destruct (read_cp_back _ _ _) as [[c len]|] eqn:Eb; [|done]. unfold read_cp_back in Eb.
      destruct p as [|p]; [done|]. destruct (x_input ctx !! p) eqn:El; [|done].
      apply lookup_lt_Some in El. lia.
    - destruct (read_cp _ _ _) as [[c len]|] eqn:Eb; [|done]. unfold read_cp in Eb.
      destruct (x_input ctx !! p) eqn:El; [|done]. apply lookup_lt_Some in El. lia. }
  apply read_dir_moves in E as [E1 E2]; [|by left]. destruct rev; lia.
Qed.

(** Outside [u] mode a character is one unit. *)
Lemma consume_one_unit i p f rev nsp : unicode f = false ->
  consume_one i (x_input ctx) p f rev = Some nsp ->
  if rev then p = S nsp else nsp = S p.
Proof.
  intros Hf H. assert (Hm := H). apply consume_one_moves in Hm. unfold consume_one in H.
  destruct (read_dir _ _ _ _) as [[cp q]|] eqn:E; [|done]. destruct (single_consume_matches _ _ _); [|done]. injection H as ->.
  rewrite Hf in E. unfold read_dir in E. destruct rev.
  - destruct p as [|p]; [done|]. cbn in E. destruct (x_input ctx !! p); [|done].
    destruct p; injection E as <- <-; lia.
  - unfold read_cp in E. destruct (x_input ctx !! p); [|done]. cbn in E. injection E as <- <-. lia.
Qed.

(** How far a character can still be consumed. *)
Definition room (p : nat) : nat := if x_reverse ctx then p else (length (x_input ctx) - p)%nat.

(** The consuming loop of a greedy quantifier, as threads: the continuation at
    every position reached, the furthest first. *)
Lemma greedy_threads split i cont sv ms fl (Hb : budget ctx < U64_MAX) :
  x_prog ctx !! split = Some (Split (S split) cont) ->
  x_prog ctx !! S split = Some i -> is_single_consume i = true ->
  x_prog ctx !! S (S split) = Some (Jmp split) ->
  Forall (fun f => unicode f = unicode (x_flags ctx)) fl ->
  forall fuel p st reached X n r l q st' ok,
  st <= U64_MAX -> (1 <= fuel)%nat -> ((p <= length (x_input ctx))%nat -> (room p < fuel)%nat) ->
  consume_run ctx i (top_flags ctx fl) fuel p st reached = (l, q, st', ok) ->
  RN n (at_cont split sv ms fl p :: X) r ->
  st <= st' <= U64_MAX /\
  exists new, l = reached ++ new /\
  (if ok then exists n', RN n' (map (at_cont cont sv ms fl) (rev (p :: new)) ++ X) r /\ st' + Z.of_nat n' + 1 <= st + Z.of_nat n
   else budget ctx < st' /\ budget ctx + 1 < st + Z.of_nat n) /\
  (unicode (x_flags ctx) = false ->
    exists k, length new = k /\ run_ends (x_reverse ctx) p q k /\ rev (p :: new) = run_list (x_reverse ctx) q k).
Proof.
  intros Hs Hi Hc Hj Hu. induction fuel as [|fuel IH]; intros p st reached X n r l q st' ok Hst H1 Hr H HR; [lia|].
  cbn [consume_run] in H.
  apply (RunN_step _ _ _ _ _ _ _ _ Hs) in HR as (succ & n1 & Hp & -> & HR); [|done..].
  injection Hp as <-. cbn [app goto t_st] in HR.
  apply (RunN_step _ _ _ _ _ _ _ _ Hi) in HR as (succ & n2 & Hp & -> & HR); [|by destruct i..].
  unfold goto in Hp. rewrite consume_one_thread in Hp; [|done..].
  destruct (consume_one i _ p _ _) as [nsp|] eqn:E.
  2:{ injection Hp as <-. injection H as <- <- <- <-. split; [lia|]. exists []. rewrite app_nil_r.
      split; [done|]. split.
      - exists n2. split; [exact HR|lia].
      - intros _. exists 0%nat. split; [done|]. split; [unfold run_ends; destruct (x_reverse ctx); lia|done]. }
  injection Hp as <-. cbn [app] in HR.
  apply (RunN_step _ _ _ _ _ _ _ _ Hj) in HR as (succ & n3 & Hp & -> & HR); [|done..].
  injection Hp as <-. cbn [app goto t_st t_pc t_marks t_flags] in HR.
  destruct (tick ctx st) as [st1 ok1] eqn:Et. apply tick_spec in Et as [Ht Hok]; [|done..].
  apply consume_one_moves in E as Hm.
  destruct ok1.
  - assert (Hf1 : (1 <= fuel)%nat).
    { specialize (Hr (proj1 Hm)). unfold room in Hr. destruct (x_reverse ctx); lia. }
    assert (Hf2 : (nsp <= length (x_input ctx))%nat -> (room nsp < fuel)%nat).
    { intros Hn. specialize (Hr (proj1 Hm)). unfold room in *. destruct (x_reverse ctx); lia. }
    destruct (IH nsp st1 (reached ++ [nsp]) (at_cont cont sv ms fl p :: X) n3 r l q st' ok
      ltac:(lia) Hf1 Hf2 H HR) as (Hst' & new & -> & HN & HU).
    split; [lia|]. exists (nsp :: new). rewrite <- app_assoc. split; [done|]. split.
      * destruct ok; [|lia]. destruct HN as (n' & HN & Hn'). exists n'. split; [|lia].
        change (rev (p :: nsp :: new)) with (rev (nsp :: new) ++ [p]).
        rewrite map_app, <- app_assoc. exact HN.
      * intros Huf. destruct (HU Huf) as (k & Hk & He & Hl). exists (S k). split; [cbn; lia|].
        assert (Huc : unicode (top_flags ctx fl) = false) by (rewrite top_flags_uni; done).
        apply (consume_one_unit _ _ _ _ _ Huc) in E.
        change (rev (p :: nsp :: new)) with (rev (nsp :: new) ++ [p]). rewrite Hl.
        unfold run_ends in *.
        assert (Hgo : forall rv a k p, run_ends rv p a (S k) -> run_list rv a k ++ [p] = run_list rv a (S k)).
        { clear. intros rv a k. revert a. induction k as [|k IHk]; intros a p' He.
          - cbn. do 2 f_equal. unfold run_ends in He. destruct rv; lia.
          - change (a :: (run_list rv (if rv then a + 1 else a - 1)%nat k ++ [p']) =
              a :: run_list rv (if rv then a + 1 else a - 1)%nat (S k)).
            f_equal. apply IHk. unfold run_ends in *. destruct rv; lia. }
        split; [|apply Hgo; unfold run_ends]; destruct (x_reverse ctx); lia.
  - injection H as <- <- <- <-. split; [lia|]. exists [nsp]. split; [done|].
    split; [cbn; lia|]. intros Huf.
    assert (Huc : unicode (top_flags ctx fl) = false) by (rewrite top_flags_uni; done).
    apply (consume_one_unit _ _ _ _ _ Huc) in E. exists 1%nat. split; [done|].
    unfold run_ends. cbn. destruct (x_reverse ctx); (split; [lia|]); do 2 f_equal; lia.
Qed.

(** ** Doomed continuations *)

Lemma skip_saves_threads fuel : forall p0 st ms fl X n r,
  RN n (MkThread p0 st ms fl :: X) r ->
  exists n' sv', (n' <= n)%nat /\
    RN n' (MkThread (skip_saves (x_prog ctx) p0 fuel) (st.1, sv') ms fl :: X) r.
Proof.
  induction fuel as [|fuel IH]; intros p0 [p sv] ms fl X n r H; cbn [skip_saves]; [eauto|].
  destruct (x_prog ctx !! p0) as [i|] eqn:Ei; [|eauto]. destruct i; eauto.
  destruct (RunN_step _ _ _ _ _ _ _ _ Ei ltac:(done) eq_refl H) as (succ & n1 & Hp & -> & HR).
  cbn in Hp. destruct (sv !! slot); [|done]. injection Hp as <-. cbn in HR.
  apply IH in HR as (n' & sv' & Hn & HR). exists n', sv'. split; [lia|exact HR].
Qed.

Lemma doomed cont p sv ms fl X n r :
  continuation_cannot_start ctx cont p (top_flags ctx fl) = true ->
  Forall (fun f => unicode f = unicode (x_flags ctx)) fl ->
  RN n (at_cont cont sv ms fl p :: X) r -> exists n', (n' < n)%nat /\ RN n' X r.
Proof.
  unfold continuation_cannot_start. intros H Hu HR.
  destruct (x_reverse ctx || _ || _) eqn:E; [done|].
  apply orb_false_iff in E as [E E3]. apply orb_false_iff in E as [E1 E2].
  apply (skip_saves_threads (length (x_prog ctx))) in HR as (n1 & sv' & Hn1 & HR).
  destruct (x_prog ctx !! skip_saves _ _ _) as [i|] eqn:Ei; [|done]. destruct i; try done.
  destruct (c <=? 0xFFFF); [|done].
  apply (RunN_step _ _ _ _ _ _ _ _ Ei) in HR as (succ & n2 & Hp & -> & HR); [|done..].
  cbn in Hp. rewrite t_cur_top in Hp.
  assert (Hu' : unicode (x_flags ctx) = false) by (by rewrite <- (top_flags_uni fl)).
  rewrite Hu', E1 in Hp. unfold read_dir, read_cp in Hp. cbn in Hp.
  destruct (x_input ctx !! p) as [u|].
  - cbn in Hp. apply negb_true_iff in H. unfold cp_eq in Hp. rewrite H, E2 in Hp. cbn in Hp.
    injection Hp as <-. exists n2. split; [lia|exact HR].
  - injection Hp as <-. exists n2. split; [lia|exact HR].
Qed.

Lemma run_frame_threads cont first sv ms fl (Hb : budget ctx < U64_MAX) :
  Forall (fun f => unicode f = unicode (x_flags ctx)) fl ->
  forall fuel p k st X n r, (k < fuel)%nat -> st <= U64_MAX ->
  run_ends (x_reverse ctx) first p k ->
  RN n (map (at_cont cont sv ms fl) (run_list (x_reverse ctx) p k) ++ X) r ->
  match run_frame ctx cont first p (top_flags ctx fl) st fuel with
  | RunResume q rest st' =>
      st <= st' <= U64_MAX /\
      exists n' T, RN n' (at_cont cont sv ms fl q :: T) r /\ st' + Z.of_nat n' <= st + Z.of_nat n /\
      match rest with
      | None => T = X
      | Some q' => exists k', run_ends (x_reverse ctx) first q' k' /\
          T = map (at_cont cont sv ms fl) (run_list (x_reverse ctx) q' k') ++ X
      end
  | RunEmpty st' => st <= st' <= U64_MAX /\
      exists n', RN n' X r /\ st' + Z.of_nat n' <= st + Z.of_nat n
  | RunAbort st' => st <= st' <= U64_MAX /\ budget ctx < st' /\ budget ctx < st + Z.of_nat n
  end.
Proof.
  intros Hu. induction fuel as [|fuel IH]; intros p k st X n r Hk Hst He HR; [lia|].
  cbn [run_frame].
  assert (Hkf : (p =? first)%nat = (k =? 0)%nat).
  { apply eq_true_iff_eq. rewrite !Nat.eqb_eq. unfold run_ends in He. destruct (x_reverse ctx); lia. }
  rewrite Hkf.
  destruct (continuation_cannot_start ctx cont p (top_flags ctx fl)) eqn:Ec; cbn [negb].
  - destruct (tick ctx st) as [st1 ok1] eqn:Et. apply tick_spec in Et as [Ht Hok]; [|done..].
    destruct ok1; cbn [negb].
    + destruct Hok as [-> Hok]. destruct k as [|k]; cbn [Nat.eqb run_list map app] in *.
      * apply (doomed _ _ _ _ _ _ _ _ Ec Hu) in HR as (n' & Hn & HR).
        split; [lia|]. exists n'. split; [exact HR|lia].
      * apply (doomed _ _ _ _ _ _ _ _ Ec Hu) in HR as (n' & Hn & HR).
        apply (IH _ k (st + 1) X n' r) in HR; [|lia|lia|unfold run_ends in *; destruct (x_reverse ctx); lia].
        destruct (run_frame _ _ _ _ _ _ _) as [q [q'|] st'|st'|st'].
        -- destruct HR as (H1 & n2 & T & H2 & H3 & H4). split; [lia|]. exists n2, T. split; [done|]. split; [lia|done].
        -- destruct HR as (H1 & n2 & T & H2 & H3 & H4). split; [lia|]. exists n2, T. split; [done|]. split; [lia|done].
        -- destruct HR as (H1 & n2 & H2 & H3). split; [lia|]. exists n2. split; [done|]. lia.
        -- lia.
    + split; [lia|]. split; [lia|].
      destruct n as [|n]; [|lia]. exfalso. destruct k; cbn in HR; inversion HR.
  - split; [lia|]. destruct k as [|k]; cbn [Nat.eqb run_list map app] in *.
    + exists n, X. split; [exact HR|]. split; [lia|done].
    + eexists n, _. split; [exact HR|]. split; [lia|].
      exists k. split; [|done]. unfold run_ends in *. destruct (x_reverse ctx); lia.
Qed.

(** ** Unwinding *)

Definition unwound (fs : list Frame) (st : Z) (n : nat) (r : option Thread) (o : Outcome) : Prop :=
  match o with
  | Next e => st <= steps e <= U64_MAX /\ (length (frames e) <= length fs)%nat /\
      exists n' T, RN n' (thread_of e :: T) r /\ Sim e T /\
        steps e + Z.of_nat n' <= st + Z.of_nat n /\
        (length (frames e) + n' <= length fs + n)%nat
  | Done m e => m = false /\ st <= steps e <= U64_MAX /\
      ((r = None /\ steps e <= st + Z.of_nat n) \/
       (budget ctx < steps e /\ budget ctx < st + Z.of_nat n))
  | _ => False
  end.

Lemma unwound_later fs fs' st st' n n' r o :
  unwound fs' st' n' r o -> (length fs' <= length fs)%nat -> st <= st' ->
  st' + Z.of_nat n' <= st + Z.of_nat n -> (n' <= n)%nat -> unwound fs st n r o.
Proof.
  destruct o as [e|e|m e| |]; cbn; try done.
  - intros (H1 & H2 & n2 & T & H3 & H4 & H5 & H6) ????. split; [lia|]. split; [lia|].
    exists n2, T. split; [done|]. split; [done|]. lia.
  - intros (H1 & H2 & H3) ????. split; [done|]. split; [lia|]. destruct H3 as [[? ?]|[? ?]]; [left|right]; lia || (split; [done|lia]).
Qed.

Lemma unwind_refines (Hb : budget ctx < U64_MAX) fs : forall e T n r,
  cur e = top_flags ctx (flag_stack e) ->
  Forall (fun f => unicode f = unicode (x_flags ctx)) (flag_stack e) ->
  steps e <= U64_MAX ->
  Abs fs (slots e) (positions e) (saves e) (marks e) (flag_stack e) T ->
  RN n T r -> unwound fs (steps e) n r (unwind ctx fs e).
Proof.
  induction fs as [|fr fs IH]; intros e T n r Hc Hu Hst HA HR; inversion HA; subst; cbn [unwind].
  - inversion HR; subst. cbn. split; [done|]. split; [lia|]. left. split; [done|lia].
  - cbn. split; [lia|]. split; [lia|]. exists n, T0. split; [exact HR|]. split; [by split|]. lia.
  - eapply unwound_later; [eapply IH; [..|exact HR]; try done|cbn; lia|cbn; lia|cbn; lia|lia].
  - eapply unwound_later; [eapply IH; [..|exact HR]; try done|cbn; lia|cbn; lia|cbn; lia|lia].
  - eapply unwound_later; [eapply IH; [..|exact HR]; try done|cbn; lia|cbn; lia|cbn; lia|lia].
  - eapply unwound_later; [eapply IH; [..|exact HR]; try done|cbn; lia|cbn; lia|cbn; lia|lia].
  - eapply unwound_later; [eapply IH; [..|exact HR]; try done|cbn; lia|cbn; lia|cbn; lia|lia].
  - eapply unwound_later; [eapply IH; [..|exact HR]; try done|cbn; lia|cbn; lia|cbn; lia|lia].
  - eapply unwound_later; [eapply IH; [..|exact HR]; try done|cbn; lia|cbn; lia|cbn; lia|lia].
    cbn. by constructor.
  - match goal with H : run_ends _ _ _ _ |- _ => rename H into He end.
    pose proof (run_frame_threads cont first (saves e) (marks e) (flag_stack e) Hb Hu (run_fuel first p) p k (steps e) T0 n r
      ltac:(unfold run_fuel, run_ends in *; destruct (x_reverse ctx); lia) Hst He HR) as HF.
    destruct (run_frame _ _ _ _ _ _ _) as [q rest st'|st'|st'].
    + destruct HF as (H1 & n' & T & H2 & H3 & H4). cbn. split; [lia|].
      split; [destruct rest; cbn; lia|]. exists n', T. split; [exact H2|]. split.
      * split; [done..|]. cbn. destruct rest as [q'|]; [|by subst].
        destruct H4 as (k' & H4 & ->). by constructor.
      * split; [lia|]. assert (n' <= n)%nat by lia. destruct rest; cbn; lia.
    + destruct HF as (H1 & n' & H2 & H3).
      eapply unwound_later; [eapply IH; [..|exact H2]; try done|cbn; lia|cbn; lia|cbn; lia|lia]; cbn; lia.
    + cbn. split; [done|]. split; [lia|]. right. lia.
  - match goal with H : (base < _)%nat |- _ => rename H into Hlt end.
    match goal with H : Abs fs _ _ _ _ _ _ |- _ => rename H into HA' end.
    assert (Hsp : exists ps p, positions e = ps ++ [p] /\ (base <= length ps)%nat).
    { destruct (positions e) as [|x l] using rev_ind; [cbn in Hlt; lia|].
      exists l, x. split; [done|]. rewrite length_app in Hlt. cbn in Hlt. lia. }
    destruct Hsp as (ps & p & Eps & Hps). rewrite Eps in *. rewrite rev_app_distr. cbn [rev app].
    rewrite rev_involutive. rewrite drop_app_le, rev_app_distr in HR by lia. cbn [rev app map] in HR.
    rewrite take_app_le in HA' by lia.
    cbn -[Nat.ltb]. split; [lia|]. split; [destruct (base <? length ps)%nat; cbn -[Nat.ltb]; lia|].
    exists n, (map (at_cont cont (saves e) (marks e) (flag_stack e)) (rev (drop base ps)) ++ T0).
    split; [exact HR|]. split.
    + split; [done..|]. cbn -[Nat.ltb]. destruct (Nat.ltb_spec base (length ps)); [by constructor|].
      rewrite drop_ge by lia. cbn -[Nat.ltb]. rewrite take_ge in HA' by lia. exact HA'.
    + split; [lia|]. destruct (base <? length ps)%nat; cbn; lia.
  - match goal with H : x_prog ctx !! S split = _ |- _ => rename H into Hi; rewrite Hi end.
    match goal with H : x_prog ctx !! split = _ |- _ => rename H into Hs end.
    match goal with H : x_prog ctx !! S (S split) = _ |- _ => rename H into Hj end.
    match goal with H : is_single_consume _ = _ |- _ => rename H into Hcs end.
    apply (RunN_step _ _ _ _ _ _ _ _ Hi) in HR as (succ & n1 & Hp & -> & HR); [|by destruct i..].
    unfold at_cont in Hp. rewrite consume_one_thread in Hp; [|done..].
    destruct (consume_one i _ s _ _) as [nsp|].
    + injection Hp as <-. cbn [app] in HR.
      apply (RunN_step _ _ _ _ _ _ _ _ Hj) in HR as (succ & n2 & Hp & -> & HR); [|done..].
      injection Hp as <-. cbn [app goto t_st t_pc t_marks t_flags] in HR.
      apply (RunN_step _ _ _ _ _ _ _ _ Hs) in HR as (succ & n3 & Hp & -> & HR); [|done..].
      injection Hp as <-. cbn [app goto t_st t_pc t_marks t_flags] in HR.
      cbn. split; [lia|]. split; [lia|]. eexists n3, _. split; [exact HR|]. split; [|lia].
      split; [done..|]. cbn. by eapply A_lazy.
    + injection Hp as <-.
      eapply unwound_later; [eapply IH; [..|exact HR]; try done|cbn; lia|cbn; lia|cbn; lia|lia].
Qed.

(** What unwinding does whether or not the threads come to an end. *)
Lemma unwind_safe fs : forall e T,
  Abs fs (slots e) (positions e) (saves e) (marks e) (flag_stack e) T ->
  match unwind ctx fs e with Next _ => True | Done m _ => m = false | _ => False end.
Proof.
  induction fs as [|fr fs IH]; intros e T HA; inversion HA; subst; cbn [unwind]; try done;
    try (eapply IH; done).
  - destruct (run_frame _ _ _ _ _ _ _); [done| |done]. by eapply IH.
  - destruct (rev (positions e)) as [|p ps] eqn:E; [|done].
    apply (f_equal length) in E. rewrite length_rev in E. cbn in E. lia.
  - match goal with H : x_prog ctx !! S split = _ |- _ => rewrite H end.
    destruct (consume_one _ _ _ _ _); [done|]. by eapply IH.
Qed.

(** ** One instruction *)

Definition advanced (e : Exec) (n : nat) (r : option Thread) (e' : Exec) (ts : list Thread) (T : list Thread) : Prop :=
  exists n', RN n' (ts ++ T) r /\ Sim e' T /\ steps e <= steps e' <= U64_MAX /\
    steps e' + Z.of_nat n' + 1 <= steps e + Z.of_nat n /\
    (length (frames e') <= S (length (frames e)))%nat /\
    (length (frames e') + n' <= length (frames e) + n)%nat.

Definition stepped (lim : Limits) (e : Exec) (n : nat) (r : option Thread) (o : Outcome) : Prop :=
  match o with
  | Next e' => exists T, advanced e n r e' [thread_of e'] T
  | Break e' => exists T, advanced e n r e' [] T
  | Done true e' => r = Some (thread_of e') /\ steps e' = steps e /\ (1 <= n)%nat
  | Done false e' => steps e <= steps e' <= U64_MAX /\
      ((budget ctx < steps e' /\ budget ctx + 1 < steps e + Z.of_nat n) \/
       (MAX_STACK lim < Z.of_nat (length (frames e)) /\ (1 <= n)%nat))
  | Crash | NoFuel => False
  end.

Lemma Sim_at e T p s : Sim e T -> Sim (at_ e p s) T.
Proof. by intros []. Qed.

Section forward.
Context (lim : Limits) (run_look : bool -> list Inst -> Exec -> Result).
Context (Hb : budget ctx < U64_MAX) (Hend : match_end ctx = None).

(** The cases where the thread and the frame stack move together by one step. *)
Lemma to_next e n n1 r e' T ts :
  RN n1 (ts ++ T) r -> n = S n1 -> Sim e' T -> steps e' = steps e -> steps e <= U64_MAX ->
  (length (frames e') <= S (length (frames e)))%nat -> advanced e n r e' ts T.
Proof. intros HR -> HS Est Hst Hl. exists n1. split_and!; [exact HR|exact HS|lia..]. Qed.

Lemma simple_loop_inv split c cont g : simple_loop (x_prog ctx) split = Some (c, cont, g) ->
  c = S split /\ x_prog ctx !! split = Some (if g then Split (S split) cont else Split cont (S split)) /\
  (exists i, x_prog ctx !! S split = Some i /\ is_single_consume i = true) /\
  x_prog ctx !! S (S split) = Some (Jmp split).
Proof.
  unfold simple_loop. destruct (x_prog ctx !! split) as [[]|] eqn:E; try done.
  replace (split + 1)%nat with (S split) by lia. replace (split + 2)%nat with (S (S split)) by lia.
  destruct (x_prog ctx !! S split) as [i|] eqn:Ei; [|rewrite !andb_false_r; done].
  destruct (x_prog ctx !! S (S split)) as [j|] eqn:Ej; [|rewrite !andb_false_r; done].
  destruct j as [| | | | |t| | | | | | | | | | | | |]; try (rewrite !andb_false_r; done).
  destruct (Nat.eqb_spec t split) as [->|]; [|rewrite !andb_false_r; done].
  rewrite andb_true_r. destruct (is_single_consume i) eqn:Es; [|rewrite !andb_false_r; done].
  rewrite !andb_true_r.
  destruct (Nat.eqb_spec a (S split)) as [->|].
  - intros [= <- <- <-]. eauto 6.
  - destruct (Nat.eqb_spec b (S split)) as [->|]; [|done]. intros [= <- <- <-]. eauto 6.
Qed.

Lemma split_stepped e T n r a b :
  x_prog ctx !! pc e = Some (Split a b) -> Sim e T -> steps e <= U64_MAX ->
  RN n (thread_of e :: T) r -> stepped lim e n r (split_step lim ctx a b e).
Proof using Hb.
  intros Hi [Hc Hu HA] Hst HR. unfold split_step.
  destruct (simple_loop (x_prog ctx) (pc e)) as [[[c cont] g]|] eqn:Es.
  - apply simple_loop_inv in Es as (-> & Hsp & (i & Hci & Hcs) & Hj). rewrite Hci.
    destruct g; cbn [andb].
    + destruct (consume_run ctx i (cur e) (S (length (x_input ctx))) (sp e) (steps e) []) as [[[l q] st'] ok] eqn:Ec.
      rewrite Hc in Ec.
      destruct (greedy_threads (pc e) i cont (saves e) (marks e) (flag_stack e) Hb Hsp Hci Hcs Hj Hu
        (S (length (x_input ctx))) (sp e) (steps e) [] T n r l q st' ok Hst ltac:(lia)
        ltac:(unfold room; destruct (x_reverse ctx); lia) Ec HR) as (Hst' & new & El & HN & HU).
      cbn [app] in El. subst l.
      destruct (unicode (x_flags ctx)) eqn:Eu; cbn [negb].
      * destruct ok; cbn [negb].
        -- destruct HN as (n' & HN & Hn'). eexists _, n'. split_and!; [exact HN| |cbn; lia..].
           split; [exact Hc|rewrite Eu; exact Hu|]. cbn [cur frames slots positions saves marks flag_stack push_frame with_frames with_positions with_steps at_].
           replace (rev (sp e :: new)) with
             (rev (drop (length (positions e)) (positions e ++ sp e :: new))) by (by rewrite drop_app_length).
           constructor; [rewrite length_app; cbn; lia|]. by rewrite take_app_length.
        -- cbn. split; [lia|]. left. lia.
      * destruct ok; cbn [negb].
        -- destruct HN as (n' & HN & Hn'). destruct (HU eq_refl) as (k & Hk & He & Hl). rewrite Hl in HN.
           eexists _, n'. split_and!; [exact HN| |cbn; lia..].
           split; [exact Hc|rewrite Eu; exact Hu|]. cbn [cur frames slots positions saves marks flag_stack push_frame with_frames with_positions with_steps at_].
           rewrite Hc. by constructor.
        -- cbn. split; [lia|]. left. lia.
    + destruct (RunN_step _ _ _ _ _ _ _ _ Hsp ltac:(done) eq_refl HR) as (succ & n1 & Hp & -> & HR').
      injection Hp as <-. eexists. eapply to_next; [exact HR'|done| |done|done|cbn; lia].
      split; [exact Hc|exact Hu|]. cbn. rewrite Hc. by eapply A_lazy.
  - destruct (Z.ltb_spec (MAX_STACK lim) (Z.of_nat (length (frames e)))) as [Hlt|Hge].
    + cbn. split; [lia|]. right. split; [done|]. destruct n; [inversion HR|lia].
    + destruct (RunN_step _ _ _ _ _ _ _ _ Hi ltac:(done) eq_refl HR) as (succ & n1 & Hp & -> & HR').
      injection Hp as <-. eexists. eapply to_next; [exact HR'|done| |done|done|cbn; lia].
      split; [exact Hc|exact Hu|]. cbn. by constructor.
Qed.

Lemma consume_stepped e T n r i :
  x_prog ctx !! pc e = Some i -> is_single_consume i = true -> Sim e T -> steps e <= U64_MAX ->
  RN n (thread_of e :: T) r -> stepped lim e n r (consume_step ctx i e).
Proof.
  intros Hi Hs HS Hst HR. destruct HS as [Hc Hu HA].
  destruct (RunN_step _ _ _ _ _ _ _ _ Hi ltac:(by destruct i) ltac:(by destruct i) HR) as (succ & n1 & Hp & -> & HR').
  unfold consume_step.
  assert (E : Some succ = Some match read_dir (x_input ctx) (sp e) (unicode (x_flags ctx)) (x_reverse ctx) with
    | Some (cp, nsp) => if single_consume_matches i cp (cur e)
        then [MkThread (S (pc e)) (nsp, saves e) (marks e) (flag_stack e)] else []
    | None => []
    end).
  { rewrite <- Hp, Hc. by destruct i. }
  injection E as ->.
  destruct (read_dir _ _ _ _) as [[cp nsp]|]; [destruct (single_consume_matches i cp (cur e))|];
    eexists; (eapply to_next; [exact HR'|done|by split|done|done|cbn; lia]).
Qed.

Lemma backref_stepped e T n r i span :
  x_prog ctx !! pc e = Some i -> i <> Match -> look_of i = None ->
  pstep (x_input ctx) (x_reverse ctx) (x_flags ctx) i (thread_of e) =
    t_backref (x_input ctx) (x_reverse ctx) (x_flags ctx) (thread_of e) span ->
  Sim e T -> steps e <= U64_MAX ->
  RN n (thread_of e :: T) r -> stepped lim e n r (backref_step ctx span e).
Proof.
  intros Hi Hm Hl Hps [Hc Hu HA] Hst HR.
  destruct (RunN_step _ _ _ _ _ _ _ _ Hi Hm Hl HR) as (succ & n1 & Hp & -> & HR').
  change (MkThread _ _ _ _) with (thread_of e) in Hp. rewrite Hps in Hp. clear Hps.
  unfold backref_step, t_backref, thread_of in *. rewrite t_cur_top, <- Hc in Hp.
  cbn [t_st fst snd t_pc] in Hp.
  destruct span as [[s en]|].
  - destruct (match_backref _ _ _ _ _ _) as [[nsp|]|]; [..|done]; injection Hp as <-;
      eexists; (eapply to_next; [exact HR'|done|by split|done|done|cbn; lia]).
  - injection Hp as <-. eexists. eapply to_next; [exact HR'|done|by split|done|done|cbn; lia].
Qed.

Lemma forward_stepped e T n r i :
  x_prog ctx !! pc e = Some i -> look_of i = None -> Sim e T -> steps e <= U64_MAX ->
  RN n (thread_of e :: T) r -> stepped lim e n r (forward_inst lim ctx run_look i e).
Proof using Hb Hend.
  intros Hi Hl HS Hst HR. assert (HS' := HS). destruct HS' as [Hc Hu HA].
  destruct i; cbn [forward_inst]; try done; try (by eapply consume_stepped);
    try (by eapply split_stepped); try (by eapply backref_stepped).
  1: { rewrite Hend. inversion HR; subst; cbn [t_pc thread_of] in *; simplify_eq.
       - cbn. split; [done|]. split; [done|lia]. }
  all: destruct (RunN_step _ _ _ _ _ _ _ _ Hi ltac:(done) eq_refl HR) as (succ & n1 & Hp & -> & HR');
    cbn -[Nat.min Nat.ltb assert_ok] in Hp.
  - injection Hp as <-. eexists. eapply to_next; [exact HR'|done|by split|done|done|cbn; lia].
  - destruct (saves e !! slot) as [old|] eqn:Eo; [|done]. injection Hp as <-. eexists.
    eapply to_next; [exact HR'|done| |done|done|cbn; lia].
    split; [exact Hc|exact Hu|]. cbn. constructor.
    rewrite list_insert_insert_eq, list_insert_id by done. exact HA.
  - rewrite t_cur_top, <- Hc in Hp. destruct (assert_ok _ _ _ _) as [[]|]; [..|done]; injection Hp as <-;
      eexists; (eapply to_next; [exact HR'|done|by split|done|done|cbn; lia]).
  - destruct (_ <? _)%nat eqn:El; [done|]. injection Hp as <-. eexists.
    eapply to_next; [exact HR'|done| |done|done|cbn; lia]. apply Nat.ltb_ge in El.
    split; [exact Hc|exact Hu|]. cbn -[Nat.min]. constructor.
    match goal with |- context [take ?k (drop ?lo (saves e))] => set (nn := k) in *; set (ll := lo) in * end.
    assert (Hch : length (take nn (drop ll (saves e))) = nn) by (rewrite length_take, length_drop; lia).
    destruct (side_stack (slots e) _ nn Hch) as [-> ->].
    rewrite restore_clear by lia. exact HA.
  - injection Hp as <-. eexists. eapply to_next; [exact HR'|done| |done|done|cbn; lia].
    split; [exact Hc|exact Hu|]. by constructor.
  - destruct (marks e) as [|m ms] eqn:Em.
    + injection Hp as <-. cbn in HR'. rewrite <- Em in HR'. eexists.
      eapply to_next; [exact HR'|done|by apply Sim_at|done|done|cbn; lia].
    + destruct (sp e =? m)%nat; injection Hp as <-; eexists;
        (eapply to_next; [exact HR'|done| |done|done|cbn; lia]); [exact HS|].
      split; [exact Hc|exact Hu|]. cbn. constructor. exact HA.
  - injection Hp as <-. eexists. eapply to_next; [exact HR'|done|by split|done|done|cbn; lia].
  - injection Hp as <-. rewrite t_cur_top, <- Hc in HR'. eexists.
    eapply to_next; [exact HR'|done| |done|done|cbn; lia].
    split; [done| |].
    + cbn. constructor; [|exact Hu]. cbn. rewrite Hc. by apply top_flags_uni.
    + cbn. by constructor.
  - injection Hp as <-. destruct (flag_stack e) as [|f fl] eqn:Ef; cbn [tail] in HR'.
    + eexists. eapply to_next; [exact HR'|done| |done|done|cbn; lia].
      split; [done|done|exact HA].
    + eexists. eapply to_next; [exact HR'|done| |done|done|cbn; lia].
      inversion Hu; subst. split; [done|done|]. cbn. by constructor.
Qed.

End forward.

End ctx.

(** ** The executor *)

(** The nesting of lookarounds in a program. *)
Fixpoint inst_depth (i : Inst) : nat :=
  match i with
  | Look _ p | LookBehind _ p => S (fold_right (fun i d => Nat.max (inst_depth i) d) 0%nat p)
  | _ => 0%nat
  end.

Definition prog_depth (p : list Inst) : nat := fold_right (fun i d => Nat.max (inst_depth i) d) 0%nat p.

Lemma prog_depth_look P p0 i neg lrev sub :
  P !! p0 = Some i -> look_of i = Some (neg, lrev, sub) -> (S (prog_depth sub) <= prog_depth P)%nat.
Proof.
  intros Hi Hl. assert (E : inst_depth i = S (prog_depth sub)).
  { destruct i; try done; injection Hl as <- <- <-; done. }
  rewrite <- E. clear -Hi. revert p0 Hi. induction P as [|j P IH]; intros [|p0] Hi; try done; cbn.
  - injection Hi as ->. lia.
  - apply IH in Hi. unfold prog_depth in Hi. lia.
Qed.

(** The captures of a thread keep their number. *)
Lemma pstep_length input rev base i t succ :
  pstep input rev base i t = Some succ ->
  Forall (fun t' => length (t_st t').2 = length (t_st t).2) succ.
Proof.
  assert (Hb : forall span, t_backref input rev base t span = Some succ ->
    Forall (fun t' => length (t_st t').2 = length (t_st t).2) succ).
  { intros [[s e]|]; cbn; [destruct (match_backref _ _ _ _ _ _) as [[]|]|]; try done;
      intros [= <-]; repeat constructor. }
  destruct i; cbn -[Nat.min Nat.ltb assert_ok]; try done; try (apply Hb); repeat case_match; try done;
    try (intros [= <-]; repeat constructor; done).
  - intros [= <-]. repeat constructor. cbn. apply length_insert.
  - intros [= <-]. repeat constructor. cbn. apply length_clear_slots.
Qed.

Lemma RunN_length input rev base P n ts r L :
  RunN input rev base P n ts r -> Forall (fun t => length (t_st t).2 = L) ts ->
  forall t, r = Some t -> length (t_st t).2 = L.
Proof.
  intros HR. revert L. induction HR as [| |? ? ? t ts i succ n r Hi Hp HR IH
    |? ? ? t ts i neg lrev sub m r' n r Hi Hl Hm IHm HR IH]; intros L HF t' E.
  - done.
  - injection E as <-. by inversion HF.
  - inversion HF as [|? ? Ht HF']; subst. eapply IH; [|done]. apply Forall_app. split; [|done].
    by apply pstep_length in Hp.
  - inversion HF as [|? ? Ht HF']; subst. eapply IH; [|done]. apply Forall_app. split; [|done].
    unfold look_next. destruct r' as [t2|], neg; repeat constructor. cbn.
    eapply (IHm (length (t_st t).2)); [|done]. by repeat constructor.
Qed.

(** How a run of the executor relates to the run of the threads. *)
Definition settled (lim : Limits) (ctx : Ctx) (big : bool) (nframes st n : Z) (r : option Thread)
    (res : Result) : Prop :=
  exists m sv st', res = Ret m sv st' /\ st <= st' <= U64_MAX /\
    ((st' <= st + n /\ match r with Some t => m = true /\ sv = (t_st t).2 | None => m = false end) \/
     (m = false /\ budget ctx < st' /\ budget ctx < st + n) \/
     (m = false /\ big = false /\ MAX_STACK lim < nframes + n)).

Lemma settled_mono lim ctx big f f' st st' n n' r res :
  settled lim ctx big f' st' n' r res -> f' + n' <= f + n -> st' + n' <= st + n -> st <= st' ->
  settled lim ctx big f st n r res.
Proof.
  intros (m & sv & s & E & Hs & H) Hf Hst Hle. exists m, sv, s. split; [done|]. split; [lia|].
  destruct H as [[H1 H2]|[(H1 & H2 & H3)|(H1 & H2 & H3)]]; [left|right; left|right; right];
    (split; [|try done]); try lia; try done; split; try done; lia.
Qed.

(** Past the budget, the next iteration gives up. *)
Lemma loop_over lim fuel ctx depth e :
  budget ctx < U64_MAX -> steps e <= U64_MAX -> (0 < fuel)%nat -> budget ctx < steps e ->
  exists sv st, loop fuel lim ctx depth e = Ret false sv st /\ budget ctx < st <= U64_MAX.
Proof.
  intros Hb He Hf Ho. destruct fuel as [|fuel]; [lia|]. cbn [loop]. unfold forward.
  destruct (tick ctx (steps e)) as [st ok] eqn:Et. apply tick_spec in Et as [Ht Hok]; [|done..].
  destruct ok; [lia|]. cbn [negb]. eexists _, _. split; [done|]. cbn. lia.
Qed.

Lemma with_steps_sim ctx e st T : Sim ctx e T -> Sim ctx (with_steps e st) T.
Proof. by intros []. Qed.

(** The frames fit under the cap until the budget is out, or there is no
    lookaround whose failure could be taken for an answer. *)
Definition roomy (lim : Limits) (ctx : Ctx) (big : bool) (e : Exec) : Prop :=
  if big then Z.of_nat (length (frames e)) + Z.max 0 (budget ctx - steps e) <= MAX_STACK lim
  else prog_depth (x_prog ctx) = 0%nat.

Lemma roomy_next lim ctx big e e' :
  roomy lim ctx big e -> steps e + 1 <= budget ctx -> steps e + 1 <= steps e' ->
  (length (frames e') <= S (length (frames e)))%nat -> roomy lim ctx big e'.
Proof. unfold roomy. destruct big; lia. Qed.

Definition refines_at (lim : Limits) (fuel : nat) : Prop := forall ctx depth e T n r big,
  budget ctx < U64_MAX -> match_end ctx = None -> steps e <= U64_MAX ->
  Sim ctx e T ->
  RunN (x_input ctx) (x_reverse ctx) (x_flags ctx) (x_prog ctx) n (thread_of e :: T) r ->
  (0 < fuel)%nat -> budget ctx - steps e < Z.of_nat fuel ->
  depth + Z.of_nat (prog_depth (x_prog ctx)) <= MAX_DEPTH lim -> roomy lim ctx big e ->
  settled lim ctx big (Z.of_nat (length (frames e))) (steps e) (Z.of_nat n) r (loop fuel lim ctx depth e).

(** What is left of an iteration after its forward step. *)
Definition rest_of (lim : Limits) (fuel : nat) (ctx : Ctx) (depth : Z) (o : Outcome) : Result :=
  match (match o with Break e => unwind ctx (frames e) e | o => o end) with
  | Next e | Break e => loop fuel lim ctx depth e
  | Done m e => Ret m (saves e) (steps e)
  | Crash => Panicked
  | NoFuel => OutOfFuel
  end.

Section iteration.
Context (lim : Limits) (fuel : nat) (IH : refines_at lim fuel).
Context (ctx : Ctx) (depth : Z) (big : bool).
Context (Hb : budget ctx < U64_MAX) (Hend : match_end ctx = None).
Context (Hdep : depth + Z.of_nat (prog_depth (x_prog ctx)) <= MAX_DEPTH lim).

Abbreviation RN := (RunN (x_input ctx) (x_reverse ctx) (x_flags ctx) (x_prog ctx)).

(** [e] is the state before the tick. *)
Lemma rest_next e e' T n n' r :
  steps e + 1 <= budget ctx -> budget ctx - steps e < Z.of_nat (S fuel) -> roomy lim ctx big e ->
  RN n' (thread_of e' :: T) r -> Sim ctx e' T -> steps e + 1 <= steps e' <= U64_MAX ->
  steps e' + Z.of_nat n' <= steps e + Z.of_nat n ->
  (length (frames e') <= S (length (frames e)))%nat ->
  (length (frames e') + n' <= length (frames e) + n)%nat ->
  settled lim ctx big (Z.of_nat (length (frames e))) (steps e) (Z.of_nat n) r (loop fuel lim ctx depth e').
Proof using IH Hb Hend Hdep.
  intros Hle Hf Hr HR HS Hst Hn Hfr Hfn.
  assert (Hfn' : Z.of_nat (length (frames e')) + Z.of_nat n' <= Z.of_nat (length (frames e)) + Z.of_nat n) by lia.
  eapply settled_mono; [|exact Hfn'|exact Hn|lia].
  apply (IH ctx depth e' T n' r big); [done|done|lia|done|done|lia|lia|done|].
  apply (roomy_next lim ctx big e e'); [done|lia|lia|done].
Qed.

Lemma rest_unwind e e' T n n' r :
  steps e + 1 <= budget ctx -> budget ctx - steps e < Z.of_nat (S fuel) -> roomy lim ctx big e ->
  RN n' T r -> Sim ctx e' T -> steps e + 1 <= steps e' <= U64_MAX ->
  steps e' + Z.of_nat n' <= steps e + Z.of_nat n ->
  (length (frames e') <= S (length (frames e)))%nat ->
  (length (frames e') + n' <= length (frames e) + n)%nat ->
  settled lim ctx big (Z.of_nat (length (frames e))) (steps e) (Z.of_nat n) r
    (rest_of lim fuel ctx depth (Break e')).
Proof using IH Hb Hend Hdep.
  intros Hle Hf Hr HR [Hc Hu HA] Hst Hn Hfr Hfn. unfold rest_of.
  pose proof (unwind_refines ctx Hb (frames e') e' T n' r Hc Hu ltac:(lia) HA HR) as HU.
  destruct (unwind ctx (frames e') e') as [e2|e2|m e2| |]; try done.
  - destruct HU as (H1 & H2 & n2 & T2 & H3 & H4 & H5 & H6).
    eapply rest_next; try done; lia.
  - destruct HU as (-> & H1 & H2). eexists _, _, _. split; [done|]. split; [lia|].
    destruct H2 as [[-> H2]|H2]; [left; split; [lia|done]|right; left; split; [done|lia]].
Qed.

Lemma rest_stepped e o n r :
  steps e + 1 <= budget ctx -> budget ctx - steps e < Z.of_nat (S fuel) -> roomy lim ctx big e ->
  stepped ctx lim (with_steps e (steps e + 1)) n r o ->
  settled lim ctx big (Z.of_nat (length (frames e))) (steps e) (Z.of_nat n) r (rest_of lim fuel ctx depth o).
Proof using IH Hb Hend Hdep.
  intros Hle Hf Hr HS. destruct o as [e'|e'|m e'| |]; try done.
  - destruct HS as (T & n' & HR & HS & H1 & H2 & H3 & H4). cbn in H1, H2, H3, H4.
    unfold rest_of. eapply rest_next; try done; lia.
  - destruct HS as (T & n' & HR & HS & H1 & H2 & H3 & H4). cbn in H1, H2, H3, H4.
    eapply rest_unwind; try done; lia.
  - unfold rest_of. destruct m.
    + destruct HS as (-> & H1 & H2). cbn in H1. eexists _, _, _. split; [done|]. split; [unfold U64_MAX in *; lia|].
      left. split; [lia|done].
    + destruct HS as (H1 & H2). cbn in H1, H2. eexists _, _, _. split; [done|]. split; [lia|].
      destruct H2 as [H2|[H2 H3]]; [right; left; split; [done|lia]|].
      unfold roomy in Hr. destruct big; [lia|]. right; right. split; [done|]. split; [done|lia].
Qed.

(** A lookaround: its sub-program settles, then the thread goes on or fails. *)
Lemma rest_look e T n r i neg lrev sub :
  steps e + 1 <= budget ctx -> budget ctx - steps e < Z.of_nat (S fuel) -> roomy lim ctx big e ->
  x_prog ctx !! pc e = Some i -> look_of i = Some (neg, lrev, sub) -> Sim ctx e T ->
  RN n (thread_of e :: T) r ->
  let e1 := with_steps e (steps e + 1) in
  let run_look rev prog e0 :=
    let sub := look_ctx ctx rev prog (cur e0) in
    enter (loop fuel lim sub (depth + 1)) lim sub (depth + 1) 0 (sp e0) (saves e0) [] [cur e0] (steps e0) in
  settled lim ctx big (Z.of_nat (length (frames e))) (steps e) (Z.of_nat n) r
    (rest_of lim fuel ctx depth (look_step run_look neg lrev sub e1)).
Proof using IH Hb Hend Hdep.
  intros Hle Hf Hr Hi Hl HS HR e1 run_look.
  assert (Hd := prog_depth_look _ _ _ _ _ _ Hi Hl).
  assert (Hbig : Z.of_nat (length (frames e)) + Z.max 0 (budget ctx - steps e) <= MAX_STACK lim).
  { clear -Hr Hd. unfold roomy in Hr. destruct big; [done|lia]. }
  assert (HS' := HS). destruct HS' as [Hc Hu HA].
  inversion HR; subst; cbn [t_pc thread_of] in *; try (simplify_eq; done).
  { exfalso. assert (i0 = i) as -> by congruence. by destruct i. }
  assert (i0 = i) as -> by congruence. assert (neg0 = neg /\ lrev0 = lrev /\ sub0 = sub) as (-> & -> & ->) by naive_solver.
  match goal with H : RunN _ lrev _ sub m _ r' |- _ => rename H into HM end.
  match goal with H : RN n0 _ r |- _ => rename H into HN end.
  unfold look_step, run_look, enter. destruct (Z.ltb_spec (MAX_DEPTH lim) (depth + 1)); [lia|].
  set (sctx := look_ctx ctx lrev sub (cur e1)). set (se := MkExec _ _ _ _ _ _ _ _ _ _).
  assert (Hset : settled lim sctx true 0 (steps e + 1) (Z.of_nat m) r' (loop fuel lim sctx (depth + 1) se)).
  { apply (IH sctx (depth + 1) se [] m r' true); [done|done| | | | | | |].
    - change (steps se) with (steps e + 1). lia.
    - split; [done| |constructor]. cbn. by repeat constructor.
    - unfold thread_of in HM. rewrite t_cur_top, <- Hc in HM. exact HM.
    - lia.
    - change (steps se) with (steps e + 1). change (budget sctx) with (budget ctx). lia.
    - change (x_prog sctx) with sub. lia.
    - unfold roomy. change (steps se) with (steps e + 1). change (budget sctx) with (budget ctx).
      change (length (frames se)) with 0%nat. lia. }
  destruct Hset as (mt & sv & st' & -> & Hst' & Hres).
  destruct Hres as [[Q1 Q2]|[(-> & Q2 & Q3)|(_ & Hx & _)]]; [..|done].
  - assert (Eq : Bool.eqb mt neg = match look_next neg (thread_of e) r' with [] => true | _ => false end).
    { unfold look_next. destruct r' as [t'|]; [destruct Q2 as [-> _]|subst mt]; by destruct neg. }
    destruct (Bool.eqb mt neg) eqn:Em.
    + assert (En : look_next neg (thread_of e) r' = []).
      { by destruct (look_next _ _ _). }
      rewrite En in HN. eapply (rest_unwind e _ T); [done|done|done|exact HN|by apply with_steps_sim, with_steps_sim|cbn; lia..].
    + unfold rest_of. unfold look_next in HN. destruct r' as [t'|], neg; [destruct Q2 as [-> ->]; done| |subst mt|subst mt; done].
      * destruct Q2 as [-> ->]. cbn [app] in HN.
        assert (HL : length (t_st t').2 = length (saves e)).
        { eapply RunN_length; [exact HM| |done]. by repeat constructor. }
        eapply (rest_next e _ T); [done|done|done|exact HN| |cbn; lia..].
        split; [exact Hc|exact Hu|]. cbn. constructor.
        destruct (side_stack (slots e) (saves e) (length (t_st t').2) (eq_sym HL)) as [-> ->].
        rewrite restore_all by done. exact HA.
      * cbn [app] in HN. eapply (rest_next e _ T); [done|done|done|exact HN| |cbn; lia..].
        by split.
  - assert (Hover : forall e2, st' <= steps e2 <= U64_MAX -> (0 < fuel)%nat ->
      settled lim ctx big (Z.of_nat (length (frames e))) (steps e) (Z.of_nat (S (m + n0))) r (loop fuel lim ctx depth e2)).
    { intros e2 He2 Hfu. destruct (loop_over lim fuel ctx depth e2 Hb ltac:(lia) Hfu) as (sv2 & st2 & -> & Hst2).
      - cbn in Q2. lia.
      - eexists _, _, _. split; [done|]. split; [lia|]. right; left. cbn in Q3. split; [done|]. lia. }
    cbn in Q2, Q3. destruct neg; cbn [Bool.eqb].
    + unfold rest_of. apply Hover; cbn; lia.
    + unfold rest_of. set (e3 := with_steps e1 st').
      pose proof (unwind_safe ctx (frames e3) e3 T HA) as Hsafe.
      pose proof (unwind_later ctx (frames e3) e3 st' Hb ltac:(split; cbn; lia)) as Hlat.
      destruct (unwind ctx (frames e3) e3) as [e4|e4|m4 e4| |]; try done; unfold later in Hlat; cbn in Hlat.
      * apply Hover; lia.
      * subst m4. eexists _, _, _. split; [done|]. split; [lia|]. right; left. split; [done|]. lia.
Qed.

End iteration.

(** The recursive call for a lookaround. *)
Definition rest_of_look (lim : Limits) (fuel : nat) (ctx : Ctx) (depth : Z)
    (rev : bool) (prog : list Inst) (e : Exec) : Result :=
  let sub := look_ctx ctx rev prog (cur e) in
  enter (loop fuel lim sub (depth + 1)) lim sub (depth + 1) 0 (sp e) (saves e) [] [cur e] (steps e).

Lemma loop_step lim fuel ctx depth e :
  loop (S fuel) lim ctx depth e =
  rest_of lim fuel ctx depth (forward lim ctx (rest_of_look lim fuel ctx depth) e).
Proof. cbn [loop]. unfold rest_of, rest_of_look. cbv zeta. by destruct (forward _ _ _ _). Qed.

Lemma loop_refines lim fuel : refines_at lim fuel.
Proof.
  induction fuel as [|fuel IH]; intros ctx depth e T n r big Hb Hend He HS HR Hf Hlt Hdep Hroom; [lia|].
  rewrite loop_step. unfold forward.
  destruct (tick ctx (steps e)) as [st ok] eqn:Et. apply tick_spec in Et as [Ht Hok]; [|done..].
  assert (Hn : (1 <= n)%nat) by (inversion HR; lia).
  destruct ok; cbn [negb].
  2:{ eexists _, _, _. split; [done|]. cbn. split; [lia|]. right; left. split; [done|lia]. }
  destruct Hok as [-> Hle]. change (pc (with_steps e (steps e + 1))) with (pc e).
  assert (Hpc : exists i, x_prog ctx !! pc e = Some i) by (inversion HR; eauto).
  destruct Hpc as [i Hi]. rewrite Hi.
  destruct (look_of i) as [[[neg lrev] sub]|] eqn:El.
  - assert (E : forward_inst lim ctx (rest_of_look lim fuel ctx depth) i (with_steps e (steps e + 1)) =
      look_step (rest_of_look lim fuel ctx depth) neg lrev sub (with_steps e (steps e + 1))).
    { destruct i; try done; injection El as <- <- <-; done. }
    rewrite E. by eapply rest_look.
  - eapply rest_stepped; [done..|]. eapply forward_stepped; try done.
    + by apply with_steps_sim.
    + cbn. unfold U64_MAX in *; lia.
Qed.

End Exec.
