(* ===== verification/RegexSpec.v ===== *)
(** * What an attempt of the engine answers

    The compiler and the machine together: [compile_program] followed by
    [run_with] answers as [match_at], the reference semantics of the pattern.  The
    machine may also give up; it then says so by a counter above its budget. *)

From S2P Require Import Prelude Regex RegexComp RegexVm RegexTotal RegexSem RegexRuns RegexCode.
From S2P Require Import RegexRun RegexExec.

Open Scope Z_scope.

#[local] Arguments Nat.mul : simpl never.
#[local] Arguments Nat.add : simpl never.

Section Spec.
Context `{U : UnicodeData}.

(** ** The groups the compiler counts *)

(** A quantifier whose atom is compiled at least once. *)
Definition emitted (inner : Node) (min : Z) (max : option Z) : bool :=
  (can_match_empty inner || (min <=? MAX_STRING_LEN)) &&
  match max with Some m => 0 <? m | None => true end.

(** No capturing group stands under a quantifier that drops it. *)
Fixpoint counted (n : Node) : bool :=
  match n with
  | NGroup _ inner | NModifier _ _ _ inner | NLook _ inner | NLookBehind _ inner => counted inner
  | NConcat l | NAlt l => forallb counted l
  | NRepeat inner min max _ =>
      bool_decide (node_groups inner = []) || (emitted inner min max && counted inner)
  | _ => true
  end.

Definition below (k : nat) (gs : list nat) : Prop := forall g, g ∈ gs -> (g <= k)%nat.

Lemma below_le k k' gs : below k gs -> (k <= k')%nat -> below k' gs.
Proof. intros H Hk g Hg. apply H in Hg. lia. Qed.

Lemma below_app k a b : below k a -> below k b -> below k (a ++ b).
Proof. intros Ha Hb g Hg. apply elem_of_app in Hg as [?|?]; auto. Qed.

(** [body] raises the count of groups to cover [gs], when [p]. *)
Definition counts (body : Compiler -> res Compiler) (p : bool) (gs : list nat) : Prop :=
  forall c c', body c = Ok c' -> (groups c <= groups c')%nat /\ (p = true -> below (groups c') gs).

Lemma groups_check c c' : check_size c = Ok c' -> groups c' = groups c.
Proof. intros H%check_size_ok. by subst. Qed.

Lemma groups_units l : forall c, groups (fold_left emit_char l c) = groups c.
Proof.
  induction l as [|ch l IH]; intros c; cbn [fold_left]; [done|]. rewrite IH. unfold emit_char.
  destruct (_ && _); [by destruct (surrogate_pair ch)|done].
Qed.

Lemma groups_patch_all {A} (f : A -> nat) (g : A -> Inst) l : forall c,
  groups (fold_left (fun c x => patch c (f x) (g x)) l c) = groups c.
Proof. induction l as [|x l IH]; intros c; cbn; [done|]. by rewrite IH. Qed.

Lemma groups_clear c inner : groups (emit_clear_captures c inner) = groups c.
Proof. unfold emit_clear_captures. by destruct (group_slot_range inner) as [[]|]. Qed.

Lemma groups_strings l : forall c jmps c' jmps',
  emit_strings c l jmps = Ok (c', jmps') -> groups c' = groups c.
Proof.
  induction l as [|s l IH]; intros c jmps c' jmps' H; cbn in H; [by injection H as <- _|].
  apply bind_ok in H as (c1 & H1 & H). apply groups_check in H1. apply IH in H.
  rewrite H, H1. cbn. by rewrite groups_units.
Qed.

Lemma groups_class_set c neg set c' : compile_class_set c neg set = Ok c' -> groups c' = groups c.
Proof.
  unfold compile_class_set. destruct (neg && _); [done|].
  destruct (class_strings set) as [|s l]; [by intros [= <-]|]. intros H.
  apply bind_ok in H as ([c1 jmps] & H1 & H). injection H as <-. apply groups_strings in H1.
  unfold patch_jumps. rewrite groups_patch_all. cbn. by rewrite H1.
Qed.

Section atom.
Context (inner : Node) (body : Compiler -> res Compiler) (p : bool) (gs : list nat).
Context (Hbody : counts body p gs).

Lemma counts_copies n : counts (compile_copies inner body n) (p && (0 <? n)%nat) gs.
Proof using Hbody.
  induction n as [|n IH]; intros c c' H; cbn in H.
  - injection H as <-. split; [done|]. by rewrite andb_false_r.
  - apply bind_ok in H as (c1 & H1 & H). apply Hbody in H1 as [H1 Hp]. apply IH in H as [H2 _].
    rewrite groups_clear in H1. split; [lia|]. intros [Hp' _]%andb_true_iff.
    eapply below_le; eauto.
Qed.

Lemma counts_guarded : counts (compile_guarded inner body) p gs.
Proof using Hbody.
  intros c c' H. unfold compile_guarded in H. apply bind_ok in H as (c1 & H1 & H).
  injection H as <-. apply Hbody in H1 as [H1 H2]. rewrite groups_clear in H1.
  by destruct (can_match_empty inner).
Qed.

Lemma counts_star greedy : counts (compile_star inner body greedy) p gs.
Proof using Hbody.
  intros c c' H. unfold compile_star in H. apply bind_ok in H as (c1 & H1 & H).
  injection H as <-. apply counts_guarded in H1. exact H1.
Qed.

Lemma counts_chain n : forall c splits c' splits',
  emit_chain inner body n c splits = Ok (c', splits') ->
  (groups c <= groups c')%nat /\ (p && (0 <? n)%nat = true -> below (groups c') gs).
Proof using Hbody.
  induction n as [|n IH]; intros c splits c' splits' H; cbn in H.
  - injection H as <- _. split; [done|]. by rewrite andb_false_r.
  - apply bind_ok in H as (c1 & H1 & H). apply counts_guarded in H1 as [H1 Hp]. cbn in H1.
    apply IH in H as [H2 _]. split; [lia|]. intros [Hp' _]%andb_true_iff. eapply below_le; eauto.
Qed.

Lemma counts_repeat min max greedy :
  counts (compile_repeat inner body min max greedy) (p && emitted inner min max) gs.
Proof using Hbody.
  intros c c' H. unfold compile_repeat in H. unfold emitted.
  destruct (negb (can_match_empty inner) && (MAX_STRING_LEN <? min)) eqn:Ef.
  { apply groups_check in H. rewrite H. split; [done|]. rewrite !andb_true_iff.
    apply andb_true_iff in Ef as [->%negb_true_iff Ef%Z.ltb_lt].
    intros (_ & [|Hm%Z.leb_le]%orb_true_iff & _); [done|lia]. }
  destruct (if can_match_empty inner then max else _) as [m|] eqn:Em.
  - assert (max = Some m) as ->.
    { destruct (can_match_empty inner); [done|]. destruct max as [m'|]; [|done]. by destruct (m' <=? _). }
    apply bind_ok in H as (probe & _ & H). destruct (_ <? saturate _); [done|].
    apply bind_ok in H as (c1 & H1 & H). destruct (m <? min) eqn:Emm; [done|].
    apply bind_ok in H as ([c2 splits] & H2 & H). injection H as <-. cbn [fst snd].
    rewrite (groups_patch_all (fun q : nat * nat => q.1)).
    apply counts_copies in H1 as [H1 H1']. apply counts_chain in H2 as [H2 H2'].
    split; [lia|]. rewrite !andb_true_iff. intros (Hp & _ & Hm%Z.ltb_lt). apply Z.ltb_ge in Emm.
    destruct (Z.ltb_spec 0 min) as [Hmin|Hmin].
    + eapply below_le; [|exact H2]. apply H1'. rewrite andb_true_iff, Nat.ltb_lt. split; [done|lia].
    + apply H2'. rewrite andb_true_iff, Nat.ltb_lt. split; [done|lia].
  - apply bind_ok in H as (c1 & H1 & H). apply counts_copies in H1 as [H1 _].
    apply counts_star in H as [H2 H3]. split; [lia|]. intros [Hp _]%andb_true_iff. auto.
Qed.

End atom.

Section lists.
Context (rec : Node -> Compiler -> res Compiler).

Abbreviation rec_counts := (fun n => counts (rec n) (counted n) (node_groups n)).

Lemma counts_then (f g : Compiler -> res Compiler) p q a b c c' :
  counts f p a -> counts g q b -> (f c ≫= g) = Ok c' ->
  (groups c <= groups c')%nat /\ (p && q = true -> below (groups c') (a ++ b)).
Proof.
  intros Hf Hg H. apply bind_ok in H as (c1 & H1 & H2).
  apply Hf in H1 as [H1 H1']. apply Hg in H2 as [H2 H2']. split; [lia|].
  intros [Hp Hq]%andb_true_iff. apply below_app; [|auto]. eapply below_le; eauto.
Qed.

Lemma counts_seq l : Forall rec_counts l ->
  counts (compile_seq rec l) (forallb counted l) (flat_map node_groups l).
Proof.
  induction 1 as [|n l Hn Hl IH]; intros c c' H; cbn in *.
  - injection H as <-. split; [done|]. intros _ g Hg. by apply not_elem_of_nil in Hg.
  - by apply (counts_then _ _ _ _ _ _ _ _ Hn IH H).
Qed.

Lemma counts_seq_rev l : Forall rec_counts l ->
  counts (compile_seq_rev rec l) (forallb counted l) (flat_map node_groups l).
Proof.
  induction 1 as [|n l Hn Hl IH]; intros c c' H; cbn in *.
  - injection H as <-. split; [done|]. intros _ g Hg. by apply not_elem_of_nil in Hg.
  - apply (counts_then _ _ _ _ _ _ _ _ IH Hn) in H as [H1 H2]. split; [done|].
    intros E. rewrite andb_comm in E. intros g Hg. apply H2; [done|].
    rewrite elem_of_app in *. tauto.
Qed.

Lemma counts_branches l : Forall rec_counts l -> forall c jmps c' jmps',
  emit_branches rec l c jmps = Ok (c', jmps') ->
  (groups c <= groups c')%nat /\ (forallb counted l = true -> below (groups c') (flat_map node_groups l)).
Proof.
  induction 1 as [|n l Hn Hl IH]; intros c jmps c' jmps' H; cbn in *.
  - injection H as <- _. split; [done|]. intros _ g Hg. by apply not_elem_of_nil in Hg.
  - destruct l as [|n' l].
    { apply bind_ok in H as (c1 & H1 & H). injection H as <- _. apply Hn in H1 as [H1 H2].
      split; [done|]. rewrite andb_true_r, app_nil_r. done. }
    apply bind_ok in H as (c1 & H1 & H). apply Hn in H1 as [H1 H1'].
    apply IH in H as [H2 H2']. cbn in *. split; [lia|]. intros [Hp Hq]%andb_true_iff.
    apply below_app; [|auto]. eapply below_le; [|exact H2]. auto.
Qed.

End lists.

Lemma compile_counts n : counts (compile n) (counted n) (node_groups n).
Proof.
  assert (Hnil : forall k, below k []) by (intros k g Hg; by apply not_elem_of_nil in Hg).
  induction n using Node_induction; intros cc cc' HC; cbn [compile] in HC;
    apply bind_ok in HC as (c1 & E & HC); cbv beta in HC; apply groups_check in HC; rewrite HC;
    clear HC; cbn [counted node_groups].
  all: try (injection E as <-; done).
  - injection E as <-. change (emit_char cc c) with (fold_left emit_char [c] cc). by rewrite groups_units.
  - apply groups_class_set in E. by rewrite E.
  - destruct index as [idx|]; [|by apply IHn].
    destruct (reverse (max_groups cc idx)).
    all: apply bind_ok in E as (c2 & E & E'); injection E' as <-; apply IHn in E as [E1 E2];
      cbn in E1 |- *; split; [lia|]; intros Hc g Hg; apply elem_of_cons in Hg as [->|Hg];
      [lia|by apply E2].
  - apply bind_ok in E as (c2 & E & E'). injection E' as <-. by apply IHn in E.
  - apply bind_ok in E as (c2 & E & E'). injection E' as <-. apply IHn in E as [E1 E2]. cbn.
    split; [lia|]. intros Hc. eapply below_le; [by apply E2|]. cbn. lia.
  - apply bind_ok in E as (c2 & E & E'). injection E' as <-. apply IHn in E as [E1 E2]. cbn.
    split; [lia|]. intros Hc. eapply below_le; [by apply E2|]. cbn. lia.
  - injection E as <-. cbn. split; [lia|done].
  - destruct (name_indices _ _) as [|g [|g' l]]; injection E as <-; cbn; (split; [lia|done]).
  - destruct (reverse cc); [by eapply counts_seq_rev|by eapply counts_seq].
  - unfold compile_alt in E. apply bind_ok in E as ([c2 jmps] & E & E'). injection E' as <-.
    unfold patch_jumps. rewrite groups_patch_all. by eapply counts_branches.
  - eapply counts_repeat in E as [E1 E2]; [|exact IHn]. split; [done|].
    intros [Hc|[Hc1 Hc2]%andb_true_iff]%orb_true_iff.
    + apply bool_decide_eq_true in Hc as ->. done.
    + apply E2. by rewrite Hc1, Hc2.
Qed.

(** ** The whole program *)

(** What the parser produces: quantifier bounds in order, groups numbered from 1
    in the order they open, every one of them counted, and no lookbehind around
    the literals the compiler emits in source order. *)
Definition good_pattern (uni : bool) (ast : Node) : bool :=
  node_wf ast && counted ast && dir_ok uni false ast &&
  bool_decide (node_groups ast = seq 1 (length (node_groups ast))).

(** The slots of a fresh attempt. *)
Definition fresh (gc : nat) : list (option nat) := replicate (2 * (gc + 1)) None.

Lemma fresh_lookup gc slot v : fresh gc !! slot = Some v -> v = None.
Proof. intros H. by apply lookup_replicate in H as [-> _]. Qed.

Lemma program_code ast names uni P gc :
  compile_program ast names uni = Ok (P, gc) ->
  exists k, P !! 0%nat = Some (Save 0) /\ code_at names uni P false ast 1 k /\
    P !! k = Some (Save 1) /\ P !! S k = Some Match /\
    (counted ast = true -> below gc (node_groups ast)).
Proof.
  unfold compile_program. intros H. apply bind_ok in H as (c & Hc & H).
  pose proof (compile_counts _ _ _ Hc) as [_ Hg].
  pose proof (compile_code _ _ _ Hc) as [[_ Hh Hp] HC].
  set (c0 := emit (MkCompiler [] 0 names uni false) (Save 0)) in *.
  injection H as <- <-. exists (here c).
  change (prog (emit (emit c (Save 1)) Match)) with ((prog c ++ [Save 1]) ++ [Match]).
  change (here c0) with 1%nat in *. unfold here in *.
  assert (Hsame : forall i, (i < length (prog c))%nat ->
    ((prog c ++ [Save 1]) ++ [Match]) !! i = prog c !! i).
  { intros i Hi. rewrite <- app_assoc. by apply lookup_app_l. }
  split; [|split; [|split; [|split]]].
  - rewrite Hsame by lia. by rewrite Hp by lia.
  - eapply code_at_same; [exact HC|]. intros i Hi. apply Hsame. lia.
  - rewrite <- app_assoc, lookup_app_r by lia. by rewrite Nat.sub_diag.
  - rewrite <- app_assoc, lookup_app_r by lia. by replace (S (length (prog c)) - length (prog c))%nat with 1%nat by lia.
  - exact Hg.
Qed.

Section program.
Context (ast : Node) (names : list (nat * String.string)) (input : list Z) (flags : Flags).
Context (P : list Inst) (gc start : nat).
Context (Hcomp : compile_program ast names (unicode flags) = Ok (P, gc)).
Context (Hgood : good_pattern (unicode flags) ast = true).
Context (Hsub : subject_ok input) (Hlen : Z.of_nat (length input) <= MAX_STRING_LEN).
Context (Hstart : (start <= length input)%nat).

(** The thread an attempt starts with, and the state it ends in. *)
Definition entry : Thread := MkThread 0 (start, fresh gc) [] [flags].

Lemma entry_fits gs : gs = seq 1 (length gs) -> below gc gs ->
  Pre input gs (set_slot 0 (start, fresh gc)).
Proof using Hstart.
  intros E Hb. assert (Hl : forall slot v, <[0%nat := Some start]> (fresh gc) !! slot = Some (Some v) ->
    slot = 0%nat /\ v = start).
  { intros slot v H. apply list_lookup_insert_Some in H as [(<- & H & _)|[_ H]].
    - by injection H as <-.
    - by apply fresh_lookup in H. }
  split; [done|]. split; [split|].
  - intros slot v H. apply Hl in H as [_ ->]. exact Hstart.
  - intros g s e H. apply group_span_Some in H as [H1 H2]. apply Hl in H1, H2. lia.
  - intros g Hg. assert (1 <= g)%nat.
    { rewrite E in Hg. apply elem_of_seq in Hg. lia. }
    apply Hb in Hg. unfold set_slot. cbn [fst snd].
    rewrite !list_lookup_insert_ne by lia. split; apply lookup_replicate; (split; [done|lia]).
Qed.

(** On the machine of threads, the program finds [match_at]. *)
Lemma program_runs : exists r,
  Run input false flags P [entry] r /\
  match_at input names flags ast gc start = t_st <$> r.
Proof using Hcomp Hgood Hsub Hlen Hstart.
  destruct (program_code _ _ _ _ _ Hcomp) as (k & H0 & HC & H1 & HM & Hb).
  unfold good_pattern in Hgood. rewrite !andb_true_iff, bool_decide_eq_true in Hgood.
  destruct Hgood as [[[Hwf Hcnt] Hdir] Hseq]. specialize (Hb Hcnt).
  set (st0 := set_slot 0 (start, fresh gc)).
  set (l := runs input names false flags ast st0).
  exists (head (map (fun s => MkThread (S k) (set_slot 1 s) [] [flags]) l)). split.
  - eapply Run_step; [exact H0| |].
    + assert (Hf : fresh gc !! 0%nat = Some None) by (apply lookup_replicate_2; lia).
      cbn. by rewrite Hf.
    + cbn [app]. eapply (code_runs_all input names (unicode flags) Hsub Hlen ast);
        [exact Hwf| |exact Hdir|by apply entry_fits|done|done|exact HC|].
      { exists 1%nat, (length (node_groups ast)). split; [lia|done]. }
      fold st0. change (goto entry 1 st0) with (MkThread 1 st0 [] [flags]). fold l.
      destruct l as [|s l'] eqn:El; [exists 0%nat; constructor|]. cbn [map head app].
      assert (Hs : length s.2 = length (fresh gc)).
      { assert (Hin : s ∈ l) by (rewrite El; by left).
        apply (runs_ok_all input names ast false flags) in Hin as [Hin _]; [|exact Hwf| |by apply entry_fits].
        - apply post_length in Hin. unfold st0, set_slot in Hin. cbn in Hin. by rewrite length_insert in Hin.
        - rewrite Hseq. apply NoDup_seq. }
      destruct (lookup_lt_is_Some_2 s.2 1) as [v Hv].
      { rewrite Hs. unfold fresh. rewrite length_replicate. lia. }
      eapply Run_step; [exact H1|cbn; by rewrite Hv|]. cbn [app]. by apply Run_match.
  - unfold match_at. fold (fresh gc). fold st0. fold l. by destruct l.
Qed.

End program.

(** ** An attempt *)

(** The frames a search may hold stay under the cap: the budget runs out first, or
    there is no lookaround whose failure could be taken for an answer. *)
Definition stack_fits (lim : Limits) (prog : list Inst) (st b : Z) : Prop :=
  b - st <= MAX_STACK lim \/ prog_depth prog = 0%nat.

(** What an attempt may answer when the pattern's first match is [m]. *)
Definition answers (lim : Limits) (prog : list Inst) (gc : nat) (m : option MState) (st b n : Z)
    (a : Attempt) : Prop :=
  match a with
  | Matched gs st' => st <= st' /\ exists s, m = Some s /\ gs = pair_saves s.2 gc
  | NoMatch st' =>
      st <= st' <= U64_MAX /\
      ((st' <= b /\ m = None) \/ (b < st' /\ b < st + n) \/
       (prog_depth prog = 0%nat /\ MAX_STACK lim < n /\ MAX_STACK lim < b - st))
  | AttemptPanic | AttemptFuel => False
  end.

Lemma run_with_answers lim P input start gc flags st b n r :
  RunN input false flags P n [entry flags gc start] r ->
  0 <= st -> st <= b < U64_MAX -> 0 <= MAX_DEPTH lim ->
  Z.of_nat (prog_depth P) <= MAX_DEPTH lim -> stack_fits lim P st b ->
  answers lim P gc (t_st <$> r) st b (Z.of_nat n)
    (run_with (Z.to_nat (b + 2)) lim P input start gc flags st b).
Proof.
  intros HR Hst Hb Hmd Hd Hfit. unfold run_with, backtrack, enter.
  destruct (Z.ltb_spec (MAX_DEPTH lim) 0) as [?|_]; [lia|].
  set (ctx := MkCtx P input flags None false b).
  match goal with |- context [loop _ _ _ _ ?e] => set (e0 := e) end.
  assert (Hset : settled lim ctx (bool_decide (b - st <= MAX_STACK lim)) 0 st (Z.of_nat n) r
    (loop (Z.to_nat (b + 2)) lim ctx 0 e0)).
  { apply (loop_refines lim _ ctx 0 e0 [] n r); [| | | |exact HR| | | |]; [cbn; lia|done|cbn; lia| |lia|cbn; lia|change (x_prog ctx) with P; lia|].
    - split; [done| |constructor]. cbn. by repeat constructor.
    - unfold roomy. case_bool_decide as Hc; [cbn; lia|]. destruct Hfit as [Hf|Hf]; [done|exact Hf]. }
  destruct Hset as (m & sv & st' & -> & Hs & H). destruct m; cbn [answers].
  - destruct H as [[H1 H2]|[(? & _)|(? & _)]]; [|done..]. destruct r as [t|]; [|done].
    destruct H2 as [_ ->]. split; [lia|by eexists].
  - split; [exact Hs|]. destruct H as [[H1 H2]|[(_ & H1 & H2)|(_ & H1 & H2)]].
    + destruct r as [t|]; [by destruct H2|]. destruct (Z.leb_spec st' b) as [Hl|Hl]; [left; done|].
      right; left. split; [done|]. cbn in *. lia.
    + right; left. done.
    + right; right. apply bool_decide_eq_false in H1. destruct Hfit as [?|Hf]; [done|].
      split; [exact Hf|]. split; lia.
Qed.



(** The state a match ends in. *)
Lemma match_at_ok ast names input flags P gc start m :
  compile_program ast names (unicode flags) = Ok (P, gc) ->
  good_pattern (unicode flags) ast = true -> (start <= length input)%nat ->
  match_at input names flags ast gc start = Some m ->
  caps_ok input m.2 /\ group_span m.2 0 = Some (start, m.1) /\ length m.2 = (2 * (gc + 1))%nat.
Proof.
  intros Hcomp Hgood Hstart Hm.
  destruct (program_code _ _ _ _ _ Hcomp) as (_ & _ & _ & _ & _ & Hb).
  unfold good_pattern in Hgood. rewrite !andb_true_iff, bool_decide_eq_true in Hgood.
  destruct Hgood as [[[Hwf Hcnt] _] Hseq]. specialize (Hb Hcnt).
  unfold match_at in Hm. fold (fresh gc) in Hm. set (st0 := set_slot 0 (start, fresh gc)) in *.
  destruct (runs input names false flags ast st0) as [|s l] eqn:El; [done|].
  injection Hm as <-. assert (Hin : s ∈ runs input names false flags ast st0) by (rewrite El; by left).
  apply (runs_ok_all input names ast false flags) in Hin as [[H1 H2 H3 H4 H5] _]; [|exact Hwf| |by apply entry_fits].
  2:{ rewrite Hseq. apply NoDup_seq. }
  assert (Hlen : length s.2 = (2 * (gc + 1))%nat).
  { rewrite H3. unfold st0, set_slot. cbn. rewrite length_insert. apply length_replicate. }
  assert (H0 : s.2 !! 0%nat = Some (Some start)).
  { rewrite H5.
    - unfold st0, set_slot. cbn [fst snd]. apply list_lookup_insert_eq. unfold fresh. rewrite length_replicate. lia.
    - rewrite Hseq. change (Nat.div2 0) with 0%nat. rewrite elem_of_seq. lia. }
  assert (Hpos : (start <= s.1)%nat) by (unfold dist, st0 in H4; cbn in H4; lia).
  unfold set_slot. cbn [fst snd]. split; [split|split].
  - intros slot v H. apply list_lookup_insert_Some in H as [(<- & H & _)|[_ H]]; [by injection H as <-|].
    by apply H2 in H.
  - intros g a e H. apply group_span_Some in H as [Ha He].
    rewrite list_lookup_insert_ne in Ha by lia.
    apply list_lookup_insert_Some in He as [(Eg & He & _)|[_ He]].
    + replace (2 * g)%nat with 0%nat in Ha by lia. rewrite H0 in Ha. injection Ha as <-.
      by injection He as <-.
    + destruct H2 as [_ H2]. eapply (H2 g). unfold group_span. by rewrite Ha, He.
  - unfold group_span. change (2 * 0)%nat with 0%nat. change (0 + 1)%nat with 1%nat.
    rewrite list_lookup_insert_ne by lia. rewrite H0, list_lookup_insert_eq by lia. done.
  - by rewrite length_insert.
Qed.


End Spec.

(** ** Concrete patterns

    An instance of the Unicode parameters good for ASCII patterns. *)

#[local] Instance ascii_data : UnicodeData := {|
  PropEscape := Empty_set; prop_matches := fun _ _ => false;
  to_uppercase := fun c => [to_ascii_uppercase c]; to_lowercase := fun c => [to_ascii_lowercase c];
  intl_case_fold := fun c => [to_ascii_lowercase c]; intl_enabled := true |}.

Definition plain_flags : Flags := MkFlags false false false false false false false.

(** [/(a+)(?=(b))b|c/]. *)
Definition sample : Node :=
  NAlt [NConcat [NGroup (Some 1%nat) (NRepeat (NChar 97) 1 None true);
                 NLook false (NGroup (Some 2%nat) (NChar 98)); NChar 98]; NChar 99].

Definition sample_prog : list Inst * nat :=
  match compile_program sample [] false with Ok p => p | Err _ => ([], 0%nat) end.




(** A program that jumps in place. *)
Lemma run_with_terminates_witness :
  run_with (Z.to_nat (50 + 2)) default_limits [Jmp 0] [] 0 0 plain_flags 0 50 <> AttemptFuel /\
  run_with (Z.to_nat (50 + 2)) default_limits [Jmp 0] [] 0 0 plain_flags 0 50 = NoMatch 51.
Proof.
  split; [|vm_compute; reflexivity].
  apply run_with_terminates; vm_compute; (split; [discriminate|first [discriminate | reflexivity]]).
Defined.

(** The Latin-1 bitmap a class precomputes agrees with its members: for every
    code point, every flags and every class, testing the bitmap (below 256, without
    case folding) or walking the members gives the same answer. *)
Theorem class_bitmap_correct `{U : UnicodeData} b ms c f : 0 <= c ->
  class_matches (class_new b ms) c f = xorb (leaf_members_match ms c f) b.
Proof. apply class_matches_members. Qed.

Lemma class_bitmap_correct_witness :
  class_matches (class_new true [CMRange 97 122; CMChar 200]) 200 plain_flags = false /\
  class_matches (class_new true [CMRange 97 122; CMChar 200]) 200 plain_flags =
    xorb (leaf_members_match [CMRange 97 122; CMChar 200] 200 plain_flags) true.
Proof.
  split; [vm_compute; reflexivity|]. apply class_bitmap_correct. lia.
Defined.

(** Inside a lookbehind the compiler emits the two units of an astral literal
    (without [u]) and the strings of a class in source order, although the machine
    reads backwards there: [/(?<=😀)x/] does not match at the x of "😀x", and
    [/(?<=[\q{ab}])c/v] does not match at the c of "abc", where the reference
    semantics finds a match; both attempts end within their budget. *)
Theorem lookbehind_literals_forward :
  (exists P st', compile_program (NConcat [NLookBehind false (NChar 0x1F600); NChar 120]) [] false = Ok (P, 0%nat) /\
    run_with 1000 default_limits P [0xD83D; 0xDE00; 120] 2 0 plain_flags 0 (budget_for 3) = NoMatch st' /\
    st' <= budget_for 3 /\
    is_Some (match_at [0xD83D; 0xDE00; 120] [] plain_flags
      (NConcat [NLookBehind false (NChar 0x1F600); NChar 120]) 0 2)) /\
  (exists P st', let v := MkFlags false false false false false true true in
    let ast := NConcat [NLookBehind false (NClassSet false (CSStrings [[97; 98]])); NChar 99] in
    compile_program ast [] true = Ok (P, 0%nat) /\
    run_with 1000 default_limits P [97; 98; 99] 2 0 v 0 (budget_for 3) = NoMatch st' /\
    st' <= budget_for 3 /\ is_Some (match_at [97; 98; 99] [] v ast 0 2)).
Proof.
  split; eexists _, _; (split; [vm_compute; reflexivity|]); (split; [vm_compute; reflexivity|]);
    (split; [vm_compute; discriminate|]); eexists; vm_compute; reflexivity.
Qed.

(** The number of groups comes from the emitted code, so a group under a [{0}]
    is not counted: [/(b)(a){0}/] has two groups and its matches report one. *)
Theorem dropped_group_not_counted :
  let ast := NConcat [NGroup (Some 1%nat) (NChar 98);
    NRepeat (NGroup (Some 2%nat) (NChar 97)) 0 (Some 0) true] in
  node_groups ast = [1; 2]%nat /\ counted ast = false /\
  exists P st', compile_program ast [] false = Ok (P, 1%nat) /\
    run_with 1000 default_limits P [98] 0 1 plain_flags 0 (budget_for 1) =
      Matched [Some (0, 1); Some (0, 1)]%nat st'.
Proof.
  split; [reflexivity|]. split; [reflexivity|]. eexists _, _.
  split; [vm_compute; reflexivity|]. vm_compute. reflexivity.
Qed.

(** A lookaround whose sub-program gives up at the stack cap counts as one that
    fails, so a negative lookahead then succeeds: with a cap of 4 frames,
    [/(?!(?:a|b)*c)/] matches at the start of "aaac", within its budget. *)
Theorem aborted_lookahead_succeeds :
  let ast := NLook true (NConcat [NRepeat (NAlt [NChar 97; NChar 98]) 0 None true; NChar 99]) in
  exists P st', compile_program ast [] false = Ok (P, 0%nat) /\
    run_with 1000 (MkLimits 2000 4) P [97; 97; 97; 99] 0 0 plain_flags 0 (budget_for 4) =
      Matched [Some (0, 0)%nat] st' /\ st' <= budget_for 4 /\
    match_at [97; 97; 97; 99] [] plain_flags ast 0 0 = None.
Proof.
  eexists _, _. split; [vm_compute; reflexivity|]. split; [vm_compute; reflexivity|].
  split; [vm_compute; discriminate|]. vm_compute. reflexivity.
Qed.
