(* ===== verification/RegexSaves.v ===== *)
(** * The slots a program saves

    Every [Save] of a compiled program has a slot of the capture buffer. *)

From S2P Require Import Prelude Regex RegexComp RegexVm RegexTotal RegexSem RegexRuns RegexCode.
From S2P Require Import RegexRun RegexExec RegexSpec.

Open Scope Z_scope.

#[local] Arguments Nat.mul : simpl never.
#[local] Arguments Nat.add : simpl never.

Section Saves.
Context `{U : UnicodeData}.

Definition save_below (k : nat) (i : Inst) : Prop :=
  match i with Save s => (s < 2 * (k + 1))%nat | _ => True end.

(** The compiler so far saves slots of counted groups only. *)
Definition bounded (c : Compiler) : Prop := Forall (save_below (groups c)) (RegexComp.prog c).

Lemma save_below_le k k' i : (k <= k')%nat -> save_below k i -> save_below k' i.
Proof. intros Hk. destruct i; cbn; try done. lia. Qed.

(** Compiling keeps [bounded] and never lowers the count. *)
Definition keeps (f : Compiler -> res Compiler) : Prop :=
  forall c c', f c = Ok c' -> bounded c -> bounded c' /\ (groups c <= groups c')%nat.

Lemma bounded_emit c i : save_below (groups c) i -> bounded c -> bounded (emit c i).
Proof. intros Hi Hc. unfold bounded. cbn. apply Forall_app. split; [done|by repeat constructor]. Qed.

Lemma bounded_max c n : bounded c -> bounded (max_groups c n).
Proof. intros Hc. eapply list.Forall_impl; [exact Hc|]. intros i. apply save_below_le. cbn. lia. Qed.

Lemma bounded_patch c at_ i : save_below (groups c) i -> bounded c -> bounded (patch c at_ i).
Proof. intros Hi Hc. by apply Forall_insert. Qed.

Lemma bounded_patch_all {A} (f : A -> nat) (g : A -> Inst) l : (forall x k, save_below k (g x)) -> forall c, bounded c ->
  bounded (fold_left (fun c x => patch c (f x) (g x)) l c).
Proof. intros Hg. induction l as [|x l IH]; intros c Hc; cbn; [done|]. by apply IH, bounded_patch. Qed.

Lemma bounded_char c ch : bounded c -> bounded (emit_char c ch).
Proof.
  intros Hc. unfold emit_char. destruct (_ && _); [|by apply bounded_emit].
  destruct (surrogate_pair ch). by repeat apply bounded_emit.
Qed.

Lemma bounded_chars l : forall c, bounded c -> bounded (fold_left emit_char l c).
Proof. induction l as [|ch l IH]; intros c Hc; cbn; [done|]. by apply IH, bounded_char. Qed.

Lemma bounded_clear c inner : bounded c -> bounded (emit_clear_captures c inner).
Proof. intros Hc. unfold emit_clear_captures. destruct (group_slot_range inner) as [[]|]; [by apply bounded_emit|done]. Qed.

Lemma bounded_strings l : forall c jmps c' jmps', emit_strings c l jmps = Ok (c', jmps') -> bounded c -> bounded c'.
Proof.
  induction l as [|s l IH]; intros c jmps c' jmps' H Hc; cbn in H; [by injection H as <- _|].
  apply bind_ok in H as (c1 & H1 & H). apply check_size_ok in H1 as ->. apply IH in H; [done|].
  apply bounded_patch; [done|]. apply bounded_emit; [done|]. apply bounded_chars. by apply bounded_emit.
Qed.

Section atom.
Context (inner : Node) (body : Compiler -> res Compiler) (Hbody : keeps body).

Lemma keeps_copies n : keeps (compile_copies inner body n).
Proof using Hbody.
  induction n as [|n IH]; intros c c' H Hc; cbn in H; [by injection H as <-|].
  apply bind_ok in H as (c1 & H1 & H). apply Hbody in H1 as [H1 Hg]; [by apply bounded_clear|].
  rewrite groups_clear in Hg. apply IH in H as [H2 Hg2]; [done|]. split; [done|lia].
Qed.

Lemma keeps_guarded : keeps (compile_guarded inner body).
Proof using Hbody.
  intros c c' H Hc. unfold compile_guarded in H. apply bind_ok in H as (c1 & H1 & H). injection H as <-.
  apply Hbody in H1 as [H1 Hg]; [by apply bounded_clear; destruct (can_match_empty inner); [apply bounded_emit|]|].
  rewrite groups_clear in Hg. destruct (can_match_empty inner); [|done]. split; [by apply bounded_emit|done].
Qed.

Lemma keeps_star greedy : keeps (compile_star inner body greedy).
Proof using Hbody.
  intros c c' H Hc. unfold compile_star in H. apply bind_ok in H as (c1 & H1 & H). injection H as <-.
  apply keeps_guarded in H1 as [H1 Hg]; [by apply bounded_emit|]. split; [|exact Hg].
  apply bounded_patch; [by destruct greedy|]. by apply bounded_emit.
Qed.

Lemma keeps_chain n : forall c splits c' splits', emit_chain inner body n c splits = Ok (c', splits') ->
  bounded c -> bounded c' /\ (groups c <= groups c')%nat.
Proof using Hbody.
  induction n as [|n IH]; intros c splits c' splits' H Hc; cbn in H; [by injection H as <- _|].
  apply bind_ok in H as (c1 & H1 & H). apply keeps_guarded in H1 as [H1 Hg]; [by apply bounded_emit|].
  apply IH in H as [H2 Hg2]; [|done]. cbn in Hg. split; [done|lia].
Qed.

Lemma keeps_repeat min max greedy : keeps (compile_repeat inner body min max greedy).
Proof using Hbody.
  intros c c' H Hc. unfold compile_repeat in H.
  destruct (negb (can_match_empty inner) && (MAX_STRING_LEN <? min)).
  { apply check_size_ok in H as ->. split; [by apply bounded_emit|done]. }
  destruct (if can_match_empty inner then max else _) as [m|].
  - apply bind_ok in H as (probe & _ & H). destruct (_ <? saturate _); [done|].
    apply bind_ok in H as (c1 & H1 & H). destruct (m <? min); [done|].
    apply bind_ok in H as ([c2 splits] & H2 & H). injection H as <-. cbn [fst snd].
    apply keeps_copies in H1 as [H1 Hg1]; [done|]. apply keeps_chain in H2 as [H2 Hg2]; [|done]. split.
    + apply (bounded_patch_all (fun q : nat * nat => q.1)); [by destruct greedy|done].
    + rewrite (groups_patch_all (fun q : nat * nat => q.1)). lia.
  - apply bind_ok in H as (c1 & H1 & H). apply keeps_copies in H1 as [H1 Hg1]; [done|].
    apply keeps_star in H as [H Hg]; [done|]. split; [done|lia].
Qed.

End atom.

Section lists.
Context (rec : Node -> Compiler -> res Compiler).

Lemma keeps_seq l : Forall (fun n => keeps (rec n)) l -> keeps (compile_seq rec l).
Proof.
  induction 1 as [|n l Hn Hl IH]; intros c c' H Hc; cbn in H; [by injection H as <-|].
  apply bind_ok in H as (c1 & H1 & H). apply Hn in H1 as [H1 Hg1]; [done|]. apply IH in H as [H Hg]; [done|]. split; [done|lia].
Qed.

Lemma keeps_seq_rev l : Forall (fun n => keeps (rec n)) l -> keeps (compile_seq_rev rec l).
Proof.
  induction 1 as [|n l Hn Hl IH]; intros c c' H Hc; cbn in H; [by injection H as <-|].
  apply bind_ok in H as (c1 & H1 & H). apply IH in H1 as [H1 Hg1]; [done|]. apply Hn in H as [H Hg]; [done|]. split; [done|lia].
Qed.

Lemma keeps_branches l : Forall (fun n => keeps (rec n)) l -> forall c jmps c' jmps',
  emit_branches rec l c jmps = Ok (c', jmps') -> bounded c -> bounded c' /\ (groups c <= groups c')%nat.
Proof.
  induction 1 as [|n l Hn Hl IH]; intros c jmps c' jmps' H Hc; cbn in H; [by injection H as <- _|].
  destruct l as [|n' l].
  - apply bind_ok in H as (c1 & H1 & H). injection H as <- _. by apply (Hn _ _ H1).
  - apply bind_ok in H as (c1 & H1 & H). apply Hn in H1 as [H1 Hg1]; [by apply bounded_emit|]. cbn in Hg1.
    apply IH in H as [H Hg]; [cbn in Hg; split; [done|lia]|]. apply bounded_patch; [done|]. by apply bounded_emit.
Qed.

End lists.

Lemma compile_keeps n : keeps (compile n).
Proof.
  induction n using Node_induction; intros cc cc' HC Hcc; cbn [compile] in HC;
    apply bind_ok in HC as (c1 & E & HC); cbv beta in HC; apply check_size_ok in HC as ->.
  all: try (injection E as <-; split; [by apply bounded_emit|done]).
  - by injection E as <-.
  - injection E as <-. split; [by apply bounded_char|]. change (emit_char cc c) with (fold_left emit_char [c] cc). by rewrite groups_units.
  - unfold compile_class_set in E. pose proof (groups_class_set cc neg set c1) as Hg. unfold compile_class_set in Hg.
    rewrite (Hg E). split; [|done]. destruct (neg && _); [done|]. destruct (class_strings set) as [|s l].
    + injection E as <-. by apply bounded_emit.
    + apply bind_ok in E as ([c2 jmps] & E & E'). injection E' as <-. apply bounded_strings in E; [|done].
      apply (bounded_patch_all (fun j => j)); [done|]. by apply bounded_emit.
  - destruct index as [idx|]; [|by apply (IHn _ _ E)].
    assert (Hs : forall c, (idx <= groups c)%nat -> save_below (groups c) (Save (2 * idx)) /\ save_below (groups c) (Save (2 * idx + 1))).
    { intros c Hi. cbn. lia. }
    destruct (reverse (max_groups cc idx)); apply bind_ok in E as (c2 & E & E'); injection E' as <-;
      (destruct (IHn _ _ E) as [E' Hg]; [apply bounded_emit; [apply Hs; cbn; lia|by apply bounded_max]|]);
      cbn in Hg; (split; [apply bounded_emit; [apply Hs; lia|done]|cbn; lia]).
  - apply bind_ok in E as (c2 & E & E'). injection E' as <-. apply IHn in E as [E Hg]; [by apply bounded_emit|].
    split; [by apply bounded_emit|exact Hg].
  - apply bind_ok in E as (c2 & E & E'). injection E' as <-. split; [apply bounded_emit; [done|by apply bounded_max]|cbn; lia].
  - apply bind_ok in E as (c2 & E & E'). injection E' as <-. split; [apply bounded_emit; [done|by apply bounded_max]|cbn; lia].
  - injection E as <-. split; [apply bounded_emit; [done|by apply bounded_max]|cbn; lia].
  - destruct (name_indices _ _) as [|g [|g' l]]; injection E as <-; (split; [apply bounded_emit; [done|]|cbn; lia]);
      first [done | by apply bounded_max].
  - destruct (reverse cc); [by apply (keeps_seq_rev _ _ H _ _ E)|by apply (keeps_seq _ _ H _ _ E)].
  - unfold compile_alt in E. apply bind_ok in E as ([c2 jmps] & E & E'). injection E' as <-.
    unfold patch_jumps. apply (keeps_branches _ _ H) in E as [E Hg]; [|done]. split.
    + by apply (bounded_patch_all (fun j => j)).
    + by rewrite (groups_patch_all (fun j => j)).
  - by apply (keeps_repeat _ _ IHn _ _ _ _ _ E).
Qed.

Lemma program_saves ast names uni P gc pc s : compile_program ast names uni = Ok (P, gc) ->
  P !! pc = Some (Save s) -> (s < 2 * (gc + 1))%nat.
Proof.
  unfold compile_program. intros H Hs. apply bind_ok in H as (c & Hc & H). destruct (compile_keeps _ _ _ Hc) as [Hc' Hg].
  { apply bounded_emit; [cbn; lia|constructor]. }
  injection H as <- <-. assert (Hb : bounded (emit (emit c (Save 1)) Match)).
  { apply bounded_emit; [done|]. apply bounded_emit; [cbn; lia|exact Hc']. }
  unfold bounded in Hb. rewrite Forall_forall in Hb.
  apply (Hb (Save s)). apply list_elem_of_In. by eapply list_elem_of_lookup_2.
Qed.

End Saves.
