(* ===== verification/RegexScan.v ===== *)
(** * Compiling a regular expression and scanning for it: [src/src/regex/mod.rs]

    [Flags::parse], what [Regex::new] derives from a compiled program to speed a
    scan up (the anchor, the first unit, the set of first units, the leading run),
    and [scan_into], the scan of a subject with these filters over the
    backtracking machine.

    The three walks over the control-flow graph are one [walk] with the visit of
    an instruction as its argument; it carries a fuel, enough for every
    instruction to be visited once and every jump to be popped
    ([walk_ends] in [RegexScanSpec.v]).  The linear matcher, which
    stands in for the machine on straight programs, is in [RegexLinear]: here a
    [Regex] is built from the AST and scans with the machine, as the source's
    [without_linear] does. *)

From S2P Require Import Prelude Regex RegexComp RegexVm.

Open Scope Z_scope.

(** ** Flags *)

Inductive FlagError := DuplicateFlag | UnknownFlag | ExclusiveFlags.

(** The loop of [Flags::parse] over the characters of the string. *)
Fixpoint parse_flags_loop (s : list Z) (seen : list bool) (f : Flags) : Flags + FlagError :=
  match s with
  | [] => inl f
  | c :: s =>
      let idx := Z.to_nat c in
      if (idx <? 128)%nat && default false (seen !! idx) then inr DuplicateFlag
      else
        let seen := if (idx <? 128)%nat then <[idx := true]> seen else seen in
        let '(MkFlags i g m d y u v) := f in
        if c =? 105 then parse_flags_loop s seen (MkFlags true g m d y u v)
        else if c =? 103 then parse_flags_loop s seen (MkFlags i true m d y u v)
        else if c =? 109 then parse_flags_loop s seen (MkFlags i g true d y u v)
        else if c =? 115 then parse_flags_loop s seen (MkFlags i g m true y u v)
        else if c =? 121 then parse_flags_loop s seen (MkFlags i g m d true u v)
        else if c =? 117 then parse_flags_loop s seen (MkFlags i g m d y true v)
        else if c =? 118 then parse_flags_loop s seen (MkFlags i g m d y true true)
        else if c =? 100 then parse_flags_loop s seen f
        else inr UnknownFlag
  end.

Definition flags_parse (s : list Z) : Flags + FlagError :=
  match parse_flags_loop s (replicate 128 false) default_flags with
  | inl f => if unicode_sets f && bool_decide (117 ∈ s) then inr ExclusiveFlags else inl f
  | inr e => inr e
  end.

(** ** Positions *)

(** [advance_string_index]. *)
Definition advance_string_index (units : list Z) (s : nat) (uni : bool) : nat :=
  if uni then
    match units !! s with
    | Some hi =>
        if is_high_surrogate hi &&
           match units !! S s with Some lo => is_low_surrogate lo | None => false end
        then S (S s) else S s
    | None => S s
    end
  else S s.

(** [is_char_boundary]; the callers pass [s < units.len()]. *)
Definition is_char_boundary (units : list Z) (s : nat) : bool :=
  match s with
  | O => true
  | S p =>
      match units !! s, units !! p with
      | Some lo, Some hi => negb (is_low_surrogate lo) || negb (is_high_surrogate hi)
      | _, _ => true
      end
  end.

(** ** The walk over a program *)

(** How a walk ends: with what it gathered, with the answer [false] or [None] of
    the source, or out of fuel. *)
Inductive Walk (A : Type) := WalkDone (acc : A) | WalkGiveUp | WalkFuel.
Arguments WalkDone {A}.
Arguments WalkGiveUp {A}.
Arguments WalkFuel {A}.

Section Scan.
Context `{U : UnicodeData}.

(** [while let Some(pc) = stack.pop()]: [visit] answers the program counters to
    push, the last one pushed first. *)
Fixpoint walk {A} (visit : nat -> Inst -> A -> option (list nat * A)) (prog : list Inst) (fuel : nat)
    (stack : list nat) (seen : list bool) (acc : A) : Walk A :=
  match fuel with
  | O => WalkFuel
  | S fuel =>
      match stack with
      | [] => WalkDone acc
      | pc :: stack =>
          match prog !! pc with
          | None => WalkGiveUp
          | Some inst =>
              if default false (seen !! pc) then walk visit prog fuel stack seen acc
              else
                match visit pc inst acc with
                | None => WalkGiveUp
                | Some (push, acc) => walk visit prog fuel (push ++ stack) (<[pc := true]> seen) acc
                end
          end
      end
  end.

Definition walk_fuel (prog : list Inst) : nat := (2 * length prog + 2)%nat.

Definition walk_from_entry {A} (visit : nat -> Inst -> A -> option (list nat * A)) (prog : list Inst)
    (acc : A) : Walk A :=
  walk visit prog (walk_fuel prog) [0%nat] (replicate (length prog) false) acc.

(** ** [program_is_anchored] *)

Definition anchored_visit (pc : nat) (inst : Inst) (_ : unit) : option (list nat * unit) :=
  match inst with
  | IAssert AStart => Some ([], tt)
  | Jmp t => Some ([t], tt)
  | Split a b => Some ([b; a], tt)
  | Save _ | ClearCaptures _ _ | Mark | EmptyFail | IAssert _ | Look _ _ | LookBehind _ _ =>
      Some ([S pc], tt)
  | Fail_ => Some ([], tt)
  | _ => None
  end.

Definition program_is_anchored (prog : list Inst) : bool :=
  match walk_from_entry anchored_visit prog tt with WalkDone _ => true | _ => false end.

(** ** [program_first_unit] *)

Definition first_unit_visit (pc : nat) (inst : Inst) (required : option Z)
    : option (list nat * option Z) :=
  match inst with
  | Char c =>
      if c <=? 0xFFFF then
        match required with
        | None => Some ([], Some c)
        | Some prev => if prev =? c then Some ([], required) else None
        end
      else None
  | Jmp t => Some ([t], required)
  | Split a b => Some ([b; a], required)
  | Save _ | ClearCaptures _ _ | Mark | EmptyFail | IAssert _ | Look _ _ | LookBehind _ _ =>
      Some ([S pc], required)
  | Fail_ => Some ([], required)
  | _ => None
  end.

Definition program_first_unit (prog : list Inst) : option Z :=
  match walk_from_entry first_unit_visit prog None with
  | WalkDone required => required
  | _ => None
  end.

(** ** [program_start_set] *)

(** A [StartSet] is its bitmap. *)
Definition allows (set : list Z) (unit : Z) : bool := (256 <=? unit) || latin1_test set unit.

Definition start_set_visit (flags : Flags) (pc : nat) (inst : Inst) (set : list Z)
    : option (list nat * list Z) :=
  match inst with
  | Char _ | Any | Class _ | ClassSet _ _ =>
      Some ([], fold_left (fun set u => if single_consume_matches inst u flags then latin1_set set u
                                        else set) latin1_range set)
  | Jmp t => Some ([t], set)
  | Split a b => Some ([b; a], set)
  | Save _ | ClearCaptures _ _ | Mark | EmptyFail | IAssert _ | Look _ _ | LookBehind _ _ =>
      Some ([S pc], set)
  | Fail_ => Some ([], set)
  | _ => None
  end.

(** [latin1.iter().map(|w| w.count_ones()).sum()]. *)
Definition count_ones (w : Z) : Z :=
  Z.of_nat (length (List.filter (fun i => Z.testbit w (Z.of_nat i)) (seq 0 64))).

Definition program_start_set (prog : list Inst) (flags : Flags) : option (list Z) :=
  match walk_from_entry (start_set_visit flags) prog [0; 0; 0; 0] with
  | WalkDone set =>
      if fold_right Z.add 0 (map count_ones set) <=? 192 then Some set else None
  | _ => None
  end.

(** ** [program_lead_run] *)

Definition is_class (i : option Inst) : bool := match i with Some (Class _) => true | _ => false end.

(** The instructions a program with a leading run may not hold. *)
Definition remembers_start (i : Inst) : bool :=
  match i with
  | Backref _ | BackrefMulti _ | Look _ _ | LookBehind _ _ | PushFlags _ | PopFlags => true
  | _ => false
  end.

Definition program_lead_run (prog : list Inst) (flags : Flags) : option nat :=
  if ignore_case flags || unicode flags || unicode_sets flags then None
  else if existsb remembers_start prog then None
  else
    let skip pc := skip_saves prog pc (length prog) in
    let c := skip 0%nat in
    if negb (is_class (prog !! c)) then None
    else
      match prog !! (c + 1)%nat with
      | Some (Split body exit) =>
          if negb (body =? c + 2)%nat || negb (is_class (prog !! (c + 2)%nat)) ||
             negb (match prog !! (c + 3)%nat with Some (Jmp j) => (j =? c + 1)%nat | _ => false end) ||
             negb (exit =? c + 4)%nat
          then None
          else
            match prog !! skip exit with
            | Some (Char x) =>
                match prog !! c, prog !! (c + 2)%nat with
                | Some class, Some class2 =>
                    if single_consume_matches class x flags || single_consume_matches class2 x flags
                    then None else Some c
                | _, _ => None
                end
            | _ => None
            end
      | _ => None
      end.

(** ** [Regex] *)

(** Without the pattern's source and names, the scalar program of the [&str]
    adapters and the linear matcher. *)
Record Regex_ := MkRegex {
  r_prog : list Inst;
  anchored : bool;
  first_unit : option Z;
  start_set : option (list Z);
  lead_run : option nat;
  group_count : nat;
  r_flags : Flags
}.

(** [Regex::new], after parsing. *)
Definition regex_new (ast : Node) (names : list (nat * String.string)) (flags : Flags) : res Regex_ :=
  '(prog, group_count) ← compile_program ast names (unicode flags);
  let first_unit := program_first_unit prog in
  Ok (MkRegex prog (program_is_anchored prog) first_unit
        (match first_unit with Some _ => None | None => program_start_set prog flags end)
        (program_lead_run prog flags) group_count flags).

(** ** [scan_into] *)

(** [units[s..end].iter().position(p)], as an index into [units]. *)
Fixpoint position_from (p : Z -> bool) (units : list Z) (s n : nat) : option nat :=
  match n with
  | O => None
  | S n =>
      match units !! s with
      | Some u => if p u then Some s else position_from p units (S s) n
      | None => None
      end
  end.

(** What the start filters make of an offset: an offset to attempt, an offset to
    go on from, or the end of the scan. *)
Inductive Candidate := Attempt_at (s : nat) | Skip_to (s : nat) | Give_up.

Definition filter_from (p : Z -> bool) (units : list Z) (s last : nat) (uni : bool) : Candidate :=
  let end_ := Nat.min (S last) (length units) in
  if (end_ <=? s)%nat then Give_up
  else
    match position_from p units s (end_ - s) with
    | None => Give_up
    | Some s => if uni && negb (is_char_boundary units s) then Skip_to (S s) else Attempt_at s
    end.

Definition next_candidate (rx : Regex_) (units : list Z) (s last : nat) (flags : Flags) : Candidate :=
  let first := if ignore_case flags then None else first_unit rx in
  match first with
  | Some want => filter_from (Z.eqb want) units s last (unicode flags)
  | None =>
      match start_set rx with
      | Some set => filter_from (allows set) units s last (unicode flags)
      | None => Attempt_at s
      end
  end.

(** The end of the run of [class] at [s]. *)
Fixpoint run_end (class : Inst) (units : list Z) (flags : Flags) (s fuel : nat) : nat :=
  match fuel with
  | O => s
  | S fuel =>
      match units !! s with
      | Some u => if single_consume_matches class u flags then run_end class units flags (S s) fuel else s
      | None => s
      end
  end.

(** Where a scan goes on after a failed attempt at [s]. *)
Definition after_failure (rx : Regex_) (units : list Z) (s : nat) (flags : Flags) : nat :=
  let advance := advance_string_index units s (unicode flags) in
  match lead_run rx with
  | Some pc =>
      match r_prog rx !! pc, units !! s with
      | Some class, Some u =>
          if single_consume_matches class u flags
          then run_end class units flags (S s) (length units - s) else advance
      | _, _ => advance
      end
  | None => advance
  end.

(** [while s <= last]. *)
Fixpoint scan_loop (fuel : nat) (lim : Limits) (rx : Regex_) (units : list Z) (s last : nat)
    (flags : Flags) (steps budget : Z) : Attempt :=
  match fuel with
  | O => AttemptFuel
  | S fuel =>
      if (last <? s)%nat then NoMatch steps
      else
        match next_candidate rx units s last flags with
        | Give_up => NoMatch steps
        | Skip_to s => scan_loop fuel lim rx units s last flags steps budget
        | Attempt_at s =>
            match run_with (Z.to_nat (budget + 2)) lim (r_prog rx) units s (group_count rx) flags
                    steps budget with
            | NoMatch steps =>
                scan_loop fuel lim rx units (after_failure rx units s flags) last flags steps budget
            | a => a
            end
        end
  end.

Definition scan_start (units : list Z) (start : nat) (flags : Flags) : nat :=
  if unicode flags && (start <? length units)%nat && negb (is_char_boundary units start)
  then (start - 1)%nat else start.

Definition scan_last (rx : Regex_) (units : list Z) (start : nat) (flags : Flags) : nat :=
  if sticky flags || (anchored rx && negb (multiline flags)) then start else length units.

(** [scan_into] with the machine; the fuel of the loop counts the offsets. *)
Definition scan_into (lim : Limits) (rx : Regex_) (units : list Z) (start : nat) (flags : Flags)
    (steps : Z) : Attempt :=
  let start := scan_start units start flags in
  scan_loop (length units + 2) lim rx units start (scan_last rx units start flags) flags steps
    (budget_for (length units)).

(** [captures_in_u16]. *)
Definition captures_in_u16 (lim : Limits) (rx : Regex_) (units : list Z) (start : nat)
    : option (list (option (nat * nat))) :=
  match scan_into lim rx units start (r_flags rx) 0 with Matched gs _ => Some gs | _ => None end.

(** [find_in_u16]: the span of the whole match. *)
Definition find_in_u16 (lim : Limits) (rx : Regex_) (units : list Z) (start : nat) : option (nat * nat) :=
  gs ← captures_in_u16 lim rx units start;
  match gs with Some span :: _ => Some span | _ => None end.

Definition not_sticky (f : Flags) : Flags :=
  MkFlags (ignore_case f) (global f) (multiline f) (dotall f) false (unicode f) (unicode_sets f).

(** [search_in_u16]: the outer [None] is [Err], the budget ran out. *)
Definition search_in_u16 (lim : Limits) (rx : Regex_) (units : list Z) (start : nat)
    : option (option (list (option (nat * nat)))) :=
  match scan_into lim rx units start (not_sticky (r_flags rx)) 0 with
  | Matched gs _ => Some (Some gs)
  | NoMatch steps => if budget_for (length units) <? steps then None else Some None
  | AttemptPanic | AttemptFuel => Some None
  end.

End Scan.
