(* ===== verification/RegexScanSpec.v ===== *)
(** * The scan finds the leftmost match

    What the filters of a scan may skip: every offset they rule out has no match,
    whatever the program.  With it, a scan answers as the attempts at every
    offset, in order, would. *)

From S2P Require Import Prelude Regex RegexComp RegexVm RegexTotal RegexSem RegexRuns RegexCode.
From S2P Require Import RegexRun RegexExec RegexSpec RegexScan.

Open Scope Z_scope.

#[local] Arguments Nat.mul : simpl never.
#[local] Arguments Nat.add : simpl never.

Section ScanSpec.
Context `{U : UnicodeData}.

(** ** Runs of threads *)

Lemma RunN_fun input rev base P n ts r : RunN input rev base P n ts r ->
  forall n' r', RunN input rev base P n' ts r' -> r' = r.
Proof.
  induction 1 as [| |? ? ? t ts i succ n r Hi Hp HR IH|? ? ? t ts i neg lrev sub m r1 n r Hi Hl Hm IHm HR IH];
    intros n' r' H'; inversion H'; subst; simplify_eq; try done;
    try (match goal with H : look_of ?i = Some _ |- _ => by destruct i end).
  - by eapply IH.
  - match goal with H : RunN _ lrev _ sub _ _ _ |- _ => apply IHm in H as -> end. by eapply IH.
Qed.

Lemma Run_fun input rev base P ts r r' :
  Run input rev base P ts r -> Run input rev base P ts r' -> r' = r.
Proof. intros [n H] [n' H']. by eapply RunN_fun. Qed.

(** Threads that stay in [Q] never match. *)
Lemma blocked input flags P (Q : Thread -> Prop) n ts r :
  (forall t i, Q t -> P !! t_pc t = Some i ->
    match look_of i with
    | Some _ => forall sv, Q (goto t (S (t_pc t)) ((t_st t).1, sv))
    | None => i <> Match /\ forall succ, pstep input false flags i t = Some succ -> Forall Q succ
    end) ->
  RunN input false flags P n ts r -> Forall Q ts -> r = None.
Proof.
  intros HQ HR. remember false as rev eqn:Er. revert Er HQ.
  induction HR as [| ? ? ? t ts Hm |? ? ? t ts i succ n r Hi Hp HR IH
    |? ? ? t ts i neg lrev sub m r1 n r Hi Hl Hm IHm HR IH]; intros -> HQ HF; [done|..];
    inversion HF as [|? ? Ht HF']; subst.
  - specialize (HQ _ _ Ht Hm). cbn in HQ. by destruct HQ.
  - specialize (HQ _ _ Ht Hi) as Hq. assert (El : look_of i = None) by (by destruct i).
    rewrite El in Hq. destruct Hq as [_ Hq]. apply IH; [done|done|].
    apply Forall_app. split; [by apply Hq|done].
  - specialize (HQ _ _ Ht Hi) as Hq. rewrite Hl in Hq. apply IH; [done|done|].
    apply Forall_app. split; [|done]. unfold look_next.
    destruct r1, neg; repeat constructor; try apply Hq. 
    specialize (Hq (t_st t).2). by destruct (t_st t).
Qed.

(** ** The walks *)

Section walk.
Context {A : Type} (visit : nat -> Inst -> A -> option (list nat * A)) (le : A -> A -> Prop).
Context (Hle : PreOrder le).
Context (Hvisit : forall pc i a push a', visit pc i a = Some (push, a') ->
  le a a' /\ (length push <= 2)%nat).
Context (P : list Inst).

(** The instructions a walk that ends has seen are closed under its pushes. *)
Lemma walk_closed fuel : forall stack seen acc acc',
  length seen = length P -> walk visit P fuel stack seen acc = WalkDone acc' ->
  le acc acc' /\ exists S : nat -> Prop,
    (forall pc, seen !! pc = Some true -> S pc) /\ (forall pc, pc ∈ stack -> S pc) /\
    forall pc, S pc -> seen !! pc = Some true \/
      exists i a push a', P !! pc = Some i /\ visit pc i a = Some (push, a') /\
        (forall q, q ∈ push -> S q) /\ le acc a /\ le a' acc'.
Proof using Hle Hvisit.
  induction fuel as [|fuel IH]; intros stack seen acc acc' Hs H; cbn in H; [done|].
  destruct stack as [|pc stack].
  { injection H as <-. split; [reflexivity|]. exists (fun pc => seen !! pc = Some true).
    split; [done|]. split; [|auto]. intros pc Hpc. by apply not_elem_of_nil in Hpc. }
  destruct (P !! pc) as [i|] eqn:Ei; [|done].
  destruct (seen !! pc) as [b|] eqn:Eb.
  2:{ apply lookup_ge_None in Eb. apply lookup_lt_Some in Ei. lia. }
  cbn in H. destruct b.
  - apply IH in H as (Hl & S & H1 & H2 & H3); [|done]. split; [done|]. exists S.
    split; [done|]. split; [|done]. intros q [->|Hq]%elem_of_cons; auto.
  - destruct (visit pc i acc) as [[push a]|] eqn:Ev; [|done].
    destruct (Hvisit _ _ _ _ _ Ev) as [Hla _].
    apply IH in H as (Hl & S & H1 & H2 & H3); [|by rewrite length_insert].
    split; [by transitivity a|]. exists S.
    assert (Hlt : (pc < length seen)%nat) by (by eapply lookup_lt_Some).
    split; [|split].
    + intros q Hq. apply H1. destruct (decide (q = pc)) as [->|Hne].
      * by apply list_lookup_insert_eq.
      * by rewrite list_lookup_insert_ne.
    + intros q [->|Hq]%elem_of_cons; [|apply H2, elem_of_app; by right].
      apply H1. by apply list_lookup_insert_eq.
    + intros q Hq. apply H3 in Hq as [Hq|(i' & b & pu & b' & E1 & E2 & E3 & E4 & E5)].
      2:{ right. exists i', b, pu, b'. repeat split; try done. by transitivity a. }
      destruct (decide (q = pc)) as [->|Hne].
      * right. exists i, acc, push, a. split; [done|]. split; [done|].
        split; [|by split]. intros q' Hq'. apply H2, elem_of_app. by left.
      * left. by rewrite list_lookup_insert_ne in Hq.
Qed.

Definition unseen (seen : list bool) : nat := length (List.filter negb seen).

Lemma unseen_insert seen pc : seen !! pc = Some false -> unseen seen = S (unseen (<[pc := true]> seen)).
Proof.
  intros H. unfold unseen. rewrite <- (take_drop_middle seen pc false H) at 1.
  rewrite (insert_take_drop seen pc true) by (by eapply lookup_lt_Some).
  rewrite !List.filter_app, !length_app. cbn. lia.
Qed.

Lemma walk_ends_gen fuel : forall stack seen acc,
  length seen = length P -> (length stack + 2 * unseen seen < fuel)%nat ->
  walk visit P fuel stack seen acc <> WalkFuel.
Proof using Hvisit.
  induction fuel as [|fuel IH]; intros stack seen acc Hs Hf; cbn; [lia|].
  destruct stack as [|pc stack]; [done|]. cbn [length] in Hf.
  destruct (P !! pc) as [i|] eqn:Ei; [|done].
  destruct (seen !! pc) as [b|] eqn:Eb.
  2:{ apply lookup_ge_None in Eb. apply lookup_lt_Some in Ei. lia. }
  cbn. destruct b; [apply IH; [done|lia]|].
  destruct (visit pc i acc) as [[push a]|] eqn:Ev; [|done].
  destruct (Hvisit _ _ _ _ _ Ev) as [_ Hp]. apply unseen_insert in Eb.
  apply IH; [by rewrite length_insert|]. rewrite length_app. lia.
Qed.

Lemma walk_ends acc : walk_from_entry visit P acc <> WalkFuel.
Proof using Hvisit.
  apply walk_ends_gen; [by rewrite length_replicate|]. unfold walk_fuel.
  assert (E : unseen (replicate (length P) false) = length P); [|rewrite E; cbn; lia].
  unfold unseen. generalize (length P) as n. induction n as [|n IH]; cbn; [done|]. by rewrite IH.
Qed.

(** The set of a walk from the entry. *)
Lemma walk_entry acc acc' : walk_from_entry visit P acc = WalkDone acc' ->
  exists S : nat -> Prop, S 0%nat /\ forall pc, S pc ->
    exists i a push a', P !! pc = Some i /\ visit pc i a = Some (push, a') /\
      (forall q, q ∈ push -> S q) /\ le acc a /\ le a' acc'.
Proof using Hle Hvisit.
  intros H. apply walk_closed in H as (_ & S & _ & H2 & H3); [|by rewrite length_replicate].
  exists S. split; [apply H2; by left|]. intros pc Hpc. apply H3 in Hpc as [Hpc|Hpc]; [|done].
  by apply lookup_replicate in Hpc as [? _].
Qed.

End walk.

(** The successors of an instruction that consumes nothing. *)
Definition flow (pc : nat) (i : Inst) : option (list nat) :=
  match i with
  | Jmp t => Some [t]
  | Split a b => Some [b; a]
  | Save _ | ClearCaptures _ _ | Mark | EmptyFail | IAssert _ | Look _ _ | LookBehind _ _ => Some [S pc]
  | Fail_ => Some []
  | _ => None
  end.

(** Where a walk leads from the entry of an attempt at [s]. *)
Record at_start (S : nat -> Prop) (flags : Flags) (s : nat) (t : Thread) : Prop := {
  as_pc : S (t_pc t);
  as_pos : (t_st t).1 = s;
  as_flags : t_flags t = [flags]
}.

Lemma flow_step input flags (S : nat -> Prop) s t i push succ :
  flow (t_pc t) i = Some push -> (forall q, q ∈ push -> S q) -> at_start S flags s t ->
  pstep input false flags i t = Some succ -> Forall (at_start S flags s) succ.
Proof.
  intros Hf Hp [H1 H2 H3]. destruct i; cbn in Hf; simplify_eq;
    cbn -[Nat.min Nat.ltb assert_ok]; repeat case_match; intros; simplify_eq;
    repeat constructor; cbn; try done; apply Hp; first [by left | by right; left].
Qed.

Lemma flow_look S flags s t i push sv :
  flow (t_pc t) i = Some push -> (forall q, q ∈ push -> S q) -> look_of i <> None ->
  at_start S flags s t -> at_start S flags s (goto t (Datatypes.S (t_pc t)) ((t_st t).1, sv)).
Proof.
  intros Hf Hp Hl [H1 H2 H3]. destruct i; try done; cbn in Hf; simplify_eq;
    (split; [apply Hp; first [by left | by right; left]|done..]).
Qed.

(** A walk whose every other stop fails at [s] leaves no match at [s]. *)
Lemma walk_blocks input flags P (S : nat -> Prop) gc s n r :
  S 0%nat ->
  (forall pc, S pc -> exists i, P !! pc = Some i /\
    ((exists push, flow pc i = Some push /\ forall q, q ∈ push -> S q) \/
     (look_of i = None /\ i <> Match /\ forall t succ, at_start S flags s t -> t_pc t = pc ->
       pstep input false flags i t = Some succ -> succ = []))) ->
  RunN input false flags P n [entry flags gc s] r -> r = None.
Proof.
  intros H0 HS HR. eapply (blocked input flags P (at_start S flags s)); [|exact HR|].
  - intros t i Ht Hi. destruct (HS _ (as_pc _ _ _ _ Ht)) as (i' & Hi' & H). simplify_eq.
    destruct H as [(push & Hf & Hp)|(Hl & Hm & H)].
    + destruct (look_of i) eqn:El.
      * intros sv. eapply flow_look; [done..| |done]. by rewrite El.
      * split; [by destruct i|]. intros succ. by apply flow_step with push.
    + rewrite Hl. split; [done|]. intros succ Hs. rewrite (H t succ); done.
  - repeat constructor. exact H0.
Qed.

(** ** The filters *)

Lemma flow_short pc i push : flow pc i = Some push -> (length push <= 2)%nat.
Proof. destruct i; cbn; intros; simplify_eq; cbn; lia. Qed.

(** A character the machine reads at [s] is the unit there, or a pair. *)
Lemma read_cp_unit input s uni cp nsp : subject_ok input ->
  read_dir input s uni false = Some (cp, nsp) ->
  exists u, input !! s = Some u /\ 0 <= u /\ (cp = u \/ (0xFFFF < cp /\ is_high_surrogate u = true)).
Proof.
  intros HF H. unfold read_dir in H. destruct (read_cp input s uni) as [[c len]|] eqn:E; [|done].
  injection H as <- <-. unfold read_cp in E. destruct (input !! s) as [u|] eqn:Eu; [|done].
  exists u. split; [done|]. unfold subject_ok in HF. rewrite list.Forall_lookup in HF.
  assert (Hu := HF _ _ Eu). split; [lia|].
  destruct (uni && is_high_surrogate u) eqn:Ep; [|injection E as <- <-; by left].
  apply andb_true_iff in Ep as [_ Hh]. destruct (input !! Datatypes.S s) as [lo|]; [|injection E as <- <-; by left].
  destruct (is_low_surrogate lo) eqn:El; injection E as <- <-; [right|by left]. split; [|done].
  apply in_range_true in Hh, El. unfold pair_cp. rewrite Z.shiftl_mul_pow2 by lia. lia.
Qed.

Lemma anchored_sound input flags P gc s n r :
  program_is_anchored P = true -> multiline flags = false -> (0 < s)%nat ->
  RunN input false flags P n [entry flags gc s] r -> r = None.
Proof.
  intros H Hm Hs. unfold program_is_anchored in H.
  destruct (walk_from_entry _ _ _) as [[]| |] eqn:E; try done.
  apply (walk_entry _ (fun _ _ => True)) in E as (S & H0 & HS); [|by repeat split|].
  2:{ intros pc i a push a' H'. split; [done|]. destruct i as [| | | | | | | | []| | | | | | | | | |]; cbn in H'; simplify_eq; cbn; lia. }
  apply (walk_blocks input flags P S); [done|]. intros pc Hpc.
  destruct (HS pc Hpc) as (i & a & push & a' & Hi & Hv & Hp & _ & _). exists i. split; [done|].
  assert (Hc : i = IAssert AStart \/ flow pc i = Some push).
  { destruct i as [| | | | | | | | []| | | | | | | | | |]; cbn in Hv; simplify_eq; auto. }
  destruct Hc as [->|Hf]; [right|by left; eexists]. split; [done|]. split; [done|].
  intros t succ [_ Hpos Hfl] _ Hst. cbn in Hst. unfold t_cur in Hst. rewrite Hfl, Hpos in Hst.
  destruct s as [|s]; [lia|]. rewrite Hm in Hst. by injection Hst as <-.
Qed.

Lemma first_unit_sound input flags P gc s n r u : subject_ok input ->
  program_first_unit P = Some u -> ignore_case flags = false -> input !! s <> Some u ->
  RunN input false flags P n [entry flags gc s] r -> r = None.
Proof.
  intros Hsub H Hi Hs. unfold program_first_unit in H.
  destruct (walk_from_entry _ _ _) as [req| |] eqn:E; try done. subst req.
  apply (walk_entry _ (fun a a' => a = None \/ a' = a)) in E as (S & H0 & HS).
  2:{ split; [by intros a; right|]. intros a b c [->| ->] [->| ->]; auto. }
  2:{ intros pc i a push a' H'. destruct i; cbn in H'; repeat case_match; simplify_eq; cbn; (split; [auto|lia]). }
  apply (walk_blocks input flags P S); [done|]. intros pc Hpc.
  destruct (HS pc Hpc) as (i & a & push & a' & Hpi & Hv & Hp & _ & Hl). exists i. split; [done|].
  assert (Hc : (i = Char u /\ u <= 0xFFFF) \/ flow pc i = Some push).
  { destruct i; cbn in Hv; simplify_eq; auto. left.
    destruct (Z.leb_spec c 0xFFFF); [|done]. destruct a as [prev|].
    - destruct (Z.eqb_spec prev c) as [->|]; [|done]. injection Hv as <- <-.
      destruct Hl as [|Hl]; [done|]. by injection Hl as ->.
    - injection Hv as <- <-. destruct Hl as [|Hl]; [done|]. by injection Hl as ->. }
  destruct Hc as [[-> Hu]|Hf]; [right|by left; eexists]. split; [done|]. split; [done|].
  intros t succ [_ Hpos Hfl] _ Hst. cbn -[read_dir cp_eq assert_ok] in Hst. unfold t_cur in Hst. rewrite Hfl, Hpos in Hst.
  destruct (read_dir input s (unicode flags) false) as [[cp nsp]|] eqn:Er; [|congruence].
  apply read_cp_unit in Er as (v & Hv' & _ & Hcp); [|done].
  destruct (cp_eq cp u flags) eqn:Ec; [|congruence]. exfalso. apply Hs.
  unfold cp_eq in Ec. rewrite Hi in Ec. cbn in Ec. destruct (Z.eqb_spec cp u) as [->|]; [|done].
  destruct Hcp as [->|[? _]]; [done|lia].
Qed.

Definition set_le (m m' : list Z) : Prop := length m = 4%nat -> length m' = 4%nat /\
  forall c, 0 <= c < 256 -> latin1_test m c = true -> latin1_test m' c = true.

#[local] Instance set_le_preorder : PreOrder set_le.
Proof.
  split; [by intros m|]. intros a b c H1 H2 Ha. destruct (H1 Ha) as [Hb H1']. destruct (H2 Hb) as [Hc H2'].
  split; [done|]. intros x Hx Hm. auto.
Qed.

Lemma set_le_add p a : set_le a (latin1_add p latin1_range a).
Proof.
  intros Ha. split; [by rewrite latin1_add_length|]. intros c Hc Ht.
  rewrite latin1_add_test; [|done|done|apply latin1_range_ok]. rewrite Ht. apply orb_true_r.
Qed.

Lemma start_set_visited flags pc i a push a' : start_set_visit flags pc i a = Some (push, a') ->
  (is_single_consume i = false /\ flow pc i = Some push /\ a' = a) \/
  (is_single_consume i = true /\ push = [] /\ a' = latin1_add (fun u => single_consume_matches i u flags) latin1_range a).
Proof.
  unfold latin1_add. destruct i; cbn -[latin1_range]; intros H; simplify_eq; auto.
Qed.

Lemma start_set_sound input flags P gc s n r set : subject_ok input ->
  program_start_set P flags = Some set ->
  match input !! s with Some v => allows set v = false | None => True end ->
  RunN input false flags P n [entry flags gc s] r -> r = None.
Proof.
  intros Hsub H Hs. unfold program_start_set in H.
  destruct (walk_from_entry _ _ _) as [set'| |] eqn:E; try done.
  destruct (_ <=? 192); [|done]. injection H as ->.
  apply (walk_entry _ set_le set_le_preorder) in E as (S & H0 & HS).
  2:{ intros pc i a push a' H'. apply start_set_visited in H' as [(_ & H' & ->)|(_ & -> & ->)].
      - split; [done|]. by eapply flow_short.
      - split; [apply set_le_add|cbn; lia]. }
  apply (walk_blocks input flags P S); [done|]. intros pc Hpc.
  destruct (HS pc Hpc) as (i & a & push & a' & Hpi & Hv & Hp & Hl0 & Hl). exists i. split; [done|].
  apply start_set_visited in Hv as [(_ & Hv & _)|(Ei & _ & Ea)]; [left; by exists push|].
  right. split; [by destruct i|]. split; [by destruct i|].
  intros t succ [_ Hpos Hfl] _ Hst.
  assert (Hst' : succ = match read_dir input s (unicode flags) false with
    | Some (cp, nsp) => if single_consume_matches i cp flags then [goto t (Datatypes.S (t_pc t)) (nsp, (t_st t).2)] else []
    | None => [] end).
  { destruct i; try done; cbn -[read_dir single_consume_matches] in Hst; unfold t_cur in Hst; rewrite Hfl, Hpos in Hst; by injection Hst as <-. }
  rewrite Hst'. destruct (read_dir input s (unicode flags) false) as [[cp nsp]|] eqn:Er; [|done].
  apply read_cp_unit in Er as (v & Hv' & Hv0 & Hcp); [|done]. rewrite Hv' in Hs.
  unfold allows in Hs. apply orb_false_iff in Hs as [Hs1%Z.leb_gt Hs2].
  assert (Hcpv : cp = v).
  { destruct Hcp as [|[_ Hh%in_range_true]]; [done|lia]. }
  subst cp. destruct (single_consume_matches i v flags) eqn:Em; [|done]. exfalso.
  rewrite Ea in Hl. assert (Hlen : length (latin1_add (fun u => single_consume_matches i u flags) latin1_range a) = 4%nat).
  { rewrite latin1_add_length. by apply Hl0. }
  destruct (Hl Hlen) as [_ Hl']. rewrite (Hl' v ltac:(lia)) in Hs2; [done|].
  rewrite latin1_add_test; [|lia| |apply latin1_range_ok].
  - rewrite latin1_range_elem by lia. by rewrite Em.
  - by rewrite latin1_add_length in Hlen.
Qed.

(** ** The leading run *)

Section lead.
Context (input : list Z) (flags : Flags) (P : list Inst).
Abbreviation R := (Run input false flags P).

Lemma Run_inv t K r i : R (t :: K) r -> P !! t_pc t = Some i -> look_of i = None -> i <> Match ->
  exists succ, pstep input false flags i t = Some succ /\ R (succ ++ K) r.
Proof.
  intros [n HR] Hi Hl Hm. inversion HR; subst; simplify_eq. eexists. split; [done|]. by eexists.
Qed.

(** Threads that differ in the positions captured only. *)
Record alike (t t' : Thread) : Prop := {
  al_pc : t_pc t' = t_pc t;
  al_pos : (t_st t').1 = (t_st t).1;
  al_length : length (t_st t').2 = length (t_st t).2;
  al_marks : t_marks t' = t_marks t;
  al_flags : t_flags t' = t_flags t
}.

Lemma alike_step_base base t t' i succ : alike t t' -> remembers_start i = false ->
  pstep input false base i t = Some succ ->
  exists succ', pstep input false base i t' = Some succ' /\ Forall2 alike succ succ'.
Proof.
  destruct t as [pc [p sv] ms fs], t' as [pc' [p' sv'] ms' fs'].
  intros [H1 H2 H3 H4 H5] Hr. cbn in H1, H2, H3, H4, H5. subst pc' p' ms' fs'.
  destruct i; try done; cbn -[read_dir assert_ok Nat.min Nat.ltb]; unfold t_cur, goto; cbn -[read_dir assert_ok Nat.min Nat.ltb].
  all: try done.
  all: try (lazymatch goal with |- context [read_dir ?a ?b ?c ?d] =>
    destruct (read_dir a b c d) as [[cp nsp]|]; cbn -[assert_ok Nat.min Nat.ltb] end).
  all: try (intros [= <-]; eexists; (split; [done|]); first [case_match|idtac]; repeat constructor; cbn; done).
  - destruct (sv !! slot) as [v|] eqn:Ev; [|done]. intros [= <-].
    destruct (lookup_lt_is_Some_2 sv' slot) as [v' ->]; [apply lookup_lt_Some in Ev; lia|].
    eexists. split; [done|]. repeat constructor; cbn; try done. by rewrite !length_insert.
  - destruct (assert_ok a input p _) as [[]|]; try done; intros [= <-]; eexists; (split; [done|]); repeat constructor; done.
  - rewrite H3. destruct (Nat.ltb _ _); [done|]. intros [= <-]. eexists. split; [done|].
    repeat constructor; cbn; try done. by rewrite !length_clear_slots.
  - destruct ms as [|m ms]; [intros [= <-]; eexists; split; [done|]; repeat constructor; done|].
    destruct (p =? m)%nat; intros [= <-]; eexists; (split; [done|]); repeat constructor; done.
Qed.

Lemma existsb_lookup {A} (f : A -> bool) l i x : existsb f l = false -> l !! i = Some x -> f x = false.
Proof.
  revert i. induction l as [|y l IH]; intros [|i] H Hi; cbn in *; try done;
    apply orb_false_iff in H as [H1 H2]; [by simplify_eq|by eapply IH].
Qed.

Lemma alike_run n ts r : existsb remembers_start P = false ->
  RunN input false flags P n ts r -> forall ts', Forall2 alike ts ts' ->
  exists r', RunN input false flags P n ts' r' /\ (r = None -> r' = None).
Proof.
  intros HP HR. remember false as rev eqn:Er in HR. revert Er HP.
  induction HR as [rev base P'|rev base P' t ts Hm|rev base P' t ts i succ n r Hi Hp HR IH
    |rev base P' t ts i neg lrev sub m r1 n r Hi Hl Hm IHm HR IH]; intros -> HP ts' HF.
  - apply Forall2_nil_inv_l in HF as ->. exists None. split; [constructor|done].
  - apply Forall2_cons_inv_l in HF as (t' & ts'' & Ha & HF & ->). exists (Some t'). split; [|done].
    constructor. by rewrite (al_pc _ _ Ha).
  - apply Forall2_cons_inv_l in HF as (t' & ts'' & Ha & HF & ->).
    pose proof (alike_step_base _ _ _ _ _ Ha (existsb_lookup _ _ _ _ HP Hi) Hp) as (succ' & Hp' & HF').
    destruct (IH eq_refl HP (succ' ++ ts'')) as (r' & HR' & Hr); [by apply Forall2_app|].
    exists r'. split; [|done]. econstructor; [by rewrite (al_pc _ _ Ha)|exact Hp'|exact HR'].
  - pose proof (existsb_lookup _ _ _ _ HP Hi). by destruct i.
Qed.

(** The saves in front of an instruction. *)
Lemma saves_run fuel : forall t K r, R (t :: K) r ->
  exists t', R (t' :: K) r /\ t_pc t' = skip_saves P (t_pc t) fuel /\ (t_st t').1 = (t_st t).1 /\
    length (t_st t').2 = length (t_st t).2 /\ t_marks t' = t_marks t /\ t_flags t' = t_flags t.
Proof.
  induction fuel as [|fuel IH]; intros t K r HR; cbn; [by exists t|].
  destruct (P !! t_pc t) as [i|] eqn:Ei; [|by exists t].
  destruct i; try (by exists t).
  destruct (Run_inv _ _ _ _ HR Ei) as (succ & Hp & HR'); [done..|]. cbn in Hp.
  destruct ((t_st t).2 !! slot); [|done]. injection Hp as <-.
  apply IH in HR' as (t' & H1 & H2 & H3 & H4 & H5 & H6). exists t'.
  split; [done|]. split; [done|]. split; [done|]. split; [|done]. rewrite H4. cbn. by rewrite length_insert.
Qed.

Lemma unit_step t K r i : R (t :: K) r -> P !! t_pc t = Some i -> is_single_consume i = true ->
  unicode flags = false -> t_flags t = [flags] ->
  match input !! (t_st t).1 with
  | Some u => if single_consume_matches i u flags
              then R (goto t (S (t_pc t)) (S (t_st t).1, (t_st t).2) :: K) r else R K r
  | None => R K r
  end.
Proof.
  intros HR Hi Hc Hu Hf. destruct (Run_inv _ _ _ _ HR Hi) as (succ & Hp & HR'); [by destruct i..|].
  assert (E : succ = match input !! (t_st t).1 with
    | Some u => if single_consume_matches i u flags
                then [goto t (S (t_pc t)) (S (t_st t).1, (t_st t).2)] else []
    | None => [] end).
  { assert (Hp' : Some succ = Some match read_dir input (t_st t).1 (unicode flags) false with
      | Some (cp, nsp) => if single_consume_matches i cp (t_cur flags t)
                          then [goto t (S (t_pc t)) (nsp, (t_st t).2)] else []
      | None => [] end) by (rewrite <- Hp; by destruct i).
    injection Hp' as ->. unfold t_cur. rewrite Hf, Hu. unfold read_dir, read_cp.
    destruct (input !! (t_st t).1) as [u|]; [|done]. cbn [andb]. by rewrite Nat.add_1_r. }
  subst succ. destruct (input !! (t_st t).1) as [u|]; [|done].
  by destruct (single_consume_matches i u flags).
Qed.

(** The shape [program_lead_run] looks for. *)
Record lead_shape (c : nat) (C C2 : Inst) (x : Z) : Prop := {
  ls_flags : ignore_case flags = false /\ unicode flags = false;
  ls_free : existsb remembers_start P = false;
  ls_c : skip_saves P 0 (length P) = c;
  ls_class : P !! c = Some C /\ is_single_consume C = true;
  ls_split : P !! (c + 1)%nat = Some (Split (c + 2) (c + 4));
  ls_class2 : P !! (c + 2)%nat = Some C2 /\ is_single_consume C2 = true;
  ls_jmp : P !! (c + 3)%nat = Some (Jmp (c + 1));
  ls_exit : P !! skip_saves P (c + 4) (length P) = Some (Char x);
  ls_out : single_consume_matches C2 x flags = false
}.

Lemma lead_run_shape c : program_lead_run P flags = Some c -> exists C C2 x, lead_shape c C C2 x.
Proof.
  unfold program_lead_run. intros H.
  destruct (ignore_case flags || unicode flags || unicode_sets flags) eqn:Ef; [done|].
  apply orb_false_iff in Ef as [[E1 E2]%orb_false_iff _].
  destruct (existsb remembers_start P) eqn:Er; [done|].
  set (c0 := skip_saves P 0 (length P)) in *.
  destruct (P !! c0) as [C|] eqn:EC; [|done]. destruct (is_class (Some C)) eqn:Eic; [|done]. cbn [negb] in H.
  destruct (P !! (c0 + 1)%nat) as [[]|] eqn:Es; try done.
  destruct (Nat.eqb_spec a (c0 + 2)) as [->|]; [|done]. cbn [negb orb] in H.
  destruct (P !! (c0 + 2)%nat) as [C2|] eqn:EC2; [|by rewrite orb_true_l in H].
  destruct (is_class (Some C2)) eqn:Eic2; [|done]. cbn [negb orb] in H.
  destruct (P !! (c0 + 3)%nat) as [[]|] eqn:Ej; try done.
  destruct (Nat.eqb_spec target (c0 + 1)) as [->|]; [|done]. cbn [negb orb] in H.
  destruct (Nat.eqb_spec b (c0 + 4)) as [->|]; [|done]. cbn [negb] in H.
  destruct (P !! skip_saves P (c0 + 4) (length P)) as [[]|] eqn:Ex; try done.
  destruct (single_consume_matches C c1 flags); [done|]. cbn [orb] in H.
  destruct (single_consume_matches C2 c1 flags) eqn:Ex2; [done|]. injection H as <-.
  exists C, C2, c1. split; try done; (split; [done|]); [by destruct C|by destruct C2].
Qed.

Section shape.
Context (c : nat) (C C2 : Inst) (x : Z) (HL : lead_shape c C C2 x).

Definition in_set (i : Inst) (p : nat) : Prop :=
  exists u, input !! p = Some u /\ single_consume_matches i u flags = true.

Lemma exit_doomed t K r : R (t :: K) r -> t_pc t = (c + 4)%nat -> t_flags t = [flags] ->
  in_set C2 (t_st t).1 -> R K r.
Proof using HL.
  intros HR Hpc Hf (u & Hu & Hm). destruct HL as [[Hi Hun] _ _ _ _ _ _ Hx Ho].
  destruct (saves_run (length P) _ _ _ HR) as (t' & HR' & H1 & H2 & _ & _ & H3).
  rewrite Hpc in H1. rewrite <- H1 in Hx. rewrite Hf in H3.
  pose proof (unit_step _ _ _ _ HR' Hx eq_refl Hun H3) as Hs. rewrite H2, Hu in Hs.
  cbn [single_consume_matches] in Hs. unfold cp_eq in Hs. rewrite Hi in Hs. cbn in Hs.
  destruct (Z.eqb_spec u x) as [->|]; [congruence|exact Hs].
Qed.

Lemma lead_star e d : forall t K r, R (t :: K) r -> t_pc t = (c + 1)%nat -> t_flags t = [flags] ->
  ((t_st t).1 + d)%nat = e -> (forall q, ((t_st t).1 <= q < e)%nat -> in_set C2 q) -> ~ in_set C2 e ->
  R (goto t (c + 4) (e, (t_st t).2) :: K) r.
Proof using HL.
  assert (HL' := HL). destruct HL' as [[Hi Hun] _ _ _ Hs [HC2 HC2'] Hj _ _].
  induction d as [|d IH]; intros t K r HR Hpc Hf He Hin Hout;
    (destruct (Run_inv t K r (Split (c + 2) (c + 4)) HR ltac:(by rewrite Hpc)) as (succ & Hp & HR1); [done..|];
     injection Hp as <-; cbn [app] in HR1;
     pose proof (unit_step _ _ _ C2 HR1 HC2 HC2' Hun Hf) as H1; cbn [goto t_st] in H1).
  - rewrite Nat.add_0_r in He. subst e.
    assert (Hn : R (goto t (c + 4) (t_st t) :: K) r).
    { destruct (input !! (t_st t).1) as [u|] eqn:Eu; [|exact H1].
      destruct (single_consume_matches C2 u flags) eqn:Em; [|exact H1]. exfalso. apply Hout. by exists u. }
    by rewrite <- surjective_pairing.
  - destruct (Hin (t_st t).1 ltac:(lia)) as (u & Eu & Em). rewrite Eu, Em in H1.
    destruct (Run_inv _ _ _ (Jmp (c + 1)) H1) as (succ & Hp & HR2);
      [cbn; by replace (S (c + 2)) with (c + 3)%nat by lia|done..|].
    injection Hp as <-. cbn [app] in HR2. apply IH in HR2; [|done|done|cbn; lia| |done].
    + cbn in HR2. apply (Run_middle _ _ _ _ [goto t (c + 4) (e, (t_st t).2)]
        (goto t (c + 4) (t_st t) :: K) K); [|exact HR2].
      intros r' H'. eapply exit_doomed; [exact H'|done|exact Hf|]. by exists u.
    + intros q Hq. cbn in Hq. apply Hin. lia.
Qed.

Lemma set_end p : exists e, (p <= e)%nat /\ (forall q, (p <= q < e)%nat -> in_set C2 q) /\ ~ in_set C2 e.
Proof.
  remember (length input - p)%nat as d eqn:Ed. revert p Ed. induction d as [|d IH]; intros p Ed.
  - exists p. split; [lia|]. split; [lia|]. intros (u & Hu & _). apply lookup_lt_Some in Hu. lia.
  - destruct (input !! p) as [u|] eqn:Eu.
    2:{ apply lookup_ge_None in Eu. lia. }
    destruct (single_consume_matches C2 u flags) eqn:Em.
    + destruct (IH (S p) ltac:(lia)) as (e & H1 & H2 & H3). exists e. split; [lia|]. split; [|done].
      intros q Hq. destruct (decide (q = p)) as [->|]; [by exists u|apply H2; lia].
    + exists p. split; [lia|]. split; [lia|]. intros (v & Hv & Hm). simplify_eq. congruence.
Qed.

(** An attempt whose first unit is in the run leads to the end of the run. *)
Lemma lead_entry gc s e r : R [entry flags gc s] r -> in_set C s -> (s < e)%nat ->
  (forall q, (s < q < e)%nat -> in_set C2 q) -> ~ in_set C2 e ->
  exists t, R [t] r /\ t_pc t = (c + 4)%nat /\ (t_st t).1 = e /\ length (t_st t).2 = length (fresh gc) /\
    t_marks t = [] /\ t_flags t = [flags].
Proof using HL.
  intros HR (u & Hu & Hm) Hse Hin Hout. assert (HL' := HL).
  destruct HL' as [[Hi Hun] _ Hc [HC HC'] _ _ _ _ _].
  destruct (saves_run (length P) _ _ _ HR) as (t & HR1 & H1 & H2 & H3 & H4 & H5).
  cbn [entry t_pc t_st t_marks t_flags fst snd] in *. rewrite Hc in H1.
  pose proof (unit_step t [] r C HR1 ltac:(by rewrite H1) HC' Hun H5) as H6.
  rewrite H2, Hu, Hm in H6.
  pose proof (lead_star e (e - S s) _ _ _ H6) as H7. cbn [goto t_pc t_st fst snd t_flags] in H7.
  eexists. split; [apply H7; [lia|exact H5|lia| |exact Hout]|].
  - intros q Hq. apply Hin. lia.
  - cbn. by rewrite H3.
Qed.

Lemma lead_sound gc s s' r' : (forall u, single_consume_matches C u flags = true ->
    single_consume_matches C2 u flags = true) ->
  R [entry flags gc s] None -> (s < s')%nat -> (forall q, (s <= q <= s')%nat -> in_set C q) ->
  R [entry flags gc s'] r' -> r' = None.
Proof using HL.
  intros Hsub HR Hs Hin HR'. destruct (set_end (S s')) as (e & He & Hin2 & Hout).
  assert (Hq : forall q, (s < q < e)%nat -> in_set C2 q).
  { intros q Hq. destruct (decide (q <= s')%nat); [|apply Hin2; lia].
    destruct (Hin q ltac:(lia)) as (u & Hu & Hm). exists u. auto. }
  destruct (lead_entry gc s e None HR (Hin s ltac:(lia)) ltac:(lia) Hq Hout)
    as (t & [n Ht] & H1 & H2 & H3 & H4 & H5).
  destruct (lead_entry gc s' e r' HR' (Hin s' ltac:(lia)) ltac:(lia)
    (fun q Hq' => Hq q ltac:(lia)) Hout) as (t' & Ht' & H1' & H2' & H3' & H4' & H5').
  destruct (alike_run n [t] None (ls_free _ _ _ _ HL) Ht [t']) as (r2 & Hr2 & Hn).
  { repeat constructor; congruence. }
  rewrite (Hn eq_refl) in Hr2. eapply Run_fun; [by exists n|exact Ht'].
Qed.

End shape.
End lead.

(** ** The leftmost match *)

(** The first offset of a list at which [m] has a match. *)
Fixpoint leftmost {A} (m : nat -> option A) (l : list nat) : option (nat * A) :=
  match l with
  | [] => None
  | s :: l => match m s with Some a => Some (s, a) | None => leftmost m l end
  end.

(** The offsets of [s..=last] a match may begin at: with [u], not inside a pair. *)
Definition starts (units : list Z) (uni : bool) (s last : nat) : list nat :=
  List.filter (fun q => negb uni || is_char_boundary units q) (seq s (S last - s)).

Lemma leftmost_skip {A} (m : nat -> option A) units uni s s' last :
  (s <= s')%nat ->
  (forall q, (s <= q < s')%nat -> (q <= last)%nat -> negb uni || is_char_boundary units q = true -> m q = None) ->
  leftmost m (starts units uni s last) = leftmost m (starts units uni s' last).
Proof.
  intros Hs Hm. remember (s' - s)%nat as d eqn:Ed. revert s Hs Ed Hm.
  induction d as [|d IH]; intros s Hs Ed Hm; [by replace s' with s by lia|].
  destruct (decide (s <= last)%nat) as [Hl|Hl].
  - unfold starts at 1. replace (S last - s)%nat with (S (S last - S s)) by lia. cbn [seq List.filter].
    rewrite <- (IH (S s)); [|lia|lia|intros q Hq; apply Hm; lia]. fold (starts units uni (S s) last).
    destruct (negb uni || is_char_boundary units s) eqn:Eb; [|done]. cbn.
    by rewrite Hm by first [lia|done].
  - unfold starts. replace (S last - s)%nat with 0%nat by lia. replace (S last - s')%nat with 0%nat by lia. done.
Qed.

Lemma starts_past units uni s last : (last < s)%nat -> starts units uni s last = [].
Proof. intros H. unfold starts. by replace (S last - s)%nat with 0%nat by lia. Qed.

Definition is_cand (units : list Z) (uni : bool) (q : nat) : bool := negb uni || is_char_boundary units q.

Lemma pair_boundary units s : match units !! s with Some u => is_low_surrogate u = true | None => False end ->
  is_char_boundary units (S s) = true.
Proof.
  intros H. cbn. destruct (units !! s) as [u|]; [|done]. destruct (units !! S s) as [v|]; [|done].
  assert (is_high_surrogate u = false) as ->.
  { destruct (is_high_surrogate u) eqn:E; [|done]. apply in_range_true in H, E. lia. }
  by rewrite orb_true_r.
Qed.

Lemma not_cand units uni k : is_cand units uni k = false ->
  uni = true /\ match units !! k with Some u => is_low_surrogate u = true | None => False end.
Proof.
  unfold is_cand. intros [H1 H2]%orb_false_iff. apply negb_false_iff in H1. split; [done|].
  destruct k as [|p]; [done|]. cbn in H2. destruct (units !! S p) as [u|]; [|done].
  destruct (units !! p); [|done]. apply orb_false_iff in H2 as [H2 _]. by apply negb_false_iff in H2.
Qed.

Lemma advance_spec units uni k : let s' := advance_string_index units k uni in
  (k <= length units)%nat ->
  (S k <= s' <= S (length units))%nat /\ (forall q, (k < q < s')%nat -> is_cand units uni q = false) /\ (is_cand units uni k = true -> is_cand units uni s' = true).
Proof.
  intros s' Hk. unfold s', advance_string_index, is_cand. destruct uni; cbn [negb orb].
  2:{ split; [lia|]. split; [lia|done]. }
  destruct (units !! k) as [hi|] eqn:Ehi.
  2:{ split; [lia|]. split; [lia|]. intros _. apply lookup_ge_None in Ehi. cbn.
      rewrite (proj2 (lookup_ge_None units (S k))) by lia. done. }
  assert (Hlt : (k < length units)%nat) by (by eapply lookup_lt_Some).
  destruct (units !! S k) as [lo|] eqn:Elo.
  2:{ rewrite andb_false_r. split; [lia|]. split; [lia|]. intros _. cbn. by rewrite Elo. }
  apply lookup_lt_Some in Elo as Hlt2.
  destruct (is_high_surrogate hi) eqn:Eh, (is_low_surrogate lo) eqn:El; cbn [andb].
  - split; [lia|]. split.
    + intros q Hq. replace q with (S k) by lia. cbn. by rewrite Elo, Ehi, El, Eh.
    + intros _. apply pair_boundary. by rewrite Elo.
  - split; [lia|]. split; [lia|]. intros _. cbn. by rewrite Elo, Ehi, El.
  - split; [lia|]. split; [lia|]. intros _. cbn. by rewrite Elo, Ehi, Eh, orb_true_r.
  - split; [lia|]. split; [lia|]. intros _. cbn. by rewrite Elo, Ehi, El.
Qed.

Lemma scan_start_cand units flags start : (start <= length units)%nat ->
  (scan_start units start flags <= start)%nat /\ is_cand units (unicode flags) (scan_start units start flags) = true.
Proof.
  intros Hs. unfold scan_start. destruct (unicode flags && (start <? length units)%nat) eqn:E; cbn [andb].
  - destruct (is_char_boundary units start) eqn:Eb; cbn [negb].
    + split; [lia|]. unfold is_cand. rewrite Eb. apply orb_true_r.
    + split; [lia|]. destruct start as [|p]; [done|]. cbn [Nat.sub]. rewrite Nat.sub_0_r. cbn in Eb.
      destruct (units !! S p) as [lo|]; [|done]. destruct (units !! p) as [hi|] eqn:Ehi; [|done].
      apply orb_false_iff in Eb as [_ Eh%negb_false_iff]. unfold is_cand.
      assert (is_char_boundary units p = true) as ->; [|apply orb_true_r].
      destruct p as [|p]; [done|]. cbn. rewrite Ehi. destruct (units !! p) as [v|]; [|done].
      assert (is_low_surrogate hi = false) as ->; [|done].
      destruct (is_low_surrogate hi) eqn:El; [|done]. apply in_range_true in Eh, El. clear -Eh El. lia.
  - split; [lia|]. unfold is_cand. destruct (unicode flags) eqn:Eu; cbn in *; [|done].
    apply Nat.ltb_ge in E. replace start with (length units) by lia.
    destruct (length units) as [|p] eqn:Ep; [done|]. cbn.
    by rewrite (proj2 (lookup_ge_None units (S p))) by lia.
Qed.

Lemma position_from_spec p units n : forall s,
  match position_from p units s n with
  | Some k => (s <= k < s + n)%nat /\ (exists u, units !! k = Some u /\ p u = true) /\
      forall q, (s <= q < k)%nat -> exists u, units !! q = Some u /\ p u = false
  | None => forall q u, (s <= q < s + n)%nat -> units !! q = Some u -> p u = false
  end.
Proof.
  induction n as [|n IH]; intros s; cbn; [intros; lia|].
  destruct (units !! s) as [u|] eqn:Eu.
  - destruct (p u) eqn:Ep.
    + split; [lia|]. split; [by exists u|]. intros; lia.
    + specialize (IH (S s)). destruct (position_from p units (S s) n) as [k|].
      * destruct IH as (H1 & H2 & H3). split; [lia|]. split; [done|]. intros q Hq.
        destruct (decide (q = s)) as [->|]; [by exists u|apply H3; lia].
      * intros q v Hq Hv. destruct (decide (q = s)) as [->|]; [congruence|]. eapply IH; [|done]. lia.
  - intros q v Hq Hv. apply lookup_ge_None in Eu. apply lookup_lt_Some in Hv. lia.
Qed.

Section scan.
Context (lim : Limits) (ast : Node) (names : list (nat * String.string)) (units : list Z) (rx : Regex_).
Context (Hnew : regex_new ast names (r_flags rx) = Ok rx).
Abbreviation flags := (r_flags rx).
Context (Hgood : good_pattern (unicode flags) ast = true).
Context (Hsub : subject_ok units) (Hlen : Z.of_nat (length units) <= MAX_STRING_LEN).
Abbreviation b := (budget_for (length units)).
Context (Hdepth : Z.of_nat (prog_depth (r_prog rx)) <= MAX_DEPTH lim) (Hstack : b <= MAX_STACK lim).

(** The two copies of the leading class are the same atom, as the documentation of
    [program_lead_run] says but its code does not check. *)
Definition lead_ok : Prop := forall c, lead_run rx = Some c ->
  match r_prog rx !! c, r_prog rx !! (c + 2)%nat with
  | Some C, Some C2 => forall u, single_consume_matches C u flags = true ->
      single_consume_matches C2 u flags = true
  | _, _ => False
  end.
Context (Hlead : lead_ok).

Definition match_from (s : nat) : option MState := match_at units names flags ast (group_count rx) s.

Lemma rx_parts : compile_program ast names (unicode flags) = Ok (r_prog rx, group_count rx) /\
  anchored rx = program_is_anchored (r_prog rx) /\
  first_unit rx = program_first_unit (r_prog rx) /\
  (forall set, start_set rx = Some set -> program_start_set (r_prog rx) flags = Some set) /\
  lead_run rx = program_lead_run (r_prog rx) flags.
Proof using Hnew.
  pose proof Hnew as H. clear -H. unfold regex_new in H. apply bind_ok in H as ([P gc] & H & E).
  destruct rx. injection E as <- <- <- <- <- <-. cbn in *. split; [done|].
  split; [done|]. split; [done|]. split; [|done]. by destruct (program_first_unit P).
Qed.

Lemma budget_bounds : 0 <= b < U64_MAX.
Proof using Hlen.
  clear -Hlen. rewrite budget_for_small; unfold MAX_STRING_LEN, U64_MAX in *.
  - change (Z.shiftl 1 30) with (2 ^ 30) in Hlen. lia.
  - change (Z.shiftl 1 30) with (2 ^ 30) in Hlen. lia.
Qed.

Lemma runs_from s : (s <= length units)%nat -> exists r,
  Run units false flags (r_prog rx) [entry flags (group_count rx) s] r /\
  match_from s = t_st <$> r.
Proof using Hnew Hgood Hsub Hlen.
  intros Hs. destruct rx_parts as [Hc _]. by eapply program_runs.
Qed.

Lemma no_match_from s : (s <= length units)%nat ->
  (forall n r, RunN units false flags (r_prog rx) n [entry flags (group_count rx) s] r -> r = None) ->
  match_from s = None.
Proof using Hnew Hgood Hsub Hlen.
  intros Hs H. destruct (runs_from s Hs) as (r & [n HR] & ->). by rewrite (H _ _ HR).
Qed.

(** An attempt of the scan. *)
Lemma attempt_step s st : (s <= length units)%nat -> 0 <= st <= U64_MAX ->
  match run_with (Z.to_nat (b + 2)) lim (r_prog rx) units s (group_count rx) flags st b with
  | Matched gs st' => exists m, match_from s = Some m /\ gs = pair_saves m.2 (group_count rx) /\ st <= b
  | NoMatch st' => 0 <= st' <= U64_MAX /\ ((match_from s = None /\ st <= b) \/ b < st')
  | _ => False
  end.
Proof using Hnew Hgood Hsub Hlen Hdepth Hstack.
  intros Hs Hst. pose proof budget_bounds as Hbb. destruct (Z.le_gt_cases st b) as [Hb|Hb].
  - destruct (runs_from s Hs) as (r & [n HR] & ->).
    pose proof (run_with_answers lim _ units s (group_count rx) flags st b n r HR ltac:(lia) ltac:(lia)
      ltac:(lia) Hdepth ltac:(left; lia)) as H.
    destruct (run_with _ _ _ _ _ _ _ _ _) as [gs st'|st'| |]; cbn in H; try done.
    + destruct H as (_ & m & -> & ->). by exists m.
    + destruct H as (H1 & [[H2 ->]|[[H2 _]|(_ & _ & H2)]]); [|split; [lia|by right]|lia].
      split; [lia|]. by left.
  - unfold run_with, backtrack, enter. destruct (Z.ltb_spec (MAX_DEPTH lim) 0) as [?|_]; [lia|].
    match goal with |- context [loop ?n ?l ?c ?d ?e] =>
      destruct (loop_over l n c d e) as (sv & st' & -> & H); [cbn; lia..|] end.
    cbn in H. split; [lia|]. right. lia.
Qed.

Abbreviation cand q := (is_cand units (unicode flags) q).

Lemma filter_from_spec p s last : (s <= last <= length units)%nat ->
  (forall q, (q <= length units)%nat ->
    match units !! q with Some u => p u = false | None => True end -> match_from q = None) ->
  match filter_from p units s last (unicode flags) with
  | Attempt_at k => (s <= k <= last)%nat /\ (forall q, (s <= q < k)%nat -> match_from q = None) /\ cand k = true
  | Skip_to s' => exists k, s' = S k /\ (s <= k <= last)%nat /\ (k < length units)%nat /\
      (forall q, (s <= q < k)%nat -> match_from q = None) /\ cand k = false
  | Give_up => forall q, (s <= q <= last)%nat -> match_from q = None
  end.
Proof using Hgood.
  intros Hs Hp. unfold filter_from. set (e := Nat.min (S last) (length units)).
  destruct (Nat.leb_spec e s) as [He|He].
  { intros q Hq. apply Hp; [lia|]. destruct (units !! q) as [u|] eqn:Eu; [|done].
    apply lookup_lt_Some in Eu. lia. }
  pose proof (position_from_spec p units (e - s) s) as H.
  destruct (position_from p units s (e - s)) as [k|].
  - destruct H as (H1 & (u & Hu & Hpu) & H3).
    assert (Hn : forall q, (s <= q < k)%nat -> match_from q = None).
    { intros q Hq. apply Hp; [lia|]. destruct (H3 q Hq) as (v & -> & Hv). done. }
    unfold is_cand. destruct (unicode flags); cbn [andb negb orb]; [|split; [lia|done]].
    destruct (is_char_boundary units k) eqn:Eb; cbn; [split; [lia|done]|].
    exists k. split; [done|]. split; [lia|]. split; [lia|]. done.
  - intros q Hq. apply Hp; [lia|]. destruct (units !! q) as [u|] eqn:Eu; [|done].
    eapply H; [|done]. apply lookup_lt_Some in Eu. lia.
Qed.

Lemma next_candidate_spec s last : (s <= last <= length units)%nat -> cand s = true ->
  match next_candidate rx units s last flags with
  | Attempt_at k => (s <= k <= last)%nat /\ (forall q, (s <= q < k)%nat -> match_from q = None) /\ cand k = true
  | Skip_to s' => exists k, s' = S k /\ (s <= k <= last)%nat /\ (k < length units)%nat /\
      (forall q, (s <= q < k)%nat -> match_from q = None) /\ cand k = false
  | Give_up => forall q, (s <= q <= last)%nat -> match_from q = None
  end.
Proof using Hnew Hgood Hsub Hlen.
  intros Hs Hc. destruct rx_parts as (_ & _ & Hfu & Hss & _). unfold next_candidate.
  destruct (if ignore_case flags then None else first_unit rx) as [u|] eqn:Ef.
  - assert (Hi : ignore_case flags = false) by (by destruct (ignore_case flags)). rewrite Hi in Ef.
    apply filter_from_spec; [done|]. intros q Hq Hu. apply no_match_from; [done|]. intros n r.
    apply (first_unit_sound units flags _ _ q n r u); [done|congruence|done|].
    intros Hx. rewrite Hx in Hu. by rewrite Z.eqb_refl in Hu.
  - destruct (start_set rx) as [set|] eqn:Es; [|split; [lia|]; split; [lia|done]].
    apply filter_from_spec; [done|]. intros q Hq Hu. apply no_match_from; [done|]. intros n r.
    apply (start_set_sound units flags _ _ q n r set); [done|by apply Hss|done].
Qed.

Lemma run_end_spec C n : forall s, (s <= run_end C units flags s n)%nat /\
  forall q, (s <= q < run_end C units flags s n)%nat -> in_set units flags C q.
Proof using rx Hgood.
  induction n as [|n IH]; intros s; cbn; [split; lia|].
  destruct (units !! s) as [u|] eqn:Eu; [|split; lia].
  destruct (single_consume_matches C u flags) eqn:Em; [|split; lia].
  destruct (IH (S s)) as [H1 H2]. split; [lia|]. intros q Hq.
  destruct (decide (q = s)) as [->|]; [by exists u|apply H2; lia].
Qed.

Lemma after_failure_spec k : let s' := after_failure rx units k flags in
  (k <= length units)%nat -> cand k = true ->
  (S k <= s' <= S (length units))%nat /\ cand s' = true /\
  (match_from k = None -> forall q, (k < q < s')%nat -> cand q = true -> match_from q = None).
Proof using Hnew Hgood Hsub Hlen Hlead.
  intros s' Hk Hc. unfold s', after_failure. destruct rx_parts as (_ & _ & _ & _ & Hlr).
  assert (Hadv : let s' := advance_string_index units k (unicode flags) in
    (S k <= s' <= S (length units))%nat /\ cand s' = true /\
    (match_from k = None -> forall q, (k < q < s')%nat -> cand q = true -> match_from q = None)).
  { destruct (advance_spec units (unicode flags) k Hk) as (H1 & H2 & H3). split; [done|]. split; [auto|].
    intros _ q Hq Hq'. by rewrite H2 in Hq'. }
  destruct (lead_run rx) as [c|] eqn:Ec; [|done].
  pose proof (Hlead c Ec) as Hl. destruct (r_prog rx !! c) as [C|] eqn:EC; [|done].
  destruct (r_prog rx !! (c + 2)%nat) as [C2|] eqn:EC2; [|done].
  destruct (units !! k) as [u|] eqn:Eu; [|done].
  destruct (single_consume_matches C u flags) eqn:Em; [|done].
  symmetry in Hlr. apply lead_run_shape in Hlr as (C' & C2' & x & HL).
  assert (HL' := HL). destruct HL' as [[_ Hun] _ _ [HC _] _ [HC2 _] _ _ _].
  assert (C' = C) as -> by congruence. assert (C2' = C2) as -> by congruence.
  destruct (run_end_spec C (length units - k) (S k)) as [H1 H2].
  set (e := run_end C units flags (S k) (length units - k)) in *.
  assert (Hin : forall q, (k <= q < e)%nat -> in_set units flags C q).
  { intros q Hq. destruct (decide (q = k)) as [->|]; [by exists u|apply H2; lia]. }
  assert (He : (e <= length units)%nat).
  { destruct (Hin (e - 1)%nat ltac:(lia)) as (v & Hv & _). apply lookup_lt_Some in Hv. lia. }
  split; [lia|]. split; [unfold is_cand; by rewrite Hun|].
  intros Hm q Hq _. apply no_match_from; [lia|]. intros n r HR.
  destruct (runs_from k Hk) as (r0 & HR0 & E0). rewrite Hm in E0. symmetry in E0. apply fmap_None in E0 as ->.
  eapply (lead_sound units flags _ c C C2 x HL (group_count rx) k q); [exact Hl|exact HR0|lia| |by exists n].
  intros q' Hq'. apply Hin. lia.
Qed.

(** What a scan of [s..=last] may answer. *)
Definition scan_answers (s last : nat) (st : Z) (a : Attempt) : Prop :=
  let found := leftmost match_from (starts units (unicode flags) s last) in
  match a with
  | Matched gs _ => st <= b /\ exists q m, found = Some (q, m) /\ gs = pair_saves m.2 (group_count rx)
  | NoMatch st' => (found = None /\ st <= b) \/ b < st'
  | AttemptPanic | AttemptFuel => False
  end.

Lemma scan_answers_skip s s' last st a : (s <= s')%nat ->
  (forall q, (s <= q < s')%nat -> (q <= last)%nat -> cand q = true -> match_from q = None) ->
  scan_answers s' last st a -> scan_answers s last st a.
Proof using Hgood.
  intros Hs Hq. unfold scan_answers.
  by rewrite (leftmost_skip match_from units (unicode flags) s s' last Hs Hq).
Qed.

Lemma scan_answers_none s last st : (forall q, (s <= q <= last)%nat -> cand q = true -> match_from q = None) ->
  scan_answers s last st (NoMatch st).
Proof using Hgood.
  intros Hq. destruct (Nat.le_gt_cases s last) as [Hl|Hl].
  - apply (scan_answers_skip s (S last)); [lia|intros q Hq' _; apply Hq; lia|].
    unfold scan_answers. rewrite starts_past by lia. destruct (Z.le_gt_cases st b); [by left|by right].
  - unfold scan_answers. rewrite starts_past by lia. destruct (Z.le_gt_cases st b); [by left|by right].
Qed.

Lemma scan_loop_answers fuel : forall s last st,
  (length units + 1 < fuel + s)%nat -> (s <= length units + 1)%nat -> (last <= length units)%nat ->
  0 <= st <= U64_MAX -> cand s = true ->
  scan_answers s last st (scan_loop fuel lim rx units s last flags st b).
Proof using Hnew Hgood Hsub Hlen Hdepth Hstack Hlead.
  induction fuel as [|fuel IH]; intros s last st Hf Hs Hl Hst Hc; [lia|]. cbn [scan_loop].
  destruct (Nat.ltb_spec last s) as [Hlt|Hle]; [apply scan_answers_none; lia|].
  pose proof (next_candidate_spec s last ltac:(lia) Hc) as Hn.
  destruct (next_candidate rx units s last flags) as [k|s'|].
  - destruct Hn as (Hk & Hq & Hck).
    apply (scan_answers_skip s k); [lia|intros q Hq' _ _; apply Hq; lia|].
    pose proof (attempt_step k st ltac:(lia) Hst) as Ha.
    destruct (run_with _ _ _ _ _ _ _ _ _) as [gs st'|st'| |]; try done.
    + destruct Ha as (m & Hm & -> & Hb). split; [done|]. exists k, m. split; [|done].
      unfold starts. replace (S last - k)%nat with (S (last - k)) by lia. cbn [seq List.filter].
      fold (is_cand units (unicode flags) k). rewrite Hck. cbn. by rewrite Hm.
    + destruct Ha as (Hst' & Ha). destruct (after_failure_spec k ltac:(lia) Hck) as (H1 & H2 & H3).
      set (s' := after_failure rx units k flags) in *.
      specialize (IH s' last st' ltac:(lia) ltac:(lia) Hl Hst' H2).
      destruct Ha as [[Hm Hb]|Hb].
      * apply (scan_answers_skip k s'); [lia| |].
        { intros q Hq' _ Hcq. destruct (decide (q = k)) as [->|]; [done|]. apply H3; [done|lia|done]. }
        unfold scan_answers in *. destruct (scan_loop _ _ _ _ _ _ _ _ _) as [gs st2|st2| |]; try done.
        -- by destruct IH as [_ IH].
        -- destruct IH as [[IH _]|IH]; [by left|by right].
      * unfold scan_answers in *. destruct (scan_loop _ _ _ _ _ _ _ _ _) as [gs st2|st2| |]; try done; [lia|].
        destruct IH as [[_ IH]|IH]; [lia|by right].
  - destruct Hn as (k & -> & Hk & Hkl & Hq & Hck).
    destruct (not_cand _ _ _ Hck) as [Hu Hlow].
    apply (scan_answers_skip s (S k)); [lia| |].
    { intros q Hq' _ Hcq. destruct (decide (q = k)) as [->|]; [by rewrite Hck in Hcq|apply Hq; lia]. }
    apply IH; [lia|lia|done|done|]. unfold is_cand. rewrite pair_boundary by done. apply orb_true_r.
  - apply scan_answers_none. intros q Hq' _. apply Hn. lia.
Qed.

End scan.

Lemma leftmost_first {A} (m : nat -> option A) units uni s last : (s <= last)%nat ->
  (forall q, (s < q <= last)%nat -> is_cand units uni q = true -> m q = None) ->
  leftmost m (starts units uni s last) = leftmost m (starts units uni s s).
Proof.
  intros Hs Hq. pose proof (leftmost_skip m units uni (S s) (S last) last ltac:(lia)) as E.
  rewrite (starts_past _ _ (S last)) in E by lia. unfold starts in *.
  replace (S last - s)%nat with (S (S last - S s)) by lia. replace (S s - s)%nat with 1%nat by lia.
  cbn [seq List.filter]. destruct (negb uni || is_char_boundary units s); cbn.
  - destruct (m s); [done|]. apply E. intros q H1 H2. apply Hq. lia.
  - apply E. intros q H1 H2. apply Hq. lia.
Qed.

(** The offsets of a scan cut down by the anchor have the same leftmost match. *)
Lemma scan_window ast names units rx start :
  let flags := r_flags rx in
  regex_new ast names flags = Ok rx -> good_pattern (unicode flags) ast = true ->
  subject_ok units -> Z.of_nat (length units) <= MAX_STRING_LEN -> (start <= length units)%nat ->
  leftmost (match_from ast names units rx)
    (starts units (unicode flags) start (if sticky flags then start else length units)) =
  leftmost (match_from ast names units rx) (starts units (unicode flags) start (scan_last rx units start flags)).
Proof.
  intros flags Hnew Hgood Hsub Hlen Hstart. destruct (rx_parts ast names rx Hnew) as (_ & Han & _).
  unfold scan_last. destruct (sticky flags); cbn [orb]; [done|].
  destruct (anchored rx && negb (multiline flags)) eqn:Ea; [|done].
  apply andb_true_iff in Ea as [Ea Hm%negb_true_iff]. rewrite Han in Ea.
  apply leftmost_first; [lia|]. intros q Hq _.
  apply (no_match_from ast names units rx Hnew Hgood Hsub Hlen); [lia|]. intros n r.
  apply anchored_sound; [done|done|lia].
Qed.

Lemma scan_last_le rx units start flags : (start <= length units)%nat ->
  (scan_last rx units start flags <= length units)%nat.
Proof. intros Hs. unfold scan_last. destruct (_ || _); lia. Qed.

(** What a scan with the machine answers. *)
Definition scan_finds (ast : Node) (names : list (nat * String.string)) (units : list Z) (rx : Regex_)
    (start : nat) (a : Attempt) : Prop :=
  let flags := r_flags rx in
  let start' := scan_start units start flags in
  let found := leftmost (match_from ast names units rx)
    (starts units (unicode flags) start' (if sticky flags then start' else length units)) in
  match a with
  | Matched gs _ => exists q m, found = Some (q, m) /\ gs = pair_saves m.2 (group_count rx)
  | NoMatch steps => found = None \/ budget_for (length units) < steps
  | AttemptPanic | AttemptFuel => False
  end.

Lemma scan_into_finds lim ast names units rx start :
  let flags := r_flags rx in
  regex_new ast names flags = Ok rx -> good_pattern (unicode flags) ast = true ->
  subject_ok units -> Z.of_nat (length units) <= MAX_STRING_LEN -> (start <= length units)%nat ->
  Z.of_nat (prog_depth (r_prog rx)) <= MAX_DEPTH lim -> budget_for (length units) <= MAX_STACK lim ->
  lead_ok rx -> scan_finds ast names units rx start (scan_into lim rx units start flags 0).
Proof.
  intros flags Hnew Hgood Hsub Hlen Hstart Hd Hst Hlead. unfold scan_finds. fold flags. cbv zeta.
  destruct (scan_start_cand units flags start Hstart) as [Hs' Hc]. unfold scan_into.
  set (start' := scan_start units start flags) in *. set (last := scan_last rx units start' flags).
  pose proof (scan_loop_answers lim ast names units rx Hnew Hgood Hsub Hlen Hd Hst Hlead
    (length units + 2) start' last 0 ltac:(lia) ltac:(lia) (scan_last_le rx units start' flags ltac:(lia))
    ltac:(unfold U64_MAX; lia) Hc) as H.
  pose proof (scan_window ast names units rx start' Hnew Hgood Hsub Hlen ltac:(lia)) as Ef.
  unfold scan_answers in H. fold flags in Ef, H. fold last in Ef. rewrite Ef.
  destruct (scan_loop _ _ _ _ _ _ _ _ _); try done; [by destruct H|].
  destruct H as [[H _]|H]; auto.
Qed.

(** A scan finds the leftmost match: [Regex::new] on any pattern the parser can
    produce, then [captures_in_u16] on any subject, answers as the reference
    semantics tried at every offset in order (every character boundary with [u];
    only the first offset with [y]), whichever of the start filters applies: the
    anchor, the required first unit, the set of first units, the leading run.  A
    failure means there is no match at any of them, unless the step counter ended
    above the budget.  The leading run needs its two copies to be the same class. *)
Theorem scan_leftmost lim ast names units rx start :
  let flags := r_flags rx in
  regex_new ast names flags = Ok rx -> good_pattern (unicode flags) ast = true ->
  subject_ok units -> Z.of_nat (length units) <= MAX_STRING_LEN -> (start <= length units)%nat ->
  Z.of_nat (prog_depth (r_prog rx)) <= MAX_DEPTH lim -> budget_for (length units) <= MAX_STACK lim ->
  lead_ok rx ->
  let start' := scan_start units start flags in
  let found := leftmost (match_at units names flags ast (group_count rx))
    (starts units (unicode flags) start' (if sticky flags then start' else length units)) in
  match scan_into lim rx units start flags 0 with
  | Matched gs _ => exists q m, found = Some (q, m) /\ gs = pair_saves m.2 (group_count rx)
  | NoMatch steps => found = None \/ budget_for (length units) < steps
  | AttemptPanic | AttemptFuel => False
  end.
Proof. intros flags Hnew Hgood Hsub Hlen Hstart Hd Hst Hlead. by apply scan_into_finds. Qed.

(** ** Flags *)

Definition flag_letters : list Z := [105; 103; 109; 115; 121; 117; 118; 100].

Definition flags_of (s : list Z) : Flags :=
  let has (c : Z) := bool_decide (c ∈ s) in
  MkFlags (has 105) (has 103) (has 109) (has 115) (has 121) (has 117 || has 118) (has 118).

(** [f] extended with the letters of [s]. *)
Definition add_flags (f : Flags) (s : list Z) : Flags :=
  let has (c : Z) := bool_decide (c ∈ s) in
  MkFlags (ignore_case f || has 105) (global f || has 103) (multiline f || has 109) (dotall f || has 115)
    (sticky f || has 121) (unicode f || has 117 || has 118) (unicode_sets f || has 118).

Lemma parse_flags_step (c : Z) s (seen : list bool) f (b : bool) : c ∈ flag_letters -> seen !! Z.to_nat c = Some b ->
  parse_flags_loop (c :: s) seen f =
  if b then inr DuplicateFlag else parse_flags_loop s (<[Z.to_nat c := true]> seen) (add_flags f [c]).
Proof.
  intros Hc Hb. cbn [parse_flags_loop]. rewrite Hb. destruct f as [i g m d y u v].
  unfold flag_letters in Hc.
  repeat (apply elem_of_cons in Hc as [->|Hc];
    [destruct b; [done|]; unfold add_flags; rewrite ?orb_false_r; cbn -[insert]; by rewrite ?orb_true_r, ?orb_false_r|]).
  by apply not_elem_of_nil in Hc.
Qed.

Lemma letter_nonneg c : c ∈ flag_letters -> 0 <= c < 128.
Proof.
  unfold flag_letters. intros Hc. repeat (apply elem_of_cons in Hc as [->|Hc]; [lia|]).
  by apply not_elem_of_nil in Hc.
Qed.

Lemma not_letter c s seen f g : c ∉ flag_letters -> parse_flags_loop (c :: s) seen f <> inl g.
Proof.
  intros Hc. cbn [parse_flags_loop]. destruct (_ && _); [done|]. destruct f.
  assert (Hn : forall x, x ∈ flag_letters -> (c =? x) = false).
  { intros x Hx. apply Z.eqb_neq. by intros ->. }
  rewrite !Hn; [done|by unfold flag_letters; repeat (first [by left | right])..].
Qed.

Lemma add_flags_cons f (c : Z) s : add_flags (add_flags f [c]) s = add_flags f (c :: s).
Proof.
  assert (H : forall x : Z, bool_decide (x ∈ c :: s) = bool_decide (x ∈ [c]) || bool_decide (x ∈ s)).
  { intros x. apply eq_true_iff_eq. rewrite orb_true_iff, !bool_decide_eq_true, !elem_of_cons, elem_of_nil. tauto. }
  unfold add_flags. rewrite !H. cbn [ignore_case global multiline dotall sticky unicode unicode_sets].
  f_equal; rewrite <- ?orb_assoc; try done. f_equal.
  generalize (bool_decide (117 ∈ [c])), (bool_decide (118 ∈ [c])), (bool_decide (117 ∈ s)), (bool_decide (118 ∈ s)).
  by intros [] [] [] [].
Qed.

Lemma parse_flags_loop_spec s : forall seen f g, length seen = 128%nat ->
  parse_flags_loop s seen f = inl g <->
  NoDup s /\ Forall (fun c => c ∈ flag_letters /\ seen !! Z.to_nat c = Some false) s /\ g = add_flags f s.
Proof.
  induction s as [|c s IH]; intros seen f g Hl.
  - assert (E : add_flags f [] = f).
    { destruct f. unfold add_flags. cbn -[bool_decide]. rewrite !bool_decide_false by (apply not_elem_of_nil).
      by rewrite !orb_false_r. }
    rewrite E. cbn. split; [intros [= ->]; repeat constructor|by intros (_ & _ & ->)].
  - destruct (decide (c ∈ flag_letters)) as [Hc|Hc].
    2:{ split; [intros H; by apply not_letter in H|]. intros (_ & HF & _). inversion HF; naive_solver. }
    pose proof (letter_nonneg c Hc) as Hcn.
    destruct (lookup_lt_is_Some_2 seen (Z.to_nat c) ltac:(lia)) as [b Hb].
    rewrite (parse_flags_step _ _ _ _ _ Hc Hb). destruct b.
    { split; [done|]. intros (_ & HF & _). inversion HF; naive_solver. }
    rewrite IH by by rewrite length_insert. rewrite add_flags_cons, list.NoDup_cons, Forall_cons_iff.
    assert (HF : Forall (fun c' => c' ∈ flag_letters /\ <[Z.to_nat c := true]> seen !! Z.to_nat c' = Some false) s <->
      Forall (fun c' => c' ∈ flag_letters /\ seen !! Z.to_nat c' = Some false) s /\ c ∉ s).
    { rewrite !Forall_forall. split.
      - intros H. split.
        + intros x Hx. destruct (H x Hx) as [H1 H2]. split; [done|].
          destruct (decide (Z.to_nat c = Z.to_nat x)) as [E|E].
          * rewrite E, list_lookup_insert_eq in H2; [done|]. pose proof (letter_nonneg x H1). lia.
          * by rewrite list_lookup_insert_ne in H2.
        + intros Hx%list_elem_of_In. destruct (H c Hx) as [_ H2]. rewrite list_lookup_insert_eq in H2; [done|lia].
      - intros [H Hn] x Hx. destruct (H x Hx) as [H1 H2]. split; [done|].
        rewrite list_lookup_insert_ne; [done|]. intros E. pose proof (letter_nonneg x H1).
        assert (x = c) as -> by lia. by apply Hn, list_elem_of_In. }
    rewrite HF. tauto.
Qed.

(** [Flags::parse] accepts exactly the strings over "dgimsuvy" without a repeated
    letter and without both [u] and [v], and sets the flags of their letters, [v]
    setting [u]'s as well. *)
Theorem flags_parse_spec s f :
  flags_parse s = inl f <->
  NoDup s /\ Forall (fun c => c ∈ flag_letters) s /\ ~ (117 ∈ s /\ 118 ∈ s) /\ f = flags_of s.
Proof.
  unfold flags_parse.
  assert (Hd : forall s, Forall (fun c => c ∈ flag_letters /\ replicate 128 false !! Z.to_nat c = Some false) s <->
    Forall (fun c => c ∈ flag_letters) s).
  { intros l. split; intros HF; (eapply list.Forall_impl; [exact HF|]); [by intros x []|].
    intros x Hx. split; [done|].
    apply lookup_replicate. pose proof (letter_nonneg x Hx). split; [done|lia]. }
  destruct (parse_flags_loop s (replicate 128 false) default_flags) as [g|e] eqn:E.
  - apply parse_flags_loop_spec in E as (H1 & H2 & ->); [|done]. apply Hd in H2.
    change (add_flags default_flags s) with (flags_of s). cbn [unicode_sets flags_of].
    destruct (decide (118 ∈ s)) as [Hv|Hv], (decide (117 ∈ s)) as [Hu|Hu];
      rewrite ?(bool_decide_true (118 ∈ s)), ?(bool_decide_false (118 ∈ s)),
        ?(bool_decide_true (117 ∈ s)), ?(bool_decide_false (117 ∈ s)) by done; cbn [andb].
    + split; [done|]. intros (_ & _ & H & _). by destruct H.
    + split; [intros [= <-]; naive_solver|by intros (_ & _ & _ & ->)].
    + split; [intros [= <-]; naive_solver|by intros (_ & _ & _ & ->)].
    + split; [intros [= <-]; naive_solver|by intros (_ & _ & _ & ->)].
  - split; [done|]. intros (H1 & H2 & _ & ->). exfalso.
    assert (Hx : parse_flags_loop s (replicate 128 false) default_flags = inl (add_flags default_flags s)).
    { apply parse_flags_loop_spec; [done|]. split; [done|]. split; [by apply Hd|done]. }
    congruence.
Qed.

End ScanSpec.

(** ** Concrete scans *)

#[local] Existing Instance ascii_data.

Definition regex_of (ast : Node) : Regex_ :=
  match regex_new ast [] plain_flags with
  | Ok rx => rx
  | Err _ => MkRegex [] false None None None 0 plain_flags
  end.

(** [/([ab]+)x/] and [/[ab]a*x(?:yz)*/]. *)
Definition class_ab : Node := NClass false [CIChar 97; CIChar 98].

Definition run_pattern : Node :=
  NConcat [NGroup (Some 1%nat) (NRepeat class_ab 1 None true); NChar 120].

Definition mixed_run_pattern : Node :=
  NConcat [class_ab; NRepeat (NClass false [CIChar 97]) 0 None true; NChar 120;
    NRepeat (NGroup None (NConcat [NChar 121; NChar 122])) 0 None true].

Lemma scan_leftmost_witness :
  lead_run (regex_of run_pattern) = Some 2%nat /\
  match scan_into default_limits (regex_of run_pattern) [97; 98; 99; 97; 98; 120] 0 plain_flags 0 with
  | Matched gs _ => gs = [Some (3, 6); Some (3, 5)]%nat
  | _ => False
  end.
Proof.
  assert (Hrun : lead_run (regex_of run_pattern) = Some 2%nat) by (vm_compute; reflexivity).
  split; [exact Hrun|].
  assert (Hf : r_flags (regex_of run_pattern) = plain_flags) by (vm_compute; reflexivity).
  assert (Hok : lead_ok (regex_of run_pattern)).
  { intros c Hc. rewrite Hrun in Hc. injection Hc as <-.
    assert (E : r_prog (regex_of run_pattern) !! 4%nat = r_prog (regex_of run_pattern) !! 2%nat)
      by (vm_compute; reflexivity).
    assert (Es : is_class (r_prog (regex_of run_pattern) !! 2%nat) = true) by (vm_compute; reflexivity).
    change (2 + 2)%nat with 4%nat. rewrite E.
    destruct (r_prog (regex_of run_pattern) !! 2%nat); [intros u H; exact H|discriminate Es]. }
  pose proof (scan_leftmost default_limits run_pattern [] [97; 98; 99; 97; 98; 120] (regex_of run_pattern) 0) as H.
  rewrite Hf in H. specialize (H ltac:(vm_compute; reflexivity) ltac:(vm_compute; reflexivity)
    ltac:(unfold subject_ok; repeat constructor; lia) ltac:(vm_compute; discriminate) ltac:(cbn; lia)
    ltac:(vm_compute; discriminate) ltac:(vm_compute; discriminate) Hok).
  assert (E : exists st', scan_into default_limits (regex_of run_pattern) [97; 98; 99; 97; 98; 120] 0
    plain_flags 0 = Matched [Some (3, 6); Some (3, 5)]%nat st').
  { eexists. vm_compute. reflexivity. }
  revert H. destruct E as [st' ->]. intros _. reflexivity.
Defined.

(** The leading-run filter can miss a match: [program_lead_run] takes any two
    classes around a star for the two copies of [C+], so on [/[ab]a*x(?:yz)*/] a
    failed attempt at 0 skips the whole run of [ab]: nothing is found in "bbax",
    within the budget, where the pattern matches at 1. *)
Theorem lead_run_misses :
  regex_new mixed_run_pattern [] plain_flags = Ok (regex_of mixed_run_pattern) /\
  lead_run (regex_of mixed_run_pattern) = Some 1%nat /\
  captures_in_u16 default_limits (regex_of mixed_run_pattern) [98; 98; 97; 120] 0 = None /\
  search_in_u16 default_limits (regex_of mixed_run_pattern) [98; 98; 97; 120] 0 = Some None /\
  exists m, match_at [98; 98; 97; 120] [] plain_flags mixed_run_pattern 0 1 = Some m /\
    group_span m.2 0 = Some (1, 4)%nat.
Proof.
  split; [vm_compute; reflexivity|]. split; [vm_compute; reflexivity|].
  split; [vm_compute; reflexivity|]. split; [vm_compute; reflexivity|].
  eexists. split; [vm_compute; reflexivity|]. vm_compute. reflexivity.
Qed.
