(* ===== verification/RegexLinear.v ===== *)
(** * The linear matcher: [src/src/regex/linear.rs]

    A straight program (literals, sets, quantifiers over one character, captures,
    assertions, at most one alternation) is translated to lists of steps and
    matched with a stack of choices, at most one for each quantifier step.

    Positions, step indices, slots and set indices are [nat]; units, the step
    counter and the [usize] words that may hold [usize::MAX] are [Z].  A capture
    slot of the buffer holds a position or [UNSET].  The loops carry fuel: the
    parsing loops advance through the program, the consuming and scanning loops
    through the subject, and the search is bounded by the budget: every return to
    a choice counts one unit of work, and the counter is checked against the
    budget at least every 4096 units. *)

From S2P Require Import Prelude Regex RegexComp RegexVm RegexScan.

Open Scope Z_scope.

Definition USIZE_MAX : Z := 2 ^ 64 - 1.

(** ** Data *)

Inductive High := HNone | HCheck (pc : nat) | HAny.

Record CharSet := MkSet { s_latin1 : list Z; s_high : High }.

Inductive Step :=
  | SSave (slot : nat)
  | SUnit (u : Z)
  | SOne (set : nat)
  | SRep (set : nat) (max : option nat) (greedy : bool) (next_unit : option Z)
  | SAssert (index : nat)
  | SMatch.

Definition ASSERTS : list Assert := [AStart; AEnd; AWordBoundary; ANotWordBoundary].

Inductive First := FUnit (u : Z) | FSet (set : nat) | FAny.

Record Linear := MkLinear {
  branches : list (list Step);
  sets : list CharSet;
  reps : nat;
  slots_n : nat;
  first : First;
  l_lead_run : option (nat * nat * Z);
  lead_lit : list Z
}.

Definition MAX_BRANCHES : nat := 16.
Definition STACK_CHOICES : nat := 16.

Definition is_rep (s : Step) : bool := match s with SRep _ _ _ _ => true | _ => false end.
Definition is_save (s : Step) : bool := match s with SSave _ => true | _ => false end.

Section Linear.
Context `{U : UnicodeData}.

(** [is_consume]. *)
Definition is_consume (i : option Inst) : bool :=
  match i with Some i => is_single_consume i | None => false end.

(** ** Sets *)

Definition set_has (set : CharSet) (c : Z) (prog : list Inst) (flags : Flags) : bool :=
  if c <? 256 then latin1_test (s_latin1 set) c
  else
    match s_high set with
    | HNone => false
    | HCheck pc => match prog !! pc with Some i => single_consume_matches i c flags | None => false end
    | HAny => true
    end.

Definition may_start (set : CharSet) (u : Z) (prog : list Inst) (flags : Flags) : bool :=
  if (u <? 256) || negb (unicode flags) then set_has set u prog flags
  else match s_high set with HNone => false | _ => true end.

Definition high_is_empty (i : Inst) (flags : Flags) : bool :=
  if ignore_case flags && unicode flags then false
  else
    let ceiling := if ignore_case flags then 128 else 256 in
    match i with
    | Char c => c <? ceiling
    | Class cl =>
        negb (neg cl) &&
        forallb (fun m =>
          match m with
          | CMChar c => c <? ceiling
          | CMRange _ hi => hi <? ceiling
          | CMShorthand s => match s with Digit | Word => true | _ => false end
          end) (members cl)
    | _ => false
    end.

Definition make_set (i : Inst) (pc : nat) (flags : Flags) : CharSet :=
  MkSet (latin1_build (fun u => single_consume_matches i u flags))
    (if high_is_empty i flags then HNone else HCheck pc).

(** ** Parsing a program *)

(** The loop of [optional_chain] from [q]. *)
Fixpoint chain_loop (prog : list Inst) (greedy : bool) (exit q count fuel : nat) : option nat :=
  match fuel with
  | O => None
  | S fuel =>
      if (q <? exit)%nat then
        match prog !! q with
        | Some (Split x y) =>
            let '(body, ex) := if greedy then (x, y) else (y, x) in
            if negb (body =? q + 1)%nat || negb (ex =? exit)%nat || negb (is_consume (prog !! (q + 1)%nat))
            then None
            else chain_loop prog greedy exit (q + 2) (count + 1) fuel
        | _ => None
        end
      else if (q =? exit)%nat && (0 <? count)%nat then Some count else None
  end.

Definition optional_chain (prog : list Inst) (pc : nat) : option (nat * bool * nat) :=
  match prog !! pc with
  | Some (Split a b) =>
      let greedy := (a =? pc + 1)%nat in
      if negb greedy && negb (b =? pc + 1)%nat then None
      else
        let exit := if greedy then b else a in
        match chain_loop prog greedy exit pc 0 (length prog + 1) with
        | Some count => Some (count, greedy, exit)
        | None => None
        end
  | _ => None
  end.

Definition assert_index (a : Assert) : nat :=
  match a with AStart => 0 | AEnd => 1 | AWordBoundary => 2 | ANotWordBoundary => 3 end.

(** [parse_seq]: the index it stops at, the sets and the steps so far. *)
Fixpoint parse_seq (fuel : nat) (prog : list Inst) (pc : nat) (end_ : option nat) (flags : Flags)
    (sets : list CharSet) (out : list Step) : option (nat * list CharSet * list Step) :=
  match fuel with
  | O => None
  | S fuel =>
      if match end_ with Some e => (pc =? e)%nat | None => false end then Some (pc, sets, out)
      else
        let set_of q i := sets ++ [make_set i q flags] in
        match prog !! pc with
        | None => None
        | Some inst =>
            match inst with
            | Save s => parse_seq fuel prog (pc + 1) end_ flags sets (out ++ [SSave s])
            | Char c =>
                if negb (ignore_case flags) && (c <=? 0xFFFF) &&
                   negb (unicode flags && in_range 0xD800 0xDFFF c)
                then parse_seq fuel prog (pc + 1) end_ flags sets (out ++ [SUnit c])
                else parse_seq fuel prog (pc + 1) end_ flags (set_of pc inst) (out ++ [SOne (length sets)])
            | Any | Class _ | ClassSet _ _ =>
                parse_seq fuel prog (pc + 1) end_ flags (set_of pc inst) (out ++ [SOne (length sets)])
            | IAssert a => parse_seq fuel prog (pc + 1) end_ flags sets (out ++ [SAssert (assert_index a)])
            | Match =>
                match end_ with Some _ => None | None => Some (pc, sets, out ++ [SMatch]) end
            | Split a b =>
                match prog !! (pc + 1)%nat with
                | Some body =>
                    if is_single_consume body &&
                       match prog !! (pc + 2)%nat with Some (Jmp t) => (t =? pc)%nat | _ => false end &&
                       (((a =? pc + 1)%nat && (b =? pc + 3)%nat) || ((b =? pc + 1)%nat && (a =? pc + 3)%nat))
                    then parse_seq fuel prog (pc + 3) end_ flags (set_of (pc + 1)%nat body)
                           (out ++ [SRep (length sets) None (a =? pc + 1)%nat None])
                    else
                      match optional_chain prog pc with
                      | Some (count, greedy, exit) =>
                          parse_seq fuel prog exit end_ flags (set_of (pc + 1)%nat body)
                            (out ++ [SRep (length sets) (Some count) greedy None])
                      | None => Some (pc, sets, out)
                      end
                | None => Some (pc, sets, out)
                end
            | _ => None
            end
        end
  end.

Definition parse (prog : list Inst) (pc : nat) (end_ : option nat) (flags : Flags)
    (sets : list CharSet) (out : list Step) : option (nat * list CharSet * list Step) :=
  parse_seq (length prog + 1) prog pc end_ flags sets out.

(** [alternation]: the branches from [at_] on, and the join point. *)
Fixpoint alternation (fuel : nat) (prog : list Inst) (at_ : nat) (end_ : option nat)
    (brs : list (nat * nat)) : option (list (nat * nat) * nat) :=
  match fuel with
  | O => None
  | S fuel =>
      let finish := match end_ with Some e => Some (brs ++ [(at_, e)], e) | None => None end in
      match prog !! at_ with
      | Some (Split a b) =>
          if (a =? at_ + 1)%nat && (a <? b)%nat then
            match prog !! (b - 1)%nat with
            | Some (Jmp e) =>
                if (b <=? e)%nat && match end_ with Some x => (x =? e)%nat | None => true end then
                  let brs := brs ++ [(a, b - 1)%nat] in
                  if (MAX_BRANCHES <=? length brs)%nat then None
                  else alternation fuel prog b (Some e) brs
                else finish
            | _ => finish
            end
          else finish
      | _ => finish
      end
  end.

(** The literal the steps after a greedy quantifier begin with. *)
Fixpoint next_literal (l : list Step) : option Z :=
  match l with
  | SSave _ :: l => next_literal l
  | SUnit u :: _ => Some u
  | _ => None
  end.

Fixpoint set_next_units (l : list Step) : list Step :=
  match l with
  | [] => []
  | SRep k max true _ :: l => SRep k max true (next_literal l) :: set_next_units l
  | s :: l => s :: set_next_units l
  end.

(** The first step of a branch that is not a save. *)
Definition first_of (steps : list Step) : First :=
  match List.find (fun s => negb (is_save s)) steps with
  | Some (SUnit u) => FUnit u
  | Some (SOne k) => FSet k
  | _ => FAny
  end.

(** The union of the first sets; [None] when a branch may begin with anything. *)
Fixpoint union_firsts (firsts : list First) (sets : list CharSet) (u : CharSet) : option CharSet :=
  match firsts with
  | [] => Some u
  | FAny :: _ => None
  | FUnit c :: l =>
      union_firsts l sets
        (if c <? 256 then MkSet (latin1_set (s_latin1 u) c) (s_high u) else MkSet (s_latin1 u) HAny)
  | FSet k :: l =>
      match sets !! k with
      | Some x =>
          union_firsts l sets
            (MkSet (zip_with Z.lor (s_latin1 u) (s_latin1 x))
               (match s_high x with HNone => s_high u | _ => HAny end))
      | None => None
      end
  end.

Definition start_filter (brs : list (list Step)) (sets : list CharSet) : First * list CharSet :=
  match map first_of brs with
  | [one] => (one, sets)
  | firsts =>
      match union_firsts firsts sets (MkSet [0; 0; 0; 0] HNone) with
      | None => (FAny, sets)
      | Some u => (FSet (length sets), sets ++ [u])
      end
  end.

Definition lead_run_of (brs : list (list Step)) (sets : list CharSet) (prog : list Inst) (flags : Flags)
    : option (nat * nat * Z) :=
  match brs with
  | [only] =>
      if unicode flags then None
      else
        match List.filter (fun s => negb (is_save s)) only with
        | SOne a :: SRep b None true _ :: SUnit x :: _ =>
            match sets !! b with
            | Some set => if set_has set x prog flags then None else Some (a, b, x)
            | None => None
            end
        | _ => None
        end
  | _ => None
  end.

Fixpoint leading_units (l : list Step) : list Z :=
  match l with
  | SUnit u :: l => u :: leading_units l
  | _ => []
  end.

Definition lead_lit_of (brs : list (list Step)) : list Z :=
  match brs with
  | [only] =>
      let l := leading_units (List.filter (fun s => negb (is_save s)) only) in
      if (2 <=? length l)%nat then l else []
  | _ => []
  end.

(** The branches of an alternation, parsed in turn onto copies of the prefix. *)
Fixpoint parse_branches (prog : list Inst) (flags : Flags) (prefix suffix : list Step)
    (alts : list (nat * nat)) (sets : list CharSet) : option (list CharSet * list (list Step)) :=
  match alts with
  | [] => Some (sets, [])
  | (start, stop) :: alts =>
      match parse prog start (Some stop) flags sets prefix with
      | Some (at_, sets, steps) =>
          if (at_ =? stop)%nat then
            match parse_branches prog flags prefix suffix alts sets with
            | Some (sets, brs) => Some (sets, (steps ++ suffix) :: brs)
            | None => None
            end
          else None
      | None => None
      end
  end.

Definition is_match_at (prog : list Inst) (pc : nat) : bool :=
  match prog !! pc with Some Match => true | _ => false end.

(** The sets and the branches, before the filters. *)
Definition build_branches (prog : list Inst) (flags : Flags) : option (list CharSet * list (list Step)) :=
  match parse prog 0 None flags [] [] with
  | None => None
  | Some (stop, sets, prefix) =>
      if is_match_at prog stop then Some (sets, [prefix])
      else if existsb is_rep prefix then None
      else
        match alternation (length prog + 1) prog stop None [] with
        | None => None
        | Some (alts, end_) =>
            match parse prog end_ None flags sets [] with
            | None => None
            | Some (fin, sets, suffix) =>
                if is_match_at prog fin then parse_branches prog flags prefix suffix alts sets else None
            end
        end
  end.

Definition count_reps (l : list Step) : nat := length (List.filter is_rep l).

(** [Linear::build]. *)
Definition build (prog : list Inst) (flags : Flags) (slots : nat) : option Linear :=
  match build_branches prog flags with
  | None => None
  | Some (sets, brs) =>
      let reps := fold_left (fun r steps => Nat.max r (count_reps steps)) brs 0%nat in
      let brs := map set_next_units brs in
      let '(first, sets) := start_filter brs sets in
      Some (MkLinear brs sets reps slots first (lead_run_of brs sets prog flags) (lead_lit_of brs))
  end.

(** ** Reading the subject *)

(** [read]: the character at [p] and the position after it. *)
Definition read (uni : bool) (units : list Z) (p : nat) : option (Z * nat) :=
  match units !! p with
  | None => None
  | Some u =>
      if uni && is_high_surrogate u then
        match units !! S p with
        | Some lo => if is_low_surrogate lo then Some (pair_cp u lo, (p + 2)%nat) else Some (u, S p)
        | None => Some (u, S p)
        end
      else Some (u, S p)
  end.

(** [char_len]. *)
Definition char_len (units : list Z) (s : nat) : nat :=
  match read true units s with Some (_, n) => (n - s)%nat | None => 1%nat end.

(** [linear::is_char_boundary]. *)
Definition lin_char_boundary (units : list Z) (s : nat) : bool :=
  (length units <=? s)%nat || is_char_boundary units s.

(** The last index of [c] in [units[lo..lo + n]]. *)
Fixpoint rposition (units : list Z) (c : Z) (lo n : nat) : option nat :=
  match n with
  | O => None
  | S n =>
      match units !! (lo + n)%nat with
      | Some u => if u =? c then Some (lo + n)%nat else rposition units c lo n
      | None => rposition units c lo n
      end
  end.

(** ** An attempt *)

Record Choice := MkChoice { c_step : nat; c_cur : nat; c_bound : Z }.

Inductive LinOutcome :=
  | LMatch (saves : list Z) (steps : Z)
  | LNoMatch (saves : list Z) (steps : Z)
  | LAbort (saves : list Z) (steps : Z)
  | LCrash
  | LFuel.

(** How a forward run over the steps ends. *)
Inductive Advance :=
  | AMatch (saves : list Z) (work : Z)
  | AFail (saves : list Z) (stack : list Choice) (work : Z)
  | ACrash.

(** How the search for a choice with an alternative left ends. *)
Inductive Retreat :=
  | Resume (step cur : nat) (stack : list Choice) (work steps : Z)
  | Exhausted (steps : Z)
  | OverBudget (steps : Z)
  | RCrash.

Section run.
Context (sets : list CharSet) (prog : list Inst) (units : list Z) (flags : Flags).
Context (budget : Z) (cap : nat).
Abbreviation uni := (unicode flags).

(** The greedy loop in [u] mode; [left] is the count that remains. *)
Fixpoint take_chars (set : CharSet) (left : Z) (p fuel : nat) : nat :=
  match fuel with
  | O => p
  | S fuel =>
      if 0 <? left then
        match read true units p with
        | Some (c, n) => if set_has set c prog flags then take_chars set (left - 1) n fuel else p
        | None => p
        end
      else p
  end.

(** The greedy loop outside [u] mode, up to [limit]. *)
Fixpoint take_units (set : CharSet) (limit p fuel : nat) : nat :=
  match fuel with
  | O => p
  | S fuel =>
      if (p <? limit)%nat then
        match units !! p with
        | Some u => if set_has set u prog flags then take_units set limit (S p) fuel else p
        | None => p
        end
      else p
  end.

Definition take_greedy (set : CharSet) (max : option nat) (p : nat) : nat :=
  let len := length units in
  if uni then
    take_chars set (match max with Some m => Z.of_nat m | None => USIZE_MAX end) p (S len)
  else
    take_units set (match max with Some m => Nat.min len (p + m) | None => len end) p (S len).

(** [stack[depth] = ch; depth += 1]. *)
Definition push (ch : Choice) (stack : list Choice) : option (list Choice) :=
  if (length stack <? cap)%nat then Some (ch :: stack) else None.

(** [sfx] are the steps from [i] on. *)
Fixpoint advance (sfx : list Step) (i p : nat) (saves : list Z) (stack : list Choice) (work : Z)
    : Advance :=
  match sfx with
  | [] => ACrash
  | st :: sfx =>
      match st with
      | SSave s =>
          match saves !! s with
          | Some _ => advance sfx (S i) p (<[s := Z.of_nat p]> saves) stack work
          | None => ACrash
          end
      | SUnit u =>
          match units !! p with
          | Some v => if v =? u then advance sfx (S i) (S p) saves stack work else AFail saves stack work
          | None => AFail saves stack work
          end
      | SOne k =>
          match read uni units p, sets !! k with
          | _, None => ACrash
          | Some (c, n), Some set =>
              if set_has set c prog flags then advance sfx (S i) n saves stack work
              else AFail saves stack work
          | None, Some _ => AFail saves stack work
          end
      | SRep k max greedy next_unit =>
          match sets !! k with
          | None => ACrash
          | Some set =>
              if greedy then
                let q := take_greedy set max p in
                let work := work + Z.of_nat (q - p) in
                let stop :=
                  match next_unit with
                  | Some c =>
                      if match units !! q with Some u => u =? c | None => false end then Some q
                      else rposition units c p (q - p)
                  | None => Some q
                  end in
                match stop with
                | None => AFail saves stack work
                | Some q =>
                    match push (MkChoice i q (Z.of_nat p)) stack with
                    | Some stack => advance sfx (S i) q saves stack work
                    | None => ACrash
                    end
                end
              else
                match push (MkChoice i p (match max with Some m => Z.of_nat m | None => USIZE_MAX end))
                        stack with
                | Some stack => advance sfx (S i) p saves stack work
                | None => ACrash
                end
          end
      | SAssert a =>
          match ASSERTS !! a with
          | None => ACrash
          | Some a =>
              match assert_ok a units p flags with
              | None => ACrash
              | Some true => advance sfx (S i) p saves stack work
              | Some false => AFail saves stack work
              end
          end
      | SMatch => AMatch saves work
      end
  end.

(** One step back of a greedy choice. *)
Definition back_off (next_unit : option Z) (cur bound : nat) : option nat :=
  match next_unit with
  | Some c => rposition units c bound (cur - bound)
  | None =>
      if uni && (bound + 2 <=? cur)%nat &&
         match units !! (cur - 1)%nat with Some u => is_low_surrogate u | None => false end &&
         match units !! (cur - 2)%nat with Some u => is_high_surrogate u | None => false end
      then Some (cur - 2)%nat else Some (cur - 1)%nat
  end.

(** The inner loop: it counts its iterations in [work], which it flushes into the
    shared counter every 4096 units. *)
Fixpoint retreat (steps : list Step) (stack : list Choice) (work used : Z) : Retreat :=
  let work := work + 1 in
  let '(work, used) := if 4096 <=? work then (0, saturate (used + work)) else (work, used) in
  if (work =? 0) && (budget <? used) then OverBudget used
  else
    match stack with
    | [] =>
        let n := saturate (used + work) in
        if budget <? n then OverBudget n else Exhausted n
    | ch :: below =>
        match steps !! c_step ch with
        | Some (SRep k _ greedy next_unit) =>
            if greedy then
              if Z.of_nat (c_cur ch) =? c_bound ch then retreat steps below work used
              else
                match back_off next_unit (c_cur ch) (Z.to_nat (c_bound ch)) with
                | None => retreat steps below work used
                | Some np => Resume (c_step ch) np (MkChoice (c_step ch) np (c_bound ch) :: below) work used
                end
            else if c_bound ch =? 0 then retreat steps below work used
            else
              match read uni units (c_cur ch), sets !! k with
              | _, None => RCrash
              | Some (c, n), Some set =>
                  if set_has set c prog flags then
                    Resume (c_step ch) n (MkChoice (c_step ch) n (c_bound ch - 1) :: below) work used
                  else retreat steps below work used
              | None, Some _ => retreat steps below work used
              end
        | _ => RCrash
        end
    end.

(** [work] is flushed when it is positive: adding zero changes nothing. *)
Fixpoint run_loop (fuel : nat) (steps : list Step) (i p : nat) (saves : list Z) (stack : list Choice)
    (work used : Z) : LinOutcome :=
  match fuel with
  | O => LFuel
  | S fuel =>
      match advance (drop i steps) i p saves stack work with
      | ACrash => LCrash
      | AMatch saves work => LMatch saves (if 0 <? work then saturate (used + work) else used)
      | AFail saves stack work =>
          match retreat steps stack work used with
          | Resume step cur stack work used =>
              run_loop fuel steps (S step) cur saves stack work used
          | Exhausted used => LNoMatch saves used
          | OverBudget used => LAbort saves used
          | RCrash => LCrash
          end
      end
  end.

Definition run_on (steps : list Step) (start : nat) (saves : list Z) (used : Z) : LinOutcome :=
  run_loop (Z.to_nat (budget + 4098)) steps 0 start (map (fun _ => USIZE_MAX) saves) [] 0 used.

(** The branches at one start, in order. *)
Fixpoint run_branches (brs : list (list Step)) (start : nat) (saves : list Z) (used : Z) : LinOutcome :=
  match brs with
  | [] => LNoMatch saves used
  | steps :: brs =>
      match run_on steps start saves used with
      | LNoMatch saves used => run_branches brs start saves used
      | o => o
      end
  end.

End run.

(** ** Finding a unit *)

Definition ONES : Z := 0x0001000100010001.
Definition HIGHS : Z := 0x8000800080008000.

Definition pack (a b c d : Z) : Z :=
  Z.lor (Z.lor (Z.lor a (Z.shiftl b 16)) (Z.shiftl c 32)) (Z.shiftl d 48).

(** [iter().position(|&u| u == x)]. *)
Fixpoint position_of (x : Z) (l : list Z) : option nat :=
  match l with
  | [] => None
  | u :: l => if u =? x then Some 0%nat else S <$> position_of x l
  end.

(** [find_unit]: four units a step, then the rest. *)
Fixpoint find_unit (hay : list Z) (x : Z) : option nat :=
  match hay with
  | a :: b :: c :: d :: rest =>
      let pat := as_u64 (ONES * x) in
      let w := Z.lxor (pack a b c d) pat in
      if negb (Z.land (Z.land (as_u64 (w - ONES)) (Z.lxor w (2 ^ 64 - 1))) HIGHS =? 0)
      then position_of x [a; b; c; d]
      else (fun k => 4 + k)%nat <$> find_unit rest x
  | _ => position_of x hay
  end.

(** ** The scan *)

(** What a find answers: the spans of the groups are in the slots. *)
Inductive Found := FoundAt (saves : list Z) (steps : Z) | NotFound_ (steps : Z) | FCrash | FFuel.

Definition of_outcome (o : LinOutcome) (k : list Z -> Z -> Found) : Found :=
  match o with
  | LMatch saves used => FoundAt saves used
  | LAbort _ used => NotFound_ used
  | LNoMatch saves used => k saves used
  | LCrash => FCrash
  | LFuel => FFuel
  end.

Section find.
Context (lin : Linear) (prog : list Inst) (units : list Z) (flags : Flags) (budget : Z).

(** The choice stack: 4, 16 or as many places as there are quantifier steps. *)
Definition stack_cap : nat :=
  if (reps lin <=? 4)%nat then 4 else if (reps lin <=? STACK_CHOICES)%nat then STACK_CHOICES else reps lin.

Abbreviation attempt := (run_branches (sets lin) prog units flags budget stack_cap).

(** Whether the subject from [s] on begins with [l]. *)
Fixpoint starts_with (l : list Z) (s : nat) : bool :=
  match l with
  | [] => true
  | x :: l => match units !! s with Some u => (u =? x) && starts_with l (S s) | None => false end
  end.

Definition slice (lo hi : nat) : list Z := take (hi - lo) (drop lo units).

(** The start filter of [find_on] at [s]. *)
Definition first_candidate (s last : nat) : option nat :=
  let end_ := Nat.min (S last) (length units) in
  match first lin with
  | FUnit u => if (end_ <=? s)%nat then None else (fun k => s + k)%nat <$> find_unit (slice s end_) u
  | FSet k =>
      if (end_ <=? s)%nat then None
      else
        match sets lin !! k with
        | Some set => position_from (fun x => may_start set x prog flags) units s (end_ - s)
        | None => None
        end
  | FAny => Some s
  end.

Fixpoint find_loop (fuel s last : nat) (saves : list Z) (used : Z) : Found :=
  match fuel with
  | O => FFuel
  | S fuel =>
      if (last <? s)%nat then NotFound_ used
      else
        match first_candidate s last with
        | None => NotFound_ used
        | Some s =>
            if unicode flags && negb (lin_char_boundary units s) then find_loop fuel (S s) last saves used
            else if negb (bool_decide (lead_lit lin = [])) && negb (starts_with (lead_lit lin) s)
            then find_loop fuel (S s) last saves used
            else
              of_outcome (attempt (branches lin) s saves used) (fun saves used =>
                find_loop fuel (if unicode flags then s + char_len units s else s + 1)%nat last saves used)
        end
  end.

(** [while r > lo && b.has(units[r - 1])]. *)
Fixpoint run_start (b : CharSet) (lo r : nat) : nat :=
  match r with
  | O => O
  | S r' =>
      if (lo <? r)%nat && match units !! r' with Some u => set_has b u prog flags | None => false end
      then run_start b lo r' else r
  end.

Fixpoint find_lead_run (fuel : nat) (a b : CharSet) (x : Z) (s last : nat) (saves : list Z) (used : Z)
    : Found :=
  match fuel with
  | O => FFuel
  | S fuel =>
      if (s <=? last)%nat && (s <? length units)%nat then
        match find_unit (drop (s + 1) units) x with
        | None => NotFound_ used
        | Some k =>
            let q := (s + 1 + k)%nat in
            let r := run_start b (s + 1) q in
            match position_from (fun u => set_has a u prog flags) units (r - 1) (q - (r - 1)) with
            | None => find_lead_run fuel a b x q last saves used
            | Some p =>
                if (last <? p)%nat then NotFound_ used
                else
                  of_outcome (attempt (take 1 (branches lin)) p saves used) (fun saves used =>
                    find_lead_run fuel a b x (Nat.max q (p + 1)) last saves used)
            end
        end
      else NotFound_ used
  end.

(** [find] and [find_on]. *)
Definition find (start last : nat) (saves : list Z) (used : Z) : Found :=
  match l_lead_run lin with
  | Some (a, b, x) =>
      if unicode flags then find_loop (length units + 2) start last saves used
      else
        match sets lin !! a, sets lin !! b with
        | Some a, Some b => find_lead_run (length units + 2) a b x start last saves used
        | _, _ => FCrash
        end
  | None => find_loop (length units + 2) start last saves used
  end.

End find.

(** ** [scan_into] with a linear matcher *)

(** The linear form [Regex::new] keeps. *)
Definition regex_linear (rx : Regex_) : option Linear :=
  build (r_prog rx) (r_flags rx) (2 * (group_count rx + 1)).

(** [saves.as_chunks::<2>()]: a group with an unset end is [None]. *)
Fixpoint spans_of (saves : list Z) : list (option (nat * nat)) :=
  match saves with
  | a :: b :: saves =>
      (if negb (a =? USIZE_MAX) && negb (b =? USIZE_MAX) then Some (Z.to_nat a, Z.to_nat b) else None)
      :: spans_of saves
  | _ => []
  end.

Definition scan_full (lim : Limits) (rx : Regex_) (units : list Z) (start : nat) (flags : Flags)
    (steps : Z) : Attempt :=
  match regex_linear rx with
  | Some lin =>
      let start := scan_start units start flags in
      match find lin (r_prog rx) units flags (budget_for (length units)) start
              (scan_last rx units start flags) (replicate (slots_n lin) USIZE_MAX) steps with
      | FoundAt saves steps => Matched (spans_of saves) steps
      | NotFound_ steps => NoMatch steps
      | FCrash => AttemptPanic
      | FFuel => AttemptFuel
      end
  | None => scan_into lim rx units start flags steps
  end.

End Linear.
