(* ===== verification/RegexUnits.v ===== *)
(** * Reading units in bulk

    [find_unit] looks at four units packed in a word; it is a plain search. *)

From S2P Require Import Prelude Regex RegexScan RegexLinear.

Open Scope Z_scope.

(** ** Four units in a word *)

Definition unit_ok (u : Z) : Prop := 0 <= u < 65536.

Lemma unit_high u n : unit_ok u -> 16 <= n -> Z.testbit u n = false.
Proof.
  intros Hu Hn. destruct (Z.eq_dec u 0) as [->|]; [apply Z.bits_0|].
  apply Z.bits_above_log2; [unfold unit_ok in Hu; lia|].
  apply Z.lt_le_trans with 16; [|lia]. apply Z.log2_lt_pow2; unfold unit_ok in Hu; lia.
Qed.

Lemma pack_testbit a b c d n : unit_ok a -> unit_ok b -> unit_ok c -> unit_ok d -> 0 <= n ->
  Z.testbit (pack a b c d) n =
    if n <? 16 then Z.testbit a n else if n <? 32 then Z.testbit b (n - 16)
    else if n <? 48 then Z.testbit c (n - 32) else Z.testbit d (n - 48).
Proof.
  intros Ha Hb Hc Hd Hn. unfold pack. rewrite !Z.lor_spec, !Z.shiftl_spec by done.
  destruct (Z.ltb_spec n 16); [|destruct (Z.ltb_spec n 32); [|destruct (Z.ltb_spec n 48)]].
  - rewrite (Z.testbit_neg_r b), (Z.testbit_neg_r c), (Z.testbit_neg_r d) by lia. by rewrite !orb_false_r.
  - rewrite (unit_high a), (Z.testbit_neg_r c), (Z.testbit_neg_r d) by first [done|lia]. by rewrite !orb_false_r.
  - rewrite (unit_high a), (unit_high b), (Z.testbit_neg_r d) by first [done|lia]. by rewrite !orb_false_r.
  - rewrite (unit_high a), (unit_high b), (unit_high c) by first [done|lia]. done.
Qed.

Lemma pack_sum a b c d : unit_ok a -> unit_ok b -> unit_ok c -> unit_ok d ->
  pack a b c d = a + b * 2 ^ 16 + c * 2 ^ 32 + d * 2 ^ 48.
Proof.
  intros Ha Hb Hc Hd. unfold pack.
  assert (H : forall x y k, 0 <= k -> 0 <= x < 2 ^ k -> Z.lor x (Z.shiftl y k) = x + y * 2 ^ k).
  { intros x y k Hk Hx. rewrite <- Z.shiftl_mul_pow2 by done. symmetry. apply Z.add_nocarry_lor.
    apply Z.bits_inj'. intros n Hn. rewrite Z.land_spec, Z.bits_0, Z.shiftl_spec by done.
    destruct (Z.lt_ge_cases n k); [rewrite (Z.testbit_neg_r y) by lia; apply andb_false_r|].
    destruct (Z.eq_dec x 0) as [->|]; [by rewrite Z.bits_0|].
    rewrite (Z.bits_above_log2 x n); [done|lia|].
    apply Z.lt_le_trans with k; [apply Z.log2_lt_pow2; lia|lia]. }
  unfold unit_ok in *. change 65536 with (2 ^ 16) in *. rewrite (H a b 16) by lia.
  rewrite (H _ c 32) by lia. rewrite (H _ d 48) by lia. done.
Qed.

Lemma pack_lxor a b c d a' b' c' d' :
  unit_ok a -> unit_ok b -> unit_ok c -> unit_ok d -> unit_ok a' -> unit_ok b' -> unit_ok c' -> unit_ok d' ->
  Z.lxor (pack a b c d) (pack a' b' c' d') = pack (Z.lxor a a') (Z.lxor b b') (Z.lxor c c') (Z.lxor d d').
Proof.
  intros. unfold pack. apply Z.bits_inj'. intros n Hn.
  rewrite Z.lxor_spec, !Z.lor_spec, !Z.shiftl_spec, !Z.lxor_spec by done.
  change (Z.lor (Z.lor (Z.lor a (Z.shiftl b 16)) (Z.shiftl c 32)) (Z.shiftl d 48)) with (pack a b c d).
  destruct (Z.ltb_spec n 16); [|destruct (Z.ltb_spec n 32); [|destruct (Z.ltb_spec n 48)]].
  - rewrite !(Z.testbit_neg_r _ (n - 16)), !(Z.testbit_neg_r _ (n - 32)), !(Z.testbit_neg_r _ (n - 48)) by lia.
    by rewrite !orb_false_r.
  - rewrite !(unit_high _ n), !(Z.testbit_neg_r _ (n - 32)), !(Z.testbit_neg_r _ (n - 48)) by first [done|lia].
    by rewrite !orb_false_r.
  - rewrite !(unit_high _ n), !(unit_high _ (n - 16)), !(Z.testbit_neg_r _ (n - 48)) by first [done|lia].
    by rewrite !orb_false_r.
  - rewrite !(unit_high _ n), !(unit_high _ (n - 16)), !(unit_high _ (n - 32)) by first [done|lia]. done.
Qed.

Lemma lxor_unit a b : unit_ok a -> unit_ok b -> unit_ok (Z.lxor a b).
Proof.
  intros Ha Hb. split; [apply Z.lxor_nonneg; unfold unit_ok in *; lia|].
  destruct (Z.eq_dec (Z.lxor a b) 0) as [->|]; [lia|]. change 65536 with (2 ^ 16).
  apply Z.log2_lt_pow2; [assert (0 <= Z.lxor a b) by (apply Z.lxor_nonneg; unfold unit_ok in *; lia); lia|].
  apply Z.le_lt_trans with (Z.max (Z.log2 a) (Z.log2 b)); [apply Z.log2_lxor; unfold unit_ok in *; lia|].
  assert (Hl : forall x, unit_ok x -> Z.log2 x < 16).
  { intros x [H1 H2]. destruct (Z.eq_dec x 0) as [->|]; [cbn; lia|]. apply Z.log2_lt_pow2; lia. }
  pose proof (Hl a Ha). pose proof (Hl b Hb). lia.
Qed.

(** The top bit of a lane. *)
Lemma top_bit u : unit_ok u -> Z.testbit u 15 = (32768 <=? u).
Proof.
  intros Hu. apply eq_true_iff_eq. rewrite Z.testbit_true by lia. change (2 ^ 15) with 32768.
  rewrite Z.leb_le. unfold unit_ok in Hu. div_lia.
Qed.

(** A bit of [HIGHS] picks the top bit of a lane. *)
Lemma highs_zero w : 0 <= w ->
  (Z.land w HIGHS =? 0) = negb (Z.testbit w 15 || Z.testbit w 31 || Z.testbit w 47 || Z.testbit w 63).
Proof.
  intros Hw. assert (Hb : forall n, 0 <= n -> Z.testbit HIGHS n = (n =? 15) || (n =? 31) || (n =? 47) || (n =? 63)).
  { intros n Hn. change HIGHS with (Z.lor (Z.lor (Z.lor (2 ^ 15) (2 ^ 31)) (2 ^ 47)) (2 ^ 63)).
    rewrite !Z.lor_spec, !Z.pow2_bits_eqb by lia.
    by rewrite (Z.eqb_sym 15), (Z.eqb_sym 31), (Z.eqb_sym 47), (Z.eqb_sym 63). }
  apply eq_true_iff_eq. rewrite Z.eqb_eq, negb_true_iff. split.
  - intros H. assert (Hz : forall n, 0 <= n -> Z.testbit HIGHS n = true -> Z.testbit w n = false).
    { intros n Hn Ht. assert (E : Z.testbit (Z.land w HIGHS) n = false) by (rewrite H; apply Z.bits_0).
      rewrite Z.land_spec, Ht, andb_true_r in E. exact E. }
    rewrite !Hz by first [lia | by rewrite Hb by lia]. done.
  - intros H. apply orb_false_iff in H as [[[H1 H2]%orb_false_iff H3]%orb_false_iff H4].
    apply Z.bits_inj'. intros n Hn. rewrite Z.land_spec, Z.bits_0, Hb by done.
    destruct (Z.eqb_spec n 15) as [->|]; [by rewrite H1|].
    destruct (Z.eqb_spec n 31) as [->|]; [by rewrite H2|].
    destruct (Z.eqb_spec n 47) as [->|]; [by rewrite H3|].
    destruct (Z.eqb_spec n 63) as [->|]; [by rewrite H4|]. apply andb_false_r.
Qed.

(** Subtracting one from every lane, with its borrows. *)
Lemma minus_ones a b c d : unit_ok a -> unit_ok b -> unit_ok c -> unit_ok d ->
  exists a' b' c' d', as_u64 (pack a b c d - ONES) = pack a' b' c' d' /\
    unit_ok a' /\ unit_ok b' /\ unit_ok c' /\ unit_ok d' /\
    a' = (a - 1) mod 65536 /\
    (0 < a -> b' = (b - 1) mod 65536) /\ (0 < a -> 0 < b -> c' = (c - 1) mod 65536) /\
    (0 < a -> 0 < b -> 0 < c -> d' = (d - 1) mod 65536).
Proof.
  intros Ha Hb Hc Hd.
  set (k0 := (if a =? 0 then 1 else 0)). set (k1 := (if b - k0 <? 1 then 1 else 0)).
  set (k2 := (if c - k1 <? 1 then 1 else 0)).
  set (a' := a - 1 + 65536 * k0). set (b' := b - 1 - k0 + 65536 * k1).
  set (c' := c - 1 - k1 + 65536 * k2). set (k3 := (if d - k2 <? 1 then 1 else 0)).
  set (d' := d - 1 - k2 + 65536 * k3). unfold unit_ok in *.
  assert (Hif : forall b : bool, 0 <= (if b then 1 else 0) <= 1) by (intros []; lia).
  assert (H0 : 0 <= k0 <= 1) by apply Hif. assert (H1 : 0 <= k1 <= 1) by apply Hif.
  assert (H2 : 0 <= k2 <= 1) by apply Hif.
  assert (Ra : 0 <= a' < 65536) by (unfold a', k0; destruct (Z.eqb_spec a 0); lia).
  assert (Rb : 0 <= b' < 65536) by (unfold b', k1; destruct (Z.ltb_spec (b - k0) 1); lia).
  assert (Rc : 0 <= c' < 65536) by (unfold c', k2; destruct (Z.ltb_spec (c - k1) 1); lia).
  assert (Rd : 0 <= d' < 65536) by (unfold d', k3; destruct (Z.ltb_spec (d - k2) 1); lia).
  exists a', b', c', d'. rewrite !pack_sum by done.
  assert (Hmod : forall x y k, y = x + 65536 * k -> 0 <= y < 65536 -> y = x mod 65536).
  { intros x y k E Hy. apply Z.mod_unique with (- k); [left; lia|lia]. }
  split; [|split; [done|]; split; [done|]; split; [done|]; split; [done|]; split; [|split; [|split]]].
  - unfold as_u64, wrap_u. symmetry. apply Z.mod_unique with (- k3); [left; lia|].
    unfold a', b', c', d', ONES. lia.
  - by apply (Hmod _ _ k0).
  - intros Hp. apply (Hmod _ _ k1); [|done]. unfold b', k0 in *. destruct (Z.eqb_spec a 0); lia.
  - intros Hp Hq. apply (Hmod _ _ k2); [|done]. unfold c', k1, k0 in *.
    destruct (Z.eqb_spec a 0); [lia|]. destruct (Z.ltb_spec (b - 0) 1); lia.
  - intros Hp Hq Hr. apply (Hmod _ _ k3); [|done]. unfold d', k2, k1, k0 in *.
    destruct (Z.eqb_spec a 0); [lia|]. destruct (Z.ltb_spec (b - 0) 1); [lia|].
    destruct (Z.ltb_spec (c - 0) 1); lia.
Qed.

(** A lane whose top bit is clear and set after the subtraction. *)
Definition lane_hit (x x' : Z) : bool := Z.testbit x' 15 && negb (Z.testbit x 15).

Lemma lane_hit_zero x x' : x = 0 -> x' = (x - 1) mod 65536 -> lane_hit x x' = true.
Proof. intros -> ->. vm_compute. reflexivity. Qed.

Lemma lane_hit_pos x x' : unit_ok x -> 0 < x -> x' = (x - 1) mod 65536 -> lane_hit x x' = false.
Proof.
  intros Hx Hp ->. unfold unit_ok in Hx. rewrite Z.mod_small by lia. unfold lane_hit.
  rewrite !top_bit by (unfold unit_ok; lia). destruct (Z.leb_spec 32768 (x - 1)), (Z.leb_spec 32768 x); [done|lia|done..].
Qed.

(** The zero-lane test. *)
Lemma zero_lane a b c d : unit_ok a -> unit_ok b -> unit_ok c -> unit_ok d ->
  negb (Z.land (Z.land (as_u64 (pack a b c d - ONES)) (Z.lxor (pack a b c d) (2 ^ 64 - 1))) HIGHS =? 0)
  = ((a =? 0) || (b =? 0) || (c =? 0) || (d =? 0)).
Proof.
  intros Ha Hb Hc Hd.
  destruct (minus_ones a b c d Ha Hb Hc Hd) as (a' & b' & c' & d' & -> & Ra & Rb & Rc & Rd & Ea & Eb & Ec & Ed).
  assert (Hw : forall n, 0 <= n < 64 -> Z.testbit (Z.land (pack a' b' c' d') (Z.lxor (pack a b c d) (2 ^ 64 - 1))) n =
    Z.testbit (pack a' b' c' d') n && negb (Z.testbit (pack a b c d) n)).
  { intros n Hn. rewrite Z.land_spec, Z.lxor_spec. change (2 ^ 64 - 1) with (Z.ones 64).
    rewrite Z.ones_spec_low by lia. by destruct (Z.testbit (pack a b c d) n). }
  rewrite highs_zero, negb_involutive, !Hw by
    first [lia | apply Z.land_nonneg; left; rewrite pack_sum by done; unfold unit_ok in *; lia].
  rewrite !pack_testbit by first [done|lia]. cbn -[Z.testbit].
  change (31 - 16) with 15. change (47 - 32) with 15. change (63 - 48) with 15.
  change (Z.testbit a' 15 && negb (Z.testbit a 15)) with (lane_hit a a').
  change (Z.testbit b' 15 && negb (Z.testbit b 15)) with (lane_hit b b').
  change (Z.testbit c' 15 && negb (Z.testbit c 15)) with (lane_hit c c').
  change (Z.testbit d' 15 && negb (Z.testbit d 15)) with (lane_hit d d').
  assert (Hpos : forall x, unit_ok x -> x <> 0 -> 0 < x) by (unfold unit_ok; lia).
  destruct (Z.eqb_spec a 0) as [Za|Za]; [by rewrite (lane_hit_zero a)|].
  rewrite (lane_hit_pos a) by auto. specialize (Eb (Hpos a Ha Za)).
  destruct (Z.eqb_spec b 0) as [Zb|Zb]; [by rewrite (lane_hit_zero b)|].
  rewrite (lane_hit_pos b) by auto. specialize (Ec (Hpos a Ha Za) (Hpos b Hb Zb)).
  destruct (Z.eqb_spec c 0) as [Zc|Zc]; [by rewrite (lane_hit_zero c)|].
  rewrite (lane_hit_pos c) by auto. specialize (Ed (Hpos a Ha Za) (Hpos b Hb Zb) (Hpos c Hc Zc)).
  destruct (Z.eqb_spec d 0) as [Zd|Zd]; [by rewrite (lane_hit_zero d)|].
  by rewrite (lane_hit_pos d) by auto.
Qed.

Lemma pattern_pack x : unit_ok x -> as_u64 (ONES * x) = pack x x x x.
Proof.
  intros Hx. rewrite pack_sum by done. unfold as_u64, wrap_u, unit_ok, ONES in *. rewrite Z.mod_small; lia.
Qed.

Lemma lxor_zero a x : (Z.lxor a x =? 0) = (a =? x).
Proof. apply eq_true_iff_eq. by rewrite !Z.eqb_eq, Z.lxor_eq_0_iff. Qed.

Lemma position_of_app x l1 l2 : position_of x (l1 ++ l2) =
  match position_of x l1 with Some k => Some k | None => (fun k => length l1 + k)%nat <$> position_of x l2 end.
Proof.
  induction l1 as [|u l1 IH]; cbn; [by destruct (position_of x l2)|]. destruct (u =? x); [done|].
  rewrite IH. destruct (position_of x l1); [done|]. by destruct (position_of x l2).
Qed.

Lemma position_of_none x l : position_of x l = None <-> Forall (fun u => (u =? x) = false) l.
Proof.
  induction l as [|u l IH]; cbn; [by repeat constructor|]. rewrite Forall_cons_iff, <- IH.
  destruct (u =? x); [naive_solver|]. destruct (position_of x l); naive_solver.
Qed.

(** [find_unit] is a plain search. *)
Lemma find_unit_position x : unit_ok x -> forall n hay, (length hay <= n)%nat -> Forall unit_ok hay ->
  find_unit hay x = position_of x hay.
Proof.
  intros Hx n. induction n as [|n IH]; intros hay Hn HF; [by destruct hay; [|cbn in Hn; lia]|].
  destruct hay as [|a [|b [|c [|d rest]]]]; [done..|].
  inversion HF as [|? ? Ha HF1]; inversion HF1 as [|? ? Hb HF2]; inversion HF2 as [|? ? Hc HF3];
    inversion HF3 as [|? ? Hd HF4]; subst. cbn [length] in Hn.
  change (a :: b :: c :: d :: rest) with ([a; b; c; d] ++ rest) at 2. rewrite position_of_app.
  change (find_unit (a :: b :: c :: d :: rest) x) with
    (let w := Z.lxor (pack a b c d) (as_u64 (ONES * x)) in
     if negb (Z.land (Z.land (as_u64 (w - ONES)) (Z.lxor w (2 ^ 64 - 1))) HIGHS =? 0)
     then position_of x [a; b; c; d] else (fun k => 4 + k)%nat <$> find_unit rest x).
  cbv zeta. rewrite pattern_pack, pack_lxor by done.
  rewrite zero_lane by (by apply lxor_unit). rewrite !lxor_zero, IH by first [lia|done].
  destruct ((a =? x) || (b =? x) || (c =? x) || (d =? x)) eqn:E.
  - destruct (position_of x [a; b; c; d]) eqn:Ep; [done|]. apply position_of_none in Ep.
    inversion Ep as [|? ? E1 Ep1]; inversion Ep1 as [|? ? E2 Ep2]; inversion Ep2 as [|? ? E3 Ep3];
      inversion Ep3 as [|? ? E4 _]; subst. by rewrite E1, E2, E3, E4 in E.
  - apply orb_false_iff in E as [[[E1 E2]%orb_false_iff E3]%orb_false_iff E4].
    assert (Ep : position_of x [a; b; c; d] = None) by (apply position_of_none; by repeat constructor).
    by rewrite Ep.
Qed.
