(* ===== verification/RegexSteps.v ===== *)
(** * What the steps of the linear matcher mean

    [step_runs] lists the ways a sequence of steps can match, in the order of
    preference, as [runs] does for a pattern.  The steps [build_branches] reads
    off a program have the runs of the program. *)

From S2P Require Import Prelude Regex RegexComp RegexVm RegexSem RegexRun RegexScan RegexScanSpec RegexLinear.

Open Scope Z_scope.

#[local] Arguments Nat.mul : simpl never.
#[local] Arguments Nat.add : simpl never.

Section Steps.
Context `{U : UnicodeData}.
Context (prog : list Inst) (input : list Z) (flags : Flags).
Abbreviation uni := (unicode flags).

(** ** The reference semantics *)

(** The position after a character of the set [k]. *)
Definition holds (sets : list CharSet) (k : nat) (c : Z) : bool :=
  match sets !! k with Some set => set_has set c prog flags | None => false end.

Definition next_in (p : Z -> bool) (pos : nat) : option nat :=
  match read uni input pos with Some (c, n) => if p c then Some n else None | None => None end.

(** The positions reached from [p] by at most [n] characters, the nearest first. *)
Fixpoint reach (next : nat -> option nat) (n p : nat) : list nat :=
  p :: match n with
       | O => []
       | S n => match next p with Some q => reach next n q | None => [] end
       end.

Definition rep_count (max : option nat) : nat := match max with Some m => m | None => S (length input) end.

Definition rep_ends (sets : list CharSet) (k : nat) (max : option nat) (greedy : bool) (p : nat) : list nat :=
  let l := reach (next_in (holds sets k)) (rep_count max) p in
  if greedy then rev l else l.

(** Over any store of the captures. *)
Fixpoint step_runs {A} (put : nat -> nat -> A -> A) (sets : list CharSet) (l : list Step) (p : nat) (sv : A)
    : list (nat * A) :=
  match l with
  | [] => [(p, sv)]
  | SSave s :: l => step_runs put sets l p (put s p sv)
  | SUnit u :: l =>
      match input !! p with
      | Some v => if v =? u then step_runs put sets l (S p) sv else []
      | None => []
      end
  | SOne k :: l =>
      match next_in (holds sets k) p with Some q => step_runs put sets l q sv | None => [] end
  | SRep k max greedy _ :: l => flat_map (fun q => step_runs put sets l q sv) (rep_ends sets k max greedy p)
  | SAssert a :: l =>
      match ASSERTS !! a with
      | Some a => match assert_ok a input p flags with Some true => step_runs put sets l p sv | _ => [] end
      | None => []
      end
  | SMatch :: _ => [(p, sv)]
  end.

(** Captures as the machine keeps them, and as the linear matcher does. *)
Definition put_slot (s p : nat) (sv : list (option nat)) : list (option nat) := <[s := Some p]> sv.
Definition put_raw (s p : nat) (sv : list Z) : list Z := <[s := Z.of_nat p]> sv.

(** A program run leaves the threads of its steps. *)
Definition thr (pc : nat) (st : MState) : Thread := MkThread pc st [] [flags].

Abbreviation R := (Run input false flags prog).
Abbreviation runs_of sets l st := (step_runs put_slot sets l st.1 st.2).

(** Steps without a final match compose. *)
Lemma step_runs_app {A} put sets (l1 l2 : list Step) : existsb (fun s => match s with SMatch => true | _ => false end) l1 = false ->
  forall p (sv : A), step_runs put sets (l1 ++ l2) p sv =
    flat_map (fun st => step_runs put sets l2 st.1 st.2) (step_runs put sets l1 p sv).
Proof.
  induction l1 as [|s l1 IH]; intros H p sv; [cbn; by rewrite app_nil_r|].
  cbn in H. apply orb_false_iff in H as [Hs H]. specialize (IH H).
  destruct s; cbn -[assert_ok rep_ends]; try done.
  - destruct (input !! p) as [v|]; [|done]. destruct (v =? u); [apply IH|done].
  - destruct (next_in _ p); [apply IH|done].
  - induction (rep_ends sets set max greedy p) as [|q l IHl]; cbn -[assert_ok]; [done|].
    rewrite IH, flat_map_app. by f_equal.
  - destruct (ASSERTS !! index) as [a|]; [|done]. destruct (assert_ok a input p flags) as [[]|]; [apply IH|done..].
Qed.

(** ** Reading *)

Lemma read_read_dir p : read_dir input p uni false = read uni input p.
Proof.
  unfold read_dir, read_cp, read. destruct (input !! p) as [u|]; [|done].
  destruct (uni && is_high_surrogate u).
  - destruct (input !! S p) as [lo|]; [|by rewrite Nat.add_1_r]. destruct (is_low_surrogate lo); [done|by rewrite Nat.add_1_r].
  - by rewrite Nat.add_1_r.
Qed.

Lemma read_forward p c n : read uni input p = Some (c, n) -> (p < n)%nat /\ (p < length input)%nat.
Proof.
  unfold read. destruct (input !! p) as [u|] eqn:E; [|done]. apply lookup_lt_Some in E.
  repeat case_match; intros; simplify_eq; lia.
Qed.

Lemma next_in_forward f p q : next_in f p = Some q -> (p < q)%nat /\ (p < length input)%nat.
Proof. unfold next_in. destruct (read uni input p) as [[c n]|] eqn:E; [|done]. case_match; [|done]. intros [= <-]. by eapply read_forward. Qed.

Lemma consume_step t K r i : R (t :: K) r -> prog !! t_pc t = Some i -> is_single_consume i = true ->
  t_flags t = [flags] ->
  R (match next_in (fun c => single_consume_matches i c flags) (t_st t).1 with
     | Some q => [goto t (S (t_pc t)) (q, (t_st t).2)] | None => [] end ++ K) r.
Proof.
  intros HR Hi Hc Hf. destruct (Run_inv _ _ _ _ _ _ _ HR Hi) as (succ & Hp & HR'); [by destruct i..|].
  assert (E : succ = match read_dir input (t_st t).1 uni false with
      | Some (cp, nsp) => if single_consume_matches i cp (t_cur flags t)
                          then [goto t (S (t_pc t)) (nsp, (t_st t).2)] else []
      | None => [] end) by (apply (inj Some); rewrite <- Hp; by destruct i).
  subst succ. unfold t_cur in HR'. rewrite Hf, read_read_dir in HR'. unfold next_in.
  destruct (read uni input (t_st t).1) as [[c n]|]; [|done]. by destruct (single_consume_matches i c flags).
Qed.

Lemma consume_thr pc st K r i : R (thr pc st :: K) r -> prog !! pc = Some i -> is_single_consume i = true ->
  R (match next_in (fun c => single_consume_matches i c flags) st.1 with
     | Some q => [thr (S pc) (q, st.2)] | None => [] end ++ K) r.
Proof. intros HR Hi Hc. by apply (consume_step (thr pc st)) with (i := i) in HR. Qed.

(** The states a quantifier leads to. *)
Definition at_ends (pc : nat) (sv : list (option nat)) (l : list nat) : list Thread :=
  map (fun q => thr pc (q, sv)) l.

Lemma split_thr pc st K r a b : R (thr pc st :: K) r -> prog !! pc = Some (Split a b) ->
  R (thr a st :: thr b st :: K) r.
Proof. intros HR Hi. destruct (Run_inv _ _ _ _ _ _ _ HR Hi) as (succ & Hp & HR'); [done..|]. by injection Hp as <-. Qed.

Lemma jmp_thr pc st K r a : R (thr pc st :: K) r -> prog !! pc = Some (Jmp a) -> R (thr a st :: K) r.
Proof. intros HR Hi. destruct (Run_inv _ _ _ _ _ _ _ HR Hi) as (succ & Hp & HR'); [done..|]. by injection Hp as <-. Qed.

(** [x*] or its lazy form, from its [Split]. *)
Lemma star_runs pc i (greedy : bool) exit : prog !! pc = Some (if greedy then Split (S pc) exit else Split exit (S pc)) ->
  prog !! S pc = Some i -> is_single_consume i = true -> prog !! S (S pc) = Some (Jmp pc) ->
  forall n p sv K r, (length input < p + n)%nat -> R (thr pc (p, sv) :: K) r ->
  let l := reach (next_in (fun c => single_consume_matches i c flags)) n p in
  R (at_ends exit sv (if greedy then rev l else l) ++ K) r.
Proof.
  intros Hs Hi Hc Hj n. induction n as [|n IH]; intros p sv K r Hn HR; cbn [reach].
  all: destruct greedy; apply split_thr with (1 := HR) in Hs as HR'; clear HR.
  - apply (consume_thr _ _ _ _ i) in HR'; [|done..]. cbn [fst snd] in HR'.
    destruct (next_in _ p) as [q|] eqn:E; [apply next_in_forward in E; lia|]. exact HR'.
  - cbn. change (thr exit (p, sv) :: thr (S pc) (p, sv) :: K) with ([thr exit (p, sv)] ++ (thr (S pc) (p, sv) :: K)) in HR'.
    change (R ([thr exit (p, sv)] ++ K) r). eapply Run_middle; [|exact HR']. intros r' H.
    apply (consume_thr _ _ _ _ i) in H; [|done..]. cbn [fst snd] in H.
    destruct (next_in _ p) as [q|] eqn:E; [apply next_in_forward in E; lia|]. exact H.
  - apply (consume_thr _ _ _ _ i) in HR'; [|done..]. cbn [fst snd] in HR'.
    destruct (next_in _ p) as [q|] eqn:E; [|exact HR']. apply next_in_forward in E as [E _].
    cbn [app] in HR'. apply jmp_thr with (1 := HR') in Hj as HJ. apply IH in HJ; [|lia].
    cbn [rev]. unfold at_ends in *. rewrite map_app, <- app_assoc. exact HJ.
  - unfold at_ends. cbn [map]. change (R ([thr exit (p, sv)] ++ (map (fun q => thr exit (q, sv))
      match next_in (fun c => single_consume_matches i c flags) p with
      | Some q => reach (next_in (fun c => single_consume_matches i c flags)) n q | None => [] end ++ K)) r).
    change (thr exit (p, sv) :: thr (S pc) (p, sv) :: K) with ([thr exit (p, sv)] ++ (thr (S pc) (p, sv) :: K)) in HR'.
    eapply Run_middle; [|exact HR']. intros r' H.
    apply (consume_thr _ _ _ _ i) in H; [|done..]. cbn [fst snd] in H.
    destruct (next_in _ p) as [q|] eqn:E; [|exact H]. apply next_in_forward in E as [E _].
    cbn [app] in H. apply jmp_thr with (1 := H) in Hj as HJ. by apply IH in HJ; [|lia].
Qed.

(** ** Chains of options *)

Lemma read_nonneg p c n : subject_ok input -> read uni input p = Some (c, n) -> 0 <= c.
Proof. intros Hs H. rewrite <- read_read_dir in H. by eapply read_dir_nonneg. Qed.

Lemma next_in_ext f g p : subject_ok input -> (forall c, 0 <= c -> f c = g c) -> next_in f p = next_in g p.
Proof.
  intros Hs H. unfold next_in. destruct (read uni input p) as [[c n]|] eqn:E; [|done].
  by rewrite H by by eapply read_nonneg.
Qed.

Lemma reach_ext f g n : (forall p, f p = g p) -> forall p, reach f n p = reach g n p.
Proof. intros H. induction n as [|n IH]; intros p; cbn; [done|]. rewrite H. destruct (g p); [by rewrite IH|done]. Qed.

(** All instructions of a recognised chain accept the same characters. *)
Definition chains_uniform : Prop := forall pc count greedy exit i,
  optional_chain prog pc = Some (count, greedy, exit) -> prog !! (pc + 1)%nat = Some i ->
  forall j i', (j < count)%nat -> prog !! (pc + 2 * j + 1)%nat = Some i' ->
  forall c, single_consume_matches i' c flags = single_consume_matches i c flags.

Definition order {A} (greedy : bool) (l : list A) : list A := if greedy then rev l else l.

Lemma chain_runs (greedy : bool) exit f : subject_ok input ->
  forall fuel q count total, chain_loop prog greedy exit q count fuel = Some total ->
  (forall j i', (j < total - count)%nat -> prog !! (q + 2 * j + 1)%nat = Some i' ->
    forall c, single_consume_matches i' c flags = f c) ->
  (count <= total)%nat /\ forall p sv K r, R (thr q (p, sv) :: K) r ->
    R (at_ends exit sv (order greedy (reach (next_in f) (total - count) p)) ++ K) r.
Proof.
  intros Hsub fuel. induction fuel as [|fuel IH]; intros q count total H Hu; cbn [chain_loop] in H; [done|].
  destruct (Nat.ltb_spec q exit) as [Hq|Hq].
  2:{ destruct (_ && _) eqn:E; [|done]. injection H as <-. apply andb_true_iff in E as [->%Nat.eqb_eq _].
      split; [done|]. intros p sv K r HR. rewrite Nat.sub_diag. by destruct greedy. }
  destruct (prog !! q) as [[]|] eqn:Es; try done.
  destruct (if greedy then (a, b) else (b, a)) as [body ex] eqn:Eb.
  destruct (negb (body =? q + 1)%nat || negb (ex =? exit)%nat || negb (is_consume (prog !! (q + 1)%nat))) eqn:E; [done|].
  apply orb_false_iff in E as [[->%negb_false_iff%Nat.eqb_eq ->%negb_false_iff%Nat.eqb_eq]%orb_false_iff Ec%negb_false_iff].
  unfold is_consume in Ec. destruct (prog !! (q + 1)%nat) as [i|] eqn:Ei; [|done].
  destruct (IH _ _ _ H) as [Hle HIH].
  { intros j i' Hj Hi'. apply (Hu (S j)); [lia|]. rewrite <- Hi'. f_equal. lia. }
  split; [lia|]. intros p sv K r HR. replace (total - count)%nat with (S (total - (count + 1)))%nat by lia.
  assert (Hi : forall c, single_consume_matches i c flags = f c).
  { apply (Hu 0%nat); [lia|]. rewrite <- Ei. f_equal. lia. }
  assert (Hstep : forall K r, R (thr (q + 1) (p, sv) :: K) r -> R (match next_in f p with
      | Some n => at_ends exit sv (order greedy (reach (next_in f) (total - (count + 1)) n)) | None => [] end ++ K) r).
  { intros K' r' HR'. apply (consume_thr _ _ _ _ i) in HR'; [|done..]. cbn [fst snd] in HR'.
    rewrite (next_in_ext _ f) in HR' by auto. destruct (next_in f p) as [n|]; [|done].
    cbn [app] in HR'. replace (S (q + 1)) with (q + 2)%nat in HR' by lia. by apply HIH in HR'. }
  cbn [reach]. apply split_thr with (1 := HR) in Es as HR'. destruct greedy; injection Eb as -> ->.
  - apply Hstep in HR'. destruct (next_in f p) as [n|]; cbn [order rev]; [|exact HR'].
    unfold at_ends in *. rewrite map_app, <- app_assoc. exact HR'.
  - unfold at_ends. cbn [order map]. change (R ([thr exit (p, sv)] ++ (map (fun q => thr exit (q, sv))
      match next_in f p with Some n => reach (next_in f) (total - (count + 1)) n | None => [] end ++ K)) r).
    change (thr exit (p, sv) :: thr (q + 1) (p, sv) :: K) with ([thr exit (p, sv)] ++ (thr (q + 1) (p, sv) :: K)) in HR'.
    eapply Run_middle; [|exact HR']. intros r' H'. apply Hstep in H'. by destruct (next_in f p).
Qed.

(** ** Sets *)

(** The set [k] holds the characters the instruction [i] accepts. *)
Definition denotes (sets : list CharSet) (k : nat) (i : Inst) : Prop :=
  forall c, 0 <= c -> holds sets k c = single_consume_matches i c flags.

Context (Hflags : unicode_sets flags = true -> unicode flags = true).

(** An ASCII letter has an ASCII upper case. *)
Context (Hupper : forall c first, c < 128 -> to_uppercase c = [first] -> first < 128).

Lemma legacy_high c : 128 <= c -> 128 <= canonicalize_legacy c.
Proof.
  intros Hc. unfold canonicalize_legacy. destruct (to_uppercase c) as [|first [|]]; [done| |done].
  destruct (0xFFFF <? first); [done|]. destruct (128 <=? c) eqn:E; [|lia]. cbn.
  destruct (Z.ltb_spec first 128); lia.
Qed.

Lemma legacy_low c : c < 128 -> canonicalize_legacy c < 128.
Proof using Hupper.
  intros Hc. unfold canonicalize_legacy. destruct (to_uppercase c) as [|first [|]] eqn:E; [done| |done].
  apply Hupper in E; [|done]. repeat case_match; lia.
Qed.

Lemma fold_legacy a b : unicode flags = false ->
  char_fold_eq a b flags = (canonicalize_legacy a =? canonicalize_legacy b).
Proof using Hflags.
  intros Hu. unfold char_fold_eq. rewrite Hu.
  assert (unicode_sets flags = false) as ->; [|done].
  destruct (unicode_sets flags); [|done]. by rewrite Hflags in Hu.
Qed.

Lemma cp_eq_apart (c x : Z) : 256 <= c -> x < (if ignore_case flags then 128 else 256) ->
  (ignore_case flags = true -> unicode flags = false) -> cp_eq c x flags = false.
Proof using Hflags Hupper.
  intros Hc Hx Hi. unfold cp_eq. destruct (Z.eqb_spec c x) as [->|]; [destruct (ignore_case flags); lia|].
  destruct (ignore_case flags); cbn [negb]; [|done]. destruct (is_scalar c && is_scalar x); [|done].
  rewrite fold_legacy by auto. apply Z.eqb_neq. pose proof (legacy_high c ltac:(lia)).
  pose proof (legacy_low x ltac:(lia)). lia.
Qed.

Lemma high_is_empty_sound i c : high_is_empty i flags = true -> 256 <= c ->
  single_consume_matches i c flags = false.
Proof using Hflags Hupper.
  unfold high_is_empty. intros H Hc. destruct (ignore_case flags && unicode flags) eqn:Ef; [done|].
  assert (Hi : ignore_case flags = true -> unicode flags = false).
  { intros E. by rewrite E in Ef. }
  set (ceiling := if ignore_case flags then 128 else 256) in H.
  destruct i; try done; cbn [single_consume_matches].
  - apply cp_eq_apart; [done|by apply Z.ltb_lt in H|done].
  - apply andb_true_iff in H as [Hn%negb_true_iff H]. unfold class_matches.
    destruct (Z.ltb_spec c 256); [lia|]. cbn [andb]. rewrite Hn, xorb_false_r.
    unfold leaf_members_match. induction (members cl) as [|m l IH]; cbn -[forallb existsb]; [done|].
    cbn in H |- *. apply andb_true_iff in H as [Hm H]. rewrite (IH H), orb_false_r. clear IH H.
    destruct m as [x|lo hi|[]]; cbn -[cp_eq]; try done.
    + apply cp_eq_apart; [done|by apply Z.ltb_lt in Hm|done].
    + apply Z.ltb_lt in Hm. assert (in_range lo hi c = false) as ->.
      { apply in_range_false. unfold ceiling in Hm. destruct (ignore_case flags); lia. }
      destruct (ignore_case flags) eqn:Eic; [|done]. cbn [orb andb]. unfold range_fold_hit.
      destruct (negb (is_scalar c)); [done|]. destruct (Z.ltb_spec c 128); [lia|].
      apply not_true_iff_false. intros (v & _ & Hv)%existsb_exists.
      rewrite !andb_true_iff in Hv. destruct Hv as (Hr & _ & Hf). apply in_range_true in Hr.
      rewrite fold_legacy in Hf by auto. apply Z.eqb_eq in Hf. pose proof (legacy_high c ltac:(lia)).
      pose proof (legacy_low v ltac:(unfold ceiling in Hm; lia)). lia.
    + unfold is_ascii_digit. apply in_range_false. lia.
    + unfold is_word_flags, is_word. rewrite (proj2 (in_range_false _ _ _)), (proj2 (in_range_false _ _ _)),
        (proj2 (in_range_false _ _ _)) by lia. destruct (Z.eqb_spec c 0x5F); [lia|]. cbn [orb].
      destruct (ignore_case flags); [|done]. by rewrite Hi.
Qed.

Lemma make_set_denotes sets k pc i : sets !! k = Some (make_set i pc flags) -> prog !! pc = Some i ->
  denotes sets k i.
Proof using Hflags Hupper.
  intros Hk Hp c Hc. unfold holds. rewrite Hk. unfold set_has, make_set. cbn [s_latin1 s_high].
  destruct (Z.ltb_spec c 256); [by apply latin1_build_test|].
  destruct (high_is_empty i flags) eqn:E; [by rewrite high_is_empty_sound|]. by rewrite Hp.
Qed.

(** ** Sequences *)

Definition is_smatch (s : Step) : bool := match s with SMatch => true | _ => false end.

(** A step refers to sets, slots and assertions that exist; a literal unit of a
    [u] program is not a surrogate. *)
Definition step_ok (n : nat) (s : Step) : Prop :=
  match s with
  | SSave slot => exists pc, prog !! pc = Some (Save slot)
  | SUnit u => (exists pc, prog !! pc = Some (Char u)) /\ u <= 0xFFFF /\
      (uni = true -> in_range 0xD800 0xDFFF u = false)
  | SOne k | SRep k _ _ _ => (k < n)%nat
  | SAssert a => (a < 4)%nat
  | SMatch => True
  end.

Lemma step_ok_le n n' s : (n <= n')%nat -> step_ok n s -> step_ok n' s.
Proof. intros Hn. destruct s; cbn; try done; lia. Qed.

Lemma runs_flat_map {A} (e1 : A -> Thread) (e2 : MState -> Thread) (f : A -> list MState) l K r :
  (forall s K r, R (e1 s :: K) r -> R (map e2 (f s) ++ K) r) ->
  R (map e1 l ++ K) r -> R (map e2 (flat_map f l) ++ K) r.
Proof.
  intros Hs. revert K r. induction l as [|s l IH]; intros K r; cbn; [done|].
  intros H. apply Hs in H. rewrite map_app, <- app_assoc. eapply Run_middle; [|exact H]. apply IH.
Qed.

Definition set_wf (s : CharSet) : Prop := length (s_latin1 s) = 4%nat.

Lemma make_set_wf i pc : set_wf (make_set i pc flags).
Proof. apply latin1_build_length. Qed.

(** What [parse_seq] has read when it stops. *)
Record parsed (pc stop : nat) (end_ : option nat) (sets more : list CharSet) (new : list Step) : Prop := {
  pd_sets : Forall set_wf more;
  pd_ok : Forall (step_ok (length (sets ++ more))) new;
  pd_shape : (existsb is_smatch new = false /\
      (end_ = Some stop \/ exists a b, prog !! stop = Some (Split a b))) \/
    (exists body, new = body ++ [SMatch] /\ existsb is_smatch body = false /\
      prog !! stop = Some Match /\ end_ = None);
  pd_runs : forall T, (sets ++ more) `prefix_of` T -> forall st K r, R (thr pc st :: K) r ->
    R (map (thr stop) (runs_of T new st) ++ K) r
}.

(** One step in front. *)
Lemma parsed_cons pc pc' stop end_ sets more1 more2 s new :
  is_smatch s = false -> Forall set_wf more1 -> step_ok (length (sets ++ more1)) s ->
  (forall T, (sets ++ more1) `prefix_of` T -> forall st K r, R (thr pc st :: K) r ->
    R (map (thr pc') (runs_of T [s] st) ++ K) r) ->
  parsed pc' stop end_ (sets ++ more1) more2 new -> parsed pc stop end_ sets (more1 ++ more2) (s :: new).
Proof.
  intros Hs Hwf Hok Hrun [H0 H1 H2 H3]. rewrite <- app_assoc in H1. split.
  - by apply Forall_app.
  - constructor; [|done]. eapply step_ok_le; [|exact Hok]. rewrite !length_app. lia.
  - destruct H2 as [[H2 H2']|(body & -> & H2 & H2')]; [left|right].
    + split; [|done]. cbn. by rewrite Hs.
    + exists (s :: body). split; [done|]. split; [|done]. cbn. by rewrite Hs.
  - intros T HS st K r HR. rewrite app_assoc in HS.
    change (s :: new) with ([s] ++ new). rewrite step_runs_app by (cbn; unfold is_smatch in Hs; by rewrite Hs).
    apply (runs_flat_map (thr pc')); [intros s' K' r'; by apply H3|]. apply Hrun; [|done].
    etransitivity; [|exact HS]. by apply prefix_app_r.
Qed.

Lemma lookup_prefix {A} (l l' : list A) x T : (l ++ x :: l') `prefix_of` T -> T !! length l = Some x.
Proof. intros [k ->]. rewrite <- app_assoc, lookup_app_r by lia. by rewrite Nat.sub_diag. Qed.

Lemma next_holds T k i p : subject_ok input -> denotes T k i ->
  next_in (holds T k) p = next_in (fun c => single_consume_matches i c flags) p.
Proof. intros Hsub H. by apply next_in_ext. Qed.

(** A character of a set. *)
Lemma one_parsed pc i T k st K r : subject_ok input -> prog !! pc = Some i -> is_single_consume i = true ->
  denotes T k i -> R (thr pc st :: K) r -> R (map (thr (pc + 1)) (runs_of T [SOne k] st) ++ K) r.
Proof.
  intros Hsub Hi Hc Hd HR. apply (consume_thr _ _ _ _ i) in HR; [|done..].
  cbn [step_runs]. rewrite (next_holds _ _ i) by done. rewrite Nat.add_1_r.
  by destruct (next_in _ _).
Qed.

Lemma unit_parsed pc (c : Z) T st K r : subject_ok input -> prog !! pc = Some (Char c) ->
  ignore_case flags = false -> c <= 0xFFFF -> (uni = true -> in_range 0xD800 0xDFFF c = false) ->
  R (thr pc st :: K) r -> R (map (thr (pc + 1)) (runs_of T [SUnit c] st) ++ K) r.
Proof.
  intros Hsub Hi Hic Hc Hu HR. apply (consume_thr _ _ _ _ (Char c)) in HR; [|done..].
  cbn [step_runs]. rewrite Nat.add_1_r. unfold next_in in HR. destruct st as [p sv]; cbn [fst snd] in *.
  destruct (read uni input p) as [[cp n]|] eqn:E.
  2:{ unfold read in E. destruct (input !! p) as [u|]; [|done]. repeat case_match; done. }
  cbn [single_consume_matches] in HR. unfold cp_eq in HR. rewrite Hic in HR. cbn [negb] in HR.
  assert (Hcase : exists v, input !! p = Some v /\ ((cp = v /\ n = S p) \/
    (uni = true /\ is_high_surrogate v = true /\ 0xFFFF < cp))).
  { rewrite <- read_read_dir in E. pose proof E as E'. apply read_cp_unit in E as (v & Hv & Hv0 & Hcp); [|done].
    exists v. split; [done|]. rewrite read_read_dir in E'. unfold read in E'. rewrite Hv in E'.
    destruct (uni && is_high_surrogate v) eqn:Eh; [|injection E' as <- <-; by left].
    apply andb_true_iff in Eh as [Eu Eh]. destruct (input !! S p) as [lo|]; [|injection E' as <- <-; by left].
    destruct (is_low_surrogate lo) eqn:El; [|injection E' as <- <-; by left].
    injection E' as <- <-. right. split; [done|]. split; [done|]. destruct Hcp as [Hcp|[]]; [|done].
    apply in_range_true in Eh, El. unfold pair_cp in *. rewrite Z.shiftl_mul_pow2 in * by lia. lia. }
  destruct Hcase as (v & -> & [[-> ->]|(Eu & Eh & Hcp)]); [by destruct (v =? c)|].
  destruct (Z.eqb_spec cp c) as [->|]; [lia|]. destruct (Z.eqb_spec v c) as [->|]; [|done].
  specialize (Hu Eu). apply in_range_true in Eh. apply in_range_false in Hu. lia.
Qed.

Lemma at_ends_runs pc sv l : map (thr pc) (flat_map (fun q => [(q, sv)]) l) = at_ends pc sv l.
Proof. induction l as [|q l IH]; cbn; [done|]. by rewrite IH. Qed.

Lemma rep_parsed_star pc i T k (greedy : bool) st K r : subject_ok input ->
  prog !! pc = Some (if greedy then Split (pc + 1) (pc + 3) else Split (pc + 3) (pc + 1)) ->
  prog !! (pc + 1)%nat = Some i -> is_single_consume i = true -> prog !! (pc + 2)%nat = Some (Jmp pc) ->
  denotes T k i -> R (thr pc st :: K) r ->
  R (map (thr (pc + 3)) (runs_of T [SRep k None greedy None] st) ++ K) r.
Proof.
  intros Hsub Hs Hi Hc Hj Hd HR. cbn [step_runs]. unfold rep_ends, rep_count.
  rewrite (reach_ext _ (next_in (fun c => single_consume_matches i c flags))) by (intros; by apply next_holds).
  rewrite Nat.add_1_r in *. destruct st as [p sv].
  apply (star_runs pc i greedy (pc + 3)) with (n := S (length input)) in HR; [|done..|by rewrite <- Hj; f_equal; lia|lia].
  by rewrite at_ends_runs.
Qed.

Lemma rep_parsed_chain pc i T k count (greedy : bool) exit st K r : subject_ok input -> chains_uniform ->
  optional_chain prog pc = Some (count, greedy, exit) -> prog !! (pc + 1)%nat = Some i -> denotes T k i ->
  R (thr pc st :: K) r ->
  R (map (thr exit) (runs_of T [SRep k (Some count) greedy None] st) ++ K) r.
Proof.
  intros Hsub Hu Ho Hi Hd HR. pose proof (Hu _ _ _ _ _ Ho Hi) as Hall.
  assert (Hch : chain_loop prog greedy exit pc 0 (length prog + 1) = Some count).
  { unfold optional_chain in Ho. destruct (prog !! pc) as [[]|]; try done. cbv zeta in Ho.
    destruct (_ && _); [done|]. destruct (chain_loop _ _ _ _ _ _) eqn:E; [|done]. by injection Ho as <- <- <-. }
  apply (chain_runs greedy exit (fun c => single_consume_matches i c flags) Hsub) in Hch as [_ Hch].
  2:{ intros j i' Hj. apply Hall. lia. }
  destruct st as [p sv]. apply Hch in HR. rewrite Nat.sub_0_r in HR.
  cbn [step_runs fst snd]. unfold rep_ends, rep_count.
  rewrite (reach_ext _ (next_in (fun c => single_consume_matches i c flags))) by (intros; by apply next_holds).
  by rewrite at_ends_runs.
Qed.

(** The instruction [optional_chain] starts at consumes a character. *)
Lemma chain_consumes pc count greedy exit : optional_chain prog pc = Some (count, greedy, exit) ->
  exists i, prog !! (pc + 1)%nat = Some i /\ is_single_consume i = true.
Proof.
  unfold optional_chain. destruct (prog !! pc) as [[]|] eqn:E; try done. cbv zeta.
  destruct (_ && _); [done|]. destruct (length prog + 1)%nat as [|n] eqn:En; [lia|]. cbn [chain_loop].
  rewrite E. destruct (pc <? _)%nat; [|by rewrite andb_false_r].
  destruct (if (a =? pc + 1)%nat then (a, b) else (b, a)) as [x y].
  destruct (is_consume (prog !! (pc + 1)%nat)) eqn:Ec; [|by rewrite orb_true_r].
  unfold is_consume in Ec. destruct (prog !! (pc + 1)%nat) as [i|]; [|done]. by exists i.
Qed.

Lemma save_parsed pc s T st K r : prog !! pc = Some (Save s) -> R (thr pc st :: K) r ->
  R (map (thr (pc + 1)) (runs_of T [SSave s] st) ++ K) r.
Proof.
  intros Hi HR. destruct (Run_inv _ _ _ _ _ _ _ HR Hi) as (succ & Hp & HR'); [done..|]. cbn in Hp.
  destruct (st.2 !! s); [|done]. injection Hp as <-. cbn. by rewrite Nat.add_1_r.
Qed.

Lemma assert_parsed pc a T st K r : prog !! pc = Some (IAssert a) -> R (thr pc st :: K) r ->
  R (map (thr (pc + 1)) (runs_of T [SAssert (assert_index a)] st) ++ K) r.
Proof.
  intros Hi HR. destruct (Run_inv _ _ _ _ _ _ _ HR Hi) as (succ & Hp & HR'); [done..|].
  cbn -[assert_ok] in Hp. cbn -[assert_ok]. rewrite Nat.add_1_r.
  assert (E : ASSERTS !! assert_index a = Some a) by (by destruct a). rewrite E.
  destruct (assert_ok a input st.1 flags) as [[]|]; [| |done]; injection Hp as <-; by destruct st.
Qed.

Lemma parse_seq_parsed end_ : subject_ok input -> chains_uniform ->
  forall fuel pc sets out stop sets' out',
  parse_seq fuel prog pc end_ flags sets out = Some (stop, sets', out') ->
  exists more new, sets' = sets ++ more /\ out' = out ++ new /\ parsed pc stop end_ sets more new.
Proof using Hflags Hupper.
  intros Hsub Hu fuel. induction fuel as [|fuel IH]; intros pc sets out stop sets' out' H; cbn [parse_seq] in H; [done|].
  assert (Hstop : (end_ = Some pc \/ exists a b, prog !! pc = Some (Split a b)) ->
    Some (pc, sets, out) = Some (stop, sets', out') ->
    exists more new, sets' = sets ++ more /\ out' = out ++ new /\ parsed pc stop end_ sets more new).
  { intros Hs [= <- <- <-]. exists [], []. rewrite !app_nil_r. split; [done|]. split; [done|]. split.
    - constructor.
    - constructor.
    - left. by split.
    - intros T _ st K r HR. by destruct st. }
  destruct (match end_ with Some e => (pc =? e)%nat | None => false end) eqn:Ee.
  { apply Hstop; [|done]. destruct end_ as [e|]; [|done]. apply Nat.eqb_eq in Ee as ->. by left. }
  clear Ee.
  (* one step, then the rest *)
  assert (Hgo : forall pc' s more1, is_smatch s = false -> Forall set_wf more1 -> step_ok (length (sets ++ more1)) s ->
    (forall T, (sets ++ more1) `prefix_of` T -> forall st K r, R (thr pc st :: K) r ->
      R (map (thr pc') (runs_of T [s] st) ++ K) r) ->
    parse_seq fuel prog pc' end_ flags (sets ++ more1) (out ++ [s]) = Some (stop, sets', out') ->
    exists more new, sets' = sets ++ more /\ out' = out ++ new /\ parsed pc stop end_ sets more new).
  { intros pc' s more1 Hs Hwf Hok Hrun H'. apply IH in H' as (more & new & -> & -> & HP).
    exists (more1 ++ more), (s :: new). rewrite <- !app_assoc. split; [done|]. split; [done|].
    by eapply parsed_cons. }
  assert (Hset : forall i q, prog !! q = Some i -> forall T, (sets ++ [make_set i q flags]) `prefix_of` T ->
    denotes T (length sets) i).
  { intros i q Hq T HT. by eapply make_set_denotes; [eapply lookup_prefix|]. }
  assert (Hk : forall x : CharSet, (length sets < length (sets ++ [x]))%nat).
  { intros x. rewrite length_app. cbn. lia. }
  assert (Hwfs : forall i q, Forall set_wf [make_set i q flags]).
  { intros i q. repeat constructor. apply make_set_wf. }
  assert (Hone : forall i, prog !! pc = Some i -> is_single_consume i = true ->
    parse_seq fuel prog (pc + 1) end_ flags (sets ++ [make_set i pc flags]) (out ++ [SOne (length sets)]) =
      Some (stop, sets', out') ->
    exists more new, sets' = sets ++ more /\ out' = out ++ new /\ parsed pc stop end_ sets more new).
  { intros i Hi Hc. apply Hgo; [done|apply Hwfs|apply Hk|]. intros T HT st K r. eapply one_parsed; [done..|by eapply Hset]. }
  assert (Hsame : forall pc' s, is_smatch s = false -> step_ok (length sets) s ->
    (forall T st K r, R (thr pc st :: K) r -> R (map (thr pc') (runs_of T [s] st) ++ K) r) ->
    parse_seq fuel prog pc' end_ flags sets (out ++ [s]) = Some (stop, sets', out') ->
    exists more new, sets' = sets ++ more /\ out' = out ++ new /\ parsed pc stop end_ sets more new).
  { intros pc' s Hs Hok Hrun H'. apply (Hgo pc' s []); rewrite ?app_nil_r; auto. }
  destruct (prog !! pc) as [i|] eqn:Ei; [|done]. destruct i; try done; try (by eapply Hone).
  - destruct (negb (ignore_case flags) && (c <=? 0xFFFF) && negb (uni && in_range 0xD800 0xDFFF c)) eqn:E;
      [|by eapply Hone].
    apply andb_true_iff in E as [[Hic%negb_true_iff Hc%Z.leb_le]%andb_true_iff Hs%negb_true_iff].
    assert (Hsur : uni = true -> in_range 0xD800 0xDFFF c = false) by (intros Eu; by rewrite Eu in Hs).
    eapply Hsame; [..|exact H]; [done|cbn; eauto|]. intros T st K r. by apply unit_parsed.
  - destruct end_ as [e|]; [done|]. injection H as <- <- <-. exists [], [SMatch]. rewrite app_nil_r.
    split; [done|]. split; [done|]. split.
    + constructor.
    + repeat constructor.
    + right. by exists [].
    + intros T _ st K r HR. by destruct st.
  - destruct (prog !! (pc + 1)%nat) as [body|] eqn:Eb; [|apply Hstop in H; eauto].
    destruct (_ && _) eqn:E.
    + rewrite !andb_true_iff in E. destruct E as ((Hc & Hj) & Hab).
      destruct (prog !! (pc + 2)%nat) as [[]|] eqn:Ej; try done. apply Nat.eqb_eq in Hj as ->.
      eapply Hgo; [..|exact H]; [done|apply Hwfs|apply Hk|]. intros T HT st K r.
      eapply rep_parsed_star; [done| |done..|by eapply Hset].
      apply orb_true_iff in Hab as [[->%Nat.eqb_eq ->%Nat.eqb_eq]%andb_true_iff|[->%Nat.eqb_eq ->%Nat.eqb_eq]%andb_true_iff].
      * by rewrite Nat.eqb_refl.
      * destruct (Nat.eqb_spec (pc + 3) (pc + 1)); [lia|done].
    + destruct (optional_chain prog pc) as [[[count greedy] exit]|] eqn:Eo; [|apply Hstop in H; eauto].
      eapply Hgo; [..|exact H]; [done|apply Hwfs|apply Hk|]. intros T HT st K r.
      eapply rep_parsed_chain; [done..|by eapply Hset].
  - eapply Hsame; [..|exact H]; [done|cbn; eauto|]. intros T st K r. by apply save_parsed.
  - eapply Hsame; [..|exact H]; [done|by destruct a; cbn; lia|]. intros T st K r. by apply assert_parsed.
Qed.

(** ** Alternations *)

Lemma alternation_runs fuel : forall at_ end_ brs all e,
  alternation fuel prog at_ end_ brs = Some (all, e) ->
  exists new, all = brs ++ new /\ (forall x, end_ = Some x -> e = x) /\
    Forall (fun b => b.2 = e \/ prog !! b.2 = Some (Jmp e)) new /\
    forall st K r, R (thr at_ st :: K) r -> R (map (fun b => thr b.1 st) new ++ K) r.
Proof.
  induction fuel as [|fuel IH]; intros at_ end_ brs all e H; cbn [alternation] in H; [done|].
  assert (Hfin : match end_ with Some e => Some (brs ++ [(at_, e)], e) | None => None end = Some (all, e) ->
    exists new, all = brs ++ new /\ (forall x, end_ = Some x -> e = x) /\
    Forall (fun b => b.2 = e \/ prog !! b.2 = Some (Jmp e)) new /\
    forall st K r, R (thr at_ st :: K) r -> R (map (fun b => thr b.1 st) new ++ K) r).
  { destruct end_ as [x|]; [|done]. intros [= <- ->]. exists [(at_, e)]. split; [done|].
    split; [by intros y [= ->]|]. split; [repeat constructor; by left|done]. }
  destruct (prog !! at_) as [[]|] eqn:Es; try (by apply Hfin).
  destruct (_ && _) eqn:Ec; [|by apply Hfin]. destruct (prog !! (b - 1)%nat) as [[]|] eqn:Ej; try (by apply Hfin).
  destruct ((b <=? target)%nat && _) eqn:Ee; [|by apply Hfin].
  destruct (MAX_BRANCHES <=? _)%nat; [done|]. apply IH in H as (new & -> & He & HF & HR). rewrite <- app_assoc.
  specialize (He _ eq_refl) as ->. exists ((a, b - 1)%nat :: new). split; [done|]. split; [|split].
  - intros x ->. apply andb_true_iff in Ee as [_ Ee]. by apply Nat.eqb_eq in Ee.
  - constructor; [by right|done].
  - intros st K r H. apply split_thr with (1 := H) in Es. cbn.
    change (R ([thr a st] ++ (map (fun b => thr b.1 st) new ++ K)) r).
    change (thr a st :: thr b st :: K) with ([thr a st] ++ (thr b st :: K)) in Es.
    eapply Run_middle; [|exact Es]. intros r'. apply HR.
Qed.

(** A branch of steps ends in its only [SMatch]. *)
Definition branch_ok (n : nat) (l : list Step) : Prop :=
  Forall (step_ok n) l /\ exists body, l = body ++ [SMatch] /\ existsb is_smatch body = false.

Lemma branch_ok_le n n' l : (n <= n')%nat -> branch_ok n l -> branch_ok n' l.
Proof.
  intros Hn [H1 H2]. split; [|done]. eapply list.Forall_impl; [exact H1|]. intros s. by apply step_ok_le.
Qed.

Lemma parse_parsed end_ pc sets out stop sets' out' : subject_ok input -> chains_uniform ->
  parse prog pc end_ flags sets out = Some (stop, sets', out') ->
  exists more new, sets' = sets ++ more /\ out' = out ++ new /\ parsed pc stop end_ sets more new.
Proof using Hflags Hupper. intros Hsub Hu. by apply parse_seq_parsed. Qed.

Lemma parse_branches_runs prefix suffix e fin n0 : subject_ok input -> chains_uniform ->
  prog !! fin = Some Match -> Forall (step_ok n0) prefix -> existsb is_smatch prefix = false ->
  branch_ok n0 suffix ->
  forall alts sets sets' brs, Forall (fun b => b.2 = e \/ prog !! b.2 = Some (Jmp e)) alts ->
  (exists T0, length T0 = n0 /\ T0 `prefix_of` sets /\ forall T st K r, T0 `prefix_of` T -> R (thr e st :: K) r ->
    R (map (thr fin) (runs_of T suffix st) ++ K) r) -> 
  parse_branches prog flags prefix suffix alts sets = Some (sets', brs) ->
  exists mids, brs = map (fun m => prefix ++ m ++ suffix) mids /\ sets `prefix_of` sets' /\
    (Forall set_wf sets -> Forall set_wf sets') /\
    Forall (branch_ok (length sets')) brs /\
    forall T, sets' `prefix_of` T -> forall st K r, R (map (fun b => thr b.1 st) alts ++ K) r ->
      R (map (thr fin) (flat_map (fun m => runs_of T (m ++ suffix) st) mids) ++ K) r.
Proof using Hflags Hupper.
  intros Hsub Hu Hm Hpre Hnp Hsuf.
  induction alts as [|[start stop] alts IH]; intros sets sets' brs HF HT0 H; cbn [parse_branches] in H.
  { injection H as <- <-. exists []. repeat split; [done|done|constructor|]. intros T _ st K r HR. exact HR. }
  apply Forall_cons_iff in HF as [Hstop HF]. cbn [snd] in Hstop.
  destruct (parse prog start (Some stop) flags sets prefix) as [[[at_ sets1] steps]|] eqn:Ep; [|done].
  destruct (Nat.eqb_spec at_ stop) as [->|]; [|done].
  destruct (parse_branches _ _ _ _ _ _) as [[sets2 brs2]|] eqn:Eb; [|done]. injection H as <- <-.
  apply parse_parsed in Ep as (more & new & -> & -> & [H0 H1 H2 H3]); [|done..].
  destruct HT0 as (T0 & Hl0 & HT0 & Hs0).
  apply IH in Eb as (mids & -> & Hsp & Hwf & HB & HR2); [|done|].
  2:{ exists T0. split; [done|]. split; [by apply prefix_app_r|done]. }
  assert (Hle : (length (sets ++ more) <= length sets2)%nat) by by apply prefix_length.
  assert (Hn0 : (n0 <= length sets2)%nat).
  { apply prefix_length in HT0. rewrite length_app in Hle. lia. }
  assert (Hnew : existsb is_smatch new = false).
  { by destruct H2 as [[H2 _]|(body & _ & _ & _ & Hx)]. }
  exists (new :: mids). rewrite <- app_assoc. split; [done|]. split; [|split; [|split]].
  - etransitivity; [|exact Hsp]. by apply prefix_app_r.
  - intros Hs. apply Hwf, Forall_app. by split.
  - constructor; [|done]. destruct Hsuf as [Hs1 Hs2]. split.
    + rewrite !Forall_app. split; [|split].
      * eapply list.Forall_impl; [exact Hpre|]. intros s. by apply step_ok_le.
      * eapply list.Forall_impl; [exact H1|]. intros s. by apply step_ok_le.
      * eapply list.Forall_impl; [exact Hs1|]. intros s. by apply step_ok_le.
    + destruct Hs2 as (body & -> & Hs2). exists (prefix ++ new ++ body). split; [by rewrite <- !app_assoc|]. by rewrite !existsb_app, Hnp, Hnew, Hs2.
  - intros T HT st K r HR. cbn [map flat_map]. rewrite map_app, <- app_assoc.
    cbn [map] in HR. cbn [app] in HR.
    assert (HT1 : (sets ++ more) `prefix_of` T) by by etransitivity.
    apply H3 with (T := T) in HR; [|done]. rewrite step_runs_app by done.
    eapply Run_middle; [intros r'; by apply HR2|].
    apply (runs_flat_map (thr stop)); [|exact HR]. intros s K' r' HR'.
    apply Hs0; [etransitivity; [exact HT0|]; etransitivity; [|exact HT1]; by apply prefix_app_r|].
    destruct Hstop as [->|Hj]; [done|]. by apply jmp_thr with (2 := Hj).
Qed.

(** A sequence without quantifiers has at most one run. *)
Lemma choice_free {A} (put : nat -> nat -> A -> A) sets l : existsb is_rep l = false -> forall p (sv : A),
  step_runs put sets l p sv = [] \/ exists st, step_runs put sets l p sv = [st].
Proof.
  induction l as [|s l IH]; intros H p sv; cbn in H |- *; [right; by eexists|].
  apply orb_false_iff in H as [Hs H]. destruct s; try done; cbn -[assert_ok].
  - by apply IH.
  - destruct (input !! p) as [v|]; [|by left]. destruct (v =? u); [by apply IH|by left].
  - destruct (next_in _ p); [by apply IH|by left].
  - destruct (ASSERTS !! index); [|by left]. destruct (assert_ok _ _ _ _) as [[]|]; [by apply IH|by left..].
  - right. by eexists.
Qed.

(** The branches [build_branches] reads off a program have its runs. *)
Lemma build_branches_runs sets brs : subject_ok input -> chains_uniform ->
  build_branches prog flags = Some (sets, brs) ->
  Forall set_wf sets /\ Forall (branch_ok (length sets)) brs /\
  forall T, sets `prefix_of` T -> forall st r, R [thr 0 st] r ->
    t_st <$> r = head (flat_map (fun b => runs_of T b st) brs).
Proof using Hflags Hupper.
  intros Hsub Hu H. unfold build_branches in H.
  destruct (parse prog 0 None flags [] []) as [[[stop sets1] prefix]|] eqn:Ep; [|done].
  apply parse_parsed in Ep as (more & new & -> & -> & [H0 H1 H2 H3]); [|done..]. cbn [app] in *.
  assert (Hend : forall fin (L : list MState) r, prog !! fin = Some Match -> R (map (thr fin) L) r ->
    t_st <$> r = head L).
  { intros fin L r Hm HR. destruct L as [|st L].
    - destruct HR as [n HR]. by inversion HR.
    - assert (Hx : R (thr fin st :: map (thr fin) L) (Some (thr fin st))) by by apply Run_match.
      by rewrite (Run_fun _ _ _ _ _ _ _ Hx HR). }
  destruct (is_match_at prog stop) eqn:Em.
  { injection H as <- <-. unfold is_match_at in Em.
    destruct (prog !! stop) as [[]|] eqn:Es; try done.
    destruct H2 as [[_ [?|(a & b & ?)]]|H2]; [done|congruence|]. destruct H2 as (body & -> & Hb & _).
    split; [done|]. split; [repeat constructor; [done|by exists body]|].
    intros T HT st r HR. cbn [flat_map]. rewrite app_nil_r. apply (Hend stop); [done|].
    rewrite <- (app_nil_r (map _ _)). by apply H3. }
  destruct (existsb is_rep new) eqn:Er; [done|].
  destruct (alternation _ _ _ _ _) as [[alts e]|] eqn:Ea; [|done].
  destruct (parse prog e None flags more []) as [[[fin sets2] suffix]|] eqn:Es; [|done].
  destruct (is_match_at prog fin) eqn:Ef; [|done].
  assert (Hfin : prog !! fin = Some Match) by (unfold is_match_at in Ef; by destruct (prog !! fin) as [[]|]).
  apply alternation_runs in Ea as (new' & Hn & _ & HF & Ha). cbn [app] in Hn. subst new'.
  apply parse_parsed in Es as (more2 & suf & -> & Hsuf & [S0 S1 S2 S3]); [|done..]. cbn [app] in Hsuf. subst suf.
  assert (Hnp : existsb is_smatch new = false).
  { destruct H2 as [[H2 _]|(body & _ & _ & Hx & _)]; [done|]. unfold is_match_at in Em. by rewrite Hx in Em. }
  assert (Hsuf : branch_ok (length (more ++ more2)) suffix).
  { split; [done|]. destruct S2 as [[_ [?|(a & b & Hx)]]|S2]; [done|congruence|].
    destruct S2 as (body & -> & Hb & _). by exists body. }
  eapply (parse_branches_runs new suffix e fin (length (more ++ more2))) in H as (mids & -> & Hsp & Hwf & HB & HR); [|try done..].
  2:{ eapply list.Forall_impl; [exact H1|]. intros s. apply step_ok_le. rewrite length_app. lia. }
  2:{ exists (more ++ more2). split; [done|]. split; [done|]. intros T st K r HT. by apply S3. }
  split; [apply Hwf, Forall_app; by split|]. split; [done|]. intros T HT st r Hr.
  assert (HT1 : more `prefix_of` T).
  { etransitivity; [|exact HT]. etransitivity; [|exact Hsp]. by apply prefix_app_r. }
  apply (H3 T HT1 st [] r) in Hr. rewrite app_nil_r in Hr. apply (Hend fin); [done|].
  assert (E : flat_map (fun b => runs_of T b st) (map (fun m => new ++ m ++ suffix) mids) =
    flat_map (fun st => flat_map (fun m => runs_of T (m ++ suffix) st) mids) (runs_of T new st)).
  { assert (E : forall m, runs_of T (new ++ m ++ suffix) st =
      flat_map (fun st => runs_of T (m ++ suffix) st) (runs_of T new st)) by (intros m; by apply step_runs_app).
    clear -E Er. induction mids as [|m mids IH]; cbn [map flat_map].
    - destruct (choice_free put_slot T new Er st.1 st.2) as [-> |[st' ->]]; done.
    - rewrite IH, E. destruct (choice_free put_slot T new Er st.1 st.2) as [-> |[st' ->]]; cbn; [done|].
      by rewrite !app_nil_r. }
  rewrite E. rewrite <- (app_nil_r (map _ _)). apply (runs_flat_map (thr stop)); [|by rewrite app_nil_r].
  intros s K r' HR'. apply HR; [done|]. by apply Ha.
Qed.

End Steps.
