(* ===== verification/RegexLinRun.v ===== *)
(** * What an attempt of the linear matcher answers

    The search with a stack of choices finds the first run of its steps.  The
    capture slots are never restored: what a choice leaves behind is written again
    by the steps after it. *)

From S2P Require Import Prelude Regex RegexComp RegexVm RegexTotal RegexSem RegexRun RegexExec RegexScan RegexScanSpec.
From S2P Require Import RegexLinear RegexSteps.

Open Scope Z_scope.

#[local] Arguments Nat.mul : simpl never.
#[local] Arguments Nat.add : simpl never.

(** ** Walks along a partial function *)

Fixpoint iter_next (next : nat -> option nat) (m p : nat) : option nat :=
  match m with
  | O => Some p
  | S m => match next p with Some q => iter_next next m q | None => None end
  end.

Section next.
Context (next : nat -> option nat) (Hnext : forall p q, next p = Some q -> (p < q)%nat).

Lemma iter_next_le m : forall p q, iter_next next m p = Some q -> (p + m <= q)%nat.
Proof using Hnext.
  induction m as [|m IH]; intros p q; cbn; [intros [= <-]; lia|].
  destruct (next p) as [x|] eqn:E; [|done]. intros H. apply Hnext in E. apply IH in H. lia.
Qed.

Lemma iter_next_last m : forall p q, iter_next next (S m) p = Some q ->
  exists x, iter_next next m p = Some x /\ next x = Some q.
Proof.
  induction m as [|m IH]; intros p q H; cbn in H |- *.
  - exists p. destruct (next p) as [x|]; [|done]. by injection H as ->.
  - destruct (next p) as [x|]; [|done]. by apply IH in H.
Qed.

Lemma iter_next_mono m j p x q : (j < m)%nat -> iter_next next m p = Some q -> iter_next next j p = Some x -> (x < q)%nat.
Proof using Hnext.
  revert j p. induction m as [|m IH]; intros j p Hj Hm Hx; [lia|].
  destruct j as [|j].
  - injection Hx as <-. apply iter_next_le in Hm. lia.
  - cbn in *. destruct (next p) as [y|]; [|done]. eapply IH; [|done..]. lia.
Qed.

(** The positions of a walk, the last one apart. *)
Lemma reach_last m : forall p q, iter_next next (S m) p = Some q ->
  reach next (S m) p = reach next m p ++ [q].
Proof.
  induction m as [|m IH]; intros p q H; cbn in H |- *.
  - destruct (next p) as [x|]; [|done]. by injection H as ->.
  - destruct (next p) as [x|]; [|done]. cbn in IH. by rewrite (IH x q H).
Qed.

(** A walk stops after [m] steps. *)
Lemma reach_stop n : forall p, exists m q, (m <= n)%nat /\ iter_next next m p = Some q /\
  reach next n p = reach next m p /\ (m = n \/ next q = None).
Proof.
  induction n as [|n IH]; intros p; [by exists 0%nat, p; auto|]. cbn.
  destruct (next p) as [x|] eqn:E.
  - destruct (IH x) as (m & q & Hm & Hi & Hr & Hs). exists (S m), q. cbn. rewrite E, Hr.
    repeat split; [lia|done|]. destruct Hs as [->|]; auto.
  - exists 0%nat, p. repeat split; [lia|auto].
Qed.

(** Enough steps. *)
Lemma reach_enough len n n' p : (forall x y, next x = Some y -> (x < len)%nat) ->
  (len < p + n)%nat -> (len < p + n')%nat -> reach next n p = reach next n' p.
Proof using Hnext.
  intros Hl. revert n' p. induction n as [|n IH]; intros n' p Hn Hn'; cbn.
  - destruct n' as [|n']; cbn; [done|]. destruct (next p) as [q|] eqn:E; [|done]. apply Hl in E. lia.
  - destruct n' as [|n']; cbn; (destruct (next p) as [q|] eqn:E; [|done]).
    + apply Hl in E. lia.
    + apply Hnext in E. f_equal. apply IH; lia.
Qed.

Lemma reach_elem x m : forall p, x ∈ reach next m p -> exists j, (j <= m)%nat /\ iter_next next j p = Some x.
Proof.
  induction m as [|m IH]; intros p H; cbn in H.
  - apply list_elem_of_singleton in H as ->. by exists 0%nat.
  - apply elem_of_cons in H as [->|H]; [by exists 0%nat; split; [lia|]|].
    destruct (next p) as [q|] eqn:E; [|by apply elem_of_nil in H].
    apply IH in H as (j & Hj & Hi). exists (S j). split; [lia|]. cbn. by rewrite E.
Qed.

End next.

(** What is left to try of a greedy choice: the shorter walks, the longest first. *)
Definition shorter (next : nat -> option nat) (m p : nat) : list nat :=
  match m with O => [] | S m => rev (reach next m p) end.

Lemma shorter_last next m p q : iter_next next m p = Some q -> rev (reach next m p) = q :: shorter next m p.
Proof.
  destruct m as [|m]; [by intros [= ->]|]. intros H. rewrite (reach_last next m p q H).
  by rewrite rev_app_distr.
Qed.

Lemma shorter_elem next m p x : x ∈ shorter next m p -> exists j, (j < m)%nat /\ iter_next next j p = Some x.
Proof.
  destruct m as [|m]; cbn; [by intros ?%elem_of_nil|]. rewrite list_elem_of_In, <- in_rev, <- list_elem_of_In.
  intros (j & Hj & Hi)%reach_elem. exists j. split; [lia|done].
Qed.

(** Skipping what [f] finds nothing at. *)
Lemma shorter_skip {A} next (f : nat -> list A) p j : forall m, (j <= m)%nat ->
  (exists q, iter_next next m p = Some q) ->
  (forall i x, (j <= i < m)%nat -> iter_next next i p = Some x -> f x = []) ->
  flat_map f (shorter next m p) = flat_map f (shorter next j p).
Proof.
  induction m as [|m IH]; intros Hj [q Hq] Hf; [by replace j with 0%nat by lia|].
  destruct (decide (j = S m)) as [->|Hne]; [done|]. apply iter_next_last in Hq as (x & Hx & _).
  cbn [shorter]. rewrite (shorter_last _ _ _ x Hx). cbn. rewrite (Hf m x) by first [lia|done]. cbn.
  apply IH; [lia|by exists x|]. intros i y Hi. apply Hf. lia.
Qed.

Lemma rposition_spec units c lo n : (lo + n <= length units)%nat ->
  match rposition units c lo n with
  | Some q => (lo <= q < lo + n)%nat /\ units !! q = Some c /\
      forall x, (q < x < lo + n)%nat -> units !! x <> Some c
  | None => forall x, (lo <= x < lo + n)%nat -> units !! x <> Some c
  end.
Proof.
  induction n as [|n IH]; intros Hl; cbn; [intros; lia|].
  destruct (lookup_lt_is_Some_2 units (lo + n)) as [u Eu]; [lia|]. rewrite Eu.
  destruct (Z.eqb_spec u c) as [->|Hne]; [split; [lia|]; split; [done|]; intros; lia|].
  assert (Hx : forall x, x = (lo + n)%nat -> units !! x <> Some c) by (intros x ->; congruence).
  specialize (IH ltac:(lia)). destruct (rposition units c lo n) as [q|].
  - destruct IH as (H1 & H2 & H3). split; [lia|]. split; [done|]. intros x Hq.
    destruct (decide (x = (lo + n)%nat)); [auto|apply H3; lia].
  - intros x Hq. destruct (decide (x = (lo + n)%nat)); [auto|apply IH; lia].
Qed.

Lemma saturate_bounds x : 0 <= x -> 0 <= saturate x <= U64_MAX /\ (saturate x = x \/ saturate x = U64_MAX /\ U64_MAX <= x).
Proof. intros Hx. unfold saturate, U64_MAX in *. lia. Qed.

Section LinRun.
Context `{U : UnicodeData}.
Context (prog : list Inst) (units : list Z) (flags : Flags) (sets : list CharSet).
Abbreviation uni := (unicode flags).
Abbreviation next_of k := (next_in units flags (holds prog flags sets k)).
Abbreviation paths l p sv := (step_runs prog units flags put_raw sets l p sv).

Lemma next_of_lt k p q : next_of k p = Some q -> (p < q)%nat.
Proof. intros H. apply next_in_forward in H. tauto. Qed.

Lemma next_of_in k p q : next_of k p = Some q -> (p < length units)%nat.
Proof. intros H. apply next_in_forward in H. tauto. Qed.

Lemma next_of_le k p q : next_of k p = Some q -> (q <= length units)%nat.
Proof.
  unfold next_in. destruct (read uni units p) as [[c n]|] eqn:E; [|done]. case_match; [|done]. intros [= <-].
  unfold read in E. destruct (units !! p) as [u|] eqn:Eu; [|done]. apply lookup_lt_Some in Eu.
  destruct (uni && is_high_surrogate u); [|injection E as <- <-; lia].
  destruct (units !! S p) as [lo|] eqn:El; [|injection E as <- <-; lia]. apply lookup_lt_Some in El.
  destruct (is_low_surrogate lo); injection E as <- <-; lia.
Qed.

(** ** Facts about steps *)

Definition slots_of (l : list Step) : list nat := omap (fun s => match s with SSave n => Some n | _ => None end) l.

Fixpoint well_ended (l : list Step) : Prop :=
  match l with
  | [] => True
  | SMatch :: l => l = []
  | _ :: l => well_ended l
  end.

(** Slots written again by [l] may hold anything. *)
Definition agree (l : list Step) (sv sv' : list Z) : Prop :=
  length sv = length sv' /\ forall s, s ∉ slots_of l -> sv !! s = sv' !! s.

Lemma agree_put l s p sv sv' : agree (SSave s :: l) sv sv' -> agree l (put_raw s p sv) (put_raw s p sv').
Proof.
  intros [Hl H]. unfold put_raw. split; [by rewrite !length_insert|]. intros x Hx.
  destruct (decide (x = s)) as [->|Hne].
  - destruct (decide (s < length sv)%nat) as [Hs|Hs].
    + rewrite !list_lookup_insert_eq by lia. done.
    + rewrite !lookup_ge_None_2 by (rewrite ?length_insert; lia). done.
  - rewrite !list_lookup_insert_ne by done. apply H. cbn. rewrite elem_of_cons. naive_solver.
Qed.

Lemma agree_saved l s p sv : agree (SSave s :: l) sv (put_raw s p sv).
Proof.
  unfold put_raw. split; [by rewrite length_insert|]. intros x Hx. rewrite list_lookup_insert_ne; [done|].
  intros ->. apply Hx. cbn. by left.
Qed.

Lemma agree_weaken l l' sv sv' : (forall s, s ∈ slots_of l' -> s ∈ slots_of l) -> agree l' sv sv' -> agree l sv sv'.
Proof. intros Hs [H1 H2]. split; [done|]. intros s Hn. apply H2. auto. Qed.

Lemma agree_runs l : well_ended l -> forall p sv sv', agree l sv sv' -> l <> [] ->
  paths l p sv = paths l p sv'.
Proof.
  induction l as [|s l IH]; intros Hw p sv sv' Ha Hn; [done|].
  assert (Hrest : forall p sv sv', agree l sv sv' -> well_ended l -> paths l p sv = paths l p sv').
  { intros p' a b Hab Hwl. destruct l as [|s' l]; [|by apply IH]. cbn. f_equal. f_equal.
    destruct Hab as [_ H]. apply list_eq. intros x. apply H. cbn. apply not_elem_of_nil. }
  destruct s; cbn -[assert_ok rep_ends]; cbn in Hw.
  - apply Hrest; [by apply agree_put|done].
  - destruct (units !! p) as [v|]; [|done]. destruct (v =? u); [by apply Hrest|done].
  - destruct (next_of set p); [by apply Hrest|done].
  - apply flat_map_ext. intros q. by apply Hrest.
  - destruct (ASSERTS !! index); [|done]. destruct (assert_ok _ _ _ _) as [[]|]; [by apply Hrest|done..].
  - subst l. f_equal. f_equal. destruct Ha as [_ H]. apply list_eq. intros x. apply H. cbn. apply not_elem_of_nil.
Qed.

(** The literal after a quantifier. *)
Lemma literal_blocks l c p (sv : list Z) : next_literal l = Some c -> units !! p <> Some c -> paths l p sv = [].
Proof.
  revert sv. induction l as [|s l IH]; intros sv Hn Hp; [done|]. destruct s; cbn in Hn |- *; try done.
  - by apply IH.
  - injection Hn as ->. destruct (units !! p) as [v|]; [|done]. destruct (Z.eqb_spec v c) as [->|]; [done|done].
Qed.

(** ** One attempt *)

Section attempt.
Context (steps : list Step) (slots cap : nat) (budget : Z).

(** What [build] makes sure of. *)
Record good_steps : Prop := {
  gs_ended : well_ended steps;
  gs_last : exists body, steps = body ++ [SMatch];
  gs_steps : Forall (step_ok prog flags (length sets)) steps;
  gs_slots : forall s, s ∈ slots_of steps -> (s < slots)%nat;
  gs_cap : (count_reps steps <= cap)%nat;
  gs_next : forall i k max c, steps !! i = Some (SRep k max true (Some c)) ->
    next_literal (drop (S i) steps) = Some c
}.
Context (Hgood : good_steps).

Lemma gs_nonempty i s : steps !! i = Some s -> is_smatch s = false -> drop (S i) steps <> [].
Proof using Hgood.
  intros Hi Hs Hd. destruct (gs_last Hgood) as [body E].
  assert (H : length (drop (S i) steps) = 0%nat) by by rewrite Hd. rewrite length_drop in H.
  assert (Hlt : (i < length steps)%nat) by by eapply lookup_lt_Some.
  rewrite E, length_app in H, Hlt. cbn in H, Hlt. rewrite E, lookup_app_r in Hi by lia.
  replace (i - length body)%nat with 0%nat in Hi by lia. by injection Hi as <-.
Qed.

Lemma well_ended_drop i : forall l, well_ended l -> well_ended (drop i l).
Proof.
  induction i as [|i IH]; intros [|s l] H; [done..|]. cbn [drop]. apply IH. destruct s; cbn in H; try done. by subst l.
Qed.

Lemma slots_drop i j s : (i <= j)%nat -> s ∈ slots_of (drop j steps) -> s ∈ slots_of (drop i steps).
Proof.
  intros Hij H. replace j with (i + (j - i))%nat in H by lia. rewrite <- drop_drop in H.
  unfold slots_of in *. rewrite <- (take_drop (j - i) (drop i steps)). rewrite omap_app. apply elem_of_app. by right.
Qed.

Lemma slots_of_in i s : s ∈ slots_of (drop i steps) -> (s < slots)%nat.
Proof using Hgood. intros H. apply (gs_slots Hgood). apply (slots_drop 0 i) in H; [|lia]. by rewrite drop_0 in H. Qed.

(** What is left to try after a choice. *)
Inductive alts (ch : Choice) : list nat -> Prop :=
  | alts_greedy k max nu m p :
      steps !! c_step ch = Some (SRep k max true nu) -> c_bound ch = Z.of_nat p ->
      iter_next (next_of k) m p = Some (c_cur ch) -> alts ch (shorter (next_of k) m p)
  | alts_lazy k max nu L :
      steps !! c_step ch = Some (SRep k max false nu) ->
      0 <= c_bound ch -> reach (next_of k) (Z.to_nat (c_bound ch)) (c_cur ch) = c_cur ch :: L -> alts ch L.

(** The runs a stack of choices leaves, below the step [i]. *)
Inductive pending : nat -> list Choice -> list Z -> list (nat * list Z) -> Prop :=
  | pending_nil i sv : pending i [] sv []
  | pending_cons i ch below sv L rest :
      (c_step ch < i)%nat -> alts ch L -> (c_cur ch <= length units)%nat ->
      pending (c_step ch) below sv rest ->
      pending i (ch :: below) sv (flat_map (fun q => paths (drop (S (c_step ch)) steps) q sv) L ++ rest).

Lemma alts_rep ch L : alts ch L -> exists k max greedy nu, steps !! c_step ch = Some (SRep k max greedy nu).
Proof. intros []; eauto. Qed.

Lemma pending_le i j stack sv rest : (i <= j)%nat -> pending i stack sv rest -> pending j stack sv rest.
Proof. intros Hij H. destruct H; constructor; try done. lia. Qed.

Lemma pending_agree i stack sv rest : pending i stack sv rest -> forall sv', agree (drop i steps) sv sv' ->
  pending i stack sv' rest.
Proof using Hgood.
  induction 1 as [|i ch below sv L rest Hi Ha Hc Hp IH]; intros sv' Hag; [constructor|].
  destruct (alts_rep _ _ Ha) as (k & max & greedy & nu & Hs).
  assert (Hag' : agree (drop (S (c_step ch)) steps) sv sv').
  { eapply agree_weaken; [|exact Hag]. intros s. by apply slots_drop. }
  assert (E : forall q, paths (drop (S (c_step ch)) steps) q sv = paths (drop (S (c_step ch)) steps) q sv').
  { intros q. apply agree_runs; [apply well_ended_drop, Hgood|done|by eapply gs_nonempty]. }
  erewrite flat_map_ext by exact E. constructor; [done..|]. apply IH.
  eapply agree_weaken; [|exact Hag']. intros s. apply slots_drop. lia.
Qed.

Lemma count_reps_app l l' : count_reps (l ++ l') = (count_reps l + count_reps l')%nat.
Proof. unfold count_reps. by rewrite List.filter_app, length_app. Qed.

Lemma count_reps_before i s : steps !! i = Some s ->
  count_reps (take (S i) steps) = (count_reps (take i steps) + (if is_rep s then 1 else 0))%nat.
Proof. intros H. rewrite (take_S_r _ _ _ H), count_reps_app. unfold count_reps at 2. cbn. by destruct (is_rep s). Qed.

Lemma count_reps_take i j : (i <= j)%nat -> (count_reps (take i steps) <= count_reps (take j steps))%nat.
Proof.
  intros Hij. replace (take i steps) with (take i (take j steps)) by (rewrite take_take; f_equal; lia).
  rewrite <- (take_drop i (take j steps)) at 2. rewrite count_reps_app. lia.
Qed.

Lemma pending_depth i stack sv rest : pending i stack sv rest -> (length stack <= count_reps (take i steps))%nat.
Proof.
  induction 1 as [|i ch below sv L rest Hi Ha Hc Hp IH]; cbn; [lia|].
  destruct (alts_rep _ _ Ha) as (k & max & greedy & nu & Hs). apply count_reps_before in Hs. cbn in Hs.
  pose proof (count_reps_take (S (c_step ch)) i ltac:(lia)). lia.
Qed.

Lemma push_ok i s stack sv rest ch : pending i stack sv rest -> steps !! i = Some s -> is_rep s = true ->
  push cap ch stack = Some (ch :: stack).
Proof using Hgood.
  intros Hp Hs Hr. apply pending_depth in Hp. apply count_reps_before in Hs. rewrite Hr in Hs. cbn iota in Hs.
  pose proof (count_reps_take (S i) (length steps + S i) ltac:(lia)) as H. rewrite (take_ge _ (length steps + S i)) in H by lia.
  pose proof (gs_cap Hgood). unfold push. destruct (Nat.ltb_spec (length stack) cap); [done|lia].
Qed.

(** ** Forward over the steps *)

Lemma read_has k p : (forall set, sets !! k = Some set ->
  match read uni units p with Some (c, n) => if set_has set c prog flags then Some n else None | None => None end = next_of k p).
Proof.
  intros set Hk. unfold next_in, holds. rewrite Hk. done.
Qed.

Lemma take_chars_walk k set : sets !! k = Some set -> uni = true -> forall fuel left p,
  (length units < p + fuel)%nat -> exists m, iter_next (next_of k) m p = Some (take_chars prog units flags set left p fuel) /\
    Z.of_nat m <= Z.max 0 left /\
    (Z.of_nat m = Z.max 0 left \/ next_of k (take_chars prog units flags set left p fuel) = None).
Proof.
  intros Hk Hu fuel. induction fuel as [|fuel IH]; intros left p Hf; cbn [take_chars].
  - exists 0%nat. split; [done|]. split; [lia|]. right. destruct (next_of k p) eqn:E; [|done].
    apply next_of_in in E. lia.
  - pose proof (read_has k p set Hk) as Hr. rewrite Hu in Hr.
    destruct (Z.ltb_spec 0 left) as [Hl|Hl].
    2:{ exists 0%nat. split; [done|]. split; [lia|]. left. lia. }
    destruct (read true units p) as [[c n]|]; [|exists 0%nat; split; [done|]; split; [lia|by right]].
    destruct (set_has set c prog flags); [|exists 0%nat; split; [done|]; split; [lia|by right]].
    symmetry in Hr. pose proof (next_of_lt _ _ _ Hr).
    destruct (IH (left - 1) n ltac:(lia)) as (m & Hm & Hle & Hs). exists (S m). cbn [iter_next]. rewrite Hr.
    split; [done|]. split; [lia|]. destruct Hs as [Hs|Hs]; [left; lia|by right].
Qed.

Lemma next_of_unit k set p : sets !! k = Some set -> uni = false ->
  next_of k p = match units !! p with Some u => if set_has set u prog flags then Some (S p) else None | None => None end.
Proof.
  intros Hk Hu. rewrite <- (read_has k p set Hk). unfold read. rewrite Hu. by destruct (units !! p).
Qed.

Lemma take_units_walk k set limit : sets !! k = Some set -> uni = false -> forall fuel p,
  (limit < p + fuel)%nat -> exists m, iter_next (next_of k) m p = Some (take_units prog units flags set limit p fuel) /\
    (p + m <= Nat.max p limit)%nat /\ take_units prog units flags set limit p fuel = (p + m)%nat /\
    ((p + m = Nat.max p limit)%nat \/ next_of k (take_units prog units flags set limit p fuel) = None).
Proof.
  intros Hk Hu fuel. induction fuel as [|fuel IH]; intros p Hf; cbn [take_units].
  - exists 0%nat. split; [done|]. split; [lia|]. split; [lia|]. left. lia.
  - pose proof (next_of_unit k set p Hk Hu) as Hr.
    destruct (Nat.ltb_spec p limit) as [Hl|Hl].
    2:{ exists 0%nat. split; [done|]. split; [lia|]. split; [lia|]. left. lia. }
    destruct (units !! p) as [u|]; [|exists 0%nat; split; [done|]; split; [lia|]; split; [lia|by right]].
    destruct (set_has set u prog flags); [|exists 0%nat; split; [done|]; split; [lia|]; split; [lia|by right]].
    destruct (IH (S p) ltac:(lia)) as (m & Hm & Hle & He & Hs). exists (S m). cbn [iter_next]. rewrite Hr.
    split; [done|]. split; [lia|]. split; [lia|]. destruct Hs as [Hs|Hs]; [left; lia|by right].
Qed.

Lemma reach_stopped next m : forall n p q, (m <= n)%nat -> iter_next next m p = Some q ->
  (m = n \/ next q = None) -> reach next n p = reach next m p.
Proof.
  induction m as [|m IH]; intros n p q Hn Hi Hs; cbn in Hi.
  - injection Hi as <-. destruct n as [|n]; [done|]. destruct Hs as [?|Hs]; [lia|]. cbn. by rewrite Hs.
  - destruct n as [|n]; [lia|]. cbn. destruct (next p) as [x|]; [|done].
    rewrite (IH n x q); [done|lia|done|]. destruct Hs; [left; lia|by right].
Qed.

Lemma drop_cons i s sfx : drop i steps = s :: sfx -> steps !! i = Some s /\ drop (S i) steps = sfx.
Proof.
  intros Hd. split.
  - replace i with (i + 0)%nat by lia. rewrite <- lookup_drop, Hd. done.
  - replace (S i) with (i + 1)%nat by lia. by rewrite <- drop_drop, Hd.
Qed.

Context (Hlen : Z.of_nat (length units) < USIZE_MAX).

(** The greedy loop goes to the end of the longest walk. *)
Lemma take_greedy_walk k set max p : sets !! k = Some set -> (p <= length units)%nat ->
  exists m, iter_next (next_of k) m p = Some (take_greedy prog units flags set max p) /\
    reach (next_of k) (rep_count units max) p = reach (next_of k) m p.
Proof using Hlen.
  intros Hk Hp. unfold take_greedy, rep_count. destruct (unicode flags) eqn:Hu.
  - edestruct (take_chars_walk k set Hk Hu (S (length units))) as (m & Hm & Hle & Hs); [|exists m; split; [exact Hm|]]; [lia|].
    pose proof (iter_next_le _ (next_of_lt k) _ _ _ Hm) as Hq.
    destruct max as [x|].
    + eapply reach_stopped; [|exact Hm|]; [lia|]. destruct Hs as [Hs|Hs]; [left; lia|by right].
    + assert (Hmu : (m <= length units)%nat).
      { destruct m as [|m]; [lia|]. apply iter_next_last in Hm as (x & Hx & Hn). apply next_of_in in Hn.
        apply iter_next_le in Hx; [lia|apply next_of_lt]. }
      eapply reach_stopped; [|exact Hm|]; [lia|]. destruct Hs as [Hs|Hs]; [lia|by right].
  - edestruct (take_units_walk k set (match max with Some m => Nat.min (length units) (p + m) | None => length units end)
      Hk Hu (S (length units)) p) as (m & Hm & Hle & He & Hs); [|exists m; split; [exact Hm|]].
    { destruct max; lia. }
    assert (Hend : forall q, (length units <= q)%nat -> next_of k q = None).
    { intros q Hq. destruct (next_of k q) eqn:E; [|done]. apply next_of_in in E. lia. }
    eapply reach_stopped; [|exact Hm|].
    + destruct max; lia.
    + destruct Hs as [Hs|Hs]; [|by right]. rewrite He. destruct max as [x|].
      * destruct (decide (m = x)) as [->|]; [by left|]. right. apply Hend. lia.
      * right. apply Hend. lia.
Qed.

(** ** Back over a walk *)

Definition is_hi (x : nat) : bool := match units !! x with Some u => is_high_surrogate u | None => false end.
Definition is_lo (x : nat) : bool := match units !! x with Some u => is_low_surrogate u | None => false end.

Lemma hi_not_lo x : is_hi x = true -> is_lo x = false.
Proof.
  unfold is_hi, is_lo. destruct (units !! x) as [u|]; [|done]. intros H%in_range_true.
  apply in_range_false. lia.
Qed.

Lemma next_shape k x q : next_of k x = Some q ->
  (q = S x /\ (uni && is_hi x && is_lo (S x)) = false) \/ (q = S (S x) /\ uni = true /\ is_hi x = true /\ is_lo (S x) = true).
Proof.
  unfold next_in, is_hi, is_lo. destruct (read uni units x) as [[c n]|] eqn:E; [|done]. case_match; [|done]. intros [= <-].
  unfold read in E. destruct (units !! x) as [u|]; [|done].
  destruct (unicode flags); cbn [andb] in *; [|left; by injection E as <- <-].
  destruct (is_high_surrogate u); [|left; by injection E as <- <-].
  destruct (units !! S x) as [lo|]; [|left; by injection E as <- <-].
  destruct (is_low_surrogate lo); injection E as <- <-; [right|left]; repeat split. lia.
Qed.

(** A position inside a walk that is not a trail surrogate is on it. *)
Lemma walk_meets k q m : forall p cur, iter_next (next_of k) m p = Some cur -> (p <= q < cur)%nat ->
  (uni = true -> is_lo q = false) -> exists j, (j < m)%nat /\ iter_next (next_of k) j p = Some q.
Proof.
  induction m as [|m IH]; intros p cur Hi Hq Hlo; cbn in Hi; [injection Hi as <-; lia|].
  destruct (next_of k p) as [x|] eqn:E; [|done].
  destruct (decide (q = p)) as [->|Hne]; [exists 0%nat; split; [lia|done]|].
  assert (Hx : (x <= q)%nat).
  { apply next_shape in E as [[-> _]|(-> & Hu & _ & Hl)]; [lia|]. specialize (Hlo Hu).
    destruct (decide (q = S p)) as [->|]; [congruence|lia]. }
  destruct (IH x cur Hi ltac:(lia) Hlo) as (j & Hj & Hij). exists (S j). split; [lia|]. cbn. by rewrite E.
Qed.

Lemma back_one k m p cur : iter_next (next_of k) m p = Some cur -> cur <> p ->
  exists j, m = S j /\ iter_next (next_of k) j p = back_off units flags None cur p.
Proof.
  intros Hi Hne. destruct m as [|m]; [by injection Hi as ->|]. exists m. split; [done|].
  apply iter_next_last in Hi as (x & Hx & Hn). rewrite Hx. unfold back_off.
  pose proof (iter_next_le _ (next_of_lt k) _ _ _ Hx) as Hpx.
  fold (is_lo (cur - 1)). fold (is_hi (cur - 2)).
  apply next_shape in Hn as [[-> Hs]|(-> & Hu & Hh & Hl)].
  - replace (S x - 1)%nat with x by lia.
    match goal with |- context [if ?b then _ else _] => destruct b eqn:E end; [exfalso|done].
    rewrite !andb_true_iff in E. destruct E as (((Hu & Hle%Nat.leb_le) & Hlo) & Hhi).
    destruct m as [|m]; [injection Hx as <-; lia|]. apply iter_next_last in Hx as (y & Hy & Hn).
    apply next_shape in Hn as [[-> Hs']|(-> & _ & _ & Hl)].
    + replace (S (S y) - 2)%nat with y in Hhi by lia. by rewrite Hu, Hhi, Hlo in Hs'.
    + replace (S (S (S y)) - 2)%nat with (S y) in Hhi by lia. apply hi_not_lo in Hhi. congruence.
  - replace (S (S x) - 1)%nat with (S x) by lia. replace (S (S x) - 2)%nat with x by lia.
    rewrite Hu, Hl, Hh. destruct (Nat.leb_spec (p + 2) (S (S x))); [done|lia].
Qed.

(** The next position worth a try, and the walks it skips. *)
Lemma back_off_spec {A} (f : nat -> list A) k nu m p cur :
  iter_next (next_of k) m p = Some cur -> cur <> p -> (cur <= length units)%nat ->
  (forall c, nu = Some c -> uni = true -> in_range 0xD800 0xDFFF c = false) ->
  (forall c x, nu = Some c -> units !! x <> Some c -> f x = []) ->
  match back_off units flags nu cur p with
  | Some q => exists j, (j < m)%nat /\ iter_next (next_of k) j p = Some q /\
      flat_map f (shorter (next_of k) m p) = f q ++ flat_map f (shorter (next_of k) j p)
  | None => flat_map f (shorter (next_of k) m p) = []
  end.
Proof.
  intros Hi Hne Hcur Hsur Hf. pose proof (iter_next_le _ (next_of_lt k) _ _ _ Hi) as Hpc.
  assert (Hcase : forall j q, (j < m)%nat -> iter_next (next_of k) j p = Some q ->
    (forall i x, (S j <= i < m)%nat -> iter_next (next_of k) i p = Some x -> f x = []) ->
    flat_map f (shorter (next_of k) m p) = f q ++ flat_map f (shorter (next_of k) j p)).
  { intros j q Hj Hq Hs. rewrite (shorter_skip (next_of k) f p (S j)); [|lia|by exists cur|done].
    cbn [shorter]. by rewrite (shorter_last _ _ _ q Hq). }
  destruct nu as [c|].
  - unfold back_off. pose proof (rposition_spec units c p (cur - p) ltac:(lia)) as H.
    destruct (rposition units c p (cur - p)) as [q|].
    + destruct H as (H1 & H2 & H3). destruct (walk_meets k q m p cur Hi ltac:(lia)) as (j & Hj & Hq).
      { intros Hu. unfold is_lo. rewrite H2. specialize (Hsur c eq_refl Hu).
        apply in_range_false in Hsur. apply in_range_false. lia. }
      exists j. split; [done|]. split; [done|]. apply Hcase; [done..|]. intros i x Hij Hx.
      apply (Hf c); [done|]. apply H3. split.
      * eapply iter_next_mono; [apply next_of_lt| |exact Hx|exact Hq]. lia.
      * pose proof (iter_next_mono _ (next_of_lt k) m i p x cur ltac:(lia) Hi Hx). lia.
    + rewrite (shorter_skip (next_of k) f p 0); [done|lia|by exists cur|]. intros i x Hij Hx.
      apply (Hf c); [done|]. apply H. split.
      * apply iter_next_le in Hx; [lia|apply next_of_lt].
      * pose proof (iter_next_mono _ (next_of_lt k) m i p x cur ltac:(lia) Hi Hx). lia.
  - apply back_one in Hi as Hb; [|done]. destruct Hb as (j & -> & Hb).
    assert (Hx : exists q, back_off units flags None cur p = Some q).
    { unfold back_off. destruct (_ && _); by eexists. }
    destruct Hx as [q Hq]. rewrite Hq in *. exists j. split; [lia|]. split; [done|]. apply Hcase; [lia|done|]. intros; lia.
Qed.

Lemma literal_in l c : next_literal l = Some c -> SUnit c ∈ l.
Proof.
  induction l as [|s l IH]; [done|]. destruct s; cbn; try done.
  - intros H. right. by apply IH.
  - intros [= ->]. by left.
Qed.

Lemma next_not_surrogate i k max c : steps !! i = Some (SRep k max true (Some c)) -> uni = true ->
  in_range 0xD800 0xDFFF c = false.
Proof using Hgood.
  intros Hi Hu. apply (gs_next Hgood), literal_in in Hi. apply elem_of_drop_in in Hi.
  pose proof (gs_steps Hgood) as HF. rewrite Forall_forall in HF. apply list_elem_of_In, HF in Hi. cbn in Hi. tauto.
Qed.

Lemma next_blocks i k max c p sv : steps !! i = Some (SRep k max true (Some c)) -> units !! p <> Some c ->
  paths (drop (S i) steps) p sv = [].
Proof using Hgood. intros Hi Hp. apply (gs_next Hgood) in Hi. by eapply literal_blocks. Qed.

(** How far a forward run gets. *)
Definition advanced (a : Advance) (runs : list (nat * list Z)) (work : Z) : Prop :=
  match a with
  | AMatch sv' _ => exists q, head runs = Some (q, sv')
  | AFail sv' stack' work' => exists i', pending i' stack' sv' runs /\ length sv' = slots /\ work <= work'
  | ACrash => False
  end.

Lemma advanced_le a runs work work' : work <= work' -> advanced a runs work' -> advanced a runs work.
Proof. destruct a; cbn; [done| |done]. intros Hw (i & H1 & H2 & H3). exists i. repeat split; [done|done|lia]. Qed.

(** The walks of a greedy step, a choice on the stack for those still to be tried. *)
Lemma push_greedy i k max nu stack sv rest p j q : steps !! i = Some (SRep k max true nu) ->
  pending i stack sv rest -> (p <= length units)%nat -> iter_next (next_of k) j p = Some q ->
  (q <= length units)%nat /\ exists stack', push cap (MkChoice i q (Z.of_nat p)) stack = Some stack' /\
    pending (S i) stack' sv (flat_map (fun q => paths (drop (S i) steps) q sv) (shorter (next_of k) j p) ++ rest).
Proof using Hgood.
  intros Hi Hp Hpos Hj. assert (Hq : (q <= length units)%nat).
  { destruct j as [|j]; [by injection Hj as <-|]. apply iter_next_last in Hj as (x & _ & Hx). by apply next_of_le in Hx. }
  split; [done|]. set (ch := MkChoice i q (Z.of_nat p)). exists (ch :: stack).
  split; [by eapply push_ok|]. apply (pending_cons (S i) ch); [cbn; lia| |done|done].
  by apply (alts_greedy ch k max nu).
Qed.

(** The walks of a lazy step. *)
Lemma push_lazy i k max nu stack sv rest p : steps !! i = Some (SRep k max false nu) ->
  pending i stack sv rest -> (p <= length units)%nat ->
  exists stack' L, push cap (MkChoice i p (match max with Some m => Z.of_nat m | None => USIZE_MAX end)) stack = Some stack' /\
    reach (next_of k) (rep_count units max) p = p :: L /\
    pending (S i) stack' sv (flat_map (fun q => paths (drop (S i) steps) q sv) L ++ rest).
Proof using Hgood Hlen.
  intros Hi Hp Hpos. set (ch := MkChoice i p (match max with Some m => Z.of_nat m | None => USIZE_MAX end)).
  set (n := Z.to_nat (c_bound ch)).
  assert (E : reach (next_of k) (rep_count units max) p = reach (next_of k) n p).
  { unfold n, ch. cbn [c_bound]. destruct max as [x|]; [by rewrite Nat2Z.id|].
    apply (reach_enough _ (next_of_lt k) (length units)).
    - intros x y. apply next_of_in.
    - cbn. lia.
    - lia. }
  assert (E' : exists L, reach (next_of k) n p = p :: L) by (clear; destruct n; cbn; by eexists).
  destruct E' as [L E']. exists (ch :: stack), L. split; [by eapply push_ok|]. split; [by rewrite E|].
  apply (pending_cons (S i) ch); [cbn; lia| |done|done].
  apply (alts_lazy ch k max nu); [done| |exact E']. cbn. destruct max; [lia|done].
Qed.

(** Where a greedy step stops: at the end of its walk, or at the last position the
    literal behind it can begin at. *)
Definition greedy_stop (nu : option Z) (p q : nat) : option nat :=
  match nu with
  | Some c => if match units !! q with Some u => u =? c | None => false end then Some q else rposition units c p (q - p)
  | None => Some q
  end.

Lemma greedy_stop_spec i k max nu m p q sv : steps !! i = Some (SRep k max true nu) ->
  iter_next (next_of k) m p = Some q -> (q <= length units)%nat ->
  let f := fun q => paths (drop (S i) steps) q sv in
  match greedy_stop nu p q with
  | Some q' => exists j, iter_next (next_of k) j p = Some q' /\
      flat_map f (rev (reach (next_of k) m p)) = f q' ++ flat_map f (shorter (next_of k) j p)
  | None => flat_map f (rev (reach (next_of k) m p)) = []
  end.
Proof using Hgood.
  intros Hi Hm Hq f. rewrite (shorter_last _ _ _ q Hm). cbn [flat_map]. unfold greedy_stop.
  destruct nu as [c|]; [|by exists m].
  destruct (match units !! q with Some u => u =? c | None => false end) eqn:Ec; [by exists m|].
  assert (Hfq : f q = []).
  { unfold f. eapply next_blocks; [exact Hi|]. intros E. rewrite E in Ec. by rewrite Z.eqb_refl in Ec. }
  rewrite Hfq. cbn [app]. destruct (decide (q = p)) as [->|Hne].
  { rewrite Nat.sub_diag. cbn [rposition]. destruct m as [|m]; [done|].
    apply iter_next_le in Hm; [lia|apply next_of_lt]. }
  pose proof (back_off_spec f k (Some c) m p q Hm Hne Hq
    ltac:(intros ? [= <-] Hu; by eapply next_not_surrogate)
    ltac:(intros ? x [= <-] Hx; by eapply next_blocks)) as HB.
  cbn [back_off] in HB. destruct (rposition units c p (q - p)) as [q'|]; [|done].
  destruct HB as (j & _ & Hj & E). by exists j.
Qed.

Lemma advance_runs sfx : sfx <> [] -> forall i p sv stack work rest,
  drop i steps = sfx -> pending i stack sv rest -> (p <= length units)%nat -> length sv = slots ->
  advanced (advance sets prog units flags cap sfx i p sv stack work) (paths sfx p sv ++ rest) work.
Proof using Hgood Hlen.
  induction sfx as [|s sfx IH]; intros Hne i p sv stack work rest Hd Hp Hpos Hsv; [done|].
  destruct (drop_cons _ _ _ Hd) as [Hi Hd'].
  pose proof (gs_steps Hgood) as HF. rewrite Forall_forall in HF.
  pose proof (HF s ltac:(apply list_elem_of_In; by eapply list_elem_of_lookup_2)) as Hok.
  assert (Hfail : forall work', work <= work' -> paths (s :: sfx) p sv = [] ->
    advanced (AFail sv stack work') (paths (s :: sfx) p sv ++ rest) work).
  { intros work' Hw ->. exists i. by repeat split. }
  assert (Hgo : forall stack sv p work' rest', is_smatch s = false -> pending (S i) stack sv rest' ->
    (p <= length units)%nat -> length sv = slots -> work <= work' ->
    advanced (advance sets prog units flags cap sfx (S i) p sv stack work') (paths sfx p sv ++ rest') work).
  { intros stack' sv' p' work' rest' Hs Hp' Hpos' Hsv' Hw. eapply advanced_le; [exact Hw|].
    apply IH; [|done..]. rewrite <- Hd'. by eapply gs_nonempty. }
  assert (Hup : pending (S i) stack sv rest) by (eapply pending_le; [|exact Hp]; lia).
  specialize (Hfail work) as Hfail0. specialize (Hfail0 ltac:(lia)).
  destruct s; cbn -[assert_ok rep_ends take_greedy rposition]; cbn -[assert_ok rep_ends take_greedy] in Hfail, Hfail0, Hok.
  - assert (Hs : (slot < length sv)%nat).
    { rewrite Hsv. apply (slots_of_in i). rewrite Hd. cbn. by left. }
    destruct (lookup_lt_is_Some_2 sv slot Hs) as [x ->]. apply Hgo; [done| |done| |lia].
    + eapply pending_le; [|eapply pending_agree; [exact Hp|]]; [lia|]. rewrite Hd. apply agree_saved.
    + unfold put_raw. by rewrite length_insert.
  - destruct (units !! p) as [v|] eqn:Ev; [|by apply Hfail0]. apply lookup_lt_Some in Ev.
    destruct (v =? u); [|by apply Hfail0]. apply Hgo; [done..|lia|done|lia].
  - destruct (lookup_lt_is_Some_2 sets set Hok) as [cs Hcs]. rewrite Hcs.
    pose proof (read_has set p cs Hcs) as Hr. destruct (read uni units p) as [[c n]|].
    + destruct (set_has cs c prog flags); rewrite <- Hr in Hfail0 |- *; [|by apply Hfail0].
      symmetry in Hr. apply next_of_le in Hr. by apply Hgo; [..|lia].
    + rewrite <- Hr in Hfail0 |- *. by apply Hfail0.
  - destruct (lookup_lt_is_Some_2 sets set Hok) as [cs Hcs]. rewrite Hcs. unfold rep_ends in *. subst sfx. destruct greedy.
    + destruct (take_greedy_walk set cs max p Hcs Hpos) as (m & Hm & Hreach). rewrite Hreach in *.
      set (q := take_greedy prog units flags cs max p) in *. fold (greedy_stop next_unit p q).
      destruct (push_greedy i set max next_unit stack sv rest p m q Hi Hp Hpos Hm) as [Hq _].
      pose proof (greedy_stop_spec i set max next_unit m p q sv Hi Hm Hq) as HS. cbv zeta in HS.
      destruct (greedy_stop next_unit p q) as [q'|]; [|apply Hfail; [lia|exact HS]].
      destruct HS as (j & Hj & ->). rewrite <- app_assoc.
      destruct (push_greedy i set max next_unit stack sv rest p j q' Hi Hp Hpos Hj) as (Hq' & stack' & -> & Hp').
      apply Hgo; [done..|lia].
    + destruct (push_lazy i set max next_unit stack sv rest p Hi Hp Hpos) as (stack' & L & -> & -> & Hp').
      cbn [flat_map]. rewrite <- app_assoc. apply Hgo; [done..|lia].
  - destruct (lookup_lt_is_Some_2 ASSERTS index) as [a Ha]; [exact Hok|]. rewrite Ha in *.
    destruct (assert_ok_Some a units p flags Hpos) as [b Eb]. rewrite Eb in *.
    destruct b; [by apply Hgo; [..|lia]|by apply Hfail0].
  - cbn. by exists p.
Qed.

(** ** Back to a choice *)

Context (Hbudget : 0 <= budget < U64_MAX).

(** What is left to spend before the budget is checked. *)
Definition allowance (work used : Z) : Z := Z.max 0 (budget - used) + 4096 - work.

Definition retreated (sv : list Z) (rest : list (nat * list Z)) (work used : Z) (r : Retreat) : Prop :=
  match r with
  | Resume step cur stack work' used' =>
      (exists rest', pending (S step) stack sv rest' /\ rest = paths (drop (S step) steps) cur sv ++ rest' /\
        (cur <= length units)%nat /\ drop (S step) steps <> []) /\
      0 <= work' < 4096 /\ used <= used' <= U64_MAX /\ allowance work' used' < allowance work used
  | Exhausted used' => rest = [] /\ used <= used' <= budget
  | OverBudget used' => budget < used' <= U64_MAX
  | RCrash => False
  end.

Lemma retreated_later sv rest rest' work used work' used' r :
  rest' = rest -> used <= used' -> allowance work' used' < allowance work used ->
  retreated sv rest' work' used' r -> retreated sv rest work used r.
Proof.
  intros -> Hu Ha. destruct r; cbn; [|intros [-> H]; split; [done|lia]|done|done].
  intros (H1 & H2 & H3 & H4). split; [done|]. split; [done|]. split; lia.
Qed.

(** The flush of the work into the counter. *)
Lemma flush_spec work used : 0 <= work -> 0 <= used <= U64_MAX ->
  let '(w, u) := if 4096 <=? work + 1 then (0, saturate (used + (work + 1))) else (work + 1, used) in
  0 <= w < 4096 /\ used <= u <= U64_MAX /\
  ((w =? 0) && (budget <? u) = false -> allowance w u < allowance work used).
Proof using Hbudget.
  intros Hw Hu. unfold allowance. clear -Hbudget Hw Hu. destruct (Z.leb_spec 4096 (work + 1)).
  - destruct (saturate_bounds (used + (work + 1)) ltac:(lia)) as [H1 H2]. split; [lia|]. split; [lia|].
    cbn [Z.eqb andb]. intros Hb%Z.ltb_ge. destruct H2 as [H2|[H2 _]]; lia.
  - split; [lia|]. split; [lia|]. lia.
Qed.

Lemma choice_last_greedy k m p L : iter_next (next_of k) m p = Some p -> L = shorter (next_of k) m p -> L = [].
Proof.
  intros Hi ->. destruct m as [|m]; [done|]. apply iter_next_le in Hi; [lia|apply next_of_lt].
Qed.

Lemma retreat_spec : forall stack i sv rest work used,
  pending i stack sv rest -> 0 <= work -> 0 <= used <= U64_MAX ->
  retreated sv rest work used (retreat sets prog units flags budget steps stack work used).
Proof using Hgood Hbudget.
  induction stack as [|ch below IH]; intros i sv rest work used Hp Hw Hu; cbn [retreat].
  all: pose proof (flush_spec work used Hw Hu) as HF;
    destruct (if 4096 <=? work + 1 then _ else _) as [w u]; destruct HF as (Hw' & Hu' & HF);
    destruct ((w =? 0) && (budget <? u)) eqn:Eb;
    [apply andb_true_iff in Eb as [_ Eb%Z.ltb_lt]; cbn; lia|specialize (HF eq_refl)].
  - inversion Hp; subst. destruct (saturate_bounds (u + w) ltac:(lia)) as [H1 H2].
    destruct (Z.ltb_spec budget (saturate (u + w))); cbn; [lia|]. split; [done|]. lia.
  - inversion Hp as [|? ? ? ? L rest' Hi Ha Hc Hb]; subst. clear Hp.
    assert (Hskip : flat_map (fun q => paths (drop (S (c_step ch)) steps) q sv) L = [] ->
      retreated sv (flat_map (fun q => paths (drop (S (c_step ch)) steps) q sv) L ++ rest') work used
        (retreat sets prog units flags budget steps below w u)).
    { intros ->. eapply retreated_later; [..|eapply IH; [exact Hb|lia|lia]]; [done|lia|done]. }
    assert (Hback : forall cur L' bound, flat_map (fun q => paths (drop (S (c_step ch)) steps) q sv) L =
        paths (drop (S (c_step ch)) steps) cur sv ++ flat_map (fun q => paths (drop (S (c_step ch)) steps) q sv) L' ->
      alts (MkChoice (c_step ch) cur bound) L' -> (cur <= length units)%nat ->
      retreated sv (flat_map (fun q => paths (drop (S (c_step ch)) steps) q sv) L ++ rest') work used
        (Resume (c_step ch) cur (MkChoice (c_step ch) cur bound :: below) w u)).
    { intros cur L' bound E Ha' Hcur. split; [|lia]. eexists. split; [|split; [|split]].
      - apply (pending_cons (S (c_step ch)) (MkChoice (c_step ch) cur bound)); [cbn; lia|done..].
      - cbn [c_step]. by rewrite E, <- app_assoc.
      - done.
      - destruct (alts_rep _ _ Ha) as (k & max & greedy & nu & Hs). by eapply gs_nonempty. }
    destruct Ha as [k max nu m p Hs Ebd Hm|k max nu L Hs Hbd Hr]; rewrite Hs.
    + rewrite Ebd, Nat2Z.id. destruct (Z.eqb_spec (Z.of_nat (c_cur ch)) (Z.of_nat p)) as [E|Hne].
      { apply Hskip. assert (c_cur ch = p) as E' by lia. rewrite E' in Hm.
        by rewrite (choice_last_greedy k m p _ Hm eq_refl). }
      pose proof (back_off_spec (fun q => paths (drop (S (c_step ch)) steps) q sv) k nu m p (c_cur ch) Hm
        ltac:(lia) Hc) as HB.
      specialize (HB ltac:(intros c -> Hx; by eapply next_not_surrogate)
        ltac:(intros c x -> Hx; by eapply next_blocks)).
      destruct (back_off units flags nu (c_cur ch) p) as [q|]; [|by apply Hskip].
      destruct HB as (j & Hj & Hq & E). eapply Hback; [exact E| |].
      * by eapply alts_greedy.
      * pose proof (iter_next_mono _ (next_of_lt k) m j p q _ Hj Hm Hq). lia.
    + destruct (Z.eqb_spec (c_bound ch) 0) as [E|Hne].
      { apply Hskip. rewrite E in Hr. cbn in Hr. by injection Hr as <-. }
      destruct (Z.to_nat (c_bound ch)) as [|n] eqn:En; [lia|]. cbn in Hr.
      assert (HL : match next_of k (c_cur ch) with Some q => reach (next_of k) n q | None => [] end = L) by congruence.
      clear Hr. pose proof (gs_steps Hgood) as HF'. rewrite Forall_forall in HF'.
      pose proof (HF' _ ltac:(apply list_elem_of_In; by eapply list_elem_of_lookup_2)) as Hok. cbn in Hok.
      destruct (lookup_lt_is_Some_2 sets k Hok) as [cs Hcs]. rewrite Hcs.
      pose proof (read_has k (c_cur ch) cs Hcs) as Hrd. rewrite <- Hrd in HL.
      destruct (read uni units (c_cur ch)) as [[c q]|]; [|apply Hskip; by rewrite <- HL].
      destruct (set_has cs c prog flags); [|apply Hskip; by rewrite <- HL].
      assert (E' : exists L', reach (next_of k) n q = q :: L') by (clear; destruct n; cbn; by eexists).
      destruct E' as [L' E']. rewrite E' in HL. eapply (Hback q L').
      * by rewrite <- HL.
      * eapply alts_lazy; [exact Hs|cbn; lia|]. cbn [c_bound c_cur]. rewrite <- E'. f_equal. lia.
      * symmetry in Hrd. by apply next_of_le in Hrd.
Qed.

(** ** The whole attempt *)

Lemma run_loop_spec : forall fuel i p sv stack work used rest,
  allowance work used < Z.of_nat fuel -> 0 <= work < 4096 -> 0 <= used <= U64_MAX ->
  drop i steps <> [] -> pending i stack sv rest -> (p <= length units)%nat -> length sv = slots ->
  match run_loop sets prog units flags budget cap fuel steps i p sv stack work used with
  | LMatch sv' _ => exists q, head (paths (drop i steps) p sv ++ rest) = Some (q, sv')
  | LNoMatch sv' used' => paths (drop i steps) p sv ++ rest = [] /\ length sv' = slots /\ used <= used' <= budget
  | LAbort sv' used' => length sv' = slots /\ budget < used' <= U64_MAX
  | LCrash | LFuel => False
  end.
Proof using Hgood Hlen Hbudget.
  induction fuel as [|fuel IH]; intros i p sv stack work used rest Hf Hw Hu Hne Hp Hpos Hsv; cbn [run_loop].
  { unfold allowance in Hf. lia. }
  pose proof (advance_runs (drop i steps) Hne i p sv stack work rest eq_refl Hp Hpos Hsv) as HA.
  destruct (advance _ _ _ _ _ _ _ _ _ _ _) as [sv' work'|sv' stack' work'|]; cbn [advanced] in HA; [done| |done].
  destruct HA as (i' & Hp' & Hsv' & Hw'). set (all := paths (drop i steps) p sv ++ rest) in *.
  pose proof (retreat_spec stack' i' sv' all work' used Hp' ltac:(lia) Hu) as HR.
  destruct (retreat _ _ _ _ _ _ _ _ _) as [step cur stack2 work2 used2|used2|used2|]; cbn [retreated] in HR; [|naive_solver lia..].
  destruct HR as ((rest' & Hp2 & E & Hcur & Hne2) & Hw2 & Hu2 & Hal).
  assert (Hal' : allowance work' used <= allowance work used) by (unfold allowance; lia).
  specialize (IH (S step) cur sv' stack2 work2 used2 rest' ltac:(lia) Hw2 ltac:(lia) Hne2 Hp2 Hcur Hsv').
  rewrite E. destruct (run_loop _ _ _ _ _ _ _ _ _ _ _ _ _ _); try done.
  destruct IH as (H1 & H2 & H3). repeat split; [done|done|lia|lia].
Qed.

(** One attempt of the linear matcher finds the first run of its steps. *)
Lemma run_on_spec start sv used : 0 <= used <= U64_MAX -> (start <= length units)%nat -> length sv = slots ->
  match run_on sets prog units flags budget cap steps start sv used with
  | LMatch sv' _ => exists q, head (paths steps start (replicate slots USIZE_MAX)) = Some (q, sv')
  | LNoMatch sv' used' => paths steps start (replicate slots USIZE_MAX) = [] /\ length sv' = slots /\ used <= used' <= budget
  | LAbort sv' used' => length sv' = slots /\ budget < used' <= U64_MAX
  | LCrash | LFuel => False
  end.
Proof using Hgood Hlen Hbudget.
  intros Hu Hs Hsv. unfold run_on.
  assert (E : map (fun _ : Z => USIZE_MAX) sv = replicate slots USIZE_MAX).
  { rewrite <- Hsv. clear. induction sv; cbn; [done|]. by f_equal. }
  rewrite E. destruct (gs_last Hgood) as [body Eb].
  pose proof (run_loop_spec (Z.to_nat (budget + 4098)) 0 start (replicate slots USIZE_MAX) [] 0 used [])
    as H. rewrite drop_0, app_nil_r in H. apply H; [|lia|done| |constructor|done|by rewrite length_replicate].
  - unfold allowance. lia.
  - rewrite Eb. by destruct body.
Qed.

End attempt.

End LinRun.
