(* ===== verification/RegexLinFilter.v ===== *)
(** * What the filters of the linear matcher rule out

    The first step, the leading literal and the leading run of the branches: where
    they do not fit, no branch has a run. *)

From S2P Require Import Prelude Regex RegexComp RegexVm RegexSem RegexRun RegexScan RegexScanSpec.
From S2P Require Import RegexLinear RegexUnits RegexSteps RegexLinRun.

Open Scope Z_scope.

#[local] Arguments Nat.mul : simpl never.
#[local] Arguments Nat.add : simpl never.

(** ** Captures as raw words *)

Definition enc_slot (o : option nat) : Z := match o with Some n => Z.of_nat n | None => USIZE_MAX end.
Definition enc (sv : list (option nat)) : list Z := map enc_slot sv.

Lemma enc_put s p sv : enc (put_slot s p sv) = put_raw s p (enc sv).
Proof. unfold enc, put_slot, put_raw. apply (list_fmap_insert enc_slot). Qed.

Lemma enc_fresh n : enc (replicate n None) = replicate n USIZE_MAX.
Proof. unfold enc. by induction n as [|n IH]; cbn; [|f_equal]. Qed.

Section Filter.
Context `{U : UnicodeData}.
Context (prog : list Inst) (units : list Z) (flags : Flags) (sets : list CharSet).
Abbreviation uni := (unicode flags).
Abbreviation next_of k := (next_in units flags (holds prog flags sets k)).
Abbreviation steps_of put l p sv := (step_runs prog units flags put sets l p sv).

Lemma runs_enc l : forall p sv,
  steps_of put_raw l p (enc sv) = map (fun st => (st.1, enc st.2)) (steps_of put_slot l p sv).
Proof.
  induction l as [|s l IH]; intros p sv; [done|]. destruct s; cbn -[assert_ok rep_ends]; try done.
  - by rewrite <- enc_put.
  - destruct (units !! p) as [v|]; [|done]. by destruct (v =? u).
  - by destruct (next_of set p).
  - induction (rep_ends _ _ _ _ _ _ _ _) as [|q L IHL]; cbn; [done|]. by rewrite map_app, <- IH, IHL.
  - destruct (ASSERTS !! index); [|done]. by destruct (assert_ok _ _ _ _) as [[]|].
Qed.

(** What a run needs does not depend on the captures. *)
Lemma runs_empty {A B} (put : nat -> nat -> A -> A) (put' : nat -> nat -> B -> B) l : forall p sv sv',
  steps_of put l p sv = [] -> steps_of put' l p sv' = [].
Proof.
  induction l as [|s l IH]; intros p sv sv'; [done|]. destruct s; cbn -[assert_ok rep_ends]; try done.
  - apply IH.
  - destruct (units !! p) as [v|]; [|done]. destruct (v =? u); [apply IH|done].
  - destruct (next_of set p); [apply IH|done].
  - induction (rep_ends _ _ _ _ _ _ _ _) as [|q L IHL]; cbn; [done|].
    intros [H1 H2]%app_eq_nil. by rewrite (IH _ _ sv' H1), IHL.
  - destruct (ASSERTS !! index); [|done]. destruct (assert_ok _ _ _ _) as [[]|]; [apply IH|done..].
Qed.

Lemma runs_next_units {A} (put : nat -> nat -> A -> A) l : forall p sv,
  steps_of put (set_next_units l) p sv = steps_of put l p sv.
Proof.
  induction l as [|s l IH]; intros p sv; [done|]. destruct s; cbn -[assert_ok rep_ends]; try done.
  - destruct (units !! p) as [v|]; [|done]. by destruct (v =? u).
  - by destruct (next_of set p).
  - destruct greedy; cbn -[rep_ends]; by apply flat_map_ext.
  - destruct (ASSERTS !! index); [|done]. by destruct (assert_ok _ _ _ _) as [[]|].
Qed.

(** Saves do not decide whether there is a run. *)
Definition unsaved (l : list Step) : list Step := List.filter (fun s => negb (is_save s)) l.

Lemma runs_unsaved {A} (put : nat -> nat -> A -> A) l : forall p (sv : A),
  steps_of put (unsaved l) p sv = [] <-> steps_of put l p sv = [].
Proof.
  induction l as [|s l IH]; intros p sv; [done|]. unfold unsaved in *. destruct s; cbn -[assert_ok rep_ends]; try done.
  - rewrite <- (IH p (put slot p sv)). split; apply runs_empty.
  - destruct (units !! p) as [v|]; [|done]. by destruct (v =? u).
  - by destruct (next_of set p).
  - induction (rep_ends _ _ _ _ _ _ _ _) as [|q L IHL]; cbn; [done|].
    split; intros [H1 H2]%app_eq_nil.
    + rewrite (proj1 (IH _ _) H1). by apply IHL.
    + rewrite (proj2 (IH _ _) H1). by apply IHL.
  - destruct (ASSERTS !! index); [|done]. by destruct (assert_ok _ _ _ _) as [[]|].
Qed.

(** The literal a sequence begins with. *)
Lemma runs_literal {A} (put : nat -> nat -> A -> A) l : forall p (sv : A),
  starts_with units (leading_units l) p = false -> steps_of put l p sv = [].
Proof.
  induction l as [|s l IH]; intros p sv H; [done|]. destruct s; cbn -[assert_ok rep_ends] in *; try done.
  destruct (units !! p) as [v|]; [|done]. destruct (v =? u); [by apply IH|done].
Qed.

(** ** The first step *)

(** A unit no match begins with, by the first step of a branch. *)
Definition rejects (f : First) (u : option Z) : Prop :=
  match f with
  | FUnit x => u <> Some x
  | FSet k => forall set, sets !! k = Some set ->
      match u with Some u => may_start set u prog flags = false | None => True end
  | FAny => False
  end.

Lemma may_start_sound set s u c n : subject_ok units -> units !! s = Some u -> may_start set u prog flags = false ->
  read uni units s = Some (c, n) -> set_has set c prog flags = false.
Proof.
  intros Hsub Hu Hm Hr. unfold read in Hr. rewrite Hu in Hr. unfold may_start in Hm.
  assert (Hu0 : 0 <= u < 65536) by (unfold subject_ok in Hsub; rewrite list.Forall_lookup in Hsub; by eapply Hsub).
  destruct (unicode flags) eqn:Euni; cbn [andb negb] in *.
  2:{ rewrite orb_true_r in Hm. by injection Hr as <- <-. }
  rewrite orb_false_r in Hm. destruct (is_high_surrogate u) eqn:Eh.
  2:{ injection Hr as <- <-. destruct (Z.ltb_spec u 256); [done|]. unfold set_has.
      destruct (Z.ltb_spec u 256); [lia|]. by destruct (s_high set). }
  assert (Hc : 256 <= c).
  { apply in_range_true in Eh. destruct (units !! S s) as [lo|]; [|injection Hr as <- <-; lia].
    destruct (is_low_surrogate lo) eqn:El; injection Hr as <- <-; [|lia].
    apply in_range_true in El. unfold pair_cp. rewrite Z.shiftl_mul_pow2 by lia. lia. }
  apply in_range_true in Eh. destruct (Z.ltb_spec u 256); [lia|]. unfold set_has.
  destruct (Z.ltb_spec c 256); [lia|]. by destruct (s_high set).
Qed.

Lemma first_of_cons s l : is_save s = true -> first_of (s :: l) = first_of l.
Proof. unfold first_of. cbn. by intros ->. Qed.

Lemma rejected_first {A} (put : nat -> nat -> A -> A) l s (sv : A) : subject_ok units ->
  rejects (first_of l) (units !! s) -> steps_of put l s sv = [].
Proof.
  intros Hsub. revert sv. induction l as [|st l IH]; intros sv H; [done|].
  destruct st; cbn -[assert_ok rep_ends]; try done.
  - apply IH. by rewrite first_of_cons in H.
  - cbn in H. destruct (units !! s) as [v|]; [|done]. destruct (Z.eqb_spec v u) as [->|]; [done|done].
  - cbn in H. unfold next_in, holds. destruct (sets !! set) as [x|]; [|by destruct (read _ _ _) as [[]|]].
    specialize (H x eq_refl). destruct (read uni units s) as [[c n]|] eqn:Er; [|done].
    destruct (units !! s) as [u|] eqn:Eu; [|by unfold read in Er; rewrite Eu in Er].
    by rewrite (may_start_sound x s u c n).
Qed.

(** ** The union of the first sets *)

Definition wider (a b : CharSet) : Prop :=
  forall u, 0 <= u -> may_start b u prog flags = false -> may_start a u prog flags = false.

Lemma latin1_or a b c : length a = 4%nat -> length b = 4%nat -> 0 <= c < 256 ->
  latin1_test (zip_with Z.lor a b) c = latin1_test a c || latin1_test b c.
Proof.
  intros Ha Hb Hc. rewrite !latin1_test_bit. pose proof (latin1_index c Hc) as Hi.
  destruct (lookup_lt_is_Some_2 a (Z.to_nat (Z.shiftr c 6))) as [x Hx]; [lia|].
  destruct (lookup_lt_is_Some_2 b (Z.to_nat (Z.shiftr c 6))) as [y Hy]; [lia|].
  rewrite lookup_zip_with, Hx, Hy. cbn. apply Z.lor_spec.
Qed.

Lemma wider_intro a b : (forall c, 0 <= c < 256 -> latin1_test (s_latin1 a) c = true -> latin1_test (s_latin1 b) c = true) ->
  s_high a = HNone \/ s_high b = s_high a \/ s_high b = HAny -> wider a b.
Proof.
  intros Hl Hh u Hu H. unfold may_start, set_has in *. destruct (Z.ltb_spec u 256); cbn [orb] in *.
  - specialize (Hl u ltac:(lia)). destruct (latin1_test (s_latin1 a) u); [|done]. by rewrite Hl in H.
  - destruct (negb (unicode flags)); (destruct Hh as [Hh|[Hh|Hh]]; rewrite Hh in *; done).
Qed.

Lemma wider_trans a b c : wider a b -> wider b c -> wider a c.
Proof. intros H1 H2 u Hu H. apply H1, H2; done. Qed.

Lemma may_start_unit acc c : set_wf acc -> 0 <= c ->
  may_start (if c <? 256 then MkSet (latin1_set (s_latin1 acc) c) (s_high acc) else MkSet (s_latin1 acc) HAny)
    c prog flags = true.
Proof.
  intros Hw Hc. unfold may_start, set_has. destruct (Z.ltb_spec c 256); cbn [orb s_latin1 s_high].
  - by rewrite latin1_set_test, Z.eqb_refl by (done || lia).
  - by destruct (negb (unicode flags)).
Qed.

Lemma union_firsts_spec : Forall set_wf sets -> forall firsts acc u,
  (forall c, FUnit c ∈ firsts -> 0 <= c) -> set_wf acc -> union_firsts firsts sets acc = Some u ->
  wider acc u /\ set_wf u /\
  (forall f x, f ∈ firsts -> 0 <= x -> may_start u x prog flags = false -> rejects f (Some x)) /\
  (FAny ∉ firsts) /\ forall k, FSet k ∈ firsts -> is_Some (sets !! k).
Proof.
  intros Hwf firsts. induction firsts as [|f firsts IH]; intros acc u Hpos Hacc H; cbn in H.
  { injection H as ->. split; [by intros x|]. split; [done|]. split; [by intros f x ?%elem_of_nil|].
    split; [apply not_elem_of_nil|]. by intros k ?%elem_of_nil. }
  assert (Hgo : forall acc', set_wf acc' -> wider acc acc' -> f <> FAny -> (forall k, f = FSet k -> is_Some (sets !! k)) ->
    (forall x, 0 <= x -> may_start acc' x prog flags = false -> rejects f (Some x)) ->
    union_firsts firsts sets acc' = Some u ->
    wider acc u /\ set_wf u /\
    (forall f' x, f' ∈ (f :: firsts) -> 0 <= x -> may_start u x prog flags = false -> rejects f' (Some x)) /\
    (FAny ∉ (f :: firsts)) /\ forall k, FSet k ∈ (f :: firsts) -> is_Some (sets !! k)).
  { intros acc' Hw1 Hw2 Hn Hk Hf H'. apply IH in H' as (H1 & H2 & H3 & H4 & H5); [| |done].
    - split; [by eapply wider_trans|]. split; [done|]. split; [|split].
      + intros f' x [->|Hf']%elem_of_cons Hx Hm; [|by apply (H3 f' x)]. apply Hf; [done|]. by apply H1.
      + intros [E|E]%elem_of_cons; congruence.
      + intros k [E|E]%elem_of_cons; auto.
    - intros c Hc. apply Hpos. by right. }
  destruct f as [c|k|]; [| |done].
  - assert (Hc : 0 <= c) by (apply Hpos; by left). eapply Hgo; [| |done|done| |exact H].
    + unfold set_wf. destruct (c <? 256); [|done]. cbn [s_latin1]. unfold latin1_set. by rewrite length_alter.
    + destruct (Z.ltb_spec c 256); [|apply wider_intro; [done|by right; right]].
      apply wider_intro; [|by right; left]. intros x Hx Ht. cbn [s_latin1].
      rewrite latin1_set_test by (done || lia). rewrite Ht. apply orb_true_r.
    + intros x _ Hm [= ->]. by rewrite may_start_unit in Hm.
  - destruct (sets !! k) as [s|] eqn:Ek; [|done].
    assert (Hs : set_wf s) by (rewrite list.Forall_lookup in Hwf; by eapply Hwf).
    eapply Hgo; [| |done|by intros ? [= <-]| |exact H].
    + unfold set_wf. cbn [s_latin1]. rewrite length_zip_with, Hacc, Hs. done.
    + apply wider_intro; cbn [s_latin1 s_high].
      * intros x Hx Ht. rewrite latin1_or by done. by rewrite Ht.
      * destruct (s_high s); auto.
    + intros x Hx Hm s' Hs'. rewrite Ek in Hs'. injection Hs' as <-. eapply (wider_intro s); [| |exact Hx|exact Hm]; cbn [s_latin1 s_high].
      * intros y Hy Ht. rewrite latin1_or by done. rewrite Ht. apply orb_true_r.
      * destruct (s_high s); auto.
Qed.

End Filter.

(** ** The start filter *)

Section StartFilter.
Context `{U : UnicodeData}.
Context (prog : list Inst) (units : list Z) (flags : Flags).

Lemma rejects_none sets f : f <> FAny -> rejects prog flags sets f None.
Proof. by destruct f. Qed.

Lemma rejects_prefix sets sets' f u : sets `prefix_of` sets' -> (forall k, f = FSet k -> is_Some (sets !! k)) ->
  rejects prog flags sets f u -> rejects prog flags sets' f u.
Proof.
  intros Hp Hk. destruct f as [c|k|]; [done| |done]. intros H set Hs. destruct (Hk k eq_refl) as [x Hx].
  assert (E : sets' !! k = Some x) by by eapply prefix_lookup_Some. rewrite E in Hs. injection Hs as <-. by apply H.
Qed.

Lemma first_unit_in l c : first_of l = FUnit c -> SUnit c ∈ l.
Proof.
  induction l as [|s l IH]; [done|]. destruct s; cbn; try done.
  - rewrite first_of_cons by done. intros H. right. by apply IH.
  - intros [= ->]. by left.
Qed.

(** Where the filter of [build] fails, no branch has a run. *)
Lemma start_filter_sound brs sets first sets' : subject_ok units -> Forall set_wf sets ->
  (forall b c, b ∈ brs -> SUnit c ∈ b -> (0 <= c)) -> start_filter brs sets = (first, sets') ->
  sets `prefix_of` sets' /\ forall s, rejects prog flags sets' first (units !! s) ->
    forall b, b ∈ brs -> forall sv : list Z, step_runs prog units flags put_raw sets' b s sv = [].
Proof.
  intros Hsub Hwf Hpos H.
  assert (Hall : forall s, (forall b, b ∈ brs -> rejects prog flags sets' (first_of b) (units !! s)) ->
    forall b, b ∈ brs -> forall sv : list Z, step_runs prog units flags put_raw sets' b s sv = []).
  { intros s Hr b Hb sv. apply rejected_first; [done|]. by apply Hr. }
  unfold start_filter in H. destruct (decide (length brs = 1%nat)) as [Hl|Hn].
  { destruct brs as [|b [|]]; try done. cbn in H. injection H as <- <-. split; [done|]. intros s Hr. apply Hall. by intros b' ->%list_elem_of_singleton. }
  assert (H' : match union_firsts (map first_of brs) sets (MkSet [0; 0; 0; 0] HNone) with
    | None => (FAny, sets) | Some u => (FSet (length sets), sets ++ [u]) end = (first, sets')).
  { destruct brs as [|b [|b' brs]]; [exact H|done|exact H]. }
  clear H. destruct (union_firsts _ _ _) as [u|] eqn:Eu; injection H' as <- <-.
  2:{ split; [done|]. by intros s []. }
  apply (union_firsts_spec prog flags) in Eu as (_ & _ & H1 & H2 & H3); [|done| |done].
  2:{ intros c (b & Hb & Hin)%list_elem_of_fmap. symmetry in Hb. eapply Hpos; [done|]. by apply first_unit_in. }
  assert (Hp : sets `prefix_of` (sets ++ [u])) by by apply prefix_app_r.
  split; [done|]. intros s Hr. apply Hall. intros b Hb.
  assert (Hf : first_of b ∈ map first_of brs) by (apply list_elem_of_fmap; by exists b).
  apply (rejects_prefix sets); [done|intros k Hk; apply H3; by rewrite <- Hk|].
  destruct (units !! s) as [x|] eqn:Ex; [|apply rejects_none; congruence].
  apply H1; [done| |].
  - unfold subject_ok in Hsub. rewrite list.Forall_lookup in Hsub. apply Hsub in Ex. lia.
  - apply (Hr u). rewrite lookup_app_r by lia. by rewrite Nat.sub_diag.
Qed.

End StartFilter.

(** ** The leading run *)

Section LeadRun.
Context `{U : UnicodeData}.
Context (prog : list Inst) (units : list Z) (flags : Flags) (sets : list CharSet).
Context (Huni : unicode flags = false).
Abbreviation has k p := (match units !! p with Some u => holds prog flags sets k u | None => false end).
Abbreviation next_of k := (next_in units flags (holds prog flags sets k)).

Lemma next_has k p : next_of k p = if has k p then Some (S p) else None.
Proof using Huni.
  unfold next_in, read. rewrite Huni. by destruct (units !! p).
Qed.

Lemma iter_has k m : forall p q, iter_next (next_of k) m p = Some q ->
  q = (p + m)%nat /\ forall y, (p <= y < q)%nat -> has k y = true.
Proof using Huni.
  induction m as [|m IH]; intros p q H; cbn in H; [injection H as <-; split; [lia|intros; lia]|].
  rewrite next_has in H. destruct (has k p) eqn:E; [|done]. apply IH in H as [-> H]. split; [lia|].
  intros y Hy. destruct (decide (y = p)) as [->|]; [done|apply H; lia].
Qed.

Lemma has_reach k q n : forall p, (p <= q)%nat -> (q < p + n)%nat -> (forall y, (p <= y < q)%nat -> has k y = true) ->
  q ∈ reach (next_of k) n p.
Proof using Huni.
  induction n as [|n IH]; intros p Hp Hq Hh; [lia|]. cbn.
  destruct (decide (p = q)) as [->|Hne]; [by left|]. right. rewrite next_has, (Hh p) by lia. apply IH; [lia..|].
  intros y Hy. apply Hh. lia.
Qed.

Context (a b : nat) (x : Z) (nu : option Z) (l rest : list Step).
Context (Hl : unsaved l = SOne a :: SRep b None true nu :: SUnit x :: rest) (Hx : holds prog flags sets b x = false).
Abbreviation tried p := (step_runs prog units flags put_raw sets l p ([] : list Z)).
Abbreviation tail_from p := (step_runs prog units flags put_raw sets rest p ([] : list Z)).

(** A start of the run, the run, and the unit after it. *)
Definition lead_at (t q : nat) : Prop :=
  (t < q)%nat /\ has a t = true /\ (forall y, (t < y < q)%nat -> has b y = true) /\ units !! q = Some x.

Lemma lead_unique t q q' : lead_at t q -> (t < q')%nat -> units !! q' = Some x ->
  (forall y, (t < y < q')%nat -> units !! y <> Some x) -> q' = q.
Proof using Hx.
  intros (H1 & _ & H3 & H4) Hq Hu Hn. destruct (Nat.lt_trichotomy q q') as [Hc|[Hc|Hc]]; [|done|].
  - by destruct (Hn q ltac:(lia)).
  - specialize (H3 q' ltac:(lia)). rewrite Hu in H3. congruence.
Qed.

Lemma tried_empty p : tried p = [] <-> forall q, lead_at p q -> tail_from (S q) = [].
Proof using Hl Hx Huni.
  rewrite <- (runs_unsaved prog units flags sets put_raw l p []), Hl. cbn -[rep_ends].
  rewrite next_has. unfold rep_ends. cbn [rep_count]. split.
  - intros H q (H1 & H2 & H3 & H4). rewrite H2 in H.
    assert (Hq : q ∈ rev (reach (next_of b) (S (length units)) (S p))).
    { rewrite list_elem_of_In, <- in_rev, <- list_elem_of_In. apply lookup_lt_Some in H4.
      apply has_reach; [lia..|]. intros y Hy. apply H3. lia. }
    induction (rev _) as [|q' L IH]; [by apply elem_of_nil in Hq|]. cbn in H. apply app_eq_nil in H as [E1 E2].
    apply elem_of_cons in Hq as [<-|Hq]; [|by apply IH]. by rewrite H4, Z.eqb_refl in E1.
  - intros H. destruct (has a p) eqn:Ea; [|done].
    assert (Hall : forall q, q ∈ rev (reach (next_of b) (S (length units)) (S p)) ->
      match units !! q with Some v => if v =? x then tail_from (S q) else [] | None => [] end = []).
    { intros q Hq. rewrite list_elem_of_In, <- in_rev, <- list_elem_of_In in Hq.
      apply reach_elem in Hq as (m & _ & Hm). apply iter_has in Hm as [-> Hm].
      destruct (units !! (S p + m)%nat) as [v|] eqn:Ev; [|done]. destruct (Z.eqb_spec v x) as [->|]; [|done].
      apply H. split; [lia|]. split; [done|]. split; [intros y Hy; apply Hm; lia|done]. }
    induction (rev _) as [|q' L IH]; [done|]. cbn. rewrite (Hall q') by by left.
    apply IH. intros q Hq. apply Hall. by right.
Qed.

(** The run of the set [b] that ends at [r]. *)
Lemma run_start_spec set lo r : sets !! b = Some set -> (lo <= r)%nat ->
  let s := run_start prog units flags set lo r in
  (lo <= s <= r)%nat /\ (forall y, (s <= y < r)%nat -> has b y = true) /\ ((lo < s)%nat -> has b (s - 1)%nat = false).
Proof.
  intros Hs. induction r as [|r IH]; intros Hlo; cbn [run_start]; [split; [lia|]; split; intros; lia|].
  assert (E : match units !! r with Some u => set_has set u prog flags | None => false end = has b r).
  { unfold holds. by rewrite Hs. }
  rewrite E. destruct (Nat.ltb_spec lo (S r)); cbn [andb].
  - destruct (has b r) eqn:Eb.
    + destruct (IH ltac:(lia)) as (H1 & H2 & H3). split; [lia|]. split; [|done].
      intros y Hy. destruct (decide (y = r)) as [->|]; [done|apply H2; lia].
    + split; [lia|]. split; [intros; lia|]. intros _. by replace (S r - 1)%nat with r by lia.
  - split; [lia|]. split; intros; lia.
Qed.

(** The only start worth an attempt up to [q], the first [x] behind [s]. *)
Lemma lead_candidate sa sb s q : sets !! a = Some sa -> sets !! b = Some sb -> (s < q)%nat -> units !! q = Some x ->
  (forall y, (s < y < q)%nat -> units !! y <> Some x) ->
  let r := run_start prog units flags sb (s + 1)%nat q in
  match position_from (fun u => set_has sa u prog flags) units (r - 1)%nat (q - (r - 1))%nat with
  | None => forall t, (s <= t < q)%nat -> tried t = []
  | Some p => (s <= p < q)%nat /\ (forall t, (s <= t < p)%nat -> tried t = []) /\
      (tried p = [] -> forall t, (p <= t < q)%nat -> tried t = [])
  end.
Proof using Hl Hx Huni.
  intros Hsa Hsb Hsq Hq Hfirst r. destruct (run_start_spec sb (s + 1)%nat q Hsb ltac:(lia)) as (R1 & R2 & R3). fold r in R1, R2, R3.
  (* a start whose match needs [q] *)
  assert (Hlead : forall t, (s <= t < q)%nat -> ~ lead_at t q -> tried t = []).
  { intros t Ht Hn. apply tried_empty. intros q' Hq'. exfalso. apply Hn.
    assert (q = q') as ->; [|done]. apply (lead_unique t q' q); [done|lia|done|]. intros y Hy. apply Hfirst. lia. }
  assert (Hbefore : forall t, (s <= t < r - 1)%nat -> tried t = []).
  { intros t Ht. apply Hlead; [lia|]. intros (_ & _ & H & _). specialize (H (r - 1)%nat ltac:(lia)).
    rewrite R3 in H by lia. done. }
  assert (Hhas : forall t u, units !! t = Some u -> set_has sa u prog flags = has a t).
  { intros t u ->. unfold holds. by rewrite Hsa. }
  pose proof (position_from_spec (fun u => set_has sa u prog flags) units (q - (r - 1))%nat (r - 1)%nat) as HP.
  destruct (position_from _ _ _ _) as [p|].
  - destruct HP as (P1 & (u & Hu & Hpu) & P3). rewrite (Hhas p u Hu) in Hpu. split; [lia|]. split.
    + intros t Ht. destruct (decide (t < r - 1)%nat); [apply Hbefore; lia|]. apply Hlead; [lia|].
      intros (_ & H & _). destruct (P3 t ltac:(lia)) as (v & Hv & Hf). rewrite (Hhas t v Hv) in Hf. congruence.
    + intros Hp t Ht. apply tried_empty. intros q' Hq'.
      assert (q = q') as ->. { apply (lead_unique t q' q); [done|lia|done|]. intros y Hy. apply Hfirst. lia. }
      rewrite tried_empty in Hp. apply Hp. split; [lia|]. split; [done|]. split; [|done].
      intros y Hy. apply R2. lia.
  - intros t Ht. destruct (decide (t < r - 1)%nat); [apply Hbefore; lia|]. apply Hlead; [lia|].
    intros (_ & H & _). destruct (units !! t) as [v|] eqn:Ev; [|done].
    specialize (HP t v ltac:(lia) Ev). cbn in HP. rewrite (Hhas t v Ev), Ev in HP. cbn in HP. congruence.
Qed.

(** Without another [x] there is nothing to find. *)
Lemma lead_none s : (forall y, (s < y)%nat -> units !! y <> Some x) -> forall t, (s <= t)%nat -> tried t = [].
Proof using Hl Hx Huni.
  intros H t Ht. apply tried_empty. intros q (H1 & _ & _ & H4). by destruct (H q ltac:(lia)).
Qed.

End LeadRun.
