(* ===== verification/RegexLinSpec.v ===== *)
(** * The linear matcher agrees with the pattern

    A scan with the linear matcher finds the leftmost match of the reference
    semantics, whichever of its filters applies: the first step, the leading
    literal, the leading run. *)

From S2P Require Import Prelude Regex RegexComp RegexVm RegexTotal RegexSem RegexRuns RegexCode.
From S2P Require Import RegexRun RegexExec RegexSpec RegexSaves RegexScan RegexScanSpec.
From S2P Require Import RegexLinear RegexUnits RegexSteps RegexLinRun RegexLinFilter.

Open Scope Z_scope.

#[local] Arguments Nat.mul : simpl never.
#[local] Arguments Nat.add : simpl never.

(** ** The literals after the quantifiers *)

Lemma next_units_literal l : next_literal (set_next_units l) = next_literal l.
Proof. induction l as [|s l IH]; [done|]. destruct s; cbn; try done. by destruct greedy. Qed.

Lemma next_units_drop n : forall l, drop n (set_next_units l) = set_next_units (drop n l).
Proof. induction n as [|n IH]; intros [|s l]; [done..|]. cbn [drop]. rewrite <- IH. destruct s; try done. by destruct greedy. Qed.

Lemma next_units_slots l : slots_of (set_next_units l) = slots_of l.
Proof. unfold slots_of. induction l as [|s l IH]; [done|]. destruct s; cbn in *; rewrite ?IH; try done. by destruct greedy; cbn; rewrite IH. Qed.

Lemma next_units_reps l : count_reps (set_next_units l) = count_reps l.
Proof. unfold count_reps. induction l as [|s l IH]; [done|]. destruct s; cbn in *; rewrite ?IH; try done. by destruct greedy; cbn; rewrite IH. Qed.

Lemma next_units_ended l : well_ended l -> well_ended (set_next_units l).
Proof.
  induction l as [|s l IH]; [done|]. destruct s; cbn; intros H; try by auto.
  - destruct greedy; cbn; auto.
  - by subst l.
Qed.

Lemma next_units_last l : (exists body, l = body ++ [SMatch]) -> exists body, set_next_units l = body ++ [SMatch].
Proof.
  intros [body ->]. induction body as [|s body [b' IH]]; [by exists []|]. cbn [app].
  destruct s; cbn [set_next_units]; try (rewrite IH; by eexists (_ :: b')).
  destruct greedy; rewrite IH; by eexists (_ :: b').
Qed.

Lemma next_units_lookup l : forall i k max c, set_next_units l !! i = Some (SRep k max true (Some c)) ->
  next_literal (drop (S i) l) = Some c.
Proof.
  induction l as [|s l IH]; intros i k max c H; [done|]. destruct i as [|i].
  - destruct s; try done. destruct greedy; cbn in H; [|done]. by injection H.
  - apply (IH i k max). destruct s; try done. by destruct greedy.
Qed.

Section Steps.
Context `{U : UnicodeData}.
Context (prog : list Inst) (flags : Flags).

Lemma next_units_ok n l : Forall (step_ok prog flags n) l -> Forall (step_ok prog flags n) (set_next_units l).
Proof. induction 1 as [|s l Hs Hl IH]; [constructor|]. destruct s; try by constructor. by destruct greedy; constructor. Qed.

Lemma ended_body body : existsb is_smatch body = false -> well_ended (body ++ [SMatch]).
Proof.
  induction body as [|s body IH]; [done|]. cbn. intros [H1 H2]%orb_false_iff. destruct s; try done; by apply IH.
Qed.

Lemma branch_good n slots cap l : branch_ok prog flags n l -> 
  (forall pc s, prog !! pc = Some (Save s) -> (s < slots)%nat) -> (count_reps l <= cap)%nat ->
  forall sets, length sets = n -> good_steps prog flags sets (set_next_units l) slots cap.
Proof.
  intros [Hok (body & E & Hb)] Hs Hc sets Hn. split.
  - apply next_units_ended. rewrite E. by apply ended_body.
  - apply next_units_last. by exists body.
  - rewrite Hn. by apply next_units_ok.
  - intros s Hin. rewrite next_units_slots in Hin. unfold slots_of in Hin.
    apply list_elem_of_omap in Hin as (st & Hst & Hin). rewrite Forall_forall in Hok.
    apply list_elem_of_In, Hok in Hst. destruct st; try done. injection Hin as ->. destruct Hst as [pc Hpc]. by eapply Hs.
  - by rewrite next_units_reps.
  - intros i k max c Hi. rewrite next_units_drop, next_units_literal. by eapply next_units_lookup.
Qed.

End Steps.

(** ** The whole matcher *)

(** The spans of the raw slots. *)
Lemma spans_of_enc gc : forall sv, length sv = (2 * (gc + 1))%nat -> (forall slot v, sv !! slot = Some (Some v) -> Z.of_nat v < USIZE_MAX) ->
  spans_of (enc sv) = pair_saves sv gc.
Proof.
  unfold pair_saves. replace (S gc) with (gc + 1)%nat by lia. generalize (gc + 1)%nat as n. clear.
  induction n as [|n IH]; intros sv Hl Hv; [by destruct sv; [|cbn in Hl; lia]|].
  destruct sv as [|o1 [|o2 sv]]; [cbn in Hl; lia|cbn in Hl; lia|]. cbn [length] in Hl.
  assert (Hslot : forall o i, (o1 :: o2 :: sv) !! i = Some o -> negb (enc_slot o =? USIZE_MAX) = match o with Some _ => true | None => false end).
  { intros o i Hi. destruct o as [v|]; [|done]. apply Hv in Hi. cbn. by destruct (Z.eqb_spec (Z.of_nat v) USIZE_MAX); [lia|]. }
  cbn [enc map spans_of]. rewrite (Hslot o1 0%nat eq_refl), (Hslot o2 1%nat eq_refl).
  fold (enc sv). rewrite IH; [|lia|intros slot v H; by apply (Hv (S (S slot)) v)].
  cbn [seq map]. f_equal.
  - unfold group_span. cbn. destruct o1 as [v1|], o2 as [v2|]; cbn; try done. by rewrite !Nat2Z.id.
  - rewrite <- seq_shift, map_map. apply map_ext. intros g. unfold group_span.
    replace (2 * S g)%nat with (S (S (2 * g))) by lia. replace (S (S (2 * g)) + 1)%nat with (S (S (2 * g + 1))) by lia. done.
Qed.

Lemma flat_map_none {A B} (f : A -> list B) l : (forall x, x ∈ l -> f x = []) -> flat_map f l = [].
Proof.
  induction l as [|x l IH]; intros H; cbn; [done|]. rewrite (H x) by by left. apply IH. intros y Hy. apply H. by right.
Qed.

Lemma reps_max brs : forall r, (r <= fold_left (fun r steps => Nat.max r (count_reps steps)) brs r)%nat /\
  forall l, l ∈ brs -> (count_reps l <= fold_left (fun r steps => Nat.max r (count_reps steps)) brs r)%nat.
Proof.
  induction brs as [|l brs IH]; intros r; cbn; [split; [lia|by intros ? ?%elem_of_nil]|].
  destruct (IH (Nat.max r (count_reps l))) as [H1 H2]. split; [lia|]. intros l' [->|Hl]%elem_of_cons; [lia|by apply H2].
Qed.

Section LinSpec.
Context `{U : UnicodeData}.
Context (ast : Node) (names : list (nat * String.string)) (units : list Z) (rx : Regex_) (lin : Linear).
Abbreviation flags := (r_flags rx).
Abbreviation prog := (r_prog rx).
Abbreviation uni := (unicode flags).
Abbreviation b := (budget_for (length units)).
Context (Hnew : regex_new ast names flags = Ok rx).
Context (Hgood : good_pattern uni ast = true).
Context (Hsub : subject_ok units) (Hlen : Z.of_nat (length units) <= MAX_STRING_LEN).
Context (Hlin : regex_linear rx = Some lin).

(** What the theorems ask of the flags, of the data and of the program: [v] comes
    with [u], as [Flags::parse] has it; the upper case of an ASCII character is
    ASCII; the characters of the program are not negative, as a [u32] is not; the
    chains of options repeat one instruction. *)
Record linear_ok : Prop := {
  lk_flags : unicode_sets flags = true -> unicode flags = true;
  lk_upper : forall c first, c < 128 -> to_uppercase c = [first] -> first < 128;
  lk_chars : forall pc c, prog !! pc = Some (Char c) -> 0 <= c;
  lk_chains : chains_uniform prog flags
}.
Context (Hok : linear_ok).

Abbreviation match_from s := (match_from ast names units rx s).
Abbreviation slots := (2 * (group_count rx + 1))%nat.
Abbreviation unset_slots := (replicate slots USIZE_MAX).
Abbreviation lruns l s := (step_runs prog units flags put_raw (sets lin) l s unset_slots).

Record lin_parts (sets0 : list CharSet) (brs0 : list (list Step)) : Prop := {
  lp_build : build_branches prog flags = Some (sets0, brs0);
  lp_branches : branches lin = map set_next_units brs0;
  lp_filter : start_filter (branches lin) sets0 = (first lin, sets lin);
  lp_reps : forall l, l ∈ brs0 -> (count_reps l <= reps lin)%nat;
  lp_slots : slots_n lin = slots;
  lp_run : l_lead_run lin = lead_run_of (branches lin) (sets lin) prog flags;
  lp_lit : lead_lit lin = lead_lit_of (branches lin)
}.

Lemma lin_build : exists sets0 brs0, lin_parts sets0 brs0.
Proof using Hlin.
  unfold regex_linear, build in Hlin. destruct (build_branches prog flags) as [[sets0 brs0]|] eqn:E; [|done].
  destruct (start_filter (map set_next_units brs0) sets0) as [f sets1] eqn:Ef. injection Hlin as El.
  exists sets0, brs0. split; rewrite <- ?El; cbn; try done. intros l Hl. by apply (proj2 (reps_max brs0 0%nat)).
Qed.

Lemma len_small : Z.of_nat (length units) < USIZE_MAX.
Proof using Hlen. clear -Hlen. unfold MAX_STRING_LEN in Hlen. change (Z.shiftl 1 30) with (2 ^ 30) in Hlen. unfold USIZE_MAX. lia. Qed.

Lemma prog_of : compile_program ast names uni = Ok (prog, group_count rx).
Proof using Hnew. by destruct (rx_parts ast names rx Hnew). Qed.

(** What the steps of the branches are. *)
Lemma lin_facts : (forall l, l ∈ branches lin -> good_steps prog flags (sets lin) l slots (stack_cap lin)) /\
  (forall s, (s <= length units)%nat -> enc <$> (snd <$> match_from s) = head (map snd (flat_map (fun l => lruns l s) (branches lin)))) /\
  (forall s, (s <= length units)%nat -> rejects prog flags (sets lin) (first lin) (units !! s) -> match_from s = None).
Proof using Hnew Hgood Hsub Hlen Hlin Hok.
  destruct lin_build as (sets0 & brs0 & [L1 L2 L3 L4 L5 L6 L7]).
  destruct (build_branches_runs prog units flags (lk_flags Hok) (lk_upper Hok) sets0 brs0 Hsub (lk_chains Hok) L1)
    as (B1 & B2 & B3).
  assert (Hcap : (reps lin <= stack_cap lin)%nat).
  { unfold stack_cap. destruct (Nat.leb_spec (reps lin) 4); [lia|]. by destruct (Nat.leb_spec (reps lin) STACK_CHOICES). }
  assert (Hpos : forall l c, l ∈ branches lin -> SUnit c ∈ l -> 0 <= c).
  { intros l c Hl Hc. rewrite L2 in Hl. apply list_elem_of_fmap in Hl as (l0 & -> & Hl0).
    rewrite Forall_forall in B2. apply list_elem_of_In, B2 in Hl0 as [Hs _]. apply (next_units_ok prog flags) in Hs.
    rewrite Forall_forall in Hs. apply list_elem_of_In, Hs in Hc. destruct Hc as [[pc Hpc] _]. by eapply lk_chars. }
  destruct (start_filter_sound prog units flags _ _ _ _ Hsub B1 Hpos L3) as [Hpre Hrej].
  assert (Hruns : forall s, (s <= length units)%nat ->
    enc <$> (snd <$> match_from s) = head (map snd (flat_map (fun l => lruns l s) (branches lin)))).
  { intros s Hs. destruct (runs_from ast names units rx Hnew Hgood Hsub Hlen s Hs) as (r & HR & ->).
    change (entry flags (group_count rx) s) with (thr flags 0 (s, fresh (group_count rx))) in HR.
    rewrite (B3 (sets lin) Hpre _ _ HR). rewrite L2. cbn [fst snd].
    change (@fmap option _ (list (option nat)) (list Z) enc) with (option_map enc).
    assert (E : flat_map (fun l => lruns l s) (map set_next_units brs0) =
      map (fun st => (st.1, enc st.2)) (flat_map (fun l => step_runs prog units flags put_slot (sets lin) l s (fresh (group_count rx))) brs0)).
    { clear. induction brs0 as [|l brs IH]; cbn; [done|]. rewrite map_app, <- IH. f_equal.
      rewrite runs_next_units, <- runs_enc. unfold fresh. by rewrite enc_fresh. }
    rewrite E. by destruct (flat_map _ brs0). }
  split; [|split; [done|]].
  - intros l Hl. rewrite L2 in Hl. apply list_elem_of_fmap in Hl as (l0 & -> & Hl0).
    eapply branch_good; [|intros pc s; by eapply program_saves, prog_of| |done].
    + eapply branch_ok_le; [by apply prefix_length|]. rewrite Forall_forall in B2. by apply B2, list_elem_of_In.
    + specialize (L4 l0 Hl0). lia.
  - intros s Hs Hr. specialize (Hruns s Hs). specialize (Hrej s Hr).
    assert (E : flat_map (fun l => lruns l s) (branches lin) = []).
    { apply flat_map_none. intros l Hl. by apply Hrej. }
    rewrite E in Hruns. by destruct (match_from s).
Qed.

(** ** An attempt over the branches *)

Lemma budget_range : 0 <= b < U64_MAX.
Proof using Hlen. by apply budget_bounds. Qed.

Lemma attempt_spec s saves used : (s <= length units)%nat -> length saves = slots -> 0 <= used <= U64_MAX ->
  match run_branches (sets lin) prog units flags b (stack_cap lin) (branches lin) s saves used with
  | LMatch sv _ => exists m, match_from s = Some m /\ sv = enc m.2
  | LNoMatch sv used' => match_from s = None /\ length sv = slots /\ used <= used' <= U64_MAX
  | LAbort _ used' => b < used'
  | LCrash | LFuel => False
  end.
Proof using Hnew Hgood Hsub Hlen Hlin Hok.
  intros Hs. destruct lin_facts as (Hsteps & Hm & _). specialize (Hm s Hs). pose proof budget_range as Hb.
  assert (Hgen : forall brs, (forall l, l ∈ brs -> l ∈ branches lin) ->
    enc <$> (snd <$> match_from s) = head (map snd (flat_map (fun l => lruns l s) brs)) ->
    forall saves used, length saves = slots -> 0 <= used <= U64_MAX ->
    match run_branches (sets lin) prog units flags b (stack_cap lin) brs s saves used with
    | LMatch sv _ => exists m, match_from s = Some m /\ sv = enc m.2
    | LNoMatch sv used' => match_from s = None /\ length sv = slots /\ used <= used' <= U64_MAX
    | LAbort _ used' => b < used'
    | LCrash | LFuel => False
    end); [|by apply Hgen].
  clear Hm. induction brs as [|l brs IH]; intros Hin Hm saves' used' Hl Hu; cbn [run_branches].
  { cbn in Hm. split; [by destruct (match_from s)|]. split; [done|lia]. }
  pose proof (run_on_spec prog units flags (sets lin) l slots (stack_cap lin) b (Hsteps l (Hin l ltac:(by left)))
    len_small Hb s saves' used' Hu Hs Hl) as HR.
  destruct (run_on _ _ _ _ _ _ _ _ _ _) as [sv u|sv u|sv u| |]; try done.
  - destruct HR as [q HR]. cbn in Hm. destruct (lruns l s) as [|[q' sv'] rest]; [done|]. cbn in HR, Hm. injection HR as -> ->.
    destruct (match_from s) as [m|]; [|done]. exists m. split; [done|]. cbn in Hm. by injection Hm as ->.
  - destruct HR as (HR & Hsv & Hu'). cbn in Hm. rewrite HR in Hm. cbn in Hm.
    specialize (IH ltac:(intros l' Hl'; apply Hin; by right) Hm sv u Hsv ltac:(lia)).
    destruct (run_branches _ _ _ _ _ _ _ _ _ _); try done. destruct IH as (H1 & H2 & H3). repeat split; [done|done|lia|lia].
  - lia.
Qed.

(** ** The scans *)

Abbreviation cand q := (is_cand units uni q).

Definition lin_answers (s last : nat) (f : Found) : Prop :=
  let found := leftmost (RegexScanSpec.match_from ast names units rx) (starts units uni s last) in
  match f with
  | FoundAt sv _ => exists q m, found = Some (q, m) /\ sv = enc m.2
  | NotFound_ used => found = None \/ b < used
  | FCrash | FFuel => False
  end.

Lemma lin_answers_skip s s' last f : (s <= s')%nat ->
  (forall q, (s <= q < s')%nat -> (q <= last)%nat -> cand q = true -> match_from q = None) ->
  lin_answers s' last f -> lin_answers s last f.
Proof using Hgood.
  intros Hs Hq. unfold lin_answers.
  by rewrite (leftmost_skip (RegexScanSpec.match_from ast names units rx) units uni s s' last Hs Hq).
Qed.

Lemma lin_answers_none s last used : (forall q, (s <= q <= last)%nat -> cand q = true -> match_from q = None) ->
  lin_answers s last (NotFound_ used).
Proof using Hgood.
  intros Hq. apply (lin_answers_skip s (Nat.max s (S last))); [lia|intros q Hq' _; apply Hq; lia|].
  left. by rewrite starts_past by lia.
Qed.

(** An attempt at a candidate, and the scan that goes on behind it. *)
Lemma lin_answers_attempt k k' last saves used cont : (k <= last)%nat -> (last <= length units)%nat -> cand k = true ->
  length saves = slots -> 0 <= used <= U64_MAX -> (k < k')%nat ->
  (match_from k = None -> forall q, (k < q < k')%nat -> (q <= last)%nat -> cand q = true -> match_from q = None) ->
  (forall saves' used', length saves' = slots -> 0 <= used' <= U64_MAX -> lin_answers k' last (cont saves' used')) ->
  lin_answers k last (of_outcome
    (run_branches (sets lin) prog units flags b (stack_cap lin) (branches lin) k saves used) cont).
Proof using Hnew Hgood Hsub Hlen Hlin Hok.
  intros Hk Hl Hc Hsv Hu Hk' Hskip Hcont.
  pose proof (attempt_spec k saves used ltac:(lia) Hsv Hu) as HA.
  destruct (run_branches _ _ _ _ _ _ _ _ _ _) as [sv u|sv u|sv u| |]; cbn [of_outcome]; try done.
  - destruct HA as (m & Hm & ->). exists k, m. split; [|done].
    unfold starts. replace (S last - k)%nat with (S (last - k)) by lia. cbn [seq List.filter].
    fold (is_cand units uni k). rewrite Hc. cbn. by rewrite Hm.
  - destruct HA as (Hm & Hsv' & Hu'). apply (lin_answers_skip k k'); [lia| |apply Hcont; [done|lia]].
    intros q Hq Hql Hcq. destruct (decide (q = k)) as [->|]; [done|]. apply Hskip; [done|lia|done|done].
  - by right.
Qed.

Lemma branch_units_ok l c : l ∈ branches lin -> SUnit c ∈ l -> unit_ok c.
Proof using Hnew Hgood Hsub Hlen Hlin Hok.
  intros Hl Hc. destruct lin_facts as (Hsteps & _). pose proof (gs_steps _ _ _ _ _ _ (Hsteps l Hl)) as HF.
  rewrite Forall_forall in HF. apply list_elem_of_In, HF in Hc. destruct Hc as ([pc Hpc] & Hle & _).
  apply (lk_chars Hok) in Hpc. unfold unit_ok. lia.
Qed.

Lemma subject_units : Forall unit_ok units.
Proof using Hsub. exact Hsub. Qed.

(** [find_unit] in a window of the subject. *)
Lemma find_unit_window u lo n : unit_ok u ->
  match find_unit (take n (drop lo units)) u with
  | Some k => (k < n)%nat /\ units !! (lo + k)%nat = Some u /\ forall q, (lo <= q < lo + k)%nat -> units !! q <> Some u
  | None => forall q, (lo <= q < lo + n)%nat -> units !! q <> Some u
  end.
Proof using Hsub.
  intros Hu. rewrite (find_unit_position u Hu _ _ (Nat.le_refl _)).
  2:{ apply Forall_take, Forall_drop, subject_units. }
  assert (H : forall l, match position_of u l with
    | Some k => l !! k = Some u /\ forall q, (q < k)%nat -> l !! q <> Some u
    | None => forall q, l !! q <> Some u end).
  { clear. induction l as [|v l IH]; cbn; [done|]. destruct (Z.eqb_spec v u) as [->|Hne]; [split; [done|intros; lia]|].
    destruct (position_of u l) as [k|]; cbn.
    - destruct IH as [H1 H2]. split; [done|]. intros [|q] Hq; cbn; [congruence|apply H2; lia].
    - intros [|q]; cbn; [congruence|apply IH]. }
  assert (Hlk : forall k, (k < n)%nat -> take n (drop lo units) !! k = units !! (lo + k)%nat).
  { intros k Hk. by rewrite lookup_take_lt, lookup_drop by lia. }
  specialize (H (take n (drop lo units))). destruct (position_of u _) as [k|].
  - destruct H as [H1 H2]. assert (Hk : (k < n)%nat).
    { apply lookup_lt_Some in H1. rewrite length_take in H1. lia. }
    split; [done|]. rewrite <- Hlk by lia. split; [done|]. intros q Hq. specialize (H2 (q - lo)%nat ltac:(lia)).
    rewrite Hlk in H2 by lia. by replace (lo + (q - lo))%nat with q in H2 by lia.
  - intros q Hq. specialize (H (q - lo)%nat). rewrite Hlk in H by lia. by replace (lo + (q - lo))%nat with q in H by lia.
Qed.

Lemma first_unit_ok u : first lin = FUnit u -> unit_ok u.
Proof using Hnew Hgood Hsub Hlen Hlin Hok.
  intros E. destruct lin_build as (sets0 & brs0 & [_ _ L3 _ _ _ _]). unfold start_filter in L3. rewrite E in L3.
  destruct (branches lin) as [|l [|]] eqn:Eb; cbn [map] in L3.
  - by destruct (union_firsts _ _ _).
  - injection L3 as L3 _. eapply (branch_units_ok l); [rewrite Eb; by left|by apply first_unit_in].
  - by destruct (union_firsts _ _ _).
Qed.

Lemma first_candidate_spec s last : (s <= last <= length units)%nat ->
  match first_candidate lin prog units flags s last with
  | Some k => (s <= k <= last)%nat /\ forall q, (s <= q < k)%nat -> match_from q = None
  | None => forall q, (s <= q <= last)%nat -> match_from q = None
  end.
Proof using Hnew Hgood Hsub Hlen Hlin Hok.
  intros Hs. destruct lin_facts as (_ & _ & Hrej). unfold first_candidate. set (e := Nat.min (S last) (length units)).
  assert (Hout : forall u, match first lin with FAny => False | _ => u = None end ->
    rejects prog flags (sets lin) (first lin) u).
  { intros u. destruct (first lin); [by intros ->|by intros ->|done]. }
  destruct (first lin) as [u|k|] eqn:Ef; [..|split; [lia|intros; lia]].
  - destruct (Nat.leb_spec e s) as [He|He].
    { intros q Hq. apply Hrej; [lia|]. apply Hout. apply lookup_ge_None. lia. }
    pose proof (find_unit_window u s (e - s) (first_unit_ok u Ef)) as H. fold (slice units s e) in H.
    destruct (find_unit _ u) as [j|]; cbn.
    + destruct H as (H1 & _ & H3). split; [lia|]. intros q Hq. apply Hrej; [lia|]. apply H3. lia.
    + intros q Hq. apply Hrej; [lia|]. destruct (decide (q < e)%nat); [apply H; lia|].
      cbn. rewrite lookup_ge_None_2 by lia. done.
  - destruct (Nat.leb_spec e s) as [He|He].
    { intros q Hq. apply Hrej; [lia|]. apply Hout. apply lookup_ge_None. lia. }
    destruct (sets lin !! k) as [set|] eqn:Ek.
    2:{ intros q Hq. apply Hrej; [lia|]. intros set Hset. congruence. }
    pose proof (position_from_spec (fun x => may_start set x prog flags) units (e - s) s) as H.
    destruct (position_from _ _ _ _) as [j|].
    + destruct H as (H1 & _ & H3). split; [lia|]. intros q Hq. apply Hrej; [lia|]. intros set' Hset. rewrite Ek in Hset.
      injection Hset as <-. destruct (H3 q ltac:(lia)) as (v & -> & Hv). exact Hv.
    + intros q Hq. apply Hrej; [lia|]. intros set' Hset. rewrite Ek in Hset. injection Hset as <-.
      destruct (units !! q) as [v|] eqn:Ev; [|done]. apply (H q v); [|done].
      apply lookup_lt_Some in Ev. lia.
Qed.

(** A branch without a run at [s], the only one. *)
Lemma only_branch l s : branches lin = [l] -> (s <= length units)%nat -> lruns l s = [] <-> match_from s = None.
Proof using Hnew Hgood Hsub Hlen Hlin Hok.
  intros E Hs. destruct lin_facts as (_ & Hm & _). specialize (Hm s Hs). rewrite E in Hm. cbn in Hm. rewrite app_nil_r in Hm.
  split; intros H.
  - rewrite H in Hm. by destruct (match_from s).
  - rewrite H in Hm. by destruct (lruns l s).
Qed.

Lemma literal_spec s : (s <= length units)%nat -> negb (bool_decide (lead_lit lin = [])) && negb (starts_with units (lead_lit lin) s) = true ->
  match_from s = None.
Proof using Hnew Hgood Hsub Hlen Hlin Hok.
  intros Hs [H1%negb_true_iff%bool_decide_eq_false H2%negb_true_iff]%andb_true_iff.
  destruct lin_build as (sets0 & brs0 & [_ _ _ _ _ _ L7]). rewrite L7 in H1, H2. unfold lead_lit_of in H1, H2.
  destruct (branches lin) as [|l [|]] eqn:Eb; [done| |done]. destruct (2 <=? _)%nat; [|done].
  apply (only_branch l); [done|done|]. apply runs_unsaved. by apply runs_literal.
Qed.

Lemma lin_boundary s : uni && negb (lin_char_boundary units s) = negb (cand s).
Proof using Hgood.
  unfold lin_char_boundary, is_cand. destruct (unicode flags); cbn [negb orb andb]; [|done].
  destruct (Nat.leb_spec (length units) s) as [Hs|Hs]; [|done]. cbn [orb].
  destruct s as [|p]; [done|]. cbn. by rewrite lookup_ge_None_2 by lia.
Qed.

Lemma char_len_spec k : let k' := (if uni then k + char_len units k else k + 1)%nat in
  (k <= length units)%nat -> (k < k' <= S (length units))%nat /\ forall q, (k < q < k')%nat -> cand q = false.
Proof using Hgood.
  intros k' Hk. unfold k', char_len, is_cand. destruct (unicode flags); cbn [negb orb]; [|split; [lia|intros; lia]].
  unfold read. destruct (units !! k) as [u|] eqn:Eu; [|split; [lia|intros; lia]]. cbn [andb].
  destruct (is_high_surrogate u) eqn:Eh; [|split; [lia|intros; lia]].
  destruct (units !! S k) as [lo|] eqn:El; [|split; [lia|intros; lia]]. apply lookup_lt_Some in El as Hlo.
  destruct (is_low_surrogate lo) eqn:Elo; [|split; [lia|intros; lia]]. split; [lia|].
  intros q Hq. replace q with (S k) by lia. cbn. by rewrite Eu, El, Eh, Elo.
Qed.

Lemma find_loop_answers fuel : forall s last saves used,
  (length units + 1 < fuel + s)%nat -> (s <= length units + 1)%nat -> (last <= length units)%nat ->
  length saves = slots -> 0 <= used <= U64_MAX ->
  lin_answers s last (find_loop lin prog units flags b fuel s last saves used).
Proof using Hnew Hgood Hsub Hlen Hlin Hok.
  induction fuel as [|fuel IH]; intros s last saves used Hf Hs Hl Hsv Hu; [lia|].
  cbn [find_loop]. destruct (Nat.ltb_spec last s) as [Hlt|Hle]; [apply lin_answers_none; lia|].
  pose proof (first_candidate_spec s last ltac:(lia)) as Hn.
  destruct (first_candidate lin prog units flags s last) as [k|]; [|by apply lin_answers_none; intros q Hq _; apply Hn].
  destruct Hn as (Hk & Hq). apply (lin_answers_skip s k); [lia|intros q Hq' _ _; apply Hq; lia|].
  rewrite lin_boundary. destruct (cand k) eqn:Ec; cbn [negb].
  2:{ apply (lin_answers_skip k (S k)); [lia| |apply IH; [lia..|done|done]].
      intros q Hq' _ Hcq. replace q with k in Hcq by lia. congruence. }
  destruct (negb (bool_decide (lead_lit lin = [])) && negb (starts_with units (lead_lit lin) k)) eqn:Elit.
  { apply (lin_answers_skip k (S k)); [lia| |apply IH; [lia..|done|done]].
    intros q Hq' _ _. replace q with k by lia. apply literal_spec; [lia|done]. }
  destruct (char_len_spec k ltac:(lia)) as [Hc1 Hc2]. eapply lin_answers_attempt; [lia|done|done|done|done|apply Hc1| |].
  - intros _ q Hq' _ Hcq. by rewrite Hc2 in Hcq.
  - intros saves' used' Hsv' Hu'. apply IH; [lia|lia|done|done|done].
Qed.

(** What a leading run is. *)
Lemma lead_run_parts a c x : l_lead_run lin = Some (a, c, x) ->
  uni = false /\ exists l nu rest sa sc, branches lin = [l] /\
    unsaved l = SOne a :: SRep c None true nu :: SUnit x :: rest /\
    sets lin !! a = Some sa /\ sets lin !! c = Some sc /\ holds prog flags (sets lin) c x = false /\ unit_ok x.
Proof using Hnew Hgood Hsub Hlen Hlin Hok.
  intros H. destruct lin_facts as (Hsteps & _). pose proof branch_units_ok as Huo. destruct lin_build as (sets0 & brs0 & [_ _ _ _ _ L6 _]). rewrite L6 in H. unfold lead_run_of in H.
  destruct (branches lin) as [|l [|]] eqn:Eb; [done| |done]. destruct (unicode flags); [done|]. split; [done|].
  fold (unsaved l) in H.
  destruct (unsaved l) as [|[| |sa'| | |] [|[| | |sc' [m|] [] nu| |] [|[|u| | | |] rest]]] eqn:Eu; try done.
  destruct (sets lin !! sc') as [sc|] eqn:Ec; [|done]. destruct (set_has sc u prog flags) eqn:Eh; [done|].
  injection H as -> -> ->.
  assert (Hl : l ∈ [l]) by by left.
  assert (Hin : forall st, st ∈ unsaved l -> st ∈ l).
  { intros st Hst. unfold unsaved in Hst. apply list_elem_of_In, filter_In in Hst as [Hst _]. by apply list_elem_of_In. }
  pose proof (gs_steps _ _ _ _ _ _ (Hsteps l Hl)) as HF. rewrite Forall_forall in HF.
  assert (Ha : (a < length (sets lin))%nat).
  { apply (HF (SOne a)), list_elem_of_In, Hin. rewrite Eu. by left. }
  destruct (lookup_lt_is_Some_2 _ _ Ha) as [sa Hsa]. exists l, nu, rest, sa, sc.
  split; [done|]. split; [done|]. split; [done|]. split; [done|]. split; [unfold holds; by rewrite Ec|].
  eapply (Huo l); [done|]. apply Hin. rewrite Eu. by right; right; left.
Qed.

Lemma find_lead_run_answers a c x sa sc : l_lead_run lin = Some (a, c, x) ->
  sets lin !! a = Some sa -> sets lin !! c = Some sc -> forall fuel s last saves used,
  (length units + 1 < fuel + s)%nat -> (s <= length units + 1)%nat -> (last <= length units)%nat ->
  length saves = slots -> 0 <= used <= U64_MAX ->
  lin_answers s last (find_lead_run lin prog units flags b fuel sa sc x s last saves used).
Proof using Hnew Hgood Hsub Hlen Hlin Hok.
  intros Hrun Hsa Hsc. destruct (lead_run_parts a c x Hrun) as (Hu0 & l & nu & rest & sa' & sc' & Hb & Hshape & Ea & Ec & Hx & Hxu).
  rewrite Hsa in Ea. rewrite Hsc in Ec. injection Ea as <-. injection Ec as <-.
  assert (Hnone : forall t, (t <= length units)%nat ->
    step_runs prog units flags put_raw (sets lin) l t ([] : list Z) = [] <-> match_from t = None).
  { intros t Ht. rewrite <- (only_branch l t Hb Ht). split; apply runs_empty. }
  assert (Hcand : forall q, cand q = true) by (intros q; unfold is_cand; by rewrite Hu0).
  induction fuel as [|fuel IH]; intros s last saves used Hf Hs Hl Hsv Hu; [lia|]. cbn [find_lead_run].
  assert (Hstop : (forall t, (s <= t <= last)%nat -> step_runs prog units flags put_raw (sets lin) l t ([] : list Z) = []) ->
    lin_answers s last (NotFound_ used)).
  { intros H. apply lin_answers_none. intros q Hq _. apply Hnone; [lia|]. by apply H. }
  destruct ((s <=? last)%nat && (s <? length units)%nat) eqn:Ew.
  2:{ apply Hstop. intros t Ht. apply (lead_none prog units flags (sets lin) Hu0 a c x nu l rest Hshape Hx s); [|lia].
      intros y Hy. rewrite lookup_ge_None_2; [done|].
      apply andb_false_iff in Ew as [Ew%Nat.leb_gt|Ew%Nat.ltb_ge]; lia. }
  apply andb_true_iff in Ew as [Hsl%Nat.leb_le Hslen%Nat.ltb_lt].
  pose proof (find_unit_window x (s + 1) (length units - (s + 1)) Hxu) as Hq.
  rewrite take_ge in Hq by (rewrite length_drop; lia).
  destruct (find_unit (drop (s + 1) units) x) as [k|].
  2:{ apply Hstop. intros t Ht. apply (lead_none prog units flags (sets lin) Hu0 a c x nu l rest Hshape Hx s); [|lia].
      intros y Hy E. apply lookup_lt_Some in E as Hylt. by apply (Hq y ltac:(lia)). }
  destruct Hq as (Hk & Hqx & Hqn). set (q := (s + 1 + k)%nat) in *. cbv zeta.
  pose proof (lead_candidate prog units flags (sets lin) Hu0 a c x nu l rest Hshape Hx sa sc s q Hsa Hsc
    ltac:(lia) Hqx ltac:(intros y Hy; apply Hqn; lia)) as HC. cbv zeta in HC.
  destruct (position_from _ _ _ _) as [p|].
  2:{ apply (lin_answers_skip s q); [lia| |apply IH; [lia..|done|done]].
      intros t Ht _ _. apply Hnone; [lia|]. apply HC. lia. }
  destruct HC as (Hp & Hbefore & Hafter). destruct (Nat.ltb_spec last p) as [Hlp|Hlp].
  { apply Hstop. intros t Ht. apply Hbefore. lia. }
  apply (lin_answers_skip s p); [lia|intros t Ht _ _; apply Hnone; [lia|apply Hbefore; lia]|].
  assert (E : take 1 (branches lin) = branches lin) by (by rewrite Hb). rewrite E.
  replace (Nat.max q (p + 1)) with q by lia.
  eapply lin_answers_attempt; [lia|done|apply Hcand|done|done|exact (proj2 Hp)| |].
  - intros Hm t Ht Htl _. apply Hnone; [lia|]. apply Hafter; [|lia]. apply Hnone; [lia|done].
  - intros saves' used' Hsv' Hu'. apply IH; [lia..|done|done].
Qed.

Lemma find_answers s last saves used : (s <= length units)%nat -> (last <= length units)%nat ->
  length saves = slots -> 0 <= used <= U64_MAX ->
  lin_answers s last (find lin prog units flags b s last saves used).
Proof using Hnew Hgood Hsub Hlen Hlin Hok.
  intros Hs Hl Hsv Hu. unfold find. destruct (l_lead_run lin) as [[[a c] x]|] eqn:E.
  - destruct (lead_run_parts a c x E) as (-> & l & nu & rest & sa & sc & _ & _ & Ea & Ec & _). rewrite Ea, Ec.
    eapply find_lead_run_answers; [exact E|done|done|lia|lia|done|done|done].
  - apply find_loop_answers; [lia|lia|done|done|done].
Qed.

End LinSpec.

Section ScanFull.
Context `{U : UnicodeData}.

(** The scan of a regular expression with a linear form. *)
Lemma linear_scan_finds lim ast names units rx start :
  let flags := r_flags rx in
  regex_new ast names flags = Ok rx -> good_pattern (unicode flags) ast = true ->
  subject_ok units -> Z.of_nat (length units) <= MAX_STRING_LEN -> (start <= length units)%nat ->
  regex_linear rx <> None -> linear_ok rx ->
  scan_finds ast names units rx start (scan_full lim rx units start flags 0).
Proof.
  intros flags Hnew Hgood Hsub Hlen Hstart Hne Hok. unfold scan_full.
  destruct (regex_linear rx) as [lin|] eqn:Hlin; [|done].
  destruct (scan_start_cand units flags start Hstart) as [Hs' _].
  set (start' := scan_start units start flags) in *.
  destruct (lin_build rx lin Hlin) as (sets0 & brs0 & [_ _ _ _ Hslots _ _]). rewrite Hslots.
  pose proof (find_answers ast names units rx lin Hnew Hgood Hsub Hlen Hlin Hok start'
    (scan_last rx units start' flags) (replicate (2 * (group_count rx + 1)) USIZE_MAX) 0
    ltac:(lia) (scan_last_le rx units start' flags ltac:(lia)) ltac:(by rewrite length_replicate)
    ltac:(unfold U64_MAX; lia)) as H.
  unfold scan_finds. cbv zeta. fold flags. fold start'.
  pose proof (scan_window ast names units rx start' Hnew Hgood Hsub Hlen ltac:(lia)) as Ef. fold flags in Ef. rewrite Ef.
  unfold lin_answers in H. cbv zeta in H. fold flags in H.
  destruct (find _ _ _ _ _ _ _ _ _) as [sv used|used| |]; try done.
  destruct H as (q & m & Hf & ->). exists q, m. split; [done|].
  assert (Hq : (q <= length units)%nat /\ match_from ast names units rx q = Some m).
  { revert Hf. pose proof (scan_last_le rx units start' flags ltac:(lia)) as Hl. clear -Hl.
    assert (H : forall l, Forall (fun q => (q <= length units)%nat) l ->
      leftmost (match_from ast names units rx) l = Some (q, m) ->
      (q <= length units)%nat /\ match_from ast names units rx q = Some m).
    { induction 1 as [|s l Hs Hl' IH]; cbn; [done|]. destruct (match_from ast names units rx s) eqn:E; [|done].
      intros [= <- <-]. done. }
    apply H. rewrite Forall_forall. intros x Hx. unfold starts in Hx. apply filter_In in Hx as [Hx _].
    apply in_seq in Hx. lia. }
  destruct Hq as [Hq Hm].
  destruct (match_at_ok ast names units flags (r_prog rx) (group_count rx) q m (prog_of ast names rx Hnew) Hgood Hq Hm)
    as ([Hc _] & _ & Hsl).
  apply spans_of_enc; [done|]. intros slot v Hv. apply Hc in Hv. pose proof (len_small units Hlen). lia.
Qed.

(** C2: the scan as the engine runs it, with the linear matcher on the programs that
    have a linear form and with the backtracking machine on the others, finds the
    leftmost match of the reference semantics, with its captures, whatever the
    filters skip (the first step, the leading literal, the [A B* x] run), whatever
    the choice stack keeps, whether the quantifiers back off to the next literal or
    by one character, in either reading of surrogate pairs.  The pattern is one the
    parser can produce within [good_pattern].  A program with a linear form may have
    a subject of any length the engine allows, but its chains of options must each
    repeat one instruction ([linear_ok]; [optional_chain_mixes_sets] is what happens
    otherwise).  The machine needs a subject whose step budget is at most its stack
    cap (3,700 units with the engine's own constants: a longer one may run into the
    cap), lookarounds nested within the depth cap, and a leading run whose two
    copies are the same class ([lead_ok]).  A failure means there is no match, or
    that the counter ended above the budget: the engine gives up there. *)
Theorem scan_full_leftmost lim ast names units rx start :
  let flags := r_flags rx in
  regex_new ast names flags = Ok rx -> good_pattern (unicode flags) ast = true ->
  subject_ok units -> Z.of_nat (length units) <= MAX_STRING_LEN -> (start <= length units)%nat ->
  match regex_linear rx with
  | Some _ => linear_ok rx
  | None => lead_ok rx /\ Z.of_nat (prog_depth (r_prog rx)) <= MAX_DEPTH lim /\ budget_for (length units) <= MAX_STACK lim
  end ->
  let start' := scan_start units start flags in
  let found := leftmost (match_at units names flags ast (group_count rx))
    (starts units (unicode flags) start' (if sticky flags then start' else length units)) in
  match scan_full lim rx units start flags 0 with
  | Matched gs _ => exists q m, found = Some (q, m) /\ gs = pair_saves m.2 (group_count rx)
  | NoMatch steps => found = None \/ budget_for (length units) < steps
  | AttemptPanic | AttemptFuel => False
  end.
Proof.
  intros flags Hnew Hgood Hsub Hlen Hstart Hok.
  change (scan_finds ast names units rx start (scan_full lim rx units start flags 0)).
  destruct (regex_linear rx) as [lin|] eqn:El.
  - apply linear_scan_finds; try done. by rewrite El.
  - destruct Hok as (Hlead & Hd & Hst). unfold scan_full. rewrite El. by apply scan_into_finds.
Qed.

(** [find_unit], which looks at four units packed in a word and tests the word
    for a zero lane, answers as a plain search for the first occurrence. *)
Theorem find_unit_correct hay x : Forall unit_ok hay -> unit_ok x -> find_unit hay x = position_of x hay.
Proof. intros Hh Hx. by apply (find_unit_position x Hx (length hay)). Qed.

End ScanFull.

(** ** Concrete scans *)

#[local] Existing Instance ascii_data.

Lemma find_unit_correct_witness :
  Forall unit_ok [1; 0; 65535; 32768; 7] /\ unit_ok 7 /\ find_unit [1; 0; 65535; 32768; 7] 7 = Some 4%nat.
Proof.
  assert (H : Forall unit_ok [1; 0; 65535; 32768; 7]) by (repeat constructor; unfold unit_ok; lia).
  assert (Hx : unit_ok 7) by (unfold unit_ok; lia).
  split; [exact H|]. split; [exact Hx|]. rewrite (find_unit_correct _ 7 H Hx). reflexivity.
Defined.

(** [/([ab]+)x{0,2}y/]. *)
Definition linear_pattern : Node :=
  NConcat [NGroup (Some 1%nat) (NRepeat class_ab 1 None true); NRepeat (NChar 120) 0 (Some 2) true; NChar 121].

Definition linear_prog : list Inst := Eval vm_compute in r_prog (regex_of linear_pattern).

Definition linear_subject : list Z := [97; 99; 97; 98; 120; 121].

Lemma ascii_linear_ok rx : (forall pc c, r_prog rx !! pc = Some (Char c) -> 0 <= c) ->
  chains_uniform (r_prog rx) (r_flags rx) -> (unicode_sets (r_flags rx) = true -> unicode (r_flags rx) = true) ->
  linear_ok rx.
Proof.
  intros Hc Hu Hf. split; [exact Hf| |exact Hc|exact Hu]. intros c first H E. cbn in E. injection E as <-.
  unfold to_ascii_uppercase. destruct (in_range 97 122 c); lia.
Qed.

Lemma scan_full_leftmost_witness :
  regex_linear (regex_of linear_pattern) <> None /\
  match scan_full default_limits (regex_of linear_pattern) linear_subject 0 plain_flags 0 with
  | Matched gs _ => gs = [Some (2, 6); Some (2, 4)]%nat
  | _ => False
  end.
Proof.
  assert (Hl : exists lin, regex_linear (regex_of linear_pattern) = Some lin).
  { eexists. vm_compute. reflexivity. }
  assert (Hf : r_flags (regex_of linear_pattern) = plain_flags) by (vm_compute; reflexivity).
  assert (HP : r_prog (regex_of linear_pattern) = linear_prog) by (vm_compute; reflexivity).
  assert (Hok : linear_ok (regex_of linear_pattern)).
  { apply ascii_linear_ok.
    - rewrite HP. intros pc c H. do 16 (destruct pc as [|pc]; [cbn in H; first [discriminate|injection H as <-; lia]|]).
      cbn in H. discriminate.
    - rewrite Hf, HP. intros pc count greedy exit i Ho Hi j i' Hj Hi'.
      do 16 (destruct pc as [|pc]; [vm_compute in Ho; first [discriminate|injection Ho as <- _ _;
        destruct j as [|[|j]]; first [lia | vm_compute in Hi, Hi'; congruence]]|]).
      vm_compute in Ho. discriminate.
    - rewrite Hf. discriminate. }
  destruct Hl as [lin Hl].
  pose proof (scan_full_leftmost default_limits linear_pattern [] linear_subject (regex_of linear_pattern) 0) as H.
  rewrite Hf, Hl in H. specialize (H ltac:(vm_compute; reflexivity) ltac:(vm_compute; reflexivity)
    ltac:(unfold subject_ok; repeat constructor; lia) ltac:(vm_compute; discriminate) ltac:(cbn; lia) Hok).
  split; [rewrite Hl; discriminate|].
  assert (E : exists st', scan_full default_limits (regex_of linear_pattern) linear_subject 0 plain_flags 0 =
    Matched [Some (2, 6); Some (2, 4)]%nat st').
  { eexists. vm_compute. reflexivity. }
  revert H. destruct E as [st' ->]. intros _. reflexivity.
Defined.

(** [/(?:ab?)?c/]. *)
Definition mixed_chain_pattern : Node :=
  NConcat [NRepeat (NConcat [NChar 97; NRepeat (NChar 98) 0 (Some 1) true]) 0 (Some 1) true; NChar 99].

(** C39: the linear matcher takes a chain of options for repetitions of its first
    instruction: [optional_chain] checks that each of them consumes a character,
    not which.  On [/(?:ab?)?c/] it makes [a{0,2}] of [(?:ab?)?], so in "abc" the
    engine answers the match at 2, where the pattern, and the backtracking
    machine, match the whole subject from 0. *)
Theorem optional_chain_mixes_sets :
  regex_new mixed_chain_pattern [] plain_flags = Ok (regex_of mixed_chain_pattern) /\
  regex_linear (regex_of mixed_chain_pattern) <> None /\
  (exists st, scan_full default_limits (regex_of mixed_chain_pattern) [97; 98; 99] 0 plain_flags 0 =
    Matched [Some (2, 3)]%nat st) /\
  (exists st, scan_into default_limits (regex_of mixed_chain_pattern) [97; 98; 99] 0 plain_flags 0 =
    Matched [Some (0, 3)]%nat st) /\
  exists m, match_at [97; 98; 99] [] plain_flags mixed_chain_pattern 0 0 = Some m /\ group_span m.2 0 = Some (0, 3)%nat.
Proof.
  split; [vm_compute; reflexivity|].
  split; [vm_compute; discriminate|].
  split; [eexists; vm_compute; reflexivity|].
  split; [eexists; vm_compute; reflexivity|].
  eexists. split; [vm_compute; reflexivity|]. vm_compute. reflexivity.
Qed.
