(* ===== verification/Prog.v ===== *)
(** * Programs over a state, byte strings and ordered maps

    The object model ([shape.rs], [object.rs], [ic.rs]) is stateful code over
    shared cells.  A method is a function of the state that answers a value and
    the next state, or nothing when the code panics; [wp] is its weakest
    precondition.  A [&str] is its list of bytes, and the keys of a [BTreeMap] are
    iterated in the order of those bytes. *)

From Stdlib Require Import Ascii String.
From stdpp Require Export gmap sorting.

From S2P Require Import Prelude.


(** ** Definitions *)

(** *** Programs *)

Definition prog (S A : Type) : Type := S -> option (A * S).

#[global] Instance prog_ret S : MRet (prog S) := fun _ x s => Some (x, s).
#[global] Instance prog_bind S : MBind (prog S) :=
  fun _ _ f m s => match m s with Some (x, s') => f x s' | None => None end.

(** A panic. *)
Definition panic {S A} : prog S A := fun _ => None.
Definition gets {S A} (f : S -> A) : prog S A := fun s => Some (f s, s).
Definition modify {S} (f : S -> S) : prog S unit := fun s => Some (tt, f s).
Definition act {S A} (f : S -> A * S) : prog S A := fun s => Some (f s).

(** [Option::expect] and indexing: a panic on [None]. *)
Definition unwrap {S A} (o : option A) : prog S A :=
  match o with Some x => mret x | None => panic end.

Definition when {S} (b : bool) (m : prog S unit) : prog S unit := if b then m else mret tt.

(** [a || b] and [a && b] where [b] is a call. *)
Definition or_else {S} (a : bool) (m : prog S bool) : prog S bool := if a then mret true else m.
Definition and_then {S} (a : bool) (m : prog S bool) : prog S bool := if a then m else mret false.

(** [Iterator::filter] with a predicate that touches the state. *)
Fixpoint filter_prog {S A} (p : A -> prog S bool) (l : list A) : prog S (list A) :=
  match l with
  | [] => mret []
  | x :: l =>
      b ← p x;
      r ← filter_prog p l;
      mret (if b : bool then x :: r else r)
  end.

Fixpoint map_prog {S A B} (f : A -> prog S B) (l : list A) : prog S (list B) :=
  match l with
  | [] => mret []
  | x :: l => y ← f x; r ← map_prog f l; mret (y :: r)
  end.

(** A loop over a list whose body threads an accumulator. *)
Fixpoint fold_prog {S A B} (f : B -> A -> prog S B) (acc : B) (l : list A) : prog S B :=
  match l with
  | [] => mret acc
  | x :: l => acc' ← f acc x; fold_prog f acc' l
  end.

Definition wp {S A} (m : prog S A) (Q : A -> S -> Prop) (s : S) : Prop :=
  match m s with Some (x, s') => Q x s' | None => False end.

(** *** Strings *)

Abbreviation key := (list Z).

Definition bytes (s : string) : key :=
  (fun a => Z.of_nat (nat_of_ascii a)) <$> list_ascii_of_string s.

(** [str::starts_with]. *)
Fixpoint starts_with (k p : key) {struct p} : bool :=
  match p, k with
  | [], _ => true
  | b :: p, c :: k => (b =? c) && starts_with k p
  | _ :: _, [] => false
  end.

(** [Ord] on byte strings. *)
Fixpoint bytes_le (a b : key) : bool :=
  match a, b with
  | [], _ => true
  | _ :: _, [] => false
  | x :: a, y :: b => if x <? y then true else if y <? x then false else bytes_le a b
  end.

(** *** [BTreeMap]: a finite map iterated in the order of its keys *)

#[global] Instance entry_le_dec {V} : forall x y : key * V, Decision (bytes_le (fst x) (fst y) = true) :=
  fun x y => decide _.

Definition btree_iter {V} (m : gmap key V) : list (key * V) :=
  merge_sort (fun x y => bytes_le (fst x) (fst y) = true) (map_to_list m).
Definition btree_keys {V} (m : gmap key V) : list key := fst <$> btree_iter m.
Definition btree_values {V} (m : gmap key V) : list V := snd <$> btree_iter m.

(** [map.range((Bound::Included(lo), Bound::Unbounded))]. *)
Definition btree_range {V} (m : gmap key V) (lo : key) : list (key * V) :=
  List.filter (fun kv => bytes_le lo (fst kv)) (btree_iter m).

(** ** Weakest preconditions *)

Section Wp.
Context {S A B : Type}.
Implicit Types (s : S).

Lemma wp_ret (x : A) (Q : A -> S -> Prop) s : Q x s -> wp (mret x) Q s.
Proof. done. Qed.

Lemma wp_bind (m : prog S A) (f : A -> prog S B) (Q : B -> S -> Prop) s :
  wp m (fun x => wp (f x) Q) s -> wp (m ≫= f) Q s.
Proof. unfold wp, mbind, prog_bind. by destruct (m s) as [[x s']|]. Qed.

Lemma wp_mono (m : prog S A) (P Q : A -> S -> Prop) s :
  wp m P s -> (forall x s', P x s' -> Q x s') -> wp m Q s.
Proof. unfold wp. destruct (m s) as [[x s']|]; auto. Qed.

Lemma wp_and (m : prog S A) (P Q : A -> S -> Prop) s :
  wp m P s -> wp m Q s -> wp m (fun x s' => P x s' /\ Q x s') s.
Proof. unfold wp. destruct (m s) as [[x s']|]; auto. Qed.

Lemma wp_run (m : prog S A) (Q : A -> S -> Prop) s :
  wp m Q s -> exists x s', m s = Some (x, s') /\ Q x s'.
Proof. unfold wp. destruct (m s) as [[x s']|]; [eauto|done]. Qed.

Lemma wp_gets (f : S -> A) (Q : A -> S -> Prop) s : Q (f s) s -> wp (gets f) Q s.
Proof. done. Qed.

Lemma wp_modify (f : S -> S) (Q : unit -> S -> Prop) s : Q tt (f s) -> wp (modify f) Q s.
Proof. done. Qed.

Lemma wp_act (f : S -> A * S) (Q : A -> S -> Prop) s : Q (fst (f s)) (snd (f s)) -> wp (act f) Q s.
Proof. unfold wp, act. by destruct (f s). Qed.

Lemma wp_unwrap (o : option A) (x : A) (Q : A -> S -> Prop) s : o = Some x -> Q x s -> wp (unwrap o) Q s.
Proof. by intros ->. Qed.
End Wp.

(** ** Byte order *)

Lemma bytes_le_refl a : bytes_le a a = true.
Proof. induction a as [|x a IH]; simpl; [done|]. by rewrite Z.ltb_irrefl. Qed.

Lemma bytes_le_trans a b c : bytes_le a b = true -> bytes_le b c = true -> bytes_le a c = true.
Proof.
  revert b c. induction a as [|x a IH]; intros [|y b] [|z c]; simpl; try done. case_cmp; try done; try lia.
  apply IH.
Qed.

Lemma bytes_le_total a b : bytes_le a b = true \/ bytes_le b a = true.
Proof.
  revert b. induction a as [|x a IH]; intros [|y b]; simpl; auto. case_cmp; auto; lia.
Qed.

Lemma bytes_le_antisym a b : bytes_le a b = true -> bytes_le b a = true -> a = b.
Proof.
  revert b. induction a as [|x a IH]; intros [|y b]; simpl; try done. case_cmp; try done; try lia.
  intros. f_equal; [lia|auto].
Qed.

#[global] Instance entry_le_total {V} : Total (fun x y : key * V => bytes_le (fst x) (fst y) = true).
Proof. intros x y. apply bytes_le_total. Qed.

#[global] Instance entry_le_trans {V} : Transitive (fun x y : key * V => bytes_le (fst x) (fst y) = true).
Proof. intros x y z. apply bytes_le_trans. Qed.

Lemma btree_iter_perm {V} (m : gmap key V) : btree_iter m ≡ₚ map_to_list m.
Proof. apply merge_sort_Permutation. Qed.

Lemma btree_iter_elem {V} (m : gmap key V) k v : (k, v) ∈ btree_iter m <-> m !! k = Some v.
Proof. by rewrite btree_iter_perm, elem_of_map_to_list. Qed.

Lemma btree_keys_elem {V} (m : gmap key V) k : k ∈ btree_keys m <-> is_Some (m !! k).
Proof.
  unfold btree_keys. rewrite list_elem_of_fmap. split.
  - intros ([k' v] & -> & H). apply btree_iter_elem in H. by eexists.
  - intros [v H]. exists (k, v). split; [done|]. by apply btree_iter_elem.
Qed.

Lemma btree_values_elem {V} (m : gmap key V) v : v ∈ btree_values m <-> exists k, m !! k = Some v.
Proof.
  unfold btree_values. rewrite list_elem_of_fmap. split.
  - intros ([k v'] & -> & H). apply btree_iter_elem in H. by eexists.
  - intros [k H]. exists (k, v). split; [done|]. by apply btree_iter_elem.
Qed.

Lemma btree_iter_sorted {V} (m : gmap key V) :
  StronglySorted (fun x y => bytes_le (fst x) (fst y) = true) (btree_iter m).
Proof. apply StronglySorted_merge_sort; apply _. Qed.

(** ** Prefixes *)

Lemma starts_with_app p k : starts_with (p ++ k) p = true.
Proof. induction p as [|b p IH]; simpl; [by destruct k|]. by rewrite Z.eqb_refl. Qed.

Lemma starts_with_spec k p : starts_with k p = true <-> exists r, k = p ++ r.
Proof.
  split.
  - revert k. induction p as [|b p IH]; intros k; [by exists k|]. destruct k as [|c k]; [done|]. simpl.
    rewrite andb_true_iff, Z.eqb_eq. intros [-> H]. apply IH in H as [r ->]. by exists r.
  - intros [r ->]. apply starts_with_app.
Qed.

(** The strings that start with [p] are an interval that begins at [p]. *)
Lemma starts_with_le k p : starts_with k p = true -> bytes_le p k = true.
Proof.
  intros (r & ->)%starts_with_spec. induction p as [|b p IH]; simpl; [done|]. by rewrite Z.ltb_irrefl.
Qed.

Lemma starts_with_interval p a b :
  bytes_le p a = true -> bytes_le a b = true -> starts_with b p = true -> starts_with a p = true.
Proof.
  revert a b. induction p as [|x p IH]; intros a b Hpa Hab Hb; simpl; [by destruct a|].
  destruct a as [|y a]; [done|]. destruct b as [|z b]; [done|]. simpl in *.
  apply andb_true_iff in Hb as [->%Z.eqb_eq Hb]. rewrite andb_true_iff, Z.eqb_eq.
  destruct (Z.ltb_spec z y); destruct (Z.ltb_spec y z); try done; try lia. split; [lia|]. eauto.
Qed.
