(* ===== verification/Probe.v ===== *)
(** * Linear probing

    Three tables of the engine are open-addressed: the keys of a layout
    ([shape.rs]), the side tables keyed by a handle ([realm/handle_map.rs]) and the
    index of a [Map] or [Set] ([realm/coll_index.rs]).  Their loops step from a home
    place through a power-of-two table until a slot stops them.  This file has what
    they share: the loop, circular distances, the invariant that no vacant slot
    lies between an entry and its home ([chained]), and the counting of slots. *)

From stdpp Require Import list.
From S2P Require Import Prelude.
Open Scope Z_scope.

(** ** Definitions *)

(** [loop { match slot i { .. => stop with r, _ => i = (i + 1) & mask } }]: nothing
    once the fuel is gone. *)
Fixpoint probe_loop {R} (fuel : nat) (stop : Z -> option R) (mask i : Z) : option R :=
  match fuel with
  | O => None
  | S fuel =>
      match stop i with
      | Some r => Some r
      | None => probe_loop fuel stop mask (Z.land (i + 1) mask)
      end
  end.

(** [usize::next_power_of_two]. *)
Definition next_power_of_two (n : Z) : Z := if n <=? 1 then 1 else 2 ^ (Z.log2 (n - 1) + 1).

(** The slot at [i] of a table whose empty slots are [d]. *)
Definition slot_at {T} (d : T) (t : list T) (i : Z) : T := nth (Z.to_nat i) t d.
Definition slot_set {T} (i : Z) (x : T) (t : list T) : list T := <[Z.to_nat i := x]> t.

(** How many slots satisfy [f]. *)
Definition count_if {T} (f : T -> bool) (t : list T) : Z := Z.of_nat (length (List.filter f t)).

(** ** Powers of two *)

Lemma next_power_of_two_spec n : 0 <= n -> exists e, 0 <= e /\ next_power_of_two n = 2 ^ e /\ n <= 2 ^ e.
Proof.
  intros Hn. unfold next_power_of_two. destruct (Z.leb_spec n 1).
  - exists 0. split_and!; [lia|done|lia].
  - exists (Z.log2 (n - 1) + 1). pose proof (Z.log2_nonneg (n - 1)). pose proof (Z.log2_spec (n - 1) ltac:(lia)).
    split_and!; [lia|done|]. replace (Z.log2 (n - 1) + 1) with (Z.succ (Z.log2 (n - 1))) by lia. lia.
Qed.

(** The first number at which a test that holds somewhere holds. *)
Lemma first_true (f : Z -> bool) n : 0 <= n -> f n = true ->
  exists j, 0 <= j <= n /\ f j = true /\ forall j', 0 <= j' < j -> f j' = false.
Proof.
  intros Hn Hf. destruct (list_find (fun j => f (Z.of_nat j) = true) (seq 0 (S (Z.to_nat n)))) as [[i j]|] eqn:E.
  - apply list_find_Some in E as (Hi & Hj & Hlt). apply lookup_seq in Hi as [-> Hi]. rewrite Nat.add_0_l in Hj.
    exists (Z.of_nat i). split; [lia|]. split; [done|]. intros j' Hj'. apply not_true_is_false.
    specialize (Hlt (Z.to_nat j') (Z.to_nat j')). rewrite Z2Nat.id in Hlt by lia. apply Hlt; [|lia].
    apply lookup_seq. lia.
  - apply list_find_None in E. rewrite Forall_forall in E. destruct (E (Z.to_nat n)).
    + apply list_elem_of_In, elem_of_seq. lia.
    + by rewrite Z2Nat.id by lia.
Qed.

(** ** Places of a table of [2 ^ e] slots *)

(** The place [j] steps after [a], and the steps from [a] to [p]. *)
Definition place (e a j : Z) : Z := (a + j) mod 2 ^ e.
Definition dist (e a p : Z) : Z := (p - a) mod 2 ^ e.

Section Places.
Context (e : Z) (He : 0 <= e).
Let cap : Z := 2 ^ e.

Lemma cap_pos : 0 < cap.
Proof using He. unfold cap. lia. Qed.

Lemma land_mask i : Z.land i (cap - 1) = i mod cap.
Proof using He. unfold cap. rewrite <- Z.land_ones by done. by rewrite Z.ones_equiv. Qed.

Lemma place_range a j : 0 <= place e a j < cap.
Proof using He. apply Z.mod_pos_bound, cap_pos. Qed.

Lemma dist_range a p : 0 <= dist e a p < cap.
Proof using He. apply Z.mod_pos_bound, cap_pos. Qed.

Lemma place_0 a : place e a 0 = a mod cap.
Proof using. unfold place. by rewrite Z.add_0_r. Qed.

Lemma place_step a j : Z.land (place e a j + 1) (cap - 1) = place e a (j + 1).
Proof using He.
  pose proof cap_pos. unfold place. rewrite land_mask, Zplus_mod_idemp_l. f_equal. lia.
Qed.

Lemma place_place a j k : place e (place e a j) k = place e a (j + k).
Proof using He. unfold place. rewrite Zplus_mod_idemp_l. f_equal. lia. Qed.

Lemma place_dist a p : 0 <= p < cap -> place e a (dist e a p) = p.
Proof using He.
  intros Hp. pose proof cap_pos. unfold place, dist. rewrite Zplus_mod_idemp_r. replace (a + (p - a)) with p by lia.
  by apply Z.mod_small.
Qed.

Lemma dist_place a j : 0 <= j < cap -> dist e a (place e a j) = j.
Proof using He.
  intros Hj. pose proof cap_pos. unfold place, dist. rewrite Zminus_mod_idemp_l. replace (a + j - a) with j by lia.
  by apply Z.mod_small.
Qed.

Lemma dist_refl a : dist e a a = 0.
Proof using. unfold dist. by rewrite Z.sub_diag. Qed.

Lemma place_inj a j k : 0 <= j < cap -> 0 <= k < cap -> place e a j = place e a k -> j = k.
Proof using He. intros Hj Hk E. rewrite <- (dist_place a j), <- (dist_place a k) by done. by rewrite E. Qed.

(** Both ways round, without the remainder. *)
Lemma dist_cases a p : 0 <= a < cap -> 0 <= p < cap -> dist e a p = if a <=? p then p - a else p - a + cap.
Proof using He.
  intros Ha Hp. pose proof cap_pos. unfold dist. fold cap. destruct (Z.leb_spec a p).
  - apply Z.mod_small. lia.
  - symmetry. apply Z.mod_unique_pos with (q := -1); lia.
Qed.

Lemma place_cases a j : 0 <= a < cap -> 0 <= j < cap -> place e a j = if a + j <? cap then a + j else a + j - cap.
Proof using He.
  intros Ha Hj. pose proof cap_pos. unfold place. fold cap. destruct (Z.ltb_spec (a + j) cap).
  - apply Z.mod_small. lia.
  - symmetry. apply Z.mod_unique_pos with (q := 1); lia.
Qed.

(** ** The loop *)

Lemma probe_loop_stops {R} (stop : Z -> option R) a r : forall fuel k j, 0 <= j -> j < Z.of_nat fuel ->
  (forall j', 0 <= j' < j -> stop (place e a (k + j')) = None) -> stop (place e a (k + j)) = Some r ->
  probe_loop fuel stop (cap - 1) (place e a k) = Some r.
Proof using He.
  induction fuel as [|fuel IH]; intros k j Hj Hf Hbefore Hstop; [lia|]. cbn [probe_loop].
  destruct (decide (j = 0)) as [->|Hne].
  - rewrite Z.add_0_r in Hstop. by rewrite Hstop.
  - pose proof (Hbefore 0 ltac:(lia)) as H0. rewrite Z.add_0_r in H0. rewrite H0, place_step.
    apply (IH (k + 1) (j - 1)); [lia|lia| |].
    + intros j' Hj'. replace (k + 1 + j') with (k + (j' + 1)) by lia. apply Hbefore. lia.
    + by replace (k + 1 + (j - 1)) with (k + j) by lia.
Qed.

(** A slot that stops the loop is met within one round, and it is the first. *)
Lemma probe_loop_ends {R} (stop : Z -> option R) a p fuel : 0 <= p < cap -> is_Some (stop p) -> cap <= Z.of_nat fuel ->
  exists j r, 0 <= j <= dist e a p /\ probe_loop fuel stop (cap - 1) (a mod cap) = Some r /\
    stop (place e a j) = Some r /\ forall j', 0 <= j' < j -> stop (place e a j') = None.
Proof using He.
  intros Hp [r0 Hr0] Hfuel. pose proof (dist_range a p) as Hd.
  destruct (first_true (fun j => match stop (place e a j) with Some _ => true | None => false end) (dist e a p)) as (j & Hj & Hs & Hb).
  - lia.
  - rewrite place_dist by done. by rewrite Hr0.
  - destruct (stop (place e a j)) as [r|] eqn:Er; [|done]. exists j, r. split; [done|].
    assert (Hb' : forall j', 0 <= j' < j -> stop (place e a j') = None).
    { intros j' Hj'. specialize (Hb j' Hj'). by destruct (stop (place e a j')). }
    split; [|done]. rewrite <- place_0. apply (probe_loop_stops stop a r fuel 0 j); [lia|lia| |done].
    intros j' Hj'. by apply Hb'.
Qed.
End Places.

(** ** Slots *)

Section Slots.
Context {T : Type} (d : T).
Implicit Types (t : list T).

Lemma slot_at_lookup t i x : 0 <= i -> t !! Z.to_nat i = Some x -> slot_at d t i = x.
Proof using. intros _ H. unfold slot_at. by rewrite nth_lookup, H. Qed.

Lemma slot_at_in t i : 0 <= i < Z.of_nat (length t) -> t !! Z.to_nat i = Some (slot_at d t i).
Proof using.
  intros Hi. unfold slot_at. rewrite nth_lookup. destruct (t !! Z.to_nat i) eqn:E; [done|]. apply lookup_ge_None in E. lia.
Qed.

Lemma slot_at_set t p q x : 0 <= p < Z.of_nat (length t) -> 0 <= q ->
  slot_at d (slot_set p x t) q = if decide (p = q) then x else slot_at d t q.
Proof using.
  intros Hp Hq. unfold slot_at, slot_set. rewrite !nth_lookup. destruct (decide (p = q)) as [->|Hne].
  - by rewrite list_lookup_insert_eq by lia.
  - by rewrite list_lookup_insert_ne by lia.
Qed.

Lemma length_slot_set p x t : length (slot_set p x t) = length t.
Proof using. apply length_insert. Qed.

Lemma slot_at_replicate n i : slot_at d (replicate n d) i = d.
Proof using. unfold slot_at. rewrite nth_lookup. destruct (_ !! _) eqn:E; [|done]. by apply lookup_replicate in E as [-> _]. Qed.

Lemma count_if_set (f : T -> bool) t p x : 0 <= p < Z.of_nat (length t) ->
  count_if f (slot_set p x t) = count_if f t - Z.b2z (f (slot_at d t p)) + Z.b2z (f x).
Proof using.
  intros Hp. pose proof (slot_at_in t p Hp) as Hl. unfold slot_set, count_if. revert Hl. generalize (slot_at d t p) as y. clear Hp.
  generalize (Z.to_nat p) as n. clear p. induction t as [|z t IH]; intros [|n] y Hl; simplify_eq/=.
  - destruct (f x), (f y); simpl; lia.
  - specialize (IH n y Hl). destruct (f z); simpl; lia.
Qed.

Lemma count_if_replicate (f : T -> bool) n : f d = false -> count_if f (replicate n d) = 0.
Proof using. intros Hd. unfold count_if. induction n; simpl; [done|]. by rewrite Hd. Qed.

Lemma count_if_le (f : T -> bool) t : 0 <= count_if f t <= Z.of_nat (length t).
Proof using. unfold count_if. induction t as [|x t IH]; simpl; [lia|]. destruct (f x); simpl; lia. Qed.

Lemma count_if_room (f : T -> bool) t : count_if f t < Z.of_nat (length t) ->
  exists p, 0 <= p < Z.of_nat (length t) /\ f (slot_at d t p) = false.
Proof using.
  intros Hlt. destruct (decide (Exists (fun x => f x = false) t)) as [Hx|Hx].
  - apply Exists_exists in Hx as (x & Hin & Hf). apply list_elem_of_In, list_elem_of_lookup in Hin as (n & Hn).
    exists (Z.of_nat n). pose proof (lookup_lt_Some _ _ _ Hn). split; [lia|]. unfold slot_at. by rewrite Nat2Z.id, nth_lookup, Hn.
  - exfalso. apply not_Exists_Forall in Hx; [|intros ?; apply _]. unfold count_if in Hlt.
    assert (List.filter f t = t) as Ef; [|rewrite Ef in Hlt; lia]. clear Hlt. induction Hx as [|x t Hne _ IH]; simpl; [done|].
    apply not_false_is_true in Hne. rewrite Hne. by f_equal.
Qed.

Lemma count_if_app (f : T -> bool) t t' : count_if f (t ++ t') = count_if f t + count_if f t'.
Proof using. unfold count_if. rewrite List.filter_app, length_app. lia. Qed.
End Slots.

(** ** Entries *)

(** The entries a table holds, in table order. *)
Lemma omap_set_perm {T A} (d : T) (view : T -> option A) (t : list T) p x : 0 <= p < Z.of_nat (length t) ->
  option_list (view (slot_at d t p)) ++ omap view (slot_set p x t) ≡ₚ option_list (view x) ++ omap view t.
Proof.
  intros Hp. pose proof (slot_at_in d t p Hp) as Hl. unfold slot_set. revert Hl. generalize (slot_at d t p) as y. clear Hp.
  generalize (Z.to_nat p) as n. clear p. induction t as [|z t IH]; intros [|n] y Hl; simplify_eq/=.
  - destruct (view x), (view y); simpl; auto using Permutation_swap.
  - specialize (IH n y Hl). destruct (view z) as [v|]; [|done].
    rewrite <- (Permutation_middle (option_list (view y))), <- (Permutation_middle (option_list (view x))). by constructor.
Qed.

Lemma omap_elem_slot {T A} (d : T) (view : T -> option A) (t : list T) a :
  a ∈ omap view t <-> exists p, 0 <= p < Z.of_nat (length t) /\ view (slot_at d t p) = Some a.
Proof.
  rewrite list_elem_of_omap. split.
  - intros (x & Hin & Hx). apply list_elem_of_lookup in Hin as (n & Hn). pose proof (lookup_lt_Some _ _ _ Hn).
    exists (Z.of_nat n). split; [lia|]. by rewrite (slot_at_lookup d t (Z.of_nat n) x) by (rewrite ?Nat2Z.id; lia || done).
  - intros (p & Hp & Hx). exists (slot_at d t p). split; [|done]. eapply list_elem_of_lookup_2, slot_at_in, Hp.
Qed.

(** ** The invariant of a table

    A slot is vacant or not ([vac]), and may hold an entry ([view]) whose home is
    [home].  Between an entry and its home no slot is vacant. *)
Section Chains.
Context {T A : Type} (d : T) (vac : T -> bool) (view : T -> option A) (home : A -> Z) (e : Z) (He : 0 <= e).
Let cap : Z := 2 ^ e.
Implicit Types (t : list T).

Definition chained t : Prop :=
  forall p a, 0 <= p < cap -> view (slot_at d t p) = Some a ->
    forall j, 0 <= j < dist e (home a) p -> vac (slot_at d t (place e (home a) j)) = false.

(** A full slot may be put where the way from its home is full. *)
Lemma chained_set t p x : Z.of_nat (length t) = cap -> 0 <= p < cap -> vac x = false ->
  (forall a, view x = Some a -> forall j, 0 <= j < dist e (home a) p -> vac (slot_at d t (place e (home a) j)) = false) ->
  chained t -> chained (slot_set p x t).
Proof using He.
  intros Hlen Hp Hx Hway Hc q a Hq Hv j Hj. pose proof (place_range e He (home a) j) as Hr. fold cap in Hr.
  rewrite slot_at_set in Hv |- * by lia. destruct (decide (p = place e (home a) j)) as [|Hne]; [done|].
  destruct (decide (p = q)) as [->|Hpq]; [by apply (Hway a)|]. by apply (Hc q a).
Qed.

Lemma chained_empty n : view d = None -> chained (replicate n d).
Proof using. intros Hd p a _ Hv. rewrite slot_at_replicate, Hd in Hv. done. Qed.

(** A search from [a0] that stops at every vacant slot ends, at [p] say; and if
    [p] is vacant, then no entry whose home is [a0] would have stopped it. *)
Lemma chained_walk {R} t (stop : Z -> T -> option R) a0 :
  Z.of_nat (length t) = cap -> chained t -> count_if (fun x => negb (vac x)) t < cap ->
  (forall x, vac x = true -> view x = None) -> (forall i x, vac x = true -> is_Some (stop i x)) ->
  exists p r, probe_loop (length t) (fun i => stop i (slot_at d t i)) (cap - 1) (a0 mod cap) = Some r /\
    0 <= p < cap /\ stop p (slot_at d t p) = Some r /\
    (forall j, 0 <= j < dist e a0 p -> stop (place e a0 j) (slot_at d t (place e a0 j)) = None) /\
    (vac (slot_at d t p) = true -> forall q a, 0 <= q < cap -> view (slot_at d t q) = Some a -> home a = a0 ->
       stop q (slot_at d t q) = None).
Proof using He.
  intros Hlen Hc Hroom Hview Hstop. rewrite <- Hlen in Hroom. destruct (count_if_room d _ t Hroom) as (p0 & Hp0 & Hv0).
  apply negb_false_iff in Hv0. rewrite Hlen in Hp0.
  destruct (probe_loop_ends e He (fun i => stop i (slot_at d t i)) a0 p0 (length t) Hp0 (Hstop p0 _ Hv0)) as (j & r & Hj & Hrun & Hs & Hb).
  { fold cap. lia. }
  fold cap in Hrun. pose proof (dist_range e He a0 p0) as Hd0. fold cap in Hd0. exists (place e a0 j), r. split; [done|].
  split; [apply (place_range e He)|]. split; [done|]. rewrite dist_place by (done || (fold cap; lia)). split; [done|].
  intros Hvac q a Hq Hv <-. pose proof (dist_range e He (home a) q) as Hdq. fold cap in Hdq.
  destruct (Z.lt_trichotomy (dist e (home a) q) j) as [Hlt|[Heq|Hgt]].
  - rewrite <- (place_dist e He (home a) q Hq). apply Hb. lia.
  - rewrite <- Heq, (place_dist e He (home a) q Hq) in Hvac. apply Hview in Hvac. congruence.
  - rewrite (Hc q a Hq Hv j) in Hvac by lia. done.
Qed.
End Chains.
