(* ===== verification/Shape.v ===== *)
(** * Hidden classes: [src/src/shape.rs]

    A [Shape] is shared ([Rc]) and has mutable cells, so the shapes live in a
    store, [Shapes], and an [Rc<Shape>] is an identity in it.  A [Weak] is the
    same identity, which [upgrade] finds in the store as long as the shape is
    alive; identities are never given twice, so a dead [Weak] stays dead.
    [release] is the drop of the last owner of a shape: it may happen at any time
    to a shape no live shape has as its parent.  The methods take the store and
    answer with the next one.  Loops that follow parent links have the identity of
    the shape as fuel (a parent is older than its child); the theorems show that
    no fuel runs out. *)

From Stdlib Require Import String.
From S2P Require Import Prelude Prog Probe.

#[local] Abbreviation length := Datatypes.length.
#[local] Open Scope Z_scope.

(** ** Definitions *)

Definition INDEX_MIN_LEN : Z := 8.
Definition INDEX_AFTER_PROBES : Z := 3.
Definition TRANSITION_LIST_MAX : nat := 16.

(** *** The hash of a key *)

Definition KEY_HASH_K : Z := 0x517cc1b727220a95.
Definition rotate_left64 (h n : Z) : Z :=
  as_u64 (Z.lor (Z.shiftl h n) (Z.shiftr h (64 - n))).

Fixpoint from_le_bytes (l : list Z) : Z :=
  match l with [] => 0 | b :: l => b + 256 * from_le_bytes l end.

Definition hash_step (h w : Z) : Z := as_u64 (Z.lxor (rotate_left64 h 5) w * KEY_HASH_K).

(** The whole words of [bytes.as_chunks::<8>()], then the padded rest. *)
Fixpoint hash_words (fuel : nat) (h : Z) (b : list Z) : Z :=
  match fuel with
  | O => h
  | S fuel =>
      if (8 <=? length b)%nat then hash_words fuel (hash_step h (from_le_bytes (take 8 b))) (drop 8 b)
      else match b with
           | [] => h
           | _ :: _ => hash_step h (from_le_bytes (b ++ replicate (8 - length b) 0))
           end
  end.

Definition key_hash (k : key) : Z :=
  let h := hash_words (S (length k)) (Z.of_nat (length k)) k in
  let h := as_u32 (Z.lxor h (Z.shiftr h 32)) in
  if h =? 0 then 1 else h.

(** *** The data *)

Record ShapeIndex := MkShapeIndex { table : list Z; ikeys : list key }.

Inductive Transitions :=
| TNone
| TOne (k : key) (child : nat)
| TList (l : list (key * nat))
| TMap (m : gmap key nat) (sweep_at : Z).

Record Shape := MkShape {
  parent : option nat; skey : option key; slot : Z; slen : Z; transitions : Transitions;
  sindex : option ShapeIndex; probes : Z; brands : Z; any : Z; for_in_hint : Z }.

Record Shapes := MkShapes { live : gmap nat Shape; next_id : nat }.

Definition new_root : Shape := MkShape None None 0 0 TNone None 0 0 0 0.

(** What an [Rc] points to (it keeps its shape alive, so the default is met by
    no reference). *)
Definition shape_at (st : Shapes) (i : nat) : Shape := default new_root (live st !! i).
Definition upgrade (st : Shapes) (w : nat) : option nat :=
  if decide (is_Some (live st !! w)) then Some w else None.
Definition is_live (st : Shapes) (w : nat) : bool := bool_decide (is_Some (live st !! w)).

Definition update (i : nat) (f : Shape -> Shape) (st : Shapes) : Shapes :=
  MkShapes (alter f i (live st)) (next_id st).
Definition alloc_shape (s : Shape) (st : Shapes) : nat * Shapes :=
  (next_id st, MkShapes (<[next_id st := s]> (live st)) (S (next_id st))).

Definition with_transitions (t : Transitions) (s : Shape) : Shape :=
  MkShape (parent s) (skey s) (slot s) (slen s) t (sindex s) (probes s) (brands s) (any s) (for_in_hint s).
Definition with_index (ix : option ShapeIndex) (s : Shape) : Shape :=
  MkShape (parent s) (skey s) (slot s) (slen s) (transitions s) ix (probes s) (brands s) (any s) (for_in_hint s).
Definition with_probes (n : Z) (s : Shape) : Shape :=
  MkShape (parent s) (skey s) (slot s) (slen s) (transitions s) (sindex s) n (brands s) (any s) (for_in_hint s).
Definition with_any (a : Z) (s : Shape) : Shape :=
  MkShape (parent s) (skey s) (slot s) (slen s) (transitions s) (sindex s) (probes s) (brands s) a (for_in_hint s).
Definition with_hint (h : Z) (s : Shape) : Shape :=
  MkShape (parent s) (skey s) (slot s) (slen s) (transitions s) (sindex s) (probes s) (brands s) (any s) h.

(** *** The hashed key table *)

Definition table_at (t : list Z) (i : Z) : Z := nth (Z.to_nat i) t 0.

(** [while table[i] != 0 { i = (i + 1) & mask }]. *)
Fixpoint free_place (fuel : nat) (t : list Z) (mask i : Z) : Z :=
  match fuel with
  | O => i
  | S fuel => if table_at t i =? 0 then i else free_place fuel t mask (Z.land (i + 1) mask)
  end.

Definition index_insert (mask : Z) (t : list Z) (slot : Z) (k : key) : list Z :=
  let h := key_hash k in
  let i := free_place (length t) t mask (Z.land h mask) in
  <[Z.to_nat i := Z.lor (Z.shiftl h 32) (slot + 1)]> t.

Fixpoint index_fill (mask : Z) (t : list Z) (slot : Z) (ks : list key) : list Z :=
  match ks with
  | [] => t
  | k :: ks => index_fill mask (index_insert mask t slot k) (slot + 1) ks
  end.

(** The key-collecting loop of [ShapeIndex::build], newest first. *)
Fixpoint index_keys (fuel : nat) (st : Shapes) (i : nat) : list key :=
  match fuel with
  | O => []
  | S fuel =>
      let s := shape_at st i in
      match skey s with
      | Some k => k :: match parent s with Some p => index_keys fuel st p | None => [] end
      | None => []
      end
  end.

Definition index_of_keys (ks : list key) : ShapeIndex :=
  let cap := Z.max (next_power_of_two (Z.of_nat (length ks) * 2)) 16 in
  MkShapeIndex (index_fill (cap - 1) (replicate (Z.to_nat cap) 0) 0 ks) ks.

Definition index_build (st : Shapes) (i : nat) : ShapeIndex :=
  index_of_keys (rev (index_keys (S i) st i)).

Fixpoint index_find_from (fuel : nat) (ix : ShapeIndex) (k : key) (i : Z) : option Z :=
  match fuel with
  | O => None
  | S fuel =>
      let mask := Z.of_nat (length (table ix)) - 1 in
      let e := table_at (table ix) i in
      if e =? 0 then None
      else
        let s := as_u32 e - 1 in
        if (as_u32 (Z.shiftr e 32) =? key_hash k)
           && bool_decide (ikeys ix !! Z.to_nat s = Some k)
        then Some s
        else index_find_from fuel ix k (Z.land (i + 1) mask)
  end.

Definition index_find (ix : ShapeIndex) (k : key) : option Z :=
  let mask := Z.of_nat (length (table ix)) - 1 in
  index_find_from (length (table ix)) ix k (Z.land (key_hash k) mask).

(** *** Transitions *)

Definition trans_get (st : Shapes) (t : Transitions) (k : key) : option nat :=
  match t with
  | TNone => None
  | TOne k' c => if decide (k' = k) then upgrade st c else None
  | TList l =>
      match List.find (fun e => bool_decide (fst e = k)) l with
      | Some (_, c) => upgrade st c
      | None => None
      end
  | TMap m _ => m !! k ≫= upgrade st
  end.

(** The live children, in the order [for_each_live] visits them. *)
Definition live_children (st : Shapes) (t : Transitions) : list nat :=
  match t with
  | TNone => []
  | TOne _ c => option_list (upgrade st c)
  | TList l => omap (fun e => upgrade st (snd e)) l
  | TMap m _ => omap (upgrade st) (btree_values m)
  end.

Fixpoint list_replace (k : key) (c : nat) (l : list (key * nat)) : list (key * nat) :=
  match l with
  | [] => []
  | (k', c') :: l => if decide (k' = k) then (k', c) :: l else (k', c') :: list_replace k c l
  end.

Definition retain_live (st : Shapes) (l : list (key * nat)) : list (key * nat) :=
  List.filter (fun e => is_live st (snd e)) l.

Definition trans_insert (st : Shapes) (t : Transitions) (k : key) (child : nat) : Transitions :=
  match t with
  | TNone => TOne k child
  | TOne k' c =>
      if bool_decide (k' = k) || negb (is_live st c) then TOne k child
      else TList [(k', c); (k, child)]
  | TList l =>
      if existsb (fun e => bool_decide (fst e = k)) l then TList (list_replace k child l)
      else
        let l := if (TRANSITION_LIST_MAX <=? length l)%nat then retain_live st l else l in
        if (length l <? TRANSITION_LIST_MAX)%nat then TList (l ++ [(k, child)])
        else
          let m := <[k := child]> (foldl (fun m e => <[fst e := snd e]> m) ∅ l) in
          TMap m (2 * Z.of_nat (size m))
  | TMap m sweep_at =>
      let m := <[k := child]> m in
      if sweep_at <=? Z.of_nat (size m) then
        let m := filter (fun e => is_live st (snd e) = true) m in
        TMap m (Z.max (2 * Z.of_nat (size m)) (2 * Z.of_nat TRANSITION_LIST_MAX))
      else TMap m sweep_at
  end.

(** *** Brands *)

Definition PRIM_WRAP_KEY : key := 0 :: bytes "prim".
Definition BRAND_KEYS : list key := [PRIM_WRAP_KEY; 0 :: bytes "htmldda"].
Definition SYMBOL_KEY_PREFIX : key := 0 :: bytes "sym:".
Definition SYMBOL_KEYS_BIT : Z := 0x80.
Definition IMPLIED_FN_ATTRS_BIT : Z := 0x40.
Definition IMPLIED_CTOR_ATTRS_BIT : Z := 0x20.
Definition IMPLIED_ATTRS_BITS : Z := Z.lor IMPLIED_FN_ATTRS_BIT IMPLIED_CTOR_ATTRS_BIT.

Definition brand_bit (k : key) : Z :=
  if negb (starts_with k [0]) then 0
  else match list_find (fun b => b = k) BRAND_KEYS with
       | Some (i, _) => Z.shiftl 1 (Z.of_nat i)
       | None => 0
       end.

Definition key_bits (k : key) : Z :=
  if negb (starts_with k [0]) then 0
  else Z.lor (brand_bit k) (if starts_with k SYMBOL_KEY_PREFIX then SYMBOL_KEYS_BIT else 0).

(** *** Reading a shape *)

Definition root (st : Shapes) : nat * Shapes := alloc_shape new_root st.

Definition is_wrapper (s : Shape) : bool := negb (Z.land (brands s) 1 =? 0).
Definition has_brand (bit : Z) (s : Shape) : bool := negb (Z.land (brands s) bit =? 0).
Definition has_symbol_keys (s : Shape) : bool := has_brand SYMBOL_KEYS_BIT s.
Definition has_implied_fn_attrs (s : Shape) : bool := has_brand IMPLIED_FN_ATTRS_BIT s.
Definition has_implied_ctor_attrs (s : Shape) : bool := has_brand IMPLIED_CTOR_ATTRS_BIT s.
Definition has_implied_attrs (s : Shape) : bool := has_brand IMPLIED_ATTRS_BITS s.
Definition last_key (s : Shape) : option key := skey s.
Definition is_empty (s : Shape) : bool := slen s =? 0.

Definition may_be_non_number (slot : Z) (s : Shape) : bool :=
  (64 <=? slot) || negb (Z.land (any s) (Z.shiftl 1 slot) =? 0).

Definition number_only_slots (s : Shape) : Z :=
  let all := if 64 <=? slen s then 2 ^ 64 - 1 else Z.shiftl 1 (slen s) - 1 in
  Z.ldiff all (any s).

Definition set_for_in_hint (i : nat) (hint : Z) (st : Shapes) : Shapes := update i (with_hint hint) st.

(** The parent-chain walks. *)
Fixpoint walk_from (fuel : nat) (st : Shapes) (i : nat) (k : key) : option Z :=
  match fuel with
  | O => None
  | S fuel =>
      let s := shape_at st i in
      if bool_decide (skey s = Some k) then Some (slot s)
      else match parent s with Some p => walk_from fuel st p k | None => None end
  end.

Definition walk_lookup (i : nat) (k : key) (st : Shapes) : option Z := walk_from (S i) st i k.

Fixpoint keys_from (fuel : nat) (st : Shapes) (i : nat) : list key :=
  match fuel with
  | O => []
  | S fuel =>
      let s := shape_at st i in
      option_list (skey s) ++ match parent s with Some p => keys_from fuel st p | None => [] end
  end.

Definition keys (i : nat) (st : Shapes) : list key :=
  match sindex (shape_at st i) with
  | Some ix => ikeys ix
  | None => rev (keys_from (S i) st i)
  end.

(** The keys in the order [for_each_key_unordered] passes them to its callback. *)
Definition keys_unordered (i : nat) (st : Shapes) : list key :=
  match sindex (shape_at st i) with
  | Some ix => ikeys ix
  | None => keys_from (S i) st i
  end.

Definition indexed_lookup (i : nat) (k : key) (st : Shapes) : option Z * Shapes :=
  match sindex (shape_at st i) with
  | Some ix => (index_find ix k, st)
  | None =>
      let n := probes (shape_at st i) + 1 in
      let st := update i (with_probes n) st in
      if INDEX_AFTER_PROBES <=? n then
        let ix := index_build st i in
        (index_find ix k, update i (with_index (Some ix)) st)
      else (walk_lookup i k st, st)
  end.

Definition lookup (i : nat) (k : key) (st : Shapes) : option Z * Shapes :=
  if INDEX_MIN_LEN <=? slen (shape_at st i) then indexed_lookup i k st
  else (walk_lookup i k st, st).

Definition contains (i : nat) (k : key) (st : Shapes) : bool * Shapes :=
  let (r, st) := lookup i k st in (bool_decide (is_Some r), st).

(** *** Growing a shape *)

(** The shape that adds [k] to [i], with the given brand bits. *)
Definition child_shape (st : Shapes) (i : nat) (k : key) (b : Z) : Shape :=
  let p := shape_at st i in
  MkShape (Some i) (Some k) (slen p) (as_u32 (slen p + 1)) TNone None 0 b (any p) 0.

Definition add (i : nat) (k : key) (st : Shapes) : nat * Shapes :=
  let p := shape_at st i in
  match trans_get st (transitions p) k with
  | Some child => (child, st)
  | None =>
      let (child, st) :=
        alloc_shape (child_shape st i k (Z.lor (Z.ldiff (brands p) IMPLIED_ATTRS_BITS) (key_bits k))) st in
      (child, update i (with_transitions (trans_insert st (transitions p) k child)) st)
  end.

Definition transition (i : nat) (k : key) (st : Shapes) : nat * Shapes :=
  let (r, st) := lookup i k st in
  match r with Some _ => (i, st) | None => add i k st end.

Definition builtin_fn_layout (root : nat) (st : Shapes) : nat * Shapes :=
  let (length, st) := transition root (bytes "length") st in
  let p := shape_at st length in
  alloc_shape (child_shape st length (bytes "name")
                 (Z.lor (Z.ldiff (brands p) IMPLIED_ATTRS_BITS) IMPLIED_FN_ATTRS_BIT)) st.

Definition implied_ctor_layout (i : nat) (k : key) (st : Shapes) : nat * Shapes :=
  let p := shape_at st i in
  alloc_shape (child_shape st i k (Z.lor (Z.lor (brands p) (key_bits k)) IMPLIED_CTOR_ATTRS_BIT)) st.

Definition unmarked_twin (i : nat) (st : Shapes) : nat * Shapes :=
  let s := shape_at st i in
  match parent s, skey s with
  | Some p, Some k => if has_implied_attrs s then transition p k st else (i, st)
  | _, _ => (i, st)
  end.

(** *** The slots that may hold something other than a number *)

(** [while let Some(s) = stack.pop()]: the stack's top is the head of the list. *)
Fixpoint downgrade_loop (fuel : nat) (mask : Z) (stack : list nat) (st : Shapes) : Shapes :=
  match fuel, stack with
  | O, _ | _, [] => st
  | S fuel, i :: stack =>
      let s := shape_at st i in
      let missing := Z.ldiff mask (any s) in
      if missing =? 0 then downgrade_loop fuel mask stack st
      else
        let st := update i (with_any (Z.lor (any s) missing)) st in
        downgrade_loop fuel mask (rev (live_children st (transitions s)) ++ stack) st
  end.

Definition downgrade (i : nat) (mask : Z) (st : Shapes) : Shapes :=
  let s := shape_at st i in
  let st := update i (with_any (Z.lor (any s) mask)) st in
  downgrade_loop (size (live st)) mask (rev (live_children st (transitions s))) st.

Definition note_non_numbers (i : nat) (mask : Z) (st : Shapes) : Shapes :=
  if negb (Z.ldiff mask (any (shape_at st i)) =? 0) then downgrade i mask st else st.

Definition note_non_number (i : nat) (slot : Z) (st : Shapes) : Shapes :=
  if slot <? 64 then note_non_numbers i (Z.shiftl 1 slot) st else st.

(** *** The end of a shape *)

(** Dropping the last [Rc] that is not a child's parent link. *)
Definition release (i : nat) (st : Shapes) : Shapes :=
  if existsb (fun e => bool_decide (parent (snd e) = Some i)) (map_to_list (live st)) then st
  else MkShapes (delete i (live st)) (next_id st).
