(* ===== verification/ShapeTable.v ===== *)
(** * The hashed key table of a layout

    [ShapeIndex] is an open-addressed table with linear probing.  An entry packs
    the hash and the slot of its key; the table is at most half full, so a probe
    meets an empty place; and every place between a key's hash and its entry is
    taken.  So the table's answer for a key is the key's position in the layout,
    [slot_of]. *)

From stdpp Require Import list.
From S2P Require Import Prelude Prog Probe Shape.
Open Scope Z_scope.

(** The position of [k] in a layout's keys. *)
Definition slot_of (ks : list key) (k : key) : option Z :=
  (fun e : nat * key => Z.of_nat (fst e)) <$> list_find (fun k' => k' = k) ks.

Lemma slot_of_Some ks k s : NoDup ks -> slot_of ks k = Some s <-> 0 <= s /\ ks !! Z.to_nat s = Some k.
Proof.
  intros Hnd. unfold slot_of. rewrite fmap_Some. split.
  - intros ([i k'] & H & ->). simpl. apply list_find_Some in H as (H & -> & _). rewrite Nat2Z.id. split; [lia|done].
  - intros [Hs H]. exists (Z.to_nat s, k). simpl. split; [|lia]. apply list_find_Some. split_and!; [done..|].
    intros j y Hy Hj ->. pose proof (NoDup_lookup _ _ _ _ Hnd H Hy). lia.
Qed.

Lemma slot_of_None ks k : slot_of ks k = None <-> k ∉ ks.
Proof.
  unfold slot_of. rewrite fmap_None, list_find_None, Forall_forall. split; [|intros H k' Hk' ->; done].
  intros H Hk. by apply (H k).
Qed.

Lemma slot_of_bound ks k s : slot_of ks k = Some s -> 0 <= s < Z.of_nat (length ks).
Proof.
  unfold slot_of. intros ([i k'] & H & ->)%fmap_Some. apply list_find_Some in H as (H & _). simpl.
  apply lookup_lt_Some in H. lia.
Qed.

Lemma slot_of_is_Some ks k : is_Some (slot_of ks k) <-> k ∈ ks.
Proof.
  destruct (slot_of ks k) as [s|] eqn:E.
  - split; [intros _|by eexists]. unfold slot_of in E. apply fmap_Some in E as ([i k'] & H & _).
    apply list_find_Some in H as (H & -> & _). by eapply list_elem_of_lookup_2.
  - split; [by intros []|]. by apply slot_of_None in E.
Qed.

Lemma slot_of_snoc_old ks k k' : k ∈ ks -> slot_of (ks ++ [k']) k = slot_of ks k.
Proof.
  unfold slot_of. intros H. destruct (list_find _ ks) as [[i x]|] eqn:E.
  - by erewrite list_find_app_l by exact E.
  - apply list_find_None in E. rewrite Forall_forall in E. by destruct (E k H).
Qed.

Lemma slot_of_snoc_new ks k : k ∉ ks -> slot_of (ks ++ [k]) k = Some (Z.of_nat (length ks)).
Proof.
  intros H. unfold slot_of. rewrite list_find_app_r; [|by apply list_find_None, Forall_forall; intros x Hx ->].
  simpl. rewrite decide_True by done. done.
Qed.

Lemma slot_of_snoc_other ks k k' : k <> k' -> slot_of (ks ++ [k']) k = slot_of ks k.
Proof.
  intros Hne. destruct (decide (k ∈ ks)) as [H|H]; [by apply slot_of_snoc_old|].
  rewrite (proj2 (slot_of_None ks k) H). apply slot_of_None. rewrite elem_of_app, list_elem_of_singleton. naive_solver.
Qed.

(** ** Entries *)

Definition entry (s : Z) (k : key) : Z := Z.lor (Z.shiftl (key_hash k) 32) (s + 1).

Lemma key_hash_range k : 0 < key_hash k < 2 ^ 32.
Proof.
  unfold key_hash. set (h := hash_words _ _ _). assert (0 <= as_u32 (Z.lxor h (Z.shiftr h 32)) < 2 ^ 32).
  { unfold as_u32, wrap_u. apply Z.mod_pos_bound. lia. }
  destruct (Z.eqb_spec (as_u32 (Z.lxor h (Z.shiftr h 32))) 0); lia.
Qed.

Lemma entry_sum s k : 0 <= s < 2 ^ 32 - 1 -> entry s k = key_hash k * 2 ^ 32 + (s + 1).
Proof. intros Hs. unfold entry. apply lor_pack; lia. Qed.

Lemma entry_nonzero s k : 0 <= s < 2 ^ 32 - 1 -> entry s k <> 0.
Proof. intros Hs. rewrite entry_sum by done. pose proof (key_hash_range k). lia. Qed.

Lemma entry_slot s k : 0 <= s < 2 ^ 32 - 1 -> as_u32 (entry s k) - 1 = s.
Proof.
  intros Hs. rewrite entry_sum by done. unfold as_u32, wrap_u. rewrite Z.add_comm, Z.mod_add by lia.
  rewrite Z.mod_small by lia. lia.
Qed.

Lemma entry_hash s k : 0 <= s < 2 ^ 32 - 1 -> as_u32 (Z.shiftr (entry s k) 32) = key_hash k.
Proof.
  intros Hs. rewrite entry_sum by done. rewrite Z.shiftr_div_pow2 by lia.
  rewrite Z.div_add_l by lia. rewrite Z.div_small by lia. pose proof (key_hash_range k).
  rewrite Z.add_0_r. apply as_u32_small. lia.
Qed.

(** ** Places *)

Section Table.
Context (e : Z) (He : 0 <= e).
Let cap : Z := 2 ^ e.
Let mask : Z := cap - 1.
Implicit Types (t : list Z) (ks : list key).

Lemma table_cap : 0 < cap.
Proof using He. exact (cap_pos e He). Qed.

Lemma table_mask i : Z.land i mask = i mod cap.
Proof using He. exact (land_mask e He i). Qed.

Lemma step_place i j : Z.land ((i + j) mod cap + 1) mask = (i + (j + 1)) mod cap.
Proof using He. exact (place_step e He i j). Qed.

(** Every place is met within [cap] steps of any other. *)
Lemma place_reached i p : 0 <= p < cap -> exists j, 0 <= j < cap /\ (i + j) mod cap = p.
Proof using He. intros Hp. exists (dist e i p). split; [apply (dist_range e He)|by apply (place_dist e He)]. Qed.

(** [j] is the first empty place from [i]. *)
Definition first_empty t (i j : Z) : Prop :=
  0 <= j < cap /\ table_at t ((i + j) mod cap) = 0 /\
  forall j', 0 <= j' < j -> table_at t ((i + j') mod cap) <> 0.

Lemma first_empty_exists t i p : 0 <= p < cap -> table_at t p = 0 -> exists j, first_empty t i j.
Proof using He.
  intros Hp Ht. destruct (place_reached i p Hp) as (j & Hj & Ej).
  assert (exists j, 0 <= j < cap /\ table_at t ((i + j) mod cap) = 0) as Hex by (exists j; by rewrite Ej).
  clear j Hj Ej. destruct Hex as (j & Hj & Ht0). assert (0 <= j) as Hj0 by lia. revert j Hj0 Hj Ht0.
  apply (Z_lt_induction (fun j => 0 <= j < cap -> table_at t ((i + j) mod cap) = 0 -> exists j, first_empty t i j)).
  intros j IH Hj Ht0.
  destruct (decide (Exists (fun j' => table_at t ((i + Z.of_nat j') mod cap) = 0) (seq 0 (Z.to_nat j)))) as [Hx|Hx].
  - apply Exists_exists in Hx as (j' & Hin & Hz). apply elem_of_seq in Hin. apply (IH (Z.of_nat j')); [lia|lia|done].
  - exists j. split; [done|]. split; [done|]. intros j' Hj' Hz. apply Hx, Exists_exists. exists (Z.to_nat j').
    split; [apply elem_of_seq; lia|]. by rewrite Z2Nat.id by lia.
Qed.

Lemma free_place_spec t i : forall j0 j fuel, first_empty t i j -> 0 <= j0 <= j -> j - j0 < Z.of_nat fuel ->
  free_place fuel t mask ((i + j0) mod cap) = (i + j) mod cap.
Proof using He.
  intros j0 j fuel (Hj & Hz & Hnz). revert j0. induction fuel as [|fuel IH]; intros j0 Hj0 Hf; [lia|]. cbn [free_place].
  destruct (decide (j0 = j)) as [->|Hne]; [by rewrite Hz|].
  rewrite (proj2 (Z.eqb_neq _ _)) by (apply Hnz; lia). rewrite step_place. apply IH; lia.
Qed.

(** ** The invariant of a table that holds [ks] *)

Record table_ok t ks : Prop := {
  tk_len : Z.of_nat (length t) = cap;
  tk_entries : forall p, 0 <= p < cap -> table_at t p <> 0 ->
    exists s k, 0 <= s /\ ks !! Z.to_nat s = Some k /\ table_at t p = entry s k;
  tk_keys : forall s k, 0 <= s -> ks !! Z.to_nat s = Some k -> exists j, 0 <= j < cap /\
    table_at t ((key_hash k + j) mod cap) = entry s k /\
    forall j', 0 <= j' < j -> table_at t ((key_hash k + j') mod cap) <> 0;
  tk_load : (length (List.filter (fun e => negb (e =? 0)%Z) t) <= length ks)%nat }.

Lemma table_at_insert t p q v : 0 <= p < Z.of_nat (length t) -> 0 <= q ->
  table_at (<[Z.to_nat p := v]> t) q = if decide (p = q) then v else table_at t q.
Proof using.
  clear He mask cap. intros Hp Hq. unfold table_at. rewrite !nth_lookup. destruct (decide (p = q)) as [->|Hne].
  - by rewrite list_lookup_insert_eq by lia.
  - by rewrite list_lookup_insert_ne by lia.
Qed.

Lemma load_insert t p v : table_at t p = 0 -> 0 <= p < Z.of_nat (length t) ->
  (length (List.filter (fun e => negb (e =? 0)%Z) (<[Z.to_nat p := v]> t)) <=
   S (length (List.filter (fun e => negb (e =? 0)%Z) t)))%nat.
Proof using.
  clear He mask cap. unfold table_at. intros Hz Hp. assert (Hl : (Z.to_nat p < length t)%nat) by lia. clear Hp. revert Hz Hl.
  generalize (Z.to_nat p) as n. clear p. induction t as [|x t IH]; intros [|n] Hz Hl; simpl in *; try lia.
  - subst x. cbn. destruct (v =? 0); simpl; lia.
  - specialize (IH n Hz ltac:(lia)). destruct (x =? 0); simpl; lia.
Qed.

Lemma empty_place t ks : table_ok t ks -> (length ks < length t)%nat ->
  exists p, 0 <= p < cap /\ table_at t p = 0.
Proof using He.
  intros [Hlen _ _ Hload] Hlt. destruct (decide (Exists (fun e => e = 0) t)) as [Hx|Hx].
  - apply Exists_exists in Hx as (v & Hin & ->). apply list_elem_of_lookup in Hin as (n & Hn).
    exists (Z.of_nat n). pose proof (lookup_lt_Some _ _ _ Hn). split; [lia|]. unfold table_at.
    by rewrite Nat2Z.id, nth_lookup, Hn.
  - exfalso. assert (List.filter (fun e => negb (e =? 0)%Z) t = t) as Ef; [|rewrite Ef in Hload; lia].
    apply not_Exists_Forall in Hx; [|intros ?; apply _]. clear Hlen Hload Hlt. induction Hx as [|x t Hne _ IH]; simpl; [done|].
    rewrite (proj2 (Z.eqb_neq _ _) Hne). simpl. by f_equal.
Qed.

Lemma index_insert_ok t ks k : table_ok t ks -> (length ks < length t)%nat -> Z.of_nat (length ks) < 2 ^ 32 - 1 ->
  table_ok (index_insert mask t (Z.of_nat (length ks)) k) (ks ++ [k]).
Proof using He.
  intros Hok Hlt Hmax. destruct (empty_place _ _ Hok Hlt) as (p0 & Hp0 & Hz0).
  destruct (first_empty_exists t (key_hash k) p0 Hp0 Hz0) as (j & Hj). pose proof Hok as [Hlen Hent Hkeys Hload].
  pose proof table_cap as Hcap. set (n := Z.of_nat (length ks)) in *. unfold index_insert.
  rewrite table_mask. replace (key_hash k mod cap) with ((key_hash k + 0) mod cap) by (f_equal; lia).
  rewrite (free_place_spec _ _ _ j _ Hj) by (destruct Hj; lia).
  destruct Hj as (Hj & Hz & Hnz). set (p := (key_hash k + j) mod cap) in *.
  assert (Hp : 0 <= p < cap) by (apply Z.mod_pos_bound; lia).
  assert (Hat : forall q, 0 <= q -> table_at (<[Z.to_nat p:=entry n k]> t) q = if decide (p = q) then entry n k else table_at t q)
    by (intros; apply table_at_insert; lia).
  fold (entry n k). assert (Hnz' : entry n k <> 0) by (apply entry_nonzero; lia).
  assert (Hmod : forall a, 0 <= a mod cap) by (intros; apply Z.mod_pos_bound; lia). split.
  - by rewrite length_insert.
  - intros q Hq. rewrite Hat by lia. destruct (decide (p = q)) as [<-|Hne].
    + intros _. exists n, k. split_and!; [lia| |done]. unfold n. rewrite Nat2Z.id. by apply list_lookup_middle.
    + intros Hq0. destruct (Hent q Hq Hq0) as (s & k' & Hs & Hk' & He'). exists s, k'. split_and!; [done| |done].
      by apply lookup_app_l_Some.
  - intros s k' Hs Hk'. destruct (decide (s = n)) as [->|Hsn].
    + unfold n in Hk'. rewrite Nat2Z.id, list_lookup_middle in Hk' by done. injection Hk' as <-. exists j. split; [done|].
      fold p. rewrite Hat by lia. rewrite decide_True by done. split; [done|]. intros j' Hj'. rewrite Hat by apply Hmod.
      destruct (decide _); [done|]. by apply Hnz.
    + assert (Hk'' : ks !! Z.to_nat s = Some k').
      { rewrite lookup_app_l in Hk'; [done|]. apply lookup_lt_Some in Hk'. rewrite length_app in Hk'. simpl in Hk'. unfold n in Hsn. lia. }
      destruct (Hkeys s k' Hs Hk'') as (j1 & Hj1 & He1 & Hb1). exists j1. split; [done|]. rewrite Hat by apply Hmod.
      destruct (decide (p = (key_hash k' + j1) mod cap)) as [Ep|_].
      { exfalso. apply lookup_lt_Some in Hk''. assert (entry s k' <> 0) by (apply entry_nonzero; lia). congruence. }
      split; [done|]. intros j' Hj'. rewrite Hat by apply Hmod. destruct (decide _); [done|]. by apply Hb1.
  - rewrite length_app. simpl. pose proof (load_insert t p (entry n k) Hz ltac:(lia)). lia.
Qed.

Lemma index_fill_ok ks : forall done0 t, table_ok t done0 -> (length done0 + length ks < length t)%nat ->
  Z.of_nat (length done0 + length ks) < 2 ^ 32 - 1 ->
  table_ok (index_fill mask t (Z.of_nat (length done0)) ks) (done0 ++ ks).
Proof using He.
  induction ks as [|k ks IH]; intros done0 t Hok Hlt Hmax; cbn [index_fill]; [by rewrite app_nil_r|].
  replace (Z.of_nat (length done0) + 1) with (Z.of_nat (length (done0 ++ [k]))) by (rewrite length_app; simpl; lia).
  replace (done0 ++ k :: ks) with ((done0 ++ [k]) ++ ks) by (by rewrite <- app_assoc).
  pose proof (index_insert_ok t done0 k Hok ltac:(simpl in *; lia) ltac:(simpl in *; lia)) as Hok'.
  apply IH; [done| |]; rewrite length_app; simpl in *.
  - pose proof (tk_len _ _ Hok). pose proof (tk_len _ _ Hok'). lia.
  - lia.
Qed.

Lemma table_empty_ok : table_ok (replicate (Z.to_nat cap) 0) [].
Proof using He.
  pose proof table_cap. assert (Hz : forall p, table_at (replicate (Z.to_nat cap) 0) p = 0).
  { intros p. unfold table_at. rewrite nth_lookup. destruct (_ !! _) eqn:E; [|done]. by apply lookup_replicate in E as [-> _]. }
  split.
  - rewrite length_replicate. lia.
  - intros p _ Hp. by destruct (Hp (Hz p)).
  - done.
  - generalize (Z.to_nat cap) as n. intros n. simpl. induction n; simpl; lia.
Qed.

Lemma index_find_from_spec ix k : table_ok (table ix) (ikeys ix) -> NoDup (ikeys ix) ->
  Z.of_nat (length (ikeys ix)) < 2 ^ 32 - 1 ->
  forall fuel j, 0 <= j ->
  (forall s, slot_of (ikeys ix) k = Some s -> exists d, j <= d < j + Z.of_nat fuel /\
     table_at (table ix) ((key_hash k + d) mod cap) = entry s k /\
     forall j', j <= j' < d -> table_at (table ix) ((key_hash k + j') mod cap) <> 0) ->
  index_find_from fuel ix k ((key_hash k + j) mod cap) = slot_of (ikeys ix) k.
Proof using He.
  intros Hok Hnd Hmax. pose proof table_cap. induction fuel as [|fuel IH]; intros j Hj Hd.
  - cbn. destruct (slot_of _ _) as [s|]; [|done]. destruct (Hd s eq_refl) as (d & ? & _). lia.
  - cbn [index_find_from]. set (p := (key_hash k + j) mod cap).
    assert (Hp : 0 <= p < cap) by (apply Z.mod_pos_bound; lia).
    destruct (Z.eqb_spec (table_at (table ix) p) 0) as [Hz|Hnz].
    { destruct (slot_of _ _) as [s|] eqn:Es; [|done]. destruct (Hd s eq_refl) as (d & Hdr & Hde & Hb).
      destruct (decide (d = j)) as [->|]; [|by destruct (Hb j ltac:(lia))].
      fold p in Hde. apply slot_of_bound in Es. pose proof (entry_nonzero s k ltac:(lia)). congruence. }
    destruct (tk_entries _ _ Hok p Hp Hnz) as (s & k' & Hs & Hk' & He').
    assert (Hsb : 0 <= s < 2 ^ 32 - 1) by (apply lookup_lt_Some in Hk'; lia).
    rewrite He', entry_slot, entry_hash, Hk' by done.
    destruct (decide (k' = k)) as [->|Hne].
    { rewrite Z.eqb_refl, bool_decide_true by done. symmetry. by apply slot_of_Some. }
    rewrite bool_decide_false by congruence. rewrite andb_false_r. rewrite (tk_len _ _ Hok). fold mask. unfold p.
    rewrite step_place. apply IH; [lia|]. intros s' Es'. destruct (Hd s' Es') as (d & Hdr & Hde & Hb).
    assert (d <> j).
    { intros ->. fold p in Hde. rewrite He' in Hde. apply slot_of_Some in Es' as [Hs' Hks']; [|done].
      assert (s = s'); [|subst; congruence]. apply lookup_lt_Some in Hks'.
      rewrite <- (entry_slot s k'), <- (entry_slot s' k) by lia. by rewrite Hde. }
    exists d. split; [lia|]. split; [done|]. intros j' Hj'. apply Hb. lia.
Qed.
End Table.

(** The table of a layout's keys finds a key exactly at its position. *)
Lemma index_find_spec ks k : NoDup ks -> Z.of_nat (length ks) < 2 ^ 32 - 1 ->
  index_find (index_of_keys ks) k = slot_of ks k.
Proof.
  intros Hnd Hmax.
  assert (exists e, 0 <= e /\ Z.max (next_power_of_two (Z.of_nat (length ks) * 2)) 16 = 2 ^ e /\
          Z.of_nat (length ks) < 2 ^ e) as (e & He & Ee & Hlt).
  { destruct (next_power_of_two_spec (Z.of_nat (length ks) * 2) ltac:(lia)) as (e & He & -> & Hle).
    destruct (Z.le_gt_cases (2 ^ e) (2 ^ 4)) as [Hs|Hs].
    - exists 4. split_and!; [lia|lia|lia].
    - exists e. split_and!; [lia|lia|lia]. }
  unfold index_of_keys. rewrite Ee. set (t := index_fill _ _ _ _). set (ix := MkShapeIndex t ks).
  pose proof (table_empty_ok e He) as Hemp.
  assert (Hok : table_ok e t ks).
  { apply (index_fill_ok e He ks [] _ Hemp); simpl; rewrite ?length_replicate; lia. }
  pose proof (tk_len _ _ _ Hok) as Hlen. unfold index_find. change (table ix) with t. rewrite Hlen.
  rewrite (table_mask e He). replace (key_hash k mod 2 ^ e) with ((key_hash k + 0) mod 2 ^ e) by (f_equal; lia).
  change (slot_of ks k) with (slot_of (ikeys ix) k). apply (index_find_from_spec e He); [done..|lia|].
  intros s Es. apply slot_of_Some in Es as [Hs Hk]; [|done].
  destruct (tk_keys _ _ _ Hok s k Hs Hk) as (j & Hj & He' & Hb). exists j. split_and!; [lia|lia|done|].
  intros j' Hj'. apply Hb. lia.
Qed.
