(* ===== verification/ShapeInv.v ===== *)
(** * The invariant of the shape store

    [skeys st i] is the specification of a layout: its keys in slot order.  The
    invariant [wf] says that every layout extends its parent's by one absent key,
    that the transition caches list exactly the live, ordinary children, that the
    hashed tables and the brand bits are those of the keys, and that a cached
    child promises no more slots to hold numbers than its parent.  [extends] is
    the order every operation but [release] moves the store along. *)

From Stdlib Require Import String.
From S2P Require Import Prelude Prog Shape ShapeTable.

#[local] Abbreviation length := Datatypes.length.
Open Scope Z_scope.

(** ** Masks *)

Definition mask_le (a b : Z) : Prop := forall n, 0 <= n -> Z.testbit a n = true -> Z.testbit b n = true.

#[global] Instance mask_le_preorder : PreOrder mask_le.
Proof. split; [intros a n; auto|intros a b c H1 H2 n Hn Ha; auto]. Qed.

Lemma ldiff_zero a b : Z.ldiff a b = 0 <-> mask_le a b.
Proof.
  split.
  - intros H n Hn Ha. pose proof (Z.ldiff_spec a b n) as Hs. rewrite H, Z.bits_0, Ha in Hs. by destruct (Z.testbit b n).
  - intros H. apply Z.bits_inj'. intros n Hn. rewrite Z.ldiff_spec, Z.bits_0.
    destruct (Z.testbit a n) eqn:Ea; [|done]. by rewrite (H n Hn Ea).
Qed.

Lemma mask_le_lor_l a b : mask_le a (Z.lor a b).
Proof. intros n Hn Ha. by rewrite Z.lor_spec, Ha. Qed.
Lemma mask_le_lor_r a b : mask_le b (Z.lor a b).
Proof. intros n Hn Ha. by rewrite Z.lor_spec, Ha, orb_true_r. Qed.
Lemma mask_le_lor a b c : mask_le a c -> mask_le b c -> mask_le (Z.lor a b) c.
Proof. intros H1 H2 n Hn. rewrite Z.lor_spec, orb_true_iff. intros [H|H]; auto. Qed.
Lemma mask_le_ldiff a b : mask_le a (Z.lor b (Z.ldiff a b)).
Proof.
  intros n Hn Ha. rewrite Z.lor_spec, Z.ldiff_spec, Ha. by destruct (Z.testbit b n).
Qed.
Lemma lor_ldiff_r a b : Z.lor b (Z.ldiff a b) = Z.lor b a.
Proof.
  apply Z.bits_inj'. intros n Hn. rewrite !Z.lor_spec, Z.ldiff_spec. by destruct (Z.testbit a n), (Z.testbit b n).
Qed.
Lemma lor_absorb a b : mask_le a b -> Z.lor b a = b.
Proof.
  intros H. apply Z.bits_inj'. intros n Hn. rewrite Z.lor_spec. destruct (Z.testbit a n) eqn:E; [|by rewrite orb_false_r].
  by rewrite (H n Hn E).
Qed.

#[export] Hint Resolve mask_le_lor_l mask_le_lor_r : kat.

(** ** What a layout is *)

(** The part of a shape that never changes, with its transition cache. *)
Definition lay (s : Shape) := (parent s, skey s, slot s, slen s, transitions s, brands s).

Definition same_lay (st st' : Shapes) : Prop :=
  next_id st' = next_id st /\ forall i, fmap lay (live st' !! i) = fmap lay (live st !! i).

#[global] Instance same_lay_equiv : Equivalence same_lay.
Proof.
  split.
  - by split.
  - intros st st' [H1 H2]. split; [done|]. intros i. by rewrite H2.
  - intros a b c [H1 H2] [H3 H4]. split; [congruence|]. intros i. by rewrite H4, H2.
Qed.

Definition skeys (st : Shapes) (i : nat) : list key := rev (keys_from (S i) st i).

Definition marked (s : Shape) : bool := has_implied_attrs s.

Definition keys_bits (ks : list key) : Z := foldr (fun k b => Z.lor (key_bits k) b) 0 ks.

Definition in_trans (t : Transitions) (k : key) (c : nat) : Prop :=
  match t with
  | TNone => False
  | TOne k' c' => k' = k /\ c' = c
  | TList l => (k, c) ∈ l
  | TMap m _ => m !! k = Some c
  end.

Definition trans_ok (t : Transitions) : Prop :=
  match t with TList l => NoDup l.*1 /\ (length l <= TRANSITION_LIST_MAX)%nat | _ => True end.

Record shape_ok (st : Shapes) (i : nat) (s : Shape) : Prop := {
  so_id : (i < next_id st)%nat;
  so_root : parent s = None -> skey s = None /\ slot s = 0 /\ slen s = 0 /\ brands s = 0;
  so_child : forall p, parent s = Some p -> (p < i)%nat /\ exists ps k,
    live st !! p = Some ps /\ skey s = Some k /\ (k ∉ skeys st p) /\
    slot s = slen ps /\ slen s = slen ps + 1 /\ marked ps = false;
  so_len : 0 <= slen s < 2 ^ 32 - 1;
  so_cached : forall c cs k, live st !! c = Some cs -> parent cs = Some i -> marked cs = false ->
    skey cs = Some k -> in_trans (transitions s) k c;
  so_trans : forall k c cs, in_trans (transitions s) k c -> live st !! c = Some cs ->
    parent cs = Some i /\ skey cs = Some k /\ marked cs = false;
  so_trans_id : forall k c, in_trans (transitions s) k c -> (c < next_id st)%nat;
  so_trans_ok : trans_ok (transitions s);
  so_brands : exists m, brands s = Z.lor (keys_bits (skeys st i)) m /\
    (m = 0 \/ m = IMPLIED_CTOR_ATTRS_BIT \/
     m = IMPLIED_FN_ATTRS_BIT /\ skeys st i = [bytes "length"; bytes "name"]);
  so_index : forall ix, sindex s = Some ix -> ix = index_of_keys (skeys st i) }.

Definition struct_ok (st : Shapes) : Prop := forall i s, live st !! i = Some s -> shape_ok st i s.

(** The masks of [any]: a cached child covers its parent. *)
Definition edge (st : Shapes) (p c : nat) : Prop :=
  exists ps cs k, live st !! p = Some ps /\ in_trans (transitions ps) k c /\ live st !! c = Some cs.

Definition any_at (st : Shapes) (i : nat) : Z := any (shape_at st i).

Definition masks_ok (st : Shapes) : Prop := forall p c, edge st p c -> mask_le (any_at st p) (any_at st c).

Record wf (st : Shapes) : Prop := { wf_struct : struct_ok st; wf_masks : masks_ok st }.

Record extends (st st' : Shapes) : Prop := {
  ex_next : (next_id st <= next_id st')%nat;
  ex_live : forall i s, live st !! i = Some s -> exists s', live st' !! i = Some s' /\
    parent s' = parent s /\ skey s' = skey s /\ slot s' = slot s /\ slen s' = slen s /\
    brands s' = brands s /\ mask_le (any s) (any s') }.

#[global] Instance extends_preorder : PreOrder extends.
Proof.
  split.
  - intros st. split; [done|]. intros i s H. exists s. by split_and!.
  - intros a b c [N1 L1] [N2 L2]. split; [lia|]. intros i s H.
    destruct (L1 i s H) as (s1 & Hs1 & ? & ? & ? & ? & ? & M1). destruct (L2 i s1 Hs1) as (s2 & Hs2 & ? & ? & ? & ? & ? & M2).
    exists s2. split_and!; try congruence. by etrans.
Qed.

(** ** Chains of parents *)

Lemma shape_at_live st i s : live st !! i = Some s -> shape_at st i = s.
Proof. unfold shape_at. by intros ->. Qed.

Lemma keys_from_fuel st : struct_ok st -> forall f i, is_Some (live st !! i) -> (i < f)%nat ->
  keys_from f st i = keys_from (S i) st i.
Proof.
  intros Hst f. enough (forall f i g, is_Some (live st !! i) -> (i < f)%nat -> (i < g)%nat ->
    keys_from f st i = keys_from g st i) as H by (intros; apply H; [done|lia|lia]).
  clear f. induction f as [|f IH]; intros i g [s Hi] Hf Hg; [lia|]. destruct g as [|g]; [lia|]. cbn [keys_from].
  rewrite (shape_at_live _ _ _ Hi). f_equal. destruct (parent s) as [p|] eqn:Ep; [|done].
  destruct (so_child _ _ _ (Hst i s Hi) p Ep) as (Hpi & ps & k & Hp & _). apply IH; [by eexists|lia|lia].
Qed.

Lemma skeys_root st i s : live st !! i = Some s -> shape_ok st i s -> parent s = None -> skeys st i = [].
Proof.
  intros Hi Hok Hp. unfold skeys. cbn [keys_from]. rewrite (shape_at_live _ _ _ Hi), Hp.
  destruct (so_root _ _ _ Hok Hp) as (-> & _). done.
Qed.

Lemma skeys_child st i s p k : struct_ok st -> live st !! i = Some s -> parent s = Some p -> skey s = Some k ->
  skeys st i = skeys st p ++ [k].
Proof.
  intros Hst Hi Hp Hk. destruct (so_child _ _ _ (Hst i s Hi) p Hp) as (Hpi & ps & k' & Hlp & _).
  unfold skeys. cbn [keys_from]. rewrite (shape_at_live _ _ _ Hi), Hp, Hk.
  cbn [option_list app rev]. f_equal.
  change (keys_from i st p) with (keys_from i st p). rewrite (keys_from_fuel st Hst i p); [done|by eexists|done].
Qed.

(** Induction along a layout's chain of parents. *)
Lemma chain_ind st (P : nat -> Shape -> Prop) : struct_ok st ->
  (forall i s, live st !! i = Some s -> parent s = None -> P i s) ->
  (forall i s p ps k, live st !! i = Some s -> parent s = Some p -> skey s = Some k ->
     live st !! p = Some ps -> P p ps -> P i s) ->
  forall i s, live st !! i = Some s -> P i s.
Proof.
  intros Hst H0 H1 i. induction i as [i IH] using lt_wf_ind. intros s Hi.
  destruct (parent s) as [p|] eqn:Ep; [|by apply H0].
  destruct (so_child _ _ _ (Hst i s Hi) p Ep) as (Hpi & ps & k & Hp & Hk & _). by eapply H1; eauto.
Qed.

Lemma skeys_facts st : struct_ok st -> forall i s, live st !! i = Some s ->
  NoDup (skeys st i) /\ slen s = Z.of_nat (length (skeys st i)).
Proof.
  intros Hst. apply (chain_ind st (fun i s => NoDup (skeys st i) /\ slen s = Z.of_nat (length (skeys st i))) Hst).
  - intros i s Hi Hp. rewrite (skeys_root st i s) by auto. split; [constructor|].
    by destruct (so_root _ _ _ (Hst i s Hi) Hp) as (_ & _ & -> & _).
  - intros i s p ps k Hi Hp Hk Hlp [IH1 IH2]. rewrite (skeys_child st i s p k) by done.
    destruct (so_child _ _ _ (Hst i s Hi) p Hp) as (_ & ps' & k' & Hlp' & Hk' & Hnin & _ & Hlen & _).
    rewrite Hlp in Hlp'. injection Hlp' as <-. rewrite Hk in Hk'. injection Hk' as <-. split.
    + apply NoDup_app. split_and!; [done| |apply NoDup_singleton]. intros x Hx ->%list_elem_of_singleton. done.
    + rewrite length_app, Hlen, IH2. simpl. lia.
Qed.

Lemma skeys_NoDup st i s : struct_ok st -> live st !! i = Some s -> NoDup (skeys st i).
Proof. intros Hst Hi. by eapply skeys_facts. Qed.

Lemma slen_skeys st i s : struct_ok st -> live st !! i = Some s -> slen s = Z.of_nat (length (skeys st i)).
Proof. intros Hst Hi. by eapply skeys_facts. Qed.

(** The chain walk finds a key's position. *)
Lemma walk_lookup_spec st i s k : struct_ok st -> live st !! i = Some s ->
  walk_lookup i k st = slot_of (skeys st i) k.
Proof.
  intros Hst Hi. unfold walk_lookup.
  enough (forall f i s, live st !! i = Some s -> (i < f)%nat -> walk_from f st i k = slot_of (skeys st i) k) as H
    by (apply (H _ _ _ Hi); lia). clear i s Hi.
  induction f as [|f IH]; intros i s Hi Hf; [lia|]. cbn [walk_from]. rewrite (shape_at_live _ _ _ Hi).
  destruct (parent s) as [p|] eqn:Ep.
  - destruct (so_child _ _ _ (Hst i s Hi) p Ep) as (Hpi & ps & k' & Hp & Hk & Hnin & Hslot & _).
    rewrite (skeys_child st i s p k') by done. rewrite Hk. destruct (decide (k' = k)) as [->|Hne].
    + rewrite bool_decide_true by done. rewrite slot_of_snoc_new by done. by rewrite Hslot, (slen_skeys st p ps).
    + rewrite bool_decide_false by congruence. rewrite (IH p ps) by (done || lia). by rewrite slot_of_snoc_other by done.
  - rewrite (skeys_root st i s) by auto. destruct (so_root _ _ _ (Hst i s Hi) Ep) as (-> & _).
    by rewrite bool_decide_false by done.
Qed.

(** ** Stores that differ in masks and memo cells only *)

Lemma same_lay_shape st st' i s' : same_lay st st' -> live st' !! i = Some s' ->
  exists s, live st !! i = Some s /\ lay s' = lay s.
Proof.
  intros [_ H] Hi. specialize (H i). rewrite Hi in H. destruct (live st !! i) as [s|]; [|done]. injection H as H.
  exists s. split; [done|]. unfold lay. congruence.
Qed.

Ltac lay_eqs H :=
  let E := fresh in pose proof H as E; unfold lay in E; injection E as ? ? ? ? ? ?.

Lemma lay_eq s s' : lay s' = lay s -> parent s' = parent s /\ skey s' = skey s /\ slot s' = slot s /\
  slen s' = slen s /\ transitions s' = transitions s /\ brands s' = brands s.
Proof. unfold lay. intros H. by simplify_eq. Qed.

Lemma same_lay_at st st' i : same_lay st st' -> lay (shape_at st' i) = lay (shape_at st i).
Proof.
  intros [_ H]. specialize (H i). unfold shape_at. destruct (live st' !! i), (live st !! i); simplify_eq/=; auto.
  unfold lay. congruence.
Qed.

#[global] Instance keys_from_same : Proper (eq ==> same_lay ==> eq ==> eq) keys_from.
Proof.
  intros f ? <- st st' H i ? <-. revert i. induction f as [|f IH]; intros i; [done|]. cbn [keys_from].
  destruct (lay_eq _ _ (same_lay_at st st' i H)) as (-> & -> & _). f_equal. destruct (parent _); [apply IH|done].
Qed.

#[global] Instance skeys_same : Proper (same_lay ==> eq ==> eq) skeys.
Proof. intros st st' H i ? <-. unfold skeys. by rewrite H. Qed.

Lemma marked_lay s s' : brands s' = brands s -> marked s' = marked s.
Proof. intros H. unfold marked, has_implied_attrs, has_brand. by rewrite H. Qed.

Lemma struct_same st st' : same_lay st st' -> struct_ok st ->
  (forall i s' ix, live st' !! i = Some s' -> sindex s' = Some ix -> ix = index_of_keys (skeys st i)) ->
  struct_ok st'.
Proof.
  intros H Hst Hix i s' Hi. destruct (same_lay_shape _ _ _ _ H Hi) as (s & Hs & E).
  destruct (lay_eq _ _ E) as (E1 & E2 & E3 & E4 & E5 & E6). destruct (Hst i s Hs) as [A1 A2 A3 A4 A5 A6 A6' A7 A8 _].
  pose proof (skeys_same st st' H) as K. split; rewrite ?E1, ?E2, ?E3, ?E4, ?E5, ?E6, <- ?(K i i eq_refl); eauto.
  - destruct H as [-> _]. done.
  - intros p Hp. destruct (A3 p Hp) as (Hpi & ps & k & Hlp & Hk & Hnin & Hs1 & Hs2 & Hm). split; [done|].
    destruct H as [_ H]. pose proof (H p) as Hp'. rewrite Hlp in Hp'. destruct (live st' !! p) as [ps'|] eqn:Elp; [|done].
    simpl in Hp'. assert (E' : lay ps' = lay ps) by congruence. destruct (lay_eq _ _ E') as (_ & _ & _ & F4 & _ & F6).
    exists ps', k. rewrite <- (K p p eq_refl), F4, (marked_lay ps ps' F6). by split_and!.
  - intros c cs' k Hc. destruct (same_lay_shape _ _ _ _ H Hc) as (cs & Hcs & Ec).
    destruct (lay_eq _ _ Ec) as (F1 & F2 & _ & _ & _ & F6). rewrite F1, F2, (marked_lay cs cs' F6). eauto.
  - intros k c cs' Ht Hc. destruct (same_lay_shape _ _ _ _ H Hc) as (cs & Hcs & Ec).
    destruct (lay_eq _ _ Ec) as (F1 & F2 & _ & _ & _ & F6). rewrite F1, F2, (marked_lay cs cs' F6). eauto.
  - destruct H as [-> _]. done.
Qed.

Lemma edge_same st st' p c : same_lay st st' -> edge st' p c -> edge st p c.
Proof.
  intros H (ps' & cs' & k & Hp & Ht & Hc). destruct (same_lay_shape _ _ _ _ H Hp) as (ps & Hps & Ep).
  destruct (same_lay_shape _ _ _ _ H Hc) as (cs & Hcs & Ec). destruct (lay_eq _ _ Ep) as (_ & _ & _ & _ & F5 & _).
  exists ps, cs, k. by rewrite <- F5.
Qed.

(** [st'] has the layouts of [st], its masks unless they grew, and sound tables. *)
Lemma extends_same st st' : same_lay st st' -> (forall i, is_Some (live st !! i) -> mask_le (any_at st i) (any_at st' i)) ->
  extends st st'.
Proof.
  intros H Hany. split; [by destruct H as [-> _]|]. intros i s Hi. pose proof (same_lay_at _ _ i H) as E.
  rewrite (shape_at_live _ _ _ Hi) in E. destruct H as [_ H]. specialize (H i). rewrite Hi in H.
  destruct (live st' !! i) as [s'|] eqn:Hi'; [|done]. rewrite (shape_at_live _ _ _ Hi') in E.
  destruct (lay_eq _ _ E) as (E1 & E2 & E3 & E4 & E5 & E6). exists s'. split_and!; try done.
  specialize (Hany i ltac:(by eexists)). unfold any_at in Hany.
  by rewrite (shape_at_live _ _ _ Hi), (shape_at_live _ _ _ Hi') in Hany.
Qed.

(** ** Extension keeps layouts *)

Lemma extends_live st st' i : extends st st' -> is_Some (live st !! i) -> is_Some (live st' !! i).
Proof. intros [_ H] [s Hi]. destruct (H i s Hi) as (s' & H' & _). by eexists. Qed.

Lemma keys_from_frame st st' : struct_ok st ->
  (forall i s, live st !! i = Some s -> exists s', live st' !! i = Some s' /\ parent s' = parent s /\ skey s' = skey s) ->
  forall f i, is_Some (live st !! i) -> keys_from f st' i = keys_from f st i.
Proof.
  intros Hst H f. induction f as [|f IH]; intros i [s Hi]; [done|]. cbn [keys_from].
  destruct (H i s Hi) as (s' & Hi' & E1 & E2). rewrite (shape_at_live _ _ _ Hi), (shape_at_live _ _ _ Hi'), E1, E2.
  f_equal. destruct (parent s) as [p|] eqn:Ep; [|done].
  destruct (so_child _ _ _ (Hst i s Hi) p Ep) as (_ & ps & _ & Hp & _). apply IH. by eexists.
Qed.

Lemma extends_skeys st st' : struct_ok st -> extends st st' ->
  forall i, is_Some (live st !! i) -> skeys st' i = skeys st i.
Proof.
  intros Hst [_ Hex] i Hi. unfold skeys. f_equal. apply keys_from_frame; [done| |done].
  intros j s Hj. destruct (Hex j s Hj) as (s' & Hj' & E1 & E2 & _). by exists s'.
Qed.

Lemma extends_any st st' i : extends st st' -> is_Some (live st !! i) -> mask_le (any_at st i) (any_at st' i).
Proof.
  intros [_ H] [s Hi]. destruct (H i s Hi) as (s' & H' & _ & _ & _ & _ & _ & M). unfold any_at.
  by rewrite (shape_at_live _ _ _ Hi), (shape_at_live _ _ _ H').
Qed.

Lemma extends_brands st st' i : extends st st' -> is_Some (live st !! i) ->
  brands (shape_at st' i) = brands (shape_at st i).
Proof.
  intros [_ H] [s Hi]. destruct (H i s Hi) as (s' & H' & _ & _ & _ & _ & E & _).
  by rewrite (shape_at_live _ _ _ Hi), (shape_at_live _ _ _ H').
Qed.

(** ** Transition caches *)

Lemma upgrade_spec st w c : upgrade st w = Some c <-> w = c /\ is_Some (live st !! c).
Proof. unfold upgrade. case_decide; split; naive_solver. Qed.

Lemma is_live_spec st w : is_live st w = true <-> is_Some (live st !! w).
Proof. unfold is_live. apply bool_decide_eq_true. Qed.

Lemma in_trans_fun t k c c' : trans_ok t -> in_trans t k c -> in_trans t k c' -> c = c'.
Proof.
  destruct t as [|k0 c0|l|m n]; simpl; [done|naive_solver| |congruence].
  intros [Hnd _] H1 H2. apply list_elem_of_lookup in H1 as [n1 H1]. apply list_elem_of_lookup in H2 as [n2 H2].
  assert (n1 = n2) as ->; [|congruence]. apply (NoDup_lookup l.*1 n1 n2 k Hnd); rewrite list_lookup_fmap.
  - by rewrite H1.
  - by rewrite H2.
Qed.

Lemma find_key_spec (l : list (key * nat)) k : NoDup l.*1 -> forall e,
  List.find (fun e => bool_decide (fst e = k)) l = Some e <-> fst e = k /\ e ∈ l.
Proof.
  intros Hnd e. split.
  - intros H. apply List.find_some in H as [H1 H2%bool_decide_eq_true]. split; [done|by apply list_elem_of_In].
  - intros [Hk He]. destruct (List.find _ l) as [e'|] eqn:E.
    + apply List.find_some in E as [H1 H2%bool_decide_eq_true]. apply list_elem_of_In in H1.
      destruct e as [k1 c1], e' as [k2 c2]. simpl in *. subst. f_equal. f_equal.
      apply list_elem_of_lookup in H1 as [n1 H1]. apply list_elem_of_lookup in He as [n2 H2].
      assert (n1 = n2) as ->; [|congruence]. apply (NoDup_lookup l.*1 n1 n2 k Hnd); rewrite list_lookup_fmap.
      * by rewrite H1.
      * by rewrite H2.
    + exfalso. apply list_elem_of_In in He. by pose proof (List.find_none _ _ E e He) as ?%bool_decide_eq_false.
Qed.

Lemma trans_get_spec st t k c : trans_ok t ->
  trans_get st t k = Some c <-> in_trans t k c /\ is_Some (live st !! c).
Proof.
  destruct t as [|k0 c0|l|m n]; simpl; [naive_solver| | |].
  - intros _. case_decide; [rewrite upgrade_spec|]; naive_solver.
  - intros [Hnd _]. pose proof (find_key_spec l k Hnd) as Hf. destruct (List.find _ l) as [[k' c']|] eqn:E.
    + rewrite upgrade_spec. destruct (proj1 (Hf (k', c')) eq_refl) as [Hk He]. simpl in Hk. subst k'. split.
      * by intros [-> ?].
      * intros [Hin ?]. pose proof (proj2 (Hf (k, c)) (conj eq_refl Hin)) as Hx. injection Hx as ->. done.
    + split; [done|]. intros [Hin _]. by pose proof (proj2 (Hf (k, c)) (conj eq_refl Hin)).
  - intros _. rewrite bind_Some. split.
    + intros (w & Hw & Hu). by apply upgrade_spec in Hu as [-> ?].
    + intros [Hw Hl]. exists c. split; [done|]. by apply upgrade_spec.
Qed.

Lemma trans_get_None st t k : trans_ok t -> trans_get st t k = None ->
  forall c, in_trans t k c -> live st !! c = None.
Proof.
  intros Hok Hn c Hc. destruct (live st !! c) eqn:E; [|done]. exfalso.
  pose proof (proj2 (trans_get_spec st t k c Hok) (conj Hc (ex_intro _ _ E))). congruence.
Qed.

Lemma live_children_spec st t c : c ∈ live_children st t <-> exists k, in_trans t k c /\ is_Some (live st !! c).
Proof.
  destruct t as [|k0 c0|l|m n]; simpl.
  - rewrite elem_of_nil. naive_solver.
  - transitivity (upgrade st c0 = Some c).
    + destruct (upgrade st c0); simpl; rewrite ?list_elem_of_singleton, ?elem_of_nil; naive_solver.
    + rewrite upgrade_spec. naive_solver.
  - rewrite list_elem_of_omap. split.
    + intros ([k w] & Hin & Hu). simpl in Hu. apply upgrade_spec in Hu as [-> ?]. by exists k.
    + intros (k & Hin & Hl). exists (k, c). split; [done|]. by apply upgrade_spec.
  - rewrite list_elem_of_omap. split.
    + intros (w & (k & Hin)%btree_values_elem & Hu). apply upgrade_spec in Hu as [-> ?]. by exists k.
    + intros (k & Hin & Hl). exists c. split; [apply btree_values_elem; by exists k|]. by apply upgrade_spec.
Qed.

(** ** Memo cells: the probe counts, the hashed tables and the hints *)

Record memo_eq (st st' : Shapes) : Prop := {
  me_lay : same_lay st st';
  me_any : forall i, any_at st' i = any_at st i;
  me_index : forall i s' ix, live st' !! i = Some s' -> sindex s' = Some ix -> ix = index_of_keys (skeys st i) }.

Lemma memo_refl st : struct_ok st -> memo_eq st st.
Proof. intros H. split; [done|done|]. intros i s ix Hi. apply (so_index _ _ _ (H i s Hi)). Qed.

Lemma memo_wf st st' : memo_eq st st' -> wf st -> wf st'.
Proof.
  intros [H1 H2 H3] [Hs Hm]. split; [by eapply struct_same|]. intros p c He. rewrite !H2. by apply Hm, (edge_same st st').
Qed.

Lemma memo_extends st st' : memo_eq st st' -> extends st st'.
Proof. intros [H1 H2 _]. apply extends_same; [done|]. intros i _. by rewrite H2. Qed.

Lemma memo_trans a b c : memo_eq a b -> memo_eq b c -> memo_eq a c.
Proof.
  intros [A1 A2 A3] [B1 B2 B3]. split.
  - by etrans.
  - intros i. by rewrite B2, A2.
  - intros i s' ix Hi Hx. rewrite (B3 _ _ _ Hi Hx). f_equal. by apply skeys_same.
Qed.

Lemma live_update st i f j : live (update i f st) !! j = (if decide (i = j) then f <$> live st !! i else live st !! j).
Proof.
  unfold update. simpl. case_decide as E; [subst j; apply lookup_alter_eq|by apply lookup_alter_ne].
Qed.

Lemma shape_at_update st i f j : is_Some (live st !! i) ->
  shape_at (update i f st) j = (if decide (i = j) then f (shape_at st i) else shape_at st j).
Proof.
  intros [s Hi]. unfold shape_at. rewrite live_update. case_decide; [|done]. by rewrite Hi.
Qed.

Lemma same_lay_update st i f : (forall s, lay (f s) = lay s) -> same_lay st (update i f st).
Proof.
  intros Hf. split; [done|]. intros j. rewrite live_update. case_decide; [subst j|done].
  destruct (live st !! i); simpl; [by rewrite Hf|done].
Qed.

Lemma memo_update st i f : struct_ok st -> (forall s, lay (f s) = lay s) -> (forall s, any (f s) = any s) ->
  (forall s ix, live st !! i = Some s -> sindex (f s) = Some ix -> ix = index_of_keys (skeys st i)) ->
  memo_eq st (update i f st).
Proof.
  intros Hst Hl Ha Hx. split.
  - by apply same_lay_update.
  - intros j. unfold any_at, shape_at. rewrite live_update. case_decide; [subst j|done].
    destruct (live st !! i); simpl; [by rewrite Ha|done].
  - intros j s' ix. rewrite live_update. case_decide; [subst j|].
    + destruct (live st !! i) as [s|] eqn:E; [|done]. simpl. intros [= <-]. by apply Hx.
    + intros Hj. apply (so_index _ _ _ (Hst j s' Hj)).
Qed.

Lemma index_keys_eq st : struct_ok st -> forall f i, is_Some (live st !! i) -> index_keys f st i = keys_from f st i.
Proof.
  intros Hst f. induction f as [|f IH]; intros i [s Hi]; [done|]. cbn [index_keys keys_from].
  rewrite (shape_at_live _ _ _ Hi). destruct (parent s) as [p|] eqn:Ep.
  - destruct (so_child _ _ _ (Hst i s Hi) p Ep) as (_ & ps & k & Hp & Hk & _). rewrite Hk. simpl.
    f_equal. apply IH. by eexists.
  - by destruct (so_root _ _ _ (Hst i s Hi) Ep) as (-> & _).
Qed.

Lemma index_build_eq st i : struct_ok st -> is_Some (live st !! i) -> index_build st i = index_of_keys (skeys st i).
Proof. intros Hst Hi. unfold index_build. by rewrite index_keys_eq. Qed.

Lemma index_find_skeys st i s k : struct_ok st -> live st !! i = Some s ->
  index_find (index_of_keys (skeys st i)) k = slot_of (skeys st i) k.
Proof.
  intros Hst Hi. apply index_find_spec; [by eapply skeys_NoDup|].
  rewrite <- (slen_skeys st i s) by done. by destruct (so_len _ _ _ (Hst i s Hi)).
Qed.

(** A lookup answers the position of the key and touches memo cells only. *)
Lemma lookup_spec st i k : wf st -> is_Some (live st !! i) ->
  exists st', lookup i k st = (slot_of (skeys st i) k, st') /\ memo_eq st st'.
Proof.
  intros [Hst Hm] [s Hi]. pose proof (memo_refl st Hst) as Hrefl. unfold lookup. case_bools.
  2: { exists st. by rewrite (walk_lookup_spec st i s). }
  unfold indexed_lookup. rewrite (shape_at_live _ _ _ Hi). destruct (sindex s) as [ix|] eqn:Ex.
  { exists st. rewrite (so_index _ _ _ (Hst i s Hi) ix Ex). by rewrite (index_find_skeys st i s). }
  set (f := with_probes (probes s + 1)). set (st1 := update i f st).
  assert (H1 : memo_eq st st1).
  { apply memo_update; [done..|]. intros s0 ix Hs0. rewrite Hi in Hs0. injection Hs0 as <-. simpl. congruence. }
  assert (Hst1 : struct_ok st1) by (by apply (memo_wf st st1 H1 (Build_wf _ Hst Hm))).
  assert (Hi1 : live st1 !! i = Some (f s)) by (unfold st1; rewrite live_update, decide_True, Hi by done; done).
  assert (Hk : skeys st1 i = skeys st i) by (apply skeys_same; [by destruct H1|done]).
  case_bools.
  - rewrite index_build_eq by (done || by eexists). rewrite (index_find_skeys st1 i (f s)) by done. rewrite Hk.
    eexists. split; [done|]. eapply memo_trans; [exact H1|]. apply memo_update; [done..|].
    intros s0 ix _. simpl. intros [= <-]. by rewrite Hk.
  - exists st1. by rewrite (walk_lookup_spec st1 i (f s)), Hk.
Qed.

Lemma contains_spec st i k : wf st -> is_Some (live st !! i) ->
  exists st', contains i k st = (bool_decide (k ∈ skeys st i), st') /\ memo_eq st st'.
Proof.
  intros Hst Hi. destruct (lookup_spec st i k Hst Hi) as (st' & E & H). exists st'. unfold contains. rewrite E.
  split; [|done]. f_equal. apply bool_decide_ext. by rewrite slot_of_is_Some.
Qed.

Lemma keys_spec st i : struct_ok st -> is_Some (live st !! i) -> keys i st = skeys st i.
Proof.
  intros Hst [s Hi]. unfold keys. rewrite (shape_at_live _ _ _ Hi). destruct (sindex s) as [ix|] eqn:Ex; [|done].
  by rewrite (so_index _ _ _ (Hst i s Hi) ix Ex).
Qed.

Lemma keys_unordered_spec st i : struct_ok st -> is_Some (live st !! i) -> keys_unordered i st ≡ₚ skeys st i.
Proof.
  intros Hst [s Hi]. unfold keys_unordered. rewrite (shape_at_live _ _ _ Hi). destruct (sindex s) as [ix|] eqn:Ex.
  - by rewrite (so_index _ _ _ (Hst i s Hi) ix Ex).
  - unfold skeys. by rewrite <- Permutation_rev.
Qed.

(** ** Brand bits *)

Lemma key_bits_range k n : 0 <= n -> Z.testbit (key_bits k) n = true -> n = 0 \/ n = 1 \/ n = 7.
Proof.
  intros Hn. unfold key_bits, brand_bit. destruct (negb _); [by rewrite Z.bits_0|].
  rewrite Z.lor_spec, orb_true_iff. intros [H|H].
  - destruct (list_find _ _) as [[j b]|] eqn:E; [|by rewrite Z.bits_0 in H].
    apply list_find_Some in E as (E%lookup_lt_Some & _). cbn in E.
    rewrite Z.shiftl_1_l, Z.pow2_bits_eqb in H by lia. apply Z.eqb_eq in H. lia.
  - destruct (starts_with k SYMBOL_KEY_PREFIX); [|by rewrite Z.bits_0 in H].
    right; right. unfold SYMBOL_KEYS_BIT in H. change 128 with (2 ^ 7) in H. rewrite Z.pow2_bits_eqb in H by lia.
    by apply Z.eqb_eq in H.
Qed.

Lemma keys_bits_range ks n : 0 <= n -> Z.testbit (keys_bits ks) n = true -> n = 0 \/ n = 1 \/ n = 7.
Proof.
  intros Hn. induction ks as [|k ks IH]; simpl; [by rewrite Z.bits_0|].
  rewrite Z.lor_spec, orb_true_iff. intros [H|H]; [by eapply key_bits_range|auto].
Qed.

Lemma keys_bits_app ks ks' : keys_bits (ks ++ ks') = Z.lor (keys_bits ks) (keys_bits ks').
Proof. induction ks as [|k ks IH]; simpl; [done|]. by rewrite IH, Z.lor_assoc. Qed.

Lemma implied_testbit n : 0 <= n -> Z.testbit IMPLIED_ATTRS_BITS n = true <-> n = 5 \/ n = 6.
Proof.
  intros Hn. change IMPLIED_ATTRS_BITS with (Z.lor (2 ^ 6) (2 ^ 5)). rewrite Z.lor_spec, !Z.pow2_bits_eqb by lia.
  rewrite orb_true_iff, !Z.eqb_eq. lia.
Qed.

(** ** Growing *)

Lemma list_replace_fst k c l : (list_replace k c l).*1 = l.*1.
Proof. induction l as [|[k' c'] l IH]; simpl; [done|]. case_decide; simpl; [done|]. by f_equal. Qed.

Lemma list_replace_elem k c l k' c' : NoDup l.*1 -> k ∈ l.*1 ->
  (k', c') ∈ list_replace k c l <-> (k' = k /\ c' = c) \/ (k' <> k /\ (k', c') ∈ l).
Proof.
  induction l as [|[k1 c1] l IH]; simpl; [by rewrite elem_of_nil|].
  intros [Hnin Hnd]%NoDup_cons Hin. case_decide as E.
  - subst k1. rewrite !elem_of_cons. split.
    + intros [[= -> ->]|Hl]; [by left|]. right. split; [|by right]. intros ->. apply Hnin.
      apply list_elem_of_fmap. by exists (k, c').
    + intros [[-> ->]|[Hne [?|Hl]]]; [by left|congruence|by right].
  - apply elem_of_cons in Hin as [->|Hin]; [done|]. rewrite !elem_of_cons, IH by done. split.
    + intros [[= -> ->]|[?|[? ?]]]; [right; split; [congruence|by left]|by left|right; split; [done|by right]].
    + intros [[-> ->]|[Hne [?|?]]]; [right; by left|by left|right; by right].
Qed.

Lemma foldl_insert_lookup (l : list (key * nat)) k c : NoDup l.*1 -> forall m : gmap key nat,
  foldl (fun m e => <[fst e := snd e]> m) m l !! k = Some c <-> (k, c) ∈ l \/ ((k ∉ l.*1) /\ m !! k = Some c).
Proof.
  induction l as [|[k1 c1] l IH]; intros Hnd m; simpl.
  - rewrite elem_of_nil. split; [right; split; [apply not_elem_of_nil|done]|by intros [?|[_ ?]]].
  - apply NoDup_cons in Hnd as [Hnin Hnd]. simpl in Hnin. rewrite IH by done. rewrite !elem_of_cons, lookup_insert_Some. split.
    + intros [?|(Hn & [[-> ->]|[Hne ?]])]; [left; by right|left; by left|]. right. split; [|done]. by intros [->|?].
    + intros [[[= -> ->]|?]|[Hn ?]]; [right; split; [done|by left]|by left|].
      right. split; [naive_solver|]. right. split; [naive_solver|done].
Qed.

Lemma retain_live_elem st l e : e ∈ retain_live st l <-> e ∈ l /\ is_Some (live st !! e.2).
Proof.
  unfold retain_live. rewrite !list_elem_of_In, List.filter_In. by rewrite is_live_spec.
Qed.

Lemma retain_live_NoDup st l : NoDup l.*1 -> NoDup (retain_live st l).*1.
Proof.
  intros H. eapply sublist_NoDup; [exact H|]. apply fmap_sublist. unfold retain_live.
  induction l as [|e l IH]; simpl; [done|]. destruct (is_live _ _); constructor; apply IH; by apply NoDup_cons in H as [_ ?].
Qed.

Record inserted (st : Shapes) (t t' : Transitions) (k : key) (child : nat) : Prop := {
  in_ok : trans_ok t';
  in_new : in_trans t' k child;
  in_old : forall k' c, in_trans t' k' c -> (k' = k /\ c = child) \/ in_trans t k' c;
  in_kept : forall k' c, k' <> k -> in_trans t k' c -> is_Some (live st !! c) -> in_trans t' k' c }.

Lemma list_insert_spec st l k child : NoDup l.*1 -> k ∉ l.*1 -> is_Some (live st !! child) ->
  inserted st (TList l)
    (let l := if (TRANSITION_LIST_MAX <=? length l)%nat then retain_live st l else l in
     if (length l <? TRANSITION_LIST_MAX)%nat then TList (l ++ [(k, child)])
     else let m := <[k := child]> (foldl (fun m e => <[fst e := snd e]> m) ∅ l) in TMap m (2 * Z.of_nat (size m)))
    k child.
Proof.
  intros Hnd Hk Hchild.
  set (l' := if (TRANSITION_LIST_MAX <=? length l)%nat then retain_live st l else l). cbv zeta.
  assert (Hl' : NoDup l'.*1) by (unfold l'; case_bools; auto using retain_live_NoDup).
  assert (Hsub : forall e, e ∈ l' -> e ∈ l) by (unfold l'; case_bools; [intros e [? _]%retain_live_elem|]; auto).
  assert (Hkeep : forall e, e ∈ l -> is_Some (live st !! e.2) -> e ∈ l')
    by (unfold l'; case_bools; [intros e ? ?; by apply retain_live_elem|auto]).
  assert (Hk' : k ∉ l'.*1).
  { rewrite list_elem_of_fmap. intros (e & -> & He). apply Hk, list_elem_of_fmap. exists e. auto. }
  destruct (Nat.ltb_spec (length l') TRANSITION_LIST_MAX).
  - split; simpl.
    + rewrite fmap_app, NoDup_app, length_app. simpl. split_and!; [done| |apply NoDup_singleton|lia].
      intros x Hx ->%list_elem_of_singleton. done.
    + apply elem_of_app. right. by apply list_elem_of_singleton.
    + intros k' c. rewrite elem_of_app, list_elem_of_singleton. intros [?|[= -> ->]]; [right; auto|by left].
    + intros k' c _ Hin Hl. apply elem_of_app. left. by apply Hkeep.
  - split; simpl; [done|by rewrite lookup_insert_eq| |].
    + intros k' c. rewrite lookup_insert_Some. intros [[-> ->]|[_ Hc]]; [by left|right].
      apply foldl_insert_lookup in Hc as [?|[_ ?]]; [auto|done..].
    + intros k' c Hne Hin Hl. rewrite lookup_insert_ne by done. apply foldl_insert_lookup; [done|]. left. by apply Hkeep.
Qed.

Lemma trans_insert_spec st t k child : trans_ok t -> (forall c, in_trans t k c -> live st !! c = None) ->
  is_Some (live st !! child) -> inserted st t (trans_insert st t k child) k child.
Proof.
  intros Hok Hdead Hchild. destruct t as [|k0 c0|l|m n]; cbn [trans_insert].
  - split; simpl; naive_solver.
  - case_bool_decide as Ek; simpl.
    + subst. split; simpl; naive_solver.
    + destruct (is_live st c0) eqn:El; simpl.
      * split; simpl.
        -- split; [|unfold TRANSITION_LIST_MAX; lia]. apply NoDup_cons. split; [by intros ?%list_elem_of_singleton|apply NoDup_singleton].
        -- right. by left.
        -- intros k' c. rewrite !elem_of_cons, elem_of_nil. naive_solver.
        -- intros k' c _ [-> ->] _. by left.
      * split; simpl; [done|done|naive_solver|]. intros k' c _ [<- <-] Hl%is_live_spec. congruence.
  - destruct Hok as [Hnd Hlen]. destruct (existsb _ l) eqn:Ex.
    + assert (Hk : k ∈ l.*1).
      { apply existsb_exists in Ex as (e & He & Ek%bool_decide_eq_true). apply list_elem_of_fmap.
        exists e. split; [done|by apply list_elem_of_In]. }
      split; simpl.
      * split; [by rewrite list_replace_fst|]. rewrite <- (length_fmap fst), list_replace_fst, length_fmap. done.
      * apply list_replace_elem; auto.
      * intros k' c. rewrite list_replace_elem by done. tauto.
      * intros k' c Hne Hin _. apply list_replace_elem; auto.
    + apply list_insert_spec; [done| |done]. intros (e & -> & He)%list_elem_of_fmap.
      assert (existsb (fun e0 : key * nat => bool_decide (e0.1 = e.1)) l = true); [|congruence].
      apply existsb_exists. exists e. split; [by apply list_elem_of_In|by apply bool_decide_eq_true].
  - case_bools; split; simpl.
    + done.
    + rewrite map_lookup_filter_Some, lookup_insert_eq. split; [done|]. by apply is_live_spec.
    + intros k' c. rewrite map_lookup_filter_Some, lookup_insert_Some. naive_solver.
    + intros k' c Hne Hin Hl. rewrite map_lookup_filter_Some, lookup_insert_ne by done. split; [done|]. by apply is_live_spec.
    + done.
    + by rewrite lookup_insert_eq.
    + intros k' c. rewrite lookup_insert_Some. naive_solver.
    + intros k' c Hne Hin _. by rewrite lookup_insert_ne.
Qed.

(** ** A new child

    [grown st st' i s t' c]: [st'] is [st] with the shape [c] added and the
    transition cache of its parent [i] replaced by [t']. *)

Record grown (st st' : Shapes) (i : nat) (s : Shape) (t' : Transitions) (c : Shape) : Prop := {
  gr_next : next_id st' = S (next_id st);
  gr_new : live st' !! next_id st = Some c;
  gr_parent : live st' !! i = Some (with_transitions t' s);
  gr_other : forall j, j <> next_id st -> j <> i -> live st' !! j = live st !! j }.

Section Grown.
Context (st st' : Shapes) (i : nat) (s : Shape) (k : key) (b : Z) (t' : Transitions).
Let n : nat := next_id st.
Let c : Shape := child_shape st i k b.
Hypothesis Hwf : wf st.
Hypothesis Hi : live st !! i = Some s.
Hypothesis Hg : grown st st' i s t' c.
Hypothesis Hunmarked : marked s = false.
Hypothesis Hk : k ∉ skeys st i.
Hypothesis Hlen : slen s + 1 < 2 ^ 32 - 1.
Hypothesis Hbrands : exists m, b = Z.lor (keys_bits (skeys st i ++ [k])) m /\
  (m = 0 \/ m = IMPLIED_CTOR_ATTRS_BIT \/ m = IMPLIED_FN_ATTRS_BIT /\ skeys st i ++ [k] = [bytes "length"%string; bytes "name"%string]).
Hypothesis Htrans : (marked c = false /\ inserted st' (transitions s) t' k n /\
    forall d, in_trans (transitions s) k d -> live st !! d = None) \/ (marked c = true /\ t' = transitions s).

Lemma grown_fresh : live st !! n = None.
Proof using Hwf.
  destruct (live st !! n) as [x|] eqn:E; [|done]. pose proof (so_id _ _ _ (wf_struct _ Hwf n x E)). unfold n in *. lia.
Qed.

Lemma grown_ne : i <> n.
Proof using Hi Hwf. intros E. pose proof grown_fresh as H. rewrite <- E in H. congruence. Qed.

Lemma grown_old j x : live st !! j = Some x -> exists x', live st' !! j = Some x' /\
  parent x' = parent x /\ skey x' = skey x /\ slot x' = slot x /\ slen x' = slen x /\ brands x' = brands x /\
  sindex x' = sindex x /\ any x' = any x /\ transitions x' = (if decide (j = i) then t' else transitions x).
Proof using Hi Hwf Hg.
  intros Hj. destruct (decide (j = i)) as [->|Hne].
  - rewrite Hi in Hj. injection Hj as <-. exists (with_transitions t' s). split; [apply (gr_parent _ _ _ _ _ _ Hg)|]. done.
  - exists x. split; [|done]. rewrite (gr_other _ _ _ _ _ _ Hg); [done| |done]. intros ->. pose proof grown_fresh as F. unfold n in *. congruence.
Qed.

Lemma grown_back j x' : live st' !! j = Some x' -> j <> n -> exists x, live st !! j = Some x.
Proof using Hi Hg.
  intros Hj Hn. destruct (decide (j = i)) as [->|Hne]; [by eexists|]. rewrite (gr_other _ _ _ _ _ _ Hg) in Hj by done. by eexists.
Qed.

Lemma grown_skeys j : is_Some (live st !! j) -> skeys st' j = skeys st j.
Proof using Hi Hwf Hg.
  intros Hj. unfold skeys. f_equal. apply keys_from_frame; [apply Hwf| |done].
  intros j' x Hj'. destruct (grown_old j' x Hj') as (x' & H1 & H2 & H3 & _). by exists x'.
Qed.

Lemma grown_skeys_new : skeys st' n = skeys st i ++ [k].
Proof using Hi Hwf Hg.
  assert (Hn : live st' !! n = Some c) by apply (gr_new _ _ _ _ _ _ Hg).
  unfold skeys at 1. cbn [keys_from]. rewrite (shape_at_live _ _ _ Hn). simpl. f_equal.
  pose proof (so_id _ _ _ (wf_struct _ Hwf i s Hi)) as Hid. rewrite (keys_from_frame st st'); [| |..].
  - rewrite (keys_from_fuel st (wf_struct _ Hwf) n i); [done|by eexists|done].
  - apply Hwf.
  - intros j' x Hj'. destruct (grown_old j' x Hj') as (x' & H1 & H2 & H3 & _). by exists x'.
  - by eexists.
Qed.

Lemma grown_in_trans k' j cs : in_trans t' k' j -> live st !! j = Some cs -> in_trans (transitions s) k' j.
Proof using Hwf Htrans Hi Hg.
  intros Ht Hj. destruct Htrans as [(_ & [_ _ Hold _] & _)|[_ ->]]; [|done]. destruct (Hold _ _ Ht) as [[_ ->]|?]; [|done].
  pose proof grown_fresh as F. unfold n in *. congruence.
Qed.

Lemma grown_struct_old j x : live st !! j = Some x -> forall x', live st' !! j = Some x' -> shape_ok st' j x'.
Proof using Hi Hwf Hg Htrans Hk.
  intros Hj x' Hj'. destruct (grown_old j x Hj) as (x2 & H2 & E1 & E2 & E3 & E4 & E5 & E6 & _ & E7).
  rewrite Hj' in H2. injection H2 as <-. destruct (wf_struct _ Hwf j x Hj) as [A1 A2 A3 A4 A5 A6 A6' A7 A8 A9].
  assert (Hn : live st' !! n = Some c) by apply (gr_new _ _ _ _ _ _ Hg).
  assert (Hsk : skeys st' j = skeys st j) by (apply grown_skeys; by eexists).
  split; rewrite ?E1, ?E2, ?E3, ?E4, ?E5, ?E6, ?Hsk; auto.
  - rewrite (gr_next _ _ _ _ _ _ Hg). lia.
  - intros p Hp. destruct (A3 p Hp) as (Hpj & ps & k' & Hlp & Hk' & Hnin & Hs1 & Hs2 & Hm).
    destruct (grown_old p ps Hlp) as (ps' & Hlp' & _ & _ & _ & F4 & F5 & _). split; [done|]. exists ps', k'.
    rewrite (marked_lay ps ps' F5), F4, grown_skeys by by eexists. done.
  - intros d ds k' Hd Hpd Hmd Hkd. rewrite E7. destruct (decide (d = n)) as [->|Hdn].
    + rewrite Hn in Hd. injection Hd as <-. injection Hpd as <-. injection Hkd as <-.
      rewrite decide_True by done. destruct Htrans as [(_ & H & _)|[H _]]; [apply (in_new _ _ _ _ _ H)|congruence].
    + destruct (grown_back d ds Hd Hdn) as [d0 Hd0]. destruct (grown_old d d0 Hd0) as (ds2 & Hd2 & F1 & F2 & _ & _ & F5 & _).
      rewrite Hd in Hd2. injection Hd2 as <-. rewrite (marked_lay d0 ds F5) in Hmd.
      pose proof (A5 d d0 k' Hd0 ltac:(congruence) Hmd ltac:(congruence)) as Hin. case_decide as Eji; [|done]. subst j.
      rewrite Hi in Hj. injection Hj as <-. destruct Htrans as [(_ & [_ _ _ Hkept] & Hdead)|[_ ->]]; [|done].
      apply Hkept; [|done|by eexists]. intros ->. by rewrite (Hdead _ Hin) in Hd0.
  - intros k' d ds Ht Hd. destruct (decide (d = n)) as [->|Hdn].
    + rewrite Hn in Hd. injection Hd as <-. rewrite E7 in Ht. case_decide as Eji.
      * subst j. destruct Htrans as [(Hm & [_ _ Hold _] & _)|[_ ->]].
        -- destruct (Hold _ _ Ht) as [[-> _]|Hin]; [by split_and!|]. rewrite Hi in Hj. injection Hj as <-.
           pose proof (A6' _ _ Hin). unfold n in *. lia.
        -- rewrite Hi in Hj. injection Hj as <-. pose proof (A6' _ _ Ht). unfold n in *. lia.
      * pose proof (A6' _ _ Ht). unfold n in *. lia.
    + destruct (grown_back d ds Hd Hdn) as [d0 Hd0]. destruct (grown_old d d0 Hd0) as (ds2 & Hd2 & F1 & F2 & _ & _ & F5 & _).
      rewrite Hd in Hd2. injection Hd2 as <-. rewrite F1, F2, (marked_lay d0 ds F5). apply (A6 k' d d0); [|done].
      rewrite E7 in Ht. case_decide as Eji; [|done]. subst j. rewrite Hi in Hj. injection Hj as <-. by eapply grown_in_trans.
  - intros k' d. rewrite E7, (gr_next _ _ _ _ _ _ Hg). case_decide as Eji; [|intros Ht; pose proof (A6' _ _ Ht); lia].
    subst j. rewrite Hi in Hj. injection Hj as <-. destruct Htrans as [(_ & [_ _ Hold _] & _)|[_ ->]].
    + intros Ht. destruct (Hold _ _ Ht) as [[_ ->]|Hin]; [unfold n; lia|]. pose proof (A6' _ _ Hin). lia.
    + intros Ht. pose proof (A6' _ _ Ht). lia.
  - rewrite E7. case_decide as Eji; [|done]. subst j. rewrite Hi in Hj. injection Hj as <-.
    destruct Htrans as [(_ & H & _)|[_ ->]]; [apply (in_ok _ _ _ _ _ H)|done].
Qed.
Lemma child_slen : slen c = slen s + 1.
Proof using Hi Hwf Hlen.
  unfold c, child_shape. cbn [slen]. rewrite (shape_at_live _ _ _ Hi).
  pose proof (so_len _ _ _ (wf_struct _ Hwf i s Hi)). apply as_u32_small. lia.
Qed.

Lemma grown_struct_new : shape_ok st' n c.
Proof using Hi Hwf Hg Hk Hlen Hbrands Hunmarked Htrans.
  pose proof (so_id _ _ _ (wf_struct _ Hwf i s Hi)) as Hid. pose proof child_slen as Hcl.
  pose proof (so_len _ _ _ (wf_struct _ Hwf i s Hi)) as Hsl.
  assert (Hn : live st' !! n = Some c) by apply (gr_new _ _ _ _ _ _ Hg). split.
  - rewrite (gr_next _ _ _ _ _ _ Hg). unfold n. lia.
  - done.
  - intros p [= <-]. split; [done|]. exists (with_transitions t' s), k. rewrite grown_skeys by by eexists.
    split_and!; try done; [apply (gr_parent _ _ _ _ _ _ Hg)|]. unfold c, child_shape. simpl. by rewrite (shape_at_live _ _ _ Hi).
  - lia.
  - intros d ds k' Hd Hp Hm Hkd. exfalso.
    assert (d <> n) as Hdn by (intros ->; rewrite Hn in Hd; injection Hd as <-; injection Hp as Hp; by apply grown_ne).
    destruct (grown_back d ds Hd Hdn) as [d0 Hd0]. destruct (grown_old d d0 Hd0) as (ds2 & Hd2 & F1 & _).
    rewrite Hd in Hd2. injection Hd2 as <-. rewrite F1 in Hp.
    destruct (so_child _ _ _ (wf_struct _ Hwf d d0 Hd0) n Hp) as (_ & ps & _ & Hps & _).
    pose proof grown_fresh. congruence.
  - done.
  - done.
  - done.
  - destruct Hbrands as (m & Hb & Hm). exists m. rewrite grown_skeys_new. by split.
  - done.
Qed.

Lemma grown_wf : wf st'.
Proof using Hi Hwf Hg Hk Hlen Hbrands Hunmarked Htrans.
  assert (Hn : live st' !! n = Some c) by apply (gr_new _ _ _ _ _ _ Hg). split.
  - intros j x' Hj. destruct (decide (j = n)) as [->|Hne].
    + rewrite Hn in Hj. injection Hj as <-. apply grown_struct_new.
    + destruct (grown_back j x' Hj Hne) as [x Hx]. by eapply grown_struct_old.
  - intros p d (ps & ds & k' & Hp & Ht & Hd). unfold any_at.
    rewrite (shape_at_live _ _ _ Hp), (shape_at_live _ _ _ Hd).
    destruct (decide (p = n)) as [->|Hpn]; [rewrite Hn in Hp; by injection Hp as <-|].
    destruct (grown_back p ps Hp Hpn) as [p0 Hp0]. destruct (grown_old p p0 Hp0) as (ps2 & Hp2 & _ & _ & _ & _ & _ & _ & Ea & Et).
    rewrite Hp in Hp2. injection Hp2 as <-. rewrite Ea. destruct (decide (d = n)) as [->|Hdn].
    + rewrite Hn in Hd. injection Hd as <-. rewrite Et in Ht. case_decide as E.
      * subst p. rewrite Hi in Hp0. injection Hp0 as <-. unfold c, child_shape. simpl. by rewrite (shape_at_live _ _ _ Hi).
      * pose proof (so_trans_id _ _ _ (wf_struct _ Hwf p p0 Hp0) _ _ Ht). unfold n in *. lia.
    + destruct (grown_back d ds Hd Hdn) as [d0 Hd0]. destruct (grown_old d d0 Hd0) as (ds2 & Hd2 & _ & _ & _ & _ & _ & _ & Fa & _).
      rewrite Hd in Hd2. injection Hd2 as <-. rewrite Fa.
      assert (Hin : in_trans (transitions p0) k' d).
      { rewrite Et in Ht. case_decide as E; [|done]. subst p. rewrite Hi in Hp0. injection Hp0 as <-. by eapply grown_in_trans. }
      pose proof (wf_masks _ Hwf p d (ex_intro _ p0 (ex_intro _ d0 (ex_intro _ k' (conj Hp0 (conj Hin Hd0)))))) as M.
      unfold any_at in M. by rewrite (shape_at_live _ _ _ Hp0), (shape_at_live _ _ _ Hd0) in M.
Qed.

Lemma grown_extends : extends st st'.
Proof using Hi Hwf Hg.
  split; [rewrite (gr_next _ _ _ _ _ _ Hg); lia|]. intros j x Hj.
  destruct (grown_old j x Hj) as (x' & H1 & E1 & E2 & E3 & E4 & E5 & _ & Ea & _). exists x'. rewrite Ea. by split_and!.
Qed.

Lemma grown_child : is_Some (live st' !! n) /\ skeys st' n = skeys st i ++ [k] /\ parent (shape_at st' n) = Some i /\
  brands (shape_at st' n) = b /\ any_at st' n = any_at st i /\ slen (shape_at st' n) = slen s + 1.
Proof using Hi Hwf Hg Hlen.
  assert (Hn : live st' !! n = Some c) by apply (gr_new _ _ _ _ _ _ Hg).
  split; [by eexists|]. split; [apply grown_skeys_new|]. unfold any_at. rewrite (shape_at_live _ _ _ Hn).
  split_and!; try done. apply child_slen.
Qed.
End Grown.

Lemma grown_alloc st i s c : wf st -> live st !! i = Some s ->
  grown st (snd (alloc_shape c st)) i s (transitions s) c.
Proof.
  intros Hwf Hi. pose proof (so_id _ _ _ (wf_struct _ Hwf i s Hi)). split; cbn; [done|by rewrite lookup_insert_eq| |].
  - rewrite lookup_insert_ne by lia. rewrite Hi. by destruct s.
  - intros j H1 _. by rewrite lookup_insert_ne.
Qed.

Lemma grown_add st i s c t' : wf st -> live st !! i = Some s ->
  grown st (update i (with_transitions t') (snd (alloc_shape c st))) i s t' c.
Proof.
  intros Hwf Hi. pose proof (so_id _ _ _ (wf_struct _ Hwf i s Hi)). split; [done|..].
  - rewrite live_update, decide_False by lia. cbn. by rewrite lookup_insert_eq.
  - rewrite live_update, decide_True by done. cbn. by rewrite lookup_insert_ne, Hi by lia.
  - intros j H1 H2. rewrite live_update, decide_False by done. cbn. by rewrite lookup_insert_ne.
Qed.

(** ** The operations that grow a layout *)

Lemma brands_marked st i s : wf st -> live st !! i = Some s ->
  forall m, brands s = Z.lor (keys_bits (skeys st i)) m ->
  (m = 0 \/ m = IMPLIED_CTOR_ATTRS_BIT \/ m = IMPLIED_FN_ATTRS_BIT) -> marked s = negb (m =? 0).
Proof.
  intros Hwf Hi m Hb Hm. unfold marked, has_implied_attrs, has_brand. rewrite Hb. f_equal.
  assert (Z.land (Z.lor (keys_bits (skeys st i)) m) IMPLIED_ATTRS_BITS = m) as ->; [|done].
  apply Z.bits_inj'. intros n Hn. rewrite Z.land_spec, Z.lor_spec.
  destruct (Z.testbit (keys_bits (skeys st i)) n) eqn:Ek; simpl.
  - apply keys_bits_range in Ek; [|done]. destruct Ek as [->|[->| ->]]; destruct Hm as [->|[->| ->]]; done.
  - destruct (Z.testbit m n) eqn:Em; [|done]. simpl. apply implied_testbit; [done|].
    destruct Hm as [->|[->| ->]]; [by rewrite Z.bits_0 in Em|..].
    + change IMPLIED_CTOR_ATTRS_BIT with (2 ^ 5) in Em. rewrite Z.pow2_bits_eqb in Em by lia. apply Z.eqb_eq in Em. lia.
    + change IMPLIED_FN_ATTRS_BIT with (2 ^ 6) in Em. rewrite Z.pow2_bits_eqb in Em by lia. apply Z.eqb_eq in Em. lia.
Qed.

(** The brand bits of an ordinary layout are those of its keys. *)
Lemma unmarked_brands st i s : wf st -> live st !! i = Some s -> marked s = false ->
  brands s = keys_bits (skeys st i).
Proof.
  intros Hwf Hi Hm. destruct (so_brands _ _ _ (wf_struct _ Hwf i s Hi)) as (m & Hb & Hcases).
  rewrite (brands_marked st i s Hwf Hi m Hb) in Hm by naive_solver. apply negb_false_iff, Z.eqb_eq in Hm. subst m.
  by rewrite Hb, Z.lor_0_r.
Qed.

Lemma keys_bits_unmarked ks : Z.ldiff (keys_bits ks) IMPLIED_ATTRS_BITS = keys_bits ks.
Proof.
  apply Z.bits_inj'. intros n Hn. rewrite Z.ldiff_spec. destruct (Z.testbit (keys_bits ks) n) eqn:Ek; [|done].
  apply keys_bits_range in Ek; [|done]. destruct Ek as [->|[->| ->]]; done.
Qed.

Lemma keys_bits_snoc ks k : Z.lor (keys_bits ks) (key_bits k) = keys_bits (ks ++ [k]).
Proof. rewrite keys_bits_app. simpl. by rewrite Z.lor_0_r. Qed.

(** What growing [i] by [k] answers. *)
Record grows (st st' : Shapes) (i : nat) (k : key) (c : nat) : Prop := {
  gw_wf : wf st';
  gw_extends : extends st st';
  gw_live : is_Some (live st' !! c);
  gw_keys : skeys st' c = skeys st i ++ [k];
  gw_parent : parent (shape_at st' c) = Some i;
  gw_any : mask_le (any_at st i) (any_at st' c);
  gw_unmarked : marked (shape_at st' c) = false }.

Lemma add_spec st i s k : wf st -> live st !! i = Some s -> marked s = false -> k ∉ skeys st i ->
  slen s + 1 < 2 ^ 32 - 1 -> grows st (snd (add i k st)) i k (fst (add i k st)).
Proof.
  intros Hwf Hi Hm Hk Hlen. unfold add. rewrite (shape_at_live _ _ _ Hi). pose proof (wf_struct _ Hwf i s Hi) as Hok.
  destruct (trans_get st (transitions s) k) as [c|] eqn:Et.
  - apply trans_get_spec in Et as [Hin [cs Hc]]; [|apply Hok]. destruct (so_trans _ _ _ Hok k c cs Hin Hc) as (Hp & Hkc & Hmc).
    split; simpl; rewrite ?(shape_at_live _ _ _ Hc); [done|done|by eexists| |done| |done].
    + rewrite (skeys_child st c cs i k); [done|apply Hwf|done..].
    + apply (wf_masks _ Hwf). by exists s, cs, k.
  - set (b := Z.lor (Z.ldiff (brands s) IMPLIED_ATTRS_BITS) (key_bits k)).
    assert (Hb : b = keys_bits (skeys st i ++ [k])).
    { unfold b. rewrite (unmarked_brands st i s Hwf Hi Hm), keys_bits_unmarked. apply keys_bits_snoc. }
    set (c := child_shape st i k b). cbn [alloc_shape fst snd].
    change (MkShapes (<[next_id st:=c]> (live st)) (S (next_id st))) with (snd (alloc_shape c st)).
    set (t' := trans_insert (snd (alloc_shape c st)) (transitions s) k (next_id st)).
    set (st' := update i (with_transitions t') (snd (alloc_shape c st))).
    pose proof (grown_add st i s c t' Hwf Hi) as Hg. fold st' in Hg.
    assert (Hmc : marked c = false).
    { unfold marked, has_implied_attrs, has_brand, c, child_shape. cbn [brands]. rewrite Hb, <- keys_bits_unmarked.
      by rewrite Z.land_ldiff. }
    assert (Hbr : exists m, b = Z.lor (keys_bits (skeys st i ++ [k])) m /\
      (m = 0 \/ m = IMPLIED_CTOR_ATTRS_BIT \/ m = IMPLIED_FN_ATTRS_BIT /\ skeys st i ++ [k] = [bytes "length"%string; bytes "name"%string])).
    { exists 0. rewrite Z.lor_0_r. auto. }
    pose proof (trans_get_None st _ k (so_trans_ok _ _ _ Hok) Et) as Hdead.
    assert (Hins : inserted st' (transitions s) t' k (next_id st)).
    { destruct (trans_insert_spec (snd (alloc_shape c st)) (transitions s) k (next_id st)) as [I1 I2 I3 I4].
      - apply Hok.
      - intros d Hd. cbn. pose proof (so_trans_id _ _ _ Hok _ _ Hd). rewrite lookup_insert_ne by lia. auto.
      - cbn. rewrite lookup_insert_eq. by eexists.
      - split; [done..|]. intros k' d Hne Hd Hl. apply I4; [done..|]. unfold st' in Hl. rewrite live_update in Hl.
        case_decide; [|done]. subst d. cbn. pose proof (so_id _ _ _ Hok). rewrite lookup_insert_ne, Hi by lia. by eexists. }
    assert (Htr : (marked c = false /\ inserted st' (transitions s) t' k (next_id st) /\
      forall d, in_trans (transitions s) k d -> live st !! d = None) \/ (marked c = true /\ t' = transitions s)) by (left; by split_and!).
    destruct (grown_child st st' i s k b t' Hwf Hi Hg Hlen) as (G1 & G2 & G3 & G4 & G5 & G6).
    split; simpl; try done.
    + by apply (grown_wf st st' i s k b t').
    + by apply (grown_extends st st' i s k b t').
    + by rewrite G5.
    + rewrite <- Hmc. unfold marked, has_implied_attrs, has_brand. by rewrite G4.
Qed.

Lemma memo_live st st' i : memo_eq st st' -> is_Some (live st !! i) -> is_Some (live st' !! i).
Proof. intros H. apply extends_live, memo_extends, H. Qed.

Lemma memo_skeys st st' i : memo_eq st st' -> skeys st' i = skeys st i.
Proof. intros [H _ _]. by apply skeys_same. Qed.

Lemma memo_shape st st' i s : memo_eq st st' -> live st !! i = Some s ->
  exists s', live st' !! i = Some s' /\ lay s' = lay s.
Proof.
  intros [H _ _] Hi. symmetry in H. destruct (live st' !! i) as [s'|] eqn:E.
  - destruct (same_lay_shape _ _ _ _ H Hi) as (s2 & H2 & E2). rewrite E in H2. injection H2 as <-. by exists s'.
  - exfalso. destruct H as [_ H]. specialize (H i). by rewrite Hi, E in H.
Qed.

Lemma grows_memo st st1 st2 i k c : is_Some (live st !! i) -> memo_eq st st1 -> grows st1 st2 i k c -> grows st st2 i k c.
Proof.
  intros Hi Hm [G1 G2 G3 G4 G5 G6 G7]. split; try done.
  - etrans; [by apply memo_extends|done].
  - by rewrite G4, (memo_skeys st st1).
  - destruct Hm as [_ Ha _]. by rewrite <- Ha.
Qed.

Lemma transition_spec st i s k : wf st -> live st !! i = Some s -> marked s = false -> slen s + 1 < 2 ^ 32 - 1 ->
  let (c, st') := transition i k st in
  if decide (k ∈ skeys st i) then c = i /\ memo_eq st st' else grows st st' i k c.
Proof.
  intros Hwf Hi Hm Hlen. unfold transition. destruct (lookup_spec st i k Hwf ltac:(by eexists)) as (st1 & -> & Hmemo).
  case_decide as Hk.
  - apply slot_of_is_Some in Hk as [n ->]. done.
  - rewrite (proj2 (slot_of_None _ _) Hk). destruct (memo_shape st st1 i s Hmemo Hi) as (s1 & Hi1 & El).
    destruct (lay_eq _ _ El) as (_ & _ & _ & E4 & _ & E6).
    pose proof (add_spec st1 i s1 k (memo_wf _ _ Hmemo Hwf) Hi1 ltac:(by rewrite (marked_lay s s1 E6))
      ltac:(by rewrite (memo_skeys st st1)) ltac:(by rewrite E4)) as G.
    destruct (add i k st1) as [c st'] eqn:Ea. apply (grows_memo st st1); [by eexists|done|done].
Qed.

(** Allocating a marked layout under [i]. *)
Lemma marked_layout_spec st i s k b m : wf st -> live st !! i = Some s -> marked s = false -> k ∉ skeys st i ->
  slen s + 1 < 2 ^ 32 - 1 -> b = Z.lor (keys_bits (skeys st i ++ [k])) m ->
  m = IMPLIED_CTOR_ATTRS_BIT \/ m = IMPLIED_FN_ATTRS_BIT /\ skeys st i ++ [k] = [bytes "length"%string; bytes "name"%string] ->
  let (c, st') := alloc_shape (child_shape st i k b) st in
  wf st' /\ extends st st' /\ is_Some (live st' !! c) /\ skeys st' c = skeys st i ++ [k] /\
  parent (shape_at st' c) = Some i /\ brands (shape_at st' c) = b /\ any_at st' c = any_at st i.
Proof.
  intros Hwf Hi Hm Hk Hlen Hb Hcase. set (c := child_shape st i k b).
  pose proof (grown_alloc st i s c Hwf Hi) as Hg. cbn [alloc_shape].
  assert (Hmc : marked c = true).
  { unfold marked, has_implied_attrs, has_brand. unfold c, child_shape. cbn [brands]. rewrite Hb, Z.land_comm, Z.land_lor_distr_r.
    apply negb_true_iff, Z.eqb_neq. intros H0. apply Z.lor_eq_0_iff in H0 as [_ H0]. by destruct Hcase as [->|[-> _]]. }
  assert (Hbr : exists m, b = Z.lor (keys_bits (skeys st i ++ [k])) m /\
    (m = 0 \/ m = IMPLIED_CTOR_ATTRS_BIT \/ m = IMPLIED_FN_ATTRS_BIT /\ skeys st i ++ [k] = [bytes "length"%string; bytes "name"%string]))
    by (exists m; split; [done|naive_solver]).
  destruct (grown_child st _ i s k b _ Hwf Hi Hg Hlen) as (G1 & G2 & G3 & G4 & G5 & _).
  split_and!; [|by eapply grown_extends|done..].
  eapply (grown_wf st _ i s k b); eauto.
Qed.

Lemma builtin_fn_layout_spec st r s : wf st -> live st !! r = Some s -> skeys st r = [] -> marked s = false ->
  let (c, st') := builtin_fn_layout r st in
  wf st' /\ extends st st' /\ is_Some (live st' !! c) /\ skeys st' c = [bytes "length"%string; bytes "name"%string] /\
  has_implied_fn_attrs (shape_at st' c) = true.
Proof.
  intros Hwf Hi Hk0 Hm. unfold builtin_fn_layout. assert (Hs0 : slen s = 0) by (by rewrite (slen_skeys st r s (wf_struct _ Hwf) Hi), Hk0).
  pose proof (transition_spec st r s (bytes "length") Hwf Hi Hm ltac:(lia)) as Ht.
  destruct (transition r (bytes "length") st) as [l st1]. rewrite Hk0 in Ht.
  rewrite decide_False in Ht by apply not_elem_of_nil. destruct Ht as [G1 G2 [ls Hl] G4 _ _ G7].
  rewrite Hk0 in G4. simpl in G4. rewrite (shape_at_live _ _ _ Hl) in *.
  assert (Hls : slen ls = 1) by (by rewrite (slen_skeys st1 l ls (wf_struct _ G1) Hl), G4).
  rewrite (unmarked_brands st1 l ls G1 Hl G7), keys_bits_unmarked.
  rewrite G4.
  pose proof (marked_layout_spec st1 l ls (bytes "name") (Z.lor (keys_bits [bytes "length"]) IMPLIED_FN_ATTRS_BIT)
    IMPLIED_FN_ATTRS_BIT G1 Hl G7) as Hx.
  rewrite G4 in Hx. specialize (Hx ltac:(rewrite list_elem_of_singleton; discriminate) ltac:(lia) eq_refl ltac:(by right)).
  destruct (alloc_shape _ st1) as [c st'].
  destruct Hx as (X1 & X2 & X3 & X4 & _ & X6 & _). split_and!; [done|by etrans|done|done|].
  unfold has_implied_fn_attrs, has_brand. by rewrite X6.
Qed.

Lemma implied_ctor_layout_spec st i s k : wf st -> live st !! i = Some s -> marked s = false -> k ∉ skeys st i ->
  slen s + 1 < 2 ^ 32 - 1 ->
  let (c, st') := implied_ctor_layout i k st in
  wf st' /\ extends st st' /\ is_Some (live st' !! c) /\ skeys st' c = skeys st i ++ [k] /\
  has_implied_ctor_attrs (shape_at st' c) = true.
Proof.
  intros Hwf Hi Hm Hk Hlen. unfold implied_ctor_layout. rewrite (shape_at_live _ _ _ Hi).
  rewrite (unmarked_brands st i s Hwf Hi Hm), keys_bits_snoc.
  pose proof (marked_layout_spec st i s k (Z.lor (keys_bits (skeys st i ++ [k])) IMPLIED_CTOR_ATTRS_BIT) IMPLIED_CTOR_ATTRS_BIT
    Hwf Hi Hm Hk Hlen eq_refl ltac:(by left)) as Hx.
  destruct (alloc_shape _ st) as [c st']. destruct Hx as (X1 & X2 & X3 & X4 & _ & X6 & _). split_and!; [done..|].
  unfold has_implied_ctor_attrs, has_brand. rewrite X6, Z.land_comm, Z.land_lor_distr_r.
  apply negb_true_iff, Z.eqb_neq. intros H0. by apply Z.lor_eq_0_iff in H0 as [_ H0].
Qed.

Lemma unmarked_twin_spec st i s : wf st -> live st !! i = Some s ->
  let (c, st') := unmarked_twin i st in
  wf st' /\ extends st st' /\ is_Some (live st' !! c) /\ skeys st' c = skeys st i /\ marked (shape_at st' c) = false.
Proof.
  intros Hwf Hi. unfold unmarked_twin. rewrite (shape_at_live _ _ _ Hi). pose proof (wf_struct _ Hwf i s Hi) as Hok.
  destruct (parent s) as [p|] eqn:Ep.
  - destruct (so_child _ _ _ Hok p Ep) as (_ & ps & k & Hp & Hk & Hnin & _ & Hlen & Hmp). rewrite Hk.
    destruct (has_implied_attrs s) eqn:Em.
    + pose proof (transition_spec st p ps k Hwf Hp Hmp ltac:(pose proof (so_len _ _ _ Hok); lia)) as Ht.
      destruct (transition p k st) as [c st']. rewrite decide_False in Ht by done. destruct Ht as [G1 G2 G3 G4 _ _ G7].
      split_and!; try done. rewrite G4. symmetry. by apply (skeys_child st i s p k (wf_struct _ Hwf)).
    + split_and!; [done|done|by eexists|done|]. by rewrite (shape_at_live _ _ _ Hi).
  - destruct (so_root _ _ _ Hok Ep) as (_ & _ & _ & Hb). split_and!; [done|done|by eexists|done|]. unfold marked, has_implied_attrs, has_brand.
    by rewrite (shape_at_live _ _ _ Hi), Hb.
Qed.
