(* ===== verification/ShapeSpec.v ===== *)
(** * What the shapes promise

    Over every history of the store: a lookup answers the position of the key
    among the layout's keys, whatever table or walk answers it; growing keeps the
    slots of the old keys; equal layouts are one shape as long as it lives; and a
    slot marked as possibly not a number is marked in every layout that extends
    this one through the caches. *)

From Stdlib Require Import String.
From S2P Require Import Prelude Prog Shape ShapeTable ShapeInv.

#[local] Abbreviation length := Datatypes.length.
Open Scope Z_scope.

(** ** Marking the descendants *)

(** [st'] is [st] with other [any] masks. *)
Definition same_but_any (st st' : Shapes) : Prop :=
  next_id st' = next_id st /\ forall i, live st' !! i = with_any (any_at st' i) <$> live st !! i.

Lemma same_but_any_refl st : same_but_any st st.
Proof.
  split; [done|]. intros i. unfold any_at, shape_at. destruct (live st !! i) as [s|]; [|done]. by destruct s.
Qed.

Lemma same_but_any_trans a b c : same_but_any a b -> same_but_any b c -> same_but_any a c.
Proof.
  intros [A1 A2] [B1 B2]. split; [congruence|]. intros i. rewrite B2, A2. by destruct (live a !! i).
Qed.

Lemma same_but_any_update st i a : same_but_any st (update i (with_any a) st).
Proof.
  split; [done|]. intros j. unfold any_at, shape_at. rewrite live_update. case_decide as E; [subst j|].
  - by destruct (live st !! i).
  - destruct (live st !! j) as [s|]; [|done]. by destruct s.
Qed.

Lemma same_but_any_lay st st' : same_but_any st st' -> same_lay st st'.
Proof. intros [H1 H2]. split; [done|]. intros i. rewrite H2. by destruct (live st !! i). Qed.

Lemma same_but_any_struct st st' : same_but_any st st' -> struct_ok st -> struct_ok st'.
Proof.
  intros H Hst. apply (struct_same st); [by apply same_but_any_lay|done|].
  intros i s' ix Hi Hx. destruct H as [_ H]. rewrite H in Hi. destruct (live st !! i) as [s|] eqn:E; [|done].
  injection Hi as <-. by apply (so_index _ _ _ (Hst i s E)).
Qed.

Lemma same_but_any_live st st' i : same_but_any st st' -> is_Some (live st !! i) <-> is_Some (live st' !! i).
Proof. intros [_ H]. rewrite H. by rewrite fmap_is_Some. Qed.

Lemma edge_iff st st' p c : same_lay st st' -> edge st' p c <-> edge st p c.
Proof. intros H. split; apply edge_same; [done|by symmetry]. Qed.

Lemma any_at_update st i a j : is_Some (live st !! i) ->
  any_at (update i (with_any a) st) j = if decide (i = j) then a else any_at st j.
Proof. intros Hi. unfold any_at. rewrite shape_at_update by done. by case_decide. Qed.

Lemma edge_parent st p c : struct_ok st -> edge st p c -> exists cs, live st !! c = Some cs /\ parent cs = Some p /\ (p < c)%nat.
Proof.
  intros Hst (ps & cs & k & Hp & Ht & Hc). exists cs. destruct (so_trans _ _ _ (Hst p ps Hp) k c cs Ht Hc) as (Hpar & _).
  destruct (so_child _ _ _ (Hst c cs Hc) p Hpar) as (Hlt & _). done.
Qed.

Lemma edge_children st p ps c : live st !! p = Some ps -> c ∈ live_children st (transitions ps) <-> edge st p c.
Proof.
  intros Hp. rewrite live_children_spec. split.
  - intros (k & Ht & [cs Hc]). by exists ps, cs, k.
  - intros (ps' & cs & k & Hp' & Ht & Hc). rewrite Hp in Hp'. injection Hp' as <-. exists k. split; [done|by eexists].
Qed.

Lemma live_children_NoDup st p ps : struct_ok st -> live st !! p = Some ps -> NoDup (live_children st (transitions ps)).
Proof.
  intros Hst Hp. pose proof (Hst p ps Hp) as Hok. pose proof (so_trans_ok _ _ _ Hok) as Ht.
  assert (Hkey : forall k k' c, in_trans (transitions ps) k c -> in_trans (transitions ps) k' c ->
    is_Some (live st !! c) -> k = k').
  { intros k k' c H1 H2 [cs Hc]. destruct (so_trans _ _ _ Hok k c cs H1 Hc) as (_ & E1 & _).
    destruct (so_trans _ _ _ Hok k' c cs H2 Hc) as (_ & E2 & _). congruence. }
  destruct (transitions ps) as [|k0 c0|l|m n]; cbn [live_children].
  - constructor.
  - destruct (upgrade st c0); [apply NoDup_singleton|constructor].
  - destruct Ht as [Hnd _]. cbn in Hkey.
    assert (Hsub : forall e, e ∈ l -> e ∈ l) by done. revert Hsub Hnd. generalize l at 1 3 4 as l'.
    intros l'. induction l' as [|[k c] l' IH]; intros Hsub Hnd; simpl; [constructor|].
    apply NoDup_cons in Hnd as [Hnin Hnd]. simpl in Hnin.
    assert (IH' : NoDup (omap (fun e : key * nat => upgrade st e.2) l')) by (apply IH; [intros e He; apply Hsub; by right|done]).
    destruct (upgrade st c) as [c'|] eqn:Eu; [|done]. apply upgrade_spec in Eu as [<- Hc]. apply NoDup_cons. split; [|done].
    rewrite list_elem_of_omap. intros ([k' w] & Hin & Hu). simpl in Hu. apply upgrade_spec in Hu as [-> _].
    apply Hnin, list_elem_of_fmap. exists (k', c). split; [|done]. simpl.
    apply (Hkey k k' c); [by apply Hsub; left|by apply Hsub; right|done].
  - cbn in Hkey. unfold btree_values.
    assert (Hnd : NoDup (btree_iter m).*1).
    { rewrite (btree_iter_perm m). apply NoDup_fst_map_to_list. }
    assert (Hel : forall k c, (k, c) ∈ btree_iter m -> m !! k = Some c) by (intros; by apply btree_iter_elem).
    revert Hnd Hel. generalize (btree_iter m) as l. induction l as [|[k c] l IH]; intros Hnd Hel; simpl; [constructor|].
    apply NoDup_cons in Hnd as [Hnin Hnd]. simpl in Hnin.
    assert (IH' : NoDup (omap (upgrade st) l.*2)) by (apply IH; [done|intros; apply Hel; by right]).
    destruct (upgrade st c) as [c'|] eqn:Eu; [|done]. apply upgrade_spec in Eu as [<- Hc]. apply NoDup_cons. split; [|done].
    rewrite list_elem_of_omap. intros (w & ([k' w'] & -> & Hin)%list_elem_of_fmap & Hu). simpl in Hu.
    apply upgrade_spec in Hu as [-> _]. apply Hnin, list_elem_of_fmap. exists (k', c). split; [|done]. simpl.
    apply (Hkey k k' c); [apply Hel; by left|apply Hel; by right|done].
Qed.

(** The state of the worklist: what was visited, what is still to visit. *)
Record marking (self : nat) (mask : Z) (st : Shapes) (V : gset nat) (stack : list nat) : Prop := {
  mk_struct : struct_ok st;
  mk_nodup : NoDup stack;
  mk_stack : forall x, x ∈ stack -> is_Some (live st !! x) /\ x ∉ V;
  mk_visited : forall x, x ∈ V -> is_Some (live st !! x);
  mk_self : self ∈ V;
  mk_parent : forall x, x ∈ V \/ x ∈ stack -> x <> self -> exists p, p ∈ V /\ edge st p x /\ rtc (edge st) self x;
  mk_after : forall x, x ∈ V \/ x ∈ stack -> (self <= x)%nat;
  mk_masks : forall p c, edge st p c ->
    mask_le (any_at st p) (Z.lor (any_at st c) (if decide (c ∈ stack) then mask else 0)) }.

Lemma visited_lt self mask st V i stack : marking self mask st V (i :: stack) -> (size V < size (live st))%nat.
Proof.
  intros H. destruct (mk_stack _ _ _ _ _ H i ltac:(by left)) as [[s Hi] Hn].
  rewrite <- (size_dom (D:=gset nat)). apply subset_size. split.
  - intros x Hx. apply elem_of_dom. by apply (mk_visited _ _ _ _ _ H).
  - intros Hsub. apply Hn, Hsub, elem_of_dom. by eexists.
Qed.

Lemma marking_skip self mask st V i stack : marking self mask st V (i :: stack) -> mask_le mask (any_at st i) ->
  marking self mask st (V ∪ {[i]}) stack.
Proof.
  intros [H1 H2 H3 H4 H5 H6 H7 H8] Hmask. apply NoDup_cons in H2 as [Hni Hnd]. split; [done|done|..].
  - intros x Hx. destruct (H3 x ltac:(by right)) as [Hl Hv]. split; [done|]. rewrite elem_of_union, elem_of_singleton. naive_solver.
  - intros x. rewrite elem_of_union, elem_of_singleton. intros [?| ->]; [auto|]. apply H3. by left.
  - set_solver.
  - intros x Hx Hne. destruct (H6 x) as (p & Hp & Hr); [|done|exists p; split; [set_solver|done]].
    rewrite elem_of_union, elem_of_singleton in Hx. rewrite elem_of_cons. naive_solver.
  - intros x Hx. apply H7. rewrite elem_of_union, elem_of_singleton in Hx. rewrite elem_of_cons. naive_solver.
  - intros p c He. pose proof (H8 p c He) as M. destruct (decide (c ∈ stack)).
    + rewrite decide_True in M by (by right). done.
    + rewrite Z.lor_0_r. destruct (decide (c = i)) as [->|Hne].
      * rewrite decide_True in M by (by left). etrans; [exact M|]. by apply mask_le_lor.
      * rewrite decide_False in M by (rewrite elem_of_cons; naive_solver). by rewrite Z.lor_0_r in M.
Qed.

Lemma edge_not_visited self mask st V stack i c : marking self mask st V stack -> i ∉ V -> edge st i c -> (self <= i)%nat ->
  (c ∉ V) /\ (c ∉ stack) /\ c <> i.
Proof.
  intros [H1 H2 H3 H4 H5 H6 H7 H8] Hi He Hle. destruct (edge_parent st i c H1 He) as (cs & Hc & Hp & Hlt).
  assert ((c ∉ V) /\ (c ∉ stack)) as [? ?]; [|split_and!; [done|done|lia]].
  assert (Hno : ~ (c ∈ V \/ c ∈ stack)).
  { intros Hx. destruct (H6 c Hx ltac:(lia)) as (p & Hpv & He' & _).
    destruct (edge_parent st p c H1 He') as (cs' & Hc' & Hp' & _). rewrite Hc in Hc'. injection Hc' as <-.
    rewrite Hp in Hp'. by injection Hp' as <-. }
  tauto.
Qed.

Lemma marking_mark self mask st V i s stack : 0 <= mask -> marking self mask st V (i :: stack) -> live st !! i = Some s ->
  marking self mask (update i (with_any (Z.lor (any s) (Z.ldiff mask (any s)))) st) (V ∪ {[i]})
    (rev (live_children (update i (with_any (Z.lor (any s) (Z.ldiff mask (any s)))) st) (transitions s)) ++ stack).
Proof.
  intros Hm0 H Hi. set (a := Z.lor (any s) (Z.ldiff mask (any s))). set (st' := update i (with_any a) st).
  pose proof (same_but_any_update st i a) as Hsame. fold st' in Hsame. pose proof (same_but_any_lay _ _ Hsame) as Hlay.
  pose proof (mk_struct _ _ _ _ _ H) as Hst.
  assert (Hi' : live st' !! i = Some (with_any a s)) by (unfold st'; rewrite live_update, decide_True, Hi by done; done).
  assert (Hst' : struct_ok st') by (by eapply same_but_any_struct).
  assert (Hch : forall c, c ∈ live_children st' (transitions s) <-> edge st i c).
  { intros c. rewrite <- (edge_iff st st' i c Hlay). apply (edge_children st' i (with_any a s) c Hi'). }
  assert (Hrev : forall c, c ∈ rev (live_children st' (transitions s)) ++ stack <-> edge st i c \/ c ∈ stack).
  { intros c. rewrite elem_of_app, list_elem_of_In, <- in_rev, <- list_elem_of_In, Hch. done. }
  pose proof (mk_stack _ _ _ _ _ H i ltac:(by left)) as [_ HiV].
  pose proof (mk_after _ _ _ _ _ H i ltac:(right; by left)) as Hle.
  assert (Hfresh : forall c, edge st i c -> (c ∉ V) /\ (c ∉ i :: stack)).
  { intros c He. destruct (edge_not_visited _ _ _ _ _ i c H HiV He Hle) as (? & ? & _). done. }
  destruct H as [_ H2 H3 H4 H5 H6 H7 H8]. apply NoDup_cons in H2 as [Hni Hnd]. split; [done|..].
  - apply NoDup_app. split_and!; [|..|done].
    + rewrite <- (Permutation_rev _). apply (live_children_NoDup st' i (with_any a s) Hst' Hi').
    + intros c Hc Hcs. rewrite list_elem_of_In, <- in_rev, <- list_elem_of_In, Hch in Hc.
      destruct (Hfresh c Hc) as [_ Hx]. apply Hx. by right.
  - intros x Hx. rewrite <- (same_but_any_live st st' x Hsame). rewrite elem_of_union, elem_of_singleton.
    apply Hrev in Hx as [He|Hx].
    + destruct (Hfresh x He) as [? Hy]. destruct He as (ps & cs & k & _ & _ & Hc). split; [by eexists|].
      intros [?| ->]; [done|]. apply Hy. by left.
    + destruct (H3 x ltac:(by right)). split; [done|]. naive_solver.
  - intros x Hx. rewrite <- (same_but_any_live st st' x Hsame). rewrite elem_of_union, elem_of_singleton in Hx.
    destruct Hx as [?| ->]; [auto|by eexists].
  - set_solver.
  - assert (Hrtc : forall x y, rtc (edge st) x y -> rtc (edge st') x y).
    { intros x y Hr. eapply rtc_subrel; [|exact Hr]. intros u v. by apply edge_iff. }
    assert (Hself : rtc (edge st) self i).
    { destruct (decide (i = self)) as [->|Hne]; [done|]. destruct (H6 i ltac:(right; by left) Hne) as (_ & _ & _ & Hr). done. }
    intros x Hx Hne. rewrite elem_of_union, elem_of_singleton, Hrev in Hx.
    assert (Hcase : (x ∈ V \/ x ∈ i :: stack) \/ edge st i x) by (rewrite elem_of_cons; tauto).
    destruct Hcase as [Hx'|He].
    + destruct (H6 x Hx' Hne) as (p & Hp & He & Hr). exists p. split; [set_solver|]. rewrite edge_iff by done. auto.
    + exists i. split; [set_solver|]. rewrite edge_iff by done. split; [done|]. apply Hrtc. by eapply rtc_r.
  - intros x Hx. rewrite elem_of_union, elem_of_singleton, Hrev in Hx.
    destruct Hx as [[?| ->]|[He|?]]; [apply H7; by left|done| |apply H7; right; by right].
    destruct (edge_parent st i x Hst He) as (_ & _ & _ & ?). lia.
  - intros p c He. rewrite edge_iff in He by done. pose proof (H8 p c He) as M.
    assert (Ha : any_at st i = any s) by (unfold any_at; by rewrite (shape_at_live _ _ _ Hi)).
    assert (Hgrow : forall x, mask_le (any_at st x) (any_at st' x)).
    { intros x. unfold st'. rewrite any_at_update by by eexists. destruct (decide (i = x)) as [<-|]; [rewrite Ha; apply mask_le_lor_l|done]. }
    destruct (decide (p = i)) as [->|Hpi].
    + rewrite decide_True by (apply Hrev; by left). unfold st' at 1. rewrite any_at_update, decide_True by (done || by eexists).
      unfold a. rewrite lor_ldiff_r. apply mask_le_lor; [|apply mask_le_lor_r]. rewrite <- Ha.
      destruct (Hfresh c He) as [_ Hcs]. rewrite decide_False, Z.lor_0_r in M by done. etrans; [exact M|].
      etrans; [apply Hgrow|]. apply mask_le_lor_l.
    + unfold st' at 1. rewrite any_at_update, decide_False by (done || by eexists). etrans; [exact M|].
      destruct (decide (c ∈ i :: stack)) as [Hin|Hnin].
      * apply elem_of_cons in Hin as [->|Hin].
        -- apply mask_le_lor.
           ++ etrans; [apply Hgrow|]. apply mask_le_lor_l.
           ++ unfold st'. rewrite any_at_update, decide_True by (done || by eexists). unfold a. rewrite lor_ldiff_r.
              etrans; [|apply mask_le_lor_l]. apply mask_le_lor_r.
        -- rewrite (decide_True (P := c ∈ rev _ ++ stack)) by (apply Hrev; by right).
           apply mask_le_lor; [etrans; [apply Hgrow|apply mask_le_lor_l]|apply mask_le_lor_r].
      * rewrite Z.lor_0_r. etrans; [apply Hgrow|]. apply mask_le_lor_l.
Qed.

Lemma downgrade_loop_spec self mask : 0 <= mask -> forall fuel stack st V, marking self mask st V stack ->
  (size (live st) <= size V + fuel)%nat ->
  let st' := downgrade_loop fuel mask stack st in
  same_but_any st st' /\ masks_ok st' /\
  forall i, mask_le (any_at st i) (any_at st' i) /\ mask_le (any_at st' i) (Z.lor (any_at st i) mask) /\
    (any_at st' i = any_at st i \/ rtc (edge st) self i).
Proof.
  intros Hm0. induction fuel as [|fuel IH]; intros stack st V Hmk Hf; cbn [downgrade_loop].
  - destruct stack as [|i stack]; [|pose proof (visited_lt _ _ _ _ _ _ Hmk); lia].
    split_and!; [apply same_but_any_refl| |].
    + intros p c He. pose proof (mk_masks _ _ _ _ _ Hmk p c He) as M.
      rewrite decide_False in M by apply not_elem_of_nil. by rewrite Z.lor_0_r in M.
    + intros i. split_and!; [done|apply mask_le_lor_l|by left].
  - destruct stack as [|i stack].
    { split_and!; [apply same_but_any_refl| |].
      - intros p c He. pose proof (mk_masks _ _ _ _ _ Hmk p c He) as M.
        rewrite decide_False in M by apply not_elem_of_nil. by rewrite Z.lor_0_r in M.
      - intros i. split_and!; [done|apply mask_le_lor_l|by left]. }
    destruct (mk_stack _ _ _ _ _ Hmk i ltac:(by left)) as [[s Hi] HiV].
    assert (HV : size (V ∪ {[i]}) = S (size V)) by (rewrite size_union by set_solver; rewrite size_singleton; lia).
    rewrite (shape_at_live _ _ _ Hi). destruct (Z.eqb_spec (Z.ldiff mask (any s)) 0) as [Hz|Hnz].
    + apply (IH stack st (V ∪ {[i]})); [|lia]. apply marking_skip; [done|]. apply ldiff_zero.
      unfold any_at. by rewrite (shape_at_live _ _ _ Hi).
    + pose proof (marking_mark self mask st V i s stack Hm0 Hmk Hi) as Hmk'.
      set (a := Z.lor (any s) (Z.ldiff mask (any s))) in *. set (st1 := update i (with_any a) st) in *.
      pose proof (same_but_any_update st i a) as Hsame. fold st1 in Hsame.
      destruct (IH _ st1 _ Hmk') as (I1 & I2 & I3).
      { rewrite HV. enough (size (live st1) = size (live st)) by lia. unfold st1, update. simpl.
        rewrite <- !(size_dom (D:=gset nat)). by rewrite dom_alter. }
      assert (Hat : forall x, any_at st1 x = if decide (i = x) then a else any_at st x).
      { intros x. unfold st1. apply any_at_update. by eexists. }
      assert (Ha : any_at st i = any s) by (unfold any_at; by rewrite (shape_at_live _ _ _ Hi)).
      split_and!; [by eapply same_but_any_trans|done|]. intros x. destruct (I3 x) as (J1 & J2 & J3).
      assert (Hedge : forall u v, rtc (edge st1) u v -> rtc (edge st) u v).
      { intros u v Hr. eapply rtc_subrel; [|exact Hr]. intros ? ?. apply edge_same. by apply same_but_any_lay. }
      rewrite Hat in *. destruct (decide (i = x)) as [<-|Hne].
      * unfold a in *. rewrite lor_ldiff_r in *. rewrite Ha. split_and!.
        -- etrans; [apply mask_le_lor_l|exact J1].
        -- etrans; [exact J2|]. rewrite <- Z.lor_assoc, Z.lor_diag. reflexivity.
        -- right. destruct (decide (i = self)) as [->|Hnself]; [done|].
           destruct (mk_parent _ _ _ _ _ Hmk i ltac:(right; by left) Hnself) as (_ & _ & _ & Hr). done.
      * split_and!; [done|done|]. destruct J3; [by left|right; auto].
Qed.

(** Marking a layout marks it and every live layout below it in the caches,
    and nothing else. *)
Lemma note_non_numbers_spec st i s mask : wf st -> live st !! i = Some s -> 0 <= mask ->
  let st' := note_non_numbers i mask st in
  wf st' /\ extends st st' /\ same_but_any st st' /\ mask_le mask (any_at st' i) /\
  forall j, (rtc (edge st) i j -> any_at st' j = Z.lor (any_at st j) mask) /\
            (~ rtc (edge st) i j -> any_at st' j = any_at st j).
Proof.
  intros [Hst Hmasks] Hi Hm0. assert (Ha : any_at st i = any s) by (unfold any_at; by rewrite (shape_at_live _ _ _ Hi)).
  assert (Hup : forall st', masks_ok st' -> same_but_any st st' -> forall j, rtc (edge st) i j -> mask_le (any_at st' i) (any_at st' j)).
  { intros st' Hm Hsame j Hr. clear Hi Ha. induction Hr as [|x y z He _ IH]; [done|]. etrans; [|exact IH]. apply Hm.
    apply edge_iff with st; [by apply same_but_any_lay|done]. }
  unfold note_non_numbers. rewrite (shape_at_live _ _ _ Hi). destruct (Z.eqb_spec (Z.ldiff mask (any s)) 0) as [Hz|Hnz]; simpl.
  - apply ldiff_zero in Hz. split_and!; [done|done|apply same_but_any_refl|by rewrite Ha|]. intros j. split; [|done].
    intros Hr. pose proof (Hup st Hmasks (same_but_any_refl st) j Hr) as M. rewrite Ha in M. symmetry. apply lor_absorb. by etrans.
  - unfold downgrade. rewrite (shape_at_live _ _ _ Hi). set (a := Z.lor (any s) mask). set (st1 := update i (with_any a) st).
    pose proof (same_but_any_update st i a) as Hsame1. fold st1 in Hsame1. pose proof (same_but_any_lay _ _ Hsame1) as Hlay.
    pose proof (same_but_any_struct _ _ Hsame1 Hst) as Hst1.
    assert (Hi1 : live st1 !! i = Some (with_any a s)) by (unfold st1; rewrite live_update, decide_True, Hi by done; done).
    assert (Hat : forall x, any_at st1 x = if decide (i = x) then a else any_at st x).
    { intros x. unfold st1. apply any_at_update. by eexists. }
    assert (Hch : forall c, c ∈ rev (live_children st1 (transitions s)) <-> edge st1 i c).
    { intros c. rewrite list_elem_of_In, <- in_rev, <- list_elem_of_In. apply (edge_children st1 i (with_any a s) c Hi1). }
    assert (Hlt : forall c, edge st1 i c -> (i < c)%nat) by (intros c He; by destruct (edge_parent st1 i c Hst1 He) as (_ & _ & _ & ?)).
    assert (Hmk : marking i mask st1 {[i]} (rev (live_children st1 (transitions s)))).
    { split; [done|..].
      - rewrite <- (Permutation_rev _). apply (live_children_NoDup st1 i (with_any a s) Hst1 Hi1).
      - intros x Hx%Hch. pose proof (Hlt x Hx). destruct Hx as (_ & cs & _ & _ & _ & Hc). split; [by eexists|].
        rewrite elem_of_singleton. lia.
      - intros x ->%elem_of_singleton. by eexists.
      - by apply elem_of_singleton.
      - intros x [->%elem_of_singleton|He%Hch] Hne; [done|]. exists i. split; [by apply elem_of_singleton|].
        split; [done|by apply rtc_once].
      - intros x [->%elem_of_singleton|He%Hch]; [done|]. pose proof (Hlt x He). lia.
      - intros p c He. pose proof (Hmasks p c (proj1 (edge_iff st st1 p c Hlay) He)) as M. rewrite !Hat.
        destruct (decide (i = p)) as [<-|Hip].
        + rewrite (decide_True (P := c ∈ _)) by (by apply Hch). pose proof (Hlt c He). rewrite (decide_False (P := i = c)) by lia.
          unfold a. rewrite <- Ha. apply mask_le_lor; [etrans; [exact M|apply mask_le_lor_l]|apply mask_le_lor_r].
        + etrans; [exact M|]. etrans; [|apply mask_le_lor_l]. destruct (decide (i = c)) as [<-|]; [|done].
          rewrite Ha. apply mask_le_lor_l. }
    destruct (downgrade_loop_spec i mask Hm0 (size (live st1)) _ st1 _ Hmk ltac:(lia)) as (L1 & L2 & L3).
    set (st' := downgrade_loop _ _ _ _) in *. pose proof (same_but_any_trans _ _ _ Hsame1 L1) as Hsame.
    pose proof (same_but_any_struct _ _ Hsame Hst) as Hst'.
    assert (Hmi : mask_le mask (any_at st' i)).
    { destruct (L3 i) as (J1 & _). rewrite Hat, decide_True in J1 by done. etrans; [apply mask_le_lor_r|exact J1]. }
    assert (Hgrow : forall j, mask_le (any_at st j) (any_at st1 j)).
    { intros j. rewrite Hat. destruct (decide (i = j)) as [<-|]; [rewrite Ha; apply mask_le_lor_l|done]. }
    split_and!; [done| |done|done|].
    + apply extends_same; [by apply same_but_any_lay|]. intros j _. etrans; [apply Hgrow|]. by destruct (L3 j).
    + intros j. destruct (L3 j) as (J1 & J2 & J3). split.
      * intros Hr. pose proof (Hup st' L2 Hsame j Hr) as M. apply Z.bits_inj'. intros n Hn. rewrite Z.lor_spec.
        assert (Hj : mask_le (any_at st' j) (Z.lor (any_at st j) mask)).
        { etrans; [exact J2|]. apply mask_le_lor; [|apply mask_le_lor_r]. rewrite Hat. destruct (decide (i = j)) as [<-|]; [|apply mask_le_lor_l].
          by rewrite Ha. }
        destruct (Z.testbit (any_at st' j) n) eqn:E.
        -- specialize (Hj n Hn E). by rewrite Z.lor_spec in Hj.
        -- destruct (Z.testbit (any_at st j) n) eqn:E1; [by rewrite (J1 n Hn (Hgrow j n Hn E1)) in E|].
           destruct (Z.testbit mask n) eqn:E2; [|done]. assert (mask_le mask (any_at st' j)) as Hmj by (by etrans).
           by rewrite (Hmj n Hn E2) in E.
      * intros Hnr. destruct J3 as [->|Hr].
        -- rewrite Hat, decide_False; [done|]. intros ->. by apply Hnr.
        -- exfalso. apply Hnr. eapply rtc_subrel; [|exact Hr]. intros ? ?. by apply edge_iff.
Qed.

Lemma note_non_number_spec st i s slot : wf st -> live st !! i = Some s -> 0 <= slot ->
  let st' := note_non_number i slot st in
  wf st' /\ extends st st' /\ (slot < 64 -> Z.testbit (any_at st' i) slot = true).
Proof.
  intros Hwf Hi Hs. unfold note_non_number. destruct (Z.ltb_spec slot 64).
  - assert (0 <= Z.shiftl 1 slot) as Hm by (apply Z.shiftl_nonneg; lia).
    destruct (note_non_numbers_spec st i s (Z.shiftl 1 slot) Hwf Hi Hm) as (H1 & H2 & _ & H4 & _).
    split_and!; [done..|]. intros _. apply H4; [done|]. rewrite Z.shiftl_1_l. by apply Z.pow2_bits_true.
  - split_and!; [done..|lia].
Qed.

(** ** Sharing *)

(** A live ordinary child is found again. *)
Lemma add_shared st p c cs k : wf st -> is_Some (live st !! p) -> live st !! c = Some cs -> parent cs = Some p ->
  skey cs = Some k -> marked cs = false -> add p k st = (c, st).
Proof.
  intros Hwf [ps Hp] Hc Hpar Hk Hm. unfold add. rewrite (shape_at_live _ _ _ Hp).
  pose proof (wf_struct _ Hwf p ps Hp) as Hok.
  rewrite (proj2 (trans_get_spec st (transitions ps) k c (so_trans_ok _ _ _ Hok))); [done|].
  split; [by apply (so_cached _ _ _ Hok c cs k)|by eexists].
Qed.

(** The oldest ancestor of a layout. *)
Fixpoint root_from (fuel : nat) (st : Shapes) (i : nat) : nat :=
  match fuel with
  | O => i
  | S fuel => match parent (shape_at st i) with Some p => root_from fuel st p | None => i end
  end.
Definition root_of (st : Shapes) (i : nat) : nat := root_from (S i) st i.

Lemma root_from_fuel st : struct_ok st -> forall f g i, is_Some (live st !! i) -> (i < f)%nat -> (i < g)%nat ->
  root_from f st i = root_from g st i.
Proof.
  intros Hst. induction f as [|f IH]; intros g i [s Hi] Hf Hg; [lia|]. destruct g as [|g]; [lia|]. cbn [root_from].
  rewrite (shape_at_live _ _ _ Hi). destruct (parent s) as [p|] eqn:Ep; [|done].
  destruct (so_child _ _ _ (Hst i s Hi) p Ep) as (Hpi & ps & k & Hp & _). apply IH; [by eexists|lia|lia].
Qed.

Lemma root_of_child st i s p : struct_ok st -> live st !! i = Some s -> parent s = Some p -> root_of st i = root_of st p.
Proof.
  intros Hst Hi Hp. destruct (so_child _ _ _ (Hst i s Hi) p Hp) as (Hpi & ps & k & Hlp & _).
  unfold root_of. cbn [root_from]. rewrite (shape_at_live _ _ _ Hi), Hp. rewrite (root_from_fuel st Hst i (S p)); [|by eexists|lia..].
  cbn [root_from]. done.
Qed.

Lemma root_of_root st i s : live st !! i = Some s -> parent s = None -> root_of st i = i.
Proof. intros Hi Hp. unfold root_of. cbn [root_from]. by rewrite (shape_at_live _ _ _ Hi), Hp. Qed.

Lemma shapes_canonical st : wf st -> forall i s, live st !! i = Some s -> forall j t, live st !! j = Some t ->
  marked s = false -> marked t = false -> root_of st i = root_of st j -> skeys st i = skeys st j -> i = j.
Proof.
  intros Hwf. pose proof (wf_struct _ Hwf) as Hst.
  apply (chain_ind st (fun i s => forall j t, live st !! j = Some t ->
    marked s = false -> marked t = false -> root_of st i = root_of st j -> skeys st i = skeys st j -> i = j) Hst).
  - intros i s Hi Hp j t Hj _ _ Hr Hk. rewrite (skeys_root st i s) in Hk by auto. destruct (parent t) as [q|] eqn:Eq.
    + destruct (so_child _ _ _ (Hst j t Hj) q Eq) as (_ & qs & k & Hq & Hkj & _).
      rewrite (skeys_child st j t q k) in Hk by done. by destruct (skeys st q).
    + by rewrite (root_of_root st i s), (root_of_root st j t) in Hr.
  - intros i s p ps k Hi Hp Hk Hlp IH j t Hj Hms Hmt Hr Hsk. rewrite (skeys_child st i s p k) in Hsk by done.
    destruct (parent t) as [q|] eqn:Eq; [|rewrite (skeys_root st j t) in Hsk by auto; by destruct (skeys st p)].
    destruct (so_child _ _ _ (Hst j t Hj) q Eq) as (_ & qs & k' & Hq & Hkj & _ & _ & _ & Hmq).
    destruct (so_child _ _ _ (Hst i s Hi) p Hp) as (_ & ps' & _ & Hlp' & _ & _ & _ & _ & Hmp).
    rewrite Hlp in Hlp'. injection Hlp' as <-.
    rewrite (skeys_child st j t q k') in Hsk by done. apply app_inj_tail in Hsk as [Hsk ->].
    assert (p = q) as <-.
    { apply (IH q qs); try done. rewrite <- (root_of_child st i s p), <- (root_of_child st j t q) by done. done. }
    apply (in_trans_fun (transitions ps) k').
    + apply (Hst p ps Hlp).
    + by apply (so_cached _ _ _ (Hst p ps Hlp) i s).
    + by apply (so_cached _ _ _ (Hst p ps Hlp) j t).
Qed.

(** ** The end of a shape *)

Lemma release_wf st i : wf st -> wf (release i st).
Proof.
  intros [Hst Hm]. unfold release. destruct (existsb _ _) eqn:Ex; [done|].
  assert (Hno : forall j s, live st !! j = Some s -> parent s <> Some i).
  { intros j s Hj Hp. assert (existsb (fun e : nat * Shape => bool_decide (parent e.2 = Some i)) (map_to_list (live st)) = true); [|congruence].
    apply existsb_exists. exists (j, s). split; [by apply list_elem_of_In, elem_of_map_to_list|by apply bool_decide_eq_true]. }
  set (st' := MkShapes (delete i (live st)) (next_id st)).
  assert (Hl : forall j s, live st' !! j = Some s <-> j <> i /\ live st !! j = Some s).
  { intros j s. cbn. rewrite lookup_delete_Some. naive_solver. }
  assert (Hsk : forall j s, live st' !! j = Some s -> skeys st' j = skeys st j).
  { enough (forall f j s, j <> i -> live st !! j = Some s -> keys_from f st' j = keys_from f st j) as H.
    { intros j s [Hji Hj]%Hl. unfold skeys. f_equal. by apply (H _ j s). }
    induction f as [|f IH]; intros j s Hji Hj; [done|]. cbn [keys_from].
    rewrite (shape_at_live _ _ _ Hj), (shape_at_live st' j s) by (by apply Hl). f_equal.
    destruct (parent s) as [p|] eqn:Ep; [|done]. destruct (so_child _ _ _ (Hst j s Hj) p Ep) as (_ & ps & _ & Hp & _).
    apply (IH p ps); [|done]. intros ->. by apply (Hno j s Hj). }
  split.
  - intros j s Hj. pose proof (Hsk j s Hj) as Hskj. apply Hl in Hj as [Hji Hj]. destruct (Hst j s Hj) as [A1 A2 A3 A4 A5 A6 A6' A7 A8 A9].
    split; rewrite ?Hskj; try done.
    + intros p Hp. destruct (A3 p Hp) as (Hpj & ps & k & Hlp & Hk & Hnin & Hr). split; [done|]. exists ps, k.
      assert (p <> i) by (intros ->; by apply (Hno j s Hj)). assert (Hlp' : live st' !! p = Some ps) by (by apply Hl).
      rewrite (Hsk p ps Hlp'). done.
    + intros c cs k [_ Hc]%Hl. by apply A5.
    + intros k c cs Ht [_ Hc]%Hl. by apply (A6 k c).
  - intros p c (ps & cs & k & Hp & Ht & Hc). unfold any_at. rewrite (shape_at_live _ _ _ Hp), (shape_at_live _ _ _ Hc).
    apply Hl in Hp as [_ Hp]. apply Hl in Hc as [_ Hc].
    pose proof (Hm p c (ex_intro _ ps (ex_intro _ cs (ex_intro _ k (conj Hp (conj Ht Hc)))))) as M.
    unfold any_at in M. by rewrite (shape_at_live _ _ _ Hp), (shape_at_live _ _ _ Hc) in M.
Qed.

Lemma root_wf st : wf st -> wf (snd (root st)) /\ extends st (snd (root st)) /\
  live (snd (root st)) !! next_id st = Some new_root /\ skeys (snd (root st)) (next_id st) = [].
Proof.
  intros [Hst Hm]. cbn. set (st' := MkShapes _ _).
  assert (Hfresh : live st !! next_id st = None).
  { destruct (live st !! next_id st) as [x|] eqn:E; [|done]. pose proof (so_id _ _ _ (Hst _ x E)). lia. }
  assert (Hl : forall j s, live st' !! j = Some s <-> (j = next_id st /\ s = new_root) \/ live st !! j = Some s).
  { intros j s. cbn. rewrite lookup_insert_Some. split; [naive_solver|]. intros [[-> ->]|Hj]; [by left|right].
    split; [|done]. intros <-. congruence. }
  assert (Hold : forall j s, live st !! j = Some s -> live st' !! j = Some s) by (intros; apply Hl; by right).
  assert (Hsk : forall j s, live st !! j = Some s -> skeys st' j = skeys st j).
  { intros j s Hj. unfold skeys. f_equal. apply keys_from_frame; [done| |by eexists]. intros j' s' Hj'. exists s'. auto. }
  assert (Hnew : live st' !! next_id st = Some new_root) by (apply Hl; by left).
  assert (Hkn : skeys st' (next_id st) = []).
  { unfold skeys. cbn [keys_from]. by rewrite (shape_at_live _ _ _ Hnew). }
  split_and!; [|split; [cbn; lia|]|done|done].
  - split.
    + intros j s [[-> ->]|Hj]%Hl.
      * split; try done; [cbn; lia| |exists 0; by rewrite Hkn; auto].
        intros c cs k [[-> ->]|Hc]%Hl Hp _ _; [done|]. destruct (so_child _ _ _ (Hst c cs Hc) _ Hp) as (_ & ps & _ & Hps & _). congruence.
      * destruct (Hst j s Hj) as [A1 A2 A3 A4 A5 A6 A6' A7 A8 A9]. split; rewrite ?(Hsk j s Hj); try done.
        -- cbn. lia.
        -- intros p Hp. destruct (A3 p Hp) as (Hpj & ps & k & Hlp & Hr). split; [done|]. exists ps, k. rewrite (Hsk p ps Hlp). auto.
        -- intros c cs k [[-> ->]|Hc]%Hl Hp; [done|by apply A5].
        -- intros k c cs Ht [[-> ->]|Hc]%Hl; [pose proof (A6' _ _ Ht); lia|by apply (A6 k c)].
        -- intros k c Ht. pose proof (A6' _ _ Ht). cbn. lia.
    + intros p c (ps & cs & k & Hp & Ht & Hc). unfold any_at. rewrite (shape_at_live _ _ _ Hp), (shape_at_live _ _ _ Hc).
      apply Hl in Hp as [[-> ->]|Hp]; [done|]. apply Hl in Hc as [[-> ->]|Hc].
      { pose proof (so_trans_id _ _ _ (Hst p ps Hp) _ _ Ht). lia. }
      pose proof (Hm p c (ex_intro _ ps (ex_intro _ cs (ex_intro _ k (conj Hp (conj Ht Hc)))))) as M.
      unfold any_at in M. by rewrite (shape_at_live _ _ _ Hp), (shape_at_live _ _ _ Hc) in M.
  - intros j s Hj. exists s. split_and!; auto; done.
Qed.

(** ** Histories *)

Inductive ShapeOp :=
| OpRoot
| OpLookup (i : nat) (k : key)
| OpTransition (i : nat) (k : key)
| OpBuiltinFn (i : nat)
| OpImpliedCtor (i : nat) (k : key)
| OpTwin (i : nat)
| OpNote (i : nat) (slot : Z)
| OpHint (i : nat) (hint : Z)
| OpRelease (i : nat).

Definition shape_run (st : Shapes) (op : ShapeOp) : Shapes :=
  match op with
  | OpRoot => snd (root st)
  | OpLookup i k => snd (lookup i k st)
  | OpTransition i k => snd (transition i k st)
  | OpBuiltinFn i => snd (builtin_fn_layout i st)
  | OpImpliedCtor i k => snd (implied_ctor_layout i k st)
  | OpTwin i => snd (unmarked_twin i st)
  | OpNote i slot => note_non_number i slot st
  | OpHint i hint => set_for_in_hint i hint st
  | OpRelease i => release i st
  end.

(** A layout the code may grow: live, ordinary, and far from 2^32 keys. *)
Definition growable (st : Shapes) (i : nat) : bool :=
  is_live st i && negb (marked (shape_at st i)) && (slen (shape_at st i) + 1 <? 2 ^ 32 - 1).

(** What the callers of each operation assert. *)
Definition shape_op_ok (st : Shapes) (op : ShapeOp) : bool :=
  match op with
  | OpRoot | OpHint _ _ | OpRelease _ => true
  | OpLookup i _ | OpTwin i => is_live st i
  | OpTransition i _ => growable st i
  | OpBuiltinFn i => growable st i && is_empty (shape_at st i)
  | OpImpliedCtor i k => growable st i && negb (fst (contains i k st))
  | OpNote i slot => is_live st i && (0 <=? slot)
  end.

Fixpoint shape_ops_ok (st : Shapes) (ops : list ShapeOp) : bool :=
  match ops with [] => true | op :: ops => shape_op_ok st op && shape_ops_ok (shape_run st op) ops end.

Definition no_shapes : Shapes := MkShapes ∅ 0.

Lemma no_shapes_wf : wf no_shapes.
Proof. split; [done|]. by intros p c (ps & cs & k & Hp & _). Qed.

Lemma growable_spec st i : growable st i = true -> exists s, live st !! i = Some s /\ marked s = false /\ slen s + 1 < 2 ^ 32 - 1.
Proof.
  unfold growable. rewrite !andb_true_iff, negb_true_iff, is_live_spec, Z.ltb_lt. intros (([s Hi] & Hm) & Hl). exists s.
  by rewrite (shape_at_live _ _ _ Hi) in *.
Qed.

Lemma hint_memo st i h : struct_ok st -> memo_eq st (set_for_in_hint i h st).
Proof.
  intros Hst. apply memo_update; [done..|]. intros s ix Hi. simpl. apply (so_index _ _ _ (Hst i s Hi)).
Qed.

Lemma shape_run_wf st op : wf st -> shape_op_ok st op = true -> wf (shape_run st op).
Proof.
  intros Hwf Hok. destruct op as [|i k|i k|i|i k|i|i slot|i h|i]; cbn [shape_run shape_op_ok] in *.
  - by apply root_wf.
  - apply is_live_spec in Hok. destruct (lookup_spec st i k Hwf Hok) as (st' & -> & Hm). by eapply memo_wf.
  - apply growable_spec in Hok as (s & Hi & Hm & Hl). pose proof (transition_spec st i s k Hwf Hi Hm Hl) as H.
    destruct (transition i k st) as [c st']. simpl. case_decide; [destruct H as [_ H]; by eapply memo_wf|apply H].
  - apply andb_true_iff in Hok as [(s & Hi & Hm & Hl)%growable_spec He].
    assert (Hk : skeys st i = []).
    { rewrite (shape_at_live _ _ _ Hi) in He. unfold is_empty in He. apply Z.eqb_eq in He.
      rewrite (slen_skeys st i s (wf_struct _ Hwf) Hi) in He. destruct (skeys st i); [done|simpl in He; lia]. }
    pose proof (builtin_fn_layout_spec st i s Hwf Hi Hk Hm) as H. destruct (builtin_fn_layout i st). apply H.
  - apply andb_true_iff in Hok as [(s & Hi & Hm & Hl)%growable_spec Hk%negb_true_iff].
    destruct (contains_spec st i k Hwf ltac:(by eexists)) as (st' & E & _). rewrite E in Hk. apply bool_decide_eq_false in Hk.
    pose proof (implied_ctor_layout_spec st i s k Hwf Hi Hm Hk Hl) as H. destruct (implied_ctor_layout i k st). apply H.
  - apply is_live_spec in Hok as [s Hi]. pose proof (unmarked_twin_spec st i s Hwf Hi) as H. destruct (unmarked_twin i st). apply H.
  - apply andb_true_iff in Hok as [[s Hi]%is_live_spec Hs%Z.leb_le]. by apply (note_non_number_spec st i s slot).
  - apply (memo_wf st); [|done]. apply hint_memo, Hwf.
  - by apply release_wf.
Qed.

Lemma shape_history_wf ops : forall st, wf st -> shape_ops_ok st ops = true -> wf (foldl shape_run st ops).
Proof.
  induction ops as [|op ops IH]; intros st Hwf Hok; [done|]. simpl in Hok. apply andb_true_iff in Hok as [H1 H2].
  apply IH; [by apply shape_run_wf|done].
Qed.

(** C12: In every store that any history of roots, lookups, growth, marks, hints
    and drops leads to, a lookup on a live layout answers the position of the key
    among the layout's keys (or nothing when it is absent), whichever of the
    parent walk and the hashed table answers; the keys are distinct and one per
    slot, and neither they nor any other lookup's answer change by looking. *)
Theorem shape_lookup_correct ops i k : let st := foldl shape_run no_shapes ops in
  shape_ops_ok no_shapes ops = true -> is_live st i = true ->
  NoDup (keys i st) /\ Z.of_nat (length (keys i st)) = slen (shape_at st i) /\
  fst (lookup i k st) = slot_of (keys i st) k /\
  forall j k', is_live st j = true ->
    keys j (snd (lookup i k st)) = keys j st /\ fst (lookup j k' (snd (lookup i k st))) = fst (lookup j k' st).
Proof.
  intros st Hok Hl. pose proof (shape_history_wf ops no_shapes no_shapes_wf Hok) as Hwf. fold st in Hwf.
  apply is_live_spec in Hl as Hi. destruct Hi as [s Hi]. pose proof (wf_struct _ Hwf) as Hst.
  rewrite (keys_spec st i) by (done || by eexists). split_and!.
  - by eapply skeys_NoDup.
  - rewrite (shape_at_live _ _ _ Hi). symmetry. by apply slen_skeys.
  - destruct (lookup_spec st i k Hwf ltac:(by eexists)) as (st' & -> & _). done.
  - intros j k' Hj%is_live_spec. destruct (lookup_spec st i k Hwf ltac:(by eexists)) as (st' & -> & Hm). simpl.
    pose proof (memo_wf _ _ Hm Hwf) as Hwf'. pose proof (memo_live _ _ j Hm Hj) as Hj'. split.
    + rewrite !keys_spec by (done || apply Hwf'). by apply memo_skeys.
    + destruct (lookup_spec st j k' Hwf Hj) as (? & -> & _). destruct (lookup_spec st' j k' Hwf' Hj') as (? & -> & _). simpl.
      by rewrite (memo_skeys _ _ j Hm).
Qed.

(** A history that grows a layout of nine keys and reads it until its table is
    built. *)
Definition nine_keys : list key := (fun z => [97 + z; 98]) <$> [0; 1; 2; 3; 4; 5; 6; 7; 8].
Definition nine_history : list ShapeOp :=
  OpRoot :: imap (fun n k => OpTransition n k) nine_keys ++
  [OpLookup 9 [99; 98]; OpLookup 9 [99; 98]; OpLookup 9 [1]; OpBuiltinFn 0; OpNote 0 2; OpRelease 9; OpTransition 8 [7]].

Lemma shape_lookup_correct_witness :
  let st := foldl shape_run no_shapes nine_history in
  fst (lookup 8 [99; 98] st) = Some 2 /\ fst (lookup 8 [9] st) = None /\ is_live st 12 = true.
Proof.
  pose proof (shape_lookup_correct nine_history 8 [99; 98] ltac:(vm_compute; reflexivity) ltac:(vm_compute; reflexivity)) as H.
  intros st. subst st. destruct H as (_ & _ & H & _). split; [rewrite H; vm_compute; reflexivity|].
  split; vm_compute; reflexivity.
Defined.

(** C19: Structural sharing: adding a key that is absent gives a layout with the
    old keys in their slots and the new one last; and as long as a layout lives,
    growing the same layout by the same key gives that very layout again, so two
    ordinary live layouts grown from one root with the same keys in the same
    order are one shape. *)
Theorem shape_sharing ops i k : let st := foldl shape_run no_shapes ops in
  shape_ops_ok no_shapes ops = true -> growable st i = true -> k ∉ keys i st ->
  let (c, st') := transition i k st in
  keys c st' = keys i st ++ [k] /\ growable st' i = true /\ transition i k st' = (c, snd (lookup i k st')) /\
  forall j, is_live st' j = true -> marked (shape_at st' j) = false -> root_of st' j = root_of st' c ->
    keys j st' = keys i st ++ [k] -> j = c.
Proof.
  intros st Hok Hg Hk. pose proof (shape_history_wf ops no_shapes no_shapes_wf Hok) as Hwf. fold st in Hwf.
  destruct (growable_spec st i Hg) as (s & Hi & Hm & Hl). rewrite (keys_spec st i) in * by (apply Hwf || by eexists).
  pose proof (transition_spec st i s k Hwf Hi Hm Hl) as H. destruct (transition i k st) as [c st'].
  rewrite decide_False in H by done. destruct H as [G1 G2 [cs Hc] G4 G5 G6 G7].
  pose proof (wf_struct _ G1) as Hst'. rewrite (keys_spec st' c) by (done || by eexists).
  destruct (ex_live _ _ G2 i s Hi) as (s' & Hi' & E1 & E2 & E3 & E4 & E5 & _).
  rewrite (shape_at_live _ _ _ Hc) in G5, G7.
  destruct (so_child _ _ _ (Hst' c cs Hc) i G5) as (_ & s2 & k2 & Hi2 & Hk2 & Hnin & _). rewrite Hi' in Hi2. injection Hi2 as <-.
  assert (Hkk : k2 = k).
  { rewrite (skeys_child st' c cs i k2) in G4 by done. rewrite (extends_skeys st st' (wf_struct _ Hwf) G2) in G4 by by eexists.
    by apply app_inj_tail in G4 as [_ ?]. }
  subst k2. assert (Hgi : growable st' i = true).
  { unfold growable. rewrite (shape_at_live _ _ _ Hi'), E4, (marked_lay s s' E5), Hm.
    rewrite (proj2 (is_live_spec st' i)) by by eexists. simpl. by apply Z.ltb_lt. }
  split_and!; [done|done| |].
  - unfold transition. destruct (lookup_spec st' i k G1 ltac:(by eexists)) as (st2 & -> & Hmemo). simpl.
    rewrite (proj2 (slot_of_None _ _) Hnin). destruct (memo_shape st' st2 c cs Hmemo Hc) as (cs2 & Hc2 & El).
    destruct (lay_eq _ _ El) as (F1 & F2 & _ & _ & _ & F6).
    apply (add_shared st2 i c cs2 k); [by eapply memo_wf|by eapply memo_live; [done|eexists]|done|congruence|congruence|].
    by rewrite (marked_lay cs cs2 F6).
  - intros j [t Hj]%is_live_spec Hmj Hr Hkj. rewrite (keys_spec st' j) in Hkj by (done || by eexists).
    rewrite (shape_at_live _ _ _ Hj) in Hmj. apply (shapes_canonical st' G1 j t Hj c cs Hc); [done..|]. by rewrite G4.
Qed.

Lemma shape_sharing_witness :
  let st := foldl shape_run no_shapes nine_history in
  fst (transition 3 [7] st) = 13%nat /\ fst (transition 3 [7] (snd (transition 3 [7] st))) = 13%nat.
Proof.
  assert (Hk : [7] ∉ keys 3 (foldl shape_run no_shapes nine_history)).
  { apply (bool_decide_eq_false_1 ([7] ∈ keys 3 (foldl shape_run no_shapes nine_history))). vm_compute. reflexivity. }
  assert (Hok : shape_ops_ok no_shapes nine_history = true) by (vm_compute; reflexivity).
  assert (Hg : growable (foldl shape_run no_shapes nine_history) 3 = true) by (vm_compute; reflexivity).
  pose proof (shape_sharing nine_history 3 [7] Hok Hg Hk) as H.
  assert (E : fst (transition 3 [7] (foldl shape_run no_shapes nine_history)) = 13%nat) by (vm_compute; reflexivity).
  cbv zeta. destruct (transition 3 [7] (foldl shape_run no_shapes nine_history)) as [c st']. cbn [fst snd] in *. split; [done|]. destruct H as (_ & _ & -> & _). done.
Defined.

(** A live layout below [i] by ordinary growth. *)
Definition grown_from (st : Shapes) (i j : nat) : Prop :=
  rtc (fun p c => exists cs, live st !! c = Some cs /\ parent cs = Some p /\ marked cs = false) i j.

Lemma grown_from_edge st i j : wf st -> grown_from st i j <-> rtc (edge st) i j.
Proof.
  intros Hwf. split; intros H; (eapply rtc_subrel; [|exact H]); intros p c.
  - intros (cs & Hc & Hp & Hm). destruct (so_child _ _ _ (wf_struct _ Hwf c cs Hc) p Hp) as (_ & ps & k & Hlp & Hk & _).
    exists ps, cs, k. split_and!; [done| |done]. by apply (so_cached _ _ _ (wf_struct _ Hwf p ps Hlp) c cs k).
  - intros (ps & cs & k & Hp & Ht & Hc). exists cs. by destruct (so_trans _ _ _ (wf_struct _ Hwf p ps Hp) k c cs Ht Hc) as (? & _ & ?).
Qed.

Lemma grown_from_marked st i j s : grown_from st i j -> live st !! j = Some s -> marked s = true -> j = i.
Proof.
  intros H Hj Hm. apply rtc_inv_r in H as [->|(p & _ & cs & Hc & _ & Hf)]; [done|]. congruence.
Qed.

Lemma land_bit n a : 0 <= n -> negb (Z.land a (Z.shiftl 1 n) =? 0) = Z.testbit a n.
Proof.
  intros Hn. rewrite Z.shiftl_1_l. destruct (Z.testbit a n) eqn:E.
  - apply negb_true_iff, Z.eqb_neq. intros H0. assert (Z.testbit (Z.land a (2 ^ n)) n = false) as Hf by (by rewrite H0, Z.bits_0).
    by rewrite Z.land_spec, E, Z.pow2_bits_true in Hf.
  - apply negb_false_iff, Z.eqb_eq, Z.bits_inj'. intros m Hm. rewrite Z.land_spec, Z.bits_0, Z.pow2_bits_eqb by done.
    destruct (Z.eqb_spec n m) as [<-|]; [by rewrite E|by rewrite andb_false_r].
Qed.

Lemma may_be_bit n s : 0 <= n < 64 -> may_be_non_number n s = Z.testbit (any s) n.
Proof.
  intros Hn. unfold may_be_non_number. rewrite land_bit by lia. destruct (Z.leb_spec 64 n); [lia|done].
Qed.

(** C18: Marking a slot of a layout as possibly not a number ends, and does exactly
    this: in that layout and in every live layout grown from it by ordinary
    transitions, however long the chain, that slot is marked and every other slot
    is as it was; every other layout is untouched.  A layout with implied
    attributes, although it extends its parent, is never reached from another
    layout: it keeps its marks.  So no mark is ever taken back, and a clear bit of
    a layout stays a promise. *)
Theorem non_number_marks_descend ops i slot : let st := foldl shape_run no_shapes ops in
  shape_ops_ok no_shapes ops = true -> is_live st i = true -> 0 <= slot < 64 ->
  let st' := note_non_number i slot st in
  (forall j n, grown_from st i j -> 0 <= n < 64 ->
     may_be_non_number n (shape_at st' j) = (n =? slot) || may_be_non_number n (shape_at st j)) /\
  (forall j, ~ grown_from st i j -> any (shape_at st' j) = any (shape_at st j)) /\
  (forall j, is_live st j = true -> marked (shape_at st j) = true -> j <> i ->
     any (shape_at st' j) = any (shape_at st j)) /\
  (forall j n, 0 <= n < 64 -> is_live st j = true -> may_be_non_number n (shape_at st j) = true ->
     may_be_non_number n (shape_at st' j) = true).
Proof.
  intros st Hok [s Hi]%is_live_spec Hs. pose proof (shape_history_wf ops no_shapes no_shapes_wf Hok) as Hwf. fold st in Hwf.
  assert (0 <= Z.shiftl 1 slot) as Hm by (apply Z.shiftl_nonneg; lia).
  destruct (note_non_numbers_spec st i s (Z.shiftl 1 slot) Hwf Hi Hm) as (_ & Hex & _ & _ & Hany).
  unfold note_non_number. rewrite (proj2 (Z.ltb_lt _ _)) by lia. set (st' := note_non_numbers _ _ _) in *. cbv zeta.
  unfold any_at in *.
  assert (Hout : forall j, ~ grown_from st i j -> any (shape_at st' j) = any (shape_at st j)).
  { intros j Hj. apply Hany. by rewrite <- grown_from_edge. }
  split_and!.
  - intros j n Hj%grown_from_edge Hn; [|done]. rewrite !may_be_bit by done. rewrite (proj1 (Hany j) Hj).
    rewrite Z.lor_spec, Z.shiftl_1_l, Z.pow2_bits_eqb, Z.eqb_sym by lia. apply orb_comm.
  - exact Hout.
  - intros j [t Hj]%is_live_spec Hmk Hne. apply Hout. intros Hg. rewrite (shape_at_live _ _ _ Hj) in Hmk. by apply Hne, (grown_from_marked st i j t).
  - intros j n Hn [t Hj]%is_live_spec. rewrite !may_be_bit by done. destruct (ex_live _ _ Hex j t Hj) as (t' & Hj' & _ & _ & _ & _ & _ & M).
    rewrite (shape_at_live _ _ _ Hj), (shape_at_live _ _ _ Hj'). apply M. lia.
Qed.

Lemma non_number_marks_descend_witness :
  let st := foldl shape_run no_shapes nine_history in
  let st' := note_non_number 6 5 st in
  may_be_non_number 5 (shape_at st 8) = false /\ may_be_non_number 5 (shape_at st' 8) = true /\
  may_be_non_number 4 (shape_at st' 8) = false.
Proof.
  cbv zeta. set (st := foldl shape_run no_shapes nine_history).
  assert (Hg : grown_from st 6 8).
  { apply rtc_l with 7%nat; [|apply rtc_l with 8%nat; [|apply rtc_refl]].
    - exists (shape_at st 7). split_and!; vm_compute; reflexivity.
    - exists (shape_at st 8). split_and!; vm_compute; reflexivity. }
  pose proof (proj1 (non_number_marks_descend nine_history 6 5 ltac:(vm_compute; reflexivity) ltac:(vm_compute; reflexivity) ltac:(lia))) as H.
  split; [vm_compute; reflexivity|]. split.
  - exact (H 8%nat 5 Hg ltac:(lia)).
  - etransitivity; [exact (H 8%nat 4 Hg ltac:(lia))|]. vm_compute. reflexivity.
Defined.
