(* ===== verification/Ic.v ===== *)
(** * Inline caches: [src/src/ic.rs]

    A [PropertyCache] remembers one shape and the slot of its site's key there.
    The cache owns its shape (an [Rc]), so the identity it compares stays alive.
    The prototype-chain and native-call entries a site may also carry are plain
    data of the machine and are left out.

    [cache_ok] is what a site's cache promises: the remembered slot is the slot of
    the site's key under the remembered shape. *)

From S2P Require Import Prelude Prog Shape ShapeTable ShapeInv.
Open Scope Z_scope.

(** ** Definitions *)

(** *** Callee feedback *)

Inductive CalleeHint :=
| HNone
| HOne (k : Z)
| HPoly (f : list Z)
| HMixed.

Definition NO_FN : Z := 2 ^ 32 - 1.

(** [f.iter_mut().find(|x| **x == NO_FN)], overwritten with [fid]. *)
Fixpoint fill_unused (fid : Z) (f : list Z) : option (list Z) :=
  match f with
  | [] => None
  | x :: f => if x =? NO_FN then Some (fid :: f) else cons x <$> fill_unused fid f
  end.

Definition hint_with (h : CalleeHint) (k : Z) : CalleeHint :=
  let fid := as_u32 k in
  match h with
  | HNone => HOne k
  | HOne k' =>
      if k' =? k then h
      else if (as_u32 k' =? fid) || (fid =? NO_FN) || (as_u32 k' =? NO_FN) then HMixed
      else HPoly [as_u32 k'; fid; NO_FN]
  | HPoly f =>
      if existsb (Z.eqb fid) f then h
      else match fill_unused fid f with Some f => HPoly f | None => HMixed end
  | HMixed => HMixed
  end.

Definition of_keys (ks : list Z) : CalleeHint := foldl hint_with HNone ks.

Definition poly_fns (h : CalleeHint) : list Z :=
  match h with HPoly f => List.filter (fun x => negb (x =? NO_FN)) f | _ => [] end.

(** *** The cache of a site *)

Record PropertyCache := MkCache {
  c_shape : option nat; c_slot : Z; c_hits : Z; c_misses : Z; c_by_add : bool; c_callee : CalleeHint }.

Record WarmEntry := MkWarm { w_shape : nat; w_slot : Z; w_hits : Z; w_misses : Z; w_by_add : bool }.

Definition new_cache : PropertyCache := MkCache None 0 0 0 false HNone.

Definition bump_hits (c : PropertyCache) : PropertyCache :=
  MkCache (c_shape c) (c_slot c) (as_u32 (c_hits c + 1)) (c_misses c) (c_by_add c) (c_callee c).
Definition bump_misses (c : PropertyCache) : PropertyCache :=
  MkCache (c_shape c) (c_slot c) (c_hits c) (as_u32 (c_misses c + 1)) (c_by_add c) (c_callee c).

Definition ic_lookup (object_shape : nat) (k : key) (c : PropertyCache) (st : Shapes)
  : option Z * PropertyCache * Shapes :=
  if bool_decide (c_shape c = Some object_shape) then (Some (c_slot c), bump_hits c, st)
  else
    let c := bump_misses c in
    let (r, st) := lookup object_shape k st in
    match r with
    | Some slot => (Some slot, MkCache (Some object_shape) slot (c_hits c) (c_misses c) false (c_callee c), st)
    | None => (None, c, st)
    end.

Definition hit_slot (object_shape : nat) (c : PropertyCache) : option Z :=
  if bool_decide (c_shape c = Some object_shape) then Some (c_slot c) else None.

Definition transition_from (from : nat) (c : PropertyCache) (st : Shapes) : option nat * PropertyCache :=
  match c_shape c with
  | Some to =>
      if bool_decide (parent (shape_at st to) = Some from) then (Some to, bump_hits c)
      else (None, bump_misses c)
  | None => (None, bump_misses c)
  end.

Definition arm_transition (to : nat) (st : Shapes) (c : PropertyCache) : PropertyCache :=
  MkCache (Some to) (Z.max 0 (slen (shape_at st to) - 1)) (c_hits c) (c_misses c) true (c_callee c).

Definition is_warm (c : PropertyCache) : bool := match c_shape c with Some _ => true | None => false end.

Definition clear (c : PropertyCache) : PropertyCache :=
  MkCache None (c_slot c) (c_hits c) (c_misses c) (c_by_add c) (c_callee c).

Definition warm_entry (c : PropertyCache) : option WarmEntry :=
  (fun s => MkWarm s (c_slot c) (c_hits c) (c_misses c) (c_by_add c)) <$> c_shape c.

Definition saturating_mul4 (z : Z) : Z := Z.min (z * 4) (2 ^ 32 - 1).

Definition stable_memo (c : PropertyCache) : option (nat * Z * bool) :=
  if (c_hits c <? 4) || (c_hits c <? saturating_mul4 (c_misses c)) then None
  else (fun s => (s, c_slot c, c_by_add c)) <$> c_shape c.

Definition is_stable (w : WarmEntry) : bool :=
  (4 <=? w_hits w) && (saturating_mul4 (w_misses w) <=? w_hits w).

Definition note_callee (k : Z) (c : PropertyCache) : PropertyCache :=
  MkCache (c_shape c) (c_slot c) (c_hits c) (c_misses c) (c_by_add c) (hint_with (c_callee c) k).

Definition seed (w : WarmEntry) (c : PropertyCache) : PropertyCache :=
  MkCache (Some (w_shape w)) (w_slot w) (c_hits c) (c_misses c) (w_by_add w) (c_callee c).

(** ** The promise of a site's cache *)

(** The cache of a site whose key is [k]. *)
Definition cache_ok (st : Shapes) (k : key) (c : PropertyCache) : Prop :=
  forall s, c_shape c = Some s -> is_Some (live st !! s) /\ slot_of (skeys st s) k = Some (c_slot c).

(** The cache of a site that adds [k] to objects: its shape's newest key is [k]. *)
Definition add_cache_ok (st : Shapes) (k : key) (c : PropertyCache) : Prop :=
  forall s, c_shape c = Some s -> exists sh, live st !! s = Some sh /\ skey sh = Some k /\ marked sh = false.

Lemma cache_ok_extends st st' k c : struct_ok st -> extends st st' -> cache_ok st k c -> cache_ok st' k c.
Proof.
  intros Hst Hex Hc s Hs. destruct (Hc s Hs) as [Hl E]. split; [by eapply extends_live|].
  by rewrite (extends_skeys st st').
Qed.

Lemma add_cache_ok_extends st st' k c : extends st st' -> add_cache_ok st k c -> add_cache_ok st' k c.
Proof.
  intros Hex Hc s Hs. destruct (Hc s Hs) as (sh & Hl & Hk & Hm). destruct (ex_live _ _ Hex s sh Hl) as (sh' & Hl' & _ & E2 & _ & _ & E5 & _).
  exists sh'. rewrite (marked_lay sh sh' E5). split_and!; [done|congruence|done].
Qed.

(** A lookup through the cache answers what the shape would, and the cache stays
    true. *)
Lemma ic_lookup_spec st s k c : wf st -> is_Some (live st !! s) -> cache_ok st k c ->
  exists c' st', ic_lookup s k c st = (slot_of (skeys st s) k, c', st') /\ memo_eq st st' /\ cache_ok st' k c'.
Proof.
  intros Hwf Hs Hc. unfold ic_lookup. case_bool_decide as E.
  - destruct (Hc s E) as [_ ->]. exists (bump_hits c), st. split_and!; [done|apply memo_refl, Hwf|].
    intros s' Hs'. apply (Hc s' Hs').
  - destruct (lookup_spec st s k Hwf Hs) as (st' & -> & Hm).
    assert (Hex := memo_extends _ _ Hm). destruct (slot_of (skeys st s) k) as [n|] eqn:En.
    + eexists _, st'. split_and!; [done|done|]. intros s' [= <-]. split; [by eapply extends_live|].
      simpl. by rewrite (memo_skeys st st').
    + eexists _, st'. split_and!; [done|done|]. intros s' Hs'.
      by apply (cache_ok_extends st st' k c (wf_struct _ Hwf) Hex Hc).
Qed.

Lemma hit_slot_spec st s k c n : cache_ok st k c -> hit_slot s c = Some n -> slot_of (skeys st s) k = Some n.
Proof. unfold hit_slot. intros Hc H. case_bool_decide as E; [|done]. injection H as <-. by apply Hc. Qed.

(** A transition hit is the layout that adding the key would give. *)
Lemma transition_from_spec st from k c to c' : wf st -> is_Some (live st !! from) -> add_cache_ok st k c ->
  transition_from from c st = (Some to, c') ->
  add from k st = (to, st) /\ (k ∉ skeys st from) /\ add_cache_ok st k c'.
Proof.
  intros Hwf [fs Hf] Hc H. unfold transition_from in H. destruct (c_shape c) as [s|] eqn:Es; [|done].
  case_bool_decide as Hp; [|done]. injection H as <- <-. destruct (Hc s Es) as (sh & Hl & Hk & Hm).
  rewrite (shape_at_live _ _ _ Hl) in Hp. destruct (so_child _ _ _ (wf_struct _ Hwf s sh Hl) from Hp) as (_ & ps & k' & Hps & Hk' & Hnin & _).
  rewrite Hk in Hk'. injection Hk' as <-. split_and!; [|done|intros s' Hs'; by apply (Hc s' Hs')].
  unfold add. rewrite (shape_at_live _ _ _ Hps). pose proof (wf_struct _ Hwf from ps Hps) as Hok.
  rewrite (proj2 (trans_get_spec st (transitions ps) k s (so_trans_ok _ _ _ Hok))); [done|].
  split; [by apply (so_cached _ _ _ Hok s sh k)|by eexists].
Qed.

Lemma arm_transition_spec st to sh k c : struct_ok st -> live st !! to = Some sh -> skey sh = Some k -> marked sh = false ->
  add_cache_ok st k (arm_transition to st c) /\ cache_ok st k (arm_transition to st c).
Proof.
  intros Hst Hl Hk Hm. split; intros s [= <-]; [by exists sh|]. split; [by eexists|]. simpl. rewrite (shape_at_live _ _ _ Hl).
  destruct (parent sh) as [p|] eqn:Ep.
  - destruct (so_child _ _ _ (Hst to sh Hl) p Ep) as (_ & ps & k' & Hps & Hk' & Hnin & _ & Hlen & _).
    rewrite Hk in Hk'. injection Hk' as <-. rewrite (skeys_child st to sh p k) by done. rewrite slot_of_snoc_new by done.
    rewrite Hlen, (slen_skeys st p ps) by done. f_equal. lia.
  - destruct (so_root _ _ _ (Hst to sh Hl) Ep) as (Hn & _). congruence.
Qed.

Lemma warm_entry_seed st k c w c' : cache_ok st k c -> warm_entry c = Some w -> cache_ok st k (seed w c').
Proof.
  intros Hc Hw s [= <-]. unfold warm_entry in Hw. destruct (c_shape c) as [s|] eqn:Es; [|done]. injection Hw as <-. by apply Hc.
Qed.

Lemma stable_memo_spec c : stable_memo c =
  match warm_entry c with
  | Some w => if is_stable w then Some (w_shape w, w_slot w, w_by_add w) else None
  | None => None
  end.
Proof.
  unfold stable_memo, warm_entry, is_stable. destruct (c_shape c) as [s|]; simpl; [|by case_bools].
  rewrite !Z.leb_antisym, <- negb_orb. by destruct (_ || _).
Qed.

(** ** Callee feedback *)

(** The distinct functions of a site's calls, in the order first seen. *)
Fixpoint first_seen (seen ks : list Z) : list Z :=
  match ks with
  | [] => seen
  | k :: ks => first_seen (if existsb (Z.eqb (as_u32 k)) seen then seen else seen ++ [as_u32 k]) ks
  end.

(** What a hint says of the functions seen so far. *)
Definition hint_of (k0 : Z) (seen : list Z) : CalleeHint :=
  match seen with
  | [] => HNone
  | [_] => HOne k0
  | [a; b] => HPoly [a; b; NO_FN]
  | [a; b; c] => HPoly [a; b; c]
  | _ => HMixed
  end.

Lemma as_u32_range z : 0 <= as_u32 z < 2 ^ 32.
Proof. unfold as_u32, wrap_u. apply Z.mod_pos_bound. lia. Qed.

Lemma existsb_eqb x l : existsb (Z.eqb x) l = bool_decide (x ∈ l).
Proof.
  induction l as [|y l IH]; simpl; [done|]. rewrite IH. destruct (Z.eqb_spec x y) as [->|Hne]; simpl.
  - symmetry. apply bool_decide_eq_true. by left.
  - apply bool_decide_ext. rewrite elem_of_cons. naive_solver.
Qed.

Section Callee.
Context (all : list Z).
Hypothesis Hfn : forall k, k ∈ all -> as_u32 k <> NO_FN.
Hypothesis Hcaps : forall k k', k ∈ all -> k' ∈ all -> as_u32 k = as_u32 k' -> k = k'.

Lemma hint_with_spec k0 seen k : k0 ∈ all -> k ∈ all -> head seen = Some (as_u32 k0) ->
  (forall f, f ∈ seen -> f <> NO_FN) -> NoDup seen ->
  hint_with (hint_of k0 seen) k = hint_of k0 (if existsb (Z.eqb (as_u32 k)) seen then seen else seen ++ [as_u32 k]).
Proof using Hfn Hcaps.
  intros H0 Hk Hh Hno Hnd. pose proof (Hfn k Hk) as Hkn. pose proof (Hfn k0 H0) as H0n. rewrite !existsb_eqb.
  destruct seen as [|a [|b [|c [|d seen]]]]; try done; injection Hh as ->; cbn [hint_of hint_with].
  - destruct (Z.eqb_spec k0 k) as [->|Hne]; [by rewrite bool_decide_true by (by left)|].
    assert (as_u32 k <> as_u32 k0) as Hf by (intros E; apply Hne; symmetry; by apply Hcaps).
    rewrite bool_decide_false by (rewrite list_elem_of_singleton; done).
    rewrite !(proj2 (Z.eqb_neq _ _)) by auto. done.
  - rewrite existsb_eqb. destruct (decide (as_u32 k ∈ [as_u32 k0; b])) as [Hin|Hin].
    + rewrite !bool_decide_true; [done|done|]. set_solver.
    + rewrite !bool_decide_false; [|done|set_solver]. cbn [fill_unused].
      rewrite (proj2 (Z.eqb_neq (as_u32 k0) _)) by done. rewrite (proj2 (Z.eqb_neq b _)) by (apply Hno; set_solver).
      by rewrite Z.eqb_refl.
  - rewrite existsb_eqb. destruct (decide (as_u32 k ∈ [as_u32 k0; b; c])) as [Hin|Hin].
    + by rewrite !bool_decide_true by done.
    + rewrite !bool_decide_false by done. cbn [fill_unused]. rewrite !(proj2 (Z.eqb_neq _ _)); [done|apply Hno; set_solver..|done].
  - case_bool_decide; done.
Qed.

Lemma of_keys_from k0 seen ks : k0 ∈ all -> (forall k, k ∈ ks -> k ∈ all) -> head seen = Some (as_u32 k0) ->
  (forall f, f ∈ seen -> f <> NO_FN) -> NoDup seen ->
  foldl hint_with (hint_of k0 seen) ks = hint_of k0 (first_seen seen ks).
Proof using Hfn Hcaps.
  revert seen. induction ks as [|k ks IH]; intros seen H0 Hks Hh Hno Hnd; simpl; [done|].
  assert (Hk : k ∈ all) by (apply Hks; by left). rewrite hint_with_spec by done. rewrite existsb_eqb.
  case_bool_decide as E.
  - apply IH; auto. intros k' ?. apply Hks. by right.
  - apply IH; [done|intros k' ?; apply Hks; by right|by destruct seen| |].
    + intros f [?| ->%list_elem_of_singleton]%elem_of_app; [auto|by apply Hfn].
    + apply NoDup_app. split_and!; [done| |apply NoDup_singleton]. by intros f Hf ->%list_elem_of_singleton.
Qed.
End Callee.

(** The callee feedback of a call site is a function of the functions it
    called in the order first seen: nothing, one closure key, up to three
    functions, or "mixed" beyond three, whatever the order and number of the
    repeats, when a function's closures capture one number of variables (as a
    function's do) and no function has the reserved identity. *)
Theorem callee_feedback k0 ks : let all := k0 :: ks in
  (forall k, k ∈ all -> as_u32 k <> NO_FN) ->
  (forall k k', k ∈ all -> k' ∈ all -> as_u32 k = as_u32 k' -> k = k') ->
  of_keys all = hint_of k0 (first_seen [as_u32 k0] ks) /\
  (forall f, poly_fns (of_keys all) = f -> f <> [] -> f = first_seen [as_u32 k0] ks).
Proof.
  intros all Hfn Hcaps.
  assert (H0 : k0 ∈ all) by (by left). assert (E : of_keys all = hint_of k0 (first_seen [as_u32 k0] ks)).
  { unfold of_keys, all. simpl. change (HOne k0) with (hint_of k0 [as_u32 k0]). apply (of_keys_from all); try done.
    - intros k Hk. by right.
    - intros f ->%list_elem_of_singleton. by apply Hfn.
    - apply NoDup_singleton. }
  split; [done|]. intros f Hf Hne. rewrite E in Hf. clear E.
  assert (Hno : forall x, x ∈ first_seen [as_u32 k0] ks -> x <> NO_FN).
  { assert (Hb : forall x, x ∈ [as_u32 k0] -> x <> NO_FN) by (intros x ->%list_elem_of_singleton; by apply Hfn).
    assert (Hk : forall k, k ∈ ks -> as_u32 k <> NO_FN) by (intros k Hk; apply Hfn; by right).
    revert Hb Hk. generalize [as_u32 k0] as seen. clear. induction ks as [|k ks IH]; intros seen Hb Hk; simpl; [done|].
    apply IH; [|intros k' ?; apply Hk; by right]. destruct (existsb _ _); [done|].
    intros x [?| ->%list_elem_of_singleton]%elem_of_app; [auto|apply Hk; by left]. }
  revert Hf Hno. generalize (first_seen [as_u32 k0] ks) as l. intros [|a [|b [|c [|d l]]]] Hf Hno; simpl in Hf; subst f; try done.
  - rewrite !(proj2 (Z.eqb_neq _ _)) by (apply Hno; set_solver). done.
  - rewrite !(proj2 (Z.eqb_neq _ _)) by (apply Hno; set_solver). done.
Qed.

Lemma callee_feedback_witness :
  of_keys [5; 2 ^ 32 + 7; 5; 9; 2 ^ 32 + 7] = HPoly [5; 7; 9] /\ of_keys [1; 2; 3; 4] = HMixed.
Proof.
  split.
  - destruct (callee_feedback 5 [2 ^ 32 + 7; 5; 9; 2 ^ 32 + 7]) as [-> _]; [..|vm_compute; reflexivity].
    + intros k Hk. repeat (apply elem_of_cons in Hk as [->|Hk]; [vm_compute; discriminate|]). by apply elem_of_nil in Hk.
    + intros k k' Hk Hk'. repeat (apply elem_of_cons in Hk as [->|Hk]; [
        repeat (apply elem_of_cons in Hk' as [->|Hk']; [vm_compute; congruence|]); by apply elem_of_nil in Hk'|]).
      by apply elem_of_nil in Hk.
  - vm_compute. reflexivity.
Defined.
