(* ===== verification/Object.v ===== *)
(** * Objects: [src/src/object.rs]

    An [Object] is a shape with value slots (four inline, eight near, the rest
    far) or a dictionary, and an out-of-line part with the rest: accessors,
    attribute marks, the log of key creation, and an index over these lists.  A
    method is a program over the object ([self]), the store of shapes and the two
    process-wide epochs; it has no result when the code panics.  Counts of slots
    and marks are integers at their width ([as_u16], [as_u32]); positions in
    vectors are [nat].

    Reads of shapes go through [Shape.lookup], which may build a layout's table,
    so even [get] moves the store.  What the code hands to compiled code as raw
    addresses, and the pool of recycled parts, are left out. *)

From Stdlib Require Import String.
From S2P Require Import Prelude Prog NanBox Shape Ic.
From S2P Require Heap.

#[local] Abbreviation length := Datatypes.length.
Open Scope Z_scope.

(** ** Data *)

Definition INLINE_SLOTS : Z := 4.
Definition SPILL_NEAR : Z := 8.
Definition MAX_SHAPED_LEN : Z := 2 ^ 16 - 1.
Definition NO_CLASS_TAG : Z := 2 ^ 32 - 1.
Definition NO_PROTO : Z := 2 ^ 64 - 1.
Definition JIT_FLAG_READONLY : Z := 4.
Definition JIT_FLAG_GLOBAL : Z := 8.
Definition JIT_FLAG_WATCHED : Z := 16.
Definition JIT_FLAGS_MASK : Z := 0x1f.
Definition OBJ_FLAG_FROZEN : Z := 0x20.
Definition OBJ_FLAG_SEALED : Z := 0x40.
Definition OBJ_FLAG_NON_EXTENSIBLE : Z := 0x80.
Definition ATTR_INDEX_MIN : nat := 128.
Definition ORDER_INDEX_MIN : nat := 256.
Definition ATTR_SCAN_MAX : nat := 8.

Inductive Mode := Shaped | Dict.

Record DictSlot := MkDictSlot { d_value : NanBox; d_pos : nat }.
Record DictData := MkDict { d_order : list (option key); d_map : gmap key DictSlot }.

Record Spill := MkSpill { near : list NanBox; far : list NanBox; spill_n : Z }.

Inductive Mark := Readonly | Hidden | NonConfigurable.

Record AttrEntry := MkAttr { at_readonly : Z; at_hidden : Z; at_non_configurable : Z; at_acc : Z; at_ordered : bool }.

(** [AttrIndex]. *)
Abbreviation AttrIndex := (gmap key AttrEntry).

Record ObjectExtra := MkExtra {
  x_spill : Spill; x_dict : option DictData;
  x_readonly : list key; x_accessors : list (key * NanBox * NanBox); x_hidden : list key;
  x_non_configurable : list key; x_class_tag : Z; x_hidden_prefix : Z;
  x_key_order : option (list key); x_index : option AttrIndex }.

Record Object := MkObject {
  o_mode : Mode; o_flags : Z; o_len : Z; o_key_epoch : Z; o_shape : nat; o_proto : Z;
  o_extra : option ObjectExtra; o_inline : list NanBox }.

(** *** Spilled slots *)

Definition SPILL_EMPTY : Spill := MkSpill (replicate (Z.to_nat SPILL_NEAR) undefined) [] 0.

Definition spill_is_empty (p : Spill) : bool := spill_n p =? 0.

Definition spill_get (i : Z) (p : Spill) : option NanBox :=
  if spill_n p <=? i then None
  else if i <? SPILL_NEAR then near p !! Z.to_nat i
  else far p !! Z.to_nat (i - SPILL_NEAR).

(** [get_mut] with the write its callers do. *)
Definition spill_set (i : Z) (v : NanBox) (p : Spill) : option Spill :=
  if spill_n p <=? i then None
  else if i <? SPILL_NEAR then Some (MkSpill (<[Z.to_nat i := v]> (near p)) (far p) (spill_n p))
  else if bool_decide (Z.to_nat (i - SPILL_NEAR) < length (far p))%nat
       then Some (MkSpill (near p) (<[Z.to_nat (i - SPILL_NEAR) := v]> (far p)) (spill_n p))
       else None.

Definition spill_push (v : NanBox) (p : Spill) : Spill :=
  let i := spill_n p in
  if i <? SPILL_NEAR then MkSpill (<[Z.to_nat i := v]> (near p)) (far p) (as_u32 (i + 1))
  else MkSpill (near p) (far p ++ [v]) (as_u32 (i + 1)).

Definition spill_clear (p : Spill) : Spill := MkSpill (near p) [] 0.

Definition spill_iter (p : Spill) : list NanBox :=
  take (Z.to_nat (Z.min (spill_n p) SPILL_NEAR)) (near p) ++ far p.

(** [iter_mut], each value through [f]. *)
Definition spill_map (f : NanBox -> NanBox) (p : Spill) : Spill :=
  let n := Z.to_nat (Z.min (spill_n p) SPILL_NEAR) in
  MkSpill ((f <$> take n (near p)) ++ drop n (near p)) (f <$> far p) (spill_n p).

(** *** The out-of-line part *)

Definition EMPTY_EXTRA : ObjectExtra := MkExtra SPILL_EMPTY None [] [] [] [] NO_CLASS_TAG 0 None None.

Definition with_spill (p : Spill) (x : ObjectExtra) : ObjectExtra :=
  MkExtra p (x_dict x) (x_readonly x) (x_accessors x) (x_hidden x) (x_non_configurable x) (x_class_tag x)
    (x_hidden_prefix x) (x_key_order x) (x_index x).
Definition with_dict (d : option DictData) (x : ObjectExtra) : ObjectExtra :=
  MkExtra (x_spill x) d (x_readonly x) (x_accessors x) (x_hidden x) (x_non_configurable x) (x_class_tag x)
    (x_hidden_prefix x) (x_key_order x) (x_index x).
Definition with_accessors (a : list (key * NanBox * NanBox)) (x : ObjectExtra) : ObjectExtra :=
  MkExtra (x_spill x) (x_dict x) (x_readonly x) a (x_hidden x) (x_non_configurable x) (x_class_tag x)
    (x_hidden_prefix x) (x_key_order x) (x_index x).
Definition with_class_tag (t : Z) (x : ObjectExtra) : ObjectExtra :=
  MkExtra (x_spill x) (x_dict x) (x_readonly x) (x_accessors x) (x_hidden x) (x_non_configurable x) t
    (x_hidden_prefix x) (x_key_order x) (x_index x).
Definition with_hidden_prefix (n : Z) (x : ObjectExtra) : ObjectExtra :=
  MkExtra (x_spill x) (x_dict x) (x_readonly x) (x_accessors x) (x_hidden x) (x_non_configurable x) (x_class_tag x)
    n (x_key_order x) (x_index x).
Definition with_key_order (o : option (list key)) (x : ObjectExtra) : ObjectExtra :=
  MkExtra (x_spill x) (x_dict x) (x_readonly x) (x_accessors x) (x_hidden x) (x_non_configurable x) (x_class_tag x)
    (x_hidden_prefix x) o (x_index x).
Definition with_attr_index (ix : option AttrIndex) (x : ObjectExtra) : ObjectExtra :=
  MkExtra (x_spill x) (x_dict x) (x_readonly x) (x_accessors x) (x_hidden x) (x_non_configurable x) (x_class_tag x)
    (x_hidden_prefix x) (x_key_order x) ix.

Definition marks (m : Mark) (x : ObjectExtra) : list key :=
  match m with Readonly => x_readonly x | Hidden => x_hidden x | NonConfigurable => x_non_configurable x end.

Definition with_marks (m : Mark) (l : list key) (x : ObjectExtra) : ObjectExtra :=
  match m with
  | Readonly => MkExtra (x_spill x) (x_dict x) l (x_accessors x) (x_hidden x) (x_non_configurable x) (x_class_tag x)
      (x_hidden_prefix x) (x_key_order x) (x_index x)
  | Hidden => MkExtra (x_spill x) (x_dict x) (x_readonly x) (x_accessors x) l (x_non_configurable x) (x_class_tag x)
      (x_hidden_prefix x) (x_key_order x) (x_index x)
  | NonConfigurable => MkExtra (x_spill x) (x_dict x) (x_readonly x) (x_accessors x) (x_hidden x) l (x_class_tag x)
      (x_hidden_prefix x) (x_key_order x) (x_index x)
  end.

(** *** The index over the lists *)

Definition EMPTY_ATTR : AttrEntry := MkAttr 0 0 0 0 false.

Definition at_mark (m : Mark) (e : AttrEntry) : Z :=
  match m with Readonly => at_readonly e | Hidden => at_hidden e | NonConfigurable => at_non_configurable e end.
Definition with_at_mark (m : Mark) (n : Z) (e : AttrEntry) : AttrEntry :=
  match m with
  | Readonly => MkAttr n (at_hidden e) (at_non_configurable e) (at_acc e) (at_ordered e)
  | Hidden => MkAttr (at_readonly e) n (at_non_configurable e) (at_acc e) (at_ordered e)
  | NonConfigurable => MkAttr (at_readonly e) (at_hidden e) n (at_acc e) (at_ordered e)
  end.
Definition with_at_acc (n : Z) (e : AttrEntry) : AttrEntry :=
  MkAttr (at_readonly e) (at_hidden e) (at_non_configurable e) n (at_ordered e).
Definition with_at_ordered (b : bool) (e : AttrEntry) : AttrEntry :=
  MkAttr (at_readonly e) (at_hidden e) (at_non_configurable e) (at_acc e) b.

(** [ix.entry(k)], and the write its callers do through it. *)
Definition entry (f : AttrEntry -> AttrEntry) (k : key) (ix : AttrIndex) : AttrIndex :=
  <[k := f (default EMPTY_ATTR (ix !! k))]> ix.

(** [for (i, k) in l.iter().enumerate() { f(i, ix.entry(k)) }]. *)
Fixpoint index_list (f : Z -> AttrEntry -> AttrEntry) (i : Z) (l : list key) (ix : AttrIndex) : AttrIndex :=
  match l with [] => ix | k :: l => index_list f (i + 1) l (entry (f i) k ix) end.

Definition acc_name (a : key * NanBox * NanBox) : key := fst (fst a).

Definition build_index (x : ObjectExtra) : ObjectExtra :=
  let ix := index_list (fun i => with_at_mark Readonly (as_u32 i + 1)) 0 (x_readonly x) ∅ in
  let ix := index_list (fun i => with_at_mark Hidden (as_u32 i + 1)) 0 (x_hidden x) ix in
  let ix := index_list (fun i => with_at_mark NonConfigurable (as_u32 i + 1)) 0 (x_non_configurable x) ix in
  let ix := index_list (fun i => with_at_acc (as_u32 i + 1)) 0 (acc_name <$> x_accessors x) ix in
  let ix := index_list (fun _ => with_at_ordered true) 0 (default [] (x_key_order x)) ix in
  with_attr_index (Some ix) x.

Definition only_spill (x : ObjectExtra) : bool :=
  bool_decide (x_dict x = None) && bool_decide (x_readonly x = []) && bool_decide (x_accessors x = [])
  && bool_decide (x_hidden x = []) && bool_decide (x_non_configurable x = []) && (x_class_tag x =? NO_CLASS_TAG)
  && (x_hidden_prefix x =? 0) && bool_decide (x_key_order x = None) && bool_decide (x_index x = None).

Definition extra_is_empty (x : ObjectExtra) : bool := spill_is_empty (x_spill x) && only_spill x.

Definition has_mark (m : Mark) (k : key) (x : ObjectExtra) : bool :=
  let l := marks m x in
  match x_index x with
  | Some ix =>
      if (ATTR_SCAN_MAX <? length l)%nat
      then match ix !! k with Some e => negb (at_mark m e =? 0) | None => false end
      else existsb (fun k' => bool_decide (k' = k)) l
  | None => existsb (fun k' => bool_decide (k' = k)) l
  end.

Definition add_mark (m : Mark) (k : key) (x : ObjectExtra) : ObjectExtra :=
  let x := with_marks m (marks m x ++ [k]) x in
  let n := as_u32 (Z.of_nat (length (marks m x))) in
  match x_index x with
  | Some ix => with_attr_index (Some (entry (with_at_mark m n) k ix)) x
  | None => if Z.of_nat ATTR_INDEX_MIN <? n then build_index x else x
  end.

(** [Vec::swap_remove], which panics past the end. *)
Definition swap_remove {A} (i : nat) (l : list A) : option (list A) :=
  match l !! i, last l with
  | Some _, Some y => Some (removelast (<[i := y]> l))
  | _, _ => None
  end.

Definition remove_mark (m : Mark) (k : key) (x : ObjectExtra) : option ObjectExtra :=
  match x_index x with
  | None => Some (with_marks m (List.filter (fun k' => negb (bool_decide (k' = k))) (marks m x)) x)
  | Some ix =>
      match ix !! k with
      | None => Some x
      | Some e =>
          let pos := at_mark m e in
          let ix := <[k := with_at_mark m 0 e]> ix in
          if pos =? 0 then Some (with_attr_index (Some ix) x)
          else
            let i := Z.to_nat (pos - 1) in
            match swap_remove i (marks m x) with
            | None => None
            | Some l =>
                let ix :=
                  match l !! i with
                  | Some moved => alter (with_at_mark m pos) moved ix
                  | None => ix
                  end in
                Some (with_attr_index (Some ix) (with_marks m l x))
            end
      end
  end.

Definition acc_scan (k : key) (l : list (key * NanBox * NanBox)) : option nat :=
  fst <$> list_find (fun a => acc_name a = k) l.

Definition acc_pos (k : key) (x : ObjectExtra) : option nat :=
  if (length (x_accessors x) <=? ATTR_SCAN_MAX)%nat then acc_scan k (x_accessors x)
  else match x_index x with
       | Some ix =>
           match ix !! k with
           | Some e => if at_acc e =? 0 then None else Some (Z.to_nat (at_acc e - 1))
           | None => None
           end
       | None => acc_scan k (x_accessors x)
       end.

Definition add_acc (k : key) (getter setter : NanBox) (x : ObjectExtra) : ObjectExtra :=
  let x := with_accessors (x_accessors x ++ [(k, getter, setter)]) x in
  let n := as_u32 (Z.of_nat (length (x_accessors x))) in
  match x_index x with
  | Some ix => with_attr_index (Some (entry (with_at_acc n) k ix)) x
  | None => if Z.of_nat ATTR_INDEX_MIN <? n then build_index x else x
  end.

(** The renumbering of the later accessors. *)
Definition drop_acc (i : nat) (e : AttrEntry) : AttrEntry :=
  if Z.of_nat i + 1 <? at_acc e then with_at_acc (at_acc e - 1) e
  else if at_acc e =? Z.of_nat i + 1 then with_at_acc 0 e else e.

Definition remove_acc (k : key) (x : ObjectExtra) : bool * ObjectExtra :=
  match acc_pos k x with
  | None => (false, x)
  | Some i =>
      let x := with_accessors (take i (x_accessors x) ++ drop (S i) (x_accessors x)) x in
      (true, match x_index x with
             | Some ix => with_attr_index (Some (drop_acc i <$> ix)) x
             | None => x
             end)
  end.

Definition order_has (k : key) (x : ObjectExtra) : bool :=
  match x_key_order x with
  | None => false
  | Some order =>
      match x_index x with
      | Some ix => match ix !! k with Some e => at_ordered e | None => false end
      | None => existsb (fun k' => bool_decide (k' = k)) order
      end
  end.

Definition order_push (k : key) (x : ObjectExtra) : ObjectExtra :=
  match x_key_order x with
  | None => x
  | Some order =>
      let order := order ++ [k] in
      let x := with_key_order (Some order) x in
      match x_index x with
      | Some ix => with_attr_index (Some (entry (with_at_ordered true) k ix)) x
      | None => if (ORDER_INDEX_MIN <? length order)%nat then build_index x else x
      end
  end.

Definition order_remove (k : key) (x : ObjectExtra) : ObjectExtra :=
  match x_key_order x with
  | None => x
  | Some order =>
      let without := Some (List.filter (fun k' => negb (bool_decide (k' = k))) order) in
      match x_index x with
      | Some ix =>
          match ix !! k with
          | Some e =>
              if at_ordered e
              then with_key_order without (with_attr_index (Some (<[k := with_at_ordered false e]> ix)) x)
              else x
          | None => x
          end
      | None => with_key_order without x
      end
  end.

Definition set_order (order : list key) (x : ObjectExtra) : ObjectExtra :=
  let x :=
    match x_index x with
    | Some ix => with_attr_index (Some (index_list (fun _ => with_at_ordered true) 0 order ix)) x
    | None => x
    end in
  let n := length order in
  let x := with_key_order (Some order) x in
  match x_index x with
  | None => if (ORDER_INDEX_MIN <? n)%nat then build_index x else x
  | Some _ => x
  end.

(** ** The state of a method *)

Record Sys := MkSys { self : Object; shapes : Shapes; proto_epoch : Z; global_epoch : Z }.

Definition with_self (o : Object) (s : Sys) : Sys := MkSys o (shapes s) (proto_epoch s) (global_epoch s).
Definition with_shapes (st : Shapes) (s : Sys) : Sys := MkSys (self s) st (proto_epoch s) (global_epoch s).

Abbreviation method A := (prog Sys A).

Definition me : method Object := gets self.
Definition put (f : Object -> Object) : method unit := modify (fun s => with_self (f (self s)) s).
Definition on_shapes {A} (f : Shapes -> A * Shapes) : method A :=
  act (fun s => let (a, st) := f (shapes s) in (a, with_shapes st s)).
Definition my_shape : method Shape := gets (fun s => shape_at (shapes s) (o_shape (self s))).

Definition bump_proto_epoch : method unit :=
  modify (fun s => MkSys (self s) (shapes s) (as_u64 (proto_epoch s + 1)) (global_epoch s)).
Definition bump_global_binding_epoch : method unit :=
  modify (fun s => MkSys (self s) (shapes s) (proto_epoch s) (as_u64 (global_epoch s + 1))).

Definition with_mode (m : Mode) (o : Object) : Object :=
  MkObject m (o_flags o) (o_len o) (o_key_epoch o) (o_shape o) (o_proto o) (o_extra o) (o_inline o).
Definition with_flags (f : Z) (o : Object) : Object :=
  MkObject (o_mode o) f (o_len o) (o_key_epoch o) (o_shape o) (o_proto o) (o_extra o) (o_inline o).
Definition with_len (n : Z) (o : Object) : Object :=
  MkObject (o_mode o) (o_flags o) n (o_key_epoch o) (o_shape o) (o_proto o) (o_extra o) (o_inline o).
Definition with_key_epoch (n : Z) (o : Object) : Object :=
  MkObject (o_mode o) (o_flags o) (o_len o) n (o_shape o) (o_proto o) (o_extra o) (o_inline o).
Definition with_shape (i : nat) (o : Object) : Object :=
  MkObject (o_mode o) (o_flags o) (o_len o) (o_key_epoch o) i (o_proto o) (o_extra o) (o_inline o).
Definition with_proto (p : Z) (o : Object) : Object :=
  MkObject (o_mode o) (o_flags o) (o_len o) (o_key_epoch o) (o_shape o) p (o_extra o) (o_inline o).
Definition with_extra (x : option ObjectExtra) (o : Object) : Object :=
  MkObject (o_mode o) (o_flags o) (o_len o) (o_key_epoch o) (o_shape o) (o_proto o) x (o_inline o).
Definition with_inline (l : list NanBox) (o : Object) : Object :=
  MkObject (o_mode o) (o_flags o) (o_len o) (o_key_epoch o) (o_shape o) (o_proto o) (o_extra o) l.

(** *** Parts of the object *)

Definition is_dict (o : Object) : bool := match o_mode o with Dict => true | Shaped => false end.

(** [ex]: the out-of-line part, or the shared empty one. *)
Definition ex (o : Object) : ObjectExtra := default EMPTY_EXTRA (o_extra o).

(** [extra_mut], with the change its callers make. *)
Definition extra_mut (f : ObjectExtra -> ObjectExtra) (o : Object) : Object := with_extra (Some (f (ex o))) o.

(** [if let Some(x) = self.extra.as_deref_mut() { f(x) }]. *)
Definition extra_as_mut (f : ObjectExtra -> ObjectExtra) (o : Object) : Object := with_extra (f <$> o_extra o) o.

Definition dict (o : Object) : DictData := default (MkDict [] ∅) (x_dict (ex o)).
Definition dict_mut (f : DictData -> DictData) (o : Object) : Object :=
  extra_mut (fun x => with_dict (Some (f (default (MkDict [] ∅) (x_dict x)))) x) o.

Definition spill (o : Object) : Spill := x_spill (ex o).

Definition slot_get (i : Z) (o : Object) : option NanBox :=
  if o_len o <=? i then None
  else if i <? INLINE_SLOTS then o_inline o !! Z.to_nat i
  else spill_get (i - INLINE_SLOTS) (spill o).

(** [slot_get_mut] with the write its callers do; [None] where it answers [None]. *)
Definition slot_set (i : Z) (v : NanBox) (o : Object) : option Object :=
  if o_len o <=? i then None
  else if i <? INLINE_SLOTS then Some (with_inline (<[Z.to_nat i := v]> (o_inline o)) o)
  else match o_extra o with
       | None => None
       | Some x => (fun p => with_extra (Some (with_spill p x)) o) <$> spill_set (i - INLINE_SLOTS) v (x_spill x)
       end.

Definition slots_iter (o : Object) : list NanBox :=
  take (Z.to_nat (Z.min (o_len o) INLINE_SLOTS)) (o_inline o) ++ spill_iter (spill o).

(** *** Flags *)

Definition has_flag (bits : Z) (o : Object) : bool := negb (Z.land (o_flags o) bits =? 0).
Definition is_extensible (o : Object) : bool := negb (has_flag OBJ_FLAG_NON_EXTENSIBLE o).
Definition is_sealed (o : Object) : bool := has_flag (Z.lor OBJ_FLAG_SEALED OBJ_FLAG_FROZEN) o.
Definition is_frozen (o : Object) : bool := has_flag OBJ_FLAG_FROZEN o.
Definition jit_flags (o : Object) : Z := Z.land (o_flags o) JIT_FLAGS_MASK.

Definition proto (o : Object) : option Heap.Handle :=
  if o_proto o =? NO_PROTO then None else Some (Heap.from_raw (o_proto o)).
Definition proto_word (p : option Heap.Handle) : Z :=
  match p with Some h => Heap.to_raw h | None => NO_PROTO end.

Definition class_tag (o : Object) : option Z :=
  let t := x_class_tag (ex o) in if t =? NO_CLASS_TAG then None else Some t.

(** [realm::is_private_key]. *)
Definition is_private_key (k : key) : bool := starts_with k (0 :: bytes "#").

(** *** The epochs *)

Definition layout_changed : method unit :=
  o ← me; when (has_flag JIT_FLAG_WATCHED o) bump_proto_epoch.

Definition global_attrs_changed : method unit :=
  o ← me; when (has_flag JIT_FLAG_GLOBAL o) bump_global_binding_epoch.

Definition bump_key_epoch : method unit :=
  put (fun o => with_key_epoch (as_u32 (o_key_epoch o + 1)) o);;
  o ← me;
  when (has_flag (Z.lor JIT_FLAG_GLOBAL JIT_FLAG_WATCHED) o)
    (when (has_flag JIT_FLAG_GLOBAL o) bump_global_binding_epoch;; layout_changed).

Definition watch : method unit := put (fun o => with_flags (Z.lor (o_flags o) JIT_FLAG_WATCHED) o).

Definition add_jit_flags (bits : Z) : method unit :=
  let bits := Z.land bits JIT_FLAGS_MASK in
  o ← me;
  when (negb (Z.lor (o_flags o) bits =? o_flags o)) layout_changed;;
  put (fun o => with_flags (Z.lor (o_flags o) bits) o).

Definition freeze : method unit :=
  global_attrs_changed;;
  put (fun o => with_flags (Z.lor (o_flags o)
    (Z.lor (Z.lor OBJ_FLAG_FROZEN OBJ_FLAG_SEALED) OBJ_FLAG_NON_EXTENSIBLE)) o).
Definition prevent_extensions : method unit := put (fun o => with_flags (Z.lor (o_flags o) OBJ_FLAG_NON_EXTENSIBLE) o).
Definition seal : method unit :=
  put (fun o => with_flags (Z.lor (o_flags o) (Z.lor OBJ_FLAG_SEALED OBJ_FLAG_NON_EXTENSIBLE)) o).

Definition set_proto (p : option Heap.Handle) : method unit :=
  put (with_proto (proto_word p));; layout_changed.

Definition set_class_tag (id : Z) : method unit := put (extra_mut (with_class_tag id)).

(** *** Layout lookups *)

Definition shape_lookup (k : key) : method (option Z) := o ← me; on_shapes (lookup (o_shape o) k).
Definition shape_contains (k : key) : method bool := r ← shape_lookup k; mret (bool_decide (is_Some r)).
Definition shape_keys : method (list key) := gets (fun s => keys (o_shape (self s)) (shapes s)).

(** *** Attributes a layout implies *)

Definition implied_attrs : method bool :=
  o ← me; s ← my_shape; mret (negb (is_dict o) && has_implied_attrs s).

Definition implied_readonly (k : key) : method bool :=
  o ← me; s ← my_shape;
  mret (negb (is_dict o) && has_implied_fn_attrs s
        && (bool_decide (k = bytes "length") || bool_decide (k = bytes "name"))).

Definition implied_hidden (k : key) : method bool :=
  a ← implied_attrs;
  and_then a
    (s ← my_shape;
     if has_implied_fn_attrs s then mret (bool_decide (k = bytes "length") || bool_decide (k = bytes "name"))
     else shape_contains k).

Definition implied_non_configurable (k : key) : method bool :=
  o ← me; s ← my_shape;
  and_then (bool_decide (k = bytes "prototype") && negb (is_dict o) && has_implied_ctor_attrs s) (shape_contains k).

Definition implied_mark (k : key) : method bool :=
  h ← implied_hidden k; or_else h (implied_non_configurable k).

(** *** Slot writes *)

Definition note_slot (slot : Z) (v : NanBox) : method unit :=
  o ← me;
  when (negb (is_number v)) (on_shapes (fun st => (tt, note_non_number (o_shape o) slot st))).

(** The mask of the first 64 values that are not numbers. *)
Fixpoint non_numbers_from (i : Z) (l : list NanBox) : Z :=
  match l with
  | [] => 0
  | v :: l => Z.lor (Z.shiftl (if is_number v then 0 else 1) i) (non_numbers_from (i + 1) l)
  end.

Definition note_all_slots : method unit :=
  o ← me;
  if is_dict o then mret tt
  else on_shapes (fun st => (tt, note_non_numbers (o_shape o) (non_numbers_from 0 (take 64 (slots_iter o))) st)).

Definition slot_push (v : NanBox) : method unit :=
  o ← me;
  let i := o_len o in
  put (fun o =>
    if i <? INLINE_SLOTS then with_inline (<[Z.to_nat i := v]> (o_inline o)) o
    else extra_mut (fun x => with_spill (spill_push v (x_spill x)) x) o);;
  put (fun o => with_len (as_u16 (o_len o + 1)) o);;
  note_slot i v.

Fixpoint push_all (vs : list NanBox) : method unit :=
  match vs with [] => mret tt | v :: vs => slot_push v;; push_all vs end.

Definition set_slots (vs : list NanBox) : method unit :=
  put (with_len 0);;
  put (extra_as_mut (fun x => with_spill (spill_clear (x_spill x)) x));;
  push_all vs.

Definition tidy_extra : method unit :=
  put (fun o => if match o_extra o with Some x => extra_is_empty x | None => false end
                then with_extra None o else o).

(** [slot_at]: panics out of range. *)
Definition slot_at (i : Z) : method NanBox := o ← me; unwrap (slot_get i o).

(** *** Writing out what the layout implies *)

Definition write_out_implied_attrs : method unit :=
  s ← my_shape;
  let ctor := has_implied_ctor_attrs s in
  let len := slen s in
  has_proto ← (if ctor then shape_contains (bytes "prototype") else mret false);
  put (extra_mut (fun x => x));;
  (if ctor then
     put (extra_mut (with_hidden_prefix len));;
     o ← me;
     when (has_proto && negb (has_mark NonConfigurable (bytes "prototype") (ex o)))
       (put (extra_mut (add_mark NonConfigurable (bytes "prototype"))))
   else
     put (extra_mut (add_mark Readonly (bytes "length")));;
     put (extra_mut (add_mark Readonly (bytes "name")));;
     put (extra_mut (with_hidden_prefix 2)));;
  layout_changed;;
  o ← me;
  twin ← on_shapes (unmarked_twin (o_shape o));
  put (with_shape twin);;
  note_all_slots.

Definition materialize_implied_attrs : method unit :=
  a ← implied_attrs; when a write_out_implied_attrs.

Definition write_out_hidden_prefix : method unit :=
  o ← me;
  let prefix := x_hidden_prefix (ex o) in
  when (negb (prefix =? 0))
    (ks ← shape_keys;
     put (extra_mut (with_hidden_prefix 0));;
     put (extra_mut (fun x =>
       foldl (fun x k => if has_mark Hidden k x then x else add_mark Hidden k x) x (take (Z.to_nat prefix) ks)))).

(** *** Keys *)

Definition contains_key (k : key) : method bool :=
  o ← me; if is_dict o then mret (bool_decide (is_Some (d_map (dict o) !! k))) else shape_contains k.

Definition obj_keys : method (list key) :=
  o ← me; if is_dict o then mret (omap id (d_order (dict o))) else shape_keys.

Definition obj_len (o : Object) (st : Shapes) : Z :=
  if is_dict o then as_u32 (Z.of_nat (size (d_map (dict o)))) else slen (shape_at st (o_shape o)).
Definition obj_is_empty (o : Object) (st : Shapes) : bool :=
  if is_dict o then bool_decide (d_map (dict o) = ∅) else is_empty (shape_at st (o_shape o)).

Definition slot_count (o : Object) : Z :=
  (if is_dict o then Z.of_nat (size (d_map (dict o))) else o_len o) + Z.of_nat (length (x_accessors (ex o))).

Definition accessor_keys (o : Object) : list key := acc_name <$> x_accessors (ex o).

Definition accessor (k : key) (o : Object) : option (NanBox * NanBox) :=
  let x := ex o in
  if bool_decide (x_accessors x = []) then None
  else i ← acc_pos k x; (fun a => (snd (fst a), snd a)) <$> x_accessors x !! i.

Definition has_no_accessors (o : Object) : bool :=
  match o_extra o with Some x => bool_decide (x_accessors x = []) | None => true end.

Definition has_own_key (k : key) : method bool :=
  b ← contains_key k; o ← me; mret (b || bool_decide (is_Some (accessor k o))).

Definition track_key (k : key) : method unit :=
  bump_key_epoch;;
  put (fun o => match o_extra o with
                | Some x => if bool_decide (is_Some (x_key_order x)) && negb (order_has k x)
                            then with_extra (Some (order_push k x)) o else o
                | None => o
                end).

Definition ensure_key_order : method unit :=
  o ← me;
  if bool_decide (x_key_order (ex o) = None) then
    ks ← obj_keys; put (extra_mut (set_order ks))
  else mret tt.

(** The self-healing loop of [merged_key_order]. *)
Fixpoint heal (x : ObjectExtra) (result ks : list key) : list key :=
  match ks with
  | [] => result
  | k :: ks =>
      heal x (if negb (order_has k x) && negb (existsb (fun k' => bool_decide (k' = k)) result)
              then result ++ [k] else result) ks
  end.

Definition merged_key_order : method (list key) :=
  o ← me;
  let x := ex o in
  order ← unwrap (x_key_order x);
  let present k := (b ← contains_key k; mret (b || bool_decide (is_Some (acc_pos k x)))) in
  data ← obj_keys;
  result ← filter_prog present order;
  accessors ← filter_prog (fun k => b ← contains_key k; mret (negb b)) (accessor_keys o);
  mret (heal x result (data ++ accessors)).

Definition enum_base : method (list key) :=
  o ← me;
  if bool_decide (is_Some (x_key_order (ex o))) then merged_key_order
  else ks ← obj_keys; mret (ks ++ accessor_keys o).

(** *** Array-index keys *)

Definition is_digit (b : Z) : bool := (48 <=? b) && (b <=? 57).
Definition dec_value (k : key) : Z := foldl (fun n b => n * 10 + (b - 48)) 0 k.

(** [str::parse::<u32>]. *)
Definition parse_u32 (k : key) : option Z :=
  let digits := match k with 43 :: k => k | _ => k end in
  match digits with
  | [] => None
  | _ => if forallb is_digit digits && (dec_value digits <? 2 ^ 32) then Some (dec_value digits) else None
  end.

(** [u32::to_string]: ten digits are enough. *)
Fixpoint dec_from (fuel : nat) (n : Z) (acc : key) : key :=
  match fuel with
  | O => acc
  | S fuel =>
      let acc := (48 + n mod 10) :: acc in
      if n <? 10 then acc else dec_from fuel (n / 10) acc
  end.
Definition u32_to_string (n : Z) : key := dec_from 10 n [].

Definition array_index (k : key) : option Z :=
  match parse_u32 k with
  | Some n => if (n <? 2 ^ 32 - 1) && bool_decide (u32_to_string n = k) then Some n else None
  | None => None
  end.

Definition is_index (k : key) : bool := bool_decide (is_Some (array_index k)).

Definition index_le (a b : key) : Prop := default 0 (array_index a) <= default 0 (array_index b).
#[global] Instance index_le_dec a b : Decision (index_le a b) := decide (default 0 (array_index a) <= default 0 (array_index b)).

(** The keys that are array indices in ascending order, then the others. *)
Definition order_keys (base : list key) : list key :=
  let ints := List.filter is_index base in
  merge_sort index_le ints ++ List.filter (fun k => negb (is_index k)) base.

Definition all_keys : method (list key) := enum_base.
Definition ordered_keys : method (list key) := base ← enum_base; mret (order_keys base).

Definition has_index_key : method bool :=
  o ← me;
  let digit k := match k with b :: _ => is_digit b | [] => false end in
  ks ← (if is_dict o then mret (btree_keys (d_map (dict o))) else shape_keys);
  mret (existsb (fun k => digit k && is_index k) ks || existsb (fun k => digit k && is_index k) (accessor_keys o)).

(** *** Dictionary mode *)

(** [renumber]: for each old index, how many live keys precede it. *)
Fixpoint renumber_from (next : nat) (order : list (option key)) : list nat :=
  match order with
  | [] => []
  | k :: order => next :: renumber_from (match k with Some _ => S next | None => next end) order
  end.

(** Sets [d.pos = renumber[d.pos]]; a position past the end is a panic. *)
Definition renumber_map (rn : list nat) (m : gmap key DictSlot) : option (gmap key DictSlot) :=
  if forallb (fun e : key * DictSlot => (d_pos (snd e) <? length rn)%nat) (map_to_list m)
  then Some ((fun d => MkDictSlot (d_value d) (nth (d_pos d) rn O)) <$> m)
  else None.

Definition compact_order : method unit :=
  o ← me;
  if negb (is_dict o) then mret tt
  else
    let d := dict o in
    if (length (d_order d) <=? 2 * size (d_map d) + 16)%nat then mret tt
    else
      let rn := renumber_from 0 (d_order d) in
      m ← unwrap (renumber_map rn (d_map d));
      put (dict_mut (fun _ => MkDict (List.filter (fun k => bool_decide (is_Some k)) (d_order d)) m)).

Definition dict_entries (vs : list (key * NanBox)) : DictData :=
  foldl (fun d kv => MkDict (d_order d ++ [Some (fst kv)])
                       (<[fst kv := MkDictSlot (snd kv) (length (d_order d))]> (d_map d)))
    (MkDict [] ∅) vs.

(** A key and the value of its slot, both of which must be there. *)
Definition key_slot (k : key) : method (key * NanBox) :=
  r ← shape_lookup k; slot ← unwrap r; v ← slot_at slot; mret (k, v).

Definition convert_to_dict : method unit :=
  o ← me;
  if is_dict o then mret tt
  else
    materialize_implied_attrs;;
    write_out_hidden_prefix;;
    ks ← shape_keys;
    vs ← map_prog key_slot ks;
    put (with_len 0);;
    put (with_inline (replicate (Z.to_nat INLINE_SLOTS) undefined));;
    put (extra_mut (fun x => with_dict (Some (dict_entries vs)) (with_spill SPILL_EMPTY x)));;
    layout_changed;;
    r ← on_shapes root;
    put (with_shape r);;
    put (with_mode Dict).

(** *** Adding and writing *)

Definition add_new (k : key) (v : NanBox) : method unit :=
  materialize_implied_attrs;;
  o ← me;
  when (negb (is_dict o) && (MAX_SHAPED_LEN <=? o_len o)) convert_to_dict;;
  o ← me;
  if is_dict o then
    put (dict_mut (fun d => MkDict (d_order d ++ [Some k]) (<[k := MkDictSlot v (length (d_order d))]> (d_map d))))
  else
    i ← on_shapes (add (o_shape o) k);
    put (with_shape i);;
    slot_push v.

Definition write_existing (k : key) (v : NanBox) : method bool :=
  o ← me;
  if is_dict o then
    match d_map (dict o) !! k with
    | Some d => put (dict_mut (fun dd => MkDict (d_order dd) (<[k := MkDictSlot v (d_pos d)]> (d_map dd))));; mret true
    | None => put (dict_mut (fun dd => dd));; mret false
    end
  else
    r ← shape_lookup k;
    match r with
    | Some slot =>
        o ← me;
        o' ← unwrap (slot_set slot v o);
        put (fun _ => o');;
        note_slot slot v;;
        mret true
    | None => mret false
    end.

Definition obj_get (k : key) : method (option NanBox) :=
  o ← me;
  if is_dict o then mret (d_value <$> d_map (dict o) !! k)
  else
    r ← shape_lookup k;
    match r with Some slot => o ← me; mret (slot_get slot o) | None => mret None end.

Definition set_slot (slot : Z) (v : NanBox) : method bool :=
  o ← me;
  match slot_set slot v o with
  | Some o' => put (fun _ => o');; note_slot slot v;; mret true
  | None => mret false
  end.

(** *** Attribute marks *)

Definition is_readonly (k : key) : method bool :=
  i ← implied_readonly k;
  o ← me;
  mret (i || negb (bool_decide (x_readonly (ex o) = [])) && has_mark Readonly k (ex o)).

Definition prefix_hidden (k : key) : method bool :=
  o ← me;
  let prefix := x_hidden_prefix (ex o) in
  and_then (negb (prefix =? 0) && negb (is_dict o))
    (r ← shape_lookup k; mret (match r with Some s => s <? prefix | None => false end)).

Definition is_hidden (k : key) : method bool :=
  i ← implied_hidden k;
  or_else i
    (p ← prefix_hidden k;
     o ← me;
     mret (p || negb (bool_decide (x_hidden (ex o) = [])) && has_mark Hidden k (ex o))).

Definition is_non_configurable (k : key) : method bool :=
  i ← implied_non_configurable k;
  o ← me;
  mret (i || negb (bool_decide (x_non_configurable (ex o) = [])) && has_mark NonConfigurable k (ex o)).

Definition set_hidden (k : key) : method unit :=
  o ← me;
  s ← my_shape;
  let prefix := x_hidden_prefix (ex o) in
  a ← (if negb (is_dict o) && bool_decide (last_key s = Some k) && (slen s =? prefix + 1)
       then b ← implied_attrs; mret (negb b) else mret false);
  if a : bool then
    when (negb (has_mark Hidden k (ex o)))
      (put (extra_mut (with_hidden_prefix (prefix + 1)));; bump_key_epoch)
  else
    h ← is_hidden k;
    when (negb h) (put (extra_mut (add_mark Hidden k));; bump_key_epoch).

(** [x.remove_mark(m, k)] on the out-of-line part, if there is one. *)
Definition extra_remove_mark (m : Mark) (k : key) : method unit :=
  o ← me;
  match o_extra o with
  | Some x => x' ← unwrap (remove_mark m k x); put (with_extra (Some x'))
  | None => mret tt
  end.

Definition clear_hidden (k : key) : method unit :=
  h ← is_hidden k;
  when h bump_key_epoch;;
  materialize_implied_attrs;;
  p ← prefix_hidden k;
  when p write_out_hidden_prefix;;
  extra_remove_mark Hidden k.

Definition set_readonly (k : key) : method unit :=
  r ← is_readonly k;
  when (negb r)
    (global_attrs_changed;;
     o ← me;
     when (negb (has_flag JIT_FLAG_READONLY o)) layout_changed;;
     put (fun o => with_flags (Z.lor (o_flags o) JIT_FLAG_READONLY) o);;
     put (extra_mut (add_mark Readonly k))).

Definition clear_readonly (k : key) : method unit :=
  materialize_implied_attrs;; extra_remove_mark Readonly k.

Definition set_non_configurable (k : key) : method unit :=
  n ← is_non_configurable k; when (negb n) (put (extra_mut (add_mark NonConfigurable k))).

Definition clear_non_configurable (k : key) : method unit :=
  materialize_implied_attrs;; extra_remove_mark NonConfigurable k.

Definition non_configurable_is_empty : method bool :=
  o ← me;
  and_then (bool_decide (x_non_configurable (ex o) = []))
    (a ← implied_attrs; s ← my_shape;
     b ← and_then (a && has_implied_ctor_attrs s) (shape_contains (bytes "prototype"));
     mret (negb b)).

Definition marked_keys (o : Object) : list key :=
  x_readonly (ex o) ++ x_hidden (ex o) ++ x_non_configurable (ex o).

Definition enumerable_keys : method (list key) :=
  all ← enum_base;
  base ← filter_prog (fun k => h ← is_hidden k; mret (negb h)) all;
  mret (order_keys base).

(** *** The methods of the property protocol *)

Definition set (k : key) (v : NanBox) : method unit :=
  o ← me;
  guard ← (if is_private_key k then mret false else or_else (is_frozen o) (is_readonly k));
  if guard : bool then mret tt
  else
    w ← write_existing k v;
    if w : bool then mret tt
    else o ← me; when (is_extensible o) (add_new k v;; track_key k).

Definition force_set (k : key) (v : NanBox) : method unit :=
  w ← write_existing k v;
  if w : bool then mret tt else add_new k v;; track_key k.

Definition maybe_convert_to_dict (k : key) (threshold : Z) : method unit :=
  o ← me;
  s ← my_shape;
  if negb (is_dict o) && (threshold <=? slen s) && is_extensible o && negb (is_frozen o) then
    r ← is_readonly k;
    if r : bool then mret tt
    else l ← shape_lookup k; when (bool_decide (l = None)) convert_to_dict
  else mret tt.

Definition define_accessor (k : key) (getter setter : NanBox) : method unit :=
  global_attrs_changed;;
  materialize_implied_attrs;;
  ensure_key_order;;
  o ← me;
  (match acc_pos k (ex o) with
   | Some i =>
       a ← unwrap (x_accessors (ex o) !! i);
       let g := match unpack getter with Undefined => snd (fst a) | _ => getter end in
       let s := match unpack setter with Undefined => snd a | _ => setter end in
       put (extra_mut (fun x => with_accessors (<[i := (acc_name a, g, s)]> (x_accessors x)) x))
   | None => put (extra_mut (add_acc k getter setter))
   end);;
  track_key k.

Definition clear_accessor (k : key) : method unit :=
  bump_key_epoch;; put (extra_as_mut (fun x => snd (remove_acc k x))).

(** The transitions of [rebuild_without]. *)
Fixpoint grow_all (i : nat) (ks : list key) (st : Shapes) : nat * Shapes :=
  match ks with
  | [] => (i, st)
  | k :: ks => let (i, st) := transition i k st in grow_all i ks st
  end.

Definition rebuild_without (r : nat) (k : key) : method unit :=
  ks ← shape_keys;
  kept ← map_prog key_slot (List.filter (fun k' => negb (bool_decide (k' = k))) ks);
  i ← on_shapes (grow_all r (fst <$> kept));
  put (with_shape i);;
  set_slots (snd <$> kept);;
  tidy_extra.

(** [d.map.remove(k)] and the tombstone at its position. *)
Definition dict_remove (k : key) : method bool :=
  o ← me;
  let d := dict o in
  match d_map d !! k with
  | None => put (dict_mut (fun d => d));; mret false
  | Some s =>
      _ ← unwrap (d_order d !! d_pos s);
      put (dict_mut (fun d => MkDict (<[d_pos s := None]> (d_order d)) (base.delete k (d_map d))));;
      mret true
  end.

Definition delete (r : nat) (k : key) : method bool :=
  materialize_implied_attrs;;
  write_out_hidden_prefix;;
  bump_key_epoch;;
  o ← me;
  let had_accessor := match o_extra o with Some x => fst (remove_acc k x) | None => false end in
  put (extra_as_mut (fun x => snd (remove_acc k x)));;
  extra_remove_mark Hidden k;;
  extra_remove_mark Readonly k;;
  extra_remove_mark NonConfigurable k;;
  put (extra_as_mut (order_remove k));;
  o ← me;
  if is_dict o then
    removed ← dict_remove k;
    if removed : bool then compact_order;; mret true else mret had_accessor
  else
    b ← shape_contains k;
    if b : bool then rebuild_without r k;; mret true else mret had_accessor.

Definition delete_data (r : nat) (k : key) : method unit :=
  materialize_implied_attrs;;
  write_out_hidden_prefix;;
  bump_key_epoch;;
  o ← me;
  if is_dict o then _ ← dict_remove k; mret tt
  else b ← shape_contains k; when b (rebuild_without r k).

(** *** Inline caches *)

(** [cache.lookup(&self.shape, key)], with the cache as an argument. *)
Definition cache_lookup (k : key) (c : PropertyCache) : method (option Z * PropertyCache) :=
  o ← me; on_shapes (fun st => let '(r, c, st) := ic_lookup (o_shape o) k c st in ((r, c), st)).

Definition cached_get (k : key) (c : PropertyCache) : method (option NanBox * PropertyCache) :=
  o ← me;
  if is_dict o then mret (d_value <$> d_map (dict o) !! k, c)
  else
    rc ← cache_lookup k c;
    match fst rc with
    | Some slot => o ← me; mret (slot_get slot o, snd rc)
    | None => mret (None, snd rc)
    end.

Definition cached_set (k : key) (v : NanBox) (c : PropertyCache) : method (bool * PropertyCache) :=
  o ← me;
  guard ← (if is_private_key k then mret false else or_else (is_frozen o) (is_readonly k));
  if guard : bool then mret (false, c)
  else if is_dict o then mret (false, c)
  else
    rc ← cache_lookup k c;
    match fst rc with
    | Some slot => b ← set_slot slot v; mret (b, snd rc)
    | None => mret (false, snd rc)
    end.

Definition is_plain_data_slot_or_absent (k : key) : method bool :=
  o ← me;
  if has_flag (Z.lor (Z.lor OBJ_FLAG_FROZEN OBJ_FLAG_SEALED) OBJ_FLAG_NON_EXTENSIBLE) o
     || bool_decide (head k = Some 0) then mret false
  else
    m ← implied_mark k;
    if m : bool then mret false
    else
      match o_extra o with
      | None => mret true
      | Some x =>
          r ← (if bool_decide (x_readonly x = []) then mret true else b ← is_readonly k; mret (negb b));
          r ← and_then (r && (bool_decide (x_accessors x = []) || bool_decide (accessor k o = None)))
                (if bool_decide (x_hidden x = []) && (x_hidden_prefix x =? 0) then mret true
                 else b ← is_hidden k; mret (negb b));
          and_then r
            (if bool_decide (x_non_configurable x = []) then mret true else b ← is_non_configurable k; mret (negb b))
      end.

Definition jit_add_ok (o : Object) : bool :=
  negb (has_flag (Z.lor (Z.lor OBJ_FLAG_FROZEN OBJ_FLAG_SEALED) OBJ_FLAG_NON_EXTENSIBLE) o)
  && match o_extra o with
     | Some x => bool_decide (x_accessors x = []) && bool_decide (x_key_order x = None)
     | None => true
     end.

Definition jit_adopt_child (to : nat) (v : NanBox) : method bool :=
  o ← me;
  s ← my_shape;
  p ← gets (fun s => parent (shape_at (shapes s) to));
  if is_dict o || negb (bool_decide (p = Some (o_shape o))) || negb (o_len o =? slen s) || (MAX_SHAPED_LEN <=? o_len o)
  then mret false
  else put (with_shape to);; slot_push v;; bump_key_epoch;; mret true.

Definition init_data_cached (k : key) (v : NanBox) (c : PropertyCache) (dict_threshold : Z) : method (bool * PropertyCache) :=
  plain ← is_plain_data_slot_or_absent k;
  if negb plain then mret (false, c)
  else
    o ← me;
    s ← my_shape;
    hit ← (if negb (is_dict o) && (slen s <? Z.min dict_threshold MAX_SHAPED_LEN)
              && match o_extra o with Some x => bool_decide (x_key_order x = None) | None => true end
           then gets (fun s => transition_from (o_shape o) c (shapes s))
           else mret (None, c));
    let c := snd hit in
    match fst hit with
    | Some to => put (with_shape to);; slot_push v;; bump_key_epoch;; mret (true, c)
    | None =>
        maybe_convert_to_dict k dict_threshold;;
        o ← me;
        let before := if is_dict o then None else Some (o_shape o) in
        set k v;;
        o ← me;
        p ← gets (fun s => parent (shape_at (shapes s) (o_shape o)));
        c ← gets (fun s =>
              if bool_decide (is_Some before) && negb (is_dict o) && bool_decide (p = before)
              then arm_transition (o_shape o) (shapes s) c else c);
        mret (true, c)
    end.

(** *** Making objects *)

Definition new_object (r : nat) : Object :=
  MkObject Shaped 0 0 0 r NO_PROTO None (replicate (Z.to_nat INLINE_SLOTS) undefined).

Definition spill_part (rest : list NanBox) : option ObjectExtra :=
  match rest with
  | [] => None
  | _ =>
      let n := Z.to_nat SPILL_NEAR in
      Some (with_spill (MkSpill (take n rest ++ replicate (n - length rest) undefined) (drop n rest)
                          (as_u32 (Z.of_nat (length rest)))) EMPTY_EXTRA)
  end.

(** The loop over the bits of [pending], the slots the layout still has as
    number-only. *)
Fixpoint note_pending (fuel : nat) (i : Z) (pending : Z) (shape : nat) (vs : list NanBox) (st : Shapes) : Shapes :=
  match fuel, vs with
  | S fuel, v :: vs =>
      let st := if Z.testbit pending i && negb (is_number v) then note_non_number shape i st else st in
      note_pending fuel (i + 1) pending shape vs st
  | _, _ => st
  end.

Definition inline_of (vs : list NanBox) : list NanBox :=
  let n := Z.to_nat INLINE_SLOTS in take n vs ++ replicate (n - length vs) undefined.

Definition with_data (shape : nat) (vs : list NanBox) (st : Shapes) : option Object * Shapes :=
  let n := Z.of_nat (length vs) in
  if (MAX_SHAPED_LEN <? n) || negb (slen (shape_at st shape) =? n) then (None, st)
  else
    let st := note_pending 64 0 (number_only_slots (shape_at st shape)) shape vs st in
    (Some (MkObject Shaped 0 (as_u16 n) (as_u32 n) shape NO_PROTO
             (spill_part (drop (Z.to_nat INLINE_SLOTS) vs)) (inline_of vs)), st).

Definition with_data_hidden_prefix (shape : nat) (vs : list NanBox) (hidden : Z) (st : Shapes) : option Object * Shapes :=
  if Z.of_nat (length vs) <? hidden then (None, st)
  else
    let (o, st) := with_data shape vs st in
    ((fun o => if hidden =? 0 then o else extra_mut (with_hidden_prefix hidden) o) <$> o, st).

Definition builtin_fn_props (shape : nat) (len name : NanBox) (st : Shapes) : option Object * Shapes :=
  let (o, st) := with_data shape [len; name] st in
  ((fun o => with_flags (Z.lor (o_flags o) JIT_FLAG_READONLY) o) <$> o, st).

Definition with_implied_ctor_attrs (shape : nat) (vs : list NanBox) (p : option Heap.Handle) (st : Shapes)
  : option Object * Shapes :=
  let n := Z.of_nat (length vs) in
  if negb (slen (shape_at st shape) =? n) then (None, st)
  else
    let st := note_pending 64 0 (number_only_slots (shape_at st shape)) shape vs st in
    (Some (MkObject Shaped 0 (as_u16 n) (as_u32 n) shape (proto_word p) None (inline_of vs)), st).

(** *** Views the collector and the caches use *)

Definition is_plain_shaped (o : Object) (st : Shapes) : bool :=
  let s := shape_at st (o_shape o) in
  negb (is_dict o) && match o_extra o with Some x => only_spill x | None => true end
  && (o_flags o =? 0) && negb (has_implied_attrs s) && (slen s =? o_len o).

Definition is_plain_fresh_data (o : Object) (st : Shapes) : bool :=
  is_plain_shaped o st && (o_key_epoch o =? o_len o).

Definition keys_follow_shape (o : Object) (st : Shapes) : bool :=
  negb (is_dict o)
  && match o_extra o with
     | Some x => bool_decide (x_accessors x = []) && bool_decide (x_hidden x = []) && (x_hidden_prefix x =? 0)
                 && bool_decide (x_key_order x = None)
     | None => true
     end
  && negb (has_implied_attrs (shape_at st (o_shape o))).

Definition is_prim_wrapper (o : Object) (st : Shapes) : bool :=
  if is_dict o then bool_decide (is_Some (d_map (dict o) !! PRIM_WRAP_KEY))
  else is_wrapper (shape_at st (o_shape o)).

Definition has_brand_key (k : key) (o : Object) (st : Shapes) : bool :=
  if is_dict o then bool_decide (is_Some (d_map (dict o) !! k))
  else has_brand (brand_bit k) (shape_at st (o_shape o)).

Definition may_have_symbol_keys (o : Object) (st : Shapes) : bool :=
  bool_decide (is_Some (o_extra o)) || has_symbol_keys (shape_at st (o_shape o)).

(** [for (k, _) in range { if !k.starts_with(SYM) { break } f(k) }]. *)
Fixpoint take_symbols (l : list key) : list key :=
  match l with
  | [] => []
  | k :: l => if starts_with k SYMBOL_KEY_PREFIX then k :: take_symbols l else []
  end.

(** The keys [for_each_symbol_key] passes to its callback. *)
Definition symbol_keys (o : Object) (st : Shapes) : list key :=
  if negb (may_have_symbol_keys o st) then []
  else
    (if is_dict o then take_symbols (fst <$> btree_range (d_map (dict o)) SYMBOL_KEY_PREFIX)
     else if has_symbol_keys (shape_at st (o_shape o)) then
       List.filter (fun k => starts_with k SYMBOL_KEY_PREFIX) (keys_unordered (o_shape o) st)
     else [])
    ++ List.filter (fun k => starts_with k SYMBOL_KEY_PREFIX) (accessor_keys o).

Definition handle_of (v : NanBox) : list Heap.Handle := option_list (Heap.from_raw <$> as_handle v).

Definition trace_handles (o : Object) : list Heap.Handle :=
  (slots_iter o ≫= handle_of)
  ++ match o_extra o with
     | Some x =>
         (match x_dict x with Some d => (d_value <$> btree_values (d_map d)) ≫= handle_of | None => [] end)
         ++ (x_accessors x ≫= fun a => handle_of (snd (fst a)) ++ handle_of (snd a))
     | None => []
     end
  ++ option_list (proto o).

Definition forward_value (f : Heap.Handle -> Heap.Handle) (v : NanBox) : NanBox :=
  match as_handle v with Some raw => handle (Heap.to_raw (f (Heap.from_raw raw))) | None => v end.

Definition relocate_handles (f : Heap.Handle -> Heap.Handle) : method unit :=
  let fwd := forward_value f in
  o ← me;
  let n := Z.to_nat (Z.min (o_len o) INLINE_SLOTS) in
  put (with_inline ((fwd <$> take n (o_inline o)) ++ drop n (o_inline o)));;
  put (extra_as_mut (fun x =>
    let x := with_spill (spill_map fwd (x_spill x)) x in
    let x := with_dict ((fun d => MkDict (d_order d) ((fun s => MkDictSlot (fwd (d_value s)) (d_pos s)) <$> d_map d)) <$> x_dict x) x in
    with_accessors ((fun a => (acc_name a, fwd (snd (fst a)), fwd (snd a))) <$> x_accessors x) x));;
  match proto o with Some p => set_proto (Some (f p)) | None => mret tt end.
