(* ===== verification/ObjectAttr.v ===== *)
(** * The attribute lists of an object and their index

    [AttrIndex] mirrors the mark lists, the accessors and the key-order log once
    one of them is long.  [attrs_ok] is that invariant; under it every query
    answers what a search of the lists would, and every update keeps it. *)

From S2P Require Import Prelude Prog NanBox Shape ShapeTable Object.

#[local] Abbreviation length := Datatypes.length.
Open Scope Z_scope.

#[global] Instance mark_eq_dec : EqDecision Mark.
Proof. solve_decision. Defined.

(** One more than a key's position, [0] for none. *)
Definition pos_of (l : list key) (k : key) : Z := match slot_of l k with Some s => s + 1 | None => 0 end.

Record mirror (x : ObjectExtra) (ix : AttrIndex) : Prop := {
  mi_marks : forall m k, at_mark m (default EMPTY_ATTR (ix !! k)) = pos_of (marks m x) k;
  mi_acc : forall k, at_acc (default EMPTY_ATTR (ix !! k)) = pos_of (acc_name <$> x_accessors x) k;
  mi_ordered : forall k, at_ordered (default EMPTY_ATTR (ix !! k)) = bool_decide (k ∈ default [] (x_key_order x)) }.

Record attrs_ok (x : ObjectExtra) : Prop := {
  ao_marks : forall m, NoDup (marks m x);
  ao_acc : NoDup (acc_name <$> x_accessors x);
  ao_order : NoDup (default [] (x_key_order x));
  ao_index : forall ix, x_index x = Some ix -> mirror x ix }.

(** Room for another entry in every list. *)
Definition roomy (x : ObjectExtra) : Prop :=
  (forall m, Z.of_nat (length (marks m x)) < 2 ^ 32 - 1) /\ Z.of_nat (length (x_accessors x)) < 2 ^ 32 - 1.

Lemma empty_attrs_ok : attrs_ok EMPTY_EXTRA.
Proof. split; try done; [intros []|..]; constructor. Qed.

Lemma existsb_key k l : existsb (fun k' => bool_decide (k' = k)) l = bool_decide (k ∈ (l : list key)).
Proof.
  induction l as [|k' l IH]; simpl; [done|]. rewrite IH. destruct (decide (k' = k)) as [->|Hne].
  - rewrite (bool_decide_true (k = k)) by done. symmetry. apply bool_decide_eq_true. by left.
  - rewrite (bool_decide_false (k' = k)) by done. simpl. apply bool_decide_ext. rewrite elem_of_cons. naive_solver.
Qed.

Lemma pos_of_zero l k : pos_of l k = 0 <-> k ∉ l.
Proof.
  unfold pos_of. destruct (slot_of l k) as [s|] eqn:E.
  - pose proof (slot_of_bound _ _ _ E). split; [lia|]. intros Hn. by rewrite (proj2 (slot_of_None l k) Hn) in E.
  - by apply slot_of_None in E.
Qed.

Lemma pos_of_snoc l k k' : k ∉ l -> pos_of (l ++ [k]) k' = if decide (k' = k) then Z.of_nat (length l) + 1 else pos_of l k'.
Proof.
  intros H. unfold pos_of. case_decide as E; [subst; by rewrite slot_of_snoc_new|by rewrite slot_of_snoc_other].
Qed.

Lemma pos_of_lookup l k i : NoDup l -> l !! i = Some k -> pos_of l k = Z.of_nat i + 1.
Proof.
  intros Hnd H. unfold pos_of. rewrite (proj2 (slot_of_Some l k (Z.of_nat i) Hnd)); [done|]. rewrite Nat2Z.id. split; [lia|done].
Qed.

Lemma pos_of_pos l k n : NoDup l -> pos_of l k = n -> n <> 0 -> l !! Z.to_nat (n - 1) = Some k /\ 0 < n.
Proof.
  intros Hnd H Hn. unfold pos_of in H. destruct (slot_of l k) as [s|] eqn:E; [|lia].
  apply slot_of_Some in E as [Hs E]; [|done]. subst n. replace (s + 1 - 1) with s by lia. split; [done|lia].
Qed.

Lemma at_mark_with m m' n e : at_mark m (with_at_mark m' n e) = if decide (m = m') then n else at_mark m e.
Proof. by destruct m, m'. Qed.

Lemma marks_with m m' l x : marks m (with_marks m' l x) = if decide (m = m') then l else marks m x.
Proof. by destruct m, m'. Qed.

(** ** Building the index *)

Lemma index_list_other {G} (g : AttrEntry -> G) f l : (forall i e, g (f i e) = g e) -> forall i ix k,
  g (default EMPTY_ATTR (index_list f i l ix !! k)) = g (default EMPTY_ATTR (ix !! k)).
Proof.
  intros Hf. induction l as [|k' l IH]; intros i ix k; simpl; [done|]. rewrite IH. unfold entry.
  destruct (decide (k' = k)) as [->|Hne]; [rewrite lookup_insert_eq; apply Hf|by rewrite lookup_insert_ne].
Qed.

Lemma index_list_set {G} (g : AttrEntry -> G) f h l : (forall i e, g (f i e) = h i) -> NoDup l -> forall i ix k,
  g (default EMPTY_ATTR (index_list f i l ix !! k)) =
  match slot_of l k with Some s => h (i + s) | None => g (default EMPTY_ATTR (ix !! k)) end.
Proof.
  intros Hf. induction l as [|k' l IH]; intros Hnd i ix k; simpl; [done|].
  apply NoDup_cons in Hnd as [Hnin Hnd]. rewrite IH by done. unfold entry, slot_of. simpl.
  destruct (decide (k' = k)) as [->|Hne].
  - rewrite (proj2 (list_find_None (fun k' => k' = k) l)).
    + simpl. rewrite lookup_insert_eq. simpl. rewrite Hf. f_equal. lia.
    + apply Forall_forall. intros y Hy ->. done.
  - rewrite lookup_insert_ne by done. unfold slot_of.
    destruct (list_find _ l) as [[j y]|]; simpl; [|done]. f_equal. lia.
Qed.

Lemma empty_attr k : default EMPTY_ATTR ((∅ : AttrIndex) !! k) = EMPTY_ATTR.
Proof. by rewrite lookup_empty. Qed.

Lemma build_index_fields x : x_spill (build_index x) = x_spill x /\ x_dict (build_index x) = x_dict x /\
  x_accessors (build_index x) = x_accessors x /\ x_class_tag (build_index x) = x_class_tag x /\
  x_hidden_prefix (build_index x) = x_hidden_prefix x /\ x_key_order (build_index x) = x_key_order x /\
  forall m, marks m (build_index x) = marks m x.
Proof. split_and!; done. Qed.

Lemma index_positions l i s : slot_of l i = Some s -> Z.of_nat (length l) < 2 ^ 32 -> as_u32 (0 + s) + 1 = s + 1.
Proof. intros H Hl. pose proof (slot_of_bound _ _ _ H). rewrite as_u32_small; lia. Qed.

Lemma build_index_ok x : (forall m, NoDup (marks m x)) -> NoDup (acc_name <$> x_accessors x) ->
  NoDup (default [] (x_key_order x)) -> (forall m, Z.of_nat (length (marks m x)) < 2 ^ 32) ->
  Z.of_nat (length (x_accessors x)) < 2 ^ 32 -> attrs_ok (build_index x).
Proof.
  intros Hm Ha Ho Lm La. split; [intros m; destruct m; [apply (Hm Readonly)|apply (Hm Hidden)|apply (Hm NonConfigurable)]|done|done|]. intros ix [= <-].
  pose proof (Hm Readonly) as Hr. pose proof (Hm Hidden) as Hh. pose proof (Hm NonConfigurable) as Hn. simpl in Hr, Hh, Hn.
  pose proof (Lm Readonly) as Lr. pose proof (Lm Hidden) as Lh. pose proof (Lm NonConfigurable) as Ln. simpl in Lr, Lh, Ln.
  split.
  - intros m k.
    rewrite (index_list_other (at_mark m)) by (by destruct m). rewrite (index_list_other (at_mark m)) by (by destruct m).
    unfold pos_of. destruct m; simpl.
    + rewrite !(index_list_other (at_mark Readonly)) by done.
      rewrite (index_list_set (at_mark Readonly) _ (fun i => as_u32 i + 1)), empty_attr by done.
      destruct (slot_of (x_readonly x) k) eqn:E; [by eapply index_positions|done].
    + rewrite (index_list_other (at_mark Hidden)) by done.
      rewrite (index_list_set (at_mark Hidden) _ (fun i => as_u32 i + 1)) by done.
      rewrite (index_list_other (at_mark Hidden)), empty_attr by done.
      destruct (slot_of (x_hidden x) k) eqn:E; [by eapply index_positions|done].
    + rewrite (index_list_set (at_mark NonConfigurable) _ (fun i => as_u32 i + 1)) by done.
      rewrite !(index_list_other (at_mark NonConfigurable)), empty_attr by done.
      destruct (slot_of (x_non_configurable x) k) eqn:E; [by eapply index_positions|done].
  - intros k. rewrite (index_list_other at_acc) by done.
    rewrite (index_list_set at_acc _ (fun i => as_u32 i + 1)) by done. rewrite !(index_list_other at_acc), empty_attr by done.
    unfold pos_of. simpl. destruct (slot_of (acc_name <$> x_accessors x) k) eqn:E; [|done].
    eapply index_positions; [done|]. by rewrite length_fmap.
  - intros k. rewrite (index_list_set at_ordered _ (fun _ => true)) by done. rewrite !(index_list_other at_ordered), empty_attr by done.
    simpl. destruct (slot_of (default [] (x_key_order x)) k) eqn:E.
    + symmetry. apply bool_decide_eq_true. apply slot_of_is_Some. by eexists.
    + symmetry. apply bool_decide_eq_false. by apply slot_of_None.
Qed.

(** ** Marks *)

Lemma has_mark_spec x m k : attrs_ok x -> has_mark m k x = bool_decide (k ∈ marks m x).
Proof.
  intros Hok. unfold has_mark. rewrite existsb_key. destruct (x_index x) as [ix|] eqn:Ex; [|done]. case_bools; [|done].
  pose proof (mi_marks _ _ (ao_index _ Hok ix Ex) m k) as H. destruct (ix !! k) as [e|]; simpl in H.
  - rewrite H. destruct (decide (k ∈ marks m x)) as [Hin|Hnin].
    + rewrite bool_decide_true by done. apply negb_true_iff, Z.eqb_neq. rewrite pos_of_zero. naive_solver.
    + rewrite bool_decide_false by done. apply negb_false_iff, Z.eqb_eq. by apply pos_of_zero.
  - symmetry. apply bool_decide_eq_false. apply pos_of_zero. rewrite <- H. by destruct m.
Qed.

(** The fields a change of marks leaves. *)
Record same_but_marks (x x' : ObjectExtra) : Prop := {
  sm_spill : x_spill x' = x_spill x; sm_dict : x_dict x' = x_dict x; sm_acc : x_accessors x' = x_accessors x;
  sm_class : x_class_tag x' = x_class_tag x; sm_prefix : x_hidden_prefix x' = x_hidden_prefix x;
  sm_order : x_key_order x' = x_key_order x }.

Lemma mirror_entry x ix k f : mirror x ix -> forall k', default EMPTY_ATTR (entry f k ix !! k') =
  if decide (k = k') then f (default EMPTY_ATTR (ix !! k')) else default EMPTY_ATTR (ix !! k').
Proof.
  intros _ k'. unfold entry. case_decide as E; [subst; by rewrite lookup_insert_eq|by rewrite lookup_insert_ne].
Qed.

Lemma NoDup_snoc {A} (l : list A) x : NoDup l -> x ∉ l -> NoDup (l ++ [x]).
Proof.
  intros H1 H2. apply NoDup_app. split_and!; [done| |apply NoDup_singleton]. by intros y Hy ->%list_elem_of_singleton.
Qed.

Lemma add_mark_ok x m k : attrs_ok x -> roomy x -> k ∉ marks m x ->
  attrs_ok (add_mark m k x) /\ marks m (add_mark m k x) = marks m x ++ [k] /\
  (forall m', m' <> m -> marks m' (add_mark m k x) = marks m' x) /\ same_but_marks x (add_mark m k x).
Proof.
  intros Hok [Hrm Hra] Hk. unfold add_mark. set (x1 := with_marks m (marks m x ++ [k]) x).
  assert (Hmk : marks m x1 = marks m x ++ [k]) by (unfold x1; by rewrite marks_with, decide_True).
  assert (Hmo : forall m', m' <> m -> marks m' x1 = marks m' x) by (intros; unfold x1; by rewrite marks_with, decide_False).
  assert (Hx1 : same_but_marks x x1) by (unfold x1; by destruct m).
  assert (Hnd : forall m', NoDup (marks m' x1)).
  { intros m'. destruct (decide (m' = m)) as [->|Hne]; [rewrite Hmk; apply NoDup_snoc; [apply Hok|done]|].
    rewrite Hmo by done. apply Hok. }
  assert (Hix : x_index x1 = x_index x) by (unfold x1; by destruct m).
  rewrite Hix, Hmk, length_app. cbn [length]. pose proof (Hrm m) as Hl.
  rewrite as_u32_small by lia. destruct (x_index x) as [ix|] eqn:Ex.
  - pose proof (ao_index _ Hok ix Ex) as Hmi. split_and!.
    + split; cbn.
      * intros m'. replace (marks m' (with_attr_index _ x1)) with (marks m' x1) by (by destruct m'). apply Hnd.
      * rewrite (sm_acc _ _ Hx1). apply Hok.
      * rewrite (sm_order _ _ Hx1). apply Hok.
      * intros ix' [= <-]. split; intros; rewrite (mirror_entry x) by done.
        -- replace (marks m0 (with_attr_index _ x1)) with (marks m0 x1) by (by destruct m0).
           destruct (decide (m0 = m)) as [->|Hne].
           ++ rewrite Hmk, pos_of_snoc by done. case_decide as E; [subst; rewrite decide_True by done|rewrite decide_False by congruence].
              ** rewrite at_mark_with, decide_True by done. lia.
              ** apply Hmi.
           ++ rewrite Hmo by done. case_decide; [|apply Hmi]. rewrite at_mark_with, decide_False by done. apply Hmi.
        -- cbn. rewrite (sm_acc _ _ Hx1). case_decide; [|apply Hmi]. rewrite <- (mi_acc _ _ Hmi). by destruct m.
        -- cbn. rewrite (sm_order _ _ Hx1). case_decide; [|apply Hmi]. rewrite <- (mi_ordered _ _ Hmi). by destruct m.
    + replace (marks m (with_attr_index _ x1)) with (marks m x1) by (by destruct m). done.
    + intros m' Hne. replace (marks m' (with_attr_index _ x1)) with (marks m' x1) by (by destruct m'). auto.
    + by destruct Hx1.
  - case_bools.
    + destruct (build_index_fields x1) as (F1 & F2 & F3 & F4 & F5 & F6 & F7). split_and!.
      * apply build_index_ok; [done|rewrite (sm_acc _ _ Hx1); apply Hok|rewrite (sm_order _ _ Hx1); apply Hok| |rewrite (sm_acc _ _ Hx1); lia].
        intros m'. destruct (decide (m' = m)) as [->|Hne]; [rewrite Hmk, length_app; simpl; lia|].
        rewrite Hmo by done. pose proof (Hrm m'). lia.
      * by rewrite F7.
      * intros m' Hne. rewrite F7. auto.
      * destruct Hx1. split; congruence.
    + split_and!; [|done|done|done]. split; [done|rewrite (sm_acc _ _ Hx1); apply Hok|rewrite (sm_order _ _ Hx1); apply Hok|congruence].
Qed.

(** ** Removing *)

Lemma swap_remove_spec (l : list key) i k : NoDup l -> l !! i = Some k -> exists l', swap_remove i l = Some l' /\
  NoDup l' /\ (forall k', k' ∈ l' <-> k' <> k /\ k' ∈ l) /\
  forall k', k' <> k -> pos_of l' k' = if decide (l' !! i = Some k') then Z.of_nat i + 1 else pos_of l k'.
Proof.
  intros Hnd Hi. destruct (exists_last (l := l)) as (init & y & ->); [by destruct l|].
  assert (Hsw : swap_remove i (init ++ [y]) = Some (<[i := y]> init)).
  { unfold swap_remove. rewrite Hi, last_snoc. f_equal. destruct (decide (i < length init)%nat) as [Hlt|Hge].
    - rewrite insert_app_l by done. apply removelast_last.
    - apply lookup_lt_Some in Hi as Hlt. rewrite length_app in Hlt. simpl in Hlt. assert (i = length init) as -> by lia.
      rewrite insert_app_r_alt by lia. rewrite Nat.sub_diag. simpl. rewrite removelast_last, list_insert_ge by lia. done. }
  exists (<[i := y]> init). split; [done|]. apply NoDup_app in Hnd as Hnd'. destruct Hnd' as (Hni & Hy & _).
  assert (Hyi : y ∉ init) by (intros Hin; apply (Hy y Hin); by left).
  (* the elements of the result, by position *)
  assert (Hat : forall j k', <[i := y]> init !! j = Some k' <-> (j < length init)%nat /\ (if decide (j = i) then k' = y else init !! j = Some k')).
  { intros j k'. case_decide as E.
    - subst j. rewrite list_lookup_insert_Some. split; [intros [(_ & <- & ?)|[? _]]; [done|lia]|]. intros [? ->]. left. done.
    - rewrite list_lookup_insert_ne by done. split; [intros H; split; [by eapply lookup_lt_Some|done]|by intros []]. }
  assert (Hinit : forall j k', init !! j = Some k' -> (init ++ [y]) !! j = Some k').
  { intros j k' H. by apply lookup_app_l_Some. }
  assert (Hki : forall j, init !! j = Some k -> j = i).
  { intros j H. by apply (NoDup_lookup (init ++ [y]) j i k Hnd); [apply Hinit|]. }
  assert (Hnd' : NoDup (<[i := y]> init)).
  { apply NoDup_alt. intros j1 j2 k' H1 H2. apply Hat in H1 as [L1 H1]. apply Hat in H2 as [L2 H2].
    destruct (decide (j1 = i)), (decide (j2 = i)); subst; try done.
    - destruct Hyi. by eapply list_elem_of_lookup_2.
    - destruct Hyi. by eapply list_elem_of_lookup_2.
    - by eapply (NoDup_lookup init). }
  assert (Hky : (i < length init)%nat -> k <> y).
  { intros Hlt ->. rewrite lookup_app_l in Hi by done. apply Hyi. by eapply list_elem_of_lookup_2. }
  assert (Hlast : ~ (i < length init)%nat -> k = y).
  { intros Hge. apply lookup_lt_Some in Hi as Hlt. rewrite length_app in Hlt. simpl in Hlt.
    rewrite lookup_app_r in Hi by lia. replace (i - length init)%nat with 0%nat in Hi by lia. by injection Hi. }
  split_and!; [done| |].
  - intros k'. split.
    + intros (j & Hj)%list_elem_of_lookup. apply Hat in Hj as [Lj Hj]. case_decide as E.
      * subst. split; [by intros <-; apply Hky|]. apply elem_of_app. right. by left.
      * split; [|apply elem_of_app; left; by eapply list_elem_of_lookup_2]. intros ->. apply E. by apply Hki.
    + intros [Hne Hin]. apply elem_of_app in Hin as [Hin| ->%list_elem_of_singleton].
      * apply list_elem_of_lookup in Hin as [j Hj]. apply list_elem_of_lookup. exists j. apply Hat.
        split; [by eapply lookup_lt_Some|]. rewrite decide_False; [done|]. intros ->. apply Hinit in Hj. congruence.
      * apply list_elem_of_lookup. exists i. apply Hat. destruct (decide (i < length init)%nat) as [Hlt|Hge]; [by rewrite decide_True|].
        by destruct Hne; symmetry; apply Hlast.
  - intros k' Hne. case_decide as E.
    + by apply pos_of_lookup.
    + destruct (decide (k' ∈ <[i := y]> init)) as [Hin|Hnin].
      * apply list_elem_of_lookup in Hin as [j Hj]. rewrite (pos_of_lookup _ k' j Hnd' Hj).
        apply Hat in Hj as Hj'. destruct Hj' as [Lj Hj']. case_decide as Eji; [subst; by rewrite Hj in E|].
        symmetry. apply pos_of_lookup; [done|auto].
      * rewrite (proj2 (pos_of_zero _ _) Hnin). symmetry. apply pos_of_zero. intros Hin. apply Hnin.
        apply elem_of_app in Hin as [Hin| ->%list_elem_of_singleton].
        -- apply list_elem_of_lookup in Hin as [j Hj]. apply list_elem_of_lookup. exists j. apply Hat.
           split; [by eapply lookup_lt_Some|]. rewrite decide_False; [done|]. intros ->. apply Hinit in Hj. congruence.
        -- apply list_elem_of_lookup. exists i. apply Hat. destruct (decide (i < length init)%nat) as [Hlt|Hge]; [by rewrite decide_True|].
           by destruct Hne; symmetry; apply Hlast.
Qed.

Lemma filter_ne_elem (l : list key) k k' :
  k' ∈ List.filter (fun x => negb (bool_decide (x = k))) l <-> k' <> k /\ k' ∈ l.
Proof.
  rewrite !list_elem_of_In, List.filter_In, negb_true_iff, bool_decide_eq_false. tauto.
Qed.

Lemma filter_NoDup {A} (f : A -> bool) l : NoDup l -> NoDup (List.filter f l).
Proof.
  induction 1 as [|x l Hx _ IH]; simpl; [constructor|]. destruct (f x); [|done]. apply NoDup_cons. split; [|done].
  rewrite list_elem_of_In, List.filter_In, <- list_elem_of_In. tauto.
Qed.

Lemma filter_length {A} (f : A -> bool) l : (length (List.filter f l) <= length l)%nat.
Proof. induction l as [|x l IH]; simpl; [done|]. destruct (f x); simpl; lia. Qed.

Lemma with_attr_index_marks ix x m : marks m (with_attr_index ix x) = marks m x.
Proof. by destruct m. Qed.

Record removed_mark (m : Mark) (k : key) (x x' : ObjectExtra) : Prop := {
  rm_ok : attrs_ok x';
  rm_elem : forall k', k' ∈ marks m x' <-> k' <> k /\ k' ∈ marks m x;
  rm_other : forall m', m' <> m -> marks m' x' = marks m' x;
  rm_same : same_but_marks x x';
  rm_index : x_index x' = None <-> x_index x = None;
  rm_len : (length (marks m x') <= length (marks m x))%nat }.

Lemma remove_mark_spec x m k : attrs_ok x -> exists x', remove_mark m k x = Some x' /\ removed_mark m k x x'.
Proof.
  intros Hok. unfold remove_mark. destruct (x_index x) as [ix|] eqn:Ex.
  2: { eexists. split; [done|]. set (l := List.filter _ _).
    assert (Hm : forall m', marks m' (with_marks m l x) = if decide (m' = m) then l else marks m' x) by (intros; apply marks_with).
    split.
    - split; [|by destruct m; apply Hok|by destruct m; apply Hok|destruct m; simpl; congruence].
      intros m'. rewrite Hm. case_decide; [apply filter_NoDup, Hok|apply Hok].
    - intros k'. rewrite Hm, decide_True by done. apply filter_ne_elem.
    - intros m' Hne. by rewrite Hm, decide_False.
    - by destruct m.
    - by destruct m.
    - rewrite Hm, decide_True by done. apply filter_length. }
  pose proof (ao_index _ Hok ix Ex) as Hmi. destruct (ix !! k) as [e|] eqn:Ek.
  2: { exists x. split; [done|]. split; try done. intros k'. split; [|by intros []]. intros Hin. split; [|done]. intros ->.
       revert Hin. apply pos_of_zero. rewrite <- (mi_marks _ _ Hmi), Ek. by destruct m. }
  pose proof (mi_marks _ _ Hmi m k) as Hpos. rewrite Ek in Hpos. simpl in Hpos.
  set (ix1 := <[k := with_at_mark m 0 e]> ix).
  assert (Hix1 : forall k', default EMPTY_ATTR (ix1 !! k') =
    if decide (k = k') then with_at_mark m 0 (default EMPTY_ATTR (ix !! k')) else default EMPTY_ATTR (ix !! k')).
  { intros k'. unfold ix1. case_decide as E; [subst; by rewrite lookup_insert_eq, Ek|by rewrite lookup_insert_ne]. }
  destruct (Z.eqb_spec (at_mark m e) 0) as [Hz|Hnz].
  - exists (with_attr_index (Some ix1) x). split; [done|]. rewrite Hz in Hpos. symmetry in Hpos. apply pos_of_zero in Hpos. split; try done.
    + split; [intros m'; rewrite with_attr_index_marks; apply Hok|apply Hok|apply Hok|]. intros ix' [= <-].
      split; intros; rewrite Hix1, ?with_attr_index_marks.
      * case_decide as E; [subst k0|apply Hmi]. rewrite at_mark_with. case_decide; [subst|apply Hmi]. symmetry. by apply pos_of_zero.
      * case_decide; [|apply Hmi]. rewrite <- (mi_acc _ _ Hmi). by destruct m.
      * case_decide; [|apply Hmi]. rewrite <- (mi_ordered _ _ Hmi). by destruct m.
    + intros k'. rewrite with_attr_index_marks. split; [|by intros []]. intros ?. split; [by intros ->|done].
    + split; [done|congruence].
  - destruct (pos_of_pos _ _ _ (ao_marks _ Hok m) (eq_sym Hpos) Hnz) as [Hi Hp0].
    set (i := Z.to_nat (at_mark m e - 1)) in *.
    destruct (swap_remove_spec (marks m x) i k (ao_marks _ Hok m) Hi) as (l' & Hsw & Hnd & Hel & Hps). rewrite Hsw.
    set (ix2 := match l' !! i with Some moved => alter (with_at_mark m (at_mark m e)) moved ix1 | None => ix1 end).
    assert (Hi1 : Z.of_nat i + 1 = at_mark m e) by (unfold i; lia).
    assert (Hmoved : forall k', l' !! i = Some k' -> k' <> k /\ is_Some (ix !! k')).
    { intros k' Hk'. assert (k' ∈ l') as Hin by (by eapply list_elem_of_lookup_2). apply Hel in Hin as [Hne Hin]. split; [done|].
      destruct (ix !! k') as [e'|] eqn:Ek'; [by eexists|]. exfalso. revert Hin. apply pos_of_zero. rewrite <- (mi_marks _ _ Hmi), Ek'.
      by destruct m. }
    assert (Hix2 : forall k', default EMPTY_ATTR (ix2 !! k') =
      if decide (l' !! i = Some k') then with_at_mark m (at_mark m e) (default EMPTY_ATTR (ix !! k')) else default EMPTY_ATTR (ix1 !! k')).
    { intros k'. unfold ix2. destruct (l' !! i) as [moved|] eqn:El; [|by rewrite decide_False].
      destruct (Hmoved moved eq_refl) as [Hne [e' He']]. destruct (decide (moved = k')) as [->|Hmk].
      - rewrite decide_True by done. rewrite lookup_alter_eq. unfold ix1. rewrite lookup_insert_ne, He' by done. done.
      - rewrite decide_False by congruence. by rewrite lookup_alter_ne. }
    set (x' := with_attr_index (Some ix2) (with_marks m l' x)).
    assert (Hm : forall m', marks m' x' = if decide (m' = m) then l' else marks m' x).
    { intros m'. unfold x'. rewrite with_attr_index_marks. apply marks_with. }
    exists x'. split; [done|]. split.
    + split.
      * intros m'. rewrite Hm. case_decide; [done|apply Hok].
      * unfold x'. destruct m; apply Hok.
      * unfold x'. destruct m; apply Hok.
      * intros ix' [= <-]. split; intros; rewrite Hix2.
        -- rewrite Hm. destruct (decide (m0 = m)) as [->|Hne].
           ++ destruct (decide (k0 = k)) as [->|Hk0].
              ** rewrite decide_False by (intros Hx; by destruct (Hmoved k Hx)). rewrite Hix1, decide_True, at_mark_with, decide_True by done.
                 symmetry. apply pos_of_zero. intros [? _]%Hel. done.
              ** rewrite Hps by done. case_decide; [by rewrite at_mark_with, decide_True|]. rewrite Hix1, decide_False by done. apply Hmi.
           ++ case_decide; [rewrite at_mark_with, decide_False by done; apply Hmi|]. rewrite Hix1. case_decide; [|apply Hmi].
              rewrite at_mark_with, decide_False by done. apply Hmi.
        -- replace (x_accessors x') with (x_accessors x) by (unfold x'; by destruct m). rewrite <- (mi_acc _ _ Hmi), Hix1.
           case_decide; [by destruct m|]. case_decide; by destruct m.
        -- replace (x_key_order x') with (x_key_order x) by (unfold x'; by destruct m). rewrite <- (mi_ordered _ _ Hmi), Hix1.
           case_decide; [by destruct m|]. case_decide; by destruct m.
    + intros k'. rewrite Hm, decide_True by done. apply Hel.
    + intros m' Hne. by rewrite Hm, decide_False.
    + unfold x'. by destruct m.
    + split; [done|congruence].
    + rewrite Hm, decide_True by done. apply (submseteq_length l' (marks m x)). apply NoDup_submseteq; [done|]. intros y Hy. by apply Hel.
Qed.

(** ** Accessors *)

(** The fields a change of accessors or of the log leaves. *)
Record same_marks (x x' : ObjectExtra) : Prop := {
  sk_spill : x_spill x' = x_spill x; sk_dict : x_dict x' = x_dict x;
  sk_class : x_class_tag x' = x_class_tag x; sk_prefix : x_hidden_prefix x' = x_hidden_prefix x;
  sk_marks : forall m, marks m x' = marks m x }.

Definition names (x : ObjectExtra) : list key := acc_name <$> x_accessors x.

Lemma acc_scan_spec k l : Z.of_nat <$> acc_scan k l = slot_of (acc_name <$> l) k.
Proof.
  unfold acc_scan, slot_of. induction l as [|a l IH]; [done|]. csimpl. case_decide; [done|].
  destruct (list_find _ l) as [[i b]|], (list_find _ (acc_name <$> l)) as [[j c]|]; simpl in *; try done.
  injection IH as IH. f_equal. lia.
Qed.

Lemma acc_pos_spec x k : attrs_ok x -> Z.of_nat <$> acc_pos k x = slot_of (names x) k.
Proof.
  intros Hok. unfold acc_pos. case_bools; [apply acc_scan_spec|]. destruct (x_index x) as [ix|] eqn:Ex; [|apply acc_scan_spec].
  pose proof (mi_acc _ _ (ao_index _ Hok ix Ex) k) as H. unfold pos_of in H. fold (names x) in H.
  destruct (ix !! k) as [e|]; simpl in H.
  - rewrite H. destruct (slot_of (names x) k) as [s|] eqn:E; [|done]. apply slot_of_bound in E.
    rewrite (proj2 (Z.eqb_neq _ _)) by lia. simpl. f_equal. lia.
  - destruct (slot_of (names x) k) as [s|] eqn:E; [|done]. apply slot_of_bound in E. lia.
Qed.

Lemma acc_pos_None x k : attrs_ok x -> acc_pos k x = None <-> k ∉ names x.
Proof.
  intros Hok. pose proof (acc_pos_spec x k Hok) as H. rewrite <- slot_of_None, <- H. by destruct (acc_pos k x).
Qed.

Lemma acc_pos_Some x k i : attrs_ok x -> acc_pos k x = Some i <-> names x !! i = Some k.
Proof.
  intros Hok. pose proof (acc_pos_spec x k Hok) as H. split.
  - intros E. rewrite E in H. symmetry in H. apply slot_of_Some in H as [_ H]; [|apply Hok]. by rewrite Nat2Z.id in H.
  - intros E. assert (slot_of (names x) k = Some (Z.of_nat i)) as E2.
    { apply slot_of_Some; [apply Hok|]. rewrite Nat2Z.id. split; [lia|done]. }
    rewrite E2 in H. destruct (acc_pos k x) as [j|]; [|done]. injection H as H. f_equal. lia.
Qed.

Lemma add_acc_ok x k g s : attrs_ok x -> roomy x -> k ∉ names x ->
  attrs_ok (add_acc k g s x) /\ x_accessors (add_acc k g s x) = x_accessors x ++ [(k, g, s)] /\
  x_key_order (add_acc k g s x) = x_key_order x /\ same_marks x (add_acc k g s x).
Proof.
  intros Hok [Hrm Hra] Hk. unfold add_acc. set (x1 := with_accessors (x_accessors x ++ [(k, g, s)]) x).
  assert (Hn : names x1 = names x ++ [k]) by (unfold names, x1; simpl; by rewrite fmap_app).
  assert (Hnd : NoDup (names x1)) by (rewrite Hn; apply NoDup_snoc; [apply Hok|done]).
  replace (x_index x1) with (x_index x) by done. cbn [x_accessors with_accessors x1]. rewrite length_app. cbn [length].
  rewrite as_u32_small by lia. destruct (x_index x) as [ix|] eqn:Ex.
  - pose proof (ao_index _ Hok ix Ex) as Hmi. split_and!; [|done|done|split; done].
    split; [intros m; apply (ao_marks _ Hok m)|apply Hnd|apply Hok|]. intros ix' [= <-]. split; intros; rewrite (mirror_entry x) by done.
    + replace (marks m _) with (marks m x) by (by destruct m). case_decide; [|apply Hmi]. rewrite <- (mi_marks _ _ Hmi). by destruct m.
    + change (acc_name <$> x_accessors (with_attr_index (Some (entry (with_at_acc (Z.of_nat (length (x_accessors x) + 1))) k ix)) x1)) with (names x1).
      rewrite Hn, pos_of_snoc by done. case_decide as E; [subst; rewrite decide_True by done|rewrite decide_False by congruence].
      * simpl. unfold names. rewrite length_fmap. lia.
      * apply Hmi.
    + case_decide; [|apply Hmi]. rewrite <- (mi_ordered _ _ Hmi). done.
  - case_bools.
    + destruct (build_index_fields x1) as (F1 & F2 & F3 & F4 & F5 & F6 & F7). split_and!; [|done|done|].
      * apply build_index_ok; [intros m; apply (ao_marks _ Hok m)|apply Hnd|apply Hok| |].
        -- intros m. replace (marks m x1) with (marks m x) by (by destruct m). pose proof (Hrm m). lia.
        -- unfold x1. cbn. rewrite length_app. simpl. lia.
      * split; done.
    + split_and!; [|done|done|split; done]. split; [intros m; apply (ao_marks _ Hok m)|apply Hnd|apply Hok|].
      intros ix' Hx. change (x_index x1) with (x_index x) in Hx. congruence.
Qed.

(** Replacing the functions of an accessor. *)
Lemma set_acc_ok x i k g s : attrs_ok x -> names x !! i = Some k ->
  attrs_ok (with_accessors (<[i := (k, g, s)]> (x_accessors x)) x) /\ same_marks x (with_accessors (<[i := (k, g, s)]> (x_accessors x)) x) /\
  names (with_accessors (<[i := (k, g, s)]> (x_accessors x)) x) = names x.
Proof.
  intros Hok Hi. assert (Hn : names (with_accessors (<[i := (k, g, s)]> (x_accessors x)) x) = names x).
  { unfold names. simpl. rewrite list_fmap_insert. apply list_insert_id. done. }
  split_and!; [|split; done|done]. split; [intros m; apply (ao_marks _ Hok m)| |apply Hok|].
  - fold (names (with_accessors (<[i := (k, g, s)]> (x_accessors x)) x)). rewrite Hn. apply Hok.
  - intros ix Hx. pose proof (ao_index _ Hok ix Hx) as Hmi. split; [intros m k'; rewrite (mi_marks _ _ Hmi); by destruct m| |apply Hmi].
    intros k'. fold (names (with_accessors (<[i := (k, g, s)]> (x_accessors x)) x)). rewrite Hn. apply Hmi.
Qed.

Lemma slot_of_delete l i k k' : NoDup l -> l !! i = Some k -> k' <> k ->
  pos_of (take i l ++ drop (S i) l) k' = if Z.of_nat i + 1 <? pos_of l k' then pos_of l k' - 1 else pos_of l k'.
Proof.
  intros Hnd Hi Hne. assert (Hil : (i < length l)%nat) by (by eapply lookup_lt_Some).
  assert (Hsplit : l = take i l ++ k :: drop (S i) l) by (symmetry; by apply take_drop_middle).
  assert (Hnd' : NoDup (take i l ++ drop (S i) l)).
  { rewrite Hsplit in Hnd. rewrite (Permutation_app_comm _ _) in Hnd. apply NoDup_cons in Hnd as [_ Hnd].
    by rewrite Permutation_app_comm. }
  destruct (decide (k' ∈ l)) as [Hin|Hnin].
  - apply list_elem_of_lookup in Hin as [j Hj]. rewrite (pos_of_lookup l k' j Hnd Hj).
    assert (Hji : j <> i) by (intros ->; congruence). destruct (Z.ltb_spec (Z.of_nat i + 1) (Z.of_nat j + 1)).
    + rewrite (pos_of_lookup _ k' (j - 1)); [lia|done|]. rewrite lookup_app_r by (rewrite length_take; lia).
      rewrite length_take, lookup_drop. rewrite <- Hj. f_equal. lia.
    + rewrite (pos_of_lookup _ k' j); [done|done|]. rewrite lookup_app_l by (rewrite length_take; lia).
      rewrite lookup_take_lt by lia. done.
  - rewrite (proj2 (pos_of_zero l k') Hnin). rewrite (proj2 (Z.ltb_ge _ _)) by lia. apply pos_of_zero.
    intros [Hin|Hin]%elem_of_app; apply Hnin; [by eapply elem_of_take_in|by eapply elem_of_drop_in].
Qed.

(** Removing an accessor keeps the others in order. *)
Lemma remove_acc_ok x k : attrs_ok x ->
  fst (remove_acc k x) = bool_decide (k ∈ names x) /\ attrs_ok (snd (remove_acc k x)) /\
  x_accessors (snd (remove_acc k x)) = List.filter (fun a => negb (bool_decide (acc_name a = k))) (x_accessors x) /\
  x_key_order (snd (remove_acc k x)) = x_key_order x /\ same_marks x (snd (remove_acc k x)) /\
  (x_index (snd (remove_acc k x)) = None <-> x_index x = None).
Proof.
  intros Hok. unfold remove_acc. destruct (acc_pos k x) as [i|] eqn:Ep.
  - apply acc_pos_Some in Ep as Hi; [|done]. assert (Hil : (i < length (names x))%nat) by (by eapply lookup_lt_Some).
    assert (Hin : k ∈ names x) by (by eapply list_elem_of_lookup_2).
    assert (Hf : take i (x_accessors x) ++ drop (S i) (x_accessors x) =
      List.filter (fun a => negb (bool_decide (acc_name a = k))) (x_accessors x)).
    { pose proof (ao_acc _ Hok) as Hnd. fold (names x) in Hnd. unfold names in Hi, Hnd. revert Hnd Hi. clear. revert i.
      induction (x_accessors x) as [|a l IH]; intros i Hnd Hi; [done|]. simpl in Hnd. apply NoDup_cons in Hnd as [Hnin Hnd].
      destruct i as [|i]; simpl in *.
      - injection Hi as Hi. rewrite bool_decide_true by done. simpl. rewrite drop_0. symmetry.
        clear IH Hnd. induction l as [|b l IH]; simpl; [done|].
        simpl in Hnin. rewrite not_elem_of_cons in Hnin. destruct Hnin as [Hb Hl].
        rewrite bool_decide_false by congruence. simpl. f_equal. by apply IH.
      - rewrite bool_decide_false; [|intros Ea; apply Hnin; rewrite Ea; by eapply list_elem_of_lookup_2]. simpl. f_equal. by apply IH. }
    cbn [fst snd]. set (x1 := with_accessors _ x).
    assert (Hn : names x1 = take i (names x) ++ drop (S i) (names x)).
    { unfold names, x1. simpl. by rewrite fmap_app, fmap_take, fmap_drop. }
    assert (Hnd : NoDup (names x1)).
    { rewrite Hn. pose proof (ao_acc _ Hok) as Hnd. fold (names x) in Hnd.
      rewrite <- (take_drop_middle (names x) i k Hi) in Hnd. rewrite (Permutation_app_comm _ _) in Hnd.
      apply NoDup_cons in Hnd as [_ Hnd]. by rewrite Permutation_app_comm. }
    assert (Hknin : k ∉ names x1).
    { rewrite Hn. intros Hk. pose proof (ao_acc _ Hok) as Hnd'. fold (names x) in Hnd'.
      rewrite <- (take_drop_middle (names x) i k Hi) in Hnd'. rewrite (Permutation_app_comm _ _) in Hnd'.
      apply NoDup_cons in Hnd' as [Hx _]. apply Hx. rewrite elem_of_app in *. tauto. }
    split; [symmetry; by apply bool_decide_eq_true|]. replace (x_index x1) with (x_index x) by done.
    destruct (x_index x) as [ix|] eqn:Ex.
    + split_and!; [|done|done|split; done|done].
      pose proof (ao_index _ Hok ix Ex) as Hmi. split; [intros m; apply (ao_marks _ Hok m)|apply Hnd|apply Hok|].
      intros ix' [= <-].
      assert (Hd : forall k', default EMPTY_ATTR ((drop_acc i <$> ix) !! k') = drop_acc i (default EMPTY_ATTR (ix !! k'))).
      { intros k'. rewrite lookup_fmap. destruct (ix !! k'); [done|]. unfold drop_acc. cbn [default at_acc EMPTY_ATTR].
        case_cmp; [lia|lia|done]. }
      split; intros; rewrite Hd.
      * replace (marks m _) with (marks m x) by (by destruct m). rewrite <- (mi_marks _ _ Hmi).
        unfold drop_acc. case_bools; by destruct m.
      * fold (names (with_attr_index (Some (drop_acc i <$> ix)) x1)).
        change (names (with_attr_index (Some (drop_acc i <$> ix)) x1)) with (names x1).
        pose proof (mi_acc _ _ Hmi k0) as Ha. fold (names x) in Ha. unfold drop_acc. rewrite Ha.
        destruct (decide (k0 = k)) as [->|Hne].
        -- rewrite (pos_of_lookup (names x) k i (ao_acc _ Hok) Hi). rewrite Z.ltb_irrefl, Z.eqb_refl. symmetry. by apply pos_of_zero.
        -- rewrite Hn, (slot_of_delete (names x) i k k0 (ao_acc _ Hok) Hi Hne). destruct (_ <? _); [done|].
           destruct (Z.eqb_spec (pos_of (names x) k0) (Z.of_nat i + 1)) as [E|]; [|done].
           exfalso. destruct (pos_of_pos (names x) k0 _ (ao_acc _ Hok) E ltac:(lia)) as [Hx _].
           replace (Z.to_nat (Z.of_nat i + 1 - 1)) with i in Hx by lia. congruence.
      * rewrite <- (mi_ordered _ _ Hmi). unfold drop_acc. by case_bools.
    + split_and!; [|done|done|split; done|done].
      split; [intros m; apply (ao_marks _ Hok m)|apply Hnd|apply Hok|]. intros ix' Hx. change (x_index x1) with (x_index x) in Hx. congruence.
  - apply acc_pos_None in Ep; [|done]. simpl. split_and!; [by rewrite bool_decide_false|done| |done|split; done|done].
    symmetry. unfold names in Ep. revert Ep. clear. induction (x_accessors x) as [|a l IH]; simpl; [done|].
    rewrite not_elem_of_cons. intros [Ha Hl]. rewrite bool_decide_false by congruence. simpl. f_equal. by apply IH.
Qed.

(** ** The key-order log *)

Lemma order_has_spec x k : attrs_ok x -> order_has k x = bool_decide (k ∈ default [] (x_key_order x)).
Proof.
  intros Hok. unfold order_has. destruct (x_key_order x) as [order|] eqn:Eo; simpl; [|done].
  destruct (x_index x) as [ix|] eqn:Ex; [|apply existsb_key].
  pose proof (mi_ordered _ _ (ao_index _ Hok ix Ex) k) as H. rewrite Eo in H. simpl in H.
  by destruct (ix !! k).
Qed.

(** An update of the log, [x'] of [x]. *)
Record reordered (x x' : ObjectExtra) : Prop := {
  ro_ok : attrs_ok x';
  ro_acc : x_accessors x' = x_accessors x;
  ro_same : same_marks x x' }.

Lemma order_push_ok x k order : attrs_ok x -> roomy x -> x_key_order x = Some order -> k ∉ order ->
  reordered x (order_push k x) /\ x_key_order (order_push k x) = Some (order ++ [k]).
Proof.
  intros Hok [Hrm Hra] Eo Hk. unfold order_push. rewrite Eo. set (x1 := with_key_order (Some (order ++ [k])) x).
  pose proof (ao_order _ Hok) as Hno. rewrite Eo in Hno. simpl in Hno.
  replace (x_index x1) with (x_index x) by done. destruct (x_index x) as [ix|] eqn:Ex.
  - pose proof (ao_index _ Hok ix Ex) as Hmi. split; [|done]. split; [|done|split; done].
    split; [intros m; apply (ao_marks _ Hok m)|apply Hok|by apply NoDup_snoc|]. intros ix' [= <-].
    split; intros; rewrite (mirror_entry x) by done.
    + replace (marks m _) with (marks m x) by (by destruct m). case_decide; [|apply Hmi]. rewrite <- (mi_marks _ _ Hmi). by destruct m.
    + case_decide; [|apply Hmi]. rewrite <- (mi_acc _ _ Hmi). done.
    + simpl. case_decide as E.
      * subst. simpl. symmetry. apply bool_decide_eq_true, elem_of_app. right. by left.
      * rewrite (mi_ordered _ _ Hmi), Eo. simpl. apply bool_decide_ext. rewrite elem_of_app, list_elem_of_singleton. naive_solver.
  - case_bools.
    + destruct (build_index_fields x1) as (F1 & F2 & F3 & F4 & F5 & F6 & F7). split; [|done]. split; [|done|].
      * apply build_index_ok; [intros m; apply (ao_marks _ Hok m)|apply Hok|by apply NoDup_snoc| |cbn; lia].
        intros m. replace (marks m x1) with (marks m x) by (by destruct m). pose proof (Hrm m). lia.
      * split; done.
    + split; [|done]. split; [|done|split; done]. split; [intros m; apply (ao_marks _ Hok m)|apply Hok|by apply NoDup_snoc|].
      intros ix' Hx. change (x_index x1) with (x_index x) in Hx. congruence.
Qed.

Lemma order_remove_ok x k : attrs_ok x ->
  reordered x (order_remove k x) /\ x_key_order (order_remove k x) =
    (fun order => List.filter (fun k' => negb (bool_decide (k' = k))) order) <$> x_key_order x.
Proof.
  intros Hok. unfold order_remove. destruct (x_key_order x) as [order|] eqn:Eo; [|split; [split; done|done]].
  pose proof (ao_order _ Hok) as Hno. rewrite Eo in Hno. simpl in Hno.
  assert (Hid : k ∉ order -> List.filter (fun k' => negb (bool_decide (k' = k))) order = order).
  { clear. induction order as [|a l IH]; simpl; [done|]. rewrite not_elem_of_cons. intros [Ha Hl].
    rewrite bool_decide_false by congruence. simpl. f_equal. by apply IH. }
  destruct (x_index x) as [ix|] eqn:Ex.
  - pose proof (ao_index _ Hok ix Ex) as Hmi. pose proof (mi_ordered _ _ Hmi k) as Hk. rewrite Eo in Hk. simpl in Hk.
    destruct (ix !! k) as [e|] eqn:Ek; simpl in Hk.
    + destruct (at_ordered e) eqn:Ea.
      * split; [|done]. split; [|done|split; done].
        split; [intros m; apply (ao_marks _ Hok m)|apply Hok|by apply filter_NoDup|]. intros ix' [= <-].
        assert (Hd : forall k', default EMPTY_ATTR ((<[k := with_at_ordered false e]> ix) !! k') =
          if decide (k = k') then with_at_ordered false (default EMPTY_ATTR (ix !! k')) else default EMPTY_ATTR (ix !! k')).
        { intros k'. destruct (decide (k = k')) as [<-|E]; [rewrite lookup_insert_eq, Ek; done|by rewrite lookup_insert_ne]. }
        split; intros; rewrite Hd.
        -- replace (marks m _) with (marks m x) by (by destruct m). rewrite <- (mi_marks _ _ Hmi).
           destruct (decide (k = k0)); by destruct m.
        -- cbn [x_accessors with_key_order with_attr_index]. rewrite <- (mi_acc _ _ Hmi). by destruct (decide (k = k0)).
        -- simpl. destruct (decide (k = k0)) as [<-|E].
           ++ symmetry. apply bool_decide_eq_false. by intros [? _]%filter_ne_elem.
           ++ rewrite (mi_ordered _ _ Hmi), Eo. simpl. apply bool_decide_ext. rewrite filter_ne_elem. naive_solver.
      * split; [split; done|]. rewrite Eo. simpl. f_equal. symmetry. apply Hid. by apply (bool_decide_eq_false_1 (k ∈ order)).
    + split; [split; done|]. rewrite Eo. simpl. f_equal. symmetry. apply Hid. by apply (bool_decide_eq_false_1 (k ∈ order)).
  - split; [|done]. split; [|done|split; done]. split; [intros m; apply (ao_marks _ Hok m)|apply Hok|by apply filter_NoDup|].
    intros ix' Hx. simpl in Hx. congruence.
Qed.

Lemma set_order_ok x order : attrs_ok x -> roomy x -> x_key_order x = None -> NoDup order ->
  reordered x (set_order order x) /\ x_key_order (set_order order x) = Some order.
Proof.
  intros Hok [Hrm Hra] Eo Hnd. unfold set_order. destruct (x_index x) as [ix|] eqn:Ex; cbn [x_index with_attr_index with_key_order].
  - pose proof (ao_index _ Hok ix Ex) as Hmi. split; [|done]. split; [|done|split; done].
    split; [intros m; apply (ao_marks _ Hok m)|apply Hok|done|]. intros ix' [= <-]. split; intros.
    + rewrite (index_list_other (at_mark m)) by (by destruct m). rewrite (mi_marks _ _ Hmi). by destruct m.
    + rewrite (index_list_other at_acc) by done. apply Hmi.
    + rewrite (index_list_set at_ordered _ (fun _ => true)) by done. rewrite (mi_ordered _ _ Hmi), Eo. simpl.
      destruct (slot_of order k) eqn:E.
      * symmetry. apply bool_decide_eq_true, slot_of_is_Some. by eexists.
      * apply slot_of_None in E. by rewrite bool_decide_false.
  - rewrite Ex. case_bools.
    + split; [|done]. split; [|done|].
      * apply build_index_ok; [intros m; apply (ao_marks _ Hok m)|apply Hok|done| |cbn; lia].
        intros m. replace (marks m _) with (marks m x) by (by destruct m). pose proof (Hrm m). lia.
      * split; try done.
    + split; [|done]. split; [|done|split; done]. split; [intros m; apply (ao_marks _ Hok m)|apply Hok|done|].
      intros ix' Hx. simpl in Hx. congruence.
Qed.
