(* ===== verification/ObjectSlots.v ===== *)
(** * The slots of an object

    A shaped object's values are four inline words, eight near ones and a far
    vector.  [slots_ok] is their shape; under it the three parts are one list,
    [slots_iter], that reads, writes and pushes act on as on a vector. *)

From S2P Require Import Prelude Prog NanBox Shape Object.

#[local] Abbreviation length := Datatypes.length.
Open Scope Z_scope.

Record spill_ok (n : Z) (p : Spill) : Prop := {
  sp_near : length (near p) = 8%nat;
  sp_n : spill_n p = n;
  sp_far : Z.of_nat (length (far p)) = Z.max 0 (n - 8) }.

Record slots_ok (o : Object) : Prop := {
  sl_len : 0 <= o_len o <= MAX_SHAPED_LEN;
  sl_inline : length (o_inline o) = 4%nat;
  sl_spill : spill_ok (Z.max 0 (o_len o - 4)) (spill o) }.

(** [o'] is [o] with other slot values, and maybe an out-of-line part. *)
Record same_but_slots (o o' : Object) : Prop := {
  ss_mode : o_mode o' = o_mode o; ss_flags : o_flags o' = o_flags o;
  ss_epoch : o_key_epoch o' = o_key_epoch o; ss_shape : o_shape o' = o_shape o; ss_proto : o_proto o' = o_proto o;
  ss_extra : with_spill SPILL_EMPTY (ex o') = with_spill SPILL_EMPTY (ex o) }.

#[global] Instance same_but_slots_equiv : Equivalence same_but_slots.
Proof.
  split.
  - by split.
  - intros a b [H1 H2 H3 H4 H5 H6]. by split.
  - intros a b c [H1 H2 H3 H4 H5 H6] [K1 K2 K3 K4 K5 K6]. split; congruence.
Qed.

Lemma spill_empty_ok : spill_ok 0 SPILL_EMPTY.
Proof. by split. Qed.

(** ** The spill as a list *)

Lemma spill_iter_length n p : 0 <= n -> spill_ok n p -> Z.of_nat (length (spill_iter p)) = n.
Proof.
  intros Hn [H1 H2 H3]. unfold spill_iter, SPILL_NEAR. rewrite length_app, length_take, H1, H2. lia.
Qed.

Lemma spill_get_spec n p i : 0 <= n -> spill_ok n p -> 0 <= i -> spill_get i p = spill_iter p !! Z.to_nat i.
Proof.
  intros Hn Hp Hi. pose proof (spill_iter_length n p Hn Hp) as Hl. destruct Hp as [H1 H2 H3].
  unfold spill_get, spill_iter, SPILL_NEAR in *. rewrite H2 in *.
  destruct (Z.leb_spec n i).
  - symmetry. apply lookup_ge_None. lia.
  - destruct (Z.ltb_spec i 8).
    + rewrite lookup_app_l by (rewrite length_take; lia). by rewrite lookup_take_lt by lia.
    + rewrite lookup_app_r by (rewrite length_take; lia). f_equal. rewrite length_take. lia.
Qed.

Lemma spill_set_spec n p i v : 0 <= n -> spill_ok n p -> 0 <= i < n -> exists p', spill_set i v p = Some p' /\
  spill_ok n p' /\ spill_iter p' = <[Z.to_nat i := v]> (spill_iter p).
Proof.
  intros Hn [H1 H2 H3] Hi. unfold spill_set, SPILL_NEAR. rewrite H2. rewrite (proj2 (Z.leb_gt _ _)) by lia.
  destruct (Z.ltb_spec i 8).
  - eexists. split; [done|]. split; [split; cbn; by rewrite ?length_insert|]. unfold spill_iter, SPILL_NEAR. cbn [near far spill_n].
    rewrite H2. rewrite insert_app_l by (rewrite length_take; lia). f_equal. by rewrite take_insert_lt by lia.
  - rewrite bool_decide_true by lia. eexists. split; [done|]. split; [split; cbn; by rewrite ?length_insert|].
    unfold spill_iter, SPILL_NEAR. cbn [near far spill_n]. rewrite H2. rewrite insert_app_r_alt by (rewrite length_take; lia).
    f_equal. f_equal. rewrite length_take. lia.
Qed.

Lemma spill_push_spec n p v : 0 <= n < 2 ^ 32 - 1 -> spill_ok n p ->
  spill_ok (n + 1) (spill_push v p) /\ spill_iter (spill_push v p) = spill_iter p ++ [v].
Proof.
  intros Hn [H1 H2 H3]. unfold spill_push, SPILL_NEAR. rewrite H2. rewrite as_u32_small by lia. destruct (Z.ltb_spec n 8).
  - split; [split; cbn; rewrite ?length_insert; lia|]. unfold spill_iter, SPILL_NEAR. cbn [near far spill_n]. rewrite H2.
    assert (far p = []) as -> by (apply nil_length_inv; lia). rewrite !app_nil_r.
    replace (Z.to_nat (Z.min (n + 1) 8)) with (S (Z.to_nat n)) by lia. replace (Z.to_nat (Z.min n 8)) with (Z.to_nat n) by lia.
    rewrite (take_S_r _ _ v) by (rewrite list_lookup_insert_eq; [done|lia]).
    by rewrite take_insert_ge by lia.
  - split; [split; cbn; rewrite ?length_app; simpl; lia|]. unfold spill_iter, SPILL_NEAR. cbn [near far spill_n]. rewrite H2.
    replace (Z.to_nat (Z.min (n + 1) 8)) with 8%nat by lia. replace (Z.to_nat (Z.min n 8)) with 8%nat by lia. by rewrite app_assoc.
Qed.

Lemma spill_map_spec f n p : 0 <= n -> spill_ok n p -> spill_ok n (spill_map f p) /\ spill_iter (spill_map f p) = f <$> spill_iter p.
Proof.
  intros Hn [H1 H2 H3]. unfold spill_map, spill_iter, SPILL_NEAR. rewrite H2. split.
  - split; cbn; [rewrite length_app, length_fmap, length_take, length_drop; lia|done|by rewrite length_fmap].
  - cbn [near far spill_n]. rewrite fmap_app. f_equal. rewrite take_app_length'; [done|]. rewrite length_fmap, length_take. lia.
Qed.

(** ** The slots as a list *)

Lemma slots_iter_length o : slots_ok o -> Z.of_nat (length (slots_iter o)) = o_len o.
Proof.
  intros [H1 H2 H3]. unfold slots_iter, INLINE_SLOTS.
  pose proof (spill_iter_length (Z.max 0 (o_len o - 4)) _ ltac:(lia) H3). rewrite length_app, length_take, H2. lia.
Qed.

Lemma slot_get_spec o i : slots_ok o -> 0 <= i -> slot_get i o = slots_iter o !! Z.to_nat i.
Proof.
  intros Hok Hi. pose proof (slots_iter_length o Hok) as Hl. destruct Hok as [H1 H2 H3].
  unfold slot_get. destruct (Z.leb_spec (o_len o) i).
  - symmetry. apply lookup_ge_None. lia.
  - unfold slots_iter, INLINE_SLOTS. destruct (Z.ltb_spec i 4).
    + rewrite lookup_app_l by (rewrite length_take; lia). by rewrite lookup_take_lt by lia.
    + rewrite lookup_app_r by (rewrite length_take; lia). rewrite (spill_get_spec (Z.max 0 (o_len o - 4)) _ _ ltac:(lia) H3) by lia.
      f_equal. rewrite length_take. lia.
Qed.

Lemma slot_set_spec o i v : slots_ok o -> 0 <= i < o_len o -> exists o', slot_set i v o = Some o' /\
  slots_ok o' /\ o_len o' = o_len o /\ slots_iter o' = <[Z.to_nat i := v]> (slots_iter o) /\ same_but_slots o o'.
Proof.
  intros [H1 H2 H3] Hi. unfold slot_set, INLINE_SLOTS. rewrite (proj2 (Z.leb_gt _ _)) by lia. destruct (Z.ltb_spec i 4).
  - eexists. split; [done|]. split; [split; cbn; by rewrite ?length_insert|]. split; [done|]. split; [|by split].
    unfold slots_iter, INLINE_SLOTS. cbn [o_len o_inline with_inline].
    change (spill (with_inline (<[Z.to_nat i:=v]> (o_inline o)) o)) with (spill o).
    rewrite insert_app_l by (rewrite length_take; lia). f_equal. by rewrite take_insert_lt by lia.
  - destruct (o_extra o) as [x|] eqn:Ex.
    2: { exfalso. unfold spill, ex in H3. rewrite Ex in H3. destruct H3 as [_ Hn _]. cbn in Hn. lia. }
    assert (Hsp : spill o = x_spill x) by (unfold spill, ex; by rewrite Ex). rewrite Hsp in H3.
    destruct (spill_set_spec (Z.max 0 (o_len o - 4)) _ (i - 4) v ltac:(lia) H3 ltac:(lia)) as (p' & -> & Hp' & Hit). eexists. split; [done|].
    split; [by split|]. split; [done|]. split; [|split; try done; unfold ex; by rewrite Ex].
    unfold slots_iter, INLINE_SLOTS. cbn [o_len o_inline with_extra]. rewrite Hsp.
    change (spill (with_extra (Some (with_spill p' x)) o)) with p'. rewrite Hit.
    rewrite insert_app_r_alt by (rewrite length_take; lia). f_equal. f_equal. rewrite length_take. lia.
Qed.

(** The object after the two writes of [slot_push]. *)
Definition pushed (v : NanBox) (o : Object) : Object :=
  let i := o_len o in
  let o' := if i <? INLINE_SLOTS then with_inline (<[Z.to_nat i := v]> (o_inline o)) o
            else extra_mut (fun x => with_spill (spill_push v (x_spill x)) x) o in
  with_len (as_u16 (o_len o' + 1)) o'.

Lemma pushed_spec o v : slots_ok o -> o_len o < MAX_SHAPED_LEN ->
  slots_ok (pushed v o) /\ o_len (pushed v o) = o_len o + 1 /\ slots_iter (pushed v o) = slots_iter o ++ [v] /\
  same_but_slots o (pushed v o).
Proof.
  intros [H1 H2 H3] Hlt. unfold MAX_SHAPED_LEN in *. unfold pushed, INLINE_SLOTS. destruct (Z.ltb_spec (o_len o) 4).
  - cbn [o_len with_inline with_len]. rewrite as_u16_small by lia. split_and!; [split; cbn; rewrite ?length_insert; [unfold MAX_SHAPED_LEN; lia|done|]|done| |by split].
    + change (spill _) with (spill o). by replace (Z.max 0 (o_len o + 1 - 4)) with (Z.max 0 (o_len o - 4)) by lia.
    + unfold slots_iter, INLINE_SLOTS. cbn [o_len o_inline with_inline with_len]. change (spill _) with (spill o).
      pose proof (spill_iter_length (Z.max 0 (o_len o - 4)) _ ltac:(lia) H3) as Hl. assert (spill_iter (spill o) = []) as -> by (apply nil_length_inv; lia).
      rewrite !app_nil_r. replace (Z.to_nat (Z.min (o_len o + 1) 4)) with (S (Z.to_nat (o_len o))) by lia.
      replace (Z.to_nat (Z.min (o_len o) 4)) with (Z.to_nat (o_len o)) by lia.
      rewrite (take_S_r _ _ v) by (rewrite list_lookup_insert_eq; [done|lia]). by rewrite take_insert_ge by lia.
  - cbn [o_len with_len extra_mut with_extra]. rewrite as_u16_small by lia.
    destruct (spill_push_spec (Z.max 0 (o_len o - 4)) _ v ltac:(lia) H3) as [Hp Hit]. replace (Z.max 0 (o_len o - 4) + 1) with (Z.max 0 (o_len o + 1 - 4)) in Hp by lia.
    split_and!; [split; cbn; [unfold MAX_SHAPED_LEN; lia|done|exact Hp]|done| |by split].
    unfold slots_iter, INLINE_SLOTS. cbn [o_len o_inline with_len extra_mut with_extra].
    change (spill _) with (spill_push v (spill o)) at 1. rewrite Hit. rewrite app_assoc. f_equal. f_equal.
    by replace (Z.to_nat (Z.min (o_len o + 1) 4)) with (Z.to_nat (Z.min (o_len o) 4)) by lia.
Qed.
