(* ===== verification/ObjectInv.v ===== *)
(** * What an object is, whatever its representation

    [Spec] is an object as the language sees it: its data properties in creation
    order, its accessors, its attribute sets and its log of creation.  [spec_of]
    reads it off a shaped object or a dictionary, with the marks a layout implies
    and the hidden prefix counted as marks; [obj_ok] is the invariant.  The last
    part is the logic the methods are proved in: [reads] for a method that only
    touches memo cells, [goes] for one that ends in a given [Spec]. *)

From Stdlib Require Import String.
From S2P Require Import Prelude Prog NanBox Shape ShapeTable ShapeInv ShapeSpec Object ObjectAttr ObjectSlots.

#[local] Abbreviation length := Datatypes.length.
Open Scope Z_scope.

(** ** The abstract object *)

Record Spec := MkSpec {
  p_data : list (key * NanBox); p_acc : list (key * NanBox * NanBox); p_log : option (list key);
  p_ro : gset key; p_hid : gset key; p_nc : gset key;
  p_flags : Z; p_proto : Z; p_class : Z; p_epoch : Z }.

Definition p_mark (m : Mark) (p : Spec) : gset key :=
  match m with Readonly => p_ro p | Hidden => p_hid p | NonConfigurable => p_nc p end.

Definition p_keys (p : Spec) : list key := fst <$> p_data p.
Definition p_names (p : Spec) : list key := acc_name <$> p_acc p.

Definition p_with_data (d : list (key * NanBox)) (p : Spec) : Spec :=
  MkSpec d (p_acc p) (p_log p) (p_ro p) (p_hid p) (p_nc p) (p_flags p) (p_proto p) (p_class p) (p_epoch p).
Definition p_with_acc (a : list (key * NanBox * NanBox)) (p : Spec) : Spec :=
  MkSpec (p_data p) a (p_log p) (p_ro p) (p_hid p) (p_nc p) (p_flags p) (p_proto p) (p_class p) (p_epoch p).
Definition p_with_log (l : option (list key)) (p : Spec) : Spec :=
  MkSpec (p_data p) (p_acc p) l (p_ro p) (p_hid p) (p_nc p) (p_flags p) (p_proto p) (p_class p) (p_epoch p).
Definition p_with_mark (m : Mark) (x : gset key) (p : Spec) : Spec :=
  match m with
  | Readonly => MkSpec (p_data p) (p_acc p) (p_log p) x (p_hid p) (p_nc p) (p_flags p) (p_proto p) (p_class p) (p_epoch p)
  | Hidden => MkSpec (p_data p) (p_acc p) (p_log p) (p_ro p) x (p_nc p) (p_flags p) (p_proto p) (p_class p) (p_epoch p)
  | NonConfigurable => MkSpec (p_data p) (p_acc p) (p_log p) (p_ro p) (p_hid p) x (p_flags p) (p_proto p) (p_class p) (p_epoch p)
  end.
Definition p_with_flags (f : Z) (p : Spec) : Spec :=
  MkSpec (p_data p) (p_acc p) (p_log p) (p_ro p) (p_hid p) (p_nc p) f (p_proto p) (p_class p) (p_epoch p).
Definition p_with_proto (x : Z) (p : Spec) : Spec :=
  MkSpec (p_data p) (p_acc p) (p_log p) (p_ro p) (p_hid p) (p_nc p) (p_flags p) x (p_class p) (p_epoch p).
Definition p_with_class (x : Z) (p : Spec) : Spec :=
  MkSpec (p_data p) (p_acc p) (p_log p) (p_ro p) (p_hid p) (p_nc p) (p_flags p) (p_proto p) x (p_epoch p).
Definition p_with_epoch (x : Z) (p : Spec) : Spec :=
  MkSpec (p_data p) (p_acc p) (p_log p) (p_ro p) (p_hid p) (p_nc p) (p_flags p) (p_proto p) (p_class p) x.

(** Fewer entries in every list than the index can number. *)
Definition p_room (p : Spec) : Prop :=
  (forall m, Z.of_nat (size (p_mark m p)) < 2 ^ 32 - 1) /\ Z.of_nat (length (p_acc p)) < 2 ^ 32 - 1.

(** ** Association lists *)

Fixpoint assoc {V} (k : key) (l : list (key * V)) : option V :=
  match l with [] => None | (k', v) :: l => if decide (k' = k) then Some v else assoc k l end.

Definition assoc_set {V} (k : key) (v : V) (l : list (key * V)) : list (key * V) :=
  (fun kv => if decide (fst kv = k) then (k, v) else kv) <$> l.

Definition assoc_del {V} (k : key) (l : list (key * V)) : list (key * V) :=
  List.filter (fun kv => negb (bool_decide (fst kv = k))) l.

(** ** The abstraction *)

(** A dictionary's properties, in the order of its keys. *)
Definition dict_list (d : DictData) : list (key * NanBox) :=
  omap (fun ok => k ← ok; s ← d_map d !! k; Some (k, d_value s)) (d_order d).

Definition data_of (st : Shapes) (o : Object) : list (key * NanBox) :=
  if is_dict o then dict_list (dict o) else zip (skeys st (o_shape o)) (slots_iter o).

(** The marks that are not in the lists: those the layout implies, and the prefix. *)
Definition implied_set (fn ctor : bool) (ks : list key) (prefix : Z) (m : Mark) : gset key :=
  match m with
  | Readonly => if fn then list_to_set ks else ∅
  | Hidden => if fn || ctor then list_to_set ks else list_to_set (take (Z.to_nat prefix) ks)
  | NonConfigurable => if ctor && bool_decide (bytes "prototype" ∈ ks) then {[bytes "prototype"]} else ∅
  end.

Definition mark_set (st : Shapes) (o : Object) (m : Mark) : gset key :=
  let s := shape_at st (o_shape o) in
  list_to_set (marks m (ex o)) ∪
  implied_set (has_implied_fn_attrs s) (has_implied_ctor_attrs s) (skeys st (o_shape o)) (x_hidden_prefix (ex o)) m.

Definition spec_of (st : Shapes) (o : Object) : Spec :=
  MkSpec (data_of st o) (x_accessors (ex o)) (x_key_order (ex o))
    (mark_set st o Readonly) (mark_set st o Hidden) (mark_set st o NonConfigurable)
    (o_flags o) (o_proto o) (x_class_tag (ex o)) (o_key_epoch o).

(** ** The invariant *)

Record dict_ok (d : DictData) : Prop := {
  dk_pos : forall k s, d_map d !! k = Some s -> d_order d !! d_pos s = Some (Some k);
  dk_map : forall i k, d_order d !! i = Some (Some k) -> exists s, d_map d !! k = Some s /\ d_pos s = i }.

Definition numbers_ok (st : Shapes) (o : Object) : Prop :=
  forall i v, slots_iter o !! i = Some v -> (i < 64)%nat -> is_number v = false ->
    Z.testbit (any_at st (o_shape o)) (Z.of_nat i) = true.

Record obj_ok (st : Shapes) (o : Object) : Prop := {
  oo_live : is_Some (live st !! o_shape o);
  oo_slots : slots_ok o;
  oo_attrs : attrs_ok (ex o);
  oo_len : o_len o = Z.of_nat (length (skeys st (o_shape o)));
  oo_mode : match o_mode o with
            | Shaped => x_dict (ex o) = None
            | Dict => skeys st (o_shape o) = [] /\ exists d, x_dict (ex o) = Some d /\ dict_ok d
            end;
  oo_prefix : 0 <= x_hidden_prefix (ex o) <= o_len o;
  oo_marked : marked (shape_at st (o_shape o)) = true -> x_hidden_prefix (ex o) = 0;
  oo_fn : has_implied_fn_attrs (shape_at st (o_shape o)) = true ->
    forall k, k ∈ skeys st (o_shape o) -> k ∉ x_readonly (ex o);
  oo_numbers : numbers_ok st o }.

(** ** Frames: another store with the object's layout *)

Record keeps (st st' : Shapes) (i : nat) : Prop := {
  kp_live : is_Some (live st' !! i);
  kp_keys : skeys st' i = skeys st i;
  kp_brands : brands (shape_at st' i) = brands (shape_at st i);
  kp_any : mask_le (any_at st i) (any_at st' i) }.

Lemma extends_keeps st st' i : wf st -> extends st st' -> is_Some (live st !! i) -> keeps st st' i.
Proof.
  intros [Hst _] He Hi. split; [by eapply extends_live|by apply extends_skeys|by apply extends_brands|by apply extends_any].
Qed.

Lemma keeps_has_brand st st' i b : keeps st st' i -> has_brand b (shape_at st' i) = has_brand b (shape_at st i).
Proof. intros [_ _ H _]. unfold has_brand. by rewrite H. Qed.

Lemma keeps_spec st st' o : keeps st st' (o_shape o) -> spec_of st' o = spec_of st o.
Proof.
  intros K. unfold spec_of, data_of, mark_set, has_implied_fn_attrs, has_implied_ctor_attrs.
  by rewrite (kp_keys _ _ _ K), !(keeps_has_brand _ _ _ _ K).
Qed.

Lemma keeps_ok st st' o : keeps st st' (o_shape o) -> obj_ok st o -> obj_ok st' o.
Proof.
  intros K [H1 H2 H3 H4 H5 H6 H7 H8 H9]. unfold marked, has_implied_attrs, has_implied_fn_attrs in *. pose proof (kp_keys _ _ _ K) as Hk.
  split; rewrite ?Hk; unfold marked, has_implied_attrs, has_implied_fn_attrs; rewrite ?(keeps_has_brand _ _ _ _ K); try done; [apply K|].
  intros i v Hi Hlt Hv. apply (kp_any _ _ _ K); [lia|]. by eapply H9.
Qed.

(** ** Marked layouts *)

Lemma has_brand_bit n s : 0 <= n -> has_brand (2 ^ n) s = Z.testbit (brands s) n.
Proof.
  intros Hn. unfold has_brand. destruct (Z.testbit (brands s) n) eqn:E.
  - apply negb_true_iff, Z.eqb_neq. intros H. assert (Z.testbit (Z.land (brands s) (2 ^ n)) n = true) as Ht.
    { rewrite Z.land_spec, E, Z.pow2_bits_true by done. done. }
    rewrite H, Z.bits_0 in Ht. done.
  - apply negb_false_iff, Z.eqb_eq, Z.bits_inj'. intros m Hm. rewrite Z.land_spec, Z.bits_0, Z.pow2_bits_eqb by done.
    destruct (Z.eqb_spec n m) as [<-|]; [by rewrite E|by rewrite andb_false_r].
Qed.

Lemma has_brand_lor a b s : has_brand (Z.lor a b) s = has_brand a s || has_brand b s.
Proof.
  unfold has_brand. rewrite Z.land_lor_distr_r. destruct (Z.eqb_spec (Z.land (brands s) a) 0) as [->|Ha]; [done|].
  simpl. apply negb_true_iff, Z.eqb_neq. intros H. by apply Z.lor_eq_0_iff in H as [? _].
Qed.

Lemma implied_attrs_or s : has_implied_attrs s = has_implied_fn_attrs s || has_implied_ctor_attrs s.
Proof. apply has_brand_lor. Qed.

(** What the implied bits say of a layout. *)
Lemma marked_cases st i s : wf st -> live st !! i = Some s ->
  marked s = has_implied_fn_attrs s || has_implied_ctor_attrs s /\
  (has_implied_fn_attrs s = true -> has_implied_ctor_attrs s = false /\ skeys st i = [bytes "length"; bytes "name"]).
Proof.
  intros [Hst _] Hi. split; [apply implied_attrs_or|].
  destruct (so_brands _ _ _ (Hst i s Hi)) as (m & Hm & Hc). unfold has_implied_fn_attrs, has_implied_ctor_attrs.
  change IMPLIED_FN_ATTRS_BIT with (2 ^ 6). change IMPLIED_CTOR_ATTRS_BIT with (2 ^ 5). rewrite !has_brand_bit by lia.
  rewrite Hm, !Z.lor_spec. intros H.
  destruct (Z.testbit (keys_bits (skeys st i)) 6) eqn:E6; [apply keys_bits_range in E6; lia|].
  destruct (Z.testbit (keys_bits (skeys st i)) 5) eqn:E5; [apply keys_bits_range in E5; lia|].
  simpl in H. destruct Hc as [->|[->|[-> Hk]]]; done.
Qed.

(** ** The logic of methods *)

Definition ok (s : Sys) : Prop := wf (shapes s) /\ obj_ok (shapes s) (self s).
Definition view (s : Sys) : Spec := spec_of (shapes s) (self s).

(** Only memo cells differ. *)
Record same_sys (s s' : Sys) : Prop := {
  sy_self : self s' = self s; sy_memo : memo_eq (shapes s) (shapes s');
  sy_proto : proto_epoch s' = proto_epoch s; sy_global : global_epoch s' = global_epoch s }.

Definition reads {A} (m : method A) (s : Sys) (v : A) : Prop := wp m (fun x s' => x = v /\ same_sys s s') s.

Definition goes {A} (m : method A) (s : Sys) (p : Spec) (Q : A -> Sys -> Prop) : Prop :=
  wp m (fun x s' => ok s' /\ extends (shapes s) (shapes s') /\ view s' = p /\ Q x s') s.

Definition does {A} (m : method A) (s : Sys) (v : A) (p : Spec) : Prop := goes m s p (fun x _ => x = v).

Lemma same_sys_refl s : ok s -> same_sys s s.
Proof. intros [[H _] _]. split; [done|by apply memo_refl|done|done]. Qed.

Lemma same_sys_trans a b c : same_sys a b -> same_sys b c -> same_sys a c.
Proof. intros [A1 A2 A3 A4] [B1 B2 B3 B4]. split; try congruence. by eapply memo_trans. Qed.

Lemma same_sys_extends s s' : same_sys s s' -> extends (shapes s) (shapes s').
Proof. intros H. apply memo_extends, H. Qed.

Lemma ok_extends s st' : ok s -> wf st' -> extends (shapes s) st' -> obj_ok st' (self s) /\ spec_of st' (self s) = view s.
Proof.
  intros [Hw Ho] Hw' He. assert (K : keeps (shapes s) st' (o_shape (self s))) by (apply extends_keeps; [done..|apply Ho]).
  split; [by eapply keeps_ok|by apply keeps_spec].
Qed.

Lemma same_sys_ok s s' : ok s -> same_sys s s' -> ok s' /\ view s' = view s.
Proof.
  intros Hok [E1 E2 _ _]. assert (Hw : wf (shapes s')) by (eapply memo_wf; [done|apply Hok]).
  destruct (ok_extends s (shapes s') Hok Hw (memo_extends _ _ E2)) as [H1 H2]. unfold ok, view. rewrite E1. done.
Qed.

Section Logic.
Context {A B : Type}.
Implicit Types (s : Sys) (p : Spec).

Lemma reads_ret s (v : A) : ok s -> reads (mret v) s v.
Proof. intros H. apply wp_ret. split; [done|by apply same_sys_refl]. Qed.

Lemma reads_gets s (f : Sys -> A) v : ok s -> f s = v -> reads (gets f) s v.
Proof. intros H E. apply wp_gets. split; [done|by apply same_sys_refl]. Qed.

Lemma reads_bind s (m : method A) (f : A -> method B) v w : ok s -> reads m s v ->
  (forall s', ok s' -> same_sys s s' -> reads (f v) s' w) -> reads (m ≫= f) s w.
Proof.
  intros Hok Hm Hf. apply wp_bind. eapply wp_mono; [exact Hm|]. intros x s1 [-> E1].
  eapply wp_mono; [apply Hf; [by eapply same_sys_ok|done]|]. intros y s2 [-> E2]. split; [done|by eapply same_sys_trans].
Qed.

Lemma goes_read s (m : method A) (f : A -> method B) v p Q : ok s -> reads m s v ->
  (forall s', ok s' -> same_sys s s' -> goes (f v) s' p Q) -> goes (m ≫= f) s p Q.
Proof.
  intros Hok Hm Hf. apply wp_bind. eapply wp_mono; [exact Hm|]. intros x s1 [-> E1].
  eapply wp_mono; [apply Hf; [by eapply same_sys_ok|done]|]. intros y s2 (H1 & H2 & H3 & H4). split_and!; try done.
  etrans; [by apply same_sys_extends|done].
Qed.

Lemma goes_bind s (m : method A) (f : A -> method B) p p' Q Q' : goes m s p Q ->
  (forall x s', ok s' -> extends (shapes s) (shapes s') -> view s' = p -> Q x s' -> goes (f x) s' p' Q') -> goes (m ≫= f) s p' Q'.
Proof.
  intros Hm Hf. apply wp_bind. eapply wp_mono; [exact Hm|]. intros x s1 (H1 & H2 & H3 & H4).
  eapply wp_mono; [by apply (Hf x s1)|]. intros y s2 (K1 & K2 & K3 & K4). split_and!; try done. by etrans.
Qed.

Lemma goes_mono s (m : method A) p (Q Q' : A -> Sys -> Prop) : goes m s p Q ->
  (forall x s', ok s' -> view s' = p -> extends (shapes s) (shapes s') -> Q x s' -> Q' x s') -> goes m s p Q'.
Proof. intros Hm HQ. eapply wp_mono; [exact Hm|]. intros x s1 (H1 & H2 & H3 & H4). split_and!; auto. Qed.

Lemma goes_ret s (v : A) p (Q : A -> Sys -> Prop) : ok s -> view s = p -> Q v s -> goes (mret v) s p Q.
Proof. intros H1 H2 H3. apply wp_ret. by split_and!. Qed.

Lemma reads_goes s (m : method A) v : ok s -> reads m s v -> goes m s (view s) (fun x s' => x = v /\ same_sys s s').
Proof.
  intros Hok Hm. eapply wp_mono; [exact Hm|]. intros x s1 [-> E1]. destruct (same_sys_ok s s1 Hok E1).
  split_and!; try done. by apply same_sys_extends.
Qed.

Lemma goes_put s f p Q : wf (shapes s) -> obj_ok (shapes s) (f (self s)) -> spec_of (shapes s) (f (self s)) = p ->
  Q tt (with_self (f (self s)) s) -> goes (put f) s p Q.
Proof. intros H1 H2 H3 H4. apply wp_modify. by split_and!. Qed.

Lemma goes_on_shapes s (f : Shapes -> A * Shapes) p (Q : A -> Sys -> Prop) : ok s -> view s = p -> wf (snd (f (shapes s))) ->
  extends (shapes s) (snd (f (shapes s))) -> Q (fst (f (shapes s))) (with_shapes (snd (f (shapes s))) s) ->
  goes (on_shapes f) s p Q.
Proof.
  intros Hok Hv Hw He HQ. apply wp_act. destruct (f (shapes s)) as [a st'] eqn:E. cbn [fst snd] in *.
  destruct (ok_extends s st' Hok Hw He) as [H1 H2]. split_and!; [done|done| |done]. unfold view in *. cbn. congruence.
Qed.
End Logic.

(** A step on what was read. *)
Lemma reads_me {B} s (f : Object -> method B) w : reads (f (self s)) s w -> reads (me ≫= f) s w.
Proof. done. Qed.
Lemma reads_my_shape {B} s (f : Shape -> method B) w :
  reads (f (shape_at (shapes s) (o_shape (self s)))) s w -> reads (my_shape ≫= f) s w.
Proof. done. Qed.
Lemma goes_me {B} s (f : Object -> method B) p Q : goes (f (self s)) s p Q -> goes (me ≫= f) s p Q.
Proof. done. Qed.
Lemma goes_my_shape {B} s (f : Shape -> method B) p Q :
  goes (f (shape_at (shapes s) (o_shape (self s)))) s p Q -> goes (my_shape ≫= f) s p Q.
Proof. done. Qed.
Lemma goes_put_then {B} s f (g : unit -> method B) p Q : goes (g tt) (with_self (f (self s)) s) p Q -> goes (put f ≫= g) s p Q.
Proof. done. Qed.
Lemma goes_assoc {A B C} s (m : method A) (f : A -> method B) (g : B -> method C) p Q :
  goes ((m ≫= f) ≫= g) s p Q -> goes (m ≫= fun x => f x ≫= g) s p Q.
Proof. unfold goes, wp, mbind, prog_bind. by destruct (m s) as [[x s']|]. Qed.

(** A change of the store that the next step completes. *)
Lemma goes_on_shapes_then {A B} s (f : Shapes -> A * Shapes) (g : A -> method B) p Q : extends (shapes s) (snd (f (shapes s))) ->
  goes (g (fst (f (shapes s)))) (with_shapes (snd (f (shapes s))) s) p Q -> goes (on_shapes f ≫= g) s p Q.
Proof.
  intros He Hg. apply wp_bind. unfold on_shapes. apply wp_act. destruct (f (shapes s)) as [a st']. cbn [fst snd] in *.
  eapply wp_mono; [exact Hg|]. intros y s2 (H1 & H2 & H3 & H4). split_and!; try done. by etrans.
Qed.
