(* ===== verification/ObjectData.v ===== *)
(** * The properties of an object as an association list

    A dictionary is an order of keys with holes and a map from a key to its value
    and its position in that order; a shaped object is the keys of a layout next
    to the slots.  Both are association lists without repetition, and the
    operations on the one and on the other are the same operations on lists. *)

From S2P Require Import Prelude Prog NanBox Shape ShapeTable ShapeInv Object ObjectAttr ObjectSlots ObjectInv.

#[local] Abbreviation length := Datatypes.length.
Open Scope Z_scope.

(** ** Association lists *)

Lemma assoc_None {V} k (l : list (key * V)) : assoc k l = None <-> k ∉ l.*1.
Proof. induction l as [|[k' v] l IH]; simpl; [set_solver|]. case_decide; set_solver. Qed.

Lemma assoc_is_Some {V} k (l : list (key * V)) : is_Some (assoc k l) <-> k ∈ l.*1.
Proof. rewrite <- not_eq_None_Some, assoc_None. destruct (decide (k ∈ l.*1)); tauto. Qed.

Lemma assoc_elem {V} k v (l : list (key * V)) : NoDup l.*1 -> assoc k l = Some v <-> (k, v) ∈ l.
Proof.
  induction l as [|[k' v'] l IH]; simpl; [set_solver|]. intros [Hn Hnd]%NoDup_cons. rewrite elem_of_cons. case_decide as E.
  - subst. split; [intros [= ->]; by left|]. intros [[= ->]|Hin]; [done|]. exfalso. apply Hn, list_elem_of_fmap. by exists (k, v).
  - rewrite IH by done. split; [by right|]. by intros [[= -> ->]|?].
Qed.

Lemma assoc_app {V} k (l l' : list (key * V)) : assoc k (l ++ l') = match assoc k l with Some v => Some v | None => assoc k l' end.
Proof. induction l as [|[k' v] l IH]; simpl; [done|]. by case_decide. Qed.

Lemma assoc_zip (ks : list key) (vs : list NanBox) k : length ks = length vs ->
  assoc k (zip ks vs) = slot_of ks k ≫= fun s => vs !! Z.to_nat s.
Proof.
  revert vs. induction ks as [|k' ks IH]; intros [|v vs]; try done. intros [= H]. simpl. unfold slot_of. simpl. destruct (decide (k' = k)); [done|].
  rewrite IH by done. unfold slot_of. destruct (list_find _ ks) as [[i x]|]; simpl; [|done].
  by replace (Z.to_nat (Z.of_nat (S i))) with (S (Z.to_nat (Z.of_nat i))) by lia.
Qed.

Lemma zip_keys (ks : list key) (vs : list NanBox) : length ks = length vs -> (zip ks vs).*1 = ks.
Proof. intros H. apply fst_zip. lia. Qed.

Lemma assoc_set_keys {V} k (v : V) l : (assoc_set k v l).*1 = l.*1.
Proof.
  unfold assoc_set. rewrite <- list_fmap_compose. apply list_fmap_ext. intros i [k' v'] _. simpl. by case_decide.
Qed.

Lemma assoc_set_zip (ks : list key) (vs : list NanBox) k v i : NoDup ks -> ks !! i = Some k -> length ks = length vs ->
  assoc_set k v (zip ks vs) = zip ks (<[i := v]> vs).
Proof.
  revert vs i. induction ks as [|k' ks IH]; intros [|v' vs] i; try done. intros [Hn Hnd]%NoDup_cons Hi [= Hl]. csimpl. destruct i as [|i]; simpl in Hi.
  - injection Hi as ->. rewrite decide_True by done. f_equal. clear IH Hl. revert vs.
    induction ks as [|k1 ks IH]; intros [|v1 vs]; try done. csimpl. apply NoDup_cons in Hnd as [_ Hnd].
    apply not_elem_of_cons in Hn as [Hn1 Hn]. rewrite decide_False by done. f_equal. by apply IH.
  - rewrite decide_False by (intros ->; apply Hn; by eapply list_elem_of_lookup_2). f_equal. by apply IH.
Qed.

Lemma assoc_del_keys {V} k (l : list (key * V)) : (assoc_del k l).*1 = List.filter (fun k' => negb (bool_decide (k' = k))) l.*1.
Proof. unfold assoc_del. induction l as [|[k' v] l IH]; csimpl; [done|]. destruct (negb _); csimpl; [by f_equal|done]. Qed.

Lemma assoc_del_other {V} k k' (l : list (key * V)) : k' <> k -> assoc k' (assoc_del k l) = assoc k' l.
Proof.
  intros Hne. unfold assoc_del. induction l as [|[k1 v] l IH]; [done|]. csimpl. destruct (decide (k1 = k)) as [->|Hk].
  - rewrite bool_decide_true by done. simpl. by rewrite IH, decide_False.
  - rewrite bool_decide_false by done. simpl. by rewrite IH.
Qed.

Lemma assoc_del_id {V} k (l : list (key * V)) : k ∉ l.*1 -> assoc_del k l = l.
Proof.
  unfold assoc_del. induction l as [|[k1 v] l IH]; [done|]. csimpl. intros [Hk Hl]%not_elem_of_cons.
  rewrite bool_decide_false by congruence. simpl. f_equal. by apply IH.
Qed.

Lemma assoc_set_other {V} k k' (v : V) l : k' <> k -> assoc k' (assoc_set k v l) = assoc k' l.
Proof.
  intros Hne. unfold assoc_set. induction l as [|[k1 v1] l IH]; [done|]. csimpl. destruct (decide (k1 = k)) as [->|Hk]; simpl.
  - by rewrite !decide_False, IH by done.
  - by rewrite IH.
Qed.

Lemma assoc_set_same {V} k (v : V) l : k ∈ l.*1 -> assoc k (assoc_set k v l) = Some v.
Proof.
  unfold assoc_set. induction l as [|[k1 v1] l IH]; csimpl; [set_solver|]. intros H. destruct (decide (k1 = k)) as [->|Hk]; simpl.
  - by rewrite decide_True.
  - rewrite decide_False by done. apply IH. set_solver.
Qed.

(** ** Dictionaries *)

Lemma dict_list_assoc d k : dict_ok d -> assoc k (dict_list d) = d_value <$> d_map d !! k.
Proof.
  intros Hd. unfold dict_list.
  enough (forall order, (d_map d !! k = None \/ Some k ∈ order) ->
    assoc k (omap (fun ok => k ← ok; s ← d_map d !! k; Some (k, d_value s)) order) = d_value <$> d_map d !! k) as H.
  { apply H. destruct (d_map d !! k) as [s|] eqn:Ek; [right|by left]. eapply list_elem_of_lookup_2. by apply (dk_pos _ Hd). }
  induction order as [|[k'|] order IH]; intros Hk; csimpl.
  - destruct Hk as [->|Hk]; [done|by apply elem_of_nil in Hk].
  - destruct (decide (k' = k)) as [->|Hne].
    + destruct (d_map d !! k) as [s|] eqn:E; csimpl; [by rewrite decide_True|]. apply IH. by left.
    + assert (d_map d !! k = None \/ Some k ∈ order) as Hk' by (rewrite elem_of_cons in Hk; naive_solver).
      destruct (d_map d !! k') as [s|] eqn:E; csimpl; [rewrite decide_False by done|]; by apply IH.
  - apply IH. rewrite elem_of_cons in Hk. naive_solver.
Qed.

Lemma dict_list_keys d : dict_ok d -> (dict_list d).*1 = omap id (d_order d).
Proof.
  intros Hd. unfold dict_list. assert (forall k, Some k ∈ d_order d -> is_Some (d_map d !! k)) as H.
  { intros k (i & Hi)%list_elem_of_lookup. apply (dk_map _ Hd) in Hi as (s & -> & _). by eexists. }
  induction (d_order d) as [|[k|] order IH]; csimpl; [done| |].
  - destruct (H k ltac:(by left)) as [s ->]. csimpl. f_equal. apply IH. intros k' Hk'. apply H. by right.
  - apply IH. intros k' Hk'. apply H. by right.
Qed.

Lemma omap_id_elem {A} (x : A) (order : list (option A)) : x ∈ omap id order <-> Some x ∈ order.
Proof. rewrite list_elem_of_omap. naive_solver. Qed.

Lemma dict_order_NoDup d : dict_ok d -> NoDup (omap id (d_order d)).
Proof.
  intros Hd. assert (forall i j k, d_order d !! i = Some (Some k) -> d_order d !! j = Some (Some k) -> i = j) as H.
  { intros i j k Hi Hj. apply (dk_map _ Hd) in Hi as (s & Hs & <-). apply (dk_map _ Hd) in Hj as (s' & Hs' & <-). congruence. }
  clear Hd. induction (d_order d) as [|[k|] order IH]; csimpl; [constructor| |].
  - apply NoDup_cons. split.
    + intros (i & Hi)%omap_id_elem%list_elem_of_lookup. by specialize (H O (S i) k eq_refl Hi).
    + apply IH. intros i j k' Hi Hj. by injection (H (S i) (S j) k' Hi Hj).
  - apply IH. intros i j k' Hi Hj. by injection (H (S i) (S j) k' Hi Hj).
Qed.

Lemma dict_keys_elem d k : dict_ok d -> Some k ∈ d_order d <-> is_Some (d_map d !! k).
Proof.
  intros Hd. split.
  - intros (i & Hi)%list_elem_of_lookup. apply (dk_map _ Hd) in Hi as (s & -> & _). by eexists.
  - intros [s Hs]. eapply list_elem_of_lookup_2. by apply (dk_pos _ Hd).
Qed.

Lemma dict_size d : dict_ok d -> size (d_map d) = length (dict_list d).
Proof.
  intros Hd. rewrite <- (length_fmap fst), dict_list_keys by done. rewrite <- size_dom.
  rewrite <- (size_list_to_set (C := gset key) (omap id (d_order d))) by (by apply dict_order_NoDup). f_equal.
  apply set_eq. intros k. rewrite elem_of_dom, elem_of_list_to_set, omap_id_elem. by rewrite dict_keys_elem.
Qed.

(** The entries of an order depend on the map at its keys only. *)
Lemma omap_keys_ext (m m' : gmap key DictSlot) (order : list (option key)) : (forall k, Some k ∈ order -> m !! k = m' !! k) ->
  omap (fun ok => k ← ok; s ← m !! k; Some (k, d_value s)) order = omap (fun ok => k ← ok; s ← m' !! k; Some (k, d_value s)) order.
Proof.
  induction order as [|[k|] order IH]; intros H; csimpl; [done| |apply IH; intros k' Hk'; apply H; by right].
  rewrite (H k) by (by left). rewrite IH by (intros k' Hk'; apply H; by right). done.
Qed.

(** The updates. *)
Lemma dict_set_ok d k v s : dict_ok d -> d_map d !! k = Some s ->
  let d' := MkDict (d_order d) (<[k := MkDictSlot v (d_pos s)]> (d_map d)) in
  dict_ok d' /\ dict_list d' = assoc_set k v (dict_list d).
Proof.
  intros Hd Hk d'. split.
  - split; simpl.
    + intros k' s' [[<- <-]|[Hne Hs']]%lookup_insert_Some; simpl; by apply (dk_pos _ Hd).
    + intros i k' Hi. apply (dk_map _ Hd) in Hi as (s' & Hs' & Hp). destruct (decide (k = k')) as [<-|Hne].
      * exists (MkDictSlot v (d_pos s)). rewrite lookup_insert_eq. simpl. split; [done|]. congruence.
      * exists s'. by rewrite lookup_insert_ne.
  - unfold dict_list, assoc_set, d'. cbn [d_order d_map]. induction (d_order d) as [|[k'|] order IH]; csimpl; [done| |done].
    destruct (decide (k = k')) as [<-|Hne].
    + rewrite lookup_insert_eq, Hk. csimpl. rewrite decide_True by done. by f_equal.
    + rewrite lookup_insert_ne by done. destruct (d_map d !! k') as [s'|]; csimpl; [|done]. rewrite decide_False by done. by f_equal.
Qed.

Lemma dict_add_ok d k v : dict_ok d -> d_map d !! k = None ->
  let d' := MkDict (d_order d ++ [Some k]) (<[k := MkDictSlot v (length (d_order d))]> (d_map d)) in
  dict_ok d' /\ dict_list d' = dict_list d ++ [(k, v)].
Proof.
  intros Hd Hk d'. assert (Hn : Some k ∉ d_order d) by (rewrite dict_keys_elem by done; rewrite Hk; by intros []). split.
  - split; simpl.
    + intros k' s' [[<- <-]|[Hne Hs']]%lookup_insert_Some; simpl; [by rewrite lookup_app_r, Nat.sub_diag|].
      apply lookup_app_l_Some. by apply (dk_pos _ Hd).
    + intros i k' [Hi|[Hi Hk']]%lookup_app_Some.
      * assert (k <> k') by (intros <-; apply Hn; by eapply list_elem_of_lookup_2). rewrite lookup_insert_ne by done. by apply (dk_map _ Hd).
      * apply list_lookup_singleton_Some in Hk' as [Hk' [= <-]]. eexists. rewrite lookup_insert_eq. split; [done|]. simpl. lia.
  - unfold dict_list, d'. cbn [d_order d_map]. rewrite omap_app. csimpl. rewrite lookup_insert_eq. csimpl. f_equal.
    apply omap_keys_ext. intros k' Hk'. rewrite lookup_insert_ne; [done|]. by intros <-.
Qed.

Lemma dict_remove_ok d k s : dict_ok d -> d_map d !! k = Some s ->
  let d' := MkDict (<[d_pos s := None]> (d_order d)) (base.delete k (d_map d)) in
  dict_ok d' /\ dict_list d' = assoc_del k (dict_list d).
Proof.
  intros Hd Hk d'. pose proof (dk_pos _ Hd k s Hk) as Hp. split.
  - split; simpl.
    + intros k' s' [Hne Hs']%lookup_delete_Some. rewrite list_lookup_insert_ne; [by apply (dk_pos _ Hd)|].
      intros E. apply (dk_pos _ Hd) in Hs'. rewrite <- E in Hs'. congruence.
    + intros i k' Hi. apply list_lookup_insert_Some in Hi as [(_ & [=] & _)|[Hne Hi]].
      apply (dk_map _ Hd) in Hi as (s' & Hs' & <-). exists s'. split; [|done]. rewrite lookup_delete_ne; [done|]. intros <-. congruence.
  - unfold dict_list, d', assoc_del. cbn [d_order d_map].
    assert (Hu : forall j, d_order d !! j = Some (Some k) -> j = d_pos s).
    { intros j Hj. apply (dk_map _ Hd) in Hj as (s' & Hs' & <-). congruence. }
    clear Hd d'. revert Hp Hu. generalize (d_pos s). induction (d_order d) as [|ok order IH]; intros n Hp Hu; [done|].
    destruct n as [|n]; csimpl in Hp.
    + injection Hp as ->. csimpl. rewrite Hk. csimpl. rewrite bool_decide_true by done. csimpl.
      assert (Hn : Some k ∉ order) by (intros (j & Hj)%list_elem_of_lookup; by specialize (Hu (S j) Hj)).
      rewrite (omap_keys_ext _ (d_map d)) by (intros k' Hk'; rewrite lookup_delete_ne; [done|by intros <-]).
      symmetry. apply assoc_del_id. intros ([k' v] & -> & Hin)%list_elem_of_fmap.
      apply list_elem_of_omap in Hin as ([k1|] & Hk1 & E); [|done]. simpl in E. destruct (d_map d !! k1); [|done]. simpl in E. by injection E as -> _.
    + csimpl. assert (Hok : ok <> Some k) by (intros ->; by specialize (Hu O eq_refl)).
      rewrite (IH n Hp) by (intros j Hj; by injection (Hu (S j) Hj)). destruct ok as [k1|]; csimpl; [|done].
      rewrite lookup_delete_ne by congruence. destruct (d_map d !! k1) as [s1|]; csimpl; [|done].
      by rewrite bool_decide_false by congruence.
Qed.

(** ** Compaction and conversion *)

Definition live_order (order : list (option key)) : list (option key) := List.filter (fun k => bool_decide (is_Some k)) order.

Lemma renumber_length order n : length (renumber_from n order) = length order.
Proof. revert n. induction order as [|k order IH]; intros n; simpl; [done|by rewrite IH]. Qed.

Lemma renumber_lookup order n i k : order !! i = Some (Some k) ->
  exists j, renumber_from n order !! i = Some (n + j)%nat /\ live_order order !! j = Some (Some k).
Proof.
  revert n i. induction order as [|ok order IH]; intros n i; [done|]. destruct i as [|i]; simpl.
  - intros [= ->]. exists O. by rewrite Nat.add_0_r.
  - intros Hi. destruct ok as [k'|]; csimpl.
    + destruct (IH (S n) i Hi) as (j & -> & Hj). exists (S j). split; [f_equal; lia|done].
    + apply (IH n i Hi).
Qed.

Lemma renumber_lookup_back order n j k : live_order order !! j = Some (Some k) ->
  exists i, order !! i = Some (Some k) /\ renumber_from n order !! i = Some (n + j)%nat.
Proof.
  revert n j. induction order as [|[k'|] order IH]; intros n j Hj; [done| |].
  - unfold live_order in Hj. csimpl in Hj. destruct j as [|j]; simpl in Hj.
    + injection Hj as ->. exists O. simpl. split; [done|f_equal; lia].
    + destruct (IH (S n) j Hj) as (i & Hi & Hr). exists (S i). split; [done|]. simpl. rewrite Hr. f_equal. lia.
  - destruct (IH n j Hj) as (i & Hi & Hr). by exists (S i).
Qed.

Lemma compact_ok d : dict_ok d -> exists m, renumber_map (renumber_from 0 (d_order d)) (d_map d) = Some m /\
  dict_ok (MkDict (live_order (d_order d)) m) /\ dict_list (MkDict (live_order (d_order d)) m) = dict_list d.
Proof.
  intros Hd. unfold renumber_map. set (rn := renumber_from 0 (d_order d)).
  assert (forallb (fun e : key * DictSlot => (d_pos (snd e) <? length rn)%nat) (map_to_list (d_map d)) = true) as ->.
  { apply List.forallb_forall. intros [k s] Hin. apply list_elem_of_In, elem_of_map_to_list in Hin. apply (dk_pos _ Hd), lookup_lt_Some in Hin.
    apply Nat.ltb_lt. unfold rn. by rewrite renumber_length. }
  eexists. split; [done|]. split.
  - split; cbn [d_order d_map].
    + intros k s. rewrite lookup_fmap. intros (s' & Hs' & ->)%fmap_Some. simpl. apply (dk_pos _ Hd) in Hs'.
      destruct (renumber_lookup _ 0 _ _ Hs') as (j & Hj & Hl). fold rn in Hj. by rewrite (nth_lookup_Some _ _ _ _ Hj).
    + intros i k Hi. destruct (renumber_lookup_back _ 0 _ _ Hi) as (j & Hj & Hr). fold rn in Hr.
      apply (dk_map _ Hd) in Hj as (s & Hs & <-). rewrite lookup_fmap, Hs. eexists. split; [done|]. simpl.
      by rewrite (nth_lookup_Some _ _ _ _ Hr).
  - unfold dict_list. cbn [d_order d_map]. clearbody rn. clear Hd.
    induction (d_order d) as [|[k|] order IH]; [done| |apply IH].
    unfold live_order. csimpl. rewrite lookup_fmap. unfold live_order in IH. rewrite IH. by destruct (d_map d !! k).
Qed.

Lemma dict_entries_ok vs : NoDup vs.*1 -> dict_ok (dict_entries vs) /\ dict_list (dict_entries vs) = vs.
Proof.
  unfold dict_entries. induction vs as [|[k v] vs IH] using rev_ind; [by split|]. rewrite fmap_app. intros (Hnd & Hk & _)%NoDup_app.
  destruct (IH Hnd) as [Hd Hl]. rewrite foldl_app. cbn [foldl]. set (d := foldl _ _ _) in *. destruct (dict_add_ok d k v Hd) as [H1 H2].
  - apply eq_None_not_Some. rewrite <- dict_keys_elem, <- omap_id_elem, <- dict_list_keys, Hl by done. intros Hin. apply (Hk k Hin). by left.
  - split; [done|]. cbn [fst snd]. by rewrite H2, Hl.
Qed.

(** ** Both representations *)

Section Data.
Context (st : Shapes) (o : Object).
Hypothesis Hw : wf st.
Hypothesis Ho : obj_ok st o.

Abbreviation ks := (skeys st (o_shape o)).

Lemma obj_dict : o_mode o = Dict -> ks = [] /\ x_dict (ex o) = Some (dict o) /\ dict_ok (dict o).
Proof using Ho.
  intros E. pose proof (oo_mode _ _ Ho) as H. rewrite E in H. destruct H as (H & d & Hd & Hok). unfold dict. by rewrite Hd.
Qed.

Lemma obj_keys_NoDup : NoDup ks.
Proof using Hw Ho. destruct (oo_live _ _ Ho) as [s Hs]. by apply (skeys_NoDup st _ s); [apply Hw|]. Qed.

Lemma obj_slots_length : length ks = length (slots_iter o).
Proof using Ho. pose proof (slots_iter_length o (oo_slots _ _ Ho)) as H. pose proof (oo_len _ _ Ho). lia. Qed.

Lemma obj_slen : slen (shape_at st (o_shape o)) = o_len o.
Proof using Hw Ho.
  destruct (oo_live _ _ Ho) as [s Hs]. rewrite (shape_at_live _ _ _ Hs), (oo_len _ _ Ho). by apply slen_skeys; [apply Hw|].
Qed.

Lemma data_keys : (data_of st o).*1 = if is_dict o then omap id (d_order (dict o)) else ks.
Proof using Ho.
  unfold data_of, is_dict. destruct (o_mode o) eqn:E; [apply zip_keys, obj_slots_length|]. apply dict_list_keys. by apply obj_dict.
Qed.

Lemma data_NoDup : NoDup (data_of st o).*1.
Proof using Hw Ho.
  rewrite data_keys. unfold is_dict. destruct (o_mode o) eqn:E; [apply obj_keys_NoDup|]. apply dict_order_NoDup. by apply obj_dict.
Qed.

Lemma data_assoc k : assoc k (data_of st o) =
  if is_dict o then d_value <$> d_map (dict o) !! k else slot_of ks k ≫= fun s => slots_iter o !! Z.to_nat s.
Proof using Ho.
  unfold data_of, is_dict. destruct (o_mode o) eqn:E; [apply assoc_zip, obj_slots_length|]. apply dict_list_assoc. by apply obj_dict.
Qed.

Lemma obj_unmarked_dict : o_mode o = Dict -> marked (shape_at st (o_shape o)) = false.
Proof using Hw Ho.
  intros E. destruct (obj_dict E) as (Hk & _). destruct (oo_live _ _ Ho) as [s Hs]. rewrite (shape_at_live _ _ _ Hs).
  destruct Hw as [Hst _]. destruct (parent s) as [p|] eqn:Ep.
  - destruct (so_child _ _ _ (Hst _ _ Hs) p Ep) as (_ & ps & k & _ & Hk' & _). rewrite (skeys_child st _ s p k) in Hk by done.
    by destruct (skeys st p).
  - destruct (so_root _ _ _ (Hst _ _ Hs) Ep) as (_ & _ & _ & Hb). unfold marked, has_implied_attrs, has_brand. by rewrite Hb.
Qed.
End Data.
