(* ===== verification/ObjectReads.v ===== *)
(** * The methods that read an object

    Each answers what the abstract object says, and touches memo cells only. *)

From Stdlib Require Import String.
From S2P Require Import Prelude Prog NanBox Shape ShapeTable ShapeInv Object ObjectAttr ObjectSlots ObjectInv ObjectData.

#[local] Abbreviation length := Datatypes.length.
Open Scope Z_scope.

Lemma bool_decide_or P Q `{Decision P, Decision Q} : bool_decide (P \/ Q) = bool_decide P || bool_decide Q.
Proof. case_bool_decide as E; symmetry; [apply orb_true_iff|apply orb_false_iff]; rewrite ?bool_decide_eq_true, ?bool_decide_eq_false; tauto. Qed.

Lemma has_mark_empty x m k : attrs_ok x -> negb (bool_decide (marks m x = [])) && has_mark m k x = bool_decide (k ∈ marks m x).
Proof.
  intros H. rewrite has_mark_spec by done. destruct (marks m x) as [|k' l] eqn:E; [|done]. symmetry. apply bool_decide_eq_false. by intros ?%elem_of_nil.
Qed.

Lemma slot_of_take l n k : NoDup l -> 0 <= n ->
  match slot_of l k with Some s => s <? n | None => false end = bool_decide (k ∈ take (Z.to_nat n) l).
Proof.
  intros Hnd Hn. destruct (slot_of l k) as [s|] eqn:E.
  - apply slot_of_Some in E as [Hs E]; [|done]. case_cmp; symmetry; [apply bool_decide_eq_true|apply bool_decide_eq_false].
    + apply list_elem_of_lookup. exists (Z.to_nat s). by rewrite lookup_take_lt by lia.
    + intros (j & Hj)%list_elem_of_lookup. apply lookup_take_Some in Hj as [Hj Hlt].
      pose proof (NoDup_lookup l j (Z.to_nat s) k Hnd Hj E). lia.
  - symmetry. apply bool_decide_eq_false. apply slot_of_None in E. intros Hin. apply E. by apply elem_of_take in Hin as (i & ? & _); eapply list_elem_of_lookup_2.
Qed.

(** A read of memo cells leaves layouts alone. *)
Lemma same_sys_keys s s' i : same_sys s s' -> skeys (shapes s') i = skeys (shapes s) i.
Proof. intros H. apply memo_skeys, H. Qed.

Lemma same_sys_brand s s' b : ok s -> same_sys s s' ->
  has_brand b (shape_at (shapes s') (o_shape (self s))) = has_brand b (shape_at (shapes s) (o_shape (self s))).
Proof.
  intros [_ Ho] H. unfold has_brand. by rewrite (extends_brands _ _ _ (same_sys_extends _ _ H) (oo_live _ _ Ho)).
Qed.

Section Layout.
Context (s : Sys).
Hypothesis Hok : ok s.

Abbreviation o := (self s).
Abbreviation st := (shapes s).
Abbreviation sh := (shape_at (shapes s) (o_shape (self s))).
Abbreviation ks := (skeys (shapes s) (o_shape (self s))).
Abbreviation implied := (implied_set (has_implied_fn_attrs sh) (has_implied_ctor_attrs sh) ks (x_hidden_prefix (ex o))).

Lemma shape_lookup_reads k : reads (shape_lookup k) s (slot_of ks k).
Proof using Hok.
  destruct Hok as [Hw Ho]. destruct (lookup_spec st (o_shape o) k Hw (oo_live _ _ Ho)) as (st' & E & Hm).
  unfold reads, shape_lookup, on_shapes, wp, me, gets, act, mbind, prog_bind. rewrite E. by split.
Qed.

Lemma shape_contains_reads k : reads (shape_contains k) s (bool_decide (k ∈ ks)).
Proof using Hok.
  eapply reads_bind; [done|apply shape_lookup_reads|]. intros s' Hok' _. replace (bool_decide (k ∈ ks)) with (bool_decide (is_Some (slot_of ks k))).
  - by apply reads_ret.
  - apply bool_decide_ext. apply slot_of_is_Some.
Qed.

Lemma shape_keys_reads : reads shape_keys s ks.
Proof using Hok. apply reads_gets; [done|]. apply keys_spec; apply Hok. Qed.

Lemma implied_attrs_reads : reads implied_attrs s (marked sh).
Proof using Hok.
  apply reads_me, reads_my_shape. destruct Hok as [Hw Ho]. unfold is_dict. destruct (o_mode o) eqn:E.
  - by apply reads_ret.
  - rewrite (obj_unmarked_dict st o) by done. by apply reads_ret.
Qed.

(** The layout of a dictionary implies nothing. *)
Lemma dict_not_fn : negb (is_dict o) && has_implied_fn_attrs sh = has_implied_fn_attrs sh.
Proof using Hok.
  destruct Hok as [Hw Ho]. unfold is_dict. destruct (o_mode o) eqn:E; [done|]. pose proof (obj_unmarked_dict st o Hw Ho E) as H.
  unfold marked in H. rewrite implied_attrs_or in H. apply orb_false_iff in H as [-> _]. done.
Qed.
Lemma dict_not_ctor : negb (is_dict o) && has_implied_ctor_attrs sh = has_implied_ctor_attrs sh.
Proof using Hok.
  destruct Hok as [Hw Ho]. unfold is_dict. destruct (o_mode o) eqn:E; [done|]. pose proof (obj_unmarked_dict st o Hw Ho E) as H.
  unfold marked in H. rewrite implied_attrs_or in H. apply orb_false_iff in H as [_ ->]. done.
Qed.

Lemma fn_keys : has_implied_fn_attrs sh = true -> has_implied_ctor_attrs sh = false /\ ks = [bytes "length"; bytes "name"].
Proof using Hok.
  destruct Hok as [Hw Ho]. destruct (oo_live _ _ Ho) as [x Hx]. rewrite (shape_at_live _ _ _ Hx). by apply marked_cases.
Qed.

Lemma is_length_or_name k : bool_decide (k = bytes "length") || bool_decide (k = bytes "name") =
  bool_decide (k ∈ [bytes "length"; bytes "name"]).
Proof. rewrite <- bool_decide_or. apply bool_decide_ext. rewrite !elem_of_cons, elem_of_nil. tauto. Qed.

End Layout.

Section Implied.
Context (s : Sys).
Hypothesis Hok : ok s.

Abbreviation o := (self s).
Abbreviation st := (shapes s).
Abbreviation sh := (shape_at (shapes s) (o_shape (self s))).
Abbreviation ks := (skeys (shapes s) (o_shape (self s))).
Abbreviation implied := (implied_set (has_implied_fn_attrs sh) (has_implied_ctor_attrs sh) ks (x_hidden_prefix (ex o))).

Lemma implied_readonly_reads k : reads (implied_readonly k) s (bool_decide (k ∈ implied Readonly)).
Proof using Hok.
  apply reads_me, reads_my_shape. rewrite dict_not_fn by done. unfold implied_set. destruct (has_implied_fn_attrs sh) eqn:E.
  - destruct (fn_keys s Hok E) as [_ ->]. rewrite is_length_or_name. simpl. rewrite (bool_decide_ext _ (k ∈ (list_to_set [bytes "length"; bytes "name"] : gset key))).
    + by apply reads_ret.
    + by rewrite elem_of_list_to_set.
  - simpl. rewrite bool_decide_false by set_solver. by apply reads_ret.
Qed.

Lemma implied_hidden_reads k : reads (implied_hidden k) s (marked sh && bool_decide (k ∈ ks)).
Proof using Hok.
  eapply reads_bind; [done|by apply implied_attrs_reads|]. intros s' Hok' E. unfold and_then. destruct (marked sh) eqn:Em; [|by apply reads_ret].
  apply reads_my_shape. rewrite (sy_self _ _ E). unfold has_implied_fn_attrs at 1. rewrite (same_sys_brand s s' _ Hok E).
  fold (has_implied_fn_attrs sh). simpl. destruct (has_implied_fn_attrs sh) eqn:Ef.
  - destruct (fn_keys s Hok Ef) as [_ ->]. rewrite is_length_or_name. by apply reads_ret.
  - rewrite <- (same_sys_keys _ _ _ E), <- (sy_self _ _ E). by apply shape_contains_reads.
Qed.

Lemma implied_non_configurable_reads k : reads (implied_non_configurable k) s (bool_decide (k ∈ implied NonConfigurable)).
Proof using Hok.
  apply reads_me, reads_my_shape. rewrite <- andb_assoc, dict_not_ctor by done. unfold implied_set, and_then.
  destruct (has_implied_ctor_attrs sh) eqn:Ec; simpl.
  - rewrite andb_true_r. destruct (decide (k = bytes "prototype")) as [->|Hne].
    + rewrite (bool_decide_true (bytes "prototype" = bytes "prototype")) by done.
      match goal with |- reads _ _ (bool_decide ?P) => rewrite (bool_decide_ext P (bytes "prototype" ∈ ks)) end;
        [by apply shape_contains_reads|]. case_bool_decide; set_solver.
    + rewrite (bool_decide_false (k = _)) by done. rewrite bool_decide_false by (case_bool_decide; set_solver). by apply reads_ret.
  - rewrite andb_false_r. rewrite bool_decide_false by set_solver. by apply reads_ret.
Qed.

Lemma prefix_hidden_reads k : reads (prefix_hidden k) s (bool_decide (k ∈ take (Z.to_nat (x_hidden_prefix (ex o))) ks)).
Proof using Hok.
  apply reads_me. destruct Hok as [Hw Ho]. pose proof (oo_prefix _ _ Ho) as Hp. unfold and_then.
  destruct (Z.eqb_spec (x_hidden_prefix (ex o)) 0) as [->|Hne]; simpl.
  - by apply reads_ret.
  - unfold is_dict. destruct (o_mode o) eqn:E; simpl.
    + eapply reads_bind; [done|by apply shape_lookup_reads|]. intros s' Hok' _. rewrite <- slot_of_take; [by apply reads_ret| |lia]. by apply obj_keys_NoDup.
    + destruct (obj_dict _ _ Ho E) as (-> & _). rewrite take_nil. by apply reads_ret.
Qed.

End Implied.

Section MarkReads.
Context (s : Sys).
Hypothesis Hok : ok s.

Abbreviation o := (self s).
Abbreviation st := (shapes s).
Abbreviation sh := (shape_at (shapes s) (o_shape (self s))).
Abbreviation ks := (skeys (shapes s) (o_shape (self s))).
Abbreviation implied := (implied_set (has_implied_fn_attrs sh) (has_implied_ctor_attrs sh) ks (x_hidden_prefix (ex o))).

(** *** Marks *)

Lemma view_mark m k : k ∈ p_mark m (view s) <-> k ∈ marks m (ex o) \/ k ∈ implied m.
Proof. unfold view. destruct m; cbn [p_mark spec_of p_ro p_hid p_nc]; unfold mark_set; by rewrite elem_of_union, elem_of_list_to_set. Qed.

Lemma is_readonly_reads k : reads (is_readonly k) s (bool_decide (k ∈ p_ro (view s))).
Proof using Hok.
  eapply reads_bind; [done|by apply implied_readonly_reads|]. intros s' Hok' E. apply reads_me. rewrite (sy_self _ _ E).
  rewrite (has_mark_empty (ex o) Readonly) by apply Hok. rewrite <- bool_decide_or.
  erewrite (bool_decide_ext (_ \/ _)); [by apply reads_ret|]. pose proof (view_mark Readonly k). simpl in *. tauto.
Qed.

Lemma is_hidden_reads k : reads (is_hidden k) s (bool_decide (k ∈ p_hid (view s))).
Proof using Hok.
  pose proof (view_mark Hidden k) as Hv. cbn [p_mark] in Hv. unfold implied_set in Hv. rewrite <- implied_attrs_or in Hv. fold (marked sh) in Hv.
  pose proof (oo_marked _ _ (proj2 Hok)) as Hp.
  eapply reads_bind; [done|by apply implied_hidden_reads|]. intros s1 Hok1 E1. unfold or_else.
  destruct (marked sh && bool_decide (k ∈ ks)) eqn:Em.
  - apply andb_true_iff in Em as [Em Hin%bool_decide_eq_true]. rewrite bool_decide_true; [by apply reads_ret|]. apply Hv. right. rewrite Em.
    by apply elem_of_list_to_set.
  - eapply reads_bind; [done|by apply prefix_hidden_reads|]. intros s2 Hok2 E2. apply reads_me.
    rewrite (sy_self _ _ E2), (same_sys_keys _ _ _ E1), (sy_self _ _ E1). rewrite (has_mark_empty (ex o) Hidden) by apply Hok. rewrite <- bool_decide_or.
    erewrite (bool_decide_ext (_ \/ _)); [by apply reads_ret|]. rewrite Hv. destruct (marked sh) eqn:Em2.
    + rewrite (Hp eq_refl), elem_of_list_to_set. apply andb_false_iff in Em as [|Em%bool_decide_eq_false]; [done|]. simpl. set_solver.
    + rewrite elem_of_list_to_set. simpl. tauto.
Qed.

Lemma is_non_configurable_reads k : reads (is_non_configurable k) s (bool_decide (k ∈ p_nc (view s))).
Proof using Hok.
  eapply reads_bind; [done|by apply implied_non_configurable_reads|]. intros s' Hok' E. apply reads_me. rewrite (sy_self _ _ E).
  rewrite (has_mark_empty (ex o) NonConfigurable) by apply Hok. rewrite <- bool_decide_or.
  erewrite (bool_decide_ext (_ \/ _)); [by apply reads_ret|]. pose proof (view_mark NonConfigurable k). simpl in *. tauto.
Qed.

Lemma non_configurable_is_empty_reads : reads non_configurable_is_empty s (bool_decide (p_nc (view s) = ∅)).
Proof using Hok.
  assert (Hv : p_nc (view s) = ∅ <-> x_non_configurable (ex o) = [] /\ implied NonConfigurable = ∅).
  { split.
    - intros H. split.
      + destruct (x_non_configurable (ex o)) as [|k l] eqn:E; [done|]. exfalso. pose proof (proj2 (view_mark NonConfigurable k)) as Hk. cbn [p_mark marks] in Hk. rewrite H, E in Hk. set_solver.
      + apply set_eq. intros k. pose proof (proj2 (view_mark NonConfigurable k)) as Hk. cbn [p_mark] in Hk. rewrite H in Hk. set_solver.
    - intros [H1 H2]. apply set_eq. intros k. pose proof (proj1 (view_mark NonConfigurable k)) as Hk. cbn [p_mark marks] in Hk. rewrite H1, H2 in Hk. set_solver. }
  rewrite (bool_decide_ext _ _ Hv). clear Hv. apply reads_me. unfold and_then. case_bool_decide as E1.
  2: { rewrite bool_decide_false by tauto. by apply reads_ret. }
  eapply reads_bind; [done|by apply implied_attrs_reads|]. intros s1 Hok1 F1. apply reads_my_shape. rewrite (sy_self _ _ F1).
  unfold has_implied_ctor_attrs at 1. rewrite (same_sys_brand s s1 _ Hok F1). fold (has_implied_ctor_attrs sh).
  assert (marked sh && has_implied_ctor_attrs sh = has_implied_ctor_attrs sh) as ->.
  { unfold marked. rewrite implied_attrs_or. by destruct (has_implied_fn_attrs sh), (has_implied_ctor_attrs sh). }
  unfold implied_set. destruct (has_implied_ctor_attrs sh) eqn:Ec; simpl.
  - eapply reads_bind; [done|by apply shape_contains_reads|]. intros s2 Hok2 F2. rewrite (same_sys_keys _ _ _ F1), (sy_self _ _ F1).
    case_bool_decide as E2; simpl; [rewrite bool_decide_false|rewrite bool_decide_true]; try by apply reads_ret.
    + intros [_ H]. assert (bytes "prototype" ∈ (∅ : gset key)) as Hx by (rewrite <- H; set_solver). set_solver.
    + done.
  - eapply reads_bind; [done|by apply reads_ret|]. intros s2 Hok2 F2. rewrite bool_decide_true by done. by apply reads_ret.
Qed.

End MarkReads.

Section DataReads.
Context (s : Sys).
Hypothesis Hok : ok s.

Abbreviation o := (self s).
Abbreviation st := (shapes s).
Abbreviation sh := (shape_at (shapes s) (o_shape (self s))).
Abbreviation ks := (skeys (shapes s) (o_shape (self s))).
Abbreviation implied := (implied_set (has_implied_fn_attrs sh) (has_implied_ctor_attrs sh) ks (x_hidden_prefix (ex o))).

(** *** Data properties *)

Lemma view_keys : p_keys (view s) = if is_dict o then omap id (d_order (dict o)) else ks.
Proof using Hok. apply (data_keys st o), Hok. Qed.

Lemma contains_key_reads k : reads (contains_key k) s (bool_decide (k ∈ p_keys (view s))).
Proof using Hok.
  destruct Hok as [Hw Ho]. rewrite view_keys. apply reads_me. unfold is_dict. destruct (o_mode o) eqn:E; [by apply shape_contains_reads|].
  destruct (obj_dict _ _ Ho E) as (_ & _ & Hd). erewrite bool_decide_ext; [by apply reads_ret|].
  by rewrite omap_id_elem, dict_keys_elem.
Qed.

Lemma obj_keys_reads : reads obj_keys s (p_keys (view s)).
Proof using Hok.
  rewrite view_keys. apply reads_me. destruct (is_dict o); [by apply reads_ret|by apply shape_keys_reads].
Qed.

Lemma obj_get_reads k : reads (obj_get k) s (assoc k (p_data (view s))).
Proof using Hok.
  destruct Hok as [Hw Ho]. change (p_data (view s)) with (data_of st o). rewrite data_assoc by done. apply reads_me.
  destruct (is_dict o); [by apply reads_ret|]. eapply reads_bind; [done|by apply shape_lookup_reads|]. intros s1 Hok1 E1.
  destruct (slot_of ks k) as [n|] eqn:En; simpl; [|by apply reads_ret]. apply reads_me. rewrite (sy_self _ _ E1).
  apply slot_of_bound in En. rewrite slot_get_spec; [by apply reads_ret|apply Ho|lia].
Qed.

Lemma key_slot_reads k v : is_dict o = false -> assoc k (p_data (view s)) = Some v -> reads (key_slot k) s (k, v).
Proof using Hok.
  destruct Hok as [Hw Ho]. intros Hm. change (p_data (view s)) with (data_of st o). rewrite data_assoc, Hm by done. intros Hv.
  eapply reads_bind; [done|by apply shape_lookup_reads|]. intros s1 Hok1 E1.
  destruct (slot_of ks k) as [n|] eqn:En; simpl in *; [|done]. apply slot_of_bound in En.
  eapply reads_bind; [done|by apply reads_ret|]. intros s2 Hok2 E2.
  eapply reads_bind; [done| |].
  - apply reads_me. rewrite (sy_self _ _ E2), (sy_self _ _ E1). rewrite slot_get_spec; [|apply Ho|lia]. rewrite Hv. by apply reads_ret.
  - intros s3 Hok3 E3. by apply reads_ret.
Qed.

Lemma obj_len_view : obj_len o st = as_u32 (Z.of_nat (length (p_data (view s)))).
Proof using Hok.
  destruct Hok as [Hw Ho]. change (p_data (view s)) with (data_of st o). unfold obj_len, data_of, is_dict. destruct (o_mode o) eqn:E.
  - rewrite obj_slen by done. pose proof (oo_len _ _ Ho). pose proof (sl_len _ (oo_slots _ _ Ho)) as Hl. unfold MAX_SHAPED_LEN in Hl.
    rewrite length_zip, (obj_slots_length st o Ho), Nat.min_id. pose proof (slots_iter_length _ (oo_slots _ _ Ho)). rewrite as_u32_small; lia.
  - destruct (obj_dict _ _ Ho E) as (_ & _ & Hd). by rewrite dict_size.
Qed.

Lemma obj_is_empty_view : obj_is_empty o st = bool_decide (p_data (view s) = []).
Proof using Hok.
  destruct Hok as [Hw Ho]. change (p_data (view s)) with (data_of st o). unfold obj_is_empty, data_of, is_dict. destruct (o_mode o) eqn:E.
  - unfold is_empty. rewrite obj_slen by done. pose proof (oo_len _ _ Ho). pose proof (obj_slots_length st o Ho) as Hl.
    destruct ks as [|k l]; destruct (slots_iter o) as [|v vs]; try done; simpl in *; case_cmp; try done; lia.
  - destruct (obj_dict _ _ Ho E) as (_ & _ & Hd). apply bool_decide_ext. rewrite <- length_zero_iff_nil, <- dict_size by done. symmetry. apply map_size_empty_iff.
Qed.

Lemma slot_count_view : slot_count o = Z.of_nat (length (p_data (view s)) + length (p_acc (view s))).
Proof using Hok.
  destruct Hok as [Hw Ho]. change (p_data (view s)) with (data_of st o). change (p_acc (view s)) with (x_accessors (ex o)).
  unfold slot_count, data_of, is_dict. destruct (o_mode o) eqn:E.
  - pose proof (slots_iter_length _ (oo_slots _ _ Ho)). rewrite length_zip, (obj_slots_length st o Ho), Nat.min_id. lia.
  - destruct (obj_dict _ _ Ho E) as (_ & _ & Hd). rewrite dict_size by done. lia.
Qed.
End DataReads.

(** ** Loops of reads *)

Lemma filter_reads {A} (p : A -> method bool) (b : A -> bool) l s : ok s ->
  (forall x s', x ∈ l -> ok s' -> same_sys s s' -> reads (p x) s' (b x)) -> reads (filter_prog p l) s (List.filter b l).
Proof.
  revert s. induction l as [|x l IH]; intros s Hok Hp; [by apply reads_ret|]. simpl.
  eapply reads_bind; [done|apply Hp; [by left|done|by apply same_sys_refl]|]. intros s1 Hok1 E1.
  eapply reads_bind; [done| |].
  - apply IH; [done|]. intros y s' Hy Hok' E'. apply Hp; [by right|done|by eapply same_sys_trans].
  - intros s2 Hok2 E2. by apply reads_ret.
Qed.

Lemma map_reads {A B} (f : A -> method B) (g : A -> B) l s : ok s ->
  (forall x s', x ∈ l -> ok s' -> same_sys s s' -> reads (f x) s' (g x)) -> reads (map_prog f l) s (g <$> l).
Proof.
  revert s. induction l as [|x l IH]; intros s Hok Hp; [by apply reads_ret|]. simpl.
  eapply reads_bind; [done|apply Hp; [by left|done|by apply same_sys_refl]|]. intros s1 Hok1 E1.
  eapply reads_bind; [done| |].
  - apply IH; [done|]. intros y s' Hy Hok' E'. apply Hp; [by right|done|by eapply same_sys_trans].
  - intros s2 Hok2 E2. by apply reads_ret.
Qed.

(** ** Accessors, and the enumeration of keys *)

(** The getter and setter of a name. *)
Definition acc_pair (a : key * NanBox * NanBox) : key * (NanBox * NanBox) := (acc_name a, (snd (fst a), snd a)).
Definition p_accessor (k : key) (p : Spec) : option (NanBox * NanBox) := assoc k (acc_pair <$> p_acc p).

(** The keys of the log that are there, then what the log misses. *)
Fixpoint s_heal (order result ks : list key) : list key :=
  match ks with
  | [] => result
  | k :: ks => s_heal order (if bool_decide ((k ∉ order) /\ (k ∉ result)) then result ++ [k] else result) ks
  end.

Definition p_has (p : Spec) (k : key) : bool := bool_decide (k ∈ p_keys p) || bool_decide (k ∈ p_names p).

Definition s_enum (p : Spec) : list key :=
  match p_log p with
  | None => p_keys p ++ p_names p
  | Some order =>
      s_heal order (List.filter (p_has p) order)
        (p_keys p ++ List.filter (fun k => negb (bool_decide (k ∈ p_keys p))) (p_names p))
  end.

Definition s_enumerable (p : Spec) : list key :=
  order_keys (List.filter (fun k => negb (bool_decide (k ∈ p_hid p))) (s_enum p)).

Lemma acc_pair_keys l : (acc_pair <$> l).*1 = acc_name <$> l.
Proof. by rewrite <- list_fmap_compose. Qed.

Lemma accessor_view k x l : attrs_ok x -> x_accessors x = l ->
  (i ← acc_pos k x; (fun a => (snd (fst a), snd a)) <$> l !! i) = assoc k (acc_pair <$> l).
Proof.
  intros Hx <-. destruct (acc_pos k x) as [i|] eqn:E; simpl.
  - apply acc_pos_Some in E; [|done]. unfold names in E. rewrite list_lookup_fmap in E. destruct (x_accessors x !! i) as [a|] eqn:Ea; [|done].
    simpl in *. injection E as <-. symmetry. apply assoc_elem; [rewrite acc_pair_keys; apply Hx|].
    apply list_elem_of_fmap. exists a. split; [done|]. by eapply list_elem_of_lookup_2.
  - apply acc_pos_None in E; [|done]. symmetry. apply assoc_None. by rewrite acc_pair_keys.
Qed.

Section Enumeration.
Context (s : Sys).
Hypothesis Hok : ok s.

Abbreviation o := (self s).

Lemma accessor_reads k : accessor k o = p_accessor k (view s).
Proof using Hok.
  unfold accessor, p_accessor. change (p_acc (view s)) with (x_accessors (ex o)). rewrite <- (accessor_view k (ex o)) by (done || apply Hok).
  case_bool_decide as E; [|done]. rewrite E. by destruct (acc_pos k (ex o)).
Qed.

Lemma accessor_is_Some k : is_Some (p_accessor k (view s)) <-> k ∈ p_names (view s).
Proof. unfold p_accessor. by rewrite assoc_is_Some, acc_pair_keys. Qed.

Lemma acc_pos_is_Some k : bool_decide (is_Some (acc_pos k (ex o))) = bool_decide (k ∈ p_names (view s)).
Proof using Hok.
  apply bool_decide_ext. rewrite <- not_eq_None_Some, acc_pos_None by apply Hok. change (p_names (view s)) with (names (ex o)).
  destruct (decide (k ∈ names (ex o))); tauto.
Qed.

Lemma has_own_key_reads k : reads (has_own_key k) s (p_has (view s) k).
Proof using Hok.
  eapply reads_bind; [done|by apply contains_key_reads|]. intros s' Hok' E. apply reads_me. rewrite (sy_self _ _ E), accessor_reads.
  unfold p_has. rewrite (bool_decide_ext _ _ (accessor_is_Some k)). by apply reads_ret.
Qed.

Lemma heal_view x order result ks : attrs_ok x -> x_key_order x = Some order -> heal x result ks = s_heal order result ks.
Proof.
  intros Hx Ho. revert result. induction ks as [|k ks IH]; intros result; simpl; [done|]. rewrite IH. f_equal.
  rewrite order_has_spec, Ho, existsb_key by done. simpl. case_bool_decide; case_bool_decide; simpl; symmetry; case_bool_decide; try done; tauto.
Qed.

Lemma merged_key_order_reads order : x_key_order (ex o) = Some order -> reads merged_key_order s (s_enum (view s)).
Proof using Hok.
  intros Ho. apply reads_me. eapply reads_bind; [done| |].
  { apply (reads_ret s order) in Hok as H. by rewrite Ho. }
  intros s1 Hok1 E1. eapply reads_bind; [done|by apply obj_keys_reads|]. intros s2 Hok2 E2.
  destruct (same_sys_ok _ _ Hok E1) as [_ V1]. rewrite V1. destruct (same_sys_ok _ _ Hok1 E2) as [_ V2]. rewrite V1 in V2.
  eapply reads_bind; [done| |].
  - apply (filter_reads _ (p_has (view s))); [done|]. intros k s' _ Hok' E'. destruct (same_sys_ok _ _ Hok2 E') as [_ V']. rewrite V2 in V'.
    eapply reads_bind; [done|by apply contains_key_reads|]. intros s3 Hok3 E3. rewrite V'. rewrite acc_pos_is_Some. by apply reads_ret.
  - intros s3 Hok3 E3. destruct (same_sys_ok _ _ Hok2 E3) as [_ V3]. rewrite V2 in V3. eapply reads_bind; [done| |].
    + apply (filter_reads _ (fun k => negb (bool_decide (k ∈ p_keys (view s))))); [done|]. intros k s' _ Hok' E'.
      destruct (same_sys_ok _ _ Hok3 E') as [_ V']. rewrite V3 in V'.
      eapply reads_bind; [done|by apply contains_key_reads|]. intros s4 Hok4 E4. rewrite V'. by apply reads_ret.
    + intros s4 Hok4 E4. rewrite (heal_view _ order) by (done || apply Hok). unfold s_enum. change (p_log (view s)) with (x_key_order (ex o)).
      rewrite Ho. by apply reads_ret.
Qed.

Lemma enum_base_reads : reads enum_base s (s_enum (view s)).
Proof using Hok.
  apply reads_me. case_bool_decide as E.
  - destruct E as [order E]. by apply (merged_key_order_reads order).
  - eapply reads_bind; [done|by apply obj_keys_reads|]. intros s1 Hok1 E1. unfold s_enum. change (p_log (view s)) with (x_key_order (ex o)).
    destruct (x_key_order (ex o)); [by exfalso; eauto|]. by apply reads_ret.
Qed.

Lemma ordered_keys_reads : reads ordered_keys s (order_keys (s_enum (view s))).
Proof using Hok. eapply reads_bind; [done|apply enum_base_reads|]. intros s1 Hok1 E1. by apply reads_ret. Qed.

Lemma enumerable_keys_reads : reads enumerable_keys s (s_enumerable (view s)).
Proof using Hok.
  eapply reads_bind; [done|apply enum_base_reads|]. intros s1 Hok1 E1. eapply reads_bind; [done| |].
  - apply (filter_reads _ (fun k => negb (bool_decide (k ∈ p_hid (view s))))); [done|]. intros k s' _ Hok' E'.
    destruct (same_sys_ok _ _ Hok (same_sys_trans _ _ _ E1 E')) as [_ V'].
    eapply reads_bind; [done|by apply is_hidden_reads|]. intros s2 Hok2 E2. rewrite V'. by apply reads_ret.
  - intros s2 Hok2 E2. by apply reads_ret.
Qed.

(** *** Keys that look like array indices *)

Lemma is_index_digit k : is_index k = true -> match k with b :: _ => is_digit b | [] => false end = true.
Proof.
  unfold is_index, array_index. rewrite bool_decide_eq_true. intros [n H]. destruct (parse_u32 k) as [m|] eqn:Ep; [|done].
  destruct ((m <? 2 ^ 32 - 1) && _) eqn:E; [|done]. apply andb_true_iff in E as [_ E%bool_decide_eq_true].
  unfold parse_u32 in Ep. destruct k as [|b k]; [done|].
  assert (Hd : forall d l, forallb is_digit (d :: l) && (dec_value (d :: l) <? 2 ^ 32) = true -> is_digit d = true).
  { intros d l [H1 _]%andb_true_iff. simpl in H1. by apply andb_true_iff in H1 as [? _]. }
  destruct (decide (b = 43)) as [->|Hne].
  - exfalso. clear H Ep. assert (Hh : forall fuel n acc, (0 < fuel)%nat -> exists d l, dec_from fuel n acc = d :: l /\ 48 <= d <= 57).
    { induction fuel as [|fuel IH]; intros n0 acc Hf; [lia|]. cbn [dec_from]. pose proof (Z.mod_pos_bound n0 10 ltac:(lia)).
      destruct (n0 <? 10); [by exists (48 + n0 mod 10), acc; split; [|lia]|]. destruct fuel as [|fuel].
      - cbn. exists (48 + n0 mod 10), acc. split; [done|lia].
      - apply IH. lia. }
    destruct (Hh 10%nat m [] ltac:(lia)) as (d & l & Hd' & Hr). unfold u32_to_string in E. rewrite Hd' in E. injection E as -> _. lia.
  - assert (match b with 43 => k | _ => b :: k end = b :: k) as Ek by (destruct b; try done; repeat (destruct p; try done)).
    change (match match b with 43 => k | _ => b :: k end with [] => None | _ :: _ =>
      if forallb is_digit (match b with 43 => k | _ => b :: k end) && (dec_value (match b with 43 => k | _ => b :: k end) <? 2 ^ 32)
      then Some (dec_value (match b with 43 => k | _ => b :: k end)) else None end = Some m) in Ep.
    rewrite Ek in Ep. destruct (forallb is_digit (b :: k) && _) eqn:Eb; [|done]. by apply Hd in Eb.
Qed.

Lemma existsb_index l : existsb (fun k => match k with b :: _ => is_digit b | [] => false end && is_index k) l = existsb is_index l.
Proof.
  induction l as [|k l IH]; simpl; [done|]. rewrite IH. f_equal. destruct (is_index k) eqn:E; [|by rewrite andb_false_r].
  by rewrite (is_index_digit k E).
Qed.

Lemma existsb_perm {A} (f : A -> bool) l l' : (forall x, x ∈ l <-> x ∈ l') -> existsb f l = existsb f l'.
Proof.
  intros H. apply eq_iff_eq_true. rewrite !List.existsb_exists. split; intros (x & Hx & Hf); exists x; (split; [|done]);
    apply list_elem_of_In; apply list_elem_of_In in Hx; by apply H.
Qed.

Lemma has_index_key_reads : reads has_index_key s (existsb is_index (p_keys (view s) ++ p_names (view s))).
Proof using Hok.
  apply reads_me. rewrite existsb_app, view_keys by done. eapply reads_bind with (v := if is_dict o then btree_keys (d_map (dict o)) else skeys (shapes s) (o_shape o)); [done| |].
  - destruct (is_dict o); [by apply reads_ret|by apply shape_keys_reads].
  - intros s1 Hok1 E1. rewrite !existsb_index. change (accessor_keys o) with (p_names (view s)).
    replace (existsb is_index (if is_dict o then omap id (d_order (dict o)) else _))
      with (existsb is_index (if is_dict o then btree_keys (d_map (dict o)) else skeys (shapes s) (o_shape o))); [by apply reads_ret|].
    unfold is_dict. destruct (o_mode o) eqn:E; [done|]. apply existsb_perm. intros k.
    destruct (obj_dict _ _ (proj2 Hok) E) as (_ & _ & Hd). by rewrite btree_keys_elem, omap_id_elem, dict_keys_elem.
Qed.
End Enumeration.
