(* ===== verification/ObjectWrites.v ===== *)
(** * The methods that change an object: the layers under the property protocol

    Changes of the out-of-line part, the epochs, writing out what a layout
    implies, and the two ways a write to a slot keeps the promise of the layout
    about numbers.  Each method is shown to end in a given abstract object. *)

From Stdlib Require Import String.
From S2P Require Import Prelude Prog NanBox Shape ShapeTable ShapeInv ShapeSpec Object ObjectAttr ObjectSlots ObjectInv ObjectData ObjectReads.

#[local] Abbreviation length := Datatypes.length.
Open Scope Z_scope.

(** ** The invariant without the promise about numbers *)

Record static_ok (st : Shapes) (o : Object) : Prop := {
  os_live : is_Some (live st !! o_shape o);
  os_slots : slots_ok o;
  os_attrs : attrs_ok (ex o);
  os_len : o_len o = Z.of_nat (length (skeys st (o_shape o)));
  os_mode : match o_mode o with
            | Shaped => x_dict (ex o) = None
            | Dict => skeys st (o_shape o) = [] /\ exists d, x_dict (ex o) = Some d /\ dict_ok d
            end;
  os_prefix : 0 <= x_hidden_prefix (ex o) <= o_len o;
  os_marked : marked (shape_at st (o_shape o)) = true -> x_hidden_prefix (ex o) = 0;
  os_fn : has_implied_fn_attrs (shape_at st (o_shape o)) = true ->
    forall k, k ∈ skeys st (o_shape o) -> k ∉ x_readonly (ex o) }.

Lemma obj_ok_static st o : obj_ok st o <-> static_ok st o /\ numbers_ok st o.
Proof. split; [intros []; by split|intros [[] ?]; by split]. Qed.

(** The fields the invariant reads. *)
Definition core (o : Object) := (o_mode o, o_len o, o_shape o, o_extra o, o_inline o).

Lemma obj_ok_core st o o' : core o' = core o -> obj_ok st o -> obj_ok st o'.
Proof. destruct o, o'. intros E H. unfold core in E. simpl in E. injection E as -> -> -> -> ->. destruct H as [? [] ?]. split; done. Qed.

Lemma with_extra_ex x o : ex (with_extra (Some x) o) = x.
Proof. done. Qed.

(** ** Changes of the out-of-line part *)

Section Extra.
Context (st : Shapes) (o : Object) (x : ObjectExtra).
Hypothesis Hsp : x_spill x = x_spill (ex o).
Hypothesis Hdi : x_dict x = x_dict (ex o).

Lemma extra_slots : slots_iter (with_extra (Some x) o) = slots_iter o.
Proof using Hsp. unfold slots_iter, spill. by rewrite with_extra_ex, Hsp. Qed.

Lemma extra_data : data_of st (with_extra (Some x) o) = data_of st o.
Proof using Hsp Hdi.
  unfold data_of, dict. rewrite with_extra_ex, Hdi, extra_slots. done.
Qed.

Lemma extra_ok : obj_ok st o -> attrs_ok x -> 0 <= x_hidden_prefix x <= o_len o ->
  (marked (shape_at st (o_shape o)) = true -> x_hidden_prefix x = 0) ->
  (has_implied_fn_attrs (shape_at st (o_shape o)) = true -> forall k, k ∈ skeys st (o_shape o) -> k ∉ x_readonly x) ->
  obj_ok st (with_extra (Some x) o).
Proof using Hsp Hdi.
  intros [H1 H2 H3 H4 H5 H6 H7 H8 H9] Ha Hp Hm Hf. split; try done.
  - destruct H2 as [K1 K2 K3]. split; [done|done|]. unfold spill. rewrite with_extra_ex, Hsp. exact K3.
  - rewrite with_extra_ex, Hdi. exact H5.
  - unfold numbers_ok. rewrite extra_slots. exact H9.
Qed.
End Extra.

(** The abstract object after a change that keeps slots and dictionary. *)
Lemma extra_spec st o x : x_spill x = x_spill (ex o) -> x_dict x = x_dict (ex o) ->
  spec_of st (with_extra (Some x) o) =
  let s := shape_at st (o_shape o) in
  let f m := list_to_set (marks m x) ∪
    implied_set (has_implied_fn_attrs s) (has_implied_ctor_attrs s) (skeys st (o_shape o)) (x_hidden_prefix x) m in
  MkSpec (data_of st o) (x_accessors x) (x_key_order x) (f Readonly) (f Hidden) (f NonConfigurable)
    (o_flags o) (o_proto o) (x_class_tag x) (o_key_epoch o).
Proof. intros H1 H2. unfold spec_of. by rewrite extra_data. Qed.

(** *** Room *)

Lemma length_le_size (l : list key) (X : gset key) : NoDup l -> (forall k, k ∈ l -> k ∈ X) -> (length l <= size X)%nat.
Proof.
  intros Hnd Hsub. rewrite <- (size_list_to_set (C := gset key) l) by done. apply subseteq_size. intros k Hk.
  apply Hsub. by apply elem_of_list_to_set in Hk.
Qed.

Lemma room_roomy s : ok s -> p_room (view s) -> roomy (ex (self s)).
Proof.
  intros Hok [Hm Ha]. split; [|done]. intros m. specialize (Hm m).
  pose proof (length_le_size (marks m (ex (self s))) (p_mark m (view s)) (ao_marks _ (oo_attrs _ _ (proj2 Hok)) m)) as H.
  specialize (H ltac:(intros k Hk; apply view_mark; by left)). lia.
Qed.

(** *** A mark more, a mark less *)

Lemma p_with_mark_same m p : p_with_mark m (p_mark m p) p = p.
Proof. by destruct m, p. Qed.

Lemma spec_marks st o x m S : x_spill x = x_spill (ex o) -> x_dict x = x_dict (ex o) -> x_accessors x = x_accessors (ex o) ->
  x_class_tag x = x_class_tag (ex o) -> x_hidden_prefix x = x_hidden_prefix (ex o) -> x_key_order x = x_key_order (ex o) ->
  (forall m', m' <> m -> marks m' x = marks m' (ex o)) ->
  (forall k, k ∈ S <-> k ∈ marks m x \/ k ∈ implied_set (has_implied_fn_attrs (shape_at st (o_shape o)))
     (has_implied_ctor_attrs (shape_at st (o_shape o))) (skeys st (o_shape o)) (x_hidden_prefix (ex o)) m) ->
  spec_of st (with_extra (Some x) o) = p_with_mark m S (spec_of st o).
Proof.
  intros H1 H2 H3 H4 H5 H6 H7 H8. rewrite extra_spec by done. cbv zeta. rewrite H3, H4, H5, H6.
  assert (forall m', list_to_set (marks m' x) ∪ implied_set (has_implied_fn_attrs (shape_at st (o_shape o)))
     (has_implied_ctor_attrs (shape_at st (o_shape o))) (skeys st (o_shape o)) (x_hidden_prefix (ex o)) m' =
    if decide (m' = m) then S else mark_set st o m') as E.
  { intros m'. case_decide as Em; [subst; apply set_eq; intros k; by rewrite H8, elem_of_union, elem_of_list_to_set|].
    unfold mark_set. by rewrite H7. }
  rewrite !E. by destruct m.
Qed.

(** ** The epochs *)

Definition s_bump (p : Spec) : Spec := p_with_epoch (as_u32 (p_epoch p + 1)) p.

(** A method that moves the process-wide epochs only. *)
Definition quiet (m : method unit) : Prop :=
  forall s, wp m (fun _ s' => self s' = self s /\ shapes s' = shapes s) s.

Lemma quiet_when b m : quiet m -> quiet (when b m).
Proof. intros H s. destruct b; [apply H|done]. Qed.

Lemma quiet_bind m m' : quiet m -> quiet m' -> quiet (m;; m').
Proof. intros H H' s. apply wp_bind. eapply wp_mono; [apply H|]. intros _ s1 [E1 E2]. eapply wp_mono; [apply H'|]. intros _ s2 [F1 F2]. split; congruence. Qed.

Lemma quiet_me (f : Object -> method unit) : (forall o, quiet (f o)) -> quiet (me ≫= f).
Proof. intros H s. apply H. Qed.

Lemma layout_changed_quiet : quiet layout_changed.
Proof. apply quiet_me. intros o. by apply quiet_when. Qed.

Lemma global_attrs_changed_quiet : quiet global_attrs_changed.
Proof. apply quiet_me. intros o. by apply quiet_when. Qed.

Lemma quiet_ok s s' : ok s -> self s' = self s -> shapes s' = shapes s -> ok s' /\ view s' = view s.
Proof. unfold ok, view. intros H -> ->. done. Qed.

Lemma goes_quiet s (m : method unit) {B} (f : unit -> method B) p Q : quiet m -> ok s ->
  (forall s', ok s' -> self s' = self s -> shapes s' = shapes s -> goes (f tt) s' p Q) -> goes (m ≫= f) s p Q.
Proof.
  intros Hm Hok Hf. apply wp_bind. eapply wp_mono; [apply Hm|]. intros [] s1 [E1 E2].
  destruct (quiet_ok s s1 Hok E1 E2) as [Hok1 V1]. eapply wp_mono; [by apply (Hf s1)|]. intros y s2. by rewrite E2.
Qed.

Lemma goes_quiet_then s (m : method unit) {B} (f : unit -> method B) p Q : quiet m ->
  (forall s', self s' = self s -> shapes s' = shapes s -> goes (f tt) s' p Q) -> goes (m ≫= f) s p Q.
Proof.
  intros Hm Hf. apply wp_bind. eapply wp_mono; [apply Hm|]. intros [] s1 [E1 E2]. eapply wp_mono; [by apply (Hf s1)|].
  intros y s2. by rewrite E2.
Qed.

Lemma quiet_goes s (m : method unit) : quiet m -> ok s ->
  goes m s (view s) (fun _ s' => self s' = self s /\ shapes s' = shapes s).
Proof.
  intros Hm Hok. eapply wp_mono; [apply Hm|]. intros [] s1 [E1 E2]. destruct (quiet_ok s s1 Hok E1 E2) as [Hok1 V1].
  split_and!; [done| |done|done|done]. by rewrite E2.
Qed.

(** A change of a field the invariant does not read. *)
Lemma core_put {B} s f (g : unit -> method B) p Q : ok s -> core (f (self s)) = core (self s) ->
  (forall s', ok s' -> shapes s' = shapes s -> self s' = f (self s) -> goes (g tt) s' p Q) -> goes (put f ≫= g) s p Q.
Proof.
  intros [Hw Ho] Hc Hg. apply wp_bind, wp_modify. apply (Hg (with_self (f (self s)) s)); [|done|done]. split; [done|]. by eapply obj_ok_core.
Qed.

Lemma core_spec st o o' : core o' = core o ->
  spec_of st o' = MkSpec (data_of st o) (x_accessors (ex o)) (x_key_order (ex o)) (mark_set st o Readonly) (mark_set st o Hidden)
    (mark_set st o NonConfigurable) (o_flags o') (o_proto o') (x_class_tag (ex o)) (o_key_epoch o').
Proof.
  destruct o, o'. intros E. unfold core in E. simpl in E. by injection E as -> -> -> -> ->.
Qed.

Lemma bump_key_epoch_goes s : ok s ->
  goes bump_key_epoch s (s_bump (view s))
    (fun _ s' => shapes s' = shapes s /\ self s' = with_key_epoch (as_u32 (o_key_epoch (self s) + 1)) (self s)).
Proof.
  intros Hok. apply core_put; [done|done|]. intros s1 Hok1 E1 E2. apply goes_me. eapply goes_mono.
  - replace (s_bump (view s)) with (view s1); [apply quiet_goes; [|done]|].
    + apply quiet_when, quiet_bind; [by apply quiet_when|apply layout_changed_quiet].
    + unfold view. rewrite E1, E2. done.
  - intros x s2 _ _ _ [F1 F2]. split; congruence.
Qed.

(** ** Marks *)

Definition s_add_mark (m : Mark) (k : key) (p : Spec) : Spec := p_with_mark m ({[k]} ∪ p_mark m p) p.
Definition s_remove_mark (m : Mark) (k : key) (p : Spec) : Spec := p_with_mark m (p_mark m p ∖ {[k]}) p.

Lemma add_mark_goes s m k : ok s -> p_room (view s) -> k ∉ p_mark m (view s) ->
  goes (put (extra_mut (add_mark m k))) s (s_add_mark m k (view s)) (fun _ s' => shapes s' = shapes s /\
    self s' = extra_mut (add_mark m k) (self s)).
Proof.
  intros Hok Hr Hk. pose proof Hok as [Hw Ho]. rewrite view_mark in Hk. apply Decidable.not_or in Hk as [Hk Hki].
  destruct (add_mark_ok (ex (self s)) m k (oo_attrs _ _ Ho) (room_roomy s Hok Hr) Hk) as (H1 & H2 & H3 & [S1 S2 S3 S4 S5 S6]).
  apply goes_put; [done| | |done].
  - apply extra_ok; rewrite ?S1, ?S2, ?S5; try done; try apply Ho. intros Hf k' Hk'. destruct m.
    + change (x_readonly (add_mark Readonly k (ex (self s)))) with (marks Readonly (add_mark Readonly k (ex (self s)))).
      rewrite H2, elem_of_app, list_elem_of_singleton. intros [Hin| ->]; [by apply (oo_fn _ _ Ho Hf k')|]. apply Hki. unfold implied_set. rewrite Hf.
      by apply elem_of_list_to_set.
    + change (x_readonly (add_mark Hidden k (ex (self s)))) with (marks Readonly (add_mark Hidden k (ex (self s)))). rewrite H3 by done. by apply (oo_fn _ _ Ho).
    + change (x_readonly (add_mark NonConfigurable k (ex (self s)))) with (marks Readonly (add_mark NonConfigurable k (ex (self s)))). rewrite H3 by done. by apply (oo_fn _ _ Ho).
  - unfold extra_mut, s_add_mark. apply spec_marks; try done. intros k'. rewrite H2, elem_of_union, elem_of_singleton, view_mark, elem_of_app, list_elem_of_singleton. tauto.
Qed.

(** What writing out the marks of the layout leaves. *)
Definition written (s : Sys) : Prop := marked (shape_at (shapes s) (o_shape (self s))) = false.
Definition plain (s : Sys) : Prop := written s /\ x_hidden_prefix (ex (self s)) = 0.

Lemma written_implied s m k : ok s -> written s -> x_hidden_prefix (ex (self s)) = 0 \/ m <> Hidden ->
  k ∉ implied_set (has_implied_fn_attrs (shape_at (shapes s) (o_shape (self s)))) (has_implied_ctor_attrs (shape_at (shapes s) (o_shape (self s))))
     (skeys (shapes s) (o_shape (self s))) (x_hidden_prefix (ex (self s))) m.
Proof.
  unfold written, marked. rewrite implied_attrs_or. intros Hok [-> ->]%orb_false_iff Hp. unfold implied_set. destruct m; simpl; [set_solver| |set_solver].
  destruct Hp as [->|Hp]; [|done]. simpl. set_solver.
Qed.

Lemma extra_remove_mark_goes s m k : ok s -> written s -> x_hidden_prefix (ex (self s)) = 0 \/ m <> Hidden \/ (k ∉ take (Z.to_nat (x_hidden_prefix (ex (self s)))) (skeys (shapes s) (o_shape (self s)))) ->
  goes (extra_remove_mark m k) s (s_remove_mark m k (view s)) (fun _ s' => shapes s' = shapes s /\
    same_but_marks (ex (self s)) (ex (self s')) /\ o_shape (self s') = o_shape (self s) /\ o_mode (self s') = o_mode (self s)).
Proof.
  intros Hok Hwr Hpk. pose proof Hok as [Hw Ho]. apply goes_me. destruct (o_extra (self s)) as [x|] eqn:Ex.
  - assert (Hx : ex (self s) = x) by (unfold ex; by rewrite Ex). pose proof (oo_attrs _ _ Ho) as Ha. rewrite Hx in Ha.
    destruct (remove_mark_spec x m k Ha) as (x' & -> & [R1 R2 R3 [S1 S2 S3 S4 S5 S6] R5 R6]). apply wp_bind, wp_ret. rewrite <- Hx in *.
    apply goes_put; [done| | |].
    + apply extra_ok; rewrite ?S1, ?S2, ?S5; try done; try apply Ho. intros Hf k' Hk' Hin. apply (oo_fn _ _ Ho Hf k' Hk').
      destruct (decide (m = Readonly)) as [->|Hne]; [by apply R2 in Hin as [_ ?]|].
      change (x_readonly x') with (marks Readonly x') in Hin. rewrite R3 in Hin by done. done.
    + unfold s_remove_mark. apply spec_marks; try done. intros k'. rewrite elem_of_difference, elem_of_singleton, view_mark, R2.
      split; [tauto|]. intros [[? ?]|Hi]; [tauto|]. split; [by right|]. intros ->. revert Hi.
      destruct (decide (m = Hidden)) as [->|Hne]; [|apply written_implied; auto]. destruct Hpk as [?|[?|Hpk]]; [apply written_implied; auto|done|].
      unfold written, marked in Hwr. rewrite implied_attrs_or in Hwr. unfold implied_set. rewrite Hwr. by rewrite elem_of_list_to_set.
    + done.
  - apply goes_ret; [done| |done]. assert (Hx : ex (self s) = EMPTY_EXTRA) by (unfold ex; by rewrite Ex).
    assert (Hk : k ∉ p_mark m (view s)).
    { rewrite view_mark. intros [Hin|Hin]; [rewrite Hx in Hin; destruct m; by apply elem_of_nil in Hin|]. revert Hin. apply written_implied; [done..|].
      left. by rewrite Hx. }
    unfold s_remove_mark. replace (p_mark m (view s) ∖ {[k]}) with (p_mark m (view s)) by set_solver. by rewrite p_with_mark_same.
Qed.

(** ** Writing out the hidden prefix *)

Definition hide_all (x : ObjectExtra) (l : list key) : ObjectExtra :=
  foldl (fun x k => if has_mark Hidden k x then x else add_mark Hidden k x) x l.

Lemma hide_all_spec (X : gset key) l : forall x, attrs_ok x ->
  (forall m, m <> Hidden -> Z.of_nat (length (marks m x)) < 2 ^ 32 - 1) -> Z.of_nat (length (x_accessors x)) < 2 ^ 32 - 1 ->
  Z.of_nat (size X) < 2 ^ 32 - 1 -> (forall k, k ∈ x_hidden x \/ k ∈ l -> k ∈ X) ->
  let x' := hide_all x l in
  attrs_ok x' /\ same_but_marks x x' /\ (forall m, m <> Hidden -> marks m x' = marks m x) /\
  forall k, k ∈ x_hidden x' <-> k ∈ x_hidden x \/ k ∈ l.
Proof.
  induction l as [|k l IH]; intros x Hx Hm Ha HX Hin.
  - cbn [hide_all foldl]. split_and!; [done|done|done|]. intros k. set_solver.
  - cbn [hide_all foldl]. rewrite has_mark_spec by done. cbn [marks]. case_bool_decide as Hk.
    + destruct (IH x Hx Hm Ha HX) as (H1 & H2 & H3 & H4); [set_solver|]. split_and!; [done..|]. intros k'. rewrite H4. set_solver.
    + assert (Hr : roomy x).
      { split; [|done]. intros m. destruct (decide (m = Hidden)) as [->|Hne]; [|by apply Hm].
        pose proof (length_le_size (x_hidden x) X (ao_marks _ Hx Hidden) ltac:(set_solver)). cbn. lia. }
      destruct (add_mark_ok x Hidden k Hx Hr Hk) as (H1 & H2 & H3 & H4). cbn [marks] in H2.
      destruct (IH (add_mark Hidden k x)) as (K1 & K2 & K3 & K4); [done| | |done| |].
      * intros m Hne. rewrite H3 by done. by apply Hm.
      * by rewrite (sm_acc _ _ H4).
      * rewrite H2. set_solver.
      * split_and!; [done| | |].
        -- destruct H4, K2. split; (etrans; [eassumption|]); done.
        -- intros m Hne. by rewrite K3, H3.
        -- intros k'. rewrite K4, H2. set_solver.
Qed.

Lemma write_out_hidden_prefix_goes s : ok s -> p_room (view s) -> written s ->
  goes write_out_hidden_prefix s (view s) (fun _ s' => plain s' /\ o_mode (self s') = o_mode (self s) /\
    skeys (shapes s') (o_shape (self s')) = skeys (shapes s) (o_shape (self s)) /\
    o_shape (self s') = o_shape (self s)).
Proof.
  intros Hok Hr Hwr. apply goes_me. cbv zeta. destruct (Z.eqb_spec (x_hidden_prefix (ex (self s))) 0) as [E0|Hne]; simpl.
  { by apply goes_ret. }
  eapply goes_read; [done|by apply shape_keys_reads|]. intros s1 Hok1 E. destruct (same_sys_ok s s1 Hok E) as [_ V].
  set (n := x_hidden_prefix (ex (self s))). set (ks := skeys (shapes s) (o_shape (self s))).
  set (o1 := extra_mut (with_hidden_prefix 0) (self s1)). set (x := ex o1).
  assert (Hx : attrs_ok x).
  { pose proof (oo_attrs _ _ (proj2 Hok1)) as [H1 H2 H3 H4]. split; [intros m; destruct m; apply (H1 Readonly) || apply (H1 Hidden) || apply (H1 NonConfigurable)|done|done|].
    intros ix Hix. destruct (H4 ix Hix) as [K1 K2 K3]. split; [|done|done]. intros m k. rewrite K1. by destruct m. }
  assert (Em : forall m, marks m x = marks m (ex (self s))) by (unfold x, o1; rewrite (sy_self _ _ E); by intros []).
  pose proof Hr as [Hrm Hra]. pose proof (room_roomy s Hok Hr) as [Hrx _].
  destruct (hide_all_spec (p_hid (view s)) (take (Z.to_nat n) ks) x Hx) as (H1 & H2 & H3 & H4).
  { intros m _. rewrite Em. apply Hrx. }
  { unfold x, o1. rewrite (sy_self _ _ E). exact Hra. }
  { apply (Hrm Hidden). }
  { intros k [Hk|Hk]; apply (view_mark s Hidden k); [left; by rewrite <- (Em Hidden)|right]. unfold implied_set.
    unfold written, marked in Hwr. rewrite implied_attrs_or in Hwr. rewrite Hwr. by apply elem_of_list_to_set. }
  unfold written, marked in Hwr. rewrite implied_attrs_or in Hwr.
  apply wp_bind, wp_modify. eapply (goes_put (with_self o1 s1)).
  - apply Hok1.
  - cbn [self shapes with_self]. fold (hide_all x (take (Z.to_nat n) ks)).
    change (extra_mut _ o1) with (with_extra (Some (hide_all x (take (Z.to_nat n) ks))) o1).
    change (with_extra (Some (hide_all x (take (Z.to_nat n) ks))) o1) with (with_extra (Some (hide_all x (take (Z.to_nat n) ks))) (self s1)).
    destruct H2 as [S1 S2 S3 S4 S5 S6]. apply extra_ok; rewrite ?S1, ?S2, ?S5; try done; try apply Hok1.
    + cbn. pose proof (sl_len _ (oo_slots _ _ (proj2 Hok1))). lia.
    + intros Hf k Hk. change (x_readonly ?y) with (marks Readonly y). rewrite H3 by done. rewrite Em, <- (sy_self _ _ E). by apply (oo_fn _ _ (proj2 Hok1)).
  - rewrite <- V. cbn [self shapes with_self]. change (extra_mut ?f o1) with (with_extra (Some (hide_all x (take (Z.to_nat n) ks))) (self s1)).
    destruct H2 as [S1 S2 S3 S4 S5 S6]. rewrite extra_spec by done. cbv zeta. unfold view, spec_of, mark_set.
    rewrite S3, S4, S5, S6. change (x_hidden_prefix x) with 0.
    assert (implied_set (has_implied_fn_attrs (shape_at (shapes s1) (o_shape (self s1)))) (has_implied_ctor_attrs (shape_at (shapes s1) (o_shape (self s1)))) = implied_set false false) as ->.
    { apply orb_false_iff in Hwr as [F1 F2]. rewrite (sy_self _ _ E). unfold has_implied_fn_attrs, has_implied_ctor_attrs in *.
      by rewrite !(same_sys_brand s s1) by done; rewrite F1, F2. }
    f_equal.
    + rewrite H3, Em, (sy_self _ _ E) by done. done.
    + cbn [marks implied_set orb]. apply set_eq. intros k. rewrite !elem_of_union, !elem_of_list_to_set, H4. rewrite (sy_self _ _ E).
      change (x_hidden x) with (marks Hidden x). rewrite Em. rewrite (same_sys_keys _ _ _ E). fold ks n. simpl. set_solver.
    + rewrite H3, Em, (sy_self _ _ E) by done. done.
  - cbn [self shapes with_self]. split_and!.
    + split.
      * unfold written, marked. cbn [self shapes with_self o_shape extra_mut with_extra o1]. rewrite implied_attrs_or.
        unfold has_implied_fn_attrs, has_implied_ctor_attrs in *. rewrite (sy_self _ _ E). by rewrite !(same_sys_brand s s1).
      * change (x_hidden_prefix (ex (self (with_self (extra_mut _ o1) (with_self o1 s1))))) with (x_hidden_prefix (hide_all x (take (Z.to_nat n) ks))).
        by rewrite (sm_prefix _ _ H2).
    + cbn. by rewrite (sy_self _ _ E).
    + cbn [o_shape extra_mut with_extra o1]. rewrite ?(sy_self _ _ E). apply (same_sys_keys _ _ _ E).
    + cbn. by rewrite (sy_self _ _ E).
Qed.
