(* ===== verification/ObjectSlotOps.v ===== *)
(** * Slot and dictionary writes, materialised attributes, the change of mode *)

From Stdlib Require Import String.
From S2P Require Import Prelude Prog NanBox Shape ShapeTable ShapeInv ShapeSpec Object ObjectAttr ObjectSlots ObjectInv ObjectData ObjectReads ObjectWrites.

#[local] Abbreviation length := Datatypes.length.
Open Scope Z_scope.

(** ** Noting what a slot holds *)

Lemma ok_static s : ok s <-> wf (shapes s) /\ static_ok (shapes s) (self s) /\ numbers_ok (shapes s) (self s).
Proof. unfold ok. by rewrite obj_ok_static. Qed.

Lemma keeps_static st st' o : keeps st st' (o_shape o) -> static_ok st o -> static_ok st' o.
Proof.
  intros K [H1 H2 H3 H4 H5 H6 H7 H8]. pose proof (kp_keys _ _ _ K) as Hk. unfold marked, has_implied_attrs, has_implied_fn_attrs in *.
  split; rewrite ?Hk; unfold marked, has_implied_attrs, has_implied_fn_attrs; rewrite ?(keeps_has_brand _ _ _ _ K); try done. apply K.
Qed.

Definition numbers_but (i : nat) (st : Shapes) (o : Object) : Prop :=
  forall j v, slots_iter o !! j = Some v -> (j < 64)%nat -> j <> i -> is_number v = false ->
    Z.testbit (any_at st (o_shape o)) (Z.of_nat j) = true.

(** The last step of a write: the promise is restored for the slot written. *)
Lemma note_slot_wp s i v : wf (shapes s) -> static_ok (shapes s) (self s) -> numbers_but (Z.to_nat i) (shapes s) (self s) ->
  0 <= i -> slots_iter (self s) !! Z.to_nat i = Some v ->
  goes (note_slot i v) s (spec_of (shapes s) (self s)) (fun _ s' => self s' = self s).
Proof.
  intros Hw Hs Hn Hi Hv. apply goes_me. unfold when. destruct (is_number v) eqn:Ev; simpl.
  - apply wp_ret. split_and!; try done. apply ok_static. split_and!; [done..|]. intros j v' Hj Hlt Hv'.
    destruct (decide (j = Z.to_nat i)) as [->|Hne]; [congruence|by eapply Hn].
  - unfold on_shapes. apply wp_act. cbn [fst snd]. pose proof (os_live _ _ Hs) as [x Hx].
    destruct (note_non_number_spec (shapes s) _ x i Hw Hx Hi) as (Hw' & He & Hb). set (st' := note_non_number _ _ _) in *.
    assert (K : keeps (shapes s) st' (o_shape (self s))) by (apply extends_keeps; [done|done|by eexists]).
    split_and!; [|done| |done].
    + apply ok_static. cbn [shapes self with_shapes]. split_and!; [done|by eapply keeps_static|]. intros j v' Hj Hlt Hv'.
      destruct (decide (j = Z.to_nat i)) as [->|Hne].
      * rewrite Z2Nat.id by done. apply Hb. lia.
      * apply (kp_any _ _ _ K); [lia|]. by eapply Hn.
    + unfold view. cbn [shapes self with_shapes]. by apply keeps_spec.
Qed.

Lemma same_but_slots_static st o o' : static_ok st o -> same_but_slots o o' -> slots_ok o' -> o_len o' = o_len o -> static_ok st o'.
Proof.
  intros [H1 H2 H3 H4 H5 H6 H7 H8] [S1 S2 S3 S4 S5 S6] Hsl Hl.
  assert (F : forall {A} (f : ObjectExtra -> A), (forall x p, f (with_spill p x) = f x) -> f (ex o') = f (ex o)).
  { intros A f Hf. rewrite <- (Hf (ex o') SPILL_EMPTY), S6. apply Hf. }
  assert (Fm : forall m, marks m (ex o') = marks m (ex o)) by (intros m; apply F; by destruct m).
  split; rewrite ?S4, ?Hl, ?S1.
  - done.
  - done.
  - destruct H3 as [K1 K2 K3 K4]. split; rewrite ?(F _ x_accessors), ?(F _ x_key_order) by done; [intros m; by rewrite Fm|done|done|].
    intros ix. rewrite (F _ x_index) by done. intros Hix. destruct (K4 ix Hix) as [M1 M2 M3].
    split; rewrite ?(F _ x_accessors), ?(F _ x_key_order) by done; [intros m; by rewrite Fm|done|done].
  - done.
  - by rewrite (F _ x_dict).
  - by rewrite (F _ x_hidden_prefix).
  - by rewrite (F _ x_hidden_prefix).
  - by rewrite (F _ x_readonly).
Qed.

Lemma same_but_slots_spec st o o' : same_but_slots o o' -> spec_of st o' = p_with_data (data_of st o') (spec_of st o).
Proof.
  intros [S1 S2 S3 S4 S5 S6].
  assert (F : forall {A} (f : ObjectExtra -> A), (forall x p, f (with_spill p x) = f x) -> f (ex o') = f (ex o)).
  { intros A f Hf. rewrite <- (Hf (ex o') SPILL_EMPTY), S6. apply Hf. }
  unfold spec_of, mark_set, p_with_data. cbn [p_acc p_log p_ro p_hid p_nc p_flags p_proto p_class p_epoch].
  rewrite S2, S3, S4, S5, (F _ x_accessors), (F _ x_key_order), (F _ x_class_tag), (F _ x_hidden_prefix) by done.
  by rewrite (F _ (marks Readonly)), (F _ (marks Hidden)), (F _ (marks NonConfigurable)).
Qed.

Lemma slot_write_goes s i v o' : ok s -> o_mode (self s) = Shaped -> 0 <= i < o_len (self s) -> slot_set i v (self s) = Some o' ->
  goes (put (fun _ => o');; note_slot i v) s
    (p_with_data (zip (skeys (shapes s) (o_shape (self s))) (<[Z.to_nat i := v]> (slots_iter (self s)))) (view s))
    (fun _ s' => self s' = o').
Proof.
  intros Hok Hm Hi Ho'. apply ok_static in Hok as Hok'. destruct Hok' as (Hw & Hs & Hn).
  destruct (slot_set_spec _ i v (os_slots _ _ Hs) Hi) as (o1 & E1 & Hsl & Hl & Hit & Hsb). rewrite E1 in Ho'. injection Ho' as ->.
  apply goes_put_then. assert (Hsh : o_shape o' = o_shape (self s)) by apply Hsb.
  assert (Hlen : (Z.to_nat i < length (slots_iter (self s)))%nat) by (pose proof (slots_iter_length _ (os_slots _ _ Hs)); lia).
  eapply goes_mono.
  - replace (p_with_data _ (view s)) with (spec_of (shapes (with_self o' s)) (self (with_self o' s))).
    + apply (note_slot_wp (with_self o' s) i v); cbn [shapes self with_self]; [done| | |lia|].
      * by eapply same_but_slots_static.
      * intros j v' Hj Hlt Hne. rewrite Hit, list_lookup_insert_ne in Hj by done. rewrite Hsh. by eapply Hn.
      * rewrite Hit. by rewrite list_lookup_insert_eq.
    + cbn [shapes self with_self]. rewrite (same_but_slots_spec _ _ _ Hsb). f_equal. unfold data_of, is_dict.
      rewrite (ss_mode _ _ Hsb), Hm, Hsh, Hit. done.
  - done.
Qed.

(** ** Dictionary writes *)

Lemma dict_put_goes s f : ok s -> o_mode (self s) = Dict -> dict_ok (f (dict (self s))) ->
  goes (put (dict_mut f)) s (p_with_data (dict_list (f (dict (self s)))) (view s))
    (fun _ s' => shapes s' = shapes s /\ o_shape (self s') = o_shape (self s) /\ o_mode (self s') = Dict /\ dict (self s') = f (dict (self s)) /\
       x_hidden_prefix (ex (self s')) = x_hidden_prefix (ex (self s))).
Proof.
  intros [Hw Ho] Hm Hd. destruct (obj_dict _ _ Ho Hm) as (Hk & Hx & Hd0). apply goes_put; [done| | |].
  - assert (E : dict_mut f (self s) = with_extra (Some (with_dict (Some (f (dict (self s)))) (ex (self s)))) (self s)) by done.
    rewrite E. destruct Ho as [H1 H2 H3 H4 H5 H6 H7 H8 H9]. split; try done.
    + destruct H2 as [K1 K2 K3]. by split.
    + destruct H3 as [K1 K2 K3 K4]. split; [intros m; destruct m; apply (K1 Readonly) || apply (K1 Hidden) || apply (K1 NonConfigurable)|done|done|].
      intros ix Hix. destruct (K4 ix Hix) as [M1 M2 M3]. split; [|done|done]. intros m k. rewrite M1. by destruct m.
    + cbn [o_mode with_extra]. rewrite Hm. split; [done|]. by eexists.
  - unfold view, spec_of, p_with_data. cbn [p_acc p_log p_ro p_hid p_nc p_flags p_proto p_class p_epoch]. f_equal.
    unfold data_of, is_dict. change (o_mode (dict_mut f (self s))) with (o_mode (self s)). by rewrite Hm.
  - done.
Qed.

Lemma view_dict_data s : o_mode (self s) = Dict -> p_data (view s) = dict_list (dict (self s)).
Proof. intros H. change (p_data (view s)) with (data_of (shapes s) (self s)). unfold data_of, is_dict. by rewrite H. Qed.

Lemma view_shaped_data s : o_mode (self s) = Shaped ->
  p_data (view s) = zip (skeys (shapes s) (o_shape (self s))) (slots_iter (self s)).
Proof. intros H. change (p_data (view s)) with (data_of (shapes s) (self s)). unfold data_of, is_dict. by rewrite H. Qed.

Lemma p_with_data_same p : p_with_data (p_data p) p = p.
Proof. by destruct p. Qed.

(** ** Overwriting a property *)

Lemma write_existing_goes s k v : ok s ->
  goes (write_existing k v) s
    (if decide (k ∈ p_keys (view s)) then p_with_data (assoc_set k v (p_data (view s))) (view s) else view s)
    (fun b s' => b = bool_decide (k ∈ p_keys (view s)) /\ o_shape (self s') = o_shape (self s)).
Proof.
  intros Hok. pose proof Hok as [Hw Ho]. apply goes_me. unfold is_dict. destruct (o_mode (self s)) eqn:Hm.
  - rewrite view_keys, (view_shaped_data s Hm) by done. unfold is_dict. rewrite Hm. set (ks := skeys _ _).
    eapply goes_read; [done|by apply shape_lookup_reads|]. intros s1 Hok1 E. destruct (same_sys_ok s s1 Hok E) as [_ V]. fold ks.
    destruct (slot_of ks k) as [i|] eqn:Ek.
    + assert (Hin : k ∈ ks) by (apply slot_of_is_Some; by eexists). rewrite decide_True, bool_decide_true by done.
      pose proof (obj_keys_NoDup _ _ Hw Ho) as Hnd. pose proof (obj_slots_length _ _ Ho) as Hl. apply slot_of_Some in Ek as [Hi Ek]; [|done].
      assert (Hb : i < o_len (self s)) by (rewrite (oo_len _ _ Ho); apply lookup_lt_Some in Ek; fold ks; lia).
      apply goes_me. rewrite (sy_self _ _ E). destruct (slot_set_spec _ i v (oo_slots _ _ Ho) (conj Hi Hb)) as (o' & E1 & _ & _ & _ & Hsb).
      rewrite E1. change (unwrap (Some o') ≫= ?f) with (f o').
      apply (goes_assoc _ _ (fun _ => note_slot i v) (fun _ => mret true)). rewrite <- (sy_self _ _ E) in E1, Hm, Hb.
      eapply goes_bind; [by apply (slot_write_goes s1 i v o' Hok1 Hm (conj Hi Hb) E1)|]. intros [] s2 Hok2 _ V2 E2.
      rewrite V, (same_sys_keys _ _ _ E), (sy_self _ _ E) in V2. fold ks in V2.
      apply goes_ret; [done| |].
      * rewrite V2. f_equal. by rewrite (assoc_set_zip ks _ k v (Z.to_nat i)).
      * split; [done|]. rewrite E2, <- (sy_self _ _ E). destruct (slot_set_spec _ i v (oo_slots _ _ (proj2 Hok1)) (conj Hi Hb)) as (o2 & F1 & _ & _ & _ & Hsb2).
        rewrite F1 in E1. injection E1 as ->. apply Hsb2.
    + apply slot_of_None in Ek. rewrite decide_False, bool_decide_false by done. apply goes_ret; [done|done|]. by rewrite (sy_self _ _ E).
  - rewrite view_keys by done. unfold is_dict. rewrite Hm. destruct (obj_dict _ _ Ho Hm) as (_ & _ & Hd).
    assert (Hk : k ∈ omap id (d_order (dict (self s))) <-> is_Some (d_map (dict (self s)) !! k)) by (by rewrite omap_id_elem, dict_keys_elem).
    destruct (d_map (dict (self s)) !! k) as [d|] eqn:Ek.
    + rewrite decide_True, bool_decide_true by (apply Hk; by eexists). destruct (dict_set_ok _ k v d Hd Ek) as [D1 D2].
      eapply goes_bind; [by apply dict_put_goes|]. intros [] s1 Hok1 _ V1 (_ & E2 & _). apply goes_ret; [done| |done].
      rewrite V1. f_equal. by rewrite (view_dict_data s Hm), <- D2.
    + rewrite decide_False, bool_decide_false by (rewrite Hk; by intros []).
      eapply goes_bind; [by apply dict_put_goes|]. intros [] s1 Hok1 _ V1 (_ & E2 & _). apply goes_ret; [done| |done].
      rewrite V1, <- (view_dict_data s Hm). apply p_with_data_same.
Qed.

(** ** Writing out the marks a layout implies *)

Lemma non_numbers_bit l : forall i j v, 0 <= i -> l !! j = Some v -> is_number v = false ->
  Z.testbit (non_numbers_from i l) (i + Z.of_nat j) = true.
Proof.
  induction l as [|w l IH]; intros i j v Hi Hj Hv; [done|]. cbn [non_numbers_from]. rewrite Z.lor_spec. destruct j as [|j]; simpl in Hj.
  - injection Hj as ->. rewrite Hv, Z.shiftl_1_l, Z.add_0_r, Z.pow2_bits_true by done. done.
  - replace (i + Z.of_nat (S j)) with ((i + 1) + Z.of_nat j) by lia. rewrite (IH (i + 1) j v) by (done || lia). apply orb_true_r.
Qed.

Lemma non_numbers_nonneg l : forall i, 0 <= i -> 0 <= non_numbers_from i l.
Proof.
  induction l as [|w l IH]; intros i Hi; cbn [non_numbers_from]; [done|]. apply Z.lor_nonneg. split; [|by apply IH; lia].
  apply Z.shiftl_nonneg. by destruct (is_number w).
Qed.

(** The switch to another layout with the same keys. *)
Lemma note_all_slots_goes s : wf (shapes s) -> static_ok (shapes s) (self s) -> o_mode (self s) = Shaped ->
  goes note_all_slots s (spec_of (shapes s) (self s)) (fun _ s' => self s' = self s).
Proof.
  intros Hw Hs Hm. apply goes_me. unfold is_dict. rewrite Hm. set (mask := non_numbers_from 0 _). unfold on_shapes. apply wp_act. cbn [fst snd].
  pose proof (os_live _ _ Hs) as [x Hx].
  destruct (note_non_numbers_spec (shapes s) _ x mask Hw Hx ltac:(by apply non_numbers_nonneg)) as (Hw' & He & _ & Hb & _). set (st' := note_non_numbers _ _ _) in *.
  assert (K : keeps (shapes s) st' (o_shape (self s))) by (apply extends_keeps; [done|done|by eexists]).
  split_and!; [|done| |done].
  - apply ok_static. cbn [shapes self with_shapes]. split_and!; [done|by eapply keeps_static|]. intros j v' Hj Hlt Hv'.
    apply Hb; [lia|]. replace (Z.of_nat j) with (0 + Z.of_nat j) by lia. apply (non_numbers_bit _ 0 j v'); [done| |done].
    by rewrite lookup_take_lt by lia.
  - unfold view. cbn [shapes self with_shapes]. by apply keeps_spec.
Qed.

(** The out-of-line part [x] has in its lists and its prefix what the marked layout of [s] implied. *)
Record written_out (s : Sys) (x : ObjectExtra) : Prop := {
  wo_same : x_spill x = x_spill (ex (self s)) /\ x_dict x = x_dict (ex (self s)) /\ x_accessors x = x_accessors (ex (self s)) /\
    x_class_tag x = x_class_tag (ex (self s)) /\ x_key_order x = x_key_order (ex (self s)) /\ x_hidden x = x_hidden (ex (self s));
  wo_attrs : attrs_ok x;
  wo_prefix : x_hidden_prefix x = o_len (self s);
  wo_ro : forall k, k ∈ x_readonly x <-> k ∈ p_ro (view s);
  wo_nc : forall k, k ∈ x_non_configurable x <-> k ∈ p_nc (view s) }.

Lemma relayout_goes s s2 x : ok s -> marked (shape_at (shapes s) (o_shape (self s))) = true -> written_out s x ->
  memo_eq (shapes s) (shapes s2) -> self s2 = with_extra (Some x) (self s) ->
  wp (twin ← on_shapes (unmarked_twin (o_shape (self s2))); put (with_shape twin);; note_all_slots)
    (fun _ s' => ok s' /\ extends (shapes s) (shapes s') /\ view s' = view s /\ written s' /\ o_mode (self s') = Shaped) s2.
Proof.
  intros Hok Hmk [(S1 & S2 & S3 & S4 & S5 & S6) Ha Hp Hro Hnc] Hmm E2. pose proof Hok as [Hw Ho].
  assert (Hm : o_mode (self s) = Shaped).
  { destruct (o_mode (self s)) eqn:Hm; [done|]. by rewrite (obj_unmarked_dict _ _ Hw Ho Hm) in Hmk. }
  pose proof (memo_wf _ _ Hmm Hw) as Hw2. pose proof (oo_live _ _ Ho) as Hlive. destruct (memo_live _ _ _ Hmm Hlive) as [sh Hsh].
  pose proof (unmarked_twin_spec (shapes s2) (o_shape (self s2)) sh Hw2) as Ht. rewrite E2 in Ht. cbn [o_shape with_extra] in Ht. specialize (Ht Hsh).
  apply wp_bind. unfold on_shapes. apply wp_act. rewrite E2. cbn [o_shape with_extra]. destruct (unmarked_twin (o_shape (self s)) (shapes s2)) as [c st'] eqn:Et.
  destruct Ht as (Hw' & He & Hlc & Hkc & Huc). cbn [fst snd]. rewrite (memo_skeys _ _ _ Hmm) in Hkc.
  apply wp_bind, wp_modify. set (s3 := with_self _ _). assert (Es3 : self s3 = with_shape c (with_extra (Some x) (self s))) by (unfold s3; cbn; by rewrite E2).
  assert (Hs3 : static_ok (shapes s3) (self s3)).
  { rewrite Es3. change (shapes s3) with st'. destruct Ho as [K1 [J1 J2 J3] K3 K4 K5 K6 K7 K8 K9]. split; cbn [o_shape o_len o_mode with_shape with_extra]; try done.
    - split; [done|done|]. unfold spill. change (ex _) with x. by rewrite S1.
    - by rewrite Hkc.
    - rewrite Hm in K5 |- *. change (ex _) with x. by rewrite S2.
    - change (ex _) with x. rewrite Hp. lia.
    - rewrite Huc. done.
    - unfold marked in Huc. rewrite implied_attrs_or in Huc. apply orb_false_iff in Huc as [-> _]. done. }
  pose proof (note_all_slots_goes s3 Hw' Hs3 ltac:(by rewrite Es3)) as Hn. eapply wp_mono; [exact Hn|]. intros _ s4 (Hok4 & He4 & V4 & E4).
  split_and!; [done|etrans; [by apply memo_extends|]; etrans; [exact He|done]| | |by rewrite E4, Es3].
  - rewrite V4, Es3. change (shapes s3) with st'. unfold view, spec_of, mark_set, data_of, is_dict, slots_iter, spill.
    cbn [o_shape o_len o_mode o_flags o_proto o_key_epoch o_inline with_shape with_extra]. change (ex (with_shape c (with_extra (Some x) (self s)))) with x. rewrite Hkc, S1, S3, S4, S5, Hm.
    unfold marked in Huc. rewrite implied_attrs_or in Huc. apply orb_false_iff in Huc as [-> ->]. f_equal.
    + apply set_eq. intros k. rewrite elem_of_union, elem_of_list_to_set. cbn [marks implied_set]. rewrite Hro. cbn. set_solver.
    + apply set_eq. intros k. rewrite !elem_of_union, !elem_of_list_to_set. cbn [marks implied_set orb].
      unfold marked in Hmk. rewrite implied_attrs_or in Hmk. rewrite Hmk, S6, Hp, (oo_len _ _ Ho), Nat2Z.id, take_ge by done. done.
    + apply set_eq. intros k. rewrite elem_of_union, elem_of_list_to_set. cbn [marks implied_set andb]. rewrite Hnc. cbn. set_solver.
  - unfold written. rewrite E4, Es3. cbn [o_shape with_shape].
    pose proof (extends_brands (shapes s3) (shapes s4) c He4 Hlc) as Hb. unfold marked, has_implied_attrs, has_brand in *. by rewrite Hb.
Qed.

Lemma with_prefix_attrs n x : attrs_ok x -> attrs_ok (with_hidden_prefix n x).
Proof.
  intros [H1 H2 H3 H4]. split; [intros m; destruct m; apply (H1 Readonly) || apply (H1 Hidden) || apply (H1 NonConfigurable)|done|done|].
  intros ix Hix. destruct (H4 ix Hix) as [K1 K2 K3]. split; [|done|done]. intros m k. rewrite K1. by destruct m.
Qed.

Lemma with_prefix_marks n x m : marks m (with_hidden_prefix n x) = marks m x.
Proof. by destruct m. Qed.

Section WriteOut.
Context (s : Sys).
Hypothesis Hok : ok s.
Hypothesis Hr : p_room (view s).
Hypothesis Hmk : marked (shape_at (shapes s) (o_shape (self s))) = true.

Abbreviation x0 := (ex (self s)).
Abbreviation sh := (shape_at (shapes s) (o_shape (self s))).
Abbreviation ks := (skeys (shapes s) (o_shape (self s))).

(** The out-of-line part a constructor's layout is written out to. *)
Definition ctor_part : ObjectExtra :=
  let x := with_hidden_prefix (slen sh) x0 in
  if bool_decide (bytes "prototype" ∈ ks) && negb (has_mark NonConfigurable (bytes "prototype") x)
  then add_mark NonConfigurable (bytes "prototype") x else x.

Lemma ctor_part_ok : has_implied_ctor_attrs sh = true -> written_out s ctor_part.
Proof using Hok Hr Hmk.
  intros Hc. pose proof Hok as [Hw Ho]. pose proof (oo_attrs _ _ Ho) as Ha. pose proof (room_roomy s Hok Hr) as [Hrm Hra].
  assert (Hf : has_implied_fn_attrs sh = false).
  { destruct (has_implied_fn_attrs sh) eqn:Ef; [|done]. destruct (fn_keys s Hok Ef). congruence. }
  unfold ctor_part. set (x := with_hidden_prefix (slen sh) x0). assert (Hx : attrs_ok x) by (by apply with_prefix_attrs).
  assert (Hro : forall k, k ∈ x_readonly x0 <-> k ∈ p_ro (view s)).
  { intros k. pose proof (view_mark s Readonly k) as H. cbn [p_mark marks implied_set] in H. rewrite Hf in H. rewrite H. set_solver. }
  assert (Hnc : forall k, k ∈ p_nc (view s) <-> k ∈ x_non_configurable x0 \/ k = bytes "prototype" /\ bytes "prototype" ∈ ks).
  { intros k. pose proof (view_mark s NonConfigurable k) as H. cbn [p_mark marks implied_set] in H. rewrite Hc in H. rewrite H.
    cbn [andb]. case_bool_decide; set_solver. }
  rewrite has_mark_spec by done. cbn [marks x_non_configurable x with_hidden_prefix].
  destruct (bool_decide _ && negb _) eqn:E.
  - apply andb_true_iff in E as [Hin%bool_decide_eq_true Hn%negb_true_iff%bool_decide_eq_false].
    destruct (add_mark_ok x NonConfigurable (bytes "prototype") Hx) as (H1 & H2 & H3 & [S1 S2 S3 S4 S5 S6]); [split; [intros m; unfold x; rewrite with_prefix_marks; apply Hrm|done]|done|].
    split; rewrite ?S1, ?S2, ?S3, ?S4, ?S5, ?S6; [split_and!; try done|done| | |].
    + by apply (H3 Hidden).
    + unfold x. cbn. by rewrite obj_slen.
    + intros k. rewrite <- Hro. change (x_readonly (add_mark _ _ x)) with (marks Readonly (add_mark NonConfigurable (bytes "prototype") x)). by rewrite H3.
    + intros k. rewrite Hnc. change (x_non_configurable (add_mark _ _ x)) with (marks NonConfigurable (add_mark NonConfigurable (bytes "prototype") x)).
      rewrite H2. cbn. set_solver.
  - split; [done|done| |done|].
    + unfold x. cbn. by rewrite obj_slen.
    + intros k. rewrite Hnc. cbn. apply andb_false_iff in E as [E%bool_decide_eq_false|E%negb_false_iff%bool_decide_eq_true]; [tauto|].
      split; [by left|]. intros [?|[-> _]]; done.
Qed.

(** The out-of-line part a built-in function's layout is written out to. *)
Definition fn_part : ObjectExtra :=
  with_hidden_prefix 2 (add_mark Readonly (bytes "name") (add_mark Readonly (bytes "length") x0)).

Lemma fn_part_ok : has_implied_fn_attrs sh = true -> written_out s fn_part.
Proof using Hok Hr Hmk.
  intros Hf. pose proof Hok as [Hw Ho]. pose proof (oo_attrs _ _ Ho) as Ha. pose proof (room_roomy s Hok Hr) as Hroom.
  destruct (fn_keys s Hok Hf) as [Hc Hk]. pose proof (oo_fn _ _ Ho Hf) as Hnin. rewrite Hk in Hnin.
  assert (Hro : forall k, k ∈ p_ro (view s) <-> k ∈ x_readonly x0 \/ k ∈ [bytes "length"; bytes "name"]).
  { intros k. pose proof (view_mark s Readonly k) as H. cbn [p_mark marks implied_set] in H. rewrite Hf, Hk in H. rewrite H. by rewrite elem_of_list_to_set. }
  destruct (add_mark_ok x0 Readonly (bytes "length") Ha Hroom (Hnin _ ltac:(by left))) as (H1 & H2 & H3 & S). cbn [marks] in H2.
  set (x1 := add_mark Readonly (bytes "length") x0) in *. destruct Hr as [Hrm Hra].
  destruct (add_mark_ok x1 Readonly (bytes "name") H1) as (K1 & K2 & K3 & T).
  { split.
    - intros m. destruct (decide (m = Readonly)) as [->|Hne].
      + specialize (Hrm Readonly). cbn [p_mark] in Hrm. pose proof (length_le_size (x_readonly x1) (p_ro (view s)) (ao_marks _ H1 Readonly)) as Hle.
        rewrite H2 in Hle. cbn [marks]. rewrite H2. specialize (Hle ltac:(intros k; rewrite Hro, elem_of_app, !elem_of_cons; tauto)). lia.
      + rewrite H3 by done. apply Hroom.
    - rewrite (sm_acc _ _ S). exact Hra. }
  { cbn [marks]. rewrite H2, elem_of_app, list_elem_of_singleton. intros [Hin|?]; [|done]. apply (Hnin (bytes "name")); [right; by left|done]. }
  cbn [marks] in K2. destruct S as [S1 S2 S3 S4 S5 S6], T as [T1 T2 T3 T4 T5 T6]. unfold fn_part. fold x1. split.
  - cbn [with_hidden_prefix x_spill x_dict x_accessors x_class_tag x_key_order x_hidden]. rewrite T1, T2, T3, T4, T6. split_and!; try done. transitivity (x_hidden x1); [by apply (K3 Hidden)|by apply (H3 Hidden)].
  - by apply with_prefix_attrs.
  - cbn. rewrite (oo_len _ _ Ho), Hk. done.
  - intros k. change (x_readonly (with_hidden_prefix 2 ?y)) with (x_readonly y). rewrite K2, H2, Hro. set_solver.
  - intros k. pose proof (view_mark s NonConfigurable k) as H. cbn [p_mark marks implied_set] in H. rewrite Hc in H. rewrite H.
    change (x_non_configurable (with_hidden_prefix 2 ?y)) with (marks NonConfigurable y). rewrite K3, H3 by done. cbn. set_solver.
Qed.

Lemma finish_write_out x s1 : written_out s x -> memo_eq (shapes s) (shapes s1) -> self s1 = with_extra (Some x) (self s) ->
  wp (layout_changed;; o ← me; twin ← on_shapes (unmarked_twin (o_shape o)); put (with_shape twin);; note_all_slots)
    (fun _ s' => ok s' /\ extends (shapes s) (shapes s') /\ view s' = view s /\ written s' /\ o_mode (self s') = Shaped) s1.
Proof using Hok Hmk.
  intros Hx Hm E1. apply wp_bind. eapply wp_mono; [apply layout_changed_quiet|]. intros [] s2 [E2 F2].
  apply (relayout_goes s s2 x Hok Hmk Hx); congruence.
Qed.

Lemma write_out_implied_attrs_goes : goes write_out_implied_attrs s (view s) (fun _ s' => written s' /\ o_mode (self s') = Shaped).
Proof using Hok Hr Hmk.
  apply goes_my_shape. cbv zeta. apply wp_bind. destruct (has_implied_ctor_attrs sh) eqn:Hc.
  - eapply wp_mono; [by apply shape_contains_reads|]. intros b s1 [-> E].
    apply wp_bind, wp_modify, wp_bind, wp_bind, wp_modify, wp_bind, wp_gets.
    match goal with |- wp (when ?b _) _ ?t =>
      assert (b = bool_decide (bytes "prototype" ∈ ks) && negb (has_mark NonConfigurable (bytes "prototype") (with_hidden_prefix (slen sh) x0))) as ->
        by (cbn; by rewrite (sy_self _ _ E)); set (s2 := t) end.
    assert (E2 : self s2 = with_extra (Some (with_hidden_prefix (slen sh) x0)) (self s)) by (unfold s2; cbn; by rewrite (sy_self _ _ E)).
    assert (Hfin : forall s3, self s3 = with_extra (Some ctor_part) (self s) -> shapes s3 = shapes s1 ->
      wp (layout_changed;; o ← me; twin ← on_shapes (unmarked_twin (o_shape o)); put (with_shape twin);; note_all_slots)
        (fun _ s' => ok s' /\ extends (shapes s) (shapes s') /\ view s' = view s /\ written s' /\ o_mode (self s') = Shaped) s3).
    { intros s3 E3 F3. apply (finish_write_out ctor_part); [by apply ctor_part_ok|rewrite F3; apply E|done]. }
    unfold ctor_part in Hfin. destruct (bool_decide _ && _); simpl when.
    + apply wp_modify, Hfin; [|done]. change (self (with_self ?a ?b)) with a. rewrite E2. done.
    + apply wp_ret, Hfin; [exact E2|done].
  - apply wp_ret. assert (Hf : has_implied_fn_attrs sh = true) by (unfold marked in Hmk; rewrite implied_attrs_or, Hc, orb_false_r in Hmk; done).
    apply wp_bind, wp_modify, wp_bind, wp_bind, wp_modify, wp_bind, wp_modify, wp_modify.
    eapply (finish_write_out fn_part); [by apply fn_part_ok|by apply memo_refl; apply Hok|done].
Qed.
End WriteOut.

Lemma materialize_goes s : ok s -> p_room (view s) ->
  goes materialize_implied_attrs s (view s) (fun _ s' => written s' /\ o_mode (self s') = o_mode (self s) /\
    (written s -> same_sys s s')).
Proof.
  intros Hok Hr. eapply goes_read; [done|by apply implied_attrs_reads|]. intros s1 Hok1 E. destruct (same_sys_ok s s1 Hok E) as [_ V].
  assert (Em : marked (shape_at (shapes s1) (o_shape (self s1))) = marked (shape_at (shapes s) (o_shape (self s)))).
  { unfold marked, has_implied_attrs. rewrite (sy_self _ _ E). by apply same_sys_brand. }
  destruct (marked (shape_at (shapes s) (o_shape (self s)))) eqn:Hmk; cbn [when].
  - rewrite <- V. eapply goes_mono; [apply write_out_implied_attrs_goes; [done|by rewrite V|done]|].
    intros [] s2 Hok2 V2 _ [H1 H2]. split_and!; [done| |intros Hn; unfold written in Hn; congruence].
    rewrite H2. destruct (o_mode (self s)) eqn:Hd; [done|]. pose proof (obj_unmarked_dict _ _ (proj1 Hok) (proj2 Hok) Hd). congruence.
  - apply goes_ret; [done|done|]. split_and!; [done|by rewrite (sy_self _ _ E)|done].
Qed.

(** ** The change to a dictionary *)

Lemma list_of_keys (l : list (key * NanBox)) : NoDup l.*1 -> (fun k => (k, default undefined (assoc k l))) <$> l.*1 = l.
Proof.
  intros Hnd. rewrite <- list_fmap_compose. rewrite <- (list_fmap_id l) at 2. apply list_fmap_ext. intros i [k v] Hi. cbn.
  rewrite (proj2 (assoc_elem k v l Hnd)); [done|]. by eapply list_elem_of_lookup_2.
Qed.

Lemma view_NoDup s : ok s -> NoDup (p_keys (view s)).
Proof. intros [Hw Ho]. by apply data_NoDup. Qed.

Lemma shaped_keys s : ok s -> o_mode (self s) = Shaped -> skeys (shapes s) (o_shape (self s)) = p_keys (view s).
Proof. intros Hok Hm. rewrite view_keys by done. unfold is_dict. by rewrite Hm. Qed.

(** The entries of some of the keys. *)
Lemma key_slots_reads s ks : ok s -> o_mode (self s) = Shaped -> (forall k, k ∈ ks -> k ∈ p_keys (view s)) ->
  reads (map_prog key_slot ks) s ((fun k => (k, default undefined (assoc k (p_data (view s))))) <$> ks).
Proof.
  intros Hok Hm Hks. apply map_reads; [done|]. intros k s1 Hk Hok1 E. destruct (same_sys_ok _ _ Hok E) as [_ V].
  destruct (assoc k (p_data (view s))) as [v|] eqn:Ev.
  - apply key_slot_reads; [done|unfold is_dict; by rewrite (sy_self _ _ E), Hm|by rewrite V].
  - apply assoc_None in Ev. exfalso. by apply Ev, Hks.
Qed.

Lemma same_mode s s' : same_sys s s' -> o_mode (self s') = o_mode (self s).
Proof. intros E. by rewrite (sy_self _ _ E). Qed.

(** The object after the steps of the conversion. *)
Definition as_dict (vs : list (key * NanBox)) (r : nat) (o : Object) : Object :=
  with_mode Dict (with_shape r (extra_mut (fun x => with_dict (Some (dict_entries vs)) (with_spill SPILL_EMPTY x))
    (with_inline (replicate (Z.to_nat INLINE_SLOTS) undefined) (with_len 0 o)))).

Lemma written_brands s : written s -> has_implied_fn_attrs (shape_at (shapes s) (o_shape (self s))) = false /\
  has_implied_ctor_attrs (shape_at (shapes s) (o_shape (self s))) = false.
Proof. unfold written, marked. rewrite implied_attrs_or. apply orb_false_iff. Qed.

Lemma as_dict_ok s st' r : ok s -> plain s -> o_mode (self s) = Shaped -> is_Some (live st' !! r) -> skeys st' r = [] ->
  marked (shape_at st' r) = false -> let o' := as_dict (p_data (view s)) r (self s) in obj_ok st' o' /\ spec_of st' o' = view s.
Proof.
  intros Hok [Hwr Hpre] Hm Hr Hkr Hur o'. pose proof Hok as [Hw Ho]. destruct (dict_entries_ok (p_data (view s)) (view_NoDup s Hok)) as [Hd Hl].
  set (d := dict_entries (p_data (view s))) in *.
  assert (Hx : ex o' = with_dict (Some d) (with_spill SPILL_EMPTY (ex (self s)))) by done. split.
  - destruct (oo_attrs _ _ Ho) as [K1 K2 K3 K4]. split; try done.
    + rewrite Hx. split; [intros m; destruct m; apply (K1 Readonly) || apply (K1 Hidden) || apply (K1 NonConfigurable)|done|done|].
      intros ix Hix. destruct (K4 ix Hix) as [M1 M2 M3]. split; [|done|done]. intros m k. rewrite M1. by destruct m.
    + change (o_shape o') with r. by rewrite Hkr.
    + change (o_mode o') with Dict. split; [done|]. rewrite Hx. by exists d.
    + rewrite Hx. cbn. rewrite Hpre. done.
    + change (o_shape o') with r. rewrite Hkr. intros _ k Hk. by apply elem_of_nil in Hk.
  - unfold view, spec_of, mark_set. change (o_shape o') with r. unfold marked in Hur. rewrite implied_attrs_or in Hur.
    apply orb_false_iff in Hur as [-> ->]. destruct (written_brands s Hwr) as [-> ->]. rewrite Hkr, Hx, Hpre. cbn.
    f_equal; [exact Hl|]. by rewrite take_nil.
Qed.

Lemma convert_to_dict_goes s : ok s -> p_room (view s) ->
  goes convert_to_dict s (view s) (fun _ s' => o_mode (self s') = Dict).
Proof.
  intros Hok Hr. apply goes_me. unfold is_dict. destruct (o_mode (self s)) eqn:Hm; [|by apply goes_ret].
  eapply goes_bind; [by apply materialize_goes|]. intros [] s1 Hok1 _ V1 (Hwr1 & Hm1 & _). rewrite Hm in Hm1. rewrite <- V1 in Hr |- *.
  eapply goes_bind; [by apply write_out_hidden_prefix_goes|]. intros [] s2 Hok2 _ V2 (Hp2 & Hm2 & _ & _). rewrite Hm1 in Hm2. rewrite <- V2 in Hr |- *.
  eapply goes_read; [done|by apply shape_keys_reads|]. intros s3 Hok3 E3. destruct (same_sys_ok _ _ Hok2 E3) as [_ V3].
  assert (Hm3 : o_mode (self s3) = Shaped) by (by rewrite (same_mode _ _ E3)).
  rewrite (shaped_keys s2) by done. rewrite <- V3.
  eapply goes_read; [done|by apply key_slots_reads|]. intros s4 Hok4 E4. destruct (same_sys_ok _ _ Hok3 E4) as [_ V4].
  rewrite list_of_keys by (by apply view_NoDup). do 3 apply goes_put_then.
  apply goes_quiet_then; [apply layout_changed_quiet|]. intros s5 E5 F5.
  destruct (root_wf (shapes s5)) as (Hw6 & He6 & Hl6 & Hk6); [rewrite F5; apply Hok4|]. apply goes_on_shapes_then; [done|].
  apply goes_put_then. set (r := fst (root (shapes s5))). set (st' := snd (root (shapes s5))) in *.
  assert (Hr' : r = next_id (shapes s5)) by done. rewrite <- Hr' in Hl6, Hk6.
  assert (E : same_sys s2 s4) by (by eapply same_sys_trans).
  destruct (as_dict_ok s2 st' r Hok2 Hp2 Hm2) as [H1 H2]; [by eexists|done| |].
  - rewrite (shape_at_live _ _ _ Hl6). done.
  - apply goes_put; [done| | |done]; cbn [self shapes with_self with_shapes]; rewrite E5; cbn [self with_self];
      rewrite (sy_self _ _ E), V3; [exact H1|exact H2].
Qed.
