(* ===== verification/ObjectGrow.v ===== *)
(** * Adding and removing properties *)

From Stdlib Require Import String.
From S2P Require Import Prelude Prog NanBox Shape ShapeTable ShapeInv ShapeSpec Object ObjectAttr ObjectSlots ObjectInv ObjectData ObjectReads ObjectWrites ObjectSlotOps.

#[local] Abbreviation length := Datatypes.length.
Open Scope Z_scope.

(** ** Pushing a slot *)

Lemma slot_push_goes s v : wf (shapes s) -> static_ok (shapes s) (pushed v (self s)) -> slots_ok (self s) -> o_len (self s) < MAX_SHAPED_LEN ->
  numbers_but (Z.to_nat (o_len (self s))) (shapes s) (pushed v (self s)) ->
  goes (slot_push v) s (spec_of (shapes s) (pushed v (self s))) (fun _ s' => self s' = pushed v (self s)).
Proof.
  intros Hw Hs Hsl Hlt Hn. apply goes_me. cbv zeta. do 2 apply goes_put_then.
  assert (Hi : 0 <= o_len (self s)) by apply (sl_len _ Hsl).
  destruct (pushed_spec _ v Hsl Hlt) as (_ & _ & Hit & _). pose proof (slots_iter_length _ Hsl) as Hl.
  apply (note_slot_wp (with_self (pushed v (self s)) s) (o_len (self s)) v); [done|done|done|done|].
  cbn [self with_self]. rewrite Hit, lookup_app_r by lia. replace (_ - _)%nat with O by lia. done.
Qed.

(** A layout that can take the place of the object's, with a key more. *)
Record child_layout (st : Shapes) (o : Object) (k : key) (c : nat) : Prop := {
  cl_live : is_Some (live st !! c);
  cl_keys : skeys st c = skeys st (o_shape o) ++ [k];
  cl_numbers : numbers_ok st (with_shape c o);
  cl_unmarked : marked (shape_at st c) = false }.

Lemma with_shape_slots c o : slots_iter (with_shape c o) = slots_iter o.
Proof. done. Qed.

Lemma pushed_ex v o {A} (f : ObjectExtra -> A) : slots_ok o -> o_len o < MAX_SHAPED_LEN -> (forall x p, f (with_spill p x) = f x) ->
  f (ex (pushed v o)) = f (ex o).
Proof.
  intros H1 H2 Hf. destruct (pushed_spec _ v H1 H2) as (_ & _ & _ & [_ _ _ _ _ E]). rewrite <- (Hf (ex (pushed v o)) SPILL_EMPTY), E. apply Hf.
Qed.

Lemma slots_ok_shape c o : slots_ok o -> slots_ok (with_shape c o).
Proof. intros [H1 H2 H3]. by split. Qed.

Lemma attrs_ok_spill p x : attrs_ok (with_spill p x) <-> attrs_ok x.
Proof.
  split; intros [H1 H2 H3 H4]; (split; [intros m; destruct m; apply (H1 Readonly) || apply (H1 Hidden) || apply (H1 NonConfigurable)|done|done|]);
    intros ix Hix; destruct (H4 ix Hix) as [K1 K2 K3]; (split; [|done|done]); intros m k; rewrite K1; by destruct m.
Qed.

(** What the abstract object reads of an object whose layout implies nothing. *)
Lemma plain_mark_set st o m : marked (shape_at st (o_shape o)) = false -> mark_set st o m =
  list_to_set (marks m (ex o)) ∪
  match m with Hidden => list_to_set (take (Z.to_nat (x_hidden_prefix (ex o))) (skeys st (o_shape o))) | _ => ∅ end.
Proof.
  unfold marked, mark_set. rewrite implied_attrs_or. intros [-> ->]%orb_false_iff. by destruct m.
Qed.

Lemma push_child_goes s k v c : ok s -> o_mode (self s) = Shaped -> written s -> o_len (self s) < MAX_SHAPED_LEN ->
  child_layout (shapes s) (self s) k c ->
  goes (put (with_shape c);; slot_push v) s (p_with_data (p_data (view s) ++ [(k, v)]) (view s))
    (fun _ s' => o_shape (self s') = c /\ o_mode (self s') = Shaped /\ written s').
Proof.
  intros Hok Hm Hwr Hlt [C1 C2 C3 C4]. pose proof Hok as [Hw Ho]. apply goes_put_then. set (o1 := with_shape c (self s)).
  assert (Hsl : slots_ok o1) by apply slots_ok_shape, Ho. destruct (pushed_spec o1 v Hsl Hlt) as (P1 & P2 & P3 & P4).
  pose proof (obj_slots_length _ _ Ho) as Hlen. change (slots_iter o1) with (slots_iter (self s)) in P3. destruct P4 as [S1 S2 S3 S4 S5 S6].
  assert (F : forall {A} (f : ObjectExtra -> A), (forall x p, f (with_spill p x) = f x) -> f (ex (pushed v o1)) = f (ex (self s))).
  { intros A f Hf. exact (pushed_ex v o1 f Hsl Hlt Hf). }
  assert (Hst : static_ok (shapes s) (pushed v o1)).
  { destruct Ho as [K1 K2 K3 K4 K5 K6 K7 K8 K9]. split; rewrite ?S4, ?S1; change (o_shape o1) with c; change (o_mode o1) with (o_mode (self s)).
    - done.
    - done.
    - rewrite <- (attrs_ok_spill SPILL_EMPTY), S6, attrs_ok_spill. done.
    - rewrite P2, C2, length_app. change (o_len o1) with (o_len (self s)). rewrite K4. simpl. lia.
    - rewrite Hm in K5 |- *. by rewrite (F _ x_dict).
    - rewrite (F _ x_hidden_prefix) by done. rewrite P2. change (o_len o1) with (o_len (self s)). lia.
    - by rewrite C4.
    - unfold marked in C4. rewrite implied_attrs_or in C4. apply orb_false_iff in C4 as [-> _]. done. }
  eapply goes_mono.
  - replace (p_with_data _ (view s)) with (spec_of (shapes (with_self o1 s)) (pushed v (self (with_self o1 s)))).
    + apply slot_push_goes; cbn [shapes self with_self]; [done|done|done|done|]. intros j w Hj Hj64 Hne Hw'.
      rewrite S4. rewrite P3 in Hj. apply lookup_app_Some in Hj as [Hj|[Hj1 Hj2]].
      * by apply (C3 j w).
      * exfalso. apply list_lookup_singleton_Some in Hj2 as [Hj2 _]. change (o_len o1) with (o_len (self s)) in Hne.
        rewrite (oo_len _ _ Ho) in Hne. lia.
    + cbn [shapes self with_self]. unfold view, spec_of, p_with_data. cbn [p_acc p_log p_ro p_hid p_nc p_flags p_proto p_class p_epoch p_data].
      rewrite !plain_mark_set by (rewrite ?S4; done). rewrite S2, S3, S4, S5, (F _ x_accessors), (F _ x_key_order), (F _ x_class_tag), (F _ x_hidden_prefix) by done.
      rewrite (F _ (marks Readonly)), (F _ (marks Hidden)), (F _ (marks NonConfigurable)) by done. change (o_shape o1) with c. rewrite C2.
      rewrite take_app_le by (pose proof (oo_prefix _ _ Ho); pose proof (oo_len _ _ Ho); lia).
      f_equal. unfold data_of, is_dict. rewrite S1. change (o_mode o1) with (o_mode (self s)). rewrite Hm, S4, P3. change (o_shape o1) with c. rewrite C2.
      rewrite zip_with_app by done. done.
  - intros [] s' Hok' _ He E. cbn [self with_self] in E. unfold written. rewrite E, S4, S1. split_and!; [done|done|]. change (o_shape o1) with c.
    pose proof (extends_brands _ _ c He C1) as Hb. unfold marked, has_implied_attrs, has_brand in *. change (shapes (with_self o1 s)) with (shapes s) in Hb.
    by rewrite Hb.
Qed.

(** ** Adding a property *)

Lemma add_new_goes s k v : ok s -> p_room (view s) -> k ∉ p_keys (view s) ->
  goes (add_new k v) s (p_with_data (p_data (view s) ++ [(k, v)]) (view s))
    (fun _ s' => o_mode (self s') = Dict \/ written s').
Proof.
  intros Hok Hr Hk. eapply goes_bind; [by apply materialize_goes|]. intros [] s1 Hok1 _ V1 (Hwr1 & Hm1 & _). rewrite <- V1 in *. clear V1 Hm1 Hok s.
  apply goes_me. eapply (goes_bind _ _ _ (view s1)) with (Q := fun _ s2 => o_mode (self s2) = Dict \/
    o_mode (self s2) = Shaped /\ written s2 /\ o_len (self s2) < MAX_SHAPED_LEN).
  - unfold is_dict. destruct (o_mode (self s1)) eqn:Hm; simpl; [|apply goes_ret; by auto]. unfold when. case_cmp.
    + eapply goes_mono; [by apply convert_to_dict_goes|]. auto.
    + apply goes_ret; [done|done|]. right. auto.
  - intros [] s2 Hok2 _ V2 Hs2. rewrite <- V2 in *. clear V2 Hwr1 Hok1 s1. apply goes_me. pose proof Hok2 as [Hw Ho]. destruct Hs2 as [Hm|(Hm & Hwr & Hlt)].
    + unfold is_dict. rewrite Hm. destruct (obj_dict _ _ Ho Hm) as (_ & _ & Hd).
      assert (Hn : d_map (dict (self s2)) !! k = None).
      { rewrite view_keys in Hk by done. unfold is_dict in Hk. rewrite Hm, omap_id_elem, dict_keys_elem in Hk by done. by apply eq_None_not_Some. }
      destruct (dict_add_ok _ k v Hd Hn) as [D1 D2]. rewrite (view_dict_data s2 Hm), <- D2.
      eapply goes_mono; [by apply dict_put_goes|]. intros [] s3 _ _ _ (_ & _ & ? & _). by left.
    + unfold is_dict. rewrite Hm. rewrite <- shaped_keys in Hk by done. pose proof (oo_live _ _ Ho) as [x Hx].
      assert (Hub : marked x = false) by (unfold written in Hwr; by rewrite (shape_at_live _ _ _ Hx) in Hwr).
      pose proof (obj_slen _ _ Hw Ho) as Hsl. rewrite (shape_at_live _ _ _ Hx) in Hsl. unfold MAX_SHAPED_LEN in Hlt.
      pose proof (add_spec _ _ x k Hw Hx Hub Hk ltac:(lia)) as [A1 A2 A3 A4 A5 A6 A7]. set (st' := snd _) in *. set (c := fst _) in *.
      eapply goes_bind; [apply (goes_on_shapes s2 (add (o_shape (self s2)) k) (view s2) (fun i s3 => i = c /\ s3 = with_shapes st' s2)); by try done|].
      intros i s3 Hok3 _ V3 [-> E3]. rewrite <- V3.
      assert (K : keeps (shapes s2) st' (o_shape (self s2))) by (apply extends_keeps; [done|done|by eexists]).
      assert (Hwr3 : written s3).
      { unfold written, marked, has_implied_attrs in *. rewrite E3. cbn [shapes self with_shapes]. by rewrite (keeps_has_brand _ _ _ _ K). }
      eapply goes_mono; [apply (push_child_goes s3 k v c); try done|].
      * by rewrite E3.
      * rewrite E3. unfold MAX_SHAPED_LEN. cbn [self with_shapes]. lia.
      * rewrite E3. cbn [shapes self with_shapes]. split; [done| | |done].
        -- rewrite A4. f_equal. symmetry. apply K.
        -- intros j w Hj H64 Hnn. apply A6; [lia|]. by eapply (oo_numbers _ _ Ho).
      * intros [] s4 Hok4 _ _ (_ & _ & ?). by right.
Qed.

(** ** Compaction of a dictionary's order *)

Lemma compact_order_goes s : ok s -> goes compact_order s (view s) (fun _ s' => o_shape (self s') = o_shape (self s) /\
  x_hidden_prefix (ex (self s')) = x_hidden_prefix (ex (self s))).
Proof.
  intros Hok. apply goes_me. unfold is_dict. destruct (o_mode (self s)) eqn:Hm; simpl; [by apply goes_ret|].
  destruct (obj_dict _ _ (proj2 Hok) Hm) as (_ & _ & Hd). destruct (_ <=? _)%nat; [by apply goes_ret|].
  destruct (compact_ok _ Hd) as (m & -> & Hd' & Hl). apply wp_bind, wp_ret.
  assert (E : view s = p_with_data (dict_list (MkDict (live_order (d_order (dict (self s)))) m)) (view s)).
  { rewrite Hl, <- (view_dict_data s Hm). symmetry. apply p_with_data_same. }
  rewrite E. eapply goes_mono; [by apply (dict_put_goes s (fun _ => MkDict _ m))|]. intros [] s' _ _ _ (_ & ? & _ & _ & ?). done.
Qed.

(** ** Refilling the slots *)

Record refilled (s : Sys) (vs : list NanBox) (s' : Sys) : Prop := {
  rf_wf : wf (shapes s');
  rf_extends : extends (shapes s) (shapes s');
  rf_slots : slots_ok (self s');
  rf_len : o_len (self s') = o_len (self s) + Z.of_nat (length vs);
  rf_iter : slots_iter (self s') = slots_iter (self s) ++ vs;
  rf_same : same_but_slots (self s) (self s');
  rf_numbers : numbers_ok (shapes s') (self s') }.

Lemma slot_push_refills s v : wf (shapes s) -> is_Some (live (shapes s) !! o_shape (self s)) -> slots_ok (self s) ->
  o_len (self s) < MAX_SHAPED_LEN -> numbers_ok (shapes s) (self s) -> wp (slot_push v) (fun _ s' => refilled s [v] s') s.
Proof.
  intros Hw [x Hx] Hsl Hlt Hn. apply wp_bind, wp_gets. cbv zeta. apply wp_bind, wp_modify, wp_bind, wp_modify.
  destruct (pushed_spec _ v Hsl Hlt) as (P1 & P2 & P3 & P4). set (s1 := with_self _ (with_self _ s)).
  assert (E1 : self s1 = pushed v (self s)) by done. assert (Hi : 0 <= o_len (self s)) by apply Hsl.
  pose proof (slots_iter_length _ Hsl) as Hl. pose proof (ss_shape _ _ P4) as Hsh.
  apply wp_bind, wp_gets. rewrite E1. unfold when. destruct (is_number v) eqn:Ev; cbn [negb].
  - apply wp_ret. split; try done. intros j w Hj Hlt' Hw'. rewrite E1 in Hj |- *. rewrite P3 in Hj. rewrite Hsh.
    apply lookup_app_Some in Hj as [Hj|[_ Hj]]; [by apply (Hn j w)|]. apply list_lookup_singleton_Some in Hj as [_ ->]. congruence.
  - unfold on_shapes. apply wp_act. cbn [fst snd]. rewrite Hsh. change (shapes s1) with (shapes s).
    destruct (note_non_number_spec (shapes s) _ x (o_len (self s)) Hw Hx Hi) as (Hw' & He & Hb). set (st' := note_non_number _ _ _) in *.
    split; cbn [self shapes with_shapes]; rewrite ?E1; try done. intros j w Hj Hlt' Hnw. rewrite Hsh. rewrite P3 in Hj.
    apply lookup_app_Some in Hj as [Hj|[Hj1 Hj2]].
    + apply (extends_any _ _ _ He); [by eexists|lia|]. by apply (Hn j w).
    + apply list_lookup_singleton_Some in Hj2 as [Hj2 _]. replace (Z.of_nat j) with (o_len (self s)) by lia. apply Hb. lia.
Qed.

Lemma push_all_refills vs : forall s, wf (shapes s) -> is_Some (live (shapes s) !! o_shape (self s)) -> slots_ok (self s) ->
  o_len (self s) + Z.of_nat (length vs) <= MAX_SHAPED_LEN -> numbers_ok (shapes s) (self s) -> wp (push_all vs) (fun _ s' => refilled s vs s') s.
Proof.
  induction vs as [|v vs IH]; intros s Hw Hl Hsl Hlen Hn; cbn [push_all length] in *.
  - apply wp_ret. split; try done; [simpl; lia|by rewrite app_nil_r].
  - apply wp_bind. eapply wp_mono; [apply slot_push_refills; try done; lia|]. intros [] s1 [R1 R2 R3 R4 R5 R6 R7]. simpl in R4.
    eapply wp_mono; [apply IH; try done|].
    + rewrite (ss_shape _ _ R6). by eapply extends_live.
    + lia.
    + intros [] s2 [T1 T2 T3 T4 T5 T6 T7]. split; try done.
      * by etrans.
      * simpl. lia.
      * by rewrite T5, R5, <- app_assoc.
      * by etrans.
Qed.

Lemma cleared_ok o : slots_ok o -> let o' := extra_as_mut (fun x => with_spill (spill_clear (x_spill x)) x) (with_len 0 o) in
  slots_ok o' /\ slots_iter o' = [] /\ same_but_slots o o'.
Proof.
  intros [H1 H2 H3] o'. assert (Hsp : spill_ok 0 (spill o')).
  { unfold spill, ex, o', extra_as_mut. destruct H3 as [K1 K2 K3]. unfold spill, ex in *. cbn. destruct (o_extra o) as [x|]; cbn; by split. }
  split_and!.
  - split; cbn [o_len o_inline o' extra_as_mut with_extra with_len]; [unfold MAX_SHAPED_LEN; lia|done|done].
  - unfold slots_iter. change (o_len o') with 0. change (Z.to_nat (Z.min 0 INLINE_SLOTS)) with O. rewrite take_0. apply nil_length_inv.
    pose proof (spill_iter_length 0 _ ltac:(lia) Hsp). rewrite length_app. cbn [length]. lia.
  - split; try done. unfold ex, o', extra_as_mut. cbn. by destruct (o_extra o).
Qed.

(** ** Rebuilding a shaped object without a key *)

Lemma grow_all_spec ks : forall i st s, wf st -> live st !! i = Some s -> marked s = false -> NoDup (skeys st i ++ ks) ->
  Z.of_nat (length (skeys st i ++ ks)) <= MAX_SHAPED_LEN ->
  let (c, st') := grow_all i ks st in
  wf st' /\ extends st st' /\ is_Some (live st' !! c) /\ skeys st' c = skeys st i ++ ks /\ marked (shape_at st' c) = false.
Proof.
  induction ks as [|k ks IH]; intros i st s Hw Hi Hm Hnd Hlen; cbn [grow_all].
  - rewrite app_nil_r. split_and!; try done; by rewrite (shape_at_live _ _ _ Hi).
  - pose proof (slen_skeys _ _ _ (wf_struct _ Hw) Hi) as Hsl. rewrite length_app in Hlen. simpl in Hlen. unfold MAX_SHAPED_LEN in *.
    pose proof (transition_spec st i s k Hw Hi Hm ltac:(lia)) as Ht. destruct (transition i k st) as [c st1] eqn:Et.
    rewrite decide_False in Ht by (apply NoDup_app in Hnd as (_ & Hd & _); intros Hin; apply (Hd k Hin); by left).
    destruct Ht as [G1 G2 [c' G3] G4 G5 G6 G7]. rewrite (shape_at_live _ _ _ G3) in G7.
    specialize (IH c st1 c' G1 G3 G7). rewrite G4, <- app_assoc in IH. simpl in IH. specialize (IH Hnd ltac:(rewrite length_app; simpl; lia)).
    destruct (grow_all c ks st1) as [c2 st2]. destruct IH as (I1 & I2 & I3 & I4 & I5). split_and!; try done. by etrans.
Qed.

Lemma tidy_extra_goes s : ok s -> goes tidy_extra s (view s) (fun _ s' => True).
Proof.
  intros [Hw Ho]. apply goes_put; [done| | |done]; destruct (o_extra (self s)) as [x|] eqn:Ex; try done; destruct (extra_is_empty x) eqn:Ee; try done.
  - assert (Hx : ex (self s) = x) by (unfold ex; by rewrite Ex). unfold extra_is_empty, only_spill, spill_is_empty in Ee.
    rewrite !andb_true_iff in Ee. destruct Ee as (E0%Z.eqb_eq & ((((((((E1%bool_decide_eq_true & E2%bool_decide_eq_true) & E3%bool_decide_eq_true) & E4%bool_decide_eq_true) & E5%bool_decide_eq_true) & E6) & E7%Z.eqb_eq) & E8%bool_decide_eq_true) & E9)).
    destruct Ho as [H1 [J1 J2 J3] H3 H4 H5 H6 H7 H8 H9]. rewrite Hx in *.
    assert (Hn : Z.max 0 (o_len (self s) - 4) = 0) by (destruct J3 as [_ J _]; unfold spill in J; rewrite Hx, E0 in J; done).
    assert (Hsp : spill_iter (x_spill x) = []) by (apply nil_length_inv; unfold spill in J3; rewrite Hx, Hn in J3; pose proof (spill_iter_length 0 _ ltac:(lia) J3); lia).
    split; try done.
    + split; [done|done|]. change (spill (with_extra None (self s))) with SPILL_EMPTY. change (o_len (with_extra None (self s))) with (o_len (self s)). by rewrite Hn.
    + exact empty_attrs_ok.
    + cbn. destruct (o_mode (self s)); [done|]. destruct H5 as (_ & d & Hd & _). congruence.
    + cbn. lia.
    + intros _ k _ Hin. by apply elem_of_nil in Hin.
    + intros i v Hi. apply (H9 i v). rewrite <- Hi. unfold slots_iter, spill. rewrite Hx, Hsp. done.
  - assert (Hx : ex (self s) = x) by (unfold ex; by rewrite Ex). unfold extra_is_empty, only_spill, spill_is_empty in Ee.
    rewrite !andb_true_iff in Ee. destruct Ee as (E0%Z.eqb_eq & ((((((((E1%bool_decide_eq_true & E2%bool_decide_eq_true) & E3%bool_decide_eq_true) & E4%bool_decide_eq_true) & E5%bool_decide_eq_true) & E6%Z.eqb_eq) & E7%Z.eqb_eq) & E8%bool_decide_eq_true) & E9)).
    destruct Ho as [H1 [J1 J2 J3] H3 H4 H5 H6 H7 H8 H9].
    assert (Hn : Z.max 0 (o_len (self s) - 4) = 0) by (destruct J3 as [_ J _]; unfold spill in J; rewrite Hx, E0 in J; done).
    assert (Hsp : spill_iter (x_spill x) = []) by (apply nil_length_inv; unfold spill in J3; rewrite Hx, Hn in J3; pose proof (spill_iter_length 0 _ ltac:(lia) J3); lia).
    unfold view, spec_of, mark_set, data_of, dict, is_dict, slots_iter, spill. rewrite Hx, Hsp. change (ex (with_extra None (self s))) with EMPTY_EXTRA.
    cbn [marks]. by rewrite E1, E2, E3, E4, E5, E6, E7, E8.
Qed.

(** *** The rebuild *)

(** A root of layouts: an unmarked shape without keys. *)
Definition root_ok (st : Shapes) (r : nat) : Prop := exists s, live st !! r = Some s /\ skeys st r = [] /\ marked s = false.

Lemma root_ok_extends st st' r : wf st -> extends st st' -> root_ok st r -> root_ok st' r.
Proof.
  intros Hw He (s & Hs & Hk & Hm). assert (K : keeps st st' r) by (apply extends_keeps; [done|done|by eexists]).
  destruct (kp_live _ _ _ K) as [s' Hs']. exists s'. split_and!; [done|by rewrite (kp_keys _ _ _ K)|].
  pose proof (keeps_has_brand _ _ _ IMPLIED_ATTRS_BITS K) as H. rewrite (shape_at_live _ _ _ Hs), (shape_at_live _ _ _ Hs') in H.
  unfold marked, has_implied_attrs in *. congruence.
Qed.

Lemma list_of_kept (l : list (key * NanBox)) k : NoDup l.*1 ->
  (fun k => (k, default undefined (assoc k l))) <$> List.filter (fun k' => negb (bool_decide (k' = k))) l.*1 = assoc_del k l.
Proof.
  intros Hnd. rewrite <- assoc_del_keys. rewrite <- (list_of_keys (assoc_del k l)) at 2 by (rewrite assoc_del_keys; by apply filter_NoDup).
  apply list_fmap_ext. intros i k' Hi. f_equal. f_equal. symmetry. apply assoc_del_other. apply list_elem_of_lookup_2 in Hi.
  rewrite assoc_del_keys, filter_ne_elem in Hi. apply Hi.
Qed.

Lemma zip_fst_snd {A B} (l : list (A * B)) : zip l.*1 l.*2 = l.
Proof. induction l as [|[a b] l IH]; csimpl; [done|by f_equal]. Qed.

(** The object with the slots of [vs] at the layout [c]. *)
Lemma rebuilt_ok s c st' vs s2 : ok s -> plain s -> o_mode (self s) = Shaped -> wf st' -> is_Some (live st' !! c) ->
  skeys st' c = vs.*1 -> marked (shape_at st' c) = false ->
  refilled (with_shapes st' (with_self (extra_as_mut (fun x => with_spill (spill_clear (x_spill x)) x) (with_len 0 (with_shape c (self s)))) s)) vs.*2 s2 ->
  ok s2 /\ view s2 = p_with_data vs (view s).
Proof.
  intros Hok [Hwr Hp] Hm Hw Hc Hk Hum [R1 R2 R3 R4 R5 R6 R7]. cbn [shapes self with_shapes] in *. pose proof Hok as [_ Ho].
  change (self (with_shapes st' ?x)) with (self x) in *. cbn [self with_self] in *. set (o1 := with_shape c (self s)) in *.
  destruct (cleared_ok o1 (slots_ok_shape c _ (oo_slots _ _ Ho))) as (K1 & K2 & K3). set (o2 := extra_as_mut _ _) in *.
  assert (S : same_but_slots o1 (self s2)) by (by etrans). rewrite K2 in R5. simpl in R5. change (o_len o2) with 0 in R4.
  pose proof (ss_shape _ _ S) as Hsh. change (o_shape o1) with c in Hsh.
  assert (K : keeps st' (shapes s2) c) by (by apply extends_keeps).
  assert (Hkc : skeys (shapes s2) c = vs.*1) by (rewrite (kp_keys _ _ _ K); done).
  assert (Hmc : marked (shape_at (shapes s2) c) = false) by (unfold marked, has_implied_attrs in *; by rewrite (keeps_has_brand _ _ _ _ K)).
  destruct S as [S1 S2 S3 S4 S5 S6]. change (ex o1) with (ex (self s)) in S6.
  assert (F : forall {A} (f : ObjectExtra -> A), (forall x p, f (with_spill p x) = f x) -> f (ex (self s2)) = f (ex (self s))).
  { intros A f Hf. rewrite <- (Hf (ex (self s2)) SPILL_EMPTY), S6. apply Hf. }
  split.
  - apply ok_static. split_and!; [done| |done]. destruct Ho as [H1 H2 H3 H4 H5 H6 H7 H8 H9]. split; rewrite ?Hsh, ?S1; change (o_mode o1) with (o_mode (self s)).
    + apply K.
    + done.
    + by rewrite <- (attrs_ok_spill SPILL_EMPTY), S6, attrs_ok_spill.
    + rewrite R4, Hkc, !length_fmap. lia.
    + rewrite Hm in H5 |- *. by rewrite (F _ x_dict).
    + rewrite (F _ x_hidden_prefix), Hp by done. lia.
    + by rewrite Hmc.
    + unfold marked in Hmc. rewrite implied_attrs_or in Hmc. apply orb_false_iff in Hmc as [-> _]. done.
  - unfold view, spec_of, p_with_data. cbn [p_acc p_log p_ro p_hid p_nc p_flags p_proto p_class p_epoch p_data].
    rewrite !plain_mark_set by (rewrite ?Hsh; done). rewrite S2, S3, S5, Hsh, (F _ x_accessors), (F _ x_key_order), (F _ x_class_tag), (F _ x_hidden_prefix) by done.
    rewrite (F _ (marks Readonly)), (F _ (marks Hidden)), (F _ (marks NonConfigurable)) by done. rewrite Hp. f_equal.
    unfold data_of, is_dict. rewrite S1. change (o_mode o1) with (o_mode (self s)). rewrite Hm, Hsh, Hkc, R5. apply zip_fst_snd.
Qed.

Lemma rebuild_without_goes s r k : ok s -> plain s -> o_mode (self s) = Shaped -> root_ok (shapes s) r ->
  goes (rebuild_without r k) s (p_with_data (assoc_del k (p_data (view s))) (view s)) (fun _ _ => True).
Proof.
  intros Hok Hpl Hm Hroot. eapply goes_read; [done|by apply shape_keys_reads|]. intros s1 Hok1 E1. destruct (same_sys_ok _ _ Hok E1) as [_ V1].
  assert (Hm1 : o_mode (self s1) = Shaped) by (by rewrite (same_mode _ _ E1)). rewrite (shaped_keys s) by done.
  eapply goes_read; [done|apply key_slots_reads; [done|done|]|].
  { intros k' Hk'. apply filter_ne_elem in Hk' as [_ ?]. by rewrite V1. }
  intros s2 Hok2 E2. destruct (same_sys_ok _ _ Hok1 E2) as [_ V2]. rewrite V1. unfold p_keys. rewrite list_of_kept by (by apply view_NoDup).
  set (kept := assoc_del k (p_data (view s))). assert (E : same_sys s s2) by (by eapply same_sys_trans).
  assert (Hnd : NoDup kept.*1) by (unfold kept; rewrite assoc_del_keys; apply filter_NoDup; by apply view_NoDup).
  assert (Hlen : Z.of_nat (length kept) <= MAX_SHAPED_LEN).
  { pose proof (filter_length (fun kv => negb (bool_decide (fst kv = k))) (p_data (view s))) as Hle. fold (assoc_del k (p_data (view s))) in Hle. fold kept in Hle.
    rewrite (view_shaped_data s Hm), length_zip in Hle. pose proof (oo_len _ _ (proj2 Hok)). pose proof (sl_len _ (oo_slots _ _ (proj2 Hok))). lia. }
  assert (Hroot2 : root_ok (shapes s2) r) by (eapply root_ok_extends; [apply Hok|by apply same_sys_extends|done]).
  destruct Hroot2 as (x & Hx & Hkr & Hmr).
  pose proof (grow_all_spec kept.*1 r (shapes s2) x (proj1 Hok2) Hx Hmr) as Hg. rewrite Hkr in Hg. cbn [app] in Hg. rewrite length_fmap in Hg. specialize (Hg Hnd Hlen).
  destruct (grow_all r kept.*1 (shapes s2)) as [c st'] eqn:Eg. destruct Hg as (G1 & G2 & G3 & G4 & G5).
  apply goes_on_shapes_then; rewrite Eg; cbn [fst snd]; [done|]. apply goes_put_then. cbn beta. apply wp_bind. unfold set_slots.
  apply wp_bind, wp_modify, wp_bind, wp_modify.
  match goal with |- wp _ _ ?t => set (s3 := t) end.
  assert (E3 : s3 = with_shapes st' (with_self (extra_as_mut (fun x => with_spill (spill_clear (x_spill x)) x) (with_len 0 (with_shape c (self s2)))) s2)) by done.
  destruct (cleared_ok (with_shape c (self s2)) (slots_ok_shape c _ (oo_slots _ _ (proj2 Hok2)))) as (K1 & K2 & K3).
  eapply wp_mono; [apply push_all_refills|].
  - by rewrite E3.
  - by rewrite E3.
  - by rewrite E3.
  - rewrite E3. change (o_len _) with 0. rewrite length_fmap. lia.
  - rewrite E3. cbn [self with_shapes with_self]. intros j v Hj. rewrite K2 in Hj. done.
  - intros [] s4 Hrf. rewrite E3 in Hrf.
    assert (Hpl2 : plain s2).
    { destruct Hpl as [P1 P2]. split; [|by rewrite (sy_self _ _ E)]. unfold written, marked, has_implied_attrs in *. rewrite (sy_self _ _ E). by rewrite (same_sys_brand s s2). }
    destruct (rebuilt_ok s2 c st' kept s4 Hok2 Hpl2) as [O1 O2]; [by rewrite (same_mode _ _ E2)|done|done|done|done|done|].
    rewrite V2, V1 in O2. rewrite <- O2. eapply wp_mono; [by apply tidy_extra_goes|]. intros [] s5 (T1 & T2 & T3 & _). split_and!; try done.
    etrans; [exact (rf_extends _ _ _ Hrf)|exact T2].
Qed.
