(* ===== verification/ObjectOps.v ===== *)
(** * The property protocol: every method against the abstract object

    The abstract operations, and for each method that changes an object the proof
    that it answers and leaves what the abstract operation says. *)

From Stdlib Require Import String.
From S2P Require Import Prelude Prog NanBox Shape ShapeTable ShapeInv Ic Object ObjectAttr ObjectSlots ObjectInv ObjectData ObjectReads ObjectWrites ObjectSlotOps ObjectGrow.

#[local] Abbreviation length := Datatypes.length.
Open Scope Z_scope.

(** ** The abstract operations *)

Definition p_has_flag (bits : Z) (p : Spec) : bool := negb (Z.land (p_flags p) bits =? 0).

Definition s_track (k : key) (p : Spec) : Spec :=
  let p := s_bump p in
  match p_log p with
  | Some order => if decide (k ∈ order) then p else p_with_log (Some (order ++ [k])) p
  | None => p
  end.

Definition s_write (k : key) (v : NanBox) (p : Spec) : Spec := p_with_data (assoc_set k v (p_data p)) p.
Definition s_add (k : key) (v : NanBox) (p : Spec) : Spec := p_with_data (p_data p ++ [(k, v)]) p.

Definition s_locked (k : key) (p : Spec) : bool :=
  negb (is_private_key k) && (p_has_flag OBJ_FLAG_FROZEN p || bool_decide (k ∈ p_ro p)).

Definition s_set (k : key) (v : NanBox) (p : Spec) : Spec :=
  if s_locked k p then p
  else if decide (k ∈ p_keys p) then s_write k v p
  else if p_has_flag OBJ_FLAG_NON_EXTENSIBLE p then p else s_track k (s_add k v p).

Definition s_force_set (k : key) (v : NanBox) (p : Spec) : Spec :=
  if decide (k ∈ p_keys p) then s_write k v p else s_track k (s_add k v p).

Definition s_log_keys (p : Spec) : Spec := match p_log p with None => p_with_log (Some (p_keys p)) p | Some _ => p end.

(** [None] and [undefined] for a getter or a setter keep the old one. *)
Definition s_merge (v old : NanBox) : NanBox := match unpack v with Undefined => old | _ => v end.

Definition s_accessor (k : key) (g st : NanBox) (p : Spec) : Spec :=
  if decide (k ∈ p_names p)
  then p_with_acc ((fun a => if decide (acc_name a = k) then (k, s_merge g (snd (fst a)), s_merge st (snd a)) else a) <$> p_acc p) p
  else p_with_acc (p_acc p ++ [(k, g, st)]) p.

Definition s_define_accessor (k : key) (g st : NanBox) (p : Spec) : Spec := s_track k (s_accessor k g st (s_log_keys p)).

Definition s_drop_acc (k : key) (p : Spec) : Spec :=
  p_with_acc (List.filter (fun a => negb (bool_decide (acc_name a = k))) (p_acc p)) p.
Definition s_drop_log (k : key) (p : Spec) : Spec :=
  p_with_log ((fun order => List.filter (fun k' => negb (bool_decide (k' = k))) order) <$> p_log p) p.
Definition s_drop_data (k : key) (p : Spec) : Spec := p_with_data (assoc_del k (p_data p)) p.

Definition s_delete (k : key) (p : Spec) : Spec :=
  s_drop_data k (s_drop_log k (s_remove_mark NonConfigurable k (s_remove_mark Readonly k (s_remove_mark Hidden k (s_drop_acc k (s_bump p)))))).

Definition s_delete_data (k : key) (p : Spec) : Spec := s_drop_data k (s_bump p).

Definition s_set_hidden (k : key) (p : Spec) : Spec :=
  if decide (k ∈ p_hid p) then p else s_bump (s_add_mark Hidden k p).
Definition s_clear_hidden (k : key) (p : Spec) : Spec :=
  s_remove_mark Hidden k (if decide (k ∈ p_hid p) then s_bump p else p).
Definition s_set_readonly (k : key) (p : Spec) : Spec :=
  if decide (k ∈ p_ro p) then p else s_add_mark Readonly k (p_with_flags (Z.lor (p_flags p) JIT_FLAG_READONLY) p).
Definition s_set_non_configurable (k : key) (p : Spec) : Spec :=
  if decide (k ∈ p_nc p) then p else s_add_mark NonConfigurable k p.

(** ** Changes of the accessors and the log *)

Lemma extra_put_goes s f : ok s -> same_marks (ex (self s)) (f (ex (self s))) -> attrs_ok (f (ex (self s))) ->
  goes (put (extra_mut f)) s (p_with_log (x_key_order (f (ex (self s)))) (p_with_acc (x_accessors (f (ex (self s)))) (view s)))
    (fun _ s' => shapes s' = shapes s /\ self s' = with_extra (Some (f (ex (self s)))) (self s)).
Proof.
  intros [Hw Ho] [S1 S2 S3 S4 S5] Ha. unfold extra_mut. apply goes_put; [done| | |done].
  - apply extra_ok; rewrite ?S4; try done; try apply Ho. change (x_readonly (f (ex (self s)))) with (marks Readonly (f (ex (self s)))). rewrite S5. apply Ho.
  - rewrite extra_spec by done. cbv beta zeta. rewrite !S5, S3, S4. done.
Qed.

(** The same where there may be no out-of-line part, for a change that leaves the empty one alone. *)
Lemma extra_as_put_goes s f : ok s -> same_marks (ex (self s)) (f (ex (self s))) -> attrs_ok (f (ex (self s))) ->
  x_accessors (f EMPTY_EXTRA) = [] -> x_key_order (f EMPTY_EXTRA) = None ->
  goes (put (extra_as_mut f)) s (p_with_log (x_key_order (f (ex (self s)))) (p_with_acc (x_accessors (f (ex (self s)))) (view s)))
    (fun _ s' => shapes s' = shapes s /\ self s' = extra_as_mut f (self s)).
Proof.
  intros Hok Hs Ha H1 H2. destruct (o_extra (self s)) as [x|] eqn:Ex.
  - assert (E : extra_as_mut f (self s) = extra_mut f (self s)) by (unfold extra_as_mut, extra_mut, ex; by rewrite Ex).
    pose proof (extra_put_goes s f Hok Hs Ha) as H. unfold goes, put, wp, modify in *. rewrite E. exact H.
  - assert (E : extra_as_mut f (self s) = self s) by (unfold extra_as_mut; rewrite Ex; destruct (self s); simpl in *; by rewrite Ex).
    assert (Hx : ex (self s) = EMPTY_EXTRA) by (unfold ex; by rewrite Ex). rewrite Hx, H1, H2.
    apply goes_put; [apply Hok|rewrite E; apply Hok| |done]. rewrite E. unfold view, spec_of, p_with_log, p_with_acc. cbn [p_data p_acc p_log p_ro p_hid p_nc p_flags p_proto p_class p_epoch].
    by rewrite Hx.
Qed.

(** ** Tracking *)

Lemma s_bump_room p : p_room p -> p_room (s_bump p).
Proof. intros [H1 H2]. split; [intros []; apply (H1 Readonly) || apply (H1 Hidden) || apply (H1 NonConfigurable)|done]. Qed.

Lemma bump_view s : view (with_self (with_key_epoch (as_u32 (o_key_epoch (self s) + 1)) (self s)) s) = s_bump (view s).
Proof. done. Qed.

Lemma track_key_goes s k : ok s -> p_room (view s) ->
  goes (track_key k) s (s_track k (view s)) (fun _ s' => shapes s' = shapes s /\ o_shape (self s') = o_shape (self s) /\ o_mode (self s') = o_mode (self s)).
Proof.
  intros Hok Hr. eapply goes_bind; [by apply bump_key_epoch_goes|]. intros [] s1 Hok1 _ V1 [F1 E1].
  assert (Hr1 : p_room (view s1)) by (rewrite V1; by apply s_bump_room).
  assert (Hx : o_extra (self s1) = o_extra (self s)) by (by rewrite E1). assert (Hsh : o_shape (self s1) = o_shape (self s)) by (by rewrite E1).
  assert (Hmo : o_mode (self s1) = o_mode (self s)) by (by rewrite E1). unfold s_track. cbv zeta. rewrite <- V1. change (p_log (view s1)) with (x_key_order (ex (self s1))).
  clear V1 E1 Hr Hok. rewrite <- F1, <- Hsh, <- Hmo. clear F1 Hsh Hmo Hx s. rename s1 into s. destruct (o_extra (self s)) as [x|] eqn:Ex.
  - assert (Hex : ex (self s) = x) by (unfold ex; by rewrite Ex). pose proof (oo_attrs _ _ (proj2 Hok1)) as Ha.
    destruct (x_key_order (ex (self s))) as [order|] eqn:Eo.
    + assert (Hh : order_has k x = bool_decide (k ∈ order)) by (rewrite <- Hex, order_has_spec, Eo by done; done).
      destruct (decide (k ∈ order)) as [Hin|Hn].
      * apply goes_put; [apply Hok1|..]; rewrite Ex, <- Hex, Eo, Hex, Hh, (bool_decide_true (k ∈ order)), andb_false_r by done; [apply Hok1|done|done].
      * destruct (order_push_ok (ex (self s)) k order Ha (room_roomy s Hok1 Hr1) Eo Hn) as [[R1 R2 R3] Eo'].
        pose proof (extra_put_goes s (order_push k) Hok1 R3 R1) as Hg. rewrite Eo', R2 in Hg.
        assert (Hput : (match o_extra (self s) with Some x => if bool_decide (is_Some (x_key_order x)) && negb (order_has k x) then with_extra (Some (order_push k x)) (self s) else self s | None => self s end) = extra_mut (order_push k) (self s)).
        { rewrite Ex. rewrite Hh. rewrite <- Hex, Eo. rewrite (bool_decide_false (k ∈ order)) by done. unfold extra_mut. done. }
        unfold goes, put, wp, modify in *. rewrite Hput. destruct Hg as (G1 & G2 & G3 & _ & _). split_and!; try done.
    + apply goes_put; [apply Hok1|..]; rewrite Ex, <- Hex, Eo; cbn; [apply Hok1|done|done].
  - assert (Hex : ex (self s) = EMPTY_EXTRA) by (unfold ex; by rewrite Ex). rewrite Hex. apply goes_put; [apply Hok1|..]; rewrite Ex; [apply Hok1|done|done].
Qed.

(** ** Setting a property *)

Lemma has_flag_view b s : has_flag b (self s) = p_has_flag b (view s).
Proof. done. Qed.

Lemma locked_reads s k : ok s ->
  reads (if is_private_key k then mret false else or_else (is_frozen (self s)) (is_readonly k)) s (s_locked k (view s)).
Proof.
  intros Hok. unfold s_locked, is_frozen, or_else. rewrite has_flag_view. destruct (is_private_key k); simpl; [by apply reads_ret|].
  destruct (p_has_flag OBJ_FLAG_FROZEN (view s)); simpl; [by apply reads_ret|]. by apply is_readonly_reads.
Qed.

Lemma s_add_room k v p : p_room p -> p_room (s_add k v p).
Proof. intros [H1 H2]. split; [intros []; apply (H1 Readonly) || apply (H1 Hidden) || apply (H1 NonConfigurable)|done]. Qed.

(** What a write leaves of the layout: the old one, a dictionary, or an unmarked one. *)
Definition shape_after (s s' : Sys) : Prop :=
  o_shape (self s') = o_shape (self s) \/ o_mode (self s') = Dict \/ written s'.

Lemma add_tracked_goes s k v : ok s -> p_room (view s) -> k ∉ p_keys (view s) ->
  goes (add_new k v;; track_key k) s (s_track k (s_add k v (view s))) (fun _ s' => o_mode (self s') = Dict \/ written s').
Proof.
  intros Hok Hr Hk. eapply goes_bind; [by apply add_new_goes|]. intros [] s1 Hok1 _ V1 Hs1. fold (s_add k v (view s)) in V1. rewrite <- V1.
  eapply goes_mono; [apply track_key_goes; [done|rewrite V1; by apply s_add_room]|]. intros [] s2 _ _ _ (F & G & M). rewrite M. destruct Hs1 as [?|Hs1]; [by left|right].
  unfold written. by rewrite F, G.
Qed.

Lemma set_goes s k v : ok s -> p_room (view s) -> goes (set k v) s (s_set k v (view s)) (fun _ s' => shape_after s s').
Proof.
  intros Hok Hr. apply goes_me. eapply goes_read; [done|by apply locked_reads|]. intros s1 Hok1 E1. destruct (same_sys_ok _ _ Hok E1) as [_ V1].
  unfold s_set. destruct (s_locked k (view s)); [apply goes_ret; [done|done|by left; rewrite (sy_self _ _ E1)]|]. rewrite <- V1 in *. unfold shape_after. rewrite <- (sy_self _ _ E1).
  eapply goes_bind; [by apply write_existing_goes|]. intros b s2 Hok2 _ V2 [-> Hsh]. destruct (decide (k ∈ p_keys (view s1))) as [Hk|Hk].
  - rewrite bool_decide_true by done. apply goes_ret; [done|done|by left].
  - rewrite bool_decide_false by done. apply goes_me. unfold is_extensible. rewrite has_flag_view. rewrite V2.
    destruct (p_has_flag OBJ_FLAG_NON_EXTENSIBLE (view s1)); simpl; [apply goes_ret; [done|done|by left]|].
    rewrite <- V2. eapply goes_mono; [apply add_tracked_goes; by rewrite ?V2|]. intros [] s3 _ _ _ ?. by right.
Qed.

Lemma force_set_goes s k v : ok s -> p_room (view s) -> does (force_set k v) s tt (s_force_set k v (view s)).
Proof.
  intros Hok Hr. eapply goes_bind; [by apply write_existing_goes|]. intros b s2 Hok2 _ V2 [-> Hsh]. unfold s_force_set.
  destruct (decide (k ∈ p_keys (view s))) as [Hk|Hk].
  - rewrite bool_decide_true by done. by apply goes_ret.
  - rewrite bool_decide_false by done. rewrite <- V2. eapply goes_mono; [apply add_tracked_goes; by rewrite ?V2|]. by intros [].
Qed.

Lemma maybe_convert_to_dict_goes s k n : ok s -> p_room (view s) -> goes (maybe_convert_to_dict k n) s (view s) (fun _ s' => shape_after s s').
Proof.
  intros Hok Hr. apply goes_me, goes_my_shape. destruct (_ && _); [|apply goes_ret; [done|done|by left]].
  eapply goes_read; [done|by apply is_readonly_reads|]. intros s1 Hok1 E1. destruct (same_sys_ok _ _ Hok E1) as [_ V1]. unfold shape_after. rewrite <- (sy_self _ _ E1), <- V1.
  destruct (bool_decide _); [apply goes_ret; [done|done|by left]|].
  eapply goes_read; [done|by apply shape_lookup_reads|]. intros s2 Hok2 E2. destruct (same_sys_ok _ _ Hok1 E2) as [_ V2]. rewrite <- (sy_self _ _ E2), <- V2.
  unfold when. case_bool_decide; [|apply goes_ret; [done|done|by left]]. eapply goes_mono; [apply convert_to_dict_goes; [done|by rewrite V2, V1]|]. auto.
Qed.

(** ** Accessors *)

Lemma ensure_key_order_goes s : ok s -> p_room (view s) -> goes ensure_key_order s (s_log_keys (view s)) (fun _ s' => same_marks (ex (self s)) (ex (self s'))).
Proof.
  intros Hok Hr. apply goes_me. unfold s_log_keys. change (p_log (view s)) with (x_key_order (ex (self s))).
  destruct (x_key_order (ex (self s))) as [order|] eqn:Eo; simpl; [apply goes_ret; [done|done|by split]|].
  eapply goes_read; [done|by apply obj_keys_reads|]. intros s1 Hok1 E1. destruct (same_sys_ok _ _ Hok E1) as [_ V1].
  rewrite <- V1 in Hr |- *. rewrite <- (sy_self _ _ E1) in Eo |- *. clear V1 E1 Hok s.
  destruct (set_order_ok (ex (self s1)) (p_keys (view s1)) (oo_attrs _ _ (proj2 Hok1)) (room_roomy _ Hok1 Hr) Eo (view_NoDup _ Hok1)) as [[R1 R2 R3] Eo'].
  pose proof (extra_put_goes s1 (set_order (p_keys (view s1))) Hok1 R3 R1) as Hg. rewrite Eo', R2 in Hg.
  eapply goes_mono; [exact Hg|]. intros [] s2 _ _ _ [_ ->]. exact R3.
Qed.

Lemma s_log_room p : p_room p -> p_room (s_log_keys p).
Proof. unfold s_log_keys. destruct (p_log p); [done|]. intros [H1 H2]. split; [intros []; apply (H1 Readonly) || apply (H1 Hidden) || apply (H1 NonConfigurable)|done]. Qed.

Lemma set_acc_list (l : list (key * NanBox * NanBox)) i k a (w : key * NanBox * NanBox -> key * NanBox * NanBox) :
  NoDup (acc_name <$> l) -> l !! i = Some a -> acc_name a = k ->
  (fun a => if decide (acc_name a = k) then w a else a) <$> l = <[i := w a]> l.
Proof.
  revert i. induction l as [|b l IH]; intros i Hnd Hi Hk; [done|]. csimpl in *. apply NoDup_cons in Hnd as [Hn Hnd]. destruct i as [|i]; simpl in Hi.
  - injection Hi as ->. rewrite decide_True by done. csimpl. f_equal. transitivity (id <$> l); [|apply list_fmap_id]. apply list_fmap_ext. intros j b Hj. cbn.
    rewrite decide_False; [done|]. intros E. apply Hn. rewrite Hk, <- E. apply list_elem_of_fmap_2. by eapply list_elem_of_lookup_2.
  - rewrite decide_False; [csimpl; f_equal; by apply IH|]. intros E. apply Hn. rewrite E, <- Hk. apply list_elem_of_fmap_2. by eapply list_elem_of_lookup_2.
Qed.

Lemma define_accessor_goes s k g st : ok s -> p_room (view s) -> Z.of_nat (length (p_acc (view s))) + 1 < 2 ^ 32 - 1 ->
  does (define_accessor k g st) s tt (s_define_accessor k g st (view s)).
Proof.
  intros Hok Hr Hra. apply goes_quiet; [apply global_attrs_changed_quiet|done|]. intros s0 Hok0 E0 F0. assert (V0 : view s0 = view s) by (unfold view; by rewrite E0, F0).
  rewrite <- V0 in *. clear V0 E0 F0 Hok s.
  eapply goes_bind; [by apply materialize_goes|]. intros [] s1 Hok1 _ V1 _. rewrite <- V1 in *. clear V1 Hok0 s0.
  eapply goes_bind; [by apply ensure_key_order_goes|]. intros [] s2 Hok2 _ V2 _. unfold s_define_accessor. rewrite <- V2.
  assert (Hr2 : p_room (view s2)) by (rewrite V2; by apply s_log_room).
  assert (Hra2 : Z.of_nat (length (p_acc (view s2))) + 1 < 2 ^ 32 - 1) by (rewrite V2; unfold s_log_keys; by destruct (p_log (view s1))).
  clear V2 Hok1 Hr Hra s1. apply goes_me. set (x := ex (self s2)). pose proof (oo_attrs _ _ (proj2 Hok2)) as Ha. fold x in Ha.
  change (p_acc (view s2)) with (x_accessors x) in *.
  eapply (goes_bind _ _ _ (s_accessor k g st (view s2))) with (Q := fun _ _ => True).
  - unfold s_accessor. change (p_names (view s2)) with (names x). change (p_acc (view s2)) with (x_accessors x). destruct (acc_pos k x) as [i|] eqn:Ep.
    + apply acc_pos_Some in Ep as Hi; [|done]. pose proof Hi as Hi'. unfold names in Hi'. rewrite list_lookup_fmap in Hi'. destruct (x_accessors x !! i) as [a|] eqn:Ea; [|done].
      simpl in Hi'. injection Hi' as Hk. rewrite decide_True by (by eapply list_elem_of_lookup_2). apply wp_bind, wp_ret. rewrite Hk.
      rewrite (set_acc_list _ i k a (fun a => (k, s_merge g (snd (fst a)), s_merge st (snd a)))); [|apply Ha|done|done].
      destruct (set_acc_ok x i k (s_merge g (snd (fst a))) (s_merge st (snd a)) Ha Hi) as (A1 & A2 & A3).
      eapply goes_mono; [exact (extra_put_goes s2 (fun x => with_accessors (<[i:=(k, s_merge g (snd (fst a)), s_merge st (snd a))]> (x_accessors x)) x) Hok2 A2 A1)|done].
    + apply acc_pos_None in Ep; [|done]. rewrite decide_False by done.
      destruct (add_acc_ok x k g st Ha (room_roomy _ Hok2 Hr2) Ep) as (A1 & A2 & A3 & A4).
      pose proof (extra_put_goes s2 (add_acc k g st) Hok2 A4 A1) as Hg. fold x in Hg. rewrite A2, A3 in Hg. eapply goes_mono; [exact Hg|done].
  - intros [] s3 Hok3 _ V3 _. rewrite <- V3. eapply goes_mono; [apply track_key_goes; [done|]|by intros []].
    rewrite V3. destruct Hr2 as [H1 H2]. unfold s_accessor. case_decide.
    + split; [intros []; apply (H1 Readonly) || apply (H1 Hidden) || apply (H1 NonConfigurable)|]. cbn. by rewrite length_fmap.
    + split; [intros []; apply (H1 Readonly) || apply (H1 Hidden) || apply (H1 NonConfigurable)|]. cbn [p_acc p_with_acc]. change (p_acc (view s2)) with (x_accessors x). rewrite length_app. simpl. lia.
Qed.

Lemma drop_acc_goes s k : ok s ->
  goes (put (extra_as_mut (fun x => snd (remove_acc k x)))) s (s_drop_acc k (view s))
    (fun _ s' => shapes s' = shapes s /\ self s' = extra_as_mut (fun x => snd (remove_acc k x)) (self s)).
Proof.
  intros Hok. destruct (remove_acc_ok (ex (self s)) k (oo_attrs _ _ (proj2 Hok))) as (_ & R2 & R3 & R4 & R5 & _).
  pose proof (extra_as_put_goes s (fun x => snd (remove_acc k x)) Hok R5 R2 eq_refl eq_refl) as Hg. cbn beta in Hg. rewrite R3, R4 in Hg. exact Hg.
Qed.

Lemma clear_accessor_goes s k : ok s -> does (clear_accessor k) s tt (s_drop_acc k (s_bump (view s))).
Proof.
  intros Hok. eapply goes_bind; [by apply bump_key_epoch_goes|]. intros [] s1 Hok1 _ V1 _. rewrite <- V1.
  eapply goes_mono; [by apply drop_acc_goes|]. by intros [].
Qed.

(** ** Deleting *)

Lemma order_remove_goes s k : ok s -> goes (put (extra_as_mut (order_remove k))) s (s_drop_log k (view s))
  (fun _ s' => shapes s' = shapes s /\ self s' = extra_as_mut (order_remove k) (self s)).
Proof.
  intros Hok. destruct (order_remove_ok (ex (self s)) k (oo_attrs _ _ (proj2 Hok))) as [[R1 R2 R3] R4].
  pose proof (extra_as_put_goes s (order_remove k) Hok R3 R1 eq_refl eq_refl) as Hg. rewrite R2, R4 in Hg. exact Hg.
Qed.

Lemma dict_remove_goes s k : ok s -> o_mode (self s) = Dict ->
  goes (dict_remove k) s (s_drop_data k (view s)) (fun b s' => b = bool_decide (k ∈ p_keys (view s))).
Proof.
  intros Hok Hm. apply goes_me. destruct (obj_dict _ _ (proj2 Hok) Hm) as (_ & _ & Hd). unfold s_drop_data. rewrite (view_dict_data s Hm).
  assert (Hk : k ∈ p_keys (view s) <-> is_Some (d_map (dict (self s)) !! k)).
  { rewrite view_keys by done. unfold is_dict. rewrite Hm. by rewrite omap_id_elem, dict_keys_elem. }
  destruct (d_map (dict (self s)) !! k) as [d|] eqn:Ek.
  - destruct (dict_remove_ok _ k d Hd Ek) as [D1 D2]. rewrite (dk_pos _ Hd _ _ Ek). apply wp_bind, wp_ret.
    eapply goes_bind; [by apply (dict_put_goes s (fun d0 => MkDict (<[d_pos d := None]> (d_order d0)) (base.delete k (d_map d0))))|].
    intros [] s1 Hok1 _ V1 _. apply goes_ret; [done| |by rewrite bool_decide_true by (apply Hk; by eexists)]. by rewrite V1, D2.
  - eapply goes_bind; [by apply (dict_put_goes s (fun d => d))|]. intros [] s1 Hok1 _ V1 _.
    apply goes_ret; [done| |by rewrite bool_decide_false by (rewrite Hk; by intros [])]. rewrite V1. f_equal. rewrite assoc_del_id; [done|].
    rewrite <- (view_dict_data s Hm). change ((p_data (view s)).*1) with (p_keys (view s)). rewrite Hk. by intros [].
Qed.

Lemma plain_same s s' : ok s -> same_sys s s' -> plain s -> plain s'.
Proof.
  intros Hok E [P1 P2]. split; [|by rewrite (sy_self _ _ E)]. unfold written, marked, has_implied_attrs in *. rewrite (sy_self _ _ E). by rewrite (same_sys_brand s s').
Qed.

Lemma rebuild_if_goes s r k : ok s -> plain s -> o_mode (self s) = Shaped -> root_ok (shapes s) r ->
  does (b ← shape_contains k; when b (rebuild_without r k)) s tt (s_drop_data k (view s)).
Proof.
  intros Hok Hpl Hm Hroot. eapply goes_read; [done|by apply shape_contains_reads|]. intros s1 Hok1 E1. destruct (same_sys_ok _ _ Hok E1) as [_ V1].
  rewrite (shaped_keys s), <- V1 by done. case_bool_decide as Hk; cbn [when].
  - eapply goes_mono; [apply rebuild_without_goes; [done|by apply (plain_same s s1)|by rewrite (same_mode _ _ E1)|]|by intros []].
    eapply root_ok_extends; [apply Hok|by apply same_sys_extends|done].
  - apply goes_ret; [done| |done]. unfold s_drop_data. rewrite assoc_del_id by done. by rewrite p_with_data_same.
Qed.

(** The common start of the two deletions. *)
Lemma before_delete_goes s {B} (f : unit -> method B) p Q : ok s -> p_room (view s) ->
  (forall s', ok s' -> extends (shapes s) (shapes s') -> view s' = s_bump (view s) -> plain s' -> o_mode (self s') = o_mode (self s) -> goes (f tt) s' p Q) ->
  goes (materialize_implied_attrs;; write_out_hidden_prefix;; bump_key_epoch ≫= f) s p Q.
Proof.
  intros Hok Hr Hf. eapply goes_bind; [by apply materialize_goes|]. intros [] s1 Hok1 X1 V1 (Hw1 & M1 & _).
  eapply goes_bind; [apply write_out_hidden_prefix_goes; [done|by rewrite V1|done]|]. intros [] s2 Hok2 X2 V2 ((Hw2 & Hp2) & M2 & _).
  eapply goes_bind; [by apply bump_key_epoch_goes|]. intros [] s3 Hok3 X3 V3 [F3 E3]. apply Hf; [done|etrans; [exact X1|]; etrans; [exact X2|exact X3]|by rewrite V3, V2, V1| |].
  - split; [|by rewrite E3]. unfold written. by rewrite F3, E3.
  - rewrite E3. simpl. congruence.
Qed.

Lemma delete_data_goes s r k : ok s -> p_room (view s) -> root_ok (shapes s) r -> does (delete_data r k) s tt (s_delete_data k (view s)).
Proof.
  intros Hok Hr Hroot. apply before_delete_goes; [done|done|]. intros s1 Hok1 X1 V1 Hp1 M1. apply goes_me. unfold s_delete_data. rewrite <- V1.
  unfold is_dict. destruct (o_mode (self s1)) eqn:Hm.
  - apply rebuild_if_goes; try done. eapply root_ok_extends; [apply Hok|done|done].
  - eapply goes_bind; [by apply dict_remove_goes|]. intros b s2 Hok2 _ V2 _. by apply goes_ret.
Qed.

Lemma remove_mark_plain_goes s m k : ok s -> plain s ->
  goes (extra_remove_mark m k) s (s_remove_mark m k (view s))
    (fun _ s' => shapes s' = shapes s /\ plain s' /\ o_mode (self s') = o_mode (self s)).
Proof.
  intros Hok [Hw Hp]. eapply goes_mono; [apply extra_remove_mark_goes; [done|done|by left]|].
  intros [] s1 _ _ _ (F & S & Hsh & Hm). split_and!; [done| |done]. split; [unfold written; by rewrite F, Hsh|]. by rewrite (sm_prefix _ _ S).
Qed.

Lemma plain_extra s s' f : shapes s' = shapes s -> self s' = extra_as_mut f (self s) -> (forall x, x_hidden_prefix (f x) = x_hidden_prefix x) ->
  plain s -> plain s' /\ o_mode (self s') = o_mode (self s).
Proof.
  intros F E Hf [Hw Hp]. unfold plain, written, ex in *. rewrite F, E. unfold extra_as_mut. split; [|done]. split; [done|].
  cbn. destruct (o_extra (self s)); cbn in *; by rewrite ?Hf.
Qed.

Lemma remove_acc_prefix k x : x_hidden_prefix (snd (remove_acc k x)) = x_hidden_prefix x.
Proof. unfold remove_acc. destruct (acc_pos k x); [|done]. cbn. by destruct (x_index x). Qed.

Lemma order_remove_prefix k x : x_hidden_prefix (order_remove k x) = x_hidden_prefix x.
Proof.
  unfold order_remove. destruct (x_key_order x); [|done]. destruct (x_index x) as [ix|]; [|done]. destruct (ix !! k) as [e|]; [|done]. by destruct (at_ordered e).
Qed.

Lemma drop_log_data k p : p_keys (s_drop_log k p) = p_keys p.
Proof. done. Qed.

Lemma s_delete_keys k p : p_keys (s_drop_log k (s_remove_mark NonConfigurable k (s_remove_mark Readonly k (s_remove_mark Hidden k (s_drop_acc k p))))) = p_keys p.
Proof. done. Qed.

Lemma delete_goes s r k : ok s -> p_room (view s) -> root_ok (shapes s) r ->
  does (delete r k) s (p_has (view s) k) (s_delete k (view s)).
Proof.
  intros Hok Hr Hroot. apply before_delete_goes; [done|done|]. intros s1 Hok1 X1 V1 Hp1 M1. apply goes_me. cbv zeta.
  assert (Hacc : (match o_extra (self s1) with Some x => fst (remove_acc k x) | None => false end) = bool_decide (k ∈ p_names (view s))).
  { change (p_names (view s)) with (p_names (s_bump (view s))). rewrite <- V1. change (p_names (view s1)) with (names (ex (self s1))).
    destruct (remove_acc_ok (ex (self s1)) k (oo_attrs _ _ (proj2 Hok1))) as (<- & _). unfold ex. by destruct (o_extra (self s1)). }
  rewrite Hacc. clear Hacc. unfold p_has. assert (Hkeys : p_keys (view s1) = p_keys (view s)) by (by rewrite V1). rewrite <- Hkeys.
  unfold s_delete. rewrite <- V1. pose proof (root_ok_extends _ _ _ (proj1 Hok) X1 Hroot) as Hroot1. clear X1 Hroot Hr Hok.
  eapply goes_bind; [by apply drop_acc_goes|]. intros [] s2 Hok2 _ V2 [F2 E2]. destruct (plain_extra s1 s2 _ F2 E2 (remove_acc_prefix k) Hp1) as [Hp2 M2]. rewrite <- V2.
  eapply goes_bind; [by apply remove_mark_plain_goes|]. intros [] s3 Hok3 _ V3 (F3 & Hp3 & M3). rewrite <- V3.
  eapply goes_bind; [by apply remove_mark_plain_goes|]. intros [] s4 Hok4 _ V4 (F4 & Hp4 & M4). rewrite <- V4.
  eapply goes_bind; [by apply remove_mark_plain_goes|]. intros [] s5 Hok5 _ V5 (F5 & Hp5 & M5). rewrite <- V5.
  eapply goes_bind; [by apply order_remove_goes|]. intros [] s6 Hok6 _ V6 [F6 E6]. destruct (plain_extra s5 s6 _ F6 E6 (order_remove_prefix k) Hp5) as [Hp6 M6].
  assert (Hk6 : p_keys (view s6) = p_keys (view s1)) by (by rewrite V6, V5, V4, V3, V2). rewrite <- V6, <- Hk6.
  assert (Hroot6 : root_ok (shapes s6) r) by (by rewrite F6, F5, F4, F3, F2).
  apply goes_me. unfold is_dict. destruct (o_mode (self s6)) eqn:Hm.
  - eapply goes_read; [done|by apply shape_contains_reads|]. intros s7 Hok7 E7. destruct (same_sys_ok _ _ Hok6 E7) as [_ V7].
    rewrite (shaped_keys s6), <- V7 by done. case_bool_decide as Hk.
    + eapply goes_bind; [apply rebuild_without_goes; [done|by apply (plain_same s6 s7)|by rewrite (same_mode _ _ E7)|]|].
      { eapply root_ok_extends; [apply Hok6|by apply same_sys_extends|done]. }
      intros [] s8 Hok8 _ V8 _. by apply goes_ret.
    + apply goes_ret; [done| |done]. unfold s_drop_data. rewrite assoc_del_id by done. by rewrite p_with_data_same.
  - eapply goes_bind; [by apply dict_remove_goes|]. intros b s7 Hok7 _ V7 ->. case_bool_decide as Hk.
    + rewrite <- V7. eapply goes_bind; [by apply compact_order_goes|]. intros [] s8 Hok8 _ V8 _. by apply goes_ret.
    + by apply goes_ret.
Qed.

(** ** Attribute marks *)

Lemma s_mark_flags m f p : p_mark m (p_with_flags f p) = p_mark m p.
Proof. by destruct m. Qed.

Lemma last_snoc_take (l : list key) k n : last l = Some k -> Z.of_nat (length l) = n + 1 -> 0 <= n ->
  exists l', l = l' ++ [k] /\ take (Z.to_nat n) l = l' /\ take (Z.to_nat (n + 1)) l = l.
Proof.
  intros Hl Hn Hp. apply last_Some in Hl as [l' ->]. exists l'. rewrite length_app in Hn. simpl in Hn. split_and!; [done| |].
  - rewrite take_app_length'; [done|lia].
  - apply take_ge. rewrite length_app. simpl. lia.
Qed.

Lemma last_key_skeys st i s : wf st -> live st !! i = Some s -> last_key s = last (skeys st i).
Proof.
  intros [Hst _] Hi. unfold last_key. destruct (parent s) as [p|] eqn:Ep.
  - destruct (so_child _ _ _ (Hst _ _ Hi) p Ep) as (_ & ps & k & _ & Hk & _). by rewrite (skeys_child st i s p k), last_snoc.
  - destruct (so_root _ _ _ (Hst _ _ Hi) Ep) as (Hk & _). rewrite (skeys_root st i s); [done..|by apply Hst|done].
Qed.

Lemma set_hidden_goes s k : ok s -> p_room (view s) -> does (set_hidden k) s tt (s_set_hidden k (view s)).
Proof.
  intros Hok Hr. pose proof Hok as [Hw Ho]. apply goes_me, goes_my_shape. cbv zeta. set (sh := shape_at _ _). set (n := x_hidden_prefix (ex (self s))).
  set (ks := skeys (shapes s) (o_shape (self s))).
  assert (Hgen : forall s1, ok s1 -> view s1 = view s -> does (h ← is_hidden k; when (negb h) (put (extra_mut (add_mark Hidden k));; bump_key_epoch)) s1 tt (s_set_hidden k (view s))).
  { intros s1 Hok1 V1. rewrite <- V1 in Hr |- *. eapply goes_read; [done|by apply is_hidden_reads|]. intros s2 Hok2 E2. destruct (same_sys_ok _ _ Hok1 E2) as [_ V2].
    unfold s_set_hidden. rewrite <- V2 in *. case_bool_decide as Hk; cbn [negb when].
    - rewrite decide_True by done. by apply goes_ret.
    - rewrite decide_False by done. eapply goes_bind; [by apply add_mark_goes|]. intros [] s3 Hok3 _ V3 _. rewrite <- V3.
      eapply goes_mono; [by apply bump_key_epoch_goes|]. by intros []. }
  destruct (negb (is_dict (self s)) && bool_decide (last_key sh = Some k) && (slen sh =? n + 1)) eqn:Ea.
  2: { eapply goes_read; [done|by apply (reads_ret s false)|]. intros s1 Hok1 E1. apply Hgen; [done|]. by apply same_sys_ok. }
  apply andb_true_iff in Ea as [[Ed Ek%bool_decide_eq_true]%andb_true_iff En%Z.eqb_eq].
  eapply goes_read; [done| |].
  { eapply (reads_bind s _ _ _ (negb (marked sh))); [done|by apply implied_attrs_reads|]. intros s1 Hok1 _. by apply reads_ret. }
  intros s1 Hok1 E1. destruct (same_sys_ok _ _ Hok E1) as [_ V1]. destruct (marked sh) eqn:Hmk; cbn [negb]; [by apply Hgen|]. clear Hgen.
  pose proof (oo_live _ _ Ho) as [x Hx]. assert (Hsh : sh = x) by (unfold sh; by rewrite (shape_at_live _ _ _ Hx)).
  assert (Hl : last ks = Some k) by (unfold ks; by rewrite <- (last_key_skeys _ _ x Hw Hx), <- Hsh).
  assert (Hlen : Z.of_nat (length ks) = n + 1) by (rewrite <- En; unfold sh; rewrite obj_slen by done; symmetry; apply (oo_len _ _ Ho)).
  pose proof (oo_prefix _ _ Ho) as Hpre. fold n in Hpre.
  destruct (last_snoc_take ks k n Hl Hlen ltac:(lia)) as (ks' & Hks & Ht1 & Ht2).
  assert (Hv : forall k', k' ∈ p_hid (view s) <-> k' ∈ x_hidden (ex (self s)) \/ k' ∈ ks').
  { intros k'. pose proof (view_mark s Hidden k') as H. cbn [p_mark marks implied_set] in H. rewrite <- implied_attrs_or in H. fold sh (marked sh) in H.
    rewrite Hmk in H. rewrite H. fold ks n. by rewrite elem_of_list_to_set, Ht1. }
  assert (Hkn : k ∉ ks').
  { pose proof (obj_keys_NoDup _ _ Hw Ho) as Hnd. fold ks in Hnd. rewrite Hks in Hnd. apply NoDup_app in Hnd as (_ & Hd & _). intros Hin. apply (Hd k Hin). by left. }
  rewrite has_mark_spec by apply Ho. cbn [marks]. unfold s_set_hidden. case_bool_decide as Hin; cbn [negb when].
  - rewrite decide_True by (apply Hv; by left). by apply goes_ret.
  - rewrite decide_False by (rewrite Hv; tauto). rewrite <- V1.
    eapply (goes_bind _ _ _ (s_add_mark Hidden k (view s1))) with (Q := fun _ _ => True).
    + apply goes_put; [apply Hok1| | |done]; rewrite (sy_self _ _ E1).
      * assert (Hx1 : obj_ok (shapes s1) (self s)) by (rewrite <- (sy_self _ _ E1); apply Hok1).
        apply extra_ok; try done; [by apply with_prefix_attrs, Ho| | |].
        -- cbn. rewrite (oo_len _ _ Ho). fold ks n. lia.
        -- assert (marked (shape_at (shapes s1) (o_shape (self s))) = marked sh) as -> by (unfold marked, has_implied_attrs; by apply same_sys_brand). congruence.
        -- apply (oo_fn _ _ Hx1).
      * unfold extra_mut. rewrite extra_spec by done. cbv beta zeta. rewrite V1. unfold s_add_mark, view, spec_of, p_with_mark. cbn [p_mark p_data p_acc p_log p_ro p_hid p_nc p_flags p_proto p_class p_epoch].
        assert (Hd1 : data_of (shapes s1) (self s) = data_of (shapes s) (self s)) by (unfold data_of; by rewrite (same_sys_keys _ _ _ E1)). rewrite Hd1.
        unfold mark_set, has_implied_fn_attrs, has_implied_ctor_attrs. rewrite !(same_sys_brand s s1) by done. rewrite (same_sys_keys _ _ _ E1).
        fold sh. fold (has_implied_fn_attrs sh) (has_implied_ctor_attrs sh). f_equal.
        apply set_eq. intros k'. cbn [implied_set marks with_hidden_prefix x_hidden x_hidden_prefix]. rewrite <- implied_attrs_or. fold (marked sh). rewrite Hmk. fold ks n.
        rewrite Ht1, Ht2, Hks, !elem_of_union, !elem_of_list_to_set, elem_of_app, list_elem_of_singleton, elem_of_singleton. tauto.
    + intros [] s2 Hok2 _ V2 _. rewrite <- V2. eapply goes_mono; [by apply bump_key_epoch_goes|]. by intros [].
Qed.

Lemma clear_hidden_goes s k : ok s -> p_room (view s) -> does (clear_hidden k) s tt (s_clear_hidden k (view s)).
Proof.
  intros Hok Hr. eapply goes_read; [done|by apply is_hidden_reads|]. intros s1 Hok1 E1. destruct (same_sys_ok _ _ Hok E1) as [_ V1].
  unfold s_clear_hidden. rewrite <- V1 in *. clear V1 E1 Hok s.
  eapply (goes_bind _ _ _ (if decide (k ∈ p_hid (view s1)) then s_bump (view s1) else view s1)) with (Q := fun _ _ => True).
  - case_bool_decide as Hk; [rewrite decide_True by done|rewrite decide_False by done; by apply goes_ret].
    eapply goes_mono; [by apply bump_key_epoch_goes|done].
  - intros [] s2 Hok2 _ V2 _. rewrite <- V2. assert (Hr2 : p_room (view s2)) by (rewrite V2; case_decide; [by apply s_bump_room|done]). clear V2 Hok1 Hr s1.
    eapply goes_bind; [by apply materialize_goes|]. intros [] s3 Hok3 _ V3 (Hw3 & _). rewrite <- V3 in *. clear V3 Hok2 s2.
    eapply goes_read; [done|by apply prefix_hidden_reads|]. intros s4 Hok4 E4. destruct (same_sys_ok _ _ Hok3 E4) as [_ V4]. rewrite <- V4 in *.
    assert (Hw4 : written s4) by (unfold written, marked, has_implied_attrs in *; rewrite (sy_self _ _ E4); by rewrite (same_sys_brand s3 s4)).
    rewrite <- (same_sys_keys _ _ _ E4), <- (sy_self _ _ E4). clear V4 E4 Hok3 Hw3 s3. case_bool_decide as Hk; cbn [when].
    + eapply goes_bind; [by apply write_out_hidden_prefix_goes|]. intros [] s5 Hok5 _ V5 (Hp5 & _). rewrite <- V5.
      eapply goes_mono; [by apply remove_mark_plain_goes|]. by intros [].
    + eapply goes_bind; [by apply (goes_ret s4 tt _ (fun _ s' => s' = s4))|]. intros [] s5 _ _ _ ->.
      eapply goes_mono; [apply extra_remove_mark_goes; [done|done|]|by intros []]. by right; right.
Qed.

Lemma set_readonly_goes s k : ok s -> p_room (view s) -> does (set_readonly k) s tt (s_set_readonly k (view s)).
Proof.
  intros Hok Hr. eapply goes_read; [done|by apply is_readonly_reads|]. intros s1 Hok1 E1. destruct (same_sys_ok _ _ Hok E1) as [_ V1].
  unfold s_set_readonly. rewrite <- V1 in *. clear V1 E1 Hok s. case_bool_decide as Hk; cbn [negb when].
  { rewrite decide_True by done. by apply goes_ret. }
  rewrite decide_False by done. apply goes_quiet; [apply global_attrs_changed_quiet|done|]. intros s2 Hok2 E2 F2.
  assert (V2 : view s2 = view s1) by (unfold view; by rewrite E2, F2). rewrite <- V2 in *. clear V2 E2 F2 Hok1 s1.
  apply goes_me, goes_quiet; [apply quiet_when, layout_changed_quiet|done|]. intros s3 Hok3 E3 F3.
  assert (V3 : view s3 = view s2) by (unfold view; by rewrite E3, F3). rewrite <- V3 in *. clear V3 E3 F3 Hok2 s2.
  apply core_put; [done|done|]. intros s4 Hok4 F4 E4.
  assert (V4 : view s4 = p_with_flags (Z.lor (p_flags (view s3)) JIT_FLAG_READONLY) (view s3)) by (unfold view; by rewrite E4, F4).
  rewrite <- V4. eapply goes_mono; [apply add_mark_goes; [done| |]|by intros []].
  - rewrite V4. destruct Hr as [H1 H2]. split; [|done]. intros m. rewrite s_mark_flags. apply H1.
  - rewrite V4, s_mark_flags. done.
Qed.

(** Materialise, then drop a mark: [clear_readonly] and [clear_non_configurable]. *)
Lemma clear_mark_goes s m k : ok s -> p_room (view s) -> m <> Hidden ->
  does (materialize_implied_attrs;; extra_remove_mark m k) s tt (s_remove_mark m k (view s)).
Proof.
  intros Hok Hr Hm. eapply goes_bind; [by apply materialize_goes|]. intros [] s1 Hok1 _ V1 (Hw1 & _). rewrite <- V1.
  eapply goes_mono; [apply extra_remove_mark_goes; [done|done|by right; left]|by intros []].
Qed.

Lemma set_non_configurable_goes s k : ok s -> p_room (view s) -> does (set_non_configurable k) s tt (s_set_non_configurable k (view s)).
Proof.
  intros Hok Hr. eapply goes_read; [done|by apply is_non_configurable_reads|]. intros s1 Hok1 E1. destruct (same_sys_ok _ _ Hok E1) as [_ V1].
  unfold s_set_non_configurable. rewrite <- V1 in *. case_bool_decide as Hk; cbn [negb when].
  - rewrite decide_True by done. by apply goes_ret.
  - rewrite decide_False by done. eapply goes_mono; [by apply add_mark_goes|]. by intros [].
Qed.

(** ** Flags, the prototype, the class *)

Lemma core_last_goes s f p : ok s -> core (f (self s)) = core (self s) -> spec_of (shapes s) (f (self s)) = p -> does (put f) s tt p.
Proof. intros [Hw Ho] Hc Hp. apply goes_put; [done|by eapply obj_ok_core|done|done]. Qed.

Lemma freeze_goes s : ok s -> does freeze s tt (p_with_flags (Z.lor (p_flags (view s))
  (Z.lor (Z.lor OBJ_FLAG_FROZEN OBJ_FLAG_SEALED) OBJ_FLAG_NON_EXTENSIBLE)) (view s)).
Proof.
  intros Hok. apply goes_quiet; [apply global_attrs_changed_quiet|done|]. intros s1 Hok1 E1 F1.
  assert (V1 : view s1 = view s) by (unfold view; by rewrite E1, F1). rewrite <- V1. by apply core_last_goes.
Qed.

Lemma add_jit_flags_goes s bits : ok s -> does (add_jit_flags bits) s tt
  (p_with_flags (Z.lor (p_flags (view s)) (Z.land bits JIT_FLAGS_MASK)) (view s)).
Proof.
  intros Hok. apply goes_me, goes_quiet; [apply quiet_when, layout_changed_quiet|done|]. intros s1 Hok1 E1 F1.
  assert (V1 : view s1 = view s) by (unfold view; by rewrite E1, F1). rewrite <- V1. by apply core_last_goes.
Qed.

Lemma set_proto_goes s p : ok s -> does (set_proto p) s tt (p_with_proto (proto_word p) (view s)).
Proof.
  intros Hok. eapply goes_bind; [by apply (core_last_goes s (with_proto (proto_word p)) (p_with_proto (proto_word p) (view s)))|].
  intros [] s1 Hok1 _ V1 _. rewrite <- V1. eapply goes_mono; [by apply quiet_goes; [apply layout_changed_quiet|]|by intros []].
Qed.

Lemma set_class_tag_goes s t : ok s -> does (set_class_tag t) s tt (p_with_class t (view s)).
Proof.
  intros [Hw Ho]. apply goes_put; [done| | |done].
  - apply extra_ok; try done; [|apply Ho..]. destruct (oo_attrs _ _ Ho) as [H1 H2 H3 H4].
    split; [intros m; destruct m; apply (H1 Readonly) || apply (H1 Hidden) || apply (H1 NonConfigurable)|done|done|].
    intros ix Hix. destruct (H4 ix Hix) as [K1 K2 K3]. split; [|done|done]. intros m k. rewrite K1. by destruct m.
  - unfold extra_mut. rewrite extra_spec by done. done.
Qed.
