(* ===== verification/ObjectCache.v ===== *)
(** * Inline caches on objects

    A read, a write or an addition through a [PropertyCache] does what the method
    without a cache does, and leaves a cache that can be used again. *)

From Stdlib Require Import String.
From S2P Require Import Prelude Prog NanBox Shape ShapeTable ShapeInv Ic Object ObjectAttr ObjectSlots ObjectInv ObjectData ObjectReads ObjectWrites ObjectSlotOps ObjectGrow ObjectOps.

#[local] Abbreviation length := Datatypes.length.
Open Scope Z_scope.

(** ** Reading and writing through a cache *)

Lemma cache_lookup_reads s k c : ok s -> cache_ok (shapes s) k c ->
  wp (cache_lookup k c) (fun rc s' => fst rc = slot_of (skeys (shapes s) (o_shape (self s))) k /\ same_sys s s' /\ cache_ok (shapes s') k (snd rc)) s.
Proof.
  intros [Hw Ho] Hc. destruct (ic_lookup_spec (shapes s) (o_shape (self s)) k c Hw (oo_live _ _ Ho) Hc) as (c' & st' & E & Hm & Hc').
  unfold cache_lookup, on_shapes, wp, me, gets, act, mbind, prog_bind. rewrite E. split_and!; [done|by split|done].
Qed.

Lemma cached_get_reads s k c : ok s -> cache_ok (shapes s) k c ->
  wp (cached_get k c) (fun rc s' => fst rc = assoc k (p_data (view s)) /\ same_sys s s' /\ cache_ok (shapes s') k (snd rc)) s.
Proof.
  intros Hok Hc. pose proof Hok as [Hw Ho]. change (p_data (view s)) with (data_of (shapes s) (self s)). rewrite data_assoc by done.
  apply wp_bind, wp_gets. destruct (is_dict (self s)).
  - apply wp_ret. split_and!; [done|by apply same_sys_refl|done].
  - apply wp_bind. eapply wp_mono; [by apply cache_lookup_reads|]. intros [r c'] s1 (E1 & E2 & E3). cbn [fst snd] in *. rewrite E1.
    destruct (slot_of _ k) as [i|] eqn:Ei; simpl; [|by apply wp_ret]. apply wp_bind, wp_gets, wp_ret. cbn [fst snd]. split_and!; [|done|done].
    rewrite (sy_self _ _ E2). apply slot_of_bound in Ei. apply slot_get_spec; [apply Ho|lia].
Qed.

Lemma set_slot_goes s i v : ok s -> 0 <= i ->
  goes (set_slot i v) s
    (if decide (i < o_len (self s)) then p_with_data (zip (skeys (shapes s) (o_shape (self s))) (<[Z.to_nat i := v]> (slots_iter (self s)))) (view s) else view s)
    (fun b _ => b = (i <? o_len (self s))).
Proof.
  intros Hok Hi. apply goes_me. destruct (decide (i < o_len (self s))) as [Hlt|Hge].
  - assert (Hm : o_mode (self s) = Shaped).
    { destruct (o_mode (self s)) eqn:Hm; [done|]. destruct (obj_dict _ _ (proj2 Hok) Hm) as (Hk & _). pose proof (oo_len _ _ (proj2 Hok)) as Hl. rewrite Hk in Hl. simpl in Hl. lia. }
    destruct (slot_set_spec (self s) i v (oo_slots _ _ (proj2 Hok)) (conj Hi Hlt)) as (o' & E & _). rewrite E.
    apply (goes_assoc _ _ (fun _ => note_slot i v) (fun _ => mret true)).
    eapply goes_bind; [by apply (slot_write_goes s i v o')|]. intros [] s1 Hok1 _ V1 _. apply goes_ret; [done|done|]. symmetry. by apply Z.ltb_lt.
  - assert (slot_set i v (self s) = None) as -> by (unfold slot_set; by rewrite (proj2 (Z.leb_le _ _)) by lia).
    apply goes_ret; [done|done|]. symmetry. apply Z.ltb_ge. lia.
Qed.

(** Whether a cached write happens: the object is shaped, has the key, and lets it be written. *)
Definition cached_write (k : key) (s : Sys) : bool :=
  negb (s_locked k (view s)) && negb (is_dict (self s)) && bool_decide (k ∈ p_keys (view s)).

Lemma cached_set_goes s k v c : ok s -> cache_ok (shapes s) k c ->
  goes (cached_set k v c) s (if cached_write k s then s_set k v (view s) else view s)
    (fun rc s' => fst rc = cached_write k s /\ cache_ok (shapes s') k (snd rc)).
Proof.
  intros Hok Hc. unfold cached_write, s_set. apply goes_me. eapply goes_read; [done|by apply locked_reads|]. intros s1 Hok1 E1.
  destruct (same_sys_ok _ _ Hok E1) as [_ V1]. pose proof (cache_ok_extends _ _ k c (wf_struct _ (proj1 Hok)) (same_sys_extends _ _ E1) Hc) as Hc1.
  destruct (s_locked k (view s)); cbn [negb andb]; [by apply goes_ret|].
  rewrite <- V1 in *. rewrite <- (sy_self _ _ E1). clear V1 E1 Hok Hc s. unfold is_dict. destruct (o_mode (self s1)) eqn:Hm; cbn [negb andb]; [|by apply goes_ret].
  apply wp_bind. eapply wp_mono; [by apply cache_lookup_reads|]. intros [r c'] s2 (E2 & F2 & Hc2). cbn [fst snd] in *. rewrite E2. rewrite <- shaped_keys by done.
  destruct (same_sys_ok _ _ Hok1 F2) as [Hok2 V2]. pose proof (obj_keys_NoDup _ _ (proj1 Hok1) (proj2 Hok1)) as Hnd. set (ks := skeys (shapes s1) (o_shape (self s1))) in *.
  destruct (slot_of ks k) as [i|] eqn:Ei.
  - assert (Hin : k ∈ ks) by (apply slot_of_is_Some; by eexists). rewrite bool_decide_true, decide_True by done.
    apply slot_of_Some in Ei as [Hi Ei]; [|done]. pose proof (lookup_lt_Some _ _ _ Ei) as Hlt. pose proof (oo_len _ _ (proj2 Hok1)) as Hl. fold ks in Hl.
    apply wp_bind. pose proof (set_slot_goes s2 i v Hok2 Hi) as Hg. rewrite (sy_self _ _ F2), (same_sys_keys _ _ _ F2) in Hg. fold ks in Hg. rewrite decide_True in Hg by lia.
    eapply wp_mono; [exact Hg|]. intros b s3 (G1 & G2 & G3 & ->). apply wp_ret. cbn [fst snd]. split_and!; [done| | | |].
    + etrans; [by apply same_sys_extends|done].
    + rewrite G3, V2. unfold s_write. f_equal. rewrite (view_shaped_data s1 Hm). fold ks. symmetry. apply assoc_set_zip; [done|done|]. apply obj_slots_length. apply Hok1.
    + apply Z.ltb_lt. lia.
    + eapply cache_ok_extends; [apply Hok2|exact G2|done].
  - apply slot_of_None in Ei. rewrite bool_decide_false by done. apply wp_ret. cbn [fst snd]. split_and!; [done|by apply same_sys_extends|done|done|done].
Qed.

(** ** Adding through a cache *)

(** A child in the cache of the object's layout can take its place. *)
Lemma cached_child st o to x k : wf st -> obj_ok st o -> live st !! to = Some x -> parent x = Some (o_shape o) -> skey x = Some k -> marked x = false ->
  child_layout st o k to /\ marked (shape_at st (o_shape o)) = false.
Proof.
  intros Hw Ho Hx Hp Hk Hm. pose proof (wf_struct _ Hw) as Hst. destruct (so_child _ _ _ (Hst _ _ Hx) _ Hp) as (_ & ps & k' & Hps & Hk' & _ & _ & _ & Hpm).
  rewrite Hk in Hk'. injection Hk' as <-. split; [|by rewrite (shape_at_live _ _ _ Hps)]. split; [by eexists|by apply (skeys_child st to x (o_shape o) k)| |by rewrite (shape_at_live _ _ _ Hx)].
  intros j v Hj H64 Hv. change (o_shape (with_shape to o)) with to. eapply (wf_masks _ Hw (o_shape o) to); [|lia|by eapply (oo_numbers _ _ Ho)].
  exists ps, x, k. split_and!; [done| |done]. by apply (so_cached _ _ _ (Hst _ _ Hps) to x k).
Qed.

Lemma adopt_goes s to x k v {B} (f : unit -> method B) p Q : ok s -> is_dict (self s) = false -> o_len (self s) < MAX_SHAPED_LEN ->
  live (shapes s) !! to = Some x -> parent x = Some (o_shape (self s)) -> skey x = Some k -> marked x = false ->
  (forall s', ok s' -> extends (shapes s) (shapes s') -> view s' = s_bump (s_add k v (view s)) -> goes (f tt) s' p Q) ->
  goes (put (with_shape to);; slot_push v;; bump_key_epoch ≫= f) s p Q.
Proof.
  intros Hok Hd Hlt Hx Hp Hk Hm Hf. assert (Hmo : o_mode (self s) = Shaped) by (unfold is_dict in Hd; by destruct (o_mode (self s))).
  destruct (cached_child _ _ to x k (proj1 Hok) (proj2 Hok) Hx Hp Hk Hm) as [Hc Hw].
  apply (goes_assoc _ _ (fun _ => slot_push v) (fun _ => bump_key_epoch ≫= f)).
  eapply goes_bind; [by apply (push_child_goes s k v to)|]. intros [] s1 Hok1 X1 V1 _. fold (s_add k v (view s)) in V1.
  eapply goes_bind; [by apply bump_key_epoch_goes|]. intros [] s2 Hok2 X2 V2 _. apply Hf; [done|by etrans|by rewrite V2, V1].
Qed.

Lemma jit_adopt_child_goes s to x k v : ok s -> live (shapes s) !! to = Some x -> skey x = Some k -> marked x = false ->
  let b := negb (is_dict (self s)) && bool_decide (parent x = Some (o_shape (self s))) && (o_len (self s) <? MAX_SHAPED_LEN) in
  does (jit_adopt_child to v) s b (if b then s_bump (s_add k v (view s)) else view s).
Proof.
  intros Hok Hx Hk Hm b. apply goes_me, goes_my_shape. unfold gets. apply wp_bind, wp_gets. rewrite (shape_at_live _ _ _ Hx).
  rewrite obj_slen, Z.eqb_refl by apply Hok. cbn [negb]. rewrite orb_false_r. subst b. rewrite Z.ltb_antisym.
  destruct (is_dict (self s)) eqn:Hd; cbn [negb andb orb]; [by apply goes_ret|]. destruct (bool_decide _) eqn:Hp; cbn [negb andb orb]; [|by apply goes_ret].
  apply bool_decide_eq_true in Hp. destruct (Z.leb_spec MAX_SHAPED_LEN (o_len (self s))); cbn [negb]; [by apply goes_ret|].
  apply (adopt_goes s to x k v); try done.
Qed.

(** Whether an own-property write needs no check: no flag, no mark and no accessor stands in its way. *)
Definition s_plain (k : key) (p : Spec) : bool :=
  negb (p_has_flag (Z.lor (Z.lor OBJ_FLAG_FROZEN OBJ_FLAG_SEALED) OBJ_FLAG_NON_EXTENSIBLE) p)
  && negb (bool_decide (head k = Some 0))
  && bool_decide ((k ∉ p_ro p) /\ (k ∉ p_hid p) /\ (k ∉ p_nc p) /\ (k ∉ p_names p)).

Lemma implied_mark_reads s k : ok s -> exists b, reads (implied_mark k) s b /\
  (b = true -> k ∈ p_hid (view s) \/ k ∈ p_nc (view s)) /\
  (b = false -> forall m, k ∈ p_mark m (view s) -> k ∈ marks m (ex (self s)) \/ m = Hidden /\ k ∈ take (Z.to_nat (x_hidden_prefix (ex (self s)))) (skeys (shapes s) (o_shape (self s)))).
Proof.
  intros Hok. set (sh := shape_at (shapes s) (o_shape (self s))). set (ks := skeys (shapes s) (o_shape (self s))).
  set (nc := implied_set (has_implied_fn_attrs sh) (has_implied_ctor_attrs sh) ks (x_hidden_prefix (ex (self s))) NonConfigurable).
  exists (marked sh && bool_decide (k ∈ ks) || bool_decide (k ∈ nc)). split_and!.
  - eapply reads_bind; [done|by apply implied_hidden_reads|]. intros s1 Hok1 E1. fold sh ks. unfold or_else. destruct (marked sh && _); [by apply reads_ret|].
    replace (bool_decide (k ∈ nc)) with (bool_decide (k ∈ implied_set (has_implied_fn_attrs (shape_at (shapes s1) (o_shape (self s1)))) (has_implied_ctor_attrs (shape_at (shapes s1) (o_shape (self s1)))) (skeys (shapes s1) (o_shape (self s1))) (x_hidden_prefix (ex (self s1))) NonConfigurable)).
    + by apply implied_non_configurable_reads.
    + rewrite (sy_self _ _ E1), (same_sys_keys _ _ _ E1). unfold has_implied_fn_attrs, has_implied_ctor_attrs. by rewrite !(same_sys_brand s s1).
  - intros [[Hmk Hin%bool_decide_eq_true]%andb_true_iff|Hin%bool_decide_eq_true]%orb_true_iff.
    + left. apply (view_mark s Hidden). right. unfold implied_set. rewrite <- implied_attrs_or. fold sh (marked sh) ks. rewrite Hmk. by apply elem_of_list_to_set.
    + right. apply (view_mark s NonConfigurable). by right.
  - intros [Hh Hn%bool_decide_eq_false]%orb_false_iff m [?|Hin]%view_mark; [by left|]. fold sh ks in Hin. destruct m; cbn [implied_set] in Hin.
    + destruct (has_implied_fn_attrs sh) eqn:Ef; [|set_solver]. apply elem_of_list_to_set in Hin. exfalso. rewrite bool_decide_true, andb_true_r in Hh by done.
      unfold marked in Hh. by rewrite implied_attrs_or, Ef in Hh.
    + rewrite <- implied_attrs_or in Hin. fold (marked sh) in Hin. destruct (marked sh); [|right; split; [done|by apply elem_of_list_to_set in Hin]].
      apply elem_of_list_to_set in Hin. by rewrite bool_decide_true in Hh.
    + by destruct Hn.
Qed.

Lemma empty_marks x m (k : key) : bool_decide (marks m x = []) = true -> k ∉ marks m x.
Proof. intros ->%bool_decide_eq_true. by intros ?%elem_of_nil. Qed.

(** A mark that may be looked up only when its list has something. *)
Lemma unmarked_reads s (e : bool) (m : method bool) b : ok s -> reads m s b -> (e = true -> b = false) ->
  reads (if e then mret true else r ← m; mret (negb r)) s (negb b).
Proof.
  intros Hok Hm He. destruct e; [rewrite He by done; by apply reads_ret|]. eapply reads_bind; [done|exact Hm|]. intros s1 Hok1 _. by apply reads_ret.
Qed.

Lemma and_then_reads s a (m : method bool) b : ok s -> (a = true -> reads m s b) -> reads (and_then a m) s (a && b).
Proof. intros Hok Hm. destruct a; simpl; [by apply Hm|by apply reads_ret]. Qed.

Lemma is_plain_reads s k : ok s -> reads (is_plain_data_slot_or_absent k) s (s_plain k (view s)).
Proof.
  intros Hok. apply reads_me. unfold s_plain. rewrite has_flag_view. destruct (p_has_flag _ (view s)); simpl; [by apply reads_ret|].
  destruct (bool_decide (head k = Some 0)); simpl; [by apply reads_ret|].
  destruct (implied_mark_reads s k Hok) as (b & Hb & Ht & Hf). eapply reads_bind; [done|exact Hb|]. intros s1 Hok1 E1.
  destruct (same_sys_ok _ _ Hok E1) as [_ V1]. destruct b.
  { rewrite bool_decide_false by (destruct (Ht eq_refl); tauto). by apply reads_ret. }
  specialize (Hf eq_refl). clear Ht Hb. assert (Hnames : forall s', view s' = view s -> p_names (view s) = names (ex (self s'))) by (by intros s' <-).
  destruct (o_extra (self s)) as [x|] eqn:Ex.
  2: { assert (Hx : ex (self s) = EMPTY_EXTRA) by (unfold ex; by rewrite Ex). rewrite Hx in Hf.
    assert (forall m, k ∉ p_mark m (view s)) as Hm.
    { intros m Hin. destruct (Hf m Hin) as [H|[-> H]]; [destruct m; by apply elem_of_nil in H|]. cbn in H. by apply elem_of_nil in H. }
    rewrite bool_decide_true; [by apply reads_ret|]. split_and!; [apply (Hm Readonly)|apply (Hm Hidden)|apply (Hm NonConfigurable)|].
    rewrite (Hnames s eq_refl), Hx. unfold names. cbn. by apply not_elem_of_nil. }
  assert (Hx : ex (self s) = x) by (unfold ex; by rewrite Ex). rewrite Hx in Hf.
  assert (Hro : bool_decide (x_readonly x = []) = true -> bool_decide (k ∈ p_ro (view s)) = false).
  { intros He. apply bool_decide_eq_false. intros Hin. destruct (Hf Readonly Hin) as [H|[? _]]; [by apply (empty_marks x Readonly k He)|done]. }
  assert (Hnc : bool_decide (x_non_configurable x = []) = true -> bool_decide (k ∈ p_nc (view s)) = false).
  { intros He. apply bool_decide_eq_false. intros Hin. destruct (Hf NonConfigurable Hin) as [H|[? _]]; [by apply (empty_marks x NonConfigurable k He)|done]. }
  assert (Hhid : bool_decide (x_hidden x = []) && (x_hidden_prefix x =? 0) = true -> bool_decide (k ∈ p_hid (view s)) = false).
  { intros [He Hp%Z.eqb_eq]%andb_true_iff. apply bool_decide_eq_false. intros Hin. destruct (Hf Hidden Hin) as [H|[_ H]]; [by apply (empty_marks x Hidden k He)|].
    rewrite Hp in H. by apply elem_of_nil in H. }
  assert (Hacc : bool_decide (x_accessors x = []) || bool_decide (accessor k (self s) = None) = negb (bool_decide (k ∈ p_names (view s)))).
  { rewrite accessor_reads by done. pose proof (accessor_is_Some s k) as Ha. rewrite <- not_eq_None_Some in Ha.
    assert (Hn : p_names (view s) = acc_name <$> x_accessors x) by (rewrite (Hnames s eq_refl), Hx; done).
    destruct (decide (x_accessors x = [])) as [Ea|Ea]; [rewrite (bool_decide_true (x_accessors x = [])) by done|rewrite (bool_decide_false (x_accessors x = [])) by done]; simpl.
    - rewrite Ea in Hn. rewrite Hn. symmetry. apply negb_true_iff, bool_decide_eq_false. by intros ?%elem_of_nil.
    - apply eq_iff_eq_true. rewrite negb_true_iff, bool_decide_eq_false, bool_decide_eq_true.
      destruct (decide (p_accessor k (view s) = None)); destruct (decide (k ∈ p_names (view s))); tauto. }
  rewrite Hacc. clear Hf Hacc Hx Hnames.
  assert (Hfin : forall b1 b2 b3 b4, b1 && negb b4 && b2 && b3 = bool_decide ((k ∉ p_ro (view s)) /\ (k ∉ p_hid (view s)) /\ (k ∉ p_nc (view s)) /\ (k ∉ p_names (view s))) ->
    forall m, reads m s1 (b1 && negb b4 && b2 && b3) -> reads m s1 (bool_decide ((k ∉ p_ro (view s)) /\ (k ∉ p_hid (view s)) /\ (k ∉ p_nc (view s)) /\ (k ∉ p_names (view s))))) by (by intros ???? ->).
  eapply (Hfin (negb (bool_decide (k ∈ p_ro (view s)))) (negb (bool_decide (k ∈ p_hid (view s)))) (negb (bool_decide (k ∈ p_nc (view s)))) (bool_decide (k ∈ p_names (view s)))).
  { repeat case_bool_decide; try done; tauto. }
  clear Hfin. eapply reads_bind; [done|apply unmarked_reads; [done|by apply is_readonly_reads|by rewrite V1]|]. intros s2 Hok2 E2.
  destruct (same_sys_ok _ _ Hok1 E2) as [_ V2]. rewrite V1 in V2.
  eapply reads_bind; [done|apply and_then_reads; [done|intros _; apply unmarked_reads; [done|by apply is_hidden_reads|by rewrite V2]]|]. intros s3 Hok3 E3.
  destruct (same_sys_ok _ _ Hok2 E3) as [_ V3]. rewrite V2 in V3. rewrite V1, V2.
  apply and_then_reads; [done|intros _]. rewrite <- V3. apply unmarked_reads; [done|by apply is_non_configurable_reads|by rewrite V3].
Qed.

(** *** [init_data_cached] *)

Lemma plain_unlocked k p : s_plain k p = true -> s_locked k p = false /\ p_has_flag OBJ_FLAG_NON_EXTENSIBLE p = false.
Proof.
  unfold s_plain, s_locked, p_has_flag. rewrite !andb_true_iff, !negb_true_iff, negb_false_iff, bool_decide_eq_true, bool_decide_eq_false, Z.eqb_eq.
  intros ((Hf & Hh) & Hr & _). rewrite !Z.land_lor_distr_r in Hf. apply Z.lor_eq_0_iff in Hf as [[Hf _]%Z.lor_eq_0_iff Hn]. rewrite Hf, Hn. split; [|done].
  rewrite (bool_decide_false (k ∈ p_ro p)) by done. simpl. by rewrite andb_false_r.
Qed.

(** The shape after [set] added the key to the shape before. *)
Lemma added_shape s s' k v : ok s -> ok s' -> extends (shapes s) (shapes s') -> is_dict (self s) = false -> is_dict (self s') = false ->
  view s' = s_set k v (view s) -> shape_after s s' -> parent (shape_at (shapes s') (o_shape (self s'))) = Some (o_shape (self s)) ->
  exists x, live (shapes s') !! o_shape (self s') = Some x /\ skey x = Some k /\ marked x = false.
Proof.
  intros Hok Hok' X Hd Hd' V Hsa Hp. pose proof (oo_live _ _ (proj2 Hok')) as [x Hx]. exists x. split; [done|]. rewrite (shape_at_live _ _ _ Hx) in Hp.
  pose proof (wf_struct _ (proj1 Hok')) as Hst. destruct (so_child _ _ _ (Hst _ _ Hx) _ Hp) as (Hlt & ps & k' & Hps & Hk' & _).
  assert (Hmo : o_mode (self s) = Shaped) by (unfold is_dict in Hd; by destruct (o_mode (self s))).
  assert (Hmo' : o_mode (self s') = Shaped) by (unfold is_dict in Hd'; by destruct (o_mode (self s'))).
  destruct Hsa as [Hsa|[Hsa|Hw]]; [rewrite Hsa in Hlt; lia|congruence|]. split; [|unfold written in Hw; by rewrite (shape_at_live _ _ _ Hx) in Hw].
  pose proof (skeys_child _ _ _ _ _ Hst Hx Hp Hk') as Hkeys. rewrite (extends_skeys _ _ (wf_struct _ (proj1 Hok)) X _ (oo_live _ _ (proj2 Hok))) in Hkeys.
  rewrite (shaped_keys s'), (shaped_keys s) in Hkeys by done. rewrite V in Hkeys. rewrite Hk'. unfold s_set in Hkeys.
  assert (Hno : p_keys (view s) <> p_keys (view s) ++ [k']) by (intros E; apply (f_equal length) in E; rewrite length_app in E; simpl in E; lia).
  destruct (s_locked k (view s)); [done|]. case_decide as Hin.
  - exfalso. apply Hno. rewrite <- Hkeys at 1. unfold p_keys, s_write. cbn [p_data p_with_data]. by rewrite assoc_set_keys.
  - destruct (p_has_flag _ _); [done|]. f_equal. unfold s_track in Hkeys.
    assert (Hk : p_keys (view s) ++ [k] = p_keys (view s) ++ [k']).
    { rewrite <- Hkeys. unfold s_track. destruct (p_log _); [case_decide|]; unfold p_keys; cbn; by rewrite fmap_app. }
    by apply app_inj_tail in Hk as [_ ?].
Qed.

Lemma init_slow_goes s k v c n : ok s -> p_room (view s) -> add_cache_ok (shapes s) k c ->
  goes (maybe_convert_to_dict k n;;
        o ← me;
        let before := if is_dict o then None else Some (o_shape o) in
        set k v;;
        o ← me;
        p ← gets (fun s => parent (shape_at (shapes s) (o_shape o)));
        c ← gets (fun s => if bool_decide (is_Some before) && negb (is_dict o) && bool_decide (p = before)
                           then arm_transition (o_shape o) (shapes s) c else c);
        mret (true, c)) s (s_set k v (view s)) (fun rc s' => fst rc = true /\ add_cache_ok (shapes s') k (snd rc)).
Proof.
  intros Hok Hr Hc. eapply goes_bind; [by apply maybe_convert_to_dict_goes|]. intros [] s1 Hok1 X1 V1 _. rewrite <- V1 in *.
  pose proof (add_cache_ok_extends _ _ k c X1 Hc) as Hc1. clear V1 X1 Hok Hc s. apply goes_me. cbv zeta.
  eapply goes_bind; [by apply set_goes|]. intros [] s2 Hok2 X2 V2 Hsa. apply goes_me. apply wp_bind, wp_gets, wp_bind, wp_gets.
  apply goes_ret; [done|done|]. cbn [fst snd]. split; [done|]. pose proof (add_cache_ok_extends _ _ k c X2 Hc1) as Hc2.
  destruct (_ && _ && _) eqn:Eg; [|done]. apply andb_true_iff in Eg as [[Eb%bool_decide_eq_true Ed%negb_true_iff]%andb_true_iff Ep%bool_decide_eq_true].
  destruct (is_dict (self s1)) eqn:Ed1; [by destruct Eb|].
  destruct (added_shape s1 s2 k v) as (x & Hx & Hk & Hm); try done.
  by apply (arm_transition_spec (shapes s2) _ x k c (wf_struct _ (proj1 Hok2))).
Qed.

Lemma init_data_cached_goes s k v c n : ok s -> p_room (view s) -> add_cache_ok (shapes s) k c ->
  goes (init_data_cached k v c n) s (if s_plain k (view s) then s_set k v (view s) else view s)
    (fun rc s' => fst rc = s_plain k (view s) /\ add_cache_ok (shapes s') k (snd rc)).
Proof.
  intros Hok Hr Hc. eapply goes_read; [done|by apply is_plain_reads|]. intros s1 Hok1 E1. destruct (same_sys_ok _ _ Hok E1) as [_ V1].
  pose proof (add_cache_ok_extends _ _ k c (same_sys_extends _ _ E1) Hc) as Hc1. rewrite <- V1 in *. clear V1 E1 Hok Hc s. rename s1 into s, Hok1 into Hok, Hc1 into Hc.
  destruct (s_plain k (view s)) eqn:Hpl; cbn [negb]; [|by apply goes_ret]. destruct (plain_unlocked _ _ Hpl) as [Hul Hext].
  apply goes_me, goes_my_shape. destruct (_ && _ && _) eqn:Eg.
  - apply andb_true_iff in Eg as [[Hd%negb_true_iff Hlt%Z.ltb_lt]%andb_true_iff Hlog]. rewrite obj_slen in Hlt by apply Hok.
    apply wp_bind, wp_gets. destruct (transition_from (o_shape (self s)) c (shapes s)) as [[to|] c'] eqn:Et; cbn [fst snd].
    + destruct (transition_from_spec _ _ _ _ _ _ (proj1 Hok) (oo_live _ _ (proj2 Hok)) Hc Et) as (_ & Hk & Hc').
      assert (exists x, live (shapes s) !! to = Some x /\ parent x = Some (o_shape (self s)) /\ skey x = Some k /\ marked x = false) as (x & Hx & Hp & Hsk & Hm).
      { unfold transition_from in Et. destruct (c_shape c) as [t|] eqn:Ec; [|done]. destruct (bool_decide _) eqn:Ep; [|done]. injection Et as -> _.
        apply bool_decide_eq_true in Ep. destruct (Hc _ Ec) as (x & Hx & Hsk & Hm). exists x. by rewrite (shape_at_live _ _ _ Hx) in Ep. }
      apply (adopt_goes s to x k v); [done|done|lia|done..|]. intros s1 Hok1 X1 V1. apply goes_ret; [done| |split; [done|by eapply add_cache_ok_extends]].
      rewrite V1. unfold s_set. assert (Hmo : o_mode (self s) = Shaped) by (unfold is_dict in Hd; by destruct (o_mode (self s))). rewrite shaped_keys in Hk by done.
      rewrite Hul, decide_False, Hext by done. unfold s_track. change (p_log (s_bump (s_add k v (view s)))) with (x_key_order (ex (self s))).
      unfold ex. destruct (o_extra (self s)) as [y|]; [apply bool_decide_eq_true in Hlog; simpl; by rewrite Hlog|done].
    + assert (Hc' : add_cache_ok (shapes s) k c').
      { unfold transition_from in Et. destruct (c_shape c) as [t|] eqn:Ec; [destruct (bool_decide _); [done|]|]; injection Et as <-; intros y Hy; apply Hc; exact Hy. }
      by apply init_slow_goes.
  - apply wp_bind, wp_ret. by apply init_slow_goes.
Qed.
