(* ===== verification/ObjectViews.v ===== *)
(** * What the collector and the caches see of an object

    The handles an object holds and their relocation, its symbol keys, its brand
    keys, and the objects the constructors make. *)

From Stdlib Require Import String.
From S2P Require Import Prelude Prog NanBox Shape ShapeTable ShapeInv ShapeSpec Object ObjectAttr ObjectSlots ObjectInv ObjectData ObjectReads ObjectWrites ObjectSlotOps ObjectGrow ObjectOps.
From S2P Require Heap.

#[local] Abbreviation length := Datatypes.length.
Open Scope Z_scope.

(** ** Relocation *)

Definition s_relocate (f : Heap.Handle -> Heap.Handle) (p : Spec) : Spec :=
  let fwd := forward_value f in
  let p := p_with_data ((fun kv => (fst kv, fwd (snd kv))) <$> p_data p) p in
  let p := p_with_acc ((fun a => (acc_name a, fwd (snd (fst a)), fwd (snd a))) <$> p_acc p) p in
  if p_proto p =? NO_PROTO then p else p_with_proto (Heap.to_raw (f (Heap.from_raw (p_proto p)))) p.

Lemma forward_number f v : is_number (forward_value f v) = false -> is_number v = false.
Proof.
  unfold forward_value, as_handle, is_handle. destruct (is_number v) eqn:E; simpl; congruence.
Qed.

(** The object after the two loops over its values. *)
Definition moved (fwd : NanBox -> NanBox) (o : Object) : Object :=
  let n := Z.to_nat (Z.min (o_len o) INLINE_SLOTS) in
  extra_as_mut (fun x =>
    let x := with_spill (spill_map fwd (x_spill x)) x in
    let x := with_dict ((fun d => MkDict (d_order d) ((fun s => MkDictSlot (fwd (d_value s)) (d_pos s)) <$> d_map d)) <$> x_dict x) x in
    with_accessors ((fun a => (acc_name a, fwd (snd (fst a)), fwd (snd a))) <$> x_accessors x) x)
    (with_inline ((fwd <$> take n (o_inline o)) ++ drop n (o_inline o)) o).

Section Moved.
Context (fwd : NanBox -> NanBox) (o : Object).

Lemma moved_ex {A} (f : ObjectExtra -> A) : (forall x p d a, f (with_accessors a (with_dict d (with_spill p x))) = f x) -> f (ex (moved fwd o)) = f (ex o).
Proof. intros Hf. unfold ex, moved, extra_as_mut. cbn. destruct (o_extra o) as [x|]; cbn; [apply Hf|done]. Qed.

Lemma moved_acc : x_accessors (ex (moved fwd o)) = (fun a => (acc_name a, fwd (snd (fst a)), fwd (snd a))) <$> x_accessors (ex o).
Proof. unfold ex, moved, extra_as_mut. cbn. by destruct (o_extra o). Qed.

Lemma moved_names : acc_name <$> x_accessors (ex (moved fwd o)) = acc_name <$> x_accessors (ex o).
Proof. rewrite moved_acc, <- list_fmap_compose. done. Qed.

Lemma moved_dict : x_dict (ex (moved fwd o)) =
  (fun d => MkDict (d_order d) ((fun s => MkDictSlot (fwd (d_value s)) (d_pos s)) <$> d_map d)) <$> x_dict (ex o).
Proof. unfold ex, moved, extra_as_mut. cbn. by destruct (o_extra o). Qed.

Lemma moved_attrs : attrs_ok (ex o) -> attrs_ok (ex (moved fwd o)).
Proof.
  assert (Fm : forall m, marks m (ex (moved fwd o)) = marks m (ex o)) by (intros m; apply (moved_ex (marks m)); by destruct m).
  intros [K1 K2 K3 K4]. split.
  - intros m. by rewrite Fm.
  - by rewrite moved_names.
  - by rewrite (moved_ex x_key_order).
  - intros ix. rewrite (moved_ex x_index) by done. intros Hix. destruct (K4 ix Hix) as [M1 M2 M3].
    split; [intros m k; by rewrite Fm|intros k; by rewrite moved_names|intros k; by rewrite (moved_ex x_key_order)].
Qed.

Lemma moved_spill n : 0 <= n -> spill_ok n (spill o) -> spill_ok n (spill (moved fwd o)) /\ spill_iter (spill (moved fwd o)) = fwd <$> spill_iter (spill o).
Proof.
  intros Hn Hs. destruct (o_extra o) as [x|] eqn:Ex.
  - assert (spill (moved fwd o) = spill_map fwd (spill o)) as -> by (unfold spill, ex, moved, extra_as_mut; cbn; by rewrite Ex). by apply spill_map_spec.
  - assert (spill (moved fwd o) = spill o) as -> by (unfold spill, ex, moved, extra_as_mut; cbn; by rewrite Ex).
    split; [done|]. unfold spill, ex. rewrite Ex. done.
Qed.

Lemma moved_slots : slots_ok o -> slots_ok (moved fwd o) /\ slots_iter (moved fwd o) = fwd <$> slots_iter o.
Proof.
  intros [H1 H2 H3]. destruct (moved_spill _ ltac:(apply Z.le_max_l) H3) as [M1 M2]. split.
  - split; [done| |exact M1]. cbn. rewrite length_app, length_fmap, length_take, length_drop. lia.
  - unfold slots_iter. rewrite M2, fmap_app. f_equal. change (o_len (moved fwd o)) with (o_len o). cbn [o_inline moved extra_as_mut with_extra with_inline].
    rewrite take_app_length'; [done|]. rewrite length_fmap, length_take. unfold INLINE_SLOTS. lia.
Qed.
End Moved.

Lemma moved_dict_list fwd d : dict_ok d ->
  let d' := MkDict (d_order d) ((fun s => MkDictSlot (fwd (d_value s)) (d_pos s)) <$> d_map d) in
  dict_ok d' /\ dict_list d' = (fun kv => (fst kv, fwd (snd kv))) <$> dict_list d.
Proof.
  intros Hd d'. split.
  - split; cbn [d' d_order d_map].
    + intros k s. rewrite lookup_fmap. intros (s' & Hs & ->)%fmap_Some. exact (dk_pos _ Hd k s' Hs).
    + intros i k Hi. apply (dk_map _ Hd) in Hi as (s & Hs & <-). rewrite lookup_fmap, Hs. by eexists.
  - unfold dict_list. cbn [d' d_order d_map]. induction (d_order d) as [|[k|] order IH]; csimpl; [done| |done].
    rewrite lookup_fmap. destruct (d_map d !! k) as [s|]; csimpl; [by f_equal|done].
Qed.

Lemma zip_fmap_r {A} (f : NanBox -> NanBox) (ks : list A) vs : zip ks (f <$> vs) = (fun kv => (fst kv, f (snd kv))) <$> zip ks vs.
Proof. revert vs. induction ks as [|k ks IH]; intros [|v vs]; csimpl; try done. by f_equal. Qed.

Lemma relocate_handles_goes s f : ok s -> does (relocate_handles f) s tt (s_relocate f (view s)).
Proof.
  intros Hok. pose proof Hok as [Hw Ho]. set (fwd := forward_value f). apply goes_me. cbv zeta.
  assert (Hok1 : obj_ok (shapes s) (moved fwd (self s)) /\
    spec_of (shapes s) (moved fwd (self s)) = p_with_acc ((fun a => (acc_name a, fwd (snd (fst a)), fwd (snd a))) <$> p_acc (view s))
      (p_with_data ((fun kv => (fst kv, fwd (snd kv))) <$> p_data (view s)) (view s))).
  { destruct (moved_slots fwd (self s) (oo_slots _ _ Ho)) as [M1 M2].
    assert (Fm : forall m, marks m (ex (moved fwd (self s))) = marks m (ex (self s))) by (intros m; apply (moved_ex fwd (self s) (marks m)); by destruct m).
    split.
    - split; try done.
      + apply Ho.
      + apply moved_attrs, Ho.
      + apply Ho.
      + pose proof (oo_mode _ _ Ho) as Hm. change (o_mode (moved fwd (self s))) with (o_mode (self s)). rewrite moved_dict.
        destruct (o_mode (self s)); [by rewrite Hm|]. destruct Hm as (Hk & d & -> & Hd). split; [done|]. eexists. split; [done|]. by apply moved_dict_list.
      + rewrite (moved_ex fwd (self s) x_hidden_prefix) by done. apply Ho.
      + rewrite (moved_ex fwd (self s) x_hidden_prefix) by done. apply Ho.
      + rewrite (moved_ex fwd (self s) x_readonly) by done. apply Ho.
      + intros i v Hi H64 Hv. rewrite M2, list_lookup_fmap in Hi. apply fmap_Some in Hi as (w & Hi & ->).
        apply (oo_numbers _ _ Ho i w Hi H64). by eapply forward_number.
    - unfold spec_of, mark_set. rewrite !Fm, moved_acc, (moved_ex fwd (self s) x_key_order), (moved_ex fwd (self s) x_class_tag), (moved_ex fwd (self s) x_hidden_prefix) by done.
      unfold p_with_acc, p_with_data, view, spec_of, mark_set. cbn [p_acc p_log p_ro p_hid p_nc p_flags p_proto p_class p_epoch p_data]. f_equal.
      unfold data_of, is_dict, dict. change (o_mode (moved fwd (self s))) with (o_mode (self s)). rewrite moved_dict, M2. change (o_shape (moved fwd (self s))) with (o_shape (self s)).
      destruct (o_mode (self s)) eqn:Hm; [apply zip_fmap_r|]. destruct (obj_dict _ _ Ho Hm) as (_ & Hx & Hd). rewrite Hx. by apply moved_dict_list. }
  destruct Hok1 as [Hok1 V1]. apply goes_put_then, goes_put_then.
  match goal with |- goes _ ?t _ _ => set (s1 := t) end. assert (E1 : self s1 = moved fwd (self s)) by done.
  assert (Hok2 : ok s1) by (split; [done|by rewrite E1]). 
  replace (s_relocate f (view s)) with
    (if p_proto (view s1) =? NO_PROTO then view s1 else p_with_proto (Heap.to_raw (f (Heap.from_raw (p_proto (view s1))))) (view s1))
    by (change (view s1) with (spec_of (shapes s) (moved fwd (self s))); rewrite V1; reflexivity).
  change (o_proto (self s)) with (p_proto (view s1)). unfold proto. change (o_proto (self s)) with (p_proto (view s1)).
  destruct (p_proto (view s1) =? NO_PROTO); [by apply goes_ret|]. by apply set_proto_goes.
Qed.

(** ** Handles *)

(** The handles an object holds: in its properties, its accessors, its prototype. *)
Definition s_handles (p : Spec) : list Heap.Handle :=
  ((snd <$> p_data p) ≫= handle_of) ++ (p_acc p ≫= fun a => handle_of (snd (fst a)) ++ handle_of (snd a))
  ++ (if p_proto p =? NO_PROTO then [] else [Heap.from_raw (p_proto p)]).

Lemma bind_elem_ext {A B} (f : A -> list B) (l l' : list A) : (forall x, x ∈ l <-> x ∈ l') -> forall y, y ∈ l ≫= f <-> y ∈ l' ≫= f.
Proof. intros H y. rewrite !list_elem_of_bind. by setoid_rewrite H. Qed.

Lemma dict_values_elem d v : dict_ok d -> v ∈ (d_value <$> btree_values (d_map d)) <-> v ∈ (snd <$> dict_list d).
Proof.
  intros Hd. rewrite !list_elem_of_fmap. setoid_rewrite btree_values_elem. split.
  - intros (s & -> & k & Hk). exists (k, d_value s). split; [done|]. apply assoc_elem.
    + rewrite dict_list_keys by done. by apply dict_order_NoDup.
    + by rewrite dict_list_assoc, Hk.
  - intros ([k w] & -> & Hin). apply assoc_elem in Hin; [|rewrite dict_list_keys by done; by apply dict_order_NoDup].
    rewrite dict_list_assoc in Hin by done. apply fmap_Some in Hin as (s & Hs & ->). eauto.
Qed.

Lemma trace_handles_spec s h : ok s -> h ∈ trace_handles (self s) <-> h ∈ s_handles (view s).
Proof.
  intros [Hw Ho]. unfold trace_handles, s_handles. change (p_acc (view s)) with (x_accessors (ex (self s))). change (p_proto (view s)) with (o_proto (self s)).
  change (p_data (view s)) with (data_of (shapes s) (self s)). unfold proto, data_of, is_dict, dict.
  assert (Hpr : option_list (if o_proto (self s) =? NO_PROTO then None else Some (Heap.from_raw (o_proto (self s)))) =
    if o_proto (self s) =? NO_PROTO then [] else [Heap.from_raw (o_proto (self s))]) by (by destruct (_ =? _)). rewrite Hpr. clear Hpr.
  assert (Hx : ex (self s) = default EMPTY_EXTRA (o_extra (self s))) by done. destruct (o_mode (self s)) eqn:Hm.
  - pose proof (oo_mode _ _ Ho) as Hd. rewrite Hm in Hd. rewrite (snd_zip _ (slots_iter (self s))) by (rewrite (obj_slots_length _ _ Ho); done).
    rewrite Hx in *. destruct (o_extra (self s)) as [x|]; simpl in *; [rewrite Hd|]; rewrite !elem_of_app; simpl; set_solver.
  - destruct (obj_dict _ _ Ho Hm) as (Hk & Hd & Hdok). rewrite Hd. assert (slots_iter (self s) = []) as -> .
    { apply nil_length_inv. rewrite <- (obj_slots_length _ _ Ho), Hk. done. }
    rewrite Hx in Hd |- *. destruct (o_extra (self s)) as [x|]; simpl in *; [|done]. rewrite Hd. rewrite !elem_of_app.
    rewrite (bind_elem_ext handle_of (d_value <$> btree_values (d_map (dict (self s)))) (snd <$> dict_list (dict (self s)))) by (intros v; by apply dict_values_elem).
    set_solver.
Qed.

(** ** Symbols and brands *)

Lemma key_bits_symbol k : Z.testbit (key_bits k) 7 = starts_with k SYMBOL_KEY_PREFIX.
Proof.
  unfold key_bits. destruct (starts_with k [0]) eqn:E0; cbn [negb].
  - rewrite Z.lor_spec. assert (Z.testbit (brand_bit k) 7 = false) as ->.
    { unfold brand_bit. rewrite E0. cbn [negb]. destruct (list_find _ _) as [[i x]|] eqn:Ef; [|done]. apply list_find_Some in Ef as (Ef%lookup_lt_Some & _). cbn in Ef.
      rewrite Z.shiftl_1_l, Z.pow2_bits_false by lia. done. }
    cbn [orb]. by destruct (starts_with k SYMBOL_KEY_PREFIX).
  - destruct (starts_with k SYMBOL_KEY_PREFIX) eqn:E; [|by rewrite Z.bits_0]. apply starts_with_spec in E as [r ->]. done.
Qed.

Lemma keys_bits_symbol ks : Z.testbit (keys_bits ks) 7 = existsb (fun k => starts_with k SYMBOL_KEY_PREFIX) ks.
Proof.
  induction ks as [|k ks IH]; cbn [keys_bits foldr existsb]; [by rewrite Z.bits_0|]. fold (keys_bits ks). by rewrite Z.lor_spec, key_bits_symbol, IH.
Qed.

Lemma has_symbol_spec st i s : wf st -> live st !! i = Some s ->
  has_symbol_keys s = existsb (fun k => starts_with k SYMBOL_KEY_PREFIX) (skeys st i).
Proof.
  intros [Hst _] Hi. unfold has_symbol_keys. change SYMBOL_KEYS_BIT with (2 ^ 7). rewrite has_brand_bit by lia.
  destruct (so_brands _ _ _ (Hst i s Hi)) as (m & -> & Hm). rewrite Z.lor_spec, keys_bits_symbol.
  assert (Z.testbit m 7 = false) as -> by (destruct Hm as [->|[->|[-> _]]]; done). apply orb_false_r.
Qed.

Lemma take_symbols_spec (l : list key) : StronglySorted (fun a b => bytes_le a b = true) l -> (forall k, k ∈ l -> bytes_le SYMBOL_KEY_PREFIX k = true) ->
  forall k, k ∈ take_symbols l <-> k ∈ l /\ starts_with k SYMBOL_KEY_PREFIX = true.
Proof.
  intros Hs. induction Hs as [|a l Hs IH Ha]; intros Hlo k; cbn [take_symbols]; [set_solver|].
  destruct (starts_with a SYMBOL_KEY_PREFIX) eqn:E.
  - rewrite !elem_of_cons, IH by (intros; apply Hlo; by right). naive_solver.
  - rewrite elem_of_nil. split; [done|]. intros [Hin Hk]. exfalso. apply elem_of_cons in Hin as [->|Hin]; [congruence|].
    rewrite Forall_forall in Ha. apply Ha in Hin as Hle. pose proof (starts_with_interval SYMBOL_KEY_PREFIX a k (Hlo a ltac:(by left)) Hle Hk). congruence.
Qed.

Lemma sorted_keys {V} (l : list (key * V)) (f : key * V -> bool) : StronglySorted (fun x y => bytes_le (fst x) (fst y) = true) l ->
  StronglySorted (fun a b => bytes_le a b = true) (fst <$> List.filter f l).
Proof.
  induction 1 as [|x l Hs IH Hx]; csimpl; [constructor|]. destruct (f x); csimpl; [|done]. constructor; [done|].
  rewrite Forall_fmap. rewrite Forall_forall in Hx |- *. intros y Hy. apply list_elem_of_In, List.filter_In in Hy as [Hy _]. apply Hx. by apply list_elem_of_In.
Qed.

Lemma symbol_keys_spec s k : ok s ->
  k ∈ symbol_keys (self s) (shapes s) <-> starts_with k SYMBOL_KEY_PREFIX = true /\ (k ∈ p_keys (view s) \/ k ∈ p_names (view s)).
Proof.
  intros Hok. pose proof Hok as [Hw Ho]. rewrite view_keys by done. change (p_names (view s)) with (names (ex (self s))).
  pose proof (oo_live _ _ Ho) as [x Hx]. pose proof (has_symbol_spec _ _ _ Hw Hx) as Hsym. unfold symbol_keys, may_have_symbol_keys. rewrite (shape_at_live _ _ _ Hx), Hsym.
  assert (Hfil : forall l, k ∈ List.filter (fun k => starts_with k SYMBOL_KEY_PREFIX) l <-> k ∈ l /\ starts_with k SYMBOL_KEY_PREFIX = true).
  { intros l. by rewrite !list_elem_of_In, List.filter_In. }
  assert (Hks : forall ks, existsb (fun k => starts_with k SYMBOL_KEY_PREFIX) ks = false -> starts_with k SYMBOL_KEY_PREFIX = true -> k ∉ ks).
  { intros ks He Hk Hin. apply list_elem_of_In in Hin. assert (existsb (fun k => starts_with k SYMBOL_KEY_PREFIX) ks = true) by (apply List.existsb_exists; eauto). congruence. }
  unfold is_dict. destruct (o_mode (self s)) eqn:Hm.
  - destruct (existsb _ _) eqn:Ee; [rewrite orb_true_r; simpl|rewrite orb_false_r].
    + rewrite elem_of_app, !Hfil. rewrite (keys_unordered_spec (shapes s) (o_shape (self s))); [|apply Hw|by eexists]. unfold accessor_keys, names. tauto.
    + case_bool_decide as E; simpl.
      * rewrite Hfil. pose proof (Hks _ Ee). unfold accessor_keys, names. tauto.
      * assert (names (ex (self s)) = []) as -> by (unfold ex; destruct (o_extra (self s)); [by destruct E|done]).
        pose proof (Hks _ Ee). rewrite !elem_of_nil. tauto.
  - destruct (obj_dict _ _ Ho Hm) as (_ & Hd & Hdok). assert (bool_decide (is_Some (o_extra (self s))) = true) as ->.
    { apply bool_decide_eq_true. unfold ex in Hd. destruct (o_extra (self s)); [by eexists|done]. }
    simpl. rewrite elem_of_app, Hfil. unfold btree_range. rewrite take_symbols_spec.
    + assert (Hin : k ∈ fst <$> List.filter (fun kv => bytes_le SYMBOL_KEY_PREFIX kv.1) (btree_iter (d_map (dict (self s)))) <->
        bytes_le SYMBOL_KEY_PREFIX k = true /\ Some k ∈ d_order (dict (self s))).
      { rewrite dict_keys_elem by done. rewrite list_elem_of_fmap. split.
        - intros ([k' v] & -> & Hin). apply list_elem_of_In, List.filter_In in Hin as [Hin Hle]. split; [done|]. apply list_elem_of_In, btree_iter_elem in Hin. by eexists.
        - intros [Hle [v Hv]]. exists (k, v). split; [done|]. apply list_elem_of_In, List.filter_In. split; [|done]. by apply list_elem_of_In, btree_iter_elem. }
      rewrite Hin, omap_id_elem. pose proof (starts_with_le k SYMBOL_KEY_PREFIX). unfold accessor_keys, names. tauto.
    + apply sorted_keys, btree_iter_sorted.
    + intros k' ([k1 v] & -> & Hin)%list_elem_of_fmap. by apply list_elem_of_In, List.filter_In in Hin as [_ ?].
Qed.

(** ** The objects the constructors make *)

Lemma number_only_bit s i : 0 <= slen s -> 0 <= i < 64 -> i < slen s -> Z.testbit (number_only_slots s) i = negb (Z.testbit (any s) i).
Proof.
  intros Hl Hi Hlt. unfold number_only_slots. rewrite Z.ldiff_spec. assert (Z.testbit (if 64 <=? slen s then 2 ^ 64 - 1 else Z.shiftl 1 (slen s) - 1) i = true) as ->; [|done].
  case_cmp.
  - change (2 ^ 64 - 1) with (Z.ones 64). apply Z.ones_spec_low. lia.
  - change (Z.shiftl 1 (slen s) - 1) with (Z.ones (slen s)). apply Z.ones_spec_low. lia.
Qed.

Lemma note_pending_spec vs : forall fuel i pending shape st, wf st -> is_Some (live st !! shape) -> 0 <= i ->
  let st' := note_pending fuel i pending shape vs st in
  wf st' /\ extends st st' /\ forall j v, vs !! j = Some v -> (j < fuel)%nat -> i + Z.of_nat j < 64 -> is_number v = false ->
    Z.testbit pending (i + Z.of_nat j) = true -> Z.testbit (any_at st' shape) (i + Z.of_nat j) = true.
Proof.
  induction vs as [|v vs IH]; intros [|fuel] i pending shape st Hw Hl Hi; cbn [note_pending]; try (split_and!; [done|done|]; intros; try done; lia).
  set (st1 := if Z.testbit pending i && negb (is_number v) then _ else _).
  assert (H1 : wf st1 /\ extends st st1 /\ (Z.testbit pending i = true -> is_number v = false -> i < 64 -> Z.testbit (any_at st1 shape) i = true)).
  { unfold st1. destruct Hl as [x Hx]. destruct (Z.testbit pending i) eqn:Eb; simpl; [|by split_and!]. destruct (is_number v); simpl; [by split_and!|].
    destruct (note_non_number_spec st shape x i Hw Hx Hi) as (N1 & N2 & N3). split_and!; [done|done|auto]. }
  destruct H1 as (W1 & X1 & B1). assert (Hl1 : is_Some (live st1 !! shape)) by (by eapply extends_live).
  destruct (IH fuel (i + 1) pending shape st1 W1 Hl1 ltac:(lia)) as (W2 & X2 & B2). split_and!; [done|by etrans|].
  intros j w Hj Hf H64 Hn Hb. destruct j as [|j]; simpl in Hj.
  - injection Hj as ->. rewrite Z.add_0_r in *. apply (extends_any _ _ _ X2); [done|lia|]. by apply B1.
  - replace (i + Z.of_nat (S j)) with (i + 1 + Z.of_nat j) in * by lia. apply (B2 j w); try done; lia.
Qed.

Lemma take_min_length {A} (l : list A) n : take (length l `min` n) l = take n l.
Proof.
  destruct (decide (length l <= n)%nat).
  - rewrite !take_ge by lia. done.
  - f_equal. lia.
Qed.

Lemma inline_of_spec vs : length (inline_of vs) = 4%nat /\ take (Z.to_nat (Z.min (Z.of_nat (length vs)) INLINE_SLOTS)) (inline_of vs) = take 4 vs.
Proof.
  unfold inline_of. change (Z.to_nat INLINE_SLOTS) with 4%nat. split.
  - rewrite length_app, length_take, length_replicate. lia.
  - unfold INLINE_SLOTS. rewrite take_app_le by (rewrite length_take; lia). rewrite take_take, <- (take_min_length vs 4). f_equal. lia.
Qed.

Lemma spill_part_spec rest : Z.of_nat (length rest) < 2 ^ 32 -> let x := default EMPTY_EXTRA (spill_part rest) in
  spill_ok (Z.of_nat (length rest)) (x_spill x) /\ spill_iter (x_spill x) = rest /\ with_spill SPILL_EMPTY x = EMPTY_EXTRA.
Proof.
  intros Hl. destruct rest as [|v rest]; [by split_and!|]. cbn [spill_part default]. set (l := v :: rest) in *. change (Z.to_nat SPILL_NEAR) with 8%nat.
  cbn [id x_spill with_spill]. rewrite as_u32_small by lia. split_and!; [|unfold spill_iter, SPILL_NEAR; cbn [near far spill_n]|done].
  - split; cbn [near far spill_n]; [rewrite length_app, length_take, length_replicate; lia|done|rewrite length_drop; lia].
  - rewrite take_app_le by (rewrite length_take; lia). rewrite take_take. transitivity (take 8 l ++ drop 8 l); [|apply take_drop]. f_equal. rewrite <- (take_min_length l 8). f_equal. lia.
Qed.

Definition made (st : Shapes) (shape : nat) (vs : list NanBox) (x : option ObjectExtra) : Object :=
  MkObject Shaped 0 (Z.of_nat (length vs)) (Z.of_nat (length vs)) shape NO_PROTO x (inline_of vs).

(** A shape's keys next to as many values. *)
Definition s_made (keys : list key) (fn ctor : bool) (vs : list NanBox) (prefix : Z) : Spec :=
  let f := implied_set fn ctor keys prefix in
  MkSpec (zip keys vs) [] None (f Readonly) (f Hidden) (f NonConfigurable) 0 NO_PROTO NO_CLASS_TAG (Z.of_nat (length vs)).

Lemma made_ok st st' shape x vs rest : wf st -> live st !! shape = Some x -> length vs = length (skeys st shape) ->
  Z.of_nat (length vs) <= MAX_SHAPED_LEN -> rest = spill_part (drop 4 vs) ->
  st' = note_pending 64 0 (number_only_slots (shape_at st shape)) shape vs st ->
  wf st' /\ extends st st' /\ obj_ok st' (made st' shape vs rest) /\
  spec_of st' (made st' shape vs rest) = s_made (skeys st shape) (has_implied_fn_attrs x) (has_implied_ctor_attrs x) vs 0.
Proof.
  intros Hw Hx Hlen Hmax -> ->. set (st' := note_pending _ _ _ _ _ _).
  destruct (note_pending_spec vs 64 0 (number_only_slots (shape_at st shape)) shape st Hw ltac:(by eexists) ltac:(lia)) as (W & X & B). fold st' in W, X, B.
  assert (K : keeps st st' shape) by (apply extends_keeps; [done|done|by eexists]). set (o := made st' shape vs (spill_part (drop 4 vs))).
  unfold MAX_SHAPED_LEN in Hmax. destruct (spill_part_spec (drop 4 vs)) as (S1 & S2 & S3); [rewrite length_drop; lia|]. change (default EMPTY_EXTRA (spill_part (drop 4 vs))) with (ex o) in S1, S2, S3.
  destruct (inline_of_spec vs) as [I1 I2].
  assert (F : forall {A} (f : ObjectExtra -> A), (forall x p, f (with_spill p x) = f x) -> f (ex o) = f EMPTY_EXTRA).
  { intros A f Hf. rewrite <- S3. symmetry. apply Hf. }
  assert (Fm : forall m, marks m (ex o) = []) by (intros m; rewrite (F _ (marks m)); by destruct m).
  assert (Hit : slots_iter o = vs).
  { unfold slots_iter. change (spill o) with (x_spill (ex o)). rewrite S2. change (o_len o) with (Z.of_nat (length vs)). change (o_inline o) with (inline_of vs).
    rewrite I2. apply take_drop. }
  assert (Hsl : slots_ok o).
  { split; [cbn; unfold MAX_SHAPED_LEN; lia|done|]. change (spill o) with (x_spill (ex o)). change (o_len o) with (Z.of_nat (length vs)).
    rewrite length_drop in S1. by replace (Z.max 0 (Z.of_nat (length vs) - 4)) with (Z.of_nat (length vs - 4)) by lia. }
  split_and!; [done|done| |].
  - split; change (o_shape o) with shape; change (o_mode o) with Shaped; change (o_len o) with (Z.of_nat (length vs)).
    + apply K.
    + done.
    + rewrite <- (attrs_ok_spill SPILL_EMPTY), S3. apply empty_attrs_ok.
    + rewrite (kp_keys _ _ _ K). by rewrite Hlen.
    + by rewrite (F _ x_dict).
    + rewrite (F _ x_hidden_prefix) by done. cbn. lia.
    + by rewrite (F _ x_hidden_prefix).
    + rewrite (F _ x_readonly) by done. intros _ k _. by apply not_elem_of_nil.
    + intros i v Hi H64 Hv. change (o_shape o) with shape. rewrite Hit in Hi. specialize (B i v Hi ltac:(lia) ltac:(lia) Hv). rewrite Z.add_0_l in B.
      destruct (Z.testbit (any_at st shape) (Z.of_nat i)) eqn:Ea; [apply (kp_any _ _ _ K); [lia|done]|]. apply B.
      pose proof (slen_skeys st shape x (wf_struct _ Hw) Hx) as Hs. apply lookup_lt_Some in Hi as Hlt.
      rewrite (shape_at_live _ _ _ Hx), number_only_bit by lia. unfold any_at in Ea. rewrite (shape_at_live _ _ _ Hx) in Ea. by rewrite Ea.
  - unfold spec_of, s_made, mark_set, data_of. change (is_dict o) with false. change (o_shape o) with shape. rewrite Hit, !Fm, (F _ x_accessors), (F _ x_key_order), (F _ x_class_tag), (F _ x_hidden_prefix) by done.
    unfold has_implied_fn_attrs, has_implied_ctor_attrs. rewrite !(keeps_has_brand _ _ _ _ K), (kp_keys _ _ _ K), (shape_at_live _ _ _ Hx). cbv zeta. cbn [list_to_set].
    rewrite !union_empty_l_L. done.
Qed.

Lemma with_data_spec st shape x vs : wf st -> live st !! shape = Some x -> length vs = length (skeys st shape) -> Z.of_nat (length vs) <= MAX_SHAPED_LEN ->
  exists o st', with_data shape vs st = (Some o, st') /\ wf st' /\ extends st st' /\ obj_ok st' o /\
    spec_of st' o = s_made (skeys st shape) (has_implied_fn_attrs x) (has_implied_ctor_attrs x) vs 0 /\
    o_shape o = shape /\ o_len o = Z.of_nat (length vs).
Proof.
  intros Hw Hx Hlen Hmax. unfold with_data. pose proof (slen_skeys st shape x (wf_struct _ Hw) Hx) as Hs. rewrite (shape_at_live _ _ _ Hx).
  rewrite (proj2 (Z.ltb_ge _ _)), (proj2 (Z.eqb_eq _ _)) by lia. cbn [orb negb]. unfold MAX_SHAPED_LEN in Hmax. rewrite as_u16_small, as_u32_small by lia.
  eexists _, _. split; [done|]. destruct (made_ok st (note_pending 64 0 (number_only_slots x) shape vs st) shape x vs (spill_part (drop 4 vs)) Hw Hx Hlen Hmax eq_refl) as (M1 & M2 & M3 & M4);
    [by rewrite (shape_at_live _ _ _ Hx)|]. split_and!; done.
Qed.

Lemma new_object_spec st r : root_ok st r -> obj_ok st (new_object r) /\ spec_of st (new_object r) = s_made [] false false [] 0.
Proof.
  intros (x & Hx & Hk & Hm). unfold marked in Hm. rewrite implied_attrs_or in Hm. apply orb_false_iff in Hm as [Hf Hc]. split.
  - split; try done.
    + apply empty_attrs_ok.
    + cbn [o_shape new_object]. by rewrite Hk.
    + intros _ k _. by apply not_elem_of_nil.
  - unfold spec_of, s_made, mark_set, data_of. cbn [o_shape new_object is_dict o_mode]. rewrite Hk, (shape_at_live _ _ _ Hx), Hf, Hc. done.
Qed.

Lemma with_data_hidden_prefix_spec st shape x vs n : wf st -> live st !! shape = Some x -> marked x = false -> length vs = length (skeys st shape) ->
  Z.of_nat (length vs) <= MAX_SHAPED_LEN -> 0 <= n <= Z.of_nat (length vs) ->
  exists o st', with_data_hidden_prefix shape vs n st = (Some o, st') /\ wf st' /\ extends st st' /\ obj_ok st' o /\
    spec_of st' o = s_made (skeys st shape) false false vs n.
Proof.
  intros Hw Hx Hm Hlen Hmax Hn. destruct (with_data_spec st shape x vs Hw Hx Hlen Hmax) as (o & st' & E & W & X & Ho & V & Hsh & Hol).
  unfold with_data_hidden_prefix. rewrite (proj2 (Z.ltb_ge _ _)) by lia. rewrite E. unfold marked in Hm. rewrite implied_attrs_or in Hm.
  apply orb_false_iff in Hm as [Hf Hc]. rewrite Hf, Hc in V. cbn [fmap option_fmap option_map]. destruct (Z.eqb_spec n 0) as [->|Hne]; [by exists o, st'|].
  exists (extra_mut (with_hidden_prefix n) o), st'. split_and!; try done.
  - assert (Hmk : marked (shape_at st' (o_shape o)) = false).
    { rewrite Hsh. pose proof (extends_brands _ _ shape X ltac:(by eexists)) as Hb. unfold marked, has_implied_attrs, has_brand in *. rewrite Hb, (shape_at_live _ _ _ Hx).
      fold (has_brand IMPLIED_ATTRS_BITS x) (has_implied_attrs x). by rewrite implied_attrs_or, Hf, Hc. }
    apply extra_ok; try done; [by apply with_prefix_attrs, Ho|cbn; lia|by rewrite Hmk|by apply (oo_fn _ _ Ho)].
  - unfold extra_mut. rewrite extra_spec by done. cbv beta zeta. unfold spec_of in V. injection V as V1 V2 V3 V4 V5 V6 V7 V8 V9 V10.
    cbn [with_hidden_prefix x_accessors x_key_order x_class_tag x_hidden_prefix].
    rewrite V1, V2, V3, V7, V8, V9, V10. unfold has_implied_fn_attrs, has_implied_ctor_attrs in Hf, Hc |- *.
    assert (K : keeps st st' shape) by (apply extends_keeps; [done|done|by eexists]). rewrite Hsh, !(keeps_has_brand _ _ _ _ K), (kp_keys _ _ _ K), (shape_at_live _ _ _ Hx), Hf, Hc.
    unfold mark_set in V4, V5, V6. rewrite Hsh in V4, V5, V6. unfold has_implied_fn_attrs, has_implied_ctor_attrs in V4, V5, V6.
    rewrite !(keeps_has_brand _ _ _ _ K), (kp_keys _ _ _ K), (shape_at_live _ _ _ Hx), Hf, Hc in V4, V5, V6. cbn [implied_set orb andb] in V4, V5, V6.
    assert (Hp0 : forall m, list_to_set (C := gset key) (marks m (ex o)) = ∅).
    { apply empty_union_L in V4 as [V4 _], V5 as [V5 _], V6 as [V6 _]. by intros []. }
    rewrite !with_prefix_marks, !Hp0, !union_empty_l_L. done.
Qed.

Lemma builtin_fn_props_spec st shape x len name : wf st -> live st !! shape = Some x -> has_implied_fn_attrs x = true ->
  exists o st', builtin_fn_props shape len name st = (Some o, st') /\ wf st' /\ extends st st' /\ obj_ok st' o /\
    spec_of st' o = p_with_flags JIT_FLAG_READONLY (s_made [bytes "length"; bytes "name"] true false [len; name] 0).
Proof.
  intros Hw Hx Hf. destruct (marked_cases st shape x Hw Hx) as [_ Hc]. destruct (Hc Hf) as [Hct Hk].
  destruct (with_data_spec st shape x [len; name] Hw Hx) as (o & st' & E & W & X & Ho & V & _); [by rewrite Hk|done|].
  unfold builtin_fn_props. rewrite E. eexists _, st'. split; [done|]. split_and!; try done.
  - by apply (obj_ok_core _ o).
  - rewrite Hk, Hf, Hct in V. rewrite (core_spec _ o) by done. rewrite <- V. cbn [o_flags o_proto o_key_epoch with_flags].
    assert (o_flags o = 0) as -> by (by apply (f_equal p_flags) in V). done.
Qed.

Lemma spec_with_proto st o w : spec_of st (with_proto w o) = p_with_proto w (spec_of st o).
Proof. done. Qed.

Lemma with_implied_ctor_attrs_spec st shape x vs p : wf st -> live st !! shape = Some x -> has_implied_ctor_attrs x = true ->
  length vs = length (skeys st shape) -> (length vs <= 4)%nat ->
  exists o st', with_implied_ctor_attrs shape vs p st = (Some o, st') /\ wf st' /\ extends st st' /\ obj_ok st' o /\
    spec_of st' o = p_with_proto (proto_word p) (s_made (skeys st shape) false true vs 0).
Proof.
  intros Hw Hx Hc Hlen H4. unfold with_implied_ctor_attrs. pose proof (slen_skeys st shape x (wf_struct _ Hw) Hx) as Hs. rewrite (shape_at_live _ _ _ Hx).
  rewrite (proj2 (Z.eqb_eq _ _)) by lia. cbn [negb]. rewrite as_u16_small, as_u32_small by lia.
  remember (note_pending 64 0 (number_only_slots x) shape vs st) as st' eqn:Est. eexists _, st'. split; [reflexivity|].
  rewrite <- (shape_at_live _ _ _ Hx) in Est.
  destruct (made_ok st st' shape x vs None Hw Hx Hlen) as (W & X & Ho & V); [unfold MAX_SHAPED_LEN; lia|by rewrite drop_ge by lia|exact Est|]. clear Est.
  assert (Hf : has_implied_fn_attrs x = false).
  { destruct (has_implied_fn_attrs x) eqn:Ef; [|done]. destruct (marked_cases st shape x Hw Hx) as [_ Hm]. destruct (Hm Ef). congruence. }
  rewrite Hf, Hc in V. split_and!; [done|done| |].
  - by apply (obj_ok_core _ (made st' shape vs None)).
  - rewrite <- V. exact (spec_with_proto st' (made st' shape vs None) (proto_word p)).
Qed.
