(* ===== verification/ObjectMachine.v ===== *)
(** * One operation on an object, and what it means

    [ObjOp] lists the methods the evaluator and the collector call on an object;
    [op_run] runs one as [object.rs] does, and [s_answer]/[s_after] say what it
    answers and leaves on the abstract object. *)

From Stdlib Require Import String.
From S2P Require Import Prelude Prog NanBox Shape ShapeTable ShapeInv Object ObjectAttr ObjectSlots ObjectInv ObjectData ObjectReads ObjectWrites ObjectSlotOps ObjectGrow ObjectOps ObjectViews.
From S2P Require Heap.

#[local] Abbreviation length := Datatypes.length.
Open Scope Z_scope.

(** ** Operations and answers *)

Inductive ObjOp :=
  | Get (k : key) | Accessor (k : key) | ContainsKey (k : key) | HasOwnKey (k : key) | Keys | AllKeys
  | EnumerableKeys | OrderedKeys | HasIndexKey | IsReadonly (k : key) | IsHidden (k : key)
  | IsNonConfigurable (k : key) | NonConfigurableIsEmpty | SlotCount
  | Set_ (k : key) (v : NanBox) | ForceSet (k : key) (v : NanBox) | MaybeConvertToDict (k : key) (threshold : Z)
  | EnsureKeyOrder | DefineAccessor (k : key) (getter setter : NanBox) | ClearAccessor (k : key)
  | Delete (k : key) | DeleteData (k : key) | SetHidden (k : key) | ClearHidden (k : key)
  | SetReadonly (k : key) | ClearReadonly (k : key) | SetNonConfigurable (k : key) | ClearNonConfigurable (k : key)
  | Freeze | Seal | PreventExtensions | Watch | AddJitFlags (bits : Z)
  | SetProto (p : option Heap.Handle) | SetClassTag (id : Z) | RelocateHandles (f : Heap.Handle -> Heap.Handle).

Inductive Answer :=
  | Done | Bool (b : bool) | Count (n : Z) | Value (v : option NanBox) | Pair (a : option (NanBox * NanBox)) | KeyList (l : list key).

Definition answer {A} (c : A -> Answer) (m : method A) : method Answer := x ← m; mret (c x).
Definition done_ (m : method unit) : method Answer := answer (fun _ => Done) m.

(** The method, on an object whose layouts descend from [r]. *)
Definition op_run (r : nat) (op : ObjOp) : method Answer :=
  match op with
  | Get k => answer Value (obj_get k)
  | Accessor k => answer Pair (o ← me; mret (accessor k o))
  | ContainsKey k => answer Bool (contains_key k)
  | HasOwnKey k => answer Bool (has_own_key k)
  | Keys => answer KeyList obj_keys
  | AllKeys => answer KeyList all_keys
  | EnumerableKeys => answer KeyList enumerable_keys
  | OrderedKeys => answer KeyList ordered_keys
  | HasIndexKey => answer Bool has_index_key
  | IsReadonly k => answer Bool (is_readonly k)
  | IsHidden k => answer Bool (is_hidden k)
  | IsNonConfigurable k => answer Bool (is_non_configurable k)
  | NonConfigurableIsEmpty => answer Bool non_configurable_is_empty
  | SlotCount => answer Count (o ← me; mret (slot_count o))
  | Set_ k v => done_ (set k v)
  | ForceSet k v => done_ (force_set k v)
  | MaybeConvertToDict k n => done_ (maybe_convert_to_dict k n)
  | EnsureKeyOrder => done_ ensure_key_order
  | DefineAccessor k g s => done_ (define_accessor k g s)
  | ClearAccessor k => done_ (clear_accessor k)
  | Delete k => answer Bool (delete r k)
  | DeleteData k => done_ (delete_data r k)
  | SetHidden k => done_ (set_hidden k)
  | ClearHidden k => done_ (clear_hidden k)
  | SetReadonly k => done_ (set_readonly k)
  | ClearReadonly k => done_ (clear_readonly k)
  | SetNonConfigurable k => done_ (set_non_configurable k)
  | ClearNonConfigurable k => done_ (clear_non_configurable k)
  | Freeze => done_ freeze
  | Seal => done_ seal
  | PreventExtensions => done_ prevent_extensions
  | Watch => done_ watch
  | AddJitFlags bits => done_ (add_jit_flags bits)
  | SetProto p => done_ (set_proto p)
  | SetClassTag t => done_ (set_class_tag t)
  | RelocateHandles f => done_ (relocate_handles f)
  end.

Definition s_flags (bits : Z) (p : Spec) : Spec := p_with_flags (Z.lor (p_flags p) bits) p.

Definition s_answer (op : ObjOp) (p : Spec) : Answer :=
  match op with
  | Get k => Value (assoc k (p_data p))
  | Accessor k => Pair (p_accessor k p)
  | ContainsKey k => Bool (bool_decide (k ∈ p_keys p))
  | HasOwnKey k | Delete k => Bool (p_has p k)
  | Keys => KeyList (p_keys p)
  | AllKeys => KeyList (s_enum p)
  | EnumerableKeys => KeyList (s_enumerable p)
  | OrderedKeys => KeyList (order_keys (s_enum p))
  | HasIndexKey => Bool (existsb is_index (p_keys p ++ p_names p))
  | IsReadonly k => Bool (bool_decide (k ∈ p_ro p))
  | IsHidden k => Bool (bool_decide (k ∈ p_hid p))
  | IsNonConfigurable k => Bool (bool_decide (k ∈ p_nc p))
  | NonConfigurableIsEmpty => Bool (bool_decide (p_nc p = ∅))
  | SlotCount => Count (Z.of_nat (length (p_data p) + length (p_acc p)))
  | _ => Done
  end.

Definition s_after (op : ObjOp) (p : Spec) : Spec :=
  match op with
  | Set_ k v => s_set k v p
  | ForceSet k v => s_force_set k v p
  | EnsureKeyOrder => s_log_keys p
  | DefineAccessor k g s => s_define_accessor k g s p
  | ClearAccessor k => s_drop_acc k (s_bump p)
  | Delete k => s_delete k p
  | DeleteData k => s_delete_data k p
  | SetHidden k => s_set_hidden k p
  | ClearHidden k => s_clear_hidden k p
  | SetReadonly k => s_set_readonly k p
  | ClearReadonly k => s_remove_mark Readonly k p
  | SetNonConfigurable k => s_set_non_configurable k p
  | ClearNonConfigurable k => s_remove_mark NonConfigurable k p
  | Freeze => s_flags (Z.lor (Z.lor OBJ_FLAG_FROZEN OBJ_FLAG_SEALED) OBJ_FLAG_NON_EXTENSIBLE) p
  | Seal => s_flags (Z.lor OBJ_FLAG_SEALED OBJ_FLAG_NON_EXTENSIBLE) p
  | PreventExtensions => s_flags OBJ_FLAG_NON_EXTENSIBLE p
  | Watch => s_flags JIT_FLAG_WATCHED p
  | AddJitFlags bits => s_flags (Z.land bits JIT_FLAGS_MASK) p
  | SetProto x => p_with_proto (proto_word x) p
  | SetClassTag t => p_with_class t p
  | RelocateHandles f => s_relocate f p
  | _ => p
  end.

(** ** The room an operation takes *)

(** At most [n] entries in every list of marks, and [n] accessors. *)
Definition roomy (n : Z) (p : Spec) : Prop :=
  (forall m, Z.of_nat (size (p_mark m p)) <= n) /\ Z.of_nat (length (p_acc p)) <= n.

Lemma roomy_room n p : n + 1 < 2 ^ 32 - 1 -> roomy n p -> p_room p.
Proof. intros Hn [H1 H2]. split; [intros m; pose proof (H1 m)|]; lia. Qed.

Lemma roomy_mono n n' p : n <= n' -> roomy n p -> roomy n' p.
Proof. intros Hn [H1 H2]. split; [intros m; pose proof (H1 m)|]; lia. Qed.

(** Same marks and as many accessors. *)
Lemma roomy_same n p p' : (forall m, p_mark m p' = p_mark m p) -> (length (p_acc p') <= length (p_acc p))%nat -> roomy n p -> roomy n p'.
Proof. intros Hm Ha [H1 H2]. split; [intros m; rewrite Hm; apply H1|lia]. Qed.

Lemma roomy_track n k p : roomy n p -> roomy n (s_track k p).
Proof.
  apply roomy_same; unfold s_track.
  - intros m. destruct (p_log _); [case_decide|]; by destruct m.
  - destruct (p_log _); [case_decide|]; cbn; lia.
Qed.

Lemma roomy_add_mark n m k p : roomy n p -> roomy (n + 1) (s_add_mark m k p).
Proof.
  intros [H1 H2]. split; [|by destruct m; cbn; lia]. intros m'. pose proof (H1 m').
  assert (size ({[k]} ∪ p_mark m p) <= 1 + size (p_mark m p))%nat by (rewrite size_union_alt, size_singleton; apply le_n_S, subseteq_size; set_solver).
  pose proof (H1 m). destruct m, m'; cbn in *; lia.
Qed.

Lemma roomy_remove_mark n m k p : roomy n p -> roomy n (s_remove_mark m k p).
Proof.
  intros [H1 H2]. split; [|by destruct m]. intros m'. pose proof (H1 m'). assert (size (p_mark m p ∖ {[k]}) <= size (p_mark m p))%nat by (apply subseteq_size; set_solver).
  pose proof (H1 m). destruct m, m'; cbn in *; lia.
Qed.

(** The operations that leave marks and accessors alone. *)
Ltac same_room p := apply (roomy_same _ p); [by intros []|cbn; lia|done].

Lemma roomy_drop_acc n k p : roomy n p -> roomy n (s_drop_acc k p).
Proof. apply roomy_same; [by intros []|]. cbn. apply List.filter_length_le. Qed.

Lemma roomy_log n p : roomy n p -> roomy n (s_log_keys p).
Proof. intros H. unfold s_log_keys. case_match; [done|same_room p]. Qed.

Lemma roomy_accessor n k g st p : roomy n p -> roomy (n + 1) (s_accessor k g st p).
Proof.
  intros [H1 H2]. unfold s_accessor. case_decide; (split; [intros m; pose proof (H1 m); destruct m; cbn in *; lia|cbn]); rewrite ?length_fmap, ?length_app; cbn; lia.
Qed.

Lemma roomy_after n op p : roomy n p -> roomy (n + 1) (s_after op p).
Proof.
  intros H. assert (H' : roomy (n + 1) p) by (eapply roomy_mono; [|exact H]; lia).
  destruct op; cbn [s_after]; try done; try (same_room p).
  - unfold s_set. case_match; [done|]. case_decide; [same_room p|]. case_match; [done|]. apply roomy_track. same_room p.
  - unfold s_force_set. case_decide; [same_room p|]. apply roomy_track. same_room p.
  - by apply roomy_log.
  - by apply roomy_track, roomy_accessor, roomy_log.
  - apply roomy_drop_acc. same_room p.
  - do 2 (eapply roomy_same; [by intros []|cbn; reflexivity|]). do 3 apply roomy_remove_mark. apply roomy_drop_acc. same_room p.
  - unfold s_set_hidden. case_decide; [done|]. apply (roomy_same _ (s_add_mark Hidden k p)); [by intros []|done|by apply roomy_add_mark].
  - unfold s_clear_hidden. apply roomy_remove_mark. case_decide; [same_room p|done].
  - unfold s_set_readonly. case_decide; [done|]. apply roomy_add_mark. same_room p.
  - by apply roomy_remove_mark.
  - unfold s_set_non_configurable. case_decide; [done|]. by apply roomy_add_mark.
  - by apply roomy_remove_mark.
  - apply (roomy_same _ p); [|unfold s_relocate; cbn; case_match; cbn; by rewrite length_fmap|done]. intros m. unfold s_relocate. cbn. case_match; by destruct m.
Qed.

(** ** Each method does what it means *)

Lemma answer_does {A} (c : A -> Answer) (m : method A) s v p : does m s v p -> does (answer c m) s (c v) p.
Proof.
  intros H. apply wp_bind. eapply wp_mono; [exact H|]. intros x s' (H1 & H2 & H3 & ->). by apply wp_ret.
Qed.

Lemma answer_reads {A} (c : A -> Answer) (m : method A) s v : ok s -> reads m s v -> does (answer c m) s (c v) (view s).
Proof. intros Hok H. apply answer_does. eapply goes_mono; [by apply reads_goes|]. intros x s' _ _ _ [E _]; exact E. Qed.


Lemma op_goes n r op s : n + 1 < 2 ^ 32 - 1 -> ok s -> roomy n (view s) -> root_ok (shapes s) r ->
  does (op_run r op) s (s_answer op (view s)) (s_after op (view s)).
Proof.
  intros Hn Hok Hro Hr. pose proof (roomy_room n _ Hn Hro) as Hroom.
  destruct op; cbn [op_run s_answer s_after]; try (apply answer_reads; [done|]); try (apply (answer_does (fun _ => Done) _ s tt)).
  - by apply obj_get_reads.
  - apply reads_me. rewrite accessor_reads by done. by apply reads_ret.
  - by apply contains_key_reads.
  - by apply has_own_key_reads.
  - by apply obj_keys_reads.
  - by apply enum_base_reads.
  - by apply enumerable_keys_reads.
  - by apply ordered_keys_reads.
  - by apply has_index_key_reads.
  - by apply is_readonly_reads.
  - by apply is_hidden_reads.
  - by apply is_non_configurable_reads.
  - by apply non_configurable_is_empty_reads.
  - apply reads_me. rewrite slot_count_view by done. by apply reads_ret.
  - eapply goes_mono; [by apply set_goes|by intros []].
  - by apply force_set_goes.
  - eapply goes_mono; [by apply maybe_convert_to_dict_goes|by intros []].
  - eapply goes_mono; [by apply ensure_key_order_goes|by intros []].
  - apply define_accessor_goes; [done|done|]. destruct Hro. lia.
  - by apply clear_accessor_goes.
  - apply answer_does. by apply delete_goes.
  - by apply delete_data_goes.
  - by apply set_hidden_goes.
  - by apply clear_hidden_goes.
  - by apply set_readonly_goes.
  - by apply clear_mark_goes.
  - by apply set_non_configurable_goes.
  - by apply clear_mark_goes.
  - by apply freeze_goes.
  - by apply core_last_goes.
  - by apply core_last_goes.
  - by apply core_last_goes.
  - by apply add_jit_flags_goes.
  - by apply set_proto_goes.
  - by apply set_class_tag_goes.
  - by apply relocate_handles_goes.
Qed.
