(* ===== verification/ObjectSpec.v ===== *)
(** * Histories of objects: [src/src/object.rs], [src/src/ic.rs]

    A [World] is a heap of ordinary objects that share a store of layouts, the
    process-wide epochs and the inline caches of the sites of a program.  A
    [Step] is what an evaluator does to it: it makes an object, runs a method on
    one, or reads, writes or adds a property through a site's cache.  The
    specification of a world is a list of abstract objects; [run_step] refines
    [s_step]. *)

From Stdlib Require Import String.
From S2P Require Import Prelude Prog NanBox Shape ShapeTable ShapeInv ShapeSpec Ic Object ObjectAttr ObjectSlots ObjectInv ObjectData ObjectReads ObjectWrites ObjectSlotOps ObjectGrow ObjectOps ObjectCache ObjectViews ObjectMachine.
From S2P Require Heap.

#[local] Abbreviation length := Datatypes.length.
Open Scope Z_scope.

(** ** Worlds and their steps *)

Record World := MkWorld {
  objects : list Object; store : Shapes; w_root : nat; w_proto_epoch : Z; w_global_epoch : Z;
  sites : gmap (nat * key) PropertyCache; add_sites : gmap (nat * key) PropertyCache }.

Definition empty_world : World := let (r, st) := root no_shapes in MkWorld [] st r 1 1 ∅ ∅.

(** A method on an object of the heap; [none] where the handle is not one. *)
Definition on_object {A} (none : A) (j : nat) (m : method A) : prog World A := fun w =>
  match objects w !! j with
  | None => Some (none, w)
  | Some o =>
      match m (MkSys o (store w) (w_proto_epoch w) (w_global_epoch w)) with
      | Some (x, s) =>
          Some (x, MkWorld (<[j := self s]> (objects w)) (shapes s) (w_root w) (proto_epoch s) (global_epoch s) (sites w) (add_sites w))
      | None => None
      end
  end.

(** A new object at the end of the heap, from the root layout. *)
Definition make (f : nat -> Shapes -> option Object * Shapes) : prog World Answer := fun w =>
  let (o, st) := f (w_root w) (store w) in
  Some (match o with Some _ => Done | None => Bool false end,
        MkWorld (objects w ++ option_list o) st (w_root w) (w_proto_epoch w) (w_global_epoch w) (sites w) (add_sites w)).

Definition with_site (i : nat) (k : key) (c : PropertyCache) (w : World) : World :=
  MkWorld (objects w) (store w) (w_root w) (w_proto_epoch w) (w_global_epoch w) (<[(i, k) := c]> (sites w)) (add_sites w).
Definition with_add_site (i : nat) (k : key) (c : PropertyCache) (w : World) : World :=
  MkWorld (objects w) (store w) (w_root w) (w_proto_epoch w) (w_global_epoch w) (sites w) (<[(i, k) := c]> (add_sites w)).

Inductive Step :=
  | New
  | Literal (ks : list key) (vs : list NanBox)
  | HiddenLiteral (ks : list key) (vs : list NanBox) (hidden : Z)
  | BuiltinFn (len name : NanBox)
  | Constructor_ (ks : list key) (k : key) (vs : list NanBox) (p : option Heap.Handle)
  | On (j : nat) (op : ObjOp)
  | GetAt (site j : nat) (k : key)
  | SetAt (site j : nat) (k : key) (v : NanBox) (threshold : Z)
  | InitAt (site j : nat) (k : key) (v : NanBox) (threshold : Z).

Definition run_step (x : Step) : prog World Answer :=
  match x with
  | New => make (fun r st => (Some (new_object r), st))
  | Literal ks vs => make (fun r st => let (i, st) := grow_all r ks st in with_data i vs st)
  | HiddenLiteral ks vs n => make (fun r st => let (i, st) := grow_all r ks st in with_data_hidden_prefix i vs n st)
  | BuiltinFn len name => make (fun r st => let (i, st) := builtin_fn_layout r st in builtin_fn_props i len name st)
  | Constructor_ ks k vs p =>
      make (fun r st => let (i, st) := grow_all r ks st in let (i, st) := implied_ctor_layout i k st in with_implied_ctor_attrs i vs p st)
  | On j op => r ← gets w_root; on_object Done j (op_run r op)
  | GetAt i j k =>
      c ← gets (fun w => default new_cache (sites w !! (i, k)));
      rc ← on_object (None, c) j (cached_get k c);
      modify (with_site i k (snd rc));;
      mret (Value (fst rc))
  | SetAt i j k v n =>
      c ← gets (fun w => default new_cache (sites w !! (i, k)));
      rc ← on_object (false, c) j (cached_set k v c);
      modify (with_site i k (snd rc));;
      when (negb (fst rc)) (on_object tt j (maybe_convert_to_dict k n;; set k v));;
      mret Done
  | InitAt i j k v n =>
      c ← gets (fun w => default new_cache (add_sites w !! (i, k)));
      rc ← on_object (false, c) j (init_data_cached k v c n);
      modify (with_add_site i k (snd rc));;
      mret (Bool (fst rc))
  end.

Definition run (h : list Step) : prog World (list Answer) := map_prog run_step h.

(** What a literal asks of its keys: distinct, few, and as many as the values. *)
Definition literal_ok (ks : list key) (vs : list NanBox) : bool :=
  bool_decide (NoDup ks) && (length ks =? length vs)%nat && (Z.of_nat (length ks) <=? MAX_SHAPED_LEN).

Definition step_ok (x : Step) : bool :=
  match x with
  | Literal ks vs => literal_ok ks vs
  | HiddenLiteral ks vs n => literal_ok ks vs && (0 <=? n) && (n <=? Z.of_nat (length vs))
  | Constructor_ ks k vs _ => literal_ok (ks ++ [k]) vs && (length vs <=? 4)%nat
  | _ => true
  end.

(** ** Their specification *)

Definition s_at {A} (none : A) (j : nat) (f : Spec -> A * Spec) (ps : list Spec) : A * list Spec :=
  match ps !! j with
  | None => (none, ps)
  | Some p => (fst (f p), <[j := snd (f p)]> ps)
  end.

Definition s_step (x : Step) (ps : list Spec) : Answer * list Spec :=
  match x with
  | New => (Done, ps ++ [s_made [] false false [] 0])
  | Literal ks vs => (Done, ps ++ [s_made ks false false vs 0])
  | HiddenLiteral ks vs n => (Done, ps ++ [s_made ks false false vs n])
  | BuiltinFn len name => (Done, ps ++ [p_with_flags JIT_FLAG_READONLY (s_made [bytes "length"; bytes "name"] true false [len; name] 0)])
  | Constructor_ ks k vs p => (Done, ps ++ [p_with_proto (proto_word p) (s_made (ks ++ [k]) false true vs 0)])
  | On j op => s_at Done j (fun p => (s_answer op p, s_after op p)) ps
  | GetAt _ j k => s_at (Value None) j (fun p => (Value (assoc k (p_data p)), p)) ps
  | SetAt _ j k v _ => s_at Done j (fun p => (Done, s_set k v p)) ps
  | InitAt _ j k v _ => s_at (Bool false) j (fun p => (Bool (s_plain k p), if s_plain k p then s_set k v p else p)) ps
  end.

Fixpoint s_run (h : list Step) (ps : list Spec) : list Answer * list Spec :=
  match h with
  | [] => ([], ps)
  | x :: h => let (a, ps) := s_step x ps in let (l, ps) := s_run h ps in (a :: l, ps)
  end.

(** ** The invariant *)

Definition is_spec (st : Shapes) (o : Object) (p : Spec) : Prop := obj_ok st o /\ spec_of st o = p.

Record world_ok (n : Z) (w : World) (ps : list Spec) : Prop := {
  wo_wf : wf (store w);
  wo_root : root_ok (store w) (w_root w);
  wo_objs : Forall2 (is_spec (store w)) (objects w) ps;
  wo_room : Forall (roomy n) ps;
  wo_sites : forall i k c, sites w !! (i, k) = Some c -> cache_ok (store w) k c;
  wo_adds : forall i k c, add_sites w !! (i, k) = Some c -> add_cache_ok (store w) k c }.

Lemma empty_world_ok : world_ok 65535 empty_world [].
Proof.
  destruct (root_wf no_shapes no_shapes_wf) as (H1 & _ & H3 & H4). unfold empty_world. destruct (root no_shapes) as [r st] eqn:E.
  assert (r = next_id no_shapes) as -> by (by injection E). split; try done. by exists new_root.
Qed.

Lemma new_cache_ok st k : cache_ok st k new_cache.
Proof. by intros s. Qed.

Lemma site_ok n w ps i k : world_ok n w ps -> cache_ok (store w) k (default new_cache (sites w !! (i, k))).
Proof. intros Hw. destruct (sites w !! (i, k)) eqn:E; [by eapply wo_sites|apply new_cache_ok]. Qed.

Lemma add_site_ok n w ps i k : world_ok n w ps -> add_cache_ok (store w) k (default new_cache (add_sites w !! (i, k))).
Proof. intros Hw. destruct (add_sites w !! (i, k)) eqn:E; [by eapply wo_adds|by intros s]. Qed.

Lemma is_spec_extends st st' os ps : wf st -> extends st st' -> Forall2 (is_spec st) os ps -> Forall2 (is_spec st') os ps.
Proof.
  intros Hw He H. eapply Forall2_impl; [exact H|]. intros o p [Ho Hp]. assert (K : keeps st st' (o_shape o)) by (apply extends_keeps; [done..|apply Ho]).
  split; [by eapply keeps_ok|by rewrite (keeps_spec _ _ _ K)].
Qed.

Lemma world_mono n n' w ps : n <= n' -> world_ok n w ps -> world_ok n' w ps.
Proof.
  intros Hn [H1 H2 H3 H4 H5 H6]. split; try done. eapply Forall_impl; [exact H4|]. intros p. by apply roomy_mono.
Qed.

Lemma with_site_ok n w ps i k c : world_ok n w ps -> cache_ok (store w) k c -> world_ok n (with_site i k c w) ps.
Proof.
  intros [H1 H2 H3 H4 H5 H6] Hc. split; try done. intros i' k' c' Hs. cbn in Hs. destruct (decide ((i, k) = (i', k'))) as [[= <- <-]|Hne].
  - rewrite lookup_insert_eq in Hs. by injection Hs as <-.
  - rewrite lookup_insert_ne in Hs by done. by eapply H5.
Qed.

Lemma with_add_site_ok n w ps i k c : world_ok n w ps -> add_cache_ok (store w) k c -> world_ok n (with_add_site i k c w) ps.
Proof.
  intros [H1 H2 H3 H4 H5 H6] Hc. split; try done. intros i' k' c' Hs. cbn in Hs. destruct (decide ((i, k) = (i', k'))) as [[= <- <-]|Hne].
  - rewrite lookup_insert_eq in Hs. by injection Hs as <-.
  - rewrite lookup_insert_ne in Hs by done. by eapply H6.
Qed.

(** ** Steps on an object *)

(** A world whose object [j] a method turned into [p']. *)
Lemma on_object_wp {A} n n' w ps j p p' (none : A) (m : method A) Q : n <= n' -> world_ok n w ps -> ps !! j = Some p -> roomy n' p' ->
  (forall s, ok s -> shapes s = store w -> objects w !! j = Some (self s) -> view s = p -> goes m s p' Q) ->
  wp (on_object none j m) (fun x w' => world_ok n' w' (<[j := p']> ps) /\ w_root w' = w_root w /\ exists s', Q x s' /\ shapes s' = store w' /\ extends (store w) (store w')) w.
Proof.
  intros Hn [H1 H2 H3 H4 H5 H6] Hj Hr Hm. unfold wp, on_object. destruct (Forall2_lookup_r _ _ _ _ _ H3 Hj) as (o & Ho & Hok & Hp). rewrite Ho.
  specialize (Hm (MkSys o (store w) (w_proto_epoch w) (w_global_epoch w)) (conj H1 Hok) eq_refl Ho Hp). unfold goes, wp in Hm.
  destruct (m _) as [[x s']|]; [|done]. destruct Hm as (Hok' & X & V & HQ). cbn [shapes] in X. split_and!; [|done|by exists s'].
  split; cbn [store w_root objects sites add_sites].
  - apply Hok'.
  - by eapply root_ok_extends.
  - apply Forall2_insert; [by eapply is_spec_extends|]. split; [apply Hok'|done].
  - apply Forall_insert; [|done]. eapply Forall_impl; [exact H4|]. intros q. by apply roomy_mono.
  - intros i k c Hc. eapply cache_ok_extends; [apply H1|done|by eapply H5].
  - intros i k c Hc. eapply add_cache_ok_extends; [done|by eapply H6].
Qed.

Lemma on_object_none {A} w ps n j (none : A) (m : method A) (Q : A -> World -> Prop) : world_ok n w ps -> ps !! j = None -> Q none w -> wp (on_object none j m) Q w.
Proof.
  intros Hw Hj HQ. unfold wp, on_object. assert (objects w !! j = None) as ->; [|done].
  apply lookup_ge_None. rewrite (Forall2_length _ _ _ (wo_objs _ _ _ Hw)). by apply lookup_ge_None.
Qed.

(** ** Steps that make an object *)

Lemma make_wp n w ps f p : world_ok n w ps -> roomy n p ->
  (exists o st', f (w_root w) (store w) = (Some o, st') /\ wf st' /\ extends (store w) st' /\ is_spec st' o p) ->
  wp (make f) (fun x w' => x = Done /\ world_ok n w' (ps ++ [p])) w.
Proof.
  intros [H1 H2 H3 H4 H5 H6] Hr (o & st' & E & W & X & Ho). unfold wp, make. rewrite E. split; [done|].
  split; cbn [store w_root objects sites add_sites option_list].
  - done.
  - exact (root_ok_extends _ _ _ H1 X H2).
  - apply Forall2_app; [exact (is_spec_extends _ _ _ _ H1 X H3)|by apply Forall2_cons].
  - apply Forall_app. split; [done|by apply Forall_singleton].
  - intros i k c Hc. eapply cache_ok_extends; [apply H1|done|by eapply H5].
  - intros i k c Hc. eapply add_cache_ok_extends; [done|by eapply H6].
Qed.

Lemma literal_ok_spec ks vs : literal_ok ks vs = true -> NoDup ks /\ length vs = length ks /\ Z.of_nat (length vs) <= MAX_SHAPED_LEN.
Proof. unfold literal_ok. rewrite !andb_true_iff, bool_decide_eq_true, Nat.eqb_eq, Z.leb_le. intros [[H1 H2] H3]. split_and!; [done|done|lia]. Qed.

(** The layout of a literal. *)
Lemma literal_layout st r ks : wf st -> root_ok st r -> NoDup ks -> Z.of_nat (length ks) <= MAX_SHAPED_LEN ->
  exists i st' x, grow_all r ks st = (i, st') /\ wf st' /\ extends st st' /\ live st' !! i = Some x /\ skeys st' i = ks /\ marked x = false.
Proof.
  intros Hw (x & Hx & Hk & Hm) Hnd Hlen. pose proof (grow_all_spec ks r st x Hw Hx Hm) as H. rewrite Hk in H. specialize (H Hnd Hlen).
  destruct (grow_all r ks st) as [i st']. destruct H as (W & X & [y Hy] & K & M). rewrite (shape_at_live _ _ _ Hy) in M. by exists i, st', y.
Qed.

Lemma marked_no_attrs x : marked x = false -> has_implied_fn_attrs x = false /\ has_implied_ctor_attrs x = false.
Proof. unfold marked. rewrite implied_attrs_or. apply orb_false_iff. Qed.

Lemma roomy_set ks : (size (list_to_set ks : gset key) <= length ks)%nat.
Proof.
  induction ks as [|k ks IH]; [done|]. cbn [list_to_set foldr]. rewrite size_union_alt, size_singleton. simpl. apply le_n_S.
  etrans; [|exact IH]. apply subseteq_size. set_solver.
Qed.

Lemma roomy_made ks fn ctor vs h : Z.of_nat (length ks) <= 65535 -> roomy 65535 (s_made ks fn ctor vs h).
Proof.
  intros Hl. pose proof (roomy_set ks). pose proof (roomy_set (take (Z.to_nat h) ks)). rewrite length_take in *.
  split; [|done]. intros []; cbn; [destruct fn|destruct (_ || _)|destruct (_ && _)]; rewrite ?size_singleton, ?size_empty; lia.
Qed.

Lemma made_wp n w ps x : world_ok n w ps -> 65535 <= n -> step_ok x = true ->
  match x with On _ _ | GetAt _ _ _ | SetAt _ _ _ _ _ | InitAt _ _ _ _ _ => True | _ =>
    wp (run_step x) (fun a w' => a = fst (s_step x ps) /\ world_ok n w' (snd (s_step x ps))) w end.
Proof.
  intros Hw Hn Hx. pose proof (wo_wf _ _ _ Hw) as Hwf. pose proof (wo_root _ _ _ Hw) as Hr. destruct x; cbn [run_step s_step fst snd]; try done.
  - apply make_wp; [done|apply (roomy_mono 65535); [done|by apply roomy_made]|]. eexists _, _. split_and!; [done|done|done|]. by apply new_object_spec.
  - apply literal_ok_spec in Hx as (Hnd & Hlen & Hmax). apply make_wp; [done|apply (roomy_mono 65535); [done|apply roomy_made; rewrite <- Hlen; exact Hmax]|].
    destruct (literal_layout _ _ ks Hwf Hr Hnd ltac:(by rewrite <- Hlen)) as (i & st1 & y & -> & W & X & Hy & Hk & [Hf Hc]%marked_no_attrs).
    destruct (with_data_spec st1 i y vs W Hy ltac:(by rewrite Hk) Hmax) as (o & st2 & -> & W2 & X2 & Ho & V & _). rewrite Hf, Hc, Hk in V.
    exists o, st2. split_and!; [done|done|by etrans|by split].
  - apply andb_true_iff in Hx as [[Hx H0%Z.leb_le]%andb_true_iff H1%Z.leb_le]. apply literal_ok_spec in Hx as (Hnd & Hlen & Hmax).
    apply make_wp; [done|apply (roomy_mono 65535); [done|apply roomy_made; rewrite <- Hlen; exact Hmax]|].
    destruct (literal_layout _ _ ks Hwf Hr Hnd ltac:(by rewrite <- Hlen)) as (i & st1 & y & -> & W & X & Hy & Hk & Hm).
    destruct (with_data_hidden_prefix_spec st1 i y vs hidden W Hy Hm ltac:(by rewrite Hk) Hmax (conj H0 H1)) as (o & st2 & -> & W2 & X2 & Ho & V). rewrite Hk in V.
    exists o, st2. split_and!; [done|done|by etrans|by split].
  - apply make_wp; [done|apply (roomy_mono 65535); [done|]; by apply (roomy_same _ (s_made [bytes "length"; bytes "name"] true false [len; name] 0)); [by intros []|done|apply roomy_made]|].
    destruct Hr as (y & Hy & Hk & Hm). pose proof (builtin_fn_layout_spec _ _ _ Hwf Hy Hk Hm) as H. destruct (builtin_fn_layout _ _) as [i st1].
    destruct H as (W & X & [z Hz] & _ & Hf). rewrite (shape_at_live _ _ _ Hz) in Hf.
    destruct (builtin_fn_props_spec st1 i z len name W Hz Hf) as (o & st2 & -> & W2 & X2 & Ho & V). exists o, st2. split_and!; [done|done|by etrans|by split].
  - apply andb_true_iff in Hx as [Hx H4%Nat.leb_le]. apply literal_ok_spec in Hx as (Hnd & Hlen & Hmax). rewrite length_app in Hlen. cbn in Hlen.
    apply NoDup_app in Hnd as (Hnd & Hdis & _). assert (Hks : Z.of_nat (length ks) <= MAX_SHAPED_LEN) by lia.
    apply make_wp; [done|apply (roomy_mono 65535); [done|]; apply (roomy_same _ (s_made (ks ++ [k]) false true vs 0)); [by intros []|done|apply roomy_made; rewrite length_app; cbn; lia]|].
    destruct (literal_layout _ _ ks Hwf Hr Hnd Hks) as (i & st1 & y & -> & W & X & Hy & Hk & Hm).
    pose proof (implied_ctor_layout_spec st1 i y k W Hy Hm) as H. rewrite Hk in H.
    specialize (H ltac:(intros Hin; exact (Hdis k Hin ltac:(by apply list_elem_of_singleton)))).
    rewrite (slen_skeys _ _ _ (wf_struct _ W) Hy), Hk in H. unfold MAX_SHAPED_LEN in Hks. specialize (H ltac:(lia)). destruct (implied_ctor_layout _ _ _) as [c st2].
    destruct H as (W2 & X2 & [z Hz] & Hkz & Hc). rewrite (shape_at_live _ _ _ Hz) in Hc.
    destruct (with_implied_ctor_attrs_spec st2 c z vs p W2 Hz Hc ltac:(rewrite Hkz, length_app; cbn; lia) H4) as (o & st3 & -> & W3 & X3 & Ho & V). rewrite Hkz in V.
    exists o, st3. split_and!; [done|done|by etrans; [|etrans]|by split].
Qed.

(** ** One step refines its specification *)

Lemma world_insert_same n w ps j p : ps !! j = Some p -> world_ok n w (<[j := p]> ps) -> world_ok n w ps.
Proof. intros Hj. by rewrite list_insert_id. Qed.

Lemma room_at n w ps j p : world_ok n w ps -> ps !! j = Some p -> roomy n p.
Proof. intros Hw Hj. exact (Forall_lookup_1 _ _ _ _ (wo_room _ _ _ Hw) Hj). Qed.

Section Steps.
Context (n : Z) (w : World) (ps : list Spec) (j : nat).
Hypothesis Hw : world_ok n w ps.
Hypothesis Hn : n + 1 < 2 ^ 32 - 1.

Abbreviation refines m a ps' := (wp m (fun x w' => x = a /\ world_ok (n + 1) w' ps') w).

Lemma absent_site i k c : ps !! j = None -> c = default new_cache (sites w !! (i, k)) -> world_ok (n + 1) (with_site i k c w) ps.
Proof using Hw. intros _ ->. apply (world_mono n); [lia|]. apply with_site_ok; [done|by eapply site_ok]. Qed.

Lemma on_refines op : refines (run_step (On j op)) (fst (s_step (On j op) ps)) (snd (s_step (On j op) ps)).
Proof using Hn Hw.
  cbn [run_step s_step]. unfold s_at. apply wp_bind, wp_gets. destruct (ps !! j) as [p|] eqn:Hj; cbn [fst snd].
  - eapply wp_mono; [apply (on_object_wp n (n + 1) w ps j p (s_after op p) Done _ (fun x _ => x = s_answer op p)); [lia|done|done|by apply roomy_after, (room_at n w ps j)|]|].
    + intros s Hok E _ V. rewrite <- V. apply (op_goes n); [done|done|rewrite V; by eapply room_at|]. rewrite E. apply Hw.
    + by intros x w' (H & _ & s' & -> & _).
  - eapply on_object_none; [done|done|]. split; [done|]. by apply (world_mono n); [lia|].
Qed.

Lemma get_refines i k : refines (run_step (GetAt i j k)) (fst (s_step (GetAt i j k) ps)) (snd (s_step (GetAt i j k) ps)).
Proof using Hw.
  cbn [run_step s_step]. unfold s_at. apply wp_bind, wp_gets. set (c := default new_cache _). apply wp_bind. destruct (ps !! j) as [p|] eqn:Hj; cbn [fst snd].
  - eapply wp_mono; [apply (on_object_wp n (n + 1) w ps j p p (None, c) _ (fun rc s' => fst rc = assoc k (p_data p) /\ cache_ok (shapes s') k (snd rc)));
      [lia|done|done|eapply roomy_mono; [|by eapply room_at]; lia|]|].
    + intros s Hok E _ V. rewrite <- V. eapply wp_mono; [apply cached_get_reads; [done|rewrite E; by eapply site_ok]|].
      intros rc s' (R & S & C). destruct (same_sys_ok _ _ Hok S). split_and!; [done|by apply same_sys_extends|done|done|done].
    + intros rc w' (H & _ & s' & (R & C) & E & _). apply wp_bind, wp_modify, wp_ret. rewrite R. split; [done|]. rewrite list_insert_id in * by done.
      apply with_site_ok; [done|by rewrite <- E].
  - eapply on_object_none; [done|done|]. apply wp_bind, wp_modify, wp_ret. split; [done|]. by apply absent_site.
Qed.

Lemma init_refines i k v t : refines (run_step (InitAt i j k v t)) (fst (s_step (InitAt i j k v t) ps)) (snd (s_step (InitAt i j k v t) ps)).
Proof using Hn Hw.
  cbn [run_step s_step]. unfold s_at. apply wp_bind, wp_gets. set (c := default new_cache _). apply wp_bind. destruct (ps !! j) as [p|] eqn:Hj; cbn [fst snd].
  - pose proof (room_at _ _ _ _ _ Hw Hj) as Hr.
    eapply wp_mono; [apply (on_object_wp n (n + 1) w ps j p (if s_plain k p then s_set k v p else p) (false, c) _
      (fun rc s' => fst rc = s_plain k p /\ add_cache_ok (shapes s') k (snd rc)));
      [lia|done|done| |]|].
    + destruct (s_plain k p); [by apply (roomy_after n (Set_ k v))|by apply (roomy_mono n); [lia|]].
    + intros s Hok E _ V. rewrite <- V. apply init_data_cached_goes; [done|rewrite V; by apply (roomy_room n)|rewrite E; by eapply add_site_ok].
    + intros rc w' (H & _ & s' & (R & C) & E & _). apply wp_bind, wp_modify, wp_ret. rewrite R. split; [done|].
      apply with_add_site_ok; [done|by rewrite <- E].
  - eapply on_object_none; [done|done|]. apply wp_bind, wp_modify, wp_ret. split; [done|]. apply (world_mono n); [lia|].
    apply with_add_site_ok; [done|by eapply add_site_ok].
Qed.

Lemma set_refines i k v t : refines (run_step (SetAt i j k v t)) (fst (s_step (SetAt i j k v t) ps)) (snd (s_step (SetAt i j k v t) ps)).
Proof using Hn Hw.
  cbn [run_step s_step]. unfold s_at. apply wp_bind, wp_gets. set (c := default new_cache _). apply wp_bind. destruct (ps !! j) as [p|] eqn:Hj; cbn [fst snd].
  - pose proof (room_at _ _ _ _ _ Hw Hj) as Hr. destruct (Forall2_lookup_r _ _ _ _ _ (wo_objs _ _ _ Hw) Hj) as (o & Ho & _).
    set (b := negb (s_locked k p) && negb (is_dict o) && bool_decide (k ∈ p_keys p)).
    assert (Hset : roomy (n + 1) (s_set k v p)) by (by apply (roomy_after n (Set_ k v))).
    eapply wp_mono; [apply (on_object_wp n (if b then n + 1 else n) w ps j p (if b then s_set k v p else p) (false, c) _
      (fun rc s' => fst rc = b /\ cache_ok (shapes s') k (snd rc))); [destruct b; lia|done|done|by destruct b|]|].
    + intros s Hok E Ho' V. rewrite Ho in Ho'. injection Ho' as ->. assert (b = cached_write k s) as -> by (unfold cached_write; by rewrite V).
      rewrite <- V. apply cached_set_goes; [done|rewrite E; by eapply site_ok].
    + intros rc w1 (H & _ & s' & (R & C) & E & _). apply wp_bind, wp_modify, wp_bind. rewrite R.
      assert (Hw1 : world_ok (if b then n + 1 else n) (with_site i k rc.2 w1) (<[j := if b then s_set k v p else p]> ps)) by (apply with_site_ok; [done|by rewrite <- E]).
      destruct b; cbn [negb when]; [by apply wp_ret, wp_ret|]. rewrite list_insert_id in Hw1 by done.
      eapply wp_mono; [apply (on_object_wp n (n + 1) _ ps j p (s_set k v p) tt _ (fun _ _ => True)); [lia|done|done|done|]|].
      * intros s Hok _ _ V. eapply goes_bind; [apply maybe_convert_to_dict_goes; [done|rewrite V; by apply (roomy_room n)]|].
        intros [] s1 Hok1 _ V1 _. rewrite <- V, <- V1. eapply goes_mono; [apply set_goes; [done|rewrite V1, V; by apply (roomy_room n)]|done].
      * intros [] w2 (Hw2 & _). by apply wp_ret.
  - eapply on_object_none; [done|done|]. apply wp_bind, wp_modify, wp_bind. cbn [fst snd negb when].
    eapply on_object_none; [by apply absent_site|done|]. apply wp_ret. split; [done|by apply absent_site].
Qed.
End Steps.

Lemma step_refines n w ps x : world_ok n w ps -> 65535 <= n -> n + 1 < 2 ^ 32 - 1 -> step_ok x = true ->
  wp (run_step x) (fun a w' => a = fst (s_step x ps) /\ world_ok (n + 1) w' (snd (s_step x ps))) w.
Proof.
  intros Hw H0 Hn Hx. pose proof (made_wp n w ps x Hw H0 Hx) as Hmade.
  assert (Hup : wp (run_step x) (fun a w' => a = fst (s_step x ps) /\ world_ok n w' (snd (s_step x ps))) w ->
    wp (run_step x) (fun a w' => a = fst (s_step x ps) /\ world_ok (n + 1) w' (snd (s_step x ps))) w).
  { intros H. eapply wp_mono; [exact H|]. intros a w' [-> Ho]. split; [done|]. by apply (world_mono n); [lia|]. }
  destruct x; try (by apply Hup); [by apply on_refines|by apply get_refines|by apply set_refines|by apply init_refines].
Qed.

Lemma run_refines h : forall n w ps, world_ok n w ps -> 65535 <= n -> n + Z.of_nat (length h) < 2 ^ 32 - 1 -> forallb step_ok h = true ->
  exists w', run h w = Some (fst (s_run h ps), w') /\ world_ok (n + Z.of_nat (length h)) w' (snd (s_run h ps)).
Proof.
  induction h as [|x h IH]; intros n w ps Hw H0 Hn Hh.
  - exists w. split; [done|]. by rewrite Z.add_0_r.
  - cbn [forallb] in Hh. apply andb_true_iff in Hh as [Hx Hh]. cbn [length] in *.
    destruct (wp_run _ _ _ (step_refines n w ps x Hw H0 ltac:(lia) Hx)) as (a & w1 & E1 & -> & Hw1).
    destruct (IH (n + 1) w1 (snd (s_step x ps)) Hw1 ltac:(lia) ltac:(lia) Hh) as (w2 & E2 & Hw2).
    exists w2. cbn [s_run run map_prog]. destruct (s_step x ps) as [a ps1]. cbn [fst snd] in *. destruct (s_run h ps1) as [l ps2]. cbn [fst snd] in *.
    split; [|by replace (n + Z.of_nat (S (length h))) with (n + 1 + Z.of_nat (length h)) by lia].
    unfold mbind, prog_bind. rewrite E1. unfold run in E2. by rewrite E2.
Qed.
