(* ===== verification/ObjectHistory.v ===== *)
(** * What every history of objects keeps

    The refinement of [ObjectSpec] says what an object is after a history; here
    is what the abstract machine keeps: the keys are listed once each, the log of
    creation misses none of them, and the key epoch moves whenever the enumeration
    does.  The theorems state these of the methods themselves. *)

From Stdlib Require Import String.
From S2P Require Import Prelude Prog NanBox Shape ShapeTable ShapeInv ShapeSpec Ic Object ObjectAttr ObjectSlots ObjectInv ObjectData ObjectReads ObjectWrites ObjectSlotOps ObjectGrow ObjectOps ObjectCache ObjectViews ObjectMachine ObjectSpec.
From S2P Require Heap HeapSpec.

#[local] Abbreviation length := Datatypes.length.
Open Scope Z_scope.

(** The state of a method called on an object of a world. *)
Definition sys_of (w : World) (o : Object) : Sys := MkSys o (store w) (w_proto_epoch w) (w_global_epoch w).

(** ** The log of creation *)

(** Keys once each, a log that misses none of them and is there when there are
    accessors, and an epoch that is a word. *)
Record logged (p : Spec) : Prop := {
  lg_keys : NoDup (p_keys p);
  lg_names : NoDup (p_names p);
  lg_log : match p_log p with
           | None => p_acc p = []
           | Some order => NoDup order /\ forall k, p_has p k = true -> k ∈ order
           end;
  lg_epoch : 0 <= p_epoch p < 2 ^ 32 }.

Lemma p_has_iff p k : p_has p k = true <-> k ∈ p_keys p \/ k ∈ p_names p.
Proof. unfold p_has. by rewrite orb_true_iff, !bool_decide_eq_true. Qed.

(** A step that keeps the names and may drop keys, accessors and log entries. *)
Lemma logged_same p p' : p_keys p' = p_keys p -> p_names p' = p_names p -> p_log p' = p_log p -> 0 <= p_epoch p' < 2 ^ 32 -> logged p -> logged p'.
Proof.
  intros Hk Hn Hl He [H1 H2 H3 H4]. split; rewrite ?Hk, ?Hn; try done. rewrite Hl. destruct (p_log p).
  - destruct H3 as [H3 H5]. split; [done|]. intros k Hh. apply H5, p_has_iff. by rewrite <- Hk, <- Hn, <- p_has_iff.
  - unfold p_names in Hn. rewrite H3 in Hn. by apply fmap_nil_inv in Hn.
Qed.

Lemma logged_bump p : logged p -> logged (s_bump p).
Proof. apply logged_same; try done. apply as_u32_range. Qed.

(** The end of an addition: the log may miss the new key. *)
Lemma logged_track k p : NoDup (p_keys p) -> NoDup (p_names p) ->
  match p_log p with None => p_acc p = [] | Some order => NoDup order /\ forall k', p_has p k' = true -> k' = k \/ k' ∈ order end -> logged (s_track k p).
Proof.
  intros H1 H2 H3. unfold s_track. change (p_log (s_bump p)) with (p_log p). pose proof (as_u32_range (p_epoch p + 1)).
  destruct (p_log p) as [order|] eqn:El; [|split; try done; cbn; by rewrite El]. destruct H3 as [H3 H4]. case_decide as Hd.
  - split; try done. cbn. rewrite El. split; [done|]. intros k' Hk'. by destruct (H4 k' Hk') as [->|].
  - split; try done. cbn. split; [apply NoDup_app; split_and!; [done|intros x Hx ->%list_elem_of_singleton; done|apply NoDup_singleton]|].
    intros k' Hk'. rewrite elem_of_app, list_elem_of_singleton. destruct (H4 k' Hk'); tauto.
Qed.

Lemma filter_out_elem (k k' : key) l : k' ∈ List.filter (fun x => negb (bool_decide (x = k))) l <-> k' ∈ l /\ k' <> k.
Proof. by rewrite !list_elem_of_In, List.filter_In, negb_true_iff, bool_decide_eq_false. Qed.

Lemma filter_out_NoDup (k : key) l : NoDup l -> NoDup (List.filter (fun x => negb (bool_decide (x = k))) l).
Proof. intros H. apply NoDup_ListNoDup, List.NoDup_filter, NoDup_ListNoDup, H. Qed.

Lemma drop_acc_names k p : p_names (s_drop_acc k p) = List.filter (fun x => negb (bool_decide (x = k))) (p_names p).
Proof.
  unfold p_names. cbn. induction (p_acc p) as [|a l IH]; csimpl; [done|]. case_bool_decide; csimpl; [done|by rewrite IH].
Qed.

Lemma drop_data_keys k p : p_keys (s_drop_data k p) = List.filter (fun x => negb (bool_decide (x = k))) (p_keys p).
Proof. apply assoc_del_keys. Qed.

Lemma logged_drop_acc k p : logged p -> logged (s_drop_acc k p).
Proof.
  intros [H1 H2 H3 H4]. split; try done; [rewrite drop_acc_names; by apply filter_out_NoDup|]. cbn. destruct (p_log p); [|by rewrite H3].
  destruct H3 as [H3 H5]. split; [done|]. intros k' [Hk|Hk]%p_has_iff; apply H5, p_has_iff; [by left|]. rewrite drop_acc_names in Hk. apply filter_out_elem in Hk. tauto.
Qed.

Lemma logged_drop_data k p : logged p -> logged (s_drop_data k p).
Proof.
  intros [H1 H2 H3 H4]. split; try done; [rewrite drop_data_keys; by apply filter_out_NoDup|]. cbn. destruct (p_log p); [|done].
  destruct H3 as [H3 H5]. split; [done|]. intros k' [Hk|Hk]%p_has_iff; apply H5, p_has_iff; [|by right]. rewrite drop_data_keys in Hk. apply filter_out_elem in Hk. tauto.
Qed.

(** Dropping a key that is gone from the log. *)
Lemma logged_drop_log k p : k ∉ p_keys p -> k ∉ p_names p -> logged p -> logged (s_drop_log k p).
Proof.
  intros Hk Hn [H1 H2 H3 H4]. split; try done. cbn. destruct (p_log p); [|done]. destruct H3 as [H3 H5]. split; [by apply filter_out_NoDup|].
  intros k' Hh. apply filter_out_elem. split; [by apply H5|]. intros ->. by apply p_has_iff in Hh as [?|?].
Qed.

Lemma logged_log p : logged p -> logged (s_log_keys p).
Proof.
  intros [H1 H2 H3 H4]. unfold s_log_keys. destruct (p_log p) eqn:El; [by split; rewrite ?El|]. split; try done. cbn. split; [done|].
  intros k [Hk|Hk]%p_has_iff; [done|]. unfold p_names in Hk. cbn in Hk. rewrite H3 in Hk. by apply not_elem_of_nil in Hk.
Qed.

Lemma accessor_names k g st p : p_names (s_accessor k g st p) = if decide (k ∈ p_names p) then p_names p else p_names p ++ [k].
Proof.
  unfold s_accessor. case_decide as Hd.
  - unfold p_names. cbn. rewrite <- list_fmap_compose. apply list_fmap_ext. intros i a _. cbn. case_decide; by subst.
  - unfold p_names. cbn. by rewrite fmap_app.
Qed.

Lemma s_write_keys k v p : p_keys (s_write k v p) = p_keys p.
Proof. apply assoc_set_keys. Qed.

Lemma logged_write k v p : logged p -> logged (s_write k v p).
Proof. intros H. apply (logged_same p); [apply s_write_keys|done|done|apply H|done]. Qed.

Lemma logged_add k v p : logged p -> k ∉ p_keys p -> logged (s_track k (s_add k v p)).
Proof.
  intros [H1 H2 H3 H4] Hk. assert (Hks : p_keys (s_add k v p) = p_keys p ++ [k]) by (unfold p_keys; cbn; by rewrite fmap_app).
  apply logged_track; [|done|].
  - rewrite Hks. apply NoDup_app. split_and!; [done|intros x Hx ->%list_elem_of_singleton; done|apply NoDup_singleton].
  - cbn. destruct (p_log p); [|done]. destruct H3 as [H3 H5]. split; [done|]. intros k' Hh. apply p_has_iff in Hh. rewrite Hks, elem_of_app, list_elem_of_singleton in Hh.
    destruct Hh as [[Hh|Hh]|Hh]; [right; apply H5, p_has_iff; by left|by left|right; apply H5, p_has_iff; by right].
Qed.

Lemma logged_set k v p : logged p -> logged (s_set k v p).
Proof.
  intros H. unfold s_set. case_match; [done|]. case_decide; [by apply logged_write|]. case_match; [done|by apply logged_add].
Qed.

Lemma logged_accessor k g st p : logged p -> p_log p <> None -> logged (s_track k (s_accessor k g st p)).
Proof.
  intros [H1 H2 H3 H4] Hl. apply logged_track.
  - unfold s_accessor. by case_decide.
  - rewrite accessor_names. case_decide; [done|]. apply NoDup_app. split_and!; [done|intros x Hx ->%list_elem_of_singleton; done|apply NoDup_singleton].
  - assert (p_log (s_accessor k g st p) = p_log p) as -> by (unfold s_accessor; by case_decide). destruct (p_log p); [|done].
    destruct H3 as [H3 H5]. split; [done|]. intros k' Hh. apply p_has_iff in Hh. rewrite accessor_names in Hh.
    destruct Hh as [Hh|Hh]; [right; apply H5, p_has_iff; left; unfold s_accessor in Hh; by case_decide|].
    case_decide; [right; apply H5, p_has_iff; by right|]. rewrite elem_of_app, list_elem_of_singleton in Hh. destruct Hh; [right; apply H5, p_has_iff; by right|by left].
Qed.

Lemma logged_define k g st p : logged p -> logged (s_define_accessor k g st p).
Proof. intros H. apply logged_accessor; [by apply logged_log|]. unfold s_log_keys. destruct (p_log p) eqn:E; [by rewrite E|done]. Qed.

Lemma logged_unmark m k p : logged p -> logged (s_remove_mark m k p).
Proof. intros H. apply (logged_same p); try by destruct m. destruct m; apply H. Qed.

Lemma logged_delete k p : logged p -> logged (s_delete k p).
Proof.
  intros H. unfold s_delete.
  set (q := s_remove_mark NonConfigurable k _). assert (Hq : logged q).
  { apply (logged_same (s_drop_acc k (s_bump p))); try done; [apply as_u32_range|]. by apply logged_drop_acc, logged_bump. }
  change (s_drop_data k (s_drop_log k q)) with (s_drop_log k (s_drop_data k q)). apply logged_drop_log; [| |by apply logged_drop_data].
  - rewrite drop_data_keys, filter_out_elem. tauto.
  - change (p_names (s_drop_data k q)) with (p_names (s_drop_acc k (s_bump p))). rewrite drop_acc_names, filter_out_elem. tauto.
Qed.

(** A step that touches neither keys nor the log. *)
Ltac same_log p := by apply (logged_same p); [..|apply as_u32_range || (match goal with H : logged p |- _ => apply H end)|].

Lemma logged_after op p : logged p -> logged (s_after op p).
Proof.
  intros H. destruct op; cbn [s_after]; try done; try (same_log p).
  - by apply logged_set.
  - unfold s_force_set. case_decide; [by apply logged_write|by apply logged_add].
  - by apply logged_log.
  - by apply logged_define.
  - by apply logged_drop_acc, logged_bump.
  - by apply logged_delete.
  - by apply logged_drop_data, logged_bump.
  - unfold s_set_hidden. case_decide; [done|same_log p].
  - unfold s_clear_hidden. case_decide; same_log p.
  - unfold s_set_readonly. case_decide; [done|same_log p].
  - unfold s_set_non_configurable. case_decide; [done|same_log p].
  - assert (Hk : forall q, p_keys (s_relocate f q) = p_keys q /\ p_names (s_relocate f q) = p_names q /\ p_log (s_relocate f q) = p_log q /\ p_epoch (s_relocate f q) = p_epoch q).
    { intros q. unfold s_relocate, p_keys, p_names. cbn. case_match; cbn; rewrite <- !list_fmap_compose; done. }
    destruct (Hk p) as (K1 & K2 & K3 & K4). apply (logged_same p); try done. rewrite K4. apply H.
Qed.

(** ** The enumeration *)

Lemma heal_id order result ks : (forall k, k ∈ ks -> k ∈ order) -> s_heal order result ks = result.
Proof.
  induction ks as [|k ks IH]; intros H; cbn [s_heal]; [done|]. rewrite bool_decide_false; [apply IH; intros k' Hk'; apply H; by right|].
  intros [Hk _]. apply Hk, H. by left.
Qed.

(** A log that misses nothing needs no healing. *)
Lemma enum_log p : logged p -> s_enum p = match p_log p with None => p_keys p | Some order => List.filter (p_has p) order end.
Proof.
  intros [H1 H2 H3 H4]. unfold s_enum. destruct (p_log p) as [order|]; [|unfold p_names; rewrite H3; apply app_nil_r]. destruct H3 as [_ H3]. apply heal_id.
  intros k [Hk|Hk]%elem_of_app; apply H3, p_has_iff; [by left|right]. by apply list_elem_of_In, List.filter_In in Hk as [Hk%list_elem_of_In _].
Qed.

Lemma enum_spec p : logged p -> NoDup (s_enum p) /\ forall k, k ∈ s_enum p <-> p_has p k = true.
Proof.
  intros H. rewrite enum_log by done. destruct H as [H1 H2 H3 H4]. destruct (p_log p) as [order|].
  - destruct H3 as [H3 H5]. split; [by apply NoDup_ListNoDup, List.NoDup_filter, NoDup_ListNoDup|].
    intros k. rewrite list_elem_of_In, List.filter_In, <- list_elem_of_In. split; [tauto|]. intros Hk. split; [by apply H5|done].
  - split; [done|]. intros k. rewrite p_has_iff. unfold p_names. rewrite H3. cbn. rewrite elem_of_nil. tauto.
Qed.

Lemma order_keys_perm l : order_keys l ≡ₚ l.
Proof.
  unfold order_keys. rewrite merge_sort_Permutation. induction l as [|k l IH]; cbn; [done|]. destruct (is_index k); cbn; [by constructor|].
  rewrite <- Permutation_middle. by constructor.
Qed.

Lemma enumerable_spec p : logged p -> NoDup (s_enumerable p) /\ forall k, k ∈ s_enumerable p <-> p_has p k = true /\ k ∉ p_hid p.
Proof.
  intros H. destruct (enum_spec p H) as [H1 H2]. unfold s_enumerable. rewrite order_keys_perm. split; [by apply NoDup_ListNoDup, List.NoDup_filter, NoDup_ListNoDup|].
  intros k. by rewrite order_keys_perm, list_elem_of_In, List.filter_In, <- list_elem_of_In, H2, negb_true_iff, bool_decide_eq_false.
Qed.

(** ** The abstract machine *)

Lemma logged_made ks fn ctor vs h : NoDup ks -> length vs = length ks -> Z.of_nat (length vs) <= MAX_SHAPED_LEN -> logged (s_made ks fn ctor vs h).
Proof.
  intros Hnd Hl Hm. unfold MAX_SHAPED_LEN in Hm. split; try done; [unfold p_keys; cbn; by rewrite zip_keys|apply NoDup_nil_2|cbn; lia].
Qed.

Lemma logged_step x ps : step_ok x = true -> Forall logged ps -> Forall logged (snd (s_step x ps)).
Proof.
  intros Hx H. assert (Hat : forall {A} (none : A) j f, (forall p, logged p -> logged (snd (f p))) -> Forall logged (snd (s_at none j f ps))).
  { intros A none j f Hf. unfold s_at. destruct (ps !! j) as [p|] eqn:E; [|done]. apply Forall_insert; [done|]. apply Hf. exact (Forall_lookup_1 _ _ _ _ H E). }
  destruct x; cbn [s_step snd].
  - apply Forall_app. split; [done|]. apply Forall_singleton. by apply logged_made; [apply NoDup_nil_2|..].
  - apply literal_ok_spec in Hx as (? & ? & ?). apply Forall_app. split; [done|]. apply Forall_singleton. by apply logged_made.
  - apply andb_true_iff in Hx as [[Hx _]%andb_true_iff _]. apply literal_ok_spec in Hx as (? & ? & ?). apply Forall_app. split; [done|]. apply Forall_singleton. by apply logged_made.
  - apply Forall_app. split; [done|]. apply Forall_singleton. apply (logged_same (s_made [bytes "length"; bytes "name"] true false [len; name] 0)); try done.
    apply logged_made; try done. by apply (bool_decide_unpack (NoDup [bytes "length"; bytes "name"])).
  - apply andb_true_iff in Hx as [Hx _]. apply literal_ok_spec in Hx as (? & ? & Hmax). apply Forall_app. split; [done|]. apply Forall_singleton.
    apply (logged_same (s_made (ks ++ [k]) false true vs 0)); try done; [cbn; unfold MAX_SHAPED_LEN in Hmax; lia|]. by apply logged_made.
  - apply Hat. intros q Hq. by apply logged_after.
  - by apply Hat.
  - apply Hat. intros q Hq. by apply logged_set.
  - apply Hat. intros q Hq. cbn. destruct (s_plain k q); [by apply logged_set|done].
Qed.

Lemma logged_run h : forall ps, forallb step_ok h = true -> Forall logged ps -> Forall logged (snd (s_run h ps)).
Proof.
  induction h as [|x h IH]; intros ps Hh H; cbn [s_run snd]; [done|]. cbn [forallb] in Hh. apply andb_true_iff in Hh as [Hx Hh].
  pose proof (logged_step x ps Hx H). destruct (s_step x ps) as [a ps1]. specialize (IH ps1 Hh H0). by destruct (s_run h ps1).
Qed.

(** ** The key epoch *)

(** Either the epoch moved, or nothing an enumeration looks at did. *)
Definition epoch_moves (p p' : Spec) : Prop :=
  p_epoch p' = as_u32 (p_epoch p + 1) \/ p_epoch p' = p_epoch p /\ s_enum p' = s_enum p /\ p_hid p' = p_hid p.

Lemma epoch_still p p' : p_epoch p' = p_epoch p -> p_keys p' = p_keys p -> p_names p' = p_names p -> p_log p' = p_log p -> p_hid p' = p_hid p -> epoch_moves p p'.
Proof.
  intros H1 H2 H3 H4 H5. right. split_and!; [done| |done]. unfold s_enum. rewrite H2, H3, H4. destruct (p_log p); [|done]. f_equal.
  apply List.filter_ext. intros k. unfold p_has. by rewrite H2, H3.
Qed.

Lemma epoch_set k v p : epoch_moves p (s_set k v p).
Proof.
  unfold s_set. case_match; [by apply epoch_still|]. case_decide; [by apply epoch_still; try done; apply s_write_keys|].
  case_match; [by apply epoch_still|]. left. unfold s_track. case_match; [case_decide|]; done.
Qed.

Lemma track_epoch k p : p_epoch (s_track k p) = as_u32 (p_epoch p + 1).
Proof. unfold s_track. case_match; [case_decide|]; done. Qed.

Lemma accessor_epoch k g st p : p_epoch (s_accessor k g st p) = p_epoch p.
Proof. unfold s_accessor. by case_decide. Qed.

Lemma log_keys_epoch p : p_epoch (s_log_keys p) = p_epoch p.
Proof. unfold s_log_keys. by case_match. Qed.

(** Starting the log changes no enumeration. *)
Lemma enum_log_keys p : logged p -> s_enum (s_log_keys p) = s_enum p.
Proof.
  intros H. rewrite !enum_log by (try apply logged_log; done). unfold s_log_keys. destruct (p_log p) eqn:E; [by rewrite ?E|]. cbn. rewrite ?E.
  assert (F : forall l, (forall k, k ∈ l -> k ∈ p_keys p) -> List.filter (p_has (p_with_log (Some (p_keys p)) p)) l = l).
  { induction l as [|k l IH]; intros Hl; cbn; [done|]. rewrite (proj2 (p_has_iff _ k)); [|left; by apply Hl; left]. f_equal. apply IH. intros k' Hk. apply Hl. by right. }
  by apply F.
Qed.

Lemma epoch_log p : logged p -> epoch_moves p (s_log_keys p).
Proof. intros H. right. split_and!; [apply log_keys_epoch|by apply enum_log_keys|unfold s_log_keys; by case_match]. Qed.

Lemma epoch_after op p : logged p -> epoch_moves p (s_after op p).
Proof.
  intros H. destruct op; cbn [s_after]; try (by apply epoch_still); try (by left).
  - apply epoch_set.
  - unfold s_force_set. case_decide; [by apply epoch_still; try done; apply s_write_keys|]. left. by rewrite track_epoch.
  - by apply epoch_log.
  - left. unfold s_define_accessor. by rewrite track_epoch, accessor_epoch, log_keys_epoch.
  - unfold s_set_hidden. case_decide; [by apply epoch_still|by left].
  - unfold s_clear_hidden. case_decide; [by left|]. apply epoch_still; try done. cbn. set_solver.
  - unfold s_set_readonly. case_decide; by apply epoch_still.
  - unfold s_set_non_configurable. case_decide; by apply epoch_still.
  - apply epoch_still; unfold s_relocate, p_keys, p_names; cbn; case_match; cbn; rewrite <- ?list_fmap_compose; done.
Qed.

(** Steps that move the epoch fewer than [2 ^ 32] times cannot bring it back. *)
Definition moved_by (b : Z) (p p' : Spec) : Prop :=
  if b =? 0 then p_epoch p' = p_epoch p /\ s_enum p' = s_enum p /\ p_hid p' = p_hid p else p_epoch p' = as_u32 (p_epoch p + b).

Lemma moved_then a p p' p'' : 0 <= a -> moved_by a p p' -> epoch_moves p' p'' -> exists b, (b = a \/ b = a + 1) /\ moved_by b p p''.
Proof.
  intros Ha H [E|(E1 & E2 & E3)]; unfold moved_by in *.
  - exists (a + 1). split; [by right|]. rewrite (proj2 (Z.eqb_neq (a + 1) 0)) by lia. rewrite E.
    destruct (Z.eqb_spec a 0) as [->|]; [by destruct H as [-> _]|]. rewrite H. unfold as_u32, wrap_u. rewrite Z.add_mod_idemp_l by lia. f_equal. lia.
  - exists a. split; [by left|]. destruct (a =? 0); [destruct H as (? & ? & ?); split_and!; congruence|congruence].
Qed.

Lemma moved_back b p p' : 0 <= b < 2 ^ 32 -> 0 <= p_epoch p < 2 ^ 32 -> moved_by b p p' -> p_epoch p' = p_epoch p -> s_enum p' = s_enum p /\ p_hid p' = p_hid p.
Proof.
  intros Hb Hp H E. unfold moved_by in H. destruct (Z.eqb_spec b 0); [by destruct H as (_ & ? & ?)|]. rewrite E in H. unfold as_u32, wrap_u in H.
  exfalso. destruct (Z_lt_ge_dec (p_epoch p + b) (2 ^ 32)).
  - rewrite Z.mod_small in H by lia. lia.
  - replace (p_epoch p + b) with (p_epoch p + b - 2 ^ 32 + 1 * 2 ^ 32) in H by lia. rewrite Z.mod_add, Z.mod_small in H by lia. lia.
Qed.

Lemma step_epoch x ps j p : Forall logged ps -> ps !! j = Some p -> exists p', snd (s_step x ps) !! j = Some p' /\ epoch_moves p p'.
Proof.
  intros H Hj. assert (Hstay : epoch_moves p p) by (by apply epoch_still).
  assert (Happ : forall q, exists p', (ps ++ [q]) !! j = Some p' /\ epoch_moves p p').
  { intros q. exists p. split; [by apply lookup_app_l_Some|done]. }
  assert (Hat : forall {A} (none : A) j' f, (forall q, logged q -> epoch_moves q (snd (f q))) -> exists p', snd (s_at none j' f ps) !! j = Some p' /\ epoch_moves p p').
  { intros A none j' f Hf. unfold s_at. destruct (ps !! j') as [q|] eqn:E; [|by exists p]. cbn [snd]. destruct (decide (j' = j)) as [->|Hne].
    - rewrite Hj in E. injection E as ->. eexists. split; [apply list_lookup_insert_eq; by eapply lookup_lt_Some|]. apply Hf. exact (Forall_lookup_1 _ _ _ _ H Hj).
    - exists p. by rewrite list_lookup_insert_ne. }
  destruct x; cbn [s_step snd]; try apply Happ; apply Hat; intros q Hq; cbn [snd].
  - by apply epoch_after.
  - by apply epoch_still.
  - apply epoch_set.
  - destruct (s_plain k q); [apply epoch_set|by apply epoch_still].
Qed.

Lemma run_epoch h : forall ps j p, forallb step_ok h = true -> Forall logged ps -> ps !! j = Some p -> forall a p0, 0 <= a -> moved_by a p0 p ->
  exists p' b, snd (s_run h ps) !! j = Some p' /\ a <= b <= a + Z.of_nat (length h) /\ moved_by b p0 p'.
Proof.
  induction h as [|x h IH]; intros ps j p Hh H Hj a p0 Ha Hm; [exists p, a; split_and!; try done; cbn; lia|].
  cbn [forallb] in Hh. apply andb_true_iff in Hh as [Hx Hh]. destruct (step_epoch x ps j p H Hj) as (p1 & Hj1 & E1).
  destruct (moved_then a p0 p p1 Ha Hm E1) as (b & Hb & Hm1). pose proof (logged_step x ps Hx H) as H1. cbn [s_run length].
  destruct (s_step x ps) as [an ps1]. cbn [snd] in *. destruct (IH ps1 j p1 Hh H1 Hj1 b p0 ltac:(lia) Hm1) as (p' & c & Hj' & Hc & Hm').
  exists p', c. destruct (s_run h ps1). split_and!; [done|lia..|done].
Qed.

(** ** A data property made an accessor *)

(** What [defineProperty] does to an ordinary object: the log is started before
    the slot goes. *)
Definition s_to_accessor (k : key) (g st : NanBox) (p : Spec) : Spec :=
  s_define_accessor k g st (s_remove_mark Readonly k (s_delete_data k (s_drop_acc k (s_bump (s_log_keys p))))).

Lemma to_accessor_eq k g st p :
  s_after (DefineAccessor k g st) (s_after (ClearReadonly k) (s_after (DeleteData k) (s_after (ClearAccessor k) (s_after EnsureKeyOrder p)))) = s_to_accessor k g st p.
Proof.
  assert (E1 : forall q, s_after (DefineAccessor k g st) q = s_define_accessor k g st q) by done.
  assert (E2 : forall q, s_after (ClearReadonly k) q = s_remove_mark Readonly k q) by done.
  assert (E3 : forall q, s_after (DeleteData k) q = s_delete_data k q) by done.
  assert (E4 : forall q, s_after (ClearAccessor k) q = s_drop_acc k (s_bump q)) by done.
  assert (E5 : forall q, s_after EnsureKeyOrder q = s_log_keys q) by done.
  unfold s_to_accessor. rewrite E1, E2, E3, E4, E5. reflexivity.
Qed.

Lemma to_accessor_logged k g st p : logged p -> logged (s_to_accessor k g st p).
Proof.
  intros H. unfold s_to_accessor. apply logged_define, logged_unmark, logged_drop_data, logged_bump, logged_drop_acc, logged_bump, logged_log, H.
Qed.

Lemma to_accessor_spec k g st p : logged p -> p_has p k = true ->
  s_enum (s_to_accessor k g st p) = s_enum p /\ p_accessor k (s_to_accessor k g st p) = Some (g, st) /\ assoc k (p_data (s_to_accessor k g st p)) = None.
Proof.
  intros H Hk. pose proof (logged_log p H) as HL. pose proof (to_accessor_logged k g st p H) as HQ. rewrite <- (enum_log_keys p H), !enum_log by done.
  assert (exists order, p_log (s_log_keys p) = Some order) as [order Ho] by (unfold s_log_keys; destruct (p_log p) eqn:E; [by rewrite E; eexists|by eexists]).
  assert (Hkeys : p_keys (s_log_keys p) = p_keys p /\ p_names (s_log_keys p) = p_names p) by (unfold s_log_keys; by case_match). destruct Hkeys as [Kk Kn].
  assert (Hin : k ∈ order). { pose proof (lg_log _ HL) as Hg. rewrite Ho in Hg. apply Hg. apply p_has_iff. rewrite Kk, Kn. by apply p_has_iff. }
  set (p3 := s_remove_mark Readonly k (s_delete_data k (s_drop_acc k (s_bump (s_log_keys p))))) in *.
  assert (H3 : p_log p3 = Some order) by done. assert (Hn3 : p_names p3 = List.filter (fun x => negb (bool_decide (x = k))) (p_names p)).
  { change (p_names p3) with (p_names (s_drop_acc k (s_bump (s_log_keys p)))). rewrite drop_acc_names. by rewrite <- Kn. }
  assert (Hk3 : p_keys p3 = List.filter (fun x => negb (bool_decide (x = k))) (p_keys p)).
  { change (p_keys p3) with (p_keys (s_drop_data k (s_log_keys p))). by rewrite drop_data_keys, Kk. }
  assert (Hnot : k ∉ p_names p3) by (rewrite Hn3, filter_out_elem; tauto).
  assert (Hq : s_to_accessor k g st p = s_bump (p_with_acc (p_acc p3 ++ [(k, g, st)]) p3)).
  { unfold s_to_accessor. fold p3. unfold s_define_accessor, s_log_keys. rewrite H3. unfold s_accessor. rewrite decide_False by done. unfold s_track. cbn [s_bump p_with_epoch p_with_acc p_log]. rewrite H3. by rewrite decide_True. }
  rewrite Hq in *. cbn [s_bump p_with_epoch p_with_acc p_log]. rewrite H3, Ho. split_and!.
  - apply List.filter_ext. intros k'. apply eq_bool_prop_intro. rewrite !Is_true_true, !p_has_iff. rewrite Kk, Kn.
    change (p_keys (s_bump _)) with (p_keys p3). assert (p_names (s_bump (p_with_acc (p_acc p3 ++ [(k, g, st)]) p3)) = p_names p3 ++ [k]) as -> by (unfold p_names; cbn [s_bump p_with_epoch p_with_acc p_acc]; by rewrite fmap_app).
    rewrite elem_of_app, list_elem_of_singleton, Hk3, Hn3, !filter_out_elem.
    apply p_has_iff in Hk. destruct (decide (k' = k)) as [->|]; tauto.
  - unfold p_accessor. cbn [s_bump p_with_epoch p_with_acc p_acc]. rewrite fmap_app, assoc_app. rewrite (proj2 (assoc_None k _)); [cbn; by rewrite decide_True|].
    by rewrite acc_pair_keys.
  - cbn [s_bump p_with_epoch p_with_acc p_data]. apply assoc_None. fold (p_keys p3). rewrite Hk3, filter_out_elem. tauto.
Qed.

(** ** Moving what an object holds *)

(** A handle that a box can carry. *)
Definition boxable (h : Heap.Handle) : Prop := Z.of_nat (Heap.index h) < 2 ^ 32 /\ in_u 16 (Heap.generation h).

Lemma handle_of_forward f v : (forall h, h ∈ handle_of v -> boxable (f h)) -> handle_of (forward_value f v) = f <$> handle_of v.
Proof.
  unfold handle_of, forward_value. destruct (as_handle v) as [raw|] eqn:E; cbn; [|by rewrite E]. intros H.
  destruct (H (Heap.from_raw raw) ltac:(by left)) as [H1 H2]. destruct (HeapSpec.handle_boxing_roundtrip (f (Heap.from_raw raw)) H1 H2) as [-> R]. cbn. by rewrite R.
Qed.

Lemma boxable_not_no_proto h : boxable h -> (Heap.to_raw h =? NO_PROTO) = false.
Proof.
  intros [H1 H2]. apply Z.eqb_neq. intros E. assert (B : Z.testbit (Heap.to_raw h) 63 = true) by (by rewrite E).
  unfold Heap.to_raw in B. rewrite Z.lor_spec, Z.shiftl_spec in B by lia. unfold in_u in H2. apply orb_true_iff in B as [B|B].
  - rewrite Z.testbit_eqb, Z.div_small in B by lia. done.
  - rewrite Z.testbit_eqb, Z.div_small in B by lia. done.
Qed.

Lemma bind_forward {A} (g : A -> A) (hs : A -> list Heap.Handle) f (l : list A) :
  (forall x, x ∈ l -> hs (g x) = f <$> hs x) -> (g <$> l) ≫= hs = f <$> (l ≫= hs).
Proof.
  induction l as [|x l IH]; intros H; csimpl; [done|]. rewrite fmap_app, H by by left. f_equal. apply IH. intros y Hy. apply H. by right.
Qed.

Lemma s_handles_relocate f p : (forall h, h ∈ s_handles p -> boxable (f h)) -> s_handles (s_relocate f p) = f <$> s_handles p.
Proof.
  intros H. unfold s_handles in *. rewrite !fmap_app.
  assert (Hd : (snd <$> p_data (s_relocate f p)) = (forward_value f <$> (snd <$> p_data p))).
  { unfold s_relocate. cbn. case_match; cbn; rewrite <- !list_fmap_compose; done. }
  assert (Ha : p_acc (s_relocate f p) = (fun a => (acc_name a, forward_value f (snd (fst a)), forward_value f (snd a))) <$> p_acc p) by (unfold s_relocate; cbn; by case_match).
  assert (Hp : p_proto (s_relocate f p) = if p_proto p =? NO_PROTO then p_proto p else Heap.to_raw (f (Heap.from_raw (p_proto p)))) by (unfold s_relocate; cbn; by case_match).
  rewrite Hd, Ha, Hp. f_equal; [|f_equal].
  - apply bind_forward. intros v Hv. apply handle_of_forward. intros h Hh. apply H, elem_of_app. left. apply list_elem_of_bind. eauto.
  - apply bind_forward. intros a Ha'. cbn. rewrite fmap_app. f_equal; apply handle_of_forward; intros h Hh; apply H; rewrite !elem_of_app; right; left;
      apply list_elem_of_bind; exists a; rewrite elem_of_app; eauto.
  - destruct (p_proto p =? NO_PROTO) eqn:E; [by rewrite E|]. assert (Hb : boxable (f (Heap.from_raw (p_proto p)))) by (apply H; rewrite !elem_of_app, list_elem_of_singleton; auto).
    rewrite boxable_not_no_proto by done. cbn. destruct (HeapSpec.handle_boxing_roundtrip _ (proj1 Hb) (proj2 Hb)) as [_ ->]. done.
Qed.

Lemma assoc_fmap {V W} (g : V -> W) k (l : list (key * V)) : assoc k ((fun kv => (fst kv, g (snd kv))) <$> l) = g <$> assoc k l.
Proof. induction l as [|[k' v] l IH]; csimpl; [done|]. by case_decide. Qed.

Lemma relocate_data f p k : assoc k (p_data (s_relocate f p)) = forward_value f <$> assoc k (p_data p).
Proof. rewrite <- assoc_fmap. unfold s_relocate. cbn. by case_match. Qed.

(** ** Histories of the program *)

Lemma run_app h1 h2 w : run (h1 ++ h2) w = match run h1 w with
  | Some (l1, w1) => match run h2 w1 with Some (l2, w2) => Some (l1 ++ l2, w2) | None => None end | None => None end.
Proof.
  revert w. induction h1 as [|x h1 IH]; intros w; [change (run [] w) with (Some ([] : list Answer, w)); cbn [app]; by destruct (run h2 w) as [[? ?]|]|].
  cbn [app run map_prog]. unfold mbind, prog_bind, mret, prog_ret. destruct (run_step x w) as [[a w1]|]; [|done]. unfold run in IH. rewrite IH.
  destruct (map_prog run_step h1 w1) as [[l1 w2]|]; [|done]. fold (run h2 w2). by destruct (run h2 w2) as [[l2 w3]|].
Qed.

Lemma s_run_app h1 h2 ps : snd (s_run (h1 ++ h2) ps) = snd (s_run h2 (snd (s_run h1 ps))).
Proof.
  revert ps. induction h1 as [|x h1 IH]; intros ps; [done|]. cbn [app s_run]. destruct (s_step x ps) as [a ps1]. specialize (IH ps1).
  destruct (s_run (h1 ++ h2) ps1), (s_run h1 ps1). done.
Qed.

(** Where a history leads. *)
Lemma history h : forallb step_ok h = true -> Z.of_nat (length h) < 2 ^ 31 ->
  exists w, run h empty_world = Some (fst (s_run h []), w) /\ Forall2 (is_spec (store w)) (objects w) (snd (s_run h [])) /\ Forall logged (snd (s_run h [])) /\
    wf (store w) /\ world_ok (65535 + Z.of_nat (length h)) w (snd (s_run h [])).
Proof.
  intros Hh Hl. destruct (run_refines h 65535 empty_world [] empty_world_ok) as (w & E & Hw); [done|lia|done|]. exists w.
  split_and!; [exact E|exact (wo_objs _ _ _ Hw)|by apply logged_run; [|constructor]|exact (wo_wf _ _ _ Hw)|exact Hw].
Qed.

Lemma spec_at w ps j o : Forall2 (is_spec (store w)) (objects w) ps -> wf (store w) -> objects w !! j = Some o ->
  exists p, ps !! j = Some p /\ ok (sys_of w o) /\ view (sys_of w o) = p.
Proof.
  intros H Hw Hj. destruct (Forall2_lookup_l _ _ _ _ _ H Hj) as (p & Hp & Ho & V). exists p. split_and!; [done|by split|done].
Qed.

(** A read answers what the abstract object says. *)
Lemma read_answer {A} (m : method A) s v : reads m s v -> exists s', m s = Some (v, s').
Proof. intros H. destruct (wp_run _ _ _ H) as (x & s' & E & -> & _). by exists s'. Qed.

(** *** A history that uses most of the model *)

Definition one : NanBox := number 0x3ff0000000000000.
Definition sample : list Step :=
  [Literal [bytes "x"; bytes "y"] [one; one]; Literal [bytes "x"; bytes "y"] [one; one];
   GetAt 0 0 (bytes "y"); GetAt 0 1 (bytes "y"); SetAt 1 1 (bytes "y") undefined 64; InitAt 2 0 (bytes "z") one 64;
   InitAt 2 1 (bytes "z") one 64; On 0 (DefineAccessor (bytes "w") undefined undefined); On 0 (Delete (bytes "x"));
   On 0 AllKeys; BuiltinFn one undefined; On 2 (IsReadonly (bytes "name")); On 2 (MaybeConvertToDict (bytes "u") 1);
   On 2 (Set_ (bytes "u") one); On 2 EnumerableKeys; On 0 Freeze; On 0 (Set_ (bytes "y") undefined); On 0 (Get (bytes "y"))].

(** An object after a history. *)
Definition after_run (h : list Step) (j : nat) : option (Sys) :=
  rw ← run h empty_world; o ← objects (snd rw) !! j; Some (sys_of (snd rw) o).

(** C3: the object model refines the abstract objects.  Any history of fewer than
    2^31 steps from an empty heap - objects made from every constructor, methods,
    reads, writes and adds through inline caches, on objects that share layouts,
    shaped or dictionaries - runs without a panic, gives the answers of the list
    of abstract objects, and leaves every object a representation of its abstract
    one. *)
Theorem objects_refine h : forallb step_ok h = true -> Z.of_nat (length h) < 2 ^ 31 ->
  exists w, run h empty_world = Some (fst (s_run h []), w) /\
    Forall2 (fun o p => obj_ok (store w) o /\ spec_of (store w) o = p) (objects w) (snd (s_run h [])).
Proof. intros Hh Hl. destruct (history h Hh Hl) as (w & E & H & _). by exists w. Qed.

Lemma objects_refine_witness :
  fst (s_run sample []) =
    [Done; Done; Value (Some one); Value (Some one); Done; Bool true; Bool true; Done; Bool true;
     KeyList [bytes "y"; bytes "z"; bytes "w"]; Done; Bool true; Done; Done; KeyList [bytes "u"]; Done; Done; Value (Some one)] /\
  exists w, run sample empty_world = Some (fst (s_run sample []), w) /\
    Forall2 (fun o p => obj_ok (store w) o /\ spec_of (store w) o = p) (objects w) (snd (s_run sample [])).
Proof. split; [by vm_compute|]. apply (objects_refine sample); by vm_compute. Defined.

(** C5: compiled code may treat a slot as a number when its layout says so: after
    any history, a slot whose layout does not have it as possibly something else
    holds a number, in every object of that layout. *)
Theorem number_promise h : forallb step_ok h = true -> Z.of_nat (length h) < 2 ^ 31 ->
  exists l w, run h empty_world = Some (l, w) /\
    forall j o i v, objects w !! j = Some o -> 0 <= i -> may_be_non_number i (shape_at (store w) (o_shape o)) = false ->
      slot_get i o = Some v -> is_number v = true.
Proof.
  intros Hh Hl. destruct (history h Hh Hl) as (w & E & H & _ & Hw & _). exists (fst (s_run h [])), w. split; [done|].
  intros j o i v Hj Hi Hm Hv. destruct (spec_at _ _ _ _ H Hw Hj) as (p & _ & [_ Ho] & _). cbn in Ho. rewrite slot_get_spec in Hv by (try apply Ho; done).
  unfold may_be_non_number in Hm. apply orb_false_iff in Hm as [H64%Z.leb_gt Hb%negb_false_iff%Z.eqb_eq].
  destruct (is_number v) eqn:En; [done|]. pose proof (oo_numbers _ _ Ho _ _ Hv ltac:(lia) En) as Ht. rewrite Z2Nat.id in Ht by done. unfold any_at in Ht.
  assert (Hbit : Z.testbit (Z.land (any (shape_at (store w) (o_shape o))) (Z.shiftl 1 i)) i = true).
  { rewrite Z.land_spec, Ht, Z.shiftl_spec, Z.sub_diag by done. done. }
  by rewrite Hb, Z.bits_0 in Hbit.
Qed.

Lemma number_promise_witness :
  (fun s => (may_be_non_number 0 (shape_at (shapes s) (o_shape (self s))), may_be_non_number 1 (shape_at (shapes s) (o_shape (self s))))) <$> after_run sample 1
    = Some (false, true) /\
  exists l w, run sample empty_world = Some (l, w) /\
    forall j o i v, objects w !! j = Some o -> 0 <= i -> may_be_non_number i (shape_at (store w) (o_shape o)) = false ->
      slot_get i o = Some v -> is_number v = true.
Proof. split; [by vm_compute|]. apply (number_promise sample); by vm_compute. Defined.

(** C11: after any history, the keys of an object are listed once each, they are
    the keys it has, and the enumerable ones are those not hidden. *)
Theorem own_keys_listed h : forallb step_ok h = true -> Z.of_nat (length h) < 2 ^ 31 ->
  exists l w, run h empty_world = Some (l, w) /\
    forall j o, objects w !! j = Some o -> exists ks es s s',
      all_keys (sys_of w o) = Some (ks, s) /\ enumerable_keys (sys_of w o) = Some (es, s') /\ NoDup ks /\ NoDup es /\
      forall k, exists b c s1 s2, has_own_key k (sys_of w o) = Some (b, s1) /\ is_hidden k (sys_of w o) = Some (c, s2) /\
        (k ∈ ks <-> b = true) /\ (k ∈ es <-> b = true /\ c = false).
Proof.
  intros Hh Hl. destruct (history h Hh Hl) as (w & E & H & Hlog & Hw & _). exists (fst (s_run h [])), w. split; [done|].
  intros j o Hj. destruct (spec_at _ _ _ _ H Hw Hj) as (p & Hp & Hok & V). pose proof (Forall_lookup_1 _ _ _ _ Hlog Hp) as Hg. rewrite <- V in Hg.
  destruct (enum_spec _ Hg) as [N1 I1], (enumerable_spec _ Hg) as [N2 I2].
  destruct (read_answer _ _ _ (enum_base_reads _ Hok)) as [s E1], (read_answer _ _ _ (enumerable_keys_reads _ Hok)) as [s' E2].
  exists (s_enum (view (sys_of w o))), (s_enumerable (view (sys_of w o))), s, s'. split_and!; [done..|]. intros k.
  destruct (read_answer _ _ _ (has_own_key_reads _ Hok k)) as [s1 E3], (read_answer _ _ _ (is_hidden_reads _ Hok k)) as [s2 E4].
  exists (p_has (view (sys_of w o)) k), (bool_decide (k ∈ p_hid (view (sys_of w o)))), s1, s2.
  split_and!; [done..|apply I1|]. by rewrite I2, bool_decide_eq_false.
Qed.

Lemma own_keys_listed_witness :
  (s ← after_run sample 2; r ← all_keys s; Some (fst r)) = Some [bytes "length"; bytes "name"; bytes "u"] /\
  exists l w, run sample empty_world = Some (l, w) /\
    forall j o, objects w !! j = Some o -> exists ks es s s',
      all_keys (sys_of w o) = Some (ks, s) /\ enumerable_keys (sys_of w o) = Some (es, s') /\ NoDup ks /\ NoDup es /\
      forall k, exists b c s1 s2, has_own_key k (sys_of w o) = Some (b, s1) /\ is_hidden k (sys_of w o) = Some (c, s2) /\
        (k ∈ ks <-> b = true) /\ (k ∈ es <-> b = true /\ c = false).
Proof. split; [by vm_compute|]. apply (own_keys_listed sample); by vm_compute. Defined.

(** C10: a cached enumeration is good while the key epoch stands: if an object has
    the same key epoch after [h1] and after [h1 ++ h2], its enumeration and its
    enumerable keys are the same, whatever [h2] did. *)
Theorem enumeration_cached h1 h2 : forallb step_ok (h1 ++ h2) = true -> Z.of_nat (length (h1 ++ h2)) < 2 ^ 31 ->
  exists l1 w1 l2 w2, run h1 empty_world = Some (l1, w1) /\ run (h1 ++ h2) empty_world = Some (l2, w2) /\
    forall j o1 o2, objects w1 !! j = Some o1 -> objects w2 !! j = Some o2 -> o_key_epoch o1 = o_key_epoch o2 ->
      exists ks es s1 s1' s2 s2', all_keys (sys_of w1 o1) = Some (ks, s1) /\ all_keys (sys_of w2 o2) = Some (ks, s2) /\
        enumerable_keys (sys_of w1 o1) = Some (es, s1') /\ enumerable_keys (sys_of w2 o2) = Some (es, s2').
Proof.
  intros Hh Hl. rewrite length_app in Hl. assert (Hh' := Hh). rewrite forallb_app in Hh'. apply andb_true_iff in Hh' as [Hh1 Hh2].
  destruct (history h1 Hh1 ltac:(lia)) as (w1 & R1 & F1 & G1 & W1 & _).
  destruct (history (h1 ++ h2) Hh ltac:(rewrite length_app; lia)) as (w2 & R2 & F2 & _ & W2 & _).
  exists (fst (s_run h1 [])), w1, (fst (s_run (h1 ++ h2) [])), w2. split; [done|]. split; [done|]. intros j o1 o2 Hj1 Hj2 He.
  destruct (spec_at _ _ _ _ F1 W1 Hj1) as (p1 & Hp1 & Ok1 & V1), (spec_at _ _ _ _ F2 W2 Hj2) as (p2 & Hp2 & Ok2 & V2).
  pose proof (Forall_lookup_1 _ _ _ _ G1 Hp1) as Hg. rewrite s_run_app in Hp2.
  destruct (run_epoch h2 _ j p1 Hh2 G1 Hp1 0 p1 (Z.le_refl 0) ltac:(done)) as (q & b & Hq & Hb & Hm). rewrite Hp2 in Hq. injection Hq as <-.
  assert (Hep : p_epoch p2 = p_epoch p1) by (by rewrite <- V1, <- V2; cbn).
  destruct (moved_back b p1 p2 ltac:(lia) (lg_epoch _ Hg) Hm Hep) as [M1 M2].
  destruct (read_answer _ _ _ (enum_base_reads _ Ok1)) as [s1 E1], (read_answer _ _ _ (enumerable_keys_reads _ Ok1)) as [s1' E2].
  destruct (read_answer _ _ _ (enum_base_reads _ Ok2)) as [s2 E3], (read_answer _ _ _ (enumerable_keys_reads _ Ok2)) as [s2' E4].
  rewrite V1 in E1, E2. rewrite V2 in E3, E4. unfold s_enumerable in E2, E4. rewrite M1 in E3. rewrite M1, M2 in E4. eauto 15.
Qed.

Lemma enumeration_cached_witness :
  let h1 := take 9 sample in let h2 := drop 9 sample in
  (fun s => o_key_epoch (self s)) <$> after_run h1 0 = (fun s => o_key_epoch (self s)) <$> after_run (h1 ++ h2) 0 /\
  exists l1 w1 l2 w2, run h1 empty_world = Some (l1, w1) /\ run (h1 ++ h2) empty_world = Some (l2, w2) /\
    forall j o1 o2, objects w1 !! j = Some o1 -> objects w2 !! j = Some o2 -> o_key_epoch o1 = o_key_epoch o2 ->
      exists ks es s1 s1' s2 s2', all_keys (sys_of w1 o1) = Some (ks, s1) /\ all_keys (sys_of w2 o2) = Some (ks, s2) /\
        enumerable_keys (sys_of w1 o1) = Some (es, s1') /\ enumerable_keys (sys_of w2 o2) = Some (es, s2').
Proof. split; [by vm_compute|]. apply (enumeration_cached (take 9 sample) (drop 9 sample)); by vm_compute. Defined.

Definition to_accessor (j : nat) (k : key) (g st : NanBox) : list Step :=
  [On j EnsureKeyOrder; On j (ClearAccessor k); On j (DeleteData k); On j (ClearReadonly k); On j (DefineAccessor k g st)].

Lemma to_accessor_run j k g st ps p : ps !! j = Some p -> snd (s_run (to_accessor j k g st) ps) !! j = Some (s_to_accessor k g st p).
Proof.
  intros Hj. assert (Hlt := lookup_lt_Some _ _ _ Hj). cbn [to_accessor s_run s_step]. unfold s_at. rewrite Hj. cbn [fst snd].
  do 4 (rewrite list_lookup_insert_eq by (rewrite ?length_insert; done); cbn [fst snd]). rewrite list_lookup_insert_eq by (rewrite ?length_insert; done). by rewrite to_accessor_eq.
Qed.

(** C21: making a property an accessor keeps its place in the enumeration: the log
    is started before the data slot goes, so the keys are listed as before, and
    the getter and setter are the given ones. *)
Theorem redefinition_keeps_place h j k g st : forallb step_ok h = true -> Z.of_nat (length h) + 5 < 2 ^ 31 ->
  exists l1 w1 l2 w2, run h empty_world = Some (l1, w1) /\ run (to_accessor j k g st) w1 = Some (l2, w2) /\
    forall o1 s, objects w1 !! j = Some o1 -> has_own_key k (sys_of w1 o1) = Some (true, s) ->
      exists o2 ks s1 s2 s3, objects w2 !! j = Some o2 /\ all_keys (sys_of w1 o1) = Some (ks, s1) /\ all_keys (sys_of w2 o2) = Some (ks, s2) /\
        accessor k o2 = Some (g, st) /\ obj_get k (sys_of w2 o2) = Some (None, s3).
Proof.
  intros Hh Hl. destruct (history h Hh ltac:(lia)) as (w1 & R1 & F1 & G1 & W1 & _).
  destruct (history (h ++ to_accessor j k g st)) as (w2 & R2 & F2 & _ & W2 & _); [by rewrite forallb_app, Hh|rewrite length_app; cbn [to_accessor length]; lia|].
  rewrite run_app, R1 in R2. destruct (run (to_accessor j k g st) w1) as [[l2 w2']|] eqn:E; [|done]. injection R2 as _ ->.
  exists (fst (s_run h [])), w1, l2, w2. split; [done|]. split; [done|]. intros o1 s Hj Hk.
  destruct (spec_at _ _ _ _ F1 W1 Hj) as (p1 & Hp1 & Ok1 & V1). pose proof (Forall_lookup_1 _ _ _ _ G1 Hp1) as Hg.
  destruct (read_answer _ _ _ (has_own_key_reads _ Ok1 k)) as [s' Hk']. rewrite Hk in Hk'. injection Hk' as Hk' _. rewrite V1 in Hk'. symmetry in Hk'.
  destruct (to_accessor_spec k g st p1 Hg Hk') as (T1 & T2 & T3).
  rewrite s_run_app in F2. destruct (Forall2_lookup_r _ _ _ _ _ F2 (to_accessor_run j k g st _ _ Hp1)) as (o2 & Hj2 & _).
  destruct (spec_at _ _ _ _ F2 W2 Hj2) as (p2 & Hp2 & Ok2 & V2). rewrite (to_accessor_run j k g st _ _ Hp1) in Hp2. injection Hp2 as <-.
  destruct (read_answer _ _ _ (enum_base_reads _ Ok1)) as [s1 E1], (read_answer _ _ _ (enum_base_reads _ Ok2)) as [s2 E2], (read_answer _ _ _ (obj_get_reads _ Ok2 k)) as [s3 E3].
  rewrite V1 in E1. rewrite V2, T1 in E2. rewrite V2, T3 in E3. exists o2, (s_enum p1), s1, s2, s3. split_and!; [exact Hj2|exact E1|exact E2| |exact E3].
  pose proof (accessor_reads (sys_of w2 o2) Ok2 k) as Ha. by rewrite V2, T2 in Ha.
Qed.

Lemma redefinition_keeps_place_witness :
  let h := [Literal [bytes "a"; bytes "b"; bytes "c"] [one; one; one]] in
  (s ← after_run (h ++ to_accessor 0 (bytes "b") undefined undefined) 0; r ← all_keys s; Some (fst r)) = Some [bytes "a"; bytes "b"; bytes "c"] /\
  (s ← after_run h 0; r ← has_own_key (bytes "b") s; Some (fst r)) = Some true /\
  exists l1 w1 l2 w2, run h empty_world = Some (l1, w1) /\ run (to_accessor 0 (bytes "b") undefined undefined) w1 = Some (l2, w2) /\
    forall o1 s, objects w1 !! 0%nat = Some o1 -> has_own_key (bytes "b") (sys_of w1 o1) = Some (true, s) ->
      exists o2 ks s1 s2 s3, objects w2 !! 0%nat = Some o2 /\ all_keys (sys_of w1 o1) = Some (ks, s1) /\ all_keys (sys_of w2 o2) = Some (ks, s2) /\
        accessor (bytes "b") o2 = Some (undefined, undefined) /\ obj_get (bytes "b") (sys_of w2 o2) = Some (None, s3).
Proof.
  split; [by vm_compute|]. split; [by vm_compute|].
  apply (redefinition_keeps_place [Literal [bytes "a"; bytes "b"; bytes "c"] [one; one; one]] 0 (bytes "b") undefined undefined); by vm_compute.
Defined.

(** C20: what the collector asks of an object, after any history: relocation by a
    map of handles rewrites every handle the object holds, in slots, dictionary,
    accessors and prototype alike, and no other - what it traces afterwards is
    exactly the image of what it traced before, and each property holds the
    forwarded value. *)
Theorem object_relocation h f : forallb step_ok h = true -> Z.of_nat (length h) < 2 ^ 31 ->
  exists l w, run h empty_world = Some (l, w) /\
    forall j o, objects w !! j = Some o -> (forall x, x ∈ trace_handles o -> boxable (f x)) ->
      exists s', relocate_handles f (sys_of w o) = Some (tt, s') /\
        (forall y, y ∈ trace_handles (self s') <-> exists x, y = f x /\ x ∈ trace_handles o) /\
        forall k v s1, obj_get k (sys_of w o) = Some (v, s1) -> exists s2, obj_get k s' = Some (forward_value f <$> v, s2).
Proof.
  intros Hh Hl. destruct (history h Hh Hl) as (w & E & H & _ & Hw & _). exists (fst (s_run h [])), w. split; [done|].
  intros j o Hj Hb. destruct (spec_at _ _ _ _ H Hw Hj) as (p & Hp & Hok & V).
  destruct (wp_run _ _ _ (relocate_handles_goes _ f Hok)) as ([] & s' & R & Hok' & _ & V' & _). exists s'. split; [done|]. split.
  - intros y. rewrite (trace_handles_spec s' y Hok'), V', s_handles_relocate, list_elem_of_fmap.
    + by setoid_rewrite <- (trace_handles_spec (sys_of w o) _ Hok).
    + intros x Hx. apply Hb. by apply (trace_handles_spec (sys_of w o) x Hok).
  - intros k v s1 Hg. destruct (read_answer _ _ _ (obj_get_reads _ Hok k)) as [s1' E1]. rewrite Hg in E1. injection E1 as -> _.
    destruct (read_answer _ _ _ (obj_get_reads _ Hok' k)) as [s2 E2]. rewrite V', relocate_data in E2. by exists s2.
Qed.

Definition at_handle (i : nat) : NanBox := handle (Heap.to_raw (Heap.MkHandle i 0)).
Definition holder : list Step :=
  [Literal [bytes "a"; bytes "b"] [at_handle 1; one]; On 0 (DefineAccessor (bytes "g") (at_handle 2) undefined);
   On 0 (SetProto (Some (Heap.MkHandle 3 0)))].

Lemma object_relocation_witness :
  let f x := Heap.MkHandle (Heap.index x + 10) 0 in
  (fun s => trace_handles (self s)) <$> after_run holder 0 = Some [Heap.MkHandle 1 0; Heap.MkHandle 2 0; Heap.MkHandle 3 0] /\
  (s ← after_run holder 0; r ← relocate_handles f s; Some (trace_handles (self (snd r)))) = Some [Heap.MkHandle 11 0; Heap.MkHandle 12 0; Heap.MkHandle 13 0] /\
  exists l w, run holder empty_world = Some (l, w) /\
    forall j o, objects w !! j = Some o -> (forall x, x ∈ trace_handles o -> boxable (f x)) ->
      exists s', relocate_handles f (sys_of w o) = Some (tt, s') /\
        (forall y, y ∈ trace_handles (self s') <-> exists x, y = f x /\ x ∈ trace_handles o) /\
        forall k v s1, obj_get k (sys_of w o) = Some (v, s1) -> exists s2, obj_get k s' = Some (forward_value f <$> v, s2).
Proof.
  intros f. split; [by vm_compute|]. split; [by vm_compute|]. apply (object_relocation holder f); by vm_compute.
Defined.
