(* ===== verification/HandleMap.v ===== *)
(** * The realm's side tables: [src/src/realm/handle_map.rs]

    A [HandleKeyedMap] is a bitset over slot indices that answers most misses, and
    an open-addressed table with linear probing and backward-shift deletion.  This
    file models every operation, and shows the table's invariant, that no loop runs
    on for ever, and that each operation is that of a finite map.

    A loop has the length of its table as fuel; nothing ([None]) is a loop that
    does not return.  Lengths and counts ([usize]) are [Z]: twice the number of
    entries is a length of a vector, so it does not overflow. *)

From stdpp Require Import gmap list.
From S2P Require Import Prelude Prog Probe.
Open Scope Z_scope.

(** ** Definitions *)

Record HandleKeyedMap (V : Type) := MkHandleMap {
  bits : list Z;
  index : list (option (Z * V));
  len : Z;
  fresh : option (list Z) }.
Arguments MkHandleMap {V}.
Arguments bits {V}. Arguments index {V}. Arguments len {V}. Arguments fresh {V}.

Definition slot_of_raw (raw : Z) : Z := Z.land raw 0xffffffff.

Definition bucket (raw mask : Z) : Z :=
  Z.land (Z.shiftr (as_u64 (raw * 0x9e3779b97f4a7c15)) 32) mask.

Section Ops.
Context {V : Type}.
Implicit Types (m : HandleKeyedMap V) (t : list (option (Z * V))) (raw : Z).

Definition new : HandleKeyedMap V := MkHandleMap [] [] 0 None.
Definition new_logged : HandleKeyedMap V := MkHandleMap [] [] 0 (Some []).

Definition fresh_keys m : list Z := default [] (fresh m).
Definition take_fresh m : list Z * HandleKeyedMap V :=
  match fresh m with
  | Some f => (f, MkHandleMap (bits m) (index m) (len m) (Some []))
  | None => ([], m)
  end.
Definition clear_fresh m : HandleKeyedMap V :=
  MkHandleMap (bits m) (index m) (len m) (match fresh m with Some _ => Some [] | None => None end).

Definition with_index t (n : Z) m : HandleKeyedMap V := MkHandleMap (bits m) t n (fresh m).

Definition table_mask_of t : Z := Z.of_nat (length t) - 1.

Definition find m raw : option (option Z) :=
  if (length (index m) =? 0)%nat then Some None
  else
    let mask := table_mask_of (index m) in
    probe_loop (length (index m))
      (fun i => match slot_at None (index m) i with
                | None => Some None
                | Some (k, _) => if k =? raw then Some (Some i) else None
                end) mask (bucket raw mask).

(** [while self.index[i].is_some() { .. } self.index[i] = Some((raw, v))] *)
Definition place_entry t (kv : Z * V) : option (list (option (Z * V))) :=
  let mask := table_mask_of t in
  i ← probe_loop (length t) (fun i => match slot_at None t i with None => Some i | Some _ => None end)
        mask (bucket (fst kv) mask);
  Some (slot_set i (Some kv) t).

Fixpoint place_entries t (es : list (Z * V)) : option (list (option (Z * V))) :=
  match es with
  | [] => Some t
  | kv :: es => t ← place_entry t kv; place_entries t es
  end.

Definition rebuild_index (min_buckets : Z) m : option (HandleKeyedMap V) :=
  let n := next_power_of_two (Z.max (Z.max min_buckets (len m * 2)) 16) in
  t ← place_entries (replicate (Z.to_nat n) None) (omap id (index m));
  Some (with_index t (len m) m).

Definition index_put raw (v : V) m : option (option V * HandleKeyedMap V) :=
  m ← (if Z.of_nat (length (index m)) <? (len m + 1) * 2 then rebuild_index ((len m + 1) * 2) m else Some m);
  let mask := table_mask_of (index m) in
  r ← probe_loop (length (index m))
        (fun i => match slot_at None (index m) i with
                  | None => Some (i, None)
                  | Some (k, val) => if k =? raw then Some (i, Some val) else None
                  end) mask (bucket raw mask);
  match r with
  | (i, None) => Some (None, with_index (slot_set i (Some (raw, v)) (index m)) (len m + 1) m)
  | (i, Some old) => Some (Some old, with_index (slot_set i (Some (raw, v)) (index m)) (len m) m)
  end.

(** Whether the entry at [j] may fill the hole. *)
Definition movable (hole j home : Z) : bool :=
  if hole <=? j then (home <=? hole) || (j <? home) else (home <=? hole) && (j <? home).

Fixpoint shift_back (fuel : nat) (mask : Z) t (hole j : Z) : option (list (option (Z * V))) :=
  match fuel with
  | O => None
  | S fuel =>
      let j := Z.land (j + 1) mask in
      match slot_at None t j with
      | None => Some t
      | Some (k, v) =>
          if movable hole j (bucket k mask)
          then shift_back fuel mask (slot_set j None (slot_set hole (Some (k, v)) t)) j j
          else shift_back fuel mask t hole j
      end
  end.

Definition index_remove raw m : option (option V * HandleKeyedMap V) :=
  r ← find m raw;
  match r with
  | None => Some (None, m)
  | Some hole =>
      let old := snd <$> slot_at None (index m) hole in
      t ← shift_back (length (index m)) (table_mask_of (index m)) (slot_set hole None (index m)) hole hole;
      Some (old, with_index t (len m - 1) m)
  end.

Definition reserve (additional : Z) m : option (HandleKeyedMap V) :=
  let want := (len m + additional) * 2 in
  if Z.of_nat (length (index m)) <? want then rebuild_index want m else Some m.

Definition may_contain m raw : bool :=
  let i := slot_of_raw raw in
  match bits m !! Z.to_nat (i / 64) with
  | Some w => negb (Z.land (Z.shiftr w (i mod 64)) 1 =? 0)
  | None => false
  end.

Definition mark raw m : HandleKeyedMap V :=
  let i := slot_of_raw raw in
  let w := Z.to_nat (i / 64) in
  let b := if (length (bits m) <=? w)%nat then bits m ++ replicate (w + 1 - length (bits m)) 0 else bits m in
  MkHandleMap (alter (fun x => Z.lor x (Z.shiftl 1 (i mod 64))) w b) (index m) (len m) (fresh m).

Definition get m raw : option (option V) :=
  if negb (may_contain m raw) then Some None
  else
    r ← find m raw;
    Some (i ← r; kv ← slot_at None (index m) i; Some (snd kv)).

Definition contains_key m raw : option bool :=
  if may_contain m raw then r ← find m raw; Some (match r with Some _ => true | None => false end) else Some false.

Definition insert raw (v : V) m : option (option V * HandleKeyedMap V) :=
  let m := MkHandleMap (bits m) (index m) (len m) ((fun f => f ++ [raw]) <$> fresh m) in
  index_put raw v (mark raw m).

Definition remove raw m : option (option V * HandleKeyedMap V) :=
  if negb (may_contain m raw) then Some (None, m) else index_remove raw m.

(** The slots after [f] has looked at each entry in turn, and how many it kept. *)
Definition retain_slot (f : Z -> V -> bool * V) (x : option (Z * V)) : option (Z * V) :=
  match x with
  | Some (k, v) => let (keep, v') := f k v in if keep : bool then Some (k, v') else None
  | None => None
  end.

Definition retain (f : Z -> V -> bool * V) m : option (HandleKeyedMap V) :=
  let t := retain_slot f <$> index m in
  let dropped := Z.of_nat (length (omap id (index m))) - Z.of_nat (length (omap id t)) in
  rebuild_index 0 (with_index t (len m - dropped) m).

Definition iter m : list (Z * V) := omap id (index m).
Definition values m : list V := snd <$> iter m.

Definition swap_entries (a b : Z) m : option (HandleKeyedMap V) :=
  '(va, m) ← remove a m;
  '(vb, m) ← remove b m;
  m ← (match vb with Some v => snd <$> insert a v m | None => Some m end);
  match va with Some v => snd <$> insert b v m | None => Some m end.
End Ops.
