(* ===== verification/HandleMapSpec.v ===== *)
(** * The side tables are finite maps

    [hm_ok] is the invariant of a [HandleKeyedMap]: its table is empty or a power
    of two long, at most half full and [chained]; its keys are distinct and each
    has its bit.  [to_map] is the finite map it stands for.  Every operation ends,
    keeps the invariant, and is the operation of the same name on that map. *)

From stdpp Require Import gmap list.
From S2P Require Import Prelude Prog Probe HandleMap.
Open Scope Z_scope.

(** The specification's operations, on a finite map. *)
Definition map_retain {V} (f : Z -> V -> bool * V) (g : gmap Z V) : gmap Z V :=
  map_imap (fun k v => let (keep, v') := f k v in if keep : bool then Some v' else None) g.
Definition map_put {V} (k : Z) (o : option V) (g : gmap Z V) : gmap Z V :=
  match o with Some v => <[k := v]> g | None => g end.
Definition map_swap {V} (a b : Z) (g : gmap Z V) : gmap Z V :=
  map_put b (g !! a) (map_put a (delete a g !! b) (delete b (delete a g))).

(** What an insertion that happens only if [o] is there logs. *)
Definition log_if {V} (k : Z) (o : option V) : list Z := match o with Some _ => [k] | None => [] end.

(** ** Histories *)

Inductive MapOp (V : Type) :=
| MInsert (k : Z) (v : V)
| MRemove (k : Z)
| MGet (k : Z)
| MContains (k : Z)
| MRetain (f : Z -> V -> bool * V)
| MSwap (a b : Z)
| MReserve (n : nat)
| MTakeFresh
| MClearFresh.
Arguments MInsert {V}. Arguments MRemove {V}. Arguments MGet {V}. Arguments MContains {V}. Arguments MRetain {V}.
Arguments MSwap {V}. Arguments MReserve {V}. Arguments MTakeFresh {V}. Arguments MClearFresh {V}.

Inductive MapAns (V : Type) := AValue (o : option V) | AHas (b : bool) | AKeys (l : list Z) | ADone.
Arguments AValue {V}. Arguments AHas {V}. Arguments AKeys {V}. Arguments ADone {V}.

Definition run_map_op {V} (o : MapOp V) (m : HandleKeyedMap V) : option (MapAns V * HandleKeyedMap V) :=
  match o with
  | MInsert k v => '(r, m) ← insert k v m; Some (AValue r, m)
  | MRemove k => '(r, m) ← remove k m; Some (AValue r, m)
  | MGet k => r ← get m k; Some (AValue r, m)
  | MContains k => r ← contains_key m k; Some (AHas r, m)
  | MRetain f => m ← retain f m; Some (ADone, m)
  | MSwap a b => m ← swap_entries a b m; Some (ADone, m)
  | MReserve n => m ← reserve (Z.of_nat n) m; Some (ADone, m)
  | MTakeFresh => let (l, m) := take_fresh m in Some (AKeys l, m)
  | MClearFresh => Some (ADone, clear_fresh m)
  end.

Fixpoint run_map {V} (ops : list (MapOp V)) (m : HandleKeyedMap V) : option (list (MapAns V) * HandleKeyedMap V) :=
  match ops with
  | [] => Some ([], m)
  | o :: ops => '(a, m) ← run_map_op o m; '(l, m) ← run_map ops m; Some (a :: l, m)
  end.

(** The same on a finite map and the log of the keys inserted. *)
Definition s_map_op {V} (o : MapOp V) (s : gmap Z V * option (list Z)) : MapAns V * (gmap Z V * option (list Z)) :=
  let (g, log) := s in
  match o with
  | MInsert k v => (AValue (g !! k), (<[k := v]> g, (fun l => l ++ [k]) <$> log))
  | MRemove k => (AValue (g !! k), (delete k g, log))
  | MGet k => (AValue (g !! k), s)
  | MContains k => (AHas (bool_decide (is_Some (g !! k))), s)
  | MRetain f => (ADone, (map_retain f g, log))
  | MSwap a b => (ADone, (map_swap a b g, (fun l => l ++ log_if a (delete a g !! b) ++ log_if b (g !! a)) <$> log))
  | MReserve _ => (ADone, s)
  | MTakeFresh => (AKeys (default [] log), (g, (fun _ => []) <$> log))
  | MClearFresh => (ADone, (g, (fun _ => []) <$> log))
  end.

Fixpoint s_map {V} (ops : list (MapOp V)) (s : gmap Z V * option (list Z)) : list (MapAns V) * (gmap Z V * option (list Z)) :=
  match ops with
  | [] => ([], s)
  | o :: ops => let (a, s) := s_map_op o s in let (l, s) := s_map ops s in (a :: l, s)
  end.

Section Spec.
Context {V : Type}.
Implicit Types (m : HandleKeyedMap V) (t : list (option (Z * V))) (kv : Z * V).

Definition vac (x : option (Z * V)) : bool := match x with None => true | Some _ => false end.
Definition home (e : Z) (kv : Z * V) : Z := bucket (fst kv) (2 ^ e - 1).
Definition keys_of t : list Z := fst <$> omap id t.
Definition to_map m : gmap Z V := list_to_map (iter m).

(** A table of [2 ^ e] slots, with its entries. *)
Record table_of (e : Z) t : Prop := {
  to_exp : 0 <= e;
  to_len : Z.of_nat (length t) = 2 ^ e;
  to_chain : chained None vac id (home e) e t }.

Record index_ok m : Prop := {
  io_table : (index m = [] /\ len m = 0) \/ exists e, table_of e (index m) /\ len m * 2 <= 2 ^ e;
  io_len : len m = Z.of_nat (length (iter m));
  io_keys : NoDup (keys_of (index m)) }.

Definition bits_ok m : Prop := forall k, k ∈ keys_of (index m) -> may_contain m k = true.

Record hm_ok m : Prop := { hk_index : index_ok m; hk_bits : bits_ok m }.

(** ** The table *)

Lemma bucket_range e raw : 0 <= e -> 0 <= bucket raw (2 ^ e - 1) < 2 ^ e.
Proof using. intros He. unfold bucket. rewrite land_mask by done. by apply Z.mod_pos_bound, cap_pos. Qed.

Lemma bucket_mod e raw : 0 <= e -> bucket raw (2 ^ e - 1) mod 2 ^ e = bucket raw (2 ^ e - 1).
Proof using. intros He. apply Z.mod_small. by apply bucket_range. Qed.

Lemma count_entries t : count_if (fun x => negb (vac x)) t = Z.of_nat (length (omap id t)).
Proof using. unfold count_if. f_equal. induction t as [|[kv|] t IH]; [done| |done]. cbn. by f_equal. Qed.

Lemma vac_view (x : option (Z * V)) : vac x = true -> id x = None.
Proof using. by destruct x. Qed.

Lemma entry_slot_at t k v : (k, v) ∈ omap id t <-> exists p, 0 <= p < Z.of_nat (length t) /\ slot_at None t p = Some (k, v).
Proof using. exact (omap_elem_slot None id t (k, v)). Qed.

Lemma keys_of_elem t k : k ∈ keys_of t <-> exists v, (k, v) ∈ omap id t.
Proof using.
  unfold keys_of. rewrite list_elem_of_fmap. split; [intros ([k' v] & -> & H); eauto|intros (v & H); by exists (k, v)].
Qed.

(** The search for a key ends at its slot, or at a vacancy when it has none. *)
Lemma walk_spec {R} e t raw (stop : Z -> option (Z * V) -> option R) : table_of e t ->
  Z.of_nat (length (omap id t)) < 2 ^ e ->
  (forall i, is_Some (stop i None)) ->
  (forall i k v, is_Some (stop i (Some (k, v))) <-> k = raw) ->
  exists p r, probe_loop (length t) (fun i => stop i (slot_at None t i)) (table_mask_of t) (bucket raw (table_mask_of t)) = Some r /\
    0 <= p < 2 ^ e /\ stop p (slot_at None t p) = Some r /\
    (forall j, 0 <= j < dist e (bucket raw (2 ^ e - 1)) p -> vac (slot_at None t (place e (bucket raw (2 ^ e - 1)) j)) = false) /\
    (slot_at None t p = None -> raw ∉ keys_of t).
Proof using.
  intros [He Hlen Hc] Hroom Hnone Hsome. unfold table_mask_of. rewrite Hlen.
  destruct (chained_walk None vac id (home e) e He t stop (bucket raw (2 ^ e - 1))) as (p & r & Hrun & Hp & Hs & Hway & Hno).
  - done.
  - done.
  - by rewrite count_entries.
  - apply vac_view.
  - intros i [[k v]|]; [done|]. intros _. apply Hnone.
  - rewrite bucket_mod in Hrun by done. exists p, r. split; [done|]. split; [done|]. split; [done|]. split.
    + intros j Hj. specialize (Hway j Hj). destruct (slot_at None t (place e (bucket raw (2 ^ e - 1)) j)); [done|]. destruct (Hnone (place e (bucket raw (2 ^ e - 1)) j)). congruence.
    + intros Hp0 Hin. apply keys_of_elem in Hin as (v & Hin). apply entry_slot_at in Hin as (q & Hq & Hqv). rewrite Hlen in Hq.
      rewrite Hp0 in Hno. specialize (Hno eq_refl q (raw, v) Hq Hqv eq_refl). rewrite Hqv in Hno.
      assert (is_Some (stop q (Some (raw, v)))) as [? ?] by (by apply Hsome). congruence.
Qed.

Lemma table_set e t p kv : table_of e t -> 0 <= p < 2 ^ e ->
  (forall j, 0 <= j < dist e (home e kv) p -> vac (slot_at None t (place e (home e kv) j)) = false) ->
  table_of e (slot_set p (Some kv) t).
Proof using.
  intros [He Hlen Hc] Hp Hway. split; [done|by rewrite length_slot_set|].
  apply chained_set; try done. by intros a [= <-].
Qed.

Lemma table_replicate e : 0 <= e -> table_of e (replicate (Z.to_nat (2 ^ e)) None).
Proof using. intros He. split; [done|rewrite length_replicate; lia|by apply chained_empty]. Qed.

(** ** Filling a table *)

Lemma place_entry_spec e t kv : table_of e t -> Z.of_nat (length (omap id t)) < 2 ^ e ->
  exists t', place_entry t kv = Some t' /\ table_of e t' /\ omap id t' ≡ₚ kv :: omap id t.
Proof using.
  intros Ht Hroom. pose proof Ht as [He Hlen Hc]. unfold place_entry.
  destruct (chained_walk None vac id (home e) e He t (fun i x => match x with None => Some i | Some _ => None end) (home e kv)) as (p & r & Hrun & Hp & Hs & Hway & _).
  - done.
  - done.
  - by rewrite count_entries.
  - apply vac_view.
  - intros i [x|]; [done|]. by eexists.
  - unfold home in Hrun at 1. rewrite bucket_mod in Hrun by done. unfold table_mask_of. rewrite Hlen.
    destruct (slot_at None t p) eqn:Ep; [done|]. injection Hs as <-.
    exists (slot_set p (Some kv) t). split; [by rewrite Hrun|]. split.
    + apply table_set; [done|done|]. intros j Hj. specialize (Hway j Hj). by destruct (slot_at None t (place e (home e kv) j)).
    + pose proof (omap_set_perm None id t p (Some kv) ltac:(lia)) as Hperm. by rewrite Ep in Hperm.
Qed.

Lemma place_entries_spec e es : forall t, table_of e t -> Z.of_nat (length (omap id t) + length es) <= 2 ^ e ->
  exists t', place_entries t es = Some t' /\ table_of e t' /\ omap id t' ≡ₚ es ++ omap id t.
Proof using.
  induction es as [|kv es IH]; intros t Ht Hroom; cbn [place_entries]; [by exists t|]. simpl in Hroom.
  destruct (place_entry_spec e t kv Ht ltac:(lia)) as (t1 & -> & Ht1 & Hp1). simpl.
  destruct (IH t1 Ht1) as (t2 & -> & Ht2 & Hp2); [rewrite Hp1; simpl; lia|]. exists t2. split; [done|]. split; [done|].
  rewrite Hp2, Hp1. by rewrite <- Permutation_middle.
Qed.

Lemma rebuild_spec k m : 0 <= k -> len m = Z.of_nat (length (iter m)) -> NoDup (keys_of (index m)) ->
  exists m', rebuild_index k m = Some m' /\ index_ok m' /\ iter m' ≡ₚ iter m /\ k <= Z.of_nat (length (index m')) /\
    len m' = len m /\ bits m' = bits m /\ fresh m' = fresh m.
Proof using.
  intros Hk Hlen Hnd. unfold rebuild_index.
  destruct (next_power_of_two_spec (Z.max (Z.max k (len m * 2)) 16) ltac:(lia)) as (e & He & -> & Hle).
  destruct (place_entries_spec e (omap id (index m)) (replicate (Z.to_nat (2 ^ e)) None) (table_replicate e He)) as (t & -> & Ht & Hp).
  - assert (omap id (replicate (Z.to_nat (2 ^ e)) (@None (Z * V))) = []) as -> by (generalize (Z.to_nat (2 ^ e)) as n; induction n; simpl; auto).
    simpl. unfold iter in Hlen. lia.
  - assert (omap id (replicate (Z.to_nat (2 ^ e)) (@None (Z * V))) = []) as Hr by (generalize (Z.to_nat (2 ^ e)) as n; induction n; simpl; auto).
    rewrite Hr, app_nil_r in Hp. eexists. split; [done|]. split_and!; try done.
    + split; simpl.
      * right. exists e. split; [done|lia].
      * unfold iter in *. simpl. by rewrite Hp.
      * unfold keys_of in *. simpl. by rewrite Hp.
    + simpl. pose proof (to_len _ _ Ht). lia.
Qed.

(** ** Reads *)

Lemma to_map_lookup m k v : NoDup (keys_of (index m)) -> to_map m !! k = Some v <-> (k, v) ∈ iter m.
Proof using. intros Hnd. symmetry. by apply elem_of_list_to_map. Qed.

Lemma to_map_None m k : to_map m !! k = None <-> k ∉ keys_of (index m).
Proof using. symmetry. apply not_elem_of_list_to_map. Qed.

(** A key found at a slot is mapped to its value, whichever list of entries it is in. *)
Lemma to_map_slot m p k v : NoDup (keys_of (index m)) -> 0 <= p < Z.of_nat (length (index m)) ->
  slot_at None (index m) p = Some (k, v) -> to_map m !! k = Some v.
Proof using. intros Hnd Hp Hs. apply to_map_lookup; [done|]. apply entry_slot_at. eauto. Qed.

Lemma to_map_perm m m' l : NoDup (keys_of (index m)) -> iter m' ≡ₚ l -> iter m ≡ₚ l -> to_map m' = to_map m.
Proof using. intros Hnd H' H. symmetry. apply list_to_map_proper; [done|]. by rewrite H, H'. Qed.

Lemma find_spec m raw : index_ok m -> exists r, find m raw = Some r /\
  match r with
  | Some i => 0 <= i < Z.of_nat (length (index m)) /\ exists v, slot_at None (index m) i = Some (raw, v) /\ to_map m !! raw = Some v
  | None => to_map m !! raw = None
  end.
Proof using.
  intros [Ht Hlen Hnd]. unfold find. destruct Ht as [[Hi _]|(e & Ht & Hload)].
  - rewrite Hi. exists None. split; [done|]. apply to_map_None. rewrite Hi. apply not_elem_of_nil.
  - pose proof (to_len _ _ Ht) as Hl. pose proof (cap_pos e (to_exp _ _ Ht)).
    destruct (Nat.eqb_spec (length (index m)) 0); [lia|].
    destruct (walk_spec e (index m) raw (fun i x => match x with None => Some None | Some (k, _) => if k =? raw then Some (Some i) else None end) Ht)
      as (p & r & Hrun & Hp & Hs & _ & Hno).
    + unfold iter in Hlen. lia.
    + intros i. by eexists.
    + intros i k v. destruct (Z.eqb_spec k raw); split; done.
    + exists r. split; [exact Hrun|]. destruct (slot_at None (index m) p) as [[k v]|] eqn:Ep.
      * destruct (Z.eqb_spec k raw) as [->|]; [|done]. injection Hs as <-. split; [lia|]. exists v. split; [done|].
        eapply to_map_slot; [done| |done]. lia.
      * injection Hs as <-. apply to_map_None. by apply Hno.
Qed.

Lemma get_spec m raw : hm_ok m -> get m raw = Some (to_map m !! raw).
Proof using.
  intros [Hi Hb]. unfold get. destruct (may_contain m raw) eqn:Em; simpl.
  - destruct (find_spec m raw Hi) as (r & -> & Hr). simpl. destruct r as [i|]; simpl.
    + destruct Hr as (_ & v & -> & ->). done.
    + by rewrite Hr.
  - f_equal. symmetry. apply to_map_None. intros Hin. apply Hb in Hin. congruence.
Qed.

Lemma contains_key_spec m raw : hm_ok m -> contains_key m raw = Some (bool_decide (is_Some (to_map m !! raw))).
Proof using.
  intros [Hi Hb]. unfold contains_key. destruct (may_contain m raw) eqn:Em; simpl.
  - destruct (find_spec m raw Hi) as (r & -> & Hr). simpl. destruct r as [i|]; simpl.
    + destruct Hr as (_ & v & _ & ->). done.
    + by rewrite Hr.
  - f_equal. symmetry. apply bool_decide_eq_false. intros [v Hv].
    assert (raw ∈ keys_of (index m)) as Hin; [|apply Hb in Hin; congruence].
    apply keys_of_elem. exists v. apply (to_map_lookup m raw v (io_keys _ Hi)), Hv.
Qed.

(** ** Insertion *)

Lemma put_roomy m raw (v : V) e : table_of e (index m) -> (len m + 1) * 2 <= 2 ^ e ->
  len m = Z.of_nat (length (iter m)) -> NoDup (keys_of (index m)) ->
  exists p r, probe_loop (length (index m))
        (fun i => match slot_at None (index m) i with
                  | None => Some (i, None)
                  | Some (k, val) => if k =? raw then Some (i, Some val) else None
                  end) (table_mask_of (index m)) (bucket raw (table_mask_of (index m))) = Some (p, r) /\
    r = to_map m !! raw /\ 0 <= p < 2 ^ e /\
    table_of e (slot_set p (Some (raw, v)) (index m)) /\
    match r with
    | Some old => slot_at None (index m) p = Some (raw, old)
    | None => slot_at None (index m) p = None
    end.
Proof using.
  intros Ht Hload Hlen Hnd.
  destruct (walk_spec e (index m) raw (fun i x => match x with None => Some (i, None) | Some (k, val) => if k =? raw then Some (i, Some val) else None end) Ht)
    as (p & r & Hrun & Hp & Hs & Hway & Hno).
  - unfold iter in Hlen. lia.
  - intros i. by eexists.
  - intros i k v'. destruct (Z.eqb_spec k raw); split; done.
  - pose proof (to_len _ _ Ht) as Hl. exists p. destruct (slot_at None (index m) p) as [[k old]|] eqn:Ep.
    + destruct (Z.eqb_spec k raw) as [->|]; [|done]. injection Hs as <-. exists (Some old). split; [exact Hrun|].
      split; [symmetry; eapply to_map_slot; [done| |done]; lia|]. split; [done|]. split; [by apply table_set|done].
    + injection Hs as <-. exists None. split; [exact Hrun|]. split; [symmetry; by apply to_map_None, Hno|].
      split; [done|]. split; [by apply table_set|done].
Qed.
(** Replacing one entry of a list of entries. *)
Lemma perm_replace {A} (x y : A) l l' : x ∈ l -> x :: l' ≡ₚ y :: l -> exists r, l ≡ₚ x :: r /\ l' ≡ₚ y :: r.
Proof using.
  intros Hin Hp. apply elem_of_Permutation in Hin as (r & Hr). exists r. split; [done|].
  apply (Permutation_cons_inv (a := x)). rewrite Hp, Hr. apply perm_swap.
Qed.

Lemma to_map_cons m k (v : V) r : NoDup (keys_of (index m)) -> iter m ≡ₚ (k, v) :: r -> to_map m = <[k := v]> (list_to_map r).
Proof using. intros Hnd Hp. unfold to_map. by rewrite (list_to_map_proper (iter m) ((k, v) :: r)). Qed.

Lemma index_put_spec raw (v : V) m : index_ok m -> exists m', index_put raw v m = Some (to_map m !! raw, m') /\
  index_ok m' /\ to_map m' = <[raw := v]> (to_map m) /\ bits m' = bits m /\ fresh m' = fresh m /\
  (forall k, k ∈ keys_of (index m') <-> k = raw \/ k ∈ keys_of (index m)).
Proof using.
  intros Hok. unfold index_put.
  assert (exists m1, (if Z.of_nat (length (index m)) <? (len m + 1) * 2 then rebuild_index ((len m + 1) * 2) m else Some m) = Some m1 /\
    index_ok m1 /\ iter m1 ≡ₚ iter m /\ (exists e, table_of e (index m1) /\ (len m1 + 1) * 2 <= 2 ^ e) /\ bits m1 = bits m /\ fresh m1 = fresh m) as Hm1.
  { pose proof Hok as [Ht Hlen Hnd]. destruct (Z.ltb_spec (Z.of_nat (length (index m))) ((len m + 1) * 2)) as [Hlt|Hge].
    - destruct (rebuild_spec ((len m + 1) * 2) m ltac:(lia) Hlen Hnd) as (m1 & -> & Hok1 & Hp & Hk & Hl1 & Hb & Hf).
      exists m1. split_and!; try done. destruct (io_table _ Hok1) as [[Hi _]|(e & Ht1 & _)]; [rewrite Hi in Hk; simpl in Hk; lia|].
      exists e. split; [done|]. pose proof (to_len _ _ Ht1). lia.
    - exists m. split_and!; try done. destruct Ht as [[Hi _]|(e & Ht & _)]; [rewrite Hi in Hge; simpl in Hge; lia|].
      exists e. split; [done|]. pose proof (to_len _ _ Ht). lia. }
  destruct Hm1 as (m1 & -> & Hok1 & Hp1 & (e & Ht1 & Hload) & Hb1 & Hf1). simpl.
  assert (Hmap : to_map m1 = to_map m) by (eapply to_map_perm; [apply io_keys, Hok|done|done]).
  assert (Hkeys : forall k, k ∈ keys_of (index m1) <-> k ∈ keys_of (index m)) by (intros k; unfold keys_of; by setoid_rewrite Hp1).
  pose proof Hok1 as [_ Hlen1 Hnd1]. pose proof (to_len _ _ Ht1) as Hl1.
  destruct (put_roomy m1 raw v e Ht1 Hload Hlen1 Hnd1) as (p & r & -> & -> & Hp & Ht' & Hslot). simpl.
  pose proof (omap_set_perm None id (index m1) p (Some (raw, v)) ltac:(lia)) as Hperm. rewrite Hmap in *.
  destruct (to_map m !! raw) as [old|] eqn:Hraw; rewrite Hslot in Hperm; simpl in Hperm.
  - assert ((raw, old) ∈ omap id (index m1)) as Hin by (apply entry_slot_at; exists p; split; [lia|done]).
    destruct (perm_replace _ _ _ _ Hin Hperm) as (r & Hr & Hr').
    assert (Hkeys' : keys_of (slot_set p (Some (raw, v)) (index m1)) ≡ₚ keys_of (index m1)) by (unfold keys_of; by rewrite Hr, Hr').
    eexists. split; [done|]. split_and!; try done.
    + split; simpl; [right; exists e; split; [done|lia]| |].
      * unfold iter in *. simpl. by rewrite Hr', Hlen1, Hr.
      * by rewrite Hkeys'.
    + rewrite <- Hmap. rewrite (to_map_cons m1 raw old r Hnd1 Hr), insert_insert_eq. apply to_map_cons; [|done]. simpl. by rewrite Hkeys'.
    + intros k. simpl. rewrite Hkeys', Hkeys. split; [by right|]. intros [->|]; [|done]. rewrite <- Hkeys. apply keys_of_elem. by exists old.
  - assert (raw ∉ keys_of (index m1)) as Hnew by (apply to_map_None; by rewrite Hmap).
    assert (Hkeys' : keys_of (slot_set p (Some (raw, v)) (index m1)) ≡ₚ raw :: keys_of (index m1)) by (unfold keys_of; by rewrite Hperm).
    eexists. split; [done|]. split_and!; try done.
    + split; simpl; [right; exists e; split; [done|lia]| |].
      * unfold iter in *. simpl. rewrite Hperm. simpl. lia.
      * rewrite Hkeys'. by constructor.
    + rewrite <- Hmap. apply to_map_cons; [|done]. simpl. rewrite Hkeys'. by constructor.
    + intros k. simpl. by rewrite Hkeys', elem_of_cons, Hkeys.
Qed.

(** ** The bitset *)

Lemma bit_test w b : 0 <= b -> negb (Z.land (Z.shiftr w b) 1 =? 0) = Z.testbit w b.
Proof using.
  intros Hb. change 1 with (Z.ones 1) at 1. rewrite Z.land_ones by lia. change (2 ^ 1) with 2. rewrite <- Z.bit0_mod, Z.shiftr_spec, Z.add_0_l by lia.
  by destruct (Z.testbit w b).
Qed.

Lemma lookup_resized (l : list Z) n j :
  (if (length l <=? n)%nat then l ++ replicate (n + 1 - length l) 0 else l) !! j =
  if decide (length l <= j <= n)%nat then Some 0 else l !! j.
Proof using.
  destruct (Nat.leb_spec (length l) n), (decide (length l <= j <= n)%nat); try lia; try done.
  - rewrite lookup_app_r by lia. apply lookup_replicate. lia.
  - destruct (decide (j < length l)%nat); [by rewrite lookup_app_l by lia|].
    rewrite lookup_app_r by lia. rewrite (lookup_ge_None_2 l) by lia. apply lookup_ge_None_2. rewrite length_replicate. lia.
Qed.

Lemma mark_spec m raw k :
  may_contain (mark raw m) k = bool_decide (slot_of_raw k = slot_of_raw raw) || may_contain m k.
Proof using.
  unfold may_contain, mark. simpl. assert (Hs : forall x, 0 <= slot_of_raw x) by (intros x; unfold slot_of_raw; apply Z.land_nonneg; by right).
  pose proof (Hs k) as Hi. pose proof (Hs raw) as Hr. set (i := slot_of_raw k) in *. set (r := slot_of_raw raw) in *. clearbody i r.
  pose proof (Z.mod_pos_bound i 64 ltac:(lia)). pose proof (Z.mod_pos_bound r 64 ltac:(lia)).
  destruct (decide (i / 64 = r / 64)) as [Hq|Hq].
  - rewrite Hq, list_lookup_alter_eq, lookup_resized. pose proof (Z.div_mod i 64 ltac:(lia)). pose proof (Z.div_mod r 64 ltac:(lia)).
    assert (Hbit : forall x, negb (Z.land (Z.shiftr (Z.lor x (Z.shiftl 1 (r mod 64))) (i mod 64)) 1 =? 0) =
      bool_decide (i = r) || Z.testbit x (i mod 64)).
    { intros x. rewrite bit_test by lia. rewrite Z.lor_spec, Z.shiftl_1_l, Z.pow2_bits_eqb by lia. rewrite orb_comm. f_equal.
      destruct (Z.eqb_spec (r mod 64) (i mod 64)); case_bool_decide; try done; lia. }
    destruct (decide _) as [Hd|Hd]; simpl.
    + rewrite Hbit, Z.bits_0, (lookup_ge_None_2 (bits m)) by lia. done.
    + destruct (bits m !! Z.to_nat (r / 64)) as [w|] eqn:Ew; simpl; [by rewrite Hbit, bit_test by lia|].
      apply lookup_ge_None in Ew. lia.
  - assert (i <> r) as Hne by (intros ->; done). rewrite (bool_decide_eq_false_2 _ Hne). simpl.
    pose proof (Z.div_pos i 64 Hi ltac:(lia)). pose proof (Z.div_pos r 64 Hr ltac:(lia)).
    rewrite list_lookup_alter_ne by lia. rewrite lookup_resized. destruct (decide _) as [Hd|Hd]; [|done].
    rewrite (lookup_ge_None_2 (bits m)) by lia. by rewrite Z.shiftr_0_l.
Qed.

Lemma new_ok : hm_ok (@new V).
Proof using. split; [split; simpl; [by left|done|constructor]|]. intros k Hk. by apply not_elem_of_nil in Hk. Qed.

Lemma insert_ok raw (v : V) m : hm_ok m -> exists m', insert raw v m = Some (to_map m !! raw, m') /\
  hm_ok m' /\ to_map m' = <[raw := v]> (to_map m) /\ fresh m' = (fun f => f ++ [raw]) <$> fresh m.
Proof using.
  intros [Hi Hb]. unfold insert. set (m0 := mark raw _).
  assert (Hi0 : index_ok m0) by (destruct Hi as [? ? ?]; by split).
  destruct (index_put_spec raw v m0 Hi0) as (m' & -> & Hi' & Hm' & Hb' & Hf' & Hk'). exists m'. split_and!; [done| |done|done].
  split; [done|]. intros k Hk. apply Hk' in Hk. unfold may_contain. rewrite Hb'. fold (may_contain m0 k). unfold m0. rewrite mark_spec.
  destruct Hk as [->|Hk]; [by rewrite bool_decide_true|]. apply Hb in Hk. apply orb_true_iff. by right.
Qed.

(** ** Deletion

    While the run is shifted back, the only vacant slot that may lie between an
    entry and its home is the hole, and only for entries further than [j]. *)
Definition chained_but (e : Z) t (hole n : Z) : Prop :=
  forall p kv, 0 <= p < 2 ^ e -> slot_at None t p = Some kv ->
    forall i, 0 <= i < dist e (home e kv) p -> slot_at None t (place e (home e kv) i) = None ->
      place e (home e kv) i = hole /\ n < dist e hole p.

Lemma movable_spec e hole j h : 0 <= e -> 0 <= hole < 2 ^ e -> 0 <= j < 2 ^ e -> 0 <= h < 2 ^ e -> hole <> j ->
  movable hole j h = (dist e hole j <=? dist e h j).
Proof using.
  intros He Hhole Hj Hh Hne. rewrite !dist_cases by done. unfold movable. destruct (Z.leb_spec hole j), (Z.leb_spec h j); case_cmp; simpl; try done; exfalso; lia.
Qed.

(** On the way to [p], what lies at a distance of at most the hole's. *)
Lemma dist_place_le e h p i : 0 <= e -> 0 <= i <= dist e h p -> 0 <= p < 2 ^ e -> dist e (place e h i) p = dist e h p - i.
Proof using.
  intros He Hi Hp. pose proof (dist_range e He h p) as Hd. rewrite <- (place_dist e He h p Hp) at 1.
  replace (dist e h p) with (i + (dist e h p - i)) at 1 by lia. rewrite <- (place_place e He). apply dist_place; [done|lia].
Qed.

Lemma home_range e kv : 0 <= e -> 0 <= home e kv < 2 ^ e.
Proof using. intros He. by apply bucket_range. Qed.

Section Shift.
Context (e : Z) (He : 0 <= e).
Let cap : Z := 2 ^ e.

Lemma chained_but_done t hole n j : 0 <= hole < cap -> 0 <= j < cap -> 0 <= n -> slot_at None t j = None ->
  dist e hole j = n + 1 -> chained_but e t hole n -> chained None vac id (home e) e t.
Proof using He.
  intros Hhole Hj Hn Hvac Hjn Hc p kv Hp Hkv i Hi. apply not_true_is_false. intros Hv.
  destruct (slot_at None t (place e (home e kv) i)) eqn:Es; [done|]. unfold id in Hkv.
  destruct (Hc p kv Hp Hkv i Hi Es) as [Hw Hd]. pose proof (dist_range e He hole p) as Hr. fold cap in Hr.
  assert (Hip : dist e hole p = dist e (home e kv) p - i) by (rewrite <- Hw; apply dist_place_le; (done || lia)).
  destruct (decide (p = j)) as [->|Hpj]; [congruence|].
  assert (dist e hole p <> n + 1) as Hne.
  { intros E. apply Hpj. rewrite <- (place_dist e He hole p Hp), <- (place_dist e He hole j Hj). by rewrite E, Hjn. }
  assert (place e (home e kv) (i + (n + 1)) = j) as Hpl.
  { rewrite <- (place_place e He), Hw, <- Hjn. by apply place_dist. }
  destruct (Hc p kv Hp Hkv (i + (n + 1)) ltac:(lia)) as [Hpl' _]; [by rewrite Hpl|].
  rewrite Hpl in Hpl'. rewrite Hpl', dist_refl in Hjn. lia.
Qed.

Lemma chained_but_skip t hole n j kv : 0 <= hole < cap -> 0 <= j < cap -> slot_at None t j = Some kv ->
  dist e hole j = n + 1 -> dist e (home e kv) j < n + 1 -> chained_but e t hole n -> chained_but e t hole (n + 1).
Proof using He.
  intros Hhole Hj Hkv Hd Hh Hc p kv' Hp Hkv' i Hi Hs. destruct (Hc p kv' Hp Hkv' i Hi Hs) as [Hw Hlt]. split; [done|].
  destruct (decide (dist e hole p = n + 1)) as [E|]; [|lia]. exfalso.
  assert (p = j) as -> by (rewrite <- (place_dist e He hole p Hp), <- (place_dist e He hole j Hj); by rewrite E, Hd).
  rewrite Hkv in Hkv'. injection Hkv' as <-. rewrite <- Hw, dist_place_le in Hd by (done || lia). lia.
Qed.

Lemma chained_but_move t hole n j kv : Z.of_nat (length t) = cap -> 0 <= hole < cap -> 0 <= j < cap -> hole <> j ->
  slot_at None t hole = None -> slot_at None t j = Some kv ->
  dist e hole j <= dist e (home e kv) j -> chained_but e t hole n ->
  chained_but e (slot_set j None (slot_set hole (Some kv) t)) j 0.
Proof using He.
  subst cap. intros Hlen Hhole Hj Hne Hhv Hkv Hd Hc p kv' Hp Hs i Hi Hsi. pose proof (place_range e He (home e kv') i) as Hpr.
  rewrite slot_at_set in Hs, Hsi by (rewrite ?length_slot_set; lia). rewrite slot_at_set in Hs, Hsi by lia.
  destruct (decide (j = p)) as [->|Hjp]; [done|].
  assert (0 < dist e j p) as Hjp'. { rewrite dist_cases by done. case_cmp; lia. }
  destruct (decide (j = place e (home e kv') i)) as [Hji|Hji]; [by rewrite <- Hji|]. exfalso.
  destruct (decide (hole = place e (home e kv') i)) as [|Hhi]; [done|]. destruct (decide (hole = p)) as [->|Hhp].
  - injection Hs as <-. assert (Hdd : dist e (home e kv) p = dist e (home e kv) j - dist e p j).
    { pose proof (home_range e kv He) as Hh. rewrite (dist_cases e He p j), (dist_cases e He _ j) in Hd by done.
      rewrite (dist_cases e He p j), (dist_cases e He _ j), (dist_cases e He _ p) by done.
      revert Hd. destruct (Z.leb_spec p j), (Z.leb_spec (home e kv) j), (Z.leb_spec (home e kv) p); lia. }
    pose proof (dist_range e He p j). destruct (Hc j kv Hj Hkv i ltac:(lia) Hsi) as [E _]. done.
  - destruct (Hc p kv' Hp Hs i Hi Hsi) as [E _]. by rewrite E in Hhi.
Qed.

Lemma shift_back_spec q : 0 <= q < cap -> forall fuel t hole n,
  Z.of_nat (length t) = cap -> 0 <= hole < cap -> slot_at None t hole = None -> 0 <= n ->
  chained_but e t hole n -> slot_at None t q = None -> q <> hole ->
  n < dist e hole q -> dist e hole q - n <= Z.of_nat fuel ->
  exists t', shift_back fuel (cap - 1) t hole (place e hole n) = Some t' /\ table_of e t' /\ omap id t' ≡ₚ omap id t.
Proof using He.
  intros Hq. induction fuel as [|fuel IH]; intros t hole n Hlen Hhole Hhv Hn Hc Hqv Hqh Hnq Hfuel; [lia|].
  pose proof (dist_range e He hole q) as Hdq. fold cap in Hdq. cbn [shift_back]. cbv zeta.
  set (j := place e hole (n + 1)). assert (Hjd : Z.land (place e hole n + 1) (cap - 1) = j) by apply (place_step e He). rewrite Hjd. assert (Hj : 0 <= j < cap) by apply (place_range e He).
  assert (Hdj : dist e hole j = n + 1) by (apply dist_place; [done|fold cap; lia]).
  assert (Hjh : hole <> j). { intros E. rewrite <- E, dist_refl in Hdj. lia. }
  destruct (slot_at None t j) as [[k v]|] eqn:Ej.
  - assert (q <> j) as Hqj by congruence.
    assert (dist e hole q <> n + 1) as Hnq'. { intros E. apply Hqj. rewrite <- (place_dist e He hole q Hq), <- (place_dist e He hole j Hj). by rewrite E, Hdj. }
    change (bucket k (cap - 1)) with (home e (k, v)). rewrite (movable_spec e hole j _ He Hhole Hj (home_range e _ He) Hjh), Hdj.
    destruct (Z.leb_spec (n + 1) (dist e (home e (k, v)) j)) as [Hle|Hgt].
    + assert (Hdjq : dist e j q = dist e hole q - (n + 1)) by (unfold j; apply dist_place_le; (done || lia)).
      pose proof (omap_set_perm None id t hole (Some (k, v)) ltac:(lia)) as Hp1. rewrite Hhv in Hp1. simpl in Hp1.
      set (t1 := slot_set hole (Some (k, v)) t) in *. assert (Hlen1 : Z.of_nat (length t1) = cap) by (unfold t1; by rewrite length_slot_set).
      pose proof (omap_set_perm None id t1 j None ltac:(lia)) as Hp2.
      assert (slot_at None t1 j = Some (k, v)) as Hj1 by (unfold t1; rewrite slot_at_set by lia; by rewrite decide_False).
      rewrite Hj1 in Hp2. simpl in Hp2. rewrite Hp1 in Hp2. apply Permutation_cons_inv in Hp2.
      destruct (IH (slot_set j None t1) j 0) as (t' & Hrun & Ht' & Hp'); try done; try lia.
      * by rewrite length_slot_set.
      * rewrite slot_at_set by lia. by rewrite decide_True.
      * apply (chained_but_move t hole n j (k, v)); try done. lia.
      * rewrite slot_at_set by lia. rewrite decide_False by done. unfold t1. rewrite slot_at_set by lia. by rewrite decide_False.
      * exists t'. assert (place e j 0 = j) as Hpj by (rewrite place_0; by apply Z.mod_small). rewrite Hpj in Hrun.
        split; [exact Hrun|]. split; [done|]. by rewrite Hp', Hp2.
    + destruct (IH t hole (n + 1)) as (t' & Hrun & Ht' & Hp'); try done; try lia.
      * by apply (chained_but_skip t hole n j (k, v)).
      * by exists t'.
  - exists t. split; [done|]. split; [|done]. split; [done|done|]. apply (chained_but_done t hole n j); try done.
Qed.
End Shift.

Lemma take_out_ok e t hole kv : table_of e t -> 0 <= hole < 2 ^ e -> slot_at None t hole = Some kv ->
  chained_but e (slot_set hole None t) hole 0.
Proof using.
  intros [He Hlen Hc] Hhole Hkv p kv' Hp Hs i Hi Hsi. pose proof (place_range e He (home e kv') i) as Hpr.
  rewrite slot_at_set in Hs, Hsi by lia. destruct (decide (hole = p)) as [|Hhp]; [done|].
  destruct (decide (hole = place e (home e kv') i)) as [Hw|_].
  - split; [done|]. pose proof (dist_range e He hole p). destruct (decide (dist e hole p = 0)) as [E|]; [|lia].
    destruct Hhp. rewrite <- (place_dist e He hole p Hp), E, place_0. symmetry. by apply Z.mod_small.
  - specialize (Hc p kv' Hp Hs i Hi). rewrite Hsi in Hc. done.
Qed.

Lemma index_remove_spec raw m : index_ok m -> exists m', index_remove raw m = Some (to_map m !! raw, m') /\
  index_ok m' /\ to_map m' = delete raw (to_map m) /\ bits m' = bits m /\ fresh m' = fresh m /\
  (forall k, k ∈ keys_of (index m') -> k ∈ keys_of (index m)).
Proof using.
  intros Hok. unfold index_remove. destruct (find_spec m raw Hok) as (r & -> & Hr). simpl. destruct r as [hole|].
  2:{ rewrite Hr. exists m. split_and!; try done. by rewrite delete_id. }
  destruct Hr as (Hhole & v & Hv & Hmv). rewrite Hv, Hmv. simpl. pose proof Hok as [Ht Hlen Hnd].
  destruct Ht as [[Hi _]|(e & Ht & Hload)]; [rewrite Hi in Hhole; simpl in Hhole; lia|].
  pose proof Ht as [He Hl Hc]. rewrite Hl in Hhole. pose proof (omap_set_perm None id (index m) hole None ltac:(lia)) as Hperm.
  rewrite Hv in Hperm. simpl in Hperm. set (t0 := slot_set hole None (index m)) in *.
  assert (Z.of_nat (length (omap id (index m))) = 1 + Z.of_nat (length (omap id t0))) as Hcount by (rewrite <- Hperm; simpl; lia).
  destruct (count_if_room None (fun x => negb (vac x)) (index m)) as (q & Hq & Hqv).
  { rewrite count_entries. unfold iter in Hlen. lia. }
  apply negb_false_iff in Hqv. assert (Hqn : slot_at None (index m) q = None) by (by destruct (slot_at None (index m) q)).
  assert (q <> hole) as Hqh by congruence. pose proof (dist_range e He hole q) as Hdq. rewrite Hl in Hq.
  assert (0 < dist e hole q) as Hdq0.
  { destruct (decide (dist e hole q = 0)) as [E|]; [|lia]. destruct Hqh. rewrite <- (place_dist e He hole q Hq), E, place_0. by apply Z.mod_small. }
  destruct (shift_back_spec e He q Hq (length (index m)) t0 hole 0) as (t' & Hrun & Ht' & Hp'); try done; try lia.
  - unfold t0. by rewrite length_slot_set.
  - unfold t0. rewrite slot_at_set by lia. by rewrite decide_True.
  - by eapply take_out_ok.
  - unfold t0. rewrite slot_at_set by lia. by rewrite decide_False.
  - rewrite place_0, Z.mod_small in Hrun by done. unfold table_mask_of. rewrite Hl, Hrun. simpl.
    rewrite <- Hp' in Hperm. assert (Hnd' : NoDup (fst <$> (raw, v) :: omap id t')) by (by rewrite Hperm).
    simpl in Hnd'. apply NoDup_cons in Hnd' as [Hnotin Hnd']. eexists. split; [done|]. split_and!; try done.
    + split; simpl; [|unfold iter in *; simpl; rewrite Hp'; lia|done]. right. exists e. split; [done|]. lia.
    + rewrite (to_map_cons m raw v (omap id t')) by (done || by symmetry). rewrite delete_insert_id; [done|].
      apply not_elem_of_list_to_map. done.
    + simpl. intros k Hk. unfold keys_of. rewrite <- Hperm. simpl. by apply elem_of_cons; right.
Qed.

Lemma remove_ok raw m : hm_ok m -> exists m', remove raw m = Some (to_map m !! raw, m') /\
  hm_ok m' /\ to_map m' = delete raw (to_map m) /\ fresh m' = fresh m.
Proof using.
  intros [Hi Hb]. unfold remove. destruct (may_contain m raw) eqn:Em; simpl.
  - destruct (index_remove_spec raw m Hi) as (m' & -> & Hi' & Hm' & Hb' & Hf' & Hk'). exists m'. split_and!; [done| |done|done].
    split; [done|]. intros k Hk. unfold may_contain. rewrite Hb'. by apply Hb, Hk'.
  - assert (to_map m !! raw = None) as Hn. { apply to_map_None. intros Hin. apply Hb in Hin. congruence. }
    exists m. rewrite Hn. split_and!; [done|by split|by rewrite delete_id|done].
Qed.

(** ** The other operations *)

Lemma rebuild_ok k m : 0 <= k -> len m = Z.of_nat (length (iter m)) -> NoDup (keys_of (index m)) -> bits_ok m ->
  exists m', rebuild_index k m = Some m' /\ hm_ok m' /\ to_map m' = to_map m /\ fresh m' = fresh m.
Proof using.
  intros Hk Hlen Hnd Hb. destruct (rebuild_spec k m Hk Hlen Hnd) as (m' & -> & Hi' & Hp & _ & _ & Hb' & Hf').
  exists m'. split_and!; [done| |by apply (to_map_perm m m' (iter m))|done]. split; [done|]. intros x Hx. unfold may_contain. rewrite Hb'.
  apply Hb. unfold keys_of in *. by rewrite <- Hp.
Qed.

Lemma reserve_ok n m : 0 <= n -> hm_ok m -> exists m', reserve n m = Some m' /\ hm_ok m' /\ to_map m' = to_map m /\ fresh m' = fresh m.
Proof using.
  intros Hn [[Ht Hlen Hnd] Hb]. unfold reserve. destruct (_ <? _); [|exists m; by split_and!].
  apply rebuild_ok; try done. lia.
Qed.

Lemma retained_entries f t k (v' : V) : (k, v') ∈ omap id (retain_slot f <$> t) <-> exists v, (k, v) ∈ omap id t /\ f k v = (true, v').
Proof using.
  rewrite list_elem_of_omap. setoid_rewrite list_elem_of_omap. split.
  - intros (x & Hx & E). unfold id in E. subst x. apply list_elem_of_fmap in Hx as ([[k0 v]|] & Hx & Hin); [|done]. simpl in Hx.
    destruct (f k0 v) as [[] v1] eqn:Ef; [|done]. injection Hx as -> ->. exists v. split; [|done]. by exists (Some (k0, v)).
  - intros (v & (x & Hin & Ex) & Ef). unfold id in Ex. subst x. exists (Some (k, v')). split; [|done].
    apply list_elem_of_fmap. exists (Some (k, v)). split; [|done]. simpl. by rewrite Ef.
Qed.

Lemma retained_keys f t : sublist (keys_of (retain_slot f <$> t)) (keys_of t).
Proof using.
  unfold keys_of. induction t as [|[[k v]|] t IH]; [done| |done]. cbn. destruct (f k v) as [[] v'].
  - by apply sublist_skip.
  - by apply sublist_cons.
Qed.

Lemma retain_ok f m : hm_ok m -> exists m', retain f m = Some m' /\ hm_ok m' /\ to_map m' = map_retain f (to_map m) /\ fresh m' = fresh m.
Proof using.
  intros [[Ht Hlen Hnd] Hb]. unfold retain. set (m1 := with_index _ _ m).
  assert (Hnd1 : NoDup (keys_of (index m1))) by (eapply sublist_NoDup; [exact Hnd|apply retained_keys]).
  destruct (rebuild_ok 0 m1) as (m' & -> & Hok' & Hm' & Hf'); [done| |done| |].
  - unfold m1, iter, with_index in *. simpl. lia.
  - intros k Hk. apply (Hb k). eapply elem_of_sublist; [exact Hk|apply retained_keys].
  - exists m'. split_and!; [done|done| |done]. rewrite Hm'. apply map_eq. intros k. apply option_eq. intros v'.
    rewrite to_map_lookup by done. unfold iter, m1. simpl. rewrite retained_entries. unfold map_retain. rewrite map_lookup_imap. split.
    + intros (v & Hin & Ef). apply (to_map_lookup m k v Hnd) in Hin. rewrite Hin. simpl. by rewrite Ef.
    + intros Hx. destruct (to_map m !! k) as [v|] eqn:E; [|done]. simpl in Hx. exists v. split; [by apply to_map_lookup|].
      destruct (f k v) as [[] v1]; [|done]. by injection Hx as ->.
Qed.

Lemma swap_ok a b m : hm_ok m -> exists m', swap_entries a b m = Some m' /\ hm_ok m' /\ to_map m' = map_swap a b (to_map m) /\
  fresh m' = (fun l => l ++ log_if a (delete a (to_map m) !! b) ++ log_if b (to_map m !! a)) <$> fresh m.
Proof using.
  intros Hok. unfold swap_entries, map_swap. destruct (remove_ok a m Hok) as (m1 & -> & Hok1 & Hm1 & Hf1). simpl.
  destruct (remove_ok b m1 Hok1) as (m2 & -> & Hok2 & Hm2 & Hf2). simpl. rewrite Hm1. rewrite Hm1 in Hm2.
  assert (exists m3, (match delete a (to_map m) !! b with Some v => snd <$> insert a v m2 | None => Some m2 end) = Some m3 /\ hm_ok m3 /\
    to_map m3 = map_put a (delete a (to_map m) !! b) (to_map m2) /\ fresh m3 = (fun l => l ++ log_if a (delete a (to_map m) !! b)) <$> fresh m) as (m3 & -> & Hok3 & Hm3 & Hf3).
  { destruct (delete a (to_map m) !! b) as [v|].
    - destruct (insert_ok a v m2 Hok2) as (m3 & -> & ? & ? & Hf3). exists m3. split_and!; try done. by rewrite Hf3, Hf2, Hf1.
    - exists m2. split_and!; try done. rewrite Hf2, Hf1. destruct (fresh m); simpl; [by rewrite app_nil_r|done]. }
  simpl. destruct (to_map m !! a) as [v|].
  - destruct (insert_ok b v m3 Hok3) as (m4 & -> & ? & Hm4 & Hf4). exists m4. split_and!; try done.
    + by rewrite Hm4, Hm3, Hm2.
    + rewrite Hf4, Hf3. destruct (fresh m); simpl; [by rewrite <- app_assoc|done].
  - exists m3. split_and!; try done; [by rewrite Hm3, Hm2|]. rewrite Hf3. destruct (fresh m); simpl; [by rewrite app_nil_r|done].
Qed.

(** ** Every history *)

Definition stands_for m (s : gmap Z V * option (list Z)) : Prop := hm_ok m /\ to_map m = fst s /\ fresh m = snd s.

Lemma same_table m m' : index m' = index m -> bits m' = bits m -> len m' = len m -> hm_ok m -> hm_ok m' /\ to_map m' = to_map m.
Proof using.
  destruct m, m'. simpl. intros -> -> ->. intros [[? ? ?] Hb]. split; [|done]. split; [by split|done].
Qed.

Lemma map_op_refines o m s : stands_for m s -> exists m', run_map_op o m = Some (fst (s_map_op o s), m') /\ stands_for m' (snd (s_map_op o s)).
Proof using.
  destruct s as [g log]. intros (Hok & Hm & Hf). simpl in Hm, Hf. subst g log. unfold stands_for. destruct o; simpl.
  - destruct (insert_ok k v m Hok) as (m' & -> & ? & ? & ?). by exists m'.
  - destruct (remove_ok k m Hok) as (m' & -> & ? & ? & ?). by exists m'.
  - rewrite get_spec by done. by exists m.
  - rewrite contains_key_spec by done. by exists m.
  - destruct (retain_ok f m Hok) as (m' & -> & ? & ? & ?). by exists m'.
  - destruct (swap_ok a b m Hok) as (m' & -> & ? & ? & ?). by exists m'.
  - destruct (reserve_ok (Z.of_nat n) m ltac:(lia) Hok) as (m' & -> & ? & ? & ?). by exists m'.
  - unfold take_fresh. destruct (fresh m) eqn:E; simpl; eexists; (split; [done|]); [|by rewrite E].
    by destruct (same_table m (MkHandleMap (bits m) (index m) (len m) (Some []))).
  - eexists. split; [done|]. by destruct (same_table m (clear_fresh m)).
Qed.

Lemma map_history ops : forall m s, stands_for m s -> exists m', run_map ops m = Some (fst (s_map ops s), m') /\ stands_for m' (snd (s_map ops s)).
Proof using.
  induction ops as [|o ops IH]; intros m s Hs; simpl; [by exists m|].
  destruct (map_op_refines o m s Hs) as (m1 & -> & Hs1). simpl. destruct (s_map_op o s) as [a s1]. simpl in *.
  destruct (IH m1 s1 Hs1) as (m2 & -> & Hs2). simpl. destruct (s_map ops s1) as [l s2]. by exists m2.
Qed.

Lemma iter_to_map m : hm_ok m -> iter m ≡ₚ map_to_list (to_map m).
Proof using. intros [[_ _ Hnd] _]. symmetry. by apply map_to_list_to_map. Qed.
End Spec.

(** C6: a side table keyed by handles, started empty, with or without a log,
    answers every history of insertions, removals, reads, retentions, swaps,
    reservations and takings of the log as a finite map would: no probe loop runs
    for ever, the final entries are the map's, [len] counts them, and the table is
    at most half full. *)
Theorem handle_map_refines {V} (logged : bool) (ops : list (MapOp V)) :
  exists m, run_map ops (if logged then new_logged else new) = Some (fst (s_map ops (∅, if logged then Some [] else None)), m) /\
    snd (s_map ops (∅, if logged then Some [] else None)) = (to_map m, fresh m) /\
    iter m ≡ₚ map_to_list (to_map m) /\ len m = Z.of_nat (size (to_map m)) /\
    2 * len m <= Z.of_nat (length (index m)).
Proof.
  set (m0 := if logged then new_logged else new). set (s0 := (∅, if logged then Some [] else None)).
  assert (Hs0 : stands_for m0 s0).
  { split; [|by destruct logged]. destruct logged; [|apply new_ok]. exact (proj1 (same_table new new_logged eq_refl eq_refl eq_refl new_ok)). }
  destruct (map_history ops m0 s0 Hs0) as (m & Hrun & Hok & Hm & Hf). exists m. split; [done|]. split; [rewrite Hm, Hf; by destruct (s_map ops s0) as [? []]|].
  pose proof (iter_to_map m Hok) as Hp. split; [done|]. pose proof Hok as [[Ht Hlen _] _]. split.
  - rewrite Hlen, Hp. by rewrite length_map_to_list.
  - destruct Ht as [[-> ->]|(e & Ht & Hload)]; [done|]. pose proof (to_len _ _ Ht). lia.
Qed.
