(* ===== verification/CollIndex.v ===== *)
(** * The index of a [Map] or [Set]: [src/src/realm/coll_index.rs]

    An open-addressed table from the hash of a key to the position of its entry.
    A slot packs the 32 folded bits of the hash and the position plus one into a
    word; 0 is an empty slot, [GONE] a removed one, which searches step over and
    insertions reuse.  The index never sees keys: a search is given the test that
    recognises its key at a position.

    A loop has the length of its table as fuel; [None] is a loop that does not
    return. *)

From stdpp Require Import list.
From S2P Require Import Prelude Prog Probe.
Open Scope Z_scope.

(** ** Definitions *)

Definition GONE : Z := 2 ^ 64 - 1.
Definition MIN_SLOTS : Z := 8.

Record CollIndex := MkCollIndex { slots : list Z; used : Z; gone : Z; head : Z }.

(** [CollIndex::default]. *)
Definition default_index : CollIndex := MkCollIndex [] 0 0 0.

Definition fold_hash (hash : Z) : Z := Z.lxor (as_u32 (Z.shiftr hash 32)) (as_u32 hash).

Definition home_slot (h mask : Z) : Z := Z.land (as_u32 (h * 0x9E3779B9)) mask.

Definition packed (h pos : Z) : Z := Z.lor (Z.shiftl h 32) (pos + 1).

(** [while len < bound { len *= 2 }] *)
Fixpoint double_to (fuel : nat) (len bound : Z) : option Z :=
  match fuel with
  | O => None
  | S fuel => if len <? bound then double_to fuel (len * 2) bound else Some len
  end.

Definition with_capacity (n : Z) : option CollIndex :=
  n ← double_to 64 MIN_SLOTS (Z.min (n * 2) (2 ^ 64 - 1));
  Some (MkCollIndex (replicate (Z.to_nat n) 0) 0 0 0).

Definition find (ix : CollIndex) (hash : Z) (is_key : Z -> bool) : option (option Z) :=
  if (length (slots ix) =? 0)%nat then Some None
  else
    let h := fold_hash hash in
    let mask := Z.of_nat (length (slots ix)) - 1 in
    probe_loop (length (slots ix))
      (fun i =>
         let s := slot_at 0 (slots ix) i in
         if s =? 0 then Some None
         else if negb (s =? GONE) && (as_u32 (Z.shiftr s 32) =? h) then
           let pos := as_u32 s - 1 in
           if is_key pos then Some (Some pos) else None
         else None) mask (home_slot h mask).

(** [while self.slots[i] != 0 { .. } self.slots[i] = s] *)
Definition replace_slot (t : list Z) (s : Z) : option (list Z) :=
  let mask := Z.of_nat (length t) - 1 in
  i ← probe_loop (length t) (fun i => if slot_at 0 t i =? 0 then Some i else None) mask
        (home_slot (as_u32 (Z.shiftr s 32)) mask);
  Some (slot_set i s t).

Fixpoint replace_slots (t : list Z) (old : list Z) : option (list Z) :=
  match old with
  | [] => Some t
  | s :: old =>
      if (s =? 0) || (s =? GONE) then replace_slots t old
      else t ← replace_slot t s; replace_slots t old
  end.

Definition grow (ix : CollIndex) : option CollIndex :=
  len ← double_to 64 (Z.max (Z.of_nat (length (slots ix))) MIN_SLOTS) ((used ix + 1) * 4);
  t ← replace_slots (replicate (Z.to_nat len) 0) (slots ix);
  Some (MkCollIndex t (used ix) 0 (head ix)).

Definition insert (hash pos : Z) (ix : CollIndex) : option CollIndex :=
  ix ← (if Z.of_nat (length (slots ix)) <? (used ix + gone ix + 1) * 2 then grow ix else Some ix);
  let h := fold_hash hash in
  let mask := Z.of_nat (length (slots ix)) - 1 in
  '(i, gone') ← probe_loop (length (slots ix))
     (fun i =>
        let s := slot_at 0 (slots ix) i in
        if s =? 0 then Some (i, gone ix)
        else if s =? GONE then Some (i, gone ix - 1)
        else None) mask (home_slot h mask);
  Some (MkCollIndex (slot_set i (packed h pos) (slots ix)) (used ix + 1) gone' (head ix)).

Definition remove (hash pos : Z) (ix : CollIndex) : option CollIndex :=
  if (length (slots ix) =? 0)%nat then Some ix
  else
    let h := fold_hash hash in
    let mask := Z.of_nat (length (slots ix)) - 1 in
    r ← probe_loop (length (slots ix))
          (fun i =>
             let s := slot_at 0 (slots ix) i in
             if s =? 0 then Some None else if s =? packed h pos then Some (Some i) else None)
          mask (home_slot h mask);
    match r with
    | None => Some ix
    | Some i => Some (MkCollIndex (slot_set i GONE (slots ix)) (used ix - 1) (gone ix + 1) (head ix))
    end.

Definition set_head (h : Z) (ix : CollIndex) : CollIndex := MkCollIndex (slots ix) (used ix) (gone ix) h.

(** ** Slots *)

(** The hash bits and the position a slot records. *)
Definition slot_entry (s : Z) : option (Z * Z) :=
  if (s =? 0) || (s =? GONE) then None else Some (s / 2 ^ 32, s mod 2 ^ 32 - 1).

(** The positions an index may record: a slot that holds one is not [GONE]. *)
Definition MAX_POS : Z := 2 ^ 32 - 2.

Definition entry_ok (hp : Z * Z) : Prop := 0 <= fst hp < 2 ^ 32 /\ 0 <= snd hp < MAX_POS.
Definition slot_ok (s : Z) : Prop := s = 0 \/ s = GONE \/ exists hp, entry_ok hp /\ s = packed (fst hp) (snd hp).

(** What an index records: hash bits and positions, with their multiplicity. *)
Definition recorded (ix : CollIndex) : list (Z * Z) := omap slot_entry (slots ix).

Lemma fold_hash_range hash : 0 <= fold_hash hash < 2 ^ 32.
Proof.
  unfold fold_hash, as_u32, wrap_u. rewrite <- !Z.land_ones by lia.
  replace (Z.lxor _ _) with (Z.land (Z.lxor (Z.shiftr hash 32) hash) (Z.ones 32)).
  - rewrite Z.land_ones by lia. by apply Z.mod_pos_bound.
  - apply Z.bits_inj'. intros n Hn. rewrite Z.land_spec, !Z.lxor_spec, !Z.land_spec. by destruct (Z.testbit _ n), (Z.testbit hash n), (Z.testbit (Z.ones 32) n).
Qed.

Lemma packed_sum h p : entry_ok (h, p) -> packed h p = h * 2 ^ 32 + (p + 1).
Proof. intros [Hh Hp]. simpl in *. unfold MAX_POS in *. unfold packed. rewrite lor_pack; lia. Qed.

Lemma packed_entry h p : entry_ok (h, p) -> slot_entry (packed h p) = Some (h, p).
Proof.
  intros Hok. rewrite packed_sum by done. destruct Hok as [Hh Hp]. simpl in *. unfold slot_entry, GONE, MAX_POS in *.
  destruct (Z.eqb_spec (h * 2 ^ 32 + (p + 1)) 0); [lia|]. destruct (Z.eqb_spec (h * 2 ^ 32 + (p + 1)) (2 ^ 64 - 1)); [lia|]. simpl.
  rewrite Z.add_comm, Z.div_add, Z.mod_add, Z.div_small, Z.mod_small by lia. do 2 f_equal. lia.
Qed.

Lemma packed_fields h p : entry_ok (h, p) -> as_u32 (Z.shiftr (packed h p) 32) = h /\ as_u32 (packed h p) - 1 = p /\
  packed h p <> 0 /\ packed h p <> GONE.
Proof.
  intros Hok. rewrite packed_sum by done. destruct Hok as [Hh Hp]. simpl in *. unfold GONE, MAX_POS in *. unfold as_u32, wrap_u.
  rewrite Z.shiftr_div_pow2 by lia. rewrite (Z.add_comm (h * _)), Z.div_add, Z.mod_add, Z.div_small, !Z.mod_small by lia. lia.
Qed.

Lemma packed_inj h p h' p' : entry_ok (h, p) -> entry_ok (h', p') -> packed h p = packed h' p' -> h = h' /\ p = p'.
Proof.
  intros H H' E. pose proof (packed_entry h p H) as E1. rewrite E, packed_entry in E1 by done. by injection E1 as -> ->.
Qed.

Lemma slot_entry_Some s hp : slot_ok s -> slot_entry s = Some hp <-> entry_ok hp /\ s = packed (fst hp) (snd hp).
Proof.
  intros Hs. split.
  - intros E. destruct Hs as [->|[->|([h p] & Hok & ->)]]; [done..|]. rewrite packed_entry in E by done. by injection E as <-.
  - intros [Hok ->]. destruct hp. by apply packed_entry.
Qed.
