(* ===== verification/CollIndexSpec.v ===== *)
(** * What an index promises

    An index records a multiset of pairs, hash bits and position ([recorded]).  A
    search answers a recorded position of the hash that passes the test, if there
    is one; an insertion adds a pair, a removal takes one away, and the rebuilding
    of the table, which they may bring about, changes nothing.  The table is at
    most half full of live and removed slots together, so no search runs on for
    ever. *)

From stdpp Require Import list.
From S2P Require Import Prelude Prog Probe CollIndex.
Open Scope Z_scope.

Definition vac (s : Z) : bool := s =? 0.
Definition home (e : Z) (hp : Z * Z) : Z := home_slot (fst hp) (2 ^ e - 1).

Record table_of (e : Z) (t : list Z) : Prop := {
  to_exp : 0 <= e;
  to_len : Z.of_nat (length t) = 2 ^ e;
  to_slots : Forall slot_ok t;
  to_chain : chained 0 vac slot_entry (home e) e t }.

(** The invariant of an index. *)
Record index_ok (ix : CollIndex) : Prop := {
  ix_table : (slots ix = [] /\ gone ix = 0) \/ exists e, table_of e (slots ix) /\ (used ix + gone ix) * 2 <= 2 ^ e;
  ix_used : used ix = Z.of_nat (length (recorded ix));
  ix_gone : gone ix = count_if (fun s => s =? GONE) (slots ix) }.

(** ** The table *)

Lemma ix_home_range e h : 0 <= e -> 0 <= home_slot h (2 ^ e - 1) < 2 ^ e.
Proof. intros He. unfold home_slot. rewrite land_mask by done. by apply Z.mod_pos_bound, cap_pos. Qed.

Lemma home_mod e h : 0 <= e -> home_slot h (2 ^ e - 1) mod 2 ^ e = home_slot h (2 ^ e - 1).
Proof. intros He. apply Z.mod_small. by apply ix_home_range. Qed.

Lemma vac_entry s : vac s = true -> slot_entry s = None.
Proof. unfold vac, slot_entry. by intros ->. Qed.

Lemma slot_entry_None s : slot_entry s = None <-> s = 0 \/ s = GONE.
Proof. unfold slot_entry. destruct (Z.eqb_spec s 0), (Z.eqb_spec s GONE); simpl; naive_solver. Qed.

(** Slots are vacant, removed or recorded. *)
Lemma count_slots t : count_if (fun s => negb (vac s)) t = Z.of_nat (length (omap slot_entry t)) + count_if (fun s => s =? GONE) t.
Proof.
  unfold count_if, vac. rewrite <- Nat2Z.inj_add. f_equal. induction t as [|s t IH]; [done|]. cbn. unfold slot_entry at 1.
  destruct (Z.eqb_spec s 0) as [->|]; simpl; [done|]. destruct (Z.eqb_spec s GONE); simpl; rewrite IH; lia.
Qed.

Lemma slot_ok_at t i : Forall slot_ok t -> slot_ok (slot_at 0 t i).
Proof.
  intros Ht. unfold slot_at. rewrite nth_lookup. destruct (t !! Z.to_nat i) eqn:E; simpl; [|by left]. by eapply Forall_lookup_1 in Ht.
Qed.

Lemma recorded_at e t hp : table_of e t -> hp ∈ omap slot_entry t <->
  exists p, 0 <= p < 2 ^ e /\ entry_ok hp /\ slot_at 0 t p = packed (fst hp) (snd hp).
Proof.
  intros [He Hlen Hs _]. rewrite (omap_elem_slot 0), Hlen. split.
  - intros (p & Hp & E). exists p. split; [done|]. apply slot_entry_Some; [by apply slot_ok_at|done].
  - intros (p & Hp & E). exists p. split; [done|]. apply slot_entry_Some; [by apply slot_ok_at|done].
Qed.

Lemma table_empty e : 0 <= e -> table_of e (replicate (Z.to_nat (2 ^ e)) 0).
Proof.
  intros He. split; [done|rewrite length_replicate; pose proof (cap_pos e He); lia| |by apply chained_empty].
  apply Forall_replicate. by left.
Qed.

Lemma ix_table_set e t p s : table_of e t -> 0 <= p < 2 ^ e -> slot_ok s -> s <> 0 ->
  (forall hp, slot_entry s = Some hp -> forall j, 0 <= j < dist e (home e hp) p -> vac (slot_at 0 t (place e (home e hp) j)) = false) ->
  table_of e (slot_set p s t).
Proof.
  intros [He Hlen Hs Hc] Hp Hok Hne Hway. split; [done|by rewrite length_slot_set|by apply Forall_insert|].
  apply chained_set; try done. by apply Z.eqb_neq.
Qed.

Lemma empty_recorded n : omap slot_entry (replicate n 0) = [].
Proof. induction n; simpl; auto. Qed.

(** A search from the home of [h] that steps over the slots [stop] lets pass, and
    ends at every vacancy. *)
Lemma ix_walk_spec {R} e t h (stop : Z -> Z -> option R) : table_of e t ->
  count_if (fun s => negb (vac s)) t < 2 ^ e -> (forall i, is_Some (stop i 0)) ->
  exists p r, probe_loop (length t) (fun i => stop i (slot_at 0 t i)) (Z.of_nat (length t) - 1) (home_slot h (Z.of_nat (length t) - 1)) = Some r /\
    0 <= p < 2 ^ e /\ stop p (slot_at 0 t p) = Some r /\
    (forall j, 0 <= j < dist e (home_slot h (2 ^ e - 1)) p -> vac (slot_at 0 t (place e (home_slot h (2 ^ e - 1)) j)) = false) /\
    (slot_at 0 t p = 0 -> forall q pos, 0 <= q < 2 ^ e -> entry_ok (h, pos) -> slot_at 0 t q = packed h pos -> stop q (packed h pos) = None).
Proof.
  intros [He Hlen Hs Hc] Hroom Hzero. rewrite Hlen.
  destruct (chained_walk 0 vac slot_entry (home e) e He t stop (home_slot h (2 ^ e - 1))) as (p & r & Hrun & Hp & Hst & Hway & Hno).
  - done.
  - done.
  - done.
  - apply vac_entry.
  - intros i s ->%Z.eqb_eq. apply Hzero.
  - rewrite home_mod in Hrun by done. exists p, r. split; [done|]. split; [done|]. split; [done|]. split.
    + intros j Hj. specialize (Hway j Hj). apply not_true_is_false. intros Hv%Z.eqb_eq. rewrite Hv in Hway.
      destruct (Hzero (place e (home_slot h (2 ^ e - 1)) j)). congruence.
    + intros Hp0 q pos Hq Hok Hqs. rewrite <- Hqs. apply (Hno ltac:(by rewrite Hp0) q (h, pos) Hq); [|done]. rewrite Hqs. by apply packed_entry.
Qed.

(** ** Searching *)

Lemma index_search_spec ix hash f : index_ok ix -> exists r, find ix hash f = Some r /\
  match r with
  | Some p => (fold_hash hash, p) ∈ recorded ix /\ f p = true
  | None => forall p, (fold_hash hash, p) ∈ recorded ix -> f p = false
  end.
Proof.
  intros [Ht Hused Hgone]. unfold find. destruct Ht as [[Hs _]|(e & Ht & Hload)].
  - unfold recorded. rewrite Hs. exists None. split; [done|]. intros p Hp. by apply not_elem_of_nil in Hp.
  - pose proof (to_len _ _ Ht) as Hl. pose proof (cap_pos e (to_exp _ _ Ht)). destruct (Nat.eqb_spec (length (slots ix)) 0); [lia|].
    destruct (ix_walk_spec e (slots ix) (fold_hash hash) (fun _ s => if s =? 0 then Some None
         else if negb (s =? GONE) && (as_u32 (Z.shiftr s 32) =? fold_hash hash) then
           if f (as_u32 s - 1) then Some (Some (as_u32 s - 1)) else None
         else None) Ht) as (p & r & Hrun & Hp & Hst & _ & Hno).
    + rewrite count_slots, <- Hgone. unfold recorded in Hused. lia.
    + intros i. by eexists.
    + exists r. split; [exact Hrun|]. pose proof (slot_ok_at _ p (to_slots _ _ Ht)) as Hok.
      destruct (Z.eqb_spec (slot_at 0 (slots ix) p) 0) as [E0|E0].
      * injection Hst as <-. intros pos Hin. apply (recorded_at e _ _ Ht) in Hin as (q & Hq & Hent & Hqs). simpl in Hqs.
        specialize (Hno E0 q pos Hq Hent Hqs). destruct (packed_fields _ _ Hent) as (F1 & F2 & F3 & F4).
        apply Z.eqb_neq in F3, F4. rewrite F1, F2, F3, F4, Z.eqb_refl in Hno. cbn [negb andb] in Hno. destruct (f pos); [discriminate Hno|done].
      * destruct (negb _ && _) eqn:Eg; [|done]. apply andb_true_iff in Eg as [Eg%negb_true_iff%Z.eqb_neq Eh%Z.eqb_eq].
        destruct (f _) eqn:Ef; [|done]. injection Hst as <-. split; [|done]. destruct Hok as [|[|([h pos] & Hent & Epk)]]; [done..|].
        simpl in Epk. destruct (packed_fields _ _ Hent) as (F1 & F2 & _). rewrite Epk, F1 in Eh. subst h.
        apply (recorded_at e _ _ Ht). exists p. rewrite Epk, F2. done.
Qed.

(** ** Growing *)

Lemma double_to_spec fuel : forall len bound, 0 < len -> bound <= len * 2 ^ (Z.of_nat fuel - 1) -> (0 < fuel)%nat ->
  exists k, 0 <= k /\ double_to fuel len bound = Some (len * 2 ^ k) /\ bound <= len * 2 ^ k.
Proof.
  induction fuel as [|fuel IH]; intros len bound Hl Hb Hf; [lia|]. cbn [double_to]. destruct (Z.ltb_spec len bound).
  - destruct (decide (fuel = 0%nat)) as [->|Hne].
    + change (2 ^ (Z.of_nat 1 - 1)) with 1 in Hb. lia.
    + destruct (IH (len * 2) bound) as (k & Hk & -> & Hle); [lia| |lia|].
      * replace (Z.of_nat (S fuel) - 1) with (Z.succ (Z.of_nat fuel - 1)) in Hb by lia. rewrite Z.pow_succ_r in Hb by lia. lia.
      * exists (k + 1). rewrite Z.pow_add_r by lia. change (2 ^ 1) with 2. replace (len * (2 ^ k * 2)) with (len * 2 * 2 ^ k) by lia. split_and!; [lia|done|done].
  - exists 0. rewrite Z.pow_0_r, Z.mul_1_r. done.
Qed.

Lemma replace_slot_spec e t s hp : table_of e t -> count_if (fun s => negb (vac s)) t < 2 ^ e -> entry_ok hp -> s = packed (fst hp) (snd hp) ->
  count_if (fun s => s =? GONE) t = 0 ->
  exists t', replace_slot t s = Some t' /\ table_of e t' /\ omap slot_entry t' ≡ₚ hp :: omap slot_entry t /\ count_if (fun s => s =? GONE) t' = 0.
Proof.
  intros Ht Hroom Hent -> Hg. destruct hp as [h pos]. simpl fst; simpl snd. destruct (packed_fields _ _ Hent) as (F1 & _ & F3 & F4).
  unfold replace_slot. rewrite F1.
  destruct (ix_walk_spec e t h (fun i s => if s =? 0 then Some i else None) Ht Hroom) as (p & r & Hrun & Hp & Hst & Hway & _).
  { intros i. by eexists. }
  rewrite Hrun. simpl. destruct (Z.eqb_spec (slot_at 0 t p) 0) as [E0|]; [|done]. injection Hst as <-.
  pose proof (to_len _ _ Ht) as Hl. eexists. split; [done|]. split_and!.
  - apply ix_table_set; [done|done|by right; right; exists (h, pos)|done|]. rewrite packed_entry by done. intros hp [= <-]. exact Hway.
  - pose proof (omap_set_perm 0 slot_entry t p (packed h pos) ltac:(lia)) as Hperm. rewrite E0, packed_entry in Hperm by done. exact Hperm.
  - rewrite (count_if_set 0) by lia. rewrite E0. apply Z.eqb_neq in F4. rewrite F4, Hg. done.
Qed.

Lemma replace_slots_spec e old : forall t, table_of e t -> Forall slot_ok old -> count_if (fun s => s =? GONE) t = 0 ->
  Z.of_nat (length (omap slot_entry t) + length (omap slot_entry old)) < 2 ^ e ->
  exists t', replace_slots t old = Some t' /\ table_of e t' /\ omap slot_entry t' ≡ₚ omap slot_entry old ++ omap slot_entry t /\
    count_if (fun s => s =? GONE) t' = 0.
Proof.
  induction old as [|s old IH]; intros t Ht Hold Hg Hroom; cbn [replace_slots]; [by exists t|].
  apply Forall_cons in Hold as [Hs Hold]. cbn in Hroom |- *. destruct ((s =? 0) || (s =? GONE)) eqn:Ev.
  - assert (slot_entry s = None) as Hn by (unfold slot_entry; by rewrite Ev). rewrite Hn in Hroom |- *. by apply IH.
  - destruct (slot_entry s) as [hp|] eqn:Es; [|unfold slot_entry in Es; by rewrite Ev in Es].
    apply (slot_entry_Some s hp Hs) in Es as [Hent Epk]. simpl in Hroom.
    destruct (replace_slot_spec e t s hp Ht) as (t1 & -> & Ht1 & Hp1 & Hg1); [rewrite count_slots; lia|done..|]. simpl.
    destruct (IH t1 Ht1 Hold Hg1) as (t2 & -> & Ht2 & Hp2 & Hg2); [rewrite Hp1; simpl; lia|]. exists t2. split_and!; [done|done| |done].
    rewrite Hp2, Hp1. by rewrite <- Permutation_middle.
Qed.

Lemma index_grow_spec ix : index_ok ix -> used ix < 2 ^ 60 -> exists ix', grow ix = Some ix' /\ index_ok ix' /\ recorded ix' ≡ₚ recorded ix /\
  head ix' = head ix /\ gone ix' = 0 /\ used ix' = used ix /\ exists e, table_of e (slots ix') /\ (used ix + 1) * 4 <= 2 ^ e.
Proof.
  intros [Ht Hused Hgone] Hmax. unfold grow.
  assert (exists e0, 0 <= e0 /\ Z.max (Z.of_nat (length (slots ix))) MIN_SLOTS = 2 ^ e0) as (e0 & He0 & Hlen).
  { unfold MIN_SLOTS. destruct Ht as [[-> _]|(e & Ht & _)]; [by exists 3|]. rewrite (to_len _ _ Ht). pose proof (to_exp _ _ Ht).
    destruct (Z.le_gt_cases e 3); [exists 3|exists e]; (split; [lia|]).
    - assert (2 ^ e <= 2 ^ 3) by (apply Z.pow_le_mono_r; lia). lia.
    - assert (2 ^ 3 <= 2 ^ e) by (apply Z.pow_le_mono_r; lia). lia. }
  destruct (double_to_spec 64 (2 ^ e0) ((used ix + 1) * 4)) as (k & Hk & Hd & Hle); [by apply cap_pos| |lia|].
  { change (2 ^ (Z.of_nat 64 - 1)) with (2 ^ 63). pose proof (cap_pos e0 He0). nia. }
  rewrite Hlen, Hd. simpl. rewrite <- Z.pow_add_r in Hle |- * by done. set (e := e0 + k) in *. assert (0 <= e) as He by lia.
  destruct (replace_slots_spec e (slots ix) (replicate (Z.to_nat (2 ^ e)) 0)) as (t & -> & Ht' & Hp & Hg); [by apply table_empty| | | |].
  - destruct Ht as [[-> _]|(e1 & Ht & _)]; [constructor|apply (to_slots _ _ Ht)].
  - by apply count_if_replicate.
  - rewrite empty_recorded. unfold recorded in Hused. simpl. lia.
  - rewrite empty_recorded, app_nil_r in Hp. eexists. split; [done|]. split_and!; try done; [split; simpl|by exists e].
    + right. exists e. split; [done|]. lia.
    + unfold recorded in *. simpl. by rewrite Hp.
    + done.
Qed.

(** ** Insertion and removal *)

Lemma index_insert_spec ix hash pos : index_ok ix -> 0 <= pos < MAX_POS -> used ix < 2 ^ 60 ->
  exists ix', insert hash pos ix = Some ix' /\ index_ok ix' /\ recorded ix' ≡ₚ (fold_hash hash, pos) :: recorded ix /\ head ix' = head ix.
Proof.
  intros Hok Hpos Hmax. pose proof (fold_hash_range hash) as Hh. assert (Hent : entry_ok (fold_hash hash, pos)) by done.
  unfold insert.
  assert (exists ix1, (if Z.of_nat (length (slots ix)) <? (used ix + gone ix + 1) * 2 then grow ix else Some ix) = Some ix1 /\ index_ok ix1 /\
    recorded ix1 ≡ₚ recorded ix /\ head ix1 = head ix /\ exists e, table_of e (slots ix1) /\ (used ix1 + gone ix1 + 1) * 2 <= 2 ^ e)
    as (ix1 & -> & Hok1 & Hp1 & Hh1 & e & Ht & Hload).
  { destruct (Z.ltb_spec (Z.of_nat (length (slots ix))) ((used ix + gone ix + 1) * 2)) as [Hlt|Hge].
    - destruct (index_grow_spec ix Hok Hmax) as (ix1 & -> & Hok1 & Hp & Hhd & Hg & Hu & e & Ht & Hle). exists ix1. split_and!; try done.
      exists e. split; [done|]. pose proof (ix_used _ Hok). lia.
    - exists ix. split_and!; try done. pose proof (ix_used _ Hok). pose proof (ix_gone _ Hok) as Hg. pose proof (count_if_le (fun s => s =? GONE) (slots ix)).
      destruct (ix_table _ Hok) as [[Hs _]|(e & Ht & _)]; [rewrite Hs in Hge; simpl in Hge; lia|]. exists e. split; [done|]. pose proof (to_len _ _ Ht). lia. }
  simpl. pose proof Hok1 as [_ Hused Hgone]. pose proof (to_len _ _ Ht) as Hl. destruct (packed_fields _ _ Hent) as (_ & _ & F3 & F4).
  destruct (ix_walk_spec e (slots ix1) (fold_hash hash) (fun i s => if s =? 0 then Some (i, gone ix1) else if s =? GONE then Some (i, gone ix1 - 1) else None) Ht)
    as (p & r & Hrun & Hp & Hst & Hway & _).
  - rewrite count_slots, <- Hgone. unfold recorded in Hused. lia.
  - intros i. by eexists.
  - rewrite Hrun. simpl. set (s0 := slot_at 0 (slots ix1) p) in *.
    assert (exists g', r = (p, g') /\ slot_entry s0 = None /\ g' = gone ix1 - Z.b2z (s0 =? GONE)) as (g' & -> & Hs0 & ->).
    { destruct (Z.eqb_spec s0 0) as [E0|E0]; [injection Hst as <-; exists (gone ix1); rewrite E0; split_and!; [done|done|simpl; lia]|].
      destruct (Z.eqb_spec s0 GONE) as [Eg|]; [|done]. injection Hst as <-. exists (gone ix1 - 1). rewrite Eg. done. }
    pose proof (omap_set_perm 0 slot_entry (slots ix1) p (packed (fold_hash hash) pos) ltac:(lia)) as Hperm.
    fold s0 in Hperm. rewrite Hs0, packed_entry in Hperm by done. simpl in Hperm.
    assert (Hrec : recorded (MkCollIndex (slot_set p (packed (fold_hash hash) pos) (slots ix1)) (used ix1 + 1) (gone ix1 - Z.b2z (s0 =? GONE)) (head ix1))
      ≡ₚ (fold_hash hash, pos) :: recorded ix1) by exact Hperm.
    eexists. split; [done|]. split; [split; cbn [slots used gone]|split; [by rewrite Hrec, Hp1|done]].
    + right. exists e. split; [|destruct (s0 =? GONE); simpl; lia].
      apply ix_table_set; [done|done|by right; right; exists (fold_hash hash, pos)|done|]. rewrite packed_entry by done. intros hp [= <-]. exact Hway.
    + rewrite Hrec. simpl. lia.
    + rewrite (count_if_set 0) by lia. fold s0. apply Z.eqb_neq in F4. rewrite F4, Hgone. simpl. lia.
Qed.

Lemma index_drop_spec ix hash pos : index_ok ix -> 0 <= pos < MAX_POS ->
  exists ix', remove hash pos ix = Some ix' /\ index_ok ix' /\ head ix' = head ix /\
    ((fold_hash hash, pos) ∈ recorded ix -> recorded ix ≡ₚ (fold_hash hash, pos) :: recorded ix') /\
    ((fold_hash hash, pos) ∉ recorded ix -> ix' = ix).
Proof.
  intros Hok Hpos. pose proof (fold_hash_range hash) as Hh. assert (Hent : entry_ok (fold_hash hash, pos)) by done.
  pose proof Hok as [Ht Hused Hgone]. unfold remove. destruct Ht as [[Hs _]|(e & Ht & Hload)].
  - rewrite Hs. exists ix. split_and!; try done. unfold recorded. rewrite Hs. intros Hin. by apply not_elem_of_nil in Hin.
  - pose proof (to_len _ _ Ht) as Hl. pose proof (cap_pos e (to_exp _ _ Ht)). destruct (Nat.eqb_spec (length (slots ix)) 0); [lia|].
    destruct (packed_fields _ _ Hent) as (_ & _ & F3 & F4).
    destruct (ix_walk_spec e (slots ix) (fold_hash hash) (fun i s => if s =? 0 then Some None else if s =? packed (fold_hash hash) pos then Some (Some i) else None) Ht)
      as (p & r & Hrun & Hp & Hst & _ & Hno).
    + rewrite count_slots, <- Hgone. unfold recorded in Hused. lia.
    + intros i. by eexists.
    + rewrite Hrun. simpl. destruct (Z.eqb_spec (slot_at 0 (slots ix) p) 0) as [E0|E0].
      * injection Hst as <-. exists ix. split_and!; try done. intros Hin. apply (recorded_at e _ _ Ht) in Hin as (q & Hq & _ & Hqs).
        specialize (Hno E0 q pos Hq Hent Hqs). cbv beta in Hno. apply Z.eqb_neq in F3. rewrite F3, Z.eqb_refl in Hno. discriminate Hno.
      * destruct (Z.eqb_spec (slot_at 0 (slots ix) p) (packed (fold_hash hash) pos)) as [Epk|]; [|done]. injection Hst as <-.
        assert (Hin : (fold_hash hash, pos) ∈ recorded ix) by (apply (recorded_at e _ _ Ht); by exists p).
        pose proof (omap_set_perm 0 slot_entry (slots ix) p GONE ltac:(lia)) as Hperm. rewrite Epk, packed_entry in Hperm by done.
        assert (slot_entry GONE = None) as Hg0 by done. rewrite Hg0 in Hperm. simpl in Hperm. eexists. split; [done|]. split; [split; cbn [slots used gone]|].
        -- right. exists e. split; [|lia]. apply ix_table_set; [done|done|by right; left|done|]. by rewrite Hg0.
        -- unfold recorded in *. cbn [slots]. rewrite Hused, <- Hperm. simpl. lia.
        -- rewrite (count_if_set 0) by lia. rewrite Epk, Hgone. apply Z.eqb_neq in F4. rewrite F4. simpl. lia.
        -- split_and!; [done|intros _; by symmetry|done].
Qed.

Lemma default_ok : index_ok default_index.
Proof. split; [by left|done|done]. Qed.

Lemma with_capacity_spec n : 0 <= n < 2 ^ 60 -> exists ix, with_capacity n = Some ix /\ index_ok ix /\ recorded ix = [] /\ head ix = 0.
Proof.
  intros Hn. unfold with_capacity, MIN_SLOTS. destruct (double_to_spec 64 8 (Z.min (n * 2) (2 ^ 64 - 1))) as (k & Hk & -> & _); [lia| |lia|].
  - change (2 ^ (Z.of_nat 64 - 1)) with (2 ^ 63). lia.
  - simpl. change 8 with (2 ^ 3). rewrite <- Z.pow_add_r by lia. eexists. split; [done|]. split_and!; [split; cbn [slots used gone]| |done].
    + right. exists (3 + k). split; [apply table_empty; lia|]. pose proof (cap_pos (3 + k) ltac:(lia)). lia.
    + unfold recorded. cbn [slots]. by rewrite empty_recorded.
    + symmetry. by apply count_if_replicate.
    + apply empty_recorded.
Qed.
