(* ===== verification/Float.v ===== *)
(** * Doubles as integers

    The engine keeps small integers in NaN boxes: a cursor, an epoch, a status.
    An [f64] is its 64 bits ([NanBox]); this file has the conversions Rust's [as]
    makes, both ways, and the order of doubles, with the round trip. *)

From S2P Require Import Prelude NanBox.
Open Scope Z_scope.

(** ** Definitions *)

(** [n as f64] of an unsigned integer: rounded to nearest, ties to even. *)
Definition f64_of_uint (n : Z) : Z :=
  if n =? 0 then 0
  else
    let e := Z.log2 n in
    let m :=
      if e <=? 52 then Z.shiftl n (52 - e)
      else
        let sh := e - 52 in
        let q := Z.shiftr n sh in
        let r := n - Z.shiftl q sh in
        let half := Z.shiftl 1 (sh - 1) in
        if (r <? half) || ((r =? half) && Z.even q) then q else q + 1 in
    (e + 1023) * 2 ^ 52 + (m - 2 ^ 52).

(** [x as uN]: truncated, saturating, 0 for NaN. *)
Definition f64_to_uint (w b : Z) : Z :=
  if f64_is_nan b || f64_is_sign_negative b then 0
  else
    let e := Z.land (Z.shiftr b 52) 0x7ff in
    let m := Z.land b (2 ^ 52 - 1) in
    if e <? 1023 then 0 else Z.min (Z.shiftl (2 ^ 52 + m) (e - 1075)) (2 ^ w - 1).

(** [a >= b] on doubles. *)
Definition f64_key (b : Z) : Z := if f64_is_sign_negative b then - f64_abs_bits b else f64_abs_bits b.
Definition f64_ge (a b : Z) : bool :=
  negb (f64_is_nan a) && negb (f64_is_nan b) && (f64_key b <=? f64_key a).

(** ** The round trip *)

Lemma f64_of_uint_small n : 0 < n < 2 ^ 53 ->
  exists e m, 0 <= e <= 52 /\ 0 <= m < 2 ^ 52 /\ f64_of_uint n = (e + 1023) * 2 ^ 52 + m /\ (2 ^ 52 + m) = n * 2 ^ (52 - e).
Proof.
  intros Hn. unfold f64_of_uint. destruct (Z.eqb_spec n 0); [lia|]. pose proof (Z.log2_spec n ltac:(lia)) as Hl.
  pose proof (Z.log2_nonneg n) as H0. assert (Z.log2 n < 53) as Hlt by (apply Z.log2_lt_pow2; lia).
  destruct (Z.leb_spec (Z.log2 n) 52); [|lia]. set (e := Z.log2 n) in *. rewrite Z.shiftl_mul_pow2 by lia.
  exists e, (n * 2 ^ (52 - e) - 2 ^ 52). assert (2 ^ 52 = 2 ^ e * 2 ^ (52 - e)) as Hp by (rewrite <- Z.pow_add_r by lia; f_equal; lia).
  rewrite Z.pow_succ_r in Hl by lia. assert (0 < 2 ^ (52 - e)) by lia. split_and!; try lia; nia.
Qed.

Lemma small_fields n : 0 <= n < 2 ^ 53 -> 0 <= f64_of_uint n < 1076 * 2 ^ 52.
Proof.
  intros Hn. destruct (decide (n = 0)) as [->|]; [done|].
  destruct (f64_of_uint_small n ltac:(lia)) as (e & m & He & Hm & -> & _). lia.
Qed.

Lemma small_plain b : 0 <= b < 1076 * 2 ^ 52 -> f64_is_nan b = false /\ f64_is_sign_negative b = false /\ f64_abs_bits b = b.
Proof.
  intros Hb. assert (f64_abs_bits b = b) as Ha by (rewrite abs_bits; apply Z.mod_small; lia). split_and!; [|..|done].
  - unfold f64_is_nan. rewrite Ha. apply Z.ltb_ge. lia.
  - unfold f64_is_sign_negative. apply Z.bits_above_log2; [lia|]. destruct (decide (b = 0)) as [->|]; [done|]. apply Z.log2_lt_pow2; lia.
Qed.

Lemma f64_uint_roundtrip w n : 0 <= n < 2 ^ 53 -> n < 2 ^ w -> f64_to_uint w (f64_of_uint n) = n.
Proof.
  intros Hn Hw. unfold f64_to_uint. destruct (small_plain _ (small_fields n Hn)) as (-> & -> & _). cbn [orb].
  destruct (decide (n = 0)) as [->|]; [done|]. destruct (f64_of_uint_small n ltac:(lia)) as (e & m & He & Hm & -> & Heq).
  assert (Z.land (Z.shiftr ((e + 1023) * 2 ^ 52 + m) 52) 2047 = e + 1023) as ->.
  { rewrite Z.shiftr_div_pow2, Z.div_add_l, Z.div_small, Z.add_0_r by lia. change 2047 with (Z.ones 11). rewrite Z.land_ones by lia. apply Z.mod_small. lia. }
  assert (Z.land ((e + 1023) * 2 ^ 52 + m) (2 ^ 52 - 1) = m) as ->.
  { change (2 ^ 52 - 1) with (Z.ones 52). rewrite Z.land_ones by lia. rewrite Z.add_comm, Z.mod_add by lia. by apply Z.mod_small. }
  destruct (Z.ltb_spec (e + 1023) 1023); [lia|]. rewrite Heq.
  replace (e + 1023 - 1075) with (- (52 - e)) by lia. rewrite <- Z.shiftr_opp_r, Z.opp_involutive, Z.shiftr_div_pow2 by lia.
  rewrite Z.div_mul by lia. lia.
Qed.

(** A small integer is read back from its box. *)
Lemma as_number_uint n : 0 <= n < 2 ^ 53 -> as_number (number (f64_of_uint n)) = Some (f64_of_uint n).
Proof.
  intros Hn. pose proof (small_fields n Hn) as Hb. destruct (small_plain _ Hb) as (Hnan & _). unfold number. rewrite Hnan. unfold as_number.
  rewrite is_number_eq. cbn [word]. assert (f64_of_uint n / 2 ^ 50 < 1076 * 4) by (apply Z.div_lt_upper_bound; lia).
  assert (0 <= f64_of_uint n / 2 ^ 50) by (apply Z.div_pos; lia). rewrite Z.mod_small by lia.
  destruct (Z.eqb_spec (f64_of_uint n / 2 ^ 50) 8191); [lia|done].
Qed.
