(* ===== verification/Collection.v ===== *)
(** * [Map] and [Set]: the collections of [src/src/realm.rs]

    A collection is a cell of the realm's heap: an insertion-ordered list of
    entries with tombstones, counters, the renumberings of its recent compactions
    and a lookup index built on demand ([CollIndex]).  An iterator is an internal
    array of five numbers.  The operations are programs over the realm, its heap
    and its incremental marker; they read cells with [peek] (outside verification
    mode [Heap::get] is that), write them through the heap's barriers, and have no
    value ([None]) on a panic, or if a probe of the index ran for ever.

    A string cell holds the bytes its rope stands for, a BigInt cell its value; the
    other kinds of cell ([COther]) are compared by handle. *)

From Stdlib Require Import String DecimalString.
From S2P Require Import Prelude Prog Probe CollIndex NanBox Float Heap Gc Shape.

#[local] Abbreviation length := Datatypes.length.
#[local] Open Scope Z_scope.

(** ** Definitions *)

Record Collection := MkCollection {
  c_set : bool; c_weak : bool;
  c_entries : list (NanBox * NanBox);
  c_live : Z; c_iters : Z; c_epoch : Z;
  c_remaps : option (list (Z * list Z));
  c_index : option CollIndex }.

Inductive Cell :=
| CStr (b : list Z)
| CBigInt (n : Z)
| CArray (a : list NanBox)
| CCollection (c : Collection)
| COther.

Definition ref_len (c : Cell) : nat :=
  match c with
  | CArray a => length a
  | CCollection c => length (c_entries c)
  | _ => 0
  end.

Record Realm (P : Type) := MkRealm { heap : Heap Cell P; incremental : option IncrementalMarker }.
Arguments MkRealm {P}. Arguments heap {P}. Arguments incremental {P}.

(** *** Equality and hashing of keys *)

Definition mix (x : Z) : Z :=
  let x := Z.lxor x (Z.shiftr x 33) in
  let x := as_u64 (x * 0xff51afd7ed558ccd) in
  let x := Z.lxor x (Z.shiftr x 33) in
  let x := as_u64 (x * 0xc4ceb9fe1a85ec53) in
  Z.lxor x (Z.shiftr x 33).

Definition BYTES_HASH_K : Z := 0x9E3779B97F4A7C15.
Definition bytes_step (h w : Z) : Z := rotate_left64 (as_u64 (Z.lxor h w * BYTES_HASH_K)) 29.

(** The whole words of [bytes.as_chunks::<8>()], then the padded rest. *)
Fixpoint bytes_words (fuel : nat) (h : Z) (b : list Z) : Z :=
  match fuel with
  | O => h
  | S fuel =>
      if (8 <=? length b)%nat then bytes_words fuel (bytes_step h (from_le_bytes (take 8 b))) (drop 8 b)
      else match b with
           | [] => h
           | _ :: _ => bytes_step h (from_le_bytes (b ++ replicate (8 - length b) 0))
           end
  end.

Definition bytes_hash (tag : Z) (b : list Z) : Z :=
  mix (bytes_words (S (length b)) (Z.lxor (as_u64 (tag * BYTES_HASH_K)) (Z.of_nat (length b))) b).

(** [BigInt]'s [Display]. *)
Definition bigint_display (n : Z) : list Z := bytes (NilZero.string_of_int (Z.to_int n)).

Definition NAN_BITS : Z := 0x7ff8000000000000.

Section Ops.
Context {P : Type} (grow : nat -> nat -> nat).
Implicit Types (r : Realm P) (h : Heap.Handle) (c : Collection).

Definition cell_at r h : option Cell := peek (heap r) h.
Definition coll_at r h : option Collection :=
  match cell_at r h with Some (CCollection c) => Some c | _ => None end.
Definition str_at r (raw : Z) : option (list Z) :=
  match cell_at r (from_raw raw) with Some (CStr b) => Some b | _ => None end.
Definition bigint_at r (raw : Z) : option Z :=
  match cell_at r (from_raw raw) with Some (CBigInt n) => Some n | _ => None end.

Definition strict_equals r (a b : NanBox) : bool :=
  match as_handle a, as_handle b with
  | Some ha, Some hb =>
      if ha =? hb then true
      else
        match str_at r ha, str_at r hb with
        | Some sa, Some sb => (length sa =? length sb)%nat && bool_decide (sa = sb)
        | _, _ =>
            match bigint_at r ha, bigint_at r hb with
            | Some x, Some y => x =? y
            | _, _ => false
            end
        end
  | _, _ => NanBox.strict_equals a b
  end.

Definition number_is_nan (v : NanBox) : bool :=
  match as_number v with Some n => f64_is_nan n | None => false end.

Definition same_value_zero r (a b : NanBox) : bool :=
  strict_equals r a b || (number_is_nan a && number_is_nan b).

Definition same_value r (a b : NanBox) : bool :=
  match as_number a, as_number b with
  | Some x, Some y =>
      (f64_eq x y && (negb (f64_eq x 0) || Bool.eqb (negb (f64_is_sign_negative x)) (negb (f64_is_sign_negative y))))
      || (f64_is_nan x && f64_is_nan y)
  | _, _ => strict_equals r a b
  end.

Definition collection_key_hash r (v : NanBox) : Z :=
  match as_number v with
  | Some n => mix (if f64_is_nan n then NAN_BITS else if f64_eq n 0 then 0 else n)
  | None =>
      match as_handle v with
      | Some raw =>
          match str_at r raw with
          | Some b => bytes_hash 1 b
          | None =>
              match bigint_at r raw with
              | Some n => bytes_hash 2 (bigint_display n)
              | None => mix (Z.lxor raw 0x3333333300000000)
              end
          end
      | None => mix (Z.lxor (word v) 0x4444444400000000)
      end
  end.

(** The test a search gives the index: a quick equality for the common keys. *)
Definition is_key r (entries : list (NanBox * NanBox)) (key : NanBox) (i : Z) : bool :=
  match entries !! Z.to_nat i with
  | None => false
  | Some (k, _) =>
      if word k =? word key then negb (is_hole k)
      else
        match as_number key, as_number k with
        | Some a, Some b => f64_eq a b || (f64_is_nan a && f64_is_nan b)
        | Some _, None | None, Some _ => false
        | None, None => negb (is_hole k) && same_value_zero r k key
        end
  end.

(** *** Writing cells *)

Definition with_heap (hp : Heap Cell P) r : Realm P := MkRealm hp (incremental r).

Definition mut_cell h (f : Cell -> Cell) : prog (Realm P) bool := fun r =>
  '(b, hp) ← get_mut h f (heap r); Some (b, with_heap hp r).
Definition on_coll (f : Collection -> Collection) (x : Cell) : Cell :=
  match x with CCollection c => CCollection (f c) | x => x end.
Definition mut_coll h (f : Collection -> Collection) : prog (Realm P) bool := mut_cell h (on_coll f).
Definition append_coll h (f : Collection -> Collection) : prog (Realm P) bool := fun r =>
  '(b, hp) ← get_mut_append h ref_len (on_coll f) (heap r); Some (b, with_heap hp r).

Definition shade (v : NanBox) (m : option IncrementalMarker) : option IncrementalMarker :=
  match m, as_handle v with
  | Some k, Some raw => Some (mark_grey (from_raw raw) k)
  | m, _ => m
  end.
Definition shade_stored (v : NanBox) : prog (Realm P) unit :=
  modify (fun r => MkRealm (heap r) (shade v (incremental r))).
Definition write_barrier h (v : NanBox) : prog (Realm P) unit :=
  modify (fun r =>
    match as_handle v with
    | Some raw => MkRealm (record_edge h (from_raw raw) OLD_AGE (heap r)) (shade v (incremental r))
    | None => r
    end).

Definition alloc_cell (x : Cell) : prog (Realm P) Heap.Handle := fun r =>
  '(h, hp) ← alloc grow x (heap r); Some (h, with_heap hp r).

Definition set_index (ix : option CollIndex) c : Collection :=
  MkCollection (c_set c) (c_weak c) (c_entries c) (c_live c) (c_iters c) (c_epoch c) (c_remaps c) ix.
Definition set_entries (es : list (NanBox * NanBox)) (lv : Z) c : Collection :=
  MkCollection (c_set c) (c_weak c) es lv (c_iters c) (c_epoch c) (c_remaps c) (c_index c).
Definition set_iters (n : Z) c : Collection :=
  MkCollection (c_set c) (c_weak c) (c_entries c) (c_live c) n (c_epoch c) (c_remaps c) (c_index c).
Definition set_weak c : Collection :=
  MkCollection (c_set c) true (c_entries c) (c_live c) (c_iters c) (c_epoch c) (c_remaps c) (c_index c).

(** *** Making a collection *)

Definition empty_collection (is_set : bool) : Collection := MkCollection is_set false [] 0 0 0 None None.
Definition new_collection (is_set : bool) : prog (Realm P) Heap.Handle := alloc_cell (CCollection (empty_collection is_set)).
Definition set_collection_weak h : prog (Realm P) bool := mut_coll h set_weak.
Definition collection_is_weak r h : bool :=
  match coll_at r h with Some c => c_weak c | None => false end.

(** *** Finding a key *)

Definition collection_index_missing r h : bool :=
  match coll_at r h with
  | Some c => match c_index c with None => true | Some _ => false end
  | None => false
  end.

Fixpoint index_entries r (i : Z) (es : list (NanBox * NanBox)) (map : CollIndex) : option CollIndex :=
  match es with
  | [] => Some map
  | (k, _) :: es =>
      map ← (if is_hole k then Some map else CollIndex.insert (collection_key_hash r k) i map);
      index_entries r (i + 1) es map
  end.

Definition collection_build_index h : prog (Realm P) unit :=
  r ← gets id;
  match coll_at r h with
  | None => mret tt
  | Some c =>
      map ← unwrap (CollIndex.with_capacity (Z.of_nat (length (c_entries c))) ≫= index_entries r 0 (c_entries c));
      mut_coll h (set_index (Some map));;
      mret tt
  end.

Definition collection_index_clear h : prog (Realm P) bool := mut_coll h (set_index None).

Definition collection_find_hashed h (key : NanBox) (hash : Z) : prog (Realm P) (option Z) :=
  r ← gets id;
  when (collection_index_missing r h) (collection_build_index h);;
  r ← gets id;
  match coll_at r h with
  | Some c =>
      match c_index c with
      | Some map => unwrap (CollIndex.find map hash (is_key r (c_entries c) key))
      | None => mret None
      end
  | None => mret None
  end.

Definition collection_find h (key : NanBox) : prog (Realm P) (option Z) :=
  r ← gets id;
  collection_find_hashed h key (collection_key_hash r key).

(** *** Setting, getting, deleting *)

Definition normal_key (key : NanBox) : NanBox :=
  match as_number key with
  | Some n => if f64_eq n 0 && f64_is_sign_negative n then number 0 else key
  | None => key
  end.

(** [entries.push((key, value)); *live += 1; map.insert(hash, i)] *)
Definition push_entry (e : NanBox * NanBox) (ix : option CollIndex) c : Collection :=
  set_index ix (set_entries (c_entries c ++ [e]) (as_u32 (c_live c + 1)) c).

Definition collection_append h (key value : NanBox) (hash : Z) : prog (Realm P) bool :=
  r ← gets id;
  match coll_at r h with
  | None => mret false
  | Some c =>
      ix ← match c_index c with
           | Some map => x ← unwrap (CollIndex.insert hash (Z.of_nat (length (c_entries c))) map); mret (Some x)
           | None => mret None
           end;
      append_coll h (push_entry (key, value) ix);;
      shade_stored key;;
      shade_stored value;;
      mret true
  end.

Definition collection_set h (key value : NanBox) : prog (Realm P) bool :=
  r ← gets id;
  match coll_at r h with
  | None => mret false
  | Some c =>
      let key := normal_key key in
      let value := if c_set c then key else value in
      let hash := collection_key_hash r key in
      pos ← collection_find_hashed h key hash;
      match pos with
      | Some i =>
          if c_set c then mret true
          else
            r ← gets id;
            match coll_at r h with
            | None => mret false
            | Some c =>
                e ← unwrap (c_entries c !! Z.to_nat i);
                mut_coll h (fun c => set_entries (<[Z.to_nat i := (fst e, value)]> (c_entries c)) (c_live c) c);;
                write_barrier h value;;
                mret true
            end
      | None => collection_append h key value hash
      end
  end.

Definition collection_get h (key : NanBox) : prog (Realm P) (option NanBox) :=
  pos ← collection_find h key;
  r ← gets id;
  mret (i ← pos; c ← coll_at r h; e ← c_entries c !! Z.to_nat i; Some (snd e)).

Definition collection_has h (key : NanBox) : prog (Realm P) bool :=
  pos ← collection_find h key;
  mret (match pos with Some _ => true | None => false end).

Definition dead : NanBox * NanBox := (hole, hole).
Definition is_dead (e : NanBox * NanBox) : bool := is_hole (fst e).

Definition collection_clear h : prog (Realm P) unit :=
  mut_coll h (fun c =>
    if c_iters c =? 0 then set_entries [] 0 c
    else set_entries ((fun _ => dead) <$> c_entries c) 0 c);;
  collection_index_clear h;;
  mret tt.

(** [u32::try_from(n).unwrap_or(0)] *)
Definition u32_or_0 (n : Z) : Z := if n <? 2 ^ 32 then n else 0.

Fixpoint dead_run (es : list (NanBox * NanBox)) : nat :=
  match es with
  | e :: es => if is_dead e then S (dead_run es) else O
  | [] => O
  end.
Definition dead_prefix_end (es : list (NanBox * NanBox)) (from : Z) : Z :=
  u32_or_0 (from + Z.of_nat (dead_run (drop (Z.to_nat from) es))).

(** *** Compaction *)

Definition compact_due c : bool :=
  let n_dead := Z.of_nat (length (c_entries c)) - c_live c in
  if c_iters c =? 0 then (16 <? n_dead) && (c_live c <? n_dead) else 4 * c_live c + 1024 <? n_dead.

Fixpoint renumbering (next : Z) (es : list (NanBox * NanBox)) : list Z :=
  match es with
  | [] => [next]
  | e :: es => next :: renumbering (if is_dead e then next else as_u32 (next + 1)) es
  end.

Definition push_remap (epoch : Z) (m : list Z) (rs : option (list (Z * list Z))) : list (Z * list Z) :=
  let rs := default [] rs in
  (if (length rs =? 8)%nat then drop 1 rs else rs) ++ [(epoch, m)].

Definition compacted c : Collection :=
  let map := renumbering 0 (c_entries c) in
  MkCollection (c_set c) (c_weak c) (List.filter (fun e => negb (is_dead e)) (c_entries c)) (c_live c) (c_iters c)
    (as_u32 (c_epoch c + 1))
    (if 0 <? c_iters c then Some (push_remap (c_epoch c) map (c_remaps c)) else None) None.

Definition collection_maybe_compact h : prog (Realm P) bool :=
  mut_coll h (fun c => if compact_due c then compacted c else c).

Definition bury (i : Z) (ix : option CollIndex) c : Collection :=
  set_index ix (set_entries (<[Z.to_nat i := dead]> (c_entries c)) (as_u32 (c_live c - 1)) c).

Definition collection_delete h (key : NanBox) : prog (Realm P) bool :=
  r ← gets id;
  let hash := collection_key_hash r key in
  pos ← collection_find_hashed h key hash;
  match pos with
  | None => mret false
  | Some i =>
      r ← gets id;
      match coll_at r h with
      | None => mret false
      | Some c =>
          unwrap (c_entries c !! Z.to_nat i);;
          ix ← match c_index c with
               | Some map =>
                   map ← unwrap (CollIndex.remove hash i map);
                   mret (Some (if i =? CollIndex.head map
                               then set_head (dead_prefix_end (<[Z.to_nat i := dead]> (c_entries c)) i) map
                               else map))
               | None => mret None
               end;
          mut_coll h (bury i ix);;
          collection_maybe_compact h;;
          mret true
      end
  end.

(** *** Iterators *)

Definition collection_iter_attach h : prog (Realm P) Z :=
  r ← gets id;
  mut_coll h (fun c => set_iters (as_u32 (c_iters c + 1)) c);;
  mret (match coll_at r h with Some c => c_epoch c | None => 0 end).

Definition uint (n : Z) : NanBox := number (f64_of_uint n).
Definition num (v : NanBox) : Z := default 0 (as_number v).

Definition collection_iter_state h (kind : Z) : prog (Realm P) Heap.Handle :=
  epoch ← collection_iter_attach h;
  alloc_cell (CArray [uint kind; uint 0; uint epoch; undefined; uint 0]).

(** [saturating_sub]. *)
Definition collection_iter_detach h : prog (Realm P) bool :=
  mut_coll h (fun c => set_iters (Z.max 0 (c_iters c - 1)) c).

(** [m[i.min(m.len() - 1)]] *)
Definition renumber (i : Z) (m : list Z) : Z := nth (Z.to_nat (Z.min i (Z.of_nat (length m) - 1))) m 0.

(** The cursor carried through the recorded compactions since [from]. *)
Definition carry c (idx from : Z) : option Z :=
  let rs := default [] (c_remaps c) in
  (fun s => Z.min (foldl renumber idx (snd <$> drop (fst s) rs)) (Z.of_nat (length (c_entries c))))
    <$> list_find (fun x : Z * list Z => fst x = from) rs.

Definition raw_len r h : Z := match coll_at r h with Some c => Z.of_nat (length (c_entries c)) | None => 0 end.

Definition collection_iter_rebase h (idx from : Z) (last : option NanBox) : prog (Realm P) (Z * Z) :=
  r ← gets id;
  match coll_at r h with
  | None => mret (idx, from)
  | Some c =>
      if c_epoch c =? from then mret (idx, from)
      else
        match carry c idx from with
        | Some i => mret (i, c_epoch c)
        | None =>
            let len := raw_len r h in
            found ← match last with Some k => collection_find h k | None => mret None end;
            mret (match found with Some q => q + 1 | None => Z.min idx len end, c_epoch c)
        end
  end.

(** The first live entry at [from] or later. *)
Definition live_from (es : list (NanBox * NanBox)) (from : Z) : option Z :=
  let n := dead_run (drop (Z.to_nat from) es) in
  if (Z.to_nat from + n <? length es)%nat then Some (from + Z.of_nat n) else None.

Definition head_of c : Z := match c_index c with Some m => CollIndex.head m | None => 0 end.

Definition collection_next_live r h (from : Z) : option (Z * NanBox * NanBox) :=
  c ← coll_at r h;
  i ← live_from (c_entries c) (Z.max from (head_of c));
  e ← c_entries c !! Z.to_nat i;
  Some (i, fst e, snd e).

(** The new end of the dead prefix, when a search started from the old one. *)
Definition note_head (from : Z) (found : option Z) c : Collection :=
  match c_index c with
  | Some m =>
      if from =? CollIndex.head m
      then set_index (Some (set_head (u32_or_0 (default (Z.of_nat (length (c_entries c))) found)) m)) c
      else c
  | None => c
  end.

Definition store_cursor (pos epoch : Z) (k : NanBox) (x : Cell) : Cell :=
  match x with
  | CArray a => CArray (<[4%nat := uint 1]> (<[3%nat := k]> (<[2%nat := uint epoch]> (<[1%nat := uint (pos + 1)]> a))))
  | x => x
  end.
Definition store_done (x : Cell) : Cell :=
  match x with CArray a => CArray (<[4%nat := uint 2]> a) | x => x end.

Definition collection_iter_advance state coll : prog (Realm P) (option (Z * NanBox * NanBox)) :=
  r ← gets id;
  match cell_at r state with
  | Some (CArray [kind; idx; epoch; last; status]) =>
      if f64_ge (num status) (f64_of_uint 2) then mret None
      else
        let kind := f64_to_uint 8 (num kind) in
        let idx := f64_to_uint 64 (num idx) in
        let epoch := f64_to_uint 32 (num epoch) in
        let last := if f64_ge (num status) (f64_of_uint 1) then Some last else None in
        let current := match coll_at r coll with Some c => c_epoch c =? epoch | None => false end in
        mut_coll coll (fun c =>
          if c_epoch c =? epoch
          then let from := Z.max idx (head_of c) in
               if from =? head_of c then note_head from (live_from (c_entries c) from) c else c
          else c);;
        '(next, now) ← (if current
                        then mret (collection_next_live r coll idx, epoch)
                        else '(i, now) ← collection_iter_rebase coll idx epoch last;
                             r ← gets id;
                             mret (collection_next_live r coll i, now));
        r ← gets id;
        match cell_at r state with
        | Some (CArray _) =>
            match next with
            | None =>
                mut_cell state store_done;;
                collection_iter_detach coll;;
                mret None
            | Some (pos, k, v) =>
                mut_cell state (store_cursor pos now k);;
                write_barrier state k;;
                mret (Some (kind, k, v))
            end
        | _ => mut_cell state id;; mret None
        end
  | _ => mret None
  end.

(** *** Reading *)

Definition collection_size r h : option Z := c_live <$> coll_at r h.
Definition collection_entries r h : option (list (NanBox * NanBox)) :=
  (fun c => List.filter (fun e => negb (is_dead e)) (c_entries c)) <$> coll_at r h.
Definition collection_is_set r h : option bool := c_set <$> coll_at r h.
End Ops.
