(* ===== verification/CollectionBase.v ===== *)
(** * Keys and cells

    What the operations on collections rest on: [same_value_zero] is an
    equivalence and equal keys hash the same; both see a handle only through the
    string or BigInt it names; and a write changes one cell of the realm. *)

From Stdlib Require Import String.
From S2P Require Import Prelude Prog Probe CollIndex NanBox Float Heap HeapInv Gc GcSpec Shape Collection.

#[local] Abbreviation length := Datatypes.length.
#[local] Open Scope Z_scope.

(** Running a program by its first step. *)
Lemma bind_get {S B} (f : S -> prog S B) s : (gets id ≫= f) s = f s s.
Proof. done. Qed.

Lemma bind_bind {S A B C} (m : prog S A) (f : A -> prog S B) (g : B -> prog S C) s : ((m ≫= f) ≫= g) s = (m ≫= fun x => f x ≫= g) s.
Proof. unfold mbind, prog_bind. by destruct (m s) as [[]|]. Qed.

Lemma bind_run {S A B} (m : prog S A) (f : A -> prog S B) s x s' : m s = Some (x, s') -> (m ≫= f) s = f x s'.
Proof. unfold mbind, prog_bind. by intros ->. Qed.

Section Base.
Context {P : Type}.
Implicit Types (r : Realm P) (h : Heap.Handle) (c : Collection).

(** ** What a handle names *)

Definition content_of (x : option Cell) : option (list Z + Z) :=
  match x with
  | Some (CStr b) => Some (inl b)
  | Some (CBigInt n) => Some (inr n)
  | _ => None
  end.
Definition content r (raw : Z) : option (list Z + Z) := content_of (cell_at r (from_raw raw)).

Definition same_contents r r' : Prop := forall raw, content r' raw = content r raw.

Lemma str_at_content r raw : str_at r raw = match content r raw with Some (inl b) => Some b | _ => None end.
Proof using. unfold str_at, content, content_of. by destruct (cell_at r (from_raw raw)) as [[]|]. Qed.

Lemma bigint_at_content r raw : bigint_at r raw = match content r raw with Some (inr n) => Some n | _ => None end.
Proof using. unfold bigint_at, content, content_of. by destruct (cell_at r (from_raw raw)) as [[]|]. Qed.

(** *** Equality of handles *)
Definition ref_equals r (a b : Z) : bool :=
  (a =? b) || match content r a with Some x => bool_decide (content r b = Some x) | None => false end.

Lemma strict_equals_eq r a b : strict_equals r a b =
  match as_handle a, as_handle b with
  | Some ha, Some hb => ref_equals r ha hb
  | _, _ => NanBox.strict_equals a b
  end.
Proof using.
  unfold strict_equals, ref_equals. destruct (as_handle a) as [ha|]; [|done]. destruct (as_handle b) as [hb|]; [|done].
  destruct (Z.eqb_spec ha hb); simpl; [done|]. rewrite !str_at_content, !bigint_at_content.
  destruct (content r ha) as [[sa|na]|] eqn:Ea; destruct (content r hb) as [[sb|nb]|] eqn:Eb; try done.
  - repeat case_bool_decide; rewrite ?andb_true_r, ?andb_false_r; try congruence. subst. by rewrite Nat.eqb_refl.
  - destruct (Z.eqb_spec na nb); case_bool_decide; congruence.
Qed.

(** *** Numbers *)

Lemma f64_eq_nan_l a b : f64_is_nan a = true -> f64_eq a b = false.
Proof using. unfold f64_eq. by intros ->. Qed.
Lemma f64_eq_nan_r a b : f64_is_nan b = true -> f64_eq a b = false.
Proof using. unfold f64_eq. intros ->. by rewrite andb_false_r. Qed.

Lemma f64_eq_true a b : f64_eq a b = true <-> f64_is_nan a = false /\ f64_is_nan b = false /\ (a = b \/ (f64_is_zero a = true /\ f64_is_zero b = true)).
Proof using.
  unfold f64_eq. rewrite !andb_true_iff, orb_true_iff, !negb_true_iff, Z.eqb_eq, andb_true_iff. tauto.
Qed.

Lemma NanBox_eq (a b : NanBox) : word a = word b -> a = b.
Proof using. destruct a, b. simpl. by intros ->. Qed.

Lemma as_number_handle v n : as_number v = Some n -> as_handle v = None.
Proof using. unfold as_number, as_handle, is_handle. by destruct (is_number v). Qed.

(** The key equality by cases. *)
Inductive same_key r (a b : NanBox) : Prop :=
| SK_eq : a = b -> same_key r a b
| SK_nan : number_is_nan a = true -> number_is_nan b = true -> same_key r a b
| SK_zero x y : as_number a = Some x -> as_number b = Some y -> f64_is_zero x = true -> f64_is_zero y = true -> same_key r a b
| SK_content x y k : as_handle a = Some x -> as_handle b = Some y -> content r x = Some k -> content r y = Some k -> same_key r a b
| SK_handle x : as_handle a = Some x -> as_handle b = Some x -> same_key r a b.

Lemma prim_equals a b : NanBox.strict_equals a b = true <->
  (a = b /\ number_is_nan a = false) \/ exists x y, as_number a = Some x /\ as_number b = Some y /\ f64_is_zero x = true /\ f64_is_zero y = true.
Proof using.
  unfold NanBox.strict_equals, number_is_nan, as_number. destruct (is_number a) eqn:Ea; destruct (is_number b) eqn:Eb; simpl.
  - rewrite f64_eq_true. split.
    + intros (Ha & Hb & [E|[Hz Hz']]); [left|right; by exists (word a), (word b)]. split; [by apply NanBox_eq|done].
    + intros [[-> Hn]|(x & y & [= <-] & [= <-] & Hz & Hz')]; [auto|]. split_and!; [by apply f64_zero_not_nan..|auto].
  - rewrite Z.eqb_eq. split; [|intros [[-> _]|(? & ? & _ & ? & _)]; done]. intros E%NanBox_eq. congruence.
  - rewrite Z.eqb_eq. split; [|intros [[-> _]|(? & ? & ? & _)]; done]. intros E%NanBox_eq. congruence.
  - rewrite Z.eqb_eq. split; [|intros [[-> _]|(? & ? & ? & _)]; done]. intros E%NanBox_eq. by left.
Qed.

Lemma same_value_zero_iff r a b : same_value_zero r a b = true <-> same_key r a b.
Proof using.
  unfold same_value_zero. rewrite orb_true_iff, andb_true_iff, strict_equals_eq. split.
  - intros [H|[Ha Hb]]; [|by apply SK_nan].
    destruct (as_handle a) as [ha|] eqn:Ea; [destruct (as_handle b) as [hb|] eqn:Eb|].
    + unfold ref_equals in H. apply orb_true_iff in H as [->%Z.eqb_eq|H]; [by eapply SK_handle|].
      destruct (content r ha) as [k|] eqn:Ek; [|done]. apply bool_decide_eq_true in H. by eapply SK_content.
    + apply prim_equals in H as [[-> _]|(x & y & Hx & Hy & ? & ?)]; [by apply SK_eq|by eapply SK_zero].
    + apply prim_equals in H as [[-> _]|(x & y & Hx & Hy & ? & ?)]; [by apply SK_eq|by eapply SK_zero].
  - intros [->|Ha Hb|x y Hx Hy Hzx Hzy|x y k Hx Hy Hkx Hky|x Hx Hy].
    + destruct (number_is_nan b) eqn:En; [by right|left]. destruct (as_handle b) as [hb|] eqn:Eb.
      * unfold ref_equals. by rewrite Z.eqb_refl.
      * apply prim_equals. by left.
    + by right.
    + left. rewrite (as_number_handle _ _ Hx). apply prim_equals. right. by exists x, y.
    + left. rewrite Hx, Hy. unfold ref_equals. rewrite Hkx, Hky, bool_decide_true by done. apply orb_true_r.
    + left. rewrite Hx, Hy. unfold ref_equals. by rewrite Z.eqb_refl.
Qed.

Lemma svz_refl r a : same_value_zero r a a = true.
Proof using. apply same_value_zero_iff. by apply SK_eq. Qed.

Lemma svz_sym r a b : same_value_zero r a b = true -> same_value_zero r b a = true.
Proof using.
  rewrite !same_value_zero_iff. intros [->|Ha Hb|x y Hx Hy Hzx Hzy|x y k Hx Hy Hkx Hky|x Hx Hy];
    [by apply SK_eq|by apply SK_nan|by eapply SK_zero|by eapply SK_content|by eapply SK_handle].
Qed.

Lemma nan_zero v x : as_number v = Some x -> f64_is_zero x = true -> number_is_nan v = true -> False.
Proof using. unfold number_is_nan. intros -> Hz Hn. apply f64_zero_not_nan in Hz. congruence. Qed.

Lemma nan_handle v x : as_handle v = Some x -> number_is_nan v = true -> False.
Proof using. unfold number_is_nan. intros Hx Hn. destruct (as_number v) eqn:E; [|done]. apply as_number_handle in E. congruence. Qed.

Lemma svz_trans r a b d : same_value_zero r a b = true -> same_value_zero r b d = true -> same_value_zero r a d = true.
Proof using.
  rewrite !same_value_zero_iff.
  intros [->|Ha Hb|x y Hx Hy Hzx Hzy|x y k Hx Hy Hkx Hky|x Hx Hy] H2; [done| | | |];
    destruct H2 as [->|Hb' Hd|x' y' Hx' Hy' Hzx' Hzy'|x' y' k' Hx' Hy' Hkx' Hky'|x' Hx' Hy'];
    try (exfalso; by eauto using nan_zero, nan_handle);
    try (exfalso; apply as_number_handle in Hy; congruence); try (exfalso; apply as_number_handle in Hx'; congruence);
    try (by apply SK_nan); try (by eapply SK_zero); try (by eapply SK_content); try (by eapply SK_handle).
  - eapply SK_content; try done. congruence.
  - assert (y = x') as <- by congruence. by eapply SK_content.
  - assert (x = x') as <- by congruence. by eapply SK_content.
  - eapply SK_handle; [done|]. congruence.
Qed.

#[export] Instance same_value_zero_equivalence r : Equivalence (fun a b => same_value_zero r a b = true).
Proof using. split; [intros a; apply svz_refl|intros a b; apply svz_sym|intros a b d; apply svz_trans]. Qed.

(** *** Hashes *)

Lemma svz_hash r a b : same_value_zero r a b = true -> collection_key_hash r a = collection_key_hash r b.
Proof using.
  rewrite same_value_zero_iff. unfold collection_key_hash. intros [->|Ha Hb|x y Hx Hy Hzx Hzy|x y k Hx Hy Hkx Hky|x Hx Hy].
  - done.
  - unfold number_is_nan in *. destruct (as_number a); [|done]. destruct (as_number b); [|done]. by rewrite Ha, Hb.
  - rewrite Hx, Hy, !f64_eq_0, Hzx, Hzy, !f64_zero_not_nan by done. done.
  - assert (as_number a = None) as -> by (destruct (as_number a) eqn:E; [apply as_number_handle in E; congruence|done]).
    assert (as_number b = None) as -> by (destruct (as_number b) eqn:E; [apply as_number_handle in E; congruence|done]).
    rewrite Hx, Hy, !str_at_content, !bigint_at_content, Hkx, Hky. destruct k; done.
  - assert (as_number a = None) as -> by (destruct (as_number a) eqn:E; [apply as_number_handle in E; congruence|done]).
    assert (as_number b = None) as -> by (destruct (as_number b) eqn:E; [apply as_number_handle in E; congruence|done]).
    by rewrite Hx, Hy.
Qed.

Lemma svz_same_contents r r' a b : same_contents r r' -> same_value_zero r' a b = same_value_zero r a b.
Proof using.
  intros Hs. unfold same_value_zero. f_equal. rewrite !strict_equals_eq. unfold ref_equals.
  destruct (as_handle a) as [ha|]; [|done]. destruct (as_handle b) as [hb|]; [|done]. by rewrite !Hs.
Qed.

Lemma hash_same_contents r r' a : same_contents r r' -> collection_key_hash r' a = collection_key_hash r a.
Proof using.
  intros Hs. unfold collection_key_hash. destruct (as_number a); [done|]. destruct (as_handle a); [|done].
  by rewrite !str_at_content, !bigint_at_content, !Hs.
Qed.

(** ** Writes *)

Definition realm_ok r : Prop := wf (heap r) /\ poison (heap r) = None.

Lemma store_peek (h : Heap.Handle) (hp hp1 : Heap Cell P) s s' v w : slots hp !! Heap.index h = Some s -> slot_generation s = generation h ->
  value s = Some v -> slot_generation s' = slot_generation s -> value s' = Some w -> slots hp1 = slots hp ->
  forall h', peek (with_slots (<[Heap.index h := s']> (slots hp1)) hp1) h' = if bool_decide (h' = h) then Some w else peek hp h'.
Proof using.
  intros Hs Hg Hv Hg' Hv' Hsl h'. unfold peek. cbn [slots with_slots]. rewrite Hsl. pose proof (lookup_lt_Some _ _ _ Hs).
  destruct (decide (Heap.index h = Heap.index h')) as [Ei|Hn].
  - rewrite <- Ei, list_lookup_insert_eq, Hs by done. cbn. unfold slot_get. rewrite Hg', Hv', Hv, Hg.
    destruct (Z.eqb_spec (generation h) (generation h')) as [Eg|Eg].
    + rewrite bool_decide_eq_true_2; [done|]. destruct h, h'. cbn in *. congruence.
    + rewrite bool_decide_eq_false_2; [done|]. by intros ->.
  - rewrite list_lookup_insert_ne by done. rewrite bool_decide_eq_false_2; [done|]. by intros ->.
Qed.

Lemma append_peek h from f (hp : Heap Cell P) x : poison hp = None -> peek hp h = Some x ->
  exists hp', get_mut_append h from f hp = Some (true, hp') /\ poison hp' = None /\
    forall h', peek hp' h' = if bool_decide (h' = h) then Some (f x) else peek hp h'.
Proof using.
  intros Hp Hx. unfold get_mut_append, gc_verify. rewrite Hp. cbn [mbind option_bind]. pose proof Hx as Hpk. unfold peek in Hx.
  destruct (slots hp !! Heap.index h) as [s|] eqn:Hs; [|done]. cbn in Hx. unfold slot_get in Hx.
  destruct (Z.eqb_spec (slot_generation s) (generation h)) as [Hg|]; [|done]. cbn [negb]. rewrite Hx.
  assert (Hgo : forall (s' : Slot Cell) (hp1 : Heap Cell P), slots hp1 = slots hp -> slot_generation s' = slot_generation s -> value s' = Some (f x) ->
    forall h', peek (with_slots (<[Heap.index h := s']> (slots hp1)) hp1) h' = if bool_decide (h' = h) then Some (f x) else peek hp h').
  { intros s' hp1 H1 H2 H3. by apply (store_peek h hp hp1 s s' x (f x)). }
  destruct (_ && _); [|by eexists; split_and!; [done|done|apply Hgo]].
  destruct (_ && _); [by eexists; split_and!; [done|done|apply Hgo]|].
  destruct (_ <=? SCAN_MAX); eexists; (split; [done|]); (split; [by destruct (dirty s =? CLEAN)|]); apply Hgo; by destruct (dirty s =? CLEAN).
Qed.

Lemma remember_peek i (hp : Heap Cell P) h : peek (remember i hp) h = peek hp h.
Proof using.
  unfold remember. destruct (slots hp !! i) as [s|] eqn:Hs; [|done]. destruct (_ && _); [|done]. unfold peek. cbn [slots with_slots].
  assert (slots (if dirty s =? CLEAN then with_remembered (remembered hp ++ [i]) hp else hp) = slots hp) as -> by (by destruct (dirty s =? CLEAN)).
  destruct (decide (i = Heap.index h)) as [->|Hn].
  - rewrite list_lookup_insert_eq by (by eapply lookup_lt_Some). by rewrite Hs.
  - by rewrite list_lookup_insert_ne.
Qed.

Lemma remember_poison i (hp : Heap Cell P) : poison (remember i hp) = poison hp.
Proof using.
  unfold remember. destruct (slots hp !! i) as [s|]; [|done]. destruct (_ && _); [|done]. by destruct (dirty s =? CLEAN).
Qed.

(** [r'] is [r] with the cell of [h] replaced. *)
Record writes r r' h (x : Cell) : Prop := {
  w_ok : realm_ok r';
  w_here : cell_at r' h = Some x;
  w_else : forall h', h' <> h -> cell_at r' h' = cell_at r h' }.

(** The same cells. *)
Definition same_cells r r' : Prop := realm_ok r' /\ forall h, cell_at r' h = cell_at r h.

Lemma writes_trans r r1 r2 h x y : writes r r1 h x -> writes r1 r2 h y -> writes r r2 h y.
Proof using. intros [_ _ H1] [H2 H3 H4]. split; [done|done|]. intros h' Hh'. by rewrite H4, H1. Qed.

Lemma writes_same r r1 r2 h x : writes r r1 h x -> same_cells r1 r2 -> writes r r2 h x.
Proof using. intros [_ H1 H2] [Ho Hs]. split; [done|by rewrite Hs|]. intros h' Hh'. by rewrite Hs, H2. Qed.

Lemma same_writes r r1 r2 h x : same_cells r r1 -> writes r1 r2 h x -> writes r r2 h x.
Proof using. intros [Ho Hs] [H1 H2 H3]. split; [done|done|]. intros h' Hh'. by rewrite H3. Qed.

Lemma same_cells_refl r : realm_ok r -> same_cells r r.
Proof using. done. Qed.

Lemma same_cells_trans r r1 r2 : same_cells r r1 -> same_cells r1 r2 -> same_cells r r2.
Proof using. intros [_ H1] [Ho H2]. split; [done|]. intros h. by rewrite H2. Qed.

Lemma writes_self r h x : realm_ok r -> cell_at r h = Some x -> writes r r h x.
Proof using. by split. Qed.

Lemma mut_cell_spec r h f x : realm_ok r -> cell_at r h = Some x -> exists r', mut_cell h f r = Some (true, r') /\ writes r r' h (f x).
Proof using.
  intros [Hw Hp] Hx. unfold mut_cell, get_mut, gc_verify. rewrite Hp. cbn [mbind option_bind].
  pose proof (peek_mut_wf (heap r) h f Hw) as Hw'. pose proof (peek_mut_poison h f (heap r)) as Hp'.
  pose proof (fun h' => peek_mut_peek h f (heap r) h') as Hpk.
  assert (fst (peek_mut h f (heap r)) = true) as Hb.
  { unfold cell_at, peek in Hx. unfold peek_mut. destruct (slots (heap r) !! Heap.index h) as [s|]; [|done]. cbn in Hx. unfold slot_get in Hx.
    destruct (_ =? _); [|done]. cbn [negb]. rewrite Hx. by destruct (_ && _). }
  destruct (peek_mut h f (heap r)) as [b hp]. cbn [fst snd] in *. subst b. eexists. split; [done|]. split.
  - split; [done|]. cbn. by rewrite Hp'.
  - unfold cell_at. cbn. rewrite Hpk, bool_decide_true by done. unfold cell_at in Hx. by rewrite Hx.
  - intros h' Hh'. unfold cell_at. cbn. by rewrite Hpk, bool_decide_false.
Qed.

(** A cell can be allocated. *)
Definition room r : Prop := (0 < free_top (heap r))%nat \/ Z.of_nat (length (slots (heap r))) < U32_MAX.

Lemma peek_mut_table h f (hp : Heap Cell P) : free_top (peek_mut h f hp).2 = free_top hp /\ length (slots (peek_mut h f hp).2) = length (slots hp).
Proof using.
  unfold peek_mut. destruct (slots hp !! Heap.index h) as [s|]; [|done]. destruct (negb _); [done|]. destruct (value s); [|done].
  destruct (_ && _); cbn [snd slots with_slots free_top]; rewrite length_insert; [by destruct (dirty s =? CLEAN)|done].
Qed.

Lemma mut_cell_room r h f b r' : realm_ok r -> mut_cell h f r = Some (b, r') -> room r -> room r'.
Proof using.
  intros [_ Hp] Hrun. unfold mut_cell, get_mut, gc_verify in Hrun. rewrite Hp in Hrun. cbn [mbind option_bind] in Hrun.
  destruct (peek_mut_table h f (heap r)) as [H1 H2]. destruct (peek_mut h f (heap r)) as [b' hp]. injection Hrun as <- <-.
  unfold room. cbn [heap with_heap snd] in *. by rewrite H1, H2.
Qed.

Lemma mut_coll_spec r h f c : realm_ok r -> coll_at r h = Some c ->
  exists r', mut_coll h f r = Some (true, r') /\ writes r r' h (CCollection (f c)).
Proof using.
  unfold coll_at. intros Hr Hc. destruct (cell_at r h) as [[]|] eqn:E; try done. injection Hc as ->.
  exact (mut_cell_spec r h (on_coll f) _ Hr E).
Qed.

Lemma append_coll_spec r h f c : realm_ok r -> coll_at r h = Some c ->
  exists r', append_coll h f r = Some (true, r') /\ writes r r' h (CCollection (f c)).
Proof using.
  unfold coll_at. intros [Hw Hp] Hc. destruct (cell_at r h) as [[]|] eqn:E; try done. injection Hc as ->.
  destruct (append_peek h ref_len (on_coll f) (heap r) _ Hp E) as (hp' & Hrun & Hp' & Hpk).
  pose proof (get_mut_append_wf _ _ _ _ _ _ Hw Hrun) as Hw'. unfold append_coll. rewrite Hrun. cbn [mbind option_bind].
  eexists. split; [done|]. split; [done| |].
  - unfold cell_at. cbn. by rewrite Hpk, bool_decide_true.
  - intros h' Hh'. unfold cell_at. cbn. by rewrite Hpk, bool_decide_false.
Qed.

Lemma write_barrier_spec r h v : realm_ok r -> exists r', write_barrier h v r = Some (tt, r') /\ same_cells r r'.
Proof using.
  intros [Hw Hp]. unfold write_barrier, modify. eexists. split; [done|]. destruct (as_handle v) as [raw|]; [|done]. split.
  - split; cbn; [by apply record_edge_wf|]. unfold record_edge. destruct (_ && _); [by rewrite remember_poison|done].
  - intros h'. unfold cell_at. cbn. unfold record_edge. destruct (_ && _); [by rewrite remember_peek|done].
Qed.

Lemma shade_stored_spec r v : realm_ok r -> exists r', shade_stored v r = Some (tt, r') /\ same_cells r r'.
Proof using. intros Hr. unfold shade_stored, modify. by eexists. Qed.

Lemma alloc_cell_spec grow r x : realm_ok r -> room r ->
  exists h r', alloc_cell grow x r = Some (h, r') /\ cell_at r h = None /\ writes r r' h x.
Proof using.
  intros [Hw Hp] Hroom. destruct (alloc_correct grow (heap r) x Hw Hroom) as (h & hp' & Ha & Hw' & Hn & Hs & Ho & _).
  unfold alloc_cell. rewrite Ha. cbn [mbind option_bind]. exists h. eexists. split; [done|]. split; [done|]. split; [|done|done].
  split; [done|]. cbn. by rewrite (alloc_poison grow x h (heap r) hp').
Qed.

(** A write that leaves strings and BigInts as they are changes no content. *)
Lemma writes_content r r' h x : writes r r' h x -> content_of (cell_at r h) = None -> content_of (Some x) = None -> same_contents r r'.
Proof using.
  intros [_ Hh He] Hc Hx raw. unfold content. destruct (decide (from_raw raw = h)) as [->|Hne]; [by rewrite Hh, Hc, Hx|]. by rewrite He.
Qed.

Lemma same_cells_content r r' : same_cells r r' -> same_contents r r'.
Proof using. intros [_ H] raw. unfold content. by rewrite H. Qed.

Lemma same_contents_trans r r1 r2 : same_contents r r1 -> same_contents r1 r2 -> same_contents r r2.
Proof using. intros H1 H2 raw. by rewrite H2. Qed.

Lemma coll_at_cell r h c : coll_at r h = Some c <-> cell_at r h = Some (CCollection c).
Proof using. unfold coll_at. destruct (cell_at r h) as [[]|]; naive_solver. Qed.

Lemma writes_coll r r' h c c' : writes r r' h (CCollection c') -> coll_at r h = Some c -> coll_at r' h = Some c' /\ same_contents r r'.
Proof using.
  intros Hw Hc. split; [apply coll_at_cell, (w_here _ _ _ _ Hw)|]. apply coll_at_cell in Hc.
  eapply writes_content; [exact Hw| |done]. by rewrite Hc.
Qed.
End Base.
