(* ===== verification/CollectionList.v ===== *)
(** * Lists of entries with tombstones

    The specification of a [Map] or [Set] is ECMAScript's: a list of entries and
    empty slots that is never compacted, whose operations look at every slot.  The
    engine's list is such a list too ([view]), and where no two live keys are equal
    its operations, which touch one slot, are the specification's.  What an
    iterator has ahead of it is the list of live entries from its position on, and
    the operations change that in the same way whatever list it is read from. *)

From S2P Require Import Prelude Prog NanBox Collection.
Open Scope Z_scope.

Abbreviation entry := (NanBox * NanBox)%type.

(** ** Definitions *)

Definition view (es : list entry) : list (option entry) := (fun e => if is_dead e then None else Some e) <$> es.
Definition lives (l : list (option entry)) : list entry := omap id l.

Section Spec.
Context (eqv : NanBox -> NanBox -> bool).
Implicit Types (l : list (option entry)) (k v : NanBox) (e : entry).

Definition hits k (o : option entry) : bool := match o with Some e => eqv (fst e) k | None => false end.
Definition put_entry k v e : entry := if eqv (fst e) k then (fst e, v) else e.
Definition s_update k v l : list (option entry) := (fun o : option entry => put_entry k v <$> o) <$> l.
Definition s_remove k l : list (option entry) := (fun o => if hits k o then None else o) <$> l.
Definition s_lookup k l : option entry := List.find (fun e => eqv (fst e) k) (lives l).
Definition s_put (is_set : bool) k v l : list (option entry) :=
  match s_lookup k l with
  | Some _ => if is_set then l else s_update k v l
  | None => l ++ [Some (k, v)]
  end.
Definition s_clear l : list (option entry) := (fun _ => None) <$> l.

(** No two live keys are equal. *)
Definition distinct l : Prop := StronglySorted (fun e e' => eqv (fst e) (fst e') = false) (lives l).

(** What an iterator at [i] of [l] and one at [j] of [l'] have ahead is the same. *)
Definition same_rest l (i : nat) l' (j : nat) : Prop :=
  (i <= length l)%nat /\ (j <= length l')%nat /\ lives (drop i l) = lives (drop j l').

Lemma put_fst k v e : fst (put_entry k v e) = fst e.
Proof using. unfold put_entry. by destruct (eqv (fst e) k). Qed.

(** ** Live entries *)

Lemma lives_app l l' : lives (l ++ l') = lives l ++ lives l'.
Proof using. apply omap_app. Qed.

Lemma lives_split i l : lives l = lives (take i l) ++ lives (drop i l).
Proof using. by rewrite <- lives_app, take_drop. Qed.

Lemma lives_update k v l : lives (s_update k v l) = put_entry k v <$> lives l.
Proof using. induction l as [|[e|] l IH]; [done| |done]. cbn. by f_equal. Qed.

Lemma lives_remove k l : lives (s_remove k l) = List.filter (fun e => negb (eqv (fst e) k)) (lives l).
Proof using. induction l as [|[e|] l IH]; [done| |done]. cbn. destruct (eqv (fst e) k); cbn; [done|by f_equal]. Qed.

Lemma lives_clear l : lives (s_clear l) = [].
Proof using. by induction l. Qed.

Lemma lives_Some (es : list entry) : lives (Some <$> es) = es.
Proof using. induction es as [|e es IH]; [done|]. cbn. by f_equal. Qed.

Lemma lives_elem l e : e ∈ lives l <-> exists p, l !! p = Some (Some e).
Proof using.
  unfold lives. rewrite list_elem_of_omap. split.
  - intros (o & Hin & E). unfold id in E. subst o. apply list_elem_of_lookup in Hin. done.
  - intros (p & Hp). exists (Some e). split; [by eapply list_elem_of_lookup_2|done].
Qed.

Lemma lives_none p l : l !! p = Some None -> lives (<[p := None]> l) = lives l.
Proof using. intros Hp. by rewrite list_insert_id. Qed.

Lemma lives_bury p l e : l !! p = Some (Some e) -> length (lives l) = S (length (lives (<[p := None]> l))).
Proof using.
  revert p. induction l as [|o l IH]; intros [|p] Hp; simplify_eq/=; [done|]. destruct o; cbn; rewrite (IH p) by done; done.
Qed.

Lemma lives_length l : (length (lives l) <= length l)%nat.
Proof using. unfold lives. induction l as [|[e|] l IH]; cbn in *; lia. Qed.

(** ** What lies ahead *)

Lemma rest_update k v l i l' j : same_rest l i l' j -> same_rest (s_update k v l) i (s_update k v l') j.
Proof using.
  intros (Hi & Hj & E). unfold same_rest, s_update. rewrite !length_fmap, <- !fmap_drop. split_and!; [done..|].
  change (lives (s_update k v (drop i l)) = lives (s_update k v (drop j l'))). by rewrite !lives_update, E.
Qed.

Lemma rest_remove k l i l' j : same_rest l i l' j -> same_rest (s_remove k l) i (s_remove k l') j.
Proof using.
  intros (Hi & Hj & E). unfold same_rest, s_remove. rewrite !length_fmap, <- !fmap_drop. split_and!; [done..|].
  change (lives (s_remove k (drop i l)) = lives (s_remove k (drop j l'))). by rewrite !lives_remove, E.
Qed.

Lemma rest_append o l i l' j : same_rest l i l' j -> same_rest (l ++ [o]) i (l' ++ [o]) j.
Proof using.
  intros (Hi & Hj & E). unfold same_rest. rewrite !length_app. split_and!; [lia..|]. rewrite !drop_app_le by done.
  by rewrite !lives_app, E.
Qed.

Lemma rest_clear l i l' j : same_rest l i l' j -> same_rest (s_clear l) i (s_clear l') j.
Proof using.
  intros (Hi & Hj & _). unfold same_rest, s_clear. rewrite !length_fmap, <- !fmap_drop. split_and!; [done..|].
  change (lives (s_clear (drop i l)) = lives (s_clear (drop j l'))). by rewrite !lives_clear.
Qed.

Lemma rest_lookup k l l' : same_rest l 0 l' 0 -> s_lookup k l = s_lookup k l'.
Proof using. intros (_ & _ & E). unfold s_lookup. rewrite !drop_0 in E. by rewrite E. Qed.

Lemma rest_put is_set k v l i l' j : s_lookup k l = s_lookup k l' -> same_rest l i l' j ->
  same_rest (s_put is_set k v l) i (s_put is_set k v l') j.
Proof using.
  intros El H. unfold s_put. rewrite El. destruct (s_lookup k l'); [destruct is_set; [done|by apply rest_update]|by apply rest_append].
Qed.

(** Dropping the empty slots renumbers the positions and changes nothing ahead. *)
Lemma rest_compact l i l' j : same_rest l i l' j -> same_rest (Some <$> lives l) (length (lives (take i l))) l' j.
Proof using.
  intros (Hi & Hj & E). unfold same_rest. rewrite length_fmap. split_and!; [rewrite (lives_split i l), length_app; lia|done|].
  rewrite <- fmap_drop, lives_Some, <- E. rewrite (lives_split i l). by rewrite drop_app_length.
Qed.
End Spec.

(** ** One slot or all of them *)
Section Distinct.
Context (eqv : NanBox -> NanBox -> bool) {Heqv : Equivalence (fun a b => eqv a b = true)}.
Implicit Types (l : list (option entry)) (k v : NanBox) (e : entry).

Lemma eqv_sym a b : eqv a b = true -> eqv b a = true.
Proof using Heqv. destruct Heqv as [_ Hs _]. exact (Hs a b). Qed.

Lemma eqv_trans a b d : eqv a b = true -> eqv b d = true -> eqv a d = true.
Proof using Heqv. destruct Heqv as [_ _ Ht]. exact (Ht a b d). Qed.

Lemma eqv_neq k a b : eqv a k = true -> eqv a b = false -> eqv b k = false.
Proof using Heqv.
  intros Ha Hab. apply not_true_is_false. intros Hb. rewrite (eqv_trans a k b) in Hab; [done|done|by apply eqv_sym].
Qed.

Lemma eqv_neq' k a b : eqv b k = true -> eqv a b = false -> eqv a k = false.
Proof using Heqv.
  intros Hb Hab. apply not_true_is_false. intros Ha. rewrite (eqv_trans a k b) in Hab; [done|done|by apply eqv_sym].
Qed.

Lemma distinct_cons o l : distinct eqv (o :: l) -> distinct eqv l.
Proof using. unfold distinct. destruct o; cbn; [|done]. by intros [? ?]%StronglySorted_inv. Qed.

Lemma distinct_hits k l p e p' o : distinct eqv l -> l !! p = Some (Some e) -> eqv (fst e) k = true ->
  l !! p' = Some o -> hits eqv k o = true -> p' = p.
Proof using Heqv.
  revert p p'. induction l as [|o1 l IH]; intros p p' Hd Hp He Hp' Ho; [done|]. pose proof (distinct_cons _ _ Hd) as Hd'.
  destruct p as [|p], p' as [|p']; simplify_eq/=; [done| | |f_equal; by eapply IH].
  - destruct o as [e'|]; [|done]. simpl in Ho. unfold distinct in Hd. cbn in Hd. apply StronglySorted_inv in Hd as [_ Hf].
    rewrite Forall_forall in Hf. rewrite (eqv_neq k (fst e) (fst e')) in Ho; [done|done|]. apply Hf, lives_elem. by exists p'.
  - destruct o as [e'|]; [|done]. simpl in Ho. unfold distinct in Hd. cbn in Hd. apply StronglySorted_inv in Hd as [_ Hf].
    rewrite Forall_forall in Hf. rewrite (eqv_neq' k (fst e') (fst e)) in Ho; [done|done|]. apply Hf, lives_elem. by exists p.
Qed.

Lemma update_at k v l p e : distinct eqv l -> l !! p = Some (Some e) -> eqv (fst e) k = true ->
  <[p := Some (fst e, v)]> l = s_update eqv k v l.
Proof using Heqv.
  intros Hd Hp He. apply list_eq. intros q. unfold s_update. rewrite list_lookup_fmap. pose proof (lookup_lt_Some _ _ _ Hp).
  destruct (decide (p = q)) as [->|Hne].
  - rewrite list_lookup_insert_eq, Hp by done. cbn. unfold put_entry. by rewrite He.
  - rewrite list_lookup_insert_ne by done. destruct (l !! q) as [o|] eqn:Eq; [|done]. cbn. f_equal.
    destruct o as [e'|]; [|done]. cbn. unfold put_entry. destruct (eqv (fst e') k) eqn:E'; [|done].
    destruct Hne. symmetry. by apply (distinct_hits k l p e q (Some e')).
Qed.

Lemma remove_at k l p e : distinct eqv l -> l !! p = Some (Some e) -> eqv (fst e) k = true ->
  <[p := None]> l = s_remove eqv k l.
Proof using Heqv.
  intros Hd Hp He. apply list_eq. intros q. unfold s_remove. rewrite list_lookup_fmap. pose proof (lookup_lt_Some _ _ _ Hp).
  destruct (decide (p = q)) as [->|Hne].
  - rewrite list_lookup_insert_eq, Hp by done. cbn. by rewrite He.
  - rewrite list_lookup_insert_ne by done. destruct (l !! q) as [o|] eqn:Eq; [|done]. cbn. f_equal.
    destruct (hits eqv k o) eqn:E'; [|done]. destruct Hne. symmetry. by apply (distinct_hits k l p e q o).
Qed.

Lemma lookup_at k l p e : distinct eqv l -> l !! p = Some (Some e) -> eqv (fst e) k = true -> s_lookup eqv k l = Some e.
Proof using Heqv.
  intros Hd Hp He. unfold s_lookup. destruct (List.find _ (lives l)) as [e'|] eqn:Ef.
  - apply List.find_some in Ef as [Hin He']. apply list_elem_of_In, lives_elem in Hin as (q & Hq).
    assert (q = p) as -> by (by apply (distinct_hits k l p e q (Some e'))). congruence.
  - exfalso. assert (In e (lives l)) as Hin by (apply list_elem_of_In, lives_elem; by exists p).
    pose proof (List.find_none _ _ Ef e Hin) as Hn. simpl in Hn. congruence.
Qed.

Lemma lookup_none k l : (forall e, e ∈ lives l -> eqv (fst e) k = false) -> s_lookup eqv k l = None.
Proof using.
  intros H. unfold s_lookup. destruct (List.find _ (lives l)) as [e'|] eqn:Ef; [|done].
  apply List.find_some in Ef as [Hin He']. apply list_elem_of_In in Hin. rewrite H in He' by done. done.
Qed.

Lemma lookup_hit k l e : s_lookup eqv k l = Some e -> e ∈ lives l /\ eqv (fst e) k = true.
Proof using. intros Ef. apply List.find_some in Ef as [Hin He]. by apply list_elem_of_In in Hin. Qed.

(** Removing a key that is not there does nothing. *)
Lemma remove_none k l : s_lookup eqv k l = None -> s_remove eqv k l = l.
Proof using.
  intros H. unfold s_remove. rewrite <- (list_fmap_id l) at 2. apply list_fmap_ext. intros i o Ho. destruct (hits eqv k o) eqn:E; [|done].
  destruct o as [e|]; [|done]. exfalso. assert (In e (lives l)) as Hin by (apply list_elem_of_In, lives_elem; by exists i).
  pose proof (List.find_none _ _ H e Hin) as Hn. simpl in *. congruence.
Qed.

(** *** Keys stay distinct *)

Lemma distinct_update k v l : distinct eqv l -> distinct eqv (s_update eqv k v l).
Proof using.
  unfold distinct. rewrite lives_update. induction 1 as [|e es Hs IH Hf]; cbn; constructor; [done|].
  apply Forall_fmap. eapply Forall_impl; [exact Hf|]. intros e' He'. unfold compose. by rewrite !put_fst.
Qed.

Lemma distinct_remove k l : distinct eqv l -> distinct eqv (s_remove eqv k l).
Proof using.
  unfold distinct. rewrite lives_remove. induction 1 as [|e es Hs IH Hf]; cbn; [constructor|]. destruct (negb _); [|done].
  constructor; [done|]. rewrite List.Forall_forall in Hf |- *. intros e' He'. apply Hf. by apply List.filter_In in He' as [? _].
Qed.

Lemma distinct_append k v l : (forall e, e ∈ lives l -> eqv (fst e) k = false) -> distinct eqv l -> distinct eqv (l ++ [Some (k, v)]).
Proof using.
  unfold distinct. rewrite lives_app. cbn. intros Hk Hd. revert Hk. induction Hd as [|e es Hs IH Hf]; intros Hk; cbn.
  - repeat constructor.
  - constructor; [apply IH; intros; apply Hk; by right|]. apply Forall_app. split; [done|]. constructor; [|done]. apply Hk. by left.
Qed.

Lemma distinct_lives l l' : lives l = lives l' -> distinct eqv l -> distinct eqv l'.
Proof using. unfold distinct. by intros ->. Qed.
End Distinct.
