(* ===== verification/CollectionOps.v ===== *)
(** * The operations on one collection

    [coll_ok] is the invariant of a collection in its realm: its live count is
    right, no two live keys are equal, its index, when there is one, records
    exactly the live entries under their hashes, and the dead prefix it remembers
    is dead.  Each operation ends, keeps the invariant, changes one cell, and does
    to the list of entries what the specification does ([CollectionList]). *)

From Stdlib Require Import String.
From S2P Require Import Prelude Prog Probe CollIndex CollIndexSpec NanBox Float Heap Gc Shape Collection CollectionBase CollectionList.

#[local] Abbreviation length := Datatypes.length.
#[local] Open Scope Z_scope.

Section Ops.
Context {P : Type}.
Implicit Types (r : Realm P) (h : Heap.Handle) (c : Collection) (es : list entry).

Abbreviation eqv r := (same_value_zero r).

Definition hash_bits r (k : NanBox) : Z := fold_hash (collection_key_hash r k).

(** What an index of [es] has to record, the entries numbered from [i]. *)
Fixpoint index_pairs r (i : Z) es : list (Z * Z) :=
  match es with
  | [] => []
  | e :: es => (if is_dead e then [] else [(hash_bits r (fst e), i)]) ++ index_pairs r (i + 1) es
  end.

Record indexed r es (ix : CollIndex) : Prop := {
  in_ok : CollIndexSpec.index_ok ix;
  in_pairs : recorded ix ≡ₚ index_pairs r 0 es;
  in_head : 0 <= CollIndex.head ix <= Z.of_nat (length es);
  in_dead : forall i e, (i < Z.to_nat (CollIndex.head ix))%nat -> es !! i = Some e -> is_dead e = true }.

(** No collection grows past this. *)
Definition BOUND : Z := 2 ^ 31.

Record coll_ok r c : Prop := {
  co_len : Z.of_nat (length (c_entries c)) < BOUND;
  co_live : c_live c = Z.of_nat (length (lives (view (c_entries c))));
  co_distinct : distinct (eqv r) (view (c_entries c));
  co_index : forall ix, c_index c = Some ix -> indexed r (c_entries c) ix }.

(** ** Views *)

Lemma view_lookup es i : view es !! i = (fun e => if is_dead e then None else Some e) <$> es !! i.
Proof using. apply list_lookup_fmap. Qed.

Lemma view_live es i e : view es !! i = Some (Some e) <-> es !! i = Some e /\ is_dead e = false.
Proof using.
  rewrite view_lookup. destruct (es !! i) as [e'|]; [|by split; [|intros []]]. cbn [fmap option_fmap option_map].
  destruct (is_dead e') eqn:E; split; [done|intros [[= ->] ?]; congruence|by intros [= ->]|by intros [[= ->] _]].
Qed.

Lemma view_set es i e : view (<[i := e]> es) = <[i := if is_dead e then None else Some e]> (view es).
Proof using. apply list_fmap_insert. Qed.

Lemma view_app es es' : view (es ++ es') = view es ++ view es'.
Proof using. apply fmap_app. Qed.

Lemma view_length es : length (view es) = length es.
Proof using. apply length_fmap. Qed.

Lemma dead_is_dead : is_dead dead = true.
Proof using. done. Qed.

(** ** What an index has to record *)

Lemma pairs_elem r es : forall i hb p, (hb, p) ∈ index_pairs r i es <->
  exists e, i <= p /\ es !! Z.to_nat (p - i) = Some e /\ is_dead e = false /\ hb = hash_bits r (fst e).
Proof using.
  induction es as [|e es IH]; intros i hb p; cbn [index_pairs].
  - rewrite elem_of_nil. split; [done|]. by intros (e & _ & He & _).
  - rewrite elem_of_app, IH. split.
    + intros [Hin|(e' & Hp & He' & Hd & ->)].
      * destruct (is_dead e) eqn:Ed; [by apply not_elem_of_nil in Hin|]. apply list_elem_of_singleton in Hin as [= -> ->].
        exists e. rewrite Z.sub_diag. split_and!; [lia|done|done|done].
      * exists e'. split_and!; [lia| |done|done]. replace (Z.to_nat (p - i)) with (S (Z.to_nat (p - (i + 1)))) by lia. done.
    + intros (e' & Hp & He' & Hd & ->). destruct (decide (p = i)) as [->|].
      * rewrite Z.sub_diag in He'. simpl in He'. injection He' as ->. left. rewrite Hd. by left.
      * right. exists e'. replace (Z.to_nat (p - i)) with (S (Z.to_nat (p - (i + 1)))) in He' by lia. split_and!; [lia|done|done|done].
Qed.

Lemma pairs_app r es es' : forall i, index_pairs r i (es ++ es') = index_pairs r i es ++ index_pairs r (i + Z.of_nat (length es)) es'.
Proof using.
  induction es as [|e es IH]; intros i; simpl; [by rewrite Z.add_0_r|]. rewrite IH, <- app_assoc. do 3 f_equal. lia.
Qed.

Lemma pairs_bury r es : forall i p e, es !! p = Some e -> is_dead e = false ->
  index_pairs r i es ≡ₚ (hash_bits r (fst e), i + Z.of_nat p) :: index_pairs r i (<[p := dead]> es).
Proof using.
  induction es as [|e0 es IH]; intros i p e Hp Hd; [done|]. destruct p as [|p]; simplify_eq/=.
  - rewrite Hd, Z.add_0_r. done.
  - rewrite (IH (i + 1) p e Hp Hd). rewrite <- Permutation_middle.
    by replace (i + 1 + Z.of_nat p) with (i + Z.of_nat (S p)) by lia.
Qed.

Lemma pairs_value r es i p k v v' : es !! p = Some (k, v) -> index_pairs r i (<[p := (k, v')]> es) = index_pairs r i es.
Proof using.
  revert i p. induction es as [|e0 es IH]; intros i [|p] Hp; simplify_eq/=; [done|]. by rewrite IH.
Qed.

Lemma pairs_contents r r' es i : same_contents r r' -> index_pairs r' i es = index_pairs r i es.
Proof using.
  intros Hs. revert i. induction es as [|e es IH]; intros i; simpl; [done|]. unfold hash_bits. by rewrite (hash_same_contents r r'), IH.
Qed.

Lemma pairs_length r es i : (length (index_pairs r i es) <= length es)%nat.
Proof using. revert i. induction es as [|e es IH]; intros i; simpl; [done|]. rewrite length_app. specialize (IH (i + 1)). destruct (is_dead e); simpl; lia. Qed.

Lemma indexed_contents r r' es ix : same_contents r r' -> indexed r es ix -> indexed r' es ix.
Proof using. intros Hs [H1 H2 H3 H4]. split; [done|by rewrite (pairs_contents r r')|done|done]. Qed.

Lemma distinct_contents r r' l : same_contents r r' -> distinct (eqv r) l -> distinct (eqv r') l.
Proof using.
  intros Hs. unfold distinct. induction 1 as [|e l' Hl IH Hf]; constructor; [done|].
  eapply Forall_impl; [exact Hf|]. intros e' He'. simpl. by rewrite (svz_same_contents r r').
Qed.

Lemma lookup_contents r r' k l : same_contents r r' -> s_lookup (eqv r') k l = s_lookup (eqv r) k l.
Proof using.
  intros Hs. unfold s_lookup. induction (lives l) as [|e es IH]; simpl; [done|]. rewrite (svz_same_contents r r') by done. by destruct (eqv r (fst e) k).
Qed.

Lemma update_contents r r' k v l : same_contents r r' -> s_update (eqv r') k v l = s_update (eqv r) k v l.
Proof using.
  intros Hs. unfold s_update. apply list_fmap_ext. intros _ [e|] _; [|done]. cbn. unfold put_entry. by rewrite (svz_same_contents r r').
Qed.

Lemma remove_contents r r' k l : same_contents r r' -> s_remove (eqv r') k l = s_remove (eqv r) k l.
Proof using.
  intros Hs. unfold s_remove. apply list_fmap_ext. intros _ [e|] _; [|done]. cbn. by rewrite (svz_same_contents r r').
Qed.

Lemma coll_ok_contents r r' c : same_contents r r' -> coll_ok r c -> coll_ok r' c.
Proof using.
  intros Hs [H1 H2 H3 H4]. split; [done|done|by eapply distinct_contents|]. intros ix Hix. by eapply indexed_contents, H4.
Qed.

(** ** The index *)

Lemma build_index r es ix : forall i, 0 <= i -> i + Z.of_nat (length es) < BOUND -> CollIndexSpec.index_ok ix ->
  used ix + Z.of_nat (length es) < BOUND ->
  exists ix', index_entries r i es ix = Some ix' /\ CollIndexSpec.index_ok ix' /\ recorded ix' ≡ₚ index_pairs r i es ++ recorded ix /\
    CollIndex.head ix' = CollIndex.head ix.
Proof using.
  revert ix. induction es as [|e es IH]; intros ix i Hi Hb Hok Hu; cbn [index_entries index_pairs]; [by exists ix|].
  simpl in Hb, Hu. unfold is_dead. destruct e as [k v]. simpl fst. destruct (is_hole k) eqn:Ek; cbn [mbind option_bind].
  - destruct (IH ix (i + 1)) as (ix' & -> & Hok' & Hp & Hh); [lia|lia|done|lia|]. by exists ix'.
  - destruct (index_insert_spec ix (collection_key_hash r k) i Hok) as (ix1 & -> & Hok1 & Hp1 & Hh1).
    { unfold MAX_POS, BOUND in *. lia. } { unfold BOUND in *. lia. }
    cbn [mbind option_bind]. destruct (IH ix1 (i + 1)) as (ix' & -> & Hok' & Hp & Hh).
    + lia.
    + lia.
    + done.
    + rewrite (ix_used _ Hok1), Hp1. simpl. pose proof (ix_used _ Hok). lia.
    + exists ix'. split_and!; [done|done| |by rewrite Hh]. rewrite Hp, Hp1. cbn [app]. rewrite <- Permutation_middle. done.
Qed.

Lemma build_index_spec r h c : realm_ok r -> coll_at r h = Some c -> coll_ok r c -> exists r' ix,
  collection_build_index h r = Some (tt, r') /\ writes r r' h (CCollection (set_index (Some ix) c)) /\ indexed r (c_entries c) ix.
Proof using.
  intros Hr Hc [Hlen _ _ _]. unfold collection_build_index. rewrite bind_get, Hc.
  destruct (with_capacity_spec (Z.of_nat (length (c_entries c)))) as (ix0 & -> & Hok0 & Hrec0 & Hh0); [unfold BOUND in *; lia|].
  cbn [mbind option_bind].
  destruct (build_index r (c_entries c) ix0 0) as (ix & Hix & Hok & Hp & Hh); [lia|lia|done| |].
  { rewrite (ix_used _ Hok0), Hrec0. simpl. lia. }
  rewrite Hix. destruct (mut_coll_spec r h (set_index (Some ix)) c Hr Hc) as (r' & Hrun & Hw).
  rewrite (bind_run _ _ r ix r) by done. rewrite (bind_run _ _ _ _ _ Hrun).
  exists r', ix. split; [done|]. split; [done|]. split; [done|by rewrite Hp, Hrec0, app_nil_r|rewrite Hh, Hh0; lia|]. rewrite Hh, Hh0. intros i e Hi. simpl in Hi. lia.
Qed.

(** The quick test of a search is key equality on live entries. *)
Lemma is_key_spec r es key i : 0 <= i -> is_key r es key i = true <-> exists e, es !! Z.to_nat i = Some e /\ is_dead e = false /\ eqv r (fst e) key = true.
Proof using.
  intros _. unfold is_key. destruct (es !! Z.to_nat i) as [[k v]|]; [|naive_solver].
  assert ((if word k =? word key then negb (is_hole k) else
     match as_number key, as_number k with
     | Some a, Some b => f64_eq a b || (f64_is_nan a && f64_is_nan b)
     | Some _, None | None, Some _ => false
     | None, None => negb (is_hole k) && eqv r k key
     end) = negb (is_hole k) && eqv r k key) as ->.
  { destruct (Z.eqb_spec (word k) (word key)) as [E|Hne].
    - apply NanBox_eq in E as ->. by rewrite svz_refl, andb_true_r.
    - destruct (as_number key) as [a|] eqn:Ea; destruct (as_number k) as [b|] eqn:Eb; try done.
      + assert (is_hole k = false) as ->. { unfold is_hole. apply Z.eqb_neq. intros E. unfold as_number, is_number in Eb. by rewrite E in Eb. }
        simpl. unfold same_value_zero, strict_equals, number_is_nan. rewrite (as_number_handle _ _ Eb), Ea, Eb.
        unfold NanBox.strict_equals. unfold as_number in Ea, Eb. destruct (is_number key), (is_number k); try done. injection Ea as <-. injection Eb as <-.
        simpl. rewrite (andb_comm (f64_is_nan (word k))). f_equal. unfold f64_eq. rewrite (andb_comm (negb (f64_is_nan (word key)))), (Z.eqb_sym (word key)), (andb_comm (f64_is_zero (word key))). done.
      + symmetry. apply andb_false_iff. right. apply not_true_is_false. intros H%same_value_zero_iff.
        destruct H as [->|Hk Hk'|x y Hx Hy Hz Hz'|x y z Hx Hy _ _|x Hx Hy]; try congruence.
        * unfold number_is_nan in Hk. by rewrite Eb in Hk.
        * apply as_number_handle in Ea. congruence.
        * apply as_number_handle in Ea. congruence.
      + symmetry. apply andb_false_iff. right. apply not_true_is_false. intros H%same_value_zero_iff.
        destruct H as [->|Hk Hk'|x y Hx Hy Hz Hz'|x y z Hx Hy _ _|x Hx Hy]; try congruence.
        * unfold number_is_nan in Hk'. by rewrite Ea in Hk'.
        * apply as_number_handle in Eb. congruence.
        * apply as_number_handle in Eb. congruence. }
  rewrite andb_true_iff, negb_true_iff. unfold is_dead. naive_solver.
Qed.

(** ** Finding *)

Lemma set_index_same c ix : c_index c = Some ix -> set_index (Some ix) c = c.
Proof using. destruct c. simpl. by intros ->. Qed.

Lemma ensure_index r h c : realm_ok r -> coll_at r h = Some c -> coll_ok r c -> exists r' ix,
  when (collection_index_missing r h) (collection_build_index h) r = Some (tt, r') /\
  writes r r' h (CCollection (set_index (Some ix) c)) /\ indexed r (c_entries c) ix.
Proof using.
  intros Hr Hc Hok. unfold collection_index_missing. rewrite Hc. destruct (c_index c) as [ix|] eqn:Ei; cbn [when].
  - exists r, ix. split; [done|]. split; [|by apply (co_index _ _ Hok)]. apply writes_self; [done|]. rewrite set_index_same by done. by apply coll_at_cell.
  - by apply build_index_spec.
Qed.

(** What a search for [key] answers. *)
Definition found_at r (key : NanBox) es (pos : option Z) : Prop :=
  match pos with
  | Some i => 0 <= i /\ exists e, es !! Z.to_nat i = Some e /\ is_dead e = false /\ eqv r (fst e) key = true
  | None => s_lookup (eqv r) key (view es) = None
  end.

Lemma find_hashed_spec r h c key : realm_ok r -> coll_at r h = Some c -> coll_ok r c -> exists pos r' ix,
  collection_find_hashed h key (collection_key_hash r key) r = Some (pos, r') /\
  writes r r' h (CCollection (set_index (Some ix) c)) /\ indexed r (c_entries c) ix /\ found_at r key (c_entries c) pos.
Proof using.
  intros Hr Hc Hok. destruct (ensure_index r h c Hr Hc Hok) as (r' & ix & Hrun & Hw & Hix).
  destruct (writes_coll _ _ _ _ _ Hw Hc) as [Hc' Hs]. unfold collection_find_hashed. rewrite bind_get, (bind_run _ _ _ _ _ Hrun), bind_get, Hc'.
  cbn [c_index set_index c_entries].
  destruct (index_search_spec ix (collection_key_hash r key) (is_key r' (c_entries c) key) (in_ok _ _ _ Hix)) as (pos & Hfind & Hpos).
  rewrite Hfind. exists pos, r', ix. split; [done|]. split; [done|]. split; [done|]. destruct pos as [p|]; simpl.
  - destruct Hpos as [Hin Hk]. rewrite (in_pairs _ _ _ Hix) in Hin. apply pairs_elem in Hin as (e & Hp & He & Hd & _). split; [done|].
    apply is_key_spec in Hk as (e' & He' & Hd' & Heq); [|done]. exists e'. by rewrite (svz_same_contents r r') in Heq.
  - apply lookup_none. intros e (p & Hp)%lives_elem. apply view_live in Hp as [Hp Hd]. apply not_true_is_false. intros Heq.
    assert ((hash_bits r key, Z.of_nat p) ∈ recorded ix) as Hin.
    { rewrite (in_pairs _ _ _ Hix). apply pairs_elem. exists e. rewrite Z.sub_0_r, Nat2Z.id. split_and!; [lia|done|done|].
      unfold hash_bits. by rewrite (svz_hash r (fst e) key). }
    apply Hpos in Hin. assert (is_key r' (c_entries c) key (Z.of_nat p) = true) as Ht; [|congruence].
    apply is_key_spec; [lia|]. exists e. by rewrite Nat2Z.id, (svz_same_contents r r').
Qed.

Lemma find_spec' r h c key : realm_ok r -> coll_at r h = Some c -> coll_ok r c -> exists pos r' ix,
  collection_find h key r = Some (pos, r') /\
  writes r r' h (CCollection (set_index (Some ix) c)) /\ indexed r (c_entries c) ix /\ found_at r key (c_entries c) pos.
Proof using. unfold collection_find. rewrite bind_get. apply find_hashed_spec. Qed.

Lemma set_index_ok r c ix : coll_ok r c -> indexed r (c_entries c) ix -> coll_ok r (set_index (Some ix) c).
Proof using. intros [H1 H2 H3 _] Hix. split; [done..|]. by intros ix' [= <-]. Qed.

(** A found entry, as the specification sees it. *)
Lemma found_lookup r c key i : coll_ok r c -> found_at r key (c_entries c) (Some i) ->
  exists e, view (c_entries c) !! Z.to_nat i = Some (Some e) /\ c_entries c !! Z.to_nat i = Some e /\ is_dead e = false /\
    eqv r (fst e) key = true /\ s_lookup (eqv r) key (view (c_entries c)) = Some e.
Proof using.
  intros Hok (Hi & e & He & Hd & Heq). exists e. assert (view (c_entries c) !! Z.to_nat i = Some (Some e)) as Hv by (by apply view_live).
  split_and!; try done. eapply lookup_at; [apply same_value_zero_equivalence|apply (co_distinct _ _ Hok)|done|done].
Qed.

(** ** What stays the same *)

Record same_frame c c' : Prop := {
  sf_set : c_set c' = c_set c; sf_weak : c_weak c' = c_weak c; sf_iters : c_iters c' = c_iters c;
  sf_epoch : c_epoch c' = c_epoch c; sf_remaps : c_remaps c' = c_remaps c }.

Lemma same_frame_refl c : same_frame c c.
Proof using. done. Qed.

(** ** Get, has *)

Lemma collection_get_spec r h c key : realm_ok r -> coll_at r h = Some c -> coll_ok r c -> exists r' c',
  collection_get h key r = Some (snd <$> s_lookup (eqv r) key (view (c_entries c)), r') /\
  writes r r' h (CCollection c') /\ coll_ok r c' /\ same_frame c c' /\ c_entries c' = c_entries c.
Proof using.
  intros Hr Hc Hok. destruct (find_spec' r h c key Hr Hc Hok) as (pos & r' & ix & Hrun & Hw & Hix & Hf).
  unfold collection_get. rewrite (bind_run _ _ _ _ _ Hrun), bind_get. destruct (writes_coll _ _ _ _ _ Hw Hc) as [Hc' _].
  exists r', (set_index (Some ix) c). split; [|split_and!; [done|by apply set_index_ok|done|done]]. rewrite Hc'. destruct pos as [i|].
  - destruct (found_lookup r c key i Hok Hf) as (e & _ & He & _ & _ & ->). cbn. by rewrite He.
  - simpl in Hf. by rewrite Hf.
Qed.

Lemma collection_has_spec r h c key : realm_ok r -> coll_at r h = Some c -> coll_ok r c -> exists r' c',
  collection_has h key r = Some (bool_decide (is_Some (s_lookup (eqv r) key (view (c_entries c)))), r') /\
  writes r r' h (CCollection c') /\ coll_ok r c' /\ same_frame c c' /\ c_entries c' = c_entries c.
Proof using.
  intros Hr Hc Hok. destruct (find_spec' r h c key Hr Hc Hok) as (pos & r' & ix & Hrun & Hw & Hix & Hf).
  unfold collection_has. rewrite (bind_run _ _ _ _ _ Hrun).
  exists r', (set_index (Some ix) c). split; [|split_and!; [done|by apply set_index_ok|done|done]]. destruct pos as [i|].
  - by destruct (found_lookup r c key i Hok Hf) as (e & _ & He & _ & _ & ->).
  - simpl in Hf. by rewrite Hf.
Qed.

(** ** Set *)

Lemma normal_key_eqv r key : eqv r (normal_key key) key = true.
Proof using.
  unfold normal_key. destruct (as_number key) as [n|] eqn:En; [|apply svz_refl]. destruct (f64_eq n 0 && _) eqn:E; [|apply svz_refl].
  apply andb_true_iff in E as [E _]. rewrite f64_eq_0 in E. apply same_value_zero_iff. by eapply (SK_zero _ _ _ 0).
Qed.

Lemma normal_key_hole key : is_hole key = false -> is_hole (normal_key key) = false.
Proof using. unfold normal_key. intros H. destruct (as_number key); [|done]. by destruct (_ && _). Qed.

(** Where no live entry is equal to the key, a new one is appended. *)
Lemma append_spec r h c key value : realm_ok r -> coll_at r h = Some c -> coll_ok r c -> Z.of_nat (length (c_entries c)) + 1 < BOUND ->
  is_hole key = false -> s_lookup (eqv r) key (view (c_entries c)) = None ->
  exists r' c', collection_append h key value (collection_key_hash r key) r = Some (true, r') /\ writes r r' h (CCollection c') /\
    coll_ok r c' /\ same_frame c c' /\ view (c_entries c') = view (c_entries c) ++ [Some (key, value)].
Proof using.
  intros Hr Hc Hok Hroom Hhole Hnone. pose proof Hok as [Hlen Hlive Hdist Hix]. unfold collection_append. rewrite bind_get, Hc.
  assert (exists ix', (match c_index c with
           | Some map => x ← unwrap (CollIndex.insert (collection_key_hash r key) (Z.of_nat (length (c_entries c))) map); mret (Some x)
           | None => mret None
           end : prog (Realm P) (option CollIndex)) r = Some (ix', r) /\
    (forall ix, ix' = Some ix -> indexed r (c_entries c ++ [(key, value)]) ix)) as (ix' & Hrun & Hix').
  { destruct (c_index c) as [map|] eqn:Em; [|by exists None]. destruct (Hix map eq_refl) as [Hi1 Hi2 Hi3 Hi4].
    destruct (index_insert_spec map (collection_key_hash r key) (Z.of_nat (length (c_entries c))) Hi1) as (x & Hins & Hok' & Hp & Hh).
    - unfold MAX_POS, BOUND in *. lia.
    - rewrite (ix_used _ Hi1), Hi2. pose proof (pairs_length r (c_entries c) 0). unfold BOUND in *. lia.
    - exists (Some x). split; [by rewrite Hins|]. intros ix [= <-]. split; [done| | |].
      + rewrite Hp, Hi2, pairs_app. cbn [index_pairs]. unfold is_dead. cbn [fst]. rewrite Hhole, Z.add_0_l, app_nil_r. cbn [app]. by rewrite Permutation_app_comm.
      + rewrite Hh, length_app. simpl. lia.
      + rewrite Hh. intros i e Hi He. apply (Hi4 i e Hi). rewrite lookup_app_l in He; [done|]. lia. }
  rewrite (bind_run _ _ _ _ _ Hrun).
  destruct (append_coll_spec r h (push_entry (key, value) ix') c Hr Hc) as (r1 & Hrun1 & Hw1). rewrite (bind_run _ _ _ _ _ Hrun1).
  destruct (shade_stored_spec r1 key (w_ok _ _ _ _ Hw1)) as (r2 & Hrun2 & Hs2). rewrite (bind_run _ _ _ _ _ Hrun2).
  destruct (shade_stored_spec r2 value (proj1 Hs2)) as (r3 & Hrun3 & Hs3). rewrite (bind_run _ _ _ _ _ Hrun3).
  exists r3, (push_entry (key, value) ix' c). split; [done|]. split; [by eapply writes_same, Hs3; eapply writes_same, Hs2|].
  assert (Hv : view (c_entries (push_entry (key, value) ix' c)) = view (c_entries c) ++ [Some (key, value)]).
  { cbn. rewrite view_app. cbn. unfold is_dead. cbn. by rewrite Hhole. }
  split_and!; [|done|done]. split.
  - cbn. rewrite length_app. simpl. lia.
  - rewrite Hv, lives_app, length_app. cbn. rewrite Hlive. unfold as_u32, wrap_u. rewrite Z.mod_small; [lia|].
    pose proof (lives_length (view (c_entries c))). rewrite view_length in *. unfold BOUND in *. lia.
  - rewrite Hv. apply distinct_append; [|done]. intros e (p & Hp)%lives_elem.
    apply not_true_is_false. intros Heq. assert (s_lookup (eqv r) key (view (c_entries c)) = Some e); [|congruence].
    eapply lookup_at; [apply same_value_zero_equivalence|done|done|done].
  - cbn. intros ix Hixx. by apply Hix'.
Qed.

Lemma lookup_congr r k k' l : eqv r k k' = true -> s_lookup (eqv r) k l = s_lookup (eqv r) k' l.
Proof using.
  intros Hk. unfold s_lookup. induction (lives l) as [|e es IH]; simpl; [done|].
  assert (eqv r (fst e) k = eqv r (fst e) k') as ->; [|by destruct (eqv r (fst e) k')].
  destruct (eqv r (fst e) k') eqn:E.
  - eapply svz_trans; [exact E|]. by apply svz_sym.
  - apply not_true_is_false. intros E'. rewrite (svz_trans r (fst e) k k') in E; done.
Qed.

(** [set] and [add], with the key normalised and a [Set]'s value its key. *)
Definition put_of r (is_set : bool) (key value : NanBox) l : list (option entry) :=
  s_put (eqv r) is_set (normal_key key) (if is_set then normal_key key else value) l.

Lemma collection_set_spec r h c key value : realm_ok r -> coll_at r h = Some c -> coll_ok r c -> Z.of_nat (length (c_entries c)) + 1 < BOUND ->
  is_hole key = false ->
  exists r' c', collection_set h key value r = Some (true, r') /\ writes r r' h (CCollection c') /\
    coll_ok r c' /\ same_frame c c' /\ view (c_entries c') = put_of r (c_set c) key value (view (c_entries c)).
Proof using.
  intros Hr Hc Hok Hroom Hhole. unfold collection_set, put_of. rewrite bind_get, Hc. set (k := normal_key key). set (v := if c_set c then k else value).
  cbv zeta. fold v. assert (Hk : is_hole k = false) by (by apply normal_key_hole).
  destruct (find_hashed_spec r h c k Hr Hc Hok) as (pos & r1 & ix & Hrun & Hw & Hix & Hf). rewrite (bind_run _ _ _ _ _ Hrun).
  destruct (writes_coll _ _ _ _ _ Hw Hc) as [Hc1 Hs1]. set (c1 := set_index (Some ix) c) in *.
  assert (Hok1 : coll_ok r c1) by (by apply set_index_ok). pose proof (w_ok _ _ _ _ Hw) as Hr1. destruct pos as [i|].
  - destruct (found_lookup r c k i Hok Hf) as (e & Hv & He & Hd & Heq & Hlk). unfold s_put. rewrite Hlk.
    assert (is_hole (fst e) = false) as Hhe by exact Hd. destruct (c_set c) eqn:Ecs.
    + exists r1, c1. split_and!; done.
    + rewrite bind_get, Hc1. cbn [c_entries c1 set_index]. rewrite (bind_run _ _ r1 e r1) by (by rewrite He).
      destruct (mut_coll_spec r1 h (fun c => set_entries (<[Z.to_nat i := (fst e, v)]> (c_entries c)) (c_live c) c) c1 Hr1 Hc1) as (r2 & Hrun2 & Hw2).
      rewrite (bind_run _ _ _ _ _ Hrun2). destruct (write_barrier_spec r2 h v (w_ok _ _ _ _ Hw2)) as (r3 & Hrun3 & Hs3). rewrite (bind_run _ _ _ _ _ Hrun3).
      eexists r3, _. split; [done|]. split; [eapply writes_same, Hs3; eapply writes_trans; [exact Hw|exact Hw2]|].
      assert (Hview : view (<[Z.to_nat i := (fst e, v)]> (c_entries c)) = s_update (eqv r) k v (view (c_entries c))).
      { rewrite view_set. unfold is_dead. cbn [fst]. rewrite Hhe. apply update_at; [apply same_value_zero_equivalence|apply (co_distinct _ _ Hok)|done|done]. }
      split_and!; [|done|exact Hview]. pose proof Hok1 as [H1 H2 H3 H4]. split; cbn [c_entries set_entries c_live c_index c1 set_index] in *.
      * by rewrite length_insert.
      * rewrite Hview, lives_update, length_fmap. done.
      * rewrite Hview. by apply distinct_update.
      * intros ix' [= <-]. destruct (H4 ix eq_refl) as [Hi1 Hi2 Hi3 Hi4]. destruct e as [ke ve]. split; [done| | |].
        -- by rewrite (pairs_value r _ 0 _ ke ve v).
        -- by rewrite length_insert.
        -- intros j e' Hj He'. destruct (decide (j = Z.to_nat i)) as [->|Hne].
           ++ rewrite (Hi4 _ _ Hj He) in Hd. done.
           ++ rewrite list_lookup_insert_ne in He' by done. by apply (Hi4 j).
  - simpl in Hf. unfold s_put. rewrite Hf. destruct (append_spec r1 h c1 k v Hr1 Hc1) as (r2 & c2 & Hrun2 & Hw2 & Hok2 & Hfr & Hv2).
    + by apply (coll_ok_contents r r1).
    + done.
    + done.
    + by rewrite (lookup_contents r r1).
    + rewrite (hash_same_contents r r1) in Hrun2 by done. exists r2, c2. split; [exact Hrun2|]. split; [by eapply writes_trans|].
      split; [|split; [|exact Hv2]].
      * apply (coll_ok_contents r1 r); [intros raw; by rewrite Hs1|done].
      * destruct Hfr. by split.
Qed.

(** ** Compaction *)

Lemma dead_run_spec es : (dead_run es <= length es)%nat /\ (forall i e, (i < dead_run es)%nat -> es !! i = Some e -> is_dead e = true) /\
  (forall e, es !! dead_run es = Some e -> is_dead e = false).
Proof using.
  induction es as [|e es (H1 & H2 & H3)]; cbn [dead_run]; [split_and!; [done|intros; lia|done]|]. destruct (is_dead e) eqn:Ed.
  - split_and!; [simpl; lia| |by apply H3]. intros [|i] e' Hi He'; simplify_eq/=; [done|]. by apply (H2 i); [lia|].
  - split_and!; [simpl; lia|intros; lia|]. intros e' [= <-]. done.
Qed.

Lemma compacted_view c : view (c_entries (compacted c)) = Some <$> lives (view (c_entries c)).
Proof using.
  cbn. unfold lives, view. induction (c_entries c) as [|e es IH]; [done|]. cbn. destruct (is_dead e) eqn:Ed; cbn; [done|]. rewrite Ed. by f_equal.
Qed.

Lemma compacted_ok r c : coll_ok r c -> coll_ok r (compacted c).
Proof using.
  intros [H1 H2 H3 _]. assert (lives (view (c_entries (compacted c))) = lives (view (c_entries c))) as E by (rewrite compacted_view; apply lives_Some).
  split.
  - rewrite <- view_length, compacted_view, length_fmap. pose proof (lives_length (view (c_entries c))). rewrite view_length in *. lia.
  - rewrite E. done.
  - by eapply distinct_lives.
  - done.
Qed.

(** The number a position is given: the live entries before it. *)
Lemma renumbering_nth es : forall next i, 0 <= next -> next + Z.of_nat (length es) < BOUND -> (i <= length es)%nat ->
  nth i (renumbering next es) 0 = next + Z.of_nat (length (lives (take i (view es)))).
Proof using.
  induction es as [|e es IH]; intros next i Hn Hb Hi; cbn [renumbering] in *; simpl in Hi.
  - assert (i = 0%nat) as -> by lia. cbn. lia.
  - simpl in Hb. destruct i as [|i]; [cbn; lia|]. cbn [nth]. rewrite IH.
    + cbn [view fmap list_fmap take]. unfold lives. destruct (is_dead e); cbn [omap list_omap id length]; [done|].
      unfold as_u32, wrap_u. rewrite Z.mod_small by (unfold BOUND in *; lia). fold (view es). lia.
    + destruct (is_dead e); [done|]. unfold as_u32, wrap_u. apply Z.mod_pos_bound. lia.
    + destruct (is_dead e); [lia|]. unfold as_u32, wrap_u. rewrite Z.mod_small by (unfold BOUND in *; lia). lia.
    + lia.
Qed.

Lemma renumbering_length next es : length (renumbering next es) = S (length es).
Proof using. revert next. induction es as [|e es IH]; intros next; simpl; [done|]. by rewrite IH. Qed.

(** ** Delete and clear *)

Lemma bury_indexed r es ix i e key : indexed r es ix -> Z.of_nat (length es) < BOUND -> 0 <= i -> es !! Z.to_nat i = Some e -> is_dead e = false ->
  eqv r (fst e) key = true -> exists map, CollIndex.remove (collection_key_hash r key) i ix = Some map /\
  indexed r (<[Z.to_nat i := dead]> es)
    (if i =? CollIndex.head map then set_head (dead_prefix_end (<[Z.to_nat i := dead]> es) i) map else map).
Proof using.
  intros [H1 H2 H3 H4] Hlen Hi He Hd Heq. pose proof (lookup_lt_Some _ _ _ He) as Hlt.
  destruct (index_drop_spec ix (collection_key_hash r key) i H1) as (map & Hrun & Hok & Hh & Hin & _).
  { unfold MAX_POS, BOUND in *. lia. }
  exists map. split; [done|]. set (es' := <[Z.to_nat i := dead]> es). assert (Hl' : length es' = length es) by apply length_insert.
  assert (Hpairs : recorded map ≡ₚ index_pairs r 0 es').
  { assert ((fold_hash (collection_key_hash r key), i) ∈ recorded ix) as Hrec.
    { rewrite H2. apply pairs_elem. exists e. rewrite Z.sub_0_r. split_and!; [done|done|done|]. unfold hash_bits. by rewrite (svz_hash r (fst e) key). }
    apply Hin in Hrec. rewrite H2, (pairs_bury r es 0 (Z.to_nat i) e He Hd) in Hrec. unfold hash_bits in Hrec.
    rewrite (svz_hash r (fst e) key Heq), Z.add_0_l, Z2Nat.id in Hrec by done. symmetry. exact (Permutation_cons_inv Hrec). }
  assert (Hdead : forall j e', (j < Z.to_nat (CollIndex.head ix))%nat -> es' !! j = Some e' -> is_dead e' = true).
  { intros j e' Hj He'. destruct (decide (Z.to_nat i = j)) as [<-|Hne].
    - unfold es' in He'. rewrite list_lookup_insert_eq in He' by done. by injection He' as <-.
    - unfold es' in He'. rewrite list_lookup_insert_ne in He' by done. by apply (H4 j). }
  destruct (Z.eqb_spec i (CollIndex.head map)) as [Ehd|Hne].
  2:{ split; [done|done|by rewrite Hh, Hl'|by rewrite Hh]. }
  destruct (dead_run_spec (drop (Z.to_nat i) es')) as (D1 & D2 & _). rewrite length_drop in D1.
  assert (Hend : dead_prefix_end es' i = i + Z.of_nat (dead_run (drop (Z.to_nat i) es'))).
  { unfold dead_prefix_end, u32_or_0. destruct (Z.ltb_spec (i + Z.of_nat (dead_run (drop (Z.to_nat i) es'))) (2 ^ 32)); [done|]. unfold BOUND in *. lia. }
  split; [by destruct Hok|done|cbn [CollIndex.head set_head]; rewrite Hend; lia|]. cbn [CollIndex.head set_head]. rewrite Hend. intros j e' Hj He'.
  destruct (decide (j < Z.to_nat i)%nat); [apply (Hdead j e'); [rewrite <- Hh, <- Ehd; lia|done]|].
  apply (D2 (j - Z.to_nat i)%nat); [lia|]. rewrite lookup_drop. by replace (Z.to_nat i + (j - Z.to_nat i))%nat with j by lia.
Qed.

Lemma collection_delete_spec r h c key : realm_ok r -> coll_at r h = Some c -> coll_ok r c -> exists r' c1 c',
  collection_delete h key r = Some (bool_decide (is_Some (s_lookup (eqv r) key (view (c_entries c)))), r') /\
  writes r r' h (CCollection c') /\ coll_ok r c1 /\ same_frame c c1 /\ view (c_entries c1) = s_remove (eqv r) key (view (c_entries c)) /\
  (c' = c1 \/ c' = compacted c1).
Proof using.
  intros Hr Hc Hok. unfold collection_delete. rewrite bind_get.
  destruct (find_hashed_spec r h c key Hr Hc Hok) as (pos & r1 & ix & Hrun & Hw & Hix & Hf). cbv zeta. rewrite (bind_run _ _ _ _ _ Hrun).
  destruct (writes_coll _ _ _ _ _ Hw Hc) as [Hc1 Hs1]. set (c1 := set_index (Some ix) c) in *.
  assert (Hok1 : coll_ok r c1) by (by apply set_index_ok). pose proof (w_ok _ _ _ _ Hw) as Hr1. destruct pos as [i|].
  2:{ simpl in Hf. rewrite Hf. exists r1, c1, c1. split_and!; [done|done|done|done| |by left]. symmetry. by apply remove_none. }
  destruct (found_lookup r c key i Hok Hf) as (e & Hv & He & Hd & Heq & ->). destruct Hf as [Hi _].
  rewrite bind_get, Hc1. cbn [c_entries c1 set_index c_index]. rewrite (bind_run _ _ r1 e r1) by (by rewrite He).
  destruct (bury_indexed r (c_entries c) ix i e key Hix (co_len _ _ Hok) Hi He Hd Heq) as (map & Hrem & Hix').
  rewrite Hrem. set (ix' := if i =? CollIndex.head map then _ else map) in *.
  rewrite (bind_run _ _ r1 (Some ix') r1) by done.
  destruct (mut_coll_spec r1 h (bury i (Some ix')) c1 Hr1 Hc1) as (r2 & Hrun2 & Hw2). rewrite (bind_run _ _ _ _ _ Hrun2).
  set (c2 := bury i (Some ix') c1) in *. destruct (writes_coll _ _ _ _ _ Hw2 Hc1) as [Hc2 Hs2].
  destruct (mut_coll_spec r2 h (fun c => if compact_due c then compacted c else c) c2 (w_ok _ _ _ _ Hw2) Hc2) as (r3 & Hrun3 & Hw3).
  unfold collection_maybe_compact. rewrite (bind_run _ _ _ _ _ Hrun3). pose proof (lookup_lt_Some _ _ _ He) as Hlt.
  assert (Hview : view (c_entries c2) = s_remove (eqv r) key (view (c_entries c))).
  { unfold c2, bury. cbn [c_entries set_index set_entries c1]. rewrite view_set. rewrite dead_is_dead.
    apply (remove_at (eqv r) key _ _ e); [apply (co_distinct _ _ Hok)|done|done]. }
  exists r3, c2, (if compact_due c2 then compacted c2 else c2). split; [done|]. split; [by eapply writes_trans, Hw3; eapply writes_trans, Hw2|].
  split_and!; [|done|exact Hview|by destruct (compact_due c2); [right|left]].
  pose proof Hok as [H1 H2 H3 H4]. split.
  - unfold c2. cbn. by rewrite length_insert.
  - assert (view (c_entries c2) = <[Z.to_nat i := None]> (view (c_entries c))) as -> by (unfold c2, bury; cbn [c_entries set_index set_entries c1]; by rewrite view_set).
    pose proof (lives_bury (Z.to_nat i) (view (c_entries c)) e Hv) as Hb. cbn [c_live c2 bury set_index set_entries c1]. rewrite H2, Hb.
    unfold as_u32, wrap_u. rewrite Z.mod_small; [lia|]. pose proof (lives_length (view (c_entries c))). rewrite view_length in *. unfold BOUND in *. lia.
  - rewrite Hview. by apply distinct_remove.
  - intros ix0 Hix0. unfold c2 in Hix0. cbn in Hix0. injection Hix0 as <-. exact Hix'.
Qed.

Lemma collection_clear_spec r h c : realm_ok r -> coll_at r h = Some c -> coll_ok r c -> exists r' c',
  collection_clear h r = Some (tt, r') /\ writes r r' h (CCollection c') /\ coll_ok r c' /\ same_frame c c' /\
  view (c_entries c') = (if c_iters c =? 0 then [] else s_clear (view (c_entries c))).
Proof using.
  intros Hr Hc Hok. unfold collection_clear, collection_index_clear.
  destruct (mut_coll_spec r h (fun c => if c_iters c =? 0 then set_entries [] 0 c else set_entries ((fun _ => dead) <$> c_entries c) 0 c) c Hr Hc) as (r1 & Hrun1 & Hw1).
  rewrite (bind_run _ _ _ _ _ Hrun1). destruct (writes_coll _ _ _ _ _ Hw1 Hc) as [Hc1 Hs1].
  destruct (mut_coll_spec r1 h (set_index None) _ (w_ok _ _ _ _ Hw1) Hc1) as (r2 & Hrun2 & Hw2). rewrite (bind_run _ _ _ _ _ Hrun2).
  eexists r2, _. split; [done|]. split; [by eapply writes_trans|].
  assert (Hview : view ((fun _ => dead) <$> c_entries c) = s_clear (view (c_entries c))).
  { unfold view, s_clear. rewrite <- !list_fmap_compose. by apply list_fmap_ext. }
  destruct (c_iters c =? 0); (split_and!; [|done|done || exact Hview]); split; cbn [c_entries set_index set_entries c_live c_index].
  - done.
  - done.
  - constructor.
  - done.
  - rewrite length_fmap. apply (co_len _ _ Hok).
  - by rewrite Hview, lives_clear.
  - rewrite Hview. unfold distinct. rewrite lives_clear. constructor.
  - done.
Qed.
End Ops.
