(* ===== verification/CollectionIter.v ===== *)
(** * Live iterators of a collection

    An iterator is an array of five values: kind, cursor, epoch, last key, status.
    [cursor] brings its cursor to the collection's current numbering; what the
    iterator has ahead is the live entries from there on.  One step yields the
    first of them and leaves the others ahead, or finishes the iterator; and the
    other operations change what is ahead as the specification says
    ([CollectionList]), a compaction by renumbering it. *)

From Stdlib Require Import String.
From S2P Require Import Prelude Prog Probe CollIndex CollIndexSpec NanBox Float Heap Gc Shape Collection CollectionBase CollectionList CollectionOps.

#[local] Abbreviation length := Datatypes.length.
#[local] Open Scope Z_scope.

Section Iter.
Context {P : Type}.
Implicit Types (r : Realm P) (h : Heap.Handle) (c : Collection) (es : list entry).

Definition iter_cell (kind idx epoch : Z) (last : NanBox) (status : Z) : Cell :=
  CArray [uint kind; uint idx; uint epoch; last; uint status].

(** The cursor in the collection's current numbering, when its epoch is recorded. *)
Definition cursor c (idx epoch : Z) : option Z := if c_epoch c =? epoch then Some idx else carry c idx epoch.

(** The same before it is clamped to the entries. *)
Definition raw_cursor c (idx epoch : Z) : option Z :=
  if c_epoch c =? epoch then Some idx
  else (fun s => foldl renumber idx (snd <$> drop (fst s) (default [] (c_remaps c))))
         <$> list_find (fun x : Z * list Z => fst x = epoch) (default [] (c_remaps c)).

Lemma cursor_raw c idx e i : raw_cursor c idx e = Some i -> i <= Z.of_nat (length (c_entries c)) -> cursor c idx e = Some i.
Proof using.
  unfold raw_cursor, cursor, carry. destruct (c_epoch c =? e); [done|]. destruct (list_find _ _) as [s|]; [|done].
  cbn. intros [= ->] Hi. f_equal. lia.
Qed.

Lemma num_uint n : 0 <= n < 2 ^ 53 -> num (uint n) = f64_of_uint n.
Proof using. intros Hn. unfold num, uint. by rewrite as_number_uint. Qed.

Lemma u32_small n : 0 <= n < BOUND -> u32_or_0 n = n.
Proof using. intros Hn. unfold u32_or_0, BOUND in *. destruct (Z.ltb_spec n (2 ^ 32)); [done|lia]. Qed.

(** ** The first live entry *)

Lemma view_dead es i e : es !! i = Some e -> is_dead e = true -> view es !! i = Some None.
Proof using. intros He Hd. rewrite view_lookup, He. cbn [fmap option_fmap option_map]. by rewrite Hd. Qed.

Lemma view_past es i o : view es !! i = Some o -> exists e, es !! i = Some e.
Proof using. rewrite view_lookup. destruct (es !! i); [eauto|done]. Qed.

Lemma lives_dead_run l n : (n <= length l)%nat -> (forall i o, (i < n)%nat -> l !! i = Some o -> o = None) -> lives l = lives (drop n l).
Proof using.
  revert l. induction n as [|n IH]; intros l Hn Hd; [by rewrite drop_0|]. destruct l as [|o l]; [done|].
  rewrite (Hd 0%nat o) by (done || lia). cbn. apply IH; [simpl in Hn; lia|]. intros i o' Hi Ho'. apply (Hd (S i)); [lia|done].
Qed.

Lemma live_from_spec es from : 0 <= from ->
  match live_from es from with
  | Some i => from <= i < Z.of_nat (length es) /\ exists e, es !! Z.to_nat i = Some e /\ is_dead e = false /\
      lives (drop (Z.to_nat from) (view es)) = e :: lives (drop (Z.to_nat (i + 1)) (view es)) /\
      (forall j e', (Z.to_nat from <= j < Z.to_nat i)%nat -> es !! j = Some e' -> is_dead e' = true)
  | None => lives (drop (Z.to_nat from) (view es)) = [] /\ (forall j e', (Z.to_nat from <= j)%nat -> es !! j = Some e' -> is_dead e' = true)
  end.
Proof using.
  intros Hf. unfold live_from. set (l := drop (Z.to_nat from) es). destruct (dead_run_spec l) as (D1 & D2 & D3).
  assert (Hdead : forall j e', (Z.to_nat from <= j < Z.to_nat from + dead_run l)%nat -> es !! j = Some e' -> is_dead e' = true).
  { intros j e' Hj He'. apply (D2 (j - Z.to_nat from)%nat); [lia|]. unfold l. rewrite lookup_drop. by replace (Z.to_nat from + (j - Z.to_nat from))%nat with j by lia. }
  assert (Hrun : lives (drop (Z.to_nat from) (view es)) = lives (drop (Z.to_nat from + dead_run l) (view es))).
  { rewrite <- drop_drop. apply lives_dead_run.
    - rewrite length_drop, view_length. unfold l in D1. by rewrite length_drop in D1.
    - intros i o Hi Ho. rewrite lookup_drop in Ho. destruct (view_past _ _ _ Ho) as (e & He).
      rewrite (view_dead _ _ e He) in Ho; [by injection Ho as <-|]. apply (Hdead (Z.to_nat from + i)%nat e); [lia|done]. }
  destruct (Nat.ltb_spec (Z.to_nat from + dead_run l) (length es)) as [Hlt|Hge].
  - split; [lia|]. destruct (lookup_lt_is_Some_2 es _ Hlt) as (e & He). exists e. replace (Z.to_nat (from + Z.of_nat (dead_run l))) with (Z.to_nat from + dead_run l)%nat by lia.
    assert (is_dead e = false) as Hd. { apply D3. unfold l. by rewrite lookup_drop. }
    split_and!; [done|done| |done]. rewrite Hrun.
    rewrite (drop_S (view es) (Some e) (Z.to_nat from + dead_run l)) by (by apply view_live). cbn.
    by replace (Z.to_nat (from + Z.of_nat (dead_run l) + 1)) with (S (Z.to_nat from + dead_run l)) by lia.
  - split.
    + rewrite Hrun, drop_ge; [done|]. by rewrite view_length.
    + intros j e' Hj He'. apply (Hdead j e'); [|done]. apply lookup_lt_Some in He'. lia.
Qed.

(** Nothing live lies before the dead prefix's end. *)
Lemma lives_from_head r es ix i : indexed r es ix -> 0 <= i <= Z.of_nat (length es) ->
  lives (drop (Z.to_nat i) (view es)) = lives (drop (Z.to_nat (Z.max i (CollIndex.head ix))) (view es)).
Proof using.
  intros [_ _ H3 H4] Hi. destruct (Z.le_gt_cases (CollIndex.head ix) i); [by rewrite Z.max_l|]. rewrite Z.max_r by lia.
  rewrite (lives_dead_run (drop (Z.to_nat i) (view es)) (Z.to_nat (CollIndex.head ix) - Z.to_nat i)).
  - rewrite drop_drop. do 2 f_equal. lia.
  - rewrite length_drop, view_length. lia.
  - intros j o Hj Ho. rewrite lookup_drop in Ho. destruct (view_past _ _ _ Ho) as (e & He).
    rewrite (view_dead _ _ e He) in Ho; [by injection Ho as <-|]. apply (H4 (Z.to_nat i + j)%nat e); [lia|done].
Qed.

Lemma head_of_ok r c : coll_ok r c -> 0 <= head_of c <= Z.of_nat (length (c_entries c)) /\
  forall i, 0 <= i <= Z.of_nat (length (c_entries c)) ->
    lives (drop (Z.to_nat i) (view (c_entries c))) = lives (drop (Z.to_nat (Z.max i (head_of c))) (view (c_entries c))).
Proof using.
  intros Hok. unfold head_of. destruct (c_index c) as [ix|] eqn:Ei.
  - pose proof (co_index _ _ Hok ix Ei) as Hix. split; [apply (in_head _ _ _ Hix)|]. intros i Hi. by eapply lives_from_head.
  - split; [lia|]. intros i Hi. by rewrite Z.max_l by lia.
Qed.

(** What a search for the next live entry answers. *)
Lemma next_live_spec r r' h c i : coll_at r' h = Some c -> coll_ok r c -> 0 <= i <= Z.of_nat (length (c_entries c)) ->
  match collection_next_live r' h i with
  | Some (pos, k, v) => i <= pos < Z.of_nat (length (c_entries c)) /\
      lives (drop (Z.to_nat i) (view (c_entries c))) = (k, v) :: lives (drop (Z.to_nat (pos + 1)) (view (c_entries c)))
  | None => lives (drop (Z.to_nat i) (view (c_entries c))) = []
  end.
Proof using.
  intros Hc Hok Hi. unfold collection_next_live. rewrite Hc. cbn [mbind option_bind]. destruct (head_of_ok r c Hok) as [Hh Hl]. rewrite (Hl i Hi).
  pose proof (live_from_spec (c_entries c) (Z.max i (head_of c)) ltac:(lia)) as H. destruct (live_from _ _) as [pos|]; cbn [mbind option_bind]; [|by destruct H].
  destruct H as (Hp & e & He & _ & E & _). rewrite He. cbn [mbind option_bind]. destruct e as [k v]. split; [lia|done].
Qed.

(** ** The dead prefix moves on *)

Lemma note_head_ok r c from : coll_ok r c -> from = head_of c -> coll_ok r (note_head from (live_from (c_entries c) from) c) /\
  same_frame c (note_head from (live_from (c_entries c) from) c) /\ c_entries (note_head from (live_from (c_entries c) from) c) = c_entries c.
Proof using.
  intros Hok ->. unfold note_head. destruct (head_of_ok r c Hok) as [Hh _]. unfold head_of in *. destruct (c_index c) as [m|] eqn:Em; [|by split_and!].
  rewrite Z.eqb_refl. split_and!; [|done|done]. pose proof Hok as [H1 H2 H3 H4]. split; [done..|]. intros ix [= <-]. destruct (H4 m Em) as [I1 I2 I3 I4].
  pose proof (live_from_spec (c_entries c) (CollIndex.head m) ltac:(lia)) as Hl. set (f := live_from (c_entries c) (CollIndex.head m)) in *.
  assert (Hu : u32_or_0 (default (Z.of_nat (length (c_entries c))) f) = default (Z.of_nat (length (c_entries c))) f).
  { apply u32_small. destruct f; simpl; lia. }
  split; [by destruct I1|done|cbn [CollIndex.head set_head c_entries set_index]; rewrite Hu; destruct f; simpl; lia|].
  cbn [CollIndex.head set_head c_entries set_index]. rewrite Hu. intros j e Hj He.
  destruct (decide (j < Z.to_nat (CollIndex.head m))%nat); [by apply (I4 j)|]. destruct f as [i|]; simpl in Hj.
  - destruct Hl as (_ & _ & _ & _ & _ & Hd). apply (Hd j e); [lia|done].
  - destruct Hl as [_ Hd]. apply (Hd j e); [lia|done].
Qed.

(** ** Renumberings *)

Definition remaps c : list (Z * list Z) := default [] (c_remaps c).

(** The recorded compactions are the last ones, at most eight. *)
Record epochs_ok c : Prop := {
  ep_range : 0 <= c_epoch c - Z.of_nat (length (remaps c)) /\ c_epoch c < BOUND;
  ep_short : (length (remaps c) <= 8)%nat;
  ep_list : fst <$> remaps c = seqZ (c_epoch c - Z.of_nat (length (remaps c))) (Z.of_nat (length (remaps c))) }.

Lemma epoch_at (rs : list (Z * list Z)) a j x : fst <$> rs = seqZ a (Z.of_nat (length rs)) -> rs !! j = Some x -> fst x = a + Z.of_nat j.
Proof using.
  intros E Hx. assert ((fst <$> rs) !! j = Some (fst x)) as H by (by rewrite list_lookup_fmap, Hx).
  rewrite E in H. apply lookup_seqZ in H. lia.
Qed.

Lemma find_epoch (rs : list (Z * list Z)) a e : fst <$> rs = seqZ a (Z.of_nat (length rs)) -> a <= e < a + Z.of_nat (length rs) ->
  exists x, list_find (fun x : Z * list Z => fst x = e) rs = Some (Z.to_nat (e - a), x).
Proof using.
  intros E He. destruct (lookup_lt_is_Some_2 rs (Z.to_nat (e - a))) as (x & Hx); [lia|]. exists x. apply list_find_Some. split_and!; [done| |].
  - rewrite (epoch_at rs a _ x E Hx). lia.
  - intros j y Hy Hj Hyf. rewrite (epoch_at rs a j y E Hy) in Hyf. lia.
Qed.

Lemma find_epoch_out (rs : list (Z * list Z)) a e : fst <$> rs = seqZ a (Z.of_nat (length rs)) -> ~ a <= e < a + Z.of_nat (length rs) ->
  list_find (fun x : Z * list Z => fst x = e) rs = None.
Proof using.
  intros E He. destruct (list_find _ rs) as [[j x]|] eqn:Ef; [|done]. apply list_find_Some in Ef as (Hx & Hf & _).
  rewrite (epoch_at rs a j x E Hx) in Hf. apply lookup_lt_Some in Hx. lia.
Qed.

(** A cursor is known if its epoch is current or recorded. *)
Lemma cursor_known c idx e : epochs_ok c -> c_epoch c - Z.of_nat (length (remaps c)) <= e <= c_epoch c -> is_Some (raw_cursor c idx e).
Proof using.
  intros [H1 H2 H3] He. unfold raw_cursor. destruct (Z.eqb_spec (c_epoch c) e); [by eexists|]. fold (remaps c).
  destruct (find_epoch (remaps c) _ e H3) as (x & ->); [lia|]. by eexists.
Qed.

Lemma cursor_range c idx e i : epochs_ok c -> raw_cursor c idx e = Some i -> c_epoch c - Z.of_nat (length (remaps c)) <= e <= c_epoch c.
Proof using.
  intros [H1 H2 H3] He. unfold raw_cursor in He. destruct (Z.eqb_spec (c_epoch c) e); [lia|]. fold (remaps c) in He.
  destruct (decide (c_epoch c - Z.of_nat (length (remaps c)) <= e < c_epoch c - Z.of_nat (length (remaps c)) + Z.of_nat (length (remaps c)))); [lia|].
  rewrite (find_epoch_out (remaps c) _ e H3) in He by done. done.
Qed.

Lemma remaps_compacted c : remaps (compacted c) = if 0 <? c_iters c then push_remap (c_epoch c) (renumbering 0 (c_entries c)) (c_remaps c) else [].
Proof using. unfold remaps, compacted. cbn [c_remaps]. by destruct (0 <? c_iters c). Qed.

Lemma push_remap_eq e m (rs : option (list (Z * list Z))) : push_remap e m rs = (if (length (default [] rs) =? 8)%nat then drop 1 (default [] rs) else default [] rs) ++ [(e, m)].
Proof using. done. Qed.

Lemma seqZ_snoc a n : 0 <= n -> seqZ a n ++ [a + n] = seqZ a (n + 1).
Proof using. intros Hn. rewrite (seqZ_app a n 1) by lia. done. Qed.

Lemma compacted_epochs c : epochs_ok c -> c_epoch c + 1 < BOUND -> epochs_ok (compacted c).
Proof using.
  intros [H1 H2 H3] Hb. assert (c_epoch (compacted c) = c_epoch c + 1) as He by (cbn; apply as_u32_small; unfold BOUND in *; lia).
  destruct (0 <? c_iters c) eqn:Ei.
  - assert (Hr : remaps (compacted c) = (if (length (remaps c) =? 8)%nat then drop 1 (remaps c) else remaps c) ++ [(c_epoch c, renumbering 0 (c_entries c))])
      by (rewrite remaps_compacted, Ei; done).
    assert (Hl : length (remaps (compacted c)) = (if (length (remaps c) =? 8)%nat then 8 else S (length (remaps c)))%nat).
    { rewrite Hr, length_app. destruct (Nat.eqb_spec (length (remaps c)) 8); [rewrite length_drop; simpl; lia|simpl; lia]. }
    split; rewrite ?Hl, ?He.
    + destruct (Nat.eqb_spec (length (remaps c)) 8); lia.
    + destruct (Nat.eqb_spec (length (remaps c)) 8); lia.
    + rewrite Hr, fmap_app. cbn [fmap list_fmap fst]. destruct (Nat.eqb_spec (length (remaps c)) 8) as [E8|Hne].
      * rewrite fmap_drop, H3, E8. change (Z.of_nat 8) with 8. rewrite (seqZ_cons (c_epoch c - 8) 8) by lia. cbn [drop].
        replace (Z.succ (c_epoch c - 8)) with (c_epoch c + 1 - 8) by lia. change (Z.pred 8) with 7.
        etransitivity; [|apply (seqZ_snoc (c_epoch c + 1 - 8) 7); lia]. do 2 f_equal. lia.
      * rewrite H3. etransitivity; [|etransitivity; [apply (seqZ_snoc (c_epoch c - Z.of_nat (length (remaps c))) (Z.of_nat (length (remaps c)))); lia|f_equal; lia]].
        do 2 f_equal. lia.
  - assert (Hr : remaps (compacted c) = []) by (by rewrite remaps_compacted, Ei). split; rewrite ?Hr, ?He; simpl; [lia|lia|by rewrite Z.sub_0_r].
Qed.

(** A compaction with iterators attached carries a cursor that is not eight
    compactions behind to the live entries before it. *)
Lemma cursor_compact c idx e i : epochs_ok c -> raw_cursor c idx e = Some i -> 0 <= i <= Z.of_nat (length (c_entries c)) ->
  Z.of_nat (length (c_entries c)) < BOUND -> 0 < c_iters c -> c_epoch c + 1 < BOUND -> c_epoch c + 1 - e <= 8 ->
  raw_cursor (compacted c) idx e = Some (Z.of_nat (length (lives (take (Z.to_nat i) (view (c_entries c)))))).
Proof using.
  intros Hep Hcur Hi Hlen Hit Hb Hlag. pose proof (cursor_range _ _ _ _ Hep Hcur) as He. pose proof Hep as [H1 H2 H3].
  assert (Hec : c_epoch (compacted c) = c_epoch c + 1) by (cbn; apply as_u32_small; unfold BOUND in *; lia).
  assert (Hnew : renumber i (renumbering 0 (c_entries c)) = Z.of_nat (length (lives (take (Z.to_nat i) (view (c_entries c)))))).
  { unfold renumber. rewrite renumbering_length. replace (Z.of_nat (S (length (c_entries c))) - 1) with (Z.of_nat (length (c_entries c))) by lia.
    rewrite Z.min_l by lia. rewrite renumbering_nth by lia. lia. }
  unfold raw_cursor. rewrite Hec. destruct (Z.eqb_spec (c_epoch c + 1) e); [lia|]. fold (remaps (compacted c)).
  pose proof (compacted_epochs c Hep Hb) as [_ _ H3']. rewrite Hec in H3'.
  assert (Hr : remaps (compacted c) = (if (length (remaps c) =? 8)%nat then drop 1 (remaps c) else remaps c) ++ [(c_epoch c, renumbering 0 (c_entries c))]).
  { rewrite remaps_compacted. destruct (Z.ltb_spec 0 (c_iters c)); [done|lia]. }
  set (rs0 := if (length (remaps c) =? 8)%nat then drop 1 (remaps c) else remaps c) in *.
  set (s0 := if (length (remaps c) =? 8)%nat then 1%nat else 0%nat).
  assert (Hs0 : rs0 = drop s0 (remaps c)) by (unfold rs0, s0; destruct (Nat.eqb_spec (length (remaps c)) 8); [done|by rewrite drop_0]).
  assert (Hl0 : length rs0 = (length (remaps c) - s0)%nat) by (by rewrite Hs0, length_drop).
  assert (Hlr : Z.of_nat (length (remaps (compacted c))) = Z.of_nat (length rs0) + 1) by (rewrite Hr, length_app; simpl; lia).
  destruct (find_epoch (remaps (compacted c)) _ e H3') as (x & ->).
  { rewrite Hlr, Hl0. unfold s0. destruct (Nat.eqb_spec (length (remaps c)) 8); lia. }
  cbn [fmap option_fmap option_map fst]. f_equal. rewrite Hlr. set (st := Z.to_nat _).
  assert (Hst : (st <= length rs0)%nat) by (unfold st; rewrite Hl0; unfold s0; destruct (Nat.eqb_spec (length (remaps c)) 8); lia).
  rewrite Hr, drop_app_le, fmap_app, foldl_app by done. cbn [fmap list_fmap snd foldl]. rewrite <- Hnew. f_equal.
  unfold raw_cursor in Hcur. destruct (Z.eqb_spec (c_epoch c) e) as [Ee|Hne].
  - injection Hcur as <-. rewrite drop_ge; [done|]. unfold st. rewrite Hl0. unfold s0. destruct (Nat.eqb_spec (length (remaps c)) 8); lia.
  - fold (remaps c) in Hcur. destruct (find_epoch (remaps c) _ e H3) as (y & Hy); [lia|]. rewrite Hy in Hcur.
    cbn [fmap option_fmap option_map fst] in Hcur. injection Hcur as Hcur. rewrite <- Hcur. rewrite Hs0, drop_drop. do 3 f_equal.
    unfold st. rewrite Hl0. unfold s0. destruct (Nat.eqb_spec (length (remaps c)) 8); lia.
Qed.

(** ** One step of an iterator *)

Lemma status_done n : n = 0 \/ n = 1 \/ n = 2 -> f64_ge (num (uint n)) (f64_of_uint 2) = (n =? 2).
Proof using. intros [->|[->| ->]]; vm_compute; reflexivity. Qed.

(** What an iterator at rest in its cell has ahead, in its collection's numbering. *)
Record at_cursor r (state coll : Heap.Handle) c (kind idx epoch : Z) (last : NanBox) (status i : Z) : Prop := {
  ac_cell : cell_at r state = Some (iter_cell kind idx epoch last status);
  ac_status : status = 0 \/ status = 1;
  ac_kind : 0 <= kind < 256;
  ac_idx : 0 <= idx < BOUND;
  ac_epoch : 0 <= epoch < BOUND;
  ac_cursor : cursor c idx epoch = Some i;
  ac_range : 0 <= i <= Z.of_nat (length (c_entries c)) }.

Lemma done_spec r state coll kind idx epoch last : cell_at r state = Some (iter_cell kind idx epoch last 2) ->
  collection_iter_advance state coll r = Some (None, r).
Proof using. intros Hs. unfold collection_iter_advance. rewrite bind_get, Hs. cbn [iter_cell]. by rewrite status_done by auto. Qed.

(** The first half of a step: where the iterator is, with the dead prefix noted. *)
Lemma locate_spec r coll c idx epoch i last : realm_ok r -> coll_at r coll = Some c -> coll_ok r c -> cursor c idx epoch = Some i ->
  0 <= i <= Z.of_nat (length (c_entries c)) ->
  exists r1 c1,
    mut_coll coll (fun c =>
          if c_epoch c =? epoch
          then let from := Z.max idx (head_of c) in
               if from =? head_of c then note_head from (live_from (c_entries c) from) c else c
          else c) r = Some (true, r1) /\
    (if c_epoch c =? epoch then mret (collection_next_live r coll idx, epoch)
     else ('(i, now) ← collection_iter_rebase coll idx epoch last;
           r ← gets id;
           mret (collection_next_live r coll i, now)) : prog (Realm P) _) r1 = Some ((collection_next_live r coll i, c_epoch c), r1) /\
    writes r r1 coll (CCollection c1) /\ coll_ok r c1 /\ same_frame c c1 /\ c_entries c1 = c_entries c.
Proof using.
  intros Hr Hc Hok Hcur Hi. set (f := fun c : Collection => _ : Collection).
  destruct (mut_coll_spec r coll f c Hr Hc) as (r1 & Hrun & Hw). exists r1, (f c). split; [exact Hrun|].
  assert (Hf : coll_ok r (f c) /\ same_frame c (f c) /\ c_entries (f c) = c_entries c).
  { unfold f. destruct (c_epoch c =? epoch); [|done]. cbv zeta. destruct (Z.eqb_spec (Z.max idx (head_of c)) (head_of c)); [|done]. by apply note_head_ok. }
  destruct Hf as (Hok1 & Hfr & Hes). split; [|by split_and!]. unfold cursor in Hcur. destruct (Z.eqb_spec (c_epoch c) epoch) as [Ee|Hne].
  - injection Hcur as ->. rewrite Ee. done.
  - destruct (writes_coll _ _ _ _ _ Hw Hc) as [Hc1 _].
    assert (Hcar : carry (f c) idx epoch = Some i) by (unfold carry; by rewrite (sf_remaps _ _ Hfr), Hes).
    assert (Hreb : collection_iter_rebase coll idx epoch last r1 = Some ((i, c_epoch c), r1)).
    { unfold collection_iter_rebase. rewrite bind_get, Hc1, (sf_epoch _ _ Hfr). destruct (Z.eqb_spec (c_epoch c) epoch); [done|]. by rewrite Hcar. }
    rewrite (bind_run _ _ _ _ _ Hreb), bind_get. cbn [mret prog_ret]. unfold mret, prog_ret. do 3 f_equal.
    unfold collection_next_live. rewrite Hc, Hc1. cbn [mbind option_bind]. rewrite Hes.
    unfold f. apply Z.eqb_neq in Hne. by rewrite Hne.
Qed.

Lemma collection_iter_advance_spec r state coll c kind idx epoch last status i : realm_ok r -> coll_at r coll = Some c -> coll_ok r c ->
  at_cursor r state coll c kind idx epoch last status i -> 0 <= c_epoch c < BOUND ->
  exists ans r' c' x, collection_iter_advance state coll r = Some (ans, r') /\ realm_ok r' /\
    cell_at r' coll = Some (CCollection c') /\ cell_at r' state = Some x /\
    (forall h, h <> coll -> h <> state -> cell_at r' h = cell_at r h) /\
    coll_ok r c' /\ c_entries c' = c_entries c /\ c_set c' = c_set c /\ c_weak c' = c_weak c /\ c_epoch c' = c_epoch c /\ c_remaps c' = c_remaps c /\
    match lives (drop (Z.to_nat i) (view (c_entries c))) with
    | e :: rest => ans = Some (kind, fst e, snd e) /\ c_iters c' = c_iters c /\
        exists pos, x = iter_cell kind pos (c_epoch c) (fst e) 1 /\ i < pos <= Z.of_nat (length (c_entries c)) /\
          lives (drop (Z.to_nat pos) (view (c_entries c))) = rest
    | [] => ans = None /\ c_iters c' = Z.max 0 (c_iters c - 1) /\ x = iter_cell kind idx epoch last 2
    end.
Proof using.
  intros Hr Hc Hok [Hcell Hstat Hkind Hidx Hep Hcur Hi] Hce. unfold collection_iter_advance. rewrite bind_get, Hcell. cbn [iter_cell].
  rewrite status_done by tauto. assert ((status =? 2) = false) as -> by (destruct Hstat as [->| ->]; done).
  assert (Hne : state <> coll). { intros ->. apply coll_at_cell in Hc. unfold iter_cell in Hcell. congruence. }
  rewrite !num_uint by (unfold BOUND in *; lia). rewrite !f64_uint_roundtrip by (unfold BOUND in *; lia). cbv zeta.
  rewrite Hc. set (lst := if f64_ge _ _ then Some last else None).
  destruct (locate_spec r coll c idx epoch i lst Hr Hc Hok Hcur Hi) as (r1 & c1 & Hrun1 & Hloc & Hw1 & Hok1 & Hfr1 & Hes1).
  rewrite (bind_run _ _ _ _ _ Hrun1), (bind_run _ _ _ _ _ Hloc), bind_get.
  assert (Hst1 : cell_at r1 state = Some (iter_cell kind idx epoch last status)) by (by rewrite (w_else _ _ _ _ Hw1)). rewrite Hst1. cbn [iter_cell].
  pose proof (next_live_spec r r coll c i Hc Hok Hi) as Hnext. destruct (collection_next_live r coll i) as [[[pos k] v]|].
  - destruct Hnext as [Hpos Hl]. rewrite Hl.
    destruct (mut_cell_spec r1 state (store_cursor pos (c_epoch c) k) _ (w_ok _ _ _ _ Hw1) Hst1) as (r2 & Hrun2 & Hw2). rewrite (bind_run _ _ _ _ _ Hrun2).
    destruct (write_barrier_spec r2 state k (w_ok _ _ _ _ Hw2)) as (r3 & Hrun3 & Hs3). rewrite (bind_run _ _ _ _ _ Hrun3).
    exists (Some (kind, k, v)), r3, c1, (store_cursor pos (c_epoch c) k (iter_cell kind idx epoch last status)). split; [done|].
    split; [apply Hs3|]. split_and!; try apply Hfr1; try done.
    + rewrite (proj2 Hs3), (w_else _ _ _ _ Hw2) by done. apply (w_here _ _ _ _ Hw1).
    + rewrite (proj2 Hs3). apply (w_here _ _ _ _ Hw2).
    + intros h Hh Hh'. rewrite (proj2 Hs3), (w_else _ _ _ _ Hw2), (w_else _ _ _ _ Hw1) by done. done.
    + exists (pos + 1). split_and!; [done|lia|lia|done].
  - rewrite Hnext. destruct (mut_cell_spec r1 state store_done _ (w_ok _ _ _ _ Hw1) Hst1) as (r2 & Hrun2 & Hw2). rewrite (bind_run _ _ _ _ _ Hrun2).
    assert (Hc2 : coll_at r2 coll = Some c1). { apply coll_at_cell. rewrite (w_else _ _ _ _ Hw2) by done. apply (w_here _ _ _ _ Hw1). }
    destruct (mut_coll_spec r2 coll (fun c => set_iters (Z.max 0 (c_iters c - 1)) c) c1 (w_ok _ _ _ _ Hw2) Hc2) as (r3 & Hrun3 & Hw3).
    unfold collection_iter_detach. rewrite (bind_run _ _ _ _ _ Hrun3).
    exists None, r3, (set_iters (Z.max 0 (c_iters c1 - 1)) c1), (store_done (iter_cell kind idx epoch last status)). split; [done|].
    split; [apply (w_ok _ _ _ _ Hw3)|]. split_and!; try apply Hfr1; try done.
    + apply (w_here _ _ _ _ Hw3).
    + rewrite (w_else _ _ _ _ Hw3) by done. apply (w_here _ _ _ _ Hw2).
    + intros h Hh Hh'. by rewrite (w_else _ _ _ _ Hw3), (w_else _ _ _ _ Hw2), (w_else _ _ _ _ Hw1).
    + destruct Hok1 as [H1 H2 H3 H4]. by split.
    + cbn. by rewrite (sf_iters _ _ Hfr1).
Qed.

(** ** Making an iterator *)

Lemma attach_ok r c n : coll_ok r c -> coll_ok r (set_iters n c).
Proof using. intros [H1 H2 H3 H4]. by split. Qed.

Lemma collection_iter_state_spec grow r coll c kind : realm_ok r -> coll_at r coll = Some c -> coll_ok r c ->
  room r ->
  exists state r', collection_iter_state grow coll kind r = Some (state, r') /\ realm_ok r' /\ cell_at r state = None /\
    cell_at r' state = Some (iter_cell kind 0 (c_epoch c) undefined 0) /\ state <> coll /\
    cell_at r' coll = Some (CCollection (set_iters (as_u32 (c_iters c + 1)) c)) /\
    (forall h, h <> coll -> h <> state -> cell_at r' h = cell_at r h).
Proof using.
  intros Hr Hc Hok Hroom. unfold collection_iter_state, collection_iter_attach. rewrite bind_bind, bind_get.
  destruct (mut_coll_spec r coll (fun c => set_iters (as_u32 (c_iters c + 1)) c) c Hr Hc) as (r1 & Hrun1 & Hw1).
  rewrite bind_bind, (bind_run _ _ _ _ _ Hrun1), Hc, (bind_run _ _ r1 (c_epoch c) r1) by done.
  destruct (alloc_cell_spec grow r1 (CArray [uint kind; uint 0; uint (c_epoch c); undefined; uint 0]) (w_ok _ _ _ _ Hw1)) as (state & r2 & Hrun2 & Hnone & Hw2).
  { by apply (mut_cell_room r coll (on_coll (fun c => set_iters (as_u32 (c_iters c + 1)) c)) true r1 Hr). }
  assert (Hne : state <> coll). { intros ->. rewrite (w_here _ _ _ _ Hw1) in Hnone. done. }
  exists state, r2. split; [exact Hrun2|]. split; [apply (w_ok _ _ _ _ Hw2)|]. split_and!.
  - by rewrite <- (w_else _ _ _ _ Hw1).
  - apply (w_here _ _ _ _ Hw2).
  - done.
  - rewrite (w_else _ _ _ _ Hw2) by done. apply (w_here _ _ _ _ Hw1).
  - intros h Hh Hh'. by rewrite (w_else _ _ _ _ Hw2), (w_else _ _ _ _ Hw1).
Qed.
End Iter.
