(* ===== verification/CollectionSpec.v ===== *)
(** * Maps, sets and their iterators are ECMAScript's

    A history makes collections and iterators in a realm and calls their
    operations.  The specification keeps ECMAScript's lists, never compacted, and
    an iterator is a position in its list.  [collections_refine]: the answers are
    the same. *)

From Stdlib Require Import String.
From S2P Require Import Prelude Prog Probe CollIndex CollIndexSpec NanBox Float Heap HeapInv Gc Shape.
From S2P Require Import Collection CollectionBase CollectionList CollectionOps CollectionIter.

#[local] Abbreviation length := Datatypes.length.
#[local] Open Scope Z_scope.

(** ** Histories *)

Inductive CollOp :=
| CNew (is_set : bool)
| CSet (ci : nat) (k v : NanBox)
| CGet (ci : nat) (k : NanBox)
| CHas (ci : nat) (k : NanBox)
| CDelete (ci : nat) (k : NanBox)
| CClear (ci : nat)
| CSize (ci : nat)
| CEntries (ci : nat)
| CIter (ci : nat) (kind : Z)
| CNext (it : nat).

(** [CBad]: there is no such collection or iterator. *)
Inductive CollAns :=
| CBool (b : bool)
| CVal (v : option NanBox)
| CCount (n : Z)
| CList (l : list entry)
| CStep (o : option (Z * NanBox * NanBox))
| CDone
| CBad.

Record CollWorld (P : Type) := MkWorld { realm : Realm P; colls : list Heap.Handle; iters : list (Heap.Handle * nat) }.
Arguments MkWorld {P}. Arguments realm {P}. Arguments colls {P}. Arguments iters {P}.

Section Run.
Context {P : Type} (grow : nat -> nat -> nat).
Implicit Types (w : CollWorld P).

Definition on_realm {A} (m : prog (Realm P) A) (f : A -> CollAns) w : option (CollAns * CollWorld P) :=
  '(x, r) ← m (realm w); Some (f x, MkWorld r (colls w) (iters w)).

Definition on_coll_of {A} (ci : nat) (m : Heap.Handle -> prog (Realm P) A) (f : A -> CollAns) w : option (CollAns * CollWorld P) :=
  match colls w !! ci with
  | Some h => on_realm (m h) f w
  | None => Some (CBad, w)
  end.

Definition run_coll_op (o : CollOp) w : option (CollAns * CollWorld P) :=
  match o with
  | CNew is_set => '(h, r) ← new_collection grow is_set (realm w); Some (CDone, MkWorld r (colls w ++ [h]) (iters w))
  | CSet ci k v => on_coll_of ci (fun h => collection_set h k v) CBool w
  | CGet ci k => on_coll_of ci (fun h => collection_get h k) CVal w
  | CHas ci k => on_coll_of ci (fun h => collection_has h k) CBool w
  | CDelete ci k => on_coll_of ci (fun h => collection_delete h k) CBool w
  | CClear ci => on_coll_of ci (fun h => collection_clear h) (fun _ => CDone) w
  | CSize ci => on_coll_of ci (fun h => gets (fun r => default 0 (collection_size r h))) CCount w
  | CEntries ci => on_coll_of ci (fun h => gets (fun r => default [] (collection_entries r h))) CList w
  | CIter ci kind =>
      match colls w !! ci with
      | Some h => '(st, r) ← collection_iter_state grow h kind (realm w); Some (CDone, MkWorld r (colls w) (iters w ++ [(st, ci)]))
      | None => Some (CBad, w)
      end
  | CNext it =>
      match iters w !! it with
      | Some (st, ci) => on_coll_of ci (fun h => collection_iter_advance st h) CStep w
      | None => Some (CBad, w)
      end
  end.

Fixpoint run_colls (ops : list CollOp) w : option (list CollAns * CollWorld P) :=
  match ops with
  | [] => Some ([], w)
  | o :: ops => '(a, w) ← run_coll_op o w; '(l, w) ← run_colls ops w; Some (a :: l, w)
  end.

(** *** The histories the specification speaks of

    The heap has room for what is made, no key is the hole, and an iterator is
    stepped no more than eight compactions after its last step. *)
Definition roomy w : bool := (0 <? free_top (heap (realm w)))%nat || (Z.of_nat (length (slots (heap (realm w)))) <? U32_MAX).

(** How many compactions the iterator [it] is behind; a finished one is not. *)
Definition lag w (it : nat) : Z :=
  match iters w !! it with
  | Some (st, ci) =>
      match cell_at (realm w) st, h ← colls w !! ci; coll_at (realm w) h with
      | Some (CArray [_; _; epoch; _; status]), Some c =>
          if f64_ge (num status) (f64_of_uint 2) then 0 else c_epoch c - f64_to_uint 32 (num epoch)
      | _, _ => 0
      end
  | None => 0
  end.

Definition fair_op (o : CollOp) w : bool :=
  match o with
  | CNew _ => roomy w
  | CSet _ k _ => negb (is_hole k)
  | CIter _ kind => roomy w && (0 <=? kind) && (kind <? 256)
  | CNext it => lag w it <=? 8
  | _ => true
  end.

Fixpoint fair (ops : list CollOp) w : bool :=
  match ops with
  | [] => true
  | o :: ops => fair_op o w && match run_coll_op o w with Some (_, w) => fair ops w | None => true end
  end.
End Run.

(** ** The specification *)

(** What a key is to ECMAScript's SameValueZero: one NaN, one zero, strings and
    BigInts by what they hold, objects by identity, any other value by itself. *)
Inductive KeyVal :=
| KNaN
| KNumber (bits : Z)
| KString (b : list Z)
| KBigInt (n : Z)
| KObject (raw : Z)
| KPrimitive (word : Z).

#[export] Instance KeyVal_eq_dec : EqDecision KeyVal.
Proof. solve_decision. Defined.

Definition key_val {P} (r : Realm P) (v : NanBox) : KeyVal :=
  match as_number v, as_handle v with
  | Some x, _ => if f64_is_nan x then KNaN else if f64_is_zero x then KNumber 0 else KNumber x
  | None, Some raw =>
      match content r raw with
      | Some (inl b) => KString b
      | Some (inr n) => KBigInt n
      | None => KObject raw
      end
  | None, None => KPrimitive (word v)
  end.

Definition key_eqv {P} (r : Realm P) (a b : NanBox) : bool := bool_decide (key_val r a = key_val r b).

Record SColl := MkSColl { s_set : bool; s_list : list (option entry) }.
Record SIter := MkSIter { si_coll : nat; si_kind : Z; si_pos : nat; si_done : bool }.
Record SWorld := MkSWorld { s_colls : list SColl; s_iters : list SIter }.

(** The first entry that is not empty, and its distance. *)
Fixpoint first_live (l : list (option entry)) : option (nat * entry) :=
  match l with
  | [] => None
  | Some e :: _ => Some (0%nat, e)
  | None :: l => (fun x => (S (fst x), snd x)) <$> first_live l
  end.

Section SpecRun.
Context (eqv : NanBox -> NanBox -> bool).
Implicit Types (sw : SWorld).

Definition s_on (ci : nat) (f : SColl -> CollAns * list (option entry)) sw : CollAns * SWorld :=
  match s_colls sw !! ci with
  | Some sc => let (a, l) := f sc in (a, MkSWorld (<[ci := MkSColl (s_set sc) l]> (s_colls sw)) (s_iters sw))
  | None => (CBad, sw)
  end.

Definition s_step (sc : SColl) (si : SIter) : CollAns * SIter :=
  if si_done si then (CStep None, si)
  else
    match first_live (drop (si_pos si) (s_list sc)) with
    | Some (d, e) => (CStep (Some (si_kind si, fst e, snd e)), MkSIter (si_coll si) (si_kind si) (S (si_pos si + d)) false)
    | None => (CStep None, MkSIter (si_coll si) (si_kind si) (si_pos si) true)
    end.

Definition s_coll_op (o : CollOp) sw : CollAns * SWorld :=
  match o with
  | CNew is_set => (CDone, MkSWorld (s_colls sw ++ [MkSColl is_set []]) (s_iters sw))
  | CSet ci k v => s_on ci (fun sc => (CBool true,
      s_put eqv (s_set sc) (normal_key k) (if s_set sc then normal_key k else v) (s_list sc))) sw
  | CGet ci k => s_on ci (fun sc => (CVal (snd <$> s_lookup eqv k (s_list sc)), s_list sc)) sw
  | CHas ci k => s_on ci (fun sc => (CBool (bool_decide (is_Some (s_lookup eqv k (s_list sc)))), s_list sc)) sw
  | CDelete ci k => s_on ci (fun sc => (CBool (bool_decide (is_Some (s_lookup eqv k (s_list sc)))), s_remove eqv k (s_list sc))) sw
  | CClear ci => s_on ci (fun sc => (CDone, s_clear (s_list sc))) sw
  | CSize ci => s_on ci (fun sc => (CCount (Z.of_nat (length (lives (s_list sc)))), s_list sc)) sw
  | CEntries ci => s_on ci (fun sc => (CList (lives (s_list sc)), s_list sc)) sw
  | CIter ci kind =>
      match s_colls sw !! ci with
      | Some _ => (CDone, MkSWorld (s_colls sw) (s_iters sw ++ [MkSIter ci kind 0 false]))
      | None => (CBad, sw)
      end
  | CNext it =>
      match s_iters sw !! it with
      | Some si =>
          match s_colls sw !! si_coll si with
          | Some sc => let (a, si') := s_step sc si in (a, MkSWorld (s_colls sw) (<[it := si']> (s_iters sw)))
          | None => (CBad, sw)
          end
      | None => (CBad, sw)
      end
  end.

Fixpoint s_run_colls (ops : list CollOp) sw : list CollAns * SWorld :=
  match ops with
  | [] => ([], sw)
  | o :: ops => let (a, sw) := s_coll_op o sw in let (l, sw) := s_run_colls ops sw in (a :: l, sw)
  end.
End SpecRun.

Lemma first_live_spec l : match first_live l with
  | Some (d, e) => (d < length l)%nat /\ lives l = e :: lives (drop (S d) l)
  | None => lives l = []
  end.
Proof.
  induction l as [|[e|] l IH]; [done|split; [simpl; lia|done]|]. cbn [first_live]. destruct (first_live l) as [[d e]|]; cbn; [|done].
  destruct IH as [Hd Hl]. split; [lia|done].
Qed.

(** ** The engine's key equality is SameValueZero *)

Lemma number_word v x : as_number v = Some x -> x = word v.
Proof. unfold as_number. destruct (is_number v); [by intros [= <-]|done]. Qed.

Lemma handle_number v x : as_handle v = Some x -> as_number v = None.
Proof. intros Hx. destruct (as_number v) eqn:E; [|done]. apply as_number_handle in E. congruence. Qed.

Lemma same_key_val {P} (r : Realm P) a b : same_key r a b <-> key_val r a = key_val r b.
Proof.
  unfold key_val. split.
  - intros [->|Ha Hb|x y Hx Hy Hzx Hzy|x y k Hx Hy Hkx Hky|x Hx Hy]; [done| | | |].
    + unfold number_is_nan in *. destruct (as_number a); [|done]. destruct (as_number b); [|done]. by rewrite Ha, Hb.
    + rewrite Hx, Hy, (f64_zero_not_nan _ Hzx), (f64_zero_not_nan _ Hzy), Hzx, Hzy. done.
    + rewrite (handle_number _ _ Hx), (handle_number _ _ Hy), Hx, Hy, Hkx, Hky. done.
    + by rewrite (handle_number _ _ Hx), (handle_number _ _ Hy), Hx, Hy.
  - destruct (as_number a) as [x|] eqn:Ea, (as_number b) as [y|] eqn:Eb.
    + destruct (f64_is_nan x) eqn:Nx, (f64_is_nan y) eqn:Ny; try (by destruct (f64_is_zero _)); [intros _; apply SK_nan; unfold number_is_nan; by rewrite ?Ea, ?Eb|].
      destruct (f64_is_zero x) eqn:Zx, (f64_is_zero y) eqn:Zy; [by intros _; eapply SK_zero|intros [= E]; by rewrite <- E in Zy|intros [= E]; by rewrite E in Zx|intros [= E]].
      apply SK_eq, NanBox_eq. by rewrite <- (number_word a x), <- (number_word b y).
    + destruct (f64_is_nan x), (f64_is_zero x), (as_handle b) as [h|]; try done; by destruct (content r h) as [[]|].
    + destruct (f64_is_nan y), (f64_is_zero y), (as_handle a) as [h|]; try done; by destruct (content r h) as [[]|].
    + destruct (as_handle a) as [h|] eqn:Ha, (as_handle b) as [h'|] eqn:Hb; [..|by intros [= E%NanBox_eq]; apply SK_eq]; [|by destruct (content r h) as [[]|]|by destruct (content r h') as [[]|]].
      destruct (content r h) as [[]|] eqn:Ch, (content r h') as [[]|] eqn:Ch'; intros [= E]; subst; [by eapply SK_content|by eapply SK_content|by eapply SK_handle].
Qed.

Lemma same_value_zero_key {P} (r : Realm P) a b : same_value_zero r a b = key_eqv r a b.
Proof. apply eq_true_iff_eq. unfold key_eqv. by rewrite same_value_zero_iff, bool_decide_eq_true, same_key_val. Qed.

(** ** The specification depends on the equality's values only *)

Abbreviation eqv_equiv := (pointwise_relation NanBox (pointwise_relation NanBox (@eq bool))).

#[export] Instance s_lookup_proper : Proper (eqv_equiv ==> eq ==> eq ==> eq) s_lookup.
Proof.
  intros f g Hfg k _ <- l _ <-. unfold s_lookup. induction (lives l) as [|e es IH]; [done|]. cbn. rewrite Hfg. by destruct (g _ _).
Qed.

#[export] Instance s_update_proper : Proper (eqv_equiv ==> eq ==> eq ==> eq ==> eq) s_update.
Proof. intros f g Hfg k _ <- v _ <- l _ <-. apply list_fmap_ext. intros _ [e|] _; [|done]. cbn. unfold put_entry. by rewrite Hfg. Qed.

#[export] Instance s_remove_proper : Proper (eqv_equiv ==> eq ==> eq ==> eq) s_remove.
Proof. intros f g Hfg k _ <- l _ <-. apply list_fmap_ext. intros _ [e|] _; [|done]. cbn. by rewrite Hfg. Qed.

#[export] Instance s_put_proper : Proper (eqv_equiv ==> eq ==> eq ==> eq ==> eq ==> eq) s_put.
Proof. intros f g Hfg b _ <- k _ <- v _ <- l _ <-. unfold s_put. rewrite (s_lookup_proper f g Hfg k k eq_refl l l eq_refl). destruct (s_lookup g k l); [|done]. destruct b; [done|]. by apply s_update_proper. Qed.

#[export] Instance s_on_proper : Proper (eq ==> pointwise_relation _ eq ==> eq ==> eq) s_on.
Proof. intros ci _ <- f g Hfg sw _ <-. unfold s_on. destruct (s_colls sw !! ci); [|done]. by rewrite Hfg. Qed.

#[export] Instance s_coll_op_proper : Proper (eqv_equiv ==> eq ==> eq ==> eq) s_coll_op.
Proof. intros f g Hfg o _ <- sw _ <-. destruct o; cbn [s_coll_op]; try done; apply s_on_proper; try done; intros sc;
  rewrite ?(s_lookup_proper f g Hfg k k eq_refl _ _ eq_refl); f_equal; [by apply s_put_proper|by apply s_remove_proper]. Qed.

#[export] Instance s_run_colls_proper : Proper (eqv_equiv ==> eq ==> eq ==> eq) s_run_colls.
Proof.
  intros f g Hfg ops _ <-. induction ops as [|o ops IH]; intros sw _ <-; [done|]. cbn [s_run_colls]. rewrite Hfg.
  destruct (s_coll_op g o sw) as [a sw1]. by rewrite (IH sw1 sw1).
Qed.
