(* ===== verification/CollectionRefine.v ===== *)
(** * The refinement of collections

    What an operation does to the collection it is called on ([steps_to]) is enough
    for every iterator of that collection, so one lemma ([one_collection]) moves the
    whole world on; the operations that make something or step an iterator are
    treated on their own. *)

From Stdlib Require Import String.
From S2P Require Import Prelude Prog Probe CollIndex CollIndexSpec NanBox Float Heap HeapInv Gc Shape.
From S2P Require Import Collection CollectionBase CollectionList CollectionOps CollectionIter CollectionSpec.

#[local] Abbreviation length := Datatypes.length.
#[local] Open Scope Z_scope.

Section Refine.
Context {P : Type} (r0 : Realm P).
Implicit Types (r : Realm P) (h st : Heap.Handle) (c : Collection) (sc : SColl) (si : SIter) (w : CollWorld P) (sw : SWorld).

(** ** The relation *)

Definition same_lives c sc (i pos : nat) : Prop := same_rest (view (c_entries c)) i (s_list sc) pos.

(** [m] iterators are attached, and at most [n] steps have been taken. *)
Record coll_rel (n : Z) c sc (m : Z) : Prop := {
  cr_ok : coll_ok r0 c;
  cr_epochs : epochs_ok c;
  cr_set : c_set c = s_set sc;
  cr_lives : same_lives c sc 0 0;
  cr_len : Z.of_nat (length (c_entries c)) <= n;
  cr_epoch : c_epoch c <= n;
  cr_iters : c_iters c = m }.

(** The cursor [idx] of epoch [e] stands for the position [pos]. *)
Record cursor_rel c sc (idx e : Z) (pos : nat) : Prop := {
  cu_idx : 0 <= idx < BOUND;
  cu_epoch : 0 <= e <= c_epoch c;
  cu_kept : (length (remaps c) < 8)%nat -> c_epoch c - Z.of_nat (length (remaps c)) <= e;
  cu_rest : forall i, raw_cursor c idx e = Some i -> 0 <= i /\ same_lives c sc (Z.to_nat i) pos }.

Record iter_rel r st c sc si : Prop := {
  ir_kind : 0 <= si_kind si < 256;
  ir_cell : exists idx e last status, cell_at r st = Some (iter_cell (si_kind si) idx e last status) /\
    if si_done si then status = 2 else (status = 0 \/ status = 1) /\ cursor_rel c sc idx e (si_pos si) }.

Definition attached sw (ci : nat) : Z := count_if (fun si => (si_coll si =? ci)%nat && negb (si_done si)) (s_iters sw).

Record world_rel (n : Z) w sw : Prop := {
  wr_realm : realm_ok (realm w);
  wr_same : same_contents r0 (realm w);
  wr_handles : NoDup (colls w);
  wr_states : NoDup (fst <$> iters w);
  wr_colls : length (s_colls sw) = length (colls w);
  wr_iters : length (s_iters sw) = length (iters w);
  wr_count : Z.of_nat (length (iters w)) <= n;
  wr_coll : forall ci h sc, colls w !! ci = Some h -> s_colls sw !! ci = Some sc ->
    exists c, coll_at (realm w) h = Some c /\ coll_rel n c sc (attached sw ci);
  wr_iter : forall k st ci si, iters w !! k = Some (st, ci) -> s_iters sw !! k = Some si -> si_coll si = ci /\
    exists h sc c, colls w !! ci = Some h /\ s_colls sw !! ci = Some sc /\ coll_at (realm w) h = Some c /\ iter_rel (realm w) st c sc si }.

(** ** What an operation does to one collection *)

Record steps_to (n : Z) c sc c' sc' : Prop := {
  st_rel : coll_rel (n + 1) c' sc' (c_iters c);
  st_iters : 0 < c_iters c -> forall idx e pos, cursor_rel c sc idx e pos -> cursor_rel c' sc' idx e pos }.

Lemma rest_bound c sc i pos : same_lives c sc i pos -> (i <= length (c_entries c))%nat.
Proof using. intros (Hi & _). by rewrite view_length in Hi. Qed.

Lemma raw_same_frame c c' idx e : same_frame c c' -> raw_cursor c' idx e = raw_cursor c idx e.
Proof using. intros [_ _ _ He Hr]. unfold raw_cursor. by rewrite He, Hr. Qed.

Lemma epochs_same_frame c c' : same_frame c c' -> epochs_ok c -> epochs_ok c'.
Proof using. intros [_ _ _ He Hr] [H1 H2 H3]. unfold remaps in *. split; unfold remaps; by rewrite ?He, ?Hr. Qed.

(** An operation that keeps the numbering and does the same to both lists. *)
Lemma frame_steps n c sc m c' l : coll_rel n c sc m -> coll_ok r0 c' -> same_frame c c' ->
  Z.of_nat (length (c_entries c')) <= n + 1 ->
  (forall i pos, same_lives c sc i pos -> 0 < c_iters c \/ (i = 0%nat /\ pos = 0%nat) -> same_rest (view (c_entries c')) i l pos) ->
  steps_to n c sc c' (MkSColl (s_set sc) l).
Proof using.
  intros [H1 H2 H3 H4 H5 H6 H7] Hok Hfr Hlen Hrest. split.
  - split; try done.
    + by eapply epochs_same_frame.
    + by rewrite (sf_set _ _ Hfr).
    + apply Hrest; [done|by right].
    + rewrite (sf_epoch _ _ Hfr). lia.
    + apply (sf_iters _ _ Hfr).
  - intros Hit idx e pos [C1 C2 C3 C4]. unfold remaps in *. split; try (unfold remaps; rewrite ?(sf_epoch _ _ Hfr), ?(sf_remaps _ _ Hfr); done).
    intros i Hi. rewrite (raw_same_frame c c') in Hi by done. destruct (C4 i Hi) as [Hi0 Hs]. split; [done|]. apply Hrest; [done|by left].
Qed.

(** Compacting afterwards changes nothing more. *)
Lemma compact_steps n c sc c' sc' : steps_to n c sc c' sc' -> n + 1 < BOUND -> epochs_ok c -> c_epoch c' = c_epoch c -> c_epoch c + 1 <= n + 1 ->
  steps_to n c sc (compacted c') sc'.
Proof using.
  intros [[H1 H2 H3 H4 H5 H6 H7] Hit] Hb Hep He Hn. pose proof (co_len _ _ H1) as Hlen.
  assert (Hec : c_epoch (compacted c') = c_epoch c' + 1) by (cbn; pose proof (ep_range _ H2); apply as_u32_small; unfold BOUND in *; lia).
  assert (Hep' : epochs_ok (compacted c')) by (apply compacted_epochs; [done|unfold BOUND in *; lia]). split.
  - split; try done.
    + by apply compacted_ok.
    + unfold same_lives. rewrite compacted_view. apply (rest_compact _ 0). exact H4.
    + rewrite <- view_length, compacted_view, length_fmap. pose proof (lives_length (view (c_entries c'))). rewrite view_length in *. lia.
    + rewrite Hec. lia.
  - intros Hi0 idx e pos Hcu. destruct (Hit Hi0 idx e pos Hcu) as [C1 C2 C3 C4].
    assert (Hl : Z.of_nat (length (remaps (compacted c'))) = if (length (remaps c') =? 8)%nat then 8 else Z.of_nat (length (remaps c')) + 1).
    { rewrite remaps_compacted. destruct (Z.ltb_spec 0 (c_iters c')); [|lia]. rewrite push_remap_eq, length_app. fold (remaps c').
      destruct (Nat.eqb_spec (length (remaps c')) 8); [rewrite length_drop|]; simpl; lia. }
    pose proof (ep_short _ H2). split; [done|rewrite Hec; lia| |].
    + intros Hlt. rewrite Hec, Hl in *. destruct (Nat.eqb_spec (length (remaps c')) 8); [lia|]. specialize (C3 ltac:(lia)). lia.
    + intros i Hi. pose proof (cursor_range _ _ _ _ Hep' Hi) as Hr. rewrite Hec, Hl in Hr.
      destruct (cursor_known c' idx e H2) as [j Hj]; [destruct (Nat.eqb_spec (length (remaps c')) 8); lia|].
      destruct (C4 j Hj) as [Hj0 Hs]. pose proof (rest_bound _ _ _ _ Hs) as Hjl.
      rewrite (cursor_compact c' idx e j) in Hi by (done || lia || (destruct (Nat.eqb_spec (length (remaps c')) 8); lia) || (unfold BOUND in *; lia)).
      injection Hi as <-. split; [lia|]. rewrite Nat2Z.id. unfold same_lives. rewrite compacted_view. by apply rest_compact.
Qed.

(** ** The world moves on *)

Lemma same_contents_sym r r' : same_contents r r' -> same_contents r' r.
Proof using. intros H raw. by rewrite H. Qed.

Lemma count_nonneg sw ci : 0 <= attached sw ci.
Proof using. apply count_if_le. Qed.

Lemma attached_iter sw k si : s_iters sw !! k = Some si -> si_done si = false -> 0 < attached sw (si_coll si).
Proof using.
  intros Hk Hd. unfold attached, count_if. assert (In si (List.filter (fun s => (si_coll s =? si_coll si)%nat && negb (si_done s)) (s_iters sw))) as Hin.
  { apply List.filter_In. split; [apply list_elem_of_In; by eapply list_elem_of_lookup_2|]. by rewrite Nat.eqb_refl, Hd. }
  destruct (List.filter _ _); [done|simpl; lia].
Qed.

Lemma weaken_rel n n' c sc m : n <= n' -> coll_rel n c sc m -> coll_rel n' c sc m.
Proof using. intros Hn [H1 H2 H3 H4 H5 H6 H7]. split; try done; lia. Qed.

Lemma world_cells_differ n w sw ci h k st ci' : world_rel n w sw -> colls w !! ci = Some h -> iters w !! k = Some (st, ci') -> st <> h.
Proof using.
  intros Hw Hh Hk ->. destruct (lookup_lt_is_Some_2 (s_colls sw) ci) as (sc & Hsc); [rewrite (wr_colls _ _ _ Hw); by eapply lookup_lt_Some|].
  destruct (lookup_lt_is_Some_2 (s_iters sw) k) as (si & Hsi); [rewrite (wr_iters _ _ _ Hw); by eapply lookup_lt_Some|].
  destruct (wr_coll _ _ _ Hw ci h sc Hh Hsc) as (c & Hc & _). destruct (wr_iter _ _ _ Hw k h ci' si Hk Hsi) as (_ & h' & sc' & c' & _ & _ & _ & Hir).
  destruct (ir_cell _ _ _ _ _ Hir) as (idx & e & last & status & Hcell & _). apply coll_at_cell in Hc. unfold iter_cell in Hcell. congruence.
Qed.

(** One operation on one collection. *)
Lemma one_collection n w sw ci h sc c c' sc' r' : world_rel n w sw -> colls w !! ci = Some h -> s_colls sw !! ci = Some sc ->
  coll_at (realm w) h = Some c -> writes (realm w) r' h (CCollection c') -> steps_to n c sc c' sc' ->
  world_rel (n + 1) (MkWorld r' (colls w) (iters w)) (MkSWorld (<[ci := sc']> (s_colls sw)) (s_iters sw)).
Proof using.
  intros Hw Hh Hsc Hc Hwr [Hrel Hit]. pose proof Hw as [W1 W2 W3 W4 W5 W6 W7 W8 W9]. destruct (writes_coll _ _ _ _ _ Hwr Hc) as [Hc' Hs'].
  assert (Hcit : c_iters c = attached sw ci). { destruct (W8 ci h sc Hh Hsc) as (c0 & Hc0 & Hr0). rewrite Hc in Hc0. injection Hc0 as <-. apply (cr_iters _ _ _ _ Hr0). }
  assert (Hother : forall ci' h', colls w !! ci' = Some h' -> ci' <> ci -> coll_at r' h' = coll_at (realm w) h').
  { intros ci' h' Hh' Hne. unfold coll_at. rewrite (w_else _ _ _ _ Hwr); [done|]. intros ->. apply Hne. exact (NoDup_lookup _ _ _ _ W3 Hh' Hh). }
  pose proof (lookup_lt_Some _ _ _ Hsc) as Hlt. split; cbn [realm colls iters s_colls s_iters]; try done.
  - apply (w_ok _ _ _ _ Hwr).
  - by eapply same_contents_trans.
  - by rewrite length_insert.
  - lia.
  - intros ci' h' sc1 Hh' Hsc1. destruct (decide (ci' = ci)) as [->|Hne].
    + rewrite list_lookup_insert_eq in Hsc1 by done. injection Hsc1 as <-. assert (h' = h) as -> by congruence. exists c'. split; [done|].
      change (attached _ ci) with (attached sw ci). rewrite <- Hcit. exact Hrel.
    + rewrite list_lookup_insert_ne in Hsc1 by done. rewrite (Hother ci' h' Hh' Hne). destruct (W8 ci' h' sc1 Hh' Hsc1) as (c1 & Hc1 & Hr1).
      exists c1. split; [done|]. apply (weaken_rel n); [lia|done].
  - intros k st ci' si Hk Hsi. destruct (W9 k st ci' si Hk Hsi) as (Eci & h1 & sc1 & c1 & Hh1 & Hsc1 & Hc1 & Hir). split; [done|].
    assert (Hst : cell_at r' st = cell_at (realm w) st). { apply (w_else _ _ _ _ Hwr). by eapply world_cells_differ. }
    destruct (decide (ci' = ci)) as [->|Hne].
    + assert (h1 = h) as -> by congruence. assert (sc1 = sc) as -> by congruence. assert (c1 = c) as -> by congruence.
      exists h, sc', c'. rewrite list_lookup_insert_eq by done. split_and!; [done..|]. destruct Hir as [K1 (idx & e & last & status & K2 & K3)].
      split; [done|]. exists idx, e, last, status. rewrite Hst. split; [done|]. destruct (si_done si) eqn:Ed; [done|]. destruct K3 as [K3 K4]. split; [done|].
      apply Hit; [|done]. rewrite Hcit, <- Eci. by eapply attached_iter.
    + exists h1, sc1, c1. rewrite list_lookup_insert_ne, (Hother ci' h1 Hh1 Hne) by done. split_and!; [done..|].
      destruct Hir as [K1 (idx & e & last & status & K2 & K3)]. split; [done|]. exists idx, e, last, status. by rewrite Hst.
Qed.

(** ** Each operation *)

Abbreviation eqv := (same_value_zero r0).

(** The two worlds, when [ci] names a collection, and when it does not. *)
Lemma find_collection n w sw ci : world_rel n w sw ->
  match colls w !! ci with
  | Some h => exists sc c, s_colls sw !! ci = Some sc /\ coll_at (realm w) h = Some c /\ coll_rel n c sc (attached sw ci) /\ coll_ok (realm w) c
  | None => s_colls sw !! ci = None
  end.
Proof using.
  intros Hw. destruct (colls w !! ci) as [h|] eqn:Hh.
  - destruct (lookup_lt_is_Some_2 (s_colls sw) ci) as (sc & Hsc); [rewrite (wr_colls _ _ _ Hw); by eapply lookup_lt_Some|].
    destruct (wr_coll _ _ _ Hw ci h sc Hh Hsc) as (c & Hc & Hrel). exists sc, c. split_and!; [done|done|done|].
    eapply coll_ok_contents; [apply (wr_same _ _ _ Hw)|apply (cr_ok _ _ _ _ Hrel)].
  - apply lookup_ge_None. rewrite (wr_colls _ _ _ Hw). by apply lookup_ge_None in Hh.
Qed.

(** An operation on one collection refines the specification's. *)
Lemma refine_on {A} n w sw ci (m : Heap.Handle -> prog (Realm P) A) (f : A -> CollAns) (g : SColl -> CollAns * list (option entry)) :
  world_rel n w sw ->
  (forall h sc c, colls w !! ci = Some h -> coll_at (realm w) h = Some c -> coll_rel n c sc (attached sw ci) -> coll_ok (realm w) c ->
     exists x r' c', m h (realm w) = Some (x, r') /\ f x = fst (g sc) /\ writes (realm w) r' h (CCollection c') /\
       steps_to n c sc c' (MkSColl (s_set sc) (snd (g sc)))) ->
  exists w', on_coll_of ci m f w = Some (fst (s_on ci g sw), w') /\ world_rel (n + 1) w' (snd (s_on ci g sw)).
Proof using.
  intros Hw Hop. unfold on_coll_of, s_on. pose proof (find_collection n w sw ci Hw) as Hf. destruct (colls w !! ci) as [h|] eqn:Hh.
  - destruct Hf as (sc & c & Hsc & Hc & Hrel & Hok). rewrite Hsc. destruct (Hop h sc c eq_refl Hc Hrel Hok) as (x & r' & c' & Hrun & Ha & Hwr & Hst).
    unfold on_realm. rewrite Hrun. cbn [mbind option_bind]. destruct (g sc) as [a l]. cbn [fst snd] in *. rewrite Ha.
    eexists. split; [done|]. by eapply one_collection.
  - rewrite Hf. exists w. split; [done|]. destruct Hw as [W1 W2 W3 W4 W5 W6 W7 W8 W9]. split; try done; [cbn; lia|].
    intros ci' h' sc' Hh' Hsc'. destruct (W8 ci' h' sc' Hh' Hsc') as (c & Hc & Hr). exists c. split; [done|]. apply (weaken_rel n); [lia|done].
Qed.

Lemma back r c : same_contents r0 r -> coll_ok r c -> coll_ok r0 c.
Proof using. intros Hs. apply coll_ok_contents. by apply same_contents_sym. Qed.

(** A read keeps the list. *)
Lemma read_steps n c sc m c' : coll_rel n c sc m -> coll_ok r0 c' -> same_frame c c' -> c_entries c' = c_entries c ->
  steps_to n c sc c' (MkSColl (s_set sc) (s_list sc)).
Proof using.
  intros Hrel Hok Hfr Hes. eapply frame_steps; [done|done|done|rewrite Hes; pose proof (cr_len _ _ _ _ Hrel); lia|]. intros i pos Hs _. by rewrite Hes.
Qed.

Lemma lookup_same n c sc m k r : coll_rel n c sc m -> same_contents r0 r ->
  s_lookup (same_value_zero r) k (view (c_entries c)) = s_lookup eqv k (s_list sc).
Proof using. intros Hrel Hs. rewrite (lookup_contents r0 r) by done. apply rest_lookup, (cr_lives _ _ _ _ Hrel). Qed.

Lemma put_same n c sc m k v r : coll_rel n c sc m -> same_contents r0 r ->
  put_of r (c_set c) k v (view (c_entries c)) = s_put eqv (s_set sc) (normal_key k) (if s_set sc then normal_key k else v) (view (c_entries c)).
Proof using.
  intros Hrel Hs. unfold put_of, s_put. rewrite (cr_set _ _ _ _ Hrel), (lookup_contents r0 r) by done.
  by rewrite (update_contents r0 r).
Qed.

Lemma coll_set_refines n c sc m r h k v : coll_rel n c sc m -> realm_ok r -> same_contents r0 r -> coll_at r h = Some c -> coll_ok r c ->
  n + 1 < BOUND -> is_hole k = false ->
  exists r' c', collection_set h k v r = Some (true, r') /\ writes r r' h (CCollection c') /\
    steps_to n c sc c' (MkSColl (s_set sc) (s_put eqv (s_set sc) (normal_key k) (if s_set sc then normal_key k else v) (s_list sc))).
Proof using.
  intros Hrel Hr Hs Hc Hok Hn Hk. pose proof (cr_len _ _ _ _ Hrel) as Hlen.
  destruct (collection_set_spec r h c k v Hr Hc Hok ltac:(lia) Hk) as (r' & c' & Hrun & Hw & Hok' & Hfr & Hv).
  exists r', c'. split; [done|]. split; [done|]. rewrite (put_same n c sc m k v r Hrel Hs) in Hv.
  eapply frame_steps; [done|by eapply back|done| |].
  - rewrite <- view_length, Hv. unfold s_put. destruct (s_lookup _ _ _); [destruct (s_set sc)|].
    + rewrite view_length. lia.
    + unfold s_update. rewrite length_fmap, view_length. lia.
    + rewrite length_app, view_length. simpl. lia.
  - intros i pos Hsl _. rewrite Hv. apply rest_put; [|done]. apply rest_lookup, (cr_lives _ _ _ _ Hrel).
Qed.

Lemma delete_refines n c sc m r h k : coll_rel n c sc m -> realm_ok r -> same_contents r0 r -> coll_at r h = Some c -> coll_ok r c ->
  n + 1 < BOUND ->
  exists r' c', collection_delete h k r = Some (bool_decide (is_Some (s_lookup eqv k (s_list sc))), r') /\ writes r r' h (CCollection c') /\
    steps_to n c sc c' (MkSColl (s_set sc) (s_remove eqv k (s_list sc))).
Proof using.
  intros Hrel Hr Hs Hc Hok Hn. destruct (collection_delete_spec r h c k Hr Hc Hok) as (r' & c1 & c' & Hrun & Hw & Hok1 & Hfr & Hv & Hc').
  rewrite (lookup_same n c sc m) in Hrun by done. exists r', c'. split; [done|]. split; [done|].
  rewrite (remove_contents r0 r) in Hv by done.
  assert (Hst : steps_to n c sc c1 (MkSColl (s_set sc) (s_remove eqv k (s_list sc)))).
  { eapply frame_steps; [done|by eapply back|done| |].
    - rewrite <- view_length, Hv. unfold s_remove. rewrite length_fmap, view_length. pose proof (cr_len _ _ _ _ Hrel). lia.
    - intros i pos Hsl _. rewrite Hv. by apply rest_remove. }
  destruct Hc' as [->| ->]; [done|]. apply compact_steps; [done|done|apply (cr_epochs _ _ _ _ Hrel)|apply (sf_epoch _ _ Hfr)|].
  pose proof (cr_epoch _ _ _ _ Hrel). lia.
Qed.

Lemma clear_refines n c sc m r h : coll_rel n c sc m -> 0 <= m -> realm_ok r -> same_contents r0 r -> coll_at r h = Some c -> coll_ok r c ->
  exists r' c', collection_clear h r = Some (tt, r') /\ writes r r' h (CCollection c') /\
    steps_to n c sc c' (MkSColl (s_set sc) (s_clear (s_list sc))).
Proof using.
  intros Hrel Hm Hr Hs Hc Hok. destruct (collection_clear_spec r h c Hr Hc Hok) as (r' & c' & Hrun & Hw & Hok' & Hfr & Hv).
  exists r', c'. split; [done|]. split; [done|]. pose proof (cr_len _ _ _ _ Hrel) as Hlen. pose proof (cr_iters _ _ _ _ Hrel) as Hit.
  eapply frame_steps; [done|by eapply back|done| |].
  - rewrite <- view_length, Hv. destruct (c_iters c =? 0); [simpl; lia|]. unfold s_clear. rewrite length_fmap, view_length. lia.
  - intros i pos Hsl Hi. rewrite Hv. destruct (Z.eqb_spec (c_iters c) 0); [|by apply rest_clear]. destruct Hi as [|[-> ->]]; [lia|].
    split_and!; [simpl; lia|lia|]. rewrite !drop_0. by rewrite lives_clear.
Qed.

(** ** Making a collection *)

Lemma attached_app_coll sw l ci : attached (MkSWorld l (s_iters sw)) ci = attached sw ci.
Proof using. done. Qed.

Lemma empty_rel n is_set m : 0 <= n -> m = 0 -> coll_rel n (empty_collection is_set) (MkSColl is_set []) m.
Proof using.
  intros Hn ->. split; try done.
  - split; try done. constructor.
  - split; cbn; [unfold BOUND; lia|lia|done].
Qed.

(** No iterator is attached to a collection that does not exist yet. *)
Lemma attached_none n w sw ci : world_rel n w sw -> (length (s_colls sw) <= ci)%nat -> attached sw ci = 0.
Proof using.
  intros Hw Hci. unfold attached, count_if. assert (List.filter (fun si => (si_coll si =? ci)%nat && negb (si_done si)) (s_iters sw) = []) as ->; [|done].
  destruct (List.filter _ (s_iters sw)) as [|si l] eqn:Ef; [done|exfalso].
  assert (In si (List.filter (fun si => (si_coll si =? ci)%nat && negb (si_done si)) (s_iters sw))) as Hin by (rewrite Ef; by left).
  apply List.filter_In in Hin as [Hin Hb]. apply andb_true_iff in Hb as [Hb%Nat.eqb_eq _]. apply list_elem_of_In, list_elem_of_lookup in Hin as (k & Hk).
  destruct (lookup_lt_is_Some_2 (iters w) k) as ([st ci'] & Hst); [rewrite <- (wr_iters _ _ _ Hw); by eapply lookup_lt_Some|].
  destruct (wr_iter _ _ _ Hw k st ci' si Hst Hk) as (Eci & h & sc & c & Hh & Hsc & _). apply lookup_lt_Some in Hsc. lia.
Qed.

Lemma coll_live n w sw ci h : world_rel n w sw -> colls w !! ci = Some h -> exists c, cell_at (realm w) h = Some (CCollection c).
Proof using.
  intros Hw Hh. pose proof (find_collection n w sw ci Hw) as Hf. rewrite Hh in Hf. destruct Hf as (sc & c & _ & Hc & _). exists c. by apply coll_at_cell.
Qed.

Lemma state_live n w sw k st ci : world_rel n w sw -> iters w !! k = Some (st, ci) -> exists a, cell_at (realm w) st = Some (CArray a).
Proof using.
  intros Hw Hk. destruct (lookup_lt_is_Some_2 (s_iters sw) k) as (si & Hsi); [rewrite (wr_iters _ _ _ Hw); by eapply lookup_lt_Some|].
  destruct (wr_iter _ _ _ Hw k st ci si Hk Hsi) as (_ & h & sc & c & _ & _ & _ & _ & idx & e & last & status & Hcell & _). by eexists.
Qed.

(** Allocating a cell that is no string and no BigInt leaves the world as it is. *)
Lemma alloc_frame n w sw h x r' : world_rel n w sw -> cell_at (realm w) h = None -> content_of (Some x) = None ->
  writes (realm w) r' h x -> world_rel n (MkWorld r' (colls w) (iters w)) sw /\ (h ∉ colls w) /\ h ∉ (fst <$> iters w).
Proof using.
  intros Hw Hnone Hx Hwr.
  assert (Hc : forall ci h', colls w !! ci = Some h' -> h' <> h). { intros ci h' Hh' ->. destruct (coll_live n w sw ci h Hw Hh') as (c & Hc). congruence. }
  assert (Hs : forall k st ci, iters w !! k = Some (st, ci) -> st <> h). { intros k st ci Hk ->. destruct (state_live n w sw k h ci Hw Hk) as (a & Ha). congruence. }
  split; [|split].
  - destruct Hw as [W1 W2 W3 W4 W5 W6 W7 W8 W9]. split; cbn [realm colls iters]; try done.
    + apply (w_ok _ _ _ _ Hwr).
    + eapply same_contents_trans; [done|]. eapply writes_content; [done|by rewrite Hnone|done].
    + intros ci h' sc Hh' Hsc. destruct (W8 ci h' sc Hh' Hsc) as (c & Hcc & Hr). exists c. split; [|done]. unfold coll_at. rewrite (w_else _ _ _ _ Hwr); [done|by eapply Hc].
    + intros k st ci si Hk Hsi. destruct (W9 k st ci si Hk Hsi) as (E & h1 & sc & c & Hh1 & Hsc & Hcc & Hir). split; [done|]. exists h1, sc, c. split_and!; [done|done| |].
      * unfold coll_at. rewrite (w_else _ _ _ _ Hwr); [done|by eapply Hc].
      * destruct Hir as [K1 (idx & e & last & status & K2 & K3)]. split; [done|]. exists idx, e, last, status. rewrite (w_else _ _ _ _ Hwr); [done|by eapply Hs].
  - intros Hin. apply list_elem_of_lookup in Hin as (ci & Hci). by apply (Hc ci h).
  - intros Hin. apply list_elem_of_fmap in Hin as ([st ci] & -> & Hin). apply list_elem_of_lookup in Hin as (k & Hk). by apply (Hs k st ci).
Qed.

Lemma later n n' w sw : n <= n' -> world_rel n w sw -> world_rel n' w sw.
Proof using.
  intros Hn [W1 W2 W3 W4 W5 W6 W7 W8 W9]. split; try done; [lia|]. intros ci h sc Hh Hsc. destruct (W8 ci h sc Hh Hsc) as (c & Hc & Hr).
  exists c. split; [done|]. by eapply weaken_rel.
Qed.

Lemma new_refines grow n w sw is_set : world_rel n w sw -> 0 <= n -> room (realm w) ->
  exists w', run_coll_op grow (CNew is_set) w = Some (CDone, w') /\ world_rel (n + 1) w' (snd (s_coll_op eqv (CNew is_set) sw)).
Proof using.
  intros Hw Hn Hroom. cbn [run_coll_op s_coll_op snd]. unfold new_collection.
  destruct (alloc_cell_spec grow (realm w) (CCollection (empty_collection is_set)) (wr_realm _ _ _ Hw) Hroom) as (h & r' & Hrun & Hnone & Hwr).
  rewrite Hrun. cbn [mbind option_bind]. eexists. split; [done|]. pose proof (attached_none n w sw (length (s_colls sw)) Hw ltac:(done)) as Hatt.
  destruct (alloc_frame n w sw h (CCollection (empty_collection is_set)) r' Hw Hnone eq_refl Hwr) as (Hw' & Hnew & _). apply (later n (n + 1)) in Hw'; [|lia].
  destruct Hw' as [W1 W2 W3 W4 W5 W6 W7 W8 W9]. cbn [realm colls iters] in *. split; cbn [realm colls iters s_colls s_iters]; try done.
  - apply NoDup_app. split_and!; [done| |apply NoDup_singleton]. intros x Hx ->%list_elem_of_singleton. done.
  - rewrite !length_app, W5. done.
  - intros ci h' sc Hh' Hsc. rewrite attached_app_coll. destruct (decide (ci < length (colls w))%nat) as [Hlt|Hge].
    + rewrite lookup_app_l in Hh' by lia. rewrite lookup_app_l in Hsc by lia. by apply W8.
    + apply lookup_app_Some in Hh' as [Hh'|[_ Hh']]; [apply lookup_lt_Some in Hh'; lia|]. apply list_lookup_singleton_Some in Hh' as [Hci <-].
      assert (ci = length (colls w)) as -> by lia. rewrite <- W5, list_lookup_middle in Hsc by done. injection Hsc as <-.
      exists (empty_collection is_set). split; [apply coll_at_cell, (w_here _ _ _ _ Hwr)|]. apply empty_rel; [lia|]. by rewrite <- W5.
  - intros k st ci si Hk Hsi. destruct (W9 k st ci si Hk Hsi) as (E & h1 & sc & c & Hh1 & Hsc & Hcc & Hir). split; [done|]. exists h1, sc, c.
    split_and!; [by apply lookup_app_l_Some|by apply lookup_app_l_Some|done|done].
Qed.

(** ** Making an iterator *)

Lemma raw_current c idx : raw_cursor c idx (c_epoch c) = Some idx.
Proof using. unfold raw_cursor. by rewrite Z.eqb_refl. Qed.

Lemma current_cursor c sc idx pos : epochs_ok c -> 0 <= idx < BOUND -> same_lives c sc (Z.to_nat idx) pos -> cursor_rel c sc idx (c_epoch c) pos.
Proof using.
  intros Hep Hi Hs. pose proof (ep_range _ Hep). split; [done|lia|lia|]. intros i Hcur. rewrite raw_current in Hcur. injection Hcur as <-. split; [lia|done].
Qed.

Lemma attached_snoc sw ci si : attached (MkSWorld (s_colls sw) (s_iters sw ++ [si])) ci =
  attached sw ci + Z.b2z ((si_coll si =? ci)%nat && negb (si_done si)).
Proof using. unfold attached. cbn [s_iters]. rewrite count_if_app. unfold count_if at 2. cbn. by destruct (_ && _). Qed.

Lemma iters_steps n c sc m k : coll_rel n c sc m -> coll_rel n (set_iters k c) sc k.
Proof using. intros [H1 H2 H3 H4 H5 H6 H7]. split; try done; [by apply attach_ok|by destruct H2]. Qed.

Lemma iter_refines grow n w sw ci kind : world_rel n w sw -> 0 <= n -> n + 1 < BOUND -> 0 <= kind < 256 -> room (realm w) ->
  exists w', run_coll_op grow (CIter ci kind) w = Some (fst (s_coll_op eqv (CIter ci kind) sw), w') /\
    world_rel (n + 1) w' (snd (s_coll_op eqv (CIter ci kind) sw)).
Proof using.
  intros Hw Hn Hb Hkind Hroom. cbn [run_coll_op s_coll_op]. pose proof (find_collection n w sw ci Hw) as Hf. destruct (colls w !! ci) as [h|] eqn:Hh.
  2:{ rewrite Hf. exists w. split; [done|]. apply (later n); [lia|done]. }
  destruct Hf as (sc & c & Hsc & Hc & Hrel & Hok). rewrite Hsc.
  destruct (collection_iter_state_spec grow (realm w) h c kind (wr_realm _ _ _ Hw) Hc Hok Hroom) as (st & r' & Hrun & Hr' & Hnone & Hst & Hne & Hcoll & Helse).
  rewrite Hrun. cbn [mbind option_bind fst snd]. eexists. split; [done|].
  pose proof (cr_iters _ _ _ _ Hrel) as Hit. pose proof (count_nonneg sw ci) as Hnn.
  assert (Hle : attached sw ci <= n). { pose proof (count_if_le (fun si => (si_coll si =? ci)%nat && negb (si_done si)) (s_iters sw)) as Hl. fold (attached sw ci) in Hl. pose proof (wr_iters _ _ _ Hw). pose proof (wr_count _ _ _ Hw). lia. }
  assert (Hw32 : as_u32 (c_iters c + 1) = attached sw ci + 1) by (rewrite Hit; apply as_u32_small; unfold BOUND in *; lia). rewrite Hw32 in Hcoll.
  pose proof Hw as [W1 W2 W3 W4 W5 W6 W7 W8 W9].
  assert (Hcs : forall ci' h', colls w !! ci' = Some h' -> h' <> st). { intros ci' h' Hh' ->. destruct (coll_live n w sw ci' st Hw Hh') as (c1 & Hc1). congruence. }
  assert (Hss : forall k st' ci', iters w !! k = Some (st', ci') -> st' <> st /\ st' <> h).
  { intros k st' ci' Hk. split; [|by eapply world_cells_differ]. intros ->. destruct (state_live n w sw k st ci' Hw Hk) as (a & Ha). congruence. }
  assert (Hco : forall ci' h', colls w !! ci' = Some h' -> ci' <> ci -> cell_at r' h' = cell_at (realm w) h').
  { intros ci' h' Hh' Hd. apply Helse; [|by eapply Hcs]. intros ->. apply Hd. exact (NoDup_lookup _ _ _ _ W3 Hh' Hh). }
  split; cbn [realm colls iters s_colls s_iters]; try done.
  - intros raw. rewrite <- (W2 raw). unfold content. destruct (decide (from_raw raw = h)) as [->|]; [|destruct (decide (from_raw raw = st)) as [->|]].
    + apply coll_at_cell in Hc. by rewrite Hcoll, Hc.
    + by rewrite Hst, Hnone.
    + by rewrite Helse.
  - rewrite fmap_app. apply NoDup_app. split_and!; [done| |apply NoDup_singleton]. intros x Hx ->%list_elem_of_singleton.
    apply list_elem_of_fmap in Hx as ([st' ci'] & E & Hin). apply list_elem_of_lookup in Hin as (k & Hk). cbn in E. subst st'. by destruct (Hss k st ci' Hk).
  - rewrite !length_app. simpl. lia.
  - rewrite length_app. simpl. lia.
  - intros ci' h' sc' Hh' Hsc'. rewrite attached_snoc. cbn [si_coll si_done negb]. rewrite andb_true_r. destruct (decide (ci' = ci)) as [->|Hd].
    + assert (h' = h) as -> by congruence. assert (sc' = sc) as -> by congruence. exists (set_iters (attached sw ci + 1) c). split; [by apply coll_at_cell|].
      rewrite Nat.eqb_refl. eapply iters_steps, weaken_rel, Hrel. lia.
    + destruct (Nat.eqb_spec ci ci'); [congruence|]. rewrite Z.add_0_r. destruct (W8 ci' h' sc' Hh' Hsc') as (c1 & Hc1 & Hr1). exists c1.
      split; [unfold coll_at in *; by rewrite (Hco ci' h' Hh' Hd)|]. apply (weaken_rel n); [lia|done].
  - intros k st' ci' si Hk Hsi. destruct (decide (k < length (iters w))%nat) as [Hlt|Hge].
    + rewrite lookup_app_l in Hk by lia. rewrite lookup_app_l in Hsi by lia. destruct (W9 k st' ci' si Hk Hsi) as (E & h1 & sc1 & c1 & Hh1 & Hsc1 & Hc1 & Hir). split; [done|].
      destruct (Hss k st' ci' Hk) as [Hs1 Hs2]. destruct Hir as [K1 (idx & e & last & status & K2 & K3)].
      destruct (decide (ci' = ci)) as [->|Hd].
      * assert (h1 = h) as -> by congruence. assert (sc1 = sc) as -> by congruence. assert (c1 = c) as -> by congruence.
        exists h, sc, (set_iters (attached sw ci + 1) c). split_and!; [done|done|by apply coll_at_cell|]. split; [done|]. exists idx, e, last, status. rewrite Helse by done.
        split; [done|]. destruct (si_done si); [done|]. destruct K3 as [K3 [C1 C2 C3 C4]]. split; [done|]. by split.
      * exists h1, sc1, c1. unfold coll_at. rewrite (Hco ci' h1 Hh1 Hd). split_and!; [done|done|done|]. split; [done|]. exists idx, e, last, status. by rewrite Helse.
    + apply lookup_app_Some in Hk as [Hk|[_ Hk]]; [apply lookup_lt_Some in Hk; lia|]. apply list_lookup_singleton_Some in Hk as [Hk [= <- <-]].
      assert (k = length (iters w)) as -> by lia. rewrite <- W6, list_lookup_middle in Hsi by done. injection Hsi as <-. split; [done|].
      exists h, sc, (set_iters (attached sw ci + 1) c). split_and!; [done|done|by apply coll_at_cell|]. split; [done|].
      exists 0, (c_epoch c), undefined, 0. cbn [si_kind si_done si_pos]. split; [done|]. split; [by left|].
      change (c_epoch c) with (c_epoch (set_iters (attached sw ci + 1) c)). apply current_cursor; [by destruct (cr_epochs _ _ _ _ Hrel)|unfold BOUND; lia|apply (cr_lives _ _ _ _ Hrel)].
Qed.
End Refine.
