(* ===== verification/CollectionHistory.v ===== *)
(** * Histories of collections

    A step of an iterator, then every operation, then any history: the answers are
    the specification's ([collections_refine]). *)

From Stdlib Require Import String.
From S2P Require Import Prelude Prog Probe CollIndex CollIndexSpec NanBox Float Heap HeapInv Gc Shape HeapSpec.
From S2P Require Import Collection CollectionBase CollectionList CollectionOps CollectionIter CollectionSpec CollectionRefine.

#[local] Abbreviation length := Datatypes.length.
#[local] Open Scope Z_scope.

Section History.
Context {P : Type} (r0 : Realm P).
Implicit Types (r : Realm P) (h st : Heap.Handle) (c : Collection) (sc : SColl) (si : SIter) (w : CollWorld P) (sw : SWorld).

Abbreviation eqv := (same_value_zero r0).

(** ** A step of an iterator *)

Definition live_of (ci : nat) si : bool := (si_coll si =? ci)%nat && negb (si_done si).

Lemma count_if_insert {T} (f : T -> bool) (l : list T) k x y : l !! k = Some x ->
  count_if f (<[k := y]> l) = count_if f l - Z.b2z (f x) + Z.b2z (f y).
Proof using.
  unfold count_if. revert k. induction l as [|z l IH]; intros [|k] Hk; simplify_eq/=.
  - destruct (f x), (f y); simpl; lia.
  - specialize (IH k Hk). destruct (f z); simpl; lia.
Qed.

Lemma attached_put sw it si si' ci : s_iters sw !! it = Some si ->
  attached (MkSWorld (s_colls sw) (<[it := si']> (s_iters sw))) ci = attached sw ci - Z.b2z (live_of ci si) + Z.b2z (live_of ci si').
Proof using. apply count_if_insert. Qed.

(** Iterators look at the entries, the epoch and the renumberings only. *)
Record same_numbering c c' : Prop := {
  sn_entries : c_entries c' = c_entries c;
  sn_set : c_set c' = c_set c;
  sn_epoch : c_epoch c' = c_epoch c;
  sn_remaps : c_remaps c' = c_remaps c }.

Lemma numbering_cursor c c' sc idx e pos : same_numbering c c' -> cursor_rel c sc idx e pos -> cursor_rel c' sc idx e pos.
Proof using.
  intros [N1 N2 N3 N4] [C1 C2 C3 C4]. unfold remaps in *. split; unfold remaps; rewrite ?N3, ?N4; try done.
  intros i Hi. unfold same_lives. rewrite N1. apply C4. unfold raw_cursor in *. by rewrite <- N3, <- N4.
Qed.

Lemma numbering_iter r r' st c c' sc si : same_numbering c c' -> cell_at r' st = cell_at r st -> iter_rel r st c sc si -> iter_rel r' st c' sc si.
Proof using.
  intros Hn Hc [K1 (idx & e & last & status & K2 & K3)]. split; [done|]. exists idx, e, last, status. rewrite Hc. split; [done|].
  destruct (si_done si); [done|]. destruct K3. split; [done|]. by eapply numbering_cursor.
Qed.

Lemma numbering_rel n c c' sc m m' : same_numbering c c' -> coll_ok r0 c' -> c_iters c' = m' -> coll_rel r0 n c sc m -> coll_rel r0 n c' sc m'.
Proof using.
  intros [N1 N2 N3 N4] Hok Hit [H1 [E1 E2 E3] H3 H4 H5 H6 H7]. unfold remaps in *. split; try done.
  - split; unfold remaps; rewrite ?N3, ?N4; done.
  - by rewrite N2.
  - unfold same_lives. by rewrite N1.
  - by rewrite N1.
  - by rewrite N3.
Qed.

(** The iterator [it] is stepped; its collection is [c] before and [c'] after. *)
Lemma one_step n w sw it st ci h sc c c' x r' si si' : world_rel r0 n w sw -> iters w !! it = Some (st, ci) -> s_iters sw !! it = Some si ->
  colls w !! ci = Some h -> s_colls sw !! ci = Some sc -> coll_at (realm w) h = Some c ->
  realm_ok r' -> cell_at r' h = Some (CCollection c') -> cell_at r' st = Some x -> content_of (Some x) = None ->
  (forall h', h' <> h -> h' <> st -> cell_at r' h' = cell_at (realm w) h') ->
  same_numbering c c' -> coll_ok (realm w) c' -> si_coll si' = si_coll si -> iter_rel r' st c' sc si' ->
  c_iters c' = attached sw ci - Z.b2z (negb (si_done si)) + Z.b2z (negb (si_done si')) ->
  world_rel r0 n (MkWorld r' (colls w) (iters w)) (MkSWorld (s_colls sw) (<[it := si']> (s_iters sw))).
Proof using.
  intros Hw Hk Hsi Hh Hsc Hc Hok Hh' Hst Hx Helse Hnum Hcok Hcoll Hir Hcount. pose proof Hw as [W1 W2 W3 W4 W5 W6 W7 W8 W9].
  pose proof (world_cells_differ r0 n w sw ci h it st ci Hw Hh Hk) as Hd.
  destruct (W9 it st ci si Hk Hsi) as (Eci & _). destruct (state_live r0 n w sw it st ci Hw Hk) as (a & Ha). pose proof (lookup_lt_Some _ _ _ Hsi) as Hlt.
  assert (Hsame : same_contents r0 r').
  { intros raw. rewrite <- (W2 raw). unfold content. destruct (decide (from_raw raw = h)) as [->|]; [|destruct (decide (from_raw raw = st)) as [->|]].
    - apply coll_at_cell in Hc. by rewrite Hh', Hc.
    - by rewrite Hst, Ha, Hx.
    - by rewrite Helse. }
  assert (Hco : forall ci' h1, colls w !! ci' = Some h1 -> ci' <> ci -> coll_at r' h1 = coll_at (realm w) h1).
  { intros ci' h1 Hh1 Hne. unfold coll_at. rewrite Helse; [done| |by intros ->; eapply (world_cells_differ r0 n w sw ci' st it st ci)].
    intros ->. apply Hne. exact (NoDup_lookup _ _ _ _ W3 Hh1 Hh). }
  split; cbn [realm colls iters s_colls s_iters]; try done.
  - by rewrite length_insert.
  - intros ci' h1 sc1 Hh1 Hsc1. rewrite (attached_put _ _ si) by done. unfold live_of. rewrite Hcoll, Eci. destruct (W8 ci' h1 sc1 Hh1 Hsc1) as (c1 & Hc1 & Hr1).
    destruct (Nat.eqb_spec ci ci') as [<-|Hne].
    + assert (h1 = h) as -> by congruence. assert (sc1 = sc) as -> by congruence. assert (c1 = c) as -> by congruence. exists c'. split; [by apply coll_at_cell|].
      eapply numbering_rel; [done|by apply (back r0 (realm w))|exact Hcount|done].
    + exists c1. rewrite (Hco ci' h1) by done. split; [done|]. cbn [andb Z.b2z]. by rewrite Z.sub_0_r, Z.add_0_r.
  - intros k st' ci' si1 Hk' Hsi'. destruct (decide (k = it)) as [->|Hne].
    + rewrite list_lookup_insert_eq in Hsi' by done. injection Hsi' as <-. rewrite Hk in Hk'. injection Hk' as <- <-. split; [congruence|].
      exists h, sc, c'. split_and!; [done|done|by apply coll_at_cell|done].
    + rewrite list_lookup_insert_ne in Hsi' by done. destruct (W9 k st' ci' si1 Hk' Hsi') as (E & h1 & sc1 & c1 & Hh1 & Hsc1 & Hc1 & Hir1). split; [done|].
      assert (Hs : cell_at r' st' = cell_at (realm w) st').
      { apply Helse; [by eapply world_cells_differ|]. intros ->. apply Hne. eapply NoDup_lookup; [exact W4| |]; rewrite list_lookup_fmap, ?Hk, ?Hk'; done. }
      destruct (decide (ci' = ci)) as [->|Hne'].
      * assert (h1 = h) as -> by congruence. assert (sc1 = sc) as -> by congruence. assert (c1 = c) as -> by congruence. exists h, sc, c'.
        split_and!; [done|done|by apply coll_at_cell|]. by eapply numbering_iter.
      * exists h1, sc1, c1. rewrite (Hco ci' h1) by done. split_and!; [done..|]. by eapply numbering_iter.
Qed.

(** What is known of a live iterator at rest that is not too far behind. *)
Lemma at_rest n w sw it st ci h sc c si idx e last status : world_rel r0 n w sw -> iters w !! it = Some (st, ci) -> colls w !! ci = Some h ->
  coll_at (realm w) h = Some c -> coll_rel r0 n c sc (attached sw ci) -> lag w it <= 8 -> 0 <= si_kind si < 256 ->
  cell_at (realm w) st = Some (iter_cell (si_kind si) idx e last status) -> status = 0 \/ status = 1 -> cursor_rel c sc idx e (si_pos si) ->
  exists i, at_cursor (realm w) st h c (si_kind si) idx e last status i /\ same_lives c sc (Z.to_nat i) (si_pos si).
Proof using.
  intros Hw Hk Hh Hc Hrel Hlag Hkind Hcell Hstat [C1 C2 C3 C4]. pose proof (cr_epochs _ _ _ _ _ Hrel) as Hep. pose proof (ep_range _ Hep) as Hr. pose proof (ep_short _ Hep) as Hs.
  unfold lag in Hlag. rewrite Hk, Hcell in Hlag. cbn [iter_cell] in Hlag. rewrite Hh in Hlag. cbn [mbind option_bind] in Hlag. rewrite Hc, status_done in Hlag by tauto.
  assert ((status =? 2) = false) as E2 by (destruct Hstat as [->| ->]; done). rewrite E2 in Hlag.
  rewrite num_uint, f64_uint_roundtrip in Hlag by (unfold BOUND in *; lia).
  destruct (cursor_known c idx e Hep) as (i & Hi). { destruct (decide (length (remaps c) < 8)%nat); [split; [by apply C3|lia]|lia]. }
  destruct (C4 i Hi) as [Hi0 Hsame]. pose proof (rest_bound _ _ _ _ Hsame). exists i. split; [|done].
  split; try done; try lia; [apply cursor_raw; [done|lia]].
Qed.

Lemma next_refines grow n w sw it : world_rel r0 n w sw -> n < BOUND -> lag w it <= 8 ->
  exists w', run_coll_op grow (CNext it) w = Some (fst (s_coll_op eqv (CNext it) sw), w') /\ world_rel r0 n w' (snd (s_coll_op eqv (CNext it) sw)).
Proof using.
  intros Hw Hn Hlag. cbn [run_coll_op s_coll_op]. destruct (iters w !! it) as [[st ci]|] eqn:Hk.
  2:{ rewrite (proj2 (lookup_ge_None (s_iters sw) it)); [by exists w|]. rewrite (wr_iters _ _ _ _ Hw). by apply lookup_ge_None. }
  destruct (lookup_lt_is_Some_2 (s_iters sw) it) as (si & Hsi); [rewrite (wr_iters _ _ _ _ Hw); by eapply lookup_lt_Some|]. rewrite Hsi.
  destruct (wr_iter _ _ _ _ Hw it st ci si Hk Hsi) as (Eci & h & sc & c & Hh & Hsc & Hc & Hir). rewrite Eci, Hsc. unfold on_coll_of, on_realm. rewrite Hh.
  destruct Hir as [Hkind (idx & e & last & status & Hcell & Hstat)]. unfold s_step. destruct (si_done si) eqn:Ed.
  - subst status. rewrite (done_spec _ _ _ _ _ _ _ Hcell). cbn [mbind option_bind fst snd]. rewrite list_insert_id by done. eexists. split; [done|]. by destruct Hw.
  - destruct Hstat as [Hstat Hcu]. destruct (wr_coll _ _ _ _ Hw ci h sc Hh Hsc) as (c0 & Hc0 & Hrel). assert (c0 = c) as -> by congruence.
    destruct (at_rest n w sw it st ci h sc c si idx e last status Hw Hk Hh Hc Hrel Hlag Hkind Hcell Hstat Hcu) as (i & Hat & Hsame).
    pose proof (cr_epochs _ _ _ _ _ Hrel) as Hep. pose proof (ep_range _ Hep) as Hr. pose proof (co_len _ _ (cr_ok _ _ _ _ _ Hrel)) as Hlen.
    assert (Hok : coll_ok (realm w) c) by (eapply coll_ok_contents; [apply (wr_same _ _ _ _ Hw)|apply (cr_ok _ _ _ _ _ Hrel)]).
    destruct (collection_iter_advance_spec (realm w) st h c _ idx e last status i (wr_realm _ _ _ _ Hw) Hc Hok Hat ltac:(lia))
      as (ans & r' & c' & x & Hrun & Hr' & Hh' & Hst' & Helse & Hok' & Hes & Hset & _ & Hepc & Hrem & Hans).
    rewrite Hrun. cbn [mbind option_bind]. destruct Hsame as (Hi1 & Hp1 & Hl). rewrite Hl in Hans.
    pose proof (first_live_spec (drop (si_pos si) (s_list sc))) as Hf. assert (Hnum : same_numbering c c') by done.
    pose proof (attached_iter sw it si Hsi Ed) as Hatt. rewrite Eci in Hatt. pose proof (cr_iters _ _ _ _ _ Hrel) as Hit.
    destruct (first_live _) as [[d e']|].
    + destruct Hf as [Hd Hf]. rewrite Hf in Hans. destruct Hans as (-> & Hit' & pos & -> & Hpos & Hrest). cbn [fst snd]. eexists. split; [done|].
      eapply (one_step n w sw it st ci h sc c c'); try done.
      * split; [done|]. exists pos, (c_epoch c), (fst e'), 1. cbn [si_kind si_done si_pos]. split; [done|]. split; [by right|].
        rewrite <- Hepc. eapply current_cursor; [|pose proof (ac_range _ _ _ _ _ _ _ _ _ _ Hat); unfold BOUND in *; lia|].
        { destruct Hep as [E1 E2 E3]. split; unfold remaps in *; rewrite ?Hepc, ?Hrem; done. }
        unfold same_lives, same_rest. rewrite Hes, view_length. rewrite length_drop in Hd. split_and!; [lia|lia|].
        rewrite Hrest, drop_drop. do 2 f_equal. lia.
      * rewrite Ed. cbn [si_done negb Z.b2z]. lia.
    + rewrite Hf in Hans. destruct Hans as (-> & Hit' & ->). cbn [fst snd]. eexists. split; [done|].
      eapply (one_step n w sw it st ci h sc c c'); try done.
      * split; [done|]. by exists idx, e, last, 2.
      * rewrite Ed. cbn [si_done negb Z.b2z]. lia.
Qed.

(** ** Every operation *)

Lemma roomy_has_room w : roomy w = true -> room (realm w).
Proof using. unfold roomy, room. rewrite orb_true_iff, Nat.ltb_lt, Z.ltb_lt. done. Qed.

(** The list a client sees, and how long it is. *)
Lemma entries_lives es : List.filter (fun e => negb (is_dead e)) es = lives (view es).
Proof using. unfold lives, view. induction es as [|e es IH]; [done|]. cbn. destruct (is_dead e); cbn; [exact IH|by f_equal]. Qed.

Lemma rel_lives n c sc m : coll_rel r0 n c sc m -> lives (view (c_entries c)) = lives (s_list sc).
Proof using. intros Hrel. destruct (cr_lives _ _ _ _ _ Hrel) as (_ & _ & E). by rewrite !drop_0 in E. Qed.

Lemma still n c sc m r h : realm_ok r -> coll_at r h = Some c -> coll_rel r0 n c sc m ->
  writes r r h (CCollection c) /\ steps_to r0 n c sc c (MkSColl (s_set sc) (s_list sc)).
Proof using.
  intros Hr Hc Hrel. split; [apply writes_self; [done|by apply coll_at_cell]|]. eapply read_steps; [done|apply (cr_ok _ _ _ _ _ Hrel)|done|done].
Qed.

Lemma coll_op_refines grow n w sw o : world_rel r0 n w sw -> 0 <= n -> n + 1 < BOUND -> fair_op o w = true ->
  exists w', run_coll_op grow o w = Some (fst (s_coll_op eqv o sw), w') /\ world_rel r0 (n + 1) w' (snd (s_coll_op eqv o sw)).
Proof using.
  intros Hw Hn Hb Hfair. pose proof (wr_realm _ _ _ _ Hw) as Hr. pose proof (wr_same _ _ _ _ Hw) as Hs.
  destruct o as [is_set|ci k v|ci k|ci k|ci k|ci|ci|ci|ci kind|it]; cbn [fair_op] in Hfair.
  - apply new_refines; [done|done|by apply roomy_has_room].
  - apply negb_true_iff in Hfair. apply refine_on; [done|]. intros h sc c _ Hc Hrel Hok. exists true.
    destruct (coll_set_refines r0 n c sc _ (realm w) h k v Hrel Hr Hs Hc Hok Hb Hfair) as (r' & c' & Hrun & Hrest). by exists r', c'.
  - apply refine_on; [done|]. intros h sc c _ Hc Hrel Hok. destruct (collection_get_spec (realm w) h c k Hr Hc Hok) as (r' & c' & Hrun & Hwr & Hok' & Hfr & Hes).
    rewrite (lookup_same r0 n c sc _ k (realm w) Hrel Hs) in Hrun. exists (snd <$> s_lookup eqv k (s_list sc)), r', c'. split_and!; [done..|].
    eapply read_steps; [done|by eapply (back r0 (realm w))|done|done].
  - apply refine_on; [done|]. intros h sc c _ Hc Hrel Hok. destruct (collection_has_spec (realm w) h c k Hr Hc Hok) as (r' & c' & Hrun & Hwr & Hok' & Hfr & Hes).
    rewrite (lookup_same r0 n c sc _ k (realm w) Hrel Hs) in Hrun. eexists _, r', c'. split_and!; [exact Hrun|done|done|].
    eapply read_steps; [done|by eapply (back r0 (realm w))|done|done].
  - apply refine_on; [done|]. intros h sc c _ Hc Hrel Hok.
    destruct (delete_refines r0 n c sc _ (realm w) h k Hrel Hr Hs Hc Hok Hb) as (r' & c' & Hrun & Hrest). by eexists _, r', c'.
  - apply refine_on; [done|]. intros h sc c _ Hc Hrel Hok. exists tt.
    destruct (clear_refines r0 n c sc _ (realm w) h Hrel (count_nonneg sw ci) Hr Hs Hc Hok) as (r' & c' & Hrun & Hrest). by exists r', c'.
  - apply refine_on; [done|]. intros h sc c _ Hc Hrel Hok. eexists _, (realm w), c. split; [done|]. split; [|by eapply still].
    unfold collection_size. rewrite Hc. cbn. by rewrite (co_live _ _ Hok), (rel_lives n c sc _ Hrel).
  - apply refine_on; [done|]. intros h sc c _ Hc Hrel Hok. eexists _, (realm w), c. split; [done|]. split; [|by eapply still].
    unfold collection_entries. rewrite Hc. cbn. by rewrite entries_lives, (rel_lives n c sc _ Hrel).
  - rewrite !andb_true_iff, Z.leb_le, Z.ltb_lt in Hfair. destruct Hfair as [[Hroom H1] H2]. apply iter_refines; [done|done|done|lia|by apply roomy_has_room].
  - apply Z.leb_le in Hfair. destruct (next_refines grow n w sw it Hw ltac:(lia) Hfair) as (w' & Hrun & Hw'). exists w'. split; [done|]. eapply later; [|done]. lia.
Qed.

(** ** Histories *)

Lemma run_colls_refines grow ops : forall n w sw, world_rel r0 n w sw -> 0 <= n -> n + Z.of_nat (length ops) < BOUND -> fair grow ops w = true ->
  exists w', run_colls grow ops w = Some (fst (s_run_colls eqv ops sw), w') /\ world_rel r0 (n + Z.of_nat (length ops)) w' (snd (s_run_colls eqv ops sw)).
Proof using.
  induction ops as [|o ops IH]; intros n w sw Hw Hn Hb Hfair.
  - exists w. split; [done|]. by rewrite Z.add_0_r.
  - cbn [fair] in Hfair. apply andb_true_iff in Hfair as [Ho Hfair]. cbn [Datatypes.length] in Hb.
    destruct (coll_op_refines grow n w sw o Hw Hn ltac:(lia) Ho) as (w1 & Hrun & Hw1). rewrite Hrun in Hfair.
    cbn [run_colls s_run_colls]. rewrite Hrun. cbn [mbind option_bind]. destruct (s_coll_op eqv o sw) as [a sw1]. cbn [fst snd] in *.
    destruct (IH (n + 1) w1 sw1 Hw1 ltac:(lia) ltac:(lia) Hfair) as (w2 & Hrun2 & Hw2). rewrite Hrun2. cbn [mbind option_bind].
    destruct (s_run_colls eqv ops sw1) as [l sw2]. cbn [fst snd] in *. exists w2. split; [done|].
    eapply later; [|done]. cbn [Datatypes.length]. lia.
Qed.

Lemma start_rel : realm_ok r0 -> world_rel r0 0 (MkWorld r0 [] []) (MkSWorld [] []).
Proof using. intros Hr. split; try done; constructor. Qed.
End History.

(** C4: whatever operations a program applies to any number of maps and sets and to any number of iterators over them, with keys that are numbers, booleans, strings, BigInts and objects, the engine answers every one of them, and answers as ECMAScript's specification does, whose keys are compared by SameValueZero (one NaN, one zero, strings and BigInts by content), whose entry lists are never reordered nor compacted and whose iterators are positions in them: the hash index built on demand, the moving dead prefix, the compactions and the renumbering of live iterators do not show.  This holds of the histories that are [fair]: an iterator is stepped again before more than eight compactions of its collection have gone by since its last step (beyond that the code looks for the last key it gave, or clamps the cursor, and may skip entries: [late_cursor_skips]), the heap has room for the cells that are made, and no key is the engine's internal hole; and that are shorter than 2^31 operations. *)
Theorem collections_refine {P} grow (r : Realm P) ops : realm_ok r -> fair grow ops (MkWorld r [] []) = true -> Z.of_nat (length ops) < BOUND ->
  exists w, run_colls grow ops (MkWorld r [] []) = Some (fst (s_run_colls (key_eqv r) ops (MkSWorld [] [])), w).
Proof.
  intros Hr Hfair Hlen. rewrite <- (s_run_colls_proper _ _ (same_value_zero_key r) ops ops eq_refl _ _ eq_refl). destruct (run_colls_refines r grow ops 0 _ _ (start_rel r Hr) ltac:(lia) ltac:(lia) Hfair) as (w & Hrun & _). by exists w.
Qed.

(** Two heap strings with the same bytes. *)
Definition example_strings : prog (Realm unit) (Heap.Handle * Heap.Handle) :=
  a ← alloc_cell HeapSpec.vec_grow (CStr [97; 98]); b ← alloc_cell HeapSpec.vec_grow (CStr [97; 98]); mret (a, b).
Definition example_realm : Realm unit :=
  match example_strings (MkRealm (Heap.new tt 0) None) with Some (_, r) => r | None => MkRealm (Heap.new tt 0) None end.

(** Set under one string and read under the other; twenty numbers in and out, so
    that the list is compacted; an iterator that sees it all. *)
Definition example_history : list CollOp :=
  let n i := number (f64_of_uint i) in
  let a := handle (to_raw (Heap.MkHandle 0 0)) in
  let b := handle (to_raw (Heap.MkHandle 1 0)) in
  [CNew false; CSet 0 a (n 1); CSet 0 (n 0) (n 2)] ++ ((fun i => CSet 0 (n (Z.of_nat i)) a) <$> seq 1 20) ++ [CGet 0 b] ++
  ((fun i => CDelete 0 (n (Z.of_nat i))) <$> seq 1 20) ++ [CSize 0; CIter 0 2; CNext 0; CDelete 0 (n 0); CSet 0 (n 7) a; CNext 0; CNext 0; CNext 0].

Lemma example_realm_ok : realm_ok example_realm.
Proof.
  assert (Hr : realm_ok (MkRealm (Heap.new tt 0) None : Realm unit)) by (split; [apply HeapSpec.new_wf|done]).
  destruct (alloc_cell_spec HeapSpec.vec_grow _ (CStr [97; 98]) Hr) as (a & r1 & Hrun1 & _ & Hw1); [by right|].
  destruct (alloc_cell_spec HeapSpec.vec_grow r1 (CStr [97; 98]) (w_ok _ _ _ _ Hw1)) as (b & r2 & Hrun2 & _ & Hw2).
  { right. vm_compute in Hrun1. by injection Hrun1 as <- <-. }
  unfold example_realm, example_strings. rewrite (bind_run _ _ _ _ _ Hrun1), (bind_run _ _ _ _ _ Hrun2). apply (w_ok _ _ _ _ Hw2).
Qed.

Lemma collections_refine_witness : fair HeapSpec.vec_grow example_history (MkWorld example_realm [] []) = true /\
  exists w, run_colls HeapSpec.vec_grow example_history (MkWorld example_realm [] []) =
    Some (fst (s_run_colls (key_eqv example_realm) example_history (MkSWorld [] [])), w).
Proof.
  split; [vm_compute; reflexivity|]. apply collections_refine; [exact example_realm_ok|vm_compute; reflexivity|vm_compute; reflexivity].
Defined.

(** ** A cursor that is too late

    A map of [1] and [2], an iterator that gave [1], then [1] deleted and nine
    compactions: the code kept eight renumberings, does not find the last key, and
    leaves the cursor where it was, past [2].  ECMAScript's next entry is [2]. *)
Definition late_collection : Collection :=
  let n i := number (f64_of_uint i) in
  MkCollection false false [(n 2, n 2)] 1 1 9 (Some ((fun e => (e, [0; 1])) <$> seqZ 1 8)) None.

Definition late_step : prog (Realm unit) (option (Z * NanBox * NanBox)) :=
  h ← alloc_cell HeapSpec.vec_grow (CCollection late_collection);
  st ← alloc_cell HeapSpec.vec_grow (iter_cell 2 1 0 (number (f64_of_uint 1)) 1);
  collection_iter_advance st h.

Lemma late_cursor_skips : epochs_ok late_collection /\ cursor late_collection 1 0 = None /\
  fst <$> late_step (MkRealm (Heap.new tt 0) None) = Some None.
Proof. split; [|split; vm_compute; reflexivity]. split; vm_compute; try (split; [discriminate|reflexivity]); reflexivity || (repeat constructor). Qed.
